(* ===== verification/_CoqProject ===== *)
-Q . S2P
Prelude.v
GoStrings.v
GoPath.v
Json.v
Sha256.v
Base64.v
WebPush.v
PromptQueue.v
PromptJournal.v
StartJournal.v
StartThread.v
StartCapability.v
DaemonWire.v
ActiveTurn.v
Daemon.v
DaemonCommands.v
Catalog.v
PromptStore.v
Protocol.v
JsonDecode.v
CodexAppServer.v
CodexAdapter.v
DiscoveryCache.v
CodexRollout.v
ClaudeCommander.v
ClaudeAdapter.v
AcpStart.v
AdapterRegistry.v
NetNames.v
Sealed.v
DaemonClient.v
Connections.v
RelayInput.v
Relay.v
AccessStore.v
NestDatabase.v
RelayAccess.v
Principals.v
Attachments.v
RelayEdge.v
AttachDownload.v
DaemonSetup.v
PromptQueueSpec.v
PromptJournalSpec.v
StartJournalSpec.v
StartThreadSpec.v
StartCapabilitySpec.v
ActiveTurnSpec.v
DaemonWireSpec.v
DaemonSpec.v
CatalogSpec.v
PromptStoreSpec.v
ProtocolSpec.v
CodexAppServerSpec.v
CodexAdapterSpec.v
DiscoveryCacheSpec.v
CodexRolloutSpec.v
ClaudeAdapterSpec.v
AcpStartSpec.v
AdapterRegistrySpec.v
SealedSpec.v
DaemonClientSpec.v
ConnectionsSpec.v
RelaySpec.v
RelayPromptSpec.v
RelaySealedSpec.v
AccessSpec.v
PairingSpec.v
PrincipalsSpec.v
AttachmentsSpec.v
RelayEdgeSpec.v
AttachDownloadSpec.v
DaemonSetupSpec.v
NestDatabaseSpec.v
WebPushSpec.v
HostService.v
HostServiceSpec.v
KimiStore.v
GrokCommander.v
KimiCommander.v
