(* ===== verification/Prelude.v ===== *)
(** * NekoNest: a verification development (root file)

    ** The program

    NekoNest lets a phone watch and drive coding agents on another machine.
    Three programs take part. The phone runs a web application (pwa/, not
    modelled). A relay (relaycore/, with its database in server/internal/db)
    keeps one websocket per daemon and any number per phone, stores prompts,
    messages and attention events, and forwards frames; in sealed mode it only
    forwards ciphertext. A daemon (daemon/cmd/daemon) beside the agents
    executes the prompts: it queues them, records in a journal that one is
    about to be handed to an agent, hands it over, and reports acceptance,
    failure, progress and the list of sessions.

    What makes the program difficult is that a prompt must not be executed
    twice while every link and every process may fail in between. The relay's
    prompt table, the daemon's queue, its prompt journal and its thread-start
    journal are the four durable records of that; many theorems are about them
    and about the handlers that use them. The others are about who may do what
    at the relay, and about what sealed mode keeps from it.

    ** The files

    [C.v] holds the definitions of a component, [CSpec.v] its theorems with
    the concrete inputs they are applied at; [KimiStore], [KimiCommander] and
    [GrokCommander] hold both. Names are the source's.

    Shared: [Prelude] (results, map iteration order, files and codecs,
    [writeFileAtomic], sorting and filtering), [GoStrings] and [GoPath] (strings,
    unicode/utf8, path), [Json] (json.Valid), [JsonDecode] (json.Unmarshal),
    [Sha256], [Base64], [NetNames] (addresses, what net/url and net parse).

    Daemon, durable state:
    - [PromptQueue]: cmd/daemon/prompt_queue.go, one FIFO per session;
    - [PromptJournal]: cmd/daemon/prompt_journal.go, which prompts were handed
      to an agent;
    - [StartJournal]: internal/startjournal/journal.go, which thread creations
      were attempted.

    Daemon, state in memory and handlers:
    - [ActiveTurn]: active_turn.go, prompt_state.go and
      internal/adapters/control_tracker.go, which turn is running;
    - [StartThread]: start_thread.go, the coordinator of native thread creation;
    - [StartCapability]: the probe cache of start_thread.go;
    - [DaemonWire], [Daemon], [DaemonCommands], [Catalog]: main.go, namely its
      frames, the handlers of the prompt commands, routing with the other
      commands, and the discovery round. [Daemon] works on the queue, the journal and
      the registry of active turns;
    - [DaemonClient]: internal/connection/, the connection to the relay with its
      retries and changes of the endpoint;
    - [Sealed]: internal/sealed/sealed.go, internal/sealedkeys/manager.go and
      internal/identity/identity.go, the envelope of sealed frames and the keys.

    Daemon, the agent codex:
    - [CodexAppServer]: internal/agentexec/codex_appserver.go, the client of the
      process that runs codex. A method that waits for the process is a program
      of critical sections and calls, between which other steps may come;
    - [CodexAdapter], [CodexRollout]: internal/adapters/codex.go, how the
      daemon's commands reach codex, what its events become, how a process that
      exited is recovered; sessions and history from the rollout files;
    - [DiscoveryCache]: internal/adapters/discovery_cache.go.

    Daemon, the agent claude:
    - [ClaudeCommander]: internal/agentexec/executor.go, claude.go,
      diagnostics.go, and part of attachments.go and start_probe.go, the
      processes of the CLI and their output;
    - [ClaudeAdapter]: internal/adapters/claude_code.go, sessions and history from
      the transcripts; prompts on their way through turn tracker and commander,
      interleaved with the ends of processes.

    Daemon, the agents kimi and grok:
    - [KimiStore]: internal/adapters/kimi.go, sessions of its two stores and
      history;
    - [KimiCommander]: internal/agentexec/kimi.go, prompts in print mode and the
      messages of first turns over ACP;
    - [GrokCommander]: internal/agentexec/grok.go, its processes, and the streams
      that gather the chunks of an answer and show them in steps or by a timer.

    Daemon, agents that speak ACP:
    - [AcpStart]: internal/agentexec/acp_start.go, the exchange that creates a
      session and sends its first prompt.

    Daemon, the rest:
    - [AdapterRegistry]: internal/adapters/registry.go, external_id.go and
      watch_registry.go;
    - [AttachDownload]: internal/attach/download.go, the attachments of a prompt;
    - [DaemonSetup]: internal/config/config.go, cmd/daemon/endpoint_contract.go,
      registration_proof.go and the end of main.go, namely the configuration,
      registration, and the catalog keys for phones;
    - [HostService]: internal/hostsvc, cmd/daemon/lifecycle.go, instance_lock.go
      and the start of main.go, namely the commands that install and start the
      daemon, its lock, and what it loads before it serves.

    Relay:
    - [PromptStore]: server/internal/db/prompt_commands.go, the prompt table;
    - [Protocol]: relaycore/protocol/types.go;
    - [Connections]: relaycore/connections.go;
    - [RelayInput], [Relay]: relaycore/websocket.go and what it calls in
      engine.go, connections.go and server/internal/db. [Relay] works on the
      prompt table; [RelaySpec], [RelayPromptSpec] and [RelaySealedSpec] hold
      its theorems;
    - [AccessStore]: server/internal/db/db.go, phone.go and push.go, the tables
      of devices, pair codes, phones, grants, keys and push subscriptions, each
      statement a step; handlers are programs over its calls;
    - [RelayAccess]: the HTTP handlers of relaycore/engine.go and the websocket
      endpoints of websocket.go. [AccessSpec] and [PairingSpec] hold the
      theorems, the second about interleaved clients;
    - [Principals]: relaycore/principals.go and ports.go, the registry of a
      relay without the database, and how the engine asks it about credentials;
    - [Attachments]: relaycore/attachments.go;
    - [RelayEdge]: relaycore/cors.go, util.go and the origin checks of
      websocket.go;
    - [NestDatabase]: opening the database, transport mode, schema version, and
      server/cmd/server (start, secrets, migrate_v1.go);
    - [WebPush]: relaycore/webpush/webpush.go.

    ** What is proved

    - Prompts, daemon side. [DaemonSpec]: no prompt is handed to an agent twice
      unless the first call was refused or its record evicted after it was
      confirmed, in any run with crashes and failing writes; acceptance is
      reported only after the agent took the prompt; every command is answered;
      a retry is offered only when nothing is recorded. [PromptQueueSpec],
      [PromptJournalSpec]: well-formedness, bounds, FIFO order, the life cycle
      of an item and of a record as refinements of an abstract one, what a
      restart gives back.
    - Prompts, relay side. [PromptStoreSpec]: the life of a row under any
      interleaving of statements. [RelaySpec]: a commit frame follows durable
      acceptance and history; an event forwards at most one prompt, behind the
      gate of its row. [RelayPromptSpec]: the exact outcome of a prompt and of
      an acceptance when the store works, and that the replay after a reconnect
      ends complete.
    - Thread starts. [StartThreadSpec], [StartJournalSpec]: the native starter
      is called at most once per operation id and only behind every check;
      each started command ends with one terminal event, which is what the
      journal replays; ownership needs evidence. [StartCapabilitySpec]: one
      probe per agent.
    - Sealed mode. [RelaySealedSpec]: a sealed relay holds no plaintext.
      [ProtocolSpec]: exactly which frames pass. [DaemonWireSpec]: what a sealed
      daemon sends in the clear, and what a command needs to be accepted.
      [SealedSpec]: a body opens only in the frame it was sealed for, because
      the authenticated bytes determine every field; sequence numbers never
      repeat while the key file can be written, and do when it cannot.
    - Access. [AccessSpec]: whatever a client sends, every call its handler makes
      is allowed by the access policy after the calls before it. [PairingSpec]:
      over all interleavings, a grant comes from one use of one pair code made by
      the device, and a revoked phone gets nothing; except for the race shown by
      the last theorem. [NestDatabaseSpec]: a nest keeps its transport mode, and
      the migration clears all content or none. [WebPushSpec]: deliveries go to
      public addresses only. [PrincipalsSpec]: the registry behaves as a keyring
      whose entries are digests. [AttachmentsSpec]: an upload is read back as it
      was sent, by exactly those the access rule allows, until it is pruned; and
      an upload of type JSON is confused with the metadata of another.
    - The edges. [RelayEdgeSpec]: the address a request is counted under is not
      the client's choice, and which origins are served. [AttachDownloadSpec]:
      only attachments of the relay are fetched, whatever the prompt and the
      redirects say, and they stay in their directory; and a file that replaces
      another. [DaemonSetupSpec]: registration is bounded, binds every field of
      its proof and keeps the mode that was asked for; a changed configuration
      is noticed; a phone opens the package made when it was paired, and not the
      one made from the list of grants. [AdapterRegistrySpec]: lookup, ids that
      only their agent accepts, one watcher per session. [HostServiceSpec]: a
      unit file that says only what was meant, commands in step with it, one
      daemon at a time; a dollar sign that is expanded, a probe of the status
      that keeps a daemon from starting.
    - Turns and sessions. [ActiveTurnSpec]: each terminal event once, none lost
      when early. [CatalogSpec]: what a discovery round may leave unreported.
    - Codex. [CodexAppServerSpec]: over all interleavings of clients and
      processes, each request of a process is answered at most once and as a
      client decided, each call ends at most once and none is forgotten; a prompt
      reported as not started was not; an interruption goes to the turn that
      runs; and examples of an answer that reaches the wrong process and of a
      name that is lost. [CodexAdapterSpec]: at most one recovery runs and a
      client counts as healthy only after one that no exit overtook; streamed
      text is the text of one message. [CodexRolloutSpec], [DiscoveryCacheSpec]:
      discovery shows the newest rollout of each session that is visible, cached
      or not no older than when it was looked at; history is its bounded end.
    - Claude. [ClaudeAdapterSpec]: over all interleavings, a session has at most
      one process, and a reported end of a turn is the outcome of a process that
      was started for that prompt, and no session stays held without reason; two
      runs with new threads or abandoned prompts show where this fails. Discovery
      is exact and history bounded.
    - Kimi and Grok. [KimiStore]: discovery gives the newest candidate of each
      id, history the end of the chat with answers put together. [KimiCommander]:
      over all interleavings, ids are never made twice and a session has at most
      one process in print mode; a prompt during a first turn is not refused.
      [GrokCommander]: over all interleavings of lines, timers and ends, what is
      shown are growing beginnings of the answer, and the timers lead to all of
      it; a prompt or a stop at the wrong moment loses the end.
    - ACP. [AcpStartSpec]: over all interleavings, each request goes out at most
      once and the prompt only to the session the agent named; what a failed start
      says about a session that may exist; and a reply that is lost.
    - Connections. [ConnectionsSpec]: one live generation per device, bounded
      FIFO queues, revocation, under any interleaving of the critical sections.
      [DaemonClientSpec]: the daemon's callbacks see one endpoint at a time (a
      refinement), no socket is forgotten open, and the client goes on until it
      is told to stop.

    ** How time and failure are modelled

    Methods that hold a mutex throughout are one function. Where the code
    releases a lock, or statements of several connections interleave, each
    critical section or SQL statement is a step of its own ([Connections],
    [PromptStore], [TurnTracker], [StartCapability], [AccessStore],
    [DaemonClient], [CodexAppServer], [ClaudeAdapter], [AcpStart], [GrokCommander],
    [KimiCommander]). A daemon handler is one step except at [SendPrompt] and at the download of attachments, where
    only the session lock is held. [StartThread] splits [Handle] at its
    journal writes. Relay handlers run one at a time in [Relay]; interleaving
    of their statements is the subject of [PromptStore]. The handlers of
    [RelayAccess] run interleaved call by call in [PairingSpec].
    An oracle of type [io] says which system calls of a file operation fail,
    one of type [relayIO] how each store call and each websocket write ends; a
    crash drops what is in memory and keeps the file.

    Loops whose recursion is not structural have fuel that is enough:
    [trim_loop] the number of records, [evict_loop] and [drain_loop] the number
    of connections and frames, [sha_blocks] the number of words, [itoa_loop] the
    20 digits of a 64-bit integer. [replayPromptCommits] takes its fuel as an
    argument, and [RelayPromptSpec.replay_complete] shows that more rounds than
    unconfirmed rows are enough. The read loops of [RelayAccess] take the number
    of frames they read; their theorems hold for every number. Connection generations are 64-bit counters;
    their theorems are about runs with fewer steps than the counter has values.

    ** Parameters

    The order of map iteration ([MapOrder]); the JSON encoder and decoder of
    the three documents on disk with the round-trip law of their documentation
    ([Codec], [CodecLaws], for documents whose strings are valid UTF-8), and of
    payload members; Unicode tables ([GoUnicode]); url parsing ([NetUrl],
    [NetHost], [NetParse]); the order SQLite leaves open ([RowOrder]); AES-GCM with the law
    that a ciphertext opens with its associated data only ([AEAD], [AEADLaws])
    and the curve operations ([Curve]); the JSON of the metadata of an upload
    ([MetaCodec], [MetaCodecLaws]) and content sniffing; time.Parse ([GoTime]); random bytes; the clock; what agents
    answer.
    Theorems that use a law are applied at a concrete instance.
    Error values are their messages; an underlying error is the text of the
    cause, and the quoting of %q is reproduced for plain text only.

    ** Not modelled

    - The agents cursor and zcode, and the session store of grok
      (daemon/internal/adapters, daemon/internal/agentexec): files and SQLite
      databases of external programs. [Daemon] and [StartThread] take the answers
      of adapters as arguments. Of the other adapters, Watch (file notifications,
      polling) and, of kimi, the handlers that hand prompts to the commander; finding the CLI on disk; job objects of Windows.
    - Relay: file permissions.
    - The daemon flags, the terminal and pair codes in main.go; the PowerShell
      bodies of the Windows supervisor; logging.
    - The front end, scripts and packaging.
*)

From stdpp Require Import base tactics list gmap strings sorting fin_maps pretty.
From Stdlib Require Import ZArith Lia.

Set Default Proof Using "Type".

Declare Scope go_scope.
Delimit Scope go_scope with go.
Open Scope Z_scope.
Open Scope go_scope.

(** ** Go results: a value or an error

    A Go function returning [(T, error)] is a function into [res T]: the value
    returned beside a non-nil error is the zero value everywhere in the source,
    so it carries no information. *)

Inductive res (A : Type) : Type :=
  | Ok (a : A)
  | Err (e : string).
Arguments Ok {_} _.
Arguments Err {_} _.

#[export] Instance res_ret : MRet res := fun A a => Ok a.
#[export] Instance res_bind : MBind res := fun A B f r =>
  match r with Ok a => f a | Err e => Err e end.
#[export] Instance res_map : FMap res := fun A B f r =>
  match r with Ok a => Ok (f a) | Err e => Err e end.
#[export] Instance res_eq_dec `{EqDecision A} : EqDecision (res A).
Proof. solve_decision. Defined.

(** [fmt.Errorf("prefix: %w", err)]. *)
Definition wrap {A} (prefix : string) (r : res A) : res A :=
  match r with Ok a => Ok a | Err e => Err (prefix +:+ e) end.

Definition is_ok {A} (r : res A) : bool :=
  match r with Ok _ => true | Err _ => false end.

(** [if cond { return errors.New(msg) }]. *)
Definition fail_if (cond : bool) (msg : string) : res unit :=
  if cond then Err msg else Ok tt.

Lemma bind_ok {A B} (r : res A) (f : A -> res B) (b : B) :
  (r ≫= f) = Ok b -> exists a, r = Ok a /\ f a = Ok b.
Proof. destruct r as [a|e]; [|done]. by exists a. Qed.

Lemma fail_if_ok (cond : bool) (msg : string) (u : unit) :
  fail_if cond msg = Ok u -> cond = false.
Proof. by destruct cond. Qed.

Lemma fail_if_false (cond : bool) (msg : string) :
  cond = false -> fail_if cond msg = Ok tt.
Proof. by intros ->. Qed.

Lemma wrap_ok {A} (p : string) (r : res A) (a : A) : wrap p r = Ok a <-> r = Ok a.
Proof. destruct r; naive_solver. Qed.

(** ** Stateful Go methods: a state and error monad

    A method of a struct that can fail is a function from the struct's state to
    a result and the state it leaves, whether it fails or not. *)

Definition M (S A : Type) : Type := S -> res A * S.

#[export] Instance M_ret {S} : MRet (M S) := fun A a s => (Ok a, s).
#[export] Instance M_bind {S} : MBind (M S) := fun A B f m s =>
  match m s with
  | (Ok a, s') => f a s'
  | (Err e, s') => (Err e, s')
  end.

Definition get {S} : M S S := fun s => (Ok s, s).
Definition put {S} (s : S) : M S unit := fun _ => (Ok tt, s).
Definition raise {S A} (e : string) : M S A := fun s => (Err e, s).
Definition lift {S A} (r : res A) : M S A := fun s => (r, s).

Lemma M_bind_ok {S A B} (m : M S A) (f : A -> M S B) (s s' : S) (b : B) :
  (m ≫= f) s = (Ok b, s') ->
  exists a s1, m s = (Ok a, s1) /\ f a s1 = (Ok b, s').
Proof. unfold mbind, M_bind. destruct (m s) as [[a|e] s1]; naive_solver. Qed.

Lemma M_bind_err {S A B} (m : M S A) (f : A -> M S B) (s s' : S) (e : string) :
  (m ≫= f) s = (Err e, s') ->
  m s = (Err e, s') \/ exists a s1, m s = (Ok a, s1) /\ f a s1 = (Err e, s').
Proof. unfold mbind, M_bind. destruct (m s) as [[a|e0] s1]; naive_solver. Qed.

(** ** Machine integers *)

Definition max_uint64 : Z := 18446744073709551615.
Definition max_int64 : Z := 9223372036854775807.
Definition min_int64 : Z := -9223372036854775808.

(** Addition of two [uint64] values. *)
Definition u64_add (a b : Z) : Z := (a + b) mod 18446744073709551616.

(** The value an [int64] operation leaves: wrap to two's complement. *)
Definition int64_wrap (a : Z) : Z :=
  (a + 9223372036854775808) mod 18446744073709551616 - 9223372036854775808.

Definition is_uint64 (a : Z) : Prop := 0 <= a <= max_uint64.

Lemma u64_add_range a b : is_uint64 (u64_add a b).
Proof. unfold is_uint64, u64_add, max_uint64. pose proof (Z.mod_pos_bound (a + b) 18446744073709551616). lia. Qed.

Lemma u64_succ a : is_uint64 a -> u64_add a 1 <> 0 -> u64_add a 1 = a + 1.
Proof.
  unfold is_uint64, u64_add, max_uint64. intros Ha Hne.
  destruct (decide (a = 18446744073709551615)) as [->|]; [done|].
  rewrite Z.mod_small; lia.
Qed.

Lemma int64_wrap_id a : min_int64 <= a <= max_int64 -> int64_wrap a = a.
Proof. unfold int64_wrap, min_int64, max_int64. intros. rewrite Z.mod_small; lia. Qed.

Lemma int64_wrap_range a : min_int64 <= int64_wrap a <= max_int64.
Proof.
  unfold int64_wrap, min_int64, max_int64.
  pose proof (Z.mod_pos_bound (a + 9223372036854775808) 18446744073709551616). lia.
Qed.

(** ** Go maps

    [for k, v := range m] visits the entries of [m] in an order Go leaves
    unspecified. [range] is that order: any permutation of the entries. The
    components are parameterised by it, so what is proved holds for every
    order; theorems whose statement quantifies over two instances show that the
    outcome does not depend on it. *)

Class MapOrder : Type := {
  range : forall {A : Type}, gmap string A -> list (string * A);
  range_perm : forall {A : Type} (m : gmap string A), range m ≡ₚ map_to_list m
}.

(** The order in which stdpp enumerates: the one witnesses evaluate with. *)
Definition canonical_order : MapOrder :=
  {| range := fun A (m : gmap string A) => map_to_list m;
     range_perm := fun A m => reflexivity _ |}.

Section MapOrderFacts.
Context `{MO : MapOrder}.
Context {A : Type}.
Implicit Types (m : gmap string A) (k : string) (a : A).

Definition range_values m : list A := (range m).*2.

Lemma elem_of_range m k a : (k, a) ∈ range m <-> m !! k = Some a.
Proof. rewrite range_perm. apply elem_of_map_to_list. Qed.

Lemma elem_of_range_values m a : a ∈ range_values m <-> exists k, m !! k = Some a.
Proof.
  unfold range_values. rewrite list_elem_of_fmap. split.
  - intros [[k a'] [-> Hin]]. exists k. by apply elem_of_range.
  - intros [k Hk]. exists (k, a). by rewrite elem_of_range.
Qed.

Lemma range_values_perm m : range_values m ≡ₚ (map_to_list m).*2.
Proof. unfold range_values. by rewrite range_perm. Qed.
End MapOrderFacts.

(** ** Files and JSON documents

    The durable structures write a whole JSON document through
    [writeFileAtomic] and read it back when they load. [encoding/json]'s encoder
    and decoder for a document type [D] are the operations of [Codec]; the laws
    of [CodecLaws] are what its documentation promises: decoding what
    [MarshalIndent] wrote gives the document back, up to an equivalence on
    documents ([json.RawMessage] members are re-indented, so their bytes
    change but not the value they denote). The promise is for [encodable]
    documents, those whose strings are valid UTF-8: the encoder replaces other
    bytes. *)

Class Codec (D : Type) : Type := {
  file : Type;
  file_size : file -> Z;
  marshalIndent : D -> res file;
  unmarshal : file -> res D
}.
Arguments file _ {_}.

Class CodecLaws (D : Type) `{Codec D} (encodable : D -> Prop) (equ : D -> D -> Prop) : Prop := {
  unmarshal_marshalIndent : forall d f,
    encodable d -> marshalIndent d = Ok f -> exists d', unmarshal f = Ok d' /\ equ d d'
}.

(** The system calls the source makes on such a file, in the order
    the loaders and [writeFileAtomic] make them. An oracle says which of them
    fail, with what error. *)
Inductive fs_op : Set :=
  | OpStat | OpOpen | OpChmodLoad | OpReadFile | OpCloseLoad
  | OpMkdirAll | OpCreateTemp | OpChmodTemp | OpWrite | OpSync | OpClose
  | OpRename | OpChmodFinal.

Definition io := fs_op -> option string.
Definition io_ok : io := fun _ => None.

#[export] Instance fs_op_eq_dec : EqDecision fs_op.
Proof. solve_decision. Defined.

(** The oracle in which only [op] fails. *)
Definition io_fail (op : fs_op) (e : string) : io :=
  fun op' => if decide (op = op') then Some e else None.

Definition sys (f : io) (op : fs_op) : res unit :=
  match f op with Some e => Err e | None => Ok tt end.

(** [writeFileAtomic] (daemon/cmd/daemon/prompt_journal.go and
    daemon/internal/startjournal/journal.go): the steps before the rename leave
    the target untouched (the deferred [os.Remove] drops the temporary file);
    the rename replaces it; the final [os.Chmod] can still fail after that. *)
Definition writeFileAtomic {F : Type} (f : io) (disk : option F) (data : F)
  : res unit * option F :=
  match (sys f OpMkdirAll ;; sys f OpCreateTemp ;; sys f OpChmodTemp ;;
         sys f OpWrite ;; sys f OpSync ;; sys f OpClose ;; sys f OpRename) with
  | Err e => (Err e, disk)
  | Ok _ => (sys f OpChmodFinal, Some data)
  end.

Lemma writeFileAtomic_ok {F} f (disk disk' : option F) data u :
  writeFileAtomic f disk data = (Ok u, disk') -> disk' = Some data.
Proof.
  unfold writeFileAtomic.
  destruct (sys f OpMkdirAll ≫= _); naive_solver.
Qed.

(** A failed write left the old file, unless the rename had already happened. *)
Lemma writeFileAtomic_err {F} f (disk disk' : option F) data e :
  writeFileAtomic f disk data = (Err e, disk') ->
  disk' = disk \/ (f OpChmodFinal = Some e /\ disk' = Some data).
Proof.
  unfold writeFileAtomic.
  destruct (sys f OpMkdirAll ≫= _); [|naive_solver].
  unfold sys. destruct (f OpChmodFinal); naive_solver.
Qed.

Lemma writeFileAtomic_io_ok {F} (disk : option F) data :
  writeFileAtomic io_ok disk data = (Ok tt, Some data).
Proof. done. Qed.

(** The tail every [persist] of the source has in common: refuse an encoding
    that is too large, then write. [enc] is the marshalled document, [what] names
    it in the error messages. *)
Definition persist_file {F : Type} (what : string) (limit : Z) (size : F -> Z) (f : io)
    (disk : option F) (enc : res F) : res unit * option F :=
  match enc with
  | Err e => (Err ("marshal " +:+ what +:+ ": " +:+ e), disk)
  | Ok data =>
    if limit <? size data then (Err (what +:+ " would exceed its size limit"), disk)
    else let '(r, d) := writeFileAtomic f disk data in (wrap ("persist " +:+ what +:+ ": ") r, d)
  end.

Lemma persist_file_spec {F} what limit (size : F -> Z) f disk enc r disk' :
  persist_file what limit size f disk enc = (r, disk') ->
  (r = Ok tt /\ exists data, enc = Ok data /\ size data <= limit /\ disk' = Some data) \/
  (exists e, r = Err e /\
     (disk' = disk \/ exists data, enc = Ok data /\ size data <= limit /\ disk' = Some data)).
Proof.
  unfold persist_file. destruct enc as [data|e]; [|naive_solver].
  destruct (limit <? size data) eqn:Es; [naive_solver|]. apply Z.ltb_ge in Es.
  destruct (writeFileAtomic f disk data) as [[[]|e] d] eqn:Ew; intros [= <- <-].
  - left. apply writeFileAtomic_ok in Ew. naive_solver.
  - right. apply writeFileAtomic_err in Ew. naive_solver.
Qed.

Lemma persist_file_reliable {F} what limit (size : F -> Z) f disk enc e disk' :
  f OpChmodFinal = None -> persist_file what limit size f disk enc = (Err e, disk') -> disk' = disk.
Proof.
  intros Hf. unfold persist_file. destruct enc as [data|?]; [|naive_solver].
  destruct (limit <? size data); [naive_solver|].
  destruct (writeFileAtomic f disk data) as [[[]|e0] d] eqn:Ew; intros [= <- <-].
  apply writeFileAtomic_err in Ew as [->|[? _]]; [done|congruence].
Qed.

Lemma persist_file_io_ok {F} what limit (size : F -> Z) (disk : option F) data :
  size data <= limit -> persist_file what limit size io_ok disk (Ok data) = (Ok tt, Some data).
Proof. intros H. unfold persist_file. destruct (limit <? size data) eqn:E; [apply Z.ltb_lt in E; lia|done]. Qed.

(** ** Sorting

    [sort.Slice(xs, less)] with [less i j := key xs[i] < key xs[j]]. Go leaves
    the order of equal keys unspecified; wherever the source sorts, the keys of
    a well-formed state are distinct. *)

Definition le_on {A} (key : A -> Z) (a b : A) : Prop := key a <= key b.

#[export] Instance le_on_dec {A} (key : A -> Z) : RelDecision (le_on key).
Proof. intros a b. apply Z.le_dec. Defined.

Definition sort_by {A} (key : A -> Z) (l : list A) : list A :=
  merge_sort (le_on key) l.

Section SortBy.
Context {A : Type} (key : A -> Z).
Abbreviation le_key := (le_on key).

#[local] Instance le_key_trans : Transitive le_key.
Proof. intros a b c. unfold le_on. lia. Qed.
#[local] Instance le_key_total : Total le_key.
Proof. intros a b. unfold le_on. lia. Qed.

Lemma sort_by_perm l : sort_by key l ≡ₚ l.
Proof. apply merge_sort_Permutation. Qed.

Lemma sort_by_sorted l : StronglySorted le_key (sort_by key l).
Proof. apply StronglySorted_merge_sort; apply _. Qed.

(** Two sorted permutations of each other agree when keys are distinct. *)
Lemma sorted_perm_unique l1 l2 :
  (forall a b, a ∈ l1 -> b ∈ l1 -> key a = key b -> a = b) ->
  StronglySorted le_key l1 -> StronglySorted le_key l2 -> l1 ≡ₚ l2 -> l1 = l2.
Proof.
  revert l2. induction l1 as [|a l1 IH]; intros l2 Hinj Hs1 Hs2 Hp.
  { by apply Permutation_nil_l in Hp as ->. }
  destruct l2 as [|b l2]; [by apply Permutation_nil_r in Hp|].
  apply StronglySorted_inv in Hs1 as [Hs1 Hf1].
  apply StronglySorted_inv in Hs2 as [Hs2 Hf2].
  assert (a = b) as ->.
  { assert (Hb : b ∈ a :: l1) by (rewrite Hp; by left).
    assert (Ha : a ∈ b :: l2) by (rewrite <- Hp; by left).
    apply Hinj; [by left|done|].
    rewrite Forall_forall in Hf1. rewrite Forall_forall in Hf2.
    rewrite elem_of_cons in Hb. rewrite elem_of_cons in Ha.
    destruct Hb as [Hb|Hb]; [by rewrite Hb|].
    destruct Ha as [Ha|Ha]; [by rewrite Ha|].
    specialize (Hf1 b Hb). specialize (Hf2 a Ha). unfold le_on in *. lia. }
  f_equal. apply IH; try done.
  - intros x y Hx Hy. apply Hinj; by right.
  - by apply Permutation_cons_inv in Hp.
Qed.

Lemma sort_by_unique l1 l2 :
  (forall a b, a ∈ l1 -> b ∈ l1 -> key a = key b -> a = b) ->
  l1 ≡ₚ l2 -> sort_by key l1 = sort_by key l2.
Proof.
  intros Hinj Hp. apply sorted_perm_unique.
  - intros a b. rewrite sort_by_perm. apply Hinj.
  - apply sort_by_sorted.
  - apply sort_by_sorted.
  - by rewrite !sort_by_perm.
Qed.
End SortBy.

(** ** Reachability *)

(** A property that every step preserves holds of all that is reachable. *)
Lemma rtc_invariant {A} (R : A -> A -> Prop) (I : A -> Prop) x y :
  (forall a b, I a -> R a b -> I b) -> rtc R x y -> I x -> I y.
Proof. intros Hstep. induction 1; eauto. Qed.

Lemma elem_of_snoc {A} (x y : A) (l : list A) : x ∈ l ++ [y] <-> x ∈ l \/ x = y.
Proof. by rewrite elem_of_app, list_elem_of_singleton. Qed.

(** Deleting the keys of a list of entries. *)
Lemma foldl_delete_lookup `{Countable K} {A B} (key : A -> K) (l : list A) (m : gmap K B) k :
  foldl (fun m a => base.delete (key a) m) m l !! k = if decide (k ∈ key <$> l) then None else m !! k.
Proof.
  revert m. induction l as [|a l IH]; intros m; [done|]. cbn [foldl]. rewrite IH, fmap_cons.
  destruct (decide (k = key a)) as [->|Hne].
  - rewrite lookup_delete_eq. rewrite (decide_True (P := key a ∈ key a :: _)) by left. by case_decide.
  - rewrite lookup_delete_ne by done. case_decide as H1; case_decide as H2; try done.
    + by destruct H2; right.
    + by apply elem_of_cons in H2 as [?|?].
Qed.

(** ** Counting *)

Definition count {A} (p : A -> bool) (l : list A) : Z :=
  Z.of_nat (List.length (List.filter p l)).

Section Count.
Context {A : Type} (p : A -> bool).

Lemma count_nonneg l : 0 <= count p l.
Proof. unfold count. lia. Qed.

Lemma count_cons a l : count p (a :: l) = (if p a then 1 else 0) + count p l.
Proof. unfold count. simpl. destruct (p a); simpl; lia. Qed.

Lemma count_perm l1 l2 : l1 ≡ₚ l2 -> count p l1 = count p l2.
Proof.
  induction 1; rewrite ?count_cons; try lia.
Qed.
End Count.

(** ** Ranks in a sorted list *)

Section Rank.
Context {A : Type} (key : A -> Z).

(** Among the first [n] of a sorted list are exactly the elements with fewer
    than [n] smaller ones. *)
Lemma take_sorted_rank (l : list A) (n : nat) (x : A) :
  StronglySorted (le_on key) l -> NoDup l ->
  (forall a b, a ∈ l -> b ∈ l -> key a = key b -> a = b) -> x ∈ l ->
  x ∈ take n l <-> count (fun y => key y <? key x) l < Z.of_nat n.
Proof.
  revert n. induction l as [|a l IH]; intros n Hs Hnd Hinj Hx; [by apply not_elem_of_nil in Hx|].
  apply StronglySorted_inv in Hs as [Hs Hall]. rewrite Forall_forall in Hall.
  apply NoDup_cons in Hnd as [Hna Hnd].
  destruct n as [|n].
  { rewrite take_0. split; [by intros ?%not_elem_of_nil|].
    pose proof (count_nonneg (fun y => key y <? key x) (a :: l)). lia. }
  rewrite firstn_cons, elem_of_cons, count_cons. rewrite elem_of_cons in Hx.
  destruct Hx as [->|Hx].
  - assert (count (fun y => key y <? key a) l = 0) as ->.
    { clear -Hall. induction l as [|b l IH]; [done|]. rewrite count_cons, IH.
      - assert (le_on key a b) as Hb by (apply Hall; by left). unfold le_on in Hb.
        destruct (key b <? key a) eqn:E; [apply Z.ltb_lt in E; lia|done].
      - intros y Hy. apply Hall. by right. }
    rewrite Z.ltb_irrefl. split; [lia|by left].
  - assert (key a < key x) as Hlt.
    { assert (le_on key a x) as Hle by by apply Hall. unfold le_on in Hle.
      assert (key a <> key x); [|lia]. intros Heq. apply Hna.
      assert (a = x) as ->; [|done]. apply Hinj; [by left|by right|done]. }
    apply Z.ltb_lt in Hlt as Hb. rewrite Hb.
    assert (x ∈ take n l <-> count (fun y => key y <? key x) l < Z.of_nat n) as HI.
    { apply IH; try done. intros b c Hb' Hc'. apply Hinj; by right. }
    rewrite HI. split; [intros [->|?]; [done|lia]|right; lia].
Qed.
End Rank.

(** ** Counting the values of a map *)

Section MapCount.
Context `{MO : MapOrder} {A : Type}.
Implicit Types (m : gmap string A) (p : A -> bool).

Lemma count_range_filter p m :
  count p (range_values m) = Z.of_nat (size (filter (fun kv => p kv.2 = true) m)).
Proof.
  rewrite (count_perm p _ _ (range_values_perm m)).
  induction m as [|k a m Hk IH] using map_ind.
  { rewrite map_filter_empty, map_size_empty, map_to_list_empty. done. }
  rewrite (count_perm p _ ((a :: (map_to_list m).*2))); [|by rewrite map_to_list_insert].
  rewrite count_cons, IH, map_filter_insert. simpl.
  destruct (p a) eqn:Hp; simpl.
  - rewrite map_size_insert_None; [lia|]. rewrite map_lookup_filter_None. by left.
  - rewrite delete_id by done. lia.
Qed.

(** A count is bounded by another when each entry counted in the first has a
    counterpart, at the same key, counted in the second. *)
Lemma count_range_le p1 p2 m1 m2 :
  (forall k a1, m1 !! k = Some a1 -> p1 a1 = true -> exists a2, m2 !! k = Some a2 /\ p2 a2 = true) ->
  count p1 (range_values m1) <= count p2 (range_values m2).
Proof.
  intros Himp. rewrite !count_range_filter, <- !size_dom.
  apply inj_le, subseteq_size. intros k.
  rewrite !elem_of_dom. intros [a1 Ha1]. apply map_lookup_filter_Some in Ha1 as [Hl Hp].
  destruct (Himp k a1 Hl Hp) as (a2 & Hl2 & Hp2). exists a2. by apply map_lookup_filter_Some.
Qed.

Lemma count_range_insert_new p m k a :
  m !! k = None ->
  count p (range_values (<[k := a]> m)) = (if p a then 1 else 0) + count p (range_values m).
Proof.
  intros Hk. rewrite !(count_perm p _ _ (range_values_perm _)).
  rewrite <- count_cons. apply count_perm. by rewrite map_to_list_insert.
Qed.
End MapCount.

Create HintDb go discriminated.
#[export] Hint Resolve u64_add_range count_nonneg : go.

(** A closed computation checked by the virtual machine, without reading the
    value back. *)
Ltac by_vm := match goal with |- _ = ?b => vm_cast_no_check (eq_refl b) end.

(** Case analysis on the conditionals and matches of a hypothesis. *)
Ltac case_match_in H :=
  match type of H with
  | context [match ?x with _ => _ end] => let E := fresh "E" in destruct x eqn:E; simplify_eq/=
  end.

Ltac bool_hyps :=
  repeat match goal with
  | H : (_ && _)%bool = true |- _ => apply andb_prop in H as [??]
  | H : (_ || _)%bool = false |- _ => apply orb_false_elim in H as [??]
  | H : negb _ = true |- _ => apply negb_true_iff in H
  | H : negb _ = false |- _ => apply negb_false_iff in H
  | H : (_ =? _)%Z = true |- _ => apply Z.eqb_eq in H
  | H : (_ =? _)%Z = false |- _ => apply Z.eqb_neq in H
  | H : (_ <? _)%Z = true |- _ => apply Z.ltb_lt in H
  | H : (_ <? _)%Z = false |- _ => apply Z.ltb_ge in H
  | H : (_ <=? _)%Z = true |- _ => apply Z.leb_le in H
  | H : (_ <=? _)%Z = false |- _ => apply Z.leb_gt in H
  | H : bool_decide _ = true |- _ => apply bool_decide_eq_true in H
  | H : bool_decide _ = false |- _ => apply bool_decide_eq_false in H
  end.
