(* ===== verification/GoStrings.v ===== *)
(** * Byte strings and the [strings], [unicode/utf8] and [path] functions used

    A Go [string] (and a [[]byte]) is a [String.string] of bytes; [len] counts
    bytes. The functions below follow the documented behaviour of the standard
    library on every byte sequence, valid UTF-8 or not. *)

From stdpp Require Import base tactics list strings.
From Stdlib Require Import Ascii ZArith Lia.
From S2P Require Import Prelude.

Definition len (s : string) : Z := Z.of_nat (String.length s).

(** The numeric value of a byte. *)
Definition code (c : ascii) : Z := Z.of_N (N_of_ascii c).

Definition byte_of (z : Z) : ascii := ascii_of_N (Z.to_N z).

(** [string([]byte{z1, z2, ...})]. *)
Definition of_codes (zs : list Z) : string :=
  foldr (fun z s => String (byte_of z) s) EmptyString zs.

Definition is_empty (s : string) : bool :=
  match s with EmptyString => true | _ => false end.

Lemma code_range c : 0 <= code c < 256.
Proof.
  unfold code. pose proof (N_ascii_bounded c) as Hc.
  apply (N2Z.inj_lt _ 256) in Hc. split; [apply N2Z.is_nonneg|exact Hc].
Qed.

Lemma len_nonneg s : 0 <= len s.
Proof. unfold len. lia. Qed.

Lemma string_app_cons c s1 s2 : String c s1 +:+ s2 = String c (s1 +:+ s2).
Proof. done. Qed.

Lemma len_app s1 s2 : len (s1 +:+ s2) = len s1 + len s2.
Proof.
  unfold len. induction s1 as [|c s1 IH]; [done|].
  rewrite string_app_cons. cbn [String.length]. lia.
Qed.

Lemma string_app_assoc s1 s2 s3 : s1 +:+ s2 +:+ s3 = (s1 +:+ s2) +:+ s3.
Proof. induction s1 as [|c s1 IH]; [done|]. by rewrite !string_app_cons, IH. Qed.

Lemma string_app_nil s : s +:+ EmptyString = s.
Proof. induction s as [|c s IH]; [done|]. by rewrite string_app_cons, IH. Qed.

Lemma len_zero s : len s = 0 <-> s = EmptyString.
Proof. unfold len. destruct s; simpl; split; intros; simplify_eq; lia || done. Qed.

Lemma is_empty_true s : is_empty s = true <-> s = EmptyString.
Proof. by destruct s. Qed.

Lemma is_empty_false s : is_empty s = false <-> s <> EmptyString.
Proof. by destruct s. Qed.

(** ** Prefixes, suffixes, slices *)

Fixpoint has_prefix (pre s : string) : bool :=
  match pre, s with
  | EmptyString, _ => true
  | String a pre', String b s' => (Ascii.eqb a b && has_prefix pre' s')%bool
  | String _ _, EmptyString => false
  end.

Fixpoint drop_bytes (n : nat) (s : string) : string :=
  match n, s with
  | S n', String _ s' => drop_bytes n' s'
  | _, _ => s
  end.

Fixpoint take_bytes (n : nat) (s : string) : string :=
  match n, s with
  | S n', String c s' => String c (take_bytes n' s')
  | _, _ => EmptyString
  end.

Fixpoint rev_onto (s acc : string) : string :=
  match s with
  | EmptyString => acc
  | String c s' => rev_onto s' (String c acc)
  end.

Definition rev_string (s : string) : string := rev_onto s EmptyString.

Definition has_suffix (suf s : string) : bool := has_prefix (rev_string suf) (rev_string s).

(** [strings.TrimPrefix], [strings.TrimSuffix]. *)
Definition trim_prefix (s pre : string) : string :=
  if has_prefix pre s then drop_bytes (String.length pre) s else s.

Definition trim_suffix (s suf : string) : string :=
  if has_suffix suf s then take_bytes (String.length s - String.length suf) s else s.

(** [strings.Contains]. *)
Fixpoint contains (s sub : string) : bool :=
  (has_prefix sub s ||
   match s with EmptyString => false | String _ s' => contains s' sub end)%bool.

(** [strings.ContainsRune] and [strings.IndexByte(s, c) >= 0] for an ASCII [c]. *)
Fixpoint contains_byte (c : ascii) (s : string) : bool :=
  match s with
  | EmptyString => false
  | String b s' => (Ascii.eqb b c || contains_byte c s')%bool
  end.

Lemma has_prefix_app pre s : has_prefix pre (pre +:+ s) = true.
Proof. induction pre as [|a pre IH]; simpl; [done|]. by rewrite Ascii.eqb_refl. Qed.

Lemma has_prefix_spec pre s : has_prefix pre s = true <-> exists r, s = pre +:+ r.
Proof.
  split; [|intros [r ->]; apply has_prefix_app].
  revert s. induction pre as [|a pre IH]; intros s; simpl; [by exists s|].
  destruct s as [|b s]; [done|]. intros [Hab Hp]%andb_prop.
  apply Ascii.eqb_eq in Hab as ->. destruct (IH s Hp) as [r ->]. by exists r.
Qed.

Lemma app_prefix_inj p s1 s2 : p +:+ s1 = p +:+ s2 -> s1 = s2.
Proof. induction p as [|c p IH]; [done|]. rewrite !string_app_cons. intros [= Heq]. auto. Qed.

(** A piece of characters [P] ends where the first other character is. *)
Lemma delimited_prefix (P : ascii -> bool) s1 s2 c t1 t2 :
  forallb P (String.list_ascii_of_string s1) = true -> forallb P (String.list_ascii_of_string s2) = true -> P c = false ->
  s1 +:+ String c t1 = s2 +:+ String c t2 -> s1 = s2 /\ t1 = t2.
Proof.
  revert s2. induction s1 as [|a s1 IH]; intros [|b s2] H1 H2 Hc Heq; cbn in *; bool_hyps;
    injection Heq as <-; try done; [congruence|congruence|]. destruct (IH s2) as [-> ->]; done.
Qed.

Lemma drop_prefix p s : drop_bytes (String.length p) (p +:+ s) = s.
Proof. by induction p as [|c p IH]. Qed.

Lemma take_drop_bytes n s : take_bytes n s +:+ drop_bytes n s = s.
Proof.
  revert n. induction s as [|c s IH]; intros [|n]; simpl; try done.
  change (String c (take_bytes n s +:+ drop_bytes n s) = String c s). by rewrite IH.
Qed.

Lemma len_take_bytes n s : len (take_bytes n s) = Z.min (Z.of_nat n) (len s).
Proof.
  unfold len. revert n. induction s as [|c s IH]; intros [|n]; simpl; try lia.
  specialize (IH n). lia.
Qed.

Lemma rev_onto_app s t acc : rev_onto (s +:+ t) acc = rev_onto t (rev_onto s acc).
Proof. revert acc. induction s as [|c s IH]; intros acc; simpl; [done|apply IH]. Qed.

Lemma rev_onto_acc s acc : rev_onto s acc = rev_onto s EmptyString +:+ acc.
Proof.
  revert acc. induction s as [|c s IH]; intros acc; simpl; [done|].
  rewrite IH, (IH (String c EmptyString)).
  by rewrite <- string_app_assoc.
Qed.

Lemma rev_string_app s t : rev_string (s +:+ t) = rev_string t +:+ rev_string s.
Proof. unfold rev_string. by rewrite rev_onto_app, rev_onto_acc. Qed.

Lemma rev_string_involutive s : rev_string (rev_string s) = s.
Proof.
  induction s as [|c s IH]; [done|].
  change (String c s) with ("" +:+ String c "" +:+ s).
  rewrite !rev_string_app, IH. done.
Qed.

Lemma len_rev_string s : len (rev_string s) = len s.
Proof.
  induction s as [|c s IH]; [done|].
  change (String c s) with (String c "" +:+ s).
  rewrite rev_string_app, !len_app, IH.
  change (len (rev_string (String c ""))) with 1. change (len (String c "")) with 1. lia.
Qed.

Lemma trim_suffix_app s suf : trim_suffix (s +:+ suf) suf = s.
Proof.
  unfold trim_suffix, has_suffix. rewrite rev_string_app, has_prefix_app.
  assert (String.length (s +:+ suf) - String.length suf = String.length s)%nat as ->.
  { pose proof (len_app s suf). unfold len in *. lia. }
  induction s as [|c s IH]; [by destruct suf|]. rewrite string_app_cons. cbn [String.length take_bytes]. by rewrite IH.
Qed.

Lemma trim_prefix_app pre s : trim_prefix (pre +:+ s) pre = s.
Proof. unfold trim_prefix. by rewrite has_prefix_app, drop_prefix. Qed.

(** ** [strings.TrimSpace]

    [unicode.IsSpace] holds of nine ASCII-range code points and sixteen others;
    [space_sequences] are their UTF-8 encodings. *)

Definition space_sequences : list (list Z) :=
  [ [9]; [10]; [11]; [12]; [13]; [32];
    [194; 133]; [194; 160];
    [225; 154; 128];
    [226; 128; 128]; [226; 128; 129]; [226; 128; 130]; [226; 128; 131];
    [226; 128; 132]; [226; 128; 133]; [226; 128; 134]; [226; 128; 135];
    [226; 128; 136]; [226; 128; 137]; [226; 128; 138];
    [226; 128; 168]; [226; 128; 169]; [226; 128; 175];
    [226; 129; 159]; [227; 128; 128] ].

Definition space_strings : list string := of_codes <$> space_sequences.

(** The number of bytes of the first of [pats] that starts [s]; 0 if none. *)
Definition match_width (pats : list string) (s : string) : nat :=
  match List.find (fun p => has_prefix p s) pats with
  | Some p => String.length p
  | None => O
  end.

(** Drop the patterns at the start of [s]; [skip] bytes belong to one already
    matched. *)
Fixpoint trim_left (pats : list string) (skip : nat) (s : string) : string :=
  match s with
  | EmptyString => EmptyString
  | String _ s' =>
    match skip with
    | S k => trim_left pats k s'
    | O => match match_width pats s with
           | O => s
           | S k => trim_left pats k s'
           end
    end
  end.

Definition TrimSpace (s : string) : string :=
  rev_string (trim_left (rev_string <$> space_strings) O
    (rev_string (trim_left space_strings O s))).

Lemma len_trim_left pats skip s : len (trim_left pats skip s) <= len s.
Proof.
  unfold len. revert skip. induction s as [|c s IH]; intros skip; [done|].
  cbn [trim_left]. destruct skip as [|k].
  - destruct (match_width pats (String c s)) as [|k]; [done|].
    specialize (IH k). simpl. lia.
  - specialize (IH k). simpl. lia.
Qed.

Lemma len_TrimSpace s : len (TrimSpace s) <= len s.
Proof.
  unfold TrimSpace. rewrite len_rev_string.
  etrans; [apply len_trim_left|]. rewrite len_rev_string. apply len_trim_left.
Qed.

(** ** [utf8.ValidString]

    The automaton of the well-formed UTF-8 byte sequences (Unicode 15,
    table 3-7): [need] continuation bytes remain, the next in [lo..hi]. *)
Fixpoint utf8_scan (need : nat) (lo hi : Z) (s : string) : bool :=
  match s with
  | EmptyString => match need with O => true | S _ => false end
  | String c s' =>
    let b := code c in
    match need with
    | S k => if ((lo <=? b) && (b <=? hi))%bool then utf8_scan k 128 191 s' else false
    | O =>
      if b <? 128 then utf8_scan 0 128 191 s'
      else if ((194 <=? b) && (b <=? 223))%bool then utf8_scan 1 128 191 s'
      else if b =? 224 then utf8_scan 2 160 191 s'
      else if b =? 237 then utf8_scan 2 128 159 s'
      else if ((225 <=? b) && (b <=? 239))%bool then utf8_scan 2 128 191 s'
      else if b =? 240 then utf8_scan 3 144 191 s'
      else if ((241 <=? b) && (b <=? 243))%bool then utf8_scan 3 128 191 s'
      else if b =? 244 then utf8_scan 3 128 143 s'
      else false
    end
  end.

Definition ValidString (s : string) : bool := utf8_scan 0 128 191 s.

(** ** ASCII case *)

Definition lower_byte (c : ascii) : ascii :=
  if ((65 <=? code c) && (code c <=? 90))%bool then byte_of (code c + 32) else c.

Fixpoint to_lower (s : string) : string :=
  match s with EmptyString => EmptyString | String c s' => String (lower_byte c) (to_lower s') end.

(** ** [strings.Split(s, sep)] on a one-byte separator *)

Fixpoint split_byte (sep : ascii) (s : string) : list string :=
  match s with
  | EmptyString => [EmptyString]
  | String c s' =>
    if Ascii.eqb c sep then EmptyString :: split_byte sep s'
    else match split_byte sep s' with
         | [] => [String c EmptyString]
         | w :: ws => String c w :: ws
         end
  end.

Fixpoint join_byte (sep : ascii) (ws : list string) : string :=
  match ws with
  | [] => EmptyString
  | [w] => w
  | w :: ws' => w +:+ String sep (join_byte sep ws')
  end.

Lemma contains_byte_app c a b : contains_byte c (a +:+ b) = (contains_byte c a || contains_byte c b)%bool.
Proof. induction a as [|d a IH]; [done|]. rewrite string_app_cons. cbn [contains_byte]. by rewrite IH, orb_assoc. Qed.

Lemma split_byte_nonempty sep s : split_byte sep s <> [].
Proof. destruct s; simpl; [done|]. case_match; [done|]. by case_match. Qed.

Lemma join_split sep s : join_byte sep (split_byte sep s) = s.
Proof.
  induction s as [|c s IH]; [done|]. cbn [split_byte].
  destruct (Ascii.eqb c sep) eqn:E.
  - apply Ascii.eqb_eq in E as ->.
    destruct (split_byte sep s) as [|w ws] eqn:Es; [by apply split_byte_nonempty in Es|].
    change (String sep (join_byte sep (w :: ws)) = String sep s). by rewrite IH.
  - destruct (split_byte sep s) as [|w ws] eqn:Es; [by apply split_byte_nonempty in Es|].
    destruct ws as [|w' ws'].
    + simpl in *. by rewrite IH.
    + change (String c (join_byte sep (w :: w' :: ws')) = String c s). by rewrite IH.
Qed.

(** Every field of a split is free of the separator. *)
Lemma split_byte_join sep s t : split_byte sep (s +:+ String sep t) = split_byte sep s ++ split_byte sep t.
Proof.
  induction s as [|c s IH].
  - change (EmptyString +:+ String sep t) with (String sep t). cbn [split_byte]. by rewrite Ascii.eqb_refl.
  - rewrite string_app_cons. cbn [split_byte]. rewrite IH. destruct (Ascii.eqb c sep); [done|].
    pose proof (split_byte_nonempty sep s). by destruct (split_byte sep s).
Qed.

Lemma split_byte_plain sep s : contains_byte sep s = false -> split_byte sep s = [s].
Proof.
  induction s as [|c s IH]; [done|]. cbn [contains_byte split_byte]. intros [Hc Hs]%orb_false_iff. rewrite Hc, IH by done. done.
Qed.

Lemma split_byte_app sep s t : contains_byte sep s = false -> split_byte sep (s +:+ String sep t) = s :: split_byte sep t.
Proof.
  induction s as [|c s IH]; [intros _; change ("" +:+ String sep t) with (String sep t); cbn [split_byte]; by rewrite Ascii.eqb_refl|]. cbn [contains_byte]. intros [Hc Hs]%orb_false_iff.
  rewrite string_app_cons. cbn [split_byte]. rewrite Hc, IH by done. done.
Qed.

Lemma split_join sep ws : ws <> [] -> Forall (fun w => contains_byte sep w = false) ws -> split_byte sep (join_byte sep ws) = ws.
Proof.
  intros Hne Hall. induction Hall as [|w ws Hw Hall IH]; [done|]. destruct ws as [|w' ws]; [by apply split_byte_plain|].
  change (join_byte sep (w :: w' :: ws)) with (w +:+ String sep (join_byte sep (w' :: ws))).
  rewrite split_byte_app by done. by rewrite IH.
Qed.

Lemma split_byte_free sep s w : w ∈ split_byte sep s -> contains_byte sep w = false.
Proof.
  revert w. induction s as [|c s IH]; intros w; simpl.
  { intros ->%list_elem_of_singleton. done. }
  destruct (Ascii.eqb c sep) eqn:E.
  - intros [->|Hw]%elem_of_cons; [done|by apply IH].
  - destruct (split_byte sep s) as [|w0 ws] eqn:Es; [by apply split_byte_nonempty in Es|].
    intros [->|Hw]%elem_of_cons.
    + simpl. rewrite E. apply IH. by left.
    + apply IH. by right.
Qed.

(** ** [boundedUTF8] (daemon/cmd/daemon/prompt_journal.go and
    daemon/internal/startjournal/journal.go): cut at a character boundary and
    append an ellipsis. *)

Fixpoint utf8_cut (cut : nat) (value : string) : nat :=
  match cut with
  | O => O
  | S k => if ValidString (take_bytes cut value) then cut else utf8_cut k value
  end.

Definition boundedUTF8 (value : string) (maxBytes : Z) : string :=
  if maxBytes <=? 0 then ""
  else if len value <=? maxBytes then value
  else
    let cut := maxBytes - len "..." in
    if cut <=? 0 then take_bytes (Z.to_nat maxBytes) "..."
    else take_bytes (utf8_cut (Z.to_nat cut) value) value +:+ "...".

Lemma utf8_cut_le cut value : (utf8_cut cut value <= cut)%nat.
Proof. induction cut as [|k IH]; simpl; [done|]. case_match; lia. Qed.

Lemma utf8_cut_valid cut value : ValidString (take_bytes (utf8_cut cut value) value) = true.
Proof.
  induction cut as [|k IH]; [by destruct value|].
  cbn [utf8_cut]. destruct (ValidString (take_bytes (S k) value)) eqn:E; done.
Qed.

Lemma boundedUTF8_len value maxBytes : 0 <= maxBytes -> len (boundedUTF8 value maxBytes) <= maxBytes.
Proof.
  intros Hm. unfold boundedUTF8.
  destruct (maxBytes <=? 0) eqn:E0; bool_hyps; [done|].
  destruct (len value <=? maxBytes) eqn:E1; bool_hyps; [done|].
  destruct (maxBytes - len "..." <=? 0) eqn:E2; bool_hyps.
  - rewrite len_take_bytes. change (len "...") with 3 in *. lia.
  - rewrite len_app, len_take_bytes. change (len "...") with 3 in *.
    pose proof (utf8_cut_le (Z.to_nat (maxBytes - 3)) value). lia.
Qed.

Lemma utf8_scan_app need lo hi s t :
  utf8_scan need lo hi s = true -> ValidString t = true -> utf8_scan need lo hi (s +:+ t) = true.
Proof.
  intros Hs Ht. revert need lo hi Hs. induction s as [|c s IH]; intros need lo hi.
  - destruct need; [|done]. intros _. simpl.
    unfold ValidString in Ht. destruct t as [|c t]; [done|].
    cbn [utf8_scan] in *. done.
  - cbn [utf8_scan String.append]. change (String.append (String c s) t) with (String c (s +:+ t)).
    cbn [utf8_scan]. destruct need as [|k]; repeat case_match; auto; done.
Qed.

Lemma ValidString_app s t :
  ValidString s = true -> ValidString t = true -> ValidString (s +:+ t) = true.
Proof. apply utf8_scan_app. Qed.

Lemma boundedUTF8_valid value maxBytes :
  ValidString value = true -> ValidString (boundedUTF8 value maxBytes) = true.
Proof.
  intros Hv. unfold boundedUTF8.
  destruct (maxBytes <=? 0) eqn:E0; [done|].
  destruct (len value <=? maxBytes); [done|].
  destruct (maxBytes - len "..." <=? 0) eqn:E2; bool_hyps.
  - change (len "...") with 3 in *.
    assert (maxBytes = 1 \/ maxBytes = 2 \/ maxBytes = 3) as Hc by lia.
    destruct Hc as [-> | [-> | ->]]; done.
  - apply ValidString_app; [apply utf8_cut_valid|done].
Qed.

(** ** [encoding/json] on strings

    The encoder coerces strings to valid UTF-8: a byte that starts no
    well-formed character ([utf8.DecodeRuneInString] then has width 1) becomes
    the replacement character U+FFFD, three bytes long. *)

Definition replacement_char : string := of_codes [239; 191; 189].

(** The width of the well-formed character at the start of [s]; 0 if none. *)
Definition rune_width (s : string) : nat :=
  match List.find (fun k => (k <=? String.length s)%nat && ValidString (take_bytes k s))%bool [1; 2; 3; 4]%nat with
  | Some k => k
  | None => O
  end.

Fixpoint coerce_from (skip : nat) (s : string) : string :=
  match s with
  | EmptyString => EmptyString
  | String c s' =>
    match skip with
    | S k => String c (coerce_from k s')
    | O => match rune_width s with
           | O => replacement_char +:+ coerce_from O s'
           | S k => String c (coerce_from k s')
           end
    end
  end.

Definition coerceUTF8 (s : string) : string := coerce_from O s.

(** What a first byte announces: how many continuation bytes, and the range of
    the first of them. *)
Definition lead (b : Z) : option (nat * Z * Z) :=
  if b <? 128 then Some (0%nat, 128, 191)
  else if ((194 <=? b) && (b <=? 223))%bool then Some (1%nat, 128, 191)
  else if b =? 224 then Some (2%nat, 160, 191)
  else if b =? 237 then Some (2%nat, 128, 159)
  else if ((225 <=? b) && (b <=? 239))%bool then Some (2%nat, 128, 191)
  else if b =? 240 then Some (3%nat, 144, 191)
  else if ((241 <=? b) && (b <=? 243))%bool then Some (3%nat, 128, 191)
  else if b =? 244 then Some (3%nat, 128, 143)
  else None.

Lemma utf8_scan_lead lo hi c s :
  utf8_scan O lo hi (String c s) =
  match lead (code c) with Some (n, lo', hi') => utf8_scan n lo' hi' s | None => false end.
Proof. cbn [utf8_scan]. unfold lead. by repeat case_match. Qed.

Lemma lead_small b n lo hi : lead b = Some (n, lo, hi) -> (n <= 3)%nat.
Proof. unfold lead. intros H. repeat case_match; simplify_eq; lia. Qed.

Lemma utf8_scan_take need lo hi s j :
  utf8_scan need lo hi s = true ->
  (j < need)%nat -> utf8_scan need lo hi (take_bytes j s) = false.
Proof.
  revert lo hi s j. induction need as [|k IH]; intros lo hi s j Hs Hj; [lia|].
  destruct j as [|j]; [by destruct s|]. destruct s as [|c s]; [done|].
  cbn [utf8_scan take_bytes] in *. case_match; [|done]. apply IH; [done|lia].
Qed.

Lemma utf8_scan_split need lo hi s :
  utf8_scan need lo hi s = true ->
  (need <= String.length s)%nat /\ utf8_scan need lo hi (take_bytes need s) = true /\
  utf8_scan O 128 191 (drop_bytes need s) = true.
Proof.
  revert lo hi s. induction need as [|k IH]; intros lo hi s Hs.
  { split_and!; [lia|by destruct s|]. destruct s as [|c s]; [done|].
    change (drop_bytes 0 (String c s)) with (String c s). rewrite utf8_scan_lead in *. exact Hs. }
  destruct s as [|c s]; [done|]. cbn [utf8_scan take_bytes drop_bytes String.length] in *.
  case_match; [|done]. destruct (IH _ _ _ Hs) as (? & ? & ?). split_and!; [lia|done|done].
Qed.

(** A valid string starts with the character its first byte announces, after
    which it is valid again. *)
Lemma rune_width_lead c s n lo hi :
  lead (code c) = Some (n, lo, hi) -> utf8_scan n lo hi s = true -> rune_width (String c s) = S n.
Proof.
  intros El Hs. pose proof (lead_small _ _ _ _ El) as Hn.
  destruct (utf8_scan_split n lo hi s Hs) as (Hlen & Htake & _).
  assert (forall j, ValidString (take_bytes (S j) (String c s)) = utf8_scan n lo hi (take_bytes j s)) as Hv.
  { intros j. change (take_bytes (S j) (String c s)) with (String c (take_bytes j s)).
    unfold ValidString. by rewrite utf8_scan_lead, El. }
  assert (forall j, (j < n)%nat -> utf8_scan n lo hi (take_bytes j s) = false) as Hlt
    by (intros j; by apply utf8_scan_take).
  unfold rune_width. cbn [List.find]. rewrite !Hv.
  assert (forall j, (j <= n)%nat -> (S j <=? String.length (String c s))%nat = true) as Hle
    by (intros j Hj; apply Nat.leb_le; simpl; lia).
  destruct n as [|[|[|[|n]]]]; [..|lia];
    repeat first [rewrite Htake | rewrite Hlt by lia]; rewrite ?andb_false_r, ?Hle by lia; done.
Qed.

Lemma rune_width_valid c s :
  ValidString (String c s) = true ->
  exists n, rune_width (String c s) = S n /\ ValidString (drop_bytes n s) = true /\ (n <= String.length s)%nat.
Proof.
  unfold ValidString at 1. rewrite utf8_scan_lead.
  destruct (lead (code c)) as [[[n lo] hi]|] eqn:El; [|done]. intros Hs.
  destruct (utf8_scan_split n lo hi s Hs) as (Hlen & _ & Hdrop).
  exists n. split_and!; [by eapply rune_width_lead|done|done].
Qed.

(** The bytes of a longer character are not ASCII. *)
Lemma lead_ascii b n lo hi : lead b = Some (n, lo, hi) -> (n = 0%nat <-> b < 128) /\ 128 <= lo.
Proof. unfold lead. intros H. repeat case_match; simplify_eq; bool_hyps; lia. Qed.

Lemma utf8_scan_high n lo hi s c :
  128 <= lo -> utf8_scan n lo hi s = true -> c ∈ String.list_ascii_of_string (take_bytes n s) -> 128 <= code c.
Proof.
  revert lo hi s. induction n as [|n IH]; intros lo hi [|d s] Hlo Hs Hc;
    cbn [take_bytes String.list_ascii_of_string] in Hc; try (by apply not_elem_of_nil in Hc).
  cbn [utf8_scan] in Hs. case_match; [|done]. bool_hyps. apply elem_of_cons in Hc as [->|Hc]; [lia|].
  eapply IH; [|exact Hs|exact Hc]. lia.
Qed.

Lemma coerce_skip k s : coerce_from k s = take_bytes k s +:+ coerce_from O (drop_bytes k s).
Proof.
  revert k. induction s as [|c s IH]; intros [|k]; try done.
  cbn [coerce_from take_bytes drop_bytes]. rewrite string_app_cons. by rewrite IH.
Qed.

Lemma length_drop_bytes n s : String.length (drop_bytes n s) = (String.length s - n)%nat.
Proof. revert n. induction s as [|c s IH]; intros [|n]; try done. simpl. apply IH. Qed.

(** Strings that are valid are encoded as they are. *)
Lemma coerceUTF8_valid s : ValidString s = true -> coerceUTF8 s = s.
Proof.
  unfold coerceUTF8. remember (String.length s) as n eqn:Hn. revert s Hn.
  induction (lt_wf n) as [n _ IH]. intros s -> Hv.
  destruct s as [|c s]; [done|].
  destruct (rune_width_valid c s Hv) as (k & Hw & Hv' & Hk).
  cbn [coerce_from]. rewrite Hw, coerce_skip.
  rewrite (IH (String.length (drop_bytes k s))); [|rewrite length_drop_bytes; simpl; lia|done|done].
  by rewrite take_drop_bytes.
Qed.

Lemma coerceUTF8_empty s : is_empty (coerceUTF8 s) = is_empty s.
Proof.
  destruct s as [|c s]; [done|]. unfold coerceUTF8. cbn [coerce_from].
  by destruct (rune_width (String c s)).
Qed.

#[export] Hint Resolve len_nonneg code_range : go.
