(* ===== verification/GoPath.v ===== *)
(** * Slash-separated paths: the functions of [path] the source calls

    [path.Clean], and [filepath.Dir] and [filepath.Join] as they are on a system
    whose separator is the slash. *)

From stdpp Require Import base tactics list strings.
From Stdlib Require Import Ascii String ZArith Lia.
From S2P Require Import Prelude GoStrings.

Definition slash : ascii := "/"%char.

(** The elements of a path, from left to right, on a stack: [.] and empty
    elements vanish, [..] takes the element before it away; at the front it is
    kept in a relative path and dropped in a rooted one. *)
Definition push_segment (rooted : bool) (stack : list string) (seg : string) : list string :=
  if (is_empty seg || String.eqb seg ".")%bool then stack
  else if String.eqb seg ".." then
    match stack with
    | [] => if rooted then [] else [".."]
    | top :: rest => if String.eqb top ".." then ".." :: stack else rest
    end
  else seg :: stack.

Definition clean_segments (rooted : bool) (segs : list string) : list string :=
  reverse (foldl (push_segment rooted) [] segs).

(** [path.Clean]. *)
Definition Clean (p : string) : string :=
  let rooted := has_prefix "/" p in
  let segs := clean_segments rooted (split_byte slash p) in
  if rooted then "/" +:+ join_byte slash segs
  else match segs with [] => "." | _ => join_byte slash segs end.

(** Everything up to and including the last slash. *)
Fixpoint to_last_slash (p : string) : string :=
  match p with
  | EmptyString => EmptyString
  | String c p' =>
    let rest := to_last_slash p' in
    if (is_empty rest && negb (Ascii.eqb c slash))%bool then EmptyString else String c rest
  end.

(** [filepath.Dir]. *)
Definition path_dir (p : string) : string := Clean (to_last_slash p).

(** [filepath.Join(a, b)]: empty elements are ignored. *)
Definition path_join (a b : string) : string :=
  match is_empty a, is_empty b with
  | true, true => ""
  | true, false => Clean b
  | false, true => Clean a
  | false, false => Clean (a +:+ "/" +:+ b)
  end.

Example Clean_ex1 : Clean "/a//b/./c/" = "/a/b/c". Proof. by_vm. Qed.
Example Clean_ex2 : Clean "a/../../b" = "../b". Proof. by_vm. Qed.
Example Clean_ex3 : Clean "/../a/.." = "/". Proof. by_vm. Qed.
Example Clean_ex4 : Clean "" = ".". Proof. by_vm. Qed.
Example Clean_ex5 : Clean "../../a" = "../../a". Proof. by_vm. Qed.
Example path_dir_ex1 : path_dir "/etc/neko/config.json" = "/etc/neko". Proof. by_vm. Qed.
Example path_dir_ex2 : path_dir "config.json" = ".". Proof. by_vm. Qed.
Example path_join_ex1 : path_join "." "a.json" = "a.json". Proof. by_vm. Qed.

(** A path element that names something below its directory. *)
Definition plain_segment (w : string) : bool :=
  (negb (is_empty w) && negb (String.eqb w ".") && negb (String.eqb w "..") && negb (contains_byte slash w))%bool.

Lemma push_segment_plain stack seg :
  contains_byte slash seg = false ->
  forallb plain_segment stack = true -> forallb plain_segment (push_segment true stack seg) = true.
Proof.
  intros Hc Hs. unfold push_segment.
  destruct (is_empty seg) eqn:E1; [done|]. destruct (String.eqb seg ".") eqn:E2; [done|]. cbn [orb].
  destruct (String.eqb seg "..") eqn:E3.
  - destruct stack as [|top rest]; [done|]. cbn [forallb] in Hs. apply andb_prop in Hs as [Ht Hr].
    destruct (String.eqb top "..") eqn:E4; [|done].
    unfold plain_segment in Ht. rewrite E4 in Ht. rewrite !andb_false_r in Ht. done.
  - cbn [forallb]. rewrite Hs. unfold plain_segment. by rewrite E1, E2, E3, Hc.
Qed.

Lemma clean_segments_plain segs :
  Forall (fun w => contains_byte slash w = false) segs ->
  forallb plain_segment (clean_segments true segs) = true.
Proof.
  intros Hall. unfold clean_segments.
  assert (forall stack, forallb plain_segment stack = true ->
            forallb plain_segment (foldl (push_segment true) stack segs) = true) as Hf.
  { induction Hall as [|w segs Hw _ IH]; intros stack Hs; [done|].
    cbn [foldl]. apply IH. by apply push_segment_plain. }
  specialize (Hf [] eq_refl). rewrite forallb_forall in Hf. apply forallb_forall.
  intros w Hw. apply Hf. apply list_elem_of_In. apply list_elem_of_In in Hw. by rewrite elem_of_reverse in Hw.
Qed.

(** A rooted path is cleaned to a slash and plain elements: no [.], no [..], no
    empty element is left. *)
Lemma Clean_rooted p :
  has_prefix "/" p = true ->
  exists segs, Clean p = "/" +:+ join_byte slash segs /\ forallb plain_segment segs = true.
Proof.
  intros Hp. exists (clean_segments true (split_byte slash p)). split.
  - unfold Clean. by rewrite Hp.
  - apply clean_segments_plain. apply Forall_forall. intros w Hw. by apply (split_byte_free slash p).
Qed.

(** Without a [..] among the elements nothing is taken away: cleaning only drops
    [.] and empty elements. *)
Definition kept_segment (w : string) : bool := (negb (is_empty w) && negb (String.eqb w "."))%bool.

Lemma clean_segments_no_parent rooted segs :
  forallb (fun w => negb (String.eqb w "..")) segs = true ->
  clean_segments rooted segs = List.filter kept_segment segs.
Proof.
  intros Hall. unfold clean_segments.
  assert (forall stack, reverse (foldl (push_segment rooted) stack segs) =
            reverse stack ++ List.filter kept_segment segs) as ->; [|done].
  induction segs as [|w segs IH]; intros stack; [by rewrite app_nil_r|].
  cbn [forallb] in Hall. apply andb_prop in Hall as [Hw Hall]. cbn [foldl List.filter].
  rewrite IH by done. unfold push_segment, kept_segment at 2.
  destruct (is_empty w) eqn:E1; [done|]. destruct (String.eqb w ".") eqn:E2; [done|].
  apply negb_true_iff in Hw. rewrite Hw. cbn [orb negb andb].
  rewrite reverse_cons, <- app_assoc. done.
Qed.

(** ** The last element of a path and its extension *)

Definition dot : ascii := "."%char.

(** [filepath.Ext] and [filepath.Base]. *)
Fixpoint Ext (p : string) : string :=
  match p with
  | EmptyString => EmptyString
  | String c p' =>
    if (Ascii.eqb c dot && negb (contains_byte dot p') && negb (contains_byte slash p'))%bool then p else Ext p'
  end.

Fixpoint trim_right_slashes (p : string) : string :=
  match p with
  | EmptyString => EmptyString
  | String c p' =>
    let rest := trim_right_slashes p' in
    if (is_empty rest && Ascii.eqb c slash)%bool then EmptyString else String c rest
  end.

Fixpoint after_last_slash (p : string) : string :=
  match p with
  | EmptyString => EmptyString
  | String c p' => if contains_byte slash p then after_last_slash p' else p
  end.

Definition Base (p : string) : string :=
  if is_empty p then "."
  else let q := after_last_slash (trim_right_slashes p) in if is_empty q then "/" else q.

(** [filepath.Join] *)
Definition path_joins (elems : list string) : string :=
  match List.filter (fun e => negb (is_empty e)) elems with
  | [] => ""
  | es => Clean (join_byte slash es)
  end.

(** What is left of two paths behind the elements they share. *)
Fixpoint strip_common (base targ : list string) : list string * list string :=
  match base, targ with
  | b :: base', t :: targ' => if String.eqb b t then strip_common base' targ' else (base, targ)
  | _, _ => (base, targ)
  end.

(** [filepath.Rel] on a system whose separator is the slash. *)
Definition Rel (basepath targpath : string) : option string :=
  let rooted := has_prefix "/" basepath in
  if negb (Bool.eqb rooted (has_prefix "/" targpath)) then None
  else
    let '(b, t) := strip_common (clean_segments rooted (split_byte slash basepath)) (clean_segments rooted (split_byte slash targpath)) in
    match b with
    | ".." :: _ => None
    | _ => Some (match b ++ t with
                 | [] => "."
                 | _ => join_byte slash (((fun _ => "..") <$> b) ++ t)
                 end)
    end.
