(* ===== verification/Json.v ===== *)
(** * JSON documents: [json.Valid]

    The validator of [encoding/json] (its [scanner]) as the pushdown automaton
    it is: a state, a stack of the enclosing objects and arrays, one step per
    byte. Bytes above 0x7f are accepted inside string literals whether or not
    they are valid UTF-8, and nesting is bounded by [maxNestingDepth]. *)

From stdpp Require Import base tactics list gmap strings.
From Stdlib Require Import Ascii ZArith Lia.
From S2P Require Import Prelude GoStrings.

Inductive jstate : Set :=
  | BeginValue | BeginValueOrEmpty | BeginStringOrEmpty | BeginString
  | EndValue | EndTop
  | InString | InStringEsc | InStringEscU (remaining : nat)
  | Neg | Num0 | Num1 | Dot | Dot0 | Exp | ExpSign | Exp0
  | Lit (rest : string).

Inductive jcontext : Set := ObjectKey | ObjectValue | ArrayValue.

Definition maxNestingDepth : Z := 10000.

Definition is_json_space (b : Z) : bool := ((b =? 32) || (b =? 9) || (b =? 13) || (b =? 10))%bool.
Definition is_digit (b : Z) : bool := ((48 <=? b) && (b <=? 57))%bool.
Definition is_hex_digit (b : Z) : bool :=
  (is_digit b || ((97 <=? b) && (b <=? 102)) || ((65 <=? b) && (b <=? 70)))%bool.

Definition push (c : jcontext) (next : jstate) (stack : list jcontext) : option (jstate * list jcontext) :=
  if maxNestingDepth <=? Z.of_nat (List.length stack) then None else Some (next, c :: stack).

(** After a complete value: the state a closing bracket leaves. *)
Definition pop (stack : list jcontext) : option (jstate * list jcontext) :=
  match stack with
  | [] => None
  | [_] => Some (EndTop, [])
  | _ :: stack' => Some (EndValue, stack')
  end.

Definition begin_value (b : Z) (stack : list jcontext) : option (jstate * list jcontext) :=
  if is_json_space b then Some (BeginValue, stack)
  else if b =? 123 then push ObjectKey BeginStringOrEmpty stack
  else if b =? 91 then push ArrayValue BeginValueOrEmpty stack
  else if b =? 34 then Some (InString, stack)
  else if b =? 45 then Some (Neg, stack)
  else if b =? 48 then Some (Num0, stack)
  else if b =? 116 then Some (Lit "rue", stack)
  else if b =? 102 then Some (Lit "alse", stack)
  else if b =? 110 then Some (Lit "ull", stack)
  else if ((49 <=? b) && (b <=? 57))%bool then Some (Num1, stack)
  else None.

Definition end_value (b : Z) (stack : list jcontext) : option (jstate * list jcontext) :=
  match stack with
  | [] => if is_json_space b then Some (EndTop, []) else None
  | ctx :: stack' =>
    if is_json_space b then Some (EndValue, stack)
    else match ctx with
         | ObjectKey => if b =? 58 then Some (BeginValue, ObjectValue :: stack') else None
         | ObjectValue =>
           if b =? 44 then Some (BeginString, ObjectKey :: stack')
           else if b =? 125 then pop stack else None
         | ArrayValue =>
           if b =? 44 then Some (BeginValue, stack)
           else if b =? 93 then pop stack else None
         end
  end.

Definition begin_string (b : Z) (stack : list jcontext) : option (jstate * list jcontext) :=
  if is_json_space b then Some (BeginString, stack)
  else if b =? 34 then Some (InString, stack) else None.

Definition num_tail (b : Z) (stack : list jcontext) : option (jstate * list jcontext) :=
  if b =? 46 then Some (Dot, stack)
  else if ((b =? 101) || (b =? 69))%bool then Some (Exp, stack)
  else end_value b stack.

Definition jstep (st : jstate) (stack : list jcontext) (b : Z) : option (jstate * list jcontext) :=
  match st with
  | BeginValue => begin_value b stack
  | BeginValueOrEmpty =>
    if is_json_space b then Some (BeginValueOrEmpty, stack)
    else if b =? 93 then end_value b stack
    else begin_value b stack
  | BeginStringOrEmpty =>
    if is_json_space b then Some (BeginStringOrEmpty, stack)
    else if b =? 125 then pop stack
    else begin_string b stack
  | BeginString => begin_string b stack
  | EndValue => end_value b stack
  | EndTop => if is_json_space b then Some (EndTop, stack) else None
  | InString =>
    if b =? 34 then Some (EndValue, stack)
    else if b =? 92 then Some (InStringEsc, stack)
    else if b <? 32 then None
    else Some (InString, stack)
  | InStringEsc =>
    if existsb (Z.eqb b) [98; 102; 110; 114; 116; 92; 47; 34] then Some (InString, stack)
    else if b =? 117 then Some (InStringEscU 4, stack)
    else None
  | InStringEscU n =>
    if is_hex_digit b
    then match n with
         | S (S k) => Some (InStringEscU (S k), stack)
         | _ => Some (InString, stack)
         end
    else None
  | Neg =>
    if b =? 48 then Some (Num0, stack)
    else if ((49 <=? b) && (b <=? 57))%bool then Some (Num1, stack) else None
  | Num1 => if is_digit b then Some (Num1, stack) else num_tail b stack
  | Num0 => num_tail b stack
  | Dot => if is_digit b then Some (Dot0, stack) else None
  | Dot0 =>
    if is_digit b then Some (Dot0, stack)
    else if ((b =? 101) || (b =? 69))%bool then Some (Exp, stack)
    else end_value b stack
  | Exp =>
    if ((b =? 43) || (b =? 45))%bool then Some (ExpSign, stack)
    else if is_digit b then Some (Exp0, stack) else None
  | ExpSign => if is_digit b then Some (Exp0, stack) else None
  | Exp0 => if is_digit b then Some (Exp0, stack) else end_value b stack
  | Lit rest =>
    match rest with
    | String c rest' =>
      if b =? code c
      then Some (match rest' with EmptyString => EndValue | _ => Lit rest' end, stack)
      else None
    | EmptyString => None
    end
  end.

Fixpoint jscan (st : jstate) (stack : list jcontext) (s : string) : bool :=
  match s with
  | EmptyString =>
    match st with
    | EndTop => true
    | _ => match jstep st stack 32 with Some (EndTop, _) => true | _ => false end
    end
  | String c s' =>
    match jstep st stack (code c) with
    | Some (st', stack') => jscan st' stack' s'
    | None => false
    end
  end.

Definition json_Valid (s : string) : bool := jscan BeginValue [] s.

(** ** Examples *)

Definition quoted (s : string) : string := of_codes [34] +:+ s +:+ of_codes [34].

Example json_valid_object :
  json_Valid ("[{" +:+ quoted "url" +:+ ": " +:+ quoted "/attach/x" +:+ ", " +:+ quoted "n" +:+ ": -1.5e+3}, null]") = true.
Proof. reflexivity. Qed.

Example json_valid_empty_containers : json_Valid " [[], {}] " = true.
Proof. reflexivity. Qed.

Example json_invalid_trailing : json_Valid "{} x" = false.
Proof. reflexivity. Qed.

Example json_invalid_leading_zero : json_Valid "[01]" = false.
Proof. reflexivity. Qed.

Example json_valid_bare_number : json_Valid "12" = true.
Proof. reflexivity. Qed.

Lemma json_Valid_empty : json_Valid "" = false.
Proof. reflexivity. Qed.

(** ** Dynamic values

    A value of Go type [interface{}] as the source meets them: what
    [encoding/json] decodes into ([nil], [bool], [float64], [string],
    [[]interface{}], [map[string]interface{}]) and the integers the program puts
    into payloads itself. A decoded number is the finite [float64]
    [mantissa * 2 ^ exponent]. An object is an association list with distinct
    keys; [payload] is [map[string]interface{}] at top level. *)

Inductive value : Type :=
  | VNil
  | VBool (b : bool)
  | VFloat (mantissa exponent : Z)
  | VInt (n : Z)
  | VUint64 (n : Z)
  | VString (s : string)
  | VArray (l : list value)
  | VObject (kvs : list (string * value)).

Abbreviation payload := (gmap string value).

Fixpoint assoc (k : string) (kvs : list (string * value)) : option value :=
  match kvs with
  | [] => None
  | (k', v) :: kvs' => if bool_decide (k = k') then Some v else assoc k kvs'
  end.

(** [v.(string)] with the comma-ok form, and with the zero value. *)
Definition as_string (v : option value) : option string :=
  match v with Some (VString s) => Some s | _ => None end.
Definition string_or_empty (v : option value) : string := default "" (as_string v).

Definition as_bool (v : option value) : option bool :=
  match v with Some (VBool b) => Some b | _ => None end.

(** Exact comparison and truncation of [m * 2 ^ e]. *)
Definition float_gt (m e bound : Z) : bool :=
  if 0 <=? e then bound <? m * 2 ^ e else bound * 2 ^ (- e) <? m.
Definition float_is_integral (m e : Z) : bool :=
  if 0 <=? e then true else m mod 2 ^ (- e) =? 0.
Definition float_trunc (m e : Z) : Z :=
  if 0 <=? e then m * 2 ^ e else Z.quot m (2 ^ (- e)).

Lemma float_integral_value m e : float_is_integral m e = true -> e < 0 -> float_trunc m e * 2 ^ (- e) = m.
Proof.
  unfold float_is_integral, float_trunc. intros H He. destruct (0 <=? e) eqn:E; bool_hyps; [lia|].
  assert (2 ^ (- e) <> 0) by (apply Z.pow_nonzero; lia).
  apply Z.rem_mod_eq_0 in H as Hr; [|done]. pose proof (Z.quot_rem' m (2 ^ (- e))). lia.
Qed.

(** A string carried under [key] of an optional payload. *)
Definition payload_string (p : payload) (key : string) : string := string_or_empty (p !! key).
