(* ===== verification/Sha256.v ===== *)
(** * SHA-256 and hexadecimal

    [crypto/sha256] and [encoding/hex], which the daemon derives its journal
    keys with and the relay its token hashes (FIPS 180-4, on 32-bit words
    represented by [Z] below 2^32). *)

From stdpp Require Import base tactics list strings.
From Stdlib Require Import Ascii ZArith Lia.
From S2P Require Import Prelude GoStrings.

Definition mask32 : Z := 4294967295.
Definition add32 (a b : Z) : Z := Z.land (a + b) mask32.
Definition rotr (n x : Z) : Z :=
  Z.lor (Z.shiftr x n) (Z.land (Z.shiftl x (32 - n)) mask32).

Definition sha_k : list Z :=
  [1116352408; 1899447441; 3049323471; 3921009573; 961987163; 1508970993;
   2453635748; 2870763221; 3624381080; 310598401; 607225278; 1426881987;
   1925078388; 2162078206; 2614888103; 3248222580; 3835390401; 4022224774;
   264347078; 604807628; 770255983; 1249150122; 1555081692; 1996064986;
   2554220882; 2821834349; 2952996808; 3210313671; 3336571891; 3584528711;
   113926993; 338241895; 666307205; 773529912; 1294757372; 1396182291;
   1695183700; 1986661051; 2177026350; 2456956037; 2730485921; 2820302411;
   3259730800; 3345764771; 3516065817; 3600352804; 4094571909; 275423344;
   430227734; 506948616; 659060556; 883997877; 958139571; 1322822218;
   1537002063; 1747873779; 1955562222; 2024104815; 2227730452; 2361852424;
   2428436474; 2756734187; 3204031479; 3329325298].

Definition sha_init : list Z :=
  [1779033703; 3144134277; 1013904242; 2773480762; 1359893119; 2600822924; 528734635; 1541459225].

Definition big_sigma0 (x : Z) : Z := Z.lxor (rotr 2 x) (Z.lxor (rotr 13 x) (rotr 22 x)).
Definition big_sigma1 (x : Z) : Z := Z.lxor (rotr 6 x) (Z.lxor (rotr 11 x) (rotr 25 x)).
Definition small_sigma0 (x : Z) : Z := Z.lxor (rotr 7 x) (Z.lxor (rotr 18 x) (Z.shiftr x 3)).
Definition small_sigma1 (x : Z) : Z := Z.lxor (rotr 17 x) (Z.lxor (rotr 19 x) (Z.shiftr x 10)).
Definition ch (x y z : Z) : Z := Z.lxor (Z.land x y) (Z.land (Z.lxor x mask32) z).
Definition maj (x y z : Z) : Z := Z.lxor (Z.land x y) (Z.lxor (Z.land x z) (Z.land y z)).

(** The message schedule, latest word first. *)
Fixpoint schedule (n : nat) (w : list Z) : list Z :=
  match n with
  | O => w
  | S n' =>
    let word := add32 (add32 (small_sigma1 (nth 1 w 0)) (nth 6 w 0))
                      (add32 (small_sigma0 (nth 14 w 0)) (nth 15 w 0)) in
    schedule n' (word :: w)
  end.

Definition sha_round (st : list Z) (kw : Z * Z) : list Z :=
  match st with
  | [a; b; c; d; e; f; g; h] =>
    let t1 := add32 (add32 (add32 h (big_sigma1 e)) (ch e f g)) (add32 kw.1 kw.2) in
    let t2 := add32 (big_sigma0 a) (maj a b c) in
    [add32 t1 t2; a; b; c; add32 d t1; e; f; g]
  | _ => st
  end.

Definition sha_block (st : list Z) (block : list Z) : list Z :=
  let w := reverse (schedule 48 (reverse block)) in
  zip_with add32 st (foldl sha_round st (zip sha_k w)).

(** Big-endian words and bytes. *)
Fixpoint to_words (bytes : list Z) : list Z :=
  match bytes with
  | b0 :: b1 :: b2 :: b3 :: rest =>
    Z.lor (Z.shiftl b0 24) (Z.lor (Z.shiftl b1 16) (Z.lor (Z.shiftl b2 8) b3)) :: to_words rest
  | _ => []
  end.

Definition word_bytes (w : Z) : list Z :=
  [Z.land (Z.shiftr w 24) 255; Z.land (Z.shiftr w 16) 255; Z.land (Z.shiftr w 8) 255; Z.land w 255].

Fixpoint codes (s : string) : list Z :=
  match s with EmptyString => [] | String c s' => code c :: codes s' end.

Definition sha_pad (msg : list Z) : list Z :=
  let n := Z.of_nat (List.length msg) in
  let zeros := Z.to_nat ((55 - n) mod 64) in
  let bits := 8 * n in
  msg ++ [128] ++ replicate zeros 0 ++ word_bytes (Z.shiftr bits 32) ++ word_bytes (Z.land bits mask32).

Fixpoint sha_blocks (fuel : nat) (words : list Z) (st : list Z) : list Z :=
  match fuel, words with
  | S fuel', _ :: _ => sha_blocks fuel' (drop 16 words) (sha_block st (take 16 words))
  | _, _ => st
  end.

(** [sha256.Sum256([]byte(s))] as a byte string. *)
Definition sha256 (s : string) : string :=
  let words := to_words (sha_pad (codes s)) in
  of_codes (mjoin (word_bytes <$> sha_blocks (List.length words) words sha_init)).

Definition hex_digit (n : Z) : ascii := if n <? 10 then byte_of (48 + n) else byte_of (87 + n).

(** [hex.EncodeToString]. *)
Fixpoint hex_encode (s : string) : string :=
  match s with
  | EmptyString => EmptyString
  | String c s' =>
    String (hex_digit (Z.shiftr (code c) 4)) (String (hex_digit (Z.land (code c) 15)) (hex_encode s'))
  end.

Definition is_hex (c : ascii) : bool :=
  let b := code c in
  (((48 <=? b) && (b <=? 57)) || ((97 <=? b) && (b <=? 102)) || ((65 <=? b) && (b <=? 70)))%bool.

Fixpoint all_hex (s : string) : bool :=
  match s with EmptyString => true | String c s' => (is_hex c && all_hex s')%bool end.

(** [hex.DecodeString] succeeds. *)
Definition hex_decodes (s : string) : bool := (Nat.even (String.length s) && all_hex s)%bool.

Definition sha256_hex (s : string) : string := hex_encode (sha256 s).

Example sha256_abc :
  sha256_hex "abc" = "ba7816bf8f01cfea414140de5dae2223b00361a396177a9cb410ff61f20015ad".
Proof. by_vm. Qed.

Example sha256_two_blocks :
  sha256_hex "abcdbcdecdefdefgefghfghighijhijkijkljklmklmnlmnomnopnopq"
  = "248d6a61d20638b8e5c026930c3e6039a33ce45964ff2167f6ecedd419db06c1".
Proof. by_vm. Qed.

Example sha256_empty :
  sha256_hex "" = "e3b0c44298fc1c149afbf4c8996fb92427ae41e4649b934ca495991b7852b855".
Proof. by_vm. Qed.

(** ** Shape of the digest *)

Lemma sha_round_length st kw : List.length st = 8%nat -> List.length (sha_round st kw) = 8%nat.
Proof. do 9 (destruct st as [|? st]; try done). Qed.

Lemma sha_block_length st block : List.length st = 8%nat -> List.length (sha_block st block) = 8%nat.
Proof.
  intros H. unfold sha_block. generalize (zip sha_k (reverse (schedule 48 (reverse block)))). intros kws.
  assert (forall l, List.length (foldl sha_round st l) = 8%nat) as Hf.
  { intros l. revert st H. induction l as [|kw l IH]; intros st H; [done|]. apply IH. by apply sha_round_length. }
  rewrite length_zip_with, H, Hf. done.
Qed.

Lemma sha_blocks_length n words st : List.length st = 8%nat -> List.length (sha_blocks n words st) = 8%nat.
Proof.
  revert words st. induction n as [|n IH]; intros words st H; [done|].
  cbn [sha_blocks]. destruct words; [done|]. apply IH. by apply sha_block_length.
Qed.

Lemma len_of_codes l : len (of_codes l) = Z.of_nat (List.length l).
Proof.
  induction l as [|z l IH]; [done|]. change (of_codes (z :: l)) with (String (byte_of z) (of_codes l)).
  unfold len in *. cbn [String.length List.length]. lia.
Qed.

Lemma len_sha256 s : len (sha256 s) = 32.
Proof.
  unfold sha256. rewrite len_of_codes.
  assert (forall l, List.length (mjoin (word_bytes <$> l) : list Z) = (4 * List.length l)%nat) as Hj.
  { induction l as [|w l IH]; [done|]. rewrite fmap_cons. simpl. simpl in IH. lia. }
  rewrite Hj, sha_blocks_length by done. done.
Qed.

Lemma len_hex_encode s : len (hex_encode s) = 2 * len s.
Proof. unfold len. induction s as [|c s IH]; [done|]. cbn [hex_encode String.length]. lia. Qed.

Lemma hex_digit_is_hex n : 0 <= n < 16 -> is_hex (hex_digit n) = true.
Proof.
  intros H. assert (forallb (fun k => is_hex (hex_digit (Z.of_nat k))) (seq 0 16) = true) as Hall by done.
  rewrite forallb_forall in Hall. specialize (Hall (Z.to_nat n)). rewrite Z2Nat.id in Hall by lia.
  apply Hall, in_seq. lia.
Qed.

Lemma all_hex_encode s : all_hex (hex_encode s) = true.
Proof.
  induction s as [|c s IH]; [done|]. cbn [hex_encode all_hex]. pose proof (code_range c) as Hc.
  rewrite !hex_digit_is_hex; [done| |].
  - change 15 with (Z.ones 4). rewrite Z.land_ones by lia. apply Z.mod_pos_bound. lia.
  - rewrite Z.shiftr_div_pow2 by lia. change (2 ^ 4) with 16. split; [apply Z.div_pos; lia|].
    apply Z.div_lt_upper_bound; lia.
Qed.

Lemma len_sha256_hex s : len (sha256_hex s) = 64.
Proof. unfold sha256_hex. by rewrite len_hex_encode, len_sha256. Qed.

Lemma hex_decodes_sha256 s : hex_decodes (sha256_hex s) = true.
Proof.
  unfold hex_decodes. pose proof (len_sha256_hex s) as Hl. unfold len in Hl.
  assert (String.length (sha256_hex s) = 64%nat) as -> by lia.
  unfold sha256_hex. by rewrite all_hex_encode.
Qed.

#[export] Hint Resolve len_sha256_hex hex_decodes_sha256 : go.
