(* ===== verification/Base64.v ===== *)
(** * [base64.RawURLEncoding]

    The encoding of keys, nonces and ciphertexts. Decoding ignores line breaks
    and the unused bits of the last character, as the Standard Library does. *)

From stdpp Require Import base tactics list strings.
From Stdlib Require Import Ascii ZArith Lia.
From S2P Require Import Prelude GoStrings Sha256.

Definition base64_digit (b : Z) : option Z :=
  if ((65 <=? b) && (b <=? 90))%bool then Some (b - 65)
  else if ((97 <=? b) && (b <=? 122))%bool then Some (b - 71)
  else if ((48 <=? b) && (b <=? 57))%bool then Some (b + 4)
  else if b =? 45 then Some 62
  else if b =? 95 then Some 63
  else None.

Definition base64_char (d : Z) : Z :=
  if d <? 26 then d + 65
  else if d <? 52 then d + 71
  else if d <? 62 then d - 4
  else if d =? 62 then 45
  else 95.

(** Groups of four digits to three bytes, and back. *)
Fixpoint base64_quanta (ds : list Z) : option (list Z) :=
  match ds with
  | [] => Some []
  | [_] => None
  | [a; b] => Some [a * 4 + b / 16]
  | [a; b; c] => Some [a * 4 + b / 16; (b mod 16) * 16 + c / 4]
  | a :: b :: c :: d :: rest =>
    match base64_quanta rest with
    | Some l => Some (a * 4 + b / 16 :: (b mod 16) * 16 + c / 4 :: (c mod 4) * 64 + d :: l)
    | None => None
    end
  end.

Fixpoint base64_digits (bs : list Z) : list Z :=
  match bs with
  | [] => []
  | [x] => [x / 4; (x mod 4) * 16]
  | [x; y] => [x / 4; (x mod 4) * 16 + y / 16; (y mod 16) * 4]
  | x :: y :: z :: rest => x / 4 :: (x mod 4) * 16 + y / 16 :: (y mod 16) * 4 + z / 64 :: z mod 64 :: base64_digits rest
  end.

Definition is_break (b : Z) : bool := ((b =? 10) || (b =? 13))%bool.

Definition without_breaks (s : string) : list Z := List.filter (fun b => negb (is_break b)) (codes s).

Definition raw_decode (bs : list Z) : option (list Z) := ds ← mapM base64_digit bs; base64_quanta ds.

Definition B64 (b : string) : string := of_codes (base64_char <$> base64_digits (codes b)).

Definition B64Decode (s : string) : res string :=
  match raw_decode (without_breaks s) with
  | Some bs => Ok (of_codes bs)
  | None => Err "illegal base64 data"
  end.

(** ** The round trip *)

Definition is_byte (b : Z) : Prop := 0 <= b < 256.
Definition is_sextet (d : Z) : Prop := 0 <= d < 64.

Lemma base64_digit_char d : is_sextet d -> base64_digit (base64_char d) = Some d /\ is_break (base64_char d) = false.
Proof.
  intros Hd. assert (Hall : Forall (fun d => base64_digit (base64_char d) = Some d /\ is_break (base64_char d) = false) (seqZ 0 64))
    by (apply (bool_decide_unpack _); vm_compute; reflexivity).
  rewrite Forall_forall in Hall. apply Hall, elem_of_seqZ. unfold is_sextet in Hd. lia.
Qed.

(** Induction by groups of three bytes. *)
Lemma bytes_ind3 (P : list Z -> Prop) :
  P [] -> (forall x, P [x]) -> (forall x y, P [x; y]) -> (forall x y z l, P l -> P (x :: y :: z :: l)) -> forall l, P l.
Proof.
  intros H0 H1 H2 H3 l. induction (Nat.lt_wf_0_projected (@length Z) l) as [l _ IH].
  destruct l as [|x [|y [|z l]]]; auto. apply H3, IH. simpl. lia.
Qed.

Lemma base64_digits_sextets bs : Forall is_byte bs -> Forall is_sextet (base64_digits bs).
Proof.
  unfold is_byte, is_sextet. induction bs as [|x|x y|x y z bs IH] using bytes_ind3; intros Hb;
    cbn [base64_digits]; decompose_Forall; repeat constructor; try (Z.div_mod_to_equations; lia). by apply IH.
Qed.

Lemma base64_quanta_digits bs : Forall is_byte bs -> base64_quanta (base64_digits bs) = Some bs.
Proof.
  unfold is_byte. induction bs as [|x|x y|x y z bs IH] using bytes_ind3; intros Hb; cbn [base64_digits base64_quanta];
    decompose_Forall; [done| | |rewrite IH by done]; repeat f_equal; Z.div_mod_to_equations; lia.
Qed.

Lemma codes_of_codes bs : Forall is_byte bs -> codes (of_codes bs) = bs.
Proof.
  induction bs as [|b bs IH]; intros Hb; [done|]. decompose_Forall. cbn. rewrite IH by done. f_equal.
  unfold code, byte_of. rewrite N_ascii_embedding; [unfold is_byte in *; rewrite Z2N.id; lia|].
  apply N2Z.inj_lt. unfold is_byte in *. rewrite Z2N.id; lia.
Qed.

Lemma codes_bytes s : Forall is_byte (codes s).
Proof. induction s as [|c s IH]; cbn; constructor; [apply code_range|done]. Qed.

Lemma of_codes_codes s : of_codes (codes s) = s.
Proof.
  induction s as [|c s IH]; [done|].
  change (of_codes (codes (String c s))) with (String (byte_of (code c)) (of_codes (codes s))).
  rewrite IH. f_equal. unfold byte_of, code. rewrite N2Z.id. apply ascii_N_embedding.
Qed.

Lemma B64Decode_B64 b : B64Decode (B64 b) = Ok b.
Proof.
  pose proof (base64_digits_sextets _ (codes_bytes b)) as Hds.
  assert (Hcodes : codes (B64 b) = base64_char <$> base64_digits (codes b)).
  { apply codes_of_codes, Forall_fmap. eapply Forall_impl; [exact Hds|]. intros d Hd. unfold compose, is_byte, is_sextet, base64_char in *.
    repeat case_match; lia. }
  unfold B64Decode, without_breaks. rewrite Hcodes.
  assert (Hraw : raw_decode (List.filter (fun b => negb (is_break b)) (base64_char <$> base64_digits (codes b))) = Some (codes b)).
  { unfold raw_decode. replace (mapM base64_digit _) with (Some (base64_digits (codes b)));
      [apply base64_quanta_digits, codes_bytes|].
    symmetry. clear Hcodes. induction Hds as [|d ds Hd Hds IH]; [done|]. cbn. destruct (base64_digit_char d Hd) as [E1 E2].
    rewrite E2. cbn. rewrite E1. cbn. by rewrite IH. }
  by rewrite Hraw, of_codes_codes.
Qed.

(** Every character of the encoding is one of the alphabet. *)
Lemma B64_alphabet (P : ascii -> bool) b :
  forallb (fun d => P (byte_of (base64_char d))) (seqZ 0 64) = true -> forallb P (String.list_ascii_of_string (B64 b)) = true.
Proof.
  intros Hall. unfold B64. pose proof (base64_digits_sextets _ (codes_bytes b)) as Hds. revert Hds.
  generalize (base64_digits (codes b)). intros l Hl. induction Hl as [|d l Hd Hl IH]; [done|].
  change (forallb P (byte_of (base64_char d) :: String.list_ascii_of_string (of_codes (base64_char <$> l))) = true).
  cbn [forallb]. apply andb_true_iff. split; [|exact IH]. rewrite forallb_forall in Hall.
  apply Hall, list_elem_of_In, elem_of_seqZ. unfold is_sextet in Hd. lia.
Qed.
