(* ===== verification/WebPush.v ===== *)
(** * Web push subscriptions and their delivery (relaycore/webpush/webpush.go)

    What the relay accepts as a push subscription, which addresses the delivery
    may connect to, and the bounded queue in front of the delivery workers.
    [url.Parse] and [net.ParseIP] are parameters; an IP address is its four or
    sixteen bytes. Payload encryption and the HTTP request
    are the webpush-go library's; its answer per subscription is an argument. *)

From stdpp Require Import base tactics list strings.
From Stdlib Require Import Ascii ZArith Lia.
From S2P Require Import Prelude GoStrings Base64.

(** ** Addresses ([net.IP] of the standard library) *)

Abbreviation IP := (list Z).

Definition v4_prefix : list Z := [0;0;0;0;0;0;0;0;0;0;255;255].

Definition IPv4 (a b c d : Z) : IP := v4_prefix ++ [a; b; c; d].

Definition To4 (ip : IP) : option (Z * Z * Z * Z) :=
  match ip with
  | [a; b; c; d] => Some (a, b, c, d)
  | _ =>
    if bool_decide (take 12 ip = v4_prefix)
    then match drop 12 ip with [a; b; c; d] => Some (a, b, c, d) | _ => None end
    else None
  end.

(** [ip.Equal]: the four-byte and the sixteen-byte form of an address are equal. *)
Definition Equal (ip x : IP) : bool :=
  match To4 ip, To4 x with
  | Some a, Some b => bool_decide (a = b)
  | None, None => bool_decide (ip = x)
  | _, _ => false
  end.

Definition ip_byte (ip : IP) (n : nat) : Z := default 0 (ip !! n).

Definition zeros (n : nat) : IP := replicate n 0.

Definition IsLoopback (ip : IP) : bool :=
  match To4 ip with
  | Some (a, _, _, _) => a =? 127
  | None => Equal ip (zeros 15 ++ [1])
  end.

Definition IsPrivate (ip : IP) : bool :=
  match To4 ip with
  | Some (a, b, _, _) =>
    ((a =? 10) || ((a =? 172) && (Z.land b 240 =? 16)) || ((a =? 192) && (b =? 168)))%bool
  | None => ((Z.of_nat (length ip) =? 16) && (Z.land (ip_byte ip 0) 254 =? 252))%bool
  end.

Definition IsLinkLocalUnicast (ip : IP) : bool :=
  match To4 ip with
  | Some (a, b, _, _) => ((a =? 169) && (b =? 254))%bool
  | None => ((Z.of_nat (length ip) =? 16) && (ip_byte ip 0 =? 254) && (Z.land (ip_byte ip 1) 192 =? 128))%bool
  end.

Definition IsLinkLocalMulticast (ip : IP) : bool :=
  match To4 ip with
  | Some (a, b, c, _) => ((a =? 224) && (b =? 0) && (c =? 0))%bool
  | None => ((Z.of_nat (length ip) =? 16) && (ip_byte ip 0 =? 255) && (Z.land (ip_byte ip 1) 15 =? 2))%bool
  end.

Definition IsUnspecified (ip : IP) : bool :=
  (Equal ip (IPv4 0 0 0 0) || Equal ip (zeros 16))%bool.

Definition IsMulticast (ip : IP) : bool :=
  match To4 ip with
  | Some (a, _, _, _) => Z.land a 240 =? 224
  | None => ((Z.of_nat (length ip) =? 16) && (ip_byte ip 0 =? 255))%bool
  end.

Definition errInvalidEndpoint : string := "invalid push endpoint".
Definition errInvalidPushKeys : string := "invalid push subscription keys".

Definition rejectIP (ip : IP) : res unit :=
  if (Z.of_nat (length ip) =? 0) then Err errInvalidEndpoint
  else if (IsLoopback ip || IsPrivate ip || IsLinkLocalUnicast ip || IsLinkLocalMulticast ip ||
           IsUnspecified ip || IsMulticast ip)%bool
  then Err errInvalidEndpoint
  else match To4 ip with
       | Some (a, b, _, _) =>
         if ((a =? 100) && (64 <=? b) && (b <=? 127))%bool then Err errInvalidEndpoint else Ok tt
       | None => Ok tt
       end.

(** ** Endpoints *)

Record parsed_url : Type := mkUrl { Scheme : string; Host : string; Hostname : string }.

Class NetHost : Type := {
  parse_url : string -> option parsed_url;
  ParseIP : string -> option IP
}.

Section WithNet.
Context `{NetHost}.

Definition validatePushURL (raw : string) : res unit :=
  match parse_url raw with
  | None => Err errInvalidEndpoint
  | Some u =>
    if is_empty (Host u) then Err errInvalidEndpoint
    else if negb (bool_decide (to_lower (Scheme u) = "https")) then Err errInvalidEndpoint
    else
      let host := Hostname u in
      if is_empty host then Err errInvalidEndpoint
      else if (bool_decide (host = "localhost") || has_suffix ".local" host ||
               bool_decide (host = "metadata.google.internal"))%bool
      then Err errInvalidEndpoint
      else match ParseIP host with Some ip => rejectIP ip | None => Ok tt end
  end.

Definition ValidateEndpoint (raw : string) : res unit := validatePushURL raw.

(** [CheckRedirect]: [true] follows, [false] returns the redirect itself. *)
Definition CheckRedirect (url : string) (via : nat) : res bool :=
  if (2 <=? via)%nat then Ok false else _ ← validatePushURL url; Ok true.
End WithNet.

(** [DialContext] after the name was resolved: [connect] is the outcome of one
    connection attempt. The result is the address connected to. *)
Fixpoint dial (connect : IP -> option string) (last : option string) (ips : list IP) : res IP :=
  match ips with
  | [] => Err (default errInvalidEndpoint last)
  | ip :: rest =>
    match rejectIP ip with
    | Err e => dial connect (Some e) rest
    | Ok _ => match connect ip with
              | None => Ok ip
              | Some e => dial connect (Some e) rest
              end
    end
  end.

Definition DialContext (resolved : res (list IP)) (connect : IP -> option string) : res IP :=
  ips ← resolved; dial connect None ips.

(** ** Keys: [base64.RawURLEncoding] and [base64.URLEncoding]

    Both ignore line breaks and the unused bits of the last character. *)

(** The characters before the first [=], and the rest. *)
Fixpoint until_pad (bs : list Z) : list Z * list Z :=
  match bs with
  | [] => ([], [])
  | b :: rest => if b =? 61 then ([], b :: rest) else let '(body, pad) := until_pad rest in (b :: body, pad)
  end.

Definition padded_decode (bs : list Z) : option (list Z) :=
  let '(body, pad) := until_pad bs in
  match (length body mod 4)%nat, pad with
  | 0%nat, [] => raw_decode body
  | 2%nat, [61; 61] => raw_decode body
  | 3%nat, [61] => raw_decode body
  | _, _ => None
  end.

Definition decodeBase64URL (value : string) : option (list Z) :=
  match raw_decode (without_breaks value) with
  | Some decoded => Some decoded
  | None => padded_decode (without_breaks value)
  end.

Definition ValidateKeys (p256dh auth : string) : res unit :=
  match decodeBase64URL p256dh with
  | None => Err errInvalidPushKeys
  | Some publicKey =>
    if (negb (Z.of_nat (length publicKey) =? 65) || negb (ip_byte publicKey 0 =? 4))%bool
    then Err errInvalidPushKeys
    else match decodeBase64URL auth with
         | None => Err errInvalidPushKeys
         | Some authSecret =>
           if negb (Z.of_nat (length authSecret) =? 16) then Err errInvalidPushKeys else Ok tt
         end
  end.

(** ** Delivery *)

Record Subscription : Type := mkSubscription { Endpoint : string; P256DH : string; Auth : string }.

Record notification : Type := mkNotification {
  Title : string; Body : string; URL : string; nDeviceID : string; nSessionID : string; Tag : string
}.

Definition notification_of (title body openURL deviceID sessionID : string) : notification :=
  mkNotification title body openURL deviceID sessionID ("nekonest:" +:+ deviceID +:+ ":" +:+ sessionID).

Record notificationJob : Type := mkJob { subscriptions : list Subscription; jobPayload : notification }.

Definition pushQueueCapacity : nat := 128.

Definition enqueueNotification (queue : list notificationJob) (job : notificationJob) : bool * list notificationJob :=
  if (length queue <? pushQueueCapacity)%nat then (true, queue ++ [job]) else (false, queue).

Section Delivery.
Context `{NetHost}.

Definition deliverable (s : Subscription) : bool :=
  (is_ok (validatePushURL (Endpoint s)) && is_ok (ValidateKeys (P256DH s) (Auth s)))%bool.

(** [Send]; [enabled] is whether both VAPID keys are set. *)
Definition Send (enabled : bool) (queue : list notificationJob) (subs : list Subscription)
    (title body openURL deviceID sessionID : string) : bool * list notificationJob :=
  match subs with
  | [] => (false, queue)
  | _ =>
    match List.filter deliverable subs with
    | [] => (false, queue)
    | valid =>
      if negb enabled then (false, queue)
      else enqueueNotification queue (mkJob valid (notification_of title body openURL deviceID sessionID))
    end
  end.
End Delivery.

Definition isGoneStatus (status : Z) : bool := ((status =? 404) || (status =? 410))%bool.

(** What became of one delivery attempt. *)
Inductive attempt : Set := Failed | NoResponse | Status (status : Z).

(** [deliverNotification] as far as the deadline allows: one attempt per
    subscription; the endpoints reported as gone. *)
Definition deliverNotification (job : notificationJob) (attempts : list attempt) : list string :=
  omap (fun sa : Subscription * attempt =>
    match sa.2 with
    | Status status => if isGoneStatus status then Some (Endpoint sa.1) else None
    | _ => None
    end) (zip (subscriptions job) attempts).

(** The notification a prompt or an attention event makes the relay send. *)
Definition push_url (deviceID sessionID : string) : string :=
  if is_empty sessionID then "/" else "/device/" +:+ deviceID +:+ "/session/" +:+ sessionID.
