(* ===== verification/PromptQueue.v ===== *)
(** * The daemon's durable prompt queue (daemon/cmd/daemon/prompt_queue.go)

    One FIFO per session, shared by all sessions of a device and stored in one
    file. Every method of [promptQueue] is an operation in the monad
    [M promptQueue]; the mutex that each of them holds from beginning to end
    makes one operation one step. The contents of the file are part of the
    state ([disk]): [persist] writes it before memory changes. *)

From stdpp Require Import base tactics list gmap strings sorting fin_maps.
From Stdlib Require Import Ascii ZArith Lia.
From S2P Require Import Prelude GoStrings Json.

Definition promptQueueVersion : Z := 2.
Definition promptQueueLegacyVersion : Z := 1.
Definition maxPromptQueuePerSession : Z := 20.
Definition compactQueueTombstonesAt : Z := 256.
Definition retainQueueTombstones : nat := 128.
Definition maxPromptQueueBytes : Z := Z.shiftl 16 20.
Definition maxPromptQueueSessionIDBytes : Z := 512.
Definition maxPromptQueueClientMsgIDSize : Z := 256.
Definition maxPromptQueueAgentTypeBytes : Z := 64.

(** [promptQueueStatus] is a string; [OtherStatus s] is any string that is not
    one of the seven constants (the legacy ["paused"] among them). *)
Inductive promptQueueStatus : Set :=
  | promptQueueQueued
  | promptQueueRunning
  | promptQueueCompleted
  | promptQueueBlockedFailed
  | promptQueueBlockedInterrupted
  | promptQueueBlockedIndeterminate
  | promptQueueCancelled
  | OtherStatus (s : string).

#[export] Instance promptQueueStatus_eq_dec : EqDecision promptQueueStatus.
Proof. solve_decision. Defined.

Definition status_text (s : promptQueueStatus) : string :=
  match s with
  | promptQueueQueued => "queued"
  | promptQueueRunning => "running"
  | promptQueueCompleted => "completed"
  | promptQueueBlockedFailed => "blocked_failed"
  | promptQueueBlockedInterrupted => "blocked_interrupted"
  | promptQueueBlockedIndeterminate => "blocked_indeterminate"
  | promptQueueCancelled => "cancelled"
  | OtherStatus s => s
  end.

(** [Attachments] and [SealedEnvelope] are byte slices; a nil and an empty
    slice are both the empty string (they are only ever tested by length, and
    [omitempty] drops both). *)
Record promptQueueItem : Type := mkItem {
  SessionID : string;
  ClientMsgID : string;
  AgentType : string;
  Prompt : string;
  Attachments : string;
  SealedEnvelope : string;
  CollaborationMode : string;
  CreatedAt : Z;
  Order : Z;
  Status : promptQueueStatus
}.

#[export] Instance promptQueueItem_eq_dec : EqDecision promptQueueItem.
Proof. solve_decision. Defined.

Record promptQueueDisk : Type := mkDisk {
  Version : Z;
  Items : list promptQueueItem
}.

Definition with_Status (it : promptQueueItem) (s : promptQueueStatus) : promptQueueItem :=
  mkItem (SessionID it) (ClientMsgID it) (AgentType it) (Prompt it) (Attachments it)
    (SealedEnvelope it) (CollaborationMode it) (CreatedAt it) (Order it) s.

Definition isPromptQueueTerminal (status : promptQueueStatus) : bool :=
  match status with promptQueueCompleted | promptQueueCancelled => true | _ => false end.

Definition isPromptQueueBlocked (status : promptQueueStatus) : bool :=
  match status with
  | promptQueueBlockedFailed | promptQueueBlockedInterrupted | promptQueueBlockedIndeterminate => true
  | _ => false
  end.

Definition clearPromptQueuePayload (it : promptQueueItem) : promptQueueItem :=
  mkItem (SessionID it) (ClientMsgID it) (AgentType it) "" "" "" "" (CreatedAt it) (Order it) (Status it).

Definition promptQueueKey (sessionID clientMsgID : string) : string :=
  sessionID +:+ of_codes [0] +:+ clientMsgID.

Definition item_key (it : promptQueueItem) : string := promptQueueKey (SessionID it) (ClientMsgID it).

Definition validatePromptQueueString (name value : string) (max : Z) : res unit :=
  fail_if (is_empty (TrimSpace value)) (name +:+ " is required") ;;
  fail_if ((max <? len value) || negb (ValidString value)) (name +:+ " is too long or invalid UTF-8").

(** The checks of an item's prompt data, the same sequence in
    [validatePromptQueueItem] and [enqueue] up to the collaboration mode. *)
Definition no_payload (it : promptQueueItem) : bool :=
  (is_empty (Prompt it) && is_empty (Attachments it) && is_empty (SealedEnvelope it))%bool.

Definition validatePromptQueueItem (item : promptQueueItem) : res unit :=
  validatePromptQueueString "session_id" (SessionID item) maxPromptQueueSessionIDBytes ;;
  validatePromptQueueString "client_msg_id" (ClientMsgID item) maxPromptQueueClientMsgIDSize ;;
  validatePromptQueueString "agent_type" (AgentType item) maxPromptQueueAgentTypeBytes ;;
  fail_if ((Order item =? 0) || (CreatedAt item <=? 0)) "order and created_at are required" ;;
  if isPromptQueueTerminal (Status item) then
    fail_if (negb (no_payload item)) "terminal prompt queue item must not retain prompt data"
  else
    fail_if (negb (is_empty (Prompt item)) && negb (ValidString (Prompt item))) "prompt is invalid UTF-8" ;;
    fail_if (negb (is_empty (Attachments item)) && negb (json_Valid (Attachments item)))
      "attachments are not valid JSON" ;;
    fail_if (negb (is_empty (SealedEnvelope item)) &&
             (negb (is_empty (Prompt item)) || negb (is_empty (Attachments item))))
      "sealed envelope cannot be combined with plaintext prompt data" ;;
    fail_if (negb (is_empty (CollaborationMode item)) && negb (bool_decide (CollaborationMode item = "plan")))
      ("invalid collaboration_mode " +:+ CollaborationMode item) ;;
    fail_if (no_payload item) "prompt data or sealed envelope is required" ;;
    match Status item with
    | promptQueueQueued | promptQueueRunning | promptQueueBlockedFailed
    | promptQueueBlockedInterrupted | promptQueueBlockedIndeterminate => Ok tt
    | s => Err ("invalid status " +:+ status_text s)
    end.

(** The terminal items of a session, newest first, as [compactPromptQueueTombstones]
    sorts them. *)
Definition tombstones (sessionID : string) (its : list promptQueueItem) : list promptQueueItem :=
  List.filter (fun it => bool_decide (SessionID it = sessionID) && isPromptQueueTerminal (Status it))%bool its.

(** ** Operations *)

Section Operations.
Context `{MO : MapOrder} `{CD : !Codec promptQueueDisk}.

(** [path] is fixed; [disk] is the contents of the file at that path, [None]
    when it does not exist. *)
Record promptQueue : Type := mkQueue {
  items : gmap string promptQueueItem;
  nextID : Z;
  disk : option (file promptQueueDisk)
}.

Definition with_disk (q : promptQueue) (d : option (file promptQueueDisk)) : promptQueue :=
  mkQueue (items q) (nextID q) d.
Definition with_items (q : promptQueue) (its : gmap string promptQueueItem) : promptQueue :=
  mkQueue its (nextID q) (disk q).
Definition with_nextID (q : promptQueue) (n : Z) : promptQueue :=
  mkQueue (items q) n (disk q).

Definition ordered (its : gmap string promptQueueItem) : list promptQueueItem :=
  sort_by Order (range_values its).

Definition persist (f : io) (its : gmap string promptQueueItem) : M promptQueue unit := fun q =>
  match marshalIndent (mkDisk promptQueueVersion (ordered its)) with
  | Err e => (Err ("marshal prompt queue: " +:+ e), q)
  | Ok data =>
    if maxPromptQueueBytes <? file_size data then (Err "prompt queue would exceed 16777216 bytes", q)
    else
      let '(r, d) := writeFileAtomic f (disk q) data in
      (wrap "persist prompt queue: " r, with_disk q d)
  end.

(** [if err := q.persist(next); err != nil { return err }; q.items = next]. *)
Definition commit (f : io) (next : gmap string promptQueueItem) : M promptQueue unit :=
  _ ← persist f next;
  q ← get;
  put (with_items q next).

Definition compactPromptQueueTombstones (its : gmap string promptQueueItem) (sessionID : string)
  : gmap string promptQueueItem :=
  let terminal := tombstones sessionID (range_values its) in
  if Z.of_nat (List.length terminal) <? compactQueueTombstonesAt then its
  else
    let newest_first := sort_by (fun it => - Order it) terminal in
    foldl (fun m it => base.delete (item_key it) m) its (drop retainQueueTombstones newest_first).

Definition activeCount (its : gmap string promptQueueItem) (sessionID : string) : Z :=
  count (fun it => bool_decide (SessionID it = sessionID) && negb (isPromptQueueTerminal (Status it)))%bool
    (range_values its).

(** One iteration of the load loop; the accumulator is the map, [nextID] and
    [changed]. *)
Definition load_item (version : Z) (acc : gmap string promptQueueItem * Z * bool)
    (item : promptQueueItem) : res (gmap string promptQueueItem * Z * bool) :=
  let '(its, nid, changed) := acc in
  let '(item, changed) :=
    if (bool_decide (Status item = promptQueueRunning) ||
        ((version =? promptQueueLegacyVersion) && bool_decide (Status item = OtherStatus "paused")))%bool
    then (with_Status item promptQueueBlockedIndeterminate, true) else (item, changed) in
  let '(item, changed) :=
    if (isPromptQueueTerminal (Status item) && negb (no_payload item))%bool
    then (mkItem (SessionID item) (ClientMsgID item) (AgentType item) "" "" ""
            (CollaborationMode item) (CreatedAt item) (Order item) (Status item), true)
    else (item, changed) in
  _ ← wrap "invalid prompt queue item: " (validatePromptQueueItem item);
  match its !! item_key item with
  | Some _ => Err "prompt queue contains duplicate client_msg_id"
  | None => Ok (<[item_key item := item]> its, Z.max nid (Order item), changed)
  end.

Fixpoint load_items (version : Z) (acc : gmap string promptQueueItem * Z * bool)
    (l : list promptQueueItem) : res (gmap string promptQueueItem * Z * bool) :=
  match l with
  | [] => Ok acc
  | item :: l' => acc' ← load_item version acc item; load_items version acc' l'
  end.

Definition load_disk (f : io) (data : file promptQueueDisk) : res (gmap string promptQueueItem * Z * bool) :=
  wrap "secure prompt queue permissions: " (sys f OpChmodLoad) ;;
  wrap "read prompt queue: " (sys f OpReadFile) ;;
  dk ← wrap "parse prompt queue: " (unmarshal data);
  fail_if (negb (Version dk =? promptQueueVersion) && negb (Version dk =? promptQueueLegacyVersion))
    "unsupported prompt queue version" ;;
  load_items (Version dk) (∅, 0, Version dk =? promptQueueLegacyVersion) (Items dk).

Definition loadPromptQueue (f : io) (d : option (file promptQueueDisk)) : res promptQueue * option (file promptQueueDisk) :=
  match sys f OpStat, d with
  | Err e, _ => (Err ("stat prompt queue: " +:+ e), d)
  | Ok _, None =>
    match persist f ∅ (mkQueue ∅ 0 None) with
    | (Ok _, q) => (Ok q, disk q)
    | (Err e, q) => (Err ("create prompt queue: " +:+ e), disk q)
    end
  | Ok _, Some data =>
    if maxPromptQueueBytes <? file_size data then (Err "prompt queue exceeds 16777216 bytes", d)
    else match load_disk f data with
         | Err e => (Err e, d)
         | Ok (its, nid, changed) =>
           let q := mkQueue its nid d in
           if changed then
             match persist f its q with
             | (Ok _, q') => (Ok q', disk q')
             | (Err e, q') => (Err ("normalize prompt queue: " +:+ e), disk q')
             end
           else (Ok q, d)
         end
  end.

Definition enqueue_checks (item : promptQueueItem) : res unit :=
  validatePromptQueueString "session_id" (SessionID item) maxPromptQueueSessionIDBytes ;;
  validatePromptQueueString "client_msg_id" (ClientMsgID item) maxPromptQueueClientMsgIDSize ;;
  validatePromptQueueString "agent_type" (AgentType item) maxPromptQueueAgentTypeBytes ;;
  fail_if (negb (is_empty (Prompt item)) && negb (ValidString (Prompt item))) "prompt is invalid UTF-8" ;;
  fail_if (negb (is_empty (Attachments item)) && negb (json_Valid (Attachments item)))
    "attachments are not valid JSON" ;;
  fail_if (negb (is_empty (SealedEnvelope item)) &&
           (negb (is_empty (Prompt item)) || negb (is_empty (Attachments item))))
    "sealed envelope cannot be combined with plaintext prompt data" ;;
  fail_if (no_payload item) "prompt data or sealed envelope is required".

(** [now] is [time.Now().UnixNano()]. *)
Definition enqueue (f : io) (now : Z) (item : promptQueueItem) : M promptQueue (promptQueueItem * bool) :=
  _ ← lift (enqueue_checks item);
  q ← get;
  match items q !! item_key item with
  | Some current => mret (current, false)
  | None =>
    if maxPromptQueuePerSession <=? activeCount (items q) (SessionID item)
    then raise "prompt queue is full for session (limit 20)"
    else
      let item' := mkItem (SessionID item) (ClientMsgID item) (AgentType item) (Prompt item)
        (Attachments item) (SealedEnvelope item) (CollaborationMode item) now
        (u64_add (nextID q) 1) promptQueueQueued in
      _ ← lift (validatePromptQueueItem item');
      let next := <[item_key item' := item']>
        (compactPromptQueueTombstones (items q) (SessionID item')) in
      _ ← commit f next;
      q' ← get;
      _ ← put (with_nextID q' (Order item'));
      mret (item', true)
  end.

(** The scan shared by [next] and [claimNext]: the queued item of least
    order. *)
Definition older (cand : option promptQueueItem) (it : promptQueueItem) : bool :=
  match cand with None => true | Some c => Order it <? Order c end.

Fixpoint next_scan (sessionID : string) (l : list promptQueueItem) (cand : option promptQueueItem)
  : option promptQueueItem :=
  match l with
  | [] => cand
  | it :: l' =>
    if (negb (bool_decide (SessionID it = sessionID)) || negb (bool_decide (Status it = promptQueueQueued)))%bool
    then next_scan sessionID l' cand
    else next_scan sessionID l' (if older cand it then Some it else cand)
  end.

Definition next (q : promptQueue) (sessionID : string) : option promptQueueItem :=
  next_scan sessionID (range_values (items q)) None.

(** [None]: the early return on a running or blocked item. *)
Fixpoint claim_scan (sessionID : string) (l : list promptQueueItem) (cand : option promptQueueItem)
  : option (option promptQueueItem) :=
  match l with
  | [] => Some cand
  | it :: l' =>
    if negb (bool_decide (SessionID it = sessionID)) then claim_scan sessionID l' cand
    else if (bool_decide (Status it = promptQueueRunning) || isPromptQueueBlocked (Status it))%bool then None
    else if (bool_decide (Status it = promptQueueQueued) && older cand it)%bool
         then claim_scan sessionID l' (Some it)
         else claim_scan sessionID l' cand
  end.

Definition claimNext (f : io) (sessionID : string) : M promptQueue (option promptQueueItem) :=
  q ← get;
  match claim_scan sessionID (range_values (items q)) None with
  | None | Some None => mret None
  | Some (Some candidate) =>
    let candidate := with_Status candidate promptQueueRunning in
    _ ← commit f (<[item_key candidate := candidate]> (items q));
    mret (Some candidate)
  end.

Definition transition (f : io) (sessionID clientMsgID : string) (from to : promptQueueStatus)
  : M promptQueue unit :=
  q ← get;
  let key := promptQueueKey sessionID clientMsgID in
  match items q !! key with
  | None => raise "prompt queue item not found"
  | Some current =>
    if bool_decide (Status current = to) then mret tt
    else if negb (bool_decide (Status current = from))
         then raise ("cannot transition prompt queue item from " +:+ status_text (Status current)
                     +:+ " to " +:+ status_text to)
    else commit f (<[key := with_Status current to]> (items q))
  end.

Definition markRunning (f : io) (sessionID clientMsgID : string) : M promptQueue unit :=
  transition f sessionID clientMsgID promptQueueQueued promptQueueRunning.

Definition releaseClaim (f : io) (sessionID clientMsgID : string) : M promptQueue unit :=
  transition f sessionID clientMsgID promptQueueRunning promptQueueQueued.

Definition complete (f : io) (sessionID clientMsgID : string) : M promptQueue unit :=
  q ← get;
  let key := promptQueueKey sessionID clientMsgID in
  match items q !! key with
  | None => raise "prompt queue item not found"
  | Some current =>
    if negb (bool_decide (Status current = promptQueueRunning))
    then raise ("cannot complete prompt queue item from " +:+ status_text (Status current))
    else
      let current := clearPromptQueuePayload (with_Status current promptQueueCompleted) in
      commit f (compactPromptQueueTombstones (<[key := current]> (items q)) sessionID)
  end.

Definition block (f : io) (sessionID clientMsgID : string) (status : promptQueueStatus) : M promptQueue unit :=
  q ← get;
  let key := promptQueueKey sessionID clientMsgID in
  match items q !! key with
  | None => raise "prompt queue item not found"
  | Some current =>
    if (negb (isPromptQueueBlocked status) ||
        (negb (bool_decide (Status current = promptQueueQueued)) &&
         negb (bool_decide (Status current = promptQueueRunning))))%bool
    then raise ("cannot block prompt queue item from " +:+ status_text (Status current)
                +:+ " as " +:+ status_text status)
    else commit f (<[key := with_Status current status]> (items q))
  end.

Definition cancel (f : io) (sessionID clientMsgID : string) : M promptQueue unit :=
  q ← get;
  let key := promptQueueKey sessionID clientMsgID in
  match items q !! key with
  | None => raise "prompt queue item not found"
  | Some current =>
    if bool_decide (Status current = promptQueueCancelled) then mret tt
    else if (negb (bool_decide (Status current = promptQueueQueued)) &&
             negb (isPromptQueueBlocked (Status current)))%bool
    then raise ("cannot cancel prompt queue item from " +:+ status_text (Status current))
    else
      let current := clearPromptQueuePayload (with_Status current promptQueueCancelled) in
      commit f (compactPromptQueueTombstones (<[key := current]> (items q)) sessionID)
  end.

Definition list_items (q : promptQueue) (sessionID : string) : list promptQueueItem :=
  sort_by Order (List.filter (fun it => is_empty sessionID || bool_decide (SessionID it = sessionID))%bool
    (range_values (items q))).

Definition item (q : promptQueue) (sessionID clientMsgID : string) : option promptQueueItem :=
  items q !! promptQueueKey sessionID clientMsgID.

Definition hasActive (q : promptQueue) (sessionID : string) : bool :=
  existsb (fun it => bool_decide (SessionID it = sessionID) && negb (isPromptQueueTerminal (Status it)))%bool
    (range_values (items q)).

Definition running (q : promptQueue) (sessionID : string) : option promptQueueItem :=
  List.find (fun it => bool_decide (SessionID it = sessionID) && bool_decide (Status it = promptQueueRunning))%bool
    (range_values (items q)).

(** [for key, item := range next { if p(item) { next[key] = f(item); changed = true } }]. *)
Definition update_matching (p : promptQueueItem -> bool) (g : promptQueueItem -> promptQueueItem)
    (its : gmap string promptQueueItem) : gmap string promptQueueItem :=
  (fun it => if p it then g it else it) <$> its.

Definition any_matching (p : promptQueueItem -> bool) (its : gmap string promptQueueItem) : bool :=
  existsb p (range_values its).

Definition blockSession (f : io) (sessionID : string) (status : promptQueueStatus) : M promptQueue unit :=
  if negb (isPromptQueueBlocked status) then raise ("invalid queue blocker status " +:+ status_text status)
  else
    q ← get;
    let p := fun it => (bool_decide (SessionID it = sessionID) && bool_decide (Status it = promptQueueRunning))%bool in
    if any_matching p (items q) then commit f (update_matching p (fun it => with_Status it status) (items q))
    else mret tt.

Definition resumeSession (f : io) (sessionID : string) : M promptQueue unit :=
  q ← get;
  let p := fun it => (bool_decide (SessionID it = sessionID) &&
    (bool_decide (Status it = promptQueueBlockedFailed) || bool_decide (Status it = promptQueueBlockedInterrupted)))%bool in
  if any_matching p (items q)
  then commit f (update_matching p
         (fun it => clearPromptQueuePayload (with_Status it promptQueueCompleted)) (items q))
  else mret tt.

Definition skipIndeterminate (f : io) (sessionID clientMsgID : string) : M promptQueue unit :=
  q ← get;
  let key := promptQueueKey sessionID clientMsgID in
  match items q !! key with
  | Some current =>
    if bool_decide (Status current = promptQueueBlockedIndeterminate) then
      let current := clearPromptQueuePayload (with_Status current promptQueueCompleted) in
      commit f (compactPromptQueueTombstones (<[key := current]> (items q)) sessionID)
    else raise "indeterminate queue blocker not found"
  | None => raise "indeterminate queue blocker not found"
  end.

Definition position (q : promptQueue) (sessionID clientMsgID : string) : Z :=
  match items q !! promptQueueKey sessionID clientMsgID with
  | Some it =>
    if bool_decide (Status it = promptQueueQueued)
    then 1 + count (fun other => bool_decide (SessionID other = sessionID) &&
           bool_decide (Status other = promptQueueQueued) && (Order other <? Order it))%bool
           (range_values (items q))
    else 0
  | None => 0
  end.
End Operations.
