(* ===== verification/PromptJournal.v ===== *)
(** * The daemon's durable prompt journal (daemon/cmd/daemon/prompt_journal.go)

    The record of which prompts have been handed to an agent: a map from
    [sha256(device, session, client message)] to a record with a status, stored
    in one file. As in [PromptQueue], a method is an operation in the monad
    [M promptJournal] and the contents of the file are part of the state. *)

From stdpp Require Import base tactics list gmap strings sorting fin_maps.
From Stdlib Require Import Ascii String ZArith Lia.
From S2P Require Import Prelude GoStrings Sha256.

Definition promptJournalVersion : Z := 2.
Definition maxPromptJournalBytes : Z := Z.shiftl 16 20.
Definition maxPromptJournalEchoBytes : Z := 512.
Definition maxJournalSessionIDBytes : Z := 512.
Definition maxJournalClientMsgIDBytes : Z := 256.
Definition maxAcceptedPromptIDs : Z := 4096.
Definition promptOutcomeIndeterminate : string :=
  "prompt outcome is indeterminate; ordinary retry is disabled to prevent duplicate execution; inspect the agent session before any manual retry".

Inductive promptJournalStatus : Set :=
  | promptJournalDispatching
  | promptJournalAccepted
  | promptJournalCommitted
  | promptJournalIndeterminate
  | OtherJournalStatus (s : string).

#[export] Instance promptJournalStatus_eq_dec : EqDecision promptJournalStatus.
Proof. solve_decision. Defined.

Definition journal_status_text (s : promptJournalStatus) : string :=
  match s with
  | promptJournalDispatching => "dispatching"
  | promptJournalAccepted => "accepted"
  | promptJournalCommitted => "committed"
  | promptJournalIndeterminate => "indeterminate"
  | OtherJournalStatus s => s
  end.

Record promptJournalRecord : Type := mkRecord {
  Key : string;
  SessionID : string;
  ClientMsgID : string;
  LegacyOpaque : bool;
  Status : promptJournalStatus;
  PromptEcho : string;
  UpdatedAt : Z
}.

#[export] Instance promptJournalRecord_eq_dec : EqDecision promptJournalRecord.
Proof. solve_decision. Defined.

Record promptJournalDisk : Type := mkJournalDisk {
  Version : Z;
  DeviceHash : string;
  Records : list promptJournalRecord
}.

Definition deviceHash (deviceID : string) : string := sha256_hex deviceID.

Definition validJournalKey (key : string) : bool := ((len key =? 64) && hex_decodes key)%bool.

Definition promptJournalKeyFromHash (deviceIDHash sessionID clientMsgID : string) : string :=
  sha256_hex (deviceIDHash +:+ of_codes [0] +:+ sessionID +:+ of_codes [0] +:+ clientMsgID).

Definition validateJournalIdentifiers (sessionID clientMsgID : string) : res unit :=
  fail_if (is_empty (TrimSpace sessionID)) "session_id required for durable dispatch" ;;
  fail_if (is_empty (TrimSpace clientMsgID)) "client_msg_id required for durable dispatch" ;;
  fail_if ((maxJournalSessionIDBytes <? len sessionID) || negb (ValidString sessionID))
    "session_id is too long or invalid UTF-8" ;;
  fail_if ((maxJournalClientMsgIDBytes <? len clientMsgID) || negb (ValidString clientMsgID))
    "client_msg_id is too long or invalid UTF-8".

(** The order records are written and replayed in: by time, then by key. *)
Definition record_before (a b : promptJournalRecord) : Prop :=
  UpdatedAt a < UpdatedAt b \/ (UpdatedAt a = UpdatedAt b /\ String.leb (Key a) (Key b) = true).

#[export] Instance record_before_dec : RelDecision record_before.
Proof.
  intros a b. unfold record_before, Decision.
  destruct (Z_lt_dec (UpdatedAt a) (UpdatedAt b)); [left; by left|].
  destruct (Z.eq_dec (UpdatedAt a) (UpdatedAt b)); [|right; intros [?|[? _]]; lia].
  destruct (String.leb (Key a) (Key b)); [left; by right|right; intros [?|[_ ?]]; [lia|done]].
Defined.

Definition sort_records (l : list promptJournalRecord) : list promptJournalRecord :=
  merge_sort record_before l.

Section Operations.
Context `{MO : MapOrder} `{CD : !Codec promptJournalDisk}.

Record promptJournal : Type := mkJournal {
  jdeviceHash : string;
  max : Z;
  records : gmap string promptJournalRecord;
  jdisk : option (file promptJournalDisk)
}.

Definition with_jdisk (j : promptJournal) (d : option (file promptJournalDisk)) : promptJournal :=
  mkJournal (jdeviceHash j) (max j) (records j) d.
Definition with_records (j : promptJournal) (recs : gmap string promptJournalRecord) : promptJournal :=
  mkJournal (jdeviceHash j) (max j) recs (jdisk j).

Definition persistRecords (f : io) (recs : gmap string promptJournalRecord) : M promptJournal unit := fun j =>
  let '(r, d) := persist_file "prompt journal" maxPromptJournalBytes file_size f (jdisk j)
    (marshalIndent (mkJournalDisk promptJournalVersion (jdeviceHash j) (sort_records (range_values recs)))) in
  (r, with_jdisk j d).

(** [if err := j.persistRecords(next); err != nil { return err }; j.records = next]. *)
Definition commit_records (f : io) (next : gmap string promptJournalRecord) : M promptJournal unit :=
  _ ← persistRecords f next;
  j ← get;
  put (with_records j next).

Fixpoint oldest_committed (l : list promptJournalRecord) (oldest : option promptJournalRecord)
  : option promptJournalRecord :=
  match l with
  | [] => oldest
  | r :: l' =>
    if negb (bool_decide (Status r = promptJournalCommitted)) then oldest_committed l' oldest
    else if match oldest with None => true | Some o => UpdatedAt r <? UpdatedAt o end
         then oldest_committed l' (Some r)
         else oldest_committed l' oldest
  end.

Definition evictOldestCommitted (recs : gmap string promptJournalRecord) : res (gmap string promptJournalRecord) :=
  match oldest_committed (range_values recs) None with
  | None => Err "prompt journal is full of uncommitted commands; reconnect to the server or reconcile them before sending more"
  | Some oldest => Ok (base.delete (Key oldest) recs)
  end.

(** [for len(records) > j.max]: each round removes one record, so the size of
    the map is fuel enough. *)
Fixpoint trim_loop (fuel : nat) (limit : Z) (recs : gmap string promptJournalRecord)
  : res (gmap string promptJournalRecord) :=
  if limit <? Z.of_nat (size recs) then
    match fuel with
    | O => Err "unreachable"
    | S fuel' =>
      match evictOldestCommitted recs with
      | Err _ => Err "prompt journal has more unresolved records than its limit"
      | Ok recs' => trim_loop fuel' limit recs'
      end
    end
  else Ok recs.

Definition trimCommitted (limit : Z) (recs : gmap string promptJournalRecord)
  : res (gmap string promptJournalRecord) := trim_loop (size recs) limit recs.

(** One iteration of the load loop: the identifiers, the status, the echo, the
    duplicate check. *)
Definition load_identifiers (legacyV1 : bool) (hash : string) (r : promptJournalRecord) : res promptJournalRecord :=
  if legacyV1 then
    Ok (mkRecord (Key r) (SessionID r) (ClientMsgID r) true (Status r) (PromptEcho r) (UpdatedAt r))
  else if LegacyOpaque r then
    _ ← fail_if (negb (is_empty (SessionID r)) || negb (is_empty (ClientMsgID r)))
          "opaque prompt journal record contains partial identifiers";
    Ok r
  else
    _ ← wrap "prompt journal contains invalid identifiers: "
          (validateJournalIdentifiers (SessionID r) (ClientMsgID r));
    _ ← fail_if (negb (bool_decide (Key r = promptJournalKeyFromHash hash (SessionID r) (ClientMsgID r))))
          "prompt journal key does not match its identifiers";
    Ok r.

Definition load_status (r : promptJournalRecord) (changed : bool) : res (promptJournalRecord * bool) :=
  match Status r with
  | promptJournalAccepted | promptJournalCommitted | promptJournalIndeterminate => Ok (r, changed)
  | promptJournalDispatching =>
    Ok (mkRecord (Key r) (SessionID r) (ClientMsgID r) (LegacyOpaque r) promptJournalIndeterminate
          (PromptEcho r) (UpdatedAt r), true)
  | OtherJournalStatus s => Err ("prompt journal contains invalid status " +:+ s)
  end.

Definition load_echo (rc : promptJournalRecord * bool) : promptJournalRecord * bool :=
  let '(r, changed) := rc in
  let boundedEcho := boundedUTF8 (PromptEcho r) maxPromptJournalEchoBytes in
  if negb (bool_decide (boundedEcho = PromptEcho r))
  then (mkRecord (Key r) (SessionID r) (ClientMsgID r) (LegacyOpaque r) (Status r) boundedEcho (UpdatedAt r), true)
  else (r, changed).

Definition load_record (legacyV1 : bool) (hash : string) (acc : gmap string promptJournalRecord * bool)
    (r : promptJournalRecord) : res (gmap string promptJournalRecord * bool) :=
  let '(recs, changed) := acc in
  _ ← fail_if (negb (validJournalKey (Key r))) "prompt journal contains invalid key";
  r ← load_identifiers legacyV1 hash r;
  rc ← load_status r changed;
  let '(r, changed) := load_echo rc in
  match recs !! Key r with
  | Some _ => Err "prompt journal contains duplicate key"
  | None => Ok (<[Key r := r]> recs, changed)
  end.

Fixpoint load_records (legacyV1 : bool) (hash : string) (acc : gmap string promptJournalRecord * bool)
    (l : list promptJournalRecord) : res (gmap string promptJournalRecord * bool) :=
  match l with
  | [] => Ok acc
  | r :: l' => acc' ← load_record legacyV1 hash acc r; load_records legacyV1 hash acc' l'
  end.

Definition load_journal_disk (f : io) (hash : string) (limit : Z) (data : file promptJournalDisk)
  : res (gmap string promptJournalRecord * bool) :=
  wrap "secure prompt journal permissions: " (sys f OpChmodLoad) ;;
  wrap "read prompt journal: " (sys f OpReadFile) ;;
  dk ← wrap "parse prompt journal: " (unmarshal data);
  fail_if (negb (Version dk =? 1) && negb (Version dk =? promptJournalVersion)) "unsupported prompt journal version" ;;
  fail_if (negb (bool_decide (DeviceHash dk = hash))) "prompt journal belongs to a different device" ;;
  rc ← load_records (Version dk =? 1) hash (∅, Version dk =? 1) (Records dk);
  recs ← trimCommitted limit rc.1;
  mret (recs, (rc.2 || negb (Z.of_nat (size recs) =? Z.of_nat (List.length (Records dk))))%bool).

Definition loadPromptJournal (f : io) (d : option (file promptJournalDisk)) (deviceID : string) (limit : Z)
  : res promptJournal * option (file promptJournalDisk) :=
  let limit := if limit <=? 0 then maxAcceptedPromptIDs else limit in
  let hash := deviceHash deviceID in
  match sys f OpStat, d with
  | Err e, _ => (Err ("stat prompt journal: " +:+ e), d)
  | Ok _, None =>
    match persistRecords f ∅ (mkJournal hash limit ∅ None) with
    | (Ok _, j) => (Ok j, jdisk j)
    | (Err e, j) => (Err ("create prompt journal: " +:+ e), jdisk j)
    end
  | Ok _, Some data =>
    if maxPromptJournalBytes <? file_size data then (Err "prompt journal exceeds 16777216 bytes", d)
    else match load_journal_disk f hash limit data with
         | Err e => (Err e, d)
         | Ok (recs, changed) =>
           let j := mkJournal hash limit recs d in
           if changed then
             match persistRecords f recs j with
             | (Ok _, j') => (Ok j', jdisk j')
             | (Err e, j') => (Err ("normalize prompt journal: " +:+ e), jdisk j')
             end
           else (Ok j, d)
         end
  end.

Definition state (j : promptJournal) (sessionID clientMsgID : string) : option promptJournalRecord :=
  if is_empty clientMsgID then None
  else records j !! promptJournalKeyFromHash (jdeviceHash j) sessionID clientMsgID.

Definition markDispatching (f : io) (now : Z) (sessionID clientMsgID prompt : string) : M promptJournal unit :=
  _ ← lift (validateJournalIdentifiers sessionID clientMsgID);
  j ← get;
  let key := promptJournalKeyFromHash (jdeviceHash j) sessionID clientMsgID in
  match records j !! key with
  | Some existing => raise ("prompt already recorded as " +:+ journal_status_text (Status existing))
  | None =>
    next ← lift (if max j <=? Z.of_nat (size (records j)) then evictOldestCommitted (records j) else Ok (records j));
    commit_records f (<[key := mkRecord key sessionID clientMsgID false promptJournalDispatching
      (boundedUTF8 prompt maxPromptJournalEchoBytes) now]> next)
  end.

Definition rollbackDispatching (f : io) (sessionID clientMsgID : string) : M promptJournal unit :=
  _ ← lift (validateJournalIdentifiers sessionID clientMsgID);
  j ← get;
  let key := promptJournalKeyFromHash (jdeviceHash j) sessionID clientMsgID in
  match records j !! key with
  | None => raise "prompt journal record not found"
  | Some current =>
    if negb (bool_decide (Status current = promptJournalDispatching))
    then raise ("cannot roll back prompt from " +:+ journal_status_text (Status current))
    else commit_records f (base.delete key (records j))
  end.

(** The guard of [transition]: which status may follow which. *)
Definition transition_guard (current status : promptJournalStatus) : res unit :=
  match status with
  | promptJournalAccepted =>
    fail_if (negb (bool_decide (current = promptJournalDispatching)))
      ("cannot transition prompt from " +:+ journal_status_text current +:+ " to accepted")
  | promptJournalIndeterminate =>
    fail_if (negb (bool_decide (current = promptJournalDispatching)))
      ("cannot transition prompt from " +:+ journal_status_text current +:+ " to indeterminate")
  | promptJournalCommitted =>
    fail_if (negb (bool_decide (current = promptJournalAccepted)))
      ("cannot transition prompt from " +:+ journal_status_text current +:+ " to committed")
  | _ => Err ("invalid prompt journal transition " +:+ journal_status_text status)
  end.

Definition transition (f : io) (now : Z) (sessionID clientMsgID : string) (status : promptJournalStatus)
  : M promptJournal unit :=
  _ ← lift (validateJournalIdentifiers sessionID clientMsgID);
  j ← get;
  let key := promptJournalKeyFromHash (jdeviceHash j) sessionID clientMsgID in
  match records j !! key with
  | None => raise "prompt journal record not found"
  | Some current =>
    if bool_decide (Status current = status) then mret tt
    else
      _ ← lift (transition_guard (Status current) status);
      let current :=
        if LegacyOpaque current
        then mkRecord (Key current) sessionID clientMsgID false status (PromptEcho current) now
        else mkRecord (Key current) (SessionID current) (ClientMsgID current) (LegacyOpaque current) status
               (PromptEcho current) now in
      commit_records f (<[key := current]> (records j))
  end.

Definition markAccepted (f : io) (now : Z) (sessionID clientMsgID : string) : M promptJournal unit :=
  transition f now sessionID clientMsgID promptJournalAccepted.
Definition markIndeterminate (f : io) (now : Z) (sessionID clientMsgID : string) : M promptJournal unit :=
  transition f now sessionID clientMsgID promptJournalIndeterminate.
Definition markCommitted (f : io) (now : Z) (sessionID clientMsgID : string) : M promptJournal unit :=
  transition f now sessionID clientMsgID promptJournalCommitted.

Definition uncommittedAccepted (j : promptJournal) : list promptJournalRecord :=
  sort_records (List.filter (fun r => bool_decide (Status r = promptJournalAccepted) && negb (LegacyOpaque r))%bool
    (range_values (records j))).
End Operations.
