(* ===== verification/StartJournal.v ===== *)
(** * The thread-start journal (daemon/internal/startjournal/journal.go)

    The durable record of which native thread creations have been attempted: a
    map from [sha256(device, operation id)] to a record with a status, in one
    file. A record is written as starting before an adapter is invoked; loading
    turns a record still starting into an indeterminate one. As in
    [PromptJournal], a method works on the journal and the contents of its file;
    [io] says which system calls fail, and clock readings are arguments. *)

From stdpp Require Import base tactics list gmap strings sorting fin_maps.
From Stdlib Require Import Ascii String ZArith Lia.
From S2P Require Import Prelude GoStrings GoPath Sha256.

Definition journalVersion : Z := 1.
Definition maxJournalBytes : Z := Z.shiftl 16 20.
Definition maxOperationIDBytes : Z := 256.
Definition maxSessionIDBytes : Z := 512.
Definition maxAgentTypeBytes : Z := 64.
Definition maxProjectDirBytes : Z := 4096.
Definition maxTerminalMessageBytes : Z := 2048.
Definition RecoveredMessage : string :=
  "thread start outcome is indeterminate after daemon restart; automatic retry is disabled to prevent duplicate native threads".

Inductive Status : Set :=
  | StatusStarting
  | StatusOwned
  | StatusFailed
  | StatusIndeterminate
  | OtherStatus (s : string).

#[export] Instance Status_eq_dec : EqDecision Status.
Proof. solve_decision. Defined.

Definition status_text (s : Status) : string :=
  match s with
  | StatusStarting => "thread_starting"
  | StatusOwned => "thread_owned"
  | StatusFailed => "thread_failed"
  | StatusIndeterminate => "thread_indeterminate"
  | OtherStatus s => s
  end.

Record Request : Type := mkRequest {
  rqAgentType : string;
  rqProjectDir : string;
  rqPromptDigest : string;
  rqAttachmentsDigest : string
}.

Record StartRecord : Type := mkStart {
  Key : string;
  OperationID : string;
  AgentType : string;
  ProjectDir : string;
  PromptDigest : string;
  AttachmentsDigest : string;
  SStatus : Status;
  SessionID : string;
  PromptAccepted : bool;
  Message : string;
  UpdatedAt : Z
}.

#[export] Instance StartRecord_eq_dec : EqDecision StartRecord.
Proof. solve_decision. Defined.

Record diskJournal : Type := mkDisk {
  Version : Z;
  DeviceHash : string;
  Records : list StartRecord
}.

(** The errors a caller can tell apart with [IsConflict]. *)
Inductive start_error : Set :=
  | ConflictError (OperationID : string)
  | OtherError (msg : string).

Definition error_text (e : start_error) : string :=
  match e with
  | ConflictError id => "operation_id " +:+ id +:+ " is already bound to a different thread start request"
  | OtherError msg => msg
  end.

Definition IsConflict (e : start_error) : bool :=
  match e with ConflictError _ => true | OtherError _ => false end.

Definition hashString (value : string) : string := sha256_hex value.

(** [PromptDigest(prompt)]. *)
Definition promptDigest (prompt : string) : string := sha256_hex prompt.

Definition Path (configPath deviceID : string) : string :=
  let configPath := if is_empty configPath then "config.json" else configPath in
  path_join (path_dir configPath)
    ("thread-start-journal-" +:+ take_bytes 16 (hashString deviceID) +:+ ".json").

Definition operationKey (deviceHash operationID : string) : string :=
  hashString (deviceHash +:+ of_codes [0] +:+ operationID).

Definition boundedStartUTF8 (value : string) (maxBytes : Z) : string :=
  if len value <=? maxBytes then value
  else take_bytes (utf8_cut (Z.to_nat (maxBytes - len "...")) value) value +:+ "...".

Definition validateOperationID (operationID : string) : res unit :=
  fail_if (is_empty (TrimSpace operationID)) "operation_id required for safe thread start" ;;
  fail_if ((maxOperationIDBytes <? len operationID) || negb (ValidString operationID))
    "operation_id is too long or invalid UTF-8".

Definition validDigest (digest : string) : bool := ((len digest =? 64) && hex_decodes digest)%bool.

Definition validateRequest (request : Request) : res unit :=
  fail_if (is_empty (TrimSpace (rqAgentType request)) || (maxAgentTypeBytes <? len (rqAgentType request))
           || negb (ValidString (rqAgentType request)))
    "agent_type is required, too long, or invalid UTF-8" ;;
  fail_if (is_empty (TrimSpace (rqProjectDir request)) || (maxProjectDirBytes <? len (rqProjectDir request))
           || negb (ValidString (rqProjectDir request)))
    "project_dir is required, too long, or invalid UTF-8" ;;
  fail_if (negb (validDigest (rqPromptDigest request))) "invalid prompt digest" ;;
  fail_if (negb (is_empty (rqAttachmentsDigest request)) && negb (validDigest (rqAttachmentsDigest request)))
    "invalid attachments digest".

Definition binding (record : StartRecord) : Request :=
  mkRequest (AgentType record) (ProjectDir record) (PromptDigest record) (AttachmentsDigest record).

#[export] Instance Request_eq_dec : EqDecision Request.
Proof. solve_decision. Defined.

Definition sameRequest (record : StartRecord) (request : Request) : bool :=
  bool_decide (AgentType record = rqAgentType request)
  && bool_decide (ProjectDir record = rqProjectDir request)
  && bool_decide (PromptDigest record = rqPromptDigest request)
  && bool_decide (AttachmentsDigest record = rqAttachmentsDigest request).

Definition terminal (status : Status) : bool :=
  bool_decide (status = StatusOwned) || bool_decide (status = StatusFailed)
  || bool_decide (status = StatusIndeterminate).

Definition knownStatus (status : Status) : bool :=
  match status with OtherStatus _ => false | _ => true end.

Definition validateRecord (deviceHash : string) (record : StartRecord) : res unit :=
  wrap "thread start journal has invalid operation id: " (validateOperationID (OperationID record)) ;;
  wrap "thread start journal has invalid request binding: " (validateRequest (binding record)) ;;
  fail_if (negb (bool_decide (Key record = operationKey deviceHash (OperationID record))))
    "thread start journal operation key mismatch" ;;
  fail_if (negb (knownStatus (SStatus record))) "thread start journal has invalid status" ;;
  fail_if (bool_decide (SStatus record = StatusOwned)
           && (is_empty (TrimSpace (SessionID record)) || negb (PromptAccepted record)))
    "thread start journal owned record lacks session id or prompt acknowledgement" ;;
  fail_if ((maxSessionIDBytes <? len (SessionID record)) || negb (ValidString (SessionID record)))
    "thread start journal has invalid session id" ;;
  fail_if ((maxTerminalMessageBytes <? len (Message record)) || negb (ValidString (Message record)))
    "thread start journal has invalid terminal message".

(** A record with a new outcome. *)
Definition with_outcome (r : StartRecord) (status : Status) (sessionID : string) (accepted : bool)
    (message : string) (now : Z) : StartRecord :=
  mkStart (Key r) (OperationID r) (AgentType r) (ProjectDir r) (PromptDigest r) (AttachmentsDigest r)
    status sessionID accepted message now.

(** The order [persist] writes records in. *)
Definition start_before (a b : StartRecord) : Prop :=
  if UpdatedAt a =? UpdatedAt b then String.leb (Key a) (Key b) = true else UpdatedAt a < UpdatedAt b.

#[export] Instance start_before_dec : RelDecision start_before.
Proof. intros a b. unfold start_before. case_match; apply _. Defined.

Definition sort_starts (l : list StartRecord) : list StartRecord := merge_sort start_before l.

Section Operations.
Context `{MO : MapOrder} `{CD : !Codec diskJournal}.

Record Journal : Type := mkJournal {
  deviceHash : string;
  records : gmap string StartRecord;
  disk : option (file diskJournal)
}.

Definition document (hash : string) (recs : gmap string StartRecord) : diskJournal :=
  mkDisk journalVersion hash (sort_starts (range_values recs)).

Definition persist (f : io) (recs : gmap string StartRecord) : M Journal unit := fun j =>
  let '(r, d) := persist_file "thread start journal" maxJournalBytes file_size f (disk j)
    (marshalIndent (document (deviceHash j) recs)) in
  (r, mkJournal (deviceHash j) (records j) d).

(** [if err := j.persist(next); err != nil { return err }; j.records = next]. *)
Definition commit (f : io) (next : gmap string StartRecord) : M Journal unit :=
  _ ← persist f next;
  j ← get;
  put (mkJournal (deviceHash j) next (disk j)).

(** One iteration of the load loop: validate, refuse a duplicate, close a start
    that the previous process did not finish. *)
Definition recover (now : Z) (record : StartRecord) : StartRecord :=
  if bool_decide (SStatus record = StatusStarting)
  then with_outcome record StatusIndeterminate (SessionID record) (PromptAccepted record) RecoveredMessage now
  else record.

Definition load_record (hash : string) (now : string -> Z) (acc : gmap string StartRecord * bool)
    (record : StartRecord) : res (gmap string StartRecord * bool) :=
  let '(recs, changed) := acc in
  _ ← validateRecord hash record;
  match recs !! Key record with
  | Some _ => Err "thread start journal contains duplicate operation key"
  | None => Ok (<[Key record := recover (now (Key record)) record]> recs,
                (changed || bool_decide (SStatus record = StatusStarting))%bool)
  end.

Fixpoint load_records (hash : string) (now : string -> Z) (acc : gmap string StartRecord * bool)
    (l : list StartRecord) : res (gmap string StartRecord * bool) :=
  match l with
  | [] => Ok acc
  | record :: l' => acc' ← load_record hash now acc record; load_records hash now acc' l'
  end.

Definition load_document (f : io) (hash : string) (now : string -> Z) (data : file diskJournal)
  : res (gmap string StartRecord * bool) :=
  wrap "secure thread start journal permissions: " (sys f OpChmodLoad) ;;
  wrap "read thread start journal: " (sys f OpReadFile) ;;
  wrap "close thread start journal: " (sys f OpCloseLoad) ;;
  fail_if (maxJournalBytes <? file_size data) "thread start journal exceeds 16777216 bytes" ;;
  dk ← wrap "decode thread start journal: " (unmarshal data);
  fail_if (negb (Version dk =? journalVersion)) "unsupported thread start journal version" ;;
  fail_if (negb (bool_decide (DeviceHash dk = hash))) "thread start journal belongs to another device" ;;
  load_records hash now (∅, false) (Records dk).

Definition Load (f : io) (now : string -> Z) (d : option (file diskJournal)) (deviceID : string)
  : res Journal * option (file diskJournal) :=
  if is_empty (TrimSpace deviceID) then (Err "device id required", d)
  else
    let hash := hashString deviceID in
    match d, sys f OpOpen with
    | None, _ => (Ok (mkJournal hash ∅ None), None)
    | Some _, Err e => (Err ("open thread start journal: " +:+ e), d)
    | Some data, Ok _ =>
      match load_document f hash now data with
      | Err e => (Err e, d)
      | Ok (recs, changed) =>
        let j := mkJournal hash recs d in
        if changed then
          match persist f recs j with
          | (Ok _, j') => (Ok j', disk j')
          | (Err e, j') => (Err ("recover thread start journal: " +:+ e), disk j')
          end
        else (Ok j, d)
      end
    end.

(** What [Begin] returns: a record and whether it is new, or an error. *)
Inductive begin_result : Type :=
  | Began (record : StartRecord) (created : bool)
  | BeginError (e : start_error).

Definition new_record (key operationID : string) (request : Request) (now : Z) : StartRecord :=
  mkStart key operationID (rqAgentType request) (rqProjectDir request) (rqPromptDigest request)
    (rqAttachmentsDigest request) StatusStarting "" false "" now.

Definition Begin (f : io) (now : Z) (operationID : string) (request : Request) (j : Journal)
  : begin_result * Journal :=
  match (validateOperationID operationID ;; validateRequest request) with
  | Err e => (BeginError (OtherError e), j)
  | Ok _ =>
    let key := operationKey (deviceHash j) operationID in
    match records j !! key with
    | Some existing =>
      if (negb (bool_decide (OperationID existing = operationID)) || negb (sameRequest existing request))%bool
      then (BeginError (ConflictError operationID), j)
      else (Began existing false, j)
    | None =>
      let record := new_record key operationID request now in
      match commit f (<[key := record]> (records j)) j with
      | (Ok _, j') => (Began record true, j')
      | (Err e, j') => (BeginError (OtherError e), j')
      end
    end
  end.

Definition FinishWithPromptOutcome (f : io) (now : Z) (operationID : string) (status : Status)
    (sessionID message : string) (promptAccepted : bool) : M Journal StartRecord :=
  _ ← lift (fail_if (negb (terminal status)) ("invalid terminal thread start status " +:+ status_text status));
  _ ← lift (validateOperationID operationID);
  _ ← lift (fail_if ((maxSessionIDBytes <? len sessionID) || negb (ValidString sessionID))
              "session id is too long or invalid UTF-8");
  let message := boundedStartUTF8 message maxTerminalMessageBytes in
  j ← get;
  let key := operationKey (deviceHash j) operationID in
  match records j !! key with
  | None => raise "thread start operation not found"
  | Some current =>
    if terminal (SStatus current) then
      if (bool_decide (SStatus current = status) && bool_decide (SessionID current = sessionID)
          && bool_decide (Message current = message) && Bool.eqb (PromptAccepted current) promptAccepted)%bool
      then mret current
      else raise ("thread start operation already finished as " +:+ status_text (SStatus current))
    else if negb (bool_decide (SStatus current = StatusStarting)) then
      raise ("invalid thread start transition from " +:+ status_text (SStatus current))
    else if (bool_decide (status = StatusOwned) && is_empty (TrimSpace sessionID))%bool then
      raise "owned thread start requires session id"
    else if (bool_decide (status = StatusOwned) && negb promptAccepted)%bool then
      raise "owned thread start requires positive initial-prompt acknowledgement"
    else
      let current := with_outcome current status sessionID promptAccepted message now in
      _ ← commit f (<[key := current]> (records j));
      mret current
  end.

Definition Finish (f : io) (now : Z) (operationID : string) (status : Status) (sessionID message : string)
  : M Journal StartRecord :=
  FinishWithPromptOutcome f now operationID status sessionID message false.

Definition Lookup (operationID : string) (j : Journal) : option StartRecord :=
  if is_ok (validateOperationID operationID) then records j !! operationKey (deviceHash j) operationID
  else None.

Definition FailClosed (now : Z) (operationID message : string) (j : Journal) : option StartRecord * Journal :=
  if is_ok (validateOperationID operationID) then
    let key := operationKey (deviceHash j) operationID in
    match records j !! key with
    | None => (None, j)
    | Some record =>
      if bool_decide (SStatus record = StatusStarting) then
        let record := with_outcome record StatusIndeterminate (SessionID record) (PromptAccepted record)
                        (boundedStartUTF8 message maxTerminalMessageBytes) now in
        (Some record, mkJournal (deviceHash j) (<[key := record]> (records j)) (disk j))
      else (Some record, j)
    end
  else (None, j).

(** ** A daemon over its lifetime

    A daemon's process is up with a journal in memory, or down with only the
    file. [SRestart] is a crash at any point between two operations (or a
    start of the process) followed by [Load]; a crash during an operation is an
    operation whose system calls fail from some point on, followed by
    [SRestart]. *)

Inductive start_op : Type :=
  | SBegin (f : io) (now : Z) (operationID : string) (request : Request)
  | SFinish (f : io) (now : Z) (operationID : string) (status : Status) (sessionID message : string) (accepted : bool)
  | SFailClosed (now : Z) (operationID message : string)
  | SRestart (f : io) (now : string -> Z).

Inductive start_node : Type :=
  | Up (j : Journal)
  | Down (d : option (file diskJournal)).

Definition node_disk (n : start_node) : option (file diskJournal) :=
  match n with Up j => disk j | Down d => d end.

(** What the callers were told: a new operation, or a durable result. *)
Inductive start_ack : Type :=
  | AckCreated (record : StartRecord)
  | AckFinished (record : StartRecord).

Definition ack_record (a : start_ack) : StartRecord :=
  match a with AckCreated r | AckFinished r => r end.

Definition starting (r : option StartRecord) : bool :=
  match r with Some r => bool_decide (SStatus r = StatusStarting) | None => false end.

(** [Finish] on a record that has an outcome already returns it: the file was
    not written, so that is no acknowledgement of its own. *)
Definition start_step (deviceID : string) (op : start_op) (n : start_node) : list start_ack * start_node :=
  match op, n with
  | SRestart f now, _ =>
    match Load f now (node_disk n) deviceID with
    | (Ok j, _) => ([], Up j)
    | (Err _, d) => ([], Down d)
    end
  | SBegin f now id request, Up j =>
    match Begin f now id request j with
    | (Began r true, j') => ([AckCreated r], Up j')
    | (_, j') => ([], Up j')
    end
  | SFinish f now id status sid msg accepted, Up j =>
    match FinishWithPromptOutcome f now id status sid msg accepted j with
    | (Ok r, j') => (if starting (Lookup id j) then [AckFinished r] else [], Up j')
    | (Err _, j') => ([], Up j')
    end
  | SFailClosed now id msg, Up j => ([], Up (FailClosed now id msg j).2)
  | _, Down d => ([], Down d)
  end.

Fixpoint start_run (deviceID : string) (ops : list start_op) (n : start_node) : list start_ack * start_node :=
  match ops with
  | [] => ([], n)
  | op :: ops' =>
    let '(a, n1) := start_step deviceID op n in
    let '(acks, n2) := start_run deviceID ops' n1 in
    (a ++ acks, n2)
  end.
End Operations.
