(* ===== verification/StartThread.v ===== *)
(** * Native thread creation (daemon/cmd/daemon/start_thread.go)

    The coordinator behind [start_thread]: the request is bound to its operation
    id in the thread-start journal, checked against the projects the daemon has
    discovered, and only then handed to the agent's native starter, whose
    observations decide the durable result. What is outside the daemon (the
    file system, the agent's probe and starter, the time at which channels
    deliver) is an oracle, one record of answers per call of [Handle]. *)

From stdpp Require Import base tactics list gmap strings.
From Stdlib Require Import Ascii String ZArith Lia.
From S2P Require Import Prelude GoStrings GoPath Sha256 StartJournal.

Definition nl : string := of_codes [10].

(** ** Agents *)

Definition supportedStartAgents : list string :=
  ["claude_code"; "codex"; "kimi_cli"; "grok_build"; "zcode"; "cursor"].

Definition parseStartAgentType (value : string) : option string :=
  let value := TrimSpace value in
  if is_empty value then None
  else List.find (String.eqb value) supportedStartAgents.

Definition advertiseStartCapability (agentType : string) (available : option bool) : bool :=
  if (String.eqb agentType "zcode" || String.eqb agentType "cursor")%bool
  then default false available
  else true.

(** ** Project directories *)

(** The parts of the standard library whose behaviour depends on Unicode tables
    or on the operating system. *)
Class GoUnicode : Type := {
  ToLower : string -> string;
  EqualFold : string -> string -> bool
}.

Definition backslash : ascii := byte_of 92.

Fixpoint replace_byte (old new : ascii) (s : string) : string :=
  match s with
  | EmptyString => EmptyString
  | String c s' => String (if Ascii.eqb c old then new else c) (replace_byte old new s')
  end.

Definition byte_at (i : nat) (s : string) : option ascii := String.get i s.

Definition is_letter (c : ascii) : bool :=
  (((97 <=? code c) && (code c <=? 122)) || ((65 <=? code c) && (code c <=? 90)))%bool.

Definition isWindowsDriveAbsolute (value : string) : bool :=
  match byte_at 0 value, byte_at 1 value, byte_at 2 value with
  | Some letter, Some colon, Some sl => (Ascii.eqb colon ":" && Ascii.eqb sl slash && is_letter letter)%bool
  | _, _, _ => false
  end.

Definition containsParentSegment (parts : list string) : bool := existsb (fun part => String.eqb part "..") parts.

(** The file system and operating system a daemon runs on. *)
Record host : Type := mkHost {
  windows : bool;
  filepath_Clean : string -> string;
  filepath_IsAbs : string -> bool;
  EvalSymlinks : string -> res string;
  StatIsDir : string -> res bool
}.

Section Paths.
Context `{GU : GoUnicode}.

(** The extended-length prefixes of Windows: the ordinary spelling of the same
    path. *)
Definition strip_extended (slashed : string) : string :=
  if has_prefix "//?/unc/" (ToLower slashed) then "//" +:+ drop_bytes 8 slashed
  else if has_prefix "//?/" (ToLower slashed) then drop_bytes 4 slashed
  else slashed.

Definition normalize_drive (slashed : string) : res string :=
  if containsParentSegment (split_byte slash (drop_bytes 3 slashed))
  then Err "project_dir must not contain '..'"
  else Ok ("windows:" +:+ ToLower (take_bytes 2 slashed +:+ Clean ("/" +:+ drop_bytes 3 slashed))).

Definition normalize_unc (slashed : string) : res string :=
  let parts := split_byte slash (drop_bytes 2 slashed) in
  match parts with
  | server :: share :: _ =>
    if (is_empty server || is_empty share)%bool then Err "UNC project_dir requires server and share"
    else if containsParentSegment parts then Err "project_dir must not contain '..'"
    else Ok ("windows:unc/" +:+ ToLower (trim_prefix (Clean ("/" +:+ join_byte slash parts)) "/"))
  | _ => Err "UNC project_dir requires server and share"
  end.

Definition normalize_posix (raw : string) : res string :=
  if containsParentSegment (split_byte slash raw) then Err "project_dir must not contain '..'"
  else Ok ("posix:" +:+ Clean raw).

Definition normalizeProjectDir (value : string) : res string :=
  let raw := TrimSpace value in
  if is_empty raw then Err "project_dir is required"
  else if contains_byte (byte_of 0) raw then Err "project_dir contains NUL"
  else
    let slashed := replace_byte backslash slash raw in
    if has_prefix "//./" (ToLower slashed) then Err "Windows device paths are not allowed"
    else
      let slashed := strip_extended slashed in
      if isWindowsDriveAbsolute slashed then normalize_drive slashed
      else if match byte_at 1 slashed with Some c => Ascii.eqb c ":" | None => false end
      then Err "Windows project_dir must be drive-absolute"
      else if has_prefix "//" slashed then normalize_unc slashed
      else if has_prefix "/" raw then normalize_posix raw
      else Err "project_dir must be an absolute Windows or POSIX path".

Definition coalesceStartProjectDir (projectDir legacyCWD : string) : res string :=
  let projectDir := TrimSpace projectDir in
  let legacyCWD := TrimSpace legacyCWD in
  if is_empty projectDir then Ok legacyCWD
  else if is_empty legacyCWD then Ok projectDir
  else
    projectKey ← normalizeProjectDir projectDir;
    legacyKey ← normalizeProjectDir legacyCWD;
    if negb (String.eqb projectKey legacyKey)
    then Err "project_dir and cwd must identify the same discovered directory"
    else Ok projectDir.

Definition canonicalNativeProjectDir (h : host) (value : string) : res (string * string) :=
  normalized ← normalizeProjectDir value;
  _ ← fail_if (windows h && negb (has_prefix "windows:" normalized)) "project_dir is not a native Windows path";
  _ ← fail_if (negb (windows h) && negb (has_prefix "posix:" normalized)) "project_dir is not a native POSIX path";
  let cleaned := filepath_Clean h (TrimSpace value) in
  _ ← fail_if (negb (filepath_IsAbs h cleaned)) "project_dir must be absolute";
  canonical ← wrap "canonicalize project_dir: " (EvalSymlinks h cleaned);
  isdir ← wrap "stat project_dir: " (StatIsDir h canonical);
  _ ← fail_if (negb isdir) "project_dir is not a directory";
  let canonical := filepath_Clean h canonical in
  canonicalNormalized ← normalizeProjectDir canonical;
  Ok (canonical, canonicalNormalized).

(** The body of the loop over the discovered directories: a result for this
    candidate, or go on. *)
Definition try_candidate (h : host) (requested requestedNormalized candidate : string) : option string :=
  match normalizeProjectDir candidate with
  | Err _ => None
  | Ok candidateNormalized =>
    if negb (String.eqb requestedNormalized candidateNormalized) then None
    else
      match canonicalNativeProjectDir h requested, canonicalNativeProjectDir h candidate with
      | Ok (requestedCanonical, requestedResolved), Ok (candidateCanonical, candidateResolved) =>
        if negb (String.eqb requestedResolved candidateResolved) then None
        else if (windows h && negb (EqualFold requestedCanonical candidateCanonical))%bool then None
        else if (negb (windows h) && negb (String.eqb requestedCanonical candidateCanonical))%bool then None
        else Some candidateCanonical
      | _, _ => None
      end
  end.

Fixpoint first_candidate (h : host) (requested requestedNormalized : string) (discovered : list string)
  : option string :=
  match discovered with
  | [] => None
  | candidate :: rest =>
    match try_candidate h requested requestedNormalized candidate with
    | Some dir => Some dir
    | None => first_candidate h requested requestedNormalized rest
    end
  end.

Definition resolveCurrentProjectDir (h : host) (requested : string) (discovered : list string) : res string :=
  requestedNormalized ← normalizeProjectDir requested;
  match first_candidate h requested requestedNormalized discovered with
  | Some dir => Ok dir
  | None => Err "directory not in currently discovered projects"
  end.
End Paths.

(** [snapshotProjectDirs]: the project directories of the sessions, in map
    order; [None] is a nil session. *)
Definition snapshotProjectDirs `{MO : MapOrder} (sessions : gmap string (option string)) : list string :=
  omap (fun projectDir => match projectDir with
                          | Some dir => if is_empty (TrimSpace dir) then None else Some dir
                          | None => None
                          end) (range_values sessions).

(** ** Commands, events and what happens at the native boundary *)

Record Ref : Type := mkRef { URL : string; RefName : string; MIME : string; RefID : string }.
Record LocalFile : Type := mkFile { FilePath : string; FileName : string; FileMIME : string }.

Record threadStartCommand : Type := mkCommand {
  cOperationID : string;
  cAgentType : string;
  cProjectDir : string;
  cPrompt : string;
  cAttachments : list Ref
}.

Record threadStartEvent : Type := mkEvent {
  eOperationID : string;
  eAgentType : string;
  eState : Status;
  eSessionID : string;
  ePromptAccepted : bool;
  eMessage : string
}.

Record ThreadStartCapability : Type := mkCapability {
  Available : bool;
  Reason : string;
  ControlPath : string;
  ControlVersion : string;
  AttachmentMode : string
}.

Record ThreadStartRequest : Type := mkStartRequest {
  tsProjectDir : string;
  tsPrompt : string;
  tsAttachments : list LocalFile
}.

(** [ThreadStartResult]; [HasPromptResult] says that the channel is not nil. *)
Record ThreadStartResult : Type := mkStartResult {
  tsSessionID : string;
  Created : bool;
  tsPromptAccepted : bool;
  HasPromptResult : bool
}.

Definition no_result : ThreadStartResult := mkStartResult "" false false false.

(** [invokeNativeThreadStart]: the starter returned, or panicked. *)
Inductive start_call : Type :=
  | Returned (result : ThreadStartResult) (err : option string)
  | Panicked (msg : string).

Definition invokeNativeThreadStart (c : start_call) : ThreadStartResult * option string * option string :=
  match c with
  | Returned result err => (result, err, None)
  | Panicked msg => (no_result, None, Some ("adapter panic: " +:+ msg))
  end.

(** What [Materialize] returns, and whether it failed. *)
Record materialized : Type := mkMaterialized {
  mDir : string;
  mFiles : list LocalFile;
  mSuffix : string;
  mErr : option string
}.

(** A case of the [select] that waits for the native result. A prompt result is
    [None] for a closed channel, [Some None] for a nil error. *)
Inductive select_event : Type :=
  | OwnershipKnown (confirmed : bool)
  | PromptKnown (result : option (option string))
  | DaemonStopped.

(** What the world answers during one call of [Handle]. *)
Record start_env : Type := mkEnv {
  env_host : host;
  env_dirs : list string;
  env_starter : bool;
  env_probe : res ThreadStartCapability;
  env_materialize : option (string -> list Ref -> materialized);
  env_start : ThreadStartRequest -> start_call;
  env_select : list select_event;
  env_recheck : bool
}.

(** What [Handle] does to the outside, in order. *)
Inductive effect : Type :=
  | Emit (e : threadStartEvent)
  | StartNative (operationID : string) (request : ThreadStartRequest)
  | RemoveAll (dir : string).

Definition eventFromStartRecord (record : StartRecord) : threadStartEvent :=
  mkEvent (OperationID record) (AgentType record) (SStatus record) (SessionID record)
    (PromptAccepted record) (Message record).

(** ** The ownership wait *)

(** A case of the [select] in [waitForOwnership]. *)
Inductive poll_event : Set := PollDone | PollTimer | PollTick.

(** [waitForOwnership]: [owns n] is the answer of the [n]-th ownership check.
    [None]: still waiting when the events run out. *)
Fixpoint wait_polls (owns : nat -> bool) (n : nat) (events : list poll_event) : option bool :=
  match events with
  | [] => None
  | PollDone :: _ => Some false
  | PollTimer :: _ => Some (owns n)
  | PollTick :: events' => if owns n then Some true else wait_polls owns (S n) events'
  end.

Definition waitForOwnership (owns : nat -> bool) (events : list poll_event) : option bool :=
  if owns O then Some true else wait_polls owns 1 events.

(** ** [Handle]

    The four parts of the method: up to the first event; up to the call of the
    starter; the call and the wait for its result; the durable result. *)

Definition failed_event (cmd : threadStartCommand) (message : string) : threadStartEvent :=
  mkEvent (cOperationID cmd) (cAgentType cmd) StatusFailed "" false message.

(** The arguments of the closure [finish]. *)
Record conclusion : Type := mkConclusion {
  fStatus : Status;
  fSessionID : string;
  fMessage : string;
  fAccepted : bool
}.

Definition failed (message : string) : conclusion := mkConclusion StatusFailed "" message false.

Definition release (dir : string) : list effect := if is_empty dir then [] else [RemoveAll dir].

Record prepared : Type := mkPrepared {
  pRequest : ThreadStartRequest;
  pDir : string
}.

Section Handle.
Context `{MO : MapOrder} `{CD : !Codec diskJournal} `{GU : GoUnicode}.
Context (refs_json : list Ref -> string).

Definition threadStartAttachmentsDigest (refs : list Ref) : string :=
  match refs with [] => "" | _ => sha256_hex (refs_json refs) end.

Definition handle_begin (f : io) (now : Z) (cmd : threadStartCommand) (j : Journal)
  : list effect * bool * Journal :=
  if is_empty (cAgentType cmd) then ([Emit (failed_event cmd "invalid agent_type")], false, j)
  else
    match normalizeProjectDir (cProjectDir cmd) with
    | Err e => ([Emit (failed_event cmd e)], false, j)
    | Ok normalizedDir =>
      match Begin f now (cOperationID cmd)
              (mkRequest (cAgentType cmd) normalizedDir (promptDigest (cPrompt cmd))
                 (threadStartAttachmentsDigest (cAttachments cmd))) j with
      | (BeginError e, j') =>
        let message := if IsConflict e then error_text e
          else "thread was not started because its durable start record could not be written: " +:+ error_text e in
        ([Emit (failed_event cmd message)], false, j')
      | (Began record fresh, j') => ([Emit (eventFromStartRecord record)], fresh, j')
      end
    end.

(** The attachments: none, or all of them in a directory, or the message of the
    failure. *)
Definition prepare_attachments (env : start_env) (cmd : threadStartCommand)
  : list effect * (conclusion + (string * list LocalFile * string)) :=
  match cAttachments cmd with
  | [] => ([], inr ("", [], ""))
  | refs =>
    match env_materialize env with
    | None => ([], inl (failed "attachments are unavailable for native thread creation"))
    | Some materialize =>
      let m := materialize (cOperationID cmd) refs in
      if (negb (bool_decide (mErr m = None)) || negb (Nat.eqb (List.length (mFiles m)) (List.length refs)))%bool
      then (release (mDir m),
            inl (failed ("attachment download failed before native thread creation" +:+
                   match mErr m with
                   | Some e => ": " +:+ e
                   | None => ": one or more attachments could not be materialized"
                   end)))
      else ([], inr (mDir m, mFiles m, mSuffix m))
    end
  end.

(** Everything between the first event and the call of the starter. *)
Definition handle_prepare (env : start_env) (cmd : threadStartCommand) : list effect * (conclusion + prepared) :=
  if is_empty (TrimSpace (cPrompt cmd)) then ([], inl (failed "initial prompt is required"))
  else
    match resolveCurrentProjectDir (env_host env) (cProjectDir cmd) (env_dirs env) with
    | Err e => ([], inl (failed e))
    | Ok projectDir =>
      if negb (env_starter env)
      then ([], inl (failed ("native thread creation is not implemented for " +:+ cAgentType cmd)))
      else
        match env_probe env with
        | Err e => ([], inl (failed ("native thread creation probe failed: " +:+ e)))
        | Ok capability =>
          if negb (Available capability) then
            let reason := TrimSpace (Reason capability) in
            ([], inl (failed (if is_empty reason
                              then "native thread creation is unavailable for " +:+ cAgentType cmd else reason)))
          else if (negb (bool_decide (cAttachments cmd = [])) && String.eqb (AttachmentMode capability) "unsupported")%bool
          then ([], inl (failed "first-turn attachments are unavailable for the selected native control path"))
          else
            match prepare_attachments env cmd with
            | (effs, inl c) => (effs, inl c)
            | (effs, inr (dir, files, suffix)) =>
              (effs, inr (mkPrepared (mkStartRequest projectDir (cPrompt cmd +:+ suffix) files) dir))
            end
        end
    end.

(** The loop [for !ownershipDone || !promptDone]. *)
Inductive wait_result : Type :=
  | Resolved (ownershipConfirmed promptAccepted : bool) (startErr : option string)
  | Stopped
  | Blocked.

Fixpoint wait_loop (events : list select_event) (ownershipDone promptDone hasChannel : bool)
    (ownershipConfirmed promptAccepted : bool) (startErr : option string) : wait_result :=
  if (ownershipDone && promptDone)%bool then Resolved ownershipConfirmed promptAccepted startErr
  else
    match events with
    | [] => Blocked
    | OwnershipKnown confirmed :: events' =>
      if ownershipDone
      then wait_loop events' ownershipDone promptDone hasChannel ownershipConfirmed promptAccepted startErr
      else wait_loop events' true promptDone hasChannel confirmed promptAccepted startErr
    | PromptKnown result :: events' =>
      if hasChannel
      then wait_loop events' ownershipDone true false ownershipConfirmed
             (match result with Some None => true | _ => false end)
             (match result with Some (Some e) => Some e | _ => startErr end)
      else wait_loop events' ownershipDone promptDone hasChannel ownershipConfirmed promptAccepted startErr
    | DaemonStopped :: _ => Stopped
    end.

(** The last part: which result the observations amount to. *)
Definition conclude (sessionID : string) (crossed ownershipConfirmed promptAccepted : bool)
    (startErr startPanic : option string) : conclusion :=
  if (ownershipConfirmed && promptAccepted)%bool then mkConclusion StatusOwned sessionID "" true
  else if ownershipConfirmed then
    mkConclusion StatusIndeterminate sessionID
      ("native thread ownership was confirmed, but the initial prompt was not; the outcome is indeterminate and automatic retry is disabled"
       +:+ match startErr with Some e => ": " +:+ e | None => "" end) false
  else if (bool_decide (is_Some startPanic) || crossed)%bool then
    mkConclusion StatusIndeterminate sessionID
      ("native thread start outcome is indeterminate; ownership was not confirmed in the agent's native store and automatic retry is disabled"
       +:+ match startPanic, startErr with
           | Some e, _ => ": " +:+ e
           | None, Some e => ": " +:+ e
           | None, None => if is_empty sessionID then ": no native session id returned" else ""
           end) false
  else failed (default "native thread was not created" startErr).

(** The call of the starter and the wait for ownership and for the prompt.
    [None]: the wait has not ended. The attachment directory is removed once at
    most ([cleanupOnce]): [released] says that it is gone. *)
Definition handle_native (env : start_env) (cmd : threadStartCommand) (p : prepared)
  : list effect * option conclusion :=
  let '(started, startErr, startPanic) := invokeNativeThreadStart (env_start env (pRequest p)) in
  let sessionID := TrimSpace (tsSessionID started) in
  let crossed := (Created started || tsPromptAccepted started)%bool in
  let promptAccepted := (tsPromptAccepted started && bool_decide (startErr = None) && bool_decide (startPanic = None))%bool in
  let starterOwnsFiles := (crossed && HasPromptResult started || promptAccepted)%bool in
  let early := if starterOwnsFiles then [] else release (pDir p) in
  let call := StartNative (cOperationID cmd) (pRequest p) in
  if (crossed && negb (is_empty sessionID))%bool then
    match wait_loop (env_select env) false (promptAccepted || negb (HasPromptResult started))
            (HasPromptResult started) false promptAccepted startErr with
    | Blocked => (call :: early, None)
    | Stopped =>
      (call :: early,
       Some (mkConclusion StatusIndeterminate sessionID
         "daemon stopped while native ownership or initial prompt outcome was unresolved; automatic retry is disabled" false))
    | Resolved ownershipConfirmed promptAccepted startErr =>
      let late := if (HasPromptResult started && starterOwnsFiles)%bool then release (pDir p) else [] in
      let ownershipConfirmed := (ownershipConfirmed || (promptAccepted && env_recheck env))%bool in
      (call :: early ++ late, Some (conclude sessionID crossed ownershipConfirmed promptAccepted startErr startPanic))
    end
  else (call :: early, Some (conclude sessionID crossed false promptAccepted startErr startPanic)).

(** The closure [finish]. *)
Definition handle_finish (f : io) (now : Z) (cmd : threadStartCommand) (c : conclusion) (j : Journal)
  : list effect * Journal :=
  match FinishWithPromptOutcome f now (cOperationID cmd) (fStatus c) (fSessionID c) (fMessage c) (fAccepted c) j with
  | (Ok finished, j') => ([Emit (eventFromStartRecord finished)], j')
  | (Err e, j') =>
    let fallback := "thread start outcome is indeterminate because its durable result could not be written; automatic retry is disabled: " +:+ e in
    match FailClosed now (cOperationID cmd) fallback j' with
    | (Some failedClosed, j'') =>
      ([Emit (mkEvent (OperationID failedClosed) (AgentType failedClosed) (SStatus failedClosed) (fSessionID c)
                (PromptAccepted failedClosed) (Message failedClosed))], j'')
    | (None, j'') =>
      ([Emit (mkEvent (cOperationID cmd) (cAgentType cmd) StatusIndeterminate (fSessionID c) false fallback)], j'')
    end
  end.

(** The parts after the first event, up to the arguments of [finish]. *)
Definition handle_run (env : start_env) (cmd : threadStartCommand) : list effect * option conclusion :=
  match handle_prepare env cmd with
  | (effs, inl c) => (effs, Some c)
  | (effs, inr p) => let '(effs', c) := handle_native env cmd p in (effs ++ effs', c)
  end.

Definition Handle (f1 f2 : io) (now1 now2 : Z) (env : start_env) (cmd : threadStartCommand) (j : Journal)
  : list effect * Journal :=
  let '(effs1, fresh, j1) := handle_begin f1 now1 cmd j in
  if negb fresh then (effs1, j1)
  else
    match handle_run env cmd with
    | (effs2, None) => (effs1 ++ effs2, j1)
    | (effs2, Some c) =>
      let '(effs3, j2) := handle_finish f2 now2 cmd c j1 in
      (effs1 ++ effs2 ++ effs3, j2)
    end.

(** ** The coordinator among other handlers and restarts

    Handlers run concurrently (one goroutine per command); the journal's mutex
    makes their [Begin] and [finish] atomic. [started] are the handlers that
    were told to go on and have not called the starter, [concluding] those that
    know what to write. A handler may also be cut off by a panic, wherever it is
    (then [FailClosed] runs), or by a crash, or stay blocked. *)

Record coordinator : Type := mkCoordinator {
  node : start_node;
  started : list threadStartCommand;
  concluding : list (threadStartCommand * conclusion)
}.

Inductive coordinator_step (deviceID : string) : coordinator -> list effect -> coordinator -> Prop :=
  | step_begin f now cmd j s c effs fresh j' :
      handle_begin f now cmd j = (effs, fresh, j') ->
      coordinator_step deviceID (mkCoordinator (Up j) s c) effs
        (mkCoordinator (Up j') (if fresh then cmd :: s else s) c)
  | step_run env cmd n s1 s2 c effs r :
      handle_run env cmd = (effs, r) ->
      coordinator_step deviceID (mkCoordinator n (s1 ++ cmd :: s2) c) effs
        (mkCoordinator n (s1 ++ s2) (match r with Some r => (cmd, r) :: c | None => c end))
  | step_finish f now cmd r j s c1 c2 effs j' :
      handle_finish f now cmd r j = (effs, j') ->
      coordinator_step deviceID (mkCoordinator (Up j) s (c1 ++ (cmd, r) :: c2)) effs
        (mkCoordinator (Up j') s (c1 ++ c2))
  | step_panic now cmd message j s s' c c' :
      s' ⊆+ s -> c' ⊆+ c ->
      coordinator_step deviceID (mkCoordinator (Up j) s c) []
        (mkCoordinator (Up (FailClosed now (cOperationID cmd) message j).2) s' c')
  | step_restart f now n s c n' :
      start_step deviceID (SRestart f now) n = ([], n') ->
      coordinator_step deviceID (mkCoordinator n s c) [] (mkCoordinator n' [] []).

(** Runs, with the effects in order. *)
Inductive coordinator_run (deviceID : string) : coordinator -> list effect -> coordinator -> Prop :=
  | run_refl s : coordinator_run deviceID s [] s
  | run_step s1 effs1 s2 effs2 s3 :
      coordinator_run deviceID s1 effs1 s2 -> coordinator_step deviceID s2 effs2 s3 ->
      coordinator_run deviceID s1 (effs1 ++ effs2) s3.
End Handle.
