(* ===== verification/StartCapability.v ===== *)
(** * The start-capability cache (daemon/cmd/daemon/start_thread.go)

    Whether an agent can start a thread is found by running its command line
    tool. [agentStartCapabilityCache] keeps the last answer per agent and lets
    one probe run at a time: discovery reads what is known and starts a probe in
    the background when one is due, a user's start joins a running probe or runs
    a fresh one. Each critical section of the mutex is a function on the
    entries; goroutines and channels are in the step relation. Times are
    nanoseconds. *)

From stdpp Require Import base tactics list gmap strings.
From Stdlib Require Import String ZArith Lia.
From S2P Require Import Prelude GoStrings StartThread.

Definition second : Z := 1000000000.
Definition minute : Z := 60 * second.
Definition hour : Z := 60 * minute.

Inductive startCapabilityActivityTier : Set :=
  | startCapabilityActiveTier
  | startCapabilityRecentTier
  | startCapabilityDormantTier.

#[export] Instance tier_eq_dec : EqDecision startCapabilityActivityTier.
Proof. solve_decision. Defined.

Definition startCapabilityActiveInterval : Z := 5 * minute.
Definition startCapabilityRecentInterval : Z := hour.
Definition startCapabilityDormantInterval : Z := 24 * hour.
Definition RecentSessionWindow : Z := 7 * 24 * hour.

Definition startCapabilityProbeInterval (tier : startCapabilityActivityTier) : Z :=
  match tier with
  | startCapabilityActiveTier => startCapabilityActiveInterval
  | startCapabilityRecentTier => startCapabilityRecentInterval
  | startCapabilityDormantTier => startCapabilityDormantInterval
  end.

(** The fields of [SessionInfo] the tier depends on. *)
Record session_activity : Type := mkActivity {
  saAgentType : string;
  saStatus : string;
  saLastActivity : Z
}.

Definition busy_status (status : string) : bool :=
  (String.eqb status "running" || String.eqb status "waiting_user" || String.eqb status "waiting_approval")%bool.

Fixpoint tier_loop (agentType : string) (now : Z) (hasRecent : bool) (sessions : list (option session_activity))
  : startCapabilityActivityTier :=
  match sessions with
  | [] => if hasRecent then startCapabilityRecentTier else startCapabilityDormantTier
  | None :: rest => tier_loop agentType now hasRecent rest
  | Some s :: rest =>
    if negb (String.eqb (saAgentType s) agentType) then tier_loop agentType now hasRecent rest
    else if busy_status (saStatus s) then startCapabilityActiveTier
    else if negb (saLastActivity s <? now - 15 * minute) then startCapabilityActiveTier
    else tier_loop agentType now (hasRecent || negb (saLastActivity s <? now - RecentSessionWindow))%bool rest
  end.

Definition startCapabilityTier (agentType : string) (sessions : list (option session_activity)) (now : Z)
  : startCapabilityActivityTier := tier_loop agentType now false sessions.

(** ** Entries

    [done] is the channel of the probe in flight; channels are numbered as they
    are made. *)
Record startCapabilityCacheEntry : Type := mkEntry {
  capability : ThreadStartCapability;
  activity : startCapabilityActivityTier;
  hasResult : bool;
  lastProbe : Z;
  nextProbe : Z;
  inFlight : bool;
  done : option nat;
  waiters : Z
}.

Definition no_capability : ThreadStartCapability := mkCapability false "" "" "" "".

(** The zero entry. *)
Definition new_entry : startCapabilityCacheEntry :=
  mkEntry no_capability startCapabilityDormantTier false 0 0 false None 0.

Abbreviation cache := (gmap string startCapabilityCacheEntry).

(** [entryLocked]: the entry, which now exists. *)
Definition entryLocked (c : cache) (agentType : string) : startCapabilityCacheEntry :=
  default new_entry (c !! agentType).

Definition with_waiters (e : startCapabilityCacheEntry) (n : Z) : startCapabilityCacheEntry :=
  mkEntry (capability e) (activity e) (hasResult e) (lastProbe e) (nextProbe e) (inFlight e) (done e) n.

Definition with_probe (e : startCapabilityCacheEntry) (ch : nat) : startCapabilityCacheEntry :=
  mkEntry (capability e) (activity e) (hasResult e) (lastProbe e) (nextProbe e) true (Some ch) (waiters e).

Definition with_activity (e : startCapabilityCacheEntry) (tier : startCapabilityActivityTier) (next : Z)
  : startCapabilityCacheEntry :=
  mkEntry (capability e) tier (hasResult e) (lastProbe e) next (inFlight e) (done e) (waiters e).

(** [getOrStart]: what discovery is told, and whether it starts a probe. [ch]
    is the channel made for it. *)
Definition getOrStart (implemented : bool) (now : Z) (ch : nat) (agentType : string)
    (tier : startCapabilityActivityTier) (c : cache)
  : (ThreadStartCapability * bool * bool * bool) * bool * cache :=
  if negb implemented then ((no_capability, false, false, false), false, c)
  else
    let entry := entryLocked c agentType in
    if inFlight entry then
      ((capability entry, hasResult entry, true, true), false,
       <[agentType := with_activity entry tier (nextProbe entry)]> c)
    else
      let next := if hasResult entry then lastProbe entry + startCapabilityProbeInterval tier else nextProbe entry in
      let entry := with_activity entry tier next in
      if (hasResult entry && (now <? nextProbe entry))%bool
      then ((capability entry, true, false, true), false, <[agentType := entry]> c)
      else ((capability entry, hasResult entry, true, true), true, <[agentType := with_probe entry ch]> c).

(** One round of the loop of [ProbeForStart]. *)
Inductive join_result : Type :=
  | JoinProbe (ch : nat)
  | UseResult (capability : ThreadStartCapability)
  | RunProbe.

Definition probe_round (waitedForProbe : bool) (ch : nat) (agentType : string) (c : cache) : join_result * cache :=
  let entry := entryLocked c agentType in
  if inFlight entry then
    (JoinProbe (default O (done entry)), <[agentType := with_waiters entry (waiters entry + 1)]> c)
  else if (waitedForProbe && hasResult entry)%bool then (UseResult (capability entry), <[agentType := entry]> c)
  else (RunProbe, <[agentType := with_probe entry ch]> c).

(** The critical section after a wait. *)
Definition stop_waiting (agentType : string) (c : cache) : cache :=
  let entry := entryLocked c agentType in <[agentType := with_waiters entry (waiters entry - 1)]> c.

(** [runProbe]: the answer of the tool, its panic, or a timeout. *)
Inductive probe_answer : Type :=
  | ProbeReturned (capability : ThreadStartCapability)
  | ProbePanicked (msg : string)
  | ProbeTimedOut (err : string).

Definition runProbe (implemented : bool) (answer : probe_answer) : ThreadStartCapability * option string :=
  if negb implemented then (mkCapability false "native thread creation is not implemented" "" "" "", None)
  else match answer with
       | ProbeReturned cap => (cap, None)
       | ProbePanicked msg =>
         (mkCapability false "native thread creation probe failed" "" "" "", Some ("adapter panic: " +:+ msg))
       | ProbeTimedOut err => (mkCapability false "native thread creation probe failed" "" "" "", Some err)
       end.

(** [probeAndStore] after the probe: the entry, and the channel to close. *)
Definition store_probe (cap : ThreadStartCapability) (now : Z) (tier : startCapabilityActivityTier)
    (agentType : string) (c : cache) : option nat * cache :=
  let entry := entryLocked c agentType in
  (done entry,
   <[agentType := mkEntry cap tier true now (now + startCapabilityProbeInterval tier) false None (waiters entry)]> c).

(** [startCapabilityEntry]: what is published about an agent. *)
Record capability_entry : Type := mkPublished {
  pubAgentType : string;
  pubAvailable : bool;
  pubSpawn : bool;
  pubAttachmentMode : string;
  pubControl : option (string * string);
  pubReason : option string
}.

Definition startCapabilityEntry (agentType : string) (cap : ThreadStartCapability)
    (hasResult inFlight implemented : bool) : capability_entry :=
  if negb implemented then
    mkPublished agentType false false "unsupported" None (Some "native thread creation is not implemented")
  else if negb hasResult then
    mkPublished agentType false false "unsupported" None (Some "native thread creation probe is in progress")
  else
    mkPublished agentType (Available cap) (Available cap)
      (if is_empty (AttachmentMode cap) then "unsupported" else AttachmentMode cap)
      (Some (ControlPath cap, ControlVersion cap))
      (if Available cap then None
       else Some (let reason := TrimSpace (Reason cap) in
                  if is_empty reason then "native thread creation is unavailable" else reason)).

(** [Get]: the agents that are advertised, in order, each with the probe it may
    start; channels are numbered from [ch]. One reading of the clock stands for
    the ones [Get] makes. *)
Fixpoint get_loop (available : string -> option bool) (implemented : string -> bool)
    (sessions : list (option session_activity)) (now : Z) (ch : nat) (agents : list string) (c : cache)
  : list capability_entry * list string * nat * cache :=
  match agents with
  | [] => ([], [], ch, c)
  | agentType :: rest =>
    if negb (advertiseStartCapability agentType (available agentType))
    then get_loop available implemented sessions now ch rest c
    else
      let tier := startCapabilityTier agentType sessions now in
      let '((cap, has, infl, impl), spawn, c1) := getOrStart (implemented agentType) now ch agentType tier c in
      let '(entries, spawned, ch', c2) :=
        get_loop available implemented sessions now (if spawn then S ch else ch) rest c1 in
      (startCapabilityEntry agentType cap has infl impl :: entries,
       if spawn then agentType :: spawned else spawned, ch', c2)
  end.

Definition Get (available : string -> option bool) (implemented : string -> bool)
    (sessions : list (option session_activity)) (now : Z) (ch : nat) (c : cache)
  : list capability_entry * list string * nat * cache :=
  get_loop available implemented sessions now ch supportedStartAgents c.

(** ** Goroutines

    [probing]: the agents whose tool a goroutine of the cache is running.
    [waiting]: callers of [ProbeForStart] at the [select], with the channel they
    wait on. [closed]: the channels that have been closed. *)
Record cache_system : Type := mkSystem {
  entries : cache;
  fresh : nat;
  probing : list string;
  waiting : list (string * nat);
  closed : list nat
}.

Inductive cache_step : cache_system -> cache_system -> Prop :=
  | step_discover implemented now agentType tier s answer c' :
      getOrStart implemented now (fresh s) agentType tier (entries s) = (answer, false, c') ->
      cache_step s (mkSystem c' (fresh s) (probing s) (waiting s) (closed s))
  | step_discover_probe implemented now agentType tier s answer c' :
      getOrStart implemented now (fresh s) agentType tier (entries s) = (answer, true, c') ->
      cache_step s (mkSystem c' (S (fresh s)) (agentType :: probing s) (waiting s) (closed s))
  | step_join waited agentType s ch c' :
      probe_round waited (fresh s) agentType (entries s) = (JoinProbe ch, c') ->
      cache_step s (mkSystem c' (fresh s) (probing s) ((agentType, ch) :: waiting s) (closed s))
  | step_use waited agentType s cap c' :
      probe_round waited (fresh s) agentType (entries s) = (UseResult cap, c') ->
      cache_step s (mkSystem c' (fresh s) (probing s) (waiting s) (closed s))
  | step_start_probe waited agentType s c' :
      probe_round waited (fresh s) agentType (entries s) = (RunProbe, c') ->
      cache_step s (mkSystem c' (S (fresh s)) (agentType :: probing s) (waiting s) (closed s))
  | step_wake agentType ch w1 w2 c n p cl :
      ch ∈ cl ->
      cache_step (mkSystem c n p (w1 ++ (agentType, ch) :: w2) cl)
        (mkSystem (stop_waiting agentType c) n p (w1 ++ w2) cl)
  | step_give_up agentType ch w1 w2 c n p cl :
      cache_step (mkSystem c n p (w1 ++ (agentType, ch) :: w2) cl)
        (mkSystem (stop_waiting agentType c) n p (w1 ++ w2) cl)
  | step_stored implemented answer now tier agentType p1 p2 c n w cl ch c' :
      store_probe (runProbe implemented answer).1 now tier agentType c = (ch, c') ->
      cache_step (mkSystem c n (p1 ++ agentType :: p2) w cl)
        (mkSystem c' n (p1 ++ p2) w (match ch with Some ch => ch :: cl | None => cl end)).

Definition empty_system : cache_system := mkSystem ∅ 0 [] [] [].
