(* ===== verification/DaemonWire.v ===== *)
(** * The daemon's frames (daemon/cmd/daemon/main.go)

    What the daemon accepts from the relay and what it sends: the checks on an
    inbound frame and the decoding of an application command, and the builders
    of outbound frames. In open mode an application payload travels as it is; in
    sealed mode it travels encrypted under a session or a catalog key. The key
    manager (daemon/internal/sealedkeys) and its envelope are parameters. *)

From stdpp Require Import base tactics list gmap strings.
From Stdlib Require Import Ascii String ZArith Lia.
From S2P Require Import Prelude GoStrings Json StartThread.

Inductive transport : Set := OpenTransport | SealedTransport.

#[export] Instance transport_eq_dec : EqDecision transport.
Proof. solve_decision. Defined.

Definition mode_text (t : transport) : string :=
  match t with OpenTransport => "open" | SealedTransport => "sealed" end.

Definition maxPromptAttachments : Z := 5.

(** ** Values of a decoded command *)

Definition attachment_ref (item : value) : option Ref :=
  match item with
  | VObject m =>
    let u := string_or_empty (assoc "url" m) in
    if is_empty u then None
    else Some (mkRef u (string_or_empty (assoc "name" m)) (string_or_empty (assoc "mime" m))
                 (string_or_empty (assoc "id" m)))
  | _ => None
  end.

Definition parseAttachmentRefs (raw : option value) : list Ref :=
  match raw with
  | Some (VArray arr) => omap attachment_ref arr
  | _ => []
  end.

Definition normalizeCollaborationMode (raw : option value) : res string :=
  match raw with
  | None | Some VNil => Ok ""
  | Some (VString mode) =>
    let mode := TrimSpace mode in
    if is_empty mode then Ok ""
    else if negb (String.eqb mode "plan") then Err ("unsupported collaboration_mode " +:+ mode)
    else Ok mode
  | Some _ => Err "collaboration_mode must be a string"
  end.

(** The head of the block [Materialize] appends to a prompt. *)
Definition attach_mark : string :=
  nl +:+ nl +:+ "[NekoNest attachments — local files on this PC]" +:+ nl.

(** [strings.Index(s, sep)]: what is before the first occurrence. *)
Fixpoint before (sep s : string) : option string :=
  if has_prefix sep s then Some ""
  else match s with
       | EmptyString => None
       | String c s' => String c <$> before sep s'
       end.

Definition stripNekoAttachSuffix (prompt : string) : string :=
  match before attach_mark prompt with Some p => TrimSpace p | None => prompt end.

(** The answers of a [respond_user_input] command. *)
Definition answer_values (raw : value) : list value :=
  match raw with
  | VArray l => l
  | VObject m => match assoc "answers" m with Some (VArray l) => l | _ => [] end
  | _ => []
  end.

Definition add_answer (out : gmap string (list string)) (qa : string * value) : gmap string (list string) :=
  let questionID := TrimSpace qa.1 in
  if is_empty questionID then out
  else
    let texts := omap (fun v => as_string (Some v)) (answer_values qa.2) in
    <[questionID := default [] (out !! questionID) ++ texts]> out.

Definition parseUserInputAnswers (raw : option value) : gmap string (list string) :=
  match raw with
  | Some (VObject answers) => foldl add_answer ∅ answers
  | _ => ∅
  end.

(** ** Inbound frames

    A decoded frame is a map; the fields below are the ones that are read. *)

Definition daemonInboundApplicationType (msgType : string) : bool :=
  existsb (String.eqb msgType)
    ["send_prompt"; "approve"; "deny"; "respond_user_input"; "interrupt"; "steer";
     "cancel_prompt"; "resume_prompt_queue"; "skip_prompt_queue_item"; "start_thread"; "fetch_history"].

Definition routing_type (msgType : string) : bool :=
  existsb (String.eqb msgType)
    ["refresh_sessions"; "pair_ready"; "prompt_status_query"; "prompt_committed"; "heartbeat";
     "key_package"; "phone_revoked"; "attention_event"; "error"].

Definition safeInboundMessageTypeForLog (msgType : string) : string :=
  if (daemonInboundApplicationType msgType || routing_type msgType)%bool then msgType else "unknown".

Definition frame_mode_ok (daemonTransport : transport) (msg : payload) : res unit :=
  fail_if (negb (has_prefix "1." (payload_string msg "protocol_version"))) "protocol_version mismatch" ;;
  fail_if (negb (String.eqb (payload_string msg "transport_mode") (mode_text daemonTransport)))
    "transport_mode mismatch".

Definition validateInboundRoutingFrame (daemonTransport : transport) (msg : payload) : res unit :=
  frame_mode_ok daemonTransport msg ;;
  fail_if (negb (routing_type (payload_string msg "type"))) "unexpected routing message type".

(** The associated data a sealed body is bound to. *)
Record AADFields : Type := mkAAD {
  aadProtocolVersion : string;
  aadType : string;
  aadDeviceID : string;
  aadSessionID : string;
  aadClientMsgID : string;
  aadTimestamp : Z
}.

(** [int64(ts)], for a timestamp in the range of [int64]. *)
Definition float_to_int (v : option value) : Z :=
  match v with Some (VFloat m e) => float_trunc m e | _ => 0 end.

(** The associated data [openSealedCommand] checks a frame against. The key
    scope, epoch, sender and sequence number in it are the ones of the sealed
    body, which the key manager is given whole. *)
Definition inbound_aad (deviceID sessionID : string) (msg : payload) (messageType : string) : AADFields :=
  let clientMsgID := payload_string msg "client_msg_id" in
  let clientMsgID :=
    if is_empty clientMsgID then
      match msg !! "payload" with Some (VObject p) => string_or_empty (assoc "client_msg_id" p) | _ => "" end
    else clientMsgID in
  mkAAD (payload_string msg "protocol_version") messageType deviceID sessionID clientMsgID
    (float_to_int (msg !! "timestamp")).

(** ** Outbound frames *)

Record frame (wire : Type) : Type := mkFrame {
  fType : string;
  fSession : option string;
  fClientMsg : option string;
  fPayload : option payload;
  fSealed : option wire;
  fOutcome : option (string * bool)
}.
Arguments mkFrame {_} _ _ _ _ _ _.
Arguments fType {_} _.
Arguments fSession {_} _.
Arguments fClientMsg {_} _.
Arguments fPayload {_} _.
Arguments fSealed {_} _.
Arguments fOutcome {_} _.

Definition some_if_nonempty (s : string) : option string := if is_empty s then None else Some s.

(** What the key manager offers. [seal_session id] and [seal_catalog] encrypt a
    payload; [open_sealed scope] decrypts the sealed body of a frame, whose
    [key_scope] selects the key. *)
Record key_manager (wire : Type) : Type := mkKeys {
  seal_session : string -> AADFields -> payload -> res wire;
  seal_catalog : AADFields -> payload -> res wire;
  open_session : string -> list (string * value) -> AADFields -> res payload;
  open_catalog : list (string * value) -> AADFields -> res payload
}.
Arguments seal_session {_} _.
Arguments seal_catalog {_} _.
Arguments open_session {_} _.
Arguments open_catalog {_} _.

Section Wire.
Context {wire : Type}.

(** The state the functions read: the mode of the nest, the keys if they could
    be loaded, and who this device is. *)
Record wire_config : Type := mkWireConfig {
  daemonTransport : transport;
  daemonSealedKeys : option (key_manager wire);
  protocolVersion : string;
  deviceID : string
}.
Implicit Types (c : wire_config).

Definition openSealedCommand (keys : key_manager wire) c (sessionID : string) (msg : payload)
    (sealedObj : list (string * value)) (messageType : string) : res payload :=
  if is_empty (payload_string msg "protocol_version") then Err "protocol_version required for sealed AAD"
  else
    let aad := inbound_aad (deviceID c) sessionID msg messageType in
    if String.eqb (string_or_empty (assoc "key_scope" sealedObj)) "session"
    then open_session keys sessionID sealedObj aad
    else open_catalog keys sealedObj aad.

Definition decode_open (msg : payload) : res payload :=
  match msg !! "sealed_payload" with
  | Some _ => Err "open mode rejects sealed_payload"
  | None =>
    match msg !! "payload" with
    | None | Some VNil => Ok ∅
    | Some (VObject p) => Ok (list_to_map p)
    | Some _ => Err "payload must be an object"
    end
  end.

Definition decode_sealed c (sessionID : string) (msg : payload) (expectedType : string) : res payload :=
  match msg !! "sealed_payload", msg !! "payload", daemonSealedKeys c with
  | None, _, _ | _, Some _, _ => Err "sealed application command requires sealed_payload only"
  | Some _, None, None => Err "sealed keys unavailable"
  | Some (VObject sealedObj), None, Some keys =>
    p ← openSealedCommand keys c sessionID msg sealedObj expectedType;
    let outer := payload_string msg "client_msg_id" in
    let inner := payload_string p "client_msg_id" in
    _ ← fail_if (negb (is_empty inner) && negb (String.eqb inner outer))
          "inner client_msg_id does not match envelope";
    let op := payload_string p "operation_id" in
    _ ← fail_if (String.eqb expectedType "start_thread" && (negb (is_empty op) && negb (String.eqb op outer)))
          "operation_id does not match envelope";
    Ok p
  | Some _, None, Some _ => Err "sealed_payload must be an object"
  end.

Definition decodeInboundApplicationCommand c (sessionID : string) (msg : payload) (expectedType : string)
  : res payload :=
  _ ← frame_mode_ok (daemonTransport c) msg;
  _ ← fail_if (negb (String.eqb (payload_string msg "type") expectedType)) "message type mismatch";
  _ ← fail_if (bool_decide (is_Some (msg !! "payload")) && bool_decide (is_Some (msg !! "sealed_payload")))
        "payload and sealed_payload are mutually exclusive";
  match daemonTransport c with
  | OpenTransport => decode_open msg
  | SealedTransport => decode_sealed c sessionID msg expectedType
  end.

(** [buildDaemonApplicationMessage]. *)
Definition buildDaemonApplicationMessage c (ts : Z) (sessionID clientMsgID msgType : string) (p : payload)
    (useCatalog : bool) : res (frame wire) :=
  let base := mkFrame msgType (some_if_nonempty sessionID) (some_if_nonempty clientMsgID) in
  match daemonTransport c with
  | OpenTransport => Ok (base (Some p) None None)
  | SealedTransport =>
    match daemonSealedKeys c with
    | None => Err "sealed keys unavailable"
    | Some keys =>
      let aad := mkAAD (protocolVersion c) msgType (deviceID c) sessionID clientMsgID ts in
      w ← (if useCatalog then seal_catalog keys aad p else seal_session keys sessionID aad p);
      Ok (base None (Some w) None)
    end
  end.

(** [sendDaemonApplication]: nothing is sent when the frame cannot be built. *)
Definition sendDaemonApplication c (ts : Z) (sessionID clientMsgID msgType : string) (p : payload)
    (useCatalog : bool) : list (frame wire) :=
  match buildDaemonApplicationMessage c ts sessionID clientMsgID msgType p useCatalog with
  | Ok f => [f]
  | Err _ => []
  end.

Definition sendPromptAccepted c (ts : Z) (sessionID clientMsgID echo : string) : list (frame wire) :=
  sendDaemonApplication c ts sessionID clientMsgID "prompt_accepted"
    {[ "client_msg_id" := VString clientMsgID; "prompt" := VString echo ]} false.

Definition sendPromptFailure c (ts : Z) (sessionID clientMsgID message outcome : string) (retryAllowed : bool)
  : list (frame wire) :=
  match buildDaemonApplicationMessage c ts sessionID clientMsgID "prompt_failed"
          {[ "client_msg_id" := VString clientMsgID; "error" := VString message; "message" := VString message;
             "outcome" := VString outcome; "retry_allowed" := VBool retryAllowed ]} false with
  | Ok f => [mkFrame (fType f) (fSession f) (fClientMsg f) (fPayload f) (fSealed f) (Some (outcome, retryAllowed))]
  | Err _ => []
  end.

Definition sendPromptFailed c ts sessionID clientMsgID message : list (frame wire) :=
  sendPromptFailure c ts sessionID clientMsgID message "rejected" true.

Definition sendPromptIndeterminate c ts sessionID clientMsgID message : list (frame wire) :=
  sendPromptFailure c ts sessionID clientMsgID message "indeterminate" false.

Definition sendPromptNotSeen (sessionID clientMsgID : string) : list (frame wire) :=
  [mkFrame "prompt_not_seen" (Some sessionID) (Some clientMsgID)
     (Some {[ "client_msg_id" := VString clientMsgID ]}) None None].

Definition sendPromptQueued c ts (sessionID clientMsgID : string) (position : Z) : list (frame wire) :=
  sendDaemonApplication c ts sessionID clientMsgID "prompt_queued"
    {[ "client_msg_id" := VString clientMsgID; "queued" := VBool true; "queue_position" := VInt position ]} false.

Definition sendPromptCancelled c ts (sessionID clientMsgID : string) : list (frame wire) :=
  sendDaemonApplication c ts sessionID clientMsgID "prompt_cancelled" {[ "client_msg_id" := VString clientMsgID ]} false.

Definition sendUserInputResult c ts (sessionID requestID status message : string) : list (frame wire) :=
  let p := {[ "request_id" := VString requestID; "status" := VString status ]} in
  sendDaemonApplication c ts sessionID "" "user_input_result"
    (if is_empty message then p else <["message" := VString message]> p) false.

(** [sendDaemonError]: an error frame in open mode, a chat message in sealed
    mode. [id] is the generated message id. *)
Definition sendDaemonError c (ts : Z) (id sessionID message : string) : list (frame wire) :=
  match daemonTransport c with
  | SealedTransport =>
    sendDaemonApplication c ts sessionID "" "session_message"
      {[ "message" := VObject [("id", VString id); ("role", VString "assistant"); ("content", VString message);
                               ("type", VString "error"); ("timestamp", VInt ts)] ]} false
  | OpenTransport =>
    [mkFrame "error" (Some sessionID) None (Some {[ "message" := VString message ]}) None None]
  end.

Definition message_role (msgType : string) : string :=
  if String.eqb msgType "system" then "system"
  else if String.eqb msgType "user" then "user"
  else if String.eqb msgType "tool_call" then "assistant"
  else if String.eqb msgType "tool_result" then "tool"
  else if String.eqb msgType "error" then "system"
  else "assistant".

Definition session_message_body (ts : Z) (agentType msgType content msgID : string) : payload :=
  {[ "message" := VObject [("id", VString msgID); ("role", VString (message_role msgType));
       ("content", VString content); ("type", VString msgType); ("timestamp", VInt ts);
       ("metadata", VObject [("agent_type", VString agentType); ("stream", VBool true)])] ]}.

(** [sendSessionMessage]: what every adapter's output goes through. *)
Definition sendSessionMessage c (ts : Z) (sessionID agentType msgType content msgID : string) : list (frame wire) :=
  let inner := session_message_body ts agentType msgType content msgID in
  match daemonTransport c, daemonSealedKeys c with
  | SealedTransport, Some keys =>
    match seal_session keys sessionID (mkAAD (protocolVersion c) "session_message" (deviceID c) sessionID "" ts) inner with
    | Ok w => [mkFrame "session_message" (Some sessionID) None None (Some w) None]
    | Err _ => []
    end
  | _, _ => [mkFrame "session_message" (Some sessionID) None (Some inner) None None]
  end.

(** [buildThreadResultMessage] and [degradeSealedThreadResult]. *)
Definition degradeSealedThreadResult (f : frame wire) : frame wire :=
  mkFrame "thread_indeterminate" None (fClientMsg f) None None (fOutcome f).

Definition thread_result_payload (agentType opID msgType threadID errMsg : string) (promptAccepted : bool) : payload :=
  let p := {[ "agent_type" := VString agentType; "operation_id" := VString opID; "state" := VString msgType;
              "prompt_accepted" := VBool promptAccepted ]} in
  let p := if is_empty threadID then p
           else <["session_id" := VString threadID]> (<["thread_id" := VString threadID]> p) in
  if is_empty errMsg then p
  else <["error" := VString errMsg]> (<["message" := VString errMsg]> (<["reason" := VString errMsg]> p)).

Definition buildThreadResultMessage c (ts : Z) (agentType opID msgType threadID : string) (promptAccepted : bool)
    (errMsg : string) : frame wire :=
  let p := thread_result_payload agentType opID msgType threadID errMsg promptAccepted in
  let base := mkFrame msgType (Some threadID) (Some opID) in
  match daemonTransport c with
  | OpenTransport => base (Some p) None None
  | SealedTransport =>
    match daemonSealedKeys c with
    | None => degradeSealedThreadResult (base None None None)
    | Some keys =>
      match seal_catalog keys (mkAAD (protocolVersion c) msgType (deviceID c) threadID opID ts) p with
      | Ok w => base None (Some w) None
      | Err _ => degradeSealedThreadResult (base None None None)
      end
    end
  end.

Definition sendThreadResult c ts agentType opID msgType threadID promptAccepted errMsg : list (frame wire) :=
  [buildThreadResultMessage c ts agentType opID msgType threadID promptAccepted errMsg].

(** [sendControlEvent]: a partial session update, sealed for the session, and a
    routing-only attention event. [update] is the session object with what the
    event carries, [None] when the event changes nothing. *)
Record attention : Type := mkAttention { attEventID : string; attClass : string }.

Definition sendControlEvent c (ts : Z) (sessionID : string) (update : option (list (string * value)))
    (att : option attention) : list (frame wire) :=
  if is_empty sessionID then []
  else
    let attention_frames :=
      match att with
      | Some a =>
        [mkFrame "attention_event" (Some sessionID) None
           (Some {[ "event_id" := VString (attEventID a); "class" := VString (attClass a); "occurred_at" := VInt ts ]})
           None None]
      | None => []
      end in
    match update with
    | None => attention_frames
    | Some session =>
      let inner : payload := {[ "session" := VObject session ]} in
      match daemonTransport c with
      | OpenTransport =>
        mkFrame "session_update" (Some sessionID) None (Some inner) None None :: attention_frames
      | SealedTransport =>
        match daemonSealedKeys c with
        | None => []
        | Some keys =>
          match seal_session keys sessionID
                  (mkAAD (protocolVersion c) "session_update" (deviceID c) sessionID "" ts) inner with
          | Ok w => mkFrame "session_update" (Some sessionID) None None (Some w) None :: attention_frames
          | Err _ => []
          end
        end
      end
    end.

(** [sendInboundDecodeFailure]. *)
Definition sendInboundDecodeFailure c (ts : Z) (id sessionID msgType : string) (msg : payload) : list (frame wire) :=
  let clientMsgID := payload_string msg "client_msg_id" in
  let text := "authenticated command could not be decoded" in
  if existsb (String.eqb msgType) ["send_prompt"; "cancel_prompt"; "resume_prompt_queue"; "skip_prompt_queue_item"]
  then sendPromptFailed c ts sessionID clientMsgID text
  else if String.eqb msgType "respond_user_input" then sendUserInputResult c ts sessionID "" "indeterminate" text
  else if String.eqb msgType "start_thread" then sendThreadResult c ts "" clientMsgID "thread_failed" "" false text
  else sendDaemonError c ts id sessionID text.
End Wire.
Arguments wire_config : clear implicits.
