(* ===== verification/ActiveTurn.v ===== *)
(** * Which turn is running: daemon registry, adapter tracker, acceptance cache

    - [ActiveTurns]: daemon/cmd/daemon/active_turn.go, the registry of the turn
      each session is running and the gate that holds a terminal event until
      the journal has recorded acceptance;
    - [TurnTracker]: daemon/internal/adapters/control_tracker.go, the adapter's
      correlation of process callbacks with turns;
    - [AcceptanceCache] and [SessionLocks]: daemon/cmd/daemon/prompt_state.go.

    Each method that holds the mutex throughout is one function on the state;
    [accepted] of the tracker releases it in between, so it is modelled as the
    three critical sections it consists of. *)

From stdpp Require Import base tactics list gmap strings.
From Stdlib Require Import Ascii ZArith Lia.
From S2P Require Import Prelude GoStrings Sha256 Json.

(** ** Shared types (daemon/internal/adapters/adapter.go) *)

Inductive TurnLifecycle : Set :=
  | NoLifecycle
  | TurnAccepted
  | TurnTerminalSuccess
  | TurnTerminalFailure
  | TurnInterrupted
  | TurnIndeterminate.

#[export] Instance TurnLifecycle_eq_dec : EqDecision TurnLifecycle.
Proof. solve_decision. Defined.

Record ActiveTurnBinding : Type := mkBinding {
  Generation : Z;
  ClientMsgID : string;
  NativeRequestID : string
}.

#[export] Instance ActiveTurnBinding_eq_dec : EqDecision ActiveTurnBinding.
Proof. solve_decision. Defined.

(** The fields of [ControlEvent] the turn logic reads or writes. *)
Record ControlEvent : Type := mkEvent {
  evSessionID : string;
  evClass : string;
  evGeneration : Z;
  evClientMsgID : string;
  evNativeRequestID : string;
  evLifecycle : TurnLifecycle;
  evClearActiveTurn : bool
}.

#[export] Instance ControlEvent_eq_dec : EqDecision ControlEvent.
Proof. solve_decision. Defined.

(** ** [activeTurnRegistry] *)

Record activeTurnState : Type := mkTurn {
  binding : ActiveTurnBinding;
  accepted : bool;
  indeterminate : bool;
  nativeComplete : bool;
  pendingTerminal : option ControlEvent
}.

Abbreviation activeTurnRegistry := (gmap string activeTurnState).

Definition binding_is (st : activeTurnState) (generation : Z) (clientMsgID : string) : bool :=
  ((Generation (binding st) =? generation) && bool_decide (ClientMsgID (binding st) = clientMsgID))%bool.

Definition bind (r : activeTurnRegistry) (sessionID : string) (generation : Z) (clientMsgID : string)
  : bool * activeTurnRegistry :=
  let sessionID := TrimSpace sessionID in
  let clientMsgID := TrimSpace clientMsgID in
  if (is_empty sessionID || (generation =? 0) || is_empty clientMsgID)%bool then (false, r)
  else match r !! sessionID with
       | Some _ => (false, r)
       | None => (true, <[sessionID := mkTurn (mkBinding generation clientMsgID "") false false false None]> r)
       end.

Definition setNativeRequestID (r : activeTurnRegistry) (sessionID : string) (generation : Z)
    (clientMsgID nativeRequestID : string) : bool * activeTurnRegistry :=
  let nativeRequestID := TrimSpace nativeRequestID in
  if is_empty nativeRequestID then (false, r)
  else match r !! sessionID with
       | Some st =>
         if binding_is st generation clientMsgID
         then (true, <[sessionID := mkTurn (mkBinding (Generation (binding st)) (ClientMsgID (binding st)) nativeRequestID)
                        (accepted st) (indeterminate st) (nativeComplete st) (pendingTerminal st)]> r)
         else (false, r)
       | None => (false, r)
       end.

Definition current (r : activeTurnRegistry) (sessionID : string) : option ActiveTurnBinding :=
  binding <$> r !! sessionID.

(** [overlayActiveTurns] on the session ids of a discovery snapshot. *)
Definition overlayActiveTurns (sessions : list string) (r : activeTurnRegistry)
  : list (string * option ActiveTurnBinding) :=
  (fun id => (id, current r id)) <$> sessions.

Definition matches (r : activeTurnRegistry) (sessionID : string) (generation : Z) (clientMsgID : string) : bool :=
  match r !! sessionID with Some st => binding_is st generation clientMsgID | None => false end.

Definition clearMatching (r : activeTurnRegistry) (sessionID : string) (generation : Z)
    (clientMsgID nativeRequestID : string) : bool * activeTurnRegistry :=
  match r !! sessionID with
  | Some st =>
    if negb (binding_is st generation clientMsgID) then (false, r)
    else if (negb (is_empty nativeRequestID) &&
             negb (bool_decide (NativeRequestID (binding st) = nativeRequestID)))%bool then (false, r)
    else (true, delete sessionID r)
  | None => (false, r)
  end.

Definition accept (r : activeTurnRegistry) (sessionID : string) (generation : Z) (clientMsgID : string)
  : (option ControlEvent * bool) * activeTurnRegistry :=
  match r !! sessionID with
  | Some st =>
    if negb (binding_is st generation clientMsgID) then ((None, false), r)
    else
      let pending := pendingTerminal st in
      match nativeComplete st, pending with
      | true, None => ((None, true), delete sessionID r)
      | _, _ =>
        ((pending, false),
         <[sessionID := mkTurn (binding st) true (indeterminate st) (nativeComplete st) None]> r)
      end
  | None => ((None, false), r)
  end.

Definition completeMatching (r : activeTurnRegistry) (sessionID : string) (generation : Z) (clientMsgID : string)
  : bool * activeTurnRegistry :=
  match r !! sessionID with
  | Some st =>
    if negb (binding_is st generation clientMsgID) then (false, r)
    else if (negb (accepted st) && negb (indeterminate st))%bool
    then (false, <[sessionID := mkTurn (binding st) (accepted st) (indeterminate st) true (pendingTerminal st)]> r)
    else (true, delete sessionID r)
  | None => (false, r)
  end.

Definition abandonAcceptance (r : activeTurnRegistry) (sessionID : string) (generation : Z) (clientMsgID : string)
  : bool * activeTurnRegistry :=
  match r !! sessionID with
  | Some st =>
    if negb (binding_is st generation clientMsgID) then (false, r)
    else if nativeComplete st then (true, delete sessionID r)
    else (false, <[sessionID := mkTurn (binding st) (accepted st) true (nativeComplete st) None]> r)
  | None => (false, r)
  end.

(** Whether the identifiers an event carries contradict the binding. *)
Definition attributable (ev : ControlEvent) (b : ActiveTurnBinding) : bool :=
  negb (negb (evGeneration ev =? 0) && negb (evGeneration ev =? Generation b)) &&
  negb (negb (is_empty (evClientMsgID ev)) && negb (bool_decide (evClientMsgID ev = ClientMsgID b))) &&
  negb (negb (is_empty (evNativeRequestID ev)) && negb (bool_decide (evNativeRequestID ev = NativeRequestID b))).

(** The results are the binding, [ready] and [matched]. *)
Definition terminalForEvent (r : activeTurnRegistry) (ev : ControlEvent)
  : (option ActiveTurnBinding * bool * bool) * activeTurnRegistry :=
  match r !! evSessionID ev with
  | None => ((None, false, false), r)
  | Some st =>
    if negb (attributable ev (binding st)) then ((None, false, false), r)
    else if negb (accepted st)
    then ((Some (binding st), false, true),
          <[evSessionID ev := mkTurn (binding st) (accepted st) (indeterminate st) (nativeComplete st) (Some ev)]> r)
    else ((Some (binding st), true, true), r)
  end.

(** The part of [handleControlEvent] (daemon/cmd/daemon/main.go) that decides
    whether a terminal event goes out and with which identifiers: [None] is the
    early return. *)
Definition event_lifecycle (ev : ControlEvent) : TurnLifecycle :=
  match evLifecycle ev with
  | NoLifecycle =>
    if bool_decide (evClass ev = "completed") then TurnTerminalSuccess
    else if bool_decide (evClass ev = "failed") then TurnTerminalFailure
    else if (bool_decide (evClass ev = "interrupted") || bool_decide (evClass ev = "cancelled") ||
             bool_decide (evClass ev = "canceled"))%bool then TurnInterrupted
    else NoLifecycle
  | l => l
  end.

Definition is_terminal (l : TurnLifecycle) : bool :=
  match l with
  | TurnTerminalSuccess | TurnTerminalFailure | TurnInterrupted | TurnIndeterminate => true
  | _ => false
  end.

Definition resolve_control_event (r : activeTurnRegistry) (ev : ControlEvent)
  : option ControlEvent * activeTurnRegistry :=
  let lifecycle := event_lifecycle ev in
  let ev := mkEvent (evSessionID ev) (evClass ev) (evGeneration ev) (evClientMsgID ev) (evNativeRequestID ev)
              lifecycle (evClearActiveTurn ev) in
  if negb (is_terminal lifecycle) then (Some ev, r)
  else match terminalForEvent r ev with
       | ((Some b, true, true), r1) =>
         let native := if is_empty (evNativeRequestID ev) then NativeRequestID b else evNativeRequestID ev in
         let '(cleared, r2) := clearMatching r1 (evSessionID ev) (Generation b) (ClientMsgID b) (NativeRequestID b) in
         (Some (mkEvent (evSessionID ev) (evClass ev) (Generation b) (ClientMsgID b) native lifecycle
                  (if cleared then true else evClearActiveTurn ev)), r2)
       | (_, r1) => (None, r1)
       end.

(** [parseActiveTurnCommand]. Converting a [float64] outside the range of
    [uint64] has an implementation-dependent result: [overflow]. *)
Definition parseActiveTurnCommand (overflow : Z) (p : option payload) : res (Z * string) :=
  match p with
  | None => Err "active turn binding required"
  | Some p =>
    match p !! "generation" with
    | None => Err "active turn generation required"
    | Some raw =>
      generation ← match raw with
        | VFloat m e =>
          if ((m <=? 0) || float_gt m e (2 ^ 64) || negb (float_is_integral m e))%bool
          then Err "active turn generation invalid"
          else Ok (if float_trunc m e <=? max_uint64 then float_trunc m e else overflow)
        | VUint64 n => Ok n
        | VInt n => Ok (if 0 <? n then n else 0)
        | _ => Ok 0
        end;
      let clientMsgID := TrimSpace (string_or_empty (p !! "client_msg_id")) in
      if ((generation =? 0) || is_empty clientMsgID)%bool
      then Err "active turn generation and client_msg_id required"
      else Ok (generation, clientMsgID)
    end
  end.

(** ** [turnTracker] *)

Record turnTerminal : Type := mkTerminal { exitCode : Z; interrupted : bool }.

Record turnBinding : Type := mkTurnBinding {
  generation : Z;
  clientMsgID : string;
  hasOnLifecycle : bool;
  turnAccepted : bool;
  terminal : option turnTerminal
}.

(** What the tracker sends out: a call of the turn's [onLifecycle], or an event
    to the sink. *)
Inductive tracker_output : Type :=
  | OnLifecycle (generation : Z) (l : TurnLifecycle) (reason : string)
  | Sink (ev : ControlEvent).

Record turnTracker : Type := mkTracker {
  hasSink : bool;
  bindings : gmap string turnBinding;
  emitted : list tracker_output
}.

Definition setSink (t : turnTracker) : turnTracker := mkTracker true (bindings t) (emitted t).

Definition with_bindings (t : turnTracker) (b : gmap string turnBinding) : turnTracker :=
  mkTracker (hasSink t) b (emitted t).

Definition begin_turn (t : turnTracker) (sessionID : string) (gen : Z) (cid : string) (onLifecycle : bool)
  : bool * turnTracker :=
  match bindings t !! sessionID with
  | Some _ => (false, t)
  | None => (true, with_bindings t (<[sessionID := mkTurnBinding gen cid onLifecycle false None]> (bindings t)))
  end.

Definition abort (t : turnTracker) (sessionID : string) (gen : Z) : turnTracker :=
  match bindings t !! sessionID with
  | Some b => if generation b =? gen then with_bindings t (delete sessionID (bindings t)) else t
  | None => t
  end.

Definition detachAll (t : turnTracker) : turnTracker := with_bindings t ∅.

Definition send_out (t : turnTracker) (sessionID : string) (b : turnBinding) (gen : Z)
    (l : TurnLifecycle) (class reason : string) : turnTracker :=
  mkTracker (hasSink t) (bindings t)
    (emitted t ++ (if hasOnLifecycle b then [OnLifecycle gen l reason] else [])
               ++ (if hasSink t then [Sink (mkEvent sessionID class gen (clientMsgID b) "" l false)] else [])).

(** [finish]. *)
Definition finish (t : turnTracker) (sessionID : string) (exit : Z) (intr : bool) : turnTracker :=
  match bindings t !! sessionID with
  | None => t
  | Some b =>
    if negb (turnAccepted b)
    then with_bindings t (<[sessionID := mkTurnBinding (generation b) (clientMsgID b) (hasOnLifecycle b)
            (turnAccepted b) (Some (mkTerminal exit intr))]> (bindings t))
    else
      let '(l, class, reason) :=
        if intr then (TurnInterrupted, "interrupted", "native process interrupted")
        else if negb (exit =? 0) then (TurnTerminalFailure, "failed", "native process exited unsuccessfully")
        else (TurnTerminalSuccess, "completed", "") in
      send_out (with_bindings t (delete sessionID (bindings t))) sessionID b (generation b) l class reason
  end.

(** [emit]. *)
Definition emit (t : turnTracker) (sessionID : string) (gen : Z) (l : TurnLifecycle) (class reason : string)
  : turnTracker :=
  match bindings t !! sessionID with
  | Some b => if generation b =? gen then send_out t sessionID b gen l class reason else t
  | None => t
  end.

(** The first critical section of [accepted]: [None] is its early return. *)
Definition accepted_mark (t : turnTracker) (sessionID : string) (gen : Z) : option (option turnTerminal) * turnTracker :=
  match bindings t !! sessionID with
  | Some b =>
    if generation b =? gen
    then (Some (terminal b),
          with_bindings t (<[sessionID := mkTurnBinding (generation b) (clientMsgID b) (hasOnLifecycle b) true None]> (bindings t)))
    else (None, t)
  | None => (None, t)
  end.

(** [accepted] without interference. *)
Definition accepted_turn (t : turnTracker) (sessionID : string) (gen : Z) : turnTracker :=
  match accepted_mark t sessionID gen with
  | (None, t) => t
  | (Some pending, t) =>
    let t := emit t sessionID gen TurnAccepted "accepted" "" in
    match pending with
    | Some p => finish t sessionID (exitCode p) (interrupted p)
    | None => t
    end
  end.

(** ** [promptAcceptanceCache] *)

Definition maxAcceptedPromptIDs : Z := 4096.
Definition maxAcceptedPromptEchoBytes : Z := 4096.

Record promptAcceptanceCache : Type := mkCache {
  cacheMax : Z;
  entries : gmap string string;
  order : list string;
  cacheNext : nat
}.

Definition newPromptAcceptanceCache (max : Z) : promptAcceptanceCache :=
  mkCache (if max <=? 0 then maxAcceptedPromptIDs else max) ∅ [] 0.

Definition promptCacheKey (sessionID clientMsgID : string) : string :=
  sha256 (sessionID +:+ of_codes [0] +:+ clientMsgID).

Definition boundedPromptEcho (prompt : string) : string :=
  if len prompt <=? maxAcceptedPromptEchoBytes then prompt
  else take_bytes (utf8_cut (Z.to_nat (maxAcceptedPromptEchoBytes - 3)) prompt) prompt +:+ "...".

Definition cache_get (c : promptAcceptanceCache) (sessionID clientMsgID : string) : option string :=
  if is_empty clientMsgID then None else entries c !! promptCacheKey sessionID clientMsgID.

Definition cache_add (c : promptAcceptanceCache) (sessionID clientMsgID prompt : string) : promptAcceptanceCache :=
  if is_empty clientMsgID then c
  else
    let key := promptCacheKey sessionID clientMsgID in
    match entries c !! key with
    | Some _ => c
    | None =>
      let prompt := boundedPromptEcho prompt in
      if Z.of_nat (List.length (order c)) <? cacheMax c
      then mkCache (cacheMax c) (<[key := prompt]> (entries c)) (order c ++ [key]) (cacheNext c)
      else
        let oldest := nth (cacheNext c) (order c) "" in
        mkCache (cacheMax c) (<[key := prompt]> (delete oldest (entries c)))
          (<[cacheNext c := key]> (order c)) (Z.to_nat (Z.of_nat (S (cacheNext c)) mod cacheMax c))
    end.

Definition promptStatus (c : promptAcceptanceCache) (sessionID clientMsgID : string) : res string :=
  if is_empty clientMsgID then Err "client_msg_id required"
  else match cache_get c sessionID clientMsgID with
       | Some prompt => Ok prompt
       | None => Err "prompt outcome is indeterminate; ordinary retry is disabled to prevent duplicate execution; inspect the agent session before any manual retry"
       end.

(** ** [sessionLockMap]

    The reference counts; who holds the lock of a session is the thread whose
    [lock] returned. *)

Abbreviation sessionLockMap := (gmap string Z).

Definition lock_enter (m : sessionLockMap) (sessionID : string) : sessionLockMap :=
  <[sessionID := default 0 (m !! sessionID) + 1]> m.

Definition lock_release (m : sessionLockMap) (sessionID : string) : sessionLockMap :=
  match m !! sessionID with
  | Some refs => if refs - 1 =? 0 then delete sessionID m else <[sessionID := refs - 1]> m
  | None => m
  end.
