(* ===== verification/Daemon.v ===== *)
(** * The daemon's command handlers (daemon/cmd/daemon/main.go)

    How a prompt gets from the relay to an agent: the handlers of the prompt
    commands, the dispatcher of the durable queue, the call into the adapter and
    its return, and the agent's control events. They work on the prompt queue,
    the prompt journal, the acceptance cache and the registry of active turns.

    A handler is a function from the daemon's state to what it does to the
    outside ([out], in order) and the state it leaves. The handlers that call
    [SendPrompt] are split at the call, because control events and other
    sessions go on while it runs; the session lock ([sessionSends]) is the map
    of calls in flight. The adapters' answers, system-call failures and the
    clock are arguments. *)

From stdpp Require Import base tactics list gmap strings.
From Stdlib Require Import Ascii String ZArith Lia.
From S2P Require Import Prelude GoStrings Json StartThread DaemonWire.
From S2P Require PromptQueue PromptJournal ActiveTurn.

#[local] Existing Instance ActiveTurn.TurnLifecycle_eq_dec.
#[local] Existing Instance PromptQueue.promptQueueStatus_eq_dec.

Abbreviation promptQueueItem := PromptQueue.promptQueueItem.
Abbreviation ControlEvent := ActiveTurn.ControlEvent.

(** ** Adapters as the handlers see them *)

Record adapter_view : Type := mkAdapter {
  adName : string;
  OwnsSession : string -> bool;
  isCodex : bool;
  AppServerHealthy : bool;
  HasActiveTurn : string -> bool;
  isAcker : bool
}.

(** [pickAdapterForSession]: [match] is the adapter found so far. *)
Fixpoint pick_loop (sessionID : string) (found : option adapter_view) (list : list adapter_view)
  : option adapter_view :=
  match list with
  | [] => found
  | adapter :: rest =>
    if negb (OwnsSession adapter sessionID) then pick_loop sessionID found rest
    else match found with
         | Some _ => None
         | None => pick_loop sessionID (Some adapter) rest
         end
  end.

Definition pickAdapterForSession (sessionID : string) (list : list adapter_view) : option adapter_view :=
  pick_loop sessionID None list.

(** [fetchHistoryForSession]: [read] is [FetchHistory] with a nil slice made
    empty. The result is the history with its source, or the first error. *)
Section History.
Context {H : Type} (read : adapter_view -> res H).

Definition fetchHistoryForSession (sessionID : string) (preferred : option adapter_view) (list : list adapter_view)
  : option (H * string) * option string :=
  let try_owner (firstErr : option string) :=
    match pickAdapterForSession sessionID list with
    | None => (None, firstErr)
    | Some owner =>
      if match preferred with Some p => String.eqb (adName owner) (adName p) | None => false end
      then (None, firstErr)
      else match read owner with
           | Ok h => (Some (h, adName owner), None)
           | Err e => (None, Some (default e firstErr))
           end
    end in
  match preferred with
  | None => try_owner None
  | Some p =>
    match read p with
    | Ok h => (Some (h, adName p), None)
    | Err e => try_owner (Some e)
    end
  end.
End History.

(** What [SendPrompt] answers. The first two errors are the ones known not to
    have crossed into the agent. *)
Inductive send_answer : Type :=
  | SendOk
  | SendBusy (msg : string)
  | SendNotStarted (msg : string)
  | SendBoundaryIndeterminate (msg : string)
  | SendError (msg : string).

Definition answer_text (a : send_answer) : string :=
  match a with
  | SendOk => ""
  | SendBusy m | SendNotStarted m | SendBoundaryIndeterminate m | SendError m => m
  end.

(** [sessionStatusBlocksQueueDispatch], [sessionStatusWakesQueueDispatch]; [None]
    is a session that discovery has not reported. *)
Definition sessionStatusBlocksQueueDispatch (status : option string) : bool :=
  match status with
  | Some st => (String.eqb st "running" || String.eqb st "waiting_approval" || String.eqb st "waiting_user")%bool
  | None => false
  end.

Definition sessionStatusWakesQueueDispatch (status : option string) : bool :=
  match status with Some st => String.eqb st "idle" | None => false end.

(** ** What a handler does to the outside *)

Inductive out : Type :=
  | PromptAccepted (sessionID clientMsgID echo : string)
  | PromptFailure (sessionID clientMsgID message outcome : string) (retryAllowed : bool)
  | PromptQueued (sessionID clientMsgID : string) (position : Z)
  | PromptCancelled (sessionID clientMsgID : string)
  | PromptNotSeen (sessionID clientMsgID : string)
  | QueueUpdate (sessionID : string) (paused : bool) (items : list (string * Z * string))
  | TurnRunning (sessionID : string) (b : ActiveTurn.ActiveTurnBinding)
  | TurnCleared (sessionID : string)
  | ControlOut (ev : ControlEvent)
  | DaemonError (sessionID message : string)
  | GoDispatch (sessionID : string)
  | ForceDiscover
  | RemoveDir (dir : string)
  | NativeCall (sessionID clientMsgID prompt mode : string) (generation : Z)
  | NativeReturn (sessionID clientMsgID : string) (answer : send_answer)
  | NativeInterrupt (sessionID : string)
  | AcknowledgePrompt (sessionID : string) (generation : Z)
  | AbandonPrompt (sessionID : string) (generation : Z)
  | JournalEvicted (key : string).

Definition PromptFailed (sessionID clientMsgID message : string) : out :=
  PromptFailure sessionID clientMsgID message "rejected" true.
Definition PromptIndeterminate (sessionID clientMsgID message : string) : out :=
  PromptFailure sessionID clientMsgID message "indeterminate" false.

Definition remove_dir (dir : string) : list out := if is_empty dir then [] else [RemoveDir dir].

(** A call of [SendPrompt] in flight. *)
Inductive call_kind : Type :=
  | DirectCall
  | QueuedCall.

Record native_call : Type := mkCall {
  ncSession : string;
  ncClient : string;
  ncGeneration : Z;
  ncKind : call_kind;
  ncEcho : string;
  ncDir : string;
  ncAcker : bool
}.

(** A prompt that [dispatchQueued] has claimed, with the lock released while
    its attachments are fetched. *)
Record claim : Type := mkClaim {
  clItem : promptQueueItem;
  clTarget : adapter_view;
  clPayload : res (string * list Ref * string)
}.

(** What [attach.Materialize] returned: directory and suffix, or an error. *)
Definition fetched : Type := res (string * string).

Section Daemon.
Context `{MO : MapOrder} `{QC : !Codec PromptQueue.promptQueueDisk} `{JC : !Codec PromptJournal.promptJournalDisk}.

(** [encoding/json] on a payload member, and the opening of a saved sealed
    envelope ([queuedPromptPayload] of main.go: decode, [openSealedPrompt]). *)
Context (json_marshal : value -> res string) (json_unmarshal : string -> res value).
Context (open_saved : string -> string -> res payload).

Record daemon : Type := mkDaemon {
  durableQueue : option PromptQueue.promptQueue;
  commandJournal : PromptJournal.promptJournal;
  acceptedPrompts : ActiveTurn.promptAcceptanceCache;
  activeTurns : ActiveTurn.activeTurnRegistry;
  turnGenerations : Z
}.

Definition with_queue (d : daemon) (q : PromptQueue.promptQueue) : daemon :=
  mkDaemon (Some q) (commandJournal d) (acceptedPrompts d) (activeTurns d) (turnGenerations d).
Definition with_journal (d : daemon) (j : PromptJournal.promptJournal) : daemon :=
  mkDaemon (durableQueue d) j (acceptedPrompts d) (activeTurns d) (turnGenerations d).
Definition with_cache (d : daemon) (c : ActiveTurn.promptAcceptanceCache) : daemon :=
  mkDaemon (durableQueue d) (commandJournal d) c (activeTurns d) (turnGenerations d).
Definition with_turns (d : daemon) (r : ActiveTurn.activeTurnRegistry) : daemon :=
  mkDaemon (durableQueue d) (commandJournal d) (acceptedPrompts d) r (turnGenerations d).

(** [turnGenerations.Add(1)]. *)
Definition next_generation (d : daemon) : Z * daemon :=
  let g := u64_add (turnGenerations d) 1 in
  (g, mkDaemon (durableQueue d) (commandJournal d) (acceptedPrompts d) (activeTurns d) g).

Definition journal_op (f : io) (op : M PromptJournal.promptJournal unit) (d : daemon) : res unit * daemon :=
  let '(r, j) := op (commandJournal d) in (r, with_journal d j).

(** [sendQueueUpdate]. *)
Definition queue_update (q : PromptQueue.promptQueue) (sessionID : string) : out :=
  let live := List.filter (fun it => negb (PromptQueue.isPromptQueueTerminal (PromptQueue.Status it)))
                (PromptQueue.list_items q sessionID) in
  QueueUpdate sessionID (existsb (fun it => PromptQueue.isPromptQueueBlocked (PromptQueue.Status it)) live)
    ((fun it => (PromptQueue.ClientMsgID it, PromptQueue.position q sessionID (PromptQueue.ClientMsgID it),
                 PromptQueue.status_text (PromptQueue.Status it))) <$> live).

(** ** Control events ([handleControlEvent]) *)

(** What happens to the running item of the queue on an event. *)
Definition settle_running (f : io) (lifecycle : ActiveTurn.TurnLifecycle) (sessionID clientMsgID : string)
    (q : PromptQueue.promptQueue) : PromptQueue.promptQueue :=
  match lifecycle with
  | ActiveTurn.TurnTerminalSuccess => (PromptQueue.complete f sessionID clientMsgID q).2
  | ActiveTurn.TurnTerminalFailure =>
    (PromptQueue.block f sessionID clientMsgID PromptQueue.promptQueueBlockedFailed q).2
  | ActiveTurn.TurnInterrupted =>
    (PromptQueue.block f sessionID clientMsgID PromptQueue.promptQueueBlockedInterrupted q).2
  | ActiveTurn.TurnIndeterminate =>
    (PromptQueue.block f sessionID clientMsgID PromptQueue.promptQueueBlockedIndeterminate q).2
  | _ => q
  end.

(** [update]: the event carries a status, an approval, capabilities or an
    active turn; [notify]: it has an event id. *)
Definition handleControlEvent (f : io) (ev : ControlEvent) (update notify : bool) (d : daemon) : list out * daemon :=
  match ActiveTurn.resolve_control_event (activeTurns d) ev with
  | (None, r) => ([], with_turns d r)
  | (Some ev, r) =>
    let d := with_turns d r in
    let sessionID := ActiveTurn.evSessionID ev in
    let planned :=
      (update || ActiveTurn.evClearActiveTurn ev || (notify && negb (is_empty (ActiveTurn.evClass ev))))%bool in
    let sent := if (planned && negb (is_empty sessionID))%bool then [ControlOut ev] else [] in
    match durableQueue d with
    | Some q =>
      if is_empty sessionID then (sent ++ [ForceDiscover], d)
      else match PromptQueue.running q sessionID with
           | Some running =>
             let c := ActiveTurn.evClientMsgID ev in
             if (is_empty c || String.eqb c (PromptQueue.ClientMsgID running))%bool then
               let q' := settle_running f (ActiveTurn.evLifecycle ev) sessionID (PromptQueue.ClientMsgID running) q in
               (sent ++ [queue_update q' sessionID] ++
                (if bool_decide (ActiveTurn.evLifecycle ev = ActiveTurn.TurnTerminalSuccess)
                 then [GoDispatch sessionID] else []) ++ [ForceDiscover],
                with_queue d q')
             else (sent ++ [ForceDiscover], d)
           | None => (sent ++ [ForceDiscover], d)
           end
    | None => (sent ++ [ForceDiscover], d)
    end
  end.

(** A terminal event that waited for the acceptance; the flags are the ones it
    was received with. *)
Definition pending_event (f : io) (flags : bool * bool) (ev : option ControlEvent) (d : daemon) : list out * daemon :=
  match ev with Some ev => handleControlEvent f ev flags.1 flags.2 d | None => ([], d) end.

(** ** The journal around a native call *)

(** The record [markDispatching] writes the journal without, when it is full. *)
Definition eviction (j : PromptJournal.promptJournal) (sessionID clientMsgID : string) : list out :=
  let key := PromptJournal.promptJournalKeyFromHash (PromptJournal.jdeviceHash j) sessionID clientMsgID in
  match PromptJournal.validateJournalIdentifiers sessionID clientMsgID, PromptJournal.records j !! key with
  | Ok _, None =>
    if PromptJournal.max j <=? Z.of_nat (size (PromptJournal.records j)) then
      match PromptJournal.oldest_committed (range_values (PromptJournal.records j)) None with
      | Some o => [JournalEvicted (PromptJournal.Key o)]
      | None => []
      end
    else []
  | _, _ => []
  end.

Definition mark_dispatching (f : io) (now : Z) (sessionID clientMsgID prompt : string) (d : daemon)
  : res unit * list out * daemon :=
  let '(r, d') := journal_op f (PromptJournal.markDispatching f now sessionID clientMsgID prompt) d in
  (r, eviction (commandJournal d) sessionID clientMsgID, d').

(** ** [send_prompt] *)

Definition default_reply (st : PromptJournal.promptJournalStatus) : bool :=
  match st with PromptJournal.promptJournalAccepted | PromptJournal.promptJournalCommitted => true | _ => false end.

(** The answer for a prompt the journal knows. *)
Definition recorded_reply (d : daemon) (sessionID clientMsgID : string) (r : PromptJournal.promptJournalRecord) : out :=
  if default_reply (PromptJournal.Status r)
  then PromptAccepted sessionID clientMsgID
         (default (PromptJournal.PromptEcho r) (ActiveTurn.cache_get (acceptedPrompts d) sessionID clientMsgID))
  else PromptIndeterminate sessionID clientMsgID PromptJournal.promptOutcomeIndeterminate.

(** The answer for a prompt the queue knows. *)
Definition queued_reply (q : PromptQueue.promptQueue) (sessionID clientMsgID : string) (it : promptQueueItem) : list out :=
  if bool_decide (PromptQueue.Status it = PromptQueue.promptQueueCancelled)
  then [PromptCancelled sessionID clientMsgID]
  else [PromptQueued sessionID clientMsgID (PromptQueue.position q sessionID clientMsgID); queue_update q sessionID].

(** What the daemon already knows about a prompt: the early returns of
    [send_prompt]. *)
Definition known_prompt (d : daemon) (sessionID clientMsgID : string) : option (list out) :=
  match PromptJournal.state (commandJournal d) sessionID clientMsgID with
  | Some r => Some [recorded_reply d sessionID clientMsgID r]
  | None =>
    match ActiveTurn.cache_get (acceptedPrompts d) sessionID clientMsgID with
    | Some echo => Some [PromptAccepted sessionID clientMsgID echo]
    | None =>
      match durableQueue d with
      | Some q => queued_reply q sessionID clientMsgID <$> PromptQueue.item q sessionID clientMsgID
      | None => None
      end
    end
  end.

(** The part of the handler that depends on the command only. *)
Record prompt_command : Type := mkPrompt {
  pcPrompt : string;
  pcOriginal : string;
  pcMode : string;
  pcRefs : list Ref;
  pcAttachments : option value
}.

Definition parse_prompt (p : payload) : res prompt_command :=
  let original := payload_string p "prompt" in
  mode ← normalizeCollaborationMode (p !! "collaboration_mode");
  let prompt := stripNekoAttachSuffix original in
  let refs := parseAttachmentRefs (p !! "attachments") in
  _ ← fail_if (maxPromptAttachments <? Z.of_nat (List.length refs)) "too many attachments (limit 5)";
  _ ← fail_if (is_empty prompt && bool_decide (refs = [])) "empty prompt";
  Ok (mkPrompt prompt original mode refs (p !! "attachments")).

Definition prompt_client_id (p : payload) : string :=
  let id := payload_string p "client_msg_id" in
  if is_empty id then payload_string p "message_id" else id.

(** The item [send_prompt] puts in the queue; [sealedWire] is the frame of a
    sealed command. *)
Definition queue_item (sessionID clientMsgID agent : string) (c : prompt_command) (sealedWire : string)
  : promptQueueItem :=
  let attachments :=
    match json_marshal (default VNil (pcAttachments c)) with
    | Ok raw => if String.eqb raw "null" then "" else raw
    | Err _ => ""
    end in
  if is_empty sealedWire
  then PromptQueue.mkItem sessionID clientMsgID agent (pcOriginal c) attachments "" (pcMode c) 0 0
         (PromptQueue.OtherStatus "")
  else PromptQueue.mkItem sessionID clientMsgID agent "" "" sealedWire (pcMode c) 0 0 (PromptQueue.OtherStatus "").

Definition enqueue_prompt (f : io) (now : Z) (it : promptQueueItem) (q : PromptQueue.promptQueue) (d : daemon)
  : list out * daemon :=
  let sessionID := PromptQueue.SessionID it in
  match PromptQueue.enqueue f now it q with
  | (Err e, q') => ([PromptFailed sessionID (PromptQueue.ClientMsgID it) ("prompt could not be durably queued: " +:+ e)],
                    with_queue d q')
  | (Ok (stored, _), q') =>
    ([PromptQueued sessionID (PromptQueue.ClientMsgID it)
        (PromptQueue.position q' sessionID (PromptQueue.ClientMsgID stored));
      queue_update q' sessionID; GoDispatch sessionID], with_queue d q')
  end.

(** The result of a handler: it is done, or it is inside [SendPrompt]. *)
Inductive progress : Type :=
  | Finished
  | InFlight (c : native_call).

(** The direct dispatch: materialised attachments, the journal, the turn. *)
Definition dispatch_direct (f1 f2 : io) (now : Z) (sessionID clientMsgID : string) (target : adapter_view)
    (c : prompt_command) (att : fetched) (d : daemon) : list out * progress * daemon :=
  match (match pcRefs c with [] => Ok ("", "") | _ => att end) with
  | Err e => ([PromptFailed sessionID clientMsgID ("attachment download failed: " +:+ e)], Finished, d)
  | Ok (dir, suffix) =>
    let prompt :=
      match pcRefs c with
      | [] => pcPrompt c
      | _ => (if is_empty (pcPrompt c) then "(user sent attachments)" else pcPrompt c) +:+ suffix
      end in
    let '(r, evicted, d1) := mark_dispatching f1 now sessionID clientMsgID (pcOriginal c) d in
    match r with
    | Err e =>
      (evicted ++ [PromptFailed sessionID clientMsgID
         ("prompt was not executed because its durable dispatch record could not be written: " +:+ e)] ++ remove_dir dir,
       Finished, d1)
    | Ok _ =>
      let '(g, d2) := next_generation d1 in
      let '(bound, turns) := ActiveTurn.bind (activeTurns d2) sessionID g clientMsgID in
      let d3 := with_turns d2 turns in
      if negb bound then
        let '(rb, d4) := journal_op f2 (PromptJournal.rollbackDispatching f2 sessionID clientMsgID) d3 in
        (evicted ++
         [match rb with
          | Err _ => PromptIndeterminate sessionID clientMsgID
                       (PromptJournal.promptOutcomeIndeterminate +:+ "; active turn conflict")
          | Ok _ => PromptFailed sessionID clientMsgID "this session already has a controllable turn"
          end] ++ remove_dir dir, Finished, d4)
      else
        (evicted ++ [NativeCall sessionID clientMsgID prompt (pcMode c) g],
         InFlight (mkCall sessionID clientMsgID g DirectCall (pcOriginal c) dir (isAcker target)), d3)
    end
  end.

(** The environment of a handler: the adapter of the cached session, and all of
    them. *)
Record adapters_env : Type := mkAdapters {
  targetAdapter : option adapter_view;
  adapterList : list adapter_view
}.

Definition send_prompt (f1 f2 : io) (now : Z) (env : adapters_env) (att : fetched) (sessionID : string) (p : payload)
    (sealedWire : string) (d : daemon) : list out * progress * daemon :=
  let clientMsgID := prompt_client_id p in
  if is_empty clientMsgID
  then ([PromptFailed sessionID "" "client_msg_id required for safe dispatch"], Finished, d)
  else
    match known_prompt d sessionID clientMsgID with
    | Some reply => (reply, Finished, d)
    | None =>
      match parse_prompt p with
      | Err e => ([PromptFailed sessionID clientMsgID e], Finished, d)
      | Ok c =>
        match (match targetAdapter env with
               | Some a => Some a
               | None => pickAdapterForSession sessionID (adapterList env)
               end) with
        | None => ([PromptFailed sessionID clientMsgID "session not found on this PC"], Finished, d)
        | Some target =>
          match (if (isCodex target && negb (AppServerHealthy target))%bool then None else durableQueue d) with
          | Some q =>
            let '(outs, d') := enqueue_prompt f1 now (queue_item sessionID clientMsgID (adName target) c sealedWire) q d in
            (outs, Finished, d')
          | None => dispatch_direct f1 f2 now sessionID clientMsgID target c att d
          end
        end
      end
    end.

(** ** The return of a native call *)

(** The tail shared by both callers once the agent has taken the prompt: the
    turn is announced, the journal records the acceptance, a terminal event that
    came early is replayed. *)
Definition current_turn (d : daemon) (sessionID : string) : list out :=
  match ActiveTurn.current (activeTurns d) sessionID with
  | Some b => [TurnRunning sessionID b]
  | None => []
  end.

Definition cleared (b : bool) (sessionID : string) : list out := if b then [TurnCleared sessionID] else [].

Definition accept_turn (f : io) (flags : bool * bool) (c : native_call) (d : daemon) : list out * daemon :=
  let '((pending, completed), turns) :=
    ActiveTurn.accept (activeTurns d) (ncSession c) (ncGeneration c) (ncClient c) in
  let '(outs, d') := pending_event f flags pending (with_turns d turns) in
  (cleared completed (ncSession c) ++ outs, d').

Definition abandon_turn (c : native_call) (d : daemon) : list out * daemon :=
  let '(done, turns) := ActiveTurn.abandonAcceptance (activeTurns d) (ncSession c) (ncGeneration c) (ncClient c) in
  (cleared done (ncSession c), with_turns d turns).

Definition clear_turn (c : native_call) (d : daemon) : daemon :=
  with_turns d (ActiveTurn.clearMatching (activeTurns d) (ncSession c) (ncGeneration c) (ncClient c) "").2.

(** The direct call. *)
Definition return_direct (f1 f2 : io) (now : Z) (flags : bool * bool) (c : native_call) (a : send_answer)
    (d : daemon) : list out * daemon :=
  let s := ncSession c in
  let m := ncClient c in
  match a with
  | SendOk =>
    let running := current_turn d s in
    let '(r, d1) := journal_op f1 (PromptJournal.markAccepted f1 now s m) d in
    match r with
    | Err _ =>
      let '(outs, d2) := abandon_turn c d1 in
      (running ++ outs ++ [PromptIndeterminate s m
         (PromptJournal.promptOutcomeIndeterminate +:+ "; acceptance journal update failed")], d2)
    | Ok _ =>
      let '(outs, d2) := accept_turn f2 flags c d1 in
      let echo := ActiveTurn.boundedPromptEcho (ncEcho c) in
      (running ++ outs ++ [PromptAccepted s m echo],
       with_cache d2 (ActiveTurn.cache_add (acceptedPrompts d2) s m echo))
    end
  | _ =>
    let d := clear_turn c d in
    let files := match a with SendBoundaryIndeterminate _ => [] | _ => remove_dir (ncDir c) end in
    let fallback (d : daemon) :=
      let '(_, d') := journal_op f2 (PromptJournal.markIndeterminate f2 now s m) d in
      ([PromptIndeterminate s m (PromptJournal.promptOutcomeIndeterminate +:+ "; agent returned: " +:+ answer_text a)]
         ++ files, d') in
    match a with
    | SendBusy _ =>
      let '(r, d1) := journal_op f1 (PromptJournal.rollbackDispatching f1 s m) d in
      match r with
      | Ok _ => ([PromptFailed s m "this session is still running; wait for the current turn to finish, then retry"]
                   ++ files, d1)
      | Err _ => fallback d1
      end
    | SendNotStarted msg =>
      let '(r, d1) := journal_op f1 (PromptJournal.rollbackDispatching f1 s m) d in
      match r with
      | Ok _ => ([PromptFailed s m msg] ++ files, d1)
      | Err _ => fallback d1
      end
    | _ => fallback d
    end
  end.

(** ** The queue's dispatcher ([dispatchQueued], [dispatchQueuedPrompt]) *)

Definition queuedPromptPayloadFromMap (p : payload) : res (string * list Ref * string) :=
  mode ← normalizeCollaborationMode (p !! "collaboration_mode");
  let prompt := payload_string p "prompt" in
  let refs := parseAttachmentRefs (p !! "attachments") in
  _ ← fail_if (maxPromptAttachments <? Z.of_nat (List.length refs)) "too many attachments (limit 5)";
  _ ← fail_if (is_empty prompt && bool_decide (refs = [])) "saved prompt is empty";
  Ok (stripNekoAttachSuffix prompt, refs, mode).

Definition queuedPromptPayload (sessionID : string) (it : promptQueueItem) : res (string * list Ref * string) :=
  if negb (is_empty (PromptQueue.SealedEnvelope it)) then
    p ← open_saved sessionID (PromptQueue.SealedEnvelope it);
    queuedPromptPayloadFromMap p
  else
    raw ← (if is_empty (PromptQueue.Attachments it) then Ok None
           else match json_unmarshal (PromptQueue.Attachments it) with
                | Ok v => Ok (Some v)
                | Err _ => Err "saved prompt attachments are invalid"
                end);
    let refs := parseAttachmentRefs raw in
    _ ← fail_if (maxPromptAttachments <? Z.of_nat (List.length refs)) "too many attachments (limit 5)";
    Ok (stripNekoAttachSuffix (PromptQueue.Prompt it), refs, PromptQueue.CollaborationMode it).

(** A change of the queue that ignores its error, with the update that follows. *)
Definition queue_change (op : M PromptQueue.promptQueue unit) (sessionID : string) (d : daemon) : list out * daemon :=
  match durableQueue d with
  | Some q => let q' := (op q).2 in ([queue_update q' sessionID], with_queue d q')
  | None => ([], d)
  end.

(** The first critical section: claim the next prompt of the session. [status]
    is what discovery last reported. *)
Definition dispatch_claim (f1 f2 : io) (status : option string) (adapters : list adapter_view) (sessionID : string)
    (d : daemon) : list out * option claim * daemon :=
  match durableQueue d with
  | None => ([], None, d)
  | Some q =>
    if sessionStatusBlocksQueueDispatch status then ([], None, d)
    else
      match pickAdapterForSession sessionID adapters with
      | None => ([], None, d)
      | Some target =>
        if (isCodex target && (negb (AppServerHealthy target) || HasActiveTurn target sessionID))%bool
        then ([], None, d)
        else
          match PromptQueue.claimNext f1 sessionID q with
          | (Err _, q') | (Ok None, q') => ([], None, with_queue d q')
          | (Ok (Some it), q') =>
            let d1 := with_queue d q' in
            if negb (String.eqb (adName target) (PromptQueue.AgentType it)) then
              let '(outs, d2) := queue_change (PromptQueue.block f2 sessionID (PromptQueue.ClientMsgID it)
                                                 PromptQueue.promptQueueBlockedIndeterminate) sessionID d1 in
              (queue_update q' sessionID :: outs, None, d2)
            else
              ([queue_update q' sessionID], Some (mkClaim it target (queuedPromptPayload sessionID it)), d1)
          end
      end
  end.

(** The end of [dispatchQueued] after an error: whether the native boundary was
    crossed, and the error. *)
Inductive dispatch_error : Type :=
  | BusyError (msg : string)
  | NotStartedError (msg : string)
  | OtherDispatchError (msg : string).

Definition dispatch_error_text (e : dispatch_error) : string :=
  match e with BusyError m | NotStartedError m | OtherDispatchError m => m end.

Definition dispatch_failed (f : io) (sessionID clientMsgID dir : string) (crossed : bool) (e : dispatch_error)
    (d : daemon) : list out * daemon :=
  let removed := if crossed then [] else remove_dir dir in
  match e with
  | BusyError _ =>
    let '(outs, d') := queue_change (PromptQueue.releaseClaim f sessionID clientMsgID) sessionID d in
    (removed ++ outs, d')
  | NotStartedError msg =>
    let '(outs, d') := queue_change (PromptQueue.block f sessionID clientMsgID PromptQueue.promptQueueBlockedFailed)
                         sessionID d in
    (removed ++ outs ++ [PromptFailed sessionID clientMsgID msg], d')
  | OtherDispatchError msg =>
    let '(outs, d') := queue_change (PromptQueue.block f sessionID clientMsgID
                                       PromptQueue.promptQueueBlockedIndeterminate) sessionID d in
    (removed ++ outs ++ [PromptIndeterminate sessionID clientMsgID
       ("queued prompt became indeterminate before a safe native acceptance: " +:+ msg)], d')
  end.

(** The second critical section up to the native call. [att] is the result of
    the download done in between. *)
Definition dispatch_start (f1 f2 f3 : io) (now : Z) (cl : claim) (att : fetched) (d : daemon)
  : list out * progress * daemon :=
  let it := clItem cl in
  let s := PromptQueue.SessionID it in
  let m := PromptQueue.ClientMsgID it in
  let fail outs dir crossed e d :=
    let '(outs', d') := dispatch_failed f3 s m dir crossed e d in (outs ++ outs', Finished, d') in
  match clPayload cl with
  | Err e => fail [] "" false (OtherDispatchError e) d
  | Ok (prompt, refs, mode) =>
    match (match refs with [] => Ok ("", "") | _ => att end) with
    | Err e => fail [] "" false (OtherDispatchError e) d
    | Ok (dir, suffix) =>
      let prompt :=
        match refs with
        | [] => prompt
        | _ => (if is_empty prompt then "(user sent attachments)" else prompt) +:+ suffix
        end in
      let '(g, d0) := next_generation d in
      let '(r, evicted, d1) := mark_dispatching f1 now s m (PromptQueue.Prompt it) d0 in
      match r with
      | Err e => fail (evicted ++ remove_dir dir) dir false (OtherDispatchError ("persist queued dispatch: " +:+ e)) d1
      | Ok _ =>
        let '(bound, turns) := ActiveTurn.bind (activeTurns d1) s g m in
        let d2 := with_turns d1 turns in
        if negb bound then
          let '(rb, d3) := journal_op f2 (PromptJournal.rollbackDispatching f2 s m) d2 in
          fail (evicted ++ remove_dir dir) dir false
            (match rb with
             | Err e => OtherDispatchError ("active turn conflict and journal rollback failed: " +:+ e)
             | Ok _ => BusyError "agent session is already running"
             end) d3
        else
          (evicted ++ [NativeCall s m prompt mode g],
           InFlight (mkCall s m g QueuedCall (PromptQueue.Prompt it) dir (isAcker (clTarget cl))), d2)
      end
    end
  end.

(** The queued call. *)
Definition return_queued (f1 f2 f3 : io) (now : Z) (flags : bool * bool) (c : native_call) (a : send_answer) (d : daemon)
  : list out * daemon :=
  let s := ncSession c in
  let m := ncClient c in
  let fail outs crossed e d :=
    let '(outs', d') := dispatch_failed f3 s m (ncDir c) crossed e d in (outs ++ outs', d') in
  match a with
  | SendOk =>
    let running := current_turn d s in
    let '(r, d1) := journal_op f1 (PromptJournal.markAccepted f1 now s m) d in
    match r with
    | Err e =>
      let '(outs, d2) := abandon_turn c d1 in
      fail (running ++ (if ncAcker c then [AbandonPrompt s (ncGeneration c)] else []) ++ outs) true
        (OtherDispatchError ("persist queued acceptance: " +:+ e)) d2
    | Ok _ =>
      let '(outs, d2) := accept_turn f2 flags c d1 in
      let echo := ActiveTurn.boundedPromptEcho (ncEcho c) in
      (running ++ outs ++ (if ncAcker c then [AcknowledgePrompt s (ncGeneration c)] else []) ++
         [PromptAccepted s m echo],
       with_cache d2 (ActiveTurn.cache_add (acceptedPrompts d2) s m echo))
    end
  | SendBusy msg =>
    let '(r, d1) := journal_op f1 (PromptJournal.rollbackDispatching f1 s m) (clear_turn c d) in
    fail (remove_dir (ncDir c)) false
      (match r with Err e => OtherDispatchError ("pre-boundary busy but journal rollback failed: " +:+ e)
                  | Ok _ => BusyError msg end) d1
  | SendNotStarted msg =>
    let '(r, d1) := journal_op f1 (PromptJournal.rollbackDispatching f1 s m) (clear_turn c d) in
    fail (remove_dir (ncDir c)) false
      (match r with Err e => OtherDispatchError ("preflight failure but journal rollback failed: " +:+ e)
                  | Ok _ => NotStartedError msg end) d1
  | SendBoundaryIndeterminate msg | SendError msg =>
    let '(_, d1) := journal_op f1 (PromptJournal.markIndeterminate f1 now s m) (clear_turn c d) in
    fail [] true (OtherDispatchError msg) d1
  end.

(** [OnComplete] of a call: the run has ended. *)
Definition on_complete (c : native_call) (d : daemon) : list out * daemon :=
  let '(done, turns) := ActiveTurn.completeMatching (activeTurns d) (ncSession c) (ncGeneration c) (ncClient c) in
  (remove_dir (ncDir c) ++ cleared done (ncSession c), with_turns d turns).

(** [OnNativeBound]. *)
Definition on_native_bound (c : native_call) (nativeRequestID : string) (d : daemon) : daemon :=
  with_turns d (ActiveTurn.setNativeRequestID (activeTurns d) (ncSession c) (ncGeneration c) (ncClient c) nativeRequestID).2.

(** ** The other commands *)

Definition command_client_id (p msg : payload) : string :=
  let id := payload_string p "client_msg_id" in
  if is_empty id then payload_string msg "client_msg_id" else id.

Definition prompt_status_query (sessionID : string) (p msg : payload) (d : daemon) : list out :=
  let clientMsgID := command_client_id p msg in
  if is_empty clientMsgID then [PromptFailed sessionID "" "client_msg_id required"]
  else
    match (match durableQueue d with
           | Some q => queued_reply q sessionID clientMsgID <$> PromptQueue.item q sessionID clientMsgID
           | None => None
           end) with
    | Some reply => reply
    | None =>
      match PromptJournal.state (commandJournal d) sessionID clientMsgID with
      | Some r => [recorded_reply d sessionID clientMsgID r]
      | None => [PromptNotSeen sessionID clientMsgID]
      end
    end.

Definition prompt_committed (f : io) (now : Z) (sessionID : string) (p msg : payload) (d : daemon) : daemon :=
  let clientMsgID := command_client_id p msg in
  if is_empty clientMsgID then d
  else
    match PromptJournal.state (commandJournal d) sessionID clientMsgID with
    | None => d
    | Some r =>
      match PromptJournal.Status r with
      | PromptJournal.promptJournalAccepted =>
        (journal_op f (PromptJournal.markCommitted f now sessionID clientMsgID) d).2
      | _ => d
      end
    end.

Definition cancel_prompt (f : io) (sessionID : string) (p : payload) (d : daemon) : list out * daemon :=
  let clientMsgID := payload_string p "client_msg_id" in
  if is_empty clientMsgID then ([PromptFailed sessionID "" "client_msg_id required"], d)
  else
    match durableQueue d with
    | None => ([PromptFailed sessionID clientMsgID "prompt queue unavailable"], d)
    | Some q =>
      match PromptQueue.item q sessionID clientMsgID with
      | None => ([PromptFailed sessionID clientMsgID "queued prompt not found"], d)
      | Some _ =>
        match PromptQueue.cancel f sessionID clientMsgID q with
        | (Err e, q') => ([PromptFailed sessionID clientMsgID e], with_queue d q')
        | (Ok _, q') => ([PromptCancelled sessionID clientMsgID; queue_update q' sessionID], with_queue d q')
        end
      end
    end.

Definition resume_prompt_queue (f : io) (sessionID : string) (d : daemon) : list out * daemon :=
  match durableQueue d with
  | None => ([PromptFailed sessionID "" "prompt queue unavailable"], d)
  | Some q =>
    match PromptQueue.resumeSession f sessionID q with
    | (Err e, q') => ([PromptFailed sessionID "" ("prompt queue could not be resumed: " +:+ e)], with_queue d q')
    | (Ok _, q') => ([queue_update q' sessionID; GoDispatch sessionID], with_queue d q')
    end
  end.

Definition skip_prompt_queue_item (f : io) (sessionID : string) (p : payload) (d : daemon) : list out * daemon :=
  let clientMsgID := payload_string p "client_msg_id" in
  match durableQueue d with
  | Some q =>
    if is_empty (TrimSpace clientMsgID)
    then ([PromptFailed sessionID clientMsgID "indeterminate queue blocker required"], d)
    else
      match PromptQueue.skipIndeterminate f sessionID clientMsgID q with
      | (Err e, q') => ([PromptFailed sessionID clientMsgID e], with_queue d q')
      | (Ok _, q') => ([queue_update q' sessionID; GoDispatch sessionID], with_queue d q')
      end
  | None => ([PromptFailed sessionID clientMsgID "indeterminate queue blocker required"], d)
  end.

(** [interrupt]: [answer] is what the adapter's [Interrupt] returns. *)
Definition interrupt (f : io) (overflow : Z) (target : option adapter_view) (answer : res unit) (sessionID : string)
    (p : payload) (d : daemon) : list out * daemon :=
  match ActiveTurn.parseActiveTurnCommand overflow (Some p) with
  | Err _ => ([DaemonError sessionID "interrupt rejected: active turn changed or is no longer controllable"], d)
  | Ok (generation, clientMsgID) =>
    if negb (ActiveTurn.matches (activeTurns d) sessionID generation clientMsgID)
    then ([DaemonError sessionID "interrupt rejected: active turn changed or is no longer controllable"], d)
    else
      match target with
      | None => ([DaemonError sessionID "no adapter for session"], d)
      | Some _ =>
        match answer with
        | Err e => ([NativeInterrupt sessionID; DaemonError sessionID ("interrupt failed: " +:+ e)], d)
        | Ok _ =>
          match durableQueue d with
          | None => ([NativeInterrupt sessionID], d)
          | Some q =>
            let q' := match PromptQueue.running q sessionID with
                      | Some running => (PromptQueue.block f sessionID (PromptQueue.ClientMsgID running)
                                           PromptQueue.promptQueueBlockedInterrupted q).2
                      | None => q
                      end in
            ([NativeInterrupt sessionID; queue_update q' sessionID], with_queue d q')
          end
        end
      end
  end.

(** [OnConnect]: accepted prompts the relay has not committed are announced
    again; [sent n] says whether the [n]-th send succeeds, the first failure
    ends the loop. *)
Fixpoint replay_accepted (d : daemon) (sent : nat -> bool) (n : nat) (l : list PromptJournal.promptJournalRecord)
  : list out :=
  match l with
  | [] => []
  | r :: rest =>
    let s := PromptJournal.SessionID r in
    let m := PromptJournal.ClientMsgID r in
    PromptAccepted s m (default (PromptJournal.PromptEcho r) (ActiveTurn.cache_get (acceptedPrompts d) s m))
      :: (if sent n then replay_accepted d sent (S n) rest else [])
  end.

Definition on_connect (sent : nat -> bool) (d : daemon) : list out :=
  ForceDiscover :: replay_accepted d sent 0 (PromptJournal.uncommittedAccepted (commandJournal d)).

(** ** The process *)

(** A process that is up: the daemon, the calls in flight by session (the
    session lock is held for them), and the claims between the two critical
    sections of [dispatchQueued]. A process that is down leaves its files. *)
Inductive process : Type :=
  | ProcUp (d : daemon) (calls : gmap string native_call) (claims : list claim)
  | ProcDown (queueFile : option (file PromptQueue.promptQueueDisk))
             (journalFile : option (file PromptJournal.promptJournalDisk)).

Definition queue_file (d : daemon) (old : option (file PromptQueue.promptQueueDisk))
  : option (file PromptQueue.promptQueueDisk) :=
  match durableQueue d with Some q => PromptQueue.disk q | None => old end.

(** The start of [main]: the journal must load, the queue may be missing. *)
Definition start_daemon (f1 f2 : io) (device : string) (qf : option (file PromptQueue.promptQueueDisk))
    (jf : option (file PromptJournal.promptJournalDisk)) : process :=
  match PromptJournal.loadPromptJournal f1 jf device PromptJournal.maxAcceptedPromptIDs with
  | (Err _, jf') => ProcDown qf jf'
  | (Ok j, _) =>
    let q := match PromptQueue.loadPromptQueue f2 qf with (Ok q, _) => Some q | (Err _, _) => None end in
    ProcUp (mkDaemon q j (ActiveTurn.newPromptAcceptanceCache ActiveTurn.maxAcceptedPromptIDs) ∅ 0) ∅ []
  end.

Definition enter (sessionID : string) (p : progress) (calls : gmap string native_call) : gmap string native_call :=
  match p with InFlight c => <[sessionID := c]> calls | Finished => calls end.

Definition free (sessionID : string) (calls : gmap string native_call) : Prop := calls !! sessionID = None.

Inductive daemon_step (device : string) : process -> list out -> process -> Prop :=
  | step_send_prompt f1 f2 now env att s p wire d calls claims outs r d' :
      free s calls -> send_prompt f1 f2 now env att s p wire d = (outs, r, d') ->
      daemon_step device (ProcUp d calls claims) outs (ProcUp d' (enter s r calls) claims)
  | step_return_direct f1 f2 now flags c a d calls claims outs d' :
      calls !! ncSession c = Some c -> ncKind c = DirectCall -> return_direct f1 f2 now flags c a d = (outs, d') ->
      daemon_step device (ProcUp d calls claims) (NativeReturn (ncSession c) (ncClient c) a :: outs)
        (ProcUp d' (delete (ncSession c) calls) claims)
  | step_claim f1 f2 status adapters s d calls claims outs cl d' :
      free s calls -> dispatch_claim f1 f2 status adapters s d = (outs, cl, d') ->
      daemon_step device (ProcUp d calls claims) outs
        (ProcUp d' calls (match cl with Some cl => cl :: claims | None => claims end))
  | step_dispatch f1 f2 f3 now cl att d calls claims1 claims2 outs r d' :
      let s := PromptQueue.SessionID (clItem cl) in
      free s calls -> dispatch_start f1 f2 f3 now cl att d = (outs, r, d') ->
      daemon_step device (ProcUp d calls (claims1 ++ cl :: claims2)) outs
        (ProcUp d' (enter s r calls) (claims1 ++ claims2))
  | step_return_queued f1 f2 f3 now flags c a d calls claims outs d' :
      calls !! ncSession c = Some c -> ncKind c = QueuedCall -> return_queued f1 f2 f3 now flags c a d = (outs, d') ->
      daemon_step device (ProcUp d calls claims) (NativeReturn (ncSession c) (ncClient c) a :: outs)
        (ProcUp d' (delete (ncSession c) calls) claims)
  | step_control f ev update notify d calls claims outs d' :
      handleControlEvent f ev update notify d = (outs, d') ->
      daemon_step device (ProcUp d calls claims) outs (ProcUp d' calls claims)
  | step_complete c d calls claims outs d' :
      on_complete c d = (outs, d') -> daemon_step device (ProcUp d calls claims) outs (ProcUp d' calls claims)
  | step_native_bound c id d calls claims :
      daemon_step device (ProcUp d calls claims) [] (ProcUp (on_native_bound c id d) calls claims)
  | step_status_query s p msg d calls claims :
      free s calls -> daemon_step device (ProcUp d calls claims) (prompt_status_query s p msg d) (ProcUp d calls claims)
  | step_committed f now s p msg d calls claims :
      free s calls -> daemon_step device (ProcUp d calls claims) [] (ProcUp (prompt_committed f now s p msg d) calls claims)
  | step_cancel f s p d calls claims outs d' :
      free s calls -> cancel_prompt f s p d = (outs, d') ->
      daemon_step device (ProcUp d calls claims) outs (ProcUp d' calls claims)
  | step_resume f s d calls claims outs d' :
      free s calls -> resume_prompt_queue f s d = (outs, d') ->
      daemon_step device (ProcUp d calls claims) outs (ProcUp d' calls claims)
  | step_skip f s p d calls claims outs d' :
      free s calls -> skip_prompt_queue_item f s p d = (outs, d') ->
      daemon_step device (ProcUp d calls claims) outs (ProcUp d' calls claims)
  | step_interrupt f overflow target answer s p d calls claims outs d' :
      free s calls -> interrupt f overflow target answer s p d = (outs, d') ->
      daemon_step device (ProcUp d calls claims) outs (ProcUp d' calls claims)
  | step_connect sent d calls claims :
      daemon_step device (ProcUp d calls claims) (on_connect sent d) (ProcUp d calls claims)
  | step_crash d calls claims qf :
      daemon_step device (ProcUp d calls claims) []
        (ProcDown (queue_file d qf) (PromptJournal.jdisk (commandJournal d)))
  | step_start f1 f2 qf jf :
      daemon_step device (ProcDown qf jf) [] (start_daemon f1 f2 device qf jf).

(** Runs, with everything that was done in order. *)
Inductive daemon_run (device : string) : process -> list out -> process -> Prop :=
  | daemon_run_refl p : daemon_run device p [] p
  | daemon_run_step p1 outs1 p2 outs2 p3 :
      daemon_run device p1 outs1 p2 -> daemon_step device p2 outs2 p3 ->
      daemon_run device p1 (outs1 ++ outs2) p3.
End Daemon.
