(* ===== verification/DaemonCommands.v ===== *)
(** * The daemon's other commands (daemon/cmd/daemon/main.go)

    [OnMessage] from the frame to the handler, and the commands that neither the
    queue nor the journal takes part in: approvals, user input, steering, the
    start of a thread, the history of a session. What an adapter answers is an
    argument. *)

From stdpp Require Import base tactics list gmap strings.
From Stdlib Require Import Ascii String ZArith Lia.
From S2P Require Import Prelude GoStrings Json StartThread DaemonWire Daemon.

(** ** Receiving a frame *)

(** A frame that is refused as an application command, one that is ignored, and
    one that goes on with its type, session, payload, and the bytes of a sealed
    [send_prompt]. *)
Inductive received : Type :=
  | DecodeFailure (sessionID msgType : string)
  | Ignored
  | Received (msgType sessionID : string) (p : payload) (sealedPromptWire : string).

Definition plain_payload (msg : payload) : payload :=
  match msg !! "payload" with Some (VObject p) => list_to_map p | _ => ∅ end.

Definition receive {wire : Type} (c : wire_config wire) (data : string) (msg : payload) : received :=
  let msgType := payload_string msg "type" in
  let sessionID := payload_string msg "session_id" in
  let sealedPromptWire :=
    if (String.eqb msgType "send_prompt" && bool_decide (is_Some (msg !! "sealed_payload")))%bool then data else "" in
  if daemonInboundApplicationType msgType then
    match decodeInboundApplicationCommand c sessionID msg msgType with
    | Err _ => DecodeFailure sessionID msgType
    | Ok p => Received msgType sessionID p sealedPromptWire
    end
  else
    match validateInboundRoutingFrame (daemonTransport c) msg with
    | Err _ => Ignored
    | Ok _ => Received msgType sessionID (plain_payload msg) sealedPromptWire
    end.

(** ** Approvals, user input, steering *)

Inductive reply : Type :=
  | NativeApprove (sessionID approvalID : string)
  | NativeDeny (sessionID approvalID : string)
  | NativeRespond (requestID : string) (answers : gmap string (list string))
  | NativeSteer (sessionID text : string)
  | UserInputResult (sessionID requestID status message : string)
  | ErrorReply (sessionID message : string)
  | Discover.

Definition approve (target : option adapter_view) (answer : res unit) (sessionID : string) (p : payload) : list reply :=
  let approvalID := payload_string p "approval_id" in
  match target with
  | None => [ErrorReply sessionID "no adapter for session (is agent process still running?)"]
  | Some _ =>
    NativeApprove sessionID approvalID ::
    match answer with Err e => [ErrorReply sessionID ("approve failed: " +:+ e)] | Ok _ => [] end
  end.

Definition deny (target : option adapter_view) (answer : res unit) (sessionID : string) (p : payload) : list reply :=
  let approvalID := payload_string p "approval_id" in
  match target with
  | None => [ErrorReply sessionID "no adapter for session"]
  | Some _ =>
    NativeDeny sessionID approvalID ::
    match answer with Err e => [ErrorReply sessionID ("deny failed: " +:+ e)] | Ok _ => [] end
  end.

(** The Codex adapter a command is for: the session's own, or the registered
    one. *)
Definition codex_for (target registered : option adapter_view) : option adapter_view :=
  match target with
  | Some a => if isCodex a then Some a else registered
  | None => registered
  end.

(** [answer] is the status and the error of [RespondUserInput]. *)
Definition respond_user_input (target registered : option adapter_view) (answer : string * option string)
    (sessionID : string) (p : payload) : list reply :=
  let requestID := payload_string p "request_id" in
  match codex_for target registered with
  | None => [UserInputResult sessionID requestID "stale" "pending user input not found"]
  | Some _ =>
    if is_empty (TrimSpace requestID)
    then [UserInputResult sessionID requestID "stale" "pending user input not found"]
    else
      [NativeRespond requestID (parseUserInputAnswers (p !! "answers"));
       UserInputResult sessionID requestID answer.1 (default "" answer.2); Discover]
  end.

Definition steer (target registered : option adapter_view) (answer : res unit) (sessionID : string) (p : payload)
  : list reply :=
  let text := payload_string p "text" in
  let text := if is_empty text then payload_string p "prompt" else text in
  if is_empty text then [ErrorReply sessionID "steer text required"]
  else match codex_for target registered with
       | None => [ErrorReply sessionID "steer only supported for codex"]
       | Some _ =>
         NativeSteer sessionID text ::
         match answer with Err e => [ErrorReply sessionID ("steer failed: " +:+ e)] | Ok _ => [] end
       end.

(** ** [start_thread]

    A refusal carries what [sendThreadResult] is called with: agent type,
    operation and message. *)
Record start_refusal : Type := mkRefusal { refAgent : string; refOperation : string; refMessage : string }.

Definition start_operation (p msg : payload) : string :=
  let opID := payload_string p "operation_id" in
  if is_empty opID then payload_string msg "client_msg_id" else opID.

Definition agent_name (p : payload) : option string :=
  match p !! "agent_type" with
  | None => Some ""
  | Some (VString s) => Some s
  | Some _ => None
  end.

(** A list of attachments none of which is usable. *)
Definition no_usable_attachment (p : payload) (refs : list Ref) : bool :=
  match p !! "attachments", refs with
  | Some (VArray []), [] => false
  | Some _, [] => true
  | _, _ => false
  end.

Definition start_thread `{GU : GoUnicode} (p msg : payload) : start_refusal + threadStartCommand :=
  let opID := start_operation p msg in
  match agent_name p with
  | None => inl (mkRefusal "" opID "invalid agent_type")
  | Some agentName =>
    match parseStartAgentType agentName with
    | None => inl (mkRefusal agentName opID "invalid agent_type")
    | Some agentType =>
      match coalesceStartProjectDir (payload_string p "project_dir") (payload_string p "cwd") with
      | Err e => inl (mkRefusal agentType opID e)
      | Ok projectDir =>
        let first := payload_string p "prompt" in
        let first := if is_empty first then payload_string p "initial_prompt" else first in
        let refs := parseAttachmentRefs (p !! "attachments") in
        if maxPromptAttachments <? Z.of_nat (List.length refs)
        then inl (mkRefusal agentType opID "too many attachments (limit 5)")
        else if no_usable_attachment p refs
        then inl (mkRefusal agentType opID "invalid thread-start attachments")
        else inr (mkCommand opID agentType projectDir first refs)
      end
    end
  end.

(** ** [fetch_history]

    Converting a [float64] outside the range of [int] has an
    implementation-dependent result: [overflow]. *)
Definition float64_to_int (overflow m e : Z) : Z :=
  let n := float_trunc m e in
  if ((min_int64 <=? n) && (n <=? max_int64))%bool then n else overflow.

Definition history_limit (overflow : Z) (p : payload) : Z :=
  let limit :=
    match p !! "limit" with
    | Some (VFloat m e) => let n := float64_to_int overflow m e in if 0 <? n then n else 40
    | _ => 40
    end in
  if 40 <? limit then 40 else limit.

Record HistoryMessage : Type := mkHistoryMessage {
  hID : string; hRole : string; hContent : string; hType : string; hTimestamp : Z
}.

Definition history_item (source : string) (m : HistoryMessage) : value :=
  VObject [("id", VString (hID m)); ("role", VString (hRole m)); ("content", VString (hContent m));
           ("type", VString (hType m)); ("timestamp", VInt (hTimestamp m));
           ("metadata", VObject [("imported", VBool true); ("agent_type", VString source)])].

(** The answer; [read] is what an adapter's [FetchHistory] returns for the
    limit, nil messages included. *)
Definition fetch_history (read : adapter_view -> Z -> res (list (option HistoryMessage))) (overflow : Z)
    (target : option adapter_view) (adapters : list adapter_view) (sessionID : string) (p : payload) : payload :=
  let limit := history_limit overflow p in
  let '(hist, source) :=
    match fetchHistoryForSession (fun a => read a limit) sessionID target adapters with
    | (Some (h, source), _) => (h, source)
    | (None, _) => ([], "unknown")
    end in
  let msgs := history_item source <$> omap id hist in
  {[ "source" := VString source; "truncated" := VBool (limit <=? Z.of_nat (List.length msgs));
     "limit" := VInt limit; "messages" := VArray msgs ]}.
