(* ===== verification/Catalog.v ===== *)
(** * The session catalog (daemon/cmd/daemon/main.go, daemon/internal/adapters/adapter.go)

    What a discovery round makes of the sessions the adapters report: the
    capabilities they are stamped with, the comparison with the round before,
    the list that is sent to the relay, and the sessions whose queue is woken.
    A round works on sessions it has just been given, so they are values here;
    the overlay of the Codex app-server is a parameter. *)

From stdpp Require Import base tactics list gmap strings.
From Stdlib Require Import Ascii String ZArith Lia.
From S2P Require Import Prelude GoStrings GoPath Json StartThread.
From S2P Require ActiveTurn Daemon.

#[local] Existing Instance ActiveTurn.ActiveTurnBinding_eq_dec.

(** ** Data *)

Abbreviation reasons := (gmap string string).

Record SessionCapabilities : Type := mkCapabilities {
  ControlMode : string;
  Send : bool;
  Approve : bool;
  Deny : bool;
  Interrupt : bool;
  Steer : bool;
  Queue : bool;
  Spawn : bool;
  UserInput : bool;
  AttachmentMode : string;
  ControlPath : string;
  ControlVersion : string;
  UnavailableReasons : reasons
}.

Record ApprovalInfo : Type := mkApproval { ApprovalID : string; ToolName : string; Description : string }.

Record UserInputQuestion : Type := mkQuestion {
  QuestionID : string;
  Header : string;
  Question : string;
  Options : list (string * string);
  IsOther : bool;
  IsSecret : bool
}.

Record UserInputInfo : Type := mkUserInput {
  RequestID : string;
  ItemID : string;
  Questions : list UserInputQuestion;
  AutoResolutionMS : option Z;
  ExpiresAt : Z
}.

Record SessionInfo : Type := mkSession {
  ID : string;
  AgentType : string;
  Status : string;
  Summary : string;
  LastActivity : Z;
  ProjectDir : string;
  Capabilities : option SessionCapabilities;
  PendingApproval : option ApprovalInfo;
  PendingUserInput : option UserInputInfo;
  ActiveTurn : option ActiveTurn.ActiveTurnBinding
}.

#[export] Instance UserInputQuestion_eq_dec : EqDecision UserInputQuestion.
Proof. solve_decision. Defined.

Definition with_Capabilities (s : SessionInfo) (caps : SessionCapabilities) : SessionInfo :=
  mkSession (ID s) (AgentType s) (Status s) (Summary s) (LastActivity s) (ProjectDir s) (Some caps)
    (PendingApproval s) (PendingUserInput s) (ActiveTurn s).
Definition with_ActiveTurn (s : SessionInfo) (b : option ActiveTurn.ActiveTurnBinding) : SessionInfo :=
  mkSession (ID s) (AgentType s) (Status s) (Summary s) (LastActivity s) (ProjectDir s) (Capabilities s)
    (PendingApproval s) (PendingUserInput s) b.

(** ** Capabilities *)

Definition compatibility (reasons : list (string * string)) (attachment : string) : SessionCapabilities :=
  mkCapabilities "compatibility" false false false false false false false false attachment "" ""
    (list_to_map reasons).

Definition DefaultCapabilities (agentType : string) : SessionCapabilities :=
  let unprobed (permission question : string) :=
    compatibility [("send", "runtime_not_probed"); ("interrupt", "runtime_not_probed"); ("approve", permission);
      ("deny", permission); ("user_input", question); ("steer", "unsupported_by_agent")] "path_best_effort" in
  if String.eqb agentType "codex" then
    mkCapabilities "exec_resume" true false false true false false false false "native_image" "exec_resume" "" ∅
  else if String.eqb agentType "claude_code" then unprobed "claude_bridge_unavailable" "claude_bridge_unavailable"
  else if (String.eqb agentType "kimi_cli" || String.eqb agentType "grok_build")%bool
  then unprobed "acp_permission_not_observed" "acp_question_not_observed"
  else if (String.eqb agentType "zcode" || String.eqb agentType "cursor")%bool
  then unprobed "unsupported_by_agent" "unsupported_by_agent"
  else compatibility [("send", "agent_unavailable"); ("interrupt", "agent_unavailable")] "unsupported".

Definition mergeCapabilityReasons (current additions : reasons) : reasons := additions ∪ current.

Definition removeCapabilityReasons (current : reasons) (keys : list string) : reasons :=
  foldl (fun m k => base.delete k m) (mergeCapabilityReasons current ∅) keys.

Definition set_reason (r : reasons) (key fallback : string) (enabled : bool) : reasons :=
  if enabled then base.delete key r
  else if is_empty (TrimSpace (default "" (r !! key))) then <[key := fallback]> r
  else r.

(** The nine controls, with the reason given when the agent names none. *)
Definition controls (caps : SessionCapabilities) : list (string * string * bool) :=
  [("send", "unsupported_by_control_path", Send caps);
   ("approve", "unsupported_by_control_path", Approve caps);
   ("deny", "unsupported_by_control_path", Deny caps);
   ("interrupt", "unsupported_by_control_path", Interrupt caps);
   ("steer", "unsupported_by_agent", Steer caps);
   ("queue", "queue_not_available", Queue caps);
   ("spawn", "start_not_available", Spawn caps);
   ("user_input", "user_input_not_available", UserInput caps);
   ("attachment", "attachment_not_available", negb (String.eqb (AttachmentMode caps) "unsupported"))].

Definition completeCapabilityReasons (caps : SessionCapabilities) : reasons :=
  foldl (fun r c => set_reason r c.1.1 c.1.2 c.2) (mergeCapabilityReasons (UnavailableReasons caps) ∅) (controls caps).

(** The stamping loop: [available] is whether the agent's adapter is registered
    and its program can be run, [codexHealthy] whether the app-server answers. *)
Definition missing_cli (caps : SessionCapabilities) : SessionCapabilities :=
  mkCapabilities (ControlMode caps) false (Approve caps) (Deny caps) false (Steer caps) false (Spawn caps)
    (UserInput caps) (AttachmentMode caps) (ControlPath caps) (ControlVersion caps)
    (mergeCapabilityReasons (UnavailableReasons caps)
       {[ "send" := "cli_missing"; "interrupt" := "cli_missing"; "queue" := "cli_missing" ]}).

Definition cli_control (queueAvailable : bool) (caps : SessionCapabilities) : SessionCapabilities :=
  let clean := removeCapabilityReasons (UnavailableReasons caps) ["send"; "interrupt"] in
  mkCapabilities (ControlMode caps) true (Approve caps) (Deny caps) true (Steer caps) queueAvailable (Spawn caps)
    (UserInput caps) (AttachmentMode caps) "cli" (ControlVersion caps)
    (if queueAvailable then clean
     else mergeCapabilityReasons clean {[ "queue" := "queue_journal_unavailable" ]}).

Definition app_server_control (queueAvailable : bool) : SessionCapabilities :=
  mkCapabilities "app_server" true true true true true queueAvailable true true "native_image_and_file" "app_server" "" ∅.

Definition stamp (available : string -> bool) (codexOverlay : SessionInfo -> SessionInfo) (codexHealthy queueAvailable : bool)
    (s : SessionInfo) : SessionInfo :=
  let caps := default (DefaultCapabilities (AgentType s)) (Capabilities s) in
  let caps :=
    if negb (available (AgentType s)) then missing_cli caps
    else if negb (String.eqb (AgentType s) "codex") then cli_control queueAvailable caps
    else caps in
  let s := with_Capabilities s caps in
  if String.eqb (AgentType s) "codex" then
    let s := codexOverlay s in
    if codexHealthy then with_Capabilities s (app_server_control queueAvailable) else s
  else s.

(** ** Comparing two rounds *)

Definition pendingApprovalChanged (o n : option ApprovalInfo) : bool :=
  match o, n with
  | None, None => false
  | Some o, Some n =>
    (negb (String.eqb (ApprovalID o) (ApprovalID n)) || negb (String.eqb (ToolName o) (ToolName n)) ||
     negb (String.eqb (Description o) (Description n)))%bool
  | _, _ => true
  end.

Definition pendingUserInputChanged (o n : option UserInputInfo) : bool :=
  match o, n with
  | None, None => false
  | Some o, Some n =>
    (negb (String.eqb (RequestID o) (RequestID n)) || negb (ExpiresAt o =? ExpiresAt n) ||
     negb (bool_decide (Questions o = Questions n)))%bool
  | _, _ => true
  end.

Definition sessionCapabilitiesChanged (o n : option SessionCapabilities) : bool :=
  match o, n with
  | None, None => false
  | Some o, Some n =>
    (negb (String.eqb (ControlMode o) (ControlMode n)) || negb (Bool.eqb (Send o) (Send n)) ||
     negb (Bool.eqb (Approve o) (Approve n)) || negb (Bool.eqb (Deny o) (Deny n)) ||
     negb (Bool.eqb (Interrupt o) (Interrupt n)) || negb (Bool.eqb (Steer o) (Steer n)) ||
     negb (Bool.eqb (Queue o) (Queue n)) || negb (Bool.eqb (Spawn o) (Spawn n)) ||
     negb (Bool.eqb (UserInput o) (UserInput n)) || negb (String.eqb (AttachmentMode o) (AttachmentMode n)) ||
     negb (String.eqb (ControlPath o) (ControlPath n)) || negb (String.eqb (ControlVersion o) (ControlVersion n)) ||
     negb (bool_decide (UnavailableReasons o = UnavailableReasons n)))%bool
  | _, _ => true
  end.

Definition session_changed (o n : SessionInfo) : bool :=
  (negb (String.eqb (Status o) (Status n)) || negb (String.eqb (Summary o) (Summary n)) ||
   negb (String.eqb (ProjectDir o) (ProjectDir n)) ||
   pendingApprovalChanged (PendingApproval o) (PendingApproval n) ||
   pendingUserInputChanged (PendingUserInput o) (PendingUserInput n) ||
   sessionCapabilitiesChanged (Capabilities o) (Capabilities n) ||
   negb (bool_decide (ActiveTurn o = ActiveTurn n)))%bool.

Definition sessions_changed `{MO : MapOrder} (last new : gmap string SessionInfo) : bool :=
  if negb (Nat.eqb (size new) (size last)) then true
  else existsb (fun kv => match last !! kv.1 with None => true | Some o => session_changed o kv.2 end) (range new).

(** ** The wire shape *)

Fixpoint after_last (sep : ascii) (s : string) : option string :=
  match s with
  | EmptyString => None
  | String c s' =>
    match after_last sep s' with
    | Some rest => Some rest
    | None => if Ascii.eqb c sep then Some s' else None
    end
  end.

Fixpoint trim_right_slashes (s : string) : string :=
  match s with
  | EmptyString => EmptyString
  | String c s' =>
    let t := trim_right_slashes s' in
    if (is_empty t && Ascii.eqb c slash)%bool then EmptyString else String c t
  end.

Definition projectLabel (dir : string) : string :=
  let dir := TrimSpace dir in
  if is_empty dir then ""
  else
    let dir := trim_right_slashes (replace_byte backslash slash dir) in
    match after_last slash dir with
    | Some rest => if is_empty rest then dir else rest
    | None => dir
    end.

Definition omit_empty (key : string) (v : string) : list (string * value) :=
  if is_empty v then [] else [(key, VString v)].
Definition omit_false (key : string) (b : bool) : list (string * value) := if b then [(key, VBool true)] else [].

Definition question_value (q : UserInputQuestion) : value :=
  VObject ([("id", VString (QuestionID q)); ("header", VString (Header q)); ("question", VString (Question q))] ++
    (match Options q with
     | [] => []
     | opts => [("options", VArray ((fun o => VObject [("label", VString o.1); ("description", VString o.2)]) <$> opts))]
     end) ++ omit_false "is_other" (IsOther q) ++ omit_false "is_secret" (IsSecret q)).

Definition user_input_value (u : UserInputInfo) : value :=
  VObject ([("request_id", VString (RequestID u)); ("item_id", VString (ItemID u));
            ("questions", VArray (question_value <$> Questions u))] ++
    (match AutoResolutionMS u with Some n => [("auto_resolution_ms", VUint64 n)] | None => [] end) ++
    (if ExpiresAt u =? 0 then [] else [("expires_at", VInt (ExpiresAt u))])).

Definition active_turn_value (b : ActiveTurn.ActiveTurnBinding) : value :=
  VObject ([("generation", VUint64 (ActiveTurn.Generation b)); ("client_msg_id", VString (ActiveTurn.ClientMsgID b))] ++
    omit_empty "native_request_id" (ActiveTurn.NativeRequestID b)).

Definition reasons_value (r : reasons) : value :=
  VObject ((fun kv => (kv.1, VString kv.2)) <$> map_to_list r).

Definition capabilities_value (caps : SessionCapabilities) : value :=
  VObject [("control_mode", VString (ControlMode caps)); ("send", VBool (Send caps)); ("approve", VBool (Approve caps));
    ("deny", VBool (Deny caps)); ("interrupt", VBool (Interrupt caps)); ("steer", VBool (Steer caps));
    ("queue", VBool (Queue caps)); ("spawn", VBool (Spawn caps)); ("user_input", VBool (UserInput caps));
    ("attachment_mode", VString (AttachmentMode caps)); ("control_path", VString (ControlPath caps));
    ("control_version", VString (ControlVersion caps));
    ("unavailable_reasons", reasons_value (completeCapabilityReasons caps))].

Definition known_status (status : string) : bool :=
  existsb (String.eqb status) ["running"; "idle"; "waiting_user"; "waiting_approval"; "error"].

(** The session's status on the wire. *)
Definition wire_status (status : string) : string :=
  if known_status status then status else if is_empty status then "idle" else status.

Definition optional (key : string) (v : option value) (p : payload) : payload :=
  match v with Some v => <[key := v]> p | None => p end.

Definition session_to_wire (deviceID : string) (s : SessionInfo) : payload :=
  let caps := default (DefaultCapabilities (AgentType s)) (Capabilities s) in
  let item : payload :=
    {[ "id" := VString (ID s); "device_id" := VString deviceID; "agent_type" := VString (AgentType s);
       "status" := VString (wire_status (Status s)); "summary" := VString (Summary s);
       "last_activity" := VInt (LastActivity s); "capabilities" := capabilities_value caps ]} in
  let item :=
    if is_empty (ProjectDir s) then item
    else <["project" := VString (projectLabel (ProjectDir s))]> (<["project_dir" := VString (ProjectDir s)]> item) in
  let item := optional "pending_approval"
    ((fun a => VObject [("id", VString (ApprovalID a)); ("tool_name", VString (ToolName a));
                        ("description", VString (Description a))]) <$> PendingApproval s) item in
  let item := optional "pending_user_input" (user_input_value <$> PendingUserInput s) item in
  optional "active_turn" (active_turn_value <$> ActiveTurn s) item.

Definition sessionsToWire (deviceID : string) (sessions : list (option SessionInfo)) : list payload :=
  session_to_wire deviceID <$> omap id sessions.

(** ** A discovery round *)

Record round_input : Type := mkRound {
  discovered : list (option SessionInfo);
  agentAvailable : string -> bool;
  codexOverlay : SessionInfo -> SessionInfo;
  codexHealthy : bool;
  queueAvailable : bool;
  turns : ActiveTurn.activeTurnRegistry;
  hasActive : string -> bool;
  startCapabilities : list payload;
  force : bool
}.

Record catalog : Type := mkCatalog {
  lastSessions : gmap string SessionInfo;
  lastStartCapabilities : list payload
}.

Definition round_sessions (i : round_input) : list SessionInfo :=
  (fun s => with_ActiveTurn s (ActiveTurn.current (turns i) (ID s)))
    <$> (stamp (agentAvailable i) (codexOverlay i) (codexHealthy i) (queueAvailable i) <$> omap id (discovered i)).

(** [for _, s := range allSessions { newSessions[s.ID] = s }]. *)
Definition index_sessions (l : list SessionInfo) : gmap string SessionInfo :=
  foldl (fun m s => <[ID s := s]> m) ∅ l.

Section Round.
Context `{MO : MapOrder}.
Context (caps_equal : list payload -> list payload -> bool).

Record round_output : Type := mkRoundOutput {
  woken : list string;
  report : option (list payload * list payload)
}.

Definition discoverAndReport (deviceID : string) (i : round_input) (c : catalog) : round_output * catalog :=
  let sessions := round_sessions i in
  let newSessions := index_sessions sessions in
  let changed := (force i || sessions_changed (lastSessions c) newSessions)%bool in
  let woken :=
    if queueAvailable i
    then ID <$> List.filter (fun s => Daemon.sessionStatusWakesQueueDispatch (Some (Status s)) && hasActive i (ID s))%bool sessions
    else [] in
  let changed := (changed || negb (caps_equal (lastStartCapabilities c) (startCapabilities i)))%bool in
  (mkRoundOutput woken
     (if changed then Some (sessionsToWire deviceID (Some <$> sessions), startCapabilities i) else None),
   mkCatalog newSessions (startCapabilities i)).
End Round.
