(* ===== verification/PromptStore.v ===== *)
(** * The relay's prompt command table (server/internal/db/prompt_commands.go)

    One row per (device, client message): the durable idempotency record of a
    prompt the phone sent. Each SQL statement is one atomic function on the
    table, with the guard of its WHERE clause; the methods are compositions of
    them in the monad [M promptTable], so that their interleaving with other
    connections is an interleaving of statements. An oracle says which
    statement reports an error. *)

From stdpp Require Import base tactics list gmap strings sorting fin_maps.
From Stdlib Require Import Ascii String ZArith Lia.
From S2P Require Import Prelude GoStrings.

(** relaycore/store/store.go. *)
Definition PromptRegistered : string := "registered".
Definition PromptPending : string := "pending".
Definition PromptAccepted : string := "accepted".
Definition PromptFailed : string := "failed".
Definition PromptIndeterminate : string := "indeterminate".
Definition ErrPromptCommandConflict : string := "client_msg_id already belongs to a different prompt".

(** The status column: every statement of the source writes one of the five
    constants. *)
Inductive prompt_status : Set := Registered | Pending | Accepted | Failed | Indeterminate.

#[export] Instance prompt_status_eq_dec : EqDecision prompt_status.
Proof. solve_decision. Defined.

Definition prompt_status_text (s : prompt_status) : string :=
  match s with
  | Registered => PromptRegistered | Pending => PromptPending | Accepted => PromptAccepted
  | Failed => PromptFailed | Indeterminate => PromptIndeterminate
  end.

Record PromptCommand : Type := mkCommand {
  DeviceID : string;
  ClientMsgID : string;
  SessionID : string;
  Prompt : string;
  AttachmentsJSON : string;
  SealedEnvelopeJSON : string;
  Status : prompt_status;
  Error : string;
  Outcome : string;
  RetryAllowed : bool;
  CommitSent : bool;
  CreatedAt : Z;
  UpdatedAt : Z
}.

#[export] Instance PromptCommand_eq_dec : EqDecision PromptCommand.
Proof. solve_decision. Defined.

Abbreviation promptTable := (gmap (string * string) PromptCommand).

(** The SQL calls of a method, in the order it makes them. *)
Inductive sql_call : Set := Exec1 | Affected1 | Select1 | Exec2 | Affected2 | Select2.
Definition sqlio := sql_call -> option string.
Definition sql_ok : sqlio := fun _ => None.

Definition sql {S} (f : sqlio) (call : sql_call) : M S unit :=
  match f call with Some e => raise e | None => mret tt end.

(** ** Statements *)

Definition affected := bool.

Definition set_outcome (c : PromptCommand) (st : prompt_status) (error outcome : string) (retry : bool)
    (commit_sent : bool) (now : Z) : PromptCommand :=
  mkCommand (DeviceID c) (ClientMsgID c) (SessionID c) (Prompt c) (AttachmentsJSON c) (SealedEnvelopeJSON c)
    st error outcome retry commit_sent (CreatedAt c) now.

(** [UPDATE prompt_commands SET ... WHERE device_id = ? AND client_msg_id = ? AND guard]. *)
Definition update_where (k : string * string) (guard : PromptCommand -> bool)
    (set : PromptCommand -> PromptCommand) (t : promptTable) : affected * promptTable :=
  match t !! k with
  | Some c => if guard c then (true, <[k := set c]> t) else (false, t)
  | None => (false, t)
  end.

(** [INSERT OR IGNORE ... VALUES (..., 'registered', '', '', 0, 0, now, now)]. *)
Definition stmt_insert (cmd : PromptCommand) (now : Z) (t : promptTable) : affected * promptTable :=
  let k := (DeviceID cmd, ClientMsgID cmd) in
  match t !! k with
  | Some _ => (false, t)
  | None => (true, <[k := mkCommand (DeviceID cmd) (ClientMsgID cmd) (SessionID cmd) (Prompt cmd)
                       (AttachmentsJSON cmd) (SealedEnvelopeJSON cmd) Registered "" "" false false now now]> t)
  end.

Definition stmt_retry (k : string * string) (now : Z) : promptTable -> affected * promptTable :=
  update_where k (fun c => bool_decide (Status c = Failed) && RetryAllowed c)%bool
    (fun c => set_outcome c Registered "" "" false (CommitSent c) now).

Definition stmt_forward (k : string * string) (now : Z) : promptTable -> affected * promptTable :=
  update_where k (fun c => bool_decide (Status c = Registered))
    (fun c => set_outcome c Pending (Error c) (Outcome c) (RetryAllowed c) (CommitSent c) now).

Definition stmt_accept (k : string * string) (now : Z) : promptTable -> affected * promptTable :=
  update_where k (fun c => bool_decide (Status c = Registered) || bool_decide (Status c = Pending) ||
                           bool_decide (Status c = Failed) || bool_decide (Status c = Indeterminate))%bool
    (fun c => set_outcome c Accepted "" "accepted" false false now).

Definition stmt_commit (k : string * string) (now : Z) : promptTable -> affected * promptTable :=
  update_where k (fun c => bool_decide (Status c = Accepted))
    (fun c => set_outcome c (Status c) (Error c) (Outcome c) (RetryAllowed c) true now).

Definition stmt_indeterminate (k : string * string) (message : string) (now : Z)
  : promptTable -> affected * promptTable :=
  update_where k (fun c => bool_decide (Status c = Registered) || bool_decide (Status c = Pending) ||
                           bool_decide (Status c = Failed))%bool
    (fun c => set_outcome c Indeterminate message "indeterminate" false (CommitSent c) now).

Definition stmt_fail (k : string * string) (message outcome : string) (retry : bool) (now : Z)
  : promptTable -> affected * promptTable :=
  update_where k (fun c => bool_decide (Status c = Registered) || bool_decide (Status c = Pending))%bool
    (fun c => set_outcome c Failed message outcome retry (CommitSent c) now).

(** [db.conn.Exec] of a statement. *)
Definition exec (f : sqlio) (call : sql_call) (stmt : promptTable -> affected * promptTable)
  : M promptTable affected :=
  _ ← sql f call;
  t ← get;
  _ ← put (stmt t).2;
  mret (stmt t).1.

(** ** Methods *)

Definition GetPromptCommand (f : sqlio) (call : sql_call) (deviceID clientMsgID : string)
  : M promptTable PromptCommand :=
  _ ← sql f call;
  t ← get;
  match t !! (deviceID, clientMsgID) with
  | Some c => mret c
  | None => raise "sql: no rows in result set"
  end.

(** The result carries whether the caller owns the forward; a conflict returns
    the stored row beside the error. *)
Inductive register_result : Type :=
  | RegOk (stored : PromptCommand) (owns : bool)
  | RegConflict (stored : PromptCommand).

Definition same_payload (a b : PromptCommand) : bool :=
  bool_decide (SessionID a = SessionID b) && bool_decide (Prompt a = Prompt b) &&
  bool_decide (AttachmentsJSON a = AttachmentsJSON b) && bool_decide (SealedEnvelopeJSON a = SealedEnvelopeJSON b).

Definition RegisterPromptCommand (f : sqlio) (now : Z) (cmd : PromptCommand) (retryFailed : bool)
  : M promptTable register_result :=
  if (is_empty (DeviceID cmd) || is_empty (ClientMsgID cmd) || is_empty (SessionID cmd))%bool
  then raise "device_id, client_msg_id and session_id are required"
  else
    inserted ← exec f Exec1 (stmt_insert cmd now);
    _ ← sql f Affected1;
    stored ← GetPromptCommand f Select1 (DeviceID cmd) (ClientMsgID cmd);
    if (negb inserted && negb (same_payload stored cmd))%bool then mret (RegConflict stored)
    else if inserted then mret (RegOk stored true)
    else if bool_decide (Status stored = Registered) then mret (RegOk stored true)
    else if (negb (bool_decide (Status stored = Failed)) || negb (RetryAllowed stored) || negb retryFailed)%bool
    then mret (RegOk stored false)
    else
      claimed ← exec f Exec2 (stmt_retry (DeviceID cmd, ClientMsgID cmd) now);
      _ ← sql f Affected2;
      stored ← GetPromptCommand f Select2 (DeviceID cmd) (ClientMsgID cmd);
      mret (RegOk stored claimed).

(** [promptTransitionResult] after [db.conn.Exec]. *)
Definition promptTransitionResult (f : sqlio) (deviceID clientMsgID : string)
    (stmt : promptTable -> affected * promptTable) : M promptTable (PromptCommand * bool) :=
  changed ← exec f Exec1 stmt;
  _ ← sql f Affected1;
  cmd ← GetPromptCommand f Select1 deviceID clientMsgID;
  mret (cmd, changed).

Definition MarkPromptForwarded (f : sqlio) (now : Z) (deviceID clientMsgID : string)
  : M promptTable (PromptCommand * bool) :=
  promptTransitionResult f deviceID clientMsgID (stmt_forward (deviceID, clientMsgID) now).

Definition MarkPromptAccepted (f : sqlio) (now : Z) (deviceID clientMsgID : string)
  : M promptTable (PromptCommand * bool) :=
  promptTransitionResult f deviceID clientMsgID (stmt_accept (deviceID, clientMsgID) now).

Definition MarkPromptCommitted (f : sqlio) (now : Z) (deviceID clientMsgID : string) : M promptTable unit :=
  _ ← exec f Exec1 (stmt_commit (deviceID, clientMsgID) now);
  mret tt.

Definition fail_stmt (now : Z) (deviceID clientMsgID message outcome : string) (retryAllowed : bool)
  : promptTable -> affected * promptTable :=
  let k := (deviceID, clientMsgID) in
  if bool_decide (outcome = PromptIndeterminate) then stmt_indeterminate k message now
  else stmt_fail k message (if is_empty outcome then PromptFailed else outcome) retryAllowed now.

Definition MarkPromptFailed (f : sqlio) (now : Z) (deviceID clientMsgID message outcome : string)
    (retryAllowed : bool) : M promptTable (PromptCommand * bool) :=
  promptTransitionResult f deviceID clientMsgID (fail_stmt now deviceID clientMsgID message outcome retryAllowed).

(** [ORDER BY updated_at ASC, client_msg_id ASC]. *)
Definition command_before (a b : PromptCommand) : Prop :=
  UpdatedAt a < UpdatedAt b \/
  (UpdatedAt a = UpdatedAt b /\ String.leb (ClientMsgID a) (ClientMsgID b) = true).

#[export] Instance command_before_dec : RelDecision command_before.
Proof.
  intros a b. unfold command_before, Decision.
  destruct (Z_lt_dec (UpdatedAt a) (UpdatedAt b)); [left; by left|].
  destruct (Z.eq_dec (UpdatedAt a) (UpdatedAt b)); [|right; intros [?|[? _]]; lia].
  destruct (String.leb (ClientMsgID a) (ClientMsgID b)); [left; by right|right; intros [?|[_ ?]]; [lia|done]].
Defined.

Definition uncommitted_of (deviceID : string) (c : PromptCommand) : bool :=
  (bool_decide (DeviceID c = deviceID) && bool_decide (Status c = Accepted) && negb (CommitSent c))%bool.

Definition ListUncommittedAcceptedPrompts (t : promptTable) (deviceID : string) (limit : Z) : list PromptCommand :=
  let limit := if ((limit <? 1) || (500 <? limit))%bool then 100 else limit in
  take (Z.to_nat limit)
    (merge_sort command_before (List.filter (uncommitted_of deviceID) (map_to_list t).*2)).

Definition PromptCommandCount (t : promptTable) (deviceID clientMsgID : string) : Z :=
  match t !! (deviceID, clientMsgID) with Some _ => 1 | None => 0 end.
