(* ===== verification/Protocol.v ===== *)
(** * The wire protocol (relaycore/protocol/types.go)

    Messages, version and transport negotiation, and the check every frame
    after the handshake passes: the confidentiality boundary of sealed mode. *)

From stdpp Require Import base tactics list gmap strings.
From Stdlib Require Import Ascii ZArith Lia.
From S2P Require Import Prelude GoStrings Json.

Definition CurrentProtocolVersion : string := "1.3".
Definition CurrentProtocolMajor : Z := 1.
Definition CurrentProtocolMinor : Z := 3.

Inductive MessageType : Set :=
  | MsgDeviceOnline | MsgDeviceOffline | MsgDeviceList | MsgSessionList | MsgRefreshSessions
  | MsgSessionUpdate | MsgSessionMessage | MsgSendPrompt | MsgPromptStatusQuery | MsgPromptNotSeen
  | MsgPromptQueued | MsgPromptAccepted | MsgPromptCommitted | MsgPromptFailed | MsgPromptSent
  | MsgApprove | MsgDeny | MsgInterrupt | MsgSteer | MsgRespondUserInput | MsgUserInputResult
  | MsgQueueUpdate | MsgCancelPrompt | MsgPromptCancelled | MsgResumePromptQueue | MsgSkipPromptQueueItem
  | MsgStartThread | MsgThreadStarting | MsgThreadOwned | MsgThreadFailed | MsgThreadIndeterminate
  | MsgHeartbeat | MsgError | MsgRegisterDevice | MsgAuthResponse
  | MsgPairRequest | MsgPairConfirm | MsgPairReady | MsgPairFailed | MsgKeyPackage | MsgPhoneRevoked
  | MsgAttentionEvent | MsgSubscribe | MsgSubscribeAck | MsgFetchHistory | MsgSessionHistory
  | OtherMessage (s : string).

#[export] Instance MessageType_eq_dec : EqDecision MessageType.
Proof. solve_decision. Defined.

Definition ErrCodeVersionMismatch : string := "version_mismatch".
Definition ErrCodeTransportModeMismatch : string := "transport_mode_mismatch".
Definition ErrCodeInvalidEnvelope : string := "invalid_envelope".

(** [TransportMode]: the two modes, the empty string of a frame without one,
    or anything else. *)
Inductive TransportMode : Set := TransportSealed | TransportOpen | NoTransport | OtherTransport (s : string).

#[export] Instance TransportMode_eq_dec : EqDecision TransportMode.
Proof. solve_decision. Defined.

Record SealedPayload : Type := mkSealed {
  Alg : string;
  SealedVersion : Z;
  KeyScope : string;
  Epoch : Z;
  SenderID : string;
  RecipientID : string;
  Sequence : Z;
  Nonce : string;
  Ciphertext : string
}.

#[export] Instance SealedPayload_eq_dec : EqDecision SealedPayload.
Proof. solve_decision. Defined.

Record NekoMessage : Type := mkMessage {
  ProtocolVersion : string;
  msgTransportMode : TransportMode;
  msgType : MessageType;
  DeviceID : string;
  SessionID : string;
  ClientMsgID : string;
  Outcome : string;
  RetryAllowed : option bool;
  Timestamp : Z;
  Payload : option payload;
  msgSealedPayload : option SealedPayload
}.

(** ** [strconv.Itoa] and [strconv.Atoi] on 64-bit [int] *)

Fixpoint itoa_loop (fuel : nat) (n : Z) (acc : string) : string :=
  match fuel with
  | O => acc
  | S k =>
    let acc' := String (byte_of (48 + n mod 10)) acc in
    if n <? 10 then acc' else itoa_loop k (n / 10) acc'
  end.

(** Twenty digits hold every 64-bit value. *)
Definition Itoa (n : Z) : string :=
  if n <? 0 then String "-" (itoa_loop 20 (- n) EmptyString) else itoa_loop 20 n EmptyString.

Fixpoint parse_dec (s : string) (acc : Z) : option Z :=
  match s with
  | EmptyString => Some acc
  | String c s' => if is_digit (code c) then parse_dec s' (acc * 10 + (code c - 48)) else None
  end.

Definition in_int (n : Z) : option Z := if ((min_int64 <=? n) && (n <=? max_int64))%bool then Some n else None.

Definition parse_unsigned (s : string) : option Z :=
  match s with EmptyString => None | _ => parse_dec s 0 end.

Definition Atoi (s : string) : option Z :=
  match s with
  | EmptyString => None
  | String c s' =>
    if Ascii.eqb c "-" then n ← parse_unsigned s'; in_int (- n)
    else if Ascii.eqb c "+" then n ← parse_unsigned s'; in_int n
    else n ← parse_unsigned s; in_int n
  end.

(** ** Versions *)

Record VersionParts : Type := mkVersion { Major : Z; Minor : Z }.

Definition parse_component (s err : string) : res Z :=
  match Atoi s with
  | Some n => if n <? 0 then Err err else Ok n
  | None => Err err
  end.

Definition ParseProtocolVersion (v : string) : res VersionParts :=
  let v := TrimSpace v in
  _ ← fail_if (is_empty v) "protocol_version required";
  match split_byte "." v with
  | [p0; p1] =>
    major ← parse_component p0 "invalid protocol major";
    minor ← parse_component p1 "invalid protocol minor";
    _ ← fail_if (negb (bool_decide (p0 = Itoa major)) || negb (bool_decide (p1 = Itoa minor)))
          "invalid protocol_version format";
    mret (mkVersion major minor)
  | _ => Err "protocol_version must be major.minor"
  end.

Definition FormatProtocolVersion (major minor : Z) : string := Itoa major +:+ "." +:+ Itoa minor.

Definition ParseTransportMode (raw : string) : res TransportMode :=
  let t := TrimSpace raw in
  if bool_decide (t = "sealed") then Ok TransportSealed
  else if bool_decide (t = "open") then Ok TransportOpen
  else if is_empty t then Err "transport_mode required"
  else Err "invalid transport_mode".

Definition NegotiateProtocolVersion (clientVersion : string) (serverMajor serverMinor : Z) : res string :=
  client ← ParseProtocolVersion clientVersion;
  _ ← fail_if (negb (Major client =? serverMajor)) ErrCodeVersionMismatch;
  let minor := if serverMinor <? Minor client then serverMinor else Minor client in
  mret (FormatProtocolVersion serverMajor minor).

(** ** Envelope and body policy *)

Definition is_some_b {A} (o : option A) : bool := match o with Some _ => true | None => false end.

Definition ValidateEnvelopeForm (msg : option NekoMessage) : res unit :=
  match msg with
  | None => Err "message required"
  | Some msg =>
    fail_if (is_some_b (Payload msg) && is_some_b (msgSealedPayload msg))
      (ErrCodeInvalidEnvelope +:+ ": payload and sealed_payload are mutually exclusive")
  end.

Inductive MessageBodyPolicy : Set := MessageBodyUnknown | MessageBodyRouting | MessageBodyApplication.

#[export] Instance MessageBodyPolicy_eq_dec : EqDecision MessageBodyPolicy.
Proof. solve_decision. Defined.

Definition BodyPolicy (t : MessageType) : MessageBodyPolicy :=
  match t with
  | MsgDeviceOnline | MsgDeviceOffline | MsgDeviceList | MsgRefreshSessions
  | MsgPromptStatusQuery | MsgPromptNotSeen | MsgPromptCommitted
  | MsgHeartbeat | MsgError | MsgRegisterDevice | MsgAuthResponse
  | MsgPairRequest | MsgPairConfirm | MsgPairReady | MsgPairFailed
  | MsgKeyPackage | MsgPhoneRevoked | MsgAttentionEvent
  | MsgSubscribe | MsgSubscribeAck => MessageBodyRouting
  | MsgSessionList | MsgSessionUpdate | MsgSessionMessage
  | MsgSendPrompt | MsgPromptQueued | MsgPromptAccepted | MsgPromptFailed | MsgPromptSent
  | MsgApprove | MsgDeny | MsgInterrupt | MsgSteer
  | MsgRespondUserInput | MsgUserInputResult
  | MsgQueueUpdate | MsgCancelPrompt | MsgPromptCancelled | MsgResumePromptQueue | MsgSkipPromptQueueItem
  | MsgStartThread | MsgThreadStarting | MsgThreadOwned | MsgThreadFailed | MsgThreadIndeterminate
  | MsgFetchHistory | MsgSessionHistory => MessageBodyApplication
  | OtherMessage _ => MessageBodyUnknown
  end.

Definition isSealedFailClosedRouting (msg : NekoMessage) : bool :=
  if (is_empty (TrimSpace (ClientMsgID msg)) || is_some_b (Payload msg) || is_some_b (msgSealedPayload msg))%bool
  then false
  else match msgType msg with
       | MsgPromptFailed | MsgThreadFailed | MsgThreadIndeterminate => true
       | _ => false
       end.

Definition ValidateFrameForTransport (msg : option NekoMessage) (mode : TransportMode) : res unit :=
  _ ← ValidateEnvelopeForm msg;
  match msg with
  | None => Err (ErrCodeInvalidEnvelope +:+ ": message required")
  | Some msg =>
    _ ← fail_if (negb (bool_decide (msgTransportMode msg = mode)))
          (ErrCodeTransportModeMismatch +:+ ": frame transport_mode does not match");
    _ ← match ParseProtocolVersion (ProtocolVersion msg) with
        | Ok version => fail_if (negb (Major version =? CurrentProtocolMajor))
                          (ErrCodeVersionMismatch +:+ ": invalid frame protocol_version")
        | Err _ => Err (ErrCodeVersionMismatch +:+ ": invalid frame protocol_version")
        end;
    let policy := BodyPolicy (msgType msg) in
    _ ← fail_if (bool_decide (policy = MessageBodyUnknown)) (ErrCodeInvalidEnvelope +:+ ": unknown message type");
    match mode with
    | TransportSealed =>
      if isSealedFailClosedRouting msg then Ok tt
      else fail_if (bool_decide (policy = MessageBodyApplication) && negb (is_some_b (msgSealedPayload msg)))
             (ErrCodeInvalidEnvelope +:+ ": sealed application frame requires sealed_payload")
    | TransportOpen =>
      fail_if (is_some_b (msgSealedPayload msg))
        (ErrCodeInvalidEnvelope +:+ ": open frame cannot contain sealed_payload")
    | _ => Err (ErrCodeTransportModeMismatch +:+ ": invalid negotiated transport mode")
    end
  end.

(** ** Constructors; [now] is [time.Now().Unix()]. *)

Definition NewMessage (now : Z) (t : MessageType) (deviceID : string) : NekoMessage :=
  mkMessage CurrentProtocolVersion NoTransport t deviceID "" "" "" None now None None.

Definition NewMessageWithSession (now : Z) (t : MessageType) (deviceID sessionID : string) : NekoMessage :=
  mkMessage CurrentProtocolVersion NoTransport t deviceID sessionID "" "" None now None None.

Definition WithTransport (m : NekoMessage) (mode : TransportMode) : NekoMessage :=
  mkMessage (ProtocolVersion m) mode (msgType m) (DeviceID m) (SessionID m) (ClientMsgID m)
    (Outcome m) (RetryAllowed m) (Timestamp m) (Payload m) (msgSealedPayload m).

(** ** Handshake *)

Record HandshakeResult : Type := mkHandshake {
  NegotiatedVersion : string;
  hsTransportMode : TransportMode;
  ErrorCode : string;
  Message : string
}.

Definition transport_text (m : TransportMode) : string :=
  match m with
  | TransportSealed => "sealed" | TransportOpen => "open" | NoTransport => "" | OtherTransport s => s
  end.

Definition NegotiateHandshake (clientVersion clientMode : string) (nestMode : TransportMode) (serverMinor : Z)
  : HandshakeResult :=
  let nestMode := match nestMode with NoTransport => TransportSealed | m => m end in
  match ParseTransportMode clientMode with
  | Err _ => mkHandshake "" NoTransport ErrCodeTransportModeMismatch "transport_mode required (sealed|open)"
  | Ok mode =>
    if negb (bool_decide (mode = nestMode))
    then mkHandshake "" NoTransport ErrCodeTransportModeMismatch
           ("transport_mode mismatch: nest is " +:+ transport_text nestMode)
    else match NegotiateProtocolVersion clientVersion CurrentProtocolMajor serverMinor with
         | Err _ => mkHandshake "" NoTransport ErrCodeVersionMismatch
                      ("protocol_version mismatch: server supports " +:+ FormatProtocolVersion CurrentProtocolMajor 0 +:+ ".x")
         | Ok neg => mkHandshake neg mode "" ""
         end
  end.

Definition HandshakeErrorPayload (r : HandshakeResult) : payload :=
  <["error_code" := VString (ErrorCode r)]>
  (<["message" := VString (Message r)]>
  (<["protocol_version" := VString CurrentProtocolVersion]>
  (<["transport_mode" := VString (transport_text TransportSealed)]> ∅))).
