(* ===== verification/JsonDecode.v ===== *)
(** * JSON documents: decoding ([json.Unmarshal])

    The scanner of [Json], run with a builder beside it, gives the tree of a
    document; each number keeps its literal and each composite its text, so a
    [json.RawMessage] is a tree too. The second half decodes trees into the
    types the source decodes into: strings, booleans, integers, floats, slices
    and (pointers to) structs, whose members are matched without regard to case
    and, when a name is repeated, decoded one after the other. *)

From stdpp Require Import base tactics list strings.
From Stdlib Require Import Ascii ZArith Lia.
From S2P Require Import Prelude GoStrings Json Protocol.

Inductive json : Type :=
  | JNull
  | JBool (b : bool)
  | JNumber (literal : string)
  | JString (text : string) (s : string)
  | JArray (text : string) (l : list json)
  | JObject (text : string) (kvs : list (string * json)).

(** The bytes of a document, without the white space around it. *)
Definition json_text (v : json) : string :=
  match v with
  | JNull => "null"
  | JBool b => if b then "true" else "false"
  | JNumber lit => lit
  | JString t _ | JArray t _ | JObject t _ => t
  end.

(** ** String literals ([unquote]) *)

Definition utf8_encode (cp : Z) : string :=
  of_codes
    (if cp <? 128 then [cp]
     else if cp <? 2048 then [192 + cp / 64; 128 + cp mod 64]
     else if cp <? 65536 then [224 + cp / 4096; 128 + (cp / 64) mod 64; 128 + cp mod 64]
     else [240 + cp / 262144; 128 + (cp / 4096) mod 64; 128 + (cp / 64) mod 64; 128 + cp mod 64]).

Definition hex_digit (c : ascii) : Z :=
  let b := code c in
  if b <=? 57 then b - 48 else if b <=? 70 then b - 55 else b - 87.

Definition hex4 (a b c d : ascii) : Z :=
  ((hex_digit a * 16 + hex_digit b) * 16 + hex_digit c) * 16 + hex_digit d.

Definition high_surrogate (u : Z) : bool := ((55296 <=? u) && (u <=? 56319))%bool.
Definition low_surrogate (u : Z) : bool := ((56320 <=? u) && (u <=? 57343))%bool.

Definition escaped_byte (c : ascii) : ascii :=
  match c with
  | "b" => byte_of 8 | "f" => byte_of 12 | "n" => byte_of 10 | "r" => byte_of 13 | "t" => byte_of 9
  | _ => c
  end%char.

(** A lone surrogate becomes the replacement character. *)
Definition flush (pending : option Z) : string :=
  match pending with Some _ => replacement_char | None => EmptyString end.

Fixpoint unescape (pending : option Z) (s : string) : string :=
  match s with
  | EmptyString => flush pending
  | String c s1 =>
    if code c =? 92 then
      match s1 with
      | String e s2 =>
        if code e =? 117 then
          match s2 with
          | String h1 (String h2 (String h3 (String h4 s3))) =>
            let u := hex4 h1 h2 h3 h4 in
            match pending, low_surrogate u with
            | Some h, true => utf8_encode (65536 + (h - 55296) * 1024 + (u - 56320)) +:+ unescape None s3
            | _, _ =>
              flush pending +:+
              (if high_surrogate u then unescape (Some u) s3
               else (if low_surrogate u then replacement_char else utf8_encode u) +:+ unescape None s3)
            end
          | _ => flush pending
          end
        else flush pending +:+ String (escaped_byte e) (unescape None s2)
      | EmptyString => flush pending
      end
    else flush pending +:+ String c (unescape None s1)
  end.

(** Bytes that are no UTF-8 become the replacement character. *)
Definition unquote (body : string) : string := coerceUTF8 (unescape None body).

(** ** The tree of a document *)

Definition drop_last (s : string) : string := take_bytes (String.length s - 1) s.

Definition scalar_of (token : string) : json :=
  match token with
  | EmptyString => JNull
  | String c body =>
    if code c =? 34 then JString token (unquote (drop_last body))
    else if code c =? 116 then JBool true
    else if code c =? 102 then JBool false
    else if code c =? 110 then JNull
    else JNumber token
  end.

Inductive frame : Type :=
  | InArray (text : string) (done : list json)
  | InObject (text : string) (done : list (string * json)) (key : option string).

Record builder : Type := mkBuilder {
  frames : list frame;
  token : string;
  built : option json
}.

Definition snoc (s : string) (c : ascii) : string := s +:+ String c EmptyString.

Definition complete (v : json) (b : builder) : builder :=
  match frames b with
  | [] => mkBuilder [] EmptyString (Some v)
  | InArray t l :: fs => mkBuilder (InArray (t +:+ json_text v) (l ++ [v]) :: fs) EmptyString (built b)
  | InObject t kvs (Some k) :: fs => mkBuilder (InObject (t +:+ json_text v) (kvs ++ [(k, v)]) None :: fs) EmptyString (built b)
  | InObject t kvs None :: fs =>
    mkBuilder (InObject (t +:+ json_text v) kvs (match v with JString _ s => Some s | _ => None end) :: fs) EmptyString (built b)
  end.

Definition close_frame (f : frame) (c : ascii) : json :=
  match f with InArray t l => JArray (snoc t c) l | InObject t kvs _ => JObject (snoc t c) kvs end.

Definition structural (c : ascii) (b : builder) : builder :=
  if code c =? 123 then mkBuilder (InObject (snoc EmptyString c) [] None :: frames b) EmptyString (built b)
  else if code c =? 91 then mkBuilder (InArray (snoc EmptyString c) [] :: frames b) EmptyString (built b)
  else match frames b with
       | [] => b
       | f :: fs =>
         if ((code c =? 125) || (code c =? 93))%bool then complete (close_frame f c) (mkBuilder fs EmptyString (built b))
         else mkBuilder (match f with
                         | InArray t l => InArray (snoc t c) l
                         | InObject t kvs k => InObject (snoc t c) kvs k
                         end :: fs) EmptyString (built b)
       end.

Definition in_token (st : jstate) : bool :=
  match st with
  | InString | InStringEsc | InStringEscU _ | Neg | Num0 | Num1 | Dot | Dot0 | Exp | ExpSign | Exp0 | Lit _ => true
  | _ => false
  end.

(** The byte that ends a string or a literal belongs to it; the one behind a
    number does not. *)
Definition ends_itself (st : jstate) : bool :=
  match st with InString | Lit _ => true | _ => false end.

Definition build (st st' : jstate) (c : ascii) (b : builder) : builder :=
  match in_token st, in_token st' with
  | true, true => mkBuilder (frames b) (snoc (token b) c) (built b)
  | true, false =>
    if ends_itself st then complete (scalar_of (snoc (token b) c)) b
    else structural c (complete (scalar_of (token b)) b)
  | false, true => mkBuilder (frames b) (snoc EmptyString c) (built b)
  | false, false => structural c b
  end.

Fixpoint jbuild (st : jstate) (stack : list jcontext) (b : builder) (s : string) : option json :=
  match s with
  | EmptyString => match st with EndTop => built b | _ => None end
  | String c s' =>
    match jstep st stack (code c) with
    | Some (st', stack') => jbuild st' stack' (build st st' c b) s'
    | None => None
    end
  end.

(** A number at top level ends at the end of the input: a space is put there. *)
Definition parse (s : string) : option json := jbuild BeginValue [] (mkBuilder [] EmptyString None) (s +:+ " ").

(** A document written with apostrophes for its quotes, for examples. *)
Fixpoint doc (s : string) : string :=
  match s with
  | EmptyString => EmptyString
  | String c s' => String (if code c =? 39 then byte_of 34 else c) (doc s')
  end.

Example parse_object :
  parse (doc " {'a': [1, -2.5e1], 'b' : {'c':null}, 'd':'x\u00e9\n' } ") =
  Some (JObject (doc "{'a': [1, -2.5e1], 'b' : {'c':null}, 'd':'x\u00e9\n' }")
    [("a", JArray "[1, -2.5e1]" [JNumber "1"; JNumber "-2.5e1"]);
     ("b", JObject (doc "{'c':null}") [("c", JNull)]);
     ("d", JString (doc "'x\u00e9\n'") (of_codes [120; 195; 169; 10]))]).
Proof. reflexivity. Qed.

Example parse_number : parse "42" = Some (JNumber "42").
Proof. reflexivity. Qed.

Example parse_surrogates : parse (doc "'\ud83d\ude00\ud83d'") = Some (JString (doc "'\ud83d\ude00\ud83d'") (of_codes [240; 159; 152; 128; 239; 191; 189])).
Proof. reflexivity. Qed.

Example parse_invalid : parse "{" = None.
Proof. reflexivity. Qed.

(** The parser accepts exactly what [json.Valid] accepts. *)

Definition built_when_done (st : jstate) (stack : list jcontext) (b : builder) : Prop :=
  List.length (frames b) = List.length stack /\
  (st = EndTop -> stack = []) /\
  (stack = [] -> st = EndValue \/ st = EndTop -> is_Some (built b)).

Lemma complete_frames v b : List.length (frames (complete v b)) = List.length (frames b).
Proof. unfold complete. destruct (frames b) as [|[t l|t kvs [k|]] fs]; done. Qed.

Lemma complete_built v b : frames b = [] \/ is_Some (built b) -> is_Some (built (complete v b)).
Proof. unfold complete. destruct (frames b) as [|[t l|t kvs [k|]] fs]; cbn; intros [|]; try done. all: by eexists. Qed.

(** What a structural byte does to the enclosing frames. *)
Lemma structural_spec c b :
  let b' := structural c b in
  (code c = 123 \/ code c = 91 -> List.length (frames b') = S (List.length (frames b))) /\
  (code c = 125 \/ code c = 93 -> frames b <> [] ->
     S (List.length (frames b')) = List.length (frames b) /\ (List.length (frames b) = 1%nat -> is_Some (built b'))) /\
  (code c <> 123 -> code c <> 91 -> code c <> 125 -> code c <> 93 ->
     List.length (frames b') = List.length (frames b) /\ built b' = built b).
Proof.
  cbn zeta. unfold structural. repeat split; intros.
  - destruct (code c =? 123) eqn:E; [done|]. destruct (code c =? 91) eqn:E'; [done|]. lia.
  - destruct (code c =? 123) eqn:E; [lia|]. destruct (code c =? 91) eqn:E'; [lia|].
    destruct (frames b); [done|]. destruct ((code c =? 125) || (code c =? 93))%bool eqn:E2; [by rewrite complete_frames|].
    bool_hyps; lia.
  - destruct (code c =? 123) eqn:E; [lia|]. destruct (code c =? 91) eqn:E'; [lia|].
    destruct (frames b) as [|f fs]; [done|]. destruct ((code c =? 125) || (code c =? 93))%bool eqn:E2; [|bool_hyps; lia].
    apply complete_built. left. destruct fs; done.
  - destruct (code c =? 123) eqn:E; [lia|]. destruct (code c =? 91) eqn:E'; [lia|].
    destruct (frames b) as [|f fs] eqn:Ef; [by rewrite Ef|].
    destruct ((code c =? 125) || (code c =? 93))%bool eqn:E2; [bool_hyps; lia|done].
  - destruct (code c =? 123) eqn:E; [lia|]. destruct (code c =? 91) eqn:E'; [lia|].
    destruct (frames b) as [|f fs]; [done|]. destruct ((code c =? 125) || (code c =? 93))%bool eqn:E2; [bool_hyps; lia|done].
Qed.

(** A builder between two values, and what [end_value] makes of it. *)
Definition between (stack : list jcontext) (b : builder) : Prop :=
  List.length (frames b) = List.length stack /\ (stack = [] -> is_Some (built b)).

Lemma space_codes z : is_json_space z = true -> z <> 123 /\ z <> 91 /\ z <> 125 /\ z <> 93.
Proof. unfold is_json_space. intros. bool_hyps; lia. Qed.

Lemma pop_inv stack st' stack' :
  pop stack = Some (st', stack') -> in_token st' = false /\ S (List.length stack') = List.length stack /\ (st' = EndTop -> stack' = []).
Proof. unfold pop. intros H. repeat case_match; simplify_eq; done. Qed.

Lemma end_value_built c stack b st' stack' :
  between stack b -> end_value (code c) stack = Some (st', stack') ->
  in_token st' = false /\ built_when_done st' stack' (structural c b).
Proof.
  intros [Hlen Hb]. unfold end_value. destruct (structural_spec c b) as (_ & Hclose & Hother).
  destruct stack as [|ctx stack].
  - destruct (is_json_space (code c)) eqn:E; [|done]. intros [= <- <-]. apply space_codes in E as (?&?&?&?).
    destruct Hother as [Hl Hb']; [done..|]. split; [done|]. split; [by rewrite Hl|]. split; [done|]. intros. rewrite Hb'. auto.
  - assert (Hkeep : code c <> 123 -> code c <> 91 -> code c <> 125 -> code c <> 93 -> forall st1 ctx',
      st1 = EndValue \/ st1 = BeginValue \/ st1 = BeginString -> Some (st1, ctx' :: stack) = Some (st', stack') ->
      in_token st' = false /\ built_when_done st' stack' (structural c b)).
    { intros ? ? ? ? st1 ctx' Hst [= <- <-]. destruct Hother as [Hl Hb']; [done..|].
      split; [by destruct Hst as [->|[->| ->]]|]. split; [by rewrite Hl|]. split; [|done].
      by destruct Hst as [->|[->| ->]]. }
    assert (Hpop : code c = 125 \/ code c = 93 -> pop (ctx :: stack) = Some (st', stack') ->
      in_token st' = false /\ built_when_done st' stack' (structural c b)).
    { intros Hc Hpop. apply pop_inv in Hpop as (Ht & Hl & He). split; [done|].
      destruct Hclose as [Hl' Hb']; [done|by destruct (frames b)|]. cbn in *.
      split; [lia|]. split; [done|]. intros -> _. apply Hb'. cbn in *. lia. }
    destruct (is_json_space (code c)) eqn:E; [apply space_codes in E as (?&?&?&?); apply (Hkeep ltac:(done) ltac:(done) ltac:(done) ltac:(done)); auto|].
    intros Hend. repeat case_match; bool_hyps; try done;
      match goal with
      | H : pop _ = _ |- _ => apply Hpop; [auto|exact H]
      | H : Some _ = Some _ |- _ => revert H; apply Hkeep; [lia..|auto]
      end.
Qed.

Lemma begin_value_built st c stack b st' stack' :
  in_token st = false -> List.length (frames b) = List.length stack ->
  begin_value (code c) stack = Some (st', stack') -> built_when_done st' stack' (build st st' c b).
Proof.
  intros Hst Hlen. unfold begin_value, push, build. rewrite Hst. destruct (structural_spec c b) as (Hopen & _ & Hother).
  assert (Hpush : code c = 123 \/ code c = 91 -> forall ctx st1, in_token st1 = false -> st1 <> EndValue -> st1 <> EndTop ->
    (if maxNestingDepth <=? Z.of_nat (List.length stack) then None else Some (st1, ctx :: stack)) = Some (st', stack') ->
    built_when_done st' stack' (if in_token st' then mkBuilder (frames b) (snoc EmptyString c) (built b) else structural c b)).
  { intros Hc ctx st1 Ht ? ?. case_match; [done|]. intros [= <- <-]. rewrite Ht. split; [cbn; rewrite <- Hlen; auto|].
    split; [done|]. by intros. }
  destruct (is_json_space (code c)) eqn:E.
  { intros [= <- <-]. apply space_codes in E as (?&?&?&?). destruct Hother as [Hl _]; [done..|].
    split; [cbn; by rewrite Hl|split; [done|by intros _ [|]]]. }
  destruct (code c =? 123) eqn:E1; [apply Hpush; [lia|done..]|].
  destruct (code c =? 91) eqn:E2; [apply Hpush; [lia|done..]|].
  intros Hbegin. repeat case_match; simplify_eq; cbn [in_token]; (split; [done|split; [done|by intros _ [|]]]).
Qed.

Lemma complete_between v stack b : List.length (frames b) = List.length stack -> between stack (complete v b).
Proof.
  intros Hlen. split; [by rewrite complete_frames|]. intros ->. apply complete_built. left. by destruct (frames b).
Qed.

Lemma build_step st stack b c st' stack' :
  built_when_done st stack b -> jstep st stack (code c) = Some (st', stack') ->
  built_when_done st' stack' (build st st' c b).
Proof.
  intros (Hlen & Htop & Hb) Hstep.
  assert (Hbegin : in_token st = false -> begin_value (code c) stack = Some (st', stack') -> built_when_done st' stack' (build st st' c b)).
  { intros. by eapply begin_value_built. }
  assert (Htok : in_token st = true -> in_token st' = true -> stack' = stack -> built_when_done st' stack' (build st st' c b)).
  { intros Ht Ht' ->. unfold build. rewrite Ht, Ht'. split; [done|]. split; [by intros ->|]. by intros _ [-> | ->]. }
  assert (Hnum : in_token st = true -> ends_itself st = false -> end_value (code c) stack = Some (st', stack') ->
    built_when_done st' stack' (build st st' c b)).
  { intros Ht Hself Hend. eapply end_value_built in Hend as [Ht' Hw]; [|apply complete_between, Hlen].
    unfold build. rewrite Ht, Ht', Hself. exact Hw. }
  assert (Hself : in_token st = true -> ends_itself st = true -> st' = EndValue -> stack' = stack -> built_when_done st' stack' (build st st' c b)).
  { intros Ht He -> ->. unfold build. rewrite Ht, He. cbn. pose proof (complete_between (scalar_of (snoc (token b) c)) _ b Hlen) as [Hl Hd].
    split; [done|]. split; [done|]. auto. }
  assert (Hspace : in_token st = false -> is_json_space (code c) = true -> st <> EndValue -> st <> EndTop ->
    Some (st, stack) = Some (st', stack') -> built_when_done st' stack' (build st st' c b)).
  { intros Ht Hs ? ? [= <- <-]. apply space_codes in Hs as (?&?&?&?). destruct (structural_spec c b) as (_ & _ & Hother).
    destruct Hother as [Hl _]; [done..|]. unfold build. rewrite Ht. split; [by rewrite Hl|]. split; [by intros ->|]. by intros _ [-> | ->]. }
  assert (Hstr : in_token st = false -> begin_string (code c) stack = Some (st', stack') -> st = BeginString \/ is_json_space (code c) = false ->
    built_when_done st' stack' (build st st' c b)).
  { unfold begin_string. intros Ht Hs Hst. destruct (is_json_space (code c)) eqn:E.
    - destruct Hst as [-> |]; [|done]. by apply Hspace.
    - case_match; [|done]. injection Hs as <- <-. unfold build. rewrite Ht. split; [done|split; [done|by intros _ [|]]]. }
  destruct st; cbn [jstep] in Hstep.
  - by apply Hbegin.
  - destruct (is_json_space (code c)) eqn:E; [by apply Hspace|]. destruct (code c =? 93) eqn:E'; [|by apply Hbegin].
    eapply (end_value_built c stack b) in Hstep as [Ht Hw]; [unfold build; cbn; by rewrite Ht|].
    split; [done|]. intros ->. unfold end_value in Hstep. by rewrite E in Hstep.
  - destruct (is_json_space (code c)) eqn:E; [by apply Hspace|]. destruct (code c =? 125) eqn:E'; [|apply Hstr; auto].
    apply pop_inv in Hstep as (Ht & Hl & He). destruct (structural_spec c b) as (_ & Hclose & _).
    destruct Hclose as [Hl' Hb']; [lia|by destruct (frames b), stack|]. unfold build. cbn. rewrite Ht.
    split; [lia|]. split; [done|]. intros -> _. apply Hb'. cbn in *. lia.
  - apply Hstr; auto.
  - eapply (end_value_built c stack b) in Hstep as [Ht Hw]; [unfold build; cbn; by rewrite Ht|]. split; auto.
  - destruct (is_json_space (code c)) eqn:E; [|done]. injection Hstep as <- <-. rewrite (Htop eq_refl) in *.
    apply space_codes in E as (?&?&?&?). destruct (structural_spec c b) as (_ & _ & Hother). destruct Hother as [Hl Hb']; [done..|].
    unfold build; cbn. split; [by rewrite Hl|]. split; [done|]. intros. rewrite Hb'. auto.
  - repeat case_match; simplify_eq; auto.
  - repeat case_match; simplify_eq; auto.
  - repeat case_match; simplify_eq; auto.
  - repeat case_match; simplify_eq; auto.
  - unfold num_tail in Hstep. repeat case_match; simplify_eq; auto.
  - unfold num_tail in Hstep. repeat case_match; simplify_eq; auto.
  - repeat case_match; simplify_eq; auto.
  - repeat case_match; simplify_eq; auto.
  - repeat case_match; simplify_eq; auto.
  - repeat case_match; simplify_eq; auto.
  - repeat case_match; simplify_eq; auto.
  - repeat case_match; simplify_eq; auto.
Qed.

Lemma jbuild_scan s st stack b :
  built_when_done st stack b -> is_Some (jbuild st stack b (s +:+ " ")) <-> jscan st stack s = true.
Proof.
  revert st stack b. induction s as [|c s IH]; intros st stack b Hw.
  - change ("" +:+ " ") with (String " "%char EmptyString). cbn [jbuild jscan]. change (code " ") with 32.
    assert (Hlast : forall st' stack', jstep st stack 32 = Some (st', stack') ->
      is_Some (match st' with EndTop => built (build st st' " "%char b) | _ => None end) <-> st' = EndTop).
    { intros st' stack' Hs. apply (build_step st stack b " "%char) in Hs as (_ & Ht & Hb); [|done].
      destruct st'; (split; [intros [? [=]]|try done]); auto. }
    destruct (jstep st stack 32) as [[st' stack']|] eqn:Es.
    + transitivity (st' = EndTop); [exact (Hlast _ _ eq_refl)|]. destruct st, st'; done.
    + split; [by intros [? [=]]|]. destruct st; [done..|]. by cbn in Es.
  - rewrite string_app_cons. cbn [jbuild jscan].
    destruct (jstep st stack (code c)) as [[st' stack']|] eqn:Es; [|split; [by intros [? [=]]|done]].
    apply IH. by eapply build_step.
Qed.

Lemma parse_valid s : is_Some (parse s) <-> json_Valid s = true.
Proof. apply jbuild_scan. split; [done|]. split; [done|]. by intros _ [|]. Qed.

(** ** Numbers *)

(** [lit_*] read a number literal as an integer times a power of ten. *)
Definition lit_exponent (s : string) : Z :=
  match s with
  | String c s' =>
    if code c =? 45 then - default 0 (parse_dec s' 0)
    else if code c =? 43 then default 0 (parse_dec s' 0) else default 0 (parse_dec s 0)
  | EmptyString => 0
  end.

Fixpoint lit_fraction (s : string) (n k : Z) : Z * Z :=
  match s with
  | EmptyString => (n, - k)
  | String c s' => if is_digit (code c) then lit_fraction s' (n * 10 + (code c - 48)) (k + 1) else (n, lit_exponent s' - k)
  end.

Fixpoint lit_integer (s : string) (n : Z) : Z * Z :=
  match s with
  | EmptyString => (n, 0)
  | String c s' =>
    if is_digit (code c) then lit_integer s' (n * 10 + (code c - 48))
    else if code c =? 46 then lit_fraction s' n 0 else (n, lit_exponent s')
  end.

Definition lit_negative (s : string) : bool := has_prefix "-" s.

(** Division to the nearest integer, ties to even. *)
Definition round_half_even (a b : Z) : Z :=
  let d := a / b in
  match 2 * (a mod b) ?= b with Lt => d | Gt => d + 1 | Eq => if Z.even d then d else d + 1 end.

(** The float64 nearest to [n * 10 ^ k] ([0 <= n]) as [mantissa * 2 ^ exponent];
    [None] when it is too large for one. *)
Definition float64_of (n k : Z) : option (Z * Z) :=
  if n =? 0 then Some (0, 0)
  else
    let p := if 0 <=? k then n * 10 ^ k else n in
    let q := if 0 <=? k then 1 else 10 ^ (- k) in
    let e0 := Z.log2 p - Z.log2 q - 52 in
    let scaled e := (p * 2 ^ Z.max (- e) 0, q * 2 ^ Z.max e 0) in
    let e := Z.max (if (scaled e0).1 / (scaled e0).2 <? 2 ^ 52 then e0 - 1 else e0) (-1074) in
    let m := round_half_even (scaled e).1 (scaled e).2 in
    if ((0 <=? e) && (2 ^ 1024 <=? m * 2 ^ e))%bool then None else Some (m, e).

(** [strconv.ParseFloat(literal, 64)] of a number: sign, mantissa, exponent. *)
Definition parse_float (literal : string) : option (bool * (Z * Z)) :=
  let neg := lit_negative literal in
  let '(n, k) := lit_integer (if neg then drop_bytes 1 literal else literal) 0 in
  (fun f => (neg, f)) <$> float64_of n k.

(** A number has no more decimal digits than binary ones. *)
Definition decimal (n : Z) : string := itoa_loop (S (Z.to_nat (Z.log2 n))) n EmptyString.

(** [fmt.Sprintf("%.0f", x)]. *)
Definition format_f0 (x : bool * (Z * Z)) : string :=
  let '(neg, (m, e)) := x in
  (if neg then "-" else "") +:+ decimal (if 0 <=? e then m * 2 ^ e else round_half_even m (2 ^ (- e))).

Example float_examples :
  (format_f0 <$> parse_float "9007199254740993") = Some "9007199254740992" /\
  (format_f0 <$> parse_float "-2.5e1") = Some "-25" /\
  (format_f0 <$> parse_float "0.5") = Some "0" /\
  (format_f0 <$> parse_float "1e400") = None.
Proof. vm_compute. repeat split. Qed.

(** [strconv.ParseInt(literal, 10, 64)] and [ParseUint]. *)
Definition parse_int64 (literal : string) : option Z :=
  if lit_negative literal then n ← parse_unsigned (drop_bytes 1 literal); in_int (- n)
  else parse_unsigned literal ≫= in_int.

Definition parse_uint64 (literal : string) : option Z :=
  n ← parse_unsigned literal; if n <=? max_uint64 then Some n else None.

(** ** Structs

    Decoding goes on behind a member of the wrong type, which leaves its field
    as it is, and reports the error at the end: decoders give the value and
    whether there was no error. *)

Abbreviation members := (list (string * json)).

(** A member's name matches a field's up to case folding; the only characters
    beyond ASCII that fold to ASCII are U+017F and U+212A. *)
Fixpoint fold_name (s : string) : string :=
  match s with
  | EmptyString => EmptyString
  | String c s1 =>
    match s1 with
    | String d s2 =>
      if ((code c =? 197) && (code d =? 191))%bool then String "s" (fold_name s2)
      else match s2 with
           | String e s3 =>
             if ((code c =? 226) && (code d =? 132) && (code e =? 170))%bool then String "k" (fold_name s3)
             else String (lower_byte c) (fold_name s1)
           | EmptyString => String (lower_byte c) (fold_name s1)
           end
    | EmptyString => String (lower_byte c) EmptyString
    end
  end.

Definition values_of (o : members) (name : string) : list json :=
  snd <$> filter (fun kv => fold_name kv.1 = fold_name name) o.

(** The values of the members of one name, decoded one after the other. *)
Definition decode_all {A} (step : A -> json -> A * bool) (zero : A) (vs : list json) : A * bool :=
  foldl (fun acc v => let '(a, ok) := step acc.1 v in (a, (acc.2 && ok)%bool)) (zero, true) vs.

Definition string_step (s : string) (v : json) : string * bool :=
  match v with JString _ s' => (s', true) | JNull => (s, true) | _ => (s, false) end.
Definition bool_step (b : bool) (v : json) : bool * bool :=
  match v with JBool b' => (b', true) | JNull => (b, true) | _ => (b, false) end.
Definition int_step (n : Z) (v : json) : Z * bool :=
  match v with
  | JNumber lit => match parse_int64 lit with Some n' => (n', true) | None => (n, false) end
  | JNull => (n, true)
  | _ => (n, false)
  end.
Definition string_ptr_step (p : option string) (v : json) : option string * bool :=
  match v with JString _ s => (Some s, true) | JNull => (None, true) | _ => (Some (default "" p), false) end.
Definition uint64_ptr_step (p : option Z) (v : json) : option Z * bool :=
  match v with
  | JNumber lit => match parse_uint64 lit with Some n => (Some n, true) | None => (Some (default 0 p), false) end
  | JNull => (None, true)
  | _ => (Some (default 0 p), false)
  end.
(** A struct decoded twice has the members of both documents, in order. *)
Definition struct_step (o : members) (v : json) : members * bool :=
  match v with JObject _ kvs => (o ++ kvs, true) | JNull => (o, true) | _ => (o, false) end.
Definition struct_ptr_step (o : option members) (v : json) : option members * bool :=
  match v with
  | JObject _ kvs => (Some (default [] o ++ kvs), true)
  | JNull => (None, true)
  | _ => (Some (default [] o), false)
  end.
Definition raw_step (r : option json) (v : json) : option json * bool := (Some v, true).
Definition slice_step {A} (elem : json -> A * bool) (l : list A) (v : json) : list A * bool :=
  match v with
  | JArray _ vs => ((fun x => (elem x).1) <$> vs, forallb (fun x => (elem x).2) vs)
  | JNull => ([], true)
  | _ => (l, false)
  end.

Definition string_field (o : members) (name : string) := decode_all string_step "" (values_of o name).
Definition bool_field (o : members) (name : string) := decode_all bool_step false (values_of o name).
Definition int_field (o : members) (name : string) := decode_all int_step 0 (values_of o name).
Definition string_ptr_field (o : members) (name : string) := decode_all string_ptr_step None (values_of o name).
Definition uint64_ptr_field (o : members) (name : string) := decode_all uint64_ptr_step None (values_of o name).
Definition struct_field (o : members) (name : string) := decode_all struct_step [] (values_of o name).
Definition struct_ptr_field (o : members) (name : string) := decode_all struct_ptr_step None (values_of o name).
Definition raw_field (o : members) (name : string) : option json := (decode_all raw_step None (values_of o name)).1.
Definition strings_field (o : members) (name : string) := decode_all (slice_step (string_step "")) [] (values_of o name).
Definition structs_field (o : members) (name : string) := decode_all (slice_step (struct_step [])) [] (values_of o name).

(** A [json.RawMessage] that may be missing, decoded into a struct, a string or
    a slice of strings. *)
Abbreviation raw := (option json).

Definition struct_of (r : raw) : members * bool :=
  match r with Some v => struct_step [] v | None => ([], false) end.
Definition string_of (r : raw) : string * bool :=
  match r with Some v => string_step "" v | None => ("", false) end.
Definition strings_of (r : raw) : list string * bool :=
  match r with Some v => slice_step (string_step "") [] v | None => ([], false) end.
Definition raw_text (r : raw) : string := match r with Some v => json_text v | None => "" end.

Example decode_example :
  let o := (struct_of (parse (doc "{'threadid': 'a', 'Turn': {'id': 't'}, 'turn': {'status': 'ok'}, 'n': 1.5}"))).1 in
  string_field o "threadId" = ("a", true) /\
  (match struct_ptr_field o "turn" with
   | (Some t, ok) => ok && bool_decide (string_field t "id" = ("t", true)) && bool_decide (string_field t "status" = ("ok", true))
   | _ => false end)%bool = true /\
  int_field o "n" = (0, false).
Proof. vm_compute. repeat split. Qed.

(** [json.Unmarshal] into an [any]: an object is a map, so the last member of a
    name counts; a number too large for a float64 is an error. *)
Definition set_member (kvs : list (string * value)) (k : string) (v : value) : list (string * value) :=
  filter (fun kv => kv.1 <> k) kvs ++ [(k, v)].

Fixpoint decode_any (v : json) : option value :=
  match v with
  | JNull => Some VNil
  | JBool b => Some (VBool b)
  | JNumber lit => (fun f : bool * (Z * Z) => VFloat (if f.1 then - f.2.1 else f.2.1) f.2.2) <$> parse_float lit
  | JString _ s => Some (VString s)
  | JArray _ l =>
    VArray <$> (fix elems (l : list json) : option (list value) :=
      match l with
      | [] => Some []
      | x :: l' => match decode_any x, elems l' with Some a, Some r => Some (a :: r) | _, _ => None end
      end) l
  | JObject _ kvs =>
    VObject <$> (fix fields (kvs : list (string * json)) (acc : list (string * value)) : option (list (string * value)) :=
      match kvs with
      | [] => Some acc
      | (k, x) :: kvs' => match decode_any x with Some a => fields kvs' (set_member acc k a) | None => None end
      end) kvs []
  end.

Example decode_any_example :
  (parse (doc "{'a': [true, 2], 'a': 'x'}") ≫= decode_any) = Some (VObject [("a", VString "x")]).
Proof. vm_compute. reflexivity. Qed.
