(* ===== verification/CodexAppServer.v ===== *)
(** * The client of codex app-server (daemon/internal/agentexec/codex_appserver.go)

    One process of [codex app-server] at a time, spoken to in JSON-RPC, one line
    a message. The client tracks which turn is running in which thread under all
    the names of the thread, keeps the approvals and questions the process asks
    for, answers them as the phone decides, and matches responses with calls.

    A function that holds [c.mu] throughout is one function on the state; where
    the source releases the lock (around a write or a call) the sections are
    functions of their own, and the method is their composition. A channel is a
    number, a time its nanoseconds. What a process answers to a call comes from
    the environment; bytes that are written are returned. A write that fails
    delivers no message. *)

From stdpp Require Import base tactics list gmap strings sorting.
From Stdlib Require Import Ascii ZArith Lia.
From S2P Require Import Prelude GoStrings GoPath Json Protocol JsonDecode.
From S2P Require StartThread.

(** ** Errors *)

Inductive goError : Type :=
  | ErrNoPendingApproval (id : string)
  | ErrNoPendingUserInput (id : string)
  | ErrUserInputExpired
  | ErrAppServerExited (cause : string)
  | ErrAppServerClosed
  | ErrPromptNotStarted (cause : string)
  | ErrOther (message : string).

#[export] Instance goError_eq_dec : EqDecision goError.
Proof. solve_decision. Defined.

(** [(T, error)] where the value counts only beside a nil error. *)
Inductive result (A : Type) : Type := Good (a : A) | Bad (e : goError).
Arguments Good {_} _.
Arguments Bad {_} _.

Definition error_text (e : goError) : string :=
  match e with
  | ErrNoPendingApproval id => "no pending app-server approval " +:+ quoted id
  | ErrNoPendingUserInput id => "no pending app-server user input " +:+ quoted id
  | ErrUserInputExpired => "app-server user input expired"
  | ErrAppServerExited cause => "codex app-server exited" +:+ cause
  | ErrAppServerClosed => "codex app-server closed"
  | ErrPromptNotStarted cause => "agent prompt was not started" +:+ cause
  | ErrOther m => m
  end.

(** ** Requests of the process, and what is kept of them *)

Record ServerRequest : Type := mkRequest { reqID : string; reqMethod : string; reqParams : raw }.

Record PendingApproval : Type := mkPending {
  paID : string;
  paRequestID : string;
  paMethod : string;
  paThreadID : string;
  paTurnID : string;
  paWireID : string;
  paToolName : string;
  paDescription : string;
  paParams : raw;
  paPermissions : raw;
  paCreatedAt : Z
}.

Record resolvedApproval : Type := mkResolved { accepted : bool; approvedAt : Z }.
Record resolvedUserInput : Type := mkResolvedInput { inputStatus : string; resolvedAt : Z }.

Record UserInputOption : Type := mkOption { Label : string; OptionDescription : string }.
Record UserInputQuestion : Type := mkQuestion {
  qID : string;
  qHeader : string;
  qQuestion : string;
  qOptions : list UserInputOption;
  qIsOther : bool;
  qIsSecret : bool
}.

Record PendingUserInput : Type := mkPendingInput {
  puRequestID : string;
  puItemID : string;
  puThreadID : string;
  puTurnID : string;
  puWireID : string;
  puQuestions : list UserInputQuestion;
  puAutoResolutionMS : option Z;
  puCreatedAt : Z;
  puExpiresAt : option Z
}.

Record ApprovalSnapshot : Type := mkApprovalSnapshot {
  asID : string; asToolName : string; asDescription : string;
  asThreadID : string; asTurnID : string; asWireID : string
}.

Record UserInputSnapshot : Type := mkInputSnapshot {
  usRequestID : string; usItemID : string; usThreadID : string; usTurnID : string; usWireID : string;
  usQuestions : list UserInputQuestion; usAutoResolutionMS : option Z; usExpiresAt : option Z
}.

(** ** What is written to the process *)

Inductive requestId : Type := IdNumber (n : Z) | IdString (s : string).

#[export] Instance requestId_eq_dec : EqDecision requestId.
Proof. solve_decision. Defined.

Inductive message : Type :=
  | Request (id : Z) (method : string) (params : value)
  | Notification (method : string) (params : value)
  | Answer (id : requestId) (res : value)
  | AnswerError (id : requestId) (errcode : Z) (text : string).

(** A line and the process whose standard input it goes to. *)
Abbreviation written := (Z * message)%type.

(** What a call's channel receives. *)
Inductive rpcResult : Type := RpcOk (res : raw) | RpcErr (e : goError).

(** ** The state

    [cmd], [stdin], [stdout] and [cancel] are set and cleared together:
    [process] is the process they belong to. *)

Record CodexAppServer : Type := mkAppServer {
  generation : Z;
  process : option Z;
  running : bool;
  initialized : bool;
  stopping : bool;
  nextID : Z;
  pending : gmap string Z;
  activeTurn : gmap string string;
  turnStatus : gmap string string;
  terminalTurns : gset string;
  threadAlias : gmap string string;
  pendingAppr : gmap string PendingApproval;
  resolvedAppr : gmap string resolvedApproval;
  pendingInput : gmap string PendingUserInput;
  resolvedInput : gmap string resolvedUserInput;
  wireByThread : gmap string string
}.

Definition NewCodexAppServer : CodexAppServer :=
  mkAppServer 0 None false false false 0 ∅ ∅ ∅ ∅ ∅ ∅ ∅ ∅ ∅ ∅.

Definition resolvedApprovalLimit : nat := 512.
Definition terminalTurnLimit : nat := 512.

Definition set_life (c : CodexAppServer) (g : Z) (p : option Z) (r i s : bool) : CodexAppServer :=
  mkAppServer g p r i s (nextID c) (pending c) (activeTurn c) (turnStatus c) (terminalTurns c)
    (threadAlias c) (pendingAppr c) (resolvedAppr c) (pendingInput c) (resolvedInput c) (wireByThread c).
Definition set_rpc (c : CodexAppServer) (n : Z) (m : gmap string Z) : CodexAppServer :=
  mkAppServer (generation c) (process c) (running c) (initialized c) (stopping c) n m (activeTurn c) (turnStatus c)
    (terminalTurns c) (threadAlias c) (pendingAppr c) (resolvedAppr c) (pendingInput c) (resolvedInput c) (wireByThread c).
Definition set_turns (c : CodexAppServer) (a s : gmap string string) (t : gset string) : CodexAppServer :=
  mkAppServer (generation c) (process c) (running c) (initialized c) (stopping c) (nextID c) (pending c) a s t
    (threadAlias c) (pendingAppr c) (resolvedAppr c) (pendingInput c) (resolvedInput c) (wireByThread c).
Definition set_names (c : CodexAppServer) (a w : gmap string string) : CodexAppServer :=
  mkAppServer (generation c) (process c) (running c) (initialized c) (stopping c) (nextID c) (pending c) (activeTurn c)
    (turnStatus c) (terminalTurns c) a (pendingAppr c) (resolvedAppr c) (pendingInput c) (resolvedInput c) w.
Definition set_approvals (c : CodexAppServer) (p : gmap string PendingApproval) (r : gmap string resolvedApproval) : CodexAppServer :=
  mkAppServer (generation c) (process c) (running c) (initialized c) (stopping c) (nextID c) (pending c) (activeTurn c)
    (turnStatus c) (terminalTurns c) (threadAlias c) p r (pendingInput c) (resolvedInput c) (wireByThread c).
Definition set_inputs (c : CodexAppServer) (p : gmap string PendingUserInput) (r : gmap string resolvedUserInput) : CodexAppServer :=
  mkAppServer (generation c) (process c) (running c) (initialized c) (stopping c) (nextID c) (pending c) (activeTurn c)
    (turnStatus c) (terminalTurns c) (threadAlias c) (pendingAppr c) (resolvedAppr c) p r (wireByThread c).

(** [m[k]] of a map of strings: the empty string when there is no entry. *)
Definition entry (m : gmap string string) (k : string) : string := default "" (m !! k).
Definition set_default (s d : string) : string := if is_empty s then d else s.

(** ** Names of a thread *)

Definition resolveThreadIDLocked (c : CodexAppServer) (id : string) : string :=
  let id := TrimSpace id in
  if is_empty id then "" else set_default (entry (threadAlias c) id) id.
Definition ResolveThreadID := resolveThreadIDLocked.

Definition WireIDForThread (c : CodexAppServer) (id : string) : string :=
  let id := TrimSpace id in
  if is_empty id then "" else set_default (entry (wireByThread c) (resolveThreadIDLocked c id)) id.

Definition alias_if (cond : bool) (k canon : string) (m : gmap string string) : gmap string string :=
  if cond then <[k := canon]> m else m.

Definition registerThreadIDsLocked (c : CodexAppServer) (threadID sessionID wireID : string) : CodexAppServer :=
  let threadID := TrimSpace threadID in
  let sessionID := TrimSpace sessionID in
  let wireID := TrimSpace wireID in
  let canon := set_default (set_default threadID sessionID) wireID in
  if is_empty canon then c
  else
    let m := <[canon := canon]> (threadAlias c) in
    let m := alias_if (negb (is_empty threadID)) threadID canon m in
    let m := alias_if (negb (is_empty sessionID)) sessionID canon m in
    let m := alias_if (negb (is_empty wireID)) wireID canon m in
    set_names c m (<[canon := set_default wireID (set_default sessionID canon)]> (wireByThread c)).
Definition RegisterThreadIDs := registerThreadIDsLocked.

(** ** Turns *)

(** The first entry of a map that passes, in iteration order. *)
Definition range_find `{MapOrder} {A} (p : string -> A -> bool) (m : gmap string A) : option A :=
  snd <$> List.find (fun kv => p kv.1 kv.2) (range m).

(** [for k := range m { if cond { delete(m, k) } }] *)
Definition delete_if {A} (p : string -> A -> bool) (m : gmap string A) : gmap string A :=
  filter (fun kv => p kv.1 kv.2 = false) m.

Section WithOrder.
Context `{MapOrder}.

(** The lookup the active turns and the statuses share: the name itself, the
    canonical name, any other name of the same thread. *)
Definition lookup_alias (c : CodexAppServer) (m : gmap string string) (sessionOrThreadID : string) : string :=
  let id := TrimSpace sessionOrThreadID in
  if is_empty id then ""
  else if negb (is_empty (entry m id)) then entry m id
  else
    let canon := resolveThreadIDLocked c id in
    if negb (is_empty (entry m canon)) then entry m canon
    else default "" (range_find (fun k v => String.eqb (resolveThreadIDLocked c k) canon && negb (is_empty v))%bool m).

Definition activeTurnIDLocked (c : CodexAppServer) (id : string) : string := lookup_alias c (activeTurn c) id.
Definition lastTurnStatusLocked (c : CodexAppServer) (id : string) : string := lookup_alias c (turnStatus c) id.
Definition ActiveTurnID := activeTurnIDLocked.
Definition LastTurnStatus := lastTurnStatusLocked.
Definition IsTurnActive (c : CodexAppServer) (id : string) : bool := negb (is_empty (activeTurnIDLocked c id)).

(** The writes [SetActiveTurn] and [setStartingTurn] end with. *)
Definition record_turn (c : CodexAppServer) (threadID turnID status : string) : CodexAppServer :=
  let canon0 := resolveThreadIDLocked c threadID in
  let canon := set_default canon0 threadID in
  let c := if is_empty canon0 then set_names c (<[threadID := threadID]> (threadAlias c)) (wireByThread c) else c in
  let a := <[threadID := turnID]> (<[canon := turnID]> (activeTurn c)) in
  let s := <[threadID := status]> (<[canon := status]> (turnStatus c)) in
  let wire := entry (wireByThread c) canon in
  if is_empty wire then set_turns c a s (terminalTurns c)
  else set_turns c (<[wire := turnID]> a) (<[wire := status]> s) (terminalTurns c).

Definition SetActiveTurn (c : CodexAppServer) (threadID turnID : string) : CodexAppServer :=
  let threadID := TrimSpace threadID in
  let turnID := TrimSpace turnID in
  if (is_empty threadID || is_empty turnID || bool_decide (turnID ∈ terminalTurns c))%bool then c
  else record_turn c threadID turnID "inProgress".

(** [strings.EqualFold(status, "inProgress")]: no letter of it folds beyond ASCII
    but [s], which U+017F folds to. *)
Definition is_in_progress (status : string) : bool := String.eqb (fold_name status) "inprogress".

Definition setStartingTurn (c : CodexAppServer) (threadID turnID : string) : CodexAppServer :=
  let threadID := TrimSpace threadID in
  let turnID := TrimSpace turnID in
  if (is_empty threadID || is_empty turnID || bool_decide (turnID ∈ terminalTurns c))%bool then c
  else if (String.eqb (activeTurnIDLocked c threadID) turnID && is_in_progress (lastTurnStatusLocked c threadID))%bool then c
  else record_turn c threadID turnID "starting".

(** [k == threadID || k == canon || c.resolveThreadIDLocked(k) == canon] *)
Definition names_thread (c : CodexAppServer) (threadID canon k : string) : bool :=
  (String.eqb k threadID || String.eqb k canon || String.eqb (resolveThreadIDLocked c k) canon)%bool.

Definition ClearActiveTurn (c : CodexAppServer) (threadID : string) : CodexAppServer :=
  let canon := resolveThreadIDLocked c threadID in
  set_turns c (delete_if (fun k _ => names_thread c threadID canon k) (activeTurn c)) (turnStatus c) (terminalTurns c).

(** The condition under which the end of a turn takes a request away. *)
Definition request_of_turn (c : CodexAppServer) (canon turnID reqThread reqTurn : string) : bool :=
  (String.eqb (resolveThreadIDLocked c reqThread) canon &&
   (is_empty turnID || is_empty reqTurn || String.eqb reqTurn turnID))%bool.

Definition completeTurn (c : CodexAppServer) (threadID turnID status : string) : CodexAppServer :=
  let threadID := TrimSpace threadID in
  let turnID := TrimSpace turnID in
  let status := TrimSpace status in
  let canon := resolveThreadIDLocked c threadID in
  let current := activeTurnIDLocked c threadID in
  if (negb (is_empty current) && negb (is_empty turnID) && negb (String.eqb turnID current))%bool then c
  else
    let terminal :=
      if is_empty turnID then terminalTurns c
      else {[ turnID ]} ∪ (if (terminalTurnLimit <=? size (terminalTurns c))%nat then ∅ else terminalTurns c) in
    let active := delete_if (fun k _ => names_thread c threadID canon k) (activeTurn c) in
    let wire := entry (wireByThread c) canon in
    let st :=
      if is_empty status then turnStatus c
      else let s := <[threadID := status]> (<[canon := status]> (turnStatus c)) in
           if is_empty wire then s else <[wire := status]> s in
    let c1 := set_turns c active st terminal in
    let c2 := set_approvals c1
      (delete_if (fun _ p => request_of_turn c canon turnID (paThreadID p) (paTurnID p)) (pendingAppr c)) (resolvedAppr c) in
    set_inputs c2
      (delete_if (fun _ p => request_of_turn c canon turnID (puThreadID p) (puTurnID p)) (pendingInput c)) (resolvedInput c).

(** ** What the process asks for *)

Definition isApprovalMethod (method : string) : bool :=
  bool_decide (method ∈ ["item/commandExecution/requestApproval"; "item/fileChange/requestApproval";
    "item/permissions/requestApproval"; "applyPatchApproval"; "execCommandApproval"]).

Definition truncateString (s : string) (n : nat) : string :=
  if (String.length s <=? n)%nat then s else take_bytes n s +:+ "...".

Definition truncateRPC (r : raw) (n : nat) : string := truncateString (raw_text r) n.

Definition join_strings (sep : string) (parts : list string) : string :=
  match parts with
  | [] => ""
  | p :: ps => foldl (fun acc q => acc +:+ sep +:+ q) p ps
  end.

Definition commandDescription (r : raw) : string :=
  match r with
  | None => ""
  | Some _ =>
    if (string_of r).2 then TrimSpace (string_of r).1
    else if (strings_of r).2 then TrimSpace (join_strings " " (strings_of r).1)
    else TrimSpace (raw_text r)
  end.

Definition approval_tool (method reason : string) (command : raw) : string * string :=
  if bool_decide (method ∈ ["item/commandExecution/requestApproval"; "execCommandApproval"]) then
    let cmd := commandDescription command in
    ("command", if is_empty cmd then reason else if is_empty reason then cmd else reason +:+ ": " +:+ cmd)
  else if bool_decide (method ∈ ["item/fileChange/requestApproval"; "applyPatchApproval"]) then
    ("file_change", set_default reason "Codex requests file change approval")
  else if String.eqb method "item/permissions/requestApproval" then
    ("permissions", set_default reason "Codex requests additional permissions")
  else if String.eqb method "item/tool/requestUserInput" then
    ("user_input", set_default reason "Codex is waiting for user input")
  else ("approval", reason).

(** The error of the decoder is ignored here: fields of other types stay empty. *)
Definition pendingFromServerRequest (req : ServerRequest) (now : Z) : PendingApproval :=
  let o := (struct_of (reqParams req)).1 in
  let str name := (string_field o name).1 in
  let threadID := set_default (str "threadId") (str "conversationId") in
  let '(tool, desc) := approval_tool (reqMethod req) (TrimSpace (str "reason")) (raw_field o "command") in
  let id := set_default (set_default (set_default (TrimSpace (str "approvalId")) (TrimSpace (str "itemId")))
                                     (TrimSpace (str "callId"))) (reqID req) in
  let phoneID := if (negb (is_empty (reqID req)) && negb (String.eqb (reqID req) id))%bool then id +:+ ":" +:+ reqID req else id in
  mkPending phoneID (reqID req) (reqMethod req) threadID (str "turnId") "" tool
    (truncateString (set_default desc "Codex approval required") 240) (reqParams req) (raw_field o "permissions") now.

(** Unlike [SetActiveTurn], nothing here asks whether the turn is over. *)
Definition TrackServerRequest (c : CodexAppServer) (req : ServerRequest) (now : Z) : option PendingApproval * CodexAppServer :=
  if negb (isApprovalMethod (reqMethod req)) then (None, c)
  else
    let p := pendingFromServerRequest req now in
    let '(p, c) :=
      if is_empty (paThreadID p) then (p, c)
      else
        let canon := resolveThreadIDLocked c (paThreadID p) in
        let c := registerThreadIDsLocked c (paThreadID p) "" "" in
        let wire := set_default (entry (wireByThread c) canon) (paThreadID p) in
        let p := mkPending (paID p) (paRequestID p) (paMethod p) (paThreadID p) (paTurnID p) wire (paToolName p)
                   (paDescription p) (paParams p) (paPermissions p) (paCreatedAt p) in
        if is_empty (paTurnID p) then (p, c)
        else
          let put v m := <[wire := v]> (<[paThreadID p := v]> (<[canon := v]> m)) in
          (p, set_turns c (put (paTurnID p) (activeTurn c)) (put "inProgress" (turnStatus c)) (terminalTurns c)) in
    (Some p, set_approvals c (<[paID p := p]> (pendingAppr c)) (resolvedAppr c)).

Definition question_of (o : members) : UserInputQuestion * bool :=
  let option_of o' := (mkOption (string_field o' "label").1 (string_field o' "description").1,
                       ((string_field o' "label").2 && (string_field o' "description").2)%bool) in
  let opts := structs_field o "options" in
  (mkQuestion (string_field o "id").1 (string_field o "header").1 (string_field o "question").1
     ((fun o' => (option_of o').1) <$> opts.1) (bool_field o "isOther").1 (bool_field o "isSecret").1,
   ((string_field o "id").2 && (string_field o "header").2 && (string_field o "question").2 && opts.2 &&
    forallb (fun o' => (option_of o').2) opts.1 && (bool_field o "isOther").2 && (bool_field o "isSecret").2)%bool).

(** [time.Duration(ms) * time.Millisecond]: both the conversion and the product wrap. *)
Definition duration_ms (ms : Z) : Z := int64_wrap (int64_wrap ms * 1000000).

Definition TrackUserInput (c : CodexAppServer) (req : ServerRequest) (now : Z) : option PendingUserInput * CodexAppServer :=
  if negb (String.eqb (reqMethod req) "item/tool/requestUserInput") then (None, c)
  else
    let '(o, ok) := struct_of (reqParams req) in
    let '(threadID, ok1) := string_field o "threadId" in
    let '(turnID, ok2) := string_field o "turnId" in
    let '(itemID, ok3) := string_field o "itemId" in
    let '(auto, ok4) := uint64_ptr_field o "autoResolutionMs" in
    let '(qs, ok5) := structs_field o "questions" in
    let questions := question_of <$> qs in
    if (negb (ok && ok1 && ok2 && ok3 && ok4 && ok5 && forallb snd questions) || is_empty (reqID req) || is_empty itemID ||
        bool_decide (qs = []))%bool then (None, c)
    else if existsb (fun q => is_empty (TrimSpace (qID q))) questions.*1 then (None, c)
    else
      let canon := resolveThreadIDLocked c threadID in
      let wire := set_default (entry (wireByThread c) canon) threadID in
      let p := mkPendingInput (reqID req) itemID threadID turnID wire questions.*1 auto now
                 ((fun ms => now + duration_ms ms) <$> auto) in
      let c := if is_empty turnID then c
               else set_turns c (<[canon := turnID]> (activeTurn c)) (<[canon := "inProgress"]> (turnStatus c)) (terminalTurns c) in
      (Some p, set_inputs c (<[puRequestID p := p]> (pendingInput c)) (resolvedInput c)).

(** ** What is shown to the phone *)

Definition named (c : CodexAppServer) (id thread wire : string) : bool :=
  let canon := resolveThreadIDLocked c id in
  (String.eqb thread id || String.eqb wire id || String.eqb thread canon || String.eqb wire canon)%bool.

(** The newest of the requests that pass; the first of those of the same time. *)
Definition newest {A} (created : A -> Z) (l : list A) : option A :=
  foldl (fun best p => match best with
                       | Some b => if created b <? created p then Some p else best
                       | None => Some p
                       end) None l.

Definition PendingApprovalFor (c : CodexAppServer) (sessionOrThreadID : string) : option ApprovalSnapshot :=
  let id := TrimSpace sessionOrThreadID in
  (fun p => mkApprovalSnapshot (paID p) (paToolName p) (paDescription p) (paThreadID p) (paTurnID p) (paWireID p)) <$>
  newest paCreatedAt (List.filter (fun p => named c id (paThreadID p) (paWireID p)) (range_values (pendingAppr c))).

Definition PendingUserInputFor (c : CodexAppServer) (sessionOrThreadID : string) : option UserInputSnapshot :=
  let id := TrimSpace sessionOrThreadID in
  (fun p => mkInputSnapshot (puRequestID p) (puItemID p) (puThreadID p) (puTurnID p) (puWireID p) (puQuestions p)
              (puAutoResolutionMS p) (puExpiresAt p)) <$>
  newest puCreatedAt (List.filter (fun p => named c id (puThreadID p) (puWireID p)) (range_values (pendingInput c))).

Definition HasPendingApproval (c : CodexAppServer) (approvalID : string) : bool :=
  (bool_decide (is_Some (pendingAppr c !! approvalID)) ||
   existsb (fun p => String.eqb (paRequestID p) approvalID || String.eqb (paID p) approvalID)%bool (range_values (pendingAppr c)))%bool.

(** ** Answers *)

(** [fmt.Sscan(id, &i)] of an id of digits: a leading zero makes it octal, and
    scanning stops at the first digit that is none. *)
Fixpoint octal_value (s : string) (acc : Z) : Z :=
  match s with
  | String c s' => if ((48 <=? code c) && (code c <=? 55))%bool then octal_value s' (acc * 8 + (code c - 48)) else acc
  | EmptyString => acc
  end.

Definition sscan_int64 (s : string) : option Z :=
  if has_prefix "0" s then in_int (octal_value s 0) else parse_unsigned s ≫= in_int.

Fixpoint all_digits (s : string) : bool :=
  match s with EmptyString => true | String c s' => (is_digit (code c) && all_digits s')%bool end.
Definition isAllDigits (s : string) : bool := (negb (is_empty s) && all_digits s)%bool.

Definition encodeRequestID (id : string) : result requestId :=
  let id := TrimSpace id in
  if is_empty id then Bad (ErrOther "empty request id")
  else if isAllDigits id
  then match sscan_int64 id with Some i => Good (IdNumber i) | None => Good (IdString id) end
  else Good (IdString id).

Definition not_running : goError := ErrOther "app-server not running".

(** A write of one line, under the lock: [werr] is what it fails with. *)
Definition write_line (c : CodexAppServer) (m : message) (werr : option goError) : option goError * list written :=
  match running c, process c with
  | true, Some p => match werr with Some e => (Some e, []) | None => (None, [(p, m)]) end
  | _, _ => (Some not_running, [])
  end.

Definition Respond (c : CodexAppServer) (requestID : string) (res : value) (werr : option goError) : option goError * list written :=
  match encodeRequestID requestID with
  | Bad e => (Some e, [])
  | Good id => write_line c (Answer id res) werr
  end.

Definition RespondError (c : CodexAppServer) (requestID : string) (errcode : Z) (text : string) (werr : option goError)
  : option goError * list written :=
  match encodeRequestID requestID with
  | Bad e => (Some e, [])
  | Good id => write_line c (AnswerError id errcode text) werr
  end.

Definition writeNotification (c : CodexAppServer) (method : string) (params : value) (werr : option goError)
  : option goError * list written := write_line c (Notification method params) werr.

Definition decision (s : string) : value := VObject [("decision", VString s)].

Definition buildApprovalResult (p : PendingApproval) (accept : bool) : result value :=
  if bool_decide (paMethod p ∈ ["item/commandExecution/requestApproval"; "item/fileChange/requestApproval"])
  then Good (decision (if accept then "accept" else "decline"))
  else if bool_decide (paMethod p ∈ ["applyPatchApproval"; "execCommandApproval"])
  then Good (decision (if accept then "approved" else "denied"))
  else if String.eqb (paMethod p) "item/permissions/requestApproval" then
    if negb accept then Bad (ErrOther "permissions deny uses error response")
    else Good (VObject [("permissions", default (VObject []) (paPermissions p ≫= decode_any)); ("scope", VString "turn")])
  else if String.eqb (paMethod p) "item/tool/requestUserInput" then
    if negb accept then Bad (ErrOther "user input deny uses error response")
    else Good (VObject [("answers", VObject [])])
  else Good (decision (if accept then "accept" else "decline")).

(** The answer [DecidePendingWithFallback] writes: its second section. *)
Definition respond_decision (c : CodexAppServer) (p : PendingApproval) (accept : bool) (werr : option goError)
  : option goError * list written :=
  match buildApprovalResult p accept with
  | Good res => Respond c (paRequestID p) res werr
  | Bad e => if accept then (Some e, []) else RespondError c (paRequestID p) 4001 "user denied" werr
  end.

Definition approvalDecisionName (accept : bool) : string := if accept then "approved" else "denied".

Inductive taken : Type :=
  | Decided (outcome : option goError)
  | Taken (p : PendingApproval).

Definition is_called (approvalID : string) (p : PendingApproval) : bool :=
  (String.eqb (paRequestID p) approvalID || String.eqb (paID p) approvalID)%bool.

(** The first section: what is decided already, else the request is taken out. *)
Definition takePending (c : CodexAppServer) (approvalID : string) (accept : bool) : taken * CodexAppServer :=
  match resolvedAppr c !! approvalID with
  | Some d =>
    (Decided (if Bool.eqb (accepted d) accept then None
              else Some (ErrOther ("approval_already_resolved: app-server approval " +:+ quoted approvalID +:+ " was already " +:+
                                   approvalDecisionName (accepted d)))), c)
  | None =>
    let p := match pendingAppr c !! approvalID with
             | Some p => Some p
             | None => range_find (fun _ cand => is_called approvalID cand) (pendingAppr c)
             end in
    match p with
    | Some p => (Taken p, set_approvals c (delete (paID p) (pendingAppr c)) (resolvedAppr c))
    | None => (Decided (Some (ErrNoPendingApproval approvalID)), c)
    end
  end.

(** The oldest entry; the first of those of the same time. An entry under the
    empty name would be taken for none. *)
Definition oldest {A} (at_ : A -> Z) (m : gmap string A) : string * Z :=
  foldl (fun best kv => if (is_empty best.1 || (at_ kv.2 <? best.2))%bool then (kv.1, at_ kv.2) else best) ("", 0) (range m).

(** [for len(m) > limit { delete(m, oldest) }]: each round takes an entry away,
    so as many rounds as there are entries are enough. *)
Fixpoint evict_oldest {A} (at_ : A -> Z) (limit fuel : nat) (m : gmap string A) : gmap string A :=
  match fuel with
  | O => m
  | S k => if (size m <=? limit)%nat then m else evict_oldest at_ limit k (delete (oldest at_ m).1 m)
  end.

Definition remember {A} (at_ : A -> Z) (ids : list string) (d : A) (m : gmap string A) : gmap string A :=
  let m := foldl (fun m id => if is_empty id then m else <[id := d]> m) m ids in
  evict_oldest at_ resolvedApprovalLimit (size m) m.

Definition rememberResolvedApproval (c : CodexAppServer) (p : PendingApproval) (accept : bool) (now : Z) : CodexAppServer :=
  set_approvals c (pendingAppr c) (remember approvedAt [paID p; paRequestID p] (mkResolved accept now) (resolvedAppr c)).

Definition rememberResolvedInputLocked (c : CodexAppServer) (p : PendingUserInput) (status : string) (now : Z) : CodexAppServer :=
  set_inputs c (pendingInput c) (remember resolvedAt [puRequestID p; puItemID p] (mkResolvedInput status now) (resolvedInput c)).

(** The last section: a request whose answer could not be written is put back. *)
Definition finish_decision (c : CodexAppServer) (p : PendingApproval) (accept : bool) (failed : option goError) (now : Z)
  : option goError * CodexAppServer :=
  match failed with
  | Some e => (Some e, set_approvals c (<[paID p := p]> (pendingAppr c)) (resolvedAppr c))
  | None => (None, rememberResolvedApproval c p accept now)
  end.

(** The three sections with nothing in between. *)
Definition DecidePendingWithFallback (c : CodexAppServer) (approvalID : string) (accept : bool) (werr : option goError) (now : Z)
  : option goError * CodexAppServer * list written :=
  match takePending c approvalID accept with
  | (Decided e, c) => (e, c, [])
  | (Taken p, c) =>
    let '(failed, out) := respond_decision c p accept werr in
    let '(e, c) := finish_decision c p accept failed now in
    (e, c, out)
  end.
Definition ApprovePending (c : CodexAppServer) (approvalID : string) := DecidePendingWithFallback c approvalID true.
Definition DenyPending (c : CodexAppServer) (approvalID : string) := DecidePendingWithFallback c approvalID false.

(** Answers to questions: [answers] maps question ids to the values given. *)
Definition answers_value (answers : gmap string (list string)) : value :=
  VObject [("answers", VObject ((fun kv => (kv.1, VObject [("answers", VArray (VString <$> kv.2))])) <$> range answers))].

Definition valid_questions (p : PendingUserInput) : gmap string bool := foldl (fun m q => <[qID q := true]> m) ∅ (puQuestions p).

Inductive input_taken : Type :=
  | InputDone (status : string) (e : option goError)
  | InputTaken (p : PendingUserInput) (res : value).

Definition takeInput (c : CodexAppServer) (requestID : string) (answers : gmap string (list string)) (now : Z)
  : input_taken * CodexAppServer :=
  let requestID := TrimSpace requestID in
  match resolvedInput c !! requestID with
  | Some r => (InputDone (inputStatus r) None, c)
  | None =>
    let p := match pendingInput c !! requestID with
             | Some p => Some p
             | None => range_find (fun _ q => String.eqb (puRequestID q) requestID || String.eqb (puItemID q) requestID)%bool (pendingInput c)
             end in
    match p with
    | None => (InputDone "stale" (Some (ErrNoPendingUserInput requestID)), c)
    | Some p =>
      let taken_out := set_inputs c (delete (puRequestID p) (pendingInput c)) (resolvedInput c) in
      if (match puExpiresAt p with Some t => t <=? now | None => false end)
      then (InputDone "expired" (Some ErrUserInputExpired), rememberResolvedInputLocked taken_out p "expired" now)
      else match List.find (fun kv => negb (default false (valid_questions p !! kv.1))) (range answers) with
           | Some (id, _) => (InputDone "rejected" (Some (ErrOther ("unknown question id " +:+ quoted id))), c)
           | None =>
             match List.find (fun kv => negb (bool_decide (is_Some (answers !! kv.1)))) (range (valid_questions p)) with
             | Some (id, _) => (InputDone "rejected" (Some (ErrOther ("answer required for question " +:+ quoted id))), c)
             | None => (InputTaken p (answers_value answers), taken_out)
             end
           end
    end
  end.

Definition finish_input (c : CodexAppServer) (p : PendingUserInput) (failed : option goError) (now : Z)
  : string * option goError * CodexAppServer :=
  match failed with
  | Some e => ("indeterminate", Some e, rememberResolvedInputLocked c p "indeterminate" now)
  | None => ("accepted", None, rememberResolvedInputLocked c p "accepted" now)
  end.

Definition RespondUserInput (c : CodexAppServer) (requestID : string) (answers : gmap string (list string))
    (werr : option goError) (now : Z) : string * option goError * CodexAppServer * list written :=
  match takeInput c requestID answers now with
  | (InputDone status e, c) => (status, e, c, [])
  | (InputTaken p res, c) =>
    let '(failed, out) := Respond c (puRequestID p) res werr in
    (finish_input c p failed now, out)
  end.

(** ** The life of the process *)

Definition fresh_tables (c : CodexAppServer) : CodexAppServer :=
  mkAppServer (generation c) (process c) (running c) (initialized c) (stopping c) (nextID c) ∅ ∅ ∅ ∅ (threadAlias c)
    ∅ ∅ ∅ ∅ (wireByThread c).

(** [proc] is the process [cmd.Start] gave; [Bad e] when a pipe or the start failed. *)
Definition ensureProcess (c : CodexAppServer) (start : result Z) : option goError * CodexAppServer :=
  if stopping c then (Some ErrAppServerClosed, c)
  else if running c then (None, c)
  else match start with
       | Bad e => (Some e, c)
       | Good proc => (None, fresh_tables (set_life c (u64_add (generation c) 1) (Some proc) true false (stopping c)))
       end.

(** The calls still open are handed out to be failed. *)
Definition invalidateProcessStateLocked (c : CodexAppServer) : list Z * CodexAppServer :=
  (range_values (pending c), fresh_tables (set_life c (generation c) None false false (stopping c))).

Definition failRPCs (channels : list Z) (e : goError) : list (Z * rpcResult) := (fun ch => (ch, RpcErr e)) <$> channels.

Definition affectedSessionsLocked (c : CodexAppServer) : list string :=
  let add (acc : gset string) (id : string) : gset string :=
    let id := TrimSpace id in
    if is_empty id then acc
    else {[ set_default (entry (wireByThread c) (resolveThreadIDLocked c id)) id ]} ∪ acc in
  let s := foldl add ∅ (fst <$> range (activeTurn c)) in
  let s := foldl add s ((fun p => set_default (paWireID p) (paThreadID p)) <$> range_values (pendingAppr c)) in
  let s := foldl add s ((fun p => set_default (puWireID p) (puThreadID p)) <$> range_values (pendingInput c)) in
  merge_sort String.le (elements s).

Record AppServerExit : Type := mkExit { exitGeneration : Z; exitSessions : list string; exitErr : goError }.

(** What becomes of the open calls and, unless the daemon is stopping or
    the process is an old one, the event the exit handler gets. *)
Definition handleProcessExit (c : CodexAppServer) (gen : Z) (cmd : Z) (waitErr : string)
  : list (Z * rpcResult) * option AppServerExit * CodexAppServer :=
  if negb ((generation c =? gen) && bool_decide (process c = Some cmd)) then ([], None, c)
  else
    let '(open, c') := invalidateProcessStateLocked c in
    if stopping c then (failRPCs open ErrAppServerClosed, None, c')
    else
      let e := ErrAppServerExited (if is_empty waitErr then "" else ": " +:+ waitErr) in
      (failRPCs open e, Some (mkExit gen (affectedSessionsLocked c) e), c').

(** [Close]; the process that is killed, if any. *)
Definition Close (c : CodexAppServer) : list (Z * rpcResult) * option Z * CodexAppServer :=
  let c := set_life c (generation c) (process c) (running c) (initialized c) true in
  if (negb (running c) && bool_decide (process c = None))%bool then ([], None, c)
  else
    let '(open, c') := invalidateProcessStateLocked c in
    (failRPCs open ErrAppServerClosed, process c, c').

Definition Initialized (c : CodexAppServer) : bool := (running c && initialized c)%bool.

(** ** Calls *)

(** [callLocked] up to the wait: the id is taken before the lock. *)
Definition call_send (c : CodexAppServer) (channel : Z) (method : string) (params : value) (werr : option goError)
  : result string * CodexAppServer * list written :=
  let n := int64_wrap (nextID c + 1) in
  let c := set_rpc c n (pending c) in
  let id := Itoa n in
  match running c, process c with
  | true, Some p =>
    match werr with
    | Some e => (Bad e, set_rpc c n (delete id (<[id := channel]> (pending c))), [])
    | None => (Good id, set_rpc c n (<[id := channel]> (pending c)), [(p, Request n method params)])
    end
  | _, _ => (Bad not_running, c, [])
  end.

(** The context ended first. *)
Definition call_cancel (c : CodexAppServer) (id : string) : CodexAppServer := set_rpc c (nextID c) (delete id (pending c)).

(** ** The lines the process writes *)

Record rpcError : Type := mkRpcError { errCode : Z; errMessage : string; errData : raw }.
Record rpcMessage : Type := mkMessage {
  msgID : raw; msgMethod : string; msgParams : raw; msgResult : raw; msgError : option rpcError
}.

(** [json.Unmarshal(line, &msg)]. *)
Definition decode_message (line : string) : option rpcMessage :=
  let '(o, ok) := struct_of (parse line) in
  let '(method, ok1) := string_field o "method" in
  let '(err, ok2) := struct_ptr_field o "error" in
  let decoded := (fun e => (mkRpcError (int_field e "code").1 (string_field e "message").1 (raw_field e "data"),
                            ((int_field e "code").2 && (string_field e "message").2)%bool)) <$> err in
  if (ok && ok1 && ok2 && default true (snd <$> decoded))%bool
  then Some (mkMessage (raw_field o "id") method (raw_field o "params") (raw_field o "result") (fst <$> decoded))
  else None.

(** [strings.Trim] of the quotes around a text. *)
Fixpoint trim_quotes_left (s : string) : string :=
  match s with String c s' => if code c =? 34 then trim_quotes_left s' else s | EmptyString => s end.
Definition trim_quotes (s : string) : string := rev_string (trim_quotes_left (rev_string (trim_quotes_left s))).

Definition rawIDString (r : raw) : string :=
  match r with
  | None | Some JNull => ""
  | Some (JString t s) => if is_empty s then trim_quotes t else s
  | Some (JNumber lit) => match parse_float lit with Some f => format_f0 f | None => trim_quotes lit end
  | Some v => trim_quotes (json_text v)
  end.

Definition HandleNotification (c : CodexAppServer) (method : string) (params : raw) : CodexAppServer :=
  let '(o, ok) := struct_of params in
  if String.eqb method "turn/started" then
    let '(threadID, ok1) := string_field o "threadId" in
    let '(turn, ok2) := struct_ptr_field o "turn" in
    let '(id, ok3) := string_field (default [] turn) "id" in
    if (ok && ok1 && ok2 && ok3 && negb (is_empty threadID) && negb (is_empty id))%bool then SetActiveTurn c threadID id else c
  else if String.eqb method "turn/completed" then
    let '(threadID, ok1) := string_field o "threadId" in
    let '(turn, ok2) := struct_ptr_field o "turn" in
    let '(id, ok3) := string_field (default [] turn) "id" in
    let '(status, ok4) := string_field (default [] turn) "status" in
    if (ok && ok1 && ok2 && ok3 && ok4 && negb (is_empty threadID))%bool then completeTurn c threadID id status else c
  else if String.eqb method "thread/started" then
    let '(thread, ok1) := struct_ptr_field o "thread" in
    let '(id, ok2) := string_field (default [] thread) "id" in
    let '(sessionID, ok3) := string_field (default [] thread) "sessionId" in
    if (ok && ok1 && ok2 && ok3 && bool_decide (is_Some thread))%bool then RegisterThreadIDs c id sessionID "" else c
  else c.

(** What [readLoop] does with a line: whether it goes on, and what it delivers.
    Handlers run before the next line. *)
Inductive delivery : Type :=
  | ToRequestHandler (req : ServerRequest)
  | ToNotifyHandler (method : string) (params : raw)
  | ToCall (channel : Z) (res : rpcResult).

Definition response_result (m : rpcMessage) : rpcResult :=
  match msgError m with
  | Some e =>
    let detail := match errData e with Some _ => errMessage e +:+ " " +:+ truncateRPC (errData e) 200 | None => errMessage e end in
    RpcErr (ErrOther ("rpc " +:+ Itoa (errCode e) +:+ ": " +:+ detail))
  | None => RpcOk (msgResult m)
  end.

Definition current_reader (c : CodexAppServer) (gen : Z) (reader : Z) : bool :=
  (running c && (generation c =? gen) && bool_decide (process c = Some reader))%bool.

Definition is_null (r : raw) : bool := match r with Some JNull => true | _ => false end.
Definition present (r : raw) : bool := bool_decide (is_Some r).

Definition read_line (c : CodexAppServer) (gen reader : Z) (line : string) (now : Z) : bool * list delivery * CodexAppServer :=
  if is_empty (TrimSpace line) then (true, [], c)
  else match decode_message (TrimSpace line) with
       | None => (true, [], c)
       | Some m =>
         if negb (current_reader c gen reader) then (false, [], c)
         else
           let hasID := (present (msgID m) && negb (is_null (msgID m)))%bool in
           if (hasID && negb (is_empty (msgMethod m)) && negb (present (msgResult m)) && bool_decide (msgError m = None))%bool then
             let req := mkRequest (rawIDString (msgID m)) (msgMethod m) (msgParams m) in
             let '(_, c) := TrackServerRequest c req now in
             let '(_, c) := TrackUserInput c req now in
             (true, [ToRequestHandler req], c)
           else if negb hasID then
             if is_empty (msgMethod m) then (true, [], c)
             else (true, [ToNotifyHandler (msgMethod m) (msgParams m)], HandleNotification c (msgMethod m) (msgParams m))
           else
             let id := rawIDString (msgID m) in
             let c' := set_rpc c (nextID c) (delete id (pending c)) in
             (true, match pending c !! id with Some ch => [ToCall ch (response_result m)] | None => [] end, c')
       end.
End WithOrder.

(** ** Methods that call the process

    A method is a program of critical sections and calls. Other goroutines run
    between any two of its nodes, so a section gets the state as it is then. *)

Inductive prog (A : Type) : Type :=
  | Ret (a : A)
  | Section_ (f : CodexAppServer -> prog A * CodexAppServer)
  | Call (method : string) (params : value) (k : result raw -> prog A)
  | Tick (k : option goError -> prog A).
Arguments Ret {_} _.
Arguments Section_ {_} _.
Arguments Call {_} _ _ _.
Arguments Tick {_} _.

Fixpoint prog_bind {A B} (m : prog A) (f : A -> prog B) : prog B :=
  match m with
  | Ret a => f a
  | Section_ g => Section_ (fun c => let '(m', c') := g c in (prog_bind m' f, c'))
  | Call method params k => Call method params (fun r => prog_bind (k r) f)
  | Tick k => Tick (fun e => prog_bind (k e) f)
  end.
#[export] Instance prog_mret : MRet prog := fun A a => Ret a.
#[export] Instance prog_mbind : MBind prog := fun A B f m => prog_bind m f.

Definition section {A} (f : CodexAppServer -> A * CodexAppServer) : prog A :=
  Section_ (fun c => let '(a, c') := f c in (Ret a, c')).
Definition observe {A} (f : CodexAppServer -> A) : prog A := section (fun c => (f c, c)).
Definition update (f : CodexAppServer -> CodexAppServer) : prog unit := section (fun c => (tt, f c)).
Definition call (method : string) (params : value) : prog (result raw) := Call method params Ret.

(** ** Responses *)

Definition parseThreadStartResponse (r : raw) : string * string :=
  let '(o, ok) := struct_of r in
  let '(thread, ok1) := struct_ptr_field o "thread" in
  let '(tid, ok2) := string_field (default [] thread) "id" in
  let '(tsid, ok3) := string_field (default [] thread) "sessionId" in
  let '(id, ok4) := string_field o "id" in
  let '(threadID, ok5) := string_field o "threadId" in
  let '(sessionID, ok6) := string_field o "sessionId" in
  if negb (ok && ok1 && ok2 && ok3 && ok4 && ok5 && ok6) then ("", "")
  else match thread with
       | Some _ => (tid, tsid)
       | None => if negb (is_empty threadID) then (threadID, sessionID) else (id, sessionID)
       end.

Definition parseTurnID (r : raw) : string :=
  let '(o, ok) := struct_of r in
  let '(turn, ok1) := struct_ptr_field o "turn" in
  let '(tid, ok2) := string_field (default [] turn) "id" in
  let '(turnID, ok3) := string_field o "turnId" in
  let '(id, ok4) := string_field o "id" in
  if negb (ok && ok1 && ok2 && ok3 && ok4) then ""
  else set_default (set_default tid turnID) id.

(** ** Requests *)

Definition isImageAttachment (f : StartThread.LocalFile) : bool :=
  (has_prefix "image/" (to_lower (TrimSpace (StartThread.FileMIME f))) ||
   bool_decide (to_lower (Ext (StartThread.FilePath f)) ∈ [".png"; ".jpg"; ".jpeg"; ".webp"; ".gif"; ".bmp"; ".tif"; ".tiff"]))%bool.

Definition newline : string := of_codes [10].

Definition buildTurnInput (prompt : string) (files : list StartThread.LocalFile) : result (list value) :=
  let files := List.filter (fun f => negb (is_empty (TrimSpace (StartThread.FilePath f)))) files in
  let path f := TrimSpace (StartThread.FilePath f) in
  let images := (fun f => VObject [("type", VString "localImage"); ("path", VString (path f))]) <$>
    List.filter isImageAttachment files in
  let extra := (fun f => "Attached file: " +:+ set_default (StartThread.FileName f) (Base (path f)) +:+ " (" +:+ path f +:+ ")") <$>
    List.filter (fun f => negb (isImageAttachment f)) files in
  let text := TrimSpace prompt in
  let text :=
    match extra with
    | [] => text
    | _ => (if is_empty text then "" else text +:+ newline +:+ newline) +:+ join_strings newline extra
    end in
  let input := (if is_empty text then [] else [VObject [("type", VString "text"); ("text", VString text)]]) ++ images in
  match input with [] => Bad (ErrOther "turn input is empty") | _ => Good input end.

Definition approval_settings : list (string * value) :=
  [("approvalPolicy", VString "on-request"); ("approvalsReviewer", VString "user")].

Definition buildThreadStartParams (cwd : string) : list (string * value) :=
  approval_settings ++ (if is_empty (TrimSpace cwd) then [] else [("cwd", VString cwd)]).

Definition buildTurnStartParams (threadID : string) (input : list value) : list (string * value) :=
  [("threadId", VString threadID); ("input", VArray input)] ++ approval_settings.

(** The model a plan turn uses: the default of the list, else its first. *)
Definition default_model (models : list members) : string :=
  let pick := fun o => TrimSpace (string_field o "model").1 in
  let d := match List.find (fun o => (bool_field o "isDefault").1) models with Some o => pick o | None => "" end in
  if is_empty d then match models with o :: _ => pick o | [] => "" end else d.

Definition trimmed_ptr (o : members) (name : string) : string := TrimSpace (default "" (string_ptr_field o name).1).

Definition resolvePlanCollaborationMode (modeRaw modelRaw : raw) : result value :=
  let '(mo, ok) := struct_of modeRaw in
  let '(modes, ok1) := structs_field mo "data" in
  let mode_ok o := ((string_ptr_field o "mode").2 && (string_ptr_field o "model").2 && (string_ptr_field o "reasoning_effort").2)%bool in
  let '(lo, ok2) := struct_of modelRaw in
  let '(models, ok3) := structs_field lo "data" in
  let model_ok o := ((string_field o "model").2 && (bool_field o "isDefault").2)%bool in
  if negb (ok && ok1 && forallb mode_ok modes) then Bad (ErrOther "decode collaboration modes")
  else if negb (ok2 && ok3 && forallb model_ok models) then Bad (ErrOther "decode model list")
  else match List.find (fun o => bool_decide ((string_ptr_field o "mode").1 = Some "plan")) modes with
       | None => Bad (ErrOther "Codex did not advertise a Plan collaboration mode")
       | Some o =>
         let model := set_default (trimmed_ptr o "model") (default_model models) in
         let effort := trimmed_ptr o "reasoning_effort" in
         if is_empty model then Bad (ErrOther "Plan collaboration mode has no usable model")
         else Good (VObject [("mode", VString "plan");
                ("settings", VObject ([("model", VString model); ("developer_instructions", VNil)] ++
                   (if is_empty effort then [] else [("reasoning_effort", VString effort)])))])
       end.

(** ** The methods *)

Section Methods.
Context `{MapOrder}.

Record StartThreadResult : Type := mkStartThreadResult { ThreadID : string; SessionID : string; TurnID : string; Raw : raw }.

Definition WireID (r : StartThreadResult) : string :=
  if is_empty (TrimSpace (SessionID r)) then ThreadID r else SessionID r.

Definition not_started {A} (what : string) (e : goError) : prog (result A) :=
  Ret (Bad (ErrPromptNotStarted (": " +:+ what +:+ error_text e))).

(** The request that starts the turn: a plan turn first asks for the modes. *)
Definition StartTurnWithCollaborationMode (threadID prompt : string) (files : list StartThread.LocalFile) (collaborationMode : string)
  : prog (result string) :=
  threadID ← observe (fun c => ResolveThreadID c threadID);
  if is_empty (TrimSpace threadID) then Ret (Bad (ErrOther "thread id required"))
  else match buildTurnInput prompt files with
  | Bad e => Ret (Bad e)
  | Good input =>
    let start (extra : list (string * value)) : prog (result string) :=
      r ← call "turn/start" (VObject (buildTurnStartParams threadID input ++ extra));
      match r with
      | Bad e => Ret (Bad e)
      | Good res =>
        let turnID := parseTurnID res in
        _ ← (if is_empty turnID then Ret tt else update (fun c => setStartingTurn c threadID turnID));
        Ret (Good turnID)
      end in
    let mode := TrimSpace collaborationMode in
    if is_empty mode then start []
    else if String.eqb mode "plan" then
      r ← call "collaborationMode/list" (VObject []);
      match r with
      | Bad e => not_started "collaborationMode/list: " e
      | Good modeRaw =>
        r' ← call "model/list" (VObject []);
        match r' with
        | Bad e => not_started "model/list: " e
        | Good modelRaw =>
          match resolvePlanCollaborationMode modeRaw modelRaw with
          | Bad e => not_started "" e
          | Good planMode => start [("collaborationMode", planMode)]
          end
        end
      end
    else not_started "" (ErrOther ("unsupported collaboration mode " +:+ quoted collaborationMode))
  end.

Definition StartTurn (threadID prompt : string) (files : list StartThread.LocalFile) : prog (result string) :=
  StartTurnWithCollaborationMode threadID prompt files "".

Definition ResumeThread (threadID : string) : prog (result (string * string)) :=
  let threadID := TrimSpace threadID in
  if is_empty threadID then Ret (Bad (ErrOther "thread id required"))
  else
    r ← call "thread/resume" (VObject [("threadId", VString threadID)]);
    match r with
    | Bad e => Ret (Bad e)
    | Good res =>
      let '(tid, sid) := parseThreadStartResponse res in
      let tid := set_default tid threadID in
      _ ← update (fun c => RegisterThreadIDs c tid sid threadID);
      Ret (Good (tid, sid))
    end.

(** [ensured] is the outcome of the [Ensure] at its start. *)
Definition StartThreadWithAttachments (ensured : option goError) (cwd firstPrompt : string) (files : list StartThread.LocalFile)
  : prog (StartThreadResult * option goError) :=
  match ensured with
  | Some e => Ret (mkStartThreadResult "" "" "" None, Some e)
  | None =>
    r ← call "thread/start" (VObject (buildThreadStartParams cwd));
    match r with
    | Bad e => Ret (mkStartThreadResult "" "" "" None, Some (ErrOther ("thread/start: " +:+ error_text e)))
    | Good res =>
      let '(tid, sid) := parseThreadStartResponse res in
      let out := mkStartThreadResult tid sid "" res in
      if (is_empty tid && is_empty sid)%bool
      then Ret (out, Some (ErrOther ("thread/start: empty thread id in response: " +:+ truncateRPC res 240)))
      else
        _ ← update (fun c => RegisterThreadIDs c tid sid (WireID out));
        let prompt := TrimSpace firstPrompt in
        if (is_empty prompt && bool_decide (files = []))%bool then Ret (out, None)
        else
          t ← StartTurn (set_default tid sid) prompt files;
          match t with
          | Good turnID => Ret (mkStartThreadResult tid sid turnID res, None)
          | Bad e => Ret (out, Some (ErrOther ("thread created (" +:+ WireID out +:+ ") but turn/start failed: " +:+ error_text e)))
          end
    end
  end.

(** The wait for [turn/started]: a tick, or the end of the context, per round.
    The number of rounds is not bounded by the code but by the context. *)
Fixpoint waitForStartedTurn (rounds : nat) (threadID turnID : string) : prog (option goError) :=
  st ← observe (fun c => (activeTurnIDLocked c threadID, lastTurnStatusLocked c threadID));
  if is_empty st.1 then Ret (Some (ErrOther ("no active turn id for thread " +:+ threadID)))
  else if negb (String.eqb st.1 turnID) then Ret (Some (ErrOther ("active turn changed for thread " +:+ threadID)))
  else if is_in_progress st.2 then Ret None
  else match rounds with
       | O => Tick (fun e => Ret (Some (default (ErrOther "context deadline exceeded") e)))
       | S k => Tick (fun e => match e with Some err => Ret (Some err) | None => waitForStartedTurn k threadID turnID end)
       end.

Definition InterruptTurn (rounds : nat) (threadID : string) : prog (option goError) :=
  threadID ← observe (fun c => ResolveThreadID c threadID);
  turnID ← observe (fun c => ActiveTurnID c threadID);
  if is_empty threadID then Ret (Some (ErrOther "thread id required"))
  else if is_empty turnID then Ret (Some (ErrOther ("no active turn id for thread " +:+ threadID)))
  else
    w ← waitForStartedTurn rounds threadID turnID;
    match w with
    | Some e => Ret (Some e)
    | None =>
      r ← call "turn/interrupt" (VObject [("threadId", VString threadID); ("turnId", VString turnID)]);
      Ret (match r with Bad e => Some e | Good _ => None end)
    end.

Definition SteerTurn (rounds : nat) (threadID text : string) : prog (option goError) :=
  threadID ← observe (fun c => ResolveThreadID c threadID);
  turnID ← observe (fun c => ActiveTurnID c threadID);
  let text := TrimSpace text in
  if is_empty threadID then Ret (Some (ErrOther "thread id required"))
  else if is_empty turnID then Ret (Some (ErrOther ("no active turn id for thread " +:+ threadID)))
  else if is_empty text then Ret (Some (ErrOther "steer text required"))
  else
    w ← waitForStartedTurn rounds threadID turnID;
    match w with
    | Some e => Ret (Some e)
    | None =>
      r ← call "turn/steer" (VObject [("threadId", VString threadID); ("expectedTurnId", VString turnID);
             ("input", VArray [VObject [("type", VString "text"); ("text", VString text)]])]);
      Ret (match r with Bad e => Some e | Good _ => None end)
    end.
End Methods.

(** ** Output *)

Record AppServerOutput : Type := mkOutput {
  oThreadID : string; oTurnID : string; oMessageID : string; oType : string; oContent : string;
  oDelta : bool; oFinal : bool
}.

Definition output_delta (method : string) (o : members) (ok : bool) : option AppServerOutput :=
  let '(threadID, ok1) := string_field o "threadId" in
  let '(turnID, ok2) := string_field o "turnId" in
  let '(itemID, ok3) := string_field o "itemId" in
  let '(delta, ok4) := string_field o "delta" in
  if (negb (ok && ok1 && ok2 && ok3 && ok4) || is_empty threadID || is_empty itemID || is_empty delta)%bool then None
  else if String.eqb method "item/reasoning/summaryTextDelta"
  then Some (mkOutput threadID turnID (itemID +:+ ":summary") "thinking" delta true false)
  else Some (mkOutput threadID turnID itemID "assistant" delta true false).

Definition output_item (o : members) (ok : bool) : option AppServerOutput :=
  let '(threadID, ok1) := string_field o "threadId" in
  let '(turnID, ok2) := string_field o "turnId" in
  let '(item, ok3) := struct_field o "item" in
  let '(id, ok4) := string_field item "id" in
  let '(type, ok5) := string_field item "type" in
  let '(text, ok6) := string_field item "text" in
  let '(summary, ok7) := strings_field item "summary" in
  let '(content, ok8) := strings_field item "content" in
  if (negb (ok && ok1 && ok2 && ok3 && ok4 && ok5 && ok6 && ok7 && ok8) || is_empty threadID || is_empty id)%bool then None
  else if String.eqb type "agentMessage" then
    if is_empty text then None else Some (mkOutput threadID turnID id "assistant" text false true)
  else if String.eqb type "reasoning" then
    let '(parts, messageID) := match summary with [] => (content, id +:+ ":content") | _ => (summary, id +:+ ":summary") end in
    let joined := join_strings newline parts in
    if is_empty joined then None else Some (mkOutput threadID turnID messageID "thinking" joined false true)
  else None.

Definition output_error (o : members) (ok : bool) : option AppServerOutput :=
  let '(threadID, ok1) := string_field o "threadId" in
  let '(turnID, ok2) := string_field o "turnId" in
  let '(willRetry, ok3) := bool_field o "willRetry" in
  let '(err, ok4) := struct_ptr_field o "error" in
  let '(text, ok5) := string_field (default [] err) "message" in
  if (negb (ok && ok1 && ok2 && ok3 && ok4 && ok5) || is_empty threadID || willRetry || is_empty text)%bool then None
  else Some (mkOutput threadID turnID (turnID +:+ ":error") "error" text false true).

Definition output_turn (o : members) (ok : bool) : option AppServerOutput :=
  let '(threadID, ok1) := string_field o "threadId" in
  let '(turn, ok2) := struct_ptr_field o "turn" in
  let '(id, ok3) := string_field (default [] turn) "id" in
  let '(status, ok4) := string_field (default [] turn) "status" in
  let '(err, ok5) := struct_ptr_field (default [] turn) "error" in
  let '(text, ok6) := string_field (default [] err) "message" in
  if (negb (ok && ok1 && ok2 && ok3 && ok4 && ok5 && ok6) || is_empty threadID || negb (String.eqb status "failed") || is_empty text)%bool
  then None
  else Some (mkOutput threadID id (id +:+ ":error") "error" text false true).

Definition ParseAppServerOutputNotification (method : string) (params : raw) : option AppServerOutput :=
  let '(o, ok) := struct_of params in
  if (String.eqb method "item/agentMessage/delta" || String.eqb method "item/reasoning/summaryTextDelta")%bool
  then output_delta method o ok
  else if String.eqb method "item/completed" then output_item o ok
  else if String.eqb method "error" then output_error o ok
  else if String.eqb method "turn/completed" then output_turn o ok
  else None.

(** ** Which codex may be driven *)

(** A run of digits at the front, which must not be empty, and what is behind it. *)
Fixpoint span_digits (s : string) : string * string :=
  match s with
  | String c s' => if is_digit (code c) then let '(d, r) := span_digits s' in (String c d, r) else (EmptyString, s)
  | EmptyString => (EmptyString, EmptyString)
  end.
Definition digits1 (s : string) : option (string * string) :=
  let '(d, r) := span_digits s in if is_empty d then None else Some (d, r).
Definition expect (c : ascii) (s : string) : option string :=
  match s with String d s' => if Ascii.eqb c d then Some s' else None | EmptyString => None end.

(** [\s] of a regular expression. *)
Definition is_re_space (c : ascii) : bool := existsb (Z.eqb (code c)) [9; 10; 12; 13; 32].
Fixpoint skip_spaces (s : string) : string :=
  match s with String c s' => if is_re_space c then skip_spaces s' else s | EmptyString => s end.

(** [codexVersionPattern] at the front of a text: [codex-cli\s+(\d+)\.(\d+)\.(\d+)],
    in either case. *)
Definition version_here (s : string) : option (string * string * string) :=
  if has_prefix "codex-cli" (to_lower s) then
    match drop_bytes 9 s with
    | String c r =>
      if is_re_space c then
        '(a, r1) ← digits1 (skip_spaces r); r2 ← expect "." r1;
        '(b, r3) ← digits1 r2; r4 ← expect "." r3;
        '(d, _) ← digits1 r4; Some (a, b, d)
      else None
    | EmptyString => None
    end
  else None.

Fixpoint find_version (s : string) : option (string * string * string) :=
  match version_here s with
  | Some v => Some v
  | None => match s with String _ s' => find_version s' | EmptyString => None end
  end.

Definition parseCodexVersion (output : string) : result (string * bool) :=
  match find_version (TrimSpace output) with
  | None => Bad (ErrOther ("unrecognized codex version output " +:+ quoted (TrimSpace output)))
  | Some (a, b, d) =>
    match Atoi a, Atoi b, Atoi d with
    | Some x, Some y, Some z =>
      let ok := ((0 <? x) || ((x =? 0) && (146 <? y)) || ((x =? 0) && (y =? 146) && (0 <=? z)))%bool in
      Good (Itoa x +:+ "." +:+ Itoa y +:+ "." +:+ Itoa z, ok)
    | _, _, _ => Bad (ErrOther "strconv.Atoi: value out of range")
    end
  end.

Example version_examples :
  parseCodexVersion "codex-cli 0.146.2" = Good ("0.146.2", true) /\
  parseCodexVersion "Codex-CLI  0.145.9 (x)" = Good ("0.145.9", false).
Proof. vm_compute. split; reflexivity. Qed.

(** [probeGeneratedSchema], given the text of the generated schema files. *)
Definition names_method (schema name : string) : bool := contains schema (quoted name).

Definition probe_schema (schema : string) : gmap string bool :=
  let m := <["schema" := negb (is_empty schema)]> ∅ in
  let m := foldl (fun m name => <[name := names_method schema name]> m) m
    ["thread/start"; "turn/start"; "turn/interrupt"; "turn/steer"] in
  let m := <["approval" := forallb (names_method schema)
    ["item/commandExecution/requestApproval"; "item/fileChange/requestApproval"; "decision"]]> m in
  let m := <["request_user_input" := forallb (names_method schema)
    ["item/tool/requestUserInput"; "autoResolutionMs"; "isOther"; "isSecret"; "answers"]]> m in
  <["collaboration_mode" := forallb (names_method schema) ["collaborationMode/list"; "experimentalApi"; "plan"]]> m.

(** What [probeMethodsUncached] meets, in the order it asks. [schemaText] is
    [None] when the schema could not be generated. *)
Record probe_env : Type := mkProbe { available : bool; versionOK : bool; schemaText : option string; ensured : option goError }.

Definition flag (m : gmap string bool) (k : string) : bool := default false (m !! k).

Definition probeMethodsUncached (e : probe_env) : gmap string bool :=
  let out := <["available" := available e]> ∅ in
  if negb (available e) then out
  else
    let out := <["version" := versionOK e]> out in
    if negb (versionOK e) then out
    else
      let out := match schemaText e with Some t => probe_schema t | None => <["schema" := false]> ∅ end ∪ out in
      if negb (flag out "schema") then out
      else match ensured e with
           | Some _ => <["initialize" := false]> (<["ensure" := false]> out)
           | None =>
             let out := <["initialize" := true]> (<["ensure" := true]> out) in
             <["full_control" := forallb (flag out) ["thread/start"; "turn/start"; "turn/interrupt"; "turn/steer"; "approval";
                                                      "request_user_input"; "collaboration_mode"]]> out
           end.

Definition FullControlCompatible (e : probe_env) : bool := flag (probeMethodsUncached e) "full_control".
