(* ===== verification/CodexAdapter.v ===== *)
(** * The Codex adapter (daemon/internal/adapters/codex.go): control

    How the daemon's commands reach codex: through the app-server while it is
    healthy, else through the command line. What the phone sees of a turn (its
    status, its output, its end) and the recovery of an app-server that exited.
    Discovery of sessions is in [CodexRollout]. [strings.ToLower] is the one of
    ASCII letters. Callbacks are returned as actions, in the order they are made. *)

From stdpp Require Import base tactics list gmap strings.
From Stdlib Require Import Ascii ZArith Lia.
From S2P Require Import Prelude GoStrings Json Protocol JsonDecode CodexAppServer.
From S2P Require StartThread ActiveTurn Catalog.

(** An error that wraps [ErrPromptBoundaryIndeterminate] keeps only the text of
    its cause ([%v]). *)
Inductive adapterError : Type := BoundaryIndeterminate (cause : string) | Plain (e : goError).

Record PromptRequest : Type := mkPromptRequest {
  Prompt : string;
  Attachments : list StartThread.LocalFile;
  CollaborationMode : string
}.

Inductive action : Type :=
  | NativeBound (turnID : string)
  | RetainFiles (turnID : string)
  | ReleaseFiles (turnID : string)
  | KnownTerminal (sessionID turnID rawStatus : string)
  | CallOnComplete
  | ToCommander.

(** ** Sending prompts *)

Section Sending.
Context `{MapOrder}.

(** What follows a turn that was started: one that is over already, because its
    events came before the response, is ended here. *)
Definition turn_started_actions (sessionID turnID : string) : prog (list action) :=
  active ← observe (fun c => IsTurnActive c sessionID);
  if (active : bool) then Ret [NativeBound turnID; RetainFiles turnID]
  else
    status ← observe (fun c => LastTurnStatus c sessionID);
    Ret [NativeBound turnID; RetainFiles turnID; KnownTerminal sessionID turnID status; ReleaseFiles turnID].

Definition start_prompt_turn (sessionID : string) (request : PromptRequest) : prog (result (list action)) :=
  _ ← update (fun c => RegisterThreadIDs c sessionID sessionID sessionID);
  t ← StartTurnWithCollaborationMode sessionID (Prompt request) (Attachments request) (CollaborationMode request);
  match t with
  | Bad e => Ret (Bad e)
  | Good turnID => acts ← turn_started_actions sessionID turnID; Ret (Good acts)
  end.

(** [healthy] is what [AppServerHealthy] answered; [available] whether the
    command line program is there. *)
Definition SendPrompt (healthy available : bool) (sessionID : string) (request : PromptRequest)
  : prog (list action * option adapterError) :=
  if healthy then
    r ← ResumeThread sessionID;
    match r with
    | Bad (ErrAppServerExited cause) => Ret ([], Some (Plain (ErrAppServerExited cause)))
    | _ =>
      t ← start_prompt_turn sessionID request;
      match t with
      | Bad e => Ret ([], Some (BoundaryIndeterminate (": codex app-server turn/start: " +:+ error_text e)))
      | Good acts => Ret (acts, None)
      end
    end
  else if negb available then Ret ([], Some (Plain (ErrOther "codex CLI not found in PATH")))
  else Ret ([ToCommander], None).

Definition SendQueuedPrompt (healthy : bool) (sessionID : string) (request : PromptRequest)
  : prog (list action * option adapterError) :=
  if negb healthy then Ret ([], Some (Plain (ErrOther "codex app-server unavailable for queued prompt")))
  else
    _ ← ResumeThread sessionID;
    t ← start_prompt_turn sessionID request;
    match t with
    | Bad e => Ret ([], Some (Plain e))
    | Good acts => Ret (acts, None)
    end.

Definition HasActiveTurn (c : CodexAppServer) (sessionID : string) : bool := (Initialized c && IsTurnActive c sessionID)%bool.

(** The actions of a start that has no prompt, or whose prompt was accepted. *)
Definition StartNativeThread (healthy : bool) (ensured : option goError) (cwd prompt : string) (files : list StartThread.LocalFile)
    (onComplete : bool) : prog (bool * string * bool * list action * option goError) :=
  if negb healthy then Ret (false, "", false, [], Some (ErrOther "codex app-server unavailable for start_thread"))
  else
    o ← StartThreadWithAttachments ensured cwd prompt files;
    let '(started, err) := o in
    let sessionID := WireID started in
    let promptAccepted := (is_empty (TrimSpace prompt) || (negb (is_empty (TurnID started)) && bool_decide (err = None)))%bool in
    if negb onComplete then Ret (true, sessionID, promptAccepted, [], err)
    else if negb promptAccepted then Ret (true, sessionID, false, [CallOnComplete], err)
    else
      active ← observe (fun c => IsTurnActive c sessionID);
      Ret (true, sessionID, true, RetainFiles (TurnID started) :: (if (active : bool) then [] else [ReleaseFiles (TurnID started)]), err).

(** ** Approvals, questions, control *)

Inductive route : Type := AppServer (e : option goError) | Commander.

(** [Approve] and [Deny]: a name the app-server does not know stands for
    whatever the session waits for. *)
Definition decide_for_session (c : CodexAppServer) (sessionID approvalID : string) (accept : bool)
    (werr1 werr2 : option goError) (now : Z) : route * CodexAppServer * list written :=
  if negb (Initialized c) then (Commander, c, [])
  else match DecidePendingWithFallback c approvalID accept werr1 now with
       | (None, c, out) => (AppServer None, c, out)
       | (Some (ErrNoPendingApproval _), c, out) =>
         match PendingApprovalFor c sessionID with
         | Some snap =>
           let '(e, c, out') := DecidePendingWithFallback c (asID snap) accept werr2 now in
           (AppServer e, c, out ++ out')
         | None => (Commander, c, out)
         end
       | (Some e, c, out) => (AppServer (Some e), c, out)
       end.
Definition Approve (c : CodexAppServer) (sessionID approvalID : string) := decide_for_session c sessionID approvalID true.
Definition Deny (c : CodexAppServer) (sessionID approvalID : string) := decide_for_session c sessionID approvalID false.

Definition AdapterRespondUserInput (c : CodexAppServer) (requestID : string) (answers : gmap string (list string))
    (werr : option goError) (now : Z) : string * option goError * CodexAppServer * list written :=
  if negb (Initialized c) then ("indeterminate", Some (ErrOther "codex app-server unavailable for user input"), c, [])
  else RespondUserInput c requestID answers werr now.

Definition Interrupt (healthy : bool) (rounds : nat) (sessionID : string) : prog route :=
  if healthy then e ← InterruptTurn rounds sessionID; Ret (AppServer e) else Ret Commander.

Definition Steer (healthy : bool) (rounds : nat) (sessionID text : string) : prog (option goError) :=
  if negb healthy then Ret (Some (ErrOther "codex app-server unavailable for steer")) else SteerTurn rounds sessionID text.

(** ** What is shown of a session *)

Definition userInputInfo (i : UserInputSnapshot) : Catalog.UserInputInfo :=
  Catalog.mkUserInput (usRequestID i) (usItemID i)
    ((fun q => Catalog.mkQuestion (qID q) (qHeader q) (qQuestion q) ((fun o => (Label o, OptionDescription o)) <$> qOptions q)
                 (qIsOther q) (qIsSecret q)) <$> usQuestions i)
    (usAutoResolutionMS i) (match usExpiresAt i with Some t => t / 1000000 | None => 0 end).

Definition applyAppServerTerminalStatus (current status : string) : string :=
  let s := to_lower status in
  if bool_decide (s ∈ ["completed"; "interrupted"; "cancelled"; "canceled"]) then "idle"
  else if String.eqb s "failed" then "error" else current.

(** [ApplyAppServerOverlay]: the status, the approval and the question of the
    session, from those discovery found. *)
Definition ApplyAppServerOverlay (c : CodexAppServer) (id status : string) (pa : option Catalog.ApprovalInfo)
    (pi : option Catalog.UserInputInfo) : string * option Catalog.ApprovalInfo * option Catalog.UserInputInfo :=
  match PendingUserInputFor c id with
  | Some i => ("waiting_user", pa, Some (userInputInfo i))
  | None =>
    match PendingApprovalFor c id with
    | Some s => (if String.eqb (asToolName s) "user_input" then "waiting_user" else "waiting_approval",
                 Some (Catalog.mkApproval (asID s) (asToolName s) (asDescription s)), pi)
    | None =>
      if (IsTurnActive c id && negb (String.eqb status "waiting_approval") && negb (String.eqb status "waiting_user"))%bool
      then ("running", pa, pi)
      else (applyAppServerTerminalStatus status (LastTurnStatus c id), pa, pi)
    end
  end.

(** ** Control events *)

Record ControlEvent : Type := mkControl {
  ceSessionID : string;
  ceStatus : string;
  cePendingApproval : option Catalog.ApprovalInfo;
  cePendingUserInput : option Catalog.UserInputInfo;
  ceClass : string;
  ceEventID : string;
  ceNativeRequestID : string;
  ceLifecycle : ActiveTurn.TurnLifecycle
}.

(** [emitControl] drops an event that names no session. *)
Definition emitControl (e : ControlEvent) : list ControlEvent := if is_empty (ceSessionID e) then [] else [e].

Definition emitKnownAppServerTerminal (sessionID turnID rawStatus : string) : list ControlEvent * bool :=
  let className := to_lower (TrimSpace rawStatus) in
  let emit status class lifecycle :=
    (emitControl (mkControl sessionID status None None class ("turn:" +:+ turnID +:+ ":" +:+ class) turnID lifecycle), true) in
  if String.eqb className "completed" then emit "idle" className ActiveTurn.TurnTerminalSuccess
  else if String.eqb className "failed" then emit "error" className ActiveTurn.TurnTerminalFailure
  else if bool_decide (className ∈ ["interrupted"; "cancelled"; "canceled"]) then emit "idle" className ActiveTurn.TurnInterrupted
  else if bool_decide (className ∈ [""; "inprogress"; "in_progress"; "running"]) then ([], false)
  else emit "error" "failed" ActiveTurn.TurnTerminalFailure.

Definition handleAppServerRequest (c : CodexAppServer) (req : ServerRequest) : list ControlEvent :=
  let threadID := (string_field (struct_of (reqParams req)).1 "threadId").1 in
  if is_empty threadID then []
  else
    let sessionID := WireIDForThread c threadID in
    if String.eqb (reqMethod req) "item/tool/requestUserInput" then
      emitControl (mkControl sessionID "waiting_user" None (userInputInfo <$> PendingUserInputFor c sessionID) "waiting_user"
        ("user_input:" +:+ reqID req) "" ActiveTurn.NoLifecycle)
    else match PendingApprovalFor c sessionID with
         | Some a => emitControl (mkControl sessionID "waiting_approval"
             (Some (Catalog.mkApproval (asID a) (asToolName a) (asDescription a))) None "waiting_approval"
             ("approval:" +:+ reqID req) "" ActiveTurn.NoLifecycle)
         | None => []
         end.
End Sending.

(** ** Output and the files of a turn *)

Record outputs : Type := mkOutputs {
  appOutput : gmap string string;
  initialTurnCleanup : gmap string Z
}.

Record OutputEvent : Type := mkOutputEvent { outSession : string; outType : string; outContent : string; outMessage : string }.

Definition output_key (o : AppServerOutput) : string := oThreadID o +:+ String (byte_of 0) (oMessageID o).

(** The critical section of [handleAppServerNotification]: what is sent is all
    that came of the message so far. *)
Definition accumulate (m : gmap string string) (o : AppServerOutput) : string * gmap string string :=
  if oDelta o then
    let content := entry m (output_key o) +:+ oContent o in (content, <[output_key o := content]> m)
  else if oFinal o then (set_default (oContent o) (entry m (output_key o)), delete (output_key o) m)
  else (oContent o, m).

(** [retainInitialTurnFiles]; the cleanup to call at once, if any. *)
Definition retainInitialTurnFiles (s : outputs) (turnID : string) (cleanup : option Z) : list Z * outputs :=
  match cleanup with
  | None => ([], s)
  | Some f => if is_empty (TrimSpace turnID) then ([f], s)
              else ([], mkOutputs (appOutput s) (<[turnID := f]> (initialTurnCleanup s)))
  end.

Definition releaseInitialTurnFiles (s : outputs) (turnID : string) : list Z * outputs :=
  (match initialTurnCleanup s !! turnID with Some f => [f] | None => [] end,
   mkOutputs (appOutput s) (delete turnID (initialTurnCleanup s))).

Section Outputs.
Context `{MapOrder}.

Definition releaseAllInitialTurnFiles (s : outputs) : list Z * outputs :=
  (range_values (initialTurnCleanup s), mkOutputs (appOutput s) ∅).

Definition abortAppServerOutput (s : outputs) : list Z * outputs :=
  (range_values (initialTurnCleanup s), mkOutputs ∅ ∅).

Definition handleAppServerNotification (c : CodexAppServer) (s : outputs) (hasSink : bool) (method : string) (params : raw)
  : list ControlEvent * list Z * option OutputEvent * outputs :=
  let '(events, cleanups, s) :=
    if String.eqb method "turn/completed" then
      let '(o, ok) := struct_of params in
      let '(threadID, ok1) := string_field o "threadId" in
      let '(turn, ok2) := struct_ptr_field o "turn" in
      let '(id, ok3) := string_field (default [] turn) "id" in
      let '(status, ok4) := string_field (default [] turn) "status" in
      if (ok && ok1 && ok2 && ok3 && ok4 && negb (is_empty threadID) && bool_decide (is_Some turn))%bool
      then let '(f, s') := releaseInitialTurnFiles s id in
           ((emitKnownAppServerTerminal (WireIDForThread c threadID) id status).1, f, s')
      else ([], [], s)
    else ([], [], s) in
  match ParseAppServerOutputNotification method params with
  | None => (events, cleanups, None, s)
  | Some o =>
    let sessionID := WireIDForThread c (oThreadID o) in
    if is_empty sessionID then (events, cleanups, None, s)
    else
      let '(content, m) := accumulate (appOutput s) o in
      let s := mkOutputs m (initialTurnCleanup s) in
      (events, cleanups,
       if (negb hasSink || is_empty content)%bool then None else Some (mkOutputEvent sessionID (oType o) content (oMessageID o)), s)
  end.
End Outputs.

(** ** Recovery of an app-server that exited *)

Definition codexRecoveryAttempts : nat := 5.
Definition codexRecoveryBaseWait : Z := 250.
Definition codexRecoveryMaxWait : Z := 4000.

Record recovery : Type := mkRecovery {
  recoveryRunning : bool;
  recoveryDegraded : bool;
  recoveryClosed : bool;
  recoveryCrashSerial : Z
}.

(** Where [recoverAppServer] is: before the sleep of an attempt, in it, in
    [Ensure] with the serial it read. *)
Inductive recovery_at : Type :=
  | Attempt (n : nat) (delay : Z)
  | Asleep (n : nat) (delay : Z)
  | Ensuring (n : nat) (delay : Z) (serial : Z).

Definition next_delay (delay : Z) : Z :=
  if delay <? codexRecoveryMaxWait then Z.min (delay * 2) codexRecoveryMaxWait else delay.

(** The critical section of [handleAppServerExit]: whether a recovery is started.
    A closed adapter only drops what was running. *)
Definition note_exit (r : recovery) : option recovery_at * recovery :=
  if recoveryClosed r then (None, r)
  else
    let serial := u64_add (recoveryCrashSerial r) 1 in
    if recoveryRunning r then (None, mkRecovery true (recoveryDegraded r) false serial)
    else (Some (Attempt 1 codexRecoveryBaseWait), mkRecovery true true false serial).

Definition stop_recovery (r : recovery) : recovery := mkRecovery false (recoveryDegraded r) (recoveryClosed r) (recoveryCrashSerial r).

(** The top of the loop. *)
Definition attempt_begin (r : recovery) (n : nat) (delay : Z) : option recovery_at * recovery :=
  if (codexRecoveryAttempts <? n)%nat
  then (None, mkRecovery false true (recoveryClosed r) (recoveryCrashSerial r))
  else if recoveryClosed r then (None, stop_recovery r)
  else (Some (Asleep n delay), r).

(** [slept] is false when the context ended first. *)
Definition attempt_slept (r : recovery) (n : nat) (delay : Z) (slept : bool) : option recovery_at * recovery :=
  if slept then (Some (Ensuring n delay (recoveryCrashSerial r)), r) else (None, stop_recovery r).

(** After [ensure]: [true] when the recovery sink is called. *)
Definition attempt_ensured (r : recovery) (n : nat) (delay serial : Z) (ok : bool) : option recovery_at * recovery * bool :=
  if (ok && (recoveryCrashSerial r =? serial) && negb (recoveryClosed r))%bool
  then (None, mkRecovery false false (recoveryClosed r) (recoveryCrashSerial r), true)
  else (Some (Attempt (S n) (next_delay delay)), r, false).

Definition close_recovery (r : recovery) : recovery :=
  mkRecovery (recoveryRunning r) (recoveryDegraded r) true (recoveryCrashSerial r).

(** [AppServerHealthy]: [compatible] is what the probe found, [ensured] and
    [after] the outcome of a warm-up and whether it left the server initialized. *)
Definition AppServerHealthy (c : CodexAppServer) (r : recovery) (compatible : bool) (ensured : option goError) (after : bool) : bool :=
  if negb compatible then false
  else if (recoveryRunning r || recoveryDegraded r || recoveryClosed r)%bool then false
  else if Initialized c then true
  else match ensured with Some _ => false | None => after end.

(** The events of [handleAppServerExit], after its critical section. *)
Definition exit_events (ev : AppServerExit) : list ControlEvent :=
  (fun id => mkControl id "error" None None "failed" ("app_server_exit:" +:+ Itoa (exitGeneration ev) +:+ ":" +:+ id) ""
               ActiveTurn.TurnIndeterminate) <$> List.filter (fun id => negb (is_empty id)) (exitSessions ev).
