(* ===== verification/DiscoveryCache.v ===== *)
(** * The discovery cache of the adapters (daemon/internal/adapters/discovery_cache.go)

    What discovery keeps per file, under which fingerprint, and the probe of an
    old JSONL file: the complete records near its two ends. Paths are clean and
    absolute already; [filepath.Abs] of another one and the lower case of Windows
    are left out. A time is its nanoseconds. *)

From stdpp Require Import base tactics list gmap strings.
From Stdlib Require Import Ascii ZArith Lia.
From S2P Require Import Prelude GoStrings GoPath.
From S2P Require StartCapability.

(** ** Visibility *)

Definition recentSessionCutoff (now : Z) : Z := now - StartCapability.RecentSessionWindow.

Definition sessionNeedsAttention (status : string) : bool :=
  bool_decide (status ∈ ["running"; "waiting_approval"; "waiting_user"]).

Definition sessionIsVisible (status : string) (lastActivity now : Z) : bool :=
  (sessionNeedsAttention status || negb (lastActivity <? recentSessionCutoff now))%bool.

(** ** The cache *)

Record fileFingerprint : Type := mkFingerprint { fsize : Z; modifiedUnixNS : Z }.

#[export] Instance fileFingerprint_eq_dec : EqDecision fileFingerprint.
Proof. solve_decision. Defined.

Section Cache.
Context {T : Type}.

(** [parse]'s value and error are kept together. *)
Record discoveryCacheEntry : Type := mkCacheEntry { fingerprint : fileFingerprint; cached : res T }.

Record fileDiscoveryCache : Type := mkDiscoveryCache {
  entries : gmap string discoveryCacheEntry;
  hits : Z;
  misses : Z
}.

Definition newFileDiscoveryCache : fileDiscoveryCache := mkDiscoveryCache ∅ 0 0.

Definition normalizedDiscoveryPath (path : string) : string := Clean path.

(** The entry that is still good for a file. *)
Definition current_entry (c : fileDiscoveryCache) (path : string) (fp : fileFingerprint) : option (res T) :=
  match entries c !! normalizedDiscoveryPath path with
  | Some e => if decide (fingerprint e = fp) then Some (cached e) else None
  | None => None
  end.

Definition peek := current_entry.

(** The two critical sections of [load]: look up; after [parse], store. *)
Definition load_lookup (c : fileDiscoveryCache) (path : string) (fp : fileFingerprint) : option (res T) * fileDiscoveryCache :=
  match current_entry c path fp with
  | Some r => (Some r, mkDiscoveryCache (entries c) (u64_add (hits c) 1) (misses c))
  | None => (None, mkDiscoveryCache (entries c) (hits c) (u64_add (misses c) 1))
  end.

Definition load_store (c : fileDiscoveryCache) (path : string) (fp : fileFingerprint) (r : res T) : fileDiscoveryCache :=
  mkDiscoveryCache (<[normalizedDiscoveryPath path := mkCacheEntry fp r]> (entries c)) (hits c) (misses c).

Definition load (c : fileDiscoveryCache) (path : string) (fp : fileFingerprint) (parse : res T) : res T * fileDiscoveryCache :=
  match load_lookup c path fp with
  | (Some r, c) => (r, c)
  | (None, c) => (parse, load_store c path fp parse)
  end.

Definition keep_entries (p : string -> discoveryCacheEntry -> bool) (c : fileDiscoveryCache) : fileDiscoveryCache :=
  mkDiscoveryCache (filter (fun kv => p kv.1 kv.2 = true) (entries c)) (hits c) (misses c).

Definition prune (c : fileDiscoveryCache) (keep : gset string) : fileDiscoveryCache :=
  keep_entries (fun k _ => bool_decide (k ∈ keep)) c.

(** [exists_] is what [os.Stat] finds. *)
Definition pruneMissing (c : fileDiscoveryCache) (exists_ : string -> bool) : fileDiscoveryCache :=
  keep_entries (fun k _ => exists_ k) c.

Definition pruneBefore (c : fileDiscoveryCache) (cutoff : Z) : fileDiscoveryCache :=
  keep_entries (fun _ e => negb (modifiedUnixNS (fingerprint e) <? cutoff)) c.

Definition stats (c : fileDiscoveryCache) : Z * Z * Z := (hits c, misses c, Z.of_nat (size (entries c))).
End Cache.
Arguments fileDiscoveryCache : clear implicits.
Arguments discoveryCacheEntry : clear implicits.

(** ** The probe of a JSONL file *)

Definition attentionProbeBytes : Z := 256 * 1024.
Definition attentionProbeRecordLimit : Z := 10 * 1024 * 1024.

Record jsonlAttentionProbe : Type := mkProbe { head_ : list string; tail_ : list string; whole : bool }.

Definition lf : ascii := byte_of 10.
Definition cr : ascii := byte_of 13.

Fixpoint ends_with (c : ascii) (s : string) : bool :=
  match s with
  | EmptyString => false
  | String d EmptyString => Ascii.eqb d c
  | String _ s' => ends_with c s'
  end.

(** What follows the first line feed; [None] when there is none. *)
Fixpoint after_newline (s : string) : option string :=
  match s with
  | EmptyString => None
  | String c s' => if Ascii.eqb c lf then Some s' else after_newline s'
  end.

(** Up to and with the last line feed; empty when there is none. *)
Fixpoint to_last_newline (s : string) : string :=
  match s with
  | EmptyString => EmptyString
  | String c s' =>
    let rest := to_last_newline s' in
    if (is_empty rest && negb (Ascii.eqb c lf))%bool then EmptyString else String c rest
  end.

Definition trim_cr (s : string) : string := if ends_with cr s then take_bytes (String.length s - 1) s else s.

(** The records of a piece of a file: its lines without the empty ones. *)
Definition records (s : string) : list string :=
  List.filter (fun l => negb (is_empty l)) (trim_cr <$> split_byte lf s).

Definition splitProbeLines (s : string) (dropFirst dropLast : bool) : list string :=
  match (if dropFirst then after_newline s else Some s) with
  | None => []
  | Some s =>
    if (dropLast && negb (is_empty s) && negb (ends_with lf s))%bool
    then if is_empty (to_last_newline s) then [] else records (to_last_newline s)
    else records s
  end.

Fixpoint zero_bytes (n : nat) : string :=
  match n with O => EmptyString | S k => String (byte_of 0) (zero_bytes k) end.

(** [file.ReadAt] into a fresh buffer: what the file does not have stays zero. *)
Definition read_at (s : string) (offset window : Z) : string :=
  let got := take_bytes (Z.to_nat window) (drop_bytes (Z.to_nat offset) s) in
  got +:+ zero_bytes (Z.to_nat window - String.length got).

(** [readProbeWindow] with its constants as arguments: a window that has no line
    feed is read once more, with the limit for its size. *)
Definition probe_window (base limit : Z) (s : string) (size : Z) (fromTail : bool) : string :=
  let at_ window := read_at s (if fromTail then size - window else 0) window in
  let window := Z.min base size in
  if (contains_byte lf (at_ window) || (window =? size) || (limit <=? window))%bool then at_ window
  else at_ (Z.min limit size).

Definition readProbeWindow := probe_window attentionProbeBytes attentionProbeRecordLimit.

(** [s] is the file as it is read, [size] what [os.Stat] said before. *)
Definition probe_with (base limit : Z) (s : string) (size : Z) : jsonlAttentionProbe :=
  if size <=? 2 * base
  then mkProbe (splitProbeLines (take_bytes (Z.to_nat (2 * base + 1)) s) false false) [] true
  else mkProbe (splitProbeLines (probe_window base limit s size false) false true)
         (splitProbeLines (probe_window base limit s size true) true false) false.

Definition readJSONLAttentionProbe := probe_with attentionProbeBytes attentionProbeRecordLimit.
