(* ===== verification/CodexRollout.v ===== *)
(** * The Codex adapter (daemon/internal/adapters/codex.go): sessions and history

    What discovery reads from the rollout files of codex: the id, the status, the
    approval that waits, the last message; the probe of old files; the visible
    sessions of a round; the history of a session. A file is its bytes, a time its
    nanoseconds, the zero [time.Time] is [None]; [time.Parse] is a parameter. *)

From stdpp Require Import base tactics list gmap strings.
From Stdlib Require Import Ascii ZArith Lia.
From S2P Require Import Prelude GoStrings GoPath Json Protocol JsonDecode DiscoveryCache.
From S2P Require Catalog CodexAppServer CodexAdapter.

Class GoTime : Type := { time_Parse : string -> string -> option Z }.

Definition RFC3339Nano : string := "2006-01-02T15:04:05.999999999Z07:00".
Definition RFC3339 : string := "2006-01-02T15:04:05Z07:00".

(** ** Lines and their members *)

(** [bufio.ScanLines] with a buffer of [limit] bytes: a line that does not fit ends
    the scan with an error. The text behind the last line feed is a line if it is
    not empty. *)
Fixpoint scan_pieces (limit : Z) (pieces : list string) : list string * bool :=
  match pieces with
  | [] => ([], false)
  | [l] => if is_empty l then ([], false) else if limit <=? len l then ([], true) else ([trim_cr l], false)
  | l :: rest =>
    if limit <=? len l then ([], true)
    else let '(ls, e) := scan_pieces limit rest in (trim_cr l :: ls, e)
  end.

Definition scan_lines (limit : Z) (s : string) : list string * bool := scan_pieces limit (split_byte lf s).

(** [json.Unmarshal] into a [map[string]interface{}]. *)
Definition decode_map (line : string) : option (list (string * value)) :=
  match parse line ≫= decode_any with
  | Some (VObject kvs) => Some kvs
  | Some VNil => Some []
  | _ => None
  end.

Definition member (o : list (string * value)) (k : string) : string := string_or_empty (assoc k o).
Definition as_map (v : option value) : option (list (string * value)) :=
  match v with Some (VObject kvs) => Some kvs | _ => None end.

(** ** Text *)

Definition space : ascii := " "%char.

(** [truncate] of claude_code.go: the cut is at a byte. *)
Fixpoint newlines_to_spaces (s : string) : string :=
  match s with EmptyString => EmptyString | String c s' => String (if Ascii.eqb c lf then space else c) (newlines_to_spaces s') end.

Definition truncate (s : string) (maxLen : nat) : string :=
  let s := TrimSpace (newlines_to_spaces s) in
  if (String.length s <=? maxLen)%nat then s else take_bytes maxLen s +:+ "...".

(** The number of characters of valid UTF-8, and the first of them. *)
Definition is_continuation (c : ascii) : bool := Z.land (code c) 192 =? 128.
Fixpoint rune_count (s : string) : nat :=
  match s with EmptyString => O | String c s' => if is_continuation c then rune_count s' else S (rune_count s') end.
Fixpoint take_runes (n : nat) (s : string) : string :=
  match s with
  | EmptyString => EmptyString
  | String c s' =>
    if is_continuation c then String c (take_runes n s')
    else match n with O => EmptyString | S k => String c (take_runes k s') end
  end.

Definition ellipsis : string := of_codes [226; 128; 166].

Definition truncateRunes (s : string) (max : nat) : string :=
  if ((max =? 0)%nat || is_empty s)%bool then s
  else if (rune_count (coerceUTF8 s) <=? max)%nat then s else take_runes max (coerceUTF8 s) +:+ ellipsis.

Definition extractCodexContent (o : list (string * value)) : string :=
  let fallback := member o "message" in
  match assoc "content" o with
  | Some (VString s) => s
  | Some (VArray l) =>
    CodexAppServer.join_strings " "
      (omap (fun b => match b with VObject kvs => as_string (assoc "text" kvs) | _ => None end) l)
  | _ => fallback
  end.

(** ** Ids *)

Definition is_hex (c : ascii) : bool := is_hex_digit (code c).

Fixpoint count_bytes (p : ascii -> bool) (s : string) : nat :=
  match s with EmptyString => O | String c s' => ((if p c then 1 else 0) + count_bytes p s')%nat end.

Fixpoint all_bytes (p : ascii -> bool) (s : string) : bool :=
  match s with EmptyString => true | String c s' => (p c && all_bytes p s')%bool end.

Definition hyphen : ascii := "-"%char.

Definition looksLikeUUID (s : string) : bool :=
  ((32 <=? len s) && (len s <=? 40) && all_bytes (fun c => Ascii.eqb c hyphen || is_hex c)%bool s &&
   (count_bytes (Ascii.eqb hyphen) s =? 4)%nat)%bool.

Definition codexSessionIDFromFilename (name : string) : string :=
  let base := trim_prefix (trim_suffix name ".jsonl") "rollout-" in
  let parts := split_byte hyphen base in
  if (5 <=? List.length parts)%nat then
    let cand := join_byte hyphen (drop (List.length parts - 5) parts) in
    if looksLikeUUID cand then cand else ""
  else "".

Definition isCodexSubagentSessionMeta (payload : list (string * value)) : bool :=
  if String.eqb (member payload "thread_source") "subagent" then true
  else match assoc "source" payload with
       | Some (VString s) => String.eqb s "subagent"
       | Some (VObject kvs) => bool_decide (is_Some (assoc "subagent" kvs))
       | _ => false
       end.

Section Rollout.
Context `{GoTime} `{MapOrder}.

Definition second : Z := 1000000000.
Definition millisecond : Z := 1000000.

(** The zero [time.Time] is the first instant of the year 1. *)
Definition nonzero (t : Z) : option Z := if t =? -62135596800 * second then None else Some t.

(** Numbers are seconds, or milliseconds when above 10^12. *)
Definition parseCodexTimestamp (v : option value) : option Z :=
  match v with
  | Some (VFloat m e) =>
    nonzero (if float_gt m e 1000000000000 then float_trunc m e * millisecond else float_trunc m e * second)
  | Some (VString s) =>
    if is_empty s then None
    else match time_Parse RFC3339Nano s with Some t => nonzero t | None => time_Parse RFC3339 s ≫= nonzero end
  | _ => None
  end.

(** ** A session *)

Record SessionInfo : Type := mkSession {
  sID : string;
  sStatus : string;
  sSummary : string;
  sLastActivity : Z;
  sSessionPath : string;
  sProjectDir : string;
  sPendingApproval : option Catalog.ApprovalInfo;
  sPendingUserInput : option Catalog.UserInputInfo
}.

Definition with_status (s : SessionInfo) (status : string) : SessionInfo :=
  mkSession (sID s) status (sSummary s) (sLastActivity s) (sSessionPath s) (sProjectDir s) (sPendingApproval s) (sPendingUserInput s).

(** What the loop over the lines of a rollout keeps. *)
Record rollout : Type := mkRollout {
  lastMessage : string;
  lastTime : option Z;
  msgCount : Z;
  isWaiting : bool;
  taskInFlight : bool;
  pendingApproval : option Catalog.ApprovalInfo;
  projectDir : string;
  sessionID : string
}.

Definition set_message (r : rollout) (m : string) : rollout :=
  mkRollout m (lastTime r) (msgCount r) (isWaiting r) (taskInFlight r) (pendingApproval r) (projectDir r) (sessionID r).
Definition set_time (r : rollout) (t : option Z) : rollout :=
  mkRollout (lastMessage r) (match t with Some _ => t | None => lastTime r end) (msgCount r) (isWaiting r) (taskInFlight r)
    (pendingApproval r) (projectDir r) (sessionID r).
Definition set_waiting (r : rollout) (w : bool) (p : option Catalog.ApprovalInfo) : rollout :=
  mkRollout (lastMessage r) (lastTime r) (msgCount r) w (taskInFlight r) p (projectDir r) (sessionID r).
Definition set_task (r : rollout) (b : bool) : rollout :=
  mkRollout (lastMessage r) (lastTime r) (msgCount r) (isWaiting r) b (pendingApproval r) (projectDir r) (sessionID r).
Definition set_dir (r : rollout) (d : string) : rollout :=
  mkRollout (lastMessage r) (lastTime r) (msgCount r) (isWaiting r) (taskInFlight r) (pendingApproval r) d (sessionID r).
Definition set_id (r : rollout) (i : string) : rollout :=
  mkRollout (lastMessage r) (lastTime r) (msgCount r) (isWaiting r) (taskInFlight r) (pendingApproval r) (projectDir r) i.
Definition set_count (r : rollout) (n : Z) : rollout :=
  mkRollout (lastMessage r) (lastTime r) n (isWaiting r) (taskInFlight r) (pendingApproval r) (projectDir r) (sessionID r).

Definition nonempty_or (s d : string) : string := if is_empty s then d else s.

(** The first member that is not empty. *)
Definition first_member (o : list (string * value)) (ks : list string) : string :=
  default "" (List.find (fun s => negb (is_empty s)) (member o <$> ks)).

Definition dir_keys : list string := ["cwd"; "workdir"; "working_directory"; "dir"].

Definition approval_of (o : list (string * value)) (id : string) : Catalog.ApprovalInfo :=
  Catalog.mkApproval id (nonempty_or (member o "tool_name") "unknown_tool") (nonempty_or (member o "description") "Codex tool call").

(** A message that is not empty replaces the summary. *)
Definition note_message (r : rollout) (m : string) : rollout := if is_empty m then r else set_message r (truncate m 120).

Definition session_meta (r : rollout) (payload : list (string * value)) : rollout :=
  let r := set_id r (nonempty_or (member payload "id") (nonempty_or (member payload "session_id") (sessionID r))) in
  let r := set_time r (parseCodexTimestamp (assoc "timestamp" payload)) in
  if is_empty (projectDir r) then set_dir r (first_member payload dir_keys) else r.

Definition probe_id (r : rollout) : string := "codex_approval_" +:+ sessionID r +:+ "_" +:+ Itoa (msgCount r).

(** The events nested under [payload]. *)
Definition payload_event (r : rollout) (eventType : string) (payload : list (string * value)) : rollout :=
  let pType := member payload "type" in
  if String.eqb pType "agent_message" then note_message r (member payload "message")
  else if String.eqb pType "task_started" then set_task r true
  else if String.eqb pType "task_complete" then note_message (set_task r false) (member payload "last_agent_message")
  else if String.eqb pType "turn_aborted" then set_waiting (set_task r false) false None
  else if String.eqb pType "message" then
    if String.eqb (member payload "role") "assistant" then note_message r (extractCodexContent payload) else r
  else if (String.eqb pType "approval_request" || String.eqb eventType "approval_request")%bool
  then set_waiting r true (Some (approval_of payload (probe_id r)))
  else if (String.eqb pType "approval_response" || String.eqb eventType "approval_response")%bool
  then set_waiting r false None
  else r.

(** The flat events of older rollouts. *)
Definition flat_event (r : rollout) (eventType : string) (msg : list (string * value)) : rollout :=
  let r := if String.eqb (member msg "role") "assistant" then note_message r (extractCodexContent msg) else r in
  let r := if (String.eqb eventType "approval_request" && bool_decide (pendingApproval r = None))%bool
           then set_waiting r true (Some (approval_of msg (probe_id r))) else r in
  if String.eqb eventType "approval_response" then set_waiting r false None else r.

(** One line; [None] when the rollout is the one of a subagent. *)
Definition rollout_line (r : rollout) (line : string) : option rollout :=
  if is_empty line then Some r
  else match decode_map line with
       | None => Some r
       | Some msg =>
         let r := set_count r (msgCount r + 1) in
         let r := set_time r (parseCodexTimestamp (assoc "timestamp" msg)) in
         let eventType := member msg "type" in
         let payload := as_map (assoc "payload" msg) in
         r ← match payload with
             | Some p => if String.eqb eventType "session_meta"
                         then if isCodexSubagentSessionMeta p then None else Some (session_meta r p) else Some r
             | None => Some r
             end;
         let r := if is_empty (projectDir r) then set_dir r (member msg "cwd") else r in
         let r := match payload with Some p => payload_event r eventType p | None => r end in
         Some (flat_event r eventType msg)
       end.

Fixpoint rollout_lines (r : rollout) (lines : list string) : option rollout :=
  match lines with
  | [] => Some r
  | l :: ls => r' ← rollout_line r l; rollout_lines r' ls
  end.

Definition errCodexSubagentRollout : string := "codex subagent rollout".
Definition codexOrphanTaskInactivityTimeout : Z := 30 * 60 * second.
Definition rolloutLimit : Z := 10 * 1024 * 1024.

Definition bad_session_id (id : string) : bool := bool_decide (id ∈ [""; "."; "/"]).

(** [running] is what the commander says of a session; [path] is the file, [content]
    its bytes, [modTime] from the [Stat]. *)
Definition parseRolloutFileUncached (path : string) (content : res string) (modTime now : Z) (commanderRunning : string -> bool)
  : res SessionInfo :=
  s ← content;
  let start := mkRollout "" None 0 false false None "" (codexSessionIDFromFilename (Base path)) in
  match rollout_lines start (scan_lines rolloutLimit s).1 with
  | None => Err errCodexSubagentRollout
  | Some r =>
    if msgCount r =? 0 then Err "empty rollout file"
    else
      let id := nonempty_or (sessionID r) (Base (path_dir path)) in
      if bad_session_id id then Err ("could not determine session id for " +:+ path)
      else
        let last := match lastTime r with Some t => Z.max t modTime | None => modTime end in
        let running := commanderRunning id in
        let inFlight := (taskInFlight r && negb ((codexOrphanTaskInactivityTimeout <? now - last) && negb running))%bool in
        let status := if isWaiting r then "waiting_approval" else if (inFlight || running)%bool then "running" else "idle" in
        Ok (mkSession id status (lastMessage r) last path (projectDir r) (pendingApproval r) None)
  end.

(** On a cache hit the rules that depend on the clock are applied again. *)
Definition parseRolloutFile (c : fileDiscoveryCache SessionInfo) (path : string) (fp : fileFingerprint) (content : res string)
    (now : Z) (commanderRunning : string -> bool) : res SessionInfo * fileDiscoveryCache SessionInfo :=
  let '(r, c) := load c path fp (parseRolloutFileUncached path content (modifiedUnixNS fp) now commanderRunning) in
  (match r with
   | Err e => Err e
   | Ok s =>
     Ok (if commanderRunning (sID s) then with_status s "running"
         else if (String.eqb (sStatus s) "running" && (codexOrphanTaskInactivityTimeout <? now - sLastActivity s))%bool
         then with_status s "idle" else s)
   end, c).

(** ** Old files *)

(** The id and the directory from the records at the head: the first
    [session_meta] decides. *)
Fixpoint probe_head (id dir : string) (lines : list string) : option (string * string) :=
  match lines with
  | [] => Some (id, dir)
  | l :: ls =>
    match decode_map l with
    | None => probe_head id dir ls
    | Some msg =>
      match as_map (assoc "payload" msg) with
      | Some p =>
        if String.eqb (member msg "type") "session_meta"
        then if isCodexSubagentSessionMeta p then None
             else Some (nonempty_or (member p "id") (nonempty_or (member p "session_id") id), nonempty_or (first_member p dir_keys) dir)
        else probe_head id dir ls
      | None => probe_head id dir ls
      end
    end
  end.

Record probed : Type := mkProbed { pbStatus : string; pbPending : option Catalog.ApprovalInfo; pbMessage : string; pbTime : Z }.

Definition probe_line (id : string) (index : nat) (p : probed) (line : string) : probed :=
  match decode_map line with
  | None => p
  | Some msg =>
    let time := match parseCodexTimestamp (assoc "timestamp" msg) with Some t => Z.max (pbTime p) t | None => pbTime p end in
    let eventType := member msg "type" in
    let payload := as_map (assoc "payload" msg) in
    let pType := match payload with Some o => member o "type" | None => "" end in
    let message := match payload with
                   | Some o => if (String.eqb pType "agent_message" && negb (is_empty (member o "message")))%bool
                               then truncate (member o "message") 120 else pbMessage p
                   | None => pbMessage p
                   end in
    if (String.eqb pType "approval_request" || String.eqb eventType "approval_request")%bool then
      mkProbed "waiting_approval"
        (Some (approval_of (default msg payload) ("codex_approval_" +:+ id +:+ "_probe_" +:+ Itoa (Z.of_nat index)))) message time
    else if bool_decide (pType ∈ ["approval_response"; "turn_aborted"; "task_complete"] \/ eventType = "approval_response")
    then mkProbed "idle" None message time
    else mkProbed (pbStatus p) (pbPending p) message time
  end.

Fixpoint probe_lines (id : string) (index : nat) (p : probed) (lines : list string) : probed :=
  match lines with [] => p | l :: ls => probe_lines id (S index) (probe_line id index p l) ls end.

Definition parseCodexAttentionProbe (path : string) (modTime : Z) (probe : jsonlAttentionProbe) : res SessionInfo :=
  match probe_head (codexSessionIDFromFilename (Base path)) "" (head_ probe) with
  | None => Err errCodexSubagentRollout
  | Some (id, dir) =>
    let id := nonempty_or id (Base (path_dir path)) in
    if bad_session_id id then Err ("could not determine session id for " +:+ path)
    else
      let p := probe_lines id 0 (mkProbed "idle" None "" modTime) (if whole probe then head_ probe else tail_ probe) in
      Ok (mkSession id (pbStatus p) (pbMessage p) (pbTime p) path dir (pbPending p) None)
  end.

Definition probeOldRolloutAttention (c : fileDiscoveryCache SessionInfo) (path : string) (fp : fileFingerprint) (content : res string)
    (commanderRunning : string -> bool) : res SessionInfo * fileDiscoveryCache SessionInfo :=
  let '(r, c) := load c path fp (s ← content; parseCodexAttentionProbe path (modifiedUnixNS fp) (readJSONLAttentionProbe s (fsize fp))) in
  (match r with
   | Err e => Err e
   | Ok s => Ok (if commanderRunning (sID s) then with_status s "running" else s)
   end, c).

(** ** A round of discovery *)

(** A file as [filepath.Walk] shows it: an error of the walk itself skips it. *)
Record walked : Type := mkWalked { wPath : string; wDir : bool; wInfo : fileFingerprint; wContent : res string }.

Definition is_rollout (f : walked) : bool :=
  (negb (wDir f) && has_prefix "rollout-" (Base (wPath f)) && has_suffix ".jsonl" (Base (wPath f)))%bool.

Record discovery : Type := mkDiscovery {
  discoveryCache : fileDiscoveryCache SessionInfo;
  attentionCache : fileDiscoveryCache SessionInfo;
  keep : gset string;
  byID : gmap string SessionInfo
}.

Definition overlay (app : option CodexAppServer.CodexAppServer) (s : SessionInfo) : SessionInfo :=
  match app with
  | None => s
  | Some c =>
    let '(status, pa, pi) := CodexAdapter.ApplyAppServerOverlay c (sID s) (sStatus s) (sPendingApproval s) (sPendingUserInput s) in
    mkSession (sID s) status (sSummary s) (sLastActivity s) (sSessionPath s) (sProjectDir s) pa pi
  end.

(** Of the files of one session the one with the latest activity counts; the
    first walked of two that are equal. *)
Definition keep_newest (m : gmap string SessionInfo) (s : SessionInfo) : gmap string SessionInfo :=
  match m !! sID s with
  | Some prev => if sLastActivity prev <? sLastActivity s then <[sID s := s]> m else m
  | None => <[sID s := s]> m
  end.

Section Discover.
Variable now : Z.
Variable app : option CodexAppServer.CodexAppServer.
Variable commanderRunning : string -> bool.

Definition old_file (f : walked) : bool := modifiedUnixNS (wInfo f) <? recentSessionCutoff now.

(** The session of a file and the caches after it; [None] when it is skipped. *)
Definition read_session (d : discovery) (f : walked) : option SessionInfo * discovery :=
  let full d :=
    let '(r, c) := parseRolloutFile (discoveryCache d) (wPath f) (wInfo f) (wContent f) now commanderRunning in
    (match r with Ok s => Some s | Err _ => None end, mkDiscovery c (attentionCache d) (keep d) (byID d)) in
  if old_file f then
    match peek (discoveryCache d) (wPath f) (wInfo f) with
    | Some (Err _) => (None, d)
    | Some (Ok _) => full d
    | None =>
      let '(r, c) := probeOldRolloutAttention (attentionCache d) (wPath f) (wInfo f) (wContent f) commanderRunning in
      (match r with Ok s => Some s | Err _ => None end, mkDiscovery (discoveryCache d) c (keep d) (byID d))
    end
  else full (mkDiscovery (discoveryCache d) (attentionCache d) ({[normalizedDiscoveryPath (wPath f)]} ∪ keep d) (byID d)).

Definition visit (d : discovery) (f : walked) : discovery :=
  if negb (is_rollout f) then d
  else let '(s, d) := read_session d f in
       match s with
       | None => d
       | Some s =>
         let s := overlay app s in
         if sessionIsVisible (sStatus s) (sLastActivity s) now
         then mkDiscovery (discoveryCache d) (attentionCache d)
                (if old_file f then {[normalizedDiscoveryPath (wPath f)]} ∪ keep d else keep d) (keep_newest (byID d) s)
         else d
       end.

(** [files] is [None] when the directory does not exist. The sessions come in no
    order. *)
Definition Discover (dc ac : fileDiscoveryCache SessionInfo) (exists_ : string -> bool) (lastPaths : gmap string string)
    (files : option (list walked))
  : gmap string SessionInfo * fileDiscoveryCache SessionInfo * fileDiscoveryCache SessionInfo * gmap string string :=
  match files with
  | None => (∅, dc, ac, lastPaths)
  | Some fs =>
    let d := foldl visit (mkDiscovery dc ac ∅ ∅) fs in
    (byID d, prune (discoveryCache d) (keep d), pruneMissing (attentionCache d) exists_, (sSessionPath <$> byID d) ∪ lastPaths)
  end.

(** ** The file of a session *)

Definition resolveRecent : Z := 2 * 60 * second.

(** The newest file whose session has the id. Files whose name carries another id
    are opened only while they are fresh. *)
Definition resolve_visit (sessionID : string) (st : fileDiscoveryCache SessionInfo * option (string * Z)) (f : walked)
  : fileDiscoveryCache SessionInfo * option (string * Z) :=
  if negb (is_rollout f) then st
  else
    let named := String.eqb (codexSessionIDFromFilename (Base (wPath f))) sessionID in
    let fresh := negb (modifiedUnixNS (wInfo f) <? now - resolveRecent) in
    if (named || fresh)%bool then
      let '(r, c) := parseRolloutFile st.1 (wPath f) (wInfo f) (wContent f) now commanderRunning in
      let mine := match r with Ok s => String.eqb (sID s) sessionID | Err _ => false end in
      let '(mine, c) :=
        if (named && negb mine && fresh)%bool then
          let '(r, c) := parseRolloutFile c (wPath f) (wInfo f) (wContent f) now commanderRunning in
          (match r with Ok s => String.eqb (sID s) sessionID | Err _ => false end, c)
        else (mine, c) in
      if mine then
        (c, match st.2 with
            | Some (p, t) => if t <? modifiedUnixNS (wInfo f) then Some (wPath f, modifiedUnixNS (wInfo f)) else Some (p, t)
            | None => Some (wPath f, modifiedUnixNS (wInfo f))
            end)
      else (c, st.2)
    else st.

Definition resolveSessionPath (dc : fileDiscoveryCache SessionInfo) (exists_ : string -> bool) (lastPaths : gmap string string)
    (files : list walked) (sessionID : string) : string * fileDiscoveryCache SessionInfo * gmap string string :=
  let p := default "" (lastPaths !! sessionID) in
  if (negb (is_empty p) && exists_ p)%bool then (p, dc, lastPaths)
  else
    let lastPaths := if is_empty p then lastPaths else delete sessionID lastPaths in
    let '(dc, found) := foldl (resolve_visit sessionID) (dc, None) files in
    match found with
    | Some (p, _) => (p, dc, if is_empty p then lastPaths else <[sessionID := p]> lastPaths)
    | None => ("", dc, lastPaths)
    end.

Definition OwnsSession (dc : fileDiscoveryCache SessionInfo) (exists_ : string -> bool) (lastPaths : gmap string string)
    (files : list walked) (sessionID : string) : bool :=
  let sessionID := TrimSpace sessionID in
  if is_empty sessionID then false
  else negb (is_empty (resolveSessionPath dc exists_ lastPaths files sessionID).1.1).
End Discover.

(** The first candidate that is owned in the first round that has one; [rounds]
    are the answers of [OwnsSession], one per quarter second until the deadline. *)
Fixpoint clean_candidates (seen : list string) (cs : list string) : list string :=
  match cs with
  | [] => []
  | c :: cs =>
    let c := TrimSpace c in
    if (is_empty c || bool_decide (c ∈ seen))%bool then clean_candidates seen cs else c :: clean_candidates (c :: seen) cs
  end.

Definition PreferOwnedID (rounds : list (string -> bool)) (candidates : list string) : string * bool :=
  match clean_candidates [] candidates with
  | [] => ("", false)
  | c0 :: _ as cleaned =>
    match List.find (fun o => match o with Some _ => true | None => false end) ((fun owns => List.find owns cleaned) <$> rounds) with
    | Some (Some c) => (c, true)
    | _ => (c0, false)
    end
  end.

(** ** History *)

Record HistoryMessage : Type := mkHistory { hID : string; hRole : string; hContent : string; hType : string; hTimestamp : Z }.

Definition clampHistoryLimit (limit : Z) : Z := if limit <=? 0 then 50 else if 40 <? limit then 40 else limit.

Definition takeLastHistory (msgs : list HistoryMessage) (limit : Z) : list HistoryMessage :=
  let limit := clampHistoryLimit limit in
  if Z.of_nat (List.length msgs) <=? limit then msgs else drop (List.length msgs - Z.to_nat limit) msgs.

(** The role and the text of a line, when it is a message of the chat. *)
Definition history_entry (line : string) : option (string * string * option Z) :=
  msg ← decode_map line;
  payload ← as_map (assoc "payload" msg);
  let pt := member payload "type" in
  role ← (if String.eqb (member msg "type") "event_msg"
          then if String.eqb pt "user_message" then Some "user" else if String.eqb pt "agent_message" then Some "assistant" else None
          else None);
  let content := TrimSpace (member payload "message") in
  if (is_empty content || has_prefix "# AGENTS.md" content || (20000 <? len content))%bool then None
  else Some (role, truncateRunes content 4000, parseCodexTimestamp (assoc "timestamp" msg)).

Definition history_message (sessionID : string) (now : Z) (i : nat) (e : string * string * option Z) : HistoryMessage :=
  mkHistory ("codex_" +:+ sessionID +:+ "_" +:+ Itoa (Z.of_nat (S i))) e.1.1 e.1.2 "text" (default now e.2 / second).

Definition historyLimit : Z := 16 * 1024 * 1024.

(** The messages and whether the scan ended with an error. [path] is what
    [resolveSessionPath] finds, [open] reads the file. *)
Definition FetchHistory (owned : bool) (path : string) (open : res string) (now : Z) (sessionID : string) (limit : Z)
  : res (list HistoryMessage * bool) :=
  let limit := clampHistoryLimit limit in
  if (negb owned || is_empty path)%bool then Err ("codex session not found: " +:+ sessionID)
  else
    s ← open;
    let '(lines, e) := scan_lines historyLimit s in
    Ok (takeLastHistory (imap (history_message sessionID now) (omap history_entry lines)) limit, e).
End Rollout.
