(* ===== verification/ClaudeCommander.v ===== *)
(** * Driving the CLI of Claude Code (daemon/internal/agentexec/executor.go, claude.go,
    diagnostics.go, and attachmentDirs of attachments.go)

    A process is what [AgentExecutor] remembers of it; executors live in a heap,
    because the commander's table and the goroutines of a process share them. How a
    launch, a write and a signal end are arguments. *)

From stdpp Require Import base tactics list gmap strings.
From Stdlib Require Import Ascii ZArith Lia.
From S2P Require Import Prelude GoStrings GoPath Json Protocol JsonDecode.
From S2P Require StartThread CodexAppServer CodexRollout.

(** ** [AgentExecutor] *)

Record AgentExecutor : Type := mkExecutor {
  session : string;
  running : bool;
  stdinOpen : bool;
  exitCode : Z;
  intentionalStop : bool;
  stderrSeen : bool
}.

Definition NewAgentExecutor (sessionID : string) : AgentExecutor := mkExecutor sessionID false false (-1) false false.

(** [launched] is how resolving the command, making the pipes and starting end. *)
Definition StartWithDir (launched : res unit) (e : AgentExecutor) : res AgentExecutor :=
  if running e then Err "executor already running"
  else _ ← launched; Ok (mkExecutor (session e) true true (-1) false (stderrSeen e)).

(** The goroutine that waits: both pipes are read and the process is reaped. *)
Definition reap (code : Z) (e : AgentExecutor) : AgentExecutor :=
  mkExecutor (session e) false (stdinOpen e) code (intentionalStop e) (stderrSeen e).

Definition IsRunning (e : AgentExecutor) : bool := running e.
Definition StdinOpen (e : AgentExecutor) : bool := (running e && stdinOpen e)%bool.
Definition WasIntentionallyStopped (e : AgentExecutor) : bool := intentionalStop e.

Definition CloseStdin (e : AgentExecutor) : AgentExecutor :=
  mkExecutor (session e) (running e) false (exitCode e) (intentionalStop e) (stderrSeen e).

(** [SendPrompt] of the executor: the bytes that are written. *)
Definition write_prompt (written : string -> res unit) (e : AgentExecutor) (prompt : string) : res unit :=
  if StdinOpen e then wrap "write to stdin: " (written (prompt +:+ of_codes [10])) else Err "agent not running".

Definition stop_intended (e : AgentExecutor) : AgentExecutor :=
  mkExecutor (session e) (running e) (stdinOpen e) (exitCode e) true (stderrSeen e).

(** [signalled] is how the signal, or killing after it failed, ends. *)
Definition Interrupt (signalled : res unit) (e : AgentExecutor) : res unit * AgentExecutor :=
  if running e then (signalled, stop_intended e) else (Err "agent not running", e).

(** [Stop] until it waits. *)
Definition Stop (e : AgentExecutor) : AgentExecutor := if running e then stop_intended e else e.

(** [readLineOutput]: the lines that are handed on, and whether reading failed. *)
Definition outputLimit : Z := 16 * 1024 * 1024.
Definition readLineOutput (bytes : string) : list string * bool :=
  let '(lines, failed) := CodexRollout.scan_lines outputLimit bytes in
  (List.filter (fun l => negb (is_empty l)) lines, failed).

(** ** [stderrDiagnostics] *)

Definition suppress (source : string) (e : AgentExecutor) : bool * AgentExecutor :=
  if String.eqb source "stdout" then (false, e)
  else (true, mkExecutor (session e) (running e) (stdinOpen e) (exitCode e) (intentionalStop e) true).

Definition exitFailure (agentLabel : string) (e : AgentExecutor) : string :=
  if ((exitCode e =? 0) || intentionalStop e || negb (stderrSeen e))%bool then ""
  else agentLabel +:+ " CLI exited with code " +:+ Itoa (exitCode e) +:+ " after emitting local diagnostics; check the CLI on the PC".

(** ** Arguments of the CLI *)

(** The directories of files with a path, each once. *)
Fixpoint dirs_of (seen : list string) (files : list StartThread.LocalFile) : list string :=
  match files with
  | [] => []
  | f :: rest =>
    if is_empty (TrimSpace (StartThread.FilePath f)) then dirs_of seen rest
    else let dir := Clean (path_dir (StartThread.FilePath f)) in
         if bool_decide (dir ∈ seen) then dirs_of seen rest else dir :: dirs_of (dir :: seen) rest
  end.

Definition attachmentDirs (files : list StartThread.LocalFile) : list string := dirs_of [] files.

Definition claudeResumeArgs (sessionID prompt : string) (attachments : list StartThread.LocalFile) : list string :=
  let dirs := attachmentDirs attachments in
  ["--resume"; sessionID] ++ (match dirs with [] => [] | _ => "--add-dir" :: dirs end)
  ++ ["-p"; prompt; "--output-format"; "stream-json"; "--verbose"].

Definition claudeStartArgs (sessionID prompt : string) : list string :=
  ["--session-id"; sessionID; "-p"; prompt; "--output-format"; "stream-json"; "--verbose"].

(** ** What a line of output becomes *)

Definition claudePromptAcknowledged (line : string) : bool :=
  match parse line with
  | None => false
  | Some v =>
    let '(o, ok) := struct_of (Some v) in
    let '(t, ok1) := string_field o "type" in
    (ok && ok1 && bool_decide (t ∈ ["assistant"; "result"]))%bool
  end.

Definition as_array (v : option value) : option (list value) := match v with Some (VArray l) => Some l | _ => None end.

(** The text of a block of content. *)
Definition block_text (b : value) : option string :=
  match b with
  | VObject kvs =>
    let t := CodexRollout.member kvs "type" in
    if String.eqb t "text" then as_string (assoc "text" kvs)
    else if String.eqb t "thinking" then (fun s => "[thinking] " +:+ s) <$> as_string (assoc "thinking" kvs)
    else if String.eqb t "tool_use" then Some ("[tool: " +:+ CodexRollout.member kvs "name" +:+ "]")
    else None
  | _ => None
  end.

Definition newline : string := of_codes [10].

Definition extractTextFromContentBlocks (blocks : list value) : string := CodexAppServer.join_strings newline (omap block_text blocks).

(** The content of an object: blocks, or a text. *)
Definition content_text (o : list (string * value)) : option string :=
  match assoc "content" o with
  | Some (VArray l) => Some (extractTextFromContentBlocks l)
  | Some (VString s) => Some s
  | _ => None
  end.

Definition extractClaudeText (msg : list (string * value)) : string :=
  match CodexRollout.as_map (assoc "message" msg) ≫= content_text with
  | Some s => s
  | None => match content_text msg with Some s => s | None => CodexRollout.member msg "result" end
  end.

(** The type and the text that [OnAgentOutput] is called with. *)
Definition parseAndForwardOutput (line : string) : option (string * string) :=
  match CodexRollout.decode_map line with
  | None => Some ("text", line)
  | Some msg =>
    let t := CodexRollout.member msg "type" in
    if String.eqb t "assistant" then let s := extractClaudeText msg in if is_empty s then None else Some ("assistant", s)
    else if String.eqb t "result" then
      let s := CodexRollout.member msg "result" in if is_empty s then None else Some ("assistant", s)
    else if String.eqb t "system" then Some ("system", "[" +:+ CodexRollout.member msg "subtype" +:+ "]")
    else let s := extractClaudeText msg in if is_empty s then None else Some (t, s)
  end.

Definition handleProcessLine (source line : string) : option (string * string) :=
  if String.eqb source "stdout" then parseAndForwardOutput line else None.

(** [OnOutputSource]: what is forwarded, and the executor after it. *)
Definition output_line (source line : string) (e : AgentExecutor) : option (string * string) * AgentExecutor :=
  let '(suppressed, e) := suppress source e in
  (if (suppressed : bool) then None else handleProcessLine source line, e).

(** ** [ClaudeCommander] *)

(** [nextID] names the next executor. *)
Record ClaudeCommander : Type := mkCommander {
  heap : gmap nat AgentExecutor;
  executors : gmap string nat;
  nextID : nat
}.

Definition NewClaudeCommander : ClaudeCommander := mkCommander ∅ ∅ 0.

Definition executor_of (c : ClaudeCommander) (sessionID : string) : option (nat * AgentExecutor) :=
  p ← executors c !! sessionID; e ← heap c !! p; Some (p, e).

Definition IsSessionRunning (c : ClaudeCommander) (sessionID : string) : bool :=
  match executor_of c sessionID with Some (_, e) => IsRunning e | None => false end.

Definition set_executor (c : ClaudeCommander) (p : nat) (e : AgentExecutor) : ClaudeCommander :=
  mkCommander (<[p := e]> (heap c)) (executors c) (nextID c).

Definition ErrSessionBusy : string := "agent session is already running".

Definition synthetic_id (sessionID : string) : bool := (has_prefix "nekonest_" sessionID || has_prefix "new_" sessionID)%bool.

(** The executor that was started. *)
Definition startPromptInDir (launch : list string -> string -> res unit) (sessionID : string) (args : list string) (workDir : string)
    (c : ClaudeCommander) : res nat * ClaudeCommander :=
  if IsSessionRunning c sessionID then
    (Err (ErrSessionBusy +:+ ": claude session " +:+ sessionID +:+ " is still running; wait for it to finish"), c)
  else if synthetic_id sessionID then
    (Err ("invalid session id " +:+ quoted sessionID +:+ " — use a session discovered from the PC"), c)
  else
    match StartWithDir (launch args workDir) (NewAgentExecutor sessionID) with
    | Err e => (Err ("start claude: " +:+ e), c)
    | Ok e =>
      (Ok (nextID c), mkCommander (<[nextID c := CloseStdin e]> (heap c)) (<[sessionID := nextID c]> (executors c)) (S (nextID c)))
    end.

Definition SendPromptInDir (launch : list string -> string -> res unit) (sessionID prompt workDir : string)
    (attachments : list StartThread.LocalFile) (c : ClaudeCommander) : res nat * ClaudeCommander :=
  startPromptInDir launch sessionID (claudeResumeArgs sessionID prompt attachments) workDir c.

(** [SendPrompt] *)
Definition SendPrompt (launch : list string -> string -> res unit) (sessionID prompt : string)
    (attachments : list StartThread.LocalFile) (c : ClaudeCommander) : res nat * ClaudeCommander :=
  SendPromptInDir launch sessionID prompt "" attachments c.

(** [StartThread] up to the wait, and how the wait ends: [acked] when a line of
    the output acknowledges the prompt before the context ends. *)
Definition StartThread_launch (probed : res unit) (launch : list string -> string -> res unit) (sessionID workDir prompt : string)
    (c : ClaudeCommander) : res nat * ClaudeCommander :=
  match probed with
  | Err e => (Err e, c)
  | Ok _ => startPromptInDir launch sessionID (claudeStartArgs sessionID prompt) workDir c
  end.

(** The id, whether the thread was created, whether the prompt was accepted. *)
Definition StartThread_result (probed : res unit) (started : res nat) (acked : res unit) (sessionID : string)
  : string * bool * bool * option string :=
  match probed, started, acked with
  | Err e, _, _ => ("", false, false, Some e)
  | _, Err e, _ => (sessionID, false, false, Some e)
  | _, _, Ok _ => (sessionID, true, true, None)
  | _, _, Err e => (sessionID, true, false, Some ("Claude initial prompt was not confirmed: " +:+ e))
  end.

(** The part of [OnExit] that holds the mutex. *)
Definition forget (p : nat) (c : ClaudeCommander) : ClaudeCommander :=
  match heap c !! p with
  | Some e =>
    if bool_decide (executors c !! session e = Some p) then mkCommander (heap c) (base.delete (session e) (executors c)) (nextID c) else c
  | None => c
  end.

(** [Approve] and [Deny] write to a process that still reads. *)
Definition answer_prompt (word verb sessionID : string) (written : string -> res unit) (c : ClaudeCommander) : res unit :=
  match executor_of c sessionID with
  | Some (_, e) =>
    if StdinOpen e then write_prompt written e word
    else Err ("approval_unavailable: Claude print mode is non-interactive; " +:+ verb +:+ " on the PC terminal (session " +:+ sessionID +:+ ")")
  | None => Err ("approval_unavailable: Claude print mode is non-interactive; " +:+ verb +:+ " on the PC terminal (session " +:+ sessionID +:+ ")")
  end.
Definition Approve := answer_prompt "y" "approve".
Definition Deny := answer_prompt "n" "deny".

Definition InterruptSession (signalled : res unit) (sessionID : string) (c : ClaudeCommander) : res unit * ClaudeCommander :=
  match executor_of c sessionID with
  | None => (Err ("no running executor for session " +:+ sessionID), c)
  | Some (p, e) => let '(r, e) := Interrupt signalled e in (r, set_executor c p e)
  end.

Definition StopSession (sessionID : string) (c : ClaudeCommander) : ClaudeCommander :=
  match executor_of c sessionID with Some (p, e) => set_executor c p (Stop e) | None => c end.

(** [StopAll]: the executors that are taken out of the table, to be stopped after. *)
Definition StopAll_take `{MapOrder} (c : ClaudeCommander) : list nat * ClaudeCommander :=
  (range_values (executors c), mkCommander (heap c) ∅ (nextID c)).
Definition StopAll_stop (c : ClaudeCommander) (p : nat) : ClaudeCommander :=
  match heap c !! p with Some e => set_executor c p (Stop e) | None => c end.
Definition StopAll `{MapOrder} (c : ClaudeCommander) : ClaudeCommander := let '(l, c) := StopAll_take c in foldl StopAll_stop c l.

(** ** [probeCLIHelp] *)

(** [found]: the command is on disk or in the path; [help]: what it prints, and how
    running it ended. *)
Definition probeCLIHelp (command : string) (found : res unit) (launch : res unit) (help : string * res unit) (required : list string) : res unit :=
  if is_empty (TrimSpace command) then Err "CLI path is empty"
  else
    _ ← wrap "CLI not found: " found;
    _ ← launch;
    let text := to_lower help.1 in
    match help.2, is_empty (TrimSpace text) with
    | Err e, true => Err ("CLI help failed: " +:+ e)
    | _, _ =>
      match List.find (fun want => negb (contains text (to_lower want))) required with
      | Some want => Err ("installed CLI does not advertise " +:+ want)
      | None => Ok tt
      end
    end.

Definition ProbeThreadStart (command : string) (found launch : res unit) (help : string * res unit) : res unit :=
  probeCLIHelp command found launch help ["--session-id"; "--output-format"; "stream-json"].
