(* ===== verification/ClaudeAdapter.v ===== *)
(** * The Claude Code adapter (daemon/internal/adapters/claude_code.go)

    Sessions and history from the transcripts of Claude Code, and the way of a
    prompt from the daemon to the process that runs it and back. A file is its
    bytes, a time its nanoseconds; the text helpers, [SessionInfo] and history are
    those of [CodexRollout]. The path separator is the slash. *)

From stdpp Require Import base tactics list gmap strings.
From Stdlib Require Import Ascii ZArith Lia.
From S2P Require Import Prelude GoStrings GoPath Json Protocol JsonDecode DiscoveryCache CodexRollout.
From S2P Require StartThread CodexAppServer ActiveTurn ClaudeCommander.

(** ** Content *)

(** The text of a block of an array; a block without a type counts as text. *)
Definition text_block (b : value) : option string :=
  match b with
  | VObject kvs =>
    let t := member kvs "type" in
    if (String.eqb t "text" || is_empty t)%bool then as_string (assoc "text" kvs) else None
  | _ => None
  end.

Fixpoint contentToText (v : value) : string :=
  match v with
  | VString s => s
  | VArray l => CodexAppServer.join_strings " " (omap text_block l)
  | VObject kvs =>
    match as_string (assoc "text" kvs) with
    | Some s => s
    | None =>
      (fix content (kvs : list (string * value)) : string :=
         match kvs with
         | [] => ""
         | (k, x) :: rest => if String.eqb k "content" then contentToText x else content rest
         end) kvs
    end
  | _ => ""
  end.

Definition text_of (v : option value) : string := match v with Some x => contentToText x | None => "" end.

Definition extractContent (msg : list (string * value)) : string :=
  nonempty_or (text_of (assoc "content" msg))
    (match as_map (assoc "message" msg) with Some nested => text_of (assoc "content" nested) | None => "" end).

Definition isClaudeSubagentRecord (msg : list (string * value)) : bool :=
  match assoc "isSidechain" msg with
  | Some (VBool true) => negb (is_empty (TrimSpace (member msg "agentId")))
  | _ => false
  end.

(** The folder of a project spells its path with hyphens. *)
Fixpoint hyphens_to_slashes (s : string) : string :=
  match s with EmptyString => EmptyString | String c s' => String (if Ascii.eqb c hyphen then slash else c) (hyphens_to_slashes s') end.

Definition decodeClaudeProjectDir (encoded : string) : string :=
  if (is_empty encoded || String.eqb encoded ".")%bool then ""
  else match encoded with
       | String drive (String h1 (String h2 rest)) =>
         if (Ascii.eqb h1 hyphen && Ascii.eqb h2 hyphen)%bool
         then String drive (":" +:+ String slash (hyphens_to_slashes rest))
         else hyphens_to_slashes encoded
       | _ => hyphens_to_slashes encoded
       end.

(** ** What tools are asked for *)

Definition content_blocks (o : list (string * value)) : list (list (string * value)) :=
  match assoc "content" o with
  | Some (VArray l) => omap (fun b => match b with VObject kvs => Some kvs | _ => None end) l
  | _ => []
  end.

Definition contentHasBlockType (o : list (string * value)) (want : string) : bool :=
  existsb (fun b => String.eqb (member b "type") want) (content_blocks o).

Definition hasToolUse (o : list (string * value)) : bool := contentHasBlockType o "tool_use".

Definition hasToolResult (o : list (string * value)) : bool :=
  (contentHasBlockType o "tool_result" ||
   match as_map (assoc "message" o) with Some nested => contentHasBlockType nested "tool_result" | None => false end)%bool.

Definition tool_blocks (o : list (string * value)) : list (list (string * value)) :=
  List.filter (fun b => String.eqb (member b "type") "tool_use") (content_blocks o).

Definition extractToolName (o : list (string * value)) : string :=
  match omap (fun b => as_string (assoc "name" b)) (tool_blocks o) with n :: _ => n | [] => "" end.

(** The description of a call from its input, if that says something. *)
Definition tool_input (toolName : string) (input : list (string * value)) : option string :=
  if bool_decide (toolName ∈ ["Bash"; "bash"]) then (fun c => "Run: " +:+ truncate c 80) <$> as_string (assoc "command" input)
  else if bool_decide (toolName ∈ ["Write"; "write"]) then (fun p => "Write: " +:+ Base p) <$> as_string (assoc "file_path" input)
  else if bool_decide (toolName ∈ ["Read"; "read"]) then (fun p => "Read: " +:+ Base p) <$> as_string (assoc "file_path" input)
  else if bool_decide (toolName ∈ ["Edit"; "edit"]) then (fun p => "Edit: " +:+ Base p) <$> as_string (assoc "file_path" input)
  else Some ("Call " +:+ toolName).

Definition extractToolDescription (o : list (string * value)) : string :=
  let toolName := extractToolName o in
  if is_empty toolName then "Tool call"
  else match omap (fun b => as_map (assoc "input" b) ≫= tool_input toolName) (tool_blocks o) with d :: _ => d | [] => toolName end.

Definition isReadOnlyTool (name : string) : bool :=
  bool_decide (name ∈ ["Read"; "read"; "Glob"; "glob"; "Grep"; "grep"; "ListDir"; "list_dir"]).

Section Transcripts.
Context `{GoTime}.

(** ** Transcripts *)

Definition zero_time : Z := -62135596800 * second.

Definition parseMessageTime (v : option value) : option Z :=
  match v with
  | Some (VFloat m e) =>
    if float_gt m e 1000000000000 then Some (float_trunc m e * millisecond)
    else if float_gt m e 0 then Some (float_trunc m e * second)
    else None
  | Some (VString s) =>
    if is_empty s then None
    else match time_Parse RFC3339Nano s with Some t => Some t | None => time_Parse RFC3339 s end
  | _ => None
  end.

(** The role of a record: the nested one when there is one. *)
Definition record_role (msg : list (string * value)) : string :=
  match as_map (assoc "message" msg) with
  | Some nested => nonempty_or (member nested "role") (member msg "role")
  | None => member msg "role"
  end.

Definition content_source (msg : list (string * value)) : list (string * value) :=
  match as_map (assoc "message" msg) with
  | Some nested => if bool_decide (is_Some (assoc "content" nested)) then nested else msg
  | None => msg
  end.

Definition from_assistant (msg : list (string * value)) : bool :=
  (String.eqb (record_role msg) "assistant" || String.eqb (member msg "type") "assistant")%bool.

(** A time that is later replaces the last one. *)
Definition later_time (last : Z) (msg : list (string * value)) : Z :=
  match parseMessageTime (assoc "timestamp" msg) with
  | Some t => if last <? t then t else
      match parseMessageTime (assoc "created" msg) with Some t => Z.max last t | None => last end
  | None => match parseMessageTime (assoc "created" msg) with Some t => Z.max last t | None => last end
  end.

Record transcript : Type := mkTranscript { lastAssistantMsg : string; tLastTime : Z; tCount : Z; tDir : string }.

(** One line; [None] when the transcript is the one of a subagent. *)
Definition transcript_line (r : transcript) (line : string) : option transcript :=
  match decode_map line with
  | None => Some r
  | Some msg =>
    if ((tCount r =? 0) && isClaudeSubagentRecord msg)%bool then None
    else
      let dir := nonempty_or (tDir r) (member msg "cwd") in
      let content := nonempty_or (extractContent (content_source msg)) (extractContent msg) in
      let message := if (from_assistant msg && negb (is_empty content))%bool then truncate content 120 else lastAssistantMsg r in
      Some (mkTranscript message (later_time (tLastTime r) msg) (tCount r + 1) dir)
  end.

Fixpoint transcript_lines (r : transcript) (lines : list string) : option transcript :=
  match lines with
  | [] => Some r
  | l :: ls => r' ← transcript_line r l; transcript_lines r' ls
  end.

Definition errClaudeSubagentTranscript : string := "claude subagent transcript".
Definition minute : Z := 60 * second.

Definition claude_session_id (path : string) : string := trim_suffix (Base path) ".jsonl".
Definition project_of (dir path : string) : string := nonempty_or dir (decodeClaudeProjectDir (Base (path_dir path))).

Definition parseSessionFileUncached (path : string) (content : res string) (modTime now : Z) : res SessionInfo :=
  s ← content;
  match transcript_lines (mkTranscript "" zero_time 0 "") (scan_lines rolloutLimit s).1 with
  | None => Err errClaudeSubagentTranscript
  | Some r =>
    if tCount r =? 0 then Err "empty session file"
    else
      let last := Z.max (tLastTime r) modTime in
      Ok (mkSession (claude_session_id path) (if now - last <? minute then "running" else "idle") (lastAssistantMsg r) last path
            (project_of (tDir r) path) None None)
  end.

(** [commanderRunning] is [IsSessionRunning]. *)
Definition applyClaudeDynamicStatus (now : Z) (commanderRunning : string -> bool) (s : SessionInfo) : SessionInfo :=
  with_status s (if commanderRunning (sID s) then "running" else if now - sLastActivity s <? minute then "running" else "idle").

Definition parseSessionFile (c : fileDiscoveryCache SessionInfo) (path : string) (fp : fileFingerprint) (content : res string)
    (now : Z) (commanderRunning : string -> bool) : res SessionInfo * fileDiscoveryCache SessionInfo :=
  let '(r, c) := load c path fp (parseSessionFileUncached path content (modifiedUnixNS fp) now) in
  (match r with Err e => Err e | Ok s => Ok (applyClaudeDynamicStatus now commanderRunning s) end, c).

(** ** Old transcripts *)

(** The first directory in the head; a subagent's first record ends the search. *)
Fixpoint claude_head (index : nat) (lines : list string) : option string :=
  match lines with
  | [] => Some ""
  | l :: ls =>
    match decode_map l with
    | None => claude_head (S index) ls
    | Some msg =>
      if ((index =? 0)%nat && isClaudeSubagentRecord msg)%bool then None
      else let cwd := member msg "cwd" in if is_empty cwd then claude_head (S index) ls else Some cwd
    end
  end.

Definition claude_tail_line (r : string * Z) (line : string) : string * Z :=
  match decode_map line with
  | None => r
  | Some msg =>
    let content := extractContent (content_source msg) in
    (if (from_assistant msg && negb (is_empty content))%bool then truncate content 120 else r.1, later_time r.2 msg)
  end.

Definition parseClaudeAttentionProbe (path : string) (modTime : Z) (probe : jsonlAttentionProbe) : res SessionInfo :=
  match claude_head 0 (head_ probe) with
  | None => Err errClaudeSubagentTranscript
  | Some dir =>
    let '(message, last) := foldl claude_tail_line ("", modTime) (if whole probe then head_ probe else tail_ probe) in
    Ok (mkSession (claude_session_id path) "idle" message last path (project_of dir path) None None)
  end.

Definition probeOldSessionAttention (c : fileDiscoveryCache SessionInfo) (path : string) (fp : fileFingerprint) (content : res string)
    (now : Z) (commanderRunning : string -> bool) : res SessionInfo * fileDiscoveryCache SessionInfo :=
  let '(r, c) := load c path fp (s ← content; parseClaudeAttentionProbe path (modifiedUnixNS fp) (readJSONLAttentionProbe s (fsize fp))) in
  (match r with Err e => Err e | Ok s => Ok (applyClaudeDynamicStatus now commanderRunning s) end, c).

(** ** A round of discovery *)

(** The transcripts [filepath.Walk] shows: directories come before what is in them,
    and those of subagents are skipped with everything below. *)
Fixpoint walk_files (skip : option string) (fs : list walked) : list walked :=
  match fs with
  | [] => []
  | f :: rest =>
    let below := match skip with Some p => has_prefix p (wPath f) | None => false end in
    if below then walk_files skip rest
    else if wDir f
    then walk_files (if String.eqb (fold_name (Base (wPath f))) "subagents" then Some (wPath f +:+ "/") else skip) rest
    else if has_suffix ".jsonl" (Base (wPath f)) then f :: walk_files skip rest else walk_files skip rest
  end.

Record round : Type := mkRound {
  rDiscovery : fileDiscoveryCache SessionInfo;
  rAttention : fileDiscoveryCache SessionInfo;
  rKeep : gset string;
  rLastPaths : gmap string string;
  rSessions : list SessionInfo
}.

Section Round.
Variable now : Z.
Variable commanderRunning : string -> bool.

(** The session in a file; [None] when it is skipped. *)
Definition read_transcript (r : round) (f : walked) : option SessionInfo * round :=
  let full r :=
    let '(s, c) := parseSessionFile (rDiscovery r) (wPath f) (wInfo f) (wContent f) now commanderRunning in
    (match s with Ok s => Some s | Err _ => None end, mkRound c (rAttention r) (rKeep r) (rLastPaths r) (rSessions r)) in
  if old_file now f then
    match peek (rDiscovery r) (wPath f) (wInfo f) with
    | Some (Err _) => (None, r)
    | Some (Ok _) => full r
    | None =>
      let '(s, c) := probeOldSessionAttention (rAttention r) (wPath f) (wInfo f) (wContent f) now commanderRunning in
      (match s with Ok s => Some s | Err _ => None end, mkRound (rDiscovery r) c (rKeep r) (rLastPaths r) (rSessions r))
    end
  else full (mkRound (rDiscovery r) (rAttention r) ({[normalizedDiscoveryPath (wPath f)]} ∪ rKeep r) (rLastPaths r) (rSessions r)).

Definition visit_transcript (r : round) (f : walked) : round :=
  let '(s, r) := read_transcript r f in
  match s with
  | None => r
  | Some s =>
    if sessionIsVisible (sStatus s) (sLastActivity s) now
    then mkRound (rDiscovery r) (rAttention r)
           (if old_file now f then {[normalizedDiscoveryPath (wPath f)]} ∪ rKeep r else rKeep r)
           (<[sID s := sSessionPath s]> (rLastPaths r)) (rSessions r ++ [s])
    else r
  end.

(** [files] is [None] when the directory does not exist. *)
Definition Discover (dc ac : fileDiscoveryCache SessionInfo) (exists_ : string -> bool) (lastPaths : gmap string string)
    (files : option (list walked)) : list SessionInfo * round :=
  match files with
  | None => ([], mkRound dc ac ∅ lastPaths [])
  | Some fs =>
    let r := foldl visit_transcript (mkRound dc ac ∅ lastPaths []) (walk_files None fs) in
    (rSessions r, mkRound (prune (rDiscovery r) (rKeep r)) (pruneMissing (rAttention r) exists_) (rKeep r) (rLastPaths r) (rSessions r))
  end.

(** ** The file of a session *)

(** The first transcript of that name that parses. *)
Fixpoint resolve_transcript (dc : fileDiscoveryCache SessionInfo) (sessionID : string) (fs : list walked)
  : string * fileDiscoveryCache SessionInfo :=
  match fs with
  | [] => ("", dc)
  | f :: rest =>
    if String.eqb (claude_session_id (wPath f)) sessionID then
      let '(s, dc) := parseSessionFile dc (wPath f) (wInfo f) (wContent f) now commanderRunning in
      match s with
      | Ok s => if String.eqb (sID s) sessionID then (wPath f, dc) else resolve_transcript dc sessionID rest
      | Err _ => resolve_transcript dc sessionID rest
      end
    else resolve_transcript dc sessionID rest
  end.

Definition resolveSessionPath (dc : fileDiscoveryCache SessionInfo) (exists_ : string -> bool) (lastPaths : gmap string string)
    (files : list walked) (sessionID : string) : string * fileDiscoveryCache SessionInfo * gmap string string :=
  let p := default "" (lastPaths !! sessionID) in
  if (negb (is_empty p) && exists_ p)%bool then (p, dc, lastPaths)
  else
    let lastPaths := if is_empty p then lastPaths else delete sessionID lastPaths in
    let '(found, dc) := resolve_transcript dc sessionID (walk_files None files) in
    (found, dc, if is_empty found then lastPaths else <[sessionID := found]> lastPaths).

Definition OwnsSession (dc : fileDiscoveryCache SessionInfo) (exists_ : string -> bool) (lastPaths : gmap string string)
    (files : list walked) (sessionID : string) : bool :=
  let sessionID := TrimSpace sessionID in
  if is_empty sessionID then false
  else negb (is_empty (resolveSessionPath dc exists_ lastPaths files sessionID).1.1).
End Round.

(** ** History *)

Definition chat_role (s : option string) : option string :=
  s ← s; if (String.eqb s "user" || String.eqb s "assistant")%bool then Some s else None.

(** The id, the role, the text and the time of a line that is a message. *)
Definition claude_history_entry (line : string) : option (string * string * string * option Z) :=
  msg ← decode_map line;
  let nested := as_map (assoc "message" msg) ≫= (fun o => chat_role (as_string (assoc "role" o))) in
  role ← match nested with Some r => Some r | None => chat_role (as_string (assoc "type" msg)) end;
  let content := TrimSpace (extractContent msg) in
  if (is_empty content || contains content "<local-command-caveat>")%bool then None
  else Some (member msg "uuid", role, truncateRunes content 4000, parseMessageTime (assoc "timestamp" msg)).

Definition claude_history_message (sessionID : string) (now : Z) (i : nat) (e : string * string * string * option Z) : HistoryMessage :=
  mkHistory (nonempty_or e.1.1.1 ("claude_" +:+ sessionID +:+ "_" +:+ Itoa (Z.of_nat i))) e.1.1.2 e.1.2 "text" (default now e.2 / second).

(** The messages and whether the scan ended with an error. *)
Definition FetchHistory (owned : bool) (path : string) (open : res string) (now : Z) (sessionID : string) (limit : Z)
  : res (list HistoryMessage * bool) :=
  let limit := clampHistoryLimit limit in
  if (negb owned || is_empty path)%bool then Err ("claude session not found: " +:+ sessionID)
  else
    s ← open;
    let '(lines, e) := scan_lines rolloutLimit s in
    Ok (takeLastHistory (imap (claude_history_message sessionID now) (omap claude_history_entry lines)) limit, e).
End Transcripts.

(** ** Prompts

    A prompt goes through the turn tracker, the commander and the tracker again,
    each with a mutex of its own, and the end of its process comes back through
    the same places on another goroutine. Every critical section is a step. *)

Inductive call_stage : Type := Begun | Failed | Launched.

(** A [SendPrompt] that has not returned. *)
Record prompt_call : Type := mkCall { cSession : string; cGeneration : Z; cDefer : bool; cStage : call_stage }.

(** The rest of [accepted] after its first critical section. *)
Inductive acceptance : Type :=
  | Emitting (sessionID : string) (gen : Z) (pending : option ActiveTurn.turnTerminal)
  | Finishing (sessionID : string) (t : ActiveTurn.turnTerminal).

(** How far the waiting goroutine of a process is: reaping, the table, the turn. *)
Inductive exit_stage : Type := Alive | Reaped | Forgotten | Reported.

(** [origins] is the generation of the prompt a process was started for, [None] for
    a new thread; the code keeps it in the closure of the turn only. *)
Record adapter : Type := mkAdapter {
  commander : ClaudeCommander.ClaudeCommander;
  turns : ActiveTurn.turnTracker;
  calls : gmap nat prompt_call;
  acceptances : gmap nat acceptance;
  stages : gmap nat exit_stage;
  origins : gmap nat (option Z)
}.

Definition NewClaudeCodeAdapter (sink : bool) : adapter :=
  mkAdapter ClaudeCommander.NewClaudeCommander (ActiveTurn.mkTracker sink ∅ []) ∅ ∅ ∅ ∅.

Definition set_turns (w : adapter) (t : ActiveTurn.turnTracker) : adapter :=
  mkAdapter (commander w) t (calls w) (acceptances w) (stages w) (origins w).
Definition set_commander (w : adapter) (c : ClaudeCommander.ClaudeCommander) : adapter :=
  mkAdapter c (turns w) (calls w) (acceptances w) (stages w) (origins w).
Definition set_calls (w : adapter) (cs : gmap nat prompt_call) : adapter :=
  mkAdapter (commander w) (turns w) cs (acceptances w) (stages w) (origins w).
Definition set_acceptances (w : adapter) (a : gmap nat acceptance) : adapter :=
  mkAdapter (commander w) (turns w) (calls w) a (stages w) (origins w).
Definition set_stage (w : adapter) (p : nat) (s : exit_stage) : adapter :=
  mkAdapter (commander w) (turns w) (calls w) (acceptances w) (<[p := s]> (stages w)) (origins w).

(** A process that was started. *)
Definition add_process (w : adapter) (c : ClaudeCommander.ClaudeCommander) (p : nat) (origin : option Z) : adapter :=
  mkAdapter c (turns w) (calls w) (acceptances w) (<[p := Alive]> (stages w)) (<[p := origin]> (origins w)).

Inductive event : Type :=
  | SendBegin (k : nat) (sessionID : string) (gen : Z) (cid : string) (onLifecycle defer : bool)
  | SendLaunch (k : nat) (launch : list string -> string -> res unit) (prompt : string) (attachments : list StartThread.LocalFile)
  | SendConclude (k j : nat)
  | Acknowledge (j : nat) (sessionID : string) (gen : Z)
  | AcceptEmit (j : nat)
  | AcceptFinish (j : nat)
  | Abandon (sessionID : string) (gen : Z)
  | ThreadLaunch (probed : res unit) (launch : list string -> string -> res unit) (sessionID workDir prompt : string)
  | ProcessOutput (p : nat) (source line : string)
  | ProcessReaped (p : nat) (code : Z)
  | ProcessForgotten (p : nat)
  | ProcessReported (p : nat)
  | InterruptTurn (sessionID : string) (signalled : res unit).

(** The first critical section of [accepted]; the rest stays to be done as [j]. *)
Definition accept_begin (j : nat) (sessionID : string) (gen : Z) (w : adapter) : option adapter :=
  match acceptances w !! j with
  | Some _ => None
  | None =>
    Some (match ActiveTurn.accepted_mark (turns w) sessionID gen with
          | (None, t) => set_turns w t
          | (Some pending, t) => set_acceptances (set_turns w t) (<[j := Emitting sessionID gen pending]> (acceptances w))
          end)
  end.

(** [SendPrompt] is [SendBegin], [SendLaunch], [SendConclude]. *)
Definition send_begin (k : nat) (sessionID : string) (gen : Z) (cid : string) (onLifecycle defer : bool) (w : adapter) : option adapter :=
  match calls w !! k with
  | Some _ => None
  | None =>
    Some (match ActiveTurn.begin_turn (turns w) sessionID gen cid onLifecycle with
          | (true, t) => set_calls (set_turns w t) (<[k := mkCall sessionID gen defer Begun]> (calls w))
          | (false, t) => set_turns w t
          end)
  end.

Definition send_launch (k : nat) (launch : list string -> string -> res unit) (prompt : string) (attachments : list StartThread.LocalFile)
    (w : adapter) : option adapter :=
  match calls w !! k with
  | Some (mkCall sessionID gen defer Begun) =>
    Some (match ClaudeCommander.SendPrompt launch sessionID prompt attachments (commander w) with
          | (Err _, c) => set_calls (set_commander w c) (<[k := mkCall sessionID gen defer Failed]> (calls w))
          | (Ok p, c) => set_calls (add_process w c p (Some gen)) (<[k := mkCall sessionID gen defer Launched]> (calls w))
          end)
  | _ => None
  end.

Definition send_conclude (k j : nat) (w : adapter) : option adapter :=
  match calls w !! k with
  | Some (mkCall sessionID gen _ Failed) =>
    Some (set_calls (set_turns w (ActiveTurn.abort (turns w) sessionID gen)) (base.delete k (calls w)))
  | Some (mkCall sessionID gen defer Launched) =>
    let w := set_calls w (base.delete k (calls w)) in
    if defer then Some w else accept_begin j sessionID gen w
  | _ => None
  end.

Definition accept_emit (j : nat) (w : adapter) : option adapter :=
  match acceptances w !! j with
  | Some (Emitting sessionID gen pending) =>
    Some (set_acceptances (set_turns w (ActiveTurn.emit (turns w) sessionID gen ActiveTurn.TurnAccepted "accepted" ""))
            (match pending with
             | Some t => <[j := Finishing sessionID t]> (acceptances w)
             | None => base.delete j (acceptances w)
             end))
  | _ => None
  end.

Definition accept_finish (j : nat) (w : adapter) : option adapter :=
  match acceptances w !! j with
  | Some (Finishing sessionID t) =>
    Some (set_acceptances (set_turns w (ActiveTurn.finish (turns w) sessionID (ActiveTurn.exitCode t) (ActiveTurn.interrupted t)))
            (base.delete j (acceptances w)))
  | _ => None
  end.

Definition thread_launch (probed : res unit) (launch : list string -> string -> res unit) (sessionID workDir prompt : string) (w : adapter)
  : adapter :=
  match ClaudeCommander.StartThread_launch probed launch sessionID workDir prompt (commander w) with
  | (Err _, c) => set_commander w c
  | (Ok p, c) => add_process w c p None
  end.

Definition update_executor (w : adapter) (p : nat) (f : ClaudeCommander.AgentExecutor -> ClaudeCommander.AgentExecutor) : adapter :=
  match ClaudeCommander.heap (commander w) !! p with
  | Some e => set_commander w (ClaudeCommander.set_executor (commander w) p (f e))
  | None => w
  end.

(** The turn hears of the end of the process: [OnTurnEnd]. *)
Definition report_turn (p : nat) (w : adapter) : adapter :=
  match ClaudeCommander.heap (commander w) !! p with
  | Some e => set_turns w (ActiveTurn.finish (turns w) (ClaudeCommander.session e) (ClaudeCommander.exitCode e)
                             (ClaudeCommander.WasIntentionallyStopped e))
  | None => w
  end.

Definition step (ev : event) (w : adapter) : option adapter :=
  match ev with
  | SendBegin k sessionID gen cid onLifecycle defer => send_begin k sessionID gen cid onLifecycle defer w
  | SendLaunch k launch prompt attachments => send_launch k launch prompt attachments w
  | SendConclude k j => send_conclude k j w
  | Acknowledge j sessionID gen => accept_begin j sessionID gen w
  | AcceptEmit j => accept_emit j w
  | AcceptFinish j => accept_finish j w
  | Abandon sessionID gen => Some (set_turns w (ActiveTurn.abort (turns w) sessionID gen))
  | ThreadLaunch probed launch sessionID workDir prompt => Some (thread_launch probed launch sessionID workDir prompt w)
  | ProcessOutput p source line =>
    match stages w !! p with
    | Some Alive => Some (update_executor w p (fun e => (ClaudeCommander.output_line source line e).2))
    | _ => None
    end
  | ProcessReaped p code =>
    match stages w !! p with
    | Some Alive => Some (set_stage (update_executor w p (ClaudeCommander.reap code)) p Reaped)
    | _ => None
    end
  | ProcessForgotten p =>
    match stages w !! p with
    | Some Reaped => Some (set_stage (set_commander w (ClaudeCommander.forget p (commander w))) p Forgotten)
    | _ => None
    end
  | ProcessReported p =>
    match stages w !! p with
    | Some Forgotten => Some (set_stage (report_turn p w) p Reported)
    | _ => None
    end
  | InterruptTurn sessionID signalled =>
    Some (set_commander w (ClaudeCommander.InterruptSession signalled sessionID (commander w)).2)
  end.

(** [Close]: turns are let go first, so that the processes that are stopped are not
    reported; then everything the commander knows is stopped. *)
Definition Close `{MapOrder} (w : adapter) : adapter :=
  let w := set_turns w (ActiveTurn.detachAll (turns w)) in
  set_commander w (ClaudeCommander.StopAll (commander w)).
