(* ===== verification/AcpStart.v ===== *)
(** * Starting a thread over ACP (daemon/internal/agentexec/acp_start.go)

    A JSON-RPC exchange with an agent process: initialize, session/new,
    session/prompt. Three goroutines share it, the caller, the reader of the
    output, and the one that waits for the process; their critical sections are
    steps. Which branch of a select is taken, and how a write ends, are given with
    a step. A callback that is nil hears nothing. *)

From stdpp Require Import base tactics list gmap strings.
From Stdlib Require Import Ascii ZArith Lia.
From S2P Require Import Prelude GoStrings Json Protocol JsonDecode.

(** ** Envelopes *)

Record acpEnvelope : Type := mkEnvelope {
  eID : option json;
  eMethod : string;
  eParams : option json;
  eResult : option json;
  eError : option json
}.

Definition decode_envelope (line : string) : option acpEnvelope :=
  match parse line with
  | None => None
  | Some v =>
    let '(o, ok) := struct_of (Some v) in
    let '(method, ok1) := string_field o "method" in
    if (ok && ok1)%bool
    then Some (mkEnvelope (raw_field o "id") method (raw_field o "params") (raw_field o "result") (raw_field o "error"))
    else None
  end.

(** The key of a response: a string, or a number that is an [int]. *)
Definition response_key (id : json) : string :=
  match id with
  | JString _ s => s
  | JNumber lit => match parse_int64 lit with Some n => Itoa n | None => "" end
  | _ => ""
  end.

Inductive acp_error : Type := acpRemoteError (method body : string) | OtherError (e : string).

(** The error of a response, unless it is missing or [null]. *)
Definition remote_error (method : string) (e : acpEnvelope) : option acp_error :=
  match eError e with
  | None | Some JNull => None
  | Some v => Some (acpRemoteError method (json_text v))
  end.

Definition validate (method : string) (reply : acpEnvelope) : acp_error + acpEnvelope :=
  match remote_error method reply with Some e => inl e | None => inr reply end.

Definition negotiated (reply : acpEnvelope) : bool :=
  match eResult reply with
  | None => false
  | Some v => let '(o, ok) := struct_of (Some v) in let '(n, ok1) := int_field o "protocolVersion" in (ok && ok1 && (n =? 1))%bool
  end.

(** The session a reply names. *)
Definition session_of (reply : acpEnvelope) : option string :=
  match eResult reply with
  | None => None
  | Some v =>
    let '(o, ok) := struct_of (Some v) in
    let '(s, ok1) := string_field o "sessionId" in
    if (ok && ok1 && negb (is_empty s))%bool then Some s else None
  end.

(** The session and the update of a [session/update]. *)
Definition update_of (e : acpEnvelope) : option (string * list (string * value)) :=
  match eParams e with
  | None => None
  | Some v =>
    let '(o, ok) := struct_of (Some v) in
    let '(s, ok1) := string_field o "sessionId" in
    update ← match raw_field o "update" with
             | None | Some JNull => Some []
             | Some u => match decode_any u with Some (VObject kvs) => Some kvs | _ => None end
             end;
    if (ok && ok1 && negb (is_empty s))%bool then Some (s, update) else None
  end.

(** ** The process *)

Inductive acp_message : Type :=
  | Request (id : Z) (method : string) (params : value)
  | CancelNotification (sessionID : string)
  | Rejection (id : json).

Inductive notice : Type :=
  | SessionCreated (sessionID : string)
  | Update (sessionID : string) (update : list (string * value))
  | PromptEnded (sessionID : string) (e : option acp_error)
  | ProcessExited (code : Z).

(** Where [StartACPThread] is, and after it has returned without an error the
    goroutine that waits for the prompt's reply. *)
Inductive position : Type :=
  | Spawned
  | AwaitInitialize
  | AwaitSession
  | StartFailed (e : acp_error)
  | Prompted
  | Concluded.

Record ACPStartResult : Type := mkResult { SessionID : string; ProcessStarted : bool; NativeCreatePossible : bool; PromptAccepted : bool }.

(** [attempts] are the messages handed to [write], with what came of it;
    [registered] and [delivered] are the channels of the calls; [promptResult] is
    the channel of that name. *)
Record ACPProcess : Type := mkProcess {
  at_ : position;
  result : ACPStartResult;
  stdin : bool;
  done_ : bool;
  intentional : bool;
  stopped : bool;
  attempts : list (acp_message * bool);
  registered : gset string;
  delivered : gmap string acpEnvelope;
  notices : list notice;
  promptResult : option (option acp_error)
}.

Definition spawned : ACPProcess := mkProcess Spawned (mkResult "" true false false) true false false false [] ∅ ∅ [] None.

Definition set_position (p : ACPProcess) (at' : position) : ACPProcess :=
  mkProcess at' (result p) (stdin p) (done_ p) (intentional p) (stopped p) (attempts p) (registered p) (delivered p) (notices p) (promptResult p).
Definition set_result (p : ACPProcess) (r : ACPStartResult) : ACPProcess :=
  mkProcess (at_ p) r (stdin p) (done_ p) (intentional p) (stopped p) (attempts p) (registered p) (delivered p) (notices p) (promptResult p).
Definition add_notice (p : ACPProcess) (n : notice) : ACPProcess :=
  mkProcess (at_ p) (result p) (stdin p) (done_ p) (intentional p) (stopped p) (attempts p) (registered p) (delivered p) (notices p ++ [n])
    (promptResult p).

(** [write]: the outcome of writing to the pipe is given. *)
Definition write (m : acp_message) (outcome : res unit) (p : ACPProcess) : res unit * ACPProcess :=
  if negb (stdin p) then (Err "ACP stdin is closed", p)
  else (outcome, mkProcess (at_ p) (result p) (stdin p) (done_ p) (intentional p) (stopped p) (attempts p ++ [(m, is_ok outcome)])
                   (registered p) (delivered p) (notices p) (promptResult p)).

(** [responseFor] *)
Definition responseFor (id : string) (p : ACPProcess) : ACPProcess :=
  mkProcess (at_ p) (result p) (stdin p) (done_ p) (intentional p) (stopped p) (attempts p) ({[id]} ∪ registered p) (delivered p) (notices p)
    (promptResult p).

(** A response nobody waits for is dropped. *)
Definition deliver (id : string) (e : acpEnvelope) (p : ACPProcess) : ACPProcess :=
  if bool_decide (id ∈ registered p)
  then mkProcess (at_ p) (result p) (stdin p) (done_ p) (intentional p) (stopped p) (attempts p) (registered p ∖ {[id]})
         (<[id := e]> (delivered p)) (notices p) (promptResult p)
  else p.

(** Only the first result counts. *)
Definition resolvePromptResult (e : option acp_error) (p : ACPProcess) : ACPProcess :=
  mkProcess (at_ p) (result p) (stdin p) (done_ p) (intentional p) (stopped p) (attempts p) (registered p) (delivered p) (notices p)
    (match promptResult p with None => Some e | r => r end).

Definition Stop (p : ACPProcess) : ACPProcess :=
  mkProcess (at_ p) (result p) (stdin p) (done_ p) (intentional p) true (attempts p) (registered p) (delivered p) (notices p) (promptResult p).

Definition finishAfterPrompt (p : ACPProcess) : ACPProcess :=
  mkProcess (at_ p) (result p) false (done_ p) true (stopped p) (attempts p) (registered p) (delivered p) (notices p) (promptResult p).

(** [Cancel] *)
Definition Cancel (outcome : res unit) (p : ACPProcess) : res unit * ACPProcess :=
  if is_empty (SessionID (result p)) then (Err "ACP session is not ready", p)
  else write (CancelNotification (SessionID (result p))) outcome p.

(** ** The output of the process *)

Definition read_acp_line (line : string) (outcome : res unit) (p : ACPProcess) : ACPProcess :=
  match decode_envelope line with
  | None => p
  | Some e =>
    match eID e, is_empty (eMethod e) with
    | Some id, true => deliver (response_key id) e p
    | _, _ =>
      let p := if String.eqb (eMethod e) "session/update"
               then match update_of e with Some (s, u) => add_notice p (Update s u) | None => p end
               else p in
      match eID e, is_empty (eMethod e) with
      | Some id, false => (write (Rejection id) outcome p).2
      | _, _ => p
      end
    end
  end.

(** [cmd.Wait] has returned. Lines the reader holds already are still handled. *)
Definition process_exit (code : Z) (p : ACPProcess) : ACPProcess :=
  mkProcess (at_ p) (result p) false true (intentional p) (stopped p) (attempts p) (registered p) (delivered p)
    (notices p ++ [ProcessExited (if intentional p then 0 else code)]) (promptResult p).

(** ** The exchange *)

(** The branch of a select that is taken. *)
Inductive wake : Type := ByResponse | ByContext (e : string) | ByExit | ByTimeout.

(** How a call with an id ends; [None] when the branch is not ready. *)
Definition call_ends (id method : string) (w : wake) (p : ACPProcess) : option (acp_error + acpEnvelope) :=
  match w with
  | ByResponse => validate method <$> delivered p !! id
  | ByContext e => Some (inl (OtherError e))
  | ByExit =>
    if done_ p
    then Some (match delivered p !! id with
               | Some reply => validate method reply
               | None => inl (OtherError ("ACP " +:+ method +:+ " process exited before responding"))
               end)
    else None
  | ByTimeout => Some (inl (OtherError ("ACP " +:+ method +:+ " timed out")))
  end.

(** An early return with an error. *)
Definition fail_start (e : acp_error) (p : ACPProcess) : ACPProcess :=
  set_position (Stop (resolvePromptResult (Some e) p)) (StartFailed e).

Definition initialize_params : value :=
  VObject [("protocolVersion", VInt 1); ("clientCapabilities", VObject []);
           ("clientInfo", VObject [("name", VString "nekonest"); ("version", VString "dev")])].

Definition new_params (dir : string) : value := VObject [("cwd", VString dir); ("mcpServers", VArray [])].

Definition prompt_params (sessionID prompt : string) : value :=
  VObject [("sessionId", VString sessionID); ("prompt", VArray [VObject [("type", VString "text"); ("text", VString prompt)]])].

(** A request that is awaited: the position after it, or the failure. *)
Definition send_request (id : Z) (method : string) (params : value) (outcome : res unit) (next : position) (p : ACPProcess) : ACPProcess :=
  match write (Request id method params) outcome (responseFor (Itoa id) p) with
  | (Ok _, p) => set_position p next
  | (Err e, p) => fail_start (OtherError e) p
  end.

Definition with_create_possible (b : bool) (p : ACPProcess) : ACPProcess :=
  set_result p (mkResult (SessionID (result p)) (ProcessStarted (result p)) b (PromptAccepted (result p))).

Definition start_initialize (outcome : res unit) (p : ACPProcess) : ACPProcess :=
  send_request 1 "initialize" initialize_params outcome AwaitInitialize p.

Definition after_initialize (dir : string) (reply : acp_error + acpEnvelope) (outcome : res unit) (p : ACPProcess) : ACPProcess :=
  match reply with
  | inl e => fail_start e p
  | inr reply =>
    if negotiated reply then send_request 2 "session/new" (new_params dir) outcome AwaitSession (with_create_possible true p)
    else fail_start (OtherError "ACP initialize returned unsupported protocol") p
  end.

(** The prompt is written; its failure is also reported. *)
Definition send_prompt (prompt sessionID : string) (outcome : res unit) (p : ACPProcess) : ACPProcess :=
  match write (Request 3 "session/prompt" (prompt_params sessionID prompt)) outcome (responseFor "3" p) with
  | (Ok _, p) => set_position p Prompted
  | (Err e, p) => set_position (Stop (add_notice (resolvePromptResult (Some (OtherError e)) p) (PromptEnded sessionID (Some (OtherError e)))))
                    (StartFailed (OtherError e))
  end.

Definition after_session (prompt : string) (reply : acp_error + acpEnvelope) (outcome : res unit) (p : ACPProcess) : ACPProcess :=
  match reply with
  | inl (acpRemoteError m b) => fail_start (acpRemoteError m b) (with_create_possible false p)
  | inl e => fail_start e p
  | inr reply =>
    match session_of reply with
    | None => fail_start (OtherError "ACP session/new returned no sessionId") p
    | Some s =>
      send_prompt prompt s outcome
        (add_notice (set_result p (mkResult s (ProcessStarted (result p)) (NativeCreatePossible (result p)) (PromptAccepted (result p))))
           (SessionCreated s))
    end
  end.

(** The goroutine that waits for the reply to the prompt. *)
Definition after_prompt (w : wake) (p : ACPProcess) : option ACPProcess :=
  let conclude e p := set_position (resolvePromptResult e (add_notice p (PromptEnded (SessionID (result p)) e))) Concluded in
  match w with
  | ByResponse =>
    reply ← delivered p !! "3"; Some (finishAfterPrompt (conclude (remote_error "session/prompt" reply) p))
  | ByExit =>
    if done_ p
    then Some (conclude (match delivered p !! "3" with
                         | Some reply => remote_error "session/prompt" reply
                         | None => Some (OtherError "ACP session/prompt process exited before responding")
                         end) p)
    else None
  | _ => None
  end.

Inductive event : Type :=
  | Begin (outcome : res unit)
  | Wake (w : wake) (outcome : res unit)
  | Line (line : string) (outcome : res unit)
  | Exit (code : Z)
  | CancelTurn (outcome : res unit).

(** [StartACPThread] in the directory [dir] with a prompt. *)
Definition step (dir prompt : string) (ev : event) (p : ACPProcess) : option ACPProcess :=
  match ev, at_ p with
  | Begin outcome, Spawned => Some (start_initialize outcome p)
  | Wake w outcome, AwaitInitialize => reply ← call_ends "1" "initialize" w p; Some (after_initialize dir reply outcome p)
  | Wake w outcome, AwaitSession => reply ← call_ends "2" "session/new" w p; Some (after_session prompt reply outcome p)
  | Wake w _, Prompted => after_prompt w p
  | Line line outcome, _ => Some (read_acp_line line outcome p)
  | Exit code, _ => if done_ p then None else Some (process_exit code p)
  | CancelTurn outcome, _ => Some (Cancel outcome p).2
  | _, _ => None
  end.

(** [ProbeACPStart] of the first line of the output. *)
Definition probe_answer (line : string) : res unit :=
  match parse line with
  | None => Err "ACP initialize did not negotiate protocol v1"
  | Some v =>
    let '(o, ok) := struct_of (Some v) in
    let '(r, ok1) := struct_field o "result" in
    let '(n, ok2) := int_field r "protocolVersion" in
    if (ok && ok1 && ok2 && (n =? 1))%bool then Ok tt else Err "ACP initialize did not negotiate protocol v1"
  end.
