(* ===== verification/AdapterRegistry.v ===== *)
(** * The adapters as a set (daemon/internal/adapters/registry.go, external_id.go,
    watch_registry.go)

    The registry of adapters, the ids under which the sessions of different agents
    are told apart, and the registry of watchers that poll. An adapter is what the
    registry asks of it: its name, whether it takes a sink, how it closes. *)

From stdpp Require Import base tactics list gmap strings.
From Stdlib Require Import Ascii ZArith Lia.
From S2P Require Import Prelude GoStrings Json.

(** ** [Registry] *)

(** [closing] is [None] for an adapter that has no [Close], else its outcome. *)
Record Adapter : Type := mkAdapter {
  Name : string;
  output_source : bool;
  control_source : bool;
  closing : option (res unit)
}.

Record Registry : Type := mkRegistry { ordered : list Adapter; byName : gmap string Adapter }.

Definition register (r : Registry) (adapter : option Adapter) : res Registry :=
  match adapter with
  | None => Err "register nil adapter"
  | Some a =>
    let name := TrimSpace (Name a) in
    if is_empty name then Err "register adapter with empty name"
    else if bool_decide (is_Some (byName r !! name)) then Err ("duplicate adapter name " +:+ quoted name)
    else Ok (mkRegistry (ordered r ++ [a]) (<[name := a]> (byName r)))
  end.

Fixpoint register_all (r : Registry) (l : list (option Adapter)) : res Registry :=
  match l with
  | [] => Ok r
  | a :: rest => r' ← register r a; register_all r' rest
  end.

Definition NewRegistry (l : list (option Adapter)) : res Registry := register_all (mkRegistry [] ∅) l.

(** A [nil] registry answers like an empty one. *)
Definition All (r : option Registry) : list Adapter := match r with Some r => ordered r | None => [] end.
Definition Get (r : option Registry) (name : string) : option Adapter := match r with Some r => byName r !! name | None => None end.

(** The adapters that get the sink. *)
Definition SetOutputSink (r : option Registry) : list Adapter := List.filter output_source (All r).
Definition SetControlSink (r : option Registry) : list Adapter := List.filter control_source (All r).

Fixpoint join_with (sep : string) (l : list string) : string :=
  match l with
  | [] => ""
  | [s] => s
  | s :: rest => s +:+ sep +:+ join_with sep rest
  end.

Definition close_error (a : Adapter) : option string :=
  match closing a with Some (Err e) => Some (Name a +:+ ": " +:+ e) | _ => None end.

(** The adapters that are closed, in order, and the result. *)
Definition Close (r : option Registry) : list Adapter * res unit :=
  let errs := omap close_error (All r) in
  (List.filter (fun a => bool_decide (is_Some (closing a))) (All r),
   match errs with [] => Ok tt | _ => Err ("close adapters: " +:+ join_with "; " errs) end).

(** ** Public ids *)

Definition colon : ascii := ":"%char.

Definition publicSessionID (agent nativeID : string) : string :=
  let nativeID := TrimSpace nativeID in
  if is_empty nativeID then ""
  else
    let prefix := agent +:+ ":" in
    if has_prefix prefix nativeID then nativeID else prefix +:+ nativeID.

Definition nativeSessionID (agent publicID : string) : res string :=
  let prefix := agent +:+ ":" in
  if negb (has_prefix prefix publicID) then Err ("session " +:+ quoted publicID +:+ " does not belong to " +:+ agent)
  else
    let nativeID := TrimSpace (trim_prefix publicID prefix) in
    if is_empty nativeID then Err ("empty native session id for " +:+ agent) else Ok nativeID.

(** ** [pollWatchRegistry] *)

(** An entry is the id of its watcher; cancelling a watcher is naming it. *)
Record pollWatchRegistry : Type := mkWatches { nextID : Z; entries : gmap string Z }.

Definition start (r : pollWatchRegistry) (key : string) : Z * option Z * pollWatchRegistry :=
  let id := u64_add (nextID r) 1 in
  (id, entries r !! key, mkWatches id (<[key := id]> (entries r))).

Definition finish (r : pollWatchRegistry) (key : string) (id : Z) : pollWatchRegistry :=
  if bool_decide (entries r !! key = Some id) then mkWatches (nextID r) (base.delete key (entries r)) else r.

Definition stopAll `{MapOrder} (r : pollWatchRegistry) : list Z * pollWatchRegistry :=
  (range_values (entries r), mkWatches (nextID r) ∅).
