(* ===== verification/NetNames.v ===== *)
(** * Addresses and URLs: what the source uses of net and net/url

    [net.SplitHostPort] and [IPNet.Contains] are written out; [url.Parse],
    [net.ParseIP] and [net.ParseCIDR] are parameters. *)

From stdpp Require Import base tactics list strings.
From Stdlib Require Import Ascii ZArith Lia.
From S2P Require Import Prelude GoStrings WebPush.

(** ** [net.SplitHostPort] *)

Definition colon_byte : ascii := ":"%char.
Definition open_bracket : ascii := "["%char.
Definition close_bracket : ascii := "]"%char.

(** What stands before and after the last colon. *)
Fixpoint split_last_colon (s : string) : option (string * string) :=
  match s with
  | EmptyString => None
  | String c s' =>
    match split_last_colon s' with
    | Some (a, b) => Some (String c a, b)
    | None => if Ascii.eqb c colon_byte then Some (EmptyString, s') else None
    end
  end.

(** What stands before and after the first closing bracket. *)
Fixpoint split_bracket (s : string) : option (string * string) :=
  match s with
  | EmptyString => None
  | String c s' =>
    if Ascii.eqb c close_bracket then Some (EmptyString, s')
    else '(a, b) ← split_bracket s'; Some (String c a, b)
  end.

Definition SplitHostPort (hostport : string) : option (string * string) :=
  '(before, port) ← split_last_colon hostport;
  match hostport with
  | String "["%char rest =>
    '(host, after) ← split_bracket rest;
    match after with
    | String ":"%char p =>
      if (contains_byte colon_byte p || contains_byte open_bracket rest || contains_byte close_bracket after)%bool
      then None else Some (host, p)
    | _ => None
    end
  | _ =>
    if (contains_byte colon_byte before || contains_byte open_bracket hostport || contains_byte close_bracket hostport)%bool
    then None else Some (before, port)
  end.

Example SplitHostPort_ex1 : SplitHostPort "10.0.0.1:5000" = Some ("10.0.0.1", "5000"). Proof. by_vm. Qed.
Example SplitHostPort_ex2 : SplitHostPort "[::1]:80" = Some ("::1", "80"). Proof. by_vm. Qed.
Example SplitHostPort_ex3 : SplitHostPort "::1" = None. Proof. by_vm. Qed.
Example SplitHostPort_ex4 : SplitHostPort "[::1]" = None. Proof. by_vm. Qed.
Example SplitHostPort_ex5 : SplitHostPort "host" = None. Proof. by_vm. Qed.
Example SplitHostPort_ex6 : SplitHostPort "h:" = Some ("h", ""). Proof. by_vm. Qed.

(** [strings.Trim(s, "[]")] *)
Definition is_bracket (c : ascii) : bool := (Ascii.eqb c open_bracket || Ascii.eqb c close_bracket)%bool.
Fixpoint trim_brackets_left (s : string) : string :=
  match s with String c s' => if is_bracket c then trim_brackets_left s' else s | EmptyString => EmptyString end.
Definition trim_brackets (s : string) : string := rev_string (trim_brackets_left (rev_string (trim_brackets_left s))).

(** ** Networks *)

Record IPNet : Type := mkIPNet { netIP : IP; netMask : list Z }.

(** [networkNumberAndMask] *)
Definition four (ip : IP) : option IP := match To4 ip with Some (a, b, c, d) => Some [a; b; c; d] | None => None end.

Definition networkNumberAndMask (n : IPNet) : option (IP * list Z) :=
  ip ← match four (netIP n) with
       | Some v4 => Some v4
       | None => if (List.length (netIP n) =? 16)%nat then Some (netIP n) else None
       end;
  match List.length (netMask n) with
  | 4%nat => if (List.length ip =? 4)%nat then Some (ip, netMask n) else None
  | 16%nat => Some (ip, if (List.length ip =? 4)%nat then drop 12 (netMask n) else netMask n)
  | _ => None
  end.

Fixpoint same_network (nn m ip : list Z) : bool :=
  match nn, m, ip with
  | a :: nn, b :: m, c :: ip => ((Z.land a b =? Z.land c b) && same_network nn m ip)%bool
  | _, _, _ => true
  end.

Definition Contains (n : IPNet) (ip : IP) : bool :=
  let x := default ip (four ip) in
  match networkNumberAndMask n with
  | None => false
  | Some (nn, m) => ((List.length x =? List.length nn)%nat && same_network nn m x)%bool
  end.

Example Contains_ex1 : Contains (mkIPNet [10;0;0;0] [255;0;0;0]) (IPv4 10 1 2 3) = true. Proof. by_vm. Qed.
Example Contains_ex2 : Contains (mkIPNet [10;0;0;0] [255;0;0;0]) (IPv4 11 1 2 3) = false. Proof. by_vm. Qed.

(** ** Parameters *)

Record URL : Type := mkURL { uScheme : string; uHost : string; uEscapedPath : string; uPath : string }.

Class NetParse : Type := {
  url_Parse : string -> option URL;
  net_ParseIP : string -> option IP;
  net_ParseCIDR : string -> option IPNet
}.
