(* ===== verification/Sealed.v ===== *)
(** * End-to-end encryption of frames (daemon/internal/sealed, sealedkeys, identity)

    The envelope of a sealed frame: what is authenticated besides the ciphertext
    ([EncodeAAD]), sealing and opening, and wrapping of keys; the long-term
    identity; and the manager of the catalog key and the session keys with
    their sequence numbers and their file. AES-GCM, the curve operations and
    HKDF are parameters; random bytes and the outcomes of the file system are
    arguments. relaycore/sealed and server/internal/sealed are copies of
    sealed.go. *)

From stdpp Require Import base tactics list gmap strings.
From Stdlib Require Import Ascii ZArith Lia.
From S2P Require Import Prelude GoStrings Json Sha256 Base64 Protocol.

(** ** JSON strings, as [json.Marshal] writes them *)

(** An ASCII byte between quotes. *)
Definition escape_ascii (c : ascii) : string :=
  let b := code c in
  if b =? 34 then of_codes [92; 34]
  else if b =? 92 then of_codes [92; 92]
  else if b =? 8 then "\b"
  else if b =? 12 then "\f"
  else if b =? 10 then "\n"
  else if b =? 13 then "\r"
  else if b =? 9 then "\t"
  else if ((b <? 32) || (b =? 60) || (b =? 62) || (b =? 38))%bool
  then "\u00" +:+ String (hex_digit (b / 16)) (String (hex_digit (b mod 16)) EmptyString)
  else String c EmptyString.

(** U+2028 and U+2029. *)
Definition line_separator (s : string) : option string :=
  match s with
  | String c1 (String c2 (String c3 _)) =>
    if ((code c1 =? 226) && (code c2 =? 128))%bool
    then if code c3 =? 168 then Some "\u2028" else if code c3 =? 169 then Some "\u2029" else None
    else None
  | _ => None
  end.

(** [skip] bytes of a character are left, [copy]: to be written as they are. *)
Fixpoint escape_from (copy : bool) (skip : nat) (s : string) : string :=
  match s with
  | EmptyString => EmptyString
  | String c s' =>
    match skip with
    | S k => if copy then String c (escape_from copy k s') else escape_from copy k s'
    | O =>
      match rune_width s with
      | O => "\ufffd" +:+ escape_from true O s'
      | S O => escape_ascii c +:+ escape_from true O s'
      | S k => match line_separator s with
               | Some e => e +:+ escape_from false k s'
               | None => String c (escape_from true k s')
               end
      end
    end
  end.

Definition json_string (s : string) : string := quoted (escape_from true O s).

(** ** What a sealed frame authenticates *)

Record AADFields : Type := mkAAD {
  aProtocolVersion : string;
  aTransportMode : string;
  aType : string;
  aDeviceID : string;
  aSessionID : string;
  aClientMsgID : string;
  aKeyScope : string;
  aKeyEpoch : Z;
  aSenderID : string;
  aSequence : Z;
  aTimestamp : Z
}.

(** [,"name":] before a member, and a member that is omitted when empty. *)
Definition json_name (name : string) : string := quoted name +:+ ":".
Definition omitempty (name value : string) : string :=
  if is_empty value then "" else "," +:+ json_name name +:+ json_string value.

Definition EncodeAAD (f : AADFields) : string :=
  "{" +:+ json_name "protocol_version" +:+ json_string (aProtocolVersion f) +:+
  "," +:+ json_name "transport_mode" +:+ json_string (aTransportMode f) +:+
  "," +:+ json_name "type" +:+ json_string (aType f) +:+
  "," +:+ json_name "device_id" +:+ json_string (aDeviceID f) +:+
  omitempty "session_id" (aSessionID f) +:+
  omitempty "client_msg_id" (aClientMsgID f) +:+
  "," +:+ json_name "key_scope" +:+ json_string (aKeyScope f) +:+
  "," +:+ json_name "key_epoch" +:+ Itoa (aKeyEpoch f) +:+
  "," +:+ json_name "sender_id" +:+ json_string (aSenderID f) +:+
  "," +:+ json_name "sequence" +:+ Itoa (aSequence f) +:+
  "," +:+ json_name "timestamp" +:+ Itoa (aTimestamp f) +:+ "}".

(** ** AES-256-GCM *)

(** key, nonce, text, associated data. *)
Class AEAD : Type := {
  gcm_seal : string -> string -> string -> string -> string;
  gcm_open : string -> string -> string -> string -> option string
}.

(** crypto/cipher: what was sealed opens, with the associated data it was
    sealed with and no other. *)
Class AEADLaws `{AEAD} : Prop := {
  open_seal : forall key nonce text aad, gcm_open key nonce (gcm_seal key nonce text aad) aad = Some text;
  open_other_aad : forall key nonce text aad aad',
    aad' <> aad -> gcm_open key nonce (gcm_seal key nonce text aad) aad' = None
}.

Definition AlgAES256GCM : string := "aes-256-gcm".
Definition SealedFormatVersion : Z := 1.
Definition NonceSize : Z := 12.
Definition KeySize : Z := 32.

(** [Sequence] in eight bytes. *)
Definition EncodeSequenceBE (seq : Z) : list Z :=
  (fun i => Z.land (Z.shiftr seq (8 * i)) 255) <$> [7; 6; 5; 4; 3; 2; 1; 0].

Record WireSealed : Type := mkWire {
  wAlg : string;
  wVersion : Z;
  wKeyScope : string;
  wEpoch : Z;
  wSenderID : string;
  wRecipientID : string;
  wSequence : Z;
  wNonce : string;
  wCiphertext : string
}.

(** What [io.ReadFull(rand.Reader, b)] gives for a buffer of a size. *)
Definition random_of (size : Z) (r : res string) : res string :=
  b ← r; if len b =? size then Ok b else Err "unexpected EOF".

Definition RandomNonce (r : res string) : res string := random_of NonceSize r.
Definition RandomKey (r : res string) : res string := random_of KeySize r.

Section Cipher.
Context `{AEAD}.

Definition check_sizes (key nonce : string) : res unit :=
  _ ← fail_if (negb (len key =? KeySize)) "key must be 32 bytes";
  fail_if (negb (len nonce =? NonceSize)) "nonce must be 12 bytes".

Definition Seal (key nonce plaintext aad : string) : res string :=
  _ ← check_sizes key nonce; Ok (gcm_seal key nonce plaintext aad).

Definition Open (key nonce ciphertext aad : string) : res string :=
  _ ← check_sizes key nonce;
  match gcm_open key nonce ciphertext aad with
  | Some p => Ok p
  | None => Err "cipher: message authentication failed"
  end.

Definition key_package_aad : string := "nekonest-v1-key-package".

(** The nonce and the wrapped key. *)
Definition WrapKey (rnd : res string) (wrappingKey contentKey : string) : res (string * string) :=
  n ← RandomNonce rnd;
  ct ← Seal wrappingKey n contentKey key_package_aad;
  Ok (B64 n, B64 ct).

Definition UnwrapKey (wrappingKey nonceB64 ctB64 : string) : res string :=
  n ← B64Decode nonceB64;
  ct ← B64Decode ctB64;
  Open wrappingKey n ct key_package_aad.

Definition SealWire (rnd : res string) (key : string) (epoch : Z) (keyScope senderID recipientID : string) (seq : Z)
    (aad : AADFields) (plaintext : string) : res WireSealed :=
  nonce ← RandomNonce rnd;
  ct ← Seal key nonce plaintext (EncodeAAD aad);
  Ok (mkWire AlgAES256GCM SealedFormatVersion keyScope epoch senderID recipientID seq (B64 nonce) (B64 ct)).

Definition OpenWire (key : string) (wire : option WireSealed) (aad : AADFields) : res string :=
  match wire with
  | None => Err "nil sealed payload"
  | Some wire =>
    nonce ← B64Decode (wNonce wire);
    ct ← B64Decode (wCiphertext wire);
    Open key nonce ct (EncodeAAD aad)
  end.
End Cipher.

(** ** Identities *)

(** crypto/ed25519, curve25519 and hkdf: key pairs from the random source, the
    shared point, the expansion of a secret. *)
Class Curve : Type := {
  ed25519_key : string -> string * string;
  scalar_base : string -> string;
  scalar_mult : string -> string -> string;
  hkdf_expand : string -> string -> string -> Z -> res string
}.

Record Identity : Type := mkIdentity {
  Ed25519Public : string; Ed25519Private : string; X25519Public : string; X25519Private : string
}.

Definition Fingerprint (edPub xPub : string) : string := hex_encode (sha256 (edPub +:+ xPub)).

Definition map_byte (i : nat) (f : Z -> Z) (bs : list Z) : list Z := alter f i bs.

(** [&= 248], [&= 127], [|= 64]. *)
Definition clamp (x : string) : string :=
  of_codes (map_byte 31 (fun b => Z.lor (Z.land b 127) 64) (map_byte 0 (fun b => Z.land b 248) (codes x))).

(** The file. *)
Record Stored : Type := mkStored {
  st_ed25519_private : string; st_ed25519_public : string;
  st_x25519_private : string; st_x25519_public : string; st_fingerprint : string
}.

Definition ed25519_public_size : Z := 32.

Definition ParseX25519Public (s : string) : res string :=
  raw ← B64Decode s;
  if len raw =? 32 then Ok raw else Err "x25519 public key length".

Definition ParseEd25519Public (s : string) : res string :=
  raw ← B64Decode s;
  if len raw =? ed25519_public_size then Ok raw else Err "ed25519 public key length".

Definition toStored (id : Identity) : Stored :=
  mkStored (B64 (Ed25519Private id)) (B64 (Ed25519Public id)) (B64 (X25519Private id)) (B64 (X25519Public id))
    (Fingerprint (Ed25519Public id) (X25519Public id)).

Definition fromStored (st : Stored) : res Identity :=
  edPriv ← B64Decode (st_ed25519_private st);
  edPub ← ParseEd25519Public (st_ed25519_public st);
  xPriv ← B64Decode (st_x25519_private st);
  xPub ← ParseX25519Public (st_x25519_public st);
  if len xPriv =? 32 then Ok (mkIdentity edPub edPriv xPub xPriv) else Err "x25519 private length".

(** How [os.MkdirAll] and [os.WriteFile] end; a failed write can leave another
    file behind. *)
Inductive save (F : Type) : Type :=
  | Saved
  | NotSaved (e : string) (now : option F).
Arguments Saved {F}.
Arguments NotSaved {F} _ _.

Definition WriteFile {F} (s : save F) (disk : option F) (f : F) : res unit * option F :=
  match s with
  | Saved => (Ok tt, Some f)
  | NotSaved e now => (Err e, match now with Some g => Some g | None => disk end)
  end.

Section Identity.
Context `{Curve} `{Codec Stored}.

(** The random bytes of the two key pairs. *)
Definition GenerateIdentity (ed_seed x_seed : res string) : res Identity :=
  seed ← ed_seed;
  let '(edPub, edPriv) := ed25519_key seed in
  x ← random_of 32 x_seed;
  let xPriv := clamp x in
  Ok (mkIdentity edPub edPriv (scalar_base xPriv) xPriv).

Definition SharedSecret (priv peerPub : string) : res string :=
  let out := scalar_mult priv peerPub in
  if bool_decide (codes out = replicate 32 0) then Err "invalid X25519 shared secret" else Ok out.

Definition DeriveKey (secret salt info : string) : res string := hkdf_expand secret salt info KeySize.

Definition DerivePairWrappingKey (shared transcript : string) : res string :=
  DeriveKey shared (sha256 transcript) "nekonest-v1-pair-wrap".

(** [LoadOrCreate] of identity.go. [unreadable]: [os.ReadFile] fails though
    there is a file. *)
Definition LoadOrCreateIdentity (unreadable : bool) (ed_seed x_seed : res string) (s : save (file Stored))
    (disk : option (file Stored)) : res (Identity * Stored) * option (file Stored) :=
  match (if unreadable then None else disk) with
  | Some f =>
    (match unmarshal f with
     | Err e => Err ("parse identity: " +:+ e)
     | Ok st => id ← fromStored st; Ok (id, st)
     end, disk)
  | None =>
    match GenerateIdentity ed_seed x_seed with
    | Err e => (Err e, disk)
    | Ok id =>
      match marshalIndent (toStored id) with
      | Err e => (Err e, disk)
      | Ok f => let '(r, disk) := WriteFile s disk f in (_ ← r; Ok (id, toStored id), disk)
      end
    end
  end.
End Identity.

(** ** The key manager (sealedkeys/manager.go) *)

Record sessionKey : Type := mkSK { Key : string; skEpoch : Z }.

Record Manager : Type := mkManager {
  path : string;
  catalogKey : string;
  catalogEpoch : Z;
  sessions : gmap string sessionKey;
  seqCatalog : Z;
  seqSession : gmap string Z
}.

Record diskSK : Type := mkDiskSK { KeyB64 : string; dskEpoch : Z }.

Record diskState : Type := mkDiskState {
  CatalogKeyB64 : string;
  CatalogEpoch : Z;
  Sessions : gmap string diskSK;
  SeqCatalog : Z;
  SeqSession : gmap string Z
}.

Definition disk_state (m : Manager) : diskState :=
  mkDiskState (B64 (catalogKey m)) (catalogEpoch m) ((fun sk => mkDiskSK (B64 (Key sk)) (skEpoch sk)) <$> sessions m)
    (seqCatalog m) (seqSession m).

(** A content key of the right size. *)
Definition decode_key (b64 : string) : option string :=
  match B64Decode b64 with Ok k => if len k =? KeySize then Some k else None | Err _ => None end.

(** Entries that do not decode are skipped. *)
Definition load_sessions (m : gmap string diskSK) : gmap string sessionKey :=
  omap (fun sk => (fun k => mkSK k (dskEpoch sk)) <$> decode_key (KeyB64 sk)) m.

Section Manager.
Context `{AEAD} `{Codec diskState}.

Abbreviation disk := (option (file diskState)).

Definition persist (s : save (file diskState)) (m : Manager) (d : disk) : res unit * disk :=
  if is_empty (path m) then (Ok tt, d)
  else match marshalIndent (disk_state m) with
       | Err e => (Err e, d)
       | Ok f => WriteFile s d f
       end.

(** Any failure to read counts as no file. *)
Definition LoadOrCreate (p : string) (unreadable : bool) (rnd : res string) (s : save (file diskState)) (d : disk)
  : res Manager * disk :=
  match (if unreadable then None else d) with
  | Some f =>
    (match unmarshal f with
     | Err e => Err e
     | Ok st =>
       match decode_key (CatalogKeyB64 st) with
       | None => Err "catalog key"
       | Some k => Ok (mkManager p k (CatalogEpoch st) (load_sessions (Sessions st)) (SeqCatalog st) (SeqSession st))
       end
     end, d)
  | None =>
    match RandomKey rnd with
    | Err e => (Err e, d)
    | Ok k =>
      let m := mkManager p k 1 ∅ 0 ∅ in
      let '(r, d) := persist s m d in (_ ← r; Ok m, d)
    end
  end.

Definition with_sessions (m : Manager) (x : gmap string sessionKey) : Manager :=
  mkManager (path m) (catalogKey m) (catalogEpoch m) x (seqCatalog m) (seqSession m).
Definition with_seqCatalog (m : Manager) (x : Z) : Manager :=
  mkManager (path m) (catalogKey m) (catalogEpoch m) (sessions m) x (seqSession m).
Definition with_seqSession (m : Manager) (x : gmap string Z) : Manager :=
  mkManager (path m) (catalogKey m) (catalogEpoch m) (sessions m) (seqCatalog m) x.

(** The critical sections: each runs under [m.mu]. *)
Definition SessionKey (sessionID : string) (rnd : res string) (s : save (file diskState)) (m : Manager) (d : disk)
  : res (string * Z) * Manager * disk :=
  match sessions m !! sessionID with
  | Some sk => (Ok (Key sk, skEpoch sk), m, d)
  | None =>
    match RandomKey rnd with
    | Err e => (Err e, m, d)
    | Ok k =>
      let m := with_sessions m (<[sessionID := mkSK k 1]> (sessions m)) in
      let '(r, d) := persist s m d in (_ ← r; Ok (k, 1), m, d)
    end
  end.

Definition next_catalog (m : Manager) : Manager := with_seqCatalog m (u64_add (seqCatalog m) 1).
Definition session_seq (m : Manager) (sessionID : string) : Z := default 0 (seqSession m !! sessionID).
Definition next_session (m : Manager) (sessionID : string) : Manager :=
  with_seqSession m (<[sessionID := u64_add (session_seq m sessionID) 1]> (seqSession m)).

(** [return seq, m.persist()]: the number is returned beside the error too. *)
Definition NextCatalogSeq (s : save (file diskState)) (m : Manager) (d : disk) : Z * res unit * Manager * disk :=
  let m := next_catalog m in
  let '(r, d) := persist s m d in (seqCatalog m, r, m, d).

Definition NextSessionSeq (sessionID : string) (s : save (file diskState)) (m : Manager) (d : disk)
  : Z * res unit * Manager * disk :=
  let m := next_session m sessionID in
  let '(r, d) := persist s m d in (session_seq m sessionID, r, m, d).

Definition with_scope (aad : AADFields) (scope : string) (epoch : Z) (senderID : string) (seq : Z) (sessionID : string)
  : AADFields :=
  mkAAD (aProtocolVersion aad) (aTransportMode aad) (aType aad) (aDeviceID aad) sessionID (aClientMsgID aad)
    scope epoch senderID seq (aTimestamp aad).

(** [_ = m.persist()]: a number that could not be written is used all the same. *)
Definition SealCatalog (senderID recipientID : string) (aad : AADFields) (plaintext : string) (rnd : res string)
    (s : save (file diskState)) (m : Manager) (d : disk) : res WireSealed * Manager * disk :=
  let '(seq, _, m, d) := NextCatalogSeq s m d in
  let aad := with_scope aad "device_catalog" (catalogEpoch m) senderID seq (aSessionID aad) in
  (SealWire rnd (catalogKey m) (catalogEpoch m) "device_catalog" senderID recipientID seq aad plaintext, m, d).

(** What follows the two critical sections of [SealSession]. *)
Definition seal_session_with (key : string) (epoch seq : Z) (sessionID senderID recipientID : string) (aad : AADFields)
    (plaintext : string) (rnd : res string) : res WireSealed :=
  SealWire rnd key epoch "session" senderID recipientID seq
    (with_scope aad "session" epoch senderID seq sessionID) plaintext.

Definition SealSession (sessionID senderID recipientID : string) (aad : AADFields) (plaintext : string)
    (key_rnd rnd : res string) (s1 s2 : save (file diskState)) (m : Manager) (d : disk)
  : res WireSealed * Manager * disk :=
  match SessionKey sessionID key_rnd s1 m d with
  | (Err e, m, d) => (Err e, m, d)
  | (Ok (key, epoch), m, d) =>
    let '(seq, _, m, d) := NextSessionSeq sessionID s2 m d in
    (seal_session_with key epoch seq sessionID senderID recipientID aad plaintext rnd, m, d)
  end.

Definition OpenSession (sessionID : string) (wire : option WireSealed) (aad : AADFields) (m : Manager) : res string :=
  if match wire with Some w => negb (bool_decide (wKeyScope w = "session")) | None => false end
  then Err "session key scope mismatch"
  else match sessions m !! sessionID with
       | None => Err "unknown session key"
       | Some sk =>
         if match wire with Some w => negb (wEpoch w =? skEpoch sk) | None => false end
         then Err "session key epoch mismatch"
         else OpenWire (Key sk) wire aad
       end.

Definition OpenCatalog (wire : option WireSealed) (aad : AADFields) (m : Manager) : res string :=
  match wire with
  | Some w =>
    if (negb (bool_decide (wKeyScope w = "device_catalog")) || negb (wEpoch w =? catalogEpoch m))%bool
    then Err "catalog key scope or epoch mismatch"
    else OpenWire (catalogKey m) wire aad
  | None => Err "catalog key scope or epoch mismatch"
  end.

Definition WrapCatalogForPhone (wrappingKey : string) (rnd : res string) (m : Manager) : res (Z * string * string) :=
  w ← WrapKey rnd wrappingKey (catalogKey m); Ok (catalogEpoch m, w.1, w.2).

Definition WrapSessionForPhone (sessionID wrappingKey : string) (key_rnd rnd : res string)
    (s : save (file diskState)) (m : Manager) (d : disk) : res (Z * string * string) * Manager * disk :=
  match SessionKey sessionID key_rnd s m d with
  | (Err e, m, d) => (Err e, m, d)
  | (Ok (key, epoch), m, d) => (w ← WrapKey rnd wrappingKey key; Ok (epoch, w.1, w.2), m, d)
  end.

(** ** The life of a device's keys

    Goroutines share the manager, section by section; a restart loads the file.
    [Numbered scope seq]: a sequence number was taken ([None]: the catalog). *)

Inductive key_op : Type :=
  | TakeCatalogSeq (s : save (file diskState))
  | TakeSessionSeq (sessionID : string) (s : save (file diskState))
  | GetSessionKey (sessionID : string) (rnd : res string) (s : save (file diskState))
  | RestartKeys (unreadable : bool) (rnd : res string) (s : save (file diskState)).

Inductive key_event : Type :=
  | Numbered (scope : option string) (key : string) (epoch seq : Z)
  | GotKey (sessionID : string) (key : string) (epoch : Z)
  | KeyError (e : string)
  | Loaded | LoadFailed (e : string).

(** [None]: the daemon runs without keys. *)
Abbreviation key_world := (option Manager * disk)%type.

(** The key a session's numbers go with; [SealSession] has it from [SessionKey]. *)
Definition session_key (m : Manager) (sessionID : string) : string * Z :=
  match sessions m !! sessionID with Some sk => (Key sk, skEpoch sk) | None => ("", 0) end.

Definition key_step (p : string) (op : key_op) (w : key_world) : option key_event * key_world :=
  match op, w with
  | RestartKeys unreadable rnd s, (_, d) =>
    match LoadOrCreate p unreadable rnd s d with
    | (Ok m, d) => (Some Loaded, (Some m, d))
    | (Err e, d) => (Some (LoadFailed e), (None, d))
    end
  | _, (None, _) => (None, w)
  | TakeCatalogSeq s, (Some m, d) =>
    let '(seq, _, m, d) := NextCatalogSeq s m d in
    (Some (Numbered None (catalogKey m) (catalogEpoch m) seq), (Some m, d))
  | TakeSessionSeq id s, (Some m, d) =>
    let '(seq, _, m, d) := NextSessionSeq id s m d in
    let '(key, epoch) := session_key m id in
    (Some (Numbered (Some id) key epoch seq), (Some m, d))
  | GetSessionKey id rnd s, (Some m, d) =>
    match SessionKey id rnd s m d with
    | (Ok (k, epoch), m, d) => (Some (GotKey id k epoch), (Some m, d))
    | (Err e, m, d) => (Some (KeyError e), (Some m, d))
    end
  end.

Fixpoint key_run (p : string) (ops : list key_op) (w : key_world) : list key_event * key_world :=
  match ops with
  | [] => ([], w)
  | op :: ops =>
    let '(e, w) := key_step p op w in
    let '(es, w) := key_run p ops w in
    (match e with Some e => [e] | None => [] end ++ es, w)
  end.
End Manager.
