(* ===== verification/DaemonClient.v ===== *)
(** * The daemon's connection to the relay (daemon/internal/connection)

    The structured errors of the service, and the client: connecting and
    authenticating, the read loop with its retries, changes of the endpoint
    while all of that runs, and the callbacks.

    Each function below is what the code does between two points where it
    lets go of [c.mu] or waits for the network; [perform] interleaves the
    goroutines at those points. The network is an argument of the steps. *)

From stdpp Require Import base tactics list gmap strings.
From Stdlib Require Import Ascii ZArith Lia.
From S2P Require Import Prelude GoStrings Json Protocol.

(** ** Errors of the service (remote_error.go) *)

(** A [time.Duration], in nanoseconds. *)
Definition Second : Z := 1000000000.

Record RemoteError : Type := mkRemote {
  Code : string;
  Message : string;
  StatusCode : Z;
  RetryAfter : Z;
  ActionURL : string;
  retryable : bool
}.

Record remoteErrorEnvelope : Type := mkEnvelope {
  envErrorCode : string;
  envMessage : string;
  envRetryable : bool;
  envRetryAfterSeconds : option Z;
  envActionURL : string
}.

Definition device_already_connected : string := "device_already_connected".

Definition approvedRetryableCodes : list string :=
  ["registration_rate_limited"; "service_provisioning"; "route_unavailable"; "region_unavailable"; device_already_connected].

Definition approvedTerminalCodes : list string :=
  ["device_credential_invalid"; "phone_credential_invalid"; "access_suspended"; "registration_disabled";
   "device_capacity_exceeded"; "device_identity_conflict"; "protocol_upgrade_required"].

Definition unknown_remote_error : string := "unknown_remote_error".

(** [envelope]: what [json.Unmarshal] makes of the body. *)
Definition DecodeRemoteError (envelope : option remoteErrorEnvelope) (statusCode : Z) : option RemoteError :=
  envelope ← envelope;
  let code := TrimSpace (envErrorCode envelope) in
  if is_empty code then None else
  let approvedRetryable := bool_decide (code ∈ approvedRetryableCodes) in
  let retryable := ((approvedRetryable && envRetryable envelope) || bool_decide (code = device_already_connected))%bool in
  let unknown := (negb approvedRetryable && negb (bool_decide (code ∈ approvedTerminalCodes)))%bool in
  let code := if unknown then unknown_remote_error else code in
  let retryable := (retryable && negb unknown)%bool in
  let retryAfter :=
    if retryable
    then match envRetryAfterSeconds envelope with
         | Some n => if 0 <? n then int64_wrap (n * Second)
                     else if bool_decide (code = device_already_connected) then 15 * Second else 0
         | None => if bool_decide (code = device_already_connected) then 15 * Second else 0
         end
    else 0 in
  Some (mkRemote code (TrimSpace (envMessage envelope)) statusCode retryAfter (TrimSpace (envActionURL envelope)) retryable).

(** ** The client *)

Definition maxReconnectDelay : Z := 60 * Second.

(** The [conn] field names a socket; sockets are numbered as they are dialled. *)
Record Client : Type := mkClient {
  serverURL : string;
  deviceID : string;
  token : string;
  transportMode : string;
  protocolVersion : string;
  conn : option nat;
  connected : bool;
  onMessage : bool;
  onConnect : bool;
  reconnects : Z;
  serviceRetries : Z;
  retryableService : bool;
  retryAfter : Z;
  closed : bool;
  endpointActive : bool;
  endpointChanged : nat;
  generation : Z
}.

(** [endpointChanged] is the number of channels closed so far: the current
    channel is the next one. Callbacks are present or not. *)
Definition NewClient (url deviceID token : string) (modes : list string) : Client :=
  mkClient url deviceID token (match modes with m :: _ => TrimSpace m | [] => "open" end) CurrentProtocolVersion
    None false false false 0 0 false 0 false (negb (is_empty (TrimSpace url))) 0 0.

Definition with_callbacks (c : Client) (m k : bool) : Client :=
  mkClient (serverURL c) (deviceID c) (token c) (transportMode c) (protocolVersion c) (conn c) (connected c)
    m k (reconnects c) (serviceRetries c) (retryableService c) (retryAfter c) (closed c)
    (endpointActive c) (endpointChanged c) (generation c).
Definition OnMessage (c : Client) : Client := with_callbacks c true (onConnect c).
Definition OnConnect (c : Client) : Client := with_callbacks c (onMessage c) true.

Definition SetTransportMode (mode : string) (c : Client) : res Client :=
  let mode := TrimSpace mode in
  _ ← fail_if (negb (bool_decide (mode = "open")) && negb (bool_decide (mode = "sealed"))) "invalid transport_mode";
  _ ← fail_if (connected c && negb (bool_decide (transportMode c = mode))) "transport_mode is immutable while connected";
  Ok (mkClient (serverURL c) (deviceID c) (token c) mode (protocolVersion c) (conn c) (connected c)
        (onMessage c) (onConnect c) (reconnects c) (serviceRetries c) (retryableService c) (retryAfter c) (closed c)
        (endpointActive c) (endpointChanged c) (generation c)).

(** *** Changing the endpoint

    What happens under [c.mu]; the detached socket is closed afterwards. *)

Definition move_endpoint (url : string) (active : bool) (c : Client) : Client :=
  mkClient url (deviceID c) (token c) (transportMode c) CurrentProtocolVersion None false
    (onMessage c) (onConnect c) 0 (serviceRetries c) (retryableService c) (retryAfter c) (closed c)
    active (S (endpointChanged c)) (u64_add (generation c) 1).

Definition PauseAndPublish (c : Client) : option nat * Client :=
  if (negb (closed c) && endpointActive c)%bool then (conn c, move_endpoint (serverURL c) false c) else (None, c).

Definition SetServerURLAndPublish (url : string) (c : Client) : option nat * Client :=
  let url := TrimSpace url in
  if is_empty url then PauseAndPublish c
  else if (negb (closed c) && (negb (bool_decide (serverURL c = url)) || negb (endpointActive c)))%bool
  then (conn c, move_endpoint url true c) else (None, c).

(** All of [Close]: it holds both locks throughout. *)
Definition Close (c : Client) : option nat * Client :=
  if closed c then (None, c)
  else (conn c,
        mkClient (serverURL c) (deviceID c) (token c) (transportMode c) CurrentProtocolVersion None
          (match conn c with Some _ => false | None => connected c end)
          (onMessage c) (onConnect c) (reconnects c) (serviceRetries c) (retryableService c) (retryAfter c) true
          (endpointActive c) (endpointChanged c) (u64_add (generation c) 1)).

(** *** Connecting *)

Inductive conn_error : Type :=
  | ErrEndpointPaused
  | ErrClosed
  | ErrRemote (e : RemoteError)
  | ErrOther (text : string).

(** What [Connect] copies before it dials. *)
Record snapshot : Type := mkSnap { snURL : string; snMode : string; snGeneration : Z }.

Definition connect_begin (c : Client) : conn_error + snapshot :=
  if closed c then inl ErrClosed
  else if negb (endpointActive c) then inl ErrEndpointPaused
  else inr (mkSnap (serverURL c) (transportMode c) (generation c)).

Definition isCurrentGeneration (g : Z) (c : Client) : bool :=
  (negb (closed c) && endpointActive c && (generation c =? g))%bool.

(** An attempt that failed: [Retried] ones are forgotten when the endpoint has
    changed meanwhile. *)
Inductive failure : Type :=
  | Retried (e : conn_error)
  | Returned (e : conn_error).

(** [websocket.DefaultDialer.Dial] and the response of a refused handshake. *)
Inductive dial_result : Type :=
  | Dialed
  | DialFailed (response : option (Z * option remoteErrorEnvelope)) (text : string).

Definition remoteErrorFromHandshake (response : option (Z * option remoteErrorEnvelope)) : option RemoteError :=
  '(status, envelope) ← response; DecodeRemoteError envelope status.

Definition dial_failure (sn : snapshot) (r : dial_result) : option failure :=
  match r with
  | DialFailed response text =>
    Some (Retried match remoteErrorFromHandshake response with
                  | Some e => ErrRemote e
                  | None => ErrOther ("dial: " +:+ text)
                  end)
  | Dialed =>
    if (negb (bool_decide (snMode sn = "open")) && negb (bool_decide (snMode sn = "sealed")))%bool
    then Some (Returned (ErrOther "invalid configured transport_mode")) else None
  end.

(** The exchange of [register_device] and [auth_response]. [shown]: the payload
    as [%v] prints it; [envelope]: its fields as those of an error. *)
Inductive auth_result : Type :=
  | WriteDeadlineFailed (e : string)
  | AuthWriteFailed (e : string)
  | ReadDeadlineFailed (e : string)
  | AuthReadFailed (e : string)
  | ClearDeadlineFailed (e : string)
  | AuthUnparsed (e : string)
  | AuthReply (resp : payload) (shown : string) (envelope : option remoteErrorEnvelope).

Definition payload_object (resp : payload) : option (list (string * value)) :=
  match resp !! "payload" with Some (VObject kvs) => Some kvs | _ => None end.
Definition payload_field (resp : payload) (key : string) : string :=
  match payload_object resp with Some kvs => string_or_empty (assoc key kvs) | None => "" end.

Definition server_mode (resp : payload) : string :=
  let m := payload_string resp "transport_mode" in
  if is_empty m then payload_field resp "transport_mode" else m.

Definition negotiated_version (resp : payload) : string :=
  let v := payload_field resp "protocol_version" in
  let v := if is_empty v then payload_string resp "protocol_version" else v in
  if is_empty v then CurrentProtocolVersion else v.

(** wire/version.go *)
Definition ValidateNegotiatedVersion (v : string) : res unit :=
  match split_byte "." v with
  | [p0; p1] =>
    match Atoi p0 with
    | None => Err "invalid protocol major"
    | Some major =>
      match Atoi p1 with
      | Some minor =>
        _ ← fail_if (minor <? 0) "invalid protocol minor";
        fail_if (negb (major =? CurrentProtocolMajor) || (CurrentProtocolMinor <? minor))
          "unsupported negotiated protocol_version"
      | None => Err "invalid protocol minor"
      end
    end
  | _ => Err "protocol_version must be major.minor"
  end.

Definition is_type (resp : payload) (t : string) : bool :=
  match resp !! "type" with Some (VString s) => bool_decide (s = t) | _ => false end.

Definition check_auth_reply (sn : snapshot) (resp : payload) (shown : string) (envelope : option remoteErrorEnvelope)
  : failure + string :=
  if is_type resp "error" then
    inl (Retried (ErrRemote
      match (match resp !! "payload" with Some _ => DecodeRemoteError envelope 0 | None => None end) with
      | Some e => e
      | None => mkRemote unknown_remote_error ("authentication failed: " +:+ shown) 0 0 "" false
      end))
  else if negb (is_type resp "auth_response") then inl (Returned (ErrOther "auth failed: expected auth_response"))
  else if negb (bool_decide (server_mode resp = snMode sn))
  then inl (Returned (ErrOther "auth failed: transport_mode mismatch"))
  else match ValidateNegotiatedVersion (negotiated_version resp) with
       | Err e => inl (Returned (ErrOther ("auth failed: " +:+ e)))
       | Ok _ => inr (negotiated_version resp)
       end.

(** The negotiated version, or a failure after which the socket is closed. *)
Definition authenticate (sn : snapshot) (r : auth_result) : failure + string :=
  match r with
  | WriteDeadlineFailed e => inl (Returned (ErrOther ("auth write deadline: " +:+ e)))
  | AuthWriteFailed e => inl (Retried (ErrOther ("auth write: " +:+ e)))
  | ReadDeadlineFailed e => inl (Returned (ErrOther ("auth deadline: " +:+ e)))
  | AuthReadFailed e => inl (Retried (ErrOther ("auth read: " +:+ e)))
  | ClearDeadlineFailed e => inl (Returned (ErrOther ("clear auth deadline: " +:+ e)))
  | AuthUnparsed e => inl (Returned (ErrOther ("auth parse: " +:+ e)))
  | AuthReply resp shown envelope => check_auth_reply sn resp shown envelope
  end.

(** Installing an authenticated socket, under both locks. *)
Inductive installed : Type :=
  | Installed (old : option nat) (c : Client)
  | Stale
  | ClosedMeanwhile.

Definition install (sn : snapshot) (s : nat) (version : string) (c : Client) : installed :=
  if (closed c || negb (endpointActive c) || negb (generation c =? snGeneration sn)
      || negb (bool_decide (serverURL c = snURL sn)))%bool
  then if closed c then ClosedMeanwhile else Stale
  else Installed (conn c)
         (mkClient (serverURL c) (deviceID c) (token c) (transportMode c) version (Some s) true
            (onMessage c) (onConnect c) 0 0 false 0 (closed c) (endpointActive c) (endpointChanged c) (generation c)).

(** *** Retrying *)

(** Whether to go on, and the state of the next retry. *)
Definition with_retry (c : Client) (service : bool) (after : Z) : Client :=
  mkClient (serverURL c) (deviceID c) (token c) (transportMode c) (protocolVersion c) (conn c) (connected c)
    (onMessage c) (onConnect c) (reconnects c) (serviceRetries c) service after (closed c)
    (endpointActive c) (endpointChanged c) (generation c).

Definition recordConnectionFailure (e : conn_error) (c : Client) : bool * Client :=
  match e with
  | ErrEndpointPaused => (true, c)
  | ErrRemote remote => if retryable remote then (true, with_retry c true (RetryAfter remote)) else (false, c)
  | _ => (true, with_retry c false 0)
  end.

(** One look of [waitUntilEndpointActive]: an answer, or the channel to wait on. *)
Definition waitUntilEndpointActive (c : Client) : bool + nat :=
  if closed c then inl false else if endpointActive c then inl true else inr (endpointChanged c).

Definition reconnect_delay (attempt retryAfter : Z) : Z :=
  let delay := int64_wrap (int64_wrap (attempt * 5) * Second) in
  let delay := if delay <? retryAfter then retryAfter else delay in
  if maxReconnectDelay <? delay then maxReconnectDelay else delay.

(** The section of [waitForReconnect]: the delay, and the counters. *)
Definition next_delay (c : Client) : Z * Client :=
  let r := if retryableService c then reconnects c else int64_wrap (reconnects c + 1) in
  let k := if retryableService c then int64_wrap (serviceRetries c + 1) else serviceRetries c in
  (reconnect_delay (if retryableService c then k else r) (retryAfter c),
   mkClient (serverURL c) (deviceID c) (token c) (transportMode c) (protocolVersion c) (conn c) (connected c)
    (onMessage c) (onConnect c) r k (retryableService c) 0 (closed c)
    (endpointActive c) (endpointChanged c) (generation c)).

(** *** Reading and sending *)

(** [StartReadLoop] after a read error: whether the socket was the current one. *)
Definition detach (s : nat) (c : Client) : bool * Client :=
  if bool_decide (conn c = Some s)
  then (true, mkClient (serverURL c) (deviceID c) (token c) (transportMode c) CurrentProtocolVersion None false
          (onMessage c) (onConnect c) (reconnects c) (serviceRetries c) (retryableService c) (retryAfter c) (closed c)
          (endpointActive c) (endpointChanged c) (generation c))
  else (false, c).

(** Whether the callback runs. *)
Definition dispatchMessage (s : nat) (c : Client) : bool :=
  (negb (closed c || negb (bool_decide (conn c = Some s))) && onMessage c)%bool.
Definition dispatchConnect (s : nat) (c : Client) : bool := (negb (closed c) && bool_decide (conn c = Some s))%bool.

(** [Send] and [sendPing]; [written]: how the write ends. *)
Definition Send (written : res unit) (c : Client) : conn_error + unit :=
  if negb (endpointActive c) then inl ErrEndpointPaused
  else match conn c with
       | None => inl (ErrOther "not connected")
       | Some _ => match written with Ok _ => inr tt | Err e => inl (ErrOther e) end
       end.

(** One tick of [StartHeartbeat]: the socket it closes. [c1], [c2], [c3]: the
    client as the three critical sections find it. *)
Definition closeForReconnect (c : Client) : option nat := conn c.

Definition heartbeat_tick (sent pinged : res unit) (c1 c2 c3 : Client) : option nat :=
  match Send sent c1 with
  | inl ErrEndpointPaused => None
  | inl _ => closeForReconnect c3
  | inr _ => match Send pinged c2 with
             | inl ErrEndpointPaused | inr _ => None
             | inl _ => closeForReconnect c3
             end
  end.

Definition ProtocolVersionOf (c : Client) : string :=
  if is_empty (protocolVersion c) then CurrentProtocolVersion else protocolVersion c.

(** The frame, with the clock. *)
Definition heartbeatMessage (now : Z) (c : Client) : payload :=
  {[ "protocol_version" := VString (ProtocolVersionOf c); "transport_mode" := VString (transportMode c);
     "type" := VString "heartbeat"; "device_id" := VString (deviceID c); "timestamp" := VInt now ]}.

(** ** The goroutines

    One goroutine runs [ConnectUntilConnected] and, when it has succeeded,
    [StartReadLoop]; [boot] tells the two apart where they share code. *)

Inductive stop : Type :=
  | StopCancelled
  | StopClosed
  | StopRefused (e : RemoteError).

Inductive driver : Type :=
  | AtConnect (boot : bool)
  | Dialing (boot : bool) (sn : snapshot)
  | Failing (boot : bool) (sn : snapshot) (e : conn_error)
  | Authing (boot : bool) (sn : snapshot) (s : nat)
  | Installing (boot : bool) (sn : snapshot) (s : nat) (version : string)
  | Arming (boot : bool) (s : nat) (old : option nat) (callback : bool)
  | Recording (boot : bool) (e : conn_error)
  | Waiting (boot : bool)
  | BlockedOn (boot : bool) (channel : nat)
  | Scheduling (boot : bool)
  | Sleeping (boot : bool) (delay : Z)
  | CheckClosed (boot : bool)
  | LoopTop
  | NextRead
  | Reading (s : nat)
  | ReadFailing (s : nat)
  | Detaching (s : nat)
  | Dispatching (s : nat)
  | InMessage (s : nat)
  | Stopped (why : stop).

(** A socket: what it was dialled for, and whether it is still open here. *)
Record socket : Type := mkSocket { sock_url : string; sock_open : bool }.

(** What is seen from outside. *)
Inductive event : Type :=
  | CallMessage (url : string) | ReturnMessage (url : string)
  | CallConnect (url : string) | ReturnConnect (url : string)
  | Published (endpoint : option string)
  | ClosedClient.

(** [writer]: a goroutine that holds [dispatchMu] after changing the endpoint,
    with the socket it detached and what it will publish. [connecting]: the
    [dispatchConnect] goroutines, [true] once the callback runs. [closing]:
    sockets about to be closed by a goroutine. *)
Record world : Type := mkWorld {
  client : Client;
  sockets : list socket;
  main : driver;
  connecting : list (nat * bool);
  writer : option (option nat * option string);
  closing : list nat;
  cancelled : bool;
  trace : list event
}.

Definition url_of (w : world) (s : nat) : string := match sockets w !! s with Some k => sock_url k | None => "" end.

Definition close_socket (s : nat) (m : list socket) : list socket := alter (fun k => mkSocket (sock_url k) false) s m.
Definition open_socket (url : string) (m : list socket) : nat * list socket :=
  (List.length m, m ++ [mkSocket url true]).

Definition set_main (w : world) (d : driver) : world :=
  mkWorld (client w) (sockets w) d (connecting w) (writer w) (closing w) (cancelled w) (trace w).
Definition set_client (w : world) (c : Client) : world :=
  mkWorld c (sockets w) (main w) (connecting w) (writer w) (closing w) (cancelled w) (trace w).
Definition set_sockets (w : world) (m : list socket) : world :=
  mkWorld (client w) m (main w) (connecting w) (writer w) (closing w) (cancelled w) (trace w).
Definition set_connecting (w : world) (l : list (nat * bool)) : world :=
  mkWorld (client w) (sockets w) (main w) l (writer w) (closing w) (cancelled w) (trace w).
Definition set_writer (w : world) (x : option (option nat * option string)) : world :=
  mkWorld (client w) (sockets w) (main w) (connecting w) x (closing w) (cancelled w) (trace w).
Definition set_closing (w : world) (l : list nat) : world :=
  mkWorld (client w) (sockets w) (main w) (connecting w) (writer w) l (cancelled w) (trace w).
Definition emit (w : world) (e : event) : world :=
  mkWorld (client w) (sockets w) (main w) (connecting w) (writer w) (closing w) (cancelled w) (trace w ++ [e]).

Definition shut (w : world) (s : nat) : world := set_sockets w (close_socket s (sockets w)).
Definition shut_all (w : world) (l : option nat) : world := match l with Some s => shut w s | None => w end.

(** What the world answers to a step of the goroutine. *)
Inductive answer : Type :=
  | Go
  | GotDial (r : dial_result)
  | GotAuth (r : auth_result)
  | Armed (r : res unit)
  | Elapsed
  | Frame (r : res unit).

(** [dispatchMu]: readers run callbacks, writers change the endpoint. *)
Definition is_in_message (d : driver) : bool := match d with InMessage _ => true | _ => false end.
Definition running_connects (l : list (nat * bool)) : nat := List.length (List.filter snd l).
Definition no_writer (w : world) : bool := match writer w with None => true | Some _ => false end.
Definition can_write (w : world) : bool :=
  (no_writer w && negb (is_in_message (main w)) && (running_connects (connecting w) =? 0)%nat)%bool.

(** [Connect], from its loop's top to its return. *)
Definition connect_step (a : answer) (w : world) : option world :=
  match main w, a with
  | AtConnect boot, Go =>
    Some (set_main w match connect_begin (client w) with inl e => Recording boot e | inr sn => Dialing boot sn end)
  | Dialing boot sn, GotDial r =>
    let '(s, m) := open_socket (snURL sn) (sockets w) in
    let opened := match r with Dialed => set_sockets w m | DialFailed _ _ => w end in
    Some match dial_failure sn r with
         | Some (Retried e) => set_main opened (Failing boot sn e)
         | Some (Returned e) => set_main (shut opened s) (Recording boot e)
         | None => set_main opened (Authing boot sn s)
         end
  | Failing boot sn e, Go =>
    Some (set_main w (if isCurrentGeneration (snGeneration sn) (client w) then Recording boot e else AtConnect boot))
  | Authing boot sn s, GotAuth r =>
    Some match authenticate sn r with
         | inl (Retried e) => set_main (shut w s) (Failing boot sn e)
         | inl (Returned e) => set_main (shut w s) (Recording boot e)
         | inr version => set_main w (Installing boot sn s version)
         end
  | Installing boot sn s version, Go =>
    if negb (can_write w) then None
    else Some match install sn s version (client w) with
              | Installed old c => set_main (set_client w c) (Arming boot s old (onConnect (client w)))
              | Stale => set_main (shut w s) (AtConnect boot)
              | ClosedMeanwhile => set_main (shut w s) (Recording boot ErrClosed)
              end
  | Arming boot s old callback, Armed r =>
    Some match r with
         | Err e => set_main (shut w s) (Recording boot (ErrOther ("liveness: " +:+ e)))
         | Ok _ =>
           let w := if bool_decide (old = Some s) then w else shut_all w old in
           set_main (if callback then set_connecting w (connecting w ++ [(s, false)]) else w) LoopTop
         end
  | _, _ => None
  end.

(** [waitForReconnect] and what is done with the error of [Connect]. *)
Definition retry_step (a : answer) (w : world) : option world :=
  match main w, a with
  | Recording boot e, Go =>
    let '(again, c) := recordConnectionFailure e (client w) in
    Some (set_main (set_client w c)
            (if again then (if boot then Waiting boot else LoopTop)
             else Stopped match e with ErrRemote r => StopRefused r | _ => StopClosed end))
  | Waiting boot, Go =>
    Some (set_main w match waitUntilEndpointActive (client w) with
                     | inl false => Stopped StopClosed
                     | inl true => Scheduling boot
                     | inr n => BlockedOn boot n
                     end)
  | BlockedOn boot n, Go =>
    if cancelled w then Some (set_main w (Stopped StopCancelled))
    else if closed (client w) then Some (set_main w (Stopped StopClosed)) else None
  | BlockedOn boot n, Elapsed => if (n <? endpointChanged (client w))%nat then Some (set_main w (Waiting boot)) else None
  | Scheduling boot, Go =>
    let '(delay, c) := next_delay (client w) in Some (set_main (set_client w c) (Sleeping boot delay))
  | Sleeping boot _, Go => if cancelled w then Some (set_main w (Stopped StopCancelled)) else None
  | Sleeping boot _, Elapsed => Some (set_main w (CheckClosed boot))
  | CheckClosed boot, Go => Some (set_main w (if closed (client w) then Stopped StopClosed else AtConnect boot))
  | _, _ => None
  end.

(** [StartReadLoop] and [dispatchMessage]. *)
Definition stop_or (w : world) (d : driver) : driver :=
  if cancelled w then Stopped StopCancelled else if closed (client w) then Stopped StopClosed else d.

Definition read_step (a : answer) (w : world) : option world :=
  match main w, a with
  | LoopTop, Go => Some (set_main w (stop_or w NextRead))
  | NextRead, Go => Some (set_main w match conn (client w) with None => Waiting false | Some s => Reading s end)
  | Reading s, Frame r => Some (set_main w match r with Ok _ => Dispatching s | Err _ => ReadFailing s end)
  | ReadFailing s, Go => Some (set_main w (stop_or w (Detaching s)))
  | Detaching s, Go =>
    let '(was_current, c) := detach s (client w) in
    Some (set_main (shut (set_client w c) s) (if was_current then Waiting false else LoopTop))
  | Dispatching s, Go =>
    if negb (no_writer w) then None
    else if dispatchMessage s (client w) then Some (emit (set_main w (InMessage s)) (CallMessage (url_of w s)))
    else Some (set_main w LoopTop)
  | InMessage s, Go => Some (emit (set_main w LoopTop) (ReturnMessage (url_of w s)))
  | _, _ => None
  end.

(** A step of any goroutine. A heartbeat can close the socket at any time. *)
Inductive action : Type :=
  | Main (a : answer)
  | Switch (url : string)
  | Unlock
  | CloseOld (i : nat)
  | CloseClient
  | RunConnect (i : nat)
  | EndConnect (i : nat)
  | HeartbeatFails
  | Cancel.

Definition endpoint_arg (url : string) : option string :=
  let url := TrimSpace url in if is_empty url then None else Some url.

Definition opt_list {A} (o : option A) : list A := match o with Some x => [x] | None => [] end.

Definition perform (x : action) (w : world) : option world :=
  match x with
  | Main a => match connect_step a w with
              | Some w' => Some w'
              | None => match retry_step a w with Some w' => Some w' | None => read_step a w end
              end
  | Switch url =>
    if can_write w
    then let '(old, c) := SetServerURLAndPublish url (client w) in Some (set_writer (set_client w c) (Some (old, endpoint_arg url)))
    else None
  | Unlock =>
    match writer w with
    | Some (old, ep) => Some (emit (set_writer (set_closing w (closing w ++ opt_list old)) None) (Published ep))
    | None => None
    end
  | CloseOld i =>
    s ← closing w !! i; Some (shut (set_closing w (delete i (closing w))) s)
  | CloseClient =>
    if can_write w
    then let '(old, c) := Close (client w) in Some (emit (shut_all (set_client w c) old) ClosedClient)
    else None
  | RunConnect i =>
    match connecting w !! i with
    | Some (s, false) =>
      if negb (no_writer w) then None
      else Some (if dispatchConnect s (client w)
                 then emit (set_connecting w (<[i := (s, true)]> (connecting w))) (CallConnect (url_of w s))
                 else set_connecting w (delete i (connecting w)))
    | _ => None
    end
  | EndConnect i =>
    match connecting w !! i with
    | Some (s, true) => Some (emit (set_connecting w (delete i (connecting w))) (ReturnConnect (url_of w s)))
    | _ => None
    end
  | HeartbeatFails => Some (set_closing w (closing w ++ opt_list (closeForReconnect (client w))))
  | Cancel => Some (mkWorld (client w) (sockets w) (main w) (connecting w) (writer w) (closing w) true (trace w))
  end.

Definition start (c : Client) : world := mkWorld c [] (AtConnect true) [] None [] false [].

Inductive reachable (c : Client) : world -> Prop :=
  | reach_start : reachable c (start c)
  | reach_step w w' x : reachable c w -> perform x w = Some w' -> reachable c w'.

(** The same as a function: actions that cannot run are skipped. *)
Definition run_client (c : Client) (xs : list action) : world :=
  foldl (fun w x => default w (perform x w)) (start c) xs.
