(* ===== verification/Connections.v ===== *)
(** * Live connections (relaycore/connections.go)

    The connection manager of the relay: which daemon generation is live for a
    device, which phones are subscribed, and the bounded queue in front of each
    phone socket. [Module Daemons] is a model of the daemon side under
    concurrency: each call is a thread, each critical section a step, and the
    locks are explicit; the three device callbacks are set, as the engine sets
    them, and the test hook is not. [Module Outbound] is one phone's queue with its writer,
    also step by step. [Module Phones] is the subscription table, whose
    operations run under one lock. *)

From stdpp Require Import base tactics list gmap strings relations.
From Stdlib Require Import ZArith Lia.
From S2P Require Import Prelude GoStrings Json Protocol.

Inductive DuplicateDaemonPolicy : Set := ReplaceExisting | RejectNew.

Definition ErrDeviceAlreadyConnected : string := "device already connected".
Definition ErrDeviceOffline : string := "device offline".

Module Daemons.

(** ** State

    A [DaemonConn] is identified by the thread that allocated it; a thread
    allocates at most one. [dcMu] and [regMu] are the holders of [dc.mu] and
    [cm.mu]. *)

Record DaemonConn : Type := mkDC {
  dcDevice : string;
  dcConn : Z;
  AppVersion : string;
  generation : Z;
  dcClosed : bool;
  dcMu : option Z
}.

(** What the manager does to the outside, in order. The generation of a
    notification is recorded for the theorems; the callbacks do not get it. *)
Inductive event : Type :=
  | EUp (dev ver : string) (g : Z)
  | EVersionChange (dev ver : string) (g : Z)
  | EDown (dev : string)
  | EFrame (dev : string) (g : Z)
  | ELastSeen (dev : string)
  | ESocketClosed (conn : Z).

Record ConnectionManager : Type := mkCM {
  daemonConns : gmap string Z;
  nextDaemonGeneration : Z;
  dcs : gmap Z DaemonConn;
  duplicatePolicy : DuplicateDaemonPolicy;
  regMu : option Z;
  events : list event
}.

Definition NewConnectionManagerWithPolicy (policy : DuplicateDaemonPolicy) : ConnectionManager :=
  mkCM ∅ 0 ∅ policy None [].

Definition set_dc (r : ConnectionManager) (c : Z) (d : DaemonConn) : ConnectionManager :=
  mkCM (daemonConns r) (nextDaemonGeneration r) (<[c := d]> (dcs r)) (duplicatePolicy r) (regMu r) (events r).

Definition set_conns (r : ConnectionManager) (m : gmap string Z) : ConnectionManager :=
  mkCM m (nextDaemonGeneration r) (dcs r) (duplicatePolicy r) (regMu r) (events r).

Definition set_regMu (r : ConnectionManager) (o : option Z) : ConnectionManager :=
  mkCM (daemonConns r) (nextDaemonGeneration r) (dcs r) (duplicatePolicy r) o (events r).

Definition emit (r : ConnectionManager) (e : event) : ConnectionManager :=
  mkCM (daemonConns r) (nextDaemonGeneration r) (dcs r) (duplicatePolicy r) (regMu r) (events r ++ [e]).

Definition with_mu (d : DaemonConn) (o : option Z) : DaemonConn :=
  mkDC (dcDevice d) (dcConn d) (AppVersion d) (generation d) (dcClosed d) o.

Definition with_closed (d : DaemonConn) : DaemonConn :=
  mkDC (dcDevice d) (dcConn d) (AppVersion d) (generation d) true (dcMu d).

Definition with_generation (d : DaemonConn) (g : Z) : DaemonConn :=
  mkDC (dcDevice d) (dcConn d) (AppVersion d) g (dcClosed d) (dcMu d).

(** ** Locks. [None]: the thread waits. *)

Definition lock_dc (r : ConnectionManager) (t c : Z) : option ConnectionManager :=
  d ← dcs r !! c;
  match dcMu d with None => Some (set_dc r c (with_mu d (Some t))) | Some _ => None end.

Definition unlock_dc (r : ConnectionManager) (c : Z) : ConnectionManager :=
  match dcs r !! c with Some d => set_dc r c (with_mu d None) | None => r end.

Definition unlock_old (r : ConnectionManager) (old : option Z) : ConnectionManager :=
  match old with Some c => unlock_dc r c | None => r end.

(** A section under [cm.mu] runs when nobody holds it across steps. *)
Definition reg_free (r : ConnectionManager) : bool := match regMu r with None => true | Some _ => false end.

Definition mark_closed (r : ConnectionManager) (c : Z) : ConnectionManager :=
  match dcs r !! c with Some d => set_dc r c (with_closed d) | None => r end.

(** [isLiveDaemonLocked]. *)
Definition isLiveDaemonLocked (r : ConnectionManager) (c : Z) : bool :=
  match dcs r !! c with
  | Some d => negb (dcClosed d) && bool_decide (daemonConns r !! dcDevice d = Some c)
  | None => false
  end.

Definition GetDaemonVersion (r : ConnectionManager) (dev : string) : string :=
  match daemonConns r !! dev ≫= (fun c => dcs r !! c) with Some d => AppVersion d | None => "" end.

Definition IsDaemonOnline (r : ConnectionManager) (dev : string) : bool :=
  match daemonConns r !! dev with Some _ => true | None => false end.

(** ** Where a thread is *)

Inductive pc : Type :=
  (* TryAddDaemonVersioned; the new connection has the thread's own id *)
  | AddCall (dev : string) (conn : Z) (ver : string)
  | AddObserve
  | AddLock (old : option Z)
  | AddCheck (old : option Z)
  | AddReplace (old : option Z) (wasOnline : bool) (previousVersion : string)
  | AddNotify (wasOnline : bool) (previousVersion : string)
  | AddReturn (rejected : bool)
  (* RemoveDaemon *)
  | RemCall (dev : string) (conn : Z)
  | RemLock (dev : string) (c : Z)
  | RemCheck (dev : string) (c : Z)
  | RemUnlock (dev : string) (c : Z)
  | RemNotify (dev : string)
  (* handleDaemonMessage of one frame *)
  | FrameCall (c : Z)
  | FrameCheck (c : Z)
  | FrameEffect (c : Z)
  | FrameReturn (c : Z)
  (* Close *)
  | CloseCall
  | CloseEach (todo all : list Z)
  | CloseSockets (all : list Z)
  | Done.

Definition is_call (p : pc) : bool :=
  match p with AddCall _ _ _ | RemCall _ _ | FrameCall _ | CloseCall => true | _ => false end.

(** The publishing section of [TryAddDaemonVersioned], under [cm.mu] with the
    lock of [old] held. *)
Definition publish (r : ConnectionManager) (c : Z) (old : option Z) : ConnectionManager * pc :=
  match dcs r !! c with
  | None => (r, Done)
  | Some dc =>
    if negb (bool_decide (daemonConns r !! dcDevice dc = old)) then (unlock_old r old, AddObserve)
    else
      let oldLive := match old ≫= (fun o => dcs r !! o) with Some d => negb (dcClosed d) | None => false end in
      if (match duplicatePolicy r with RejectNew => oldLive | ReplaceExisting => false end)
      then (unlock_old r old, AddReturn true)
      else
        let previousVersion := match old ≫= (fun o => dcs r !! o) with Some d => AppVersion d | None => "" end in
        let g := u64_add (nextDaemonGeneration r) 1 in
        let r1 := mkCM (<[dcDevice dc := c]> (daemonConns r)) g (<[c := with_generation dc g]> (dcs r))
                    (duplicatePolicy r) (regMu r) (events r) in
        (match old with Some o => mark_closed r1 o | None => r1 end, AddReplace old oldLive previousVersion)
  end.

(** The notification of [TryAddDaemonVersioned], under the new generation's
    lease. Only a notification needs [cm.mu]: [None] when it has to wait. *)
Definition notify (r : ConnectionManager) (c : Z) (wasOnline : bool) (previousVersion : string)
  : option ConnectionManager :=
  dc ← dcs r !! c;
  if negb wasOnline
  then if reg_free r
       then Some (if isLiveDaemonLocked r c then emit r (EUp (dcDevice dc) (AppVersion dc) (generation dc)) else r)
       else None
  else if negb (bool_decide (previousVersion = AppVersion dc))
  then if reg_free r
       then Some (if isLiveDaemonLocked r c
                  then emit r (EVersionChange (dcDevice dc) (AppVersion dc) (generation dc)) else r)
       else None
  else Some r.

(** The removing section of [RemoveDaemon], under [cm.mu] and [dc.mu]. *)
Definition remove_check (r : ConnectionManager) (dev : string) (c : Z) : ConnectionManager * pc :=
  match dcs r !! c with
  | None => (r, Done)
  | Some d =>
    if (negb (bool_decide (daemonConns r !! dev = Some c)) || dcClosed d)%bool then (unlock_dc r c, Done)
    else (set_conns (mark_closed r c) (delete dev (daemonConns r)), RemUnlock dev c)
  end.

Definition dc_socket (r : ConnectionManager) (c : Z) : list event :=
  match dcs r !! c with Some d => [ESocketClosed (dcConn d)] | None => [] end.

Definition emits (r : ConnectionManager) (es : list event) : ConnectionManager :=
  mkCM (daemonConns r) (nextDaemonGeneration r) (dcs r) (duplicatePolicy r) (regMu r) (events r ++ es).

(** One step of thread [t] at [p], per call; [None] when it waits for a lock. *)
Definition TryAddDaemonVersioned (r : ConnectionManager) (t : Z) (p : pc) : option (ConnectionManager * pc) :=
  match p with
  | AddCall dev conn ver => Some (set_dc r t (mkDC dev conn ver 0 false (Some t)), AddObserve)
  | AddObserve =>
    if reg_free r then dc ← dcs r !! t; Some (r, AddLock (daemonConns r !! dcDevice dc)) else None
  | AddLock None => Some (r, AddCheck None)
  | AddLock (Some o) => r' ← lock_dc r t o; Some (r', AddCheck (Some o))
  | AddCheck old => if reg_free r then Some (publish r t old) else None
  | AddReplace old was prev =>
    Some (unlock_old (emits r (match old with Some o => dc_socket r o | None => [] end)) old, AddNotify was prev)
  | AddNotify was prev =>
    dc ← dcs r !! t; r' ← notify (emit r (ELastSeen (dcDevice dc))) t was prev; Some (r', AddReturn false)
  | AddReturn _ => Some (unlock_dc r t, Done)
  | _ => None
  end.

Definition RemoveDaemon (r : ConnectionManager) (t : Z) (p : pc) : option (ConnectionManager * pc) :=
  match p with
  | RemCall dev conn =>
    if reg_free r
    then match daemonConns r !! dev with
         | Some c => d ← dcs r !! c; if dcConn d =? conn then Some (r, RemLock dev c) else Some (r, Done)
         | None => Some (r, Done)
         end
    else None
  | RemLock dev c => r' ← lock_dc r t c; Some (r', RemCheck dev c)
  | RemCheck dev c => if reg_free r then Some (remove_check r dev c) else None
  | RemUnlock dev c => Some (unlock_dc (emits r (dc_socket r c)) c, RemNotify dev)
  | RemNotify dev => Some (emit r (EDown dev), Done)
  | _ => None
  end.

(** [handleDaemonMessage] of websocket.go around the effects of one frame, which
    are the business of [Relay]. *)
Definition handle_frame (r : ConnectionManager) (t : Z) (p : pc) : option (ConnectionManager * pc) :=
  match p with
  | FrameCall c => r' ← lock_dc r t c; Some (r', FrameCheck c)
  | FrameCheck c =>
    if reg_free r then Some (r, if isLiveDaemonLocked r c then FrameEffect c else FrameReturn c) else None
  | FrameEffect c => d ← dcs r !! c; Some (emit r (EFrame (dcDevice d) (generation d)), FrameReturn c)
  | FrameReturn c => Some (unlock_dc r c, Done)
  | _ => None
  end.

(** The daemon part of [Close]; afterwards it drops every phone with
    [Phones.dropPhone]. *)
Definition Close `{MapOrder} (r : ConnectionManager) (t : Z) (p : pc) : option (ConnectionManager * pc) :=
  match p with
  | CloseCall =>
    if reg_free r then let all := range_values (daemonConns r) in Some (set_regMu r (Some t), CloseEach all all)
    else None
  | CloseEach (c :: todo) all =>
    match dcs r !! c with
    | Some d => match dcMu d with None => Some (mark_closed r c, CloseEach todo all) | Some _ => None end
    | None => None
    end
  | CloseEach [] all => Some (set_regMu (set_conns r ∅) None, CloseSockets all)
  | CloseSockets all => Some (emits r (all ≫= dc_socket r), Done)
  | _ => None
  end.

Definition thread_step `{MapOrder} (r : ConnectionManager) (t : Z) (p : pc) : option (ConnectionManager * pc) :=
  match p with
  | AddCall _ _ _ | AddObserve | AddLock _ | AddCheck _ | AddReplace _ _ _ | AddNotify _ _ | AddReturn _ =>
    TryAddDaemonVersioned r t p
  | RemCall _ _ | RemLock _ _ | RemCheck _ _ | RemUnlock _ _ | RemNotify _ => RemoveDaemon r t p
  | FrameCall _ | FrameCheck _ | FrameEffect _ | FrameReturn _ => handle_frame r t p
  | CloseCall | CloseEach _ _ | CloseSockets _ => Close r t p
  | Done => None
  end.

(** ** The system: threads over one manager *)

Record world : Type := mkWorld { reg : ConnectionManager; threads : gmap Z pc }.

Inductive action : Type := Spawn (t : Z) (p : pc) | Run (t : Z).

Definition act `{MapOrder} (w : world) (a : action) : option world :=
  match a with
  | Spawn t p =>
    match threads w !! t with
    | Some _ => None
    | None => if is_call p then Some (mkWorld (reg w) (<[t := p]> (threads w))) else None
    end
  | Run t =>
    p ← threads w !! t; '(r', p') ← thread_step (reg w) t p; Some (mkWorld r' (<[t := p']> (threads w)))
  end.

Fixpoint run `{MapOrder} (w : world) (l : list action) : option world :=
  match l with [] => Some w | a :: l' => w' ← act w a; run w' l' end.

Definition sys_step `{MapOrder} (w w' : world) : Prop := exists a, act w a = Some w'.

Definition initial (policy : DuplicateDaemonPolicy) : world :=
  mkWorld (NewConnectionManagerWithPolicy policy) ∅.

End Daemons.

Module Outbound.

(** ** The queue in front of one phone socket

    A frame is its bytes. [stateMu] is explicit: [close] holds it while it
    drains the queue, and the writer can still receive from the channel
    meanwhile. *)

Definition phoneOutboundQueueSize : nat := 64.
Definition maxPhoneOutboundBytes : Z := 8388608.

Record phoneOutbound : Type := mkOutbound {
  queue : list string;
  closed : bool;
  reservedBytes : Z
}.

Definition newPhoneOutbound : phoneOutbound := mkOutbound [] false 0.

Definition releaseBytesLocked (out : phoneOutbound) (frameBytes : Z) : phoneOutbound :=
  if frameBytes <=? 0 then out
  else if reservedBytes out <=? frameBytes then mkOutbound (queue out) (closed out) 0
  else mkOutbound (queue out) (closed out) (reservedBytes out - frameBytes).

(** [close] sets the flag, then drains one frame at a time. *)
Definition close_begin (out : phoneOutbound) : phoneOutbound := mkOutbound (queue out) true (reservedBytes out).

Definition close_drain (out : phoneOutbound) : phoneOutbound :=
  match queue out with
  | data :: q => releaseBytesLocked (mkOutbound q (closed out) (reservedBytes out)) (len data)
  | [] => out
  end.

Fixpoint drain_loop (fuel : nat) (out : phoneOutbound) : phoneOutbound :=
  match fuel with O => out | S n => drain_loop n (close_drain out) end.

(** [close] when no writer interferes; the queue is as long as the loop. *)
Definition close (out : phoneOutbound) : phoneOutbound :=
  if closed out then out else drain_loop (length (queue out)) (close_begin out).

Definition enqueuePhone (out : phoneOutbound) (data : string) : bool * phoneOutbound :=
  let frameBytes := len data in
  if maxPhoneOutboundBytes <? frameBytes then (false, out)
  else if closed out then (false, out)
  else if maxPhoneOutboundBytes - reservedBytes out <? frameBytes then (false, out)
  else
    let out' := mkOutbound (queue out) (closed out) (reservedBytes out + frameBytes) in
    if bool_decide (length (queue out) < phoneOutboundQueueSize)%nat
    then (true, mkOutbound (queue out ++ [data]) (closed out) (reservedBytes out'))
    else (false, releaseBytesLocked out' frameBytes).

(** Where [phoneWriter] is: waiting, holding a frame it received, writing it,
    about to drop the phone after a failed write, gone. *)
Inductive writer : Type := WIdle | WGot (data : string) | WWriting (data : string) | WDropping | WStopped.

Record channel : Type := mkChannel {
  out : phoneOutbound;
  closing : bool;              (** [close] holds [stateMu] *)
  pc : writer;
  accepted : list string;      (** frames [enqueuePhone] took *)
  written : list string        (** frames given to the socket *)
}.

Definition new_channel : channel := mkChannel newPhoneOutbound false WIdle [] [].

Inductive move : Type :=
  | Enqueue (data : string)
  | CloseBegin | CloseDrain | CloseEnd
  | Receive | Notice | WriteDone (err : bool) | Drop | SeeDone.

(** [None]: the move is not possible now. *)
Definition channel_step (s : channel) (m : move) : option channel :=
  match m with
  | Enqueue data =>
    if closing s then None
    else let '(ok, o) := enqueuePhone (out s) data in
         Some (mkChannel o false (pc s) (if ok then accepted s ++ [data] else accepted s) (written s))
  | CloseBegin =>
    if closing s then None
    else Some (if closed (out s) then s
               else mkChannel (close_begin (out s)) true (pc s) (accepted s) (written s))
  | CloseDrain =>
    match closing s, queue (out s) with
    | true, _ :: _ => Some (mkChannel (close_drain (out s)) true (pc s) (accepted s) (written s))
    | _, _ => None
    end
  | CloseEnd =>
    match closing s, queue (out s) with
    | true, [] => Some (mkChannel (out s) false (pc s) (accepted s) (written s))
    | _, _ => None
    end
  | Receive =>
    match pc s, queue (out s) with
    | WIdle, data :: q =>
      Some (mkChannel (mkOutbound q (closed (out s)) (reservedBytes (out s))) (closing s) (WGot data)
              (accepted s) (written s))
    | _, _ => None
    end
  | Notice =>
    match pc s with
    | WGot data =>
      if closing s then None
      else if closed (out s)
      then Some (mkChannel (releaseBytesLocked (out s) (len data)) false WStopped (accepted s) (written s))
      else Some (mkChannel (out s) false (WWriting data) (accepted s) (written s))
    | _ => None
    end
  | WriteDone err =>
    match pc s with
    | WWriting data =>
      if closing s then None
      else Some (mkChannel (releaseBytesLocked (out s) (len data)) false (if err then WDropping else WIdle)
                   (accepted s) (written s ++ [data]))
    | _ => None
    end
  | Drop =>
    match pc s with
    | WDropping =>
      if closing s then None
      else Some (mkChannel (close (out s)) false WStopped (accepted s) (written s))
    | _ => None
    end
  | SeeDone =>
    match pc s with
    | WIdle => if closed (out s) then Some (mkChannel (out s) (closing s) WStopped (accepted s) (written s)) else None
    | _ => None
    end
  end.

Definition channel_steps (s s' : channel) : Prop := exists m, channel_step s m = Some s'.

Definition in_flight (w : writer) : list string :=
  match w with WGot data | WWriting data => [data] | _ => [] end.

Definition bytes (l : list string) : Z := foldr (fun d n => len d + n) 0 l.

End Outbound.

Module Phones.
Import Outbound.

(** ** Subscriptions

    Sockets are numbers; [sockets] records the ones the manager closed. *)

Definition maxPhoneConnsPerDevice : nat := 8.

Record phonePrincipal : Type := mkPrincipal { PhoneID : string; AdminBypass : bool }.

Record manager : Type := mkManager {
  phoneConns : gmap string (list Z);
  phoneOutbounds : gmap Z phoneOutbound;
  phonePrincipals : gmap Z phonePrincipal;
  sockets_closed : list Z
}.

Definition empty_manager : manager := mkManager ∅ ∅ ∅ [].

(** [cm.phoneConns[id]]: a missing entry reads as an empty slice. *)
Definition conns_of (cm : manager) (id : string) : list Z := default [] (phoneConns cm !! id).

Definition withoutPhoneConn (conns : list Z) (target : Z) : list Z :=
  List.filter (fun conn => negb (conn =? target)) conns.

(** [if len(filtered) == 0 { delete } else { assign }]. *)
Definition set_conns (m : gmap string (list Z)) (id : string) (l : list Z) : gmap string (list Z) :=
  match l with [] => delete id m | _ => <[id := l]> m end.

(** [for id, conns := range cm.phoneConns { filter }]. *)
Definition without_everywhere (m : gmap string (list Z)) (conn : Z) : gmap string (list Z) :=
  omap (fun conns => match withoutPhoneConn conns conn with [] => None | l => Some l end) m.

Definition phoneStillSubscribedLocked (m : gmap string (list Z)) (conn : Z) : bool :=
  existsb (fun kv => existsb (fun c => c =? conn) kv.2) (map_to_list m).

(** One turn of the eviction loop, and the loop: the list gets shorter. *)
Definition evict_oldest (cm : manager) (deviceID : string) (oldest : Z) (rest : list Z) : manager :=
  let m := set_conns (phoneConns cm) deviceID rest in
  if phoneStillSubscribedLocked m oldest
  then mkManager m (phoneOutbounds cm) (phonePrincipals cm) (sockets_closed cm ++ [oldest])
  else mkManager m (delete oldest (phoneOutbounds cm)) (delete oldest (phonePrincipals cm)) (sockets_closed cm ++ [oldest]).

Fixpoint evict_loop (fuel : nat) (cm : manager) (deviceID : string) : manager :=
  match fuel, conns_of cm deviceID with
  | S n, oldest :: rest =>
    if bool_decide (maxPhoneConnsPerDevice < length (oldest :: rest))%nat
    then evict_loop n (evict_oldest cm deviceID oldest rest) deviceID
    else cm
  | _, _ => cm
  end.

Definition evictExcessPhoneConnsLocked (cm : manager) (deviceID : string) : manager :=
  evict_loop (length (conns_of cm deviceID)) cm deviceID.

Definition ensure_outbound (m : gmap Z phoneOutbound) (conn : Z) : gmap Z phoneOutbound :=
  match m !! conn with Some _ => m | None => <[conn := newPhoneOutbound]> m end.

Definition AddPhoneAuthenticated (cm : manager) (deviceID : string) (conn : Z) (phoneID : string) (adminBypass : bool)
  : manager :=
  evictExcessPhoneConnsLocked
    (mkManager (<[deviceID := conns_of cm deviceID ++ [conn]]> (phoneConns cm))
       (ensure_outbound (phoneOutbounds cm) conn)
       (<[conn := mkPrincipal phoneID adminBypass]> (phonePrincipals cm)) (sockets_closed cm)) deviceID.

Definition AddPhone (cm : manager) (deviceID : string) (conn : Z) : manager :=
  AddPhoneAuthenticated cm deviceID conn "" true.

Definition RemovePhone (cm : manager) (deviceID : string) (conn : Z) : manager :=
  let m := set_conns (phoneConns cm) deviceID (withoutPhoneConn (conns_of cm deviceID) conn) in
  if phoneStillSubscribedLocked m conn
  then mkManager m (phoneOutbounds cm) (phonePrincipals cm) (sockets_closed cm)
  else mkManager m (delete conn (phoneOutbounds cm)) (delete conn (phonePrincipals cm)) (sockets_closed cm).

Definition ResubscribePhone (cm : manager) (deviceID : string) (conn : Z) : manager :=
  let m := without_everywhere (phoneConns cm) conn in
  evictExcessPhoneConnsLocked
    (mkManager (<[deviceID := default [] (m !! deviceID) ++ [conn]]> m)
       (ensure_outbound (phoneOutbounds cm) conn) (phonePrincipals cm) (sockets_closed cm)) deviceID.

Definition dropPhone (cm : manager) (conn : Z) : manager :=
  mkManager (without_everywhere (phoneConns cm) conn) (delete conn (phoneOutbounds cm))
    (delete conn (phonePrincipals cm)) (sockets_closed cm ++ [conn]).

(** The sockets [ClosePhonesByPrincipal] picks. *)
Definition principal_conns (cm : manager) (phoneID : string) : list Z :=
  (List.filter (fun kv => negb (AdminBypass kv.2) && bool_decide (PhoneID kv.2 = phoneID))
     (map_to_list (phonePrincipals cm))).*1.

Definition ClosePhonesByPrincipal (cm : manager) (phoneID : string) : Z * manager :=
  if is_empty phoneID then (0, cm)
  else let conns := principal_conns cm phoneID in (Z.of_nat (length conns), foldl dropPhone cm conns).

(** [SafeWritePhone] and [BroadcastToPhones] of the encoded frame [data]. *)
Definition SafeWritePhone (cm : manager) (conn : Z) (data : string) : manager :=
  match phoneOutbounds cm !! conn with
  | None => cm
  | Some out =>
    let '(ok, out') := enqueuePhone out data in
    if ok then mkManager (phoneConns cm) (<[conn := out']> (phoneOutbounds cm)) (phonePrincipals cm) (sockets_closed cm)
    else dropPhone cm conn
  end.

Definition BroadcastToPhones (cm : manager) (deviceID : string) (data : string) : manager :=
  foldl (fun m conn => SafeWritePhone m conn data) cm (conns_of cm deviceID).

(** What the writer of [conn] leaves when it has received a frame and written
    it without error. *)
Definition writer_wrote (cm : manager) (conn : Z) : manager :=
  match phoneOutbounds cm !! conn with
  | Some (mkOutbound (data :: q) c r) =>
    mkManager (phoneConns cm) (<[conn := releaseBytesLocked (mkOutbound q c r) (len data)]> (phoneOutbounds cm))
      (phonePrincipals cm) (sockets_closed cm)
  | _ => cm
  end.

Definition PhoneSubscriptionCounts (cm : manager) (deviceID : string) : Z * Z :=
  (Z.of_nat (length (conns_of cm deviceID)), Z.of_nat (size (phoneOutbounds cm))).

End Phones.
