(* ===== verification/RelayInput.v ===== *)
(** * What the relay makes of its input (relaycore/websocket.go, engine.go)

    The rate limiters and the functions that read, bound and sanitise what a
    phone or a daemon sends. They hold no state of their own apart from the
    rate limiter and the list of device switches. *)

From stdpp Require Import base tactics list gmap strings.
From Stdlib Require Import Ascii ZArith Lia.
From S2P Require Import Prelude GoStrings Json Protocol.

(** ** Rate limits. A time is its nanoseconds. *)

Record rateLimitEntry : Type := mkEntry { windowStart : Z; entryCount : Z }.

Record rateLimiter : Type := mkLimiter {
  requests : gmap string rateLimitEntry;
  limit : Z;
  window : Z;
  maxKeys : Z
}.

Definition newRateLimiter (limit window : Z) : rateLimiter := mkLimiter ∅ limit window 4096.

(** The sweep looks at the first 64 entries the iteration yields. *)
Definition sweep_batch : nat := 64.

Section WithOrder.
Context `{MapOrder}.

Definition sweep_expired (m : gmap string rateLimitEntry) (now window : Z) : gmap string rateLimitEntry :=
  foldl (fun m' kv => if window <=? now - windowStart kv.2 then delete kv.1 m' else m') m (take sweep_batch (range m)).

Definition oldest_entry (l : list (string * rateLimitEntry)) : option (string * rateLimitEntry) :=
  foldl (fun best kv =>
    match best with
    | None => Some kv
    | Some b => if windowStart kv.2 <? windowStart b.2 then Some kv else best
    end) None l.

Definition evict_oldest_key (m : gmap string rateLimitEntry) : gmap string rateLimitEntry :=
  match oldest_entry (range m) with
  | Some (k, _) => if is_empty k then m else delete k m
  | None => m
  end.

Definition set_requests (rl : rateLimiter) (m : gmap string rateLimitEntry) : rateLimiter :=
  mkLimiter m (limit rl) (window rl) (maxKeys rl).

Definition allow (rl : rateLimiter) (now : Z) (key : string) : bool * rateLimiter :=
  match requests rl !! key with
  | Some entry =>
    let entry := if window rl <=? now - windowStart entry then mkEntry now 0 else entry in
    if limit rl <=? entryCount entry
    then (false, set_requests rl (<[key := entry]> (requests rl)))
    else (true, set_requests rl (<[key := mkEntry (windowStart entry) (entryCount entry + 1)]> (requests rl)))
  | None =>
    let m := requests rl in
    let m :=
      if maxKeys rl <=? Z.of_nat (size m)
      then let m := sweep_expired m now (window rl) in
           if maxKeys rl <=? Z.of_nat (size m) then evict_oldest_key m else m
      else m in
    (true, set_requests rl (<[key := mkEntry now 1]> m))
  end.
End WithOrder.

Definition switchWindow : Z := 60000000000.
Definition switchLimit : nat := 6.

Definition allowDeviceSwitch (switches : list Z) (now : Z) : bool * list Z :=
  let cutoff := now - switchWindow in
  let valid := List.filter (fun changedAt => cutoff <? changedAt) switches in
  if bool_decide (switchLimit <= length valid)%nat then (false, valid) else (true, valid ++ [now]).

(** ** Strings *)

Fixpoint all_bytes (p : Z -> bool) (s : string) : bool :=
  match s with EmptyString => true | String c s' => (p (code c) && all_bytes p s')%bool end.

Definition in_range (lo hi b : Z) : bool := ((lo <=? b) && (b <=? hi))%bool.
Definition is_alnum (b : Z) : bool := (in_range 48 57 b || in_range 65 90 b || in_range 97 122 b)%bool.
Definition is_hex (b : Z) : bool := (in_range 48 57 b || in_range 97 102 b || in_range 65 70 b)%bool.

Definition stringPayload (p : option payload) (key : string) : string :=
  match p with None => "" | Some p => TrimSpace (string_or_empty (p !! key)) end.

Definition sanitizeClientMsgID (id : string) : string :=
  let id := TrimSpace id in
  if ((len id <? 4) || (80 <? len id))%bool then ""
  else if (negb (has_prefix "local_" id) && negb (has_prefix "user_" id) && negb (has_prefix "msg_" id))%bool then ""
  else if all_bytes (fun b => is_alnum b || (b =? 95) || (b =? 45))%bool id then id else "".

Definition promptClientMsgID (msg : NekoMessage) : string :=
  let clientMsgID := sanitizeClientMsgID (stringPayload (Payload msg) "client_msg_id") in
  if is_empty clientMsgID then sanitizeClientMsgID (ClientMsgID msg) else clientMsgID.

Definition reportedComponentVersion (p : option payload) (key : string) : string :=
  match p with
  | None => ""
  | Some p =>
    match as_string (p !! key) with
    | None => ""
    | Some raw =>
      let value := TrimSpace raw in
      if (is_empty value || (64 <? len value))%bool then ""
      else if all_bytes (fun b => is_alnum b || (b =? 46) || (b =? 45) || (b =? 43))%bool value then value else ""
    end
  end.

Definition subscribeRequestID (p : option payload) : string * bool :=
  match p with
  | None => ("", true)
  | Some p =>
    match p !! "subscription_id" with
    | None => ("", true)
    | Some (VString value) =>
      let value := TrimSpace value in if 128 <? len value then ("", false) else (value, true)
    | Some _ => ("", false)
    end
  end.

Definition subscribeRequestsFreshSessionCatalog (p : option payload) : bool :=
  match p with None => false | Some p => default false (as_bool (p !! "refresh_sessions")) end.

(** ** Attachments. [net/url] is a parameter: [RequestURI] of a parsed absolute
    URL, and [EscapedPath] and the query value [k] of a parsed path. *)

Class NetUrl : Type := {
  parse_RequestURI : string -> option string;
  parse_path_k : string -> option (string * string)
}.

Section WithUrl.
Context `{NetUrl}.

Definition attachment_prefix : string := "/api/attachments/".

Definition sanitizeAttachmentURL (raw : string) : string :=
  let raw := TrimSpace raw in
  if is_empty raw then ""
  else if has_prefix "//" raw then ""
  else
    let path :=
      if (has_prefix "http://" raw || has_prefix "https://" raw)%bool then parse_RequestURI raw else Some raw in
    match path with
    | None => ""
    | Some path =>
      if negb (has_prefix attachment_prefix path) then ""
      else match parse_path_k path with
           | None => ""
           | Some (escaped, k) =>
             let rest := trim_prefix escaped attachment_prefix in
             if (is_empty rest || contains rest "/" || contains rest "..")%bool then ""
             else
               let out := attachment_prefix +:+ rest in
               if is_empty k then out
               else if all_bytes is_hex k then out +:+ "?k=" +:+ k else ""
           end
    end.

(** [int64(sz)] of a [float64] on amd64. *)
Definition float_to_int64 (m e : Z) : Z :=
  let n := float_trunc m e in if ((min_int64 <=? n) && (n <=? max_int64))%bool then n else min_int64.

Definition normalize_attachment (item : value) : option (list (string * value)) :=
  match item with
  | VObject m =>
    let safe := sanitizeAttachmentURL (string_or_empty (assoc "url" m)) in
    if is_empty safe then None
    else
      let opt (key : string) :=
        let s := string_or_empty (assoc key m) in if is_empty s then [] else [(key, VString s)] in
      Some ([("url", VString safe)] ++ opt "name" ++ opt "mime" ++ opt "id" ++
            match assoc "size" m with Some (VFloat mant e) => [("size", VInt (float_to_int64 mant e))] | _ => [] end)
  | _ => None
  end.

Definition normalizeAttachments (raw : option value) : list (list (string * value)) :=
  match raw with
  | Some (VArray arr) => omap normalize_attachment (take 5 arr)
  | _ => []
  end.
End WithUrl.

(** ** History requests *)

Definition defaultLimit : Z := 50.

Definition clamp_limit (n : Z) : Z := if n <? 1 then 1 else if 500 <? n then 500 else n.

Definition historyLimit (p : option payload) : Z :=
  match p with
  | None => defaultLimit
  | Some p =>
    match p !! "limit" with
    | Some (VFloat m e) => if float_is_integral m e then clamp_limit (float_trunc m e) else defaultLimit
    | Some (VInt n) => clamp_limit n
    | _ => defaultLimit
    end
  end.

Definition truncateHistory {A} (rows : list A) (limit : Z) : list A * bool :=
  if ((limit <? 1) || (Z.of_nat (length rows) <=? limit))%bool then (rows, false)
  else (drop (length rows - Z.to_nat limit) rows, true).

(** ** Push decisions *)

Definition explicitApprovalValue (v : option value) : bool :=
  match v with
  | None | Some VNil => false
  | Some (VBool b) => b
  | Some (VString s) => negb (is_empty (TrimSpace s))
  | Some (VObject kvs) => match kvs with [] => false | _ => true end
  | Some _ => true
  end.

Definition isWaitingApprovalStatus (v : option value) : bool :=
  match v with Some (VString s) => bool_decide (TrimSpace s = "waiting_approval") | _ => false end.

Definition nested_needs_approval (is_session : bool) (nested : list (string * value)) : bool :=
  explicitApprovalValue (assoc "pending_approval" nested) ||
  explicitApprovalValue (assoc "permission_request" nested) ||
  (is_session && isWaitingApprovalStatus (assoc "status" nested)) ||
  bool_decide (string_or_empty (assoc "type" nested) = "permission_request") ||
  match assoc "metadata" nested with
  | Some (VObject metadata) =>
    explicitApprovalValue (assoc "pending_approval" metadata) ||
    explicitApprovalValue (assoc "permission_request" metadata)
  | _ => false
  end.

Definition needsApprovalPush (p : option payload) : bool :=
  match p with
  | None => false
  | Some p =>
    explicitApprovalValue (p !! "pending_approval") ||
    explicitApprovalValue (p !! "permission_request") ||
    isWaitingApprovalStatus (p !! "status") ||
    match p !! "session" with Some (VObject nested) => nested_needs_approval true nested | _ => false end ||
    match p !! "message" with Some (VObject nested) => nested_needs_approval false nested | _ => false end
  end.

(** ** Operator log labels *)

Definition knownOperatorRoute (path : string) : bool :=
  existsb (String.eqb path)
    ["/api/devices"; "/api/devices/register"; "/api/devices/sessions"; "/api/phones/bootstrap"; "/api/phones";
     "/api/phones/revoke"; "/api/messages"; "/api/attachments"; "/api/push/subscribe"; "/api/push/vapid-public-key";
     "/api/pair/generate"; "/api/pair/consume"; "/api/devices/keys"; "/api/devices/grants"; "/api/keys"; "/api/keys/upload"].

Definition requestRoute (path : string) : string :=
  if has_prefix "/api/attachments/" path then "/api/attachments/{id}"
  else if has_prefix "/static/" path then "/static/*"
  else if has_prefix "/assets/" path then "/assets/*"
  else if knownOperatorRoute path then path
  else if has_prefix "/api/" path then "api_unmatched"
  else if bool_decide (path = "/") then "/"
  else "spa_route".
