(* ===== verification/Relay.v ===== *)
(** * The relay's message handlers (relaycore/websocket.go, connections.go)

    [handlePhoneMessage] and [handleDaemonMessage] with everything they change:
    the prompt table, the message history, the attention events, the catalog
    cached for a daemon, and what is sent to the daemon and to the phones. A
    handler is a function from the relay's state to the next; an oracle of type
    [relayIO] says how each store call and each websocket write of the run ends.
    [encoding/json] is a parameter. *)

From stdpp Require Import base tactics list gmap strings.
From Stdlib Require Import Ascii ZArith Lia.
From S2P Require Import Prelude GoStrings Json PromptStore Protocol RelayInput.

(** ** Data *)

Inductive AgentType : Set :=
  | AgentClaudeCode | AgentCodex | AgentKilo | AgentKimiCLI | AgentGrokBuild | AgentZCode | AgentCursor | OtherAgent (s : string).

#[export] Instance AgentType_eq_dec : EqDecision AgentType.
Proof. solve_decision. Defined.

(** The fields the relay does not look at are one opaque value. *)
Record AgentSession : Type := mkSession {
  sessID : string;
  sessDeviceID : string;
  sessAgentType : AgentType;
  sessRest : value
}.

Record AgentStartCapability : Type := mkCapability {
  capAgentType : AgentType;
  capRest : value
}.

Record SessionMessage : Type := mkSessionMessage {
  smID : string;
  smRole : string;
  smContent : string;
  smType : string;
  smTimestamp : Z;
  smMetadata : option payload
}.

Class RelayCodec : Type := {
  marshal_attachments : list (list (string * value)) -> res string;
  unmarshal_attachments : string -> option (list (list (string * value)));
  marshal_message : NekoMessage -> res string;
  unmarshal_message : string -> option NekoMessage;
  decode_session_message : value -> option SessionMessage;
  encode_session_message : SessionMessage -> value;
  decode_sessions : value -> list (option AgentSession);
  encode_sessions : list AgentSession -> value;
  decode_capabilities : value -> option (option (list AgentStartCapability));
  encode_capabilities : list AgentStartCapability -> value;
  encode_sealed : SealedPayload -> value
}.

(** ** State *)

(** What one [DaemonConn] caches. *)
Record catalog : Type := mkCatalog {
  Sessions : gmap string AgentSession;
  AgentStartCapabilities : option (list AgentStartCapability);
  CatalogProtocolVersion : string;
  SealedCatalog : option NekoMessage
}.

Definition empty_catalog : catalog := mkCatalog ∅ None "" None.

(** The columns of [devices] that a session list updates. *)
Record deviceRow : Type := mkDevice { active_agents : Z; last_seen : Z }.

Record push : Type := mkPush { pushDevice : string; pushSession : string; pushTitle : string; pushBody : string }.

(** [to_daemon] holds the frames that reached the daemon, [to_phones] those
    given to [BroadcastToPhones], each with its device. *)
Record relay : Type := mkRelay {
  mode : TransportMode;
  commands : promptTable;
  messages : gmap (string * string * string) SessionMessage;
  attention_events : gmap (string * string) Z;
  catalogs : gmap string catalog;
  devices : gmap string deviceRow;
  to_daemon : list (string * NekoMessage);
  to_phones : list (string * NekoMessage);
  pushes : list push
}.

Definition set_commands (r : relay) (t : promptTable) : relay :=
  mkRelay (mode r) t (messages r) (attention_events r) (catalogs r) (devices r) (to_daemon r) (to_phones r) (pushes r).
Definition set_messages (r : relay) m : relay :=
  mkRelay (mode r) (commands r) m (attention_events r) (catalogs r) (devices r) (to_daemon r) (to_phones r) (pushes r).
Definition set_attention (r : relay) a : relay :=
  mkRelay (mode r) (commands r) (messages r) a (catalogs r) (devices r) (to_daemon r) (to_phones r) (pushes r).
Definition set_catalog (r : relay) (dev : string) (c : catalog) : relay :=
  mkRelay (mode r) (commands r) (messages r) (attention_events r) (<[dev := c]> (catalogs r)) (devices r) (to_daemon r) (to_phones r) (pushes r).
Definition set_devices (r : relay) d : relay :=
  mkRelay (mode r) (commands r) (messages r) (attention_events r) (catalogs r) d (to_daemon r) (to_phones r) (pushes r).
Definition deliver (r : relay) (dev : string) (m : NekoMessage) : relay :=
  mkRelay (mode r) (commands r) (messages r) (attention_events r) (catalogs r) (devices r) (to_daemon r ++ [(dev, m)]) (to_phones r) (pushes r).
Definition BroadcastToPhones (r : relay) (dev : string) (m : NekoMessage) : relay :=
  mkRelay (mode r) (commands r) (messages r) (attention_events r) (catalogs r) (devices r) (to_daemon r) (to_phones r ++ [(dev, m)]) (pushes r).
Definition sendPushNotification (r : relay) (dev session title body : string) : relay :=
  mkRelay (mode r) (commands r) (messages r) (attention_events r) (catalogs r) (devices r) (to_daemon r) (to_phones r)
    (pushes r ++ [mkPush dev session title body]).

(** How a write to the daemon ends. A write that fails may still have delivered
    the frame. *)
Inductive send_outcome : Set := SendOk | SendOffline | SendBroken (arrived : bool).
Inductive send_error : Set := ErrOffline | ErrWrite.

Record relayIO : Type := mkIO {
  now : Z;
  randomHex : Z -> option string;
  io_register : sqlio;
  io_mark : sqlio;
  io_forward : sqlio;
  io_get : sqlio;
  io_commit : sqlio;
  io_save : option string;
  io_list : option string;
  io_rows : option string;
  io_attention : option string;
  io_device : option string;
  io_send : send_outcome;
  io_commit_send : send_outcome
}.

(** No error anywhere, at [t]. *)
Definition relay_ok (t : Z) : relayIO :=
  mkIO t (fun _ => Some "00112233445566778899aabbccddeeff") sql_ok sql_ok sql_ok sql_ok sql_ok None None None None None SendOk SendOk.

Definition SendToDaemon (o : send_outcome) (dev : string) (m : NekoMessage) (r : relay) : option send_error * relay :=
  match o with
  | SendOk => (None, deliver r dev m)
  | SendOffline => (Some ErrOffline, r)
  | SendBroken arrived => (Some ErrWrite, if arrived then deliver r dev m else r)
  end.

Definition run_store {A} (m : M promptTable A) (r : relay) : res A * relay :=
  let '(x, t) := m (commands r) in (x, set_commands r t).

(** [SaveMessage] and [SaveSealedMessage] of server/internal/db/messages.go:
    insert or update in place. *)
Definition SaveMessage (err : option string) (dev session : string) (m : SessionMessage) (r : relay) : bool * relay :=
  match err with
  | Some _ => (false, r)
  | None => (true, set_messages r (<[(smID m, dev, session) := m]> (messages r)))
  end.

(** ** Envelopes *)

Definition with_payload (m : NekoMessage) (p : option payload) : NekoMessage :=
  mkMessage (ProtocolVersion m) (msgTransportMode m) (msgType m) (DeviceID m) (SessionID m) (ClientMsgID m)
    (Outcome m) (RetryAllowed m) (Timestamp m) p (msgSealedPayload m).
Definition with_device (m : NekoMessage) (dev : string) : NekoMessage :=
  mkMessage (ProtocolVersion m) (msgTransportMode m) (msgType m) dev (SessionID m) (ClientMsgID m)
    (Outcome m) (RetryAllowed m) (Timestamp m) (Payload m) (msgSealedPayload m).
Definition with_client_msg_id (m : NekoMessage) (id : string) : NekoMessage :=
  mkMessage (ProtocolVersion m) (msgTransportMode m) (msgType m) (DeviceID m) (SessionID m) id
    (Outcome m) (RetryAllowed m) (Timestamp m) (Payload m) (msgSealedPayload m).
Definition with_outcome (m : NekoMessage) (o : string) (retry : option bool) : NekoMessage :=
  mkMessage (ProtocolVersion m) (msgTransportMode m) (msgType m) (DeviceID m) (SessionID m) (ClientMsgID m)
    o retry (Timestamp m) (Payload m) (msgSealedPayload m).
Definition with_version (m : NekoMessage) (v : string) : NekoMessage :=
  mkMessage v (msgTransportMode m) (msgType m) (DeviceID m) (SessionID m) (ClientMsgID m)
    (Outcome m) (RetryAllowed m) (Timestamp m) (Payload m) (msgSealedPayload m).

(** [Server.TransportMode] and [stampEnvelope]. *)
Definition relay_mode (r : relay) : TransportMode := match mode r with NoTransport => TransportSealed | m => m end.

Definition stampEnvelope (r : relay) (m : NekoMessage) : NekoMessage :=
  let m := if is_empty (ProtocolVersion m) then with_version m CurrentProtocolVersion else m in
  if bool_decide (msgTransportMode m = NoTransport) then WithTransport m (relay_mode r) else m.

Definition obj (kvs : list (string * value)) : payload := list_to_map kvs.

Section WithCodec.
Context `{RelayCodec} `{NetUrl}.

(** ** Prompts the relay builds or reports *)

Definition promptAttachments (cmd : PromptCommand) : list (list (string * value)) :=
  if is_empty (AttachmentsJSON cmd) then [] else default [] (unmarshal_attachments (AttachmentsJSON cmd)).

Definition attachments_value (atts : list (list (string * value))) : value := VArray (VObject <$> atts).

Definition promptCommandMessage (e : relayIO) (cmd : PromptCommand) : option NekoMessage :=
  if negb (is_empty (SealedEnvelopeJSON cmd))
  then match unmarshal_message (SealedEnvelopeJSON cmd) with
       | Some sealed => if is_some_b (msgSealedPayload sealed) then Some sealed else None
       | None => None
       end
  else
    let base := obj [("prompt", VString (Prompt cmd)); ("client_msg_id", VString (PromptStore.ClientMsgID cmd))] in
    let attachments := promptAttachments cmd in
    Some (with_payload
      (NewMessageWithSession (now e) MsgSendPrompt (PromptStore.DeviceID cmd) (PromptStore.SessionID cmd))
      (Some (match attachments with [] => base | _ => <["attachments" := attachments_value attachments]> base end))).

(** The user-facing history row of an accepted prompt; [false] on error. *)
Definition user_message (cmd : PromptCommand) : SessionMessage :=
  let attachments := promptAttachments cmd in
  mkSessionMessage (PromptStore.ClientMsgID cmd) "user" (Prompt cmd) "text" (CreatedAt cmd)
    (match attachments with [] => None | _ => Some (obj [("attachments", attachments_value attachments)]) end).

Definition persistAcceptedPrompt (e : relayIO) (cmd : PromptCommand) (r : relay) : bool * relay :=
  if negb (is_empty (SealedEnvelopeJSON cmd)) then (true, r)
  else SaveMessage (io_save e) (PromptStore.DeviceID cmd) (PromptStore.SessionID cmd) (user_message cmd) r.

Definition broadcastPromptSent (e : relayIO) (cmd : PromptCommand) (r : relay) : relay :=
  if negb (is_empty (SealedEnvelopeJSON cmd)) then r
  else
    let id := PromptStore.ClientMsgID cmd in
    let ack := stampEnvelope r (NewMessageWithSession (now e) MsgPromptSent (PromptStore.DeviceID cmd) (PromptStore.SessionID cmd)) in
    BroadcastToPhones r (PromptStore.DeviceID cmd)
      (with_payload ack (Some (obj [("client_msg_id", VString id); ("message_id", VString id); ("prompt", VString (Prompt cmd));
        ("attachments", attachments_value (promptAttachments cmd))]))).

Definition promptCommittedMessage (e : relayIO) (cmd : PromptCommand) : NekoMessage :=
  with_payload
    (with_client_msg_id
       (NewMessageWithSession (now e) MsgPromptCommitted (PromptStore.DeviceID cmd) (PromptStore.SessionID cmd))
       (PromptStore.ClientMsgID cmd))
    (Some (obj [("client_msg_id", VString (PromptStore.ClientMsgID cmd))])).

(** [sendPromptCommitted] and, for a connection whose lock is held,
    [sendPromptCommittedLocked]: tell the daemon, then record it, then tell the
    phones. *)
Definition sendPromptCommitted (e : relayIO) (cmd : PromptCommand) (r : relay) : relay :=
  let committed := stampEnvelope r (promptCommittedMessage e cmd) in
  match SendToDaemon (io_commit_send e) (PromptStore.DeviceID cmd) committed r with
  | (Some _, r) => r
  | (None, r) =>
    match run_store (MarkPromptCommitted (io_commit e) (now e) (PromptStore.DeviceID cmd) (PromptStore.ClientMsgID cmd)) r with
    | (Err _, r) => r
    | (Ok _, r) => BroadcastToPhones r (PromptStore.DeviceID cmd) committed
    end
  end.

Definition broadcastPromptFailed (e : relayIO) (cmd : PromptCommand) (r : relay) : relay :=
  let message := let m := TrimSpace (Error cmd) in if is_empty m then "prompt failed" else m in
  let failed := stampEnvelope r (NewMessageWithSession (now e) MsgPromptFailed (PromptStore.DeviceID cmd) (PromptStore.SessionID cmd)) in
  let failed := with_client_msg_id failed (PromptStore.ClientMsgID cmd) in
  let retryAllowed := (PromptStore.RetryAllowed cmd && bool_decide (Status cmd = Failed))%bool in
  let failed := with_outcome failed (PromptStore.Outcome cmd) (Some retryAllowed) in
  let failed :=
    if bool_decide (relay_mode r = TransportOpen)
    then with_payload failed (Some (obj [("client_msg_id", VString (PromptStore.ClientMsgID cmd)); ("message", VString message);
           ("error", VString message); ("outcome", VString (PromptStore.Outcome cmd)); ("retry_allowed", VBool retryAllowed)]))
    else failed in
  BroadcastToPhones r (PromptStore.DeviceID cmd) failed.

Definition broadcastPromptFailure (e : relayIO) (dev session clientMsgID message : string) (r : relay) : relay :=
  broadcastPromptFailed e
    (mkCommand dev (TrimSpace clientMsgID) session "" "" "" Failed message "validation_error" false false 0 0) r.

(** ** Prompts from a phone *)

(** A command the caller does not own: reconcile, never forward again. *)
Definition status_query (e : relayIO) (cmd : PromptCommand) : NekoMessage :=
  with_payload
    (with_client_msg_id
       (NewMessageWithSession (now e) MsgPromptStatusQuery (PromptStore.DeviceID cmd) (PromptStore.SessionID cmd))
       (PromptStore.ClientMsgID cmd))
    (Some (obj [("client_msg_id", VString (PromptStore.ClientMsgID cmd))])).

Definition reconcile (e : relayIO) (dev : string) (cmd : PromptCommand) (r : relay) : relay :=
  match Status cmd with
  | Accepted =>
    match persistAcceptedPrompt e cmd r with
    | (false, r) => r
    | (true, r) => broadcastPromptSent e cmd (sendPromptCommitted e cmd r)
    end
  | Failed | Indeterminate => broadcastPromptFailed e cmd r
  | Pending => (SendToDaemon (io_send e) dev (stampEnvelope r (status_query e cmd)) r).2
  | Registered => r
  end.

(** The outcome recorded after a write to the daemon failed: only a daemon known
    to be offline allows a retry. *)
Definition forward_failure (err : send_error) : string * string * bool :=
  match err with
  | ErrOffline => ("device offline", "transport_error", true)
  | ErrWrite => ("prompt delivery outcome is indeterminate", PromptIndeterminate, false)
  end.

(** [MarkPromptFailed] and, when that fails, the same on the row in hand. *)
Definition mark_forward_failure (e : relayIO) (dev clientMsgID : string) (err : send_error) (cmd : PromptCommand) (r : relay)
  : PromptCommand * relay :=
  let '(message, outcome, retry) := forward_failure err in
  match run_store (MarkPromptFailed (io_mark e) (now e) dev clientMsgID message outcome retry) r with
  | (Ok (failed, _), r) => (failed, r)
  | (Err _, r) =>
    (mkCommand (PromptStore.DeviceID cmd) (PromptStore.ClientMsgID cmd) (PromptStore.SessionID cmd) (Prompt cmd)
       (AttachmentsJSON cmd) (SealedEnvelopeJSON cmd)
       (if bool_decide (outcome = PromptIndeterminate) then Indeterminate else Failed) message outcome retry
       (CommitSent cmd) (CreatedAt cmd) (UpdatedAt cmd), r)
  end.

Definition forward_open (e : relayIO) (dev clientMsgID : string) (msg : NekoMessage) (cmd : PromptCommand) (r : relay) : relay :=
  match SendToDaemon (io_send e) dev msg r with
  | (Some err, r) =>
    let '(failed, r) := mark_forward_failure e dev clientMsgID err cmd r in
    if bool_decide (Status failed = Accepted)
    then match persistAcceptedPrompt e failed r with
         | (true, r) => broadcastPromptSent e failed r
         | (false, r) => r
         end
    else broadcastPromptFailed e failed r
  | (None, r) => (run_store (MarkPromptForwarded (io_forward e) (now e) dev clientMsgID) r).2
  end.

Definition sent_attachments (n : Z) : string := "(sent " +:+ Itoa n +:+ " attachment(s))".

Definition handleOpenPrompt (e : relayIO) (dev : string) (msg : NekoMessage) (r : relay) : relay :=
  let p := default ∅ (Payload msg) in
  let promptText := string_or_empty (p !! "prompt") in
  let atts := normalizeAttachments (p !! "attachments") in
  let rawClientMsgID := stringPayload (Some p) "client_msg_id" in
  if (is_empty promptText && bool_decide (atts = []))%bool
  then broadcastPromptFailure e dev (SessionID msg) rawClientMsgID "empty prompt" r
  else if is_empty (SessionID msg) then broadcastPromptFailure e dev "" rawClientMsgID "session_id required" r
  else
    let '(promptText, p) :=
      if is_empty promptText
      then let t := sent_attachments (Z.of_nat (length atts)) in (t, <["prompt" := VString t]> p) else (promptText, p) in
    let p := match atts with [] => p | _ => <["attachments" := attachments_value atts]> p end in
    let clientMsgID := sanitizeClientMsgID rawClientMsgID in
    if (negb (is_empty rawClientMsgID) && is_empty clientMsgID)%bool
    then broadcastPromptFailure e dev (SessionID msg) rawClientMsgID "invalid client_msg_id" r
    else
      match (if is_empty clientMsgID then h ← randomHex e 16; Some ("msg_" +:+ h) else Some clientMsgID) with
      | None => broadcastPromptFailure e dev (SessionID msg) "" "failed to allocate prompt id" r
      | Some clientMsgID =>
        let p := <["client_msg_id" := VString clientMsgID]> p in
        let msg := with_payload (with_device msg dev) (Some p) in
        match marshal_attachments atts with
        | Err _ => broadcastPromptFailure e dev (SessionID msg) clientMsgID "invalid attachments" r
        | Ok attachmentsJSON =>
          let retryFailed := default false (as_bool (p !! "retry")) in
          let cmd := mkCommand dev clientMsgID (SessionID msg) promptText attachmentsJSON "" Registered "" "" false false 0 0 in
          match run_store (RegisterPromptCommand (io_register e) (now e) cmd retryFailed) r with
          | (Err _, r) => broadcastPromptFailure e dev (SessionID msg) clientMsgID "failed to register prompt" r
          | (Ok (RegConflict _), r) =>
            broadcastPromptFailure e dev (SessionID msg) clientMsgID "client_msg_id already used for another prompt" r
          | (Ok (RegOk cmd false), r) => reconcile e dev cmd r
          | (Ok (RegOk cmd true), r) => forward_open e dev clientMsgID msg cmd r
          end
        end
      end.

Definition reconcile_sealed (e : relayIO) (dev : string) (cmd : PromptCommand) (r : relay) : relay :=
  match Status cmd with
  | Accepted => sendPromptCommitted e cmd r
  | Failed | Indeterminate => broadcastPromptFailed e cmd r
  | Pending => (SendToDaemon (io_send e) dev (stampEnvelope r (status_query e cmd)) r).2
  | Registered => r
  end.

Definition forward_sealed (e : relayIO) (dev clientMsgID : string) (msg : NekoMessage) (cmd : PromptCommand) (r : relay) : relay :=
  match SendToDaemon (io_send e) dev msg r with
  | (Some err, r) =>
    let '(failed, r) := mark_forward_failure e dev clientMsgID err cmd r in
    if bool_decide (Status failed = Accepted) then sendPromptCommitted e failed r else broadcastPromptFailed e failed r
  | (None, r) => (run_store (MarkPromptForwarded (io_forward e) (now e) dev clientMsgID) r).2
  end.

Definition handleSealedPrompt (e : relayIO) (dev : string) (msg : NekoMessage) (r : relay) : relay :=
  if (negb (is_some_b (msgSealedPayload msg)) || is_some_b (Payload msg))%bool
  then broadcastPromptFailure e dev "" "" "invalid sealed prompt envelope" r
  else if is_empty (TrimSpace (SessionID msg))
  then broadcastPromptFailure e dev "" (ClientMsgID msg) "session_id required" r
  else
    let rawClientMsgID := TrimSpace (ClientMsgID msg) in
    let clientMsgID := sanitizeClientMsgID rawClientMsgID in
    if is_empty clientMsgID
    then broadcastPromptFailure e dev (SessionID msg) rawClientMsgID
           "valid top-level client_msg_id required for sealed prompt" r
    else
      let msg := with_client_msg_id (with_device msg dev) clientMsgID in
      match marshal_message msg with
      | Err _ => broadcastPromptFailure e dev (SessionID msg) clientMsgID "invalid sealed prompt envelope" r
      | Ok wire =>
        let cmd := mkCommand dev clientMsgID (SessionID msg) "" "[]" wire Registered "" "" false false 0 0 in
        match run_store (RegisterPromptCommand (io_register e) (now e) cmd false) r with
        | (Err _, r) => broadcastPromptFailure e dev (SessionID msg) clientMsgID "failed to register sealed prompt" r
        | (Ok (RegConflict _), r) =>
          broadcastPromptFailure e dev (SessionID msg) clientMsgID "client_msg_id already used for another prompt" r
        | (Ok (RegOk cmd false), r) => reconcile_sealed e dev cmd r
        | (Ok (RegOk cmd true), r) => forward_sealed e dev clientMsgID msg cmd r
        end
      end.

(** ** Other phone messages *)

(** [GetMessages] with a positive limit: the newest rows, oldest first. Rows of
    one timestamp come in an order SQLite leaves open; here in table order. *)
Definition session_rows (dev session : string) (r : relay) : list SessionMessage :=
  sort_by smTimestamp
    (omap (fun kv : (string * string * string) * SessionMessage =>
       let '((_, d, s), m) := kv in if (String.eqb d dev && String.eqb s session)%bool then Some m else None)
       (map_to_list (messages r))).

Definition GetMessages (dev session : string) (limit : Z) (r : relay) : list SessionMessage :=
  let rows := session_rows dev session r in
  if limit <? 1 then rows else drop (length rows - Z.to_nat limit) rows.

Definition GetMessageCount (dev session : string) (r : relay) : Z := Z.of_nat (length (session_rows dev session r)).

(** The number of rows that go, and the rows that stay. *)
Definition DeleteOldMessages (before : Z) (r : relay) : Z * relay :=
  let kept := filter (fun kv : (string * string * string) * SessionMessage => before <= smTimestamp kv.2) (messages r) in
  (Z.of_nat (size (messages r)) - Z.of_nat (size kept), set_messages r kept).

Definition DeleteSessionMessages (dev session : string) (r : relay) : relay :=
  set_messages r (filter (fun kv : (string * string * string) * SessionMessage => (kv.1.1.2, kv.1.2) <> (dev, session)) (messages r)).

(** The sessions of a device with the time of their last message, last first. *)
Definition session_times (dev : string) (r : relay) : gmap string Z :=
  map_fold (fun (k : string * string * string) (m : SessionMessage) (acc : gmap string Z) =>
    if String.eqb k.1.2 dev
    then <[k.2 := match acc !! k.2 with Some t => Z.max t (smTimestamp m) | None => smTimestamp m end]> acc else acc) ∅ (messages r).

Definition ListSessionsWithMessages (dev : string) (r : relay) : list string :=
  (sort_by (fun kv : string * Z => - kv.2) (map_to_list (session_times dev r))).*1.

Definition device_offline_error (e : relayIO) (dev session : string) (r : relay) : relay :=
  BroadcastToPhones r dev
    (with_payload (stampEnvelope r (NewMessageWithSession (now e) MsgError dev session))
       (Some (obj [("message", VString "device offline")]))).

Definition handleFetchHistory (e : relayIO) (dev : string) (msg : NekoMessage) (r : relay) : relay :=
  let p := default ∅ (Payload msg) in
  let limit := historyLimit (Some p) in
  let msg := with_payload (with_device msg dev) (Some (<["limit" := VInt limit]> p)) in
  match SendToDaemon (io_send e) dev msg r with
  | (None, r) => r
  | (Some _, r) =>
    if bool_decide (relay_mode r = TransportSealed) then device_offline_error e dev (SessionID msg) r
    else match io_rows e with
         | Some _ => device_offline_error e dev (SessionID msg) r
         | None =>
           let '(rows, truncated) := truncateHistory (GetMessages dev (SessionID msg) (limit + 1) r) limit in
           BroadcastToPhones r dev
             (with_payload (stampEnvelope r (NewMessageWithSession (now e) MsgSessionHistory dev (SessionID msg)))
                (Some (obj [("source", VString "server_db"); ("truncated", VBool truncated); ("limit", VInt limit);
                            ("messages", VArray (encode_session_message <$> rows))])))
         end
  end.

Definition threadStartRelayFailure (err : send_error) : MessageType * string :=
  match err with
  | ErrOffline => (MsgThreadFailed, "device offline")
  | ErrWrite => (MsgThreadIndeterminate, "thread start delivery outcome is indeterminate; automatic retry is disabled")
  end.

Definition thread_state_text (t : MessageType) : string :=
  match t with MsgThreadFailed => "thread_failed" | _ => "thread_indeterminate" end.

Definition handleStartThread (e : relayIO) (dev : string) (msg : NekoMessage) (r : relay) : relay :=
  let sealedStart := is_some_b (msgSealedPayload msg) in
  let p := if sealedStart then Payload msg else Some (default ∅ (Payload msg)) in
  let opID := if sealedStart then "" else stringPayload p "operation_id" in
  let opID := if is_empty opID then sanitizeClientMsgID (ClientMsgID msg) else opID in
  let opID := if is_empty opID then match randomHex e 12 with Some id => "local_start_" +:+ id | None => opID end else opID in
  let p := if sealedStart then p else Some (<["operation_id" := VString opID]> (default ∅ p)) in
  let msg := with_client_msg_id (with_payload (with_device msg dev) p) opID in
  match SendToDaemon (io_send e) dev msg r with
  | (None, r) => r
  | (Some err, r) =>
    let '(resultType, resultText) := threadStartRelayFailure err in
    let fail := with_client_msg_id (stampEnvelope r (NewMessage (now e) resultType dev)) opID in
    let fail :=
      if sealedStart then fail
      else
        let base := obj [("operation_id", VString opID); ("state", VString (thread_state_text resultType));
                         ("error", VString resultText); ("message", VString resultText); ("reason", VString resultText)] in
        let agentType := stringPayload p "agent_type" in
        with_payload fail (Some (if is_empty agentType then base else <["agent_type" := VString agentType]> base)) in
    BroadcastToPhones r dev fail
  end.

Definition handlePhoneMessage (e : relayIO) (dev : string) (msg : NekoMessage) (r : relay) : relay :=
  match msgType msg with
  | MsgFetchHistory => handleFetchHistory e dev msg r
  | MsgSendPrompt =>
    if is_some_b (msgSealedPayload msg) then handleSealedPrompt e dev (with_device msg dev) r
    else handleOpenPrompt e dev msg r
  | MsgApprove | MsgDeny | MsgRespondUserInput | MsgCancelPrompt | MsgResumePromptQueue | MsgSkipPromptQueueItem
  | MsgInterrupt | MsgSteer =>
    match SendToDaemon (io_send e) dev (with_device msg dev) r with
    | (None, r) => r
    | (Some _, r) => device_offline_error e dev (SessionID msg) r
    end
  | MsgStartThread => handleStartThread e dev msg r
  | _ => r
  end.

(** ** The catalog a daemon reports *)

Definition known_agent (a : AgentType) : bool :=
  match a with
  | AgentClaudeCode | AgentCodex | AgentKimiCLI | AgentGrokBuild | AgentCursor => true
  | AgentKilo | AgentZCode | OtherAgent _ => false
  end.

Fixpoint clean_capabilities (seen : list AgentType) (l : list AgentStartCapability) : list AgentStartCapability :=
  match l with
  | [] => []
  | c :: l' =>
    if (negb (known_agent (capAgentType c)) || bool_decide (capAgentType c ∈ seen))%bool
    then clean_capabilities seen l'
    else c :: clean_capabilities (capAgentType c :: seen) l'
  end.

Definition cleanAgentStartCapabilities (l : option (list AgentStartCapability)) : option (list AgentStartCapability) :=
  clean_capabilities [] <$> l.

Definition clean_session (s : option AgentSession) : option AgentSession :=
  match s with
  | Some s => if (is_empty (sessID s) || bool_decide (sessAgentType s = AgentKilo))%bool then None else Some s
  | None => None
  end.

Definition updateSessionListFromLocked (e : relayIO) (dev : string) (sessions : list (option AgentSession))
    (capabilities : option (list AgentStartCapability)) (producerVersion : string) (r : relay) : relay :=
  let clean := omap clean_session sessions in
  let caps := cleanAgentStartCapabilities capabilities in
  let version := if is_ok (ParseProtocolVersion producerVersion) then producerVersion else "" in
  let old := default empty_catalog (catalogs r !! dev) in
  let r := set_catalog r dev
    (mkCatalog (foldl (fun m s => <[sessID s := s]> m) ∅ clean) caps version (SealedCatalog old)) in
  let base := obj [("sessions", encode_sessions clean)] in
  BroadcastToPhones r dev
    (with_payload (with_version (NewMessage (now e) MsgSessionList dev) version)
       (Some (match caps with Some l => <["start_capabilities" := encode_capabilities l]> base | None => base end))).

Definition cloneOpaqueMessage (m : NekoMessage) : NekoMessage := with_payload m None.

Definition updateSealedCatalogFromLocked (dev : string) (msg : NekoMessage) (r : relay) : relay :=
  if negb (is_some_b (msgSealedPayload msg)) then r
  else
    let clone := with_device (cloneOpaqueMessage msg) dev in
    let old := default empty_catalog (catalogs r !! dev) in
    BroadcastToPhones
      (set_catalog r dev (mkCatalog (Sessions old) (AgentStartCapabilities old) (CatalogProtocolVersion old) (Some clone)))
      dev clone.

(** [start_capabilities], or the older key; a value that is present but does
    not decode to a list counts as an empty catalog. *)
Definition reported_capabilities (p : payload) : option (list AgentStartCapability) :=
  let found := match p !! "start_capabilities" with Some v => Some v | None => p !! "agent_start_capabilities" end in
  v ← found;
  match decode_capabilities v with
  | Some (Some l) => Some l
  | _ => Some []
  end.

Definition stamp_session (dev : string) (s : option AgentSession) : option AgentSession :=
  s ← s; Some (mkSession (sessID s) dev (sessAgentType s) (sessRest s)).

(** [UpdateDeviceSessions] of server/internal/db/db.go; its error is ignored. *)
Definition UpdateDeviceSessions (err : option string) (now : Z) (dev : string) (count : Z) (r : relay) : relay :=
  match err with
  | Some _ => r
  | None => set_devices r (alter (fun _ => mkDevice count now) dev (devices r))
  end.

Definition handleSessionList (e : relayIO) (dev : string) (msg : NekoMessage) (r : relay) : relay :=
  if is_some_b (msgSealedPayload msg) then updateSealedCatalogFromLocked dev msg r
  else
    let p := default ∅ (Payload msg) in
    match p !! "sessions" with
    | None => r
    | Some sessionsData =>
      let sessions := stamp_session dev <$> decode_sessions sessionsData in
      UpdateDeviceSessions (io_device e) (now e) dev (Z.of_nat (length (List.filter is_some_b sessions)))
        (updateSessionListFromLocked e dev sessions (reported_capabilities p) (ProtocolVersion msg) r)
    end.

(** ** Attention events (server/internal/db/db.go) *)

Definition attentionEventTTL : Z := 86400.

Definition AcceptAttentionEvent (err : option string) (dev eventID : string) (now : Z) (r : relay) : bool * relay :=
  if (is_empty (TrimSpace dev) || is_empty (TrimSpace eventID))%bool then (false, r)
  else match err with
       | Some _ => (false, r)
       | None =>
         let fresh := filter (fun kv : (string * string) * Z => now - attentionEventTTL <= kv.2) (attention_events r) in
         match fresh !! (dev, eventID) with
         | Some _ => (false, set_attention r fresh)
         | None => (true, set_attention r (<[(dev, eventID) := now]> fresh))
         end
       end.

Definition acceptAttentionEvent (e : relayIO) (dev : string) (msg : NekoMessage) (r : relay) : bool * relay :=
  match Payload msg with
  | None => (false, r)
  | Some p =>
    let eventID := TrimSpace (stringPayload (Some p) "event_id") in
    if (is_empty eventID || (256 <? len eventID))%bool then (false, r)
    else AcceptAttentionEvent (io_attention e) dev eventID (now e) r
  end.

(** ** Prompt outcomes from a daemon *)

Definition handlePromptNotSeen (e : relayIO) (dev : string) (msg : NekoMessage) (r : relay) : relay :=
  let clientMsgID := promptClientMsgID msg in
  if is_empty clientMsgID then r
  else match run_store (GetPromptCommand (io_get e) Select1 dev clientMsgID) r with
       | (Err _, r) => r
       | (Ok cmd, r) =>
         if negb (bool_decide (Status cmd = Pending)) then r
         else match promptCommandMessage e cmd with
              | None => r
              | Some retry => (SendToDaemon (io_send e) dev (stampEnvelope r retry) r).2
              end
       end.

Definition handlePromptAccepted (e : relayIO) (dev : string) (msg : NekoMessage) (r : relay) : relay :=
  let clientMsgID := promptClientMsgID msg in
  if is_empty clientMsgID then r
  else if match Payload msg with Some p => default false (as_bool (p !! "queued")) | None => false end
  then BroadcastToPhones r dev msg
  else match run_store (MarkPromptAccepted (io_mark e) (now e) dev clientMsgID) r with
       | (Err _, r) => r
       | (Ok (cmd, _), r) =>
         if negb (bool_decide (Status cmd = Accepted)) then r
         else match persistAcceptedPrompt e cmd r with
              | (false, r) => r
              | (true, r) => broadcastPromptSent e cmd (sendPromptCommitted e cmd r)
              end
       end.

(** What a [prompt_failed] frame reports: failure text, outcome, retry. *)
Definition failure_report (msg : NekoMessage) : string * string * bool :=
  let nonblank (v : option value) := s ← as_string v; if is_empty (TrimSpace s) then None else Some (TrimSpace s) in
  let outer := TrimSpace (Outcome msg) in
  let outcome := if is_empty outer then prompt_status_text Failed else outer in
  let retry := if is_empty outer then true else default true (RetryAllowed msg) in
  let '(failure, outcome, retry) :=
    match Payload msg with
    | None => ("daemon rejected prompt", outcome, retry)
    | Some p =>
      (match nonblank (p !! "error") with
       | Some s => s
       | None => default "daemon rejected prompt" (nonblank (p !! "message"))
       end,
       default outcome (nonblank (p !! "outcome")),
       default retry (as_bool (p !! "retry_allowed")))
    end in
  (failure, outcome, if bool_decide (outcome = PromptIndeterminate) then false else retry).

Definition handlePromptFailed (e : relayIO) (dev : string) (msg : NekoMessage) (r : relay) : relay :=
  let clientMsgID := promptClientMsgID msg in
  if is_empty clientMsgID then r
  else
    let '(failure, outcome, retry) := failure_report msg in
    match run_store (MarkPromptFailed (io_mark e) (now e) dev clientMsgID failure outcome retry) r with
    | (Err _, r) => r
    | (Ok (cmd, _), r) =>
      if (bool_decide (Status cmd = Failed) || bool_decide (Status cmd = Indeterminate))%bool
      then if is_some_b (msgSealedPayload msg) then BroadcastToPhones r dev msg else broadcastPromptFailed e cmd r
      else r
    end.

(** ** Messages and history from a daemon *)

Definition sealed_message_id (msg : NekoMessage) (sp : SealedPayload) : string :=
  if is_empty (ClientMsgID msg)
  then "sealed_" +:+ Itoa (Timestamp msg) +:+ "_" +:+ Itoa (Sequence sp) else ClientMsgID msg.

(** [SaveSealedMessage]: a new row carries no text; an existing one keeps its
    columns but for timestamp and metadata. *)
Definition SaveSealedMessage (err : option string) (dev session : string) (msg : NekoMessage) (r : relay) : relay :=
  match msgSealedPayload msg with
  | None => r
  | Some sp =>
    let id := sealed_message_id msg sp in
    let meta := Some (obj [("sealed", VBool true); ("sealed_payload", encode_sealed sp);
                           ("protocol_version", VString (ProtocolVersion msg));
                           ("transport_mode", VString (transport_text (msgTransportMode msg)))]) in
    let row := match messages r !! (id, dev, session) with
               | Some m => mkSessionMessage (smID m) (smRole m) (smContent m) (smType m) (Timestamp msg) meta
               | None => mkSessionMessage id "assistant" "" "sealed" (Timestamp msg) meta
               end in
    (SaveMessage err dev session row r).2
  end.

Definition save_history (e : relayIO) (dev session : string) (items : list value) (r : relay) : relay :=
  foldl (fun r item =>
    match decode_session_message item with
    | None => r
    | Some sm =>
      if is_empty (smID sm) then r
      else let sm := if is_empty (smType sm)
                     then mkSessionMessage (smID sm) (smRole sm) (smContent sm) "text" (smTimestamp sm) (smMetadata sm) else sm in
           (SaveMessage (io_save e) dev session sm r).2
    end) r items.

Definition handleSessionMessage (e : relayIO) (dev : string) (msg : NekoMessage) (r : relay) : relay :=
  let r :=
    if is_some_b (msgSealedPayload msg) then SaveSealedMessage (io_save e) dev (SessionID msg) msg r
    else match Payload msg with
         | Some p =>
           match (v ← p !! "message"; decode_session_message v) with
           | Some sm => (SaveMessage (io_save e) dev (SessionID msg) sm r).2
           | None => r
           end
         | None => r
         end in
  let r := BroadcastToPhones r dev msg in
  if (negb (is_some_b (msgSealedPayload msg)) && needsApprovalPush (Payload msg))%bool
  then sendPushNotification r dev (SessionID msg) "⚠️ 操作需要审批" "点击查看详情" else r.

Definition handleSessionHistory (e : relayIO) (dev : string) (msg : NekoMessage) (r : relay) : relay :=
  if is_some_b (msgSealedPayload msg) then BroadcastToPhones r dev msg
  else
    let r := match (p ← Payload msg; p !! "messages") with
             | Some (VArray items) => save_history e dev (SessionID msg) items r
             | _ => r
             end in
    BroadcastToPhones r dev msg.

(** [handleDaemonMessage] of a live connection of [dev]: the connection, not
    the frame, names the device. *)
Definition handleDaemonMessage (e : relayIO) (dev : string) (msg : NekoMessage) (r : relay) : relay :=
  let msg := with_device msg dev in
  match msgType msg with
  | MsgSessionList => handleSessionList e dev msg r
  | MsgSessionUpdate =>
    let r := BroadcastToPhones r dev msg in
    if (negb (is_some_b (msgSealedPayload msg)) && needsApprovalPush (Payload msg))%bool
    then sendPushNotification r dev (SessionID msg) "有会话需要处理" "打开 NekoNest 查看" else r
  | MsgAttentionEvent =>
    match acceptAttentionEvent e dev msg r with
    | (false, r) => r
    | (true, r) => sendPushNotification (BroadcastToPhones r dev msg) dev (SessionID msg) "NekoNest" "有一个会话需要处理"
    end
  | MsgSessionMessage => handleSessionMessage e dev msg r
  | MsgPromptQueued | MsgUserInputResult | MsgQueueUpdate | MsgPromptCancelled => BroadcastToPhones r dev msg
  | MsgSessionHistory => handleSessionHistory e dev msg r
  | MsgPromptNotSeen => handlePromptNotSeen e dev msg r
  | MsgPromptAccepted => handlePromptAccepted e dev msg r
  | MsgPromptFailed => handlePromptFailed e dev msg r
  | MsgError | MsgThreadStarting | MsgThreadOwned | MsgThreadFailed | MsgThreadIndeterminate | MsgKeyPackage | MsgPairReady =>
    BroadcastToPhones r dev msg
  | _ => r
  end.

(** ** Replay of commits when a daemon connects

    [io n] is the oracle of the [n]-th store and send of the loop. The outer
    loop runs until the list of a round is empty; every round marks its rows, so
    [fuel] rounds suffice when there are fewer uncommitted rows. *)

Fixpoint replay_round (io : nat -> relayIO) (n : nat) (cmds : list PromptCommand) (r : relay) : option nat * relay :=
  match cmds with
  | [] => (Some n, r)
  | cmd :: cmds' =>
    let e := io n in
    match persistAcceptedPrompt e cmd r with
    | (false, r) => (None, r)
    | (true, r) =>
      match SendToDaemon (io_commit_send e) (PromptStore.DeviceID cmd) (stampEnvelope r (promptCommittedMessage e cmd)) r with
      | (Some _, r) => (None, r)
      | (None, r) =>
        match run_store (MarkPromptCommitted (io_commit e) (now e) (PromptStore.DeviceID cmd) (PromptStore.ClientMsgID cmd)) r with
        | (Err _, r) => (None, r)
        | (Ok _, r) => replay_round io (S n) cmds' r
        end
      end
    end
  end.

Fixpoint replayPromptCommits (fuel : nat) (io : nat -> relayIO) (n : nat) (dev : string) (r : relay) : relay :=
  match fuel with
  | O => r
  | S fuel =>
    match io_list (io n) with
    | Some _ => r
    | None =>
      match ListUncommittedAcceptedPrompts (commands r) dev 100 with
      | [] => r
      | cmds =>
        match replay_round io n cmds r with
        | (Some n', r) => replayPromptCommits fuel io n' dev r
        | (None, r) => r
        end
      end
    end
  end.

End WithCodec.
