(* ===== verification/AccessStore.v ===== *)
(** * Devices, phones, pairing and grants in the database (server/internal/db)

    The tables behind authentication and authorisation and the methods of
    db.go, phone.go and push.go on them. A method is a program ([prog]) whose
    steps are the SQL statements, transactions, clock readings and random bytes
    it asks for; [perform] gives each statement its effect on the tables. So
    the methods of concurrent requests interleave statement by statement.
    Programs of the relay's handlers are in the same type: the calls they make
    besides the database are here too. *)

From stdpp Require Import base tactics list gmap strings.
From Stdlib Require Import Ascii ZArith Lia.
From S2P Require Import Prelude GoStrings Sha256.
From S2P Require Protocol Connections Relay.

(** ** Rows *)

Record deviceRow : Type := mkDeviceRow {
  devName : string;
  devOS : string;
  devTokenHash : string;
  devCreatedAt : Z;
  devLastSeen : Z;
  devActiveAgents : Z;
  devEd25519 : string;
  devX25519 : string;
  devFingerprint : string
}.

Record pairRow : Type := mkPairRow { pairDevice : string; pairExpiresAt : Z; pairUsed : bool }.

Record phoneRow : Type := mkPhoneRow {
  phName : string;
  phTokenHash : string;
  phEd25519 : string;
  phX25519 : string;
  phCreatedAt : Z;
  phLastSeen : Z;
  phRevokedAt : Z
}.

Record grantRow : Type := mkGrantRow { grPairedAt : Z; grRevokedAt : Z }.

(** Keys: phone, device, scope, session, epoch. *)
Abbreviation packageKey := (string * string * string * string * Z)%type.
Record packageRow : Type := mkPackageRow { kpWrappedKey : string; kpNonce : string; kpCreatedAt : Z }.

(** Keys: endpoint, device. *)
Record pushRow : Type := mkPushRow {
  psID : Z; psPhoneID : string; psP256DH : string; psAuth : string; psCreatedAt : Z
}.

Record tables : Type := mkTables {
  devices : gmap string deviceRow;
  pair_codes : gmap string pairRow;
  phone_identities : gmap string phoneRow;
  phone_device_grants : gmap (string * string) grantRow;
  key_packages : gmap packageKey packageRow;
  push_subscriptions : gmap (string * string) pushRow
}.

Definition empty_tables : tables := mkTables ∅ ∅ ∅ ∅ ∅ ∅.

Definition set_devices (t : tables) x : tables :=
  mkTables x (pair_codes t) (phone_identities t) (phone_device_grants t) (key_packages t) (push_subscriptions t).
Definition set_pair_codes (t : tables) x : tables :=
  mkTables (devices t) x (phone_identities t) (phone_device_grants t) (key_packages t) (push_subscriptions t).
Definition set_phones (t : tables) x : tables :=
  mkTables (devices t) (pair_codes t) x (phone_device_grants t) (key_packages t) (push_subscriptions t).
Definition set_grants (t : tables) x : tables :=
  mkTables (devices t) (pair_codes t) (phone_identities t) x (key_packages t) (push_subscriptions t).
Definition set_packages (t : tables) x : tables :=
  mkTables (devices t) (pair_codes t) (phone_identities t) (phone_device_grants t) x (push_subscriptions t).
Definition set_pushes (t : tables) x : tables :=
  mkTables (devices t) (pair_codes t) (phone_identities t) (phone_device_grants t) (key_packages t) x.

(** The order in which SQLite returns rows that ORDER BY leaves open. *)
Class RowOrder : Type := {
  scan : forall {K A : Type} {HD : EqDecision K} {HC : Countable K}, gmap K A -> list (K * A);
  scan_perm : forall {K A : Type} {HD : EqDecision K} {HC : Countable K} (m : gmap K A), scan m ≡ₚ map_to_list m
}.

(** ** Errors (relaycore/store/store.go, phone.go) *)

Inductive dberr : Set :=
  | ErrPhoneNotFound | ErrPhoneRevoked | ErrPhoneTokenInvalid | ErrGrantNotFound
  | ErrNoRows | ErrText (text : string).

Definition error_text (e : dberr) : string :=
  match e with
  | ErrPhoneNotFound => "phone not found"
  | ErrPhoneRevoked => "phone revoked"
  | ErrPhoneTokenInvalid => "invalid phone token"
  | ErrGrantNotFound => "device grant not found"
  | ErrNoRows => "sql: no rows in result set"
  | ErrText text => text
  end.

(** A value or an error. *)
Abbreviation dres A := (dberr + A)%type.

(** An Exec: its error, or what RowsAffected says (non-zero, or an error). *)
Abbreviation exec_result := (dres (dres bool)).

Definition affected (n : dres bool) : bool := match n with inr b => b | inl _ => false end.

Record PhoneAuth : Type := mkPhoneAuth { PhoneID : string; authName : string; AdminBypass : bool }.

Record PhoneGrant : Type := mkPhoneGrant {
  grantPhoneID : string; grantDeviceID : string; grantEd25519 : string; grantX25519 : string; grantPairedAt : Z
}.

Record PushSubscription : Type := mkPushSubscription {
  subID : Z; subDeviceID : string; subPhoneID : string; subEndpoint : string; subP256DH : string; subAuth : string
}.

Record keyPackage : Type := mkKeyPackage {
  pkgPhoneID : string; pkgDeviceID : string; pkgScope : string; pkgSessionID : string; pkgEpoch : Z;
  pkgWrappedKey : string; pkgNonce : string; pkgCreatedAt : Z
}.

(** ** Statements

    The effect of each SQL statement on the tables. An INSERT that violates a
    key is [None]. *)

Definition stmt_insert_device (id name os hash : string) (now : Z) (t : tables) : option tables :=
  match devices t !! id with
  | Some _ => None
  | None => Some (set_devices t (<[id := mkDeviceRow name os hash now now 0 "" "" ""]> (devices t)))
  end.

Definition stmt_update_device_keys (id ed x fp : string) (t : tables) : bool * tables :=
  match devices t !! id with
  | None => (false, t)
  | Some d => (true, set_devices t (<[id := mkDeviceRow (devName d) (devOS d) (devTokenHash d) (devCreatedAt d)
                (devLastSeen d) (devActiveAgents d) ed x fp]> (devices t)))
  end.

Definition stmt_update_last_seen (id : string) (now : Z) (t : tables) : tables :=
  match devices t !! id with
  | None => t
  | Some d => set_devices t (<[id := mkDeviceRow (devName d) (devOS d) (devTokenHash d) (devCreatedAt d)
                now (devActiveAgents d) (devEd25519 d) (devX25519 d) (devFingerprint d)]> (devices t))
  end.

Definition stmt_count_devices (id hash : string) (t : tables) : Z :=
  match devices t !! id with
  | Some d => if bool_decide (devTokenHash d = hash) then 1 else 0
  | None => 0
  end.

Definition stmt_insert_pair_code (code device : string) (expires : Z) (t : tables) : option tables :=
  match pair_codes t !! code with
  | Some _ => None
  | None => Some (set_pair_codes t (<[code := mkPairRow device expires false]> (pair_codes t)))
  end.

Definition stmt_use_pair_code (code : string) (now : Z) (t : tables) : bool * tables :=
  match pair_codes t !! code with
  | Some r =>
    if (negb (pairUsed r) && (now <=? pairExpiresAt r))%bool
    then (true, set_pair_codes t (<[code := mkPairRow (pairDevice r) (pairExpiresAt r) true]> (pair_codes t)))
    else (false, t)
  | None => (false, t)
  end.

Definition has_token_hash (t : tables) (hash : string) : option (string * phoneRow) :=
  List.find (fun kv => bool_decide (phTokenHash kv.2 = hash)) (map_to_list (phone_identities t)).

(** Both [id] and [token_hash] are unique columns. *)
Definition stmt_insert_phone (id name hash : string) (now : Z) (t : tables) : option tables :=
  match phone_identities t !! id, has_token_hash t hash with
  | None, None => Some (set_phones t (<[id := mkPhoneRow name hash "" "" now now 0]> (phone_identities t)))
  | _, _ => None
  end.

Definition with_seen (p : phoneRow) (now : Z) : phoneRow :=
  mkPhoneRow (phName p) (phTokenHash p) (phEd25519 p) (phX25519 p) (phCreatedAt p) now (phRevokedAt p).
Definition with_keys (p : phoneRow) (ed x : string) : phoneRow :=
  mkPhoneRow (phName p) (phTokenHash p) ed x (phCreatedAt p) (phLastSeen p) (phRevokedAt p).
Definition with_revoked (p : phoneRow) (now : Z) : phoneRow :=
  mkPhoneRow (phName p) (phTokenHash p) (phEd25519 p) (phX25519 p) (phCreatedAt p) (phLastSeen p) now.

(** [UPDATE phone_identities SET ... WHERE id = ? AND guard]. *)
Definition update_phone (id : string) (guard : phoneRow -> bool) (set : phoneRow -> phoneRow) (t : tables)
  : bool * tables :=
  match phone_identities t !! id with
  | Some p => if guard p then (true, set_phones t (<[id := set p]> (phone_identities t))) else (false, t)
  | None => (false, t)
  end.

Definition active_phone (p : phoneRow) : bool := phRevokedAt p =? 0.

Definition stmt_phone_seen (id : string) (now : Z) (t : tables) : tables :=
  (update_phone id (fun _ => true) (fun p => with_seen p now) t).2.

Definition stmt_update_phone_keys (id ed x : string) (t : tables) : bool * tables :=
  update_phone id active_phone (fun p => with_keys p ed x) t.

Definition stmt_upsert_grant (phone device : string) (now : Z) (t : tables) : tables :=
  set_grants t (<[(phone, device) := mkGrantRow now 0]> (phone_device_grants t)).

Definition revoke_grant_row (now : Z) (g : grantRow) : grantRow :=
  if grRevokedAt g =? 0 then mkGrantRow (grPairedAt g) now else g.

Definition stmt_revoke_grant (phone device : string) (now : Z) (t : tables) : bool * tables :=
  match phone_device_grants t !! (phone, device) with
  | Some g =>
    if grRevokedAt g =? 0
    then (true, set_grants t (<[(phone, device) := revoke_grant_row now g]> (phone_device_grants t)))
    else (false, t)
  | None => (false, t)
  end.

Definition stmt_has_grant (phone device : string) (t : tables) : bool :=
  match phone_device_grants t !! (phone, device) with Some g => grRevokedAt g =? 0 | None => false end.

Definition stmt_delete_packages (drop_row : packageKey -> bool) (t : tables) : tables :=
  set_packages t (filter (fun kv : packageKey * packageRow => drop_row kv.1 = false) (key_packages t)).

Definition stmt_delete_pushes (drop_row : string * string -> pushRow -> bool) (t : tables) : tables :=
  set_pushes t (filter (fun kv : (string * string) * pushRow => drop_row kv.1 kv.2 = false) (push_subscriptions t)).

Definition package_phone (k : packageKey) : string := k.1.1.1.1.
Definition package_device (k : packageKey) : string := k.1.1.1.2.

(** The transaction of [RevokePhone]; [unchecked] is whether the query for the
    row fails. *)
Definition tx_revoke_phone (unchecked : bool) (id : string) (now : Z) (t : tables) : dres tables :=
  match update_phone id active_phone (fun p => with_revoked p now) t with
  | (false, _) =>
    if unchecked then inl ErrPhoneNotFound
    else match phone_identities t !! id with Some _ => inr t | None => inl ErrPhoneNotFound end
  | (true, t) =>
    let t := set_grants t (map_imap (fun (k : string * string) g =>
               Some (if bool_decide (k.1 = id) then revoke_grant_row now g else g)) (phone_device_grants t)) in
    let t := stmt_delete_packages (fun k => bool_decide (package_phone k = id)) t in
    inr (stmt_delete_pushes (fun _ r => bool_decide (psPhoneID r = id)) t)
  end.

Definition stmt_upsert_package (k : packageKey) (wrapped nonce : string) (now : Z) (t : tables) : tables :=
  set_packages t (<[k := mkPackageRow wrapped nonce now]> (key_packages t)).

Definition maxPushSubscriptionsPerDevice : nat := 32.

Section Rows.
Context `{RO : RowOrder}.

Definition phone_by_hash (hash : string) (t : tables) : option (string * phoneRow) :=
  List.find (fun kv => bool_decide (phTokenHash kv.2 = hash)) (scan (phone_identities t)).

(** [ORDER BY key DESC]. *)
Definition newest_first {A} (key : A -> Z) (l : list A) : list A := reverse (sort_by key (reverse l)).

Definition rows_devices (t : tables) : list (string * deviceRow) :=
  newest_first (fun kv => devLastSeen kv.2) (scan (devices t)).

Definition rows_phones (t : tables) : list (string * phoneRow) :=
  newest_first (fun kv => phCreatedAt kv.2) (scan (phone_identities t)).

Definition rows_phone_devices (phone : string) (t : tables) : list string :=
  (fun kv : (string * string) * grantRow => kv.1.2) <$>
    newest_first (fun kv => grPairedAt kv.2)
      (List.filter (fun kv => (bool_decide (kv.1.1 = phone) && (grRevokedAt kv.2 =? 0))%bool)
         (scan (phone_device_grants t))).

(** The join with [phone_identities]: active grants of active phones. *)
Definition rows_device_grants (device : string) (t : tables) : list PhoneGrant :=
  newest_first grantPairedAt
    (omap (fun kv : (string * string) * grantRow =>
       if (bool_decide (kv.1.2 = device) && (grRevokedAt kv.2 =? 0))%bool
       then match phone_identities t !! kv.1.1 with
            | Some p => if phRevokedAt p =? 0
                        then Some (mkPhoneGrant kv.1.1 kv.1.2 (phEd25519 p) (phX25519 p) (grPairedAt kv.2))
                        else None
            | None => None
            end
       else None) (scan (phone_device_grants t))).

Definition package_of (kv : packageKey * packageRow) : keyPackage :=
  let '((phone, device, scope, session, epoch), r) := kv in
  mkKeyPackage phone device scope session epoch (kpWrappedKey r) (kpNonce r) (kpCreatedAt r).

(** [deviceID = ""] means every device. *)
Definition rows_packages (phone device : string) (t : tables) : list keyPackage :=
  newest_first pkgCreatedAt (package_of <$>
    List.filter (fun kv => (bool_decide (package_phone kv.1 = phone) &&
                            (is_empty device || bool_decide (package_device kv.1 = device)))%bool)
      (scan (key_packages t))).

Definition push_of (kv : (string * string) * pushRow) : PushSubscription :=
  mkPushSubscription (psID kv.2) kv.1.2 (psPhoneID kv.2) kv.1.1 (psP256DH kv.2) (psAuth kv.2).

Definition device_pushes (device : string) (t : tables) : list ((string * string) * pushRow) :=
  List.filter (fun kv => bool_decide (kv.1.2 = device)) (scan (push_subscriptions t)).

Definition rows_pushes (device : string) (t : tables) : list PushSubscription :=
  push_of <$> device_pushes device t.

(** The rows of a device beyond the newest 32, by creation and then by id. *)
Definition excess_pushes (device : string) (t : tables) : list Z :=
  let oldest_first := sort_by (fun kv => psCreatedAt kv.2) (sort_by (fun kv => psID kv.2) (device_pushes device t)) in
  (fun kv : (string * string) * pushRow => psID kv.2) <$>
    take (length oldest_first - maxPushSubscriptionsPerDevice) oldest_first.

(** The transaction of [SavePushSubscription]; [id] is the next free row id. *)
Definition tx_save_push (id : Z) (s : PushSubscription) (now : Z) (t : tables) : tables :=
  let k := (subEndpoint s, subDeviceID s) in
  let id := match push_subscriptions t !! k with Some r => psID r | None => id end in
  let t := set_pushes t (<[k := mkPushRow id (subPhoneID s) (subP256DH s) (subAuth s) now]> (push_subscriptions t)) in
  let excess := excess_pushes (subDeviceID s) t in
  stmt_delete_pushes (fun _ r => bool_decide (psID r ∈ excess)) t.
End Rows.

(** ** Calls

    What a program of the relay asks for: SQL, the clock, random bytes, and the
    connection manager with the frames on the websockets of phones and daemons. *)

Abbreviation NekoMessage := Protocol.NekoMessage.

(** What the relay holds of a device's daemon (relaycore/connections.go): the
    version, the session catalog and the sealed catalog. *)
Record daemon_view : Type := mkDaemonView {
  viewVersion : string;
  viewSessions : option (list Relay.AgentSession);
  viewCapabilities : option (list Relay.AgentStartCapability);
  viewProducer : string;
  viewSealed : option NekoMessage
}.

Inductive call : Type :=
  | InsertDevice (id name os hash : string) (now : Z)
  | UpdateDeviceKeys (id ed x fp : string)
  | UpdateLastSeen (id : string) (now : Z)
  | SelectDevice (id : string)
  | SelectDevices
  | CountDevices (id hash : string)
  | InsertPairCode (code device : string) (expires : Z)
  | UsePairCode (code : string) (now : Z)
  | SelectPairDevice (code : string)
  | InsertPhone (id name hash : string) (now : Z)
  | SelectPhoneByHash (hash : string)
  | UpdatePhoneSeen (id : string) (now : Z)
  | SelectPhone (id : string)
  | SelectPhones
  | UpdatePhoneKeys (id ed x : string)
  | RevokePhoneTx (id : string) (now : Z)
  | UpsertGrant (phone device : string) (now : Z)
  | RevokeGrant (phone device : string) (now : Z)
  | DeletePackages (phone device : string)
  | DeletePushes (phone device : string)
  | SelectGrant (phone device : string)
  | SelectPhoneDevices (phone : string)
  | SelectDeviceGrants (device : string)
  | UpsertPackage (k : packageKey) (wrapped nonce : string) (now : Z)
  | SelectPackages (phone device : string)
  | SavePushTx (s : PushSubscription) (now : Z)
  | SelectPushes (device : string)
  | DeletePush (endpoint : string)
  | SelectMessages (device session : string) (limit : Z)
  | ClockNow
  | RandomBytes (n : Z)
  | OnlineDevices
  | ViewDaemon (device : string)
  | SendToDaemon (device : string) (m : NekoMessage)
  | BroadcastToPhones (device : string) (m : NekoMessage)
  | ClosePhonesByPrincipal (phone : string)
  | AddPhoneAuthenticated (device : string) (conn : Z) (phone : string) (admin : bool)
  | RemovePhone (device : string) (conn : Z)
  | ResubscribePhone (device : string) (conn : Z)
  | SafeWritePhone (conn : Z) (m : NekoMessage)
  | TryAddDaemon (device : string) (conn : Z) (version : string)
  | RemoveDaemon (device : string) (conn : Z)
  | ReadFrame (conn : Z)
  | WriteFrame (conn : Z) (m : NekoMessage)
  | CloseConn (conn : Z)
  | HandlePhoneMessage (device : string) (m : NekoMessage)
  | HandleDaemonMessage (device : string) (m : NekoMessage)
  | ReplayPromptCommits (device : string).

(** A frame that was read: an error ends the connection, [inr None] is one that
    does not decode. *)
Abbreviation frame_read := (unit + option NekoMessage)%type.

Definition answer (c : call) : Type :=
  match c with
  | UpdateDeviceKeys _ _ _ _ | UsePairCode _ _ | UpdatePhoneKeys _ _ _ | RevokeGrant _ _ _ => exec_result
  | InsertDevice _ _ _ _ _ | UpdateLastSeen _ _ | InsertPairCode _ _ _ | InsertPhone _ _ _ _
  | UpdatePhoneSeen _ _ | RevokePhoneTx _ _ | UpsertGrant _ _ _ | DeletePackages _ _ | DeletePushes _ _
  | UpsertPackage _ _ _ _ | SavePushTx _ _ | DeletePush _ => dres unit
  | SelectDevice _ => dres (option deviceRow)
  | SelectDevices => dres (list (string * deviceRow))
  | CountDevices _ _ => dres Z
  | SelectPairDevice _ => dres (option string)
  | SelectPhoneByHash _ => dres (option (string * phoneRow))
  | SelectPhone _ => dres (option phoneRow)
  | SelectPhones => dres (list (string * phoneRow))
  | SelectGrant _ _ => dres bool
  | SelectPhoneDevices _ => dres (list string)
  | SelectDeviceGrants _ => dres (list PhoneGrant)
  | SelectPackages _ _ => dres (list keyPackage)
  | SelectPushes _ => dres (list PushSubscription)
  | SelectMessages _ _ _ => dres (list Relay.SessionMessage)
  | ClockNow => Z
  | RandomBytes _ => dres string
  | OnlineDevices => list string
  | ViewDaemon _ => daemon_view
  | SendToDaemon _ _ => option Relay.send_error
  | TryAddDaemon _ _ _ => bool
  | ReadFrame _ => frame_read
  | BroadcastToPhones _ _ | ClosePhonesByPrincipal _ | AddPhoneAuthenticated _ _ _ _ | RemovePhone _ _
  | ResubscribePhone _ _ | SafeWritePhone _ _ | RemoveDaemon _ _ | WriteFrame _ _ | CloseConn _
  | HandlePhoneMessage _ _ | HandleDaemonMessage _ _ | ReplayPromptCommits _ => unit
  end.

(** ** Programs *)

Inductive prog (A : Type) : Type :=
  | Ret (a : A)
  | Do (c : call) (k : answer c -> prog A).
Arguments Ret {A} _.
Arguments Do {A} _ _.

Fixpoint prog_bind_body {A B} (f : A -> prog B) (p : prog A) : prog B :=
  match p with
  | Ret a => f a
  | Do c k => Do c (fun x => prog_bind_body f (k x))
  end.

#[export] Instance prog_ret : MRet prog := fun A a => Ret a.
#[export] Instance prog_bind : MBind prog := fun A B f p => prog_bind_body f p.

Definition ask (c : call) : prog (answer c) := Do c Ret.

(** [if err != nil { return ..., err }]. *)
Definition try_bind {A B} (p : prog (dres A)) (k : A -> prog (dres B)) : prog (dres B) :=
  r ← p; match r with inl e => Ret (inl e) | inr x => k x end.

Notation "x '←?' p ; k" := (try_bind p (fun x => k))
  (at level 20, p at level 100, k at level 200, only parsing) : go_scope.

(** ** What a call does

    [choice] is what the world decides about one call: whether its statement
    fails and with what text, whether what follows the statement does
    ([chAffected]: RowsAffected, or the second query of [RevokePhone]), after how
    many rows a query breaks off unnoticed, the clock, random bytes, and the
    answers of the parts of the relay that other components model. *)

Record choice : Type := mkChoice {
  chFail : option string;
  chAffected : option string;
  chRows : option nat;
  chNow : Z;
  chRandom : dres string;
  chOnline : list string;
  chView : daemon_view;
  chSend : option Relay.send_error;
  chAdd : bool;
  chFrame : frame_read;
  chMessages : list Relay.SessionMessage
}.

(** The state of one nest; phone sockets are those of [Connections.Phones]. *)
Record nest : Type := mkNest {
  db : tables;
  phones : Connections.Phones.manager;
  nextPushID : Z
}.

Definition with_db (n : nest) (t : tables) : nest := mkNest t (phones n) (nextPushID n).
Definition with_phones (n : nest) (m : Connections.Phones.manager) : nest := mkNest (db n) m (nextPushID n).

(** A query, a statement whose count is looked at, one whose count is not, and
    one that may violate a key. *)
Definition query {A} (ch : choice) (n : nest) (a : A) : dres A * nest :=
  match chFail ch with Some e => (inl (ErrText e), n) | None => (inr a, n) end.

(** [ListDevices] and [GetPushSubscriptions] do not look at [rows.Err]. *)
Definition cut {A} (ch : choice) (rows : list A) : list A :=
  match chRows ch with Some n => take n rows | None => rows end.

Definition exec_counted (ch : choice) (n : nest) (r : bool * tables) : exec_result * nest :=
  match chFail ch with
  | Some e => (inl (ErrText e), n)
  | None => (inr (match chAffected ch with Some e => inl (ErrText e) | None => inr r.1 end), with_db n r.2)
  end.

Definition exec_stmt (ch : choice) (n : nest) (t : tables) : dres unit * nest :=
  match chFail ch with Some e => (inl (ErrText e), n) | None => (inr tt, with_db n t) end.

Definition exec_insert (ch : choice) (n : nest) (t : option tables) : dres unit * nest :=
  match chFail ch, t with
  | Some e, _ => (inl (ErrText e), n)
  | None, None => (inl (ErrText "UNIQUE constraint failed"), n)
  | None, Some t => (inr tt, with_db n t)
  end.

Section Perform.
Context `{RO : RowOrder}.

(** [json.Marshal] of a frame for a phone; nothing is sent when it fails. *)
Context (encode : NekoMessage -> option string).

Definition send_phones (n : nest) (send : Connections.Phones.manager -> string -> Connections.Phones.manager)
    (m : NekoMessage) : nest :=
  match encode m with Some data => with_phones n (send (phones n) data) | None => n end.

Definition perform (ch : choice) (c : call) (n : nest) : answer c * nest :=
  let t := db n in
  match c with
  | InsertDevice id name os hash now => exec_insert ch n (stmt_insert_device id name os hash now t)
  | UpdateDeviceKeys id ed x fp => exec_counted ch n (stmt_update_device_keys id ed x fp t)
  | UpdateLastSeen id now => exec_stmt ch n (stmt_update_last_seen id now t)
  | SelectDevice id => query ch n (devices t !! id)
  | SelectDevices => query ch n (cut ch (rows_devices t))
  | CountDevices id hash => query ch n (stmt_count_devices id hash t)
  | InsertPairCode code device expires => exec_insert ch n (stmt_insert_pair_code code device expires t)
  | UsePairCode code now => exec_counted ch n (stmt_use_pair_code code now t)
  | SelectPairDevice code => query ch n (pairDevice <$> pair_codes t !! code)
  | InsertPhone id name hash now => exec_insert ch n (stmt_insert_phone id name hash now t)
  | SelectPhoneByHash hash => query ch n (phone_by_hash hash t)
  | UpdatePhoneSeen id now => exec_stmt ch n (stmt_phone_seen id now t)
  | SelectPhone id => query ch n (phone_identities t !! id)
  | SelectPhones => query ch n (rows_phones t)
  | UpdatePhoneKeys id ed x => exec_counted ch n (stmt_update_phone_keys id ed x t)
  | RevokePhoneTx id now =>
    match chFail ch, tx_revoke_phone (bool_decide (is_Some (chAffected ch))) id now t with
    | Some e, _ => (inl (ErrText e), n)
    | None, inl e => (inl e, n)
    | None, inr t => (inr tt, with_db n t)
    end
  | UpsertGrant phone device now => exec_stmt ch n (stmt_upsert_grant phone device now t)
  | RevokeGrant phone device now => exec_counted ch n (stmt_revoke_grant phone device now t)
  | DeletePackages phone device =>
    exec_stmt ch n (stmt_delete_packages
      (fun k => (bool_decide (package_phone k = phone) && bool_decide (package_device k = device))%bool) t)
  | DeletePushes phone device =>
    exec_stmt ch n (stmt_delete_pushes
      (fun k r => (bool_decide (psPhoneID r = phone) && bool_decide (k.2 = device))%bool) t)
  | SelectGrant phone device => query ch n (stmt_has_grant phone device t)
  | SelectPhoneDevices phone => query ch n (rows_phone_devices phone t)
  | SelectDeviceGrants device => query ch n (rows_device_grants device t)
  | UpsertPackage k wrapped nonce now => exec_stmt ch n (stmt_upsert_package k wrapped nonce now t)
  | SelectPackages phone device => query ch n (rows_packages phone device t)
  | SavePushTx s now =>
    match chFail ch with
    | Some e => (inl (ErrText e), n)
    | None => (inr tt, mkNest (tx_save_push (nextPushID n) s now t) (phones n) (nextPushID n + 1))
    end
  | SelectPushes device => query ch n (cut ch (rows_pushes device t))
  | DeletePush endpoint => exec_stmt ch n (stmt_delete_pushes (fun k _ => bool_decide (k.1 = endpoint)) t)
  | SelectMessages _ _ _ => query ch n (chMessages ch)
  | ClockNow => (chNow ch, n)
  | RandomBytes _ => (chRandom ch, n)
  | OnlineDevices => (chOnline ch, n)
  | ViewDaemon _ => (chView ch, n)
  | SendToDaemon _ _ => (chSend ch, n)
  | TryAddDaemon _ _ _ => (chAdd ch, n)
  | ReadFrame _ => (chFrame ch, n)
  | BroadcastToPhones device m =>
    (tt, send_phones n (fun p data => Connections.Phones.BroadcastToPhones p device data) m)
  | ClosePhonesByPrincipal phone => (tt, with_phones n (Connections.Phones.ClosePhonesByPrincipal (phones n) phone).2)
  | AddPhoneAuthenticated device conn phone admin =>
    (tt, with_phones n (Connections.Phones.AddPhoneAuthenticated (phones n) device conn phone admin))
  | RemovePhone device conn => (tt, with_phones n (Connections.Phones.RemovePhone (phones n) device conn))
  | ResubscribePhone device conn => (tt, with_phones n (Connections.Phones.ResubscribePhone (phones n) device conn))
  | SafeWritePhone conn m => (tt, send_phones n (fun p data => Connections.Phones.SafeWritePhone p conn data) m)
  | RemoveDaemon _ _ | WriteFrame _ _ | CloseConn _ | HandlePhoneMessage _ _ | HandleDaemonMessage _ _
  | ReplayPromptCommits _ => (tt, n)
  end.
End Perform.

(** ** Methods of [DB] *)

(** [time.Now()] in nanoseconds, and its [Unix()]. *)
Definition nanos_per_second : Z := 1000000000.
Definition Now : prog Z := ask ClockNow.
Definition Unix : prog Z := now ← ask ClockNow; Ret (now / nanos_per_second).

(** [generateToken] and [hashToken] of util.go. *)
Definition generateToken : prog (dres string) :=
  b ← ask (RandomBytes 32);
  Ret (match b with
       | inr b => inr (hex_encode b)
       | inl e => inl (ErrText ("generate token: " +:+ error_text e))
       end).

Definition hashToken (token : string) : string := hex_encode (sha256 token).

Definition CreatePhoneIdentity (name : string) : prog (dres (string * string)) :=
  let name := TrimSpace name in
  let name := if is_empty name then "Phone" else name in
  token ←? generateToken;
  idPart ←? generateToken;
  let phoneID := "phone_" +:+ take_bytes 16 idPart in
  now ← Unix;
  _ ←? ask (InsertPhone phoneID name (hashToken token) now);
  Ret (inr (phoneID, token)).

Definition ValidatePhoneToken (token : string) : prog (dres PhoneAuth) :=
  let token := TrimSpace token in
  if is_empty token then Ret (inl ErrPhoneTokenInvalid)
  else
    row ←? ask (SelectPhoneByHash (hashToken token));
    match row with
    | None => Ret (inl ErrPhoneTokenInvalid)
    | Some (id, p) =>
      if negb (bool_decide (phTokenHash p = hashToken token)) then Ret (inl ErrPhoneTokenInvalid)
      else if 0 <? phRevokedAt p then Ret (inl ErrPhoneRevoked)
      else
        now ← Unix;
        _ ← ask (UpdatePhoneSeen id now);
        Ret (inr (mkPhoneAuth id (phName p) false))
    end.

Definition GetPhone (id : string) : prog (dres phoneRow) :=
  row ←? ask (SelectPhone id);
  Ret (match row with Some p => inr p | None => inl ErrPhoneNotFound end).

Definition ListPhones : prog (dres (list (string * phoneRow))) := ask SelectPhones.

Definition SetPhonePublicKeys (phoneID ed x : string) : prog (dres unit) :=
  n ←? ask (UpdatePhoneKeys phoneID ed x);
  Ret (if affected n then inr tt else inl ErrPhoneNotFound).

Definition RevokePhone (phoneID : string) : prog (dres unit) :=
  now ← Unix;
  ask (RevokePhoneTx phoneID now).

Definition DeviceExists (id : string) : prog bool :=
  if is_empty id then Ret false
  else
    row ← ask (SelectDevice id);
    Ret (match row with inr (Some _) => true | _ => false end).

Definition GrantPhoneDevice (phoneID deviceID : string) : prog (dres unit) :=
  if (is_empty phoneID || is_empty deviceID)%bool then Ret (inl (ErrText "phone_id and device_id required"))
  else
    p ←? GetPhone phoneID;
    if 0 <? phRevokedAt p then Ret (inl ErrPhoneRevoked)
    else
      exists_ ← DeviceExists deviceID;
      if negb exists_ then Ret (inl (ErrText "unknown device"))
      else
        now ← Unix;
        ask (UpsertGrant phoneID deviceID now).

Definition RevokePhoneDeviceGrant (phoneID deviceID : string) : prog (dres unit) :=
  now ← Unix;
  n ←? ask (RevokeGrant phoneID deviceID now);
  if negb (affected n) then Ret (inl ErrGrantNotFound)
  else
    _ ← ask (DeletePackages phoneID deviceID);
    _ ← ask (DeletePushes phoneID deviceID);
    Ret (inr tt).

Definition PhoneHasDeviceGrant (phoneID deviceID : string) : prog bool :=
  if (is_empty phoneID || is_empty deviceID)%bool then Ret false
  else
    row ← ask (SelectGrant phoneID deviceID);
    Ret (match row with inr b => b | inl _ => false end).

Definition ListPhoneDeviceIDs (phoneID : string) : prog (dres (list string)) := ask (SelectPhoneDevices phoneID).

Definition UpsertKeyPackage (phoneID deviceID scope sessionID : string) (epoch : Z) (wrapped nonce : string)
  : prog (dres unit) :=
  now ← Unix;
  ask (UpsertPackage (phoneID, deviceID, scope, sessionID, epoch) wrapped nonce now).

Definition ListPhoneGrantsForDevice (deviceID : string) : prog (dres (list PhoneGrant)) :=
  ask (SelectDeviceGrants deviceID).

Definition ListKeyPackages (phoneID deviceID : string) : prog (dres (list keyPackage)) :=
  ask (SelectPackages phoneID deviceID).

(** [strings.ToLower] compared with an ASCII constant: besides the ASCII letters
    two code points have an ASCII lower case, U+0130 and U+212A. *)
Fixpoint fold_to_ascii (s : string) : string :=
  match s with
  | String c1 (String c2 (String c3 rest as rest3) as rest2) =>
    if ((code c1 =? 226) && (code c2 =? 132) && (code c3 =? 170))%bool then String "k" (fold_to_ascii rest)
    else if ((code c1 =? 196) && (code c2 =? 176))%bool then String "i" (fold_to_ascii rest3)
    else String c1 (fold_to_ascii rest2)
  | String c1 (String c2 EmptyString) =>
    if ((code c1 =? 196) && (code c2 =? 176))%bool then "i" else s
  | _ => s
  end.

(** The [os] column: unknown names are kept as they are. *)
Definition device_os (osName : string) : string :=
  let s := to_lower (fold_to_ascii (TrimSpace osName)) in
  if bool_decide (s = "linux") then "linux"
  else if (bool_decide (s = "windows") || is_empty s)%bool then "windows"
  else if is_empty (TrimSpace osName) then "windows" else TrimSpace osName.

Definition RegisterDevice (id name osName : string) : prog (dres string) :=
  token ←? generateToken;
  now ← Unix;
  _ ←? ask (InsertDevice id name (device_os osName) (hashToken token) now);
  Ret (inr token).

Definition GetDevice (id : string) : prog (dres deviceRow) :=
  row ←? ask (SelectDevice id);
  Ret (match row with Some d => inr d | None => inl ErrNoRows end).

Definition ListDevices : prog (dres (list (string * deviceRow))) := ask SelectDevices.

Definition UpdateDeviceLastSeen (id : string) : prog (dres unit) :=
  now ← Unix;
  ask (UpdateLastSeen id now).

Definition SetDevicePublicKeys (deviceID ed x fp : string) : prog (dres unit) :=
  n ←? ask (UpdateDeviceKeys deviceID ed x fp);
  Ret (if affected n then inr tt else inl (ErrText "device not found")).

Definition GetDevicePublicKeys (deviceID : string) : prog (dres (string * string * string)) :=
  row ←? ask (SelectDevice deviceID);
  Ret (match row with
       | Some d => inr (devEd25519 d, devX25519 d, devFingerprint d)
       | None => inl ErrNoRows
       end).

Definition ValidateDeviceToken (deviceID token : string) : prog bool :=
  count ← ask (CountDevices deviceID (hashToken token));
  Ret (match count with inr n => 0 <? n | inl _ => false end).

Definition CreatePairCode (code deviceID : string) (expiresAt : Z) : prog (dres unit) :=
  ask (InsertPairCode code deviceID expiresAt).

Definition ConsumePairCode (code : string) : prog (dres string) :=
  now ← Unix;
  r ←? ask (UsePairCode code now);
  n ←? Ret r;
  if negb n then Ret (inl ErrNoRows)
  else
    row ←? ask (SelectPairDevice code);
    Ret (match row with Some deviceID => inr deviceID | None => inl ErrNoRows end).

Definition SavePushSubscription (sub : PushSubscription) : prog (dres unit) :=
  now ← Unix;
  ask (SavePushTx sub now).

Definition GetPushSubscriptions (deviceID : string) : prog (dres (list PushSubscription)) := ask (SelectPushes deviceID).

Definition DeletePushSubscription (endpoint : string) : prog (dres unit) := ask (DeletePush endpoint).
