(* ===== verification/NestDatabase.v ===== *)
(** * Opening a nest's database (server/internal/db/db.go, server/cmd/server)

    The transport mode of a nest is chosen once, when its database is first
    opened, and is kept in [schema_meta]. Opening the database, the start of the
    server and the offline migration to sealed mode, with the failures of each
    statement as arguments. *)

From stdpp Require Import base tactics list gmap strings.
From Stdlib Require Import Ascii ZArith Lia.
From S2P Require Import Prelude GoStrings Protocol AccessStore.
From S2P Require Relay PromptStore.

(** What a start finds in the file. [hasTables] is whether the application
    tables exist; the message and prompt tables are those of [Relay]. *)
Record database : Type := mkDatabase {
  hasTables : bool;
  schema_meta : gmap string string;
  access : tables;
  session_messages : gmap (string * string * string) Relay.SessionMessage;
  prompt_commands : PromptStore.promptTable
}.

Definition with_meta (d : database) (m : gmap string string) : database :=
  mkDatabase (hasTables d) m (access d) (session_messages d) (prompt_commands d).

(** The errors of the two statements of [initializeTransportMode], of
    [Begin]/[CREATE TABLE], and of [Commit]. *)
Record mode_io : Type := mkModeIO {
  ioBegin : option string;
  ioSelect : option string;
  ioInsert : option string;
  ioCommit : option string
}.
Definition mode_ok : mode_io := mkModeIO None None None None.

Definition fail_io {A} (e : option string) (k : res A) : res A := match e with Some e => Err e | None => k end.

Definition parse_requested (requestedMode : string) : res (option TransportMode) :=
  let requestedMode := TrimSpace requestedMode in
  if is_empty requestedMode then Ok None
  else match ParseTransportMode requestedMode with
       | Ok m => Ok (Some m)
       | Err e => Err ("invalid requested transport_mode: " +:+ e)
       end.

(** The mode and, if it was chosen now, the row to insert. *)
Definition initializeTransportMode (f : mode_io) (preexistingApplication : bool) (requestedMode : string)
    (meta : gmap string string) : res (TransportMode * gmap string string) :=
  requested ← parse_requested requestedMode;
  fail_io (ioSelect f)
    (match meta !! "transport_mode" with
     | Some stored =>
       match ParseTransportMode stored with
       | Err e => Err ("stored transport_mode is invalid: " +:+ e)
       | Ok mode =>
         match requested with
         | Some r =>
           if bool_decide (r = mode) then Ok (mode, meta)
           else Err ("transport_mode mismatch: persisted " +:+ transport_text mode +:+ ", requested " +:+ transport_text r)
         | None => Ok (mode, meta)
         end
       end
     | None =>
       mode ←
         match requested with
         | Some r =>
           if (preexistingApplication && negb (bool_decide (r = TransportOpen)))%bool
           then Err "transport_mode mismatch: legacy nest is open; use the offline migration before sealed"
           else Ok r
         | None => Ok (if preexistingApplication then TransportOpen else TransportSealed)
         end;
       fail_io (ioInsert f) (Ok (mode, <["transport_mode" := transport_text mode]> meta))
     end).

(** One transaction: without [Commit] nothing is kept. *)
Definition bootstrapTransportMode (f : mode_io) (preexistingApplication : bool) (requestedMode : string) (d : database)
  : res TransportMode * database :=
  match fail_io (ioBegin f) (initializeTransportMode f preexistingApplication requestedMode (schema_meta d)) with
  | Err e => (Err e, d)
  | Ok (mode, meta) =>
    match ioCommit f with
    | Some e => (Err e, d)
    | None => (Ok mode, with_meta d meta)
    end
  end.

(** [migrate] creates the tables and records the schema version; if it fails,
    the tables may exist or not. *)
Inductive migration : Set := Migrates | MigrationFails (tables_left : bool) (e : string).

Definition SchemaVersion : string := "1".

Definition ensureSchemaVersion (meta : gmap string string) : gmap string string :=
  match meta !! "version" with
  | Some v => if is_empty v then <["version" := SchemaVersion]> meta else meta
  | None => <["version" := SchemaVersion]> meta
  end.

Definition migrate (m : migration) (d : database) : res unit * database :=
  match m with
  | Migrates =>
    (Ok tt, mkDatabase true (ensureSchemaVersion (schema_meta d)) (access d) (session_messages d) (prompt_commands d))
  | MigrationFails tables_left e =>
    (Err e, mkDatabase (hasTables d || tables_left) (schema_meta d) (access d) (session_messages d) (prompt_commands d))
  end.

(** How the steps of [NewWithTransportMode] end: preparing and opening the
    file, [hasApplicationTables], the bootstrap, the migration, and the file
    permissions at the end. *)
Record open_io : Type := mkOpenIO {
  ioPrepare : option string;
  ioHasTables : option string;
  ioMode : mode_io;
  ioMigrate : migration;
  ioTighten : option string
}.

Definition NewWithTransportMode (f : open_io) (requestedMode : string) (d : database) : res unit * database :=
  match ioPrepare f, ioHasTables f with
  | Some e, _ => (Err e, d)
  | None, Some e => (Err e, d)
  | None, None =>
    match bootstrapTransportMode (ioMode f) (hasTables d) requestedMode d with
    | (Err e, d) => (Err e, d)
    | (Ok _, d) =>
      match migrate (ioMigrate f) d with
      | (Err e, d) => (Err e, d)
      | (Ok _, d) => (fail_io (ioTighten f) (Ok tt), d)
      end
    end
  end.

(** [DB.TransportMode] and [GetSchemaVersion]. *)
Definition StoredTransportMode (select : option string) (d : database) : res TransportMode :=
  fail_io select
    (match schema_meta d !! "transport_mode" with
     | None => Err "sql: no rows in result set"
     | Some raw => match ParseTransportMode raw with
                   | Ok mode => Ok mode
                   | Err e => Err ("stored transport_mode is invalid: " +:+ e)
                   end
     end).

Definition GetSchemaVersion (select : option string) (d : database) : string :=
  match select with Some _ => "" | None => default "" (schema_meta d !! "version") end.

(** [SetTransportMode] of the engine. *)
Definition SetTransportMode (mode : TransportMode) : res TransportMode := ParseTransportMode (transport_text mode).

(** ** The admin secret (server/cmd/server/secret_file.go, main.go) *)

Definition maxAdminSecretFileBytes : Z := 8192.

(** What the system says of a secret file: a failing [Lstat], [Open], [Stat] or
    read, its kind, whether it is still the same file, and whether group or
    others may access it. *)
Record secret_file : Type := mkSecretFile {
  sfLstat : option string;
  sfRegular : bool;
  sfOpen : option string;
  sfStat : option string;
  sfRegularOpened : bool;
  sfSameFile : bool;
  sfGroupAccess : bool;
  sfRead : option string;
  sfData : string
}.

Definition wrap_io (context : string) (e : option string) (k : res string) : res string :=
  match e with Some e => Err (context +:+ ": " +:+ e) | None => k end.

Definition readPrivateSecretFile (windows : bool) (f : secret_file) : res string :=
  wrap_io "stat admin secret file" (sfLstat f)
    (if negb (sfRegular f) then Err "admin secret file must be a regular file, not a symlink"
     else wrap_io "open admin secret file" (sfOpen f)
       (wrap_io "stat admin secret file" (sfStat f)
          (if negb (sfRegularOpened f) then Err "admin secret file must be a regular file"
           else if negb (sfSameFile f) then Err "admin secret file changed while opening"
           else if (negb windows && sfGroupAccess f)%bool then Err "admin secret file must not be group/world accessible"
           else wrap_io "read admin secret file" (sfRead f)
             (if maxAdminSecretFileBytes <? len (sfData f) then Err "admin secret file exceeds 8 KiB"
              else let secret := TrimSpace (sfData f) in
                   if is_empty secret then Err "admin secret file is empty" else Ok secret)))).

(** The variables [..._FILE], [NEKONEST_ADMIN_SECRET] and [NEKONEST_PHONE_SECRET];
    the flag is for the deprecated one. *)
Definition loadAdminSecret (windows : bool) (files : string -> secret_file) (file_env admin_env phone_env : string)
  : res (string * bool) :=
  let filePath := TrimSpace file_env in
  let adminSecret := TrimSpace admin_env in
  let phoneSecret := TrimSpace phone_env in
  if negb (is_empty filePath) then
    if (negb (is_empty adminSecret) || negb (is_empty phoneSecret))%bool
    then Err "NEKONEST_ADMIN_SECRET_FILE cannot be combined with inline admin secret variables"
    else secret ← readPrivateSecretFile windows (files filePath); Ok (secret, false)
  else if negb (is_empty adminSecret) then Ok (adminSecret, false)
  else if negb (is_empty phoneSecret) then Ok (phoneSecret, true)
  else Ok ("", false).

Definition listenAddress (port phoneSecret : string) : string :=
  if is_empty (TrimSpace phoneSecret) then "127.0.0.1:" +:+ port else ":" +:+ port.

Definition defaultLocalOrigins (port : string) : string :=
  "http://127.0.0.1:" +:+ port +:+ "," +:+ "http://localhost:" +:+ port +:+ "," +:+ "http://[::1]:" +:+ port.

(** [main]: the mode the engine serves in, or the process exits. [secret] is
    the outcome of [loadAdminSecret]. *)
Definition start_server (f : open_io) (secret : res (string * bool)) (select : option string) (env : string) (d : database)
  : res TransportMode * database :=
  match NewWithTransportMode f (TrimSpace env) d with
  | (Err e, d) => (Err e, d)
  | (Ok _, d) =>
    match secret with
    | Err e => (Err e, d)
    | Ok _ => (match StoredTransportMode select d with Ok mode => SetTransportMode mode | Err e => Err e end, d)
    end
  end.

(** ** The offline migration to version 1 *)

Definition ClearPlaintextContentForV1 (tx : option string) (now : string) (d : database) : res unit * database :=
  match tx with
  | Some e => (Err e, d)
  | None =>
    (Ok tt, mkDatabase (hasTables d)
       (<["transport_mode" := transport_text TransportSealed]> (<["migrated_v1_at" := now]>
          (<["version" := SchemaVersion]> (schema_meta d))))
       (mkTables (devices (access d)) ∅ ∅ ∅ ∅ ∅) ∅ ∅)
  end.

(** [runMigrateV1]: [backup] is the first error of the checks and of the copy
    before the database is opened, [attachments] that of recreating their
    directory. *)
Definition runMigrateV1 (backup : option string) (f : open_io) (tx attachments : option string) (now : string)
    (d : database) : res unit * database :=
  match backup with
  | Some e => (Err e, d)
  | None =>
    match NewWithTransportMode f "" d with
    | (Err e, d) => (Err e, d)
    | (Ok _, d) =>
      match ClearPlaintextContentForV1 tx now d with
      | (Err e, d) => (Err e, d)
      | (Ok _, d) => (fail_io attachments (Ok tt), d)
      end
    end
  end.

(** ** The life of a database: starts and migrations *)

Inductive db_op : Type :=
  | Start (f : open_io) (secret : res (string * bool)) (select : option string) (env : string)
  | MigrateV1 (backup : option string) (f : open_io) (tx attachments : option string) (now : string).

Inductive db_event : Type := Served (mode : TransportMode) | Refused (e : string) | Cleared | NotCleared (e : string).

(** [NotCleared] is also what a migration ends with that fails after its
    transaction. *)
Definition db_step (op : db_op) (d : database) : db_event * database :=
  match op with
  | Start f secret select env =>
    match start_server f secret select env d with (Ok m, d) => (Served m, d) | (Err e, d) => (Refused e, d) end
  | MigrateV1 backup f tx attachments now =>
    match runMigrateV1 backup f tx attachments now d with (Ok _, d) => (Cleared, d) | (Err e, d) => (NotCleared e, d) end
  end.

Fixpoint db_run (ops : list db_op) (d : database) : list db_event * database :=
  match ops with
  | [] => ([], d)
  | op :: ops =>
    let '(ev, d) := db_step op d in
    let '(evs, d) := db_run ops d in (ev :: evs, d)
  end.
