(* ===== verification/RelayAccess.v ===== *)
(** * Who may do what at the relay (relaycore/engine.go, websocket.go)

    The HTTP handlers of registration, pairing, keys, history and revocation,
    and the life of a phone's and of a daemon's websocket: authentication, the
    checks of a grant, and the calls made once they have passed. A handler is a
    program over the calls of [AccessStore]; [encoding/json] of a request is
    what [readJSON] left in the request struct. *)

From stdpp Require Import base tactics list gmap strings.
From Stdlib Require Import Ascii ZArith Lia.
From S2P Require Import Prelude GoStrings Json Sha256 Protocol RelayInput AccessStore.
From S2P Require Relay WebPush Connections.

(** ** Requests, responses, configuration *)

(** [bodyFields] are the string fields of the decoded struct, by their JSON
    names; what a failed decode left in them counts when the error is
    ignored. *)
Record body : Type := mkBody { bodyError : bool; bodyFields : gmap string string; bodyEpoch : Z }.

Record request : Type := mkRequest {
  rqMethod : string;
  rqHeader : gmap string string;
  rqQuery : gmap string string;
  rqBody : body
}.

Definition header (r : request) (k : string) : string := default "" (rqHeader r !! k).
Definition query_param (r : request) (k : string) : string := default "" (rqQuery r !! k).
Definition field (r : request) (k : string) : string := default "" (bodyFields (rqBody r) !! k).

Record Device : Type := mkDevice {
  ID : string; Name : string; OS : string; Status : string;
  LastSeen : Z; ActiveAgents : Z; DaemonVersion : string
}.

(** A handler's response: [http.Error], [WriteAPIError], or a JSON document. *)
Inductive response : Type :=
  | HttpError (status : Z) (message : string)
  | APIError (status : Z) (error_code message : string) (retryable : bool)
  | JSON (document : payload)
  | DevicesJSON (devices : list Device) (server_version : string)
  | SessionsJSON (sessions : list Relay.AgentSession)
  | MessagesJSON (messages : list Relay.SessionMessage) (limit : Z) (truncated : bool)
  | GrantsJSON (grants : list PhoneGrant)
  | PackagesJSON (packages : list keyPackage)
  | PhonesJSON (phones : list (string * phoneRow)).

(** The port a deployment may supply for push delivery. *)
Record PushSink : Type := mkSink {
  sinkEnabled : bool;
  sinkPublicKey : string;
  sinkValidate : string -> string -> string -> bool
}.

(** Configuration and environment: [bootstrapToken] and the VAPID keys are
    environment variables. *)
Record engine : Type := mkEngine {
  phoneSecret : string;
  transportMode : TransportMode;
  appVersion : string;
  pushSink : option PushSink;
  bootstrapToken : string;
  vapidPublic : string;
  vapidPrivate : string
}.

Definition AppVersion (s : engine) : string := if is_empty (appVersion s) then "dev" else appVersion s.

Definition engine_mode (s : engine) : TransportMode :=
  match transportMode s with NoTransport => TransportSealed | m => m end.

Definition stampEnvelope (s : engine) (m : NekoMessage) : NekoMessage :=
  let m := if is_empty (ProtocolVersion m) then Relay.with_version m CurrentProtocolVersion else m in
  if bool_decide (msgTransportMode m = NoTransport) then WithTransport m (engine_mode s) else m.

(** Service error codes of relaycore/protocol/types.go. *)
Definition ServiceErrorDeviceCredentialInvalid : string := "device_credential_invalid".
Definition ServiceErrorPhoneCredentialInvalid : string := "phone_credential_invalid".
Definition ServiceErrorRegistrationDisabled : string := "registration_disabled".
Definition ServiceErrorDeviceIdentityConflict : string := "device_identity_conflict".
Definition ServiceErrorDeviceAlreadyConnected : string := "device_already_connected".
Definition ServiceErrorProtocolUpgradeRequired : string := "protocol_upgrade_required".
Definition ServiceErrorServiceProvisioning : string := "service_provisioning".

Definition phone_credential_invalid : response :=
  APIError 401 ServiceErrorPhoneCredentialInvalid "phone credential invalid" false.
Definition device_credential_invalid : response :=
  APIError 401 ServiceErrorDeviceCredentialInvalid "invalid device token" false.
Definition method_not_allowed : response := HttpError 405 "method not allowed".
Definition invalid_request : response := HttpError 400 "invalid request".
Definition forbidden : response := HttpError 403 "forbidden".
Definition internal_error (e : dberr) : response := HttpError 500 (error_text e).

(** A handler that may have answered already goes on only if it has not. *)
Definition go_on {A B} (p : prog (response + A)) (k : A -> prog (response + B)) : prog (response + B) :=
  r ← p; match r with inl resp => Ret (inl resp) | inr x => k x end.

Notation "x '←!' p ; k" := (go_on p (fun x => k))
  (at level 20, p at level 100, k at level 200, only parsing) : go_scope.

Definition reply {A} (r : response) : prog (response + A) := Ret (inl r).

(** [if cond { respond; return }]. *)
Definition refuse_if (cond : bool) (r : response) : prog (response + unit) :=
  if cond then Ret (inl r) else Ret (inr tt).

(** [if err != nil { respond; return }]. *)
Definition or_reply {A} (p : prog (dres A)) (r : dberr -> response) : prog (response + A) :=
  x ← p; Ret (match x with inl e => inl (r e) | inr a => inr a end).

(** A handler's last value is its response. *)
Definition responds (p : prog (response + response)) : prog response :=
  r ← p; Ret (match r with inl resp => resp | inr resp => resp end).

Definition doc (kvs : list (string * value)) : payload := list_to_map kvs.

(** ** Credentials *)

Definition secureEqual (a b : string) : bool := bool_decide (a = b).

Definition phoneSecretFromRequest (r : request) : string :=
  let h := header r "X-Neko-Secret" in
  if negb (is_empty h) then h
  else
    let h := header r "X-Neko-Phone-Token" in
    if negb (is_empty h) then h
    else
      let auth := header r "Authorization" in
      if has_prefix "Bearer " auth then trim_prefix auth "Bearer "
      else
        let q := query_param r "secret" in
        if negb (is_empty q) then q
        else
          let q := query_param r "phone_token" in
          if negb (is_empty q) then q else "".

Definition admin_auth : PhoneAuth := mkPhoneAuth "" "admin" true.

(** [None] is the open access of a nest without a secret. *)
Definition requirePhoneAuthResult (s : engine) (r : request) : prog (response + option PhoneAuth) :=
  if is_empty (phoneSecret s) then Ret (inr None)
  else
    let cred := phoneSecretFromRequest r in
    _ ←! refuse_if (is_empty cred) phone_credential_invalid;
    if secureEqual cred (phoneSecret s) then Ret (inr (Some admin_auth))
    else
      auth ←! or_reply (ValidatePhoneToken cred) (fun _ => phone_credential_invalid);
      Ret (inr (Some auth)).

Definition is_admin (auth : option PhoneAuth) : bool :=
  match auth with None => true | Some a => AdminBypass a end.

Definition phoneMayAccessDevice (auth : option PhoneAuth) (deviceID : string) : prog bool :=
  match auth with
  | None => Ret true
  | Some a => if AdminBypass a then Ret true else PhoneHasDeviceGrant (PhoneID a) deviceID
  end.

Definition device_of (row : string * deviceRow) : Device :=
  mkDevice row.1 (devName row.2) (devOS row.2) "offline" (devLastSeen row.2) (devActiveAgents row.2) "".

Definition visibleDevices (auth : option PhoneAuth) : prog (dres (list Device)) :=
  rows ←? ListDevices;
  let devices := device_of <$> rows in
  match auth with
  | None => Ret (inr devices)
  | Some a =>
    if AdminBypass a then Ret (inr devices)
    else
      allowed ←? ListPhoneDeviceIDs (PhoneID a);
      Ret (inr (List.filter (fun d => bool_decide (ID d ∈ allowed)) devices))
  end.

Fixpoint decorate (online : list string) (devices : list Device) : prog (list Device) :=
  match devices with
  | [] => Ret []
  | d :: rest =>
    if bool_decide (ID d ∈ online)
    then
      v ← ask (ViewDaemon (ID d));
      rest ← decorate online rest;
      Ret (mkDevice (ID d) (Name d) (OS d) "online" (LastSeen d) (ActiveAgents d) (viewVersion v) :: rest)
    else
      rest ← decorate online rest;
      Ret (d :: rest)
  end.

Definition decorateDeviceOnlineStatus (devices : list Device) : prog (list Device) :=
  online ← ask OnlineDevices;
  decorate online devices.

(** ** HTTP handlers *)

Definition handleListDevices (s : engine) (r : request) : prog response :=
  responds (
    _ ←! refuse_if (negb (bool_decide (rqMethod r = "GET"))) method_not_allowed;
    auth ←! requirePhoneAuthResult s r;
    devices ←! or_reply (visibleDevices auth)
                 (fun _ => APIError 500 ServiceErrorServiceProvisioning "device list unavailable" true);
    devices ← decorateDeviceOnlineStatus devices;
    reply (DevicesJSON devices (AppVersion s))).

Definition handleDeviceSessions (s : engine) (r : request) : prog response :=
  responds (
    _ ←! refuse_if (negb (bool_decide (rqMethod r = "GET"))) method_not_allowed;
    auth ←! requirePhoneAuthResult s r;
    let deviceID := query_param r "device_id" in
    _ ←! refuse_if (is_empty deviceID) (HttpError 400 "device_id required");
    ok ← phoneMayAccessDevice auth deviceID;
    _ ←! refuse_if (negb ok) forbidden;
    v ← ask (ViewDaemon deviceID);
    reply (SessionsJSON (default [] (viewSessions v)))).

Definition history_limit_param (r : request) : Z :=
  let l := query_param r "limit" in
  if is_empty l then 100
  else match Atoi l with
       | Some n => if ((0 <? n) && (n <=? 500))%bool then n else 100
       | None => 100
       end.

Definition handleMessages (s : engine) (r : request) : prog response :=
  responds (
    auth ←! requirePhoneAuthResult s r;
    _ ←! refuse_if (negb (bool_decide (rqMethod r = "GET"))) method_not_allowed;
    let deviceID := query_param r "device_id" in
    let sessionID := query_param r "session_id" in
    _ ←! refuse_if (is_empty deviceID || is_empty sessionID)%bool (HttpError 400 "device_id and session_id required");
    ok ← phoneMayAccessDevice auth deviceID;
    _ ←! refuse_if (negb ok) forbidden;
    let limit := history_limit_param r in
    messages ←! or_reply (ask (SelectMessages deviceID sessionID (limit + 1))) internal_error;
    let '(messages, truncated) := truncateHistory messages limit in
    reply (MessagesJSON messages limit truncated)).

Definition push_fields_too_long (deviceID endpoint p256dh auth : string) : bool :=
  ((256 <? len deviceID) || (4096 <? len endpoint) || (512 <? len p256dh) || (256 <? len auth))%bool.

Section Push.
Context `{WebPush.NetHost}.

Definition validate_push (s : engine) (endpoint p256dh auth : string) : prog (response + unit) :=
  match pushSink s with
  | Some sink => refuse_if (negb (sinkValidate sink endpoint p256dh auth)) (HttpError 400 "invalid push subscription")
  | None =>
    _ ←! refuse_if (negb (is_ok (WebPush.ValidateEndpoint endpoint))) (HttpError 400 "invalid push endpoint");
    refuse_if (negb (is_ok (WebPush.ValidateKeys p256dh auth))) (HttpError 400 "invalid push subscription keys")
  end.

Definition handlePushSubscribe (s : engine) (r : request) : prog response :=
  responds (
    _ ←! refuse_if (negb (bool_decide (rqMethod r = "POST"))) method_not_allowed;
    auth ←! requirePhoneAuthResult s r;
    _ ←! refuse_if (bodyError (rqBody r)) invalid_request;
    let deviceID := TrimSpace (field r "device_id") in
    let endpoint := TrimSpace (field r "endpoint") in
    let p256dh := TrimSpace (field r "p256dh") in
    let authKey := TrimSpace (field r "auth") in
    _ ←! refuse_if (is_empty deviceID || is_empty endpoint || is_empty p256dh || is_empty authKey)%bool
           (HttpError 400 "device_id, endpoint, p256dh and auth required");
    _ ←! refuse_if (push_fields_too_long deviceID endpoint p256dh authKey)
           (HttpError 400 "push subscription field too long");
    known ← DeviceExists deviceID;
    _ ←! refuse_if (negb known) (HttpError 404 "unknown device");
    _ ←! validate_push s endpoint p256dh authKey;
    phoneID ←!
      (match auth with
       | Some a =>
         if AdminBypass a then Ret (inr "")
         else
           ok ← phoneMayAccessDevice auth deviceID;
           _ ←! refuse_if (negb ok) forbidden;
           Ret (inr (PhoneID a))
       | None => Ret (inr "")
       end);
    _ ←! or_reply (SavePushSubscription (mkPushSubscription 0 deviceID phoneID endpoint p256dh authKey)) internal_error;
    reply (JSON (doc [("status", VString "subscribed")]))).
End Push.

Definition handleVAPIDPublicKey (s : engine) (r : request) : prog response :=
  responds (
    _ ←! refuse_if (negb (bool_decide (rqMethod r = "GET"))) method_not_allowed;
    _ ←! requirePhoneAuthResult s r;
    match pushSink s with
    | Some sink => reply (JSON (doc [("enabled", VBool (sinkEnabled sink)); ("public_key", VString (sinkPublicKey sink))]))
    | None =>
      if (is_empty (vapidPublic s) || is_empty (vapidPrivate s))%bool
      then reply (JSON (doc [("enabled", VBool false); ("public_key", VString "")]))
      else reply (JSON (doc [("enabled", VBool true); ("public_key", VString (vapidPublic s))]))
    end).

(** ** Registration and keys of a device *)

Definition registration_failed (deviceID : string) : prog (response + response) :=
  known ← DeviceExists deviceID;
  if (known : bool) then reply (APIError 409 ServiceErrorDeviceIdentityConflict "device registration failed" false)
  else reply (APIError 500 ServiceErrorServiceProvisioning "device registration unavailable" true).

Definition registration_gate (s : engine) (r : request) : prog (response + unit) :=
  let bootstrap := TrimSpace (bootstrapToken s) in
  _ ←! refuse_if (negb (is_empty (phoneSecret s)) && is_empty bootstrap)%bool
         (APIError 503 ServiceErrorRegistrationDisabled "device registration is disabled" false);
  let got := header r "X-Neko-Bootstrap" in
  let got := if is_empty got then query_param r "bootstrap" else got in
  refuse_if (negb (is_empty bootstrap) && negb (secureEqual got bootstrap))%bool
    (APIError 401 ServiceErrorDeviceCredentialInvalid "registration credential invalid" false).

Definition new_device_id (given : string) : prog (response + string) :=
  if negb (is_empty given) then Ret (inr given)
  else
    b ←! or_reply (ask (RandomBytes 8))
           (fun _ => APIError 500 ServiceErrorServiceProvisioning "device registration unavailable" true);
    Ret (inr ("device_" +:+ hex_encode b)).

Definition handleRegisterDevice (s : engine) (r : request) : prog response :=
  responds (
    _ ←! refuse_if (negb (bool_decide (rqMethod r = "POST"))) method_not_allowed;
    _ ←! registration_gate s r;
    _ ←! refuse_if (bodyError (rqBody r)) invalid_request;
    let mode := transport_text (engine_mode s) in
    _ ←! refuse_if (negb (is_empty (field r "transport_mode")) && negb (bool_decide (field r "transport_mode" = mode)))%bool
           (HttpError 409 ("transport_mode mismatch: nest is " +:+ mode));
    let name := if is_empty (field r "name") then "Host PC" else field r "name" in
    deviceID ←! new_device_id (field r "device_id");
    registered ← RegisterDevice deviceID name (field r "os");
    match registered with
    | inl _ => registration_failed deviceID
    | inr token =>
      _ ← (if (negb (is_empty (field r "ed25519_public")) || negb (is_empty (field r "x25519_public")))%bool
           then SetDevicePublicKeys deviceID (field r "ed25519_public") (field r "x25519_public") (field r "identity_fingerprint")
           else Ret (inr tt));
      reply (JSON (doc [("device_id", VString deviceID); ("token", VString token); ("name", VString name);
                        ("transport_mode", VString mode); ("connection_state", VString "ready")]))
    end).

(** [req.Token == "" || !ValidateDeviceToken(...)]. *)
Definition require_device_token (deviceID token : string) : prog (response + unit) :=
  if is_empty token then Ret (inl device_credential_invalid)
  else
    ok ← ValidateDeviceToken deviceID token;
    refuse_if (negb ok) device_credential_invalid.

(** The JSON members for the keys of a device, if they can be read. *)
Definition keys_members (keys : dres (string * string * string)) : list (string * value) :=
  match keys with
  | inr (ed, x, fp) => [("ed25519_public", VString ed); ("x25519_public", VString x); ("identity_fingerprint", VString fp)]
  | inl _ => []
  end.

Definition handleGeneratePairCode (s : engine) (r : request) : prog response :=
  responds (
    _ ←! refuse_if (negb (bool_decide (rqMethod r = "POST"))) method_not_allowed;
    _ ←! refuse_if (bodyError (rqBody r)) invalid_request;
    let deviceID := field r "device_id" in
    _ ←! refuse_if (is_empty deviceID) (HttpError 400 "device_id required");
    _ ←! require_device_token deviceID (field r "token");
    _ ← (if (negb (is_empty (field r "ed25519_public")) && negb (is_empty (field r "x25519_public")))%bool
         then SetDevicePublicKeys deviceID (field r "ed25519_public") (field r "x25519_public") (field r "identity_fingerprint")
         else Ret (inr tt));
    let unavailable := APIError 500 ServiceErrorServiceProvisioning "pair code unavailable" true in
    b ←! or_reply (ask (RandomBytes 3)) (fun _ => unavailable);
    let code := take_bytes 6 (hex_encode b) in
    now ← Now;
    let expiresAt := (now + 300 * nanos_per_second) / nanos_per_second in
    _ ←! or_reply (CreatePairCode code deviceID expiresAt) (fun _ => unavailable);
    keys ← GetDevicePublicKeys deviceID;
    d ← GetDevice deviceID;
    reply (JSON (doc ([("code", VString code); ("expires_at", VInt expiresAt); ("device_id", VString deviceID);
                       ("protocol_version", VString CurrentProtocolVersion);
                       ("transport_mode", VString (transport_text (engine_mode s)))] ++ keys_members keys ++
                      match d with inr d => [("name", VString (devName d)); ("os", VString (devOS d))] | inl _ => [] end)))).

Definition handleUploadDeviceKeys (s : engine) (r : request) : prog response :=
  responds (
    _ ←! refuse_if (negb (bool_decide (rqMethod r = "POST"))) method_not_allowed;
    _ ←! refuse_if (bodyError (rqBody r)) invalid_request;
    let deviceID := field r "device_id" in
    _ ←! refuse_if (is_empty deviceID) device_credential_invalid;
    _ ←! require_device_token deviceID (field r "token");
    let ed := field r "ed25519_public" in let x := field r "x25519_public" in let fp := field r "identity_fingerprint" in
    _ ←! refuse_if (is_empty ed || is_empty x || is_empty fp)%bool (HttpError 400 "public keys required");
    _ ←! or_reply (SetDevicePublicKeys deviceID ed x fp) internal_error;
    reply (JSON (doc [("status", VString "ok"); ("device_id", VString deviceID)]))).

Definition handleListDeviceGrants (s : engine) (r : request) : prog response :=
  responds (
    _ ←! refuse_if (negb (bool_decide (rqMethod r = "GET"))) method_not_allowed;
    let deviceID := TrimSpace (query_param r "device_id") in
    let token := TrimSpace (header r "X-Neko-Device-Token") in
    let token := if is_empty token then phoneSecretFromRequest r else token in
    _ ←! refuse_if (is_empty deviceID) device_credential_invalid;
    _ ←! require_device_token deviceID token;
    grants ←! or_reply (ListPhoneGrantsForDevice deviceID) internal_error;
    reply (GrantsJSON grants)).

(** ** Key packages *)

Definition package_owner (r : request) (auth : option PhoneAuth) (deviceID : string) : prog (response + string) :=
  match auth with
  | Some (mkPhoneAuth phoneID _ false) =>
    ok ← phoneMayAccessDevice auth deviceID;
    _ ←! refuse_if (negb ok) forbidden;
    Ret (inr phoneID)
  | _ =>
    let phoneID := TrimSpace (query_param r "phone_id") in
    _ ←! refuse_if (is_empty phoneID) (HttpError 400 "phone_id required for admin listing");
    Ret (inr phoneID)
  end.

Definition handleKeyPackages (s : engine) (r : request) : prog response :=
  responds (
    _ ←! refuse_if (negb (bool_decide (rqMethod r = "GET"))) method_not_allowed;
    auth ←! requirePhoneAuthResult s r;
    let deviceID := TrimSpace (query_param r "device_id") in
    _ ←! refuse_if (is_empty deviceID) (HttpError 400 "device_id required");
    phoneID ←! package_owner r auth deviceID;
    pkgs ←! or_reply (ListKeyPackages phoneID deviceID) internal_error;
    reply (PackagesJSON pkgs)).

Definition key_package_message (s : engine) (r : request) (now : Z) : NekoMessage :=
  Relay.with_payload (stampEnvelope s (NewMessage now MsgKeyPackage (field r "device_id")))
    (Some (doc [("phone_id", VString (field r "phone_id")); ("scope", VString (field r "scope"));
                ("session_id", VString (field r "session_id")); ("epoch", VUint64 (bodyEpoch (rqBody r)));
                ("wrapped_key", VString (field r "wrapped_key")); ("nonce", VString (field r "nonce"))])).

Definition handleUploadKeyPackage (s : engine) (r : request) : prog response :=
  responds (
    _ ←! refuse_if (negb (bool_decide (rqMethod r = "POST"))) method_not_allowed;
    _ ←! refuse_if (bodyError (rqBody r)) invalid_request;
    let deviceID := field r "device_id" in
    _ ←! refuse_if (is_empty deviceID) device_credential_invalid;
    _ ←! require_device_token deviceID (field r "token");
    _ ←! refuse_if (is_empty (field r "phone_id") || is_empty (field r "scope") ||
                    is_empty (field r "wrapped_key") || is_empty (field r "nonce"))%bool
           (HttpError 400 "phone_id, scope, wrapped_key, nonce required");
    _ ←! or_reply (UpsertKeyPackage (field r "phone_id") deviceID (field r "scope") (field r "session_id")
                     (bodyEpoch (rqBody r)) (field r "wrapped_key") (field r "nonce")) internal_error;
    now ← Unix;
    _ ← ask (BroadcastToPhones deviceID (key_package_message s r now));
    reply (JSON (doc [("status", VString "ok")]))).

(** ** Pairing *)

(** The phone that is granted access: the caller, or, for the admin secret and
    on an open nest, one made now, with its new token. *)
Definition pairing_phone (auth : option PhoneAuth) (name : string) : prog (response + (string * option string)) :=
  let mint :=
    minted ←! or_reply (CreatePhoneIdentity name) internal_error;
    Ret (inr (minted.1, Some minted.2)) in
  match auth with
  | Some (mkPhoneAuth phoneID _ false) => if is_empty phoneID then mint else Ret (inr (phoneID, None))
  | _ => mint
  end.

Definition pair_ready_message (s : engine) (r : request) (now : Z) (phoneID deviceID : string) : NekoMessage :=
  Relay.with_payload (stampEnvelope s (NewMessage now MsgPairReady deviceID))
    (Some (doc [("phone_id", VString phoneID); ("phone_ed25519_public", VString (field r "phone_ed25519_public"));
                ("phone_x25519_public", VString (field r "phone_x25519_public")); ("pair_code", VString (field r "code"))])).

Definition fingerprint_mismatch (r : request) (keys : dres (string * string * string)) : bool :=
  match keys with
  | inr (_, _, fp) =>
    (negb (is_empty (field r "expected_fingerprint")) && negb (is_empty fp) &&
     negb (bool_decide (field r "expected_fingerprint" = fp)))%bool
  | inl _ => false
  end.

Definition handleConsumePairCode (s : engine) (r : request) : prog response :=
  responds (
    _ ←! refuse_if (negb (bool_decide (rqMethod r = "POST"))) method_not_allowed;
    auth ←! requirePhoneAuthResult s r;
    _ ←! refuse_if (bodyError (rqBody r)) invalid_request;
    deviceID ←! or_reply (ConsumePairCode (field r "code")) (fun _ => HttpError 404 "invalid or expired code");
    let expected := field r "device_id" in
    _ ←! refuse_if (negb (is_empty expected) && negb (bool_decide (expected = deviceID)))%bool
           (HttpError 409 "device fingerprint mismatch");
    d ← GetDevice deviceID;
    let name := match d with inr d => devName d | inl _ => deviceID end in
    keys ← GetDevicePublicKeys deviceID;
    _ ←! refuse_if (fingerprint_mismatch r keys) (HttpError 409 "device fingerprint mismatch");
    phone ←! pairing_phone auth (field r "name");
    let '(phoneID, token) := phone in
    let ed := field r "phone_ed25519_public" in let x := field r "phone_x25519_public" in
    _ ← (if (negb (is_empty ed) || negb (is_empty x))%bool then SetPhonePublicKeys phoneID ed x else Ret (inr tt));
    _ ←! or_reply (GrantPhoneDevice phoneID deviceID) internal_error;
    now ← Unix;
    _ ← ask (SendToDaemon deviceID (pair_ready_message s r now phoneID deviceID));
    reply (JSON (doc ([("device_id", VString deviceID); ("name", VString name); ("status", VString "paired");
                       ("phone_id", VString phoneID)] ++ keys_members keys ++
                      match token with Some t => [("phone_token", VString t)] | None => [] end)))).

(** ** Phones *)

Definition require_admin_secret (s : engine) (r : request) : prog (response + unit) :=
  refuse_if (negb (is_empty (phoneSecret s)) && negb (secureEqual (phoneSecretFromRequest r) (phoneSecret s)))%bool
    phone_credential_invalid.

Definition handlePhoneBootstrap (s : engine) (r : request) : prog response :=
  responds (
    _ ←! refuse_if (negb (bool_decide (rqMethod r = "POST"))) method_not_allowed;
    _ ←! require_admin_secret s r;
    minted ←! or_reply (CreatePhoneIdentity (field r "name")) internal_error;
    reply (JSON (doc [("phone_id", VString minted.1); ("token", VString minted.2); ("name", VString (field r "name"))]))).

Definition handleListPhones (s : engine) (r : request) : prog response :=
  responds (
    _ ←! refuse_if (negb (bool_decide (rqMethod r = "GET"))) method_not_allowed;
    _ ←! require_admin_secret s r;
    phones ←! or_reply ListPhones internal_error;
    reply (PhonesJSON phones)).

Definition handleRevokePhone (s : engine) (r : request) : prog response :=
  responds (
    _ ←! refuse_if (negb (bool_decide (rqMethod r = "POST"))) method_not_allowed;
    auth ←! requirePhoneAuthResult s r;
    let phoneID := field r "phone_id" in
    _ ←! refuse_if (bodyError (rqBody r) || is_empty (TrimSpace phoneID))%bool (HttpError 400 "phone_id required");
    _ ←! refuse_if (match auth with
                    | Some a => negb (AdminBypass a) && negb (bool_decide (PhoneID a = phoneID))
                    | None => false
                    end)%bool forbidden;
    revoked ← RevokePhone phoneID;
    match revoked with
    | inl ErrPhoneNotFound => reply (HttpError 404 "not found")
    | inl e => reply (internal_error e)
    | inr _ =>
      _ ← ask (ClosePhonesByPrincipal phoneID);
      reply (JSON (doc [("status", VString "revoked"); ("phone_id", VString phoneID)]))
    end).

(** ** Principals a deployment shell has authorised *)

Definition RegisterTrustedDevice (id name os ed x fp : string) : prog (dres string) :=
  token ←? RegisterDevice id name os;
  _ ←? (if (negb (is_empty ed) || negb (is_empty x))%bool then SetDevicePublicKeys id ed x fp else Ret (inr tt));
  Ret (inr token).

Definition CreateTrustedPhone (name ed x : string) : prog (dres (string * string)) :=
  minted ←? CreatePhoneIdentity name;
  _ ←? (if (negb (is_empty ed) || negb (is_empty x))%bool then SetPhonePublicKeys minted.1 ed x else Ret (inr tt));
  Ret (inr minted).

(** ** Websockets: the first frame *)

Definition error_frame (s : engine) (now : Z) (p : payload) : NekoMessage :=
  stampEnvelope s (Relay.with_payload (NewMessage now MsgError "") (Some p)).

Definition message_frame (s : engine) (now : Z) (message : string) : NekoMessage :=
  error_frame s now (doc [("message", VString message)]).

(** [conn.WriteJSON] of an error. *)
Definition write_message (s : engine) (conn : Z) (message : string) : prog unit :=
  now ← Unix;
  ask (WriteFrame conn (message_frame s now message)).

Definition handshake_payload (s : engine) (result : HandshakeResult) : payload :=
  let p := HandshakeErrorPayload result in
  let p := if bool_decide (ErrorCode result = ErrCodeVersionMismatch)
           then <["error_code" := VString ServiceErrorProtocolUpgradeRequired]>
                (<["legacy_error_code" := VString (ErrorCode result)]> p)
           else p in
  <["server_version" := VString (AppVersion s)]>
  (<["transport_mode" := VString (transport_text (engine_mode s))]> (<["retryable" := VBool false]> p)).

Definition writeHandshakeError (s : engine) (conn : Z) (result : HandshakeResult) : prog unit :=
  now ← Unix;
  _ ← ask (WriteFrame conn (error_frame s now (handshake_payload s result)));
  ask (CloseConn conn).

Definition negotiateFirstFrame (s : engine) (msg : NekoMessage) : HandshakeResult :=
  match ValidateEnvelopeForm (Some msg) with
  | Err e => mkHandshake "" NoTransport ErrCodeInvalidEnvelope e
  | Ok _ => NegotiateHandshake (ProtocolVersion msg) (transport_text (msgTransportMode msg))
              (engine_mode s) CurrentProtocolMinor
  end.

Definition writeWSAPIError (s : engine) (conn : Z) (code message : string) (retryable : bool) (retryAfter : Z)
  : prog unit :=
  now ← Unix;
  let p := doc [("error_code", VString code); ("message", VString message); ("retryable", VBool retryable)] in
  let p := if 0 <? retryAfter then <["retry_after_seconds" := VInt retryAfter]> p else p in
  ask (WriteFrame conn (error_frame s now p)).

(** [value, _ := payload[key].(string)]. *)
Definition payload_member (p : option payload) (k : string) : string :=
  match p with None => "" | Some p => string_or_empty (p !! k) end.

(** ** Daemons *)

Definition auth_response (s : engine) (now : Z) (hs : HandshakeResult) (deviceID daemonVersion : string) : NekoMessage :=
  stampEnvelope s
    (Relay.with_version
       (Relay.with_payload (NewMessage now MsgAuthResponse deviceID)
          (Some (doc [("status", VString "authenticated"); ("protocol_version", VString (NegotiatedVersion hs));
                      ("transport_mode", VString (transport_text (hsTransportMode hs)));
                      ("server_version", VString (AppVersion s)); ("daemon_version", VString daemonVersion);
                      ("update_required",
                       VBool (negb (is_empty daemonVersion) && negb (bool_decide (daemonVersion = AppVersion s))))])))
       (NegotiatedVersion hs)).

Definition invalid_envelope_frame (s : engine) (now : Z) (deviceID : string) : NekoMessage :=
  stampEnvelope s (Relay.with_payload (NewMessage now MsgError deviceID)
    (Some (doc [("error_code", VString ErrCodeInvalidEnvelope); ("message", VString "invalid transport envelope")]))).

(** The loop reads at most [frames] frames, then its connection breaks. *)
Fixpoint daemonReadLoop (frames : nat) (s : engine) (deviceID : string) (conn : Z) : prog unit :=
  match frames with
  | O => ask (RemoveDaemon deviceID conn)
  | S frames =>
    f ← ask (ReadFrame conn);
    match f with
    | inl _ => ask (RemoveDaemon deviceID conn)
    | inr None => daemonReadLoop frames s deviceID conn
    | inr (Some msg) =>
      match ValidateFrameForTransport (Some msg) (engine_mode s) with
      | Err _ =>
        now ← Unix;
        _ ← ask (WriteFrame conn (invalid_envelope_frame s now deviceID));
        ask (RemoveDaemon deviceID conn)
      | Ok _ =>
        _ ← ask (HandleDaemonMessage deviceID msg);
        daemonReadLoop frames s deviceID conn
      end
    end
  end.

Definition ServeDaemonConn (frames : nat) (s : engine) (conn : Z) (authMsg : NekoMessage) : prog unit :=
  if negb (bool_decide (msgType authMsg = MsgRegisterDevice)) then ask (CloseConn conn)
  else
    let hs := negotiateFirstFrame s authMsg in
    if negb (is_empty (ErrorCode hs)) then writeHandshakeError s conn hs
    else
      let deviceID := payload_member (Payload authMsg) "device_id" in
      let token := payload_member (Payload authMsg) "token" in
      let daemonVersion := reportedComponentVersion (Payload authMsg) "daemon_version" in
      ok ← ValidateDeviceToken deviceID token;
      if negb ok then
        _ ← writeWSAPIError s conn ServiceErrorDeviceCredentialInvalid "invalid device token" false 0;
        ask (CloseConn conn)
      else
        added ← ask (TryAddDaemon deviceID conn daemonVersion);
        if negb added then
          _ ← writeWSAPIError s conn ServiceErrorDeviceAlreadyConnected "device identity is already connected" true 15;
          ask (CloseConn conn)
        else
          now ← Unix;
          _ ← ask (WriteFrame conn (auth_response s now hs deviceID daemonVersion));
          _ ← ask (ReplayPromptCommits deviceID);
          daemonReadLoop frames s deviceID conn.

(** [limited] and [upgraded]: the rate limiter and the websocket upgrade. *)
Definition HandleDaemonWS (frames : nat) (s : engine) (limited upgraded : bool) (conn : Z) : prog unit :=
  if (limited || negb upgraded)%bool then Ret tt
  else
    f ← ask (ReadFrame conn);
    match f with
    | inl _ => ask (CloseConn conn)
    | inr (Some authMsg) =>
      if bool_decide (msgType authMsg = MsgRegisterDevice) then ServeDaemonConn frames s conn authMsg
      else _ ← write_message s conn "expected auth message"; ask (CloseConn conn)
    | inr None => _ ← write_message s conn "expected auth message"; ask (CloseConn conn)
    end.

(** ** Phones *)

Definition device_value (d : Device) : value :=
  VObject ([("id", VString (ID d)); ("name", VString (Name d)); ("os", VString (OS d)); ("status", VString (Status d));
            ("last_seen", VInt (LastSeen d)); ("active_agents", VInt (ActiveAgents d))] ++
           if is_empty (DaemonVersion d) then [] else [("daemon_version", VString (DaemonVersion d))]).

Definition writePhoneError (s : engine) (conn : Z) (deviceID sessionID message : string) : prog unit :=
  now ← Unix;
  ask (SafeWritePhone conn (Relay.with_payload (stampEnvelope s (NewMessageWithSession now MsgError deviceID sessionID))
         (Some (doc [("message", VString message)])))).

Definition writeSubscribeError (s : engine) (conn : Z) (requestedDeviceID subscriptionID message : string) : prog unit :=
  now ← Unix;
  ask (SafeWritePhone conn (Relay.with_payload (stampEnvelope s (NewMessage now MsgError requestedDeviceID))
         (Some (doc [("message", VString message); ("device_id", VString requestedDeviceID);
                     ("subscription_id", VString subscriptionID)])))).

Definition writeSubscribeAck (s : engine) (conn : Z) (deviceID subscriptionID pwaVersion protocolVersion : string)
  : prog unit :=
  now ← Unix;
  v ← ask (ViewDaemon deviceID);
  let ack := Relay.with_version (stampEnvelope s (NewMessage now MsgSubscribeAck deviceID)) protocolVersion in
  ask (SafeWritePhone conn (Relay.with_payload ack
         (Some (doc [("status", VString "subscribed"); ("device_id", VString deviceID);
                     ("subscription_id", VString subscriptionID); ("protocol_version", VString protocolVersion);
                     ("transport_mode", VString (transport_text (engine_mode s))); ("pwa_version", VString pwaVersion);
                     ("server_version", VString (AppVersion s)); ("daemon_version", VString (viewVersion v));
                     ("refresh_required",
                      VBool (negb (is_empty pwaVersion) && negb (bool_decide (pwaVersion = AppVersion s))))])))).

Definition requestFreshSessionCatalog (s : engine) (deviceID : string) : prog unit :=
  now ← Unix;
  _ ← ask (SendToDaemon deviceID (stampEnvelope s (NewMessage now MsgRefreshSessions deviceID)));
  Ret tt.

Definition when (b : bool) (p : prog unit) : prog unit := if b then p else Ret tt.

Section Phone.
Context `{Relay.RelayCodec}.

Definition session_snapshot (s : engine) (now : Z) (deviceID : string) (v : daemon_view) : NekoMessage :=
  let m := Relay.with_version (stampEnvelope s (NewMessage now MsgSessionList deviceID)) (viewProducer v) in
  Relay.with_payload m
    (Some (doc ([("sessions", Relay.encode_sessions (default [] (viewSessions v)))] ++
                match viewCapabilities v with
                | Some caps => [("start_capabilities", Relay.encode_capabilities caps)]
                | None => []
                end))).

(** The empty list of devices stands for JSON's null too, which is what the
    code encodes when there are no rows. *)
Definition pushPhoneSnapshot (s : engine) (conn : Z) (deviceID : string) (phoneAuth : option PhoneAuth) : prog unit :=
  v ← ask (ViewDaemon deviceID);
  _ ← (if bool_decide (engine_mode s = TransportSealed)
       then match viewSealed v with Some catalog => ask (SafeWritePhone conn catalog) | None => Ret tt end
       else now ← Unix; ask (SafeWritePhone conn (session_snapshot s now deviceID v)));
  visible ← visibleDevices phoneAuth;
  devices ← decorateDeviceOnlineStatus (match visible with inr l => l | inl _ => [] end);
  now ← Unix;
  ask (SafeWritePhone conn (Relay.with_payload (stampEnvelope s (NewMessage now MsgDeviceList ""))
         (Some (doc [("devices", VArray (device_value <$> devices))])))).

(** [msg.DeviceID], or else the member [device_id]. *)
Definition subscribe_target (msg : NekoMessage) : string :=
  if is_empty (DeviceID msg) then payload_member (Payload msg) "device_id" else DeviceID msg.

Definition snapshot_and_refresh (s : engine) (conn : Z) (deviceID : string) (phoneAuth : option PhoneAuth)
    (msg : NekoMessage) : prog unit :=
  _ ← pushPhoneSnapshot s conn deviceID phoneAuth;
  when (subscribeRequestsFreshSessionCatalog (Payload msg)) (requestFreshSessionCatalog s deviceID).

(** A [subscribe] frame on an open connection: the device subscribed to and
    the switches of the last minute afterwards. *)
Definition handleResubscribe (s : engine) (conn : Z) (deviceID protocolVersion : string)
    (phoneAuth : option PhoneAuth) (switches : list Z) (msg : NekoMessage) : prog (string * list Z) :=
  let pwaVersion := reportedComponentVersion (Payload msg) "pwa_version" in
  let newID := subscribe_target msg in
  let '(subscriptionID, valid) := subscribeRequestID (Payload msg) in
  let stay (p : prog unit) : prog (string * list Z) := _ ← p; Ret (deviceID, switches) in
  if is_empty newID then stay (writeSubscribeError s conn deviceID subscriptionID "device_id required")
  else
    let newID := TrimSpace newID in
    if 256 <? len newID then stay (writeSubscribeError s conn deviceID subscriptionID "invalid device_id")
    else if negb valid then stay (writeSubscribeError s conn newID "" "invalid subscription_id")
    else if bool_decide (newID = deviceID) then
      stay (_ ← writeSubscribeAck s conn deviceID subscriptionID pwaVersion protocolVersion;
            when (subscribeRequestsFreshSessionCatalog (Payload msg)) (requestFreshSessionCatalog s deviceID))
    else
      now ← Now;
      let '(allowed, switches) := allowDeviceSwitch switches now in
      let stay (p : prog unit) : prog (string * list Z) := _ ← p; Ret (deviceID, switches) in
      if negb allowed then stay (writeSubscribeError s conn newID subscriptionID "too many device switches")
      else
        known ← DeviceExists newID;
        if negb known then stay (writeSubscribeError s conn newID subscriptionID "unknown device")
        else
          ok ← phoneMayAccessDevice phoneAuth newID;
          if negb ok then stay (writeSubscribeError s conn newID subscriptionID "forbidden")
          else
            _ ← ask (ResubscribePhone newID conn);
            _ ← writeSubscribeAck s conn newID subscriptionID pwaVersion protocolVersion;
            _ ← snapshot_and_refresh s conn newID phoneAuth msg;
            Ret (newID, switches).

(** The device a frame of an open connection is for: the subscribed one. *)
Definition frame_matches (deviceID : string) (msg : NekoMessage) : bool :=
  let frameDeviceID := TrimSpace (DeviceID msg) in
  if bool_decide (msgType msg = MsgHeartbeat)
  then (is_empty frameDeviceID || bool_decide (frameDeviceID = deviceID))%bool
  else bool_decide (frameDeviceID = deviceID).

(** At most [frames] frames are read; the result is the live subscription. *)
Fixpoint phoneReadLoop (frames : nat) (s : engine) (conn : Z) (deviceID protocolVersion : string)
    (phoneAuth : option PhoneAuth) (switches : list Z) : prog string :=
  match frames with
  | O => Ret deviceID
  | S frames =>
    f ← ask (ReadFrame conn);
    match f with
    | inl _ => Ret deviceID
    | inr None => phoneReadLoop frames s conn deviceID protocolVersion phoneAuth switches
    | inr (Some msg) =>
      match ValidateFrameForTransport (Some msg) (engine_mode s) with
      | Err _ =>
        _ ← writePhoneError s conn deviceID (SessionID msg) "invalid transport envelope";
        Ret deviceID
      | Ok _ =>
        if bool_decide (msgType msg = MsgSubscribe)
        then
          st ← handleResubscribe s conn deviceID protocolVersion phoneAuth switches msg;
          phoneReadLoop frames s conn st.1 protocolVersion phoneAuth st.2
        else if negb (frame_matches deviceID msg)
        then
          _ ← writePhoneError s conn deviceID (SessionID msg) "device_id does not match subscription";
          phoneReadLoop frames s conn deviceID protocolVersion phoneAuth switches
        else
          _ ← ask (HandlePhoneMessage deviceID (Relay.with_device msg deviceID));
          phoneReadLoop frames s conn deviceID protocolVersion phoneAuth switches
      end
    end
  end.

(** The credential of a phone: from the request, or from the first frame. *)
Definition phone_secret (r : request) (msg : NekoMessage) : string :=
  let secret := phoneSecretFromRequest r in
  if negb (is_empty secret) then secret
  else
    let secret := payload_member (Payload msg) "secret" in
    if is_empty secret then payload_member (Payload msg) "phone_token" else secret.

(** [inl] when the credential is refused. *)
Definition authenticate_phone (s : engine) (r : request) (msg : NekoMessage) : prog (unit + option PhoneAuth) :=
  if is_empty (phoneSecret s) then Ret (inr None)
  else
    let secret := phone_secret r msg in
    if secureEqual secret (phoneSecret s) then Ret (inr (Some admin_auth))
    else
      auth ← ValidatePhoneToken secret;
      Ret (match auth with inr a => inr (Some a) | inl _ => inl tt end).

(** What follows the checks of the first frame: [RemovePhone] is deferred. *)
Definition serve_subscribed (frames : nat) (s : engine) (conn : Z) (deviceID subscriptionID : string)
    (hs : HandshakeResult) (phoneAuth : option PhoneAuth) (msg : NekoMessage) : prog unit :=
  let phoneID := match phoneAuth with Some a => PhoneID a | None => "" end in
  _ ← ask (AddPhoneAuthenticated deviceID conn phoneID (is_admin phoneAuth));
  _ ← writeSubscribeAck s conn deviceID subscriptionID (reportedComponentVersion (Payload msg) "pwa_version")
        (NegotiatedVersion hs);
  _ ← snapshot_and_refresh s conn deviceID phoneAuth msg;
  currentDevice ← phoneReadLoop frames s conn deviceID (NegotiatedVersion hs) phoneAuth [];
  ask (RemovePhone currentDevice conn).

Definition ServePhoneConn (frames : nat) (s : engine) (conn : Z) (r : request) (msg : NekoMessage) : prog unit :=
  if negb (bool_decide (msgType msg = MsgSubscribe)) then write_message s conn "first message must be subscribe"
  else
    let hs := negotiateFirstFrame s msg in
    if negb (is_empty (ErrorCode hs)) then writeHandshakeError s conn hs
    else
      authenticated ← authenticate_phone s r msg;
      match authenticated with
      | inl _ =>
        _ ← writeWSAPIError s conn ServiceErrorPhoneCredentialInvalid "phone credential invalid" false 0;
        ask (CloseConn conn)
      | inr phoneAuth =>
        let deviceID := subscribe_target msg in
        if is_empty deviceID
        then _ ← write_message s conn "device_id required in first message (type=subscribe)"; ask (CloseConn conn)
        else
          let deviceID := TrimSpace deviceID in
          if 256 <? len deviceID then write_message s conn "invalid device_id"
          else
            known ← DeviceExists deviceID;
            if negb known then write_message s conn "unknown device"
            else
              ok ← phoneMayAccessDevice phoneAuth deviceID;
              if negb ok then _ ← write_message s conn "forbidden"; ask (CloseConn conn)
              else
                let '(subscriptionID, valid) := subscribeRequestID (Payload msg) in
                if negb valid
                then
                  now ← Unix;
                  ask (WriteFrame conn (mkMessage "" NoTransport MsgError "" "" "" "" None now
                         (Some (doc [("message", VString "invalid subscription_id")])) None))
                else serve_subscribed frames s conn deviceID subscriptionID hs phoneAuth msg
      end.

Definition HandlePhoneWS (frames : nat) (s : engine) (limited upgraded : bool) (conn : Z) (r : request) : prog unit :=
  if (limited || negb upgraded)%bool then Ret tt
  else
    f ← ask (ReadFrame conn);
    _ ← (match f with
         | inl _ => ask (CloseConn conn)
         | inr None => _ ← write_message s conn "invalid json"; ask (CloseConn conn)
         | inr (Some msg) => ServePhoneConn frames s conn r msg
         end);
    ask (CloseConn conn).
End Phone.

(** ** Requests to the relay *)

Inductive route : Set :=
  | RouteDevices | RouteDeviceSessions | RouteMessages | RoutePushSubscribe | RouteVAPIDPublicKey
  | RouteRegisterDevice | RouteGeneratePairCode | RouteUploadDeviceKeys | RouteDeviceGrants
  | RouteKeyPackages | RouteUploadKeyPackage | RouteConsumePairCode | RoutePhoneBootstrap
  | RouteListPhones | RouteRevokePhone.

(** What a client does: one HTTP request, or one websocket with all its frames. *)
Inductive client : Type :=
  | HTTP (to : route) (r : request)
  | DaemonSocket (frames : nat) (limited upgraded : bool) (conn : Z)
  | PhoneSocket (frames : nat) (limited upgraded : bool) (conn : Z) (r : request).

Section Routes.
Context `{WebPush.NetHost} `{Relay.RelayCodec}.

(** [RegisterRoutes], [RegisterDataPlaneRoutes]. *)
Definition serve_http (s : engine) (to : route) (r : request) : prog response :=
  match to with
  | RouteDevices => handleListDevices s r
  | RouteDeviceSessions => handleDeviceSessions s r
  | RouteMessages => handleMessages s r
  | RoutePushSubscribe => handlePushSubscribe s r
  | RouteVAPIDPublicKey => handleVAPIDPublicKey s r
  | RouteRegisterDevice => handleRegisterDevice s r
  | RouteGeneratePairCode => handleGeneratePairCode s r
  | RouteUploadDeviceKeys => handleUploadDeviceKeys s r
  | RouteDeviceGrants => handleListDeviceGrants s r
  | RouteKeyPackages => handleKeyPackages s r
  | RouteUploadKeyPackage => handleUploadKeyPackage s r
  | RouteConsumePairCode => handleConsumePairCode s r
  | RoutePhoneBootstrap => handlePhoneBootstrap s r
  | RouteListPhones => handleListPhones s r
  | RouteRevokePhone => handleRevokePhone s r
  end.

Definition serve (s : engine) (c : client) : prog (option response) :=
  match c with
  | HTTP to r => resp ← serve_http s to r; Ret (Some resp)
  | DaemonSocket frames limited upgraded conn => _ ← HandleDaemonWS frames s limited upgraded conn; Ret None
  | PhoneSocket frames limited upgraded conn r => _ ← HandlePhoneWS frames s limited upgraded conn r; Ret None
  end.
End Routes.

(** ** Concurrent clients

    Every client is served by a goroutine; they interleave call by call. A
    restart of the server ends them all and forgets the phone sockets, and keeps
    the database. [log] has the calls of all clients, the latest first. *)

Record event : Type := Ev { ev_call : call; ev_answer : answer ev_call }.

Abbreviation history := (list event).

Record thread : Type := mkThread { th_client : client; th_history : history; th_prog : prog (option response) }.

Record world : Type := mkWorld { w_nest : nest; threads : list thread; log : list (nat * event) }.

Inductive world_op : Type :=
  | Arrive (c : client)
  | Advance (i : nat) (ch : choice)
  | RestartServer.

Section World.
Context `{WebPush.NetHost} `{Relay.RelayCodec} `{RO : RowOrder}.
Context (encode : NekoMessage -> option string) (s : engine).

Definition advance (i : nat) (ch : choice) (w : world) : world :=
  match threads w !! i with
  | Some (mkThread c h (Do x k)) =>
    let '(a, n) := perform encode ch x (w_nest w) in
    mkWorld n (<[i := mkThread c (Ev x a :: h) (k a)]> (threads w)) ((i, Ev x a) :: log w)
  | _ => w
  end.

Definition world_step (w : world) (op : world_op) : world :=
  match op with
  | Arrive c => mkWorld (w_nest w) (threads w ++ [mkThread c [] (serve s c)]) (log w)
  | Advance i ch => advance i ch w
  | RestartServer =>
    mkWorld (with_phones (w_nest w) Connections.Phones.empty_manager)
      ((fun t => mkThread (th_client t) (th_history t) (Ret None)) <$> threads w) (log w)
  end.

Definition run_world (ops : list world_op) (w : world) : world := foldl world_step w ops.
End World.

(** A new nest. *)
Definition new_nest : nest := mkNest empty_tables Connections.Phones.empty_manager 1.
Definition new_world : world := mkWorld new_nest [] [].
