(* ===== verification/Principals.v ===== *)
(** * The digest registry of principals (relaycore/principals.go)

    The relay's own implementation of [PrincipalAuthenticator] and
    [PrincipalSynchronizer]: credentials approved elsewhere are imported as
    SHA-256 digests, and a presented token is looked up by its digest. *)

From stdpp Require Import base tactics list gmap strings.
From Stdlib Require Import Ascii ZArith Lia.
From S2P Require Import Prelude GoStrings Sha256 Json AccessStore.

(** ** Credentials (ports.go, engine.go) *)

Inductive CredentialKind : Type :=
  | CredentialRaw
  | CredentialSHA256
  | OtherKind (s : string).

Record Credential : Type := mkCredential { Kind : CredentialKind; Value : string }.

Definition rawCredentialDigest (raw : string) : string := hex_encode (sha256 raw).

Definition SHA256Credential (raw : string) : Credential := mkCredential CredentialSHA256 (rawCredentialDigest raw).

Definition is_hex_digit (c : ascii) : bool := (is_digit (code c) || ((97 <=? code c) && (code c <=? 102)))%bool.

(** A rune of the value that is not one of the sixteen digits fails the check;
    so does each byte of a longer character. *)
Definition validateCredential (credential : Credential) : res unit :=
  _ ← fail_if (is_empty (Value credential)) "relaycore: credential is required";
  match Kind credential with
  | CredentialRaw => Ok tt
  | k =>
    _ ← fail_if (match k with CredentialSHA256 => false | _ => true end || negb (len (Value credential) =? 64))
          "relaycore: invalid credential kind or digest";
    fail_if (negb (forallb is_hex_digit (String.list_ascii_of_string (Value credential))))
      "relaycore: invalid sha256 credential digest"
  end.

Definition credentialDigest (credential : Credential) : res string :=
  _ ← validateCredential credential;
  match Kind credential with
  | CredentialRaw => Ok (rawCredentialDigest (Value credential))
  | _ => Ok (Value credential)
  end.

Definition constantDigestEqual (a b : string) : bool := ((len a =? len b) && bool_decide (a = b))%bool.

(** ** The registry *)

Record phoneCredential : Type := mkPhoneCredential { Digest : string; pcName : string }.

Record DigestPrincipalRegistry : Type := mkRegistry {
  devices : gmap string string;
  phones : gmap string phoneCredential
}.

Definition NewDigestPrincipalRegistry : DigestPrincipalRegistry := mkRegistry ∅ ∅.

Definition ErrCredentialIdentityConflict : string := "relaycore: credential already belongs to another identity".

(** [PrincipalAuthenticator] and [PrincipalSynchronizer]: what a client of the
    registry may call, on a state of its own. *)
Class PrincipalPort (R : Type) : Type := {
  SyncDevice : string -> Credential -> R -> res unit * R;
  RevokeDevice : string -> R -> R;
  SyncPhone : string -> string -> Credential -> R -> res unit * R;
  RevokePhone : string -> R -> R;
  ValidateDeviceToken : string -> string -> R -> bool;
  ValidatePhoneToken : string -> R -> dres PhoneAuth
}.

Section Registry.
Context `{MapOrder}.

(** The loop over the other identities. *)
Definition taken_by_other {A} (digest_of : A -> string) (m : gmap string A) (id digest : string) : bool :=
  existsb (fun '(existingID, existing) =>
    (negb (bool_decide (existingID = id)) && constantDigestEqual (digest_of existing) digest)%bool) (range m).

Definition registry_SyncDevice (id : string) (credential : Credential) (r : DigestPrincipalRegistry) : res unit * DigestPrincipalRegistry :=
  if is_empty id then (Err "relaycore: device id is required", r)
  else match credentialDigest credential with
       | Err e => (Err e, r)
       | Ok digest =>
         if taken_by_other (fun d => d) (devices r) id digest then (Err ErrCredentialIdentityConflict, r)
         else (Ok tt, mkRegistry (<[id := digest]> (devices r)) (phones r))
       end.

Definition registry_RevokeDevice (id : string) (r : DigestPrincipalRegistry) : DigestPrincipalRegistry :=
  mkRegistry (delete id (devices r)) (phones r).

Definition registry_SyncPhone (id name : string) (credential : Credential) (r : DigestPrincipalRegistry)
  : res unit * DigestPrincipalRegistry :=
  if is_empty id then (Err "relaycore: phone id is required", r)
  else match credentialDigest credential with
       | Err e => (Err e, r)
       | Ok digest =>
         if taken_by_other Digest (phones r) id digest then (Err ErrCredentialIdentityConflict, r)
         else (Ok tt, mkRegistry (devices r) (<[id := mkPhoneCredential digest name]> (phones r)))
       end.

Definition registry_RevokePhone (id : string) (r : DigestPrincipalRegistry) : DigestPrincipalRegistry :=
  mkRegistry (devices r) (delete id (phones r)).

Definition registry_ValidateDeviceToken (id raw : string) (r : DigestPrincipalRegistry) : bool :=
  match devices r !! id with
  | Some want => constantDigestEqual want (rawCredentialDigest raw)
  | None => false
  end.

Definition registry_ValidatePhoneToken (raw : string) (r : DigestPrincipalRegistry) : dres PhoneAuth :=
  let digest := rawCredentialDigest raw in
  match List.find (fun '(_, phone) => constantDigestEqual (Digest phone) digest) (range (phones r)) with
  | Some (id, phone) => inr (mkPhoneAuth id (pcName phone) false)
  | None => inl ErrPhoneTokenInvalid
  end.

#[export] Instance registry_port : PrincipalPort DigestPrincipalRegistry := {|
  SyncDevice := registry_SyncDevice;
  RevokeDevice := registry_RevokeDevice;
  SyncPhone := registry_SyncPhone;
  RevokePhone := registry_RevokePhone;
  ValidateDeviceToken := registry_ValidateDeviceToken;
  ValidatePhoneToken := registry_ValidatePhoneToken
|}.
End Registry.

(** ** The engine's use of it (engine.go)

    [None]: no synchronizer was configured. *)

Section Engine.
Context `{PrincipalPort R}.

Definition not_configured : string := "relaycore: principal synchronization is not configured".

Definition SyncApprovedDevice (id : string) (credential : Credential) (r : option R) : res unit * option R :=
  match r with
  | None => (Err not_configured, r)
  | Some x =>
    match validateCredential credential with
    | Err e => (Err e, r)
    | Ok _ => let '(a, x) := SyncDevice id credential x in (a, Some x)
    end
  end.

Definition SyncApprovedPhone (id name : string) (credential : Credential) (r : option R) : res unit * option R :=
  match r with
  | None => (Err not_configured, r)
  | Some x =>
    match validateCredential credential with
    | Err e => (Err e, r)
    | Ok _ => let '(a, x) := SyncPhone id name credential x in (a, Some x)
    end
  end.
End Engine.
