(* ===== verification/Attachments.v ===== *)
(** * Uploaded files at the relay (relaycore/attachments.go)

    Uploading, reading back by capability key or credential, and pruning. The
    directory is a map from names to files; what a name that leaves the
    directory would open is a parameter, as are [http.DetectContentType] and the
    JSON encoding of the metadata. A deployment's own attachment store is an
    argument. *)

From stdpp Require Import base tactics list gmap strings sorting.
From Stdlib Require Import Ascii ZArith Lia.
From S2P Require Import Prelude GoStrings GoPath Json Sha256 Protocol AccessStore RelayAccess.

(** ** Names *)

Fixpoint map_bytes (f : ascii -> option ascii) (s : string) : string :=
  match s with
  | EmptyString => EmptyString
  | String c s' => match f c with Some d => String d (map_bytes f s') | None => map_bytes f s' end
  end.

(** [strings.ReplaceAll(name, "..", "")] *)
Fixpoint remove_dotdot (s : string) : string :=
  match s with
  | String c1 (String c2 s'' as s') =>
    if (Ascii.eqb c1 dot && Ascii.eqb c2 dot)%bool then remove_dotdot s'' else String c1 (remove_dotdot s')
  | _ => s
  end.

Definition backslash_to_slash (c : ascii) : option ascii := Some (if code c =? 92 then slash else c).

(** The characters a file name may not have; control characters vanish. *)
Definition safe_name_byte (c : ascii) : option ascii :=
  let b := code c in
  if b <? 32 then None
  else if ((b =? 47) || (b =? 92) || (b =? 58) || (b =? 42) || (b =? 63) || (b =? 34) || (b =? 60) || (b =? 62) || (b =? 124))%bool
  then Some "_"%char else Some c.

Definition max_name_bytes : nat := 120.

(** [strings.Map] writes U+FFFD for each byte that is not part of a character. *)
Definition sanitizeFilename (name : string) : string :=
  let name := map_bytes backslash_to_slash name in
  let name := remove_dotdot (Base name) in
  let name := map_bytes safe_name_byte (coerceUTF8 name) in
  TrimSpace (take_bytes max_name_bytes name).

Definition allowedMIME : list string :=
  ["image/jpeg"; "image/jpg"; "image/png"; "image/webp"; "image/gif"; "text/plain"; "text/markdown";
   "application/pdf"; "application/json"].

Definition okExt : list (string * string) :=
  [(".jpg", "image/jpeg"); (".jpeg", "image/jpeg"); (".png", "image/png"); (".webp", "image/webp"); (".gif", "image/gif");
   (".txt", "text/plain"); (".md", "text/markdown"); (".pdf", "application/pdf"); (".json", "application/json")].

(** [strings.ToLower], as far as the comparison with ASCII constants goes. *)
Definition lower (s : string) : string := to_lower (fold_to_ascii s).

Fixpoint assoc_string (k : string) (l : list (string * string)) : option string :=
  match l with [] => None | (k', v) :: l => if bool_decide (k = k') then Some v else assoc_string k l end.

Definition extFromMIME (mime : string) : string :=
  default ".bin" (assoc_string (lower mime)
    [("image/jpeg", ".jpg"); ("image/jpg", ".jpg"); ("image/png", ".png"); ("image/webp", ".webp"); ("image/gif", ".gif");
     ("application/pdf", ".pdf"); ("text/plain", ".txt"); ("text/markdown", ".md"); ("application/json", ".json")]).

(** ** Metadata *)

Record attachmentMeta : Type := mkMeta {
  mID : string;
  mKey : string;
  mName : string;
  mMIME : string;
  mSize : Z;
  mDeviceID : string;
  mSessionID : string;
  mCreated : Z;
  mExt : string
}.

(** The JSON document of the metadata. The encoder replaces what is not UTF-8. *)
Class MetaCodec : Type := {
  marshal_meta : attachmentMeta -> string;
  unmarshal_meta : string -> res attachmentMeta
}.

Definition coerce_meta (m : attachmentMeta) : attachmentMeta :=
  mkMeta (coerceUTF8 (mID m)) (coerceUTF8 (mKey m)) (coerceUTF8 (mName m)) (coerceUTF8 (mMIME m)) (mSize m)
    (coerceUTF8 (mDeviceID m)) (coerceUTF8 (mSessionID m)) (mCreated m) (coerceUTF8 (mExt m)).

Class MetaCodecLaws `{MetaCodec} : Prop := {
  unmarshal_marshal_meta : forall m, 0 <= mSize m <= max_int64 -> 0 <= mCreated m <= max_int64 ->
    unmarshal_meta (marshal_meta m) = Ok (coerce_meta m)
}.

(** ** The directory *)

Record file_entry : Type := mkFile { content : string; mtime : Z }.
Abbreviation directory := (gmap string file_entry).

(** [outside]: what the joined path opens when the name is not a plain one. *)
Definition read_name (outside : string -> option string) (d : directory) (name : string) : option string :=
  if plain_segment name then content <$> d !! name else outside name.

(** [os.WriteFile]: a failed one can leave a part behind. *)
Inductive write : Type :=
  | Written
  | NotWritten (part : option string).

Definition write_name (w : write) (now : Z) (d : directory) (name data : string) : bool * directory :=
  match w with
  | Written => (true, <[name := mkFile data now]> d)
  | NotWritten None => (false, d)
  | NotWritten (Some part) => (false, <[name := mkFile part now]> d)
  end.

(** [filepath.Glob(id + ".*")] in the directory; names and ids hold no
    metacharacters. *)
Definition glob (d : directory) (id : string) : list string :=
  merge_sort String.le (filter (fun name => has_prefix (id +:+ ".") name = true) (map_to_list d).*1).

Definition removeAttachmentPair (id : string) (d : directory) : directory := foldl (fun d name => delete name d) d (glob d id).

(** ** Uploading *)

(** The multipart form, as far as it could be read. *)
Inductive upload_form : Type :=
  | FormInvalid
  | FileMissing
  | FileUnreadable
  | Form (filename contentType data device_id session_id : string).

Definition maxAttachmentBytes : Z := 4194304.

Inductive upload_response : Type :=
  | UploadRefused (status : Z) (message : string)
  | Uploaded (id url name mime : string) (size : Z) (key : string).

Definition attachmentURL (builder : option (string -> string -> string)) (id key : string) : string :=
  match builder with
  | Some f => f id key
  | None => "/api/attachments/" +:+ id +:+ "?k=" +:+ key
  end.

Section Upload.
Context `{MetaCodec} (detect : string -> string).

Definition upload_mime (mode : TransportMode) (contentType data : string) : string :=
  let mime :=
    if (negb (bool_decide (mode = TransportSealed)) && (is_empty contentType || bool_decide (contentType = "application/octet-stream")))%bool
    then detect data else contentType in
  lower (TrimSpace (match split_byte ";" mime with m :: _ => m | [] => "" end)).

(** A MIME type that may be stored; the extension decides otherwise. *)
Definition accepted_mime (mime filename : string) : option string :=
  if bool_decide (mime ∈ allowedMIME) then Some mime else assoc_string (lower (Ext filename)) okExt.

Definition meta_of (id key filename mime data device_id session_id : string) (now : Z) : attachmentMeta :=
  let ext := Ext filename in
  let ext := if is_empty ext then extFromMIME mime else ext in
  let safeName := sanitizeFilename filename in
  let safeName := if is_empty safeName then "file" +:+ ext else safeName in
  mkMeta id key safeName mime (len data) device_id session_id now ext.

(** How the disk takes it: the directory, the two files, the removal. *)
Record upload_io : Type := mkUploadIO { mkdir_ok : bool; write_body : write; write_meta : write; remove_ok : bool }.

Definition store_upload (u : upload_io) (now : Z) (m : attachmentMeta) (data : string) (d : directory) : option (Z * string) * directory :=
  if negb (mkdir_ok u) then (Some (500, "storage error"), d)
  else
    let name := mID m +:+ mExt m in
    let '(ok, d) := write_name (write_body u) now d name data in
    if negb ok then (Some (500, "write failed"), d)
    else
      let '(ok, d) := write_name (write_meta u) now d (mID m +:+ ".meta.json") (marshal_meta m) in
      if negb ok then (Some (500, "meta write failed"), if remove_ok u then delete name d else d)
      else (None, d).

(** [put]: the answer of the deployment's store, when there is one. *)
Definition handleAttachmentUpload (s : engine) (builder : option (string -> string -> string)) (put : option bool)
    (form : upload_form) (id key : res string) (u : upload_io) (now : Z) (d : directory) : upload_response * directory :=
  match form with
  | FormInvalid => (UploadRefused 400 "file too large or invalid multipart", d)
  | FileMissing => (UploadRefused 400 "file required", d)
  | FileUnreadable => (UploadRefused 400 "read failed", d)
  | Form filename contentType data device_id session_id =>
    if maxAttachmentBytes <? len data then (UploadRefused 413 "file exceeds 4MB limit", d)
    else
      let mime := upload_mime (engine_mode s) contentType data in
      match accepted_mime mime filename with
      | None => (UploadRefused 400 ("unsupported file type: " +:+ mime), d)
      | Some mime =>
        match id, key with
        | Err _, _ => (UploadRefused 500 "id gen failed", d)
        | _, Err _ => (UploadRefused 500 "key gen failed", d)
        | Ok id, Ok key =>
          let m := meta_of id key filename mime data device_id session_id now in
          let answer := Uploaded id (attachmentURL builder id key) (mName m) mime (len data) key in
          match put with
          | Some ok => (if ok then answer else UploadRefused 500 "storage error", d)
          | None =>
            let '(failed, d) := store_upload u now m data d in
            (match failed with Some (status, e) => UploadRefused status e | None => answer end, d)
          end
        end
      end
  end.

(** [requirePhoneAuth] comes first. *)
Definition uploadAuthorized (s : engine) (r : request) : prog (response + option PhoneAuth) := requirePhoneAuthResult s r.
End Upload.

(** [randomHex(16)] *)
Definition randomHex (b : res string) : res string := b ← b; Ok (hex_encode b).

(** ** Reading *)

Inductive get_response : Type :=
  | GetRefused (r : response)
  | Served (mime disposition data : string).

Definition not_found : get_response := GetRefused (HttpError 404 "not found").
Definition attachment_credential_invalid : get_response :=
  GetRefused (APIError 401 ServiceErrorPhoneCredentialInvalid "attachment credential invalid" false).

(** [subtleConstEq] compares in constant time. *)
Definition subtleConstEq (a b : string) : bool := bool_decide (a = b).

Definition attachmentGetAuthorized (s : engine) (r : request) (presentedKey capabilityKey deviceID : string) : prog bool :=
  if is_empty (phoneSecret s) then Ret true
  else if (negb (is_empty presentedKey) && subtleConstEq presentedKey capabilityKey)%bool then Ret true
  else
    let cred := phoneSecretFromRequest r in
    if is_empty cred then Ret false
    else if secureEqual cred (phoneSecret s) then Ret true
    else
      auth ← ValidatePhoneToken cred;
      match auth with
      | inl _ => Ret false
      | inr auth => if is_empty deviceID then Ret true else phoneMayAccessDevice (Some auth) deviceID
      end.

(** [writeAttachmentSecurityHeaders]: the disposition; the others are constant. *)
Definition content_disposition (mime name : string) : string :=
  let disposition := if has_prefix "image/" (lower mime) then "inline" else "attachment" in
  let dispName := map_bytes (fun c => if code c =? 34 then None else Some c) name in
  if is_empty dispName then disposition else disposition +:+ "; filename=" +:+ quoted dispName.

(** The branch of a deployment's own store; [got]: its answer. *)
Definition handleAttachmentGetStored (s : engine) (r : request) (got : res (attachmentMeta * string)) : prog get_response :=
  match got with
  | Err _ => Ret not_found
  | Ok (m, data) =>
    ok ← attachmentGetAuthorized s r (query_param r "k") (mKey m) (mDeviceID m);
    Ret (if (ok : bool) then Served (mMIME m) (content_disposition (mMIME m) (mName m)) data else attachment_credential_invalid)
  end.

Section Get.
Context `{MetaCodec} (outside : string -> option string).

Definition bad_id (id : string) : bool := (is_empty id || contains_byte slash id || contains id "..")%bool.

(** The metadata; an older format had it in [id.json]. *)
Definition read_meta (id : string) (d : directory) : get_response + attachmentMeta :=
  match (match read_name outside d (id +:+ ".meta.json") with
         | Some b => Some b
         | None => read_name outside d (id +:+ ".json")
         end) with
  | None => inl not_found
  | Some b => match unmarshal_meta b with
              | Err _ => inl (GetRefused (HttpError 500 "corrupt meta"))
              | Ok m => inr m
              end
  end.

(** The body; failing that, the first other file of the id that opens. *)
Definition read_body (id ext : string) (d : directory) : option string :=
  match read_name outside d (id +:+ ext) with
  | Some b => Some b
  | None =>
    match List.filter (fun name => negb (has_suffix ".json" name)) (glob d id) with
    | name :: _ => content <$> d !! name
    | [] => None
    end
  end.

(** [d1], [d2]: the directory when the metadata and when the body is opened. *)
Definition handleAttachmentGet (s : engine) (r : request) (id : string) (d1 d2 : directory) : prog get_response :=
  if bad_id id then Ret not_found
  else
    match read_meta id d1 with
    | inl e => Ret e
    | inr m =>
      ok ← attachmentGetAuthorized s r (query_param r "k") (mKey m) (mDeviceID m);
      Ret (if negb ok then attachment_credential_invalid
           else match read_body id (mExt m) d2 with
                | Some data => Served (mMIME m) (content_disposition (mMIME m) (mName m)) data
                | None => not_found
                end)
    end.
End Get.

(** Which handler a path goes to: the path after [/api/attachments], without
    the slashes around it. *)
Inductive attachment_route : Type :=
  | ToUpload
  | ToGet (id : string)
  | ToNone.

Fixpoint trim_left_slashes (p : string) : string :=
  match p with
  | String c p' => if Ascii.eqb c slash then trim_left_slashes p' else p
  | EmptyString => EmptyString
  end.

Definition handleAttachments (method path : string) : attachment_route :=
  let path := trim_right_slashes (trim_left_slashes (trim_prefix path "/api/attachments")) in
  if is_empty path then (if bool_decide (method = "POST") then ToUpload else ToNone)
  else if bool_decide (method = "GET") then ToGet path else ToNone.

(** ** Pruning *)

Record prune_item : Type := mkItem { itemID : string; itemMod : Z }.

(** The id of a metadata file, old format included. *)
Definition meta_id (name : string) : option string :=
  if has_suffix ".meta.json" name then Some (trim_suffix name ".meta.json")
  else if has_suffix ".json" name then Some (trim_suffix name ".json")
  else None.

(** The loop over the names found at first; a file removed since is skipped. *)
Fixpoint prune_scan (cutoff : Z) (names : list string) (items : list prune_item) (d : directory) : list prune_item * directory :=
  match names with
  | [] => (items, d)
  | name :: names =>
    match meta_id name with
    | None => prune_scan cutoff names items d
    | Some id =>
      match d !! name with
      | None => prune_scan cutoff names items d
      | Some e =>
        if mtime e <? cutoff then prune_scan cutoff names items (removeAttachmentPair id d)
        else prune_scan cutoff names (items ++ [mkItem id (mtime e)]) d
      end
    end
  end.

Definition listing (d : directory) : list string := merge_sort String.le (map_to_list d).*1.

(** Which of two files of the same age goes first is left open by the source;
    here the one listed first. *)
Definition pruneAttachments (cutoff maxFiles : Z) (d : directory) : directory :=
  let '(items, d) := prune_scan cutoff (listing d) [] d in
  if ((maxFiles <=? 0) || (Z.of_nat (List.length items) <=? maxFiles))%bool then d
  else
    let drop := (List.length items - Z.to_nat maxFiles)%nat in
    foldl (fun d i => removeAttachmentPair (itemID i) d) d (take drop (sort_by itemMod items)).

Definition prune_age : Z := 7 * 24 * 3600.
Definition prune_max : Z := 2000.
Definition scheduleAttachmentPrune (now : Z) (d : directory) : directory := pruneAttachments (now - prune_age) prune_max d.
