(* ===== verification/RelayEdge.v ===== *)
(** * The edge of the relay (relaycore/cors.go, relaycore/util.go, and the origin
    checks of relaycore/websocket.go)

    Which address a request is counted under, which origins a browser may come
    from, and what the middleware answers. The environment is an argument. *)

From stdpp Require Import base tactics list gmap strings.
From Stdlib Require Import Ascii ZArith Lia.
From S2P Require Import Prelude GoStrings GoPath Json JsonDecode WebPush NetNames.

(** The environment variables and the part of a request the edge reads. A header
    that is missing is empty. *)
Record environment : Type := mkEnv {
  NEKONEST_TRUST_PROXY : string;
  NEKONEST_TRUSTED_PROXY_CIDRS : string;
  NEKONEST_ALLOWED_ORIGINS : string
}.

Record Request : Type := mkRequest {
  Method : string;
  RemoteAddr : string;
  TLS : bool;
  rHost : string;
  Origin : string;
  XForwardedFor : string;
  XRealIP : string;
  XForwardedProto : string
}.

Definition comma : ascii := ",".

(** ** Client addresses *)

Definition trustProxy (env : environment) : bool :=
  let v := TrimSpace (NEKONEST_TRUST_PROXY env) in
  (String.eqb v "1" || String.eqb (fold_name v) "true" || String.eqb (fold_name v) "yes")%bool.

(** The host of an address that may have a port. *)
Definition host_of_addr (addr : string) : string :=
  match SplitHostPort addr with Some (host, _) => host | None => addr end.

Section Edge.
Context `{NetParse}.
Variable env : environment.

(** One entry of the list of trusted networks. *)
Definition trusts (ip : IP) (item : string) : bool :=
  let item := TrimSpace item in
  if is_empty item then false
  else match net_ParseIP item with
       | Some trustedIP => Equal trustedIP ip
       | None => match net_ParseCIDR item with Some network => Contains network ip | None => false end
       end.

Definition trustedProxyRequest (r : Request) : bool :=
  if negb (trustProxy env) then false
  else match net_ParseIP (trim_brackets (host_of_addr (TrimSpace (RemoteAddr r)))) with
       | None => false
       | Some ip => (IsLoopback ip || existsb (trusts ip) (split_byte comma (NEKONEST_TRUSTED_PROXY_CIDRS env)))%bool
       end.

(** The last part that satisfies a condition, trimmed. *)
Definition last_part (p : string -> bool) (header : string) : option string :=
  List.find p (reverse (TrimSpace <$> split_byte comma header)).

Definition clientIPKey (r : Request) : string :=
  let addr := host_of_addr (RemoteAddr r) in
  if trustedProxyRequest r then
    match (if is_empty (XForwardedFor r) then None else last_part (fun h => negb (is_empty h)) (XForwardedFor r)) with
    | Some h => h
    | None => let xrip := TrimSpace (XRealIP r) in if is_empty xrip then addr else xrip
    end
  else addr.

(** ** Origins *)

(** The host and the port of [equalOriginHost]. *)
Definition normalize_host (hostport scheme : string) : string * string :=
  let '(host, port) := match SplitHostPort hostport with Some hp => hp | None => (trim_brackets hostport, "") end in
  (to_lower host, if is_empty port then (if String.eqb scheme "https" then "443" else "80") else port).

Definition equalOriginHost (a b scheme : string) : bool :=
  bool_decide (normalize_host a scheme = normalize_host b scheme).

Definition request_scheme (r : Request) : string :=
  if TLS r then "https"
  else if trustedProxyRequest r
  then default "http" (last_part (fun s => String.eqb s "http" || String.eqb s "https")%bool (XForwardedProto r))
  else "http".

Definition isSameOrigin (r : Request) (origin : string) : bool :=
  match url_Parse origin with
  | None => false
  | Some u =>
    if (is_empty (uHost u) || (negb (String.eqb (uScheme u) "http") && negb (String.eqb (uScheme u) "https")))%bool then false
    else if negb (String.eqb (uScheme u) (request_scheme r)) then false
    else equalOriginHost (uHost u) (rHost r) (request_scheme r)
  end.

(** [isAllowedOrigin] of websocket.go. *)
Definition isAllowedOrigin (r : Request) (origin : string) : bool :=
  let raw := TrimSpace (NEKONEST_ALLOWED_ORIGINS env) in
  if is_empty raw then isSameOrigin r origin
  else if String.eqb raw "*" then true
  else existsb (fun o => String.eqb (TrimSpace o) origin) (split_byte comma raw).

Definition allowed_entry (raw : string) : option string :=
  let raw := TrimSpace raw in
  match url_Parse raw with
  | None => None
  | Some u =>
    if (is_empty (uScheme u) || is_empty (uHost u) || negb (is_empty (uPath u)) || String.eqb raw "*")%bool then None
    else Some (uScheme u +:+ "://" +:+ uHost u)
  end.

Definition normalizeAllowedOrigins (configured : list string) : gset string :=
  let configured := match configured with [] => split_byte comma (NEKONEST_ALLOWED_ORIGINS env) | _ => configured end in
  list_to_set (omap allowed_entry configured).

Variable allowedOrigins : gset string.

Definition originAllowed (r : Request) (origin : string) : bool :=
  if is_empty (TrimSpace origin) then true
  else if isSameOrigin r origin then true
  else bool_decide (trim_right_slashes origin ∈ allowedOrigins).

(** [CheckOrigin] of the websocket upgrader. *)
Definition CheckOrigin (r : Request) : bool := originAllowed r (Origin r).

(** What the middleware does; [allow] is the value of Access-Control-Allow-Origin. *)
Inductive edge_answer : Type :=
  | Refused (status : Z) (text : string)
  | NoContent (allow : string)
  | Served (allow : option string).

Definition CORSMiddleware (r : Request) : edge_answer :=
  let origin := Origin r in
  if is_empty origin then Served None
  else if negb (originAllowed r origin) then Refused 403 "origin not allowed"
  else if String.eqb (Method r) "OPTIONS" then NoContent origin
  else Served (Some origin).
End Edge.

(** ** Bodies (util.go) *)

Definition maxJSONBody : Z := 1048576.

(** [readJSON]: the bytes handed to [json.Unmarshal]. *)
Definition readJSON (body : res string) : res string :=
  b ← body;
  if maxJSONBody <? len (take_bytes (Z.to_nat (maxJSONBody + 1)) b) then Err "request body too large" else Ok b.
