(* ===== verification/AttachDownload.v ===== *)
(** * Downloading the attachments of a prompt (daemon/internal/attach/download.go)

    The daemon fetches what the phone uploaded to the relay into a directory of
    its own, and nothing else from nowhere else. The HTTP server and the outcomes
    of the file operations are arguments; [strings.ToLower] is the one of ASCII
    letters. *)

From stdpp Require Import base tactics list gmap strings.
From Stdlib Require Import Ascii ZArith Lia.
From S2P Require Import Prelude GoStrings GoPath Json Protocol NetNames.
From S2P Require StartThread.

(** ** URLs *)

(** [strings.Replace(s, old, new, 1)] *)
Fixpoint replace_first (old new s : string) : string :=
  if has_prefix old s then new +:+ drop_bytes (String.length old) s
  else match s with EmptyString => EmptyString | String c s' => String c (replace_first old new s') end.

Definition wsToHTTP (serverURL : string) : string :=
  let u := TrimSpace serverURL in
  let u := replace_first "wss://" "https://" u in
  let u := replace_first "ws://" "http://" u in
  trim_suffix (trim_suffix (trim_suffix u "/") "/ws") "/".

Section Download.
Context `{NetParse}.

Definition hostOf (raw : string) : res string :=
  match url_Parse raw with
  | None => Err "parse"
  | Some u => if is_empty (uHost u) then Err "missing host" else Ok (to_lower (uHost u))
  end.

Definition attachments_prefix : string := "/api/attachments/".

Definition validateAttachmentURL (raw allowedHost : string) : res unit :=
  match url_Parse raw with
  | None => Err "bad url"
  | Some u =>
    let scheme := to_lower (uScheme u) in
    if (negb (String.eqb scheme "https") && negb (String.eqb scheme "http"))%bool then Err "scheme not allowed"
    else
      let host := to_lower (uHost u) in
      if (is_empty host || negb (String.eqb host (to_lower allowedHost)))%bool then Err "host not allowed"
      else
        let path := if is_empty (uEscapedPath u) then uPath u else uEscapedPath u in
        if negb (has_prefix attachments_prefix path) then Err "path not allowed"
        else
          let rest := trim_prefix path attachments_prefix in
          if (is_empty rest || contains rest "/" || contains rest "..")%bool then Err "invalid attachment id" else Ok tt
  end.

Definition absolutize (base ref : string) : string :=
  let ref := TrimSpace ref in
  if is_empty ref then ""
  else if (has_prefix "http://" ref || has_prefix "https://" ref)%bool then ref
  else if has_prefix "/" ref then
    match url_Parse base with
    | None => ""
    | Some bu => if is_empty (uScheme bu) then "" else uScheme bu +:+ "://" +:+ uHost bu +:+ ref
    end
  else "".

(** ** Names *)

Definition name_byte (c : ascii) : bool :=
  let b := code c in
  (((97 <=? b) && (b <=? 122)) || ((65 <=? b) && (b <=? 90)) || ((48 <=? b) && (b <=? 57)) || (b =? 45) || (b =? 95))%bool.

(** [strings.Map] works on characters: one that is longer than a byte becomes one
    hyphen, which the coercion before it reduces to dropping continuations. *)
Fixpoint map_name (s : string) : string :=
  match s with
  | EmptyString => EmptyString
  | String c s' =>
    if Z.land (code c) 192 =? 128 then map_name s'
    else String (if name_byte c then c else "-"%char) (map_name s')
  end.

Definition sanitize (s : string) : string :=
  let s := map_name (coerceUTF8 s) in
  if 24 <? len s then take_bytes 24 s else s.

Definition extFromMIME (mime : string) : string :=
  let m := to_lower mime in
  if (String.eqb m "image/jpeg" || String.eqb m "image/jpg")%bool then ".jpg"
  else if String.eqb m "image/png" then ".png"
  else if String.eqb m "image/webp" then ".webp"
  else if String.eqb m "image/gif" then ".gif"
  else if String.eqb m "application/pdf" then ".pdf"
  else if String.eqb m "text/plain" then ".txt"
  else if String.eqb m "text/markdown" then ".md"
  else "".

(** ** One download *)

(** What the server answers to a GET of a URL. The body of a 200 may break off. *)
Inductive answer : Type :=
  | Success (body : string) (broken : option string)
  | Status (code : Z)
  | RedirectTo (url : string)
  | NetworkError (e : string).

Definition max_redirects : nat := 3.

(** [client.Do] with the client of [newSafeHTTPClient]: the URLs that were
    requested, and the last answer. [via] is how many were requested before. *)
Fixpoint follow (server : string -> answer) (allowedHost : string) (fuel via : nat) (url : string) : list string * res answer :=
  match fuel with
  | O => ([], Err "too many redirects")
  | S k =>
    match server url with
    | RedirectTo u =>
      if (max_redirects <=? S via)%nat then ([url], Err "too many redirects")
      else match validateAttachmentURL u allowedHost with
           | Err e => ([url], Err e)
           | Ok _ => let '(rs, r) := follow server allowedHost k (S via) u in (url :: rs, r)
           end
    | NetworkError e => ([url], Err e)
    | a => ([url], Ok a)
    end
  end.

(** The outcomes of the file operations, by path. *)
Record file_io : Type := mkFileIO {
  ioMkdirTemp : string -> res string;
  ioCreate : string -> option string;
  ioClose : string -> option string;
  ioRemoveAll : option string
}.

Definition download_limit : Z := 5242880.

(** [downloadTo]: an error after the file was made removes it. *)
Definition downloadTo (server : string -> answer) (f : file_io) (allowedHost rawURL dest : string) (store : gmap string string)
  : list string * res unit * gmap string string :=
  let '(rs, r) := follow server allowedHost max_redirects 0 rawURL in
  match r with
  | Err e => (rs, Err e, store)
  | Ok (Success body broken) =>
    match ioCreate f dest with
    | Some e => (rs, Err e, store)
    | None =>
      match (if download_limit <=? len body then None else broken), ioClose f dest with
      | None, None => (rs, Ok tt, <[dest := take_bytes (Z.to_nat download_limit) body]> store)
      | Some e, _ | None, Some e => (rs, Err e, base.delete dest store)
      end
    end
  | Ok (Status c) => (rs, Err ("HTTP " +:+ Itoa c), store)
  | Ok _ => (rs, Err "unreachable", store)
  end.

(** ** [Materialize] *)

Record materializing : Type := mkMaterializing {
  requested : list string;
  stored : gmap string string;
  local_files : list StartThread.LocalFile;
  text : string
}.

(** [os.Stat]: the files written so far, and the directory with those it lies in. *)
Definition path_exists (dir : string) (store : gmap string string) (p : string) : bool :=
  (bool_decide (is_Some (store !! p)) || String.eqb p dir || String.eqb p "/" || has_prefix (p +:+ "/") dir)%bool.

Definition ref_name (i : nat) (r : StartThread.Ref) : string :=
  Base (if is_empty (StartThread.RefName r) then "file_" +:+ Itoa (Z.of_nat (S i)) +:+ extFromMIME (StartThread.MIME r) else StartThread.RefName r).

Definition ref_dest (dir : string) (store : gmap string string) (i : nat) (name : string) : string :=
  let local := path_join dir name in
  if path_exists dir store local then path_join dir (Itoa (Z.of_nat (S i)) +:+ "_" +:+ name) else local.

Definition newline_text : string := of_codes [10].

Definition note (m : materializing) (line : string) : materializing :=
  mkMaterializing (requested m) (stored m) (local_files m) (text m +:+ line +:+ newline_text).

Definition materialize_ref (server : string -> answer) (f : file_io) (baseHTTP allowedHost dir : string) (i : nat) (r : StartThread.Ref)
    (m : materializing) : materializing :=
  let u := absolutize baseHTTP (StartThread.URL r) in
  if is_empty u then m
  else match validateAttachmentURL u allowedHost with
       | Err e => note m ("- " +:+ StartThread.RefName r +:+ ": rejected (" +:+ e +:+ ")")
       | Ok _ =>
         let name := ref_name i r in
         let local := ref_dest dir (stored m) i name in
         let '(rs, d, store) := downloadTo server f allowedHost u local (stored m) in
         match d with
         | Err e => note (mkMaterializing (requested m ++ rs) store (local_files m) (text m)) ("- " +:+ name +:+ ": download failed (" +:+ e +:+ ")")
         | Ok _ =>
           note (mkMaterializing (requested m ++ rs) store (local_files m ++ [StartThread.mkFile local name (StartThread.MIME r)]) (text m))
             ("- " +:+ name +:+ " (" +:+ StartThread.MIME r +:+ ") → " +:+ local)
         end
       end.

Fixpoint materialize_refs (server : string -> answer) (f : file_io) (baseHTTP allowedHost dir : string) (i : nat) (refs : list StartThread.Ref)
    (m : materializing) : materializing :=
  match refs with
  | [] => m
  | r :: rest => materialize_refs server f baseHTTP allowedHost dir (S i) rest (materialize_ref server f baseHTTP allowedHost dir i r m)
  end.

Record materialized : Type := mkMaterialized {
  mDir : string;
  mFiles : list StartThread.LocalFile;
  mSuffix : string;
  mErr : option string;
  mRequested : list string;
  mStored : gmap string string
}.

Definition materialize_header : string := newline_text +:+ newline_text +:+ "[NekoNest attachments — local files on this PC]" +:+ newline_text.

Definition Materialize (server : string -> answer) (f : file_io) (serverWSURL sessionID : string) (refs : list StartThread.Ref) : materialized :=
  match refs with
  | [] => mkMaterialized "" [] "" None [] ∅
  | _ =>
    let baseHTTP := wsToHTTP serverWSURL in
    match hostOf baseHTTP with
    | Err e => mkMaterialized "" [] "" (Some ("invalid server URL for attachments: " +:+ e)) [] ∅
    | Ok allowedHost =>
      match ioMkdirTemp f ("nekonest-att-" +:+ sanitize sessionID +:+ "-") with
      | Err e => mkMaterialized "" [] "" (Some e) [] ∅
      | Ok dir =>
        let m := materialize_refs server f baseHTTP allowedHost dir 0 refs (mkMaterializing [] ∅ [] materialize_header) in
        let failed := "all " +:+ Itoa (Z.of_nat (List.length refs)) +:+ " attachments failed" in
        match local_files m, ioRemoveAll f with
        | [], Some e => mkMaterialized dir [] "" (Some (failed +:+ "; remove temporary directory: " +:+ e)) (requested m) (stored m)
        | [], None => mkMaterialized "" [] "" (Some (failed +:+ " to download")) (requested m) ∅
        | files, _ =>
          mkMaterialized dir files (text m +:+ "Please inspect these local files if relevant to the user request." +:+ newline_text) None
            (requested m) (stored m)
        end
      end
    end
  end.
End Download.
