(* ===== verification/DaemonSetup.v ===== *)
(** * Setting up the daemon: configuration, registration, key publication

    daemon/internal/config/config.go, and of daemon/cmd/daemon
    endpoint_contract.go, registration_proof.go and the end of main.go: the file
    that names the relay and the device, watching it, registering the device, the
    pair code, and handing the catalog key to phones. Requests to the relay,
    sleeping, files and random bytes are arguments; a time is its nanoseconds. *)

From stdpp Require Import base tactics list gmap strings.
From Stdlib Require Import Ascii ZArith Lia.
From S2P Require Import Prelude GoStrings GoPath Json Protocol JsonDecode Sha256 Base64.
From S2P Require DaemonClient Sealed.

(** ** The configuration *)

Record Config : Type := mkConfig {
  ServerURL : string;
  DeviceID : string;
  Token : string;
  WorkDir : string;
  TransportMode : string
}.

Definition NormalizeTransportMode (raw : string) : res string :=
  let mode := TrimSpace raw in
  if is_empty mode then Ok "open"
  else if (String.eqb mode "open" || String.eqb mode "sealed")%bool then Ok mode
  else Err ("invalid transport_mode " +:+ quoted raw +:+ " (want open or sealed)").

Definition NormalizeServerURL (raw : string) : string :=
  let u := trim_right_slashes (TrimSpace raw) in
  if has_prefix "https://" u then "wss://" +:+ trim_prefix u "https://"
  else if has_prefix "http://" u then "ws://" +:+ trim_prefix u "http://"
  else if (has_prefix "wss://" u || has_prefix "ws://" u)%bool then u
  else "ws://" +:+ u.

Definition HTTPBaseURL (wsURL : string) : string :=
  let u := trim_right_slashes (TrimSpace wsURL) in
  if has_prefix "wss://" u then "https://" +:+ trim_prefix u "wss://"
  else if has_prefix "ws://" u then "http://" +:+ trim_prefix u "ws://"
  else if (has_prefix "https://" u || has_prefix "http://" u)%bool then u
  else "http://" +:+ u.

Definition legacy_keys : list string := ["control_plane_url"; "activation_poll_path"; "relay_generation"; "relay_url"].

(** [json.Unmarshal] into a [map[string]json.RawMessage]: its keys. *)
Definition raw_keys (v : json) : option (list string) :=
  match v with JObject _ kvs => Some kvs.*1 | JNull => Some [] | _ => None end.

Definition decode_config (v : json) : option Config :=
  let '(o, ok) := struct_of (Some v) in
  let '(url, ok1) := string_field o "server_url" in
  let '(id, ok2) := string_field o "device_id" in
  let '(tok, ok3) := string_field o "token" in
  let '(dir, ok4) := string_field o "work_dir" in
  let '(mode, ok5) := string_field o "transport_mode" in
  if (ok && ok1 && ok2 && ok3 && ok4 && ok5)%bool then Some (mkConfig url id tok dir mode) else None.

Definition LoadFrom (data : res string) : res Config :=
  data ← data;
  match parse data with
  | None => Err "json"
  | Some v =>
    match raw_keys v with
    | None => Err "json"
    | Some keys =>
      match List.find (fun k => bool_decide (k ∈ keys)) legacy_keys with
      | Some k => Err ("legacy managed activation configuration detected (" +:+ k
                       +:+ "); re-register this device with a stable service endpoint")
      | None =>
        match decode_config v with
        | None => Err "json"
        | Some c =>
          mode ← NormalizeTransportMode (TransportMode c);
          Ok (mkConfig (if is_empty (ServerURL c) then "" else NormalizeServerURL (ServerURL c)) (DeviceID c) (Token c) (WorkDir c) mode)
        end
      end
    end
  end.

(** [json.MarshalIndent] of a [Config]. *)
Definition config_member (name value : string) : string := "  " +:+ quoted name +:+ ": " +:+ Sealed.json_string value.
Fixpoint join_members (l : list string) : string :=
  match l with [] => "" | [m] => m | m :: rest => m +:+ "," +:+ of_codes [10] +:+ join_members rest end.
Definition marshal_config (c : Config) : string :=
  "{" +:+ of_codes [10] +:+
  join_members ((if is_empty (ServerURL c) then [] else [config_member "server_url" (ServerURL c)]) ++
                [config_member "device_id" (DeviceID c); config_member "token" (Token c); config_member "work_dir" (WorkDir c);
                 config_member "transport_mode" (TransportMode c)])
  +:+ of_codes [10] +:+ "}".

(** [SaveTo]: the steps are those of [writeFileAtomic]. *)
Definition SaveTo (path : string) (f : io) (disk : option string) (c : Config) : res unit * option string :=
  if is_empty (TrimSpace path) then (Err "config path is required", disk) else writeFileAtomic f disk (marshal_config c).

(** ** Watching the file *)

(** What [os.Stat] sees of a file: the time and the size. *)
Record file_stat : Type := mkStat { modTime : Z; fileSize : Z }.

#[export] Instance file_stat_eq_dec : EqDecision file_stat.
Proof. solve_decision. Defined.

(** A tick of [WatchPath]: [seen] is what [os.Stat] says, [loaded] what [LoadFrom]
    gives 200 ms later. The new memory, and the configuration that is reported. *)
Definition watch_tick (last : file_stat) (seen : option file_stat) (loaded : res Config) : file_stat * option Config :=
  match seen with
  | None => (last, None)
  | Some s => if decide (s = last) then (last, None) else (s, match loaded with Ok c => Some c | Err _ => None end)
  end.

Fixpoint watch_ticks (last : file_stat) (ticks : list (option file_stat * res Config)) : list Config :=
  match ticks with
  | [] => []
  | (seen, loaded) :: rest =>
    let '(last, r) := watch_tick last seen loaded in
    match r with Some c => c :: watch_ticks last rest | None => watch_ticks last rest end
  end.

Definition WatchPath (initial : option file_stat) (ticks : list (option file_stat * res Config)) : list Config :=
  watch_ticks (default (mkStat 0 0) initial) ticks.

(** ** [Watcher]: the configuration in memory and who hears of a new one *)

(** A callback is its number. *)
Record Watcher : Type := mkWatcher { wConfig : option Config; wPath : string; wOnChange : list nat }.

Definition NewWatcher (path : string) : Watcher := mkWatcher None path [].
Definition Current (w : Watcher) : option Config := wConfig w.
Definition OnChange (w : Watcher) (fn : nat) : Watcher := mkWatcher (wConfig w) (wPath w) (wOnChange w ++ [fn]).

(** [Load]: the calls that are made are those to the callbacks registered so far. *)
Definition Load (read : string -> res string) (w : Watcher) : res unit * Watcher * list (nat * Config) :=
  match LoadFrom (read (wPath w)) with
  | Err e => (Err e, w, [])
  | Ok c => (Ok tt, mkWatcher (Some c) (wPath w) (wOnChange w), (fun fn => (fn, c)) <$> wOnChange w)
  end.

Definition DefaultConfigPath (home : string) : string := path_join (path_join home ".nekonest") "config.json".

(** ** Registration *)

Record registrationResponse : Type := mkRegistration {
  rDeviceID : string;
  rToken : string;
  rName : string;
  rTransportMode : string;
  rConnectionState : string;
  rRetryAfterSeconds : option Z
}.

Definition maxRegistrationResponseBytes : Z := 65536.
Definition maxRegistrationAttempts : nat := 20.

(** [*int64] of a response: [int_step] decides about the number. *)
Definition int64_ptr_step (p : option Z) (v : json) : option Z * bool :=
  match v with
  | JNull => (None, true)
  | _ => let '(n, ok) := int_step (default 0 p) v in (Some n, ok)
  end.

Definition decodeRegistrationResponse (body : res string) : res registrationResponse :=
  data ← body;
  if maxRegistrationResponseBytes <? len data then Err "registration response is too large"
  else
    match parse data with
    | None => Err "json"
    | Some v =>
      let '(o, ok) := struct_of (Some v) in
      let '(id, ok1) := string_field o "device_id" in
      let '(tok, ok2) := string_field o "token" in
      let '(name, ok3) := string_field o "name" in
      let '(mode, ok4) := string_field o "transport_mode" in
      let '(state, ok5) := string_field o "connection_state" in
      let '(after, ok6) := decode_all int64_ptr_step None (values_of o "retry_after_seconds") in
      if (ok && ok1 && ok2 && ok3 && ok4 && ok5 && ok6)%bool then Ok (mkRegistration id tok name mode state after) else Err "json"
    end.

(** How one POST ends: an error of the transport, another status with the error
    its body is read as, a success with the body. *)
Inductive registration_error : Type := Remote (e : DaemonClient.RemoteError) | Other (e : string).

Inductive http_result : Type :=
  | TransportFailed (e : string)
  | Answered (status : Z) (remote : option DaemonClient.RemoteError) (body : res string).

Definition registrationResponseError (status : Z) (remote : option DaemonClient.RemoteError) (body : res string) : registration_error :=
  match body with
  | Err e => Other e
  | Ok data =>
    if maxRegistrationResponseBytes <? len data then Other "registration error response is too large"
    else match remote with Some r => Remote r | None => Other ("registration returned status " +:+ Itoa status) end
  end.

Definition postDeviceRegistration (r : http_result) : registrationResponse + registration_error :=
  match r with
  | TransportFailed e => inr (Other e)
  | Answered status remote body =>
    if status =? 200 then match decodeRegistrationResponse body with Ok x => inl x | Err e => inr (Other e) end
    else inr (registrationResponseError status remote body)
  end.

(** The delay before attempt [n + 2]. *)
Definition registration_delay (n : nat) (e : DaemonClient.RemoteError) : Z :=
  let delay := DaemonClient.RetryAfter e in
  let delay := if delay <=? 0 then (Z.of_nat n + 1) * 2 * DaemonClient.Second else delay in
  if 60 * DaemonClient.Second <? delay then 60 * DaemonClient.Second else delay.

(** [post n] is how the attempt number [n] ends, [wait] whether a sleep was
    finished. The sleeps, and the outcome. *)
Fixpoint register_loop (post : nat -> http_result) (wait : Z -> bool) (left n : nat) (last : option registration_error)
  : list Z * (registrationResponse + registration_error) :=
  match left with
  | O => ([], inr (default (Other "registration retry budget exhausted") last))
  | S k =>
    match postDeviceRegistration (post n) with
    | inl x => ([], inl x)
    | inr (Remote e) =>
      if DaemonClient.retryable e then
        let delay := registration_delay n e in
        if wait delay then let '(ds, r) := register_loop post wait k (S n) (Some (Remote e)) in (delay :: ds, r)
        else ([delay], inr (Remote e))
      else ([], inr (Remote e))
    | inr e => ([], inr e)
    end
  end.

Definition completeDeviceRegistration (post : nat -> http_result) (wait : Z -> bool) : list Z * (registrationResponse + registration_error) :=
  register_loop post wait maxRegistrationAttempts 0 None.

Definition registrationTransportMode (serverMode requested : string) : res string :=
  if is_empty (TrimSpace serverMode) then Err "missing transport_mode"
  else
    mode ← NormalizeTransportMode serverMode;
    if is_empty (TrimSpace requested) then Ok mode
    else
      want ← NormalizeTransportMode requested;
      if String.eqb want mode then Ok mode else Err ("requested " +:+ want +:+ ", server returned " +:+ mode).

Definition registrationConfig (wsURL : string) (result : registrationResponse) (requestedMode : string) : res (Config * string) :=
  mode ← registrationTransportMode (rTransportMode result) requestedMode;
  if (is_empty (TrimSpace (rDeviceID result)) || is_empty (TrimSpace (rToken result)))%bool
  then Err "registration response is missing credentials"
  else
    let state := TrimSpace (rConnectionState result) in
    let state := if is_empty state then "ready" else state in
    if (negb (String.eqb state "ready") && negb (String.eqb state "provisioning"))%bool
    then Err ("unsupported connection_state " +:+ quoted state)
    else match rRetryAfterSeconds result with
         | Some n => if n <? 0 then Err "retry_after_seconds must not be negative"
                     else Ok (mkConfig wsURL (rDeviceID result) (rToken result) "" mode, state)
         | None => Ok (mkConfig wsURL (rDeviceID result) (rToken result) "" mode, state)
         end.

(** ** The proof of registration *)

Definition registrationProofDomain : string := "nekonest-cloud/device-registration-proof/v1".
Definition registrationRetryDomain : string := "nekonest-cloud/device-registration-retry/v1".

(** [binary.Write] of a [uint32], the high byte first. *)
Definition uint32_be (n : Z) : string :=
  of_codes [(n / 16777216) mod 256; (n / 65536) mod 256; (n / 256) mod 256; n mod 256].

Fixpoint framed (fields : list string) : string :=
  match fields with [] => EmptyString | f :: rest => uint32_be (len f) +:+ f +:+ framed rest end.

Definition proof_fields (bootstrapToken osName ed25519Public x25519Public identityFingerprint transportMode : string) : list string :=
  [TrimSpace bootstrapToken; to_lower (TrimSpace osName); TrimSpace ed25519Public; TrimSpace x25519Public;
   to_lower (TrimSpace identityFingerprint); TrimSpace transportMode].

Definition registrationProofTranscript (bootstrapToken osName ed25519Public x25519Public identityFingerprint transportMode : string) : string :=
  registrationProofDomain +:+ framed (proof_fields bootstrapToken osName ed25519Public x25519Public identityFingerprint transportMode).

Definition retry_fields (bootstrapToken serviceURL identityFingerprint : string) : list string :=
  [TrimSpace bootstrapToken; TrimSpace serviceURL; to_lower (TrimSpace identityFingerprint)].

Definition registrationRetryKey (bootstrapToken serviceURL identityFingerprint : string) : string :=
  sha256_hex (registrationRetryDomain +:+ framed (retry_fields bootstrapToken serviceURL identityFingerprint)).

(** ** Handing the catalog key to phones *)

(** A grant of the relay's list, and the payload of a [pair_ready] frame. *)
Record pair_payload : Type := mkPair { phone_id : string; phone_x25519_public : string; phone_ed25519_public : string; pair_code : string }.

(** A package that is posted to the relay. *)
Record key_package : Type := mkPackage { kpPhone : string; kpEpoch : Z; kpNonce : string; kpWrapped : string }.

Section Publication.
Context `{Sealed.AEAD} `{Sealed.Curve}.

(** [copy] into 32 bytes. *)
Definition fixed32 (s : string) : string :=
  let t := take_bytes 32 s in t +:+ of_codes (replicate (32 - String.length t) 0).

Definition identityLoadSealed (st : Sealed.Stored) : res Sealed.Identity :=
  edPriv ← B64Decode (Sealed.st_ed25519_private st);
  edPub ← Sealed.ParseEd25519Public (Sealed.st_ed25519_public st);
  xPrivRaw ← B64Decode (Sealed.st_x25519_private st);
  xPub ← Sealed.ParseX25519Public (Sealed.st_x25519_public st);
  Ok (Sealed.mkIdentity edPub edPriv xPub (fixed32 xPrivRaw)).

Definition pair_transcript (deviceID : string) (st : Sealed.Stored) (p : pair_payload) : string :=
  join_byte "|"%char ["nekonest-pair-v1"; pair_code p; deviceID; Sealed.st_ed25519_public st; Sealed.st_x25519_public st;
                      phone_ed25519_public p; phone_x25519_public p].

(** The package for a phone whose key is known; [stored] is what [LoadOrCreate]
    of the identity gives, [rnd] the random bytes of the wrapping. *)
Definition wrap_for_phone (deviceID : string) (stored : res Sealed.Stored) (m : Sealed.Manager) (rnd : res string) (p : pair_payload)
  : res key_package :=
  st ← stored;
  id ← identityLoadSealed st;
  phonePub ← Sealed.ParseX25519Public (phone_x25519_public p);
  shared ← Sealed.SharedSecret (Sealed.X25519Private id) phonePub;
  wrap ← Sealed.DerivePairWrappingKey shared (pair_transcript deviceID st p);
  w ← Sealed.WrapCatalogForPhone wrap rnd m;
  Ok (mkPackage (phone_id p) w.1.1 w.1.2 w.2).

Definition of_grant (g : pair_payload) : pair_payload := mkPair (phone_id g) (phone_x25519_public g) (phone_ed25519_public g) "".

(** [publishCatalogKeyForPhone] and [publishCatalogKeysForAllGrants], which call
    each other: [m] is [daemonSealedKeys], [grants] what the relay answers to every
    request, [None] when it fails. The packages that are posted, in order; a failed
    post changes nothing here. [fuel] bounds the calls; [None] when it does not
    suffice. *)
Fixpoint publish (deviceID : string) (stored : res Sealed.Stored) (m : option Sealed.Manager) (rnd : pair_payload -> res string)
    (grants : option (list pair_payload)) (fuel : nat) (p : pair_payload) : option (list key_package) :=
  match fuel with
  | O => None
  | S k =>
    match m with
    | None => Some []
    | Some keys =>
      if (is_empty (phone_id p) || is_empty (phone_x25519_public p))%bool then
        match grants with
        | None => Some []
        | Some gs =>
          let fix all gs :=
            match gs with
            | [] => Some []
            | g :: rest =>
              if is_empty (phone_x25519_public g) then all rest
              else
                first ← publish deviceID stored m rnd grants k (of_grant g);
                others ← all rest;
                Some (first ++ others)
            end in
          all gs
        end
      else Some (match wrap_for_phone deviceID stored keys (rnd p) p with Ok kp => [kp] | Err _ => [] end)
    end
  end.
End Publication.
