(* ===== verification/PromptQueueSpec.v ===== *)
(** * Correctness of the durable prompt queue

    The invariant [wf] of the in-memory map, the invariant [disk_ok] of the
    file, and the theorems about the operations of [PromptQueue]. The laws of
    the JSON codec are hypotheses of the section. *)

From stdpp Require Import base tactics list gmap strings sorting fin_maps.
From Stdlib Require Import Ascii ZArith Lia.
From S2P Require Import Prelude GoStrings Json PromptQueue.

(** [json.RawMessage] values that denote the same JSON value. *)
Class RawEquiv : Type := {
  raw_equiv : string -> string -> Prop;
  raw_equiv_equivalence : Equivalence raw_equiv;
  raw_equiv_empty : forall a b, raw_equiv a b -> is_empty b = is_empty a;
  raw_equiv_valid : forall a b, raw_equiv a b -> json_Valid a = true -> json_Valid b = true
}.

#[export] Existing Instance raw_equiv_equivalence.

Definition raw_equiv_eq : RawEquiv :=
  {| raw_equiv := eq;
     raw_equiv_equivalence := eq_equivalence;
     raw_equiv_empty := fun a b H => eq_ind a (fun x => is_empty x = is_empty a) eq_refl b H;
     raw_equiv_valid := fun a b H Ha => eq_ind a (fun x => json_Valid x = true) Ha b H |}.

(** Two items that differ at most in the spelling of their attachments. *)
Definition item_equiv `{RawEquiv} (a b : promptQueueItem) : Prop :=
  SessionID a = SessionID b /\ ClientMsgID a = ClientMsgID b /\ AgentType a = AgentType b /\
  Prompt a = Prompt b /\ raw_equiv (Attachments a) (Attachments b) /\
  SealedEnvelope a = SealedEnvelope b /\ CollaborationMode a = CollaborationMode b /\
  CreatedAt a = CreatedAt b /\ Order a = Order b /\ Status a = Status b.

#[export] Instance item_equiv_equivalence `{RawEquiv} : Equivalence item_equiv.
Proof.
  split; unfold item_equiv.
  - intros a. split_and!; reflexivity.
  - intros a b H0. decompose [and] H0. split_and!; by symmetry.
  - intros a b c H1 H2. decompose [and] H1. decompose [and] H2. split_and!; etrans; eauto.
Qed.

Definition disk_equiv `{RawEquiv} (a b : promptQueueDisk) : Prop :=
  Version a = Version b /\ Forall2 item_equiv (Items a) (Items b).

Definition item_ok (it : promptQueueItem) : Prop := validatePromptQueueItem it = Ok tt.

Definition active (it : promptQueueItem) : bool := negb (isPromptQueueTerminal (Status it)).

(** Every string of the item is valid UTF-8. *)
Definition item_encodable (it : promptQueueItem) : Prop :=
  ValidString (SessionID it) = true /\ ValidString (ClientMsgID it) = true /\
  ValidString (AgentType it) = true /\ ValidString (Prompt it) = true /\
  ValidString (CollaborationMode it) = true /\
  match Status it with OtherStatus _ => False | _ => True end.

Definition encodable (d : promptQueueDisk) : Prop := Forall item_encodable (Items d).

(** ** Item lemmas *)

Lemma validatePromptQueueString_ok name value max :
  validatePromptQueueString name value max = Ok tt <->
  is_empty (TrimSpace value) = false /\ len value <= max /\ ValidString value = true.
Proof.
  unfold validatePromptQueueString, fail_if.
  destruct (is_empty (TrimSpace value)); simpl; [naive_solver|].
  destruct (max <? len value) eqn:E; simpl; bool_hyps; [naive_solver lia|].
  destruct (ValidString value); simpl; naive_solver.
Qed.

(** The static part of an item's validity: everything but the payload. *)
Definition item_idents_ok (it : promptQueueItem) : Prop :=
  validatePromptQueueString "session_id" (SessionID it) maxPromptQueueSessionIDBytes = Ok tt /\
  validatePromptQueueString "client_msg_id" (ClientMsgID it) maxPromptQueueClientMsgIDSize = Ok tt /\
  validatePromptQueueString "agent_type" (AgentType it) maxPromptQueueAgentTypeBytes = Ok tt /\
  Order it <> 0 /\ 0 < CreatedAt it.

Definition known_active (s : promptQueueStatus) : bool :=
  match s with
  | promptQueueQueued | promptQueueRunning | promptQueueBlockedFailed
  | promptQueueBlockedInterrupted | promptQueueBlockedIndeterminate => true
  | _ => false
  end.

Definition payload_ok (it : promptQueueItem) : Prop :=
  ValidString (Prompt it) = true /\
  (Attachments it = "" \/ json_Valid (Attachments it) = true) /\
  (SealedEnvelope it = "" \/ (Prompt it = "" /\ Attachments it = "")) /\
  (CollaborationMode it = "" \/ CollaborationMode it = "plan") /\
  no_payload it = false.

Lemma bind_tt (r : res unit) (k : unit -> res unit) :
  (r ≫= k) = Ok tt <-> r = Ok tt /\ k tt = Ok tt.
Proof. destruct r as [[]|]; simpl; naive_solver. Qed.

Lemma fail_if_tt c msg : fail_if c msg = Ok tt <-> c = false.
Proof. destruct c; naive_solver. Qed.

Lemma item_ok_iff it :
  item_ok it <->
  item_idents_ok it /\
  if isPromptQueueTerminal (Status it) then no_payload it = true
  else payload_ok it /\ known_active (Status it) = true.
Proof.
  unfold item_ok, validatePromptQueueItem, item_idents_ok, payload_ok.
  rewrite !bind_tt, fail_if_tt, orb_false_iff, Z.eqb_neq, Z.leb_gt.
  destruct (isPromptQueueTerminal (Status it)) eqn:HT.
  - rewrite fail_if_tt, negb_false_iff. tauto.
  - rewrite !bind_tt, !fail_if_tt, !andb_false_iff, !orb_false_iff, !negb_false_iff.
    rewrite !is_empty_true, bool_decide_eq_true.
    assert ((match Status it with
      | promptQueueQueued | promptQueueRunning | promptQueueBlockedFailed
      | promptQueueBlockedInterrupted | promptQueueBlockedIndeterminate => Ok tt
      | s => Err ("invalid status " +:+ status_text s) end) = Ok tt
      <-> known_active (Status it) = true) as -> by (destruct (Status it); simpl; naive_solver).
    assert ((Prompt it = "" \/ ValidString (Prompt it) = true) <-> ValidString (Prompt it) = true) as ->
      by (split; [intros [-> | ?]; done|auto]).
    tauto.
Qed.

Lemma item_ok_encodable it :
  item_ok it -> (CollaborationMode it = "" \/ CollaborationMode it = "plan") -> item_encodable it.
Proof.
  rewrite item_ok_iff. intros [(Hs & Hc & Ha & _ & _) Hp] Hm.
  apply validatePromptQueueString_ok in Hs, Hc, Ha.
  unfold item_encodable. split_and!; try tauto.
  - destruct (isPromptQueueTerminal (Status it)).
    + unfold no_payload in Hp. bool_hyps. apply is_empty_true in H as ->; done.
    + apply Hp.
  - destruct Hm as [-> | ->]; done.
  - destruct (Status it); simpl in *; done || (destruct Hp; done).
Qed.

(** Changing the status among the known non-terminal ones keeps an item valid. *)
Lemma item_ok_with_Status it s :
  item_ok it -> isPromptQueueTerminal (Status it) = false -> known_active s = true ->
  item_ok (with_Status it s).
Proof.
  rewrite !item_ok_iff. intros [Hi Hp] HT Hs. rewrite HT in Hp. destruct Hp as [Hp _].
  split; [exact Hi|]. cbn [Status with_Status].
  assert (isPromptQueueTerminal s = false) as -> by (destruct s; done).
  split; [exact Hp|exact Hs].
Qed.

Lemma item_ok_cleared it s :
  item_ok it -> isPromptQueueTerminal s = true ->
  item_ok (clearPromptQueuePayload (with_Status it s)).
Proof.
  rewrite !item_ok_iff. intros [Hi _] HT. split; [exact Hi|].
  cbn [Status clearPromptQueuePayload with_Status]. rewrite HT. done.
Qed.

Lemma item_equiv_ok `{RawEquiv} a b : item_equiv a b -> item_ok a -> item_ok b.
Proof.
  rewrite !item_ok_iff. unfold item_equiv, item_idents_ok, payload_ok, no_payload.
  intros (Hs & Hc & Ha & Hp & Hr & He & Hm & Ht & Ho & Hst).
  pose proof (raw_equiv_empty _ _ Hr) as Hre.
  rewrite <- Hs, <- Hc, <- Ha, <- Hp, <- He, <- Hm, <- Ht, <- Ho, <- Hst, Hre.
  assert (Attachments a = "" <-> Attachments b = "") as Hab
    by (rewrite <- !is_empty_true, Hre; done).
  pose proof (raw_equiv_valid _ _ Hr).
  destruct (isPromptQueueTerminal (Status a)); [tauto|].
  rewrite <- Hab. tauto.
Qed.

(** ** The invariant of the map *)

Section Invariant.
Context `{MO : MapOrder}.
Implicit Types (its : gmap string promptQueueItem) (nid : Z) (it : promptQueueItem).

Record wf its nid : Prop := {
  wf_key : forall k it, its !! k = Some it -> k = item_key it;
  wf_ok : forall k it, its !! k = Some it -> item_ok it;
  wf_mode : forall k it, its !! k = Some it -> CollaborationMode it = "" \/ CollaborationMode it = "plan";
  wf_order_inj : forall k1 k2 it1 it2,
    its !! k1 = Some it1 -> its !! k2 = Some it2 -> Order it1 = Order it2 -> k1 = k2;
  wf_order_max : forall k it, its !! k = Some it -> 0 <= Order it <= nid;
  wf_next : is_uint64 nid;
  wf_cap : forall sid, activeCount its sid <= maxPromptQueuePerSession;
  wf_single : forall k1 k2 it1 it2,
    its !! k1 = Some it1 -> its !! k2 = Some it2 -> SessionID it1 = SessionID it2 ->
    Status it1 = promptQueueRunning -> Status it2 = promptQueueRunning -> k1 = k2
}.

Lemma wf_empty : wf ∅ 0.
Proof.
  split; intros; try (by rewrite lookup_empty in *); [unfold is_uint64, max_uint64; lia|].
  unfold activeCount. rewrite count_range_filter, map_filter_empty, map_size_empty.
  unfold maxPromptQueuePerSession. lia.
Qed.

(** An item that replaces another without weakening the invariant. *)
Definition replaces it it' : Prop :=
  SessionID it' = SessionID it /\ ClientMsgID it' = ClientMsgID it /\ Order it' = Order it /\
  item_ok it' /\
  (CollaborationMode it' = "" \/ CollaborationMode it' = "plan") /\
  (active it' = true -> active it = true).

(** ... and that is not a new running item. *)
Definition shrinks it it' : Prop :=
  replaces it it' /\ (Status it' = promptQueueRunning -> Status it = promptQueueRunning).

Definition single_running its : Prop :=
  forall k1 k2 it1 it2,
    its !! k1 = Some it1 -> its !! k2 = Some it2 -> SessionID it1 = SessionID it2 ->
    Status it1 = promptQueueRunning -> Status it2 = promptQueueRunning -> k1 = k2.

Lemma replaces_key it it' : replaces it it' -> item_key it' = item_key it.
Proof. unfold replaces, item_key. intros (-> & -> & _). done. Qed.

Lemma activeCount_le its its' sid :
  (forall k it', its' !! k = Some it' -> SessionID it' = sid -> active it' = true ->
     exists it, its !! k = Some it /\ SessionID it = sid /\ active it = true) ->
  activeCount its' sid <= activeCount its sid.
Proof.
  intros H. unfold activeCount. apply count_range_le. intros k it' Hk Hp. bool_hyps.
  destruct (H k it' Hk) as (it & Hit & Hs & Ha); [done|by unfold active; apply negb_true_iff|].
  exists it. split; [done|]. rewrite bool_decide_true by done. exact Ha.
Qed.

Lemma wf_replaces its its' nid :
  wf its nid ->
  (forall k it', its' !! k = Some it' -> exists it, its !! k = Some it /\ replaces it it') ->
  single_running its' ->
  wf its' nid.
Proof.
  intros W H Hs1. split; [| | | | | |intros sid|exact Hs1].
  - intros k it' Hk. destruct (H _ _ Hk) as (it & Hit & Hs).
    rewrite (replaces_key _ _ Hs). by eapply wf_key.
  - intros k it' Hk. destruct (H _ _ Hk) as (it & Hit & Hs). apply Hs.
  - intros k it' Hk. destruct (H _ _ Hk) as (it & Hit & Hs). apply Hs.
  - intros k1 k2 i1 i2 H1 H2 Ho.
    destruct (H _ _ H1) as (j1 & Hj1 & Hr1), (H _ _ H2) as (j2 & Hj2 & Hr2).
    eapply (wf_order_inj _ _ W); eauto. unfold replaces in *. intuition congruence.
  - intros k it' Hk. destruct (H _ _ Hk) as (it & Hit & Hs).
    pose proof (wf_order_max _ _ W _ _ Hit). unfold replaces in Hs. intuition congruence.
  - apply W.
  - etrans; [apply activeCount_le|apply (wf_cap _ _ W sid)].
    intros k it' Hk Hsid Ha. destruct (H _ _ Hk) as (it & Hit & Hs).
    exists it. unfold replaces in Hs. intuition congruence.
Qed.

Lemma wf_shrink its its' nid :
  wf its nid ->
  (forall k it', its' !! k = Some it' -> exists it, its !! k = Some it /\ shrinks it it') ->
  wf its' nid.
Proof.
  intros W H. apply (wf_replaces its); [done| |].
  - intros k it' Hk. destruct (H _ _ Hk) as (it & Hit & Hs & _). by exists it.
  - intros k1 k2 i1 i2 H1 H2 Hsid R1 R2.
    destruct (H _ _ H1) as (j1 & Hj1 & Hr1), (H _ _ H2) as (j2 & Hj2 & Hr2).
    eapply (wf_single _ _ W); eauto; unfold shrinks, replaces in *; intuition congruence.
Qed.

Lemma shrinks_refl its nid k it : wf its nid -> its !! k = Some it -> shrinks it it.
Proof. intros W Hk. unfold shrinks, replaces. pose proof (wf_ok _ _ W _ _ Hk). pose proof (wf_mode _ _ W _ _ Hk). tauto. Qed.

Lemma wf_submap its its' nid : wf its nid -> its' ⊆ its -> wf its' nid.
Proof.
  intros W Hsub. eapply wf_shrink; [exact W|]. intros k it Hk.
  exists it. pose proof (lookup_weaken _ _ _ _ Hk Hsub) as Hk'.
  split; [done|by eapply shrinks_refl].
Qed.

Lemma wf_replace its nid k it it' :
  wf its nid -> its !! k = Some it -> shrinks it it' -> wf (<[k := it']> its) nid.
Proof.
  intros W Hk Hs. eapply wf_shrink; [exact W|]. intros k2 it2.
  rewrite lookup_insert_Some. intros [[<- <-]|[Hne Hk2]]; [by exists it|].
  exists it2. split; [done|by eapply shrinks_refl].
Qed.

Lemma shrinks_with_Status its nid k it s :
  wf its nid -> its !! k = Some it -> isPromptQueueTerminal (Status it) = false ->
  known_active s = true -> (s = promptQueueRunning -> Status it = promptQueueRunning) ->
  shrinks it (with_Status it s).
Proof.
  intros W Hk HT Hs Hr. unfold shrinks, replaces. simpl.
  pose proof (wf_mode _ _ W _ _ Hk). split_and!; auto.
  - by apply item_ok_with_Status; [eapply wf_ok| |].
  - intros _. unfold active. by rewrite HT.
Qed.

Lemma shrinks_cleared its nid k it s :
  wf its nid -> its !! k = Some it -> isPromptQueueTerminal s = true ->
  shrinks it (clearPromptQueuePayload (with_Status it s)).
Proof.
  intros W Hk HT. unfold shrinks, replaces. simpl. split_and!; auto.
  - by apply item_ok_cleared; [eapply wf_ok|].
  - unfold active. simpl. by rewrite HT.
  - intros ->. done.
Qed.

(** *** Compaction *)

Lemma compact_subseteq its sid : compactPromptQueueTombstones its sid ⊆ its.
Proof.
  unfold compactPromptQueueTombstones. case_match; [done|].
  apply map_subseteq_spec. intros k it. rewrite foldl_delete_lookup. by case_decide.
Qed.

Lemma elem_of_tombstones sid l it :
  it ∈ tombstones sid l <-> it ∈ l /\ SessionID it = sid /\ isPromptQueueTerminal (Status it) = true.
Proof.
  unfold tombstones. rewrite !list_elem_of_In, filter_In, andb_true_iff, bool_decide_eq_true. tauto.
Qed.

(** Compaction only ever drops terminal items of that session. *)
Lemma compact_keeps its nid sid k it :
  wf its nid -> its !! k = Some it ->
  (SessionID it <> sid \/ isPromptQueueTerminal (Status it) = false) ->
  compactPromptQueueTombstones its sid !! k = Some it.
Proof.
  intros W Hk Hkeep. unfold compactPromptQueueTombstones. case_match; [done|].
  rewrite foldl_delete_lookup, decide_False; [done|].
  intros (it' & Hkey & Hin)%list_elem_of_fmap.
  assert (Hin2 : it' ∈ tombstones sid (range_values its)).
  { rewrite <- (sort_by_perm (fun it => - Order it)).
    rewrite <- (take_drop retainQueueTombstones (sort_by _ _)). apply elem_of_app. by right. }
  apply elem_of_tombstones in Hin2 as (Hr & Hs & HT).
  apply elem_of_range_values in Hr as [k' Hk'].
  pose proof (wf_key _ _ W _ _ Hk') as Hk2. subst k.
  rewrite <- Hk2, Hk' in Hk. simplify_eq. destruct Hkeep; congruence.
Qed.
End Invariant.

(** ** Mutations *)

(** The operations that change the queue, as data: [OpEnqueue now it] is
    [enqueue] at the time [now]. *)
Inductive queue_op : Type :=
  | OpEnqueue (now : Z) (it : promptQueueItem)
  | OpClaimNext (sid : string)
  | OpReleaseClaim (sid cid : string)
  | OpComplete (sid cid : string)
  | OpBlock (sid cid : string) (status : promptQueueStatus)
  | OpCancel (sid cid : string)
  | OpBlockSession (sid : string) (status : promptQueueStatus)
  | OpResumeSession (sid : string)
  | OpSkipIndeterminate (sid cid : string).

Section Mutations.
Context `{MO : MapOrder} `{CD : !Codec promptQueueDisk}.

Definition discard {S A} (m : M S A) : M S unit := _ ← m; mret tt.

Definition run_op (f : io) (op : queue_op) : M promptQueue unit :=
  match op with
  | OpEnqueue now it => discard (enqueue f now it)
  | OpClaimNext sid => discard (claimNext f sid)
  | OpReleaseClaim sid cid => releaseClaim f sid cid
  | OpComplete sid cid => complete f sid cid
  | OpBlock sid cid status => block f sid cid status
  | OpCancel sid cid => cancel f sid cid
  | OpBlockSession sid status => blockSession f sid status
  | OpResumeSession sid => resumeSession f sid
  | OpSkipIndeterminate sid cid => skipIndeterminate f sid cid
  end.

(** The file [d] holds the encoding of [its]. *)
Definition written (its : gmap string promptQueueItem) (d : option (file promptQueueDisk)) : Prop :=
  exists data, d = Some data /\ marshalIndent (mkDisk promptQueueVersion (ordered its)) = Ok data /\
    file_size data <= maxPromptQueueBytes.

Lemma persist_spec f its q r q' :
  persist f its q = (r, q') ->
  items q' = items q /\ nextID q' = nextID q /\
  (r = Ok tt /\ written its (disk q') \/
   exists e, r = Err e /\ (disk q' = disk q \/ written its (disk q'))).
Proof.
  unfold persist. destruct (marshalIndent _) as [data|e] eqn:Em; [|naive_solver].
  destruct (maxPromptQueueBytes <? file_size data) eqn:Es; bool_hyps; [naive_solver|].
  destruct (writeFileAtomic f (disk q) data) as [r0 d] eqn:Ew.
  intros [= <- <-]. simpl. split_and!; [done|done|].
  destruct r0 as [[]|e]; simpl; [left|right].
  - split; [done|]. exists data. apply writeFileAtomic_ok in Ew. auto.
  - exists ("persist prompt queue: " +:+ e). split; [done|].
    apply writeFileAtomic_err in Ew as [->|[_ ->]]; [by left|right]. by exists data.
Qed.

Lemma commit_spec f next q r q' :
  commit f next q = (r, q') ->
  nextID q' = nextID q /\
  (r = Ok tt /\ items q' = next /\ written next (disk q') \/
   exists e, r = Err e /\ items q' = items q /\ (disk q' = disk q \/ written next (disk q'))).
Proof.
  unfold commit, mbind, M_bind. destruct (persist f next q) as [r0 q0] eqn:Ep.
  apply persist_spec in Ep as (Hi & Hn & Hr).
  destruct Hr as [[-> Hw]|(e & -> & Hd)].
  - intros [= <- <-]. simpl. split; [done|left]. done.
  - intros [= <- <-]. split; [done|right]. exists e. done.
Qed.

(** With every system call succeeding, a commit fails only when the document
    cannot be encoded or is too large. *)
Lemma commit_io_ok next q data :
  marshalIndent (mkDisk promptQueueVersion (ordered next)) = Ok data ->
  file_size data <= maxPromptQueueBytes ->
  commit io_ok next q = (Ok tt, mkQueue next (nextID q) (Some data)).
Proof.
  intros Hm Hs. unfold commit, mbind, M_bind, persist. rewrite Hm.
  destruct (maxPromptQueueBytes <? file_size data) eqn:E; bool_hyps; [lia|done].
Qed.

(** Whether an operation other than [enqueue] committed, and what. *)
Definition commits (f : io) (q : promptQueue) (next : gmap string promptQueueItem)
    (r : res unit) (q' : promptQueue) : Prop :=
  exists r0, commit f next q = (r0, q') /\ (r0 = Ok tt -> r = Ok tt) /\ (forall e, r0 = Err e -> r = Err e).

Lemma commits_spec f q next r q' :
  commits f q next r q' ->
  nextID q' = nextID q /\
  (r = Ok tt /\ items q' = next /\ written next (disk q') \/
   exists e, r = Err e /\ items q' = items q /\ (disk q' = disk q \/ written next (disk q'))).
Proof.
  intros (r0 & Hc & H1 & H2). apply commit_spec in Hc as [Hn [(-> & Hi & Hw)|(e & -> & Hi & Hd)]].
  - split; [done|left]. auto.
  - split; [done|right]. exists e. auto.
Qed.

Lemma commit_commits f next q r q' : commit f next q = (r, q') -> commits f q next r q'.
Proof. intros H. exists r. naive_solver. Qed.

(** *** The scan of [claimNext] *)

Definition stops_claim (sid : string) (it : promptQueueItem) : Prop :=
  SessionID it = sid /\ (Status it = promptQueueRunning \/ isPromptQueueBlocked (Status it) = true).

Definition queued_in (sid : string) (it : promptQueueItem) : Prop :=
  SessionID it = sid /\ Status it = promptQueueQueued.

Lemma claim_scan_none sid l cand :
  claim_scan sid l cand = None <-> exists it, it ∈ l /\ stops_claim sid it.
Proof.
  revert cand. induction l as [|it l IH]; intros cand.
  { split; [done|]. intros (it & Hin & _). by apply not_elem_of_nil in Hin. }
  cbn [claim_scan]. unfold stops_claim in *.
  destruct (bool_decide (SessionID it = sid)) eqn:Hs; simpl; bool_hyps.
  - destruct (bool_decide (Status it = promptQueueRunning) || isPromptQueueBlocked (Status it))%bool eqn:Hb.
    + split; [|done]. intros _. exists it. split; [by left|]. split; [done|].
      apply orb_true_iff in Hb as [Hb|Hb]; bool_hyps; auto.
    + bool_hyps. trans (exists it0, it0 ∈ l /\ SessionID it0 = sid /\
        (Status it0 = promptQueueRunning \/ isPromptQueueBlocked (Status it0) = true)).
      { destruct (_ && _)%bool; apply IH. }
      split; [intros (x & ? & ?); exists x; split; [by right|done]|].
      intros (x & [->|Hx]%elem_of_cons & Hsx & Hst); [|by exists x].
      destruct Hst; congruence.
  - rewrite IH. split; [intros (x & ? & ?); exists x; split; [by right|done]|].
    intros (x & [->|Hx]%elem_of_cons & Hsx & Hst); [done|by exists x].
Qed.

Lemma claim_scan_some sid l cand c :
  claim_scan sid l cand = Some c ->
  match c with
  | Some it =>
    (cand = Some it \/ (it ∈ l /\ queued_in sid it)) /\
    (forall x, cand = Some x -> Order it <= Order x) /\
    (forall x, x ∈ l -> queued_in sid x -> Order it <= Order x)
  | None => cand = None /\ forall x, x ∈ l -> ~ queued_in sid x
  end.
Proof.
  revert cand. induction l as [|it l IH]; intros cand; cbn [claim_scan].
  { intros [= <-]. destruct cand as [x|].
    - split_and!; [by left|naive_solver|]. intros x' Hx'. by apply not_elem_of_nil in Hx'.
    - split; [done|]. intros x' Hx'. by apply not_elem_of_nil in Hx'. }
  unfold queued_in in *.
  destruct (bool_decide (SessionID it = sid)) eqn:Hs; cbn [negb]; bool_hyps.
  2:{ intros H. apply IH in H. destruct c as [i|].
      - destruct H as (Ha & Hb & Hc). split_and!; [|done|].
        + destruct Ha as [|[? ?]]; [by left|right; split; [by right|done]].
        + intros x [->|Hx]%elem_of_cons; naive_solver.
      - destruct H as [-> Hb]. split; [done|]. intros x [->|Hx]%elem_of_cons; naive_solver. }
  destruct (_ || _)%bool; [done|].
  destruct (bool_decide (Status it = promptQueueQueued)) eqn:Hq; cbn [andb]; bool_hyps.
  2:{ intros H. apply IH in H. destruct c as [i|].
      - destruct H as (Ha & Hb & Hc). split_and!; [|done|].
        + destruct Ha as [|[? ?]]; [by left|right; split; [by right|done]].
        + intros x [->|Hx]%elem_of_cons; naive_solver.
      - destruct H as [-> Hb]. split; [done|]. intros x [->|Hx]%elem_of_cons; naive_solver. }
  destruct (older cand it) eqn:Ho; intros H; apply IH in H; destruct c as [i|].
  - destruct H as (Ha & Hb & Hc). specialize (Hb it eq_refl). split_and!.
    + right. destruct Ha as [[= ->]|[? ?]]; (split; [|done]); [by left|by right].
    + intros x ->. simpl in Ho. bool_hyps. lia.
    + intros x [->|Hx]%elem_of_cons; [done|by apply Hc].
  - destruct H as [[=] _].
  - destruct H as (Ha & Hb & Hc). destruct cand as [x0|]; [|done]. simpl in Ho. bool_hyps.
    specialize (Hb x0 eq_refl). split_and!.
    + destruct Ha as [|[? ?]]; [by left|right; split; [by right|done]].
    + by intros x [= <-].
    + intros x [->|Hx]%elem_of_cons; [lia|by apply Hc].
  - destruct H as [-> Hb]. done.
Qed.

(** *** Every operation commits a well-formed map or does nothing *)

Lemma wf_claim its nid it :
  wf its nid -> claim_scan (SessionID it) (range_values its) None = Some (Some it) ->
  wf (<[item_key it := with_Status it promptQueueRunning]> its) nid.
Proof.
  intros W Hc.
  assert (Hnone : ~ exists x, x ∈ range_values its /\ stops_claim (SessionID it) x).
  { rewrite <- (claim_scan_none _ _ None). by rewrite Hc. }
  apply claim_scan_some in Hc as ([?|[Hin [_ Hq]]] & _ & _); [done|].
  apply elem_of_range_values in Hin as [k Hk].
  pose proof (wf_key _ _ W _ _ Hk) as ->.
  assert (Huniq : forall k x, <[item_key it := with_Status it promptQueueRunning]> its !! k = Some x ->
    SessionID x = SessionID it -> Status x = promptQueueRunning -> k = item_key it).
  { intros k x. rewrite lookup_insert_Some. intros [[<- <-]|[Hne Hx]] Hs HR; [done|].
    destruct Hnone. exists x. split; [apply elem_of_range_values; by exists k|].
    split; [done|by left]. }
  eapply wf_replaces; [done| |].
  - intros k x. rewrite lookup_insert_Some. intros [[<- <-]|[Hne Hx]].
    + exists it. split; [done|]. unfold replaces. simpl. split_and!; try done.
      * apply item_ok_with_Status; [exact (wf_ok _ _ W _ _ Hk)|by rewrite Hq|done].
      * exact (wf_mode _ _ W _ _ Hk).
      * intros _. unfold active. by rewrite Hq.
    + exists x. split; [done|]. by eapply shrinks_refl.
  - intros k1 k2 x1 x2. rewrite !lookup_insert_Some.
    intros [[<- <-]|[Hne1 Hx1]] [[<- <-]|[Hne2 Hx2]] Hs R1 R2; [done| | |by eapply (wf_single _ _ W)].
    + symmetry. eapply Huniq; [by rewrite lookup_insert_ne|by rewrite <- Hs|done].
    + eapply Huniq; [by rewrite lookup_insert_ne|by rewrite Hs|done].
Qed.

Lemma wf_insert_new its nid it :
  wf its nid -> its !! item_key it = None -> item_ok it -> Status it = promptQueueQueued ->
  Order it = nid + 1 -> is_uint64 (Order it) ->
  activeCount its (SessionID it) < maxPromptQueuePerSession ->
  wf (<[item_key it := it]> its) (Order it).
Proof.
  intros W Hnew Hok Hq Ho Hu Hcap. pose proof (wf_next _ _ W) as Hn. unfold is_uint64 in *.
  assert (Hmode : CollaborationMode it = "" \/ CollaborationMode it = "plan").
  { apply item_ok_iff in Hok as [_ Hp]. rewrite Hq in Hp. apply Hp. }
  assert (Hcase : forall k x, <[item_key it := it]> its !! k = Some x ->
    (k = item_key it /\ x = it) \/ (k <> item_key it /\ its !! k = Some x /\ 0 <= Order x <= nid)).
  { intros k x. rewrite lookup_insert_Some. intros [[<- <-]|[Hne Hx]]; [by left|right].
    split_and!; [done|done|..]; apply (wf_order_max _ _ W _ _ Hx). }
  split.
  - intros k x [[-> ->]|(? & Hx & _)]%Hcase; [done|by eapply wf_key].
  - intros k x [[-> ->]|(? & Hx & _)]%Hcase; [done|by eapply wf_ok].
  - intros k x [[-> ->]|(? & Hx & _)]%Hcase; [done|by eapply wf_mode].
  - intros k1 k2 x1 x2 [[-> ->]|(? & Hx1 & ?)]%Hcase [[-> ->]|(? & Hx2 & ?)]%Hcase Heq; try done; try lia.
    by eapply (wf_order_inj _ _ W).
  - intros k x [[-> ->]|(? & Hx & ?)]%Hcase; lia.
  - done.
  - intros sid. unfold activeCount in *. rewrite count_range_insert_new by done.
    pose proof (wf_cap _ _ W sid) as Hc. unfold activeCount in Hc.
    destruct (decide (SessionID it = sid)) as [<-|Hs].
    + case_match; lia.
    + rewrite bool_decide_false by done. simpl. lia.
  - intros k1 k2 x1 x2 [[-> ->]|(? & Hx1 & ?)]%Hcase [[-> ->]|(? & Hx2 & ?)]%Hcase Hs R1 R2;
      try congruence. by eapply (wf_single _ _ W).
Qed.

Lemma wf_compact its nid sid : wf its nid -> wf (compactPromptQueueTombstones its sid) nid.
Proof. intros W. eapply wf_submap; [done|apply compact_subseteq]. Qed.

Lemma wf_update_matching p g its nid :
  wf its nid -> (forall k it, its !! k = Some it -> p it = true -> shrinks it (g it)) ->
  wf (update_matching p g its) nid.
Proof.
  intros W Hg. eapply wf_shrink; [done|]. intros k it'. unfold update_matching.
  rewrite lookup_fmap_Some. intros (it & <- & Hk). exists it. split; [done|].
  destruct (p it) eqn:Hp; [by eapply Hg|by eapply shrinks_refl].
Qed.

(** What one successful or failed step of the queue does. *)
Definition step_outcome (q : promptQueue) (r : res unit) (q' : promptQueue) : Prop :=
  q' = q \/
  exists next nid, wf next nid /\
    (r = Ok tt /\ items q' = next /\ nextID q' = nid /\ written next (disk q') \/
     exists e, r = Err e /\ items q' = items q /\ nextID q' = nextID q /\
       (disk q' = disk q \/ written next (disk q'))).

Lemma commit_outcome f q next r q' :
  wf next (nextID q) -> commit f next q = (r, q') -> step_outcome q r q'.
Proof.
  intros W Hc. apply commit_spec in Hc as [Hn H]. right. exists next, (nextID q).
  split; [done|]. destruct H as [(-> & Hi & Hw)|(e & -> & Hi & Hd)]; [left|right]; eauto 10.
Qed.

Lemma claimNext_outcome f sid q r q' :
  wf (items q) (nextID q) -> discard (claimNext f sid) q = (r, q') -> step_outcome q r q'.
Proof.
  intros W. unfold claimNext, discard. cbv [mbind M_bind mret M_ret get].
  destruct (claim_scan sid (range_values (items q)) None) as [[it|]|] eqn:Hc;
    [|by intros [= <- <-]; left|by intros [= <- <-]; left].
  destruct (commit _ _ q) as [r0 q0] eqn:Ec. intros Hr.
  assert (r = r0 /\ q' = q0) as [-> ->] by (destruct r0 as [[]|]; naive_solver).
  eapply commit_outcome; [|exact Ec].
  pose proof Hc as Hc'. apply claim_scan_some in Hc' as ([?|[_ [Hs _]]] & _); [done|]. subst sid.
  change (item_key (with_Status it promptQueueRunning)) with (item_key it).
  by apply wf_claim.
Qed.

Lemma enqueue_outcome f now it q r q' :
  wf (items q) (nextID q) -> discard (enqueue f now it) q = (r, q') -> step_outcome q r q'.
Proof.
  intros W. unfold enqueue, discard. cbv [mbind M_bind mret M_ret get put lift raise].
  destruct (enqueue_checks it) as [[]|e]; [|intros [= <- <-]; by left].
  destruct (items q !! item_key it) as [cur|] eqn:Hk; [intros [= <- <-]; by left|].
  destruct (maxPromptQueuePerSession <=? _) eqn:Hcap; [intros [= <- <-]; by left|]. bool_hyps.
  set (it' := mkItem _ _ _ _ _ _ _ _ _ _).
  destruct (validatePromptQueueItem it') as [[]|e] eqn:Hv; [|intros [= <- <-]; by left].
  set (next := <[item_key it' := it']> _).
  destruct (commit f next q) as [r0 q0] eqn:Ec. apply commit_spec in Ec as [Hn Hr0].
  assert (Hord : Order it' = nextID q + 1).
  { apply u64_succ; [apply W|]. apply item_ok_iff in Hv as [(_ & _ & _ & Ho & _) _]. exact Ho. }
  assert (Wn : wf next (Order it')).
  { assert (Hsub : compactPromptQueueTombstones (items q) (SessionID it') ⊆ items q)
      by apply compact_subseteq.
    apply (wf_insert_new _ (nextID q)); try done; [by apply wf_compact| |apply u64_add_range|].
    - change (item_key it') with (item_key it). by eapply lookup_weaken_None.
    - eapply Z.le_lt_trans; [|exact Hcap]. apply activeCount_le.
      intros k x Hx Hs Ha. exists x. split; [by eapply lookup_weaken|done]. }
  destruct Hr0 as [(-> & Hi & Hw)|(e & -> & Hi & Hd)]; intros [= <- <-]; right; exists next, (Order it').
  - split; [done|left]. done.
  - split; [done|right]. exists e. done.
Qed.

Ltac skip_op := intros [= <- <-]; by left.

Theorem run_op_outcome f op q r q' :
  wf (items q) (nextID q) -> run_op f op q = (r, q') -> step_outcome q r q'.
Proof.
  intros W. destruct op as [now it|sid|sid cid|sid cid|sid cid st|sid cid|sid st|sid|sid cid]; simpl.
  - by apply enqueue_outcome.
  - by apply claimNext_outcome.
  - unfold releaseClaim, transition. cbv [mbind M_bind mret M_ret get raise].
    destruct (items q !! _) as [it|] eqn:Hk; [|skip_op].
    case_bool_decide; [skip_op|]. case_bool_decide as HR; [|skip_op].
    apply commit_outcome. eapply wf_replace; [done|done|].
    eapply shrinks_with_Status; eauto. by rewrite HR.
  - unfold complete. cbv [mbind M_bind mret M_ret get raise].
    destruct (items q !! _) as [it|] eqn:Hk; [|skip_op]. case_bool_decide; [|skip_op].
    apply commit_outcome, wf_compact. eapply wf_replace; [done|done|]. by eapply shrinks_cleared.
  - unfold block. cbv [mbind M_bind mret M_ret get raise].
    destruct (items q !! _) as [it|] eqn:Hk; [|skip_op].
    destruct (_ || _)%bool eqn:Hc; [skip_op|]. bool_hyps.
    apply commit_outcome. eapply wf_replace; [done|done|]. eapply shrinks_with_Status; eauto.
    + destruct (Status it); naive_solver.
    + by destruct st.
    + intros ->. done.
  - unfold cancel. cbv [mbind M_bind mret M_ret get raise].
    destruct (items q !! _) as [it|] eqn:Hk; [|skip_op]. case_bool_decide; [skip_op|].
    destruct (_ && _)%bool; [skip_op|].
    apply commit_outcome, wf_compact. eapply wf_replace; [done|done|]. by eapply shrinks_cleared.
  - unfold blockSession. destruct (isPromptQueueBlocked st) eqn:Hb; [|skip_op].
    cbv [mbind M_bind mret M_ret get raise]. simpl. destruct (any_matching _ _); [|skip_op].
    apply commit_outcome, wf_update_matching; [done|]. intros k it Hk.
    intros [_ Hr%bool_decide_eq_true]%andb_prop.
    apply (shrinks_with_Status _ _ _ _ st W Hk); [by rewrite Hr|by destruct st|by intros ->].
  - unfold resumeSession. cbv [mbind M_bind mret M_ret get raise]. destruct (any_matching _ _); [|skip_op].
    apply commit_outcome, wf_update_matching; [done|]. intros k it Hk Hp. by eapply shrinks_cleared.
  - unfold skipIndeterminate. cbv [mbind M_bind mret M_ret get raise].
    destruct (items q !! _) as [it|] eqn:Hk; [|skip_op]. case_bool_decide; [|skip_op].
    apply commit_outcome, wf_compact. eapply wf_replace; [done|done|]. by eapply shrinks_cleared.
Qed.
End Mutations.

(** The checks of [enqueue] and the loader's validation agree on a new item. *)
Lemma enqueue_checks_item_ok it :
  enqueue_checks it = Ok tt -> (CollaborationMode it = "" \/ CollaborationMode it = "plan") ->
  Order it <> 0 -> 0 < CreatedAt it -> Status it = promptQueueQueued -> item_ok it.
Proof.
  unfold enqueue_checks. rewrite !bind_tt, !fail_if_tt. intros (? & ? & ? & Hp & Ha & Hs & Hn) Hm ? ? Hq.
  apply item_ok_iff. rewrite Hq. unfold item_idents_ok, payload_ok.
  rewrite !andb_false_iff, ?orb_false_iff, !negb_false_iff, !is_empty_true in *.
  assert (ValidString (Prompt it) = true) by (destruct Hp as [-> |]; done).
  cbn [isPromptQueueTerminal known_active]. tauto.
Qed.

(** ** Restart *)

(** What loading a version-2 file makes of a valid item: a turn that was
    running when the daemon stopped has an unknown outcome. *)
Definition after_restart (it : promptQueueItem) : promptQueueItem :=
  if bool_decide (Status it = promptQueueRunning)
  then with_Status it promptQueueBlockedIndeterminate else it.

Lemma after_restart_replaces it :
  item_ok it -> (CollaborationMode it = "" \/ CollaborationMode it = "plan") -> replaces it (after_restart it).
Proof.
  intros Hok Hm. unfold after_restart, replaces. case_bool_decide as Hr; simpl; [|tauto].
  split_and!; try done; [|unfold active; by rewrite Hr].
  apply item_ok_with_Status; [done|by rewrite Hr|done].
Qed.

Lemma after_restart_key it : item_key (after_restart it) = item_key it.
Proof. unfold after_restart. by case_bool_decide. Qed.

Lemma after_restart_Order it : Order (after_restart it) = Order it.
Proof. unfold after_restart. by case_bool_decide. Qed.

Lemma after_restart_not_running it : Status (after_restart it) <> promptQueueRunning.
Proof. unfold after_restart. by case_bool_decide. Qed.

Section Restart.
Context `{MO : MapOrder} `{CD : !Codec promptQueueDisk} `{RE : RawEquiv}.
Context `{CL : !CodecLaws promptQueueDisk encodable disk_equiv}.
Implicit Types (its : gmap string promptQueueItem) (it : promptQueueItem).

Lemma load_item_ok its n c it :
  item_ok it -> its !! item_key it = None ->
  load_item promptQueueVersion (its, n, c) it
  = Ok (<[item_key it := after_restart it]> its, Z.max n (Order it),
        (c || bool_decide (Status it = promptQueueRunning))%bool).
Proof.
  intros Hok Hnew. unfold load_item.
  change (promptQueueVersion =? promptQueueLegacyVersion) with false. rewrite andb_false_l, orb_false_r.
  assert (Hr : item_ok (after_restart it)).
  { unfold after_restart. case_bool_decide as Hr; [|done]. apply item_ok_with_Status; [done|by rewrite Hr|done]. }
  assert (Ht : forall x, item_ok x -> (isPromptQueueTerminal (Status x) && negb (no_payload x))%bool = false).
  { intros x [_ Hx]%item_ok_iff. destruct (isPromptQueueTerminal (Status x)); [by rewrite Hx|done]. }
  pose proof (Ht _ Hr) as Htr. pose proof (after_restart_key it) as Hk. revert Hr Htr Hk.
  unfold after_restart. case_bool_decide as Hrun; intros Hr Htr Hk; rewrite Htr; unfold item_ok in Hr;
    rewrite Hr; cbn [wrap mbind res_bind]; rewrite ?Hk, Hnew.
  - by rewrite orb_true_r.
  - by rewrite orb_false_r.
Qed.

(** Loading valid, distinct items succeeds and keeps every one of them. *)
Lemma load_items_ok l its n c :
  Forall item_ok l -> NoDup (item_key <$> l) -> (forall it, it ∈ l -> its !! item_key it = None) ->
  exists its' n' c', load_items promptQueueVersion (its, n, c) l = Ok (its', n', c') /\
    (forall k x, its' !! k = Some x <->
       its !! k = Some x \/ exists it, it ∈ l /\ k = item_key it /\ x = after_restart it) /\
    n <= n' /\ (forall it, it ∈ l -> Order it <= n') /\
    (n' = n \/ exists it, it ∈ l /\ n' = Order it) /\
    (c' = false -> c = false /\ forall it, it ∈ l -> after_restart it = it).
Proof.
  revert its n c. induction l as [|it l IH]; intros its n c Hok Hnd Hdis; cbn [load_items].
  { exists its, n, c. split_and!; try done; [|by intros ? ?%not_elem_of_nil|by left|].
    - intros k x. split; [by left|]. intros [|(? & ?%not_elem_of_nil & _)]; done.
    - intros ->. split; [done|]. by intros ? ?%not_elem_of_nil. }
  apply Forall_cons in Hok as [Hi Hok]. rewrite fmap_cons in Hnd. apply NoDup_cons in Hnd as [Hni Hnd].
  rewrite load_item_ok; [|done|apply Hdis; by left]. cbn [mbind res_bind].
  destruct (IH (<[item_key it := after_restart it]> its) (Z.max n (Order it))
    (c || bool_decide (Status it = promptQueueRunning))%bool Hok Hnd) as (its' & n' & c' & Hl & Hm & Hn & Ho & Hx & Hc).
  { intros x Hx. rewrite lookup_insert_ne; [apply Hdis; by right|].
    intros Heq. apply Hni. rewrite Heq. by apply list_elem_of_fmap_2. }
  exists its', n', c'. split; [done|]. split_and!.
  - intros k x. rewrite Hm, lookup_insert_Some. split.
    + intros [[[<- <-]|[_ ?]]|(y & ? & ? & ?)]; [right; exists it; split; [by left|done]|by left|].
      right. exists y. split; [by right|done].
    + intros [Hk|(y & [->|Hy]%elem_of_cons & -> & ->)]; [|by left; left|right; by exists y].
      left. right. split; [|done]. intros <-. rewrite Hdis in Hk by (by left). done.
  - lia.
  - intros x [->|Hx']%elem_of_cons; [lia|by apply Ho].
  - destruct Hx as [->|(y & Hy & ->)]; [|right; exists y; split; [by right|done]].
    destruct (Z.max_spec n (Order it)) as [[_ ->]|[_ ->]]; [|by left].
    right. exists it. split; [by left|done].
  - intros Hf. destruct (Hc Hf) as [Hb Hall]. bool_hyps. split; [done|].
    intros x [->|Hx']%elem_of_cons; [|by apply Hall].
    unfold after_restart. by rewrite bool_decide_false.
Qed.

Lemma elem_of_ordered its it : it ∈ ordered its <-> exists k, its !! k = Some it.
Proof. unfold ordered. rewrite sort_by_perm. apply elem_of_range_values. Qed.

Lemma ordered_keys_NoDup its nid : wf its nid -> NoDup (item_key <$> ordered its).
Proof.
  intros W. unfold ordered. rewrite sort_by_perm, range_values_perm.
  assert (item_key <$> (map_to_list its).*2 = (map_to_list its).*1) as ->; [|apply NoDup_fst_map_to_list].
  rewrite <- list_fmap_compose. apply list_fmap_ext. intros i [k it] Hin. simpl.
  symmetry. eapply wf_key; [done|]. apply elem_of_map_to_list. by eapply list_elem_of_lookup_2.
Qed.

Lemma ordered_encodable its nid : wf its nid -> encodable (mkDisk promptQueueVersion (ordered its)).
Proof.
  intros W. unfold encodable. simpl. apply Forall_forall. intros it [k Hk]%elem_of_ordered.
  apply item_ok_encodable; [by eapply wf_ok|by eapply wf_mode].
Qed.

(** [its'] is [its] as a restart leaves it: no entry lost or added. *)
Definition restarted its its' : Prop :=
  forall k, option_Forall2 (fun it it' => exists it0, item_equiv it it0 /\ it' = after_restart it0)
    (its !! k) (its' !! k).

Definition disk_ok (d : option (file promptQueueDisk)) : Prop :=
  match d with None => True | Some _ => exists its nid, wf its nid /\ written its d end.

Lemma item_equiv_key a b : item_equiv a b -> item_key a = item_key b.
Proof. unfold item_equiv, item_key. intros (-> & -> & _). done. Qed.

Lemma item_equiv_replaces a b :
  item_ok a -> (CollaborationMode a = "" \/ CollaborationMode a = "plan") -> item_equiv a b ->
  replaces a (after_restart b).
Proof.
  intros Hok Hm He. pose proof (item_equiv_ok _ _ He Hok) as Hokb.
  destruct He as (Hs & Hc & Ha & Hp & Hr & Hse & Hcm & Ht & Ho & Hst).
  destruct (after_restart_replaces b Hokb) as (R1 & R2 & R3 & R4 & R5 & R6); [by rewrite <- Hcm|].
  unfold replaces. split_and!; try congruence. unfold active in *. by rewrite Hst.
Qed.

Lemma restarted_wf its its' nid n' :
  wf its nid -> restarted its its' ->
  (forall k it', its' !! k = Some it' -> Order it' <= n') -> n' <= nid -> 0 <= n' -> wf its' n'.
Proof.
  intros W H Hn Hle Hpos.
  assert (W' : wf its' nid).
  { eapply wf_replaces; [exact W| |].
    - intros k it' Hk. specialize (H k). rewrite Hk in H. inversion H as [it ? (it0 & He & ->) Hit|]; subst.
      exists it. split; [done|]. apply item_equiv_replaces; [by eapply wf_ok|by eapply wf_mode|done].
    - intros k1 k2 i1 i2 H1 _ _ R1 _. specialize (H k1). rewrite H1 in H.
      inversion H as [it ? (it0 & He & ->) Hit|]; subst. by apply after_restart_not_running in R1. }
  destruct W' as [? ? ? ? Hmax Hu ? ?]. split; try done.
  - intros k it Hk. split; [by apply (Hmax k)|by eapply Hn].
  - unfold is_uint64 in *. lia.
Qed.

Lemma load_disk_written f its nid data :
  wf its nid -> marshalIndent (mkDisk promptQueueVersion (ordered its)) = Ok data ->
  f OpChmodLoad = None -> f OpReadFile = None ->
  exists its' n' c', load_disk f data = Ok (its', n', c') /\ restarted its its' /\ wf its' n' /\
    (c' = false -> forall k it, its !! k = Some it -> Status it <> promptQueueRunning).
Proof.
  intros W Hm H1 H2.
  destruct (unmarshal_marshalIndent _ _ (ordered_encodable _ _ W) Hm) as (d' & Hu & Hv & Hf).
  simpl in Hv, Hf.
  assert (Hfst : forall it, it ∈ ordered its -> exists it0, it0 ∈ Items d' /\ item_equiv it it0).
  { intros it [i Hi]%list_elem_of_lookup. destruct (Forall2_lookup_l _ _ _ _ _ Hf Hi) as (y & Hy & ?).
    exists y. split; [by eapply list_elem_of_lookup_2|done]. }
  assert (Hsnd : forall it0, it0 ∈ Items d' -> exists it, it ∈ ordered its /\ item_equiv it it0).
  { intros it [i Hi]%list_elem_of_lookup. destruct (Forall2_lookup_r _ _ _ _ _ Hf Hi) as (y & Hy & ?).
    exists y. split; [by eapply list_elem_of_lookup_2|done]. }
  assert (Hkeys : item_key <$> ordered its = item_key <$> Items d').
  { clear -Hf. induction Hf as [|a b l1 l2 Hab _ IH]; [done|]. rewrite !fmap_cons, IH. f_equal. by apply item_equiv_key. }
  destruct (load_items_ok (Items d') ∅ 0 false) as (its' & n' & c' & Hl & Hm' & Hn & Ho & Hx & Hc).
  { apply Forall_forall. intros it0 (it & [k Hk]%elem_of_ordered & He)%Hsnd.
    eapply item_equiv_ok; [done|]. by eapply wf_ok. }
  { rewrite <- Hkeys. by eapply ordered_keys_NoDup. }
  { intros it _. apply lookup_empty. }
  assert (HR : restarted its its').
  { intros k. destruct (its !! k) as [it|] eqn:Hk.
    - pose proof (wf_key _ _ W _ _ Hk) as ->.
      destruct (Hfst it) as (it0 & Hin & He); [apply elem_of_ordered; by eexists|].
      assert (its' !! item_key it = Some (after_restart it0)) as ->.
      { apply Hm'. right. exists it0. split_and!; [done|by apply item_equiv_key|done]. }
      constructor. by exists it0.
    - destruct (its' !! k) as [x|] eqn:Hk'; [|constructor].
      apply Hm' in Hk' as [Hk'|(it0 & Hin & -> & ->)]; [by rewrite lookup_empty in Hk'|].
      apply Hsnd in Hin as (it & [k' Hit]%elem_of_ordered & He).
      rewrite <- (item_equiv_key _ _ He) in Hk. pose proof (wf_key _ _ W _ _ Hit) as ->. congruence. }
  exists its', n', c'. split_and!; [|done| |].
  - unfold load_disk, sys. rewrite H1, H2. cbn [wrap mbind res_bind]. rewrite Hu. cbn [wrap mbind res_bind].
    rewrite <- Hv. exact Hl.
  - apply (restarted_wf its _ nid); [done|done| | |lia].
    + intros k it' [?|(it0 & Hin & -> & ->)]%Hm'; [by rewrite lookup_empty in *|].
      rewrite after_restart_Order. by apply Ho.
    + pose proof (wf_next _ _ W) as Hu64. unfold is_uint64 in Hu64.
      destruct Hx as [->|(it0 & Hin & ->)]; [lia|].
      apply Hsnd in Hin as (it & [k Hit]%elem_of_ordered & He).
      destruct He as (_ & _ & _ & _ & _ & _ & _ & _ & <- & _). apply (wf_order_max _ _ W _ _ Hit).
  - intros Hf' k it Hk Hr. destruct (Hc Hf') as [_ Hall].
    destruct (Hfst it) as (it0 & Hin & He); [apply elem_of_ordered; by eexists|].
    pose proof (after_restart_not_running it0) as Hnr. rewrite (Hall _ Hin) in Hnr.
    destruct He as (_ & _ & _ & _ & _ & _ & _ & _ & _ & Hst). congruence.
Qed.

(** The file holds the queue's items, up to the spelling of attachments. *)
Definition synced (q : promptQueue) : Prop :=
  exists its nid, wf its nid /\ written its (disk q) /\
    forall k, option_Forall2 item_equiv (its !! k) (items q !! k).

Definition queue_inv (q : promptQueue) : Prop := wf (items q) (nextID q) /\ disk_ok (disk q).

Lemma written_disk_ok its nid d : wf its nid -> written its d -> disk_ok d.
Proof. intros W Hw. destruct d as [f|]; [|done]. by exists its, nid. Qed.

Lemma written_synced q : wf (items q) (nextID q) -> written (items q) (disk q) -> synced q.
Proof.
  intros W Hw. exists (items q), (nextID q). split_and!; [done|done|].
  intros k. destruct (items q !! k); constructor. reflexivity.
Qed.

Lemma restarted_not_running its its' :
  restarted its its' -> (forall k it, its !! k = Some it -> Status it <> promptQueueRunning) ->
  forall k, option_Forall2 item_equiv (its !! k) (its' !! k).
Proof.
  intros H Hnr k. specialize (H k). specialize (Hnr k).
  destruct H as [it it' (it0 & He & ->)|]; [|constructor].
  constructor. assert (after_restart it0 = it0) as ->; [|done].
  unfold after_restart. rewrite bool_decide_false; [done|].
  destruct He as (_ & _ & _ & _ & _ & _ & _ & _ & _ & <-). by apply Hnr.
Qed.

(** Loading a file the queue wrote: what memory and the file hold then. *)
Lemma load_written f its nid d r d' :
  wf its nid -> written its d -> loadPromptQueue f d = (r, d') ->
  match r with
  | Ok q => restarted its (items q) /\ wf (items q) (nextID q) /\ disk q = d' /\ synced q
  | Err _ => d' = d \/ exists its', restarted its its' /\ written its' d' /\ exists n, wf its' n
  end.
Proof.
  intros W (data & -> & Hm & Hs). unfold loadPromptQueue.
  destruct (sys f OpStat) as [[]|e]; [|intros [= <- <-]; by left].
  destruct (maxPromptQueueBytes <? file_size data) eqn:Hsz; bool_hyps; [lia|].
  destruct (f OpChmodLoad) as [e|] eqn:H1.
  { unfold load_disk, sys. rewrite H1. intros [= <- <-]. by left. }
  destruct (f OpReadFile) as [e|] eqn:H2.
  { unfold load_disk, sys. rewrite H1, H2. intros [= <- <-]. by left. }
  destruct (load_disk_written f its nid data W Hm H1 H2) as (its' & n' & c' & -> & HR & W' & Hc).
  destruct c'.
  - destruct (persist f its' _) as [r0 q0] eqn:Ep. apply persist_spec in Ep as (Hi & Hn & Hr0).
    simpl in Hi, Hn. destruct Hr0 as [[-> Hw]|(e & -> & Hd)]; intros [= <- <-].
    + split_and!; [by rewrite Hi|by rewrite Hi, Hn|done|apply written_synced; by rewrite Hi, ?Hn].
    + destruct Hd as [->|Hd]; [by left|right]. exists its'. split_and!; [done|done|by exists n'].
  - intros [= <- <-]. simpl. split_and!; try done.
    exists its, nid. split_and!; [done|by exists data|]. simpl.
    apply restarted_not_running; [done|by apply Hc].
Qed.

Lemma load_fresh f r d' :
  loadPromptQueue f None = (r, d') ->
  match r with
  | Ok q => items q = ∅ /\ nextID q = 0 /\ disk q = d' /\ written ∅ d'
  | Err _ => d' = None \/ written ∅ d'
  end.
Proof.
  unfold loadPromptQueue. destruct (sys f OpStat) as [[]|e]; [|intros [= <- <-]; by left].
  destruct (persist f ∅ _) as [r0 q0] eqn:Ep. apply persist_spec in Ep as (Hi & Hn & Hr0).
  destruct Hr0 as [[-> Hw]|(e & -> & Hd)]; intros [= <- <-]; done.
Qed.

(** *** The daemon's runs *)

(** A running daemon with its queue, or a stopped one with the file. A crash
    in the middle of a write is a failed operation followed by a crash. *)
Inductive qstate : Type :=
  | Up (q : promptQueue)
  | Down (d : option (file promptQueueDisk)).

(** [P] restricts which system calls may fail. *)
Inductive qstep (P : io -> Prop) : qstate -> qstate -> Prop :=
  | QRun f op q r q' : P f -> run_op f op q = (r, q') -> qstep P (Up q) (Up q')
  | QCrash q : qstep P (Up q) (Down (disk q))
  | QStart f d q d' : P f -> loadPromptQueue f d = (Ok q, d') -> qstep P (Down d) (Up q)
  | QStartFailed f d e d' : P f -> loadPromptQueue f d = (Err e, d') -> qstep P (Down d) (Down d').

Definition reachable (P : io -> Prop) (s : qstate) : Prop := rtc (qstep P) (Down None) s.

Definition any_io (f : io) : Prop := True.
(** The [os.Chmod] after the rename does not fail. *)
Definition chmod_reliable (f : io) : Prop := f OpChmodFinal = None.

Lemma load_inv f d r d' :
  disk_ok d -> loadPromptQueue f d = (r, d') ->
  match r with Ok q => queue_inv q /\ disk q = d' | Err _ => disk_ok d' end.
Proof.
  intros Hd Hl. destruct d as [data|].
  - destruct Hd as (its & nid & W & Hw). pose proof (load_written _ _ _ _ _ _ W Hw Hl) as H.
    destruct r as [q|e].
    + destruct H as (_ & Wq & <- & (its0 & n0 & W0 & Hw0 & _)).
      split; [|done]. split; [done|]. by eapply written_disk_ok.
    + destruct H as [->|(its' & _ & Hw' & n & Wn)]; [by exists its, nid|by eapply written_disk_ok].
  - apply load_fresh in Hl. destruct r as [q|e].
    + destruct Hl as (Hi & Hn & <- & Hw). unfold queue_inv. rewrite Hi, Hn.
      split; [|done]. split; [apply wf_empty|]. eapply written_disk_ok; [apply wf_empty|done].
    + destruct Hl as [->|Hw]; [done|]. eapply written_disk_ok; [apply wf_empty|done].
Qed.

Lemma run_op_inv f op q r q' : queue_inv q -> run_op f op q = (r, q') -> queue_inv q'.
Proof.
  intros [W Hd] Hop. apply run_op_outcome in Hop; [|done].
  destruct Hop as [->|(nx & nid & Wn & [(_ & Hi & Hn & Hw)|(e & _ & Hi & Hn & Hdk)])]; [done| |];
    unfold queue_inv; rewrite Hi, Hn; (split; [done|]).
  - by eapply written_disk_ok.
  - destruct Hdk as [->|Hw]; [done|by eapply written_disk_ok].
Qed.

Definition qstate_inv (s : qstate) : Prop :=
  match s with Up q => queue_inv q | Down d => disk_ok d end.

Lemma qstep_inv P s1 s2 : qstate_inv s1 -> qstep P s1 s2 -> qstate_inv s2.
Proof.
  intros H0 Hs. destruct Hs as [f op q r q' _ Hop|q|f d q d' _ Hl|f d e d' _ Hl]; simpl in *.
  - exact (run_op_inv _ _ _ _ _ H0 Hop).
  - by destruct H0.
  - by apply (load_inv _ _ _ _ H0) in Hl as [? _].
  - by apply (load_inv _ _ _ _ H0) in Hl.
Qed.

Lemma reachable_inv P s : reachable P s -> qstate_inv s.
Proof. intros H. eapply rtc_invariant; [apply qstep_inv|exact H|done]. Qed.

(** With a reliable final [os.Chmod], memory and file never drift apart. *)
Lemma persist_reliable f its q r q' :
  chmod_reliable f -> persist f its q = (r, q') -> is_ok r = false -> q' = q.
Proof.
  intros Hf. unfold persist. destruct (marshalIndent _) as [data|e]; [|by intros [= <- <-]].
  destruct (_ <? _); [by intros [= <- <-]|].
  destruct (writeFileAtomic f (disk q) data) as [r0 d] eqn:Ew. intros [= <- <-].
  destruct r0 as [|e]; [done|]. intros _. apply writeFileAtomic_err in Ew as [->|[Hc _]].
  - by destruct q.
  - unfold chmod_reliable in Hf. congruence.
Qed.

Lemma commit_reliable f its q e q' :
  chmod_reliable f -> commit f its q = (Err e, q') -> q' = q.
Proof.
  intros Hf. unfold commit. cbv [mbind M_bind get put].
  destruct (persist f its q) as [[[]|e0] q0] eqn:Ep; intros [= <- <-].
  by eapply persist_reliable.
Qed.

Lemma run_op_reliable f op q e q' :
  chmod_reliable f -> run_op f op q = (Err e, q') -> q' = q.
Proof.
  intros Hf. pose proof (fun nx e0 q0 => commit_reliable f nx q e0 q0 Hf) as Hc.
  destruct op as [now it|sid|sid cid|sid cid|sid cid st|sid cid|sid st|sid|sid cid]; simpl;
    unfold enqueue, claimNext, releaseClaim, transition, complete, block, cancel, blockSession,
      resumeSession, skipIndeterminate, discard;
    cbv [mbind M_bind mret M_ret get put lift raise].
  - destruct (enqueue_checks it) as [[]|]; [|by intros [= _ <-]].
    destruct (items q !! _); [by intros [=]|]. destruct (_ <=? _); [by intros [= _ <-]|].
    destruct (validatePromptQueueItem _) as [[]|]; [|by intros [= _ <-]].
    destruct (commit _ _ q) as [[[]|e0] q0] eqn:Ec; intros [= <- <-]. by eapply Hc.
  - destruct (claim_scan _ _ _) as [[it|]|]; [|by intros [=]|by intros [=]].
    destruct (commit _ _ q) as [[[]|e0] q0] eqn:Ec; intros [= <- <-]. by eapply Hc.
  - destruct (items q !! _); [|by intros [= _ <-]]. repeat case_match; try (by intros [= _ <-]). apply Hc.
  - destruct (items q !! _); [|by intros [= _ <-]]. repeat case_match; try (by intros [= _ <-]). apply Hc.
  - destruct (items q !! _); [|by intros [= _ <-]]. repeat case_match; try (by intros [= _ <-]). apply Hc.
  - destruct (items q !! _); [|by intros [= _ <-]]. repeat case_match; try (by intros [= _ <-]). apply Hc.
  - repeat case_match; try (by intros [= _ <-]). apply Hc.
  - repeat case_match; try (by intros [= _ <-]). apply Hc.
  - destruct (items q !! _); [|by intros [= _ <-]]. repeat case_match; try (by intros [= _ <-]). apply Hc.
Qed.

Definition sync_inv (s : qstate) : Prop :=
  qstate_inv s /\ match s with Up q => synced q | Down _ => True end.

Lemma qstep_sync s1 s2 : sync_inv s1 -> qstep chmod_reliable s1 s2 -> sync_inv s2.
Proof.
  intros [Hi Hs] Hstep. split; [by eapply qstep_inv|].
  destruct Hstep as [f op q r q' Hf Hop|q|f d q d' _ Hl|f d e d' _ Hl]; [|done| |done].
  - destruct r as [u|e]; [|by rewrite (run_op_reliable _ _ _ _ _ Hf Hop)].
    apply run_op_outcome in Hop; [|apply Hi].
    destruct Hop as [->|(nx & nid & Wn & [(_ & Hit & Hn & Hw)|(e & ? & _)])]; [done| |done].
    apply written_synced; by rewrite Hit, ?Hn.
  - destruct d as [data|].
    + destruct Hi as (its & nid & W & Hw). by apply (load_written _ _ _ _ _ _ W Hw) in Hl as (_ & _ & _ & ?).
    + apply load_fresh in Hl as (Hit & Hn & Hd & Hw). apply written_synced; rewrite Hit, ?Hn, ?Hd; [apply wf_empty|done].
Qed.

Lemma reachable_synced q : reachable chmod_reliable (Up q) -> synced q.
Proof.
  intros H. apply (rtc_invariant _ sync_inv) in H; [apply H|apply qstep_sync|done].
Qed.
End Restart.

(** ** The life cycle of an item

    The abstract specification of the queue: what may happen to the status
    stored under one key. [None] is a key with no item. *)

Inductive item_step : option promptQueueStatus -> option promptQueueStatus -> Prop :=
  | StepEnqueue : item_step None (Some promptQueueQueued)
  | StepClaim : item_step (Some promptQueueQueued) (Some promptQueueRunning)
  | StepRelease : item_step (Some promptQueueRunning) (Some promptQueueQueued)
  | StepComplete : item_step (Some promptQueueRunning) (Some promptQueueCompleted)
  | StepBlock s s' : s = promptQueueQueued \/ s = promptQueueRunning -> isPromptQueueBlocked s' = true ->
      item_step (Some s) (Some s')
  | StepCancel s : s = promptQueueQueued \/ isPromptQueueBlocked s = true ->
      item_step (Some s) (Some promptQueueCancelled)
  | StepResume s : s = promptQueueBlockedFailed \/ s = promptQueueBlockedInterrupted ->
      item_step (Some s) (Some promptQueueCompleted)
  | StepSkip : item_step (Some promptQueueBlockedIndeterminate) (Some promptQueueCompleted)
  | StepForget s : isPromptQueueTerminal s = true -> item_step (Some s) None.

(** One operation takes a key through at most one step, and a forgetting one
    when the item has just become terminal and is compacted at once. *)
Definition one_step (s s' : option promptQueueStatus) : Prop := s = s' \/ item_step s s'.

Definition op_steps (s s' : option promptQueueStatus) : Prop :=
  one_step s s' \/ exists m, one_step s (Some m) /\ isPromptQueueTerminal m = true /\ s' = None.

Section LifeCycle.
Context `{MO : MapOrder} `{CD : !Codec promptQueueDisk}.

Definition status_at (its : gmap string promptQueueItem) (k : string) : option promptQueueStatus :=
  Status <$> its !! k.

Lemma compact_lookup its nid sid k :
  wf its nid ->
  compactPromptQueueTombstones its sid !! k = its !! k \/
  (compactPromptQueueTombstones its sid !! k = None /\
   exists it, its !! k = Some it /\ isPromptQueueTerminal (Status it) = true).
Proof.
  intros W. destruct (its !! k) as [it|] eqn:Hk.
  - destruct (isPromptQueueTerminal (Status it)) eqn:HT.
    + destruct (compactPromptQueueTombstones its sid !! k) as [x|] eqn:Hx; [left|right; eauto].
      pose proof (lookup_weaken _ _ _ _ Hx (compact_subseteq its sid)). congruence.
    + left. eapply compact_keeps; eauto.
  - left. eapply lookup_weaken_None; [done|apply compact_subseteq].
Qed.

Lemma status_compact its nid sid k s :
  wf its nid -> one_step s (status_at its k) ->
  op_steps s (status_at (compactPromptQueueTombstones its sid) k).
Proof.
  intros W Hs. unfold status_at in *.
  destruct (compact_lookup its nid sid k W) as [->|[-> (it & Hk & HT)]]; [by left|].
  right. exists (Status it). rewrite Hk in Hs. done.
Qed.

Lemma status_insert its k k' it it' :
  its !! k = Some it -> item_step (Some (Status it)) (Some (Status it')) ->
  one_step (status_at its k') (status_at (<[k := it']> its) k').
Proof.
  intros Hk Hs. unfold status_at. destruct (decide (k = k')) as [<-|Hne].
  - rewrite lookup_insert_eq, Hk. by right.
  - rewrite lookup_insert_ne by done. by left.
Qed.

Lemma status_update p g its k :
  (forall it, its !! k = Some it -> p it = true -> item_step (Some (Status it)) (Some (Status (g it)))) ->
  one_step (status_at its k) (status_at (update_matching p g its) k).
Proof.
  intros H. unfold status_at, update_matching. rewrite lookup_fmap.
  destruct (its !! k) as [it|] eqn:Hk; [|by left]. simpl. destruct (p it) eqn:Hp; [|by left].
  right. by apply H.
Qed.

Lemma commit_ok_items f nx q q' : commit f nx q = (Ok tt, q') -> items q' = nx.
Proof. intros H. apply commit_spec in H as [_ [(_ & ? & _)|(e & ? & _)]]; done. Qed.

Ltac noop := intros [= <-]; left; by left.

Lemma run_op_lifecycle f op q q' k :
  wf (items q) (nextID q) -> run_op f op q = (Ok tt, q') ->
  op_steps (status_at (items q) k) (status_at (items q') k).
Proof.
  intros W. destruct op as [now it|sid|sid cid|sid cid|sid cid st|sid cid|sid st|sid|sid cid]; simpl.
  - unfold enqueue, discard. cbv [mbind M_bind mret M_ret get put lift raise].
    destruct (enqueue_checks it) as [[]|]; [|done].
    destruct (items q !! item_key it) as [cur|] eqn:Hk; [noop|].
    destruct (_ <=? _); [done|]. set (it' := mkItem _ _ _ _ _ _ _ _ _ _).
    destruct (validatePromptQueueItem it') as [[]|]; [|done].
    destruct (commit _ _ q) as [[[]|] q0] eqn:Ec; [|done]. intros [= <-].
    apply commit_ok_items in Ec. simpl. rewrite Ec. unfold status_at.
    change (item_key it) with (item_key it') in Hk.
    destruct (decide (item_key it' = k)) as [<-|Hne].
    + rewrite lookup_insert_eq, Hk. left. right. constructor.
    + rewrite lookup_insert_ne by done. eapply status_compact; [done|by left].
  - unfold claimNext, discard. cbv [mbind M_bind mret M_ret get].
    destruct (claim_scan sid _ None) as [[it|]|] eqn:Hc; [|noop|noop].
    destruct (commit _ _ q) as [[[]|] q0] eqn:Ec; [|done]. intros [= <-].
    apply commit_ok_items in Ec as ->.
    apply claim_scan_some in Hc as ([?|[[kk Hk]%elem_of_range_values [_ Hq]]] & _); [done|].
    pose proof (wf_key _ _ W _ _ Hk) as ->.
    left. eapply status_insert; [exact Hk|]. rewrite Hq. constructor.
  - unfold releaseClaim, transition. cbv [mbind M_bind mret M_ret get raise].
    destruct (items q !! _) as [it|] eqn:Hk; [|done].
    case_bool_decide; [noop|]. case_bool_decide as HR; [|done].
    intros ->%commit_ok_items. left. eapply status_insert; [done|]. rewrite HR. constructor.
  - unfold complete. cbv [mbind M_bind mret M_ret get raise].
    destruct (items q !! _) as [it|] eqn:Hk; [|done]. case_bool_decide as HR; [|done].
    intros ->%commit_ok_items. eapply status_compact.
    { eapply wf_replace; [done|done|]. by eapply shrinks_cleared. }
    eapply status_insert; [done|]. rewrite HR. constructor.
  - unfold block. cbv [mbind M_bind mret M_ret get raise].
    destruct (items q !! _) as [it|] eqn:Hk; [|done].
    destruct (_ || _)%bool eqn:Hc; [done|]. bool_hyps.
    intros ->%commit_ok_items. left. eapply status_insert; [done|]. constructor; [|done].
    apply andb_false_iff in H0 as [Hc|Hc]; bool_hyps; auto.
  - unfold cancel. cbv [mbind M_bind mret M_ret get raise].
    destruct (items q !! _) as [it|] eqn:Hk; [|done]. case_bool_decide; [noop|].
    destruct (_ && _)%bool eqn:Hc; [done|].
    intros ->%commit_ok_items. eapply status_compact.
    { eapply wf_replace; [done|done|]. by eapply shrinks_cleared. }
    eapply status_insert; [done|]. apply StepCancel.
    apply andb_false_iff in Hc as [Hc|Hc]; bool_hyps; auto.
  - unfold blockSession. destruct (isPromptQueueBlocked st) eqn:Hb; [|done].
    cbv [mbind M_bind mret M_ret get raise]. simpl. destruct (any_matching _ _); [|noop].
    intros ->%commit_ok_items. left. apply status_update. intros it _ [_ Hr%bool_decide_eq_true]%andb_prop.
    constructor; [by right|done].
  - unfold resumeSession. cbv [mbind M_bind mret M_ret get raise]. destruct (any_matching _ _); [|noop].
    intros ->%commit_ok_items. left. apply status_update. intros it _ [_ Hr]%andb_prop.
    apply StepResume. apply orb_true_iff in Hr as [Hr|Hr]; bool_hyps; auto.
  - unfold skipIndeterminate. cbv [mbind M_bind mret M_ret get raise].
    destruct (items q !! _) as [it|] eqn:Hk; [|done]. case_bool_decide as HR; [|done].
    intros ->%commit_ok_items. eapply status_compact.
    { eapply wf_replace; [done|done|]. by eapply shrinks_cleared. }
    eapply status_insert; [done|]. rewrite HR. apply StepSkip.
Qed.
End LifeCycle.

(** ** Independence of Go's map order

    Two orders of iteration, the same queue. *)

Section MapOrderIndependence.
Context (MO1 MO2 : MapOrder) `{CD : !Codec promptQueueDisk}.
Implicit Types (its : gmap string promptQueueItem).

Lemma range_values_perm2 {A} (m : gmap string A) : @range_values MO1 A m ≡ₚ @range_values MO2 A m.
Proof. rewrite (@range_values_perm MO1), (@range_values_perm MO2). done. Qed.

Lemma activeCount_order its sid : @activeCount MO1 its sid = @activeCount MO2 its sid.
Proof. unfold activeCount. apply count_perm, range_values_perm2. Qed.

Lemma wf_order its nid : @wf MO1 its nid -> @wf MO2 its nid.
Proof.
  intros W. split; try apply W. intros sid. rewrite <- activeCount_order. apply W.
Qed.

Lemma values_order_inj its nid a b :
  @wf MO1 its nid -> a ∈ @range_values MO1 _ its -> b ∈ @range_values MO1 _ its -> Order a = Order b -> a = b.
Proof.
  intros W [ka Ha]%elem_of_range_values [kb Hb]%elem_of_range_values Ho.
  pose proof (wf_order_inj _ _ W _ _ _ _ Ha Hb Ho). congruence.
Qed.

Lemma ordered_order its nid : @wf MO1 its nid -> @ordered MO1 its = @ordered MO2 its.
Proof.
  intros W. unfold ordered. apply sort_by_unique; [|apply range_values_perm2].
  intros a b. by apply (values_order_inj its nid).
Qed.

Lemma tombstones_perm sid l1 l2 : l1 ≡ₚ l2 -> tombstones sid l1 ≡ₚ tombstones sid l2.
Proof.
  unfold tombstones. induction 1; simpl; repeat case_match; eauto using Permutation.
Qed.

Lemma compact_order its nid sid :
  @wf MO1 its nid ->
  @compactPromptQueueTombstones MO1 its sid = @compactPromptQueueTombstones MO2 its sid.
Proof.
  intros W. unfold compactPromptQueueTombstones.
  pose proof (tombstones_perm sid _ _ (range_values_perm2 its)) as Hp.
  rewrite (Permutation_length Hp). case_match; [done|].
  erewrite sort_by_unique; [done| |exact Hp].
  intros a b [Ha _]%elem_of_tombstones [Hb _]%elem_of_tombstones Ho.
  apply (values_order_inj its nid a b W Ha Hb). lia.
Qed.

Lemma claim_scan_order its nid sid :
  @wf MO1 its nid ->
  claim_scan sid (@range_values MO1 _ its) None = claim_scan sid (@range_values MO2 _ its) None.
Proof.
  intros W. pose proof (range_values_perm2 its) as Hp.
  destruct (claim_scan sid (@range_values MO2 _ its) None) as [c2|] eqn:E2.
  2:{ apply claim_scan_none. apply claim_scan_none in E2 as (it & Hin & Hs).
      exists it. by rewrite Hp. }
  destruct (claim_scan sid (@range_values MO1 _ its) None) as [c1|] eqn:E1.
  2:{ apply claim_scan_none in E1 as (it & Hin & Hs).
      assert (claim_scan sid (@range_values MO2 _ its) None = None) as Hn; [|congruence].
      apply claim_scan_none. exists it. by rewrite <- Hp. }
  f_equal. apply claim_scan_some in E1, E2.
  destruct c1 as [i1|], c2 as [i2|]; [| | |done].
  - destruct E1 as ([?|[H1 Q1]] & _ & L1); [done|]. destruct E2 as ([?|[H2 Q2]] & _ & L2); [done|].
    f_equal. apply (values_order_inj its nid i1 i2 W H1); [by rewrite Hp|].
    apply Z.le_antisymm; [apply L1|apply L2]; try done; [by rewrite Hp|by rewrite <- Hp].
  - destruct E1 as ([?|[H1 Q1]] & _); [done|]. destruct E2 as [_ E2]. rewrite Hp in H1. by destruct (E2 i1).
  - destruct E2 as ([?|[H2 Q2]] & _); [done|]. destruct E1 as [_ E1]. rewrite <- Hp in H2. by destruct (E1 i2).
Qed.

Lemma commit_order f nx nid q : @wf MO1 nx nid -> @commit MO1 _ f nx q = @commit MO2 _ f nx q.
Proof. intros W. unfold commit, persist. by rewrite (ordered_order _ _ W). Qed.

Lemma any_matching_order p its : @any_matching MO1 p its = @any_matching MO2 p its.
Proof.
  unfold any_matching. pose proof (range_values_perm2 its) as Hp.
  apply eq_iff_eq_true. rewrite !existsb_exists.
  split; intros (x & Hx & ?); exists x; (split; [|done]); apply list_elem_of_In in Hx; apply list_elem_of_In.
  - by rewrite <- Hp.
  - by rewrite Hp.
Qed.

Lemma run_op_order f op q :
  @wf MO1 (items q) (nextID q) -> @run_op MO1 _ f op q = @run_op MO2 _ f op q.
Proof.
  intros W.
  assert (Hcl : forall it k s sid, items q !! k = Some it -> isPromptQueueTerminal s = true ->
    @commit MO1 _ f (@compactPromptQueueTombstones MO1
      (<[k := clearPromptQueuePayload (with_Status it s)]> (items q)) sid) q
    = @commit MO2 _ f (@compactPromptQueueTombstones MO2
      (<[k := clearPromptQueuePayload (with_Status it s)]> (items q)) sid) q).
  { intros it k s sid Hk Hs.
    assert (W1 : @wf MO1 (<[k := clearPromptQueuePayload (with_Status it s)]> (items q)) (nextID q)).
    { eapply wf_replace; [done|done|]. exact (shrinks_cleared _ _ _ _ s W Hk Hs). }
    rewrite (commit_order _ _ (nextID q)); [by rewrite (compact_order _ _ _ W1)|by apply wf_compact]. }
  destruct op as [now it|sid|sid cid|sid cid|sid cid st|sid cid|sid st|sid|sid cid]; simpl.
  - unfold enqueue, discard. cbv [mbind M_bind mret M_ret get put lift raise].
    destruct (enqueue_checks it) as [[]|]; [|done]. destruct (items q !! item_key it) eqn:Hk; [done|].
    rewrite activeCount_order. destruct (_ <=? _) eqn:Hcap; [done|]. bool_hyps.
    set (it' := mkItem _ _ _ _ _ _ _ _ _ _).
    destruct (validatePromptQueueItem it') as [[]|] eqn:Hv; [|done].
    rewrite (commit_order _ _ (Order it')); [by rewrite (compact_order _ _ _ W)|].
    assert (Hord : Order it' = nextID q + 1).
    { apply u64_succ; [apply W|]. apply item_ok_iff in Hv as [(_ & _ & _ & Ho & _) _]. exact Ho. }
    apply (wf_insert_new _ (nextID q)); try done; [by apply wf_compact| |apply u64_add_range|].
    + change (item_key it') with (item_key it). eapply lookup_weaken_None; [done|apply compact_subseteq].
    + rewrite <- activeCount_order in Hcap. eapply Z.le_lt_trans; [|exact Hcap]. apply activeCount_le.
      intros k x Hx Hs Ha. exists x. split; [|done]. eapply lookup_weaken; [done|apply compact_subseteq].
  - unfold claimNext, discard. cbv [mbind M_bind mret M_ret get].
    rewrite <- (claim_scan_order _ _ _ W). destruct (claim_scan _ _ _) as [[it|]|] eqn:Hc; [|done|done].
    erewrite commit_order; [done|].
    pose proof Hc as Hc'. apply claim_scan_some in Hc' as ([?|[_ [Hs _]]] & _); [done|]. subst sid.
    change (item_key (with_Status it promptQueueRunning)) with (item_key it). by apply wf_claim.
  - unfold releaseClaim, transition. cbv [mbind M_bind mret M_ret get raise].
    destruct (items q !! _) as [it|] eqn:Hk; [|done]. case_bool_decide; [done|]. case_bool_decide as HR; [|done].
    simpl. eapply commit_order. eapply wf_replace; [done|done|].
    apply (shrinks_with_Status _ _ _ _ promptQueueQueued W Hk); [by rewrite HR|done|done].
  - unfold complete. cbv [mbind M_bind mret M_ret get raise].
    destruct (items q !! _) as [it|] eqn:Hk; [|done]. case_bool_decide; [|done]. by apply Hcl.
  - unfold block. cbv [mbind M_bind mret M_ret get raise].
    destruct (items q !! _) as [it|] eqn:Hk; [|done]. destruct (_ || _)%bool eqn:Hc; [done|]. bool_hyps.
    eapply commit_order. eapply wf_replace; [done|done|].
    apply (shrinks_with_Status _ _ _ _ st W Hk); [destruct (Status it); naive_solver|by destruct st|by intros ->].
  - unfold cancel. cbv [mbind M_bind mret M_ret get raise].
    destruct (items q !! _) as [it|] eqn:Hk; [|done]. case_bool_decide; [done|].
    destruct (_ && _)%bool; [done|]. by apply Hcl.
  - unfold blockSession. destruct (isPromptQueueBlocked st) eqn:Hb; [|done].
    cbv [mbind M_bind mret M_ret get raise]. cbn [negb]. rewrite any_matching_order. destruct (any_matching _ _); [|done].
    eapply commit_order, wf_update_matching; [done|]. intros k it Hk [_ Hr%bool_decide_eq_true]%andb_prop.
    apply (shrinks_with_Status _ _ _ _ st W Hk); [by rewrite Hr|by destruct st|by intros ->].
  - unfold resumeSession. cbv [mbind M_bind mret M_ret get raise]. rewrite any_matching_order.
    destruct (any_matching _ _); [|done].
    eapply commit_order, wf_update_matching; [done|]. intros k it Hk _. by apply (shrinks_cleared _ _ _ _ _ W Hk).
  - unfold skipIndeterminate. cbv [mbind M_bind mret M_ret get raise].
    destruct (items q !! _) as [it|] eqn:Hk; [|done]. case_bool_decide; [|done]. by apply Hcl.
Qed.
End MapOrderIndependence.

(** ** Properties *)

Section Properties.
Context `{MO : MapOrder} `{CD : !Codec promptQueueDisk} `{RE : RawEquiv}.
Context `{CL : !CodecLaws promptQueueDisk encodable disk_equiv}.

Lemma tombstones_NoDup its nid sid : wf its nid -> NoDup (tombstones sid (range_values its)).
Proof.
  intros W. unfold tombstones.
  assert (NoDup (range_values its)) as Hnd.
  { apply (NoDup_fmap_1 item_key). unfold range_values.
    pose proof (ordered_keys_NoDup its nid W) as H. unfold ordered in H. by rewrite sort_by_perm in H. }
  induction Hnd as [|x l Hx Hnd IH]; simpl; [constructor|].
  case_match; [|done]. constructor; [|done]. rewrite list_elem_of_In, filter_In, <- list_elem_of_In. tauto.
Qed.

Lemma compact_newest its nid sid k it :
  wf its nid -> compactQueueTombstonesAt <= Z.of_nat (List.length (tombstones sid (range_values its))) ->
  its !! k = Some it -> SessionID it = sid -> isPromptQueueTerminal (Status it) = true ->
  compactPromptQueueTombstones its sid !! k = Some it <->
  count (fun y => Order it <? Order y) (tombstones sid (range_values its)) < Z.of_nat retainQueueTombstones.
Proof.
  intros W Hn Hk Hsid HT. unfold compactPromptQueueTombstones.
  destruct (_ <? _) eqn:E; bool_hyps; [lia|clear E].
  set (T := tombstones sid (range_values its)) in *.
  pose proof (wf_key _ _ W _ _ Hk) as ->.
  assert (HinT : it ∈ T) by (apply elem_of_tombstones; split; [apply elem_of_range_values; by eexists|done]).
  assert (Hinj : forall a b, a ∈ T -> b ∈ T -> Order a = Order b -> a = b).
  { intros a b [[ka Ha]%elem_of_range_values _]%elem_of_tombstones
      [[kb Hb]%elem_of_range_values _]%elem_of_tombstones Ho.
    pose proof (wf_order_inj _ _ W _ _ _ _ Ha Hb Ho). congruence. }
  set (S := sort_by (fun it => - Order it) T).
  assert (HS : S ≡ₚ T) by apply sort_by_perm.
  assert (HndS : NoDup S) by (rewrite HS; by eapply tombstones_NoDup).
  rewrite foldl_delete_lookup.
  assert (item_key it ∈ item_key <$> drop retainQueueTombstones S <-> it ∈ drop retainQueueTombstones S) as Hd.
  { split; [|by apply list_elem_of_fmap_2]. intros (y & Hy & Hin)%list_elem_of_fmap.
    assert (y ∈ T) as HyT by (rewrite <- HS, <- (take_drop retainQueueTombstones S); apply elem_of_app; by right).
    apply elem_of_tombstones in HyT as [[ky Hky]%elem_of_range_values _].
    pose proof (wf_key _ _ W _ _ Hky) as ->. rewrite Hy in Hk. by simplify_eq. }
  assert (it ∈ take retainQueueTombstones S <->
    count (fun y => Order it <? Order y) T < Z.of_nat retainQueueTombstones) as Hrank.
  { rewrite (take_sorted_rank (fun it => - Order it)); [|apply sort_by_sorted|done| |by rewrite HS].
    - rewrite (count_perm _ _ _ HS).
      assert (count (fun y => - Order y <? - Order it) T = count (fun y => Order it <? Order y) T) as ->; [|done].
      unfold count. do 2 f_equal. apply filter_ext. intros y.
      apply eq_iff_eq_true. rewrite !Z.ltb_lt. lia.
    - intros a b Ha Hb Ho. rewrite HS in Ha, Hb. apply Hinj; [done|done|lia]. }
  assert (it ∈ take retainQueueTombstones S <-> ~ it ∈ drop retainQueueTombstones S) as Hcompl.
  { rewrite <- (take_drop retainQueueTombstones S) in HndS. apply NoDup_app in HndS as (_ & Hdis & _).
    split; [apply Hdis|]. intros Hnd. assert (it ∈ S) as HinS by by rewrite HS.
    rewrite <- (take_drop retainQueueTombstones S) in HinS. apply elem_of_app in HinS as [?|?]; done. }
  rewrite <- Hrank, Hcompl. case_decide as Hdec; rewrite Hd in Hdec; split; intros; try done; by rewrite Hk.
Qed.

(** C27: whatever operations, failed writes, crashes and restarts led to it, a
    running daemon's queue stores every item under its own key, every item
    passes the loader's validation, arrival orders are distinct, no session
    has more than twenty unfinished items, and no session has two running
    items. *)
Theorem queue_reachable_wf P q :
  reachable P (Up q) ->
  (forall k it, items q !! k = Some it -> k = item_key it /\ validatePromptQueueItem it = Ok tt) /\
  (forall k1 k2 it1 it2, items q !! k1 = Some it1 -> items q !! k2 = Some it2 ->
     Order it1 = Order it2 -> k1 = k2) /\
  (forall sid, activeCount (items q) sid <= maxPromptQueuePerSession) /\
  (forall k1 k2 it1 it2, items q !! k1 = Some it1 -> items q !! k2 = Some it2 ->
     SessionID it1 = SessionID it2 ->
     Status it1 = promptQueueRunning -> Status it2 = promptQueueRunning -> k1 = k2).
Proof.
  intros [W _]%reachable_inv. split_and!.
  - intros k it Hk. split; [by eapply wf_key|by eapply wf_ok].
  - apply W.
  - apply W.
  - apply W.
Qed.

(** [claimNext] hands out the oldest queued item of the session, marked
    running, only while nothing of that session is running or blocked, and
    then it is the only running one; it hands out nothing, and changes
    nothing, exactly when there is nothing queued or something blocks; a
    failed write changes no item. *)
Theorem claimNext_fifo P f sid q r q' :
  reachable P (Up q) -> claimNext f sid q = (r, q') ->
  match r with
  | Ok (Some it) =>
    (exists it0, items q !! item_key it = Some it0 /\ it = with_Status it0 promptQueueRunning /\
       queued_in sid it0 /\
       forall k x, items q !! k = Some x -> queued_in sid x -> Order it0 <= Order x) /\
    (forall k x, items q !! k = Some x -> ~ stops_claim sid x) /\
    items q' = <[item_key it := it]> (items q)
  | Ok None =>
    q' = q /\ ((exists k x, items q !! k = Some x /\ stops_claim sid x) \/
               forall k x, items q !! k = Some x -> ~ queued_in sid x)
  | Err _ => items q' = items q
  end.
Proof.
  intros [W _]%reachable_inv. unfold claimNext. cbv [mbind M_bind mret M_ret get].
  destruct (claim_scan sid (range_values (items q)) None) as [[it|]|] eqn:Hc.
  - destruct (commit _ _ q) as [[[]|e] q0] eqn:Ec; intros [= <- <-].
    2:{ by apply commit_spec in Ec as [_ [(? & _)|(e' & _ & Hi & _)]]. }
    assert (Hno : ~ exists x, x ∈ range_values (items q) /\ stops_claim sid x).
    { rewrite <- (claim_scan_none _ _ None). by rewrite Hc. }
    apply claim_scan_some in Hc as ([?|[[k Hk]%elem_of_range_values Hq]] & _ & Hmin); [done|].
    pose proof (wf_key _ _ W _ _ Hk) as ->. split_and!.
    + exists it. split_and!; [done|done|exact Hq|].
      intros k x Hx. apply Hmin. apply elem_of_range_values. by exists k.
    + intros k x Hx Hs. apply Hno. exists x. split; [|done]. apply elem_of_range_values. by exists k.
    + by apply commit_ok_items in Ec.
  - intros [= <- <-]. split; [done|right]. apply claim_scan_some in Hc as [_ Hn].
    intros k x Hx. apply Hn. apply elem_of_range_values. by exists k.
  - intros [= <- <-]. split; [done|left]. apply claim_scan_none in Hc as (x & [k Hx]%elem_of_range_values & ?).
    by exists k, x.
Qed.

(** a crash and a restart lose nothing and invent nothing. After any run
    in which the [os.Chmod] that follows the rename does not fail, reloading
    the file gives every item back as it was in memory (attachments up to
    their spelling), with each running item turned into
    [blocked_indeterminate]. *)
Theorem queue_restart_durable q f q' d' :
  reachable chmod_reliable (Up q) -> loadPromptQueue f (disk q) = (Ok q', d') ->
  forall k, option_Forall2
    (fun it it' => exists it0, item_equiv it it0 /\
       it' = if bool_decide (Status it0 = promptQueueRunning)
             then with_Status it0 promptQueueBlockedIndeterminate else it0)
    (items q !! k) (items q' !! k).
Proof.
  intros (its & nid & W & Hw & Hs)%reachable_synced Hl k.
  apply (load_written _ _ _ _ _ _ W Hw) in Hl as (HR & _).
  specialize (Hs k). specialize (HR k). revert HR.
  destruct Hs as [it it' He|]; intros HR; inversion HR as [? ? (it0 & He0 & ->)|]; constructor.
  exists it0. split; [|done]. etrans; [by symmetry|done].
Qed.

(** every mutation is all or nothing. An operation that reports an error
    leaves the items and the order counter in memory as they were; one that
    succeeds has either changed nothing or written exactly the items it now
    shows to the file first; and the file never holds anything but a complete
    well-formed document. *)
Theorem run_op_all_or_nothing P f op q r q' :
  reachable P (Up q) -> run_op f op q = (r, q') ->
  match r with
  | Err _ => items q' = items q /\ nextID q' = nextID q
  | Ok _ => q' = q \/ written (items q') (disk q')
  end /\ disk_ok (disk q').
Proof.
  intros Hr Hop. pose proof (reachable_inv _ _ Hr) as [W Hd].
  assert (queue_inv q') as [_ Hd'] by (eapply run_op_inv; [by split|exact Hop]).
  split; [|done]. apply run_op_outcome in Hop; [|done].
  destruct Hop as [->|(nx & nid & Wn & [(-> & Hi & Hn & Hw)|(e & -> & Hi & Hn & Hdk)])].
  - destruct r; [by left|done].
  - right. by rewrite Hi.
  - done.
Qed.

(** the queue implements the item life cycle. Every operation, on every
    branch, takes the status under each key through at most one step of the
    abstract life cycle (and on to removal when the item became terminal);
    in particular an indeterminate or terminal item is never queued or run
    again by any of them. *)
Theorem queue_refines_lifecycle P f op q r q' k :
  reachable P (Up q) -> run_op f op q = (r, q') ->
  op_steps (status_at (items q) k) (status_at (items q') k).
Proof.
  intros [W _]%reachable_inv Hop. destruct r as [[]|e]; [by eapply run_op_lifecycle|].
  apply run_op_outcome in Hop; [|done].
  destruct Hop as [->|(nx & nid & Wn & [(? & _)|(e' & _ & Hi & _)])]; [by left; left|done|].
  rewrite Hi. left; by left.
Qed.

(** what [enqueue] returns on every branch: the stored item for a known
    client message id, refusal at twenty unfinished items of the session, the
    new item queued behind all others (next order, current time) on success;
    and a request that passed the checks is refused for no other reason than
    capacity, an invalid collaboration mode or clock, an exhausted counter or
    a failed write. *)
Theorem enqueue_branches P f now it q r q' :
  reachable P (Up q) -> enqueue f now it q = (r, q') -> enqueue_checks it = Ok tt ->
  match items q !! item_key it with
  | Some cur => r = Ok (cur, false) /\ q' = q
  | None =>
    let it' := mkItem (SessionID it) (ClientMsgID it) (AgentType it) (Prompt it) (Attachments it)
      (SealedEnvelope it) (CollaborationMode it) now (nextID q + 1) promptQueueQueued in
    if maxPromptQueuePerSession <=? activeCount (items q) (SessionID it) then is_ok r = false /\ q' = q
    else match r with
         | Ok (x, isnew) =>
           x = it' /\ isnew = true /\ items q' !! item_key it = Some it' /\ nextID q' = nextID q + 1 /\
           (forall k y, items q !! k = Some y -> active y = true -> items q' !! k = Some y) /\
           (forall k y, items q' !! k = Some y -> k <> item_key it -> items q !! k = Some y)
         | Err _ =>
           items q' = items q /\
           ((CollaborationMode it <> "" /\ CollaborationMode it <> "plan") \/ now <= 0 \/
            nextID q = max_uint64 \/
            exists next e, commit f next q = (Err e, q'))
         end
  end.
Proof.
  intros [W _]%reachable_inv Hq Hck. revert Hq.
  unfold enqueue. cbv [mbind M_bind mret M_ret get put lift raise]. rewrite Hck.
  destruct (items q !! item_key it) as [cur|] eqn:Hk; [by intros [= <- <-]|].
  destruct (_ <=? _) eqn:Hcap; [by intros [= <- <-]|].
  set (itx := mkItem _ _ _ _ _ _ _ _ (u64_add _ _) _). set (it' := mkItem _ _ _ _ _ _ _ _ (_ + 1) _).
  pose proof (u64_succ (nextID q) (wf_next _ _ W)) as Hsucc.
  destruct (validatePromptQueueItem itx) as [[]|e] eqn:Hv.
  - assert (itx = it') as ->.
    { unfold itx, it'. f_equal. apply Hsucc. by apply item_ok_iff in Hv as [(_ & _ & _ & Ho & _) _]. }
    destruct (commit f _ q) as [[[]|e] q0] eqn:Ec; intros [= <- <-].
    + apply commit_spec in Ec as [Hn [(_ & Hi & _)|(e' & ? & _)]]; [|done].
      split_and!; try done; simpl; rewrite ?Hi; [by rewrite lookup_insert_eq| |].
      * intros k y Hy Ha. rewrite lookup_insert_ne 
          by (intros <-; change (item_key it') with (item_key it) in Hy; congruence).
        eapply compact_keeps; eauto. right. by apply negb_true_iff.
      * intros k y. rewrite lookup_insert_Some. intros [[<- _]|[_ Hy]] Hne; [done|].
        eapply lookup_weaken; [exact Hy|apply compact_subseteq].
    + pose proof Ec as Ec'. apply commit_spec in Ec' as [_ [(? & _)|(e' & _ & Hi & _)]]; [done|].
      split; [done|]. right. right. right. by eexists _, _.
  - intros [= <- <-]. split; [done|].
    destruct (decide (now <= 0)); [by right; left|].
    destruct (decide (nextID q = max_uint64)) as [|Hmax]; [by right; right; left|].
    destruct (decide (CollaborationMode it = "")) as [Hm|Hm].
    2: destruct (decide (CollaborationMode it = "plan")) as [Hm2|Hm2]; [|by left].
    all: exfalso; assert (item_ok itx) as Hok; [|unfold item_ok in Hok; congruence].
    all: apply enqueue_checks_item_ok; simpl; auto; try lia.
    all: pose proof (wf_next _ _ W) as Hu; unfold is_uint64, u64_add, max_uint64 in *;
      rewrite Z.mod_small by lia; lia.
Qed.

(** tombstone compaction keeps every unfinished item and every item of
    other sessions, does nothing below 256 tombstones, and otherwise keeps
    exactly the 128 newest tombstones of the session. *)
Theorem compact_keeps_newest P q sid k it :
  reachable P (Up q) -> items q !! k = Some it ->
  compactPromptQueueTombstones (items q) sid !! k = Some it <->
  SessionID it <> sid \/ isPromptQueueTerminal (Status it) = false \/
  Z.of_nat (List.length (tombstones sid (range_values (items q)))) < compactQueueTombstonesAt \/
  count (fun y => Order it <? Order y) (tombstones sid (range_values (items q))) < Z.of_nat retainQueueTombstones.
Proof.
  intros [W _]%reachable_inv Hk.
  destruct (decide (SessionID it <> sid)) as [Hs|Hs].
  { split; [by left|intros _]. eapply compact_keeps; eauto. }
  destruct (isPromptQueueTerminal (Status it)) eqn:HT.
  2:{ split; [by right; left|intros _]. eapply compact_keeps; eauto. }
  apply dec_stable in Hs.
  destruct (decide (Z.of_nat (List.length (tombstones sid (range_values (items q)))) < compactQueueTombstonesAt)) as [Hn|Hn].
  { split; [by right; right; left|intros _]. unfold compactPromptQueueTombstones.
    apply Z.ltb_lt in Hn. by rewrite Hn. }
  rewrite (compact_newest (items q) (nextID q)); [|done|lia|done|done|done].
  split; [by right; right; right|]. intros [|[|[|]]]; done.
Qed.

(** a stopped daemon can start again. If the system calls succeed, the
    load of any file the daemon can have left succeeds, provided the
    normalised document can be written back. *)
Theorem queue_restart_succeeds P d :
  reachable P (Down d) ->
  (forall its : gmap string promptQueueItem, exists data,
     marshalIndent (mkDisk promptQueueVersion (ordered its)) = Ok data /\ file_size data <= maxPromptQueueBytes) ->
  exists q d', loadPromptQueue io_ok d = (Ok q, d') /\ disk q = d' /\
    forall k it, items q !! k = Some it -> Status it <> promptQueueRunning.
Proof.
  intros Hd%reachable_inv Hroom. simpl in Hd.
  assert (Hpersist : forall its q, exists data,
    persist io_ok its q = (Ok tt, mkQueue (items q) (nextID q) (Some data))).
  { intros its q. destruct (Hroom its) as (data & Hm & Hs). exists data. unfold persist. rewrite Hm.
    destruct (maxPromptQueueBytes <? file_size data) eqn:E; bool_hyps; [lia|done]. }
  destruct d as [data|]; unfold loadPromptQueue; cbn [sys io_ok].
  2:{ destruct (Hpersist ∅ (mkQueue ∅ 0 None)) as [data ->].
      eexists _, _. split_and!; [done|done|]. intros k it Hk. simpl in Hk. by rewrite lookup_empty in Hk. }
  destruct Hd as (its & nid & W & (data0 & [= <-] & Hm & Hs)).
  destruct (maxPromptQueueBytes <? file_size data) eqn:E; bool_hyps; [lia|].
  destruct (load_disk_written io_ok its nid data W Hm) as (its' & n' & c' & -> & HR & _ & _); [done|done|].
  assert (Hnr : forall k it, its' !! k = Some it -> Status it <> promptQueueRunning).
  { intros k it Hk. specialize (HR k). rewrite Hk in HR. inversion HR as [? ? (it0 & _ & ->)|].
    apply after_restart_not_running. }
  destruct c'; [destruct (Hpersist its' (mkQueue its' n' (Some data))) as [data' ->]|]; eexists _, _; by split_and!.
Qed.
End Properties.

(** the outcome of every operation on a reachable queue is the same
    whatever order Go's map iteration takes: result, items, counter and
    file. *)
Theorem run_op_map_order_irrelevant (MO1 MO2 : MapOrder) `{CD : !Codec promptQueueDisk} `{RE : RawEquiv}
    `{CL : !CodecLaws promptQueueDisk encodable disk_equiv} P f op (q : promptQueue) :
  @reachable MO1 CD P (Up q) -> @run_op MO1 CD f op q = @run_op MO2 CD f op q.
Proof. intros [W _]%reachable_inv. by apply (run_op_order MO1 MO2). Qed.

(** ** Witnesses

    The properties at a concrete queue: two prompts enqueued, the first claimed.
    The codec is the identity on documents. *)

Definition item_size (it : promptQueueItem) : Z :=
  len (SessionID it) + len (ClientMsgID it) + len (AgentType it) + len (Prompt it) +
  len (Attachments it) + len (SealedEnvelope it) + len (CollaborationMode it) + 200.

Definition plain_codec : Codec promptQueueDisk :=
  {| file := promptQueueDisk;
     file_size := fun d => foldr (fun it n => item_size it + n) 40 (Items d);
     marshalIndent := fun d => Ok d;
     unmarshal := fun d => Ok d |}.

#[local] Existing Instances canonical_order plain_codec raw_equiv_eq.

#[local] Instance plain_codec_laws : CodecLaws promptQueueDisk encodable disk_equiv.
Proof.
  split. intros d f _ [= ->]. exists f. split; [done|]. split; [done|].
  induction (Items f); constructor; [reflexivity|done].
Defined.

Definition w_item (cid prompt : string) : promptQueueItem :=
  mkItem "session-1" cid "codex" prompt "" "" "" 0 0 promptQueueQueued.

Definition w_empty : promptQueue := mkQueue ∅ 0 (Some (mkDisk promptQueueVersion [])).
Definition w_one : promptQueue :=
  (run_op io_ok (OpEnqueue 1000 (w_item "a" "first")) w_empty).2.
Definition w_two : promptQueue :=
  (run_op io_ok (OpEnqueue 1001 (w_item "b" "second")) w_one).2.
Definition w_run : promptQueue := (run_op io_ok (OpClaimNext "session-1") w_two).2.
Definition w_complete : promptQueue :=
  (run_op io_ok (OpComplete "session-1" "a") w_run).2.
Definition w_restarted : promptQueue :=
  match loadPromptQueue io_ok (disk w_run) with (Ok q, _) => q | _ => w_empty end.

Lemma w_start_step : qstep chmod_reliable (Down None) (Up w_empty).
Proof. apply (QStart _ io_ok None w_empty (disk w_empty)); [reflexivity|by_vm]. Defined.

Lemma w_op_step op (q q' : promptQueue) :
  run_op io_ok op q = (Ok tt, q') -> qstep chmod_reliable (Up q) (Up q').
Proof. intros H. by apply (QRun _ io_ok op q (Ok tt)). Defined.

Lemma w_two_reachable : reachable chmod_reliable (Up w_two).
Proof.
  eapply rtc_l; [apply w_start_step|].
  eapply rtc_l; [apply (w_op_step (OpEnqueue 1000 (w_item "a" "first")) w_empty w_one); by_vm|].
  eapply rtc_l; [apply (w_op_step (OpEnqueue 1001 (w_item "b" "second")) w_one w_two); by_vm|].
  apply rtc_refl.
Defined.

Lemma w_run_reachable : reachable chmod_reliable (Up w_run).
Proof.
  eapply rtc_r; [exact w_two_reachable|].
  apply (w_op_step (OpClaimNext "session-1") w_two w_run); by_vm.
Defined.

Lemma w_complete_reachable : reachable chmod_reliable (Up w_complete).
Proof.
  eapply rtc_r; [exact w_run_reachable|].
  apply (w_op_step (OpComplete "session-1" "a") w_run w_complete); by_vm.
Defined.

Lemma queue_reachable_wf_witness :
  activeCount (items w_run) "session-1" = 2 /\ activeCount (items w_run) "session-1" <= maxPromptQueuePerSession.
Proof.
  split; [by_vm|].
  exact (proj1 (proj2 (proj2 (queue_reachable_wf chmod_reliable w_run w_run_reachable))) "session-1").
Defined.

Definition w_first : promptQueueItem :=
  mkItem "session-1" "a" "codex" "first" "" "" "" 1000 1 promptQueueRunning.

Lemma claimNext_fifo_witness :
  claimNext io_ok "session-1" w_two = (Ok (Some w_first), w_run) /\
  items w_run = <[item_key w_first := w_first]> (items w_two).
Proof.
  assert (H : claimNext io_ok "session-1" w_two = (Ok (Some w_first), w_run)) by by_vm.
  split; [exact H|].
  exact (proj2 (proj2 (claimNext_fifo chmod_reliable io_ok "session-1" w_two _ w_run w_two_reachable H))).
Defined.

Lemma queue_restart_durable_witness :
  option_Forall2 (fun it it' => exists it0, item_equiv it it0 /\
      it' = if bool_decide (Status it0 = promptQueueRunning)
            then with_Status it0 promptQueueBlockedIndeterminate else it0)
    (items w_run !! item_key w_first) (items w_restarted !! item_key w_first) /\
  Status <$> items w_restarted !! item_key w_first = Some promptQueueBlockedIndeterminate.
Proof.
  split; [|by_vm].
  apply (queue_restart_durable w_run io_ok w_restarted (disk w_restarted) w_run_reachable).
  by_vm.
Defined.

Lemma run_op_all_or_nothing_witness :
  exists q', run_op (io_fail OpRename "disk full") (OpComplete "session-1" "a") w_run
    = (Err "persist prompt queue: disk full", q') /\ items q' = items w_run.
Proof.
  exists w_run.
  assert (H : run_op (io_fail OpRename "disk full") (OpComplete "session-1" "a") w_run
    = (Err "persist prompt queue: disk full", w_run)) by by_vm.
  split; [exact H|].
  exact (proj1 (proj1 (run_op_all_or_nothing chmod_reliable _ _ w_run _ w_run w_run_reachable H))).
Defined.

Definition reversed_order : MapOrder.
Proof.
  refine {| range := fun A (m : gmap string A) => reverse (map_to_list m) |}.
  intros A m. apply reverse_Permutation.
Defined.

Lemma run_op_map_order_irrelevant_witness :
  @run_op canonical_order plain_codec io_ok (OpClaimNext "session-1") w_two
  = @run_op reversed_order plain_codec io_ok (OpClaimNext "session-1") w_two.
Proof. exact (run_op_map_order_irrelevant canonical_order reversed_order chmod_reliable _ _ w_two w_two_reachable). Defined.

Lemma queue_refines_lifecycle_witness :
  op_steps (status_at (items w_run) (item_key w_first)) (status_at (items w_complete) (item_key w_first)).
Proof.
  apply (queue_refines_lifecycle chmod_reliable io_ok (OpComplete "session-1" "a") w_run (Ok tt)
    w_complete (item_key w_first) w_run_reachable).
  by_vm.
Defined.

Definition w_third : promptQueueItem :=
  mkItem "session-1" "c" "codex" "third" "" "" "" 1002 3 promptQueueQueued.

Lemma enqueue_branches_witness :
  exists q', enqueue io_ok 1002 (w_item "c" "third") w_run = (Ok (w_third, true), q') /\ nextID q' = nextID w_run + 1.
Proof.
  set (q' := (enqueue io_ok 1002 (w_item "c" "third") w_run).2). exists q'.
  assert (H : enqueue io_ok 1002 (w_item "c" "third") w_run = (Ok (w_third, true), q')) by by_vm.
  split; [exact H|].
  assert (Hnew : items w_run !! item_key (w_item "c" "third") = None) by by_vm.
  assert (Hroom : (maxPromptQueuePerSession <=? activeCount (items w_run) (SessionID (w_item "c" "third"))) = false)
    by by_vm.
  pose proof (enqueue_branches chmod_reliable io_ok 1002 (w_item "c" "third") w_run _ q' w_run_reachable H eq_refl) as Hb.
  rewrite Hnew in Hb. cbv zeta in Hb. rewrite Hroom in Hb.
  exact (proj1 (proj2 (proj2 (proj2 Hb)))).
Defined.

Definition w_done : promptQueueItem := mkItem "session-1" "a" "codex" "" "" "" "" 1000 1 promptQueueCompleted.

Lemma compact_keeps_newest_witness :
  items w_complete !! item_key w_done = Some w_done /\
  compactPromptQueueTombstones (items w_complete) "session-1" !! item_key w_done = Some w_done.
Proof.
  assert (H : items w_complete !! item_key w_done = Some w_done) by by_vm.
  split; [exact H|].
  apply (compact_keeps_newest chmod_reliable w_complete "session-1" (item_key w_done) w_done w_complete_reachable H).
  right. right. left. vm_compute; reflexivity.
Defined.

(** A codec of bounded size, to witness a hypothesis on every document. *)
Definition small_codec : Codec promptQueueDisk :=
  {| file := promptQueueDisk; file_size := fun _ => 100; marshalIndent := fun d => Ok d; unmarshal := fun d => Ok d |}.

Lemma small_codec_laws : @CodecLaws promptQueueDisk small_codec encodable disk_equiv.
Proof.
  split. intros d f _ [= ->]. exists f. split; [done|]. split; [done|].
  induction (Items f); constructor; [reflexivity|done].
Defined.

Lemma queue_restart_succeeds_witness :
  exists q d', @loadPromptQueue _ small_codec io_ok None = (Ok q, d') /\ @disk small_codec q = d'.
Proof.
  destruct (@queue_restart_succeeds _ small_codec _ small_codec_laws any_io None) as (q & d' & H1 & H2 & _).
  - apply rtc_refl.
  - intros its. eexists. split; [reflexivity|]. vm_compute. discriminate.
  - by exists q, d'.
Defined.
