(* ===== verification/PromptJournalSpec.v ===== *)
(** * Correctness of the durable prompt journal

    Bounds and well-formedness, the life cycle of a record, what a restart
    preserves. *)

From stdpp Require Import base tactics list gmap strings sorting fin_maps.
From Stdlib Require Import Ascii ZArith Lia.
From S2P Require Import Prelude GoStrings Sha256 PromptJournal.

Abbreviation journal_map := (gmap string promptJournalRecord).

(** Records equal up to bytes of the echo that are not UTF-8, which the JSON
    encoder replaces. *)
Definition record_equiv (a b : promptJournalRecord) : Prop :=
  Key a = Key b /\ SessionID a = SessionID b /\ ClientMsgID a = ClientMsgID b /\
  LegacyOpaque a = LegacyOpaque b /\ Status a = Status b /\ UpdatedAt a = UpdatedAt b /\
  (ValidString (PromptEcho a) = true -> PromptEcho a = PromptEcho b).

Definition journal_equiv (a b : promptJournalDisk) : Prop :=
  Version a = Version b /\ DeviceHash a = DeviceHash b /\ Forall2 record_equiv (Records a) (Records b).

Definition known_status (s : promptJournalStatus) : Prop :=
  match s with OtherJournalStatus _ => False | _ => True end.

Definition record_encodable (r : promptJournalRecord) : Prop :=
  ValidString (SessionID r) = true /\ ValidString (ClientMsgID r) = true /\
  validJournalKey (Key r) = true /\ known_status (Status r).

Definition journal_encodable (d : promptJournalDisk) : Prop := Forall record_encodable (Records d).

(** The identifiers of a record: opaque (from a version-1 file) or valid and
    matching the key. *)
Definition record_ids_ok (hash : string) (r : promptJournalRecord) : Prop :=
  if LegacyOpaque r then SessionID r = "" /\ ClientMsgID r = ""
  else validateJournalIdentifiers (SessionID r) (ClientMsgID r) = Ok tt /\
       Key r = promptJournalKeyFromHash hash (SessionID r) (ClientMsgID r).

Definition record_ok (hash : string) (r : promptJournalRecord) : Prop :=
  validJournalKey (Key r) = true /\ record_ids_ok hash r /\ known_status (Status r) /\
  len (PromptEcho r) <= maxPromptJournalEchoBytes.

Record jwf (hash : string) (limit : Z) (recs : gmap string promptJournalRecord) : Prop := {
  jwf_key : forall k r, recs !! k = Some r -> Key r = k;
  jwf_ok : forall k r, recs !! k = Some r -> record_ok hash r;
  jwf_size : Z.of_nat (size recs) <= limit
}.

(** ** Lemmas *)

Lemma valid_key_hash h s c : validJournalKey (promptJournalKeyFromHash h s c) = true.
Proof.
  unfold validJournalKey, promptJournalKeyFromHash. by rewrite len_sha256_hex, hex_decodes_sha256.
Qed.

Lemma validate_ids_valid s c :
  validateJournalIdentifiers s c = Ok tt -> ValidString s = true /\ ValidString c = true.
Proof.
  unfold validateJournalIdentifiers. destruct (is_empty (TrimSpace s)); [done|].
  destruct (is_empty (TrimSpace c)); [done|]. cbn [fail_if mbind res_bind].
  destruct (ValidString s); rewrite ?orb_true_r; [|done].
  destruct (ValidString c); rewrite ?orb_true_r; [done|].
  destruct (_ <? len s); done.
Qed.

Lemma record_ok_encodable h r : record_ok h r -> record_encodable r.
Proof.
  unfold record_ok, record_encodable, record_ids_ok. intros (Hk & Hi & Hs & _).
  destruct (LegacyOpaque r); [destruct Hi as [-> ->]; done|].
  destruct Hi as [Hv _]. apply validate_ids_valid in Hv. tauto.
Qed.

Lemma jwf_empty h limit : 0 <= limit -> jwf h limit ∅.
Proof. intros H. split; intros; try (by rewrite lookup_empty in *). by rewrite map_size_empty. Qed.

Lemma oldest_committed_spec l o :
  match oldest_committed l o with
  | Some r =>
    (o = Some r \/ (r ∈ l /\ Status r = promptJournalCommitted)) /\
    (forall x, o = Some x -> UpdatedAt r <= UpdatedAt x) /\
    (forall x, x ∈ l -> Status x = promptJournalCommitted -> UpdatedAt r <= UpdatedAt x)
  | None => o = None /\ forall x, x ∈ l -> Status x <> promptJournalCommitted
  end.
Proof.
  revert o. induction l as [|r l IH]; intros o; cbn [oldest_committed].
  { destruct o; split_and!; try done; try (by left); try (by intros ? ?%not_elem_of_nil). naive_solver. }
  destruct (bool_decide (Status r = promptJournalCommitted)) eqn:Hc; cbn [negb]; bool_hyps.
  2:{ specialize (IH o). destruct (oldest_committed l o) as [x|].
      - destruct IH as (Ha & Hb & Hd). split_and!; [|done|].
        + destruct Ha as [|[? ?]]; [by left|right; split; [by right|done]].
        + intros y [->|Hy]%elem_of_cons; [done|by apply Hd].
      - destruct IH as [-> Hb]. split; [done|]. intros y [->|Hy]%elem_of_cons; [done|by apply Hb]. }
  destruct (match o with None => true | Some o => UpdatedAt r <? UpdatedAt o end) eqn:Ho.
  - specialize (IH (Some r)). destruct (oldest_committed l (Some r)) as [x|]; [|by destruct IH].
    destruct IH as (Ha & Hb & Hd). specialize (Hb r eq_refl). split_and!.
    + right. destruct Ha as [[= ->]|[? ?]]; (split; [|done]); [by left|by right].
    + intros y ->. bool_hyps. lia.
    + intros y [->|Hy]%elem_of_cons; [done|by apply Hd].
  - destruct o as [o|]; [|done]. bool_hyps.
    specialize (IH (Some o)). destruct (oldest_committed l (Some o)) as [x|]; [|by destruct IH].
    destruct IH as (Ha & Hb & Hd). specialize (Hb o eq_refl). split_and!.
    + destruct Ha as [|[? ?]]; [by left|right; split; [by right|done]].
    + by intros y [= <-].
    + intros y [->|Hy]%elem_of_cons; [lia|by apply Hd].
Qed.

(** ** The life cycle of a record *)

Inductive record_step : option promptJournalStatus -> option promptJournalStatus -> Prop :=
  | StepDispatch : record_step None (Some promptJournalDispatching)
  | StepRollback : record_step (Some promptJournalDispatching) None
  | StepAccept : record_step (Some promptJournalDispatching) (Some promptJournalAccepted)
  | StepIndeterminate : record_step (Some promptJournalDispatching) (Some promptJournalIndeterminate)
  | StepCommit : record_step (Some promptJournalAccepted) (Some promptJournalCommitted)
  | StepEvict : record_step (Some promptJournalCommitted) None.

Definition journal_status (recs : gmap string promptJournalRecord) (k : string) : option promptJournalStatus :=
  Status <$> recs !! k.

Inductive journal_op : Type :=
  | JMarkDispatching (now : Z) (sid cid prompt : string)
  | JRollback (sid cid : string)
  | JMarkAccepted (now : Z) (sid cid : string)
  | JMarkIndeterminate (now : Z) (sid cid : string)
  | JMarkCommitted (now : Z) (sid cid : string).

Section Mutations.
Context `{MO : MapOrder} `{CD : !Codec promptJournalDisk}.

Definition run_jop (f : io) (op : journal_op) : M promptJournal unit :=
  match op with
  | JMarkDispatching now sid cid prompt => markDispatching f now sid cid prompt
  | JRollback sid cid => rollbackDispatching f sid cid
  | JMarkAccepted now sid cid => markAccepted f now sid cid
  | JMarkIndeterminate now sid cid => markIndeterminate f now sid cid
  | JMarkCommitted now sid cid => markCommitted f now sid cid
  end.

Definition jwritten (hash : string) (recs : gmap string promptJournalRecord)
    (d : option (file promptJournalDisk)) : Prop :=
  exists data, marshalIndent (mkJournalDisk promptJournalVersion hash (sort_records (range_values recs))) = Ok data /\
    file_size data <= maxPromptJournalBytes /\ d = Some data.

Definition same_ids (j j' : promptJournal) : Prop := jdeviceHash j' = jdeviceHash j /\ max j' = max j.

Lemma persistRecords_spec f recs j r j' :
  persistRecords f recs j = (r, j') ->
  same_ids j j' /\ records j' = records j /\
  (r = Ok tt /\ jwritten (jdeviceHash j) recs (jdisk j') \/
   exists e, r = Err e /\ (jdisk j' = jdisk j \/ jwritten (jdeviceHash j) recs (jdisk j'))).
Proof.
  unfold persistRecords. destruct (persist_file _ _ _ _ _ _) as [r0 d] eqn:Ep. intros [= <- <-].
  split; [done|]. split; [done|]. apply persist_file_spec in Ep. simpl.
  destruct Ep as [(-> & data & ? & ? & ->)|(e & -> & H)]; [left|right].
  - split; [done|]. by exists data.
  - exists e. split; [done|]. destruct H as [->|(data & ? & ? & ->)]; [by left|right]. by exists data.
Qed.

Lemma commit_records_spec f next j r j' :
  commit_records f next j = (r, j') ->
  same_ids j j' /\
  (r = Ok tt /\ records j' = next /\ jwritten (jdeviceHash j) next (jdisk j') \/
   exists e, r = Err e /\ records j' = records j /\ (jdisk j' = jdisk j \/ jwritten (jdeviceHash j) next (jdisk j'))).
Proof.
  unfold commit_records. cbv [mbind M_bind get put].
  destruct (persistRecords f next j) as [r0 j0] eqn:Ep. apply persistRecords_spec in Ep as ([Hh Hm] & Hr & Hd).
  destruct Hd as [[-> Hw]|(e & -> & Hd)]; intros [= <- <-].
  - split; [split; done|left]. done.
  - split; [split; done|right]. exists e. done.
Qed.

Lemma commit_records_reliable f next j e j' :
  f OpChmodFinal = None -> commit_records f next j = (Err e, j') -> j' = j.
Proof.
  intros Hf. unfold commit_records, persistRecords. cbv [mbind M_bind get put].
  destruct (persist_file _ _ _ _ _ _) as [[[]|e0] d] eqn:Ep; intros [= <- <-].
  apply persist_file_reliable in Ep as ->; [by destruct j|done].
Qed.

(** A commit of a step on one key, together with an eviction perhaps. *)
Definition journal_outcome (j : promptJournal) (r : res unit) (j' : promptJournal) : Prop :=
  j' = j \/
  exists next, jwf (jdeviceHash j) (max j) next /\
    (forall k, journal_status (records j) k = journal_status next k \/
               record_step (journal_status (records j) k) (journal_status next k)) /\
    exists f, commit_records f next j = (r, j').

Lemma evict_spec recs recs' h limit :
  jwf h limit recs -> evictOldestCommitted recs = Ok recs' ->
  exists o, recs !! Key o = Some o /\ Status o = promptJournalCommitted /\ recs' = base.delete (Key o) recs /\
    (forall k r, recs !! k = Some r -> Status r = promptJournalCommitted -> UpdatedAt o <= UpdatedAt r) /\
    oldest_committed (range_values recs) None = Some o.
Proof.
  intros W. unfold evictOldestCommitted. pose proof (oldest_committed_spec (range_values recs) None) as Ho.
  destruct (oldest_committed _ None) as [o|]; [|done]. intros [= <-].
  destruct Ho as ([?|[[k Hk]%elem_of_range_values Hs]] & _ & Hmin); [done|].
  pose proof (jwf_key _ _ _ W _ _ Hk) as <-. exists o. split_and!; [done|done|done| |done].
  intros k r Hr Hc. apply Hmin; [|done]. apply elem_of_range_values. by exists k.
Qed.

Lemma jwf_delete h limit recs k : jwf h limit recs -> jwf h limit (base.delete k recs).
Proof.
  intros W. split.
  - intros k' r [_ Hr]%lookup_delete_Some. by eapply jwf_key.
  - intros k' r [_ Hr]%lookup_delete_Some. by eapply jwf_ok.
  - pose proof (jwf_size _ _ _ W) as Hs.
    etrans; [|exact Hs]. apply inj_le. rewrite <- !size_dom, dom_delete_L. apply subseteq_size, subseteq_difference_l. done.
Qed.

Lemma size_delete_some (recs : gmap string promptJournalRecord) k r :
  recs !! k = Some r -> size recs = S (size (base.delete k recs)).
Proof.
  intros Hk. rewrite <- (insert_delete_id recs k r Hk) at 1.
  apply map_size_insert_None. apply lookup_delete_eq.
Qed.

Lemma jwf_insert h limit recs r :
  jwf h limit recs -> record_ok h r ->
  (recs !! Key r = None -> Z.of_nat (size recs) < limit) -> jwf h limit (<[Key r := r]> recs).
Proof.
  intros W Hr Hs. split.
  - intros k x. rewrite lookup_insert_Some. intros [[<- <-]|[_ Hx]]; [done|by eapply jwf_key].
  - intros k x. rewrite lookup_insert_Some. intros [[<- <-]|[_ Hx]]; [done|by eapply jwf_ok].
  - destruct (recs !! Key r) as [y|] eqn:Hy.
    + rewrite map_size_insert_Some by by eexists. apply W.
    + rewrite map_size_insert_None by done. specialize (Hs eq_refl). lia.
Qed.

(** What an operation is about to write: [jop_effect op j next]. *)
Definition evictable (j : promptJournal) (o : promptJournalRecord) : Prop :=
  max j <= Z.of_nat (size (records j)) /\ oldest_committed (range_values (records j)) None = Some o /\
  records j !! Key o = Some o /\ Status o = promptJournalCommitted.

Definition moved (j : promptJournal) (key : string) (st : promptJournalStatus)
    (next : gmap string promptJournalRecord) : Prop :=
  exists cur cur', records j !! key = Some cur /\ transition_guard (Status cur) st = Ok tt /\ Status cur' = st /\
    next = <[key := cur']> (records j).

Definition jop_effect (op : journal_op) (j : promptJournal) (next : gmap string promptJournalRecord) : Prop :=
  let key := promptJournalKeyFromHash (jdeviceHash j) in
  match op with
  | JMarkDispatching now s c p =>
    validateJournalIdentifiers s c = Ok tt /\ records j !! key s c = None /\
    exists kept rec, (kept = records j \/ exists o, evictable j o /\ kept = base.delete (Key o) (records j)) /\
      Status rec = promptJournalDispatching /\ next = <[key s c := rec]> kept
  | JRollback s c =>
    journal_status (records j) (key s c) = Some promptJournalDispatching /\ next = base.delete (key s c) (records j)
  | JMarkAccepted _ s c => moved j (key s c) promptJournalAccepted next
  | JMarkIndeterminate _ s c => moved j (key s c) promptJournalIndeterminate next
  | JMarkCommitted _ s c => moved j (key s c) promptJournalCommitted next
  end.

(** An operation that does nothing to the journal has failed, except a
    transition to the status the record has already. *)
Definition jop_noop (op : journal_op) (r : res unit) : Prop :=
  match op with JMarkDispatching _ _ _ _ | JRollback _ _ => is_ok r = false | _ => True end.

Definition jop_commits (op : journal_op) (f : io) (j : promptJournal) (r : res unit) (j' : promptJournal) : Prop :=
  (j' = j /\ jop_noop op r) \/
  exists next, jwf (jdeviceHash j) (max j) next /\ jop_effect op j next /\ commit_records f next j = (r, j').

Lemma markDispatching_commits f now s c p j r j' :
  jwf (jdeviceHash j) (max j) (records j) -> markDispatching f now s c p j = (r, j') ->
  jop_commits (JMarkDispatching now s c p) f j r j'.
Proof.
  intros W. unfold markDispatching, jop_commits, jop_effect. cbv [mbind M_bind mret M_ret get lift raise].
  destruct (validateJournalIdentifiers s c) as [[]|e] eqn:Hv; [|intros [= <- <-]; by left].
  set (key := promptJournalKeyFromHash _ s c).
  destruct (records j !! key) as [old|] eqn:Hk; [intros [= <- <-]; by left|].
  set (rec := mkRecord key s c false promptJournalDispatching _ now).
  assert (Hrec : record_ok (jdeviceHash j) rec).
  { unfold record_ok, record_ids_ok. simpl. split_and!; try done; [apply valid_key_hash|].
    apply boundedUTF8_len. done. }
  destruct (max j <=? Z.of_nat (size (records j))) eqn:Hfull; bool_hyps.
  - destruct (evictOldestCommitted (records j)) as [recs'|e] eqn:He; [|intros [= <- <-]; by left].
    intros Hc. right. destruct (evict_spec _ _ _ _ W He) as (o & Ho & Hs & -> & _ & Hold).
    pose proof (size_delete_some _ _ _ Ho) as Hsz. pose proof (jwf_size _ _ _ W).
    exists (<[key := rec]> (base.delete (Key o) (records j))). split_and!; try done.
    + apply (jwf_insert _ _ _ rec); [by apply jwf_delete|done|]. intros _. lia.
    + eexists _, rec. split; [right; by exists o|done].
  - intros Hc. right. exists (<[key := rec]> (records j)).
    split_and!; try done; [by apply (jwf_insert _ _ _ rec)|]. exists (records j), rec. split; [by left|done].
Qed.

Lemma transition_commits f now s c st j r j' :
  jwf (jdeviceHash j) (max j) (records j) -> known_status st -> transition f now s c st j = (r, j') ->
  j' = j \/ exists next, jwf (jdeviceHash j) (max j) next /\
    moved j (promptJournalKeyFromHash (jdeviceHash j) s c) st next /\ commit_records f next j = (r, j').
Proof.
  intros W Hst. unfold transition. cbv [mbind M_bind mret M_ret get lift raise].
  destruct (validateJournalIdentifiers s c) as [[]|e] eqn:Hv; [|intros [= <- <-]; by left].
  set (key := promptJournalKeyFromHash _ s c).
  destruct (records j !! key) as [cur|] eqn:Hk; [|intros [= <- <-]; by left].
  destruct (bool_decide (Status cur = st)); [intros [= <- <-]; by left|].
  destruct (transition_guard (Status cur) st) as [[]|e] eqn:Hg; [|intros [= <- <-]; by left].
  set (cur' := if LegacyOpaque cur then _ else _).
  pose proof (jwf_key _ _ _ W _ _ Hk) as Hkey. destruct (jwf_ok _ _ _ W _ _ Hk) as (Hvk & Hids & _ & Hecho).
  assert (Hcur : Key cur' = key /\ Status cur' = st /\ record_ok (jdeviceHash j) cur').
  { unfold cur', record_ok, record_ids_ok in *. destruct (LegacyOpaque cur) eqn:Hl; simpl.
    - split_and!; try done.
    - tauto. }
  destruct Hcur as (Hk' & Hs' & Hok').
  intros Hc. right. exists (<[key := cur']> (records j)). split_and!; [| |done].
  - rewrite <- Hk'. apply jwf_insert; [done|done|]. rewrite Hk', Hk. done.
  - by exists cur, cur'.
Qed.

Lemma run_jop_commits f op j r j' :
  jwf (jdeviceHash j) (max j) (records j) -> run_jop f op j = (r, j') -> jop_commits op f j r j'.
Proof.
  intros W. destruct op as [now s c p|s c|now s c|now s c|now s c]; simpl.
  - by apply markDispatching_commits.
  - unfold rollbackDispatching, jop_commits. cbv [mbind M_bind mret M_ret get lift raise].
    destruct (validateJournalIdentifiers s c) as [[]|e]; [|intros [= <- <-]; by left].
    destruct (records j !! _) as [cur|] eqn:Hk; [|intros [= <- <-]; by left].
    case_bool_decide as Hs; [|intros [= <- <-]; by left]. simpl.
    intros Hc. right. eexists. split_and!; [by apply jwf_delete| |done|done].
    unfold journal_status. by rewrite Hk, <- Hs.
  - intros H. apply transition_commits in H as [->|?]; [by left|by right|done|done].
  - intros H. apply transition_commits in H as [->|?]; [by left|by right|done|done].
  - intros H. apply transition_commits in H as [->|?]; [by left|by right|done|done].
Qed.

(** An effect is one step of the life cycle at each key. *)
Lemma moved_status j key st next k :
  moved j key st next ->
  journal_status (records j) k = journal_status next k \/
  record_step (journal_status (records j) k) (journal_status next k).
Proof.
  intros (cur & cur' & Hk & Hg & Hs & ->). unfold journal_status.
  destruct (decide (key = k)) as [<-|Hne]; [|rewrite lookup_insert_ne by done; by left].
  rewrite lookup_insert_eq, Hk. simpl. rewrite Hs. right. revert Hg.
  unfold transition_guard. destruct st; try done; case_bool_decide as E; try done; rewrite E; constructor.
Qed.

Lemma effect_status op j next k :
  jop_effect op j next ->
  journal_status (records j) k = journal_status next k \/
  record_step (journal_status (records j) k) (journal_status next k).
Proof.
  destruct op as [now s c p|s c|now s c|now s c|now s c]; simpl; try (by eapply moved_status);
    set (key := promptJournalKeyFromHash _ s c).
  - intros (_ & Hk & kept & rec & Hb & Hr & ->). unfold journal_status.
    destruct (decide (key = k)) as [<-|Hne].
    + rewrite lookup_insert_eq, Hk. simpl. rewrite Hr. right. constructor.
    + rewrite lookup_insert_ne by done. destruct Hb as [->|(o & (_ & _ & Ho & Hs) & ->)]; [by left|].
      destruct (decide (Key o = k)) as [<-|Hne2]; [|rewrite lookup_delete_ne by done; by left].
      rewrite lookup_delete_eq, Ho. simpl. rewrite Hs. right. constructor.
  - intros [Hk ->]. destruct (decide (key = k)) as [<-|Hne].
    + rewrite Hk. unfold journal_status. rewrite lookup_delete_eq. right. constructor.
    + unfold journal_status. rewrite lookup_delete_ne by done. by left.
Qed.

Lemma run_jop_outcome f op j r j' :
  jwf (jdeviceHash j) (max j) (records j) -> run_jop f op j = (r, j') -> journal_outcome j r j'.
Proof.
  intros W [[-> _]|(next & Wn & He & Hc)]%run_jop_commits; [by left| |done].
  right. exists next. split_and!; [done| |by exists f]. intros k. by eapply effect_status.
Qed.
End Mutations.

(** ** Restart *)

(** What loading a version-2 file makes of a valid record. *)
Definition after_crash (r : promptJournalRecord) : promptJournalRecord :=
  mkRecord (Key r) (SessionID r) (ClientMsgID r) (LegacyOpaque r)
    (if bool_decide (Status r = promptJournalDispatching) then promptJournalIndeterminate else Status r)
    (boundedUTF8 (PromptEcho r) maxPromptJournalEchoBytes) (UpdatedAt r).

Lemma boundedUTF8_short value n : len value <= n -> boundedUTF8 value n = value.
Proof.
  intros H. pose proof (len_nonneg value). unfold boundedUTF8.
  destruct (n <=? 0) eqn:E; bool_hyps.
  - symmetry. apply len_zero. lia.
  - destruct (len value <=? n) eqn:E2; bool_hyps; [done|lia].
Qed.

(** The part of validity that does not depend on the echo. *)
Definition record_static_ok (hash : string) (r : promptJournalRecord) : Prop :=
  validJournalKey (Key r) = true /\ record_ids_ok hash r /\ known_status (Status r).

Lemma after_crash_ok hash r : record_static_ok hash r -> record_ok hash (after_crash r).
Proof.
  intros (Hk & Hi & Hs). unfold record_ok. simpl. split_and!; [done|done| |apply boundedUTF8_len; done].
  by case_bool_decide.
Qed.

Section Restart.
Context `{MO : MapOrder} `{CD : !Codec promptJournalDisk}.
Context `{CL : !CodecLaws promptJournalDisk journal_encodable journal_equiv}.
Implicit Types (recs : gmap string promptJournalRecord).

Lemma load_record_ok hash recs ch r :
  record_static_ok hash r -> recs !! Key r = None ->
  exists ch', load_record false hash (recs, ch) r = Ok (<[Key r := after_crash r]> recs, ch') /\
    (ch' = false -> ch = false /\ after_crash r = r).
Proof.
  intros (Hk & Hi & Hs) Hnew. unfold load_record. rewrite Hk. cbn [negb fail_if mbind res_bind].
  assert (load_identifiers false hash r = Ok r) as ->.
  { unfold load_identifiers, record_ids_ok in *. destruct (LegacyOpaque r); [by destruct Hi as [-> ->]|].
    destruct Hi as [-> Hkey]. cbn [wrap mbind res_bind]. by rewrite bool_decide_true. }
  cbn [mbind res_bind].
  set (r1 := mkRecord (Key r) (SessionID r) (ClientMsgID r) (LegacyOpaque r) (Status (after_crash r)) (PromptEcho r) (UpdatedAt r)).
  assert (exists c1, load_status r ch = Ok (r1, c1) /\ (c1 = false -> ch = false /\ r1 = r)) as (c1 & -> & Hc1).
  { unfold load_status, r1, after_crash. destruct r as [k s c l st echo u]; simpl in *.
    destruct st; try done; simpl; eexists; by split. }
  cbn [mbind res_bind]. unfold load_echo.
  change (boundedUTF8 (PromptEcho r1) maxPromptJournalEchoBytes) with (PromptEcho (after_crash r)).
  case_bool_decide as He; cbn [negb].
  - assert (r1 = after_crash r) as Hr1.
    { unfold r1, after_crash in *. simpl in *. by rewrite He. }
    change (Key r1) with (Key r). rewrite Hnew. exists c1. rewrite <- Hr1. by split.
  - cbn [Key]. change (Key r1) with (Key r). rewrite Hnew. exists true. split; [|done].
    by destruct r.
Qed.

Lemma load_records_ok hash l recs ch :
  Forall (record_static_ok hash) l -> NoDup (Key <$> l) -> (forall r, r ∈ l -> recs !! Key r = None) ->
  exists recs' ch', load_records false hash (recs, ch) l = Ok (recs', ch') /\
    (forall k x, recs' !! k = Some x <->
       recs !! k = Some x \/ exists r, r ∈ l /\ k = Key r /\ x = after_crash r) /\
    (ch' = false -> ch = false /\ forall r, r ∈ l -> after_crash r = r).
Proof.
  revert recs ch. induction l as [|r l IH]; intros recs ch Hok Hnd Hdis; cbn [load_records].
  { exists recs, ch. split_and!; [done| |].
    - intros k x. split; [by left|]. intros [|(? & ?%not_elem_of_nil & _)]; done.
    - intros ->. split; [done|]. by intros ? ?%not_elem_of_nil. }
  apply Forall_cons in Hok as [Hi Hok]. rewrite fmap_cons in Hnd. apply NoDup_cons in Hnd as [Hni Hnd].
  destruct (load_record_ok hash recs ch r Hi) as (ch1 & -> & Hch1); [apply Hdis; by left|]. cbn [mbind res_bind].
  destruct (IH (<[Key r := after_crash r]> recs) ch1 Hok Hnd) as (recs' & ch' & Hl & Hm & Hc).
  { intros x Hx. rewrite lookup_insert_ne; [apply Hdis; by right|].
    intros Heq. apply Hni. rewrite Heq. by apply list_elem_of_fmap_2. }
  exists recs', ch'. split; [done|]. split.
  - intros k x. rewrite Hm, lookup_insert_Some. split.
    + intros [[[<- <-]|[_ ?]]|(y & ? & ? & ?)]; [right; exists r; split; [by left|done]|by left|].
      right. exists y. split; [by right|done].
    + intros [Hk|(y & [->|Hy]%elem_of_cons & -> & ->)]; [|by left; left|right; by exists y].
      left. right. split; [|done]. intros <-. rewrite Hdis in Hk by (by left). done.
  - intros Hf. destruct (Hc Hf) as [Hb Hall]. destruct (Hch1 Hb) as [-> Hr]. split; [done|].
    intros x [->|Hx']%elem_of_cons; [done|by apply Hall].
Qed.

(** [recs'] is [recs] as a restart leaves it. *)
Definition jrestarted recs recs' : Prop :=
  forall k, option_Forall2 (fun r r' => exists r0, record_equiv r r0 /\ r' = after_crash r0) (recs !! k) (recs' !! k).

Definition jdisk_ok (hash : string) (limit : Z) (d : option (file promptJournalDisk)) : Prop :=
  match d with None => True | Some _ => exists recs, jwf hash limit recs /\ jwritten hash recs d end.

Lemma elem_of_sorted_records recs r : r ∈ sort_records (range_values recs) <-> exists k, recs !! k = Some r.
Proof. unfold sort_records. rewrite merge_sort_Permutation. apply elem_of_range_values. Qed.

Lemma sorted_keys_NoDup h n recs : jwf h n recs -> NoDup (Key <$> sort_records (range_values recs)).
Proof.
  intros W. unfold sort_records. rewrite merge_sort_Permutation, range_values_perm.
  assert (Key <$> (map_to_list recs).*2 = (map_to_list recs).*1) as ->; [|apply NoDup_fst_map_to_list].
  rewrite <- list_fmap_compose. apply list_fmap_ext. intros i [k r] Hin. simpl.
  eapply jwf_key; [done|]. apply elem_of_map_to_list. by eapply list_elem_of_lookup_2.
Qed.

Lemma record_equiv_static h r r0 : record_equiv r r0 -> record_ok h r -> record_static_ok h r0.
Proof.
  intros (Hk & Hs & Hc & Hl & Hst & _) (H1 & H2 & H3 & _). unfold record_static_ok, record_ids_ok in *.
  rewrite <- Hk, <- Hs, <- Hc, <- Hl, <- Hst. tauto.
Qed.

Lemma jrestarted_size recs recs' : jrestarted recs recs' -> size recs' = size recs.
Proof.
  intros H. rewrite <- !size_dom. f_equal. apply set_eq. intros k. rewrite !elem_of_dom.
  specialize (H k). destruct H; split; intros [? ?]; done || by eexists.
Qed.

Lemma jrestarted_wf h n recs recs' : jwf h n recs -> jrestarted recs recs' -> jwf h n recs'.
Proof.
  intros W H. split.
  - intros k x Hx. specialize (H k). rewrite Hx in H. inversion H as [r ? (r0 & He & ->) Hr|]; subst.
    simpl. destruct He as (<- & _). by eapply jwf_key.
  - intros k x Hx. specialize (H k). rewrite Hx in H. inversion H as [r ? (r0 & He & ->) Hr|]; subst.
    apply after_crash_ok. eapply record_equiv_static; [done|]. by eapply jwf_ok.
  - rewrite (jrestarted_size _ _ H). apply W.
Qed.

Lemma trim_noop limit recs : Z.of_nat (size recs) <= limit -> trimCommitted limit recs = Ok recs.
Proof.
  intros H. unfold trimCommitted. destruct (size recs) eqn:E; cbn [trim_loop]; rewrite E;
    (destruct (limit <? _) eqn:E2; bool_hyps; [lia|done]).
Qed.

Lemma load_journal_written f h n recs d :
  jwf h n recs -> jwritten h recs d -> f OpChmodLoad = None -> f OpReadFile = None ->
  exists data recs' ch, d = Some data /\ load_journal_disk f h n data = Ok (recs', ch) /\
    file_size data <= maxPromptJournalBytes /\ jrestarted recs recs' /\
    (ch = false -> forall k r, recs !! k = Some r -> Status r <> promptJournalDispatching).
Proof.
  intros W (data & Hm & Hs & ->) H1 H2. exists data.
  destruct (unmarshal_marshalIndent (mkJournalDisk promptJournalVersion h (sort_records (range_values recs))) data)
    as (d' & Hu & Hv & Hh & Hf).
  { apply Forall_forall. simpl. intros r [k Hk]%elem_of_sorted_records.
    eapply record_ok_encodable, jwf_ok; done. }
  { done. }
  simpl in Hv, Hh, Hf.
  assert (Hfst : forall r, r ∈ sort_records (range_values recs) -> exists r0, r0 ∈ Records d' /\ record_equiv r r0).
  { intros r [i Hi]%list_elem_of_lookup. destruct (Forall2_lookup_l _ _ _ _ _ Hf Hi) as (y & Hy & ?).
    exists y. split; [by eapply list_elem_of_lookup_2|done]. }
  assert (Hsnd : forall r0, r0 ∈ Records d' -> exists r, r ∈ sort_records (range_values recs) /\ record_equiv r r0).
  { intros r [i Hi]%list_elem_of_lookup. destruct (Forall2_lookup_r _ _ _ _ _ Hf Hi) as (y & Hy & ?).
    exists y. split; [by eapply list_elem_of_lookup_2|done]. }
  assert (Hkeys : Key <$> sort_records (range_values recs) = Key <$> Records d').
  { clear -Hf. induction Hf as [|a b l1 l2 (Hab & _) _ IH]; [done|]. by rewrite !fmap_cons, IH, Hab. }
  destruct (load_records_ok h (Records d') ∅ false) as (recs' & ch & Hl & Hm' & Hc).
  { apply Forall_forall. intros r0 (r & [k Hk]%elem_of_sorted_records & He)%Hsnd.
    eapply record_equiv_static; [done|]. by eapply jwf_ok. }
  { rewrite <- Hkeys. by eapply sorted_keys_NoDup. }
  { intros r _. apply lookup_empty. }
  assert (HR : jrestarted recs recs').
  { intros k. destruct (recs !! k) as [r|] eqn:Hk.
    - destruct (Hfst r) as (r0 & Hin & He); [apply elem_of_sorted_records; by eexists|].
      assert (recs' !! k = Some (after_crash r0)) as ->.
      { apply Hm'. right. exists r0. split_and!; [done| |done]. destruct He as (<- & _).
        symmetry. by eapply jwf_key. }
      constructor. by exists r0.
    - destruct (recs' !! k) as [x|] eqn:Hk'; [|constructor].
      apply Hm' in Hk' as [Hk'|(r0 & Hin & -> & ->)]; [by rewrite lookup_empty in Hk'|].
      apply Hsnd in Hin as (r & [k' Hr]%elem_of_sorted_records & (He & _)).
      rewrite <- He, (jwf_key _ _ _ W _ _ Hr) in Hk. congruence. }
  exists recs', (ch || negb (Z.of_nat (size recs') =? Z.of_nat (List.length (Records d'))))%bool.
  split_and!; [done| |done|done|].
  - unfold load_journal_disk, sys. rewrite H1, H2. cbn [wrap mbind res_bind]. rewrite Hu. cbn [wrap mbind res_bind].
    rewrite <- Hv, <- Hh. rewrite bool_decide_true by done.
    change (promptJournalVersion =? 1) with false. cbn [negb andb fail_if mbind res_bind].
    change (promptJournalVersion =? promptJournalVersion) with true. cbn [negb andb fail_if mbind res_bind].
    rewrite Hl. cbn [mbind res_bind fst snd].
    rewrite trim_noop; [done|]. rewrite (jrestarted_size _ _ HR). apply W.
  - intros [Hf' _]%orb_false_elim k r Hk Hr. destruct (Hc Hf') as [_ Hall].
    destruct (Hfst r) as (r0 & Hin & He); [apply elem_of_sorted_records; by eexists|].
    pose proof (Hall _ Hin) as Ha. destruct He as (_ & _ & _ & _ & Hst & _). rewrite Hr in Hst.
    assert (Status (after_crash r0) = promptJournalIndeterminate) as Hi.
    { unfold after_crash. simpl. by rewrite bool_decide_true. }
    rewrite Ha, <- Hst in Hi. done.
Qed.

(** The file holds the journal's records, up to the spelling of echoes. *)
Definition jsynced (j : promptJournal) : Prop :=
  exists recs, jwf (jdeviceHash j) (max j) recs /\ jwritten (jdeviceHash j) recs (jdisk j) /\
    forall k, option_Forall2 record_equiv (recs !! k) (records j !! k).

Definition journal_inv (j : promptJournal) : Prop :=
  jwf (jdeviceHash j) (max j) (records j) /\ jdisk_ok (jdeviceHash j) (max j) (jdisk j).

Lemma record_equiv_refl r : record_equiv r r.
Proof. by unfold record_equiv. Qed.

Lemma jwritten_synced j :
  jwf (jdeviceHash j) (max j) (records j) -> jwritten (jdeviceHash j) (records j) (jdisk j) -> jsynced j.
Proof.
  intros W Hw. exists (records j). split_and!; [done|done|].
  intros k. destruct (records j !! k); constructor. apply record_equiv_refl.
Qed.

Lemma jrestarted_no_dispatching h n recs recs' :
  jwf h n recs -> jrestarted recs recs' ->
  (forall k r, recs !! k = Some r -> Status r <> promptJournalDispatching) ->
  forall k, option_Forall2 record_equiv (recs !! k) (recs' !! k).
Proof.
  intros W H Hnd k. specialize (H k). specialize (Hnd k). pose proof (jwf_ok _ _ _ W k) as Hok.
  destruct H as [r r' (r0 & He & ->)|]; [|constructor]. constructor.
  destruct (Hok r eq_refl) as (_ & _ & _ & Hlen). specialize (Hnd r eq_refl).
  destruct He as (H1 & H2 & H3 & H4 & H5 & H6 & H7). unfold record_equiv, after_crash. simpl.
  rewrite <- H5, bool_decide_false by done. split_and!; try done.
  intros Hv. rewrite <- H7 by done. symmetry. by apply boundedUTF8_short.
Qed.

Lemma load_journal_spec f dev n d r d' :
  0 < n -> jdisk_ok (deviceHash dev) n d -> loadPromptJournal f d dev n = (r, d') ->
  match r with
  | Ok j => jdeviceHash j = deviceHash dev /\ max j = n /\ journal_inv j /\ jdisk j = d' /\ jsynced j /\
      (forall recs, jwf (deviceHash dev) n recs -> jwritten (deviceHash dev) recs d -> jrestarted recs (records j)) /\
      (d = None -> records j = ∅)
  | Err _ => jdisk_ok (deviceHash dev) n d' /\
      (forall recs, jwf (deviceHash dev) n recs -> jwritten (deviceHash dev) recs d ->
        exists recs', jwf (deviceHash dev) n recs' /\ jwritten (deviceHash dev) recs' d' /\
          (recs' = recs \/ jrestarted recs recs')) /\
      (d = None -> d' = None \/ jwritten (deviceHash dev) ∅ d')
  end.
Proof.
  intros Hn Hd. assert (Hsame : jdisk_ok (deviceHash dev) n d /\
      (forall recs, jwf (deviceHash dev) n recs -> jwritten (deviceHash dev) recs d ->
        exists recs', jwf (deviceHash dev) n recs' /\ jwritten (deviceHash dev) recs' d /\
          (recs' = recs \/ jrestarted recs recs')) /\
      (d = None -> d = None \/ jwritten (deviceHash dev) ∅ d)).
  { split_and!; [done| |by left]. intros recs W Hw. exists recs. split_and!; [done|done|by left]. }
  unfold loadPromptJournal.
  destruct (n <=? 0) eqn:En; bool_hyps; [lia|clear En].
  destruct (sys f OpStat) as [[]|e]; [|by intros [= <- <-]].
  destruct d as [data|].
  2:{ destruct (persistRecords f ∅ _) as [r0 j0] eqn:Ep. apply persistRecords_spec in Ep as ([Hh Hm] & Hr & Hd0).
      simpl in *. destruct Hd0 as [[-> Hw]|(e & -> & Hd0)]; intros [= <- <-].
      - assert (W : jwf (jdeviceHash j0) (max j0) (records j0)) by (rewrite Hr; apply jwf_empty; lia).
        rewrite <- Hh, <- Hm in *. split_and!; try done.
        + split; [done|]. destruct (jdisk j0); [|done]. exists (records j0). by rewrite Hr in *.
        + apply jwritten_synced; [done|]. by rewrite Hr.
        + intros recs _ (? & _ & _ & ?). done.
      - destruct Hd0 as [->|Hw]; [done|]. split_and!; [|by intros recs _ (? & _ & _ & ?)|by right].
        destruct (jdisk j0); [|done]. exists ∅. split; [apply jwf_empty; lia|done]. }
  destruct Hd as (recs & W & Hw). pose proof Hw as (data0 & Hmar & Hsz & [= <-]).
  destruct (maxPromptJournalBytes <? file_size data) eqn:Es; bool_hyps; [lia|].
  destruct (f OpChmodLoad) as [e|] eqn:H1.
  { unfold load_journal_disk, sys. rewrite H1. by intros [= <- <-]. }
  destruct (f OpReadFile) as [e|] eqn:H2.
  { unfold load_journal_disk, sys. rewrite H1, H2. by intros [= <- <-]. }
  destruct (load_journal_written f _ n recs _ W Hw H1 H2) as (data1 & recs' & ch & [= <-] & Hl & _ & HR & Hch).
  rewrite Hl. pose proof (jrestarted_wf _ _ _ _ W HR) as W'.
  assert (Hany : forall recs1, jwf (deviceHash dev) n recs1 -> jwritten (deviceHash dev) recs1 (Some data) ->
    jrestarted recs1 recs').
  { intros recs1 W1 Hw1.
    destruct (load_journal_written f _ n recs1 _ W1 Hw1 H1 H2) as (data1 & recs1' & ch1 & [= <-] & Hl1 & _ & HR1 & _).
    rewrite Hl in Hl1. by simplify_eq. }
  destruct ch.
  - destruct (persistRecords f recs' _) as [r0 j0] eqn:Ep. apply persistRecords_spec in Ep as ([Hh Hm] & Hr & Hd0).
    simpl in *. destruct Hd0 as [[-> Hw']|(e & -> & Hd0)]; intros [= <- <-].
    + assert (W0 : jwf (jdeviceHash j0) (max j0) (records j0)) by (by rewrite Hr, Hh, Hm).
      rewrite <- Hh in Hw'. rewrite <- Hr in Hw', Hany. split_and!; try done.
      * split; [done|]. destruct (jdisk j0); [|done]. by exists (records j0).
      * by apply jwritten_synced.
    + destruct Hd0 as [->|Hw']; [done|]. split_and!; [destruct (jdisk j0); [by exists recs'|done]| |done].
      intros recs1 W1 Hw1. exists recs'. split_and!; [done|done|]. right. by apply Hany.
  - intros [= <- <-]. simpl. split_and!; try done.
    + split; [done|]. by exists recs.
    + exists recs. split_and!; [done|done|]. simpl. eapply jrestarted_no_dispatching; [exact W|done|by apply Hch].
Qed.

(** *** The daemon's runs, for one device and one limit *)

Inductive jstate : Type :=
  | JUp (j : promptJournal)
  | JDown (d : option (file promptJournalDisk)).

Inductive jstep (P : io -> Prop) (dev : string) (n : Z) : jstate -> jstate -> Prop :=
  | JRun f op j r j' : P f -> run_jop f op j = (r, j') -> jstep P dev n (JUp j) (JUp j')
  | JCrash j : jstep P dev n (JUp j) (JDown (jdisk j))
  | JStart f d j d' : P f -> loadPromptJournal f d dev n = (Ok j, d') -> jstep P dev n (JDown d) (JUp j)
  | JStartFailed f d e d' : P f -> loadPromptJournal f d dev n = (Err e, d') -> jstep P dev n (JDown d) (JDown d').

Definition jreachable P dev n (s : jstate) : Prop := rtc (jstep P dev n) (JDown None) s.

Definition any_io (f : io) : Prop := True.
Definition chmod_reliable (f : io) : Prop := f OpChmodFinal = None.

Definition jstate_inv dev n (s : jstate) : Prop :=
  match s with
  | JUp j => jdeviceHash j = deviceHash dev /\ max j = n /\ journal_inv j
  | JDown d => jdisk_ok (deviceHash dev) n d
  end.

Lemma run_jop_inv f op j r j' :
  journal_inv j -> run_jop f op j = (r, j') -> journal_inv j' /\ same_ids j j'.
Proof.
  intros [W Hd] Hop. apply run_jop_outcome in Hop; [|done].
  destruct Hop as [->|(nx & Wn & _ & f' & Hc)]; [done|].
  apply commit_records_spec in Hc as ([Hh Hm] & Hc). split; [|done]. unfold journal_inv. rewrite Hh, Hm.
  destruct Hc as [(_ & -> & Hw)|(e & _ & -> & [->|Hw])]; (split; [done|]); try done;
    (destruct (jdisk j'); [by exists nx|done]).
Qed.

Lemma jstep_inv P dev n s1 s2 : 0 < n -> jstate_inv dev n s1 -> jstep P dev n s1 s2 -> jstate_inv dev n s2.
Proof.
  intros Hn H0 Hs. destruct Hs as [f op j r j' _ Hop|j|f d j d' _ Hl|f d e d' _ Hl]; simpl in *.
  - destruct H0 as (Hh & Hm & Hi). destruct (run_jop_inv _ _ _ _ _ Hi Hop) as [? [-> ->]]. done.
  - destruct H0 as (<- & <- & Hi). apply Hi.
  - apply (load_journal_spec _ _ _ _ _ _ Hn H0) in Hl as (? & ? & ? & _). done.
  - by apply (load_journal_spec _ _ _ _ _ _ Hn H0) in Hl as [? _].
Qed.

Lemma jreachable_inv P dev n s : 0 < n -> jreachable P dev n s -> jstate_inv dev n s.
Proof. intros Hn H. eapply (rtc_invariant _ (jstate_inv dev n)); [intros a b; by apply jstep_inv|exact H|done]. Qed.

Lemma run_jop_reliable f op j e j' :
  chmod_reliable f -> run_jop f op j = (Err e, j') -> j' = j.
Proof.
  intros Hf. pose proof (fun nx e0 j0 => commit_records_reliable f nx j e0 j0 Hf) as Hc.
  destruct op as [now s c p|s c|now s c|now s c|now s c]; simpl;
    unfold markDispatching, rollbackDispatching, markAccepted, markIndeterminate, markCommitted, transition;
    cbv [mbind M_bind mret M_ret get lift raise];
    repeat case_match; simplify_eq; try done; try (by intros [= _ <-]); try apply Hc.
Qed.

Definition jsync_inv dev n (s : jstate) : Prop :=
  jstate_inv dev n s /\ match s with JUp j => jsynced j | JDown _ => True end.

Lemma jstep_sync dev n s1 s2 :
  0 < n -> jsync_inv dev n s1 -> jstep chmod_reliable dev n s1 s2 -> jsync_inv dev n s2.
Proof.
  intros Hn [Hi Hs] Hstep. split; [by eapply jstep_inv|].
  destruct Hstep as [f op j r j' Hf Hop|j|f d j d' _ Hl|f d e d' _ Hl]; [|done| |done].
  - destruct r as [u|e]; [|by rewrite (run_jop_reliable _ _ _ _ _ Hf Hop)].
    destruct Hi as (_ & _ & Hi). pose proof (run_jop_inv _ _ _ _ _ Hi Hop) as [[W' _] _].
    apply run_jop_outcome in Hop; [|apply Hi].
    destruct Hop as [->|(nx & Wn & _ & f' & Hc)]; [done|].
    apply commit_records_spec in Hc as ([Hh Hm] & [(_ & Hr & Hw)|(e & ? & _)]); [|done].
    apply jwritten_synced; [done|]. by rewrite Hr, Hh.
  - by apply (load_journal_spec _ _ _ _ _ _ Hn Hi) in Hl as (_ & _ & _ & _ & ? & _).
Qed.

Lemma jreachable_synced dev n j : 0 < n -> jreachable chmod_reliable dev n (JUp j) -> jsynced j.
Proof.
  intros Hn H. apply (rtc_invariant _ (jsync_inv dev n)) in H; [apply H|intros a b; by apply jstep_sync|done].
Qed.

Lemma run_jop_step f op j r j' k :
  journal_inv j -> run_jop f op j = (r, j') ->
  journal_status (records j) k = journal_status (records j') k \/
  record_step (journal_status (records j) k) (journal_status (records j') k).
Proof.
  intros [W _] Hop. apply run_jop_outcome in Hop; [|done].
  destruct Hop as [->|(nx & Wn & Hst & f' & Hc)]; [by left|].
  apply commit_records_spec in Hc as (_ & [(_ & -> & _)|(e & _ & -> & _)]); [apply Hst|by left].
Qed.

(** *** Facts that hold in memory and in the file

    A fact about the records that also holds of some map the file was written
    from survives failed writes and restarts, provided a restart cannot break
    it. *)

Definition durable (Q : journal_map -> Prop) (hash : string) (n : Z) (d : option (file promptJournalDisk)) : Prop :=
  exists recs, jwf hash n recs /\ jwritten hash recs d /\ Q recs.

Definition jholds (Q : journal_map -> Prop) (j : promptJournal) : Prop :=
  Q (records j) /\ durable Q (jdeviceHash j) (max j) (jdisk j).

(** [Q] survives a restart, and passes between memory and a file written from
    the same records. *)
Record restart_stable (Q : journal_map -> Prop) : Prop := {
  stable_restart : forall recs recs', Q recs -> jrestarted recs recs' -> Q recs';
  stable_equiv : forall recs recs', Q recs' -> (forall k, option_Forall2 record_equiv (recs !! k) (recs' !! k)) -> Q recs
}.

Lemma commit_holds Q f next j r j' :
  commit_records f next j = (r, j') -> jwf (jdeviceHash j) (max j) next -> jholds Q j -> Q next -> jholds Q j'.
Proof.
  intros Hc W [Hm Hd] Hq. apply commit_records_spec in Hc as ([Hh Hx] & Hc). unfold jholds. rewrite Hh, Hx.
  assert (Hnew : jwritten (jdeviceHash j) next (jdisk j') -> durable Q (jdeviceHash j) (max j) (jdisk j')).
  { intros Hw. by exists next. }
  destruct Hc as [(_ & -> & Hw)|(e & _ & -> & [->|Hw])]; auto.
Qed.

Lemma run_jop_holds Q f op j r j' :
  journal_inv j -> run_jop f op j = (r, j') -> jholds Q j ->
  (forall next, jop_effect op j next -> Q next) -> jholds Q j'.
Proof.
  intros [W _] Hop Hq He. apply run_jop_commits in Hop as [[-> _]|(next & Wn & Hn & Hc)]; [done| |done].
  eapply commit_holds; eauto.
Qed.

Lemma load_durable Q f dev n d r d' :
  0 < n -> restart_stable Q -> durable Q (deviceHash dev) n d -> loadPromptJournal f d dev n = (r, d') ->
  match r with Ok j => jholds Q j | Err _ => durable Q (deviceHash dev) n d' end.
Proof.
  intros Hn [Hre Heq] (recs & W & Hw & Hq) Hl.
  assert (Hd : jdisk_ok (deviceHash dev) n d) by (destruct d; [by exists recs|done]).
  pose proof (load_journal_spec _ _ _ _ _ _ Hn Hd Hl) as Hs. destruct r as [j|e].
  - destruct Hs as (Hh & Hm & _ & _ & (recs1 & W1 & Hw1 & He) & Hr & _).
    assert (Hq' : Q (records j)) by (eapply Hre; [exact Hq|by apply Hr]).
    split; [done|]. exists recs1. split_and!; [done|done|]. by eapply Heq.
  - destruct Hs as (_ & Hs & _). destruct (Hs recs W Hw) as (recs' & W' & Hw' & Hr).
    exists recs'. split_and!; [done|done|]. destruct Hr as [->|Hr]; [done|by eapply Hre].
Qed.

Lemma jholds_impl (Q Q' : journal_map -> Prop) j : (forall recs, Q recs -> Q' recs) -> jholds Q j -> jholds Q' j.
Proof. intros H [Hm (recs & W & Hw & Hq)]. split; [auto|]. exists recs. auto. Qed.

(** The first start: there is no file yet. *)
Lemma journal_load_fresh Q f dev n r d' :
  0 < n -> restart_stable Q -> Q ∅ -> loadPromptJournal f None dev n = (r, d') ->
  match r with Ok j => jholds Q j | Err _ => d' = None \/ durable Q (deviceHash dev) n d' end.
Proof.
  intros Hn [_ Heq] Hq Hl. pose proof (load_journal_spec f dev n None r d' Hn I Hl) as Hs. destruct r as [j|e].
  - destruct Hs as (Hh & Hm & _ & _ & (recs1 & W1 & Hw1 & He) & _ & He0). rewrite He0 in * by done.
    split; [by rewrite He0|]. exists recs1. split_and!; [done|done|]. by eapply Heq.
  - destruct Hs as (_ & _ & Hs). destruct (Hs eq_refl) as [->|Hw]; [by left|right].
    exists ∅. split_and!; [apply jwf_empty; lia|done|done].
Qed.

(** A key that is recorded. *)
Definition recorded (k : string) (recs : journal_map) : Prop := is_Some (recs !! k).

Lemma recorded_stable k : restart_stable (recorded k).
Proof.
  split; intros recs recs' [r Hr] H; specialize (H k); rewrite Hr in H; inversion H; by eexists.
Qed.

(** ** Properties *)

(** the journal's invariant in every reachable state: bounded size, one
    record per key under that key, every record carrying valid identifiers that
    hash to its key (or none, if it came from a version-1 file) and an echo of
    at most 512 bytes. *)
Theorem journal_reachable_wf P dev n j :
  0 < n -> jreachable P dev n (JUp j) ->
  Z.of_nat (size (records j)) <= n /\
  (forall k r, records j !! k = Some r ->
     Key r = k /\ len (PromptEcho r) <= maxPromptJournalEchoBytes /\
     (LegacyOpaque r = false ->
        k = promptJournalKeyFromHash (deviceHash dev) (SessionID r) (ClientMsgID r) /\
        validateJournalIdentifiers (SessionID r) (ClientMsgID r) = Ok tt)).
Proof.
  intros Hn H. apply (jreachable_inv _ _ _ _ Hn) in H as (Hh & Hm & [W _]). rewrite Hh, Hm in W.
  split; [apply W|]. intros k r Hk. pose proof (jwf_key _ _ _ W _ _ Hk) as Hkey.
  destruct (jwf_ok _ _ _ W _ _ Hk) as (_ & Hids & _ & Hl). split_and!; [done|done|].
  intros Hlo. unfold record_ids_ok in Hids. rewrite Hlo in Hids. destruct Hids. split; [congruence|done].
Qed.


(** [markDispatching] is the at-most-once gate. It succeeds only for a key
    with no record, and on success the new [dispatching] record is in memory
    and already in the file; at capacity it makes room by dropping the oldest
    committed record, and refuses when there is none. *)
Theorem markDispatching_gate P dev n j f now s c prompt r j' :
  0 < n -> jreachable P dev n (JUp j) -> markDispatching f now s c prompt j = (r, j') ->
  let k := promptJournalKeyFromHash (deviceHash dev) s c in
  match r with
  | Ok _ =>
    journal_status (records j) k = None /\
    (exists x, records j' !! k = Some x /\ Status x = promptJournalDispatching /\
       SessionID x = s /\ ClientMsgID x = c /\ PromptEcho x = boundedUTF8 prompt maxPromptJournalEchoBytes) /\
    jwritten (deviceHash dev) (records j') (jdisk j') /\
    (Z.of_nat (size (records j)) < n -> forall k' x, records j !! k' = Some x -> records j' !! k' = Some x) /\
    (n <= Z.of_nat (size (records j)) ->
       exists o, records j !! Key o = Some o /\ Status o = promptJournalCommitted /\
         (forall k' x, records j !! k' = Some x -> Status x = promptJournalCommitted -> UpdatedAt o <= UpdatedAt x) /\
         forall k' x, records j !! k' = Some x -> k' <> Key o -> records j' !! k' = Some x)
  | Err _ => records j' = records j
  end.
Proof.
  intros Hn H. apply (jreachable_inv _ _ _ _ Hn) in H as (Hh & Hm & [W _]).
  unfold markDispatching. cbv [mbind M_bind mret M_ret get lift raise]. rewrite Hh, Hm.
  destruct (validateJournalIdentifiers s c) as [[]|e]; [|by intros [= <- <-]].
  set (k := promptJournalKeyFromHash (deviceHash dev) s c).
  destruct (records j !! k) as [old|] eqn:Hk; [by intros [= <- <-]|].
  set (x := mkRecord _ _ _ _ _ _ _).
  destruct (n <=? Z.of_nat (size (records j))) eqn:Hfull; bool_hyps.
  - destruct (evictOldestCommitted (records j)) as [recs'|e] eqn:He; [|by intros [= <- <-]].
    destruct (evict_spec _ _ _ _ W He) as (o & Ho & Hs & -> & Hmin & _).
    intros Hc. apply commit_records_spec in Hc as (_ & [(-> & Hr & Hw)|(e & -> & Hr & _)]); [|done].
    cbv zeta. rewrite Hr. split_and!.
    + unfold journal_status. by rewrite Hk.
    + exists x. by rewrite lookup_insert_eq.
    + by rewrite <- Hh.
    + intros. lia.
    + intros _. exists o. split_and!; [done|done|done|]. intros k' y Hy Hne.
      rewrite lookup_insert_ne by (intros <-; congruence). by rewrite lookup_delete_ne.
  - intros Hc. apply commit_records_spec in Hc as (_ & [(-> & Hr & Hw)|(e & -> & Hr & _)]); [|done].
    cbv zeta. rewrite Hr. split_and!.
    + unfold journal_status. by rewrite Hk.
    + exists x. by rewrite lookup_insert_eq.
    + by rewrite <- Hh.
    + intros _ k' y Hy. by rewrite lookup_insert_ne by (intros <-; congruence).
    + lia.
Qed.
End Restart.

(** ** Witnesses *)

Definition plain_journal_codec : Codec promptJournalDisk :=
  {| file := promptJournalDisk;
     file_size := fun d => 500 * Z.of_nat (List.length (Records d));
     marshalIndent := fun d => Ok d;
     unmarshal := fun d => Ok d |}.

#[local] Existing Instances canonical_order plain_journal_codec.

#[local] Instance plain_journal_codec_laws : CodecLaws promptJournalDisk journal_encodable journal_equiv.
Proof.
  split. intros d f _ [= ->]. exists f. split; [done|]. split; [done|]. split; [done|].
  induction (Records f); constructor; [apply record_equiv_refl|done].
Defined.

Definition wj_empty : promptJournal :=
  mkJournal (deviceHash "device-1") 2 ∅ (Some (mkJournalDisk promptJournalVersion (deviceHash "device-1") [])).
Definition wj_dispatching : promptJournal :=
  (run_jop io_ok (JMarkDispatching 5 "session-1" "msg-1" "hello") wj_empty).2.
Definition wj_key : string := promptJournalKeyFromHash (deviceHash "device-1") "session-1" "msg-1".
Definition wj_restarted : promptJournal :=
  match loadPromptJournal io_ok (jdisk wj_dispatching) "device-1" 2 with (Ok j, _) => j | _ => wj_empty end.

Lemma wj_empty_reachable : jreachable chmod_reliable "device-1" 2 (JUp wj_empty).
Proof.
  eapply rtc_l; [|apply rtc_refl].
  apply (JStart _ _ _ io_ok None wj_empty (jdisk wj_empty)); [reflexivity|by_vm].
Defined.

Lemma wj_dispatching_reachable : jreachable chmod_reliable "device-1" 2 (JUp wj_dispatching).
Proof.
  eapply rtc_r; [exact wj_empty_reachable|].
  apply (JRun _ _ _ io_ok (JMarkDispatching 5 "session-1" "msg-1" "hello") wj_empty (Ok tt) wj_dispatching);
    [reflexivity|by_vm].
Defined.

Lemma journal_reachable_wf_witness : Z.of_nat (size (records wj_dispatching)) <= 2.
Proof. exact (proj1 (journal_reachable_wf chmod_reliable "device-1" 2 wj_dispatching eq_refl wj_dispatching_reachable)). Defined.


Lemma markDispatching_gate_witness :
  journal_status (records wj_empty) wj_key = None /\
  jwritten (deviceHash "device-1") (records wj_dispatching) (jdisk wj_dispatching).
Proof.
  assert (H : markDispatching io_ok 5 "session-1" "msg-1" "hello" wj_empty = (Ok tt, wj_dispatching)) by by_vm.
  pose proof (markDispatching_gate chmod_reliable "device-1" 2 wj_empty io_ok 5 "session-1" "msg-1" "hello"
    (Ok tt) wj_dispatching eq_refl wj_empty_reachable H) as G.
  split; [exact (proj1 G)|exact (proj1 (proj2 (proj2 G)))].
Defined.
