(* ===== verification/StartJournalSpec.v ===== *)
(** * What the thread-start journal promises

    A start is authorised ([Begin] answers [created]) at most once for an
    operation id over the whole life of a device, whatever fails and however
    often the process restarts; a result that [Finish] acknowledged is the one
    every later process replays. *)

From stdpp Require Import base tactics list gmap strings sorting fin_maps.
From Stdlib Require Import Ascii String ZArith Lia.
From S2P Require Import Prelude GoStrings GoPath Sha256 StartJournal.

(** ** The document as the encoder writes it

    [encoding/json] writes integers, booleans and string constants exactly and
    coerces strings to valid UTF-8. *)

Definition coerce_status (s : Status) : Status :=
  match s with OtherStatus t => OtherStatus (coerceUTF8 t) | _ => s end.

Definition coerce_record (r : StartRecord) : StartRecord :=
  mkStart (coerceUTF8 (Key r)) (coerceUTF8 (OperationID r)) (coerceUTF8 (AgentType r))
    (coerceUTF8 (ProjectDir r)) (coerceUTF8 (PromptDigest r)) (coerceUTF8 (AttachmentsDigest r))
    (coerce_status (SStatus r)) (coerceUTF8 (SessionID r)) (PromptAccepted r) (coerceUTF8 (Message r))
    (UpdatedAt r).

Definition coerce_disk (d : diskJournal) : diskJournal :=
  mkDisk (Version d) (coerceUTF8 (DeviceHash d)) (coerce_record <$> Records d).

(** The codec's law for this document type: decoding what [MarshalIndent] wrote
    gives the document back with its strings coerced. *)
Abbreviation StartCodecLaws := (CodecLaws diskJournal (fun _ => True) (fun d d' => d' = coerce_disk d)).

(** ** Valid records *)

Lemma all_hex_valid s : all_hex s = true -> ValidString s = true.
Proof.
  unfold ValidString. induction s as [|c s IH]; [done|]. cbn [all_hex]. intros [Hc Hs]%andb_prop.
  rewrite utf8_scan_lead. unfold lead.
  assert (code c < 128) as Hlt.
  { unfold is_hex in Hc. apply orb_prop in Hc as [Hc|Hc]; [apply orb_prop in Hc as [Hc|Hc]|]; bool_hyps; lia. }
  apply Z.ltb_lt in Hlt. rewrite Hlt. by apply IH.
Qed.

Lemma hash_valid s : ValidString (hashString s) = true.
Proof. apply all_hex_valid. unfold hashString, sha256_hex. apply all_hex_encode. Qed.

Lemma validDigest_valid d : validDigest d = true -> ValidString d = true.
Proof. unfold validDigest, hex_decodes. intros [_ [_ H]%andb_prop]%andb_prop. by apply all_hex_valid. Qed.

(** A record that [validateRecord] accepts, whatever its message: the part of
    it that the encoder keeps as it is. *)
Record sound (hash : string) (r : StartRecord) : Prop := {
  sound_op : validateOperationID (OperationID r) = Ok tt;
  sound_binding : validateRequest (binding r) = Ok tt;
  sound_key : Key r = operationKey hash (OperationID r);
  sound_status : knownStatus (SStatus r) = true;
  sound_owned : SStatus r = StatusOwned -> is_empty (TrimSpace (SessionID r)) = false /\ PromptAccepted r = true;
  sound_session : len (SessionID r) <= maxSessionIDBytes /\ ValidString (SessionID r) = true
}.

Definition message_ok (r : StartRecord) : Prop :=
  len (Message r) <= maxTerminalMessageBytes /\ ValidString (Message r) = true.

Lemma validateRecord_ok hash r : validateRecord hash r = Ok tt <-> sound hash r /\ message_ok r.
Proof.
  unfold validateRecord. split.
  - intros H. apply bind_ok in H as ([] & Hop & H). apply wrap_ok in Hop.
    apply bind_ok in H as ([] & Hb & H). apply wrap_ok in Hb.
    apply bind_ok in H as ([] & Hk%fail_if_ok & H). apply bind_ok in H as ([] & Hs%fail_if_ok & H).
    apply bind_ok in H as ([] & Ho%fail_if_ok & H). apply bind_ok in H as ([] & Hi%fail_if_ok & H).
    apply fail_if_ok in H. bool_hyps. split; [|by split]. split; try done.
    intros Hst. rewrite bool_decide_true in Ho by done. cbn [andb] in Ho. bool_hyps. done.
  - intros [[Hop Hb Hk Hs Ho [Hl Hv]] [Hml Hmv]]. rewrite Hop, Hb. cbn [wrap mbind res_bind].
    rewrite (bool_decide_true _ Hk), Hs, Hv, Hmv. cbn [negb fail_if mbind res_bind].
    assert (maxSessionIDBytes <? len (SessionID r) = false) as -> by (apply Z.ltb_ge; lia).
    assert (maxTerminalMessageBytes <? len (Message r) = false) as -> by (apply Z.ltb_ge; lia).
    destruct (bool_decide (SStatus r = StatusOwned)) eqn:E; bool_hyps; [|done].
    destruct (Ho E) as [-> ->]. done.
Qed.

Lemma validateOperationID_valid id : validateOperationID id = Ok tt -> ValidString id = true.
Proof. unfold validateOperationID. intros H. apply bind_ok in H as ([] & _ & H%fail_if_ok). by bool_hyps. Qed.

Lemma validateRequest_valid q :
  validateRequest q = Ok tt ->
  ValidString (rqAgentType q) = true /\ ValidString (rqProjectDir q) = true /\
  ValidString (rqPromptDigest q) = true /\ ValidString (rqAttachmentsDigest q) = true.
Proof.
  unfold validateRequest. intros H.
  apply bind_ok in H as ([] & H1%fail_if_ok & H). apply bind_ok in H as ([] & H2%fail_if_ok & H).
  apply bind_ok in H as ([] & H3%fail_if_ok & H4%fail_if_ok). bool_hyps.
  split_and!; try done; [by apply validDigest_valid|].
  destruct (rqAttachmentsDigest q) as [|c s] eqn:E; [done|].
  apply andb_false_iff in H4 as [H4|H4]; [done|]. apply validDigest_valid. by apply negb_false_iff in H4.
Qed.

(** Coercion leaves all of a sound record but its message alone. *)
Lemma coerce_record_sound hash r :
  sound hash r ->
  coerce_record r = with_outcome r (SStatus r) (SessionID r) (PromptAccepted r) (coerceUTF8 (Message r)) (UpdatedAt r).
Proof.
  intros [Hop Hb Hk Hs _ [_ Hv]]. unfold coerce_record, with_outcome.
  apply validateOperationID_valid in Hop.
  apply validateRequest_valid in Hb as (Ha & Hp & Hd & Ht).
  unfold binding in *. cbn [rqAgentType rqProjectDir rqPromptDigest rqAttachmentsDigest] in *.
  assert (ValidString (Key r) = true) as HK by (rewrite Hk; apply hash_valid).
  rewrite !coerceUTF8_valid by done. by destruct (SStatus r).
Qed.

Lemma sound_with_outcome hash r status sid acc msg now :
  sound hash r -> knownStatus status = true ->
  (status = StatusOwned -> is_empty (TrimSpace sid) = false /\ acc = true) ->
  len sid <= maxSessionIDBytes /\ ValidString sid = true ->
  sound hash (with_outcome r status sid acc msg now).
Proof. intros [] ? ? ?. by split. Qed.

(** ** How a record may change

    Its identity and its binding never do; a terminal outcome never does, and
    neither does its message when that is valid UTF-8. *)
Record evolves (r r' : StartRecord) : Prop := {
  ev_key : Key r' = Key r;
  ev_op : OperationID r' = OperationID r;
  ev_binding : binding r' = binding r;
  ev_outcome : terminal (SStatus r) = true ->
    SStatus r' = SStatus r /\ SessionID r' = SessionID r /\ PromptAccepted r' = PromptAccepted r;
  ev_message : terminal (SStatus r) = true -> ValidString (Message r) = true -> Message r' = Message r
}.

#[export] Instance evolves_refl : Reflexive evolves.
Proof. done. Qed.

#[export] Instance evolves_trans : Transitive evolves.
Proof.
  intros a b c [H1 H2 H3 H4 H5] [K1 K2 K3 K4 K5]. split; try congruence.
  - intros Ht. destruct (H4 Ht) as (E1 & E2 & E3). rewrite E1 in K4.
    destruct (K4 Ht) as (F1 & F2 & F3). split_and!; congruence.
  - intros Ht Hv. destruct (H4 Ht) as (E1 & _ & _). rewrite E1, H5 in K5 by done. by apply K5.
Qed.

(** A record without an outcome may get any. *)
Lemma evolves_outcome r0 r status sid acc msg now :
  evolves r0 r -> terminal (SStatus r) = false -> evolves r0 (with_outcome r status sid acc msg now).
Proof.
  intros Hev Hn. trans r; [done|]. split; try done; intros Ht; rewrite Hn in Ht; done.
Qed.

Lemma recover_evolves now r : evolves r (recover now r).
Proof.
  unfold recover. destruct (bool_decide (SStatus r = StatusStarting)) eqn:E; [|done].
  bool_hyps. apply evolves_outcome; [done|]. by rewrite E.
Qed.

Lemma coerce_evolves hash r : sound hash r -> evolves r (coerce_record r).
Proof.
  intros Hs. rewrite (coerce_record_sound hash) by done. split; try done.
  intros _ Hv. by apply coerceUTF8_valid.
Qed.

(** ** The load loop *)

Lemma recover_sound hash now r : sound hash r -> sound hash (recover now r).
Proof.
  intros Hs. unfold recover. destruct (bool_decide (SStatus r = StatusStarting)) eqn:E; [|done].
  apply sound_with_outcome; [done|done|done|]. apply Hs.
Qed.

Lemma recover_key now r : Key (recover now r) = Key r.
Proof. apply (ev_key _ _ (recover_evolves now r)). Qed.

Lemma recover_not_starting now r : SStatus (recover now r) <> StatusStarting.
Proof. unfold recover. destruct (bool_decide (SStatus r = StatusStarting)) eqn:E; [done|by bool_hyps]. Qed.

Section Load.
Context (hash : string) (now : string -> Z).

Lemma load_records_spec l m c m' c' :
  load_records hash now (m, c) l = Ok (m', c') ->
  (forall k r, m !! k = Some r -> m' !! k = Some r) /\
  (forall r, r ∈ l -> validateRecord hash r = Ok tt /\ m' !! Key r = Some (recover (now (Key r)) r)) /\
  (forall k r', m' !! k = Some r' -> m !! k = Some r' \/ exists r, r ∈ l /\ k = Key r /\ r' = recover (now k) r).
Proof.
  revert m c. induction l as [|r l IH]; intros m c; cbn [load_records].
  { intros [= -> ->]. split_and!; [done|by intros r ?%not_elem_of_nil|naive_solver]. }
  intros H. apply bind_ok in H as ([m1 c1] & Hr & H). unfold load_record in Hr.
  apply bind_ok in Hr as ([] & Hv & Hr). destruct (m !! Key r) eqn:Hk; [done|]. injection Hr as <- <-.
  destruct (IH _ _ H) as (Hkeep & Hin & Hout).
  assert (forall k q, m !! k = Some q -> m' !! k = Some q) as Hkeep'.
  { intros k q Hq. apply Hkeep. rewrite lookup_insert_ne; [done|]. intros <-. congruence. }
  split_and!; [done| |].
  - intros q [->|Hq]%elem_of_cons; [|by apply Hin]. split; [done|]. apply Hkeep. by rewrite lookup_insert_eq.
  - intros k q Hq. destruct (Hout k q Hq) as [Hq'|(p & Hp & -> & ->)].
    + destruct (decide (k = Key r)) as [->|Hne].
      * rewrite lookup_insert_eq in Hq'. injection Hq' as <-. right. exists r. split_and!; [by left|done|done].
      * rewrite lookup_insert_ne in Hq' by done. by left.
    + right. exists p. split_and!; [by right|done|done].
Qed.
End Load.

(** ** Memory and file *)

Section Journal.
Context `{MO : MapOrder} `{CD : !Codec diskJournal} `{CL : !StartCodecLaws}.
Implicit Types (j : Journal) (recs : gmap string StartRecord) (d : option (file diskJournal)).

Definition wf_records (hash : string) (recs : gmap string StartRecord) : Prop :=
  forall k r, recs !! k = Some r -> Key r = k /\ sound hash r.

Definition wf_journal (deviceID : string) (j : Journal) : Prop :=
  deviceHash j = hashString deviceID /\ wf_records (deviceHash j) (records j).

Definition in_memory (r0 : StartRecord) (recs : gmap string StartRecord) : Prop :=
  exists r, recs !! Key r0 = Some r /\ evolves r0 r.

Definition on_disk (r0 : StartRecord) (d : option (file diskJournal)) : Prop :=
  exists data dk r, d = Some data /\ unmarshal data = Ok dk /\ r ∈ Records dk /\ evolves r0 r.

Lemma elem_of_document hash recs r :
  r ∈ Records (document hash recs) <-> exists k, recs !! k = Some r.
Proof.
  unfold document, sort_starts. cbn [Records].
  assert (merge_sort start_before (range_values recs) ≡ₚ range_values recs) as -> by apply merge_sort_Permutation.
  apply elem_of_range_values.
Qed.

(** A file written for [recs] holds, coerced, the records of [recs]. *)
Lemma document_on_disk hash recs data r0 :
  wf_records hash recs -> marshalIndent (document hash recs) = Ok data ->
  in_memory r0 recs -> on_disk r0 (Some data).
Proof using CL.
  intros Hwf Hm (r & Hr & Hev).
  destruct (unmarshal_marshalIndent _ _ I Hm) as (dk & Hu & ->).
  exists data, (coerce_disk (document hash recs)), (coerce_record r). split_and!; [done|done| |].
  - unfold coerce_disk. cbn [Records]. apply list_elem_of_fmap_2. apply elem_of_document. eauto.
  - trans r; [done|]. apply (coerce_evolves hash). by eapply Hwf.
Qed.

Lemma start_persist_spec f recs j r j' :
  persist f recs j = (r, j') ->
  deviceHash j' = deviceHash j /\ records j' = records j /\
  ((exists data, marshalIndent (document (deviceHash j) recs) = Ok data /\ disk j' = Some data) \/
   (is_ok r = false /\ disk j' = disk j)).
Proof.
  unfold persist.
  destruct (persist_file _ _ _ _ _ _) as [r' d'] eqn:Ep. intros [= <- <-]. cbn [deviceHash records disk].
  split_and!; [done|done|].
  apply persist_file_spec in Ep as [(-> & data & Hm & _ & ->)|(e & -> & [->|(data & Hm & _ & ->)])]; eauto.
Qed.

Lemma start_commit_spec f next j r j' :
  commit f next j = (r, j') ->
  deviceHash j' = deviceHash j /\
  ((exists data, marshalIndent (document (deviceHash j) next) = Ok data /\ disk j' = Some data) \/
   (is_ok r = false /\ disk j' = disk j)) /\
  (if is_ok r then records j' = next else records j' = records j).
Proof.
  unfold commit, mbind, M_bind. destruct (persist f next j) as [[[]|e] j1] eqn:Ep;
    apply start_persist_spec in Ep as (H1 & H2 & H3); intros [= <- <-]; cbn [is_ok deviceHash records disk get put];
    (split_and!; [done|done|done]).
Qed.

(** After a write, whether it is reported to have failed or not, a record that
    was in the file and is in the map written is in the file. *)
Lemma written_on_disk hash next d d' r0 (ok : bool) :
  wf_records hash next ->
  (exists data, marshalIndent (document hash next) = Ok data /\ d' = Some data) \/ (ok = false /\ d' = d) ->
  in_memory r0 next -> on_disk r0 d -> on_disk r0 d'.
Proof using CL.
  intros Hwf [(data & Hm & ->)|[_ ->]] Hmem Hd; [|done]. by eapply document_on_disk.
Qed.

Lemma wf_records_insert hash recs k r :
  wf_records hash recs -> Key r = k -> sound hash r -> wf_records hash (<[k := r]> recs).
Proof.
  intros Hwf Hk Hs k' r' H. destruct (decide (k = k')) as [->|Hne].
  - rewrite lookup_insert_eq in H. injection H as <-. done.
  - rewrite lookup_insert_ne in H by done. by apply Hwf.
Qed.

Lemma in_memory_insert_new r0 recs k r : recs !! k = None -> in_memory r0 recs -> in_memory r0 (<[k := r]> recs).
Proof. intros Hk (q & Hq & Hev). exists q. split; [|done]. rewrite lookup_insert_ne; congruence. Qed.

Lemma in_memory_insert_outcome r0 recs k r status sid acc msg now :
  recs !! k = Some r -> terminal (SStatus r) = false ->
  in_memory r0 recs -> in_memory r0 (<[k := with_outcome r status sid acc msg now]> recs).
Proof.
  intros Hk Hn (q & Hq & Hev). destruct (decide (k = Key r0)) as [->|Hne].
  - rewrite Hk in Hq. injection Hq as ->. exists (with_outcome q status sid acc msg now).
    rewrite lookup_insert_eq. split; [done|]. by apply evolves_outcome.
  - exists q. by rewrite lookup_insert_ne.
Qed.

(** ** The operations *)

Lemma operationKey_key deviceID j r : wf_journal deviceID j -> sound (deviceHash j) r ->
  Key r = operationKey (hashString deviceID) (OperationID r).
Proof. intros [<- _] Hs. apply Hs. Qed.

(** The invariant of a process that is up: its map is well formed, and each
    record in [acks] is kept, in memory and in the file. *)
Record keeps (deviceID : string) (acks : list StartRecord) (j : Journal) : Prop := {
  keeps_wf : wf_journal deviceID j;
  keeps_memory : forall r0, r0 ∈ acks -> in_memory r0 (records j);
  keeps_disk : forall r0, r0 ∈ acks -> on_disk r0 (disk j)
}.

Definition keeps_node (deviceID : string) (acks : list StartRecord) (n : start_node) : Prop :=
  match n with
  | Up j => keeps deviceID acks j
  | Down d => forall r0, r0 ∈ acks -> on_disk r0 d
  end.

Lemma keeps_node_disk deviceID acks n :
  keeps_node deviceID acks n -> forall r0, r0 ∈ acks -> on_disk r0 (node_disk n).
Proof. destruct n as [j|d]; [by intros []|done]. Qed.

(** [Begin]: a refusal, a replay of what is known, or a new record that was not
    known before and is now in memory and in the file. *)
Lemma Begin_spec f now id q j :
  match Begin f now id q j with
  | (Began r false, j') => j' = j /\ records j !! operationKey (deviceHash j) id = Some r /\
      OperationID r = id /\ binding r = q
  | (Began r true, j') =>
      validateOperationID id = Ok tt /\ validateRequest q = Ok tt /\
      r = new_record (operationKey (deviceHash j) id) id q now /\
      records j !! Key r = None /\ deviceHash j' = deviceHash j /\ records j' = <[Key r := r]> (records j) /\
      exists data, marshalIndent (document (deviceHash j) (records j')) = Ok data /\ disk j' = Some data
  | (BeginError (ConflictError id'), j') => j' = j /\ id' = id /\
      exists r, records j !! operationKey (deviceHash j) id = Some r /\ ~ (OperationID r = id /\ binding r = q)
  | (BeginError (OtherError _), j') => deviceHash j' = deviceHash j /\ records j' = records j /\
      (disk j' = disk j \/
       let key := operationKey (deviceHash j) id in
       validateOperationID id = Ok tt /\ validateRequest q = Ok tt /\ records j !! key = None /\
       exists data, marshalIndent (document (deviceHash j) (<[key := new_record key id q now]> (records j))) = Ok data
                    /\ disk j' = Some data)
  end.
Proof.
  unfold Begin. destruct (validateOperationID id ;; validateRequest q) as [[]|e] eqn:Ev; [|by auto].
  apply bind_ok in Ev as ([] & Hop & Hrq).
  destruct (records j !! operationKey (deviceHash j) id) as [r|] eqn:Hk.
  - destruct (negb (bool_decide (OperationID r = id)) || negb (sameRequest r q))%bool eqn:Eg.
    + split_and!; [done|done|]. exists r. split; [done|]. intros [<- <-].
      rewrite bool_decide_true in Eg by done. unfold sameRequest, binding in Eg. cbn in Eg.
      by rewrite !bool_decide_true in Eg by done.
    + apply orb_false_elim in Eg as [E1 E2]. apply negb_false_iff in E1, E2. unfold sameRequest in E2. bool_hyps.
      split_and!; [done|done|done|]. destruct q. unfold binding. cbn in *. congruence.
  - destruct (commit _ _ _) as [[[]|e] j'] eqn:Ec; apply start_commit_spec in Ec as (Hh & Hd & Hr); cbn [is_ok] in *.
    + destruct Hd as [(data & Hm & Hd)|[? _]]; [|done].
      split_and!; [done|done|done|done|done|done|]. exists data. by rewrite Hr.
    + split_and!; [done|done|]. destruct Hd as [(data & Hm & Hd)|[_ Hd]]; [right|by left]. eauto 10.
Qed.

Lemma new_record_sound hash id q now :
  validateOperationID id = Ok tt -> validateRequest q = Ok tt ->
  sound hash (new_record (operationKey hash id) id q now).
Proof. intros. split; [done|by destruct q|done..]. Qed.

Lemma Begin_keeps deviceID acks f now id q j :
  keeps deviceID acks j ->
  match Begin f now id q j with
  | (Began r true, j') => keeps deviceID (acks ++ [r]) j' /\ OperationID r = id /\
                          forall r0, r0 ∈ acks -> OperationID r0 <> id
  | (_, j') => keeps deviceID acks j'
  end.
Proof using CL.
  intros [Hwf Hmem Hdisk]. pose proof (Begin_spec f now id q j) as H.
  destruct (Begin f now id q j) as [[r [|]|[id'|e]] j'].
  - destruct H as (Hop & Hq & -> & Hnew & Hh & Hr & data & Hm & Hd). destruct Hwf as [Hhash Hwf].
    set (r := new_record (operationKey (deviceHash j) id) id q now) in *.
    assert (wf_records (deviceHash j) (records j')) as Hwf'.
    { rewrite Hr. apply wf_records_insert; [done|done|]. by apply new_record_sound. }
    assert (forall r0, r0 ∈ acks ++ [r] -> in_memory r0 (records j')) as Hmem'.
    { intros r0 [Hr0| ->]%elem_of_snoc; rewrite Hr.
      - apply in_memory_insert_new; [done|by apply Hmem].
      - exists r. by rewrite lookup_insert_eq. }
    split_and!; [split|done|].
    + split; [congruence|by rewrite Hh].
    + done.
    + intros r0 Hr0. rewrite Hd. eapply document_on_disk; [exact Hwf'|exact Hm|]. by apply Hmem'.
    + intros r0 Hr0 <-. destruct (Hmem r0 Hr0) as (q0 & Hq0 & Hev).
      destruct (Hwf _ _ Hq0) as [Hk0 Hs0].
      change (Key r) with (operationKey (deviceHash j) (OperationID r0)) in Hnew.
      rewrite <- (ev_op _ _ Hev), <- (sound_key _ _ Hs0), Hk0, Hq0 in Hnew. done.
  - destruct H as (-> & _). done.
  - destruct H as (-> & _). done.
  - destruct H as (Hh & Hr & Hd). split; [split; [by rewrite Hh; apply Hwf|rewrite Hh, Hr; apply Hwf]|by rewrite Hr|].
    intros r0 Hr0. destruct Hd as [->|(Hop & Hq & Hnew & data & Hm & ->)]; [by apply Hdisk|].
    eapply document_on_disk; [|exact Hm|].
    + apply wf_records_insert; [apply Hwf|done|by apply new_record_sound].
    + apply in_memory_insert_new; [done|by apply Hmem].
Qed.

(** [FinishWithPromptOutcome]: a result written over a starting record, the same
    result again, or an error that leaves memory as it was. *)
Lemma Finish_spec f now id status sid msg acc j :
  let key := operationKey (deviceHash j) id in
  let next r := <[key := r]> (records j) in
  let outcome r0 := with_outcome r0 status sid acc (boundedStartUTF8 msg maxTerminalMessageBytes) now in
  match FinishWithPromptOutcome f now id status sid msg acc j with
  | (Ok r, j') => exists r0, records j !! key = Some r0 /\
      ((SStatus r0 <> StatusStarting /\ r = r0 /\ j' = j) \/
       (SStatus r0 = StatusStarting /\ r = outcome r0 /\ deviceHash j' = deviceHash j /\ records j' = next r /\
        terminal status = true /\ (status = StatusOwned -> is_empty (TrimSpace sid) = false /\ acc = true) /\
        len sid <= maxSessionIDBytes /\ ValidString sid = true /\
        exists data, marshalIndent (document (deviceHash j) (records j')) = Ok data /\ disk j' = Some data))
  | (Err _, j') => deviceHash j' = deviceHash j /\ records j' = records j /\
      (disk j' = disk j \/
       exists r0, records j !! key = Some r0 /\ SStatus r0 = StatusStarting /\
         terminal status = true /\ (status = StatusOwned -> is_empty (TrimSpace sid) = false /\ acc = true) /\
         len sid <= maxSessionIDBytes /\ ValidString sid = true /\
         exists data, marshalIndent (document (deviceHash j) (next (outcome r0))) = Ok data /\ disk j' = Some data)
  end.
Proof.
  cbv zeta. unfold FinishWithPromptOutcome, lift, get, raise. unfold mbind, M_bind.
  destruct (terminal status) eqn:Et; [|by cbn; auto]. cbn [negb fail_if].
  destruct (validateOperationID id) as [[]|e]; [|by cbn; auto].
  destruct ((maxSessionIDBytes <? len sid) || negb (ValidString sid))%bool eqn:Es; [by cbn; auto|]. cbn [fail_if].
  bool_hyps.
  destruct (records j !! operationKey (deviceHash j) id) as [r0|] eqn:Hk; [|by cbn; auto].
  destruct (terminal (SStatus r0)) eqn:Et0.
  { destruct (bool_decide (SStatus r0 = status) && _ && _ && _)%bool; [|by cbn; auto]. exists r0. split; [done|]. left. split_and!; [|done|done]. intros E. by rewrite E in Et0. }
  destruct (bool_decide (SStatus r0 = StatusStarting)) eqn:Est; [|by cbn; auto]. cbn [negb]. bool_hyps.
  destruct (bool_decide (status = StatusOwned) && is_empty (TrimSpace sid))%bool eqn:Eo; [by cbn; auto|].
  destruct (bool_decide (status = StatusOwned) && negb acc)%bool eqn:Ea; [by cbn; auto|].
  assert (status = StatusOwned -> is_empty (TrimSpace sid) = false /\ acc = true) as Hown.
  { intros Hst. rewrite bool_decide_true in Eo, Ea by done. cbn [andb] in *. by apply negb_false_iff in Ea. }
  destruct (commit _ _ _) as [[[]|e] j'] eqn:Ec; apply start_commit_spec in Ec as (Hh & Hd & Hr); cbn [is_ok mret M_ret] in *.
  - destruct Hd as [(data & Hm & Hd)|[? _]]; [|done].
    exists r0. split; [done|]. right. split_and!; try done. exists data. by rewrite Hr.
  - split_and!; [done|done|]. destruct Hd as [(data & Hm & Hd)|[_ Hd]]; [right|by left]. eauto 15.
Qed.

Lemma not_starting_terminal s : terminal s = true -> knownStatus s = true.
Proof. by destruct s. Qed.

Lemma Finish_keeps deviceID acks f now id status sid msg acc j :
  keeps deviceID acks j ->
  match FinishWithPromptOutcome f now id status sid msg acc j with
  | (Ok r, j') => keeps deviceID acks j' /\
      (starting (Lookup id j) = true -> keeps deviceID (acks ++ [r]) j')
  | (Err _, j') => keeps deviceID acks j'
  end.
Proof using CL.
  intros [Hwf Hmem Hdisk]. pose proof (Finish_spec f now id status sid msg acc j) as H. cbv zeta in H.
  destruct (FinishWithPromptOutcome _ _ _ _ _ _ _ _) as [[r|e] j'].
  - destruct H as (r0 & Hk & [(Hns & -> & ->)|(Hst & -> & Hh & Hr & Ht & Ho & Hl & Hv & data & Hm & Hd)]).
    { split; [done|]. unfold Lookup. case_match; [|done]. rewrite Hk. cbn [starting]. by rewrite bool_decide_false. }
    destruct (proj2 Hwf _ _ Hk) as [Hk0 Hs0].
    assert (wf_records (deviceHash j) (records j')) as Hwf'.
    { rewrite Hr. apply wf_records_insert; [apply Hwf|done|].
      apply sound_with_outcome; [done|by apply not_starting_terminal|done|done]. }
    assert (forall q, q ∈ acks -> in_memory q (records j')) as Hmem'.
    { intros q Hq. rewrite Hr. apply in_memory_insert_outcome; [done|by rewrite Hst|by apply Hmem]. }
    assert (wf_journal deviceID j') as Hwfj by (split; [rewrite Hh; apply Hwf|by rewrite Hh]).
    assert (forall q, in_memory q (records j') -> on_disk q (disk j')) as Hd'.
    { intros q Hq. rewrite Hd. by eapply document_on_disk. }
    split; [split; auto|]. intros _. split; [done| |].
    + intros q [Hq| ->]%elem_of_snoc; [by apply Hmem'|].
      eexists. rewrite Hr. cbn [with_outcome Key]. rewrite Hk0, lookup_insert_eq. done.
    + intros q [Hq| ->]%elem_of_snoc; apply Hd'; [by apply Hmem'|].
      eexists. rewrite Hr. cbn [with_outcome Key]. rewrite Hk0, lookup_insert_eq. done.
  - destruct H as (Hh & Hr & Hd). split; [split; [by rewrite Hh; apply Hwf|rewrite Hh, Hr; apply Hwf]|by rewrite Hr|].
    intros q Hq. destruct Hd as [->|(r0 & Hk & Hst & Ht & Ho & Hl & Hv & data & Hm & ->)]; [by apply Hdisk|].
    destruct (proj2 Hwf _ _ Hk) as [Hk0 Hs0]. eapply document_on_disk; [|exact Hm|].
    + apply wf_records_insert; [apply Hwf|done|].
      apply sound_with_outcome; [done|by apply not_starting_terminal|done|done].
    + apply in_memory_insert_outcome; [done|by rewrite Hst|by apply Hmem].
Qed.

Lemma FailClosed_keeps deviceID acks now id msg j :
  keeps deviceID acks j -> keeps deviceID acks (FailClosed now id msg j).2.
Proof.
  intros [Hwf Hmem Hdisk]. unfold FailClosed. case_match; [|done].
  destruct (records j !! operationKey (deviceHash j) id) as [r|] eqn:Hk; [|done].
  destruct (bool_decide (SStatus r = StatusStarting)) eqn:E; [|done]. bool_hyps.
  destruct (proj2 Hwf _ _ Hk) as [Hk0 Hs0]. split; cbn [snd records disk deviceHash].
  - split; [apply Hwf|]. cbn [snd records deviceHash]. apply wf_records_insert; [apply Hwf|done|].
    apply sound_with_outcome; [done|done|done|apply Hs0].
  - intros r0 Hr0. apply in_memory_insert_outcome; [done|by rewrite E|by apply Hmem].
  - done.
Qed.

Lemma load_document_spec f hash now data recs changed :
  load_document f hash now data = Ok (recs, changed) ->
  exists dk, unmarshal data = Ok dk /\ DeviceHash dk = hash /\ load_records hash now (∅, false) (Records dk) = Ok (recs, changed).
Proof.
  unfold load_document. intros H.
  apply bind_ok in H as ([] & _ & H). apply bind_ok in H as ([] & _ & H). apply bind_ok in H as ([] & _ & H).
  apply bind_ok in H as ([] & _ & H). apply bind_ok in H as (dk & Hu%wrap_ok & H).
  apply bind_ok in H as ([] & _ & H). apply bind_ok in H as ([] & Hh%fail_if_ok & H).
  exists dk. split_and!; [done| |done]. by bool_hyps.
Qed.

Lemma load_records_wf hash now l recs changed :
  load_records hash now (∅, false) l = Ok (recs, changed) -> wf_records hash recs.
Proof.
  intros H. apply load_records_spec in H as (_ & Hin & Hout). intros k r Hr.
  destruct (Hout k r Hr) as [Hr'|(q & Hq & -> & ->)]; [by rewrite lookup_empty in Hr'|].
  split; [apply recover_key|]. apply recover_sound.
  destruct (Hin q Hq) as [Hv _]. by apply validateRecord_ok in Hv as [? _].
Qed.

(** [Load]: a process that is up has every record the file had. *)
Lemma Load_keeps deviceID acks f now d :
  (forall r0, r0 ∈ acks -> on_disk r0 d) ->
  match Load f now d deviceID with
  | (Ok j, _) => keeps deviceID acks j
  | (Err _, d') => forall r0, r0 ∈ acks -> on_disk r0 d'
  end.
Proof using CL.
  intros Hd. unfold Load. destruct (is_empty (TrimSpace deviceID)); [done|].
  destruct d as [data|].
  2: { split; [|by intros r0 (? & ? & ? & ? & _)%Hd|done]. split; [done|]. by intros k r. }
  destruct (sys f OpOpen); [|done].
  destruct (load_document _ _ _ _) as [[recs changed]|e] eqn:El; [|done].
  destruct (load_document_spec _ _ _ _ _ _ El) as (dk & Hu & Hh & Hl).
  pose proof (load_records_wf _ _ _ _ _ Hl) as Hwf.
  assert (forall r0, r0 ∈ acks -> in_memory r0 recs) as Hmem.
  { intros r0 Hr0. destruct (Hd r0 Hr0) as (data' & dk' & r & [= <-] & Hu' & Hr & Hev).
    rewrite Hu in Hu'. injection Hu' as <-. apply load_records_spec in Hl as (_ & Hin & _).
    destruct (Hin r Hr) as [_ Hk]. exists (recover (now (Key r)) r). rewrite <- (ev_key _ _ Hev).
    split; [done|]. trans r; [done|]. apply recover_evolves. }
  destruct changed; [|by split].
  destruct (persist _ _ _) as [r j'] eqn:Ep. apply start_persist_spec in Ep as (Hh' & Hr' & Hd').
  cbn [deviceHash records disk] in *.
  assert (forall r0, r0 ∈ acks -> on_disk r0 (disk j')) as Hdisk.
  { intros r0 Hr0. eapply written_on_disk; [exact Hwf|exact Hd'|by apply Hmem|by apply Hd]. }
  destruct r as [[]|e]; [|done]. split; [split; [done|by rewrite Hh', Hr']|by rewrite Hr'|done].
Qed.

(** ** Runs *)

Lemma start_step_keeps deviceID acks op n a n' :
  keeps_node deviceID acks n -> start_step deviceID op n = (a, n') ->
  keeps_node deviceID (acks ++ (ack_record <$> a)) n' /\ (List.length a <= 1)%nat /\
  forall r, AckCreated r ∈ a -> forall r0, r0 ∈ acks -> OperationID r0 <> OperationID r.
Proof using CL.
  intros Hk. unfold start_step.
  assert (forall n1 : start_node, keeps_node deviceID acks n1 ->
    keeps_node deviceID (acks ++ (ack_record <$> [])) n1 /\ (List.length (@nil start_ack) <= 1)%nat /\
    forall r, AckCreated r ∈ [] -> forall r0, r0 ∈ acks -> OperationID r0 <> OperationID r) as Hquiet.
  { intros n1 Hn1. rewrite app_nil_r. split_and!; [done|simpl; lia|by intros r ?%not_elem_of_nil]. }
  destruct op as [f now id q|f now id status sid msg acc|now id msg|f now].
  - destruct n as [j|d]; [|intros [= <- <-]; by apply Hquiet].
    pose proof (Begin_keeps deviceID acks f now id q j Hk) as H.
    destruct (Begin f now id q j) as [[r [|]|e] j']; intros [= <- <-]; [|by apply Hquiet..].
    destruct H as (H & <- & Hne). split_and!; [done|simpl; lia|].
    intros r' Hr'%list_elem_of_singleton. by injection Hr' as ->.
  - destruct n as [j|d]; [|intros [= <- <-]; by apply Hquiet].
    pose proof (Finish_keeps deviceID acks f now id status sid msg acc j Hk) as H.
    destruct (FinishWithPromptOutcome _ _ _ _ _ _ _ _) as [[r|e] j']; [|intros [= <- <-]; by apply Hquiet].
    destruct H as [H1 H2]. destruct (starting (Lookup id j)); intros [= <- <-]; [|by apply Hquiet].
    split_and!; [by apply H2|simpl; lia|]. intros r' Hr'%list_elem_of_singleton. done.
  - destruct n as [j|d]; intros [= <- <-]; apply Hquiet; [by apply FailClosed_keeps|done].
  - pose proof (Load_keeps deviceID acks f now (node_disk n) (keeps_node_disk _ _ _ Hk)) as H.
    destruct (Load f now (node_disk n) deviceID) as [[j|e] d']; intros [= <- <-]; by apply Hquiet.
Qed.

Definition created_ids (acks : list start_ack) : list string :=
  omap (fun a => match a with AckCreated r => Some (OperationID r) | AckFinished _ => None end) acks.

Lemma elem_of_created_ids id acks :
  id ∈ created_ids acks <-> exists r, AckCreated r ∈ acks /\ OperationID r = id.
Proof.
  unfold created_ids. rewrite list_elem_of_omap. split.
  - intros ([r|r] & Hin & [=]). eauto.
  - intros (r & Hin & <-). exists (AckCreated r). done.
Qed.

Lemma start_run_keeps deviceID acks ops n a n' :
  keeps_node deviceID acks n -> start_run deviceID ops n = (a, n') ->
  keeps_node deviceID (acks ++ (ack_record <$> a)) n' /\ NoDup (created_ids a) /\
  forall r0 r, r0 ∈ acks -> AckCreated r ∈ a -> OperationID r0 <> OperationID r.
Proof using CL.
  revert acks n a. induction ops as [|op ops IH]; intros acks n a Hk; cbn [start_run].
  { intros [= <- <-]. rewrite app_nil_r. split_and!; [done|constructor|by intros ? ? ? ?%not_elem_of_nil]. }
  destruct (start_step deviceID op n) as [a1 n1] eqn:Es.
  destruct (start_run deviceID ops n1) as [a2 n2] eqn:Er. intros [= <- <-].
  destruct (start_step_keeps _ _ _ _ _ _ Hk Es) as (Hk1 & Hlen & Hc1).
  destruct (IH _ _ _ Hk1 Er) as (Hk2 & Hnd & Hfresh).
  rewrite fmap_app, app_assoc. split_and!; [done| |].
  - unfold created_ids. rewrite omap_app. apply NoDup_app. split_and!; [| |fold (created_ids a2); done].
    + destruct a1 as [|[r|r] [|? ?]]; simpl in Hlen; [constructor|apply NoDup_singleton|lia|constructor|lia].
    + intros id (r & Hr & <-)%elem_of_created_ids (r' & Hr' & He)%elem_of_created_ids.
      apply (Hfresh r r'); [|done|done]. apply elem_of_app. right. by apply (list_elem_of_fmap_2 ack_record _ (AckCreated r)).
  - intros r0 r Hr0 [Hr|Hr]%elem_of_app; [by apply Hc1|]. apply (Hfresh r0 r); [|done]. apply elem_of_app. by left.
Qed.

Lemma start_run_from_file deviceID ops d a n :
  start_run deviceID ops (Down d) = (a, n) ->
  keeps_node deviceID (ack_record <$> a) n /\ NoDup (created_ids a).
Proof using CL.
  intros H. destruct (start_run_keeps deviceID [] ops (Down d) a n) as (Hk & Hnd & _); [|done|done].
  by intros r0 ?%not_elem_of_nil.
Qed.

Lemma finished_terminal deviceID ops n a n' r :
  start_run deviceID ops n = (a, n') -> AckFinished r ∈ a -> terminal (SStatus r) = true.
Proof using MO.
  revert n a. induction ops as [|op ops IH]; intros n a; cbn [start_run].
  { intros [= <- <-] Hr. by apply not_elem_of_nil in Hr. }
  destruct (start_step deviceID op n) as [a1 n1] eqn:Es.
  destruct (start_run deviceID ops n1) as [a2 n2] eqn:Er. intros [= <- <-] [Hr|Hr]%elem_of_app; [|by eapply IH].
  unfold start_step in Es. destruct op as [f now id q|f now id status sid msg acc|now id msg|f now], n as [j|d];
    repeat case_match; simplify_eq; try (by apply not_elem_of_nil in Hr); apply list_elem_of_singleton in Hr; simplify_eq.
  pose proof (Finish_spec f now id status sid msg acc j) as Hspec. cbv zeta in Hspec.
  match goal with H : FinishWithPromptOutcome _ _ _ _ _ _ _ _ = _ |- _ => rewrite H in Hspec end.
  destruct Hspec as (r0 & Hk & [(Hns & -> & ->)|(Hst & -> & _ & _ & Ht & _)]); [|done].
  match goal with H : starting _ = true |- _ => unfold starting, Lookup in H;
    destruct (is_ok _) in H; [rewrite Hk in H; bool_hyps; done|done] end.
Qed.

Lemma in_memory_lookup deviceID j r0 :
  wf_journal deviceID j -> in_memory r0 (records j) ->
  exists r, records j !! operationKey (deviceHash j) (OperationID r0) = Some r /\ evolves r0 r /\ sound (deviceHash j) r.
Proof using MO.
  intros [_ Hwf] (r & Hr & Hev). exists r. destruct (Hwf _ _ Hr) as [Hk Hs].
  rewrite <- (ev_op _ _ Hev), <- (sound_key _ _ Hs), Hk. done.
Qed.

Lemma Begin_known f now id q j r :
  records j !! operationKey (deviceHash j) id = Some r -> OperationID r = id ->
  validateOperationID id = Ok tt -> validateRequest q = Ok tt ->
  Begin f now id q j = (if decide (binding r = q) then Began r false else BeginError (ConflictError id), j).
Proof.
  intros Hk Hid Hop Hq. unfold Begin. rewrite Hop, Hq. cbn [mbind res_bind]. rewrite Hk.
  rewrite (bool_decide_true (OperationID r = id)) by done. cbn [negb orb].
  unfold sameRequest, binding. destruct q as [a p d t]. cbn [rqAgentType rqProjectDir rqPromptDigest rqAttachmentsDigest].
  destruct (decide (mkRequest _ _ _ _ = _)) as [[= -> -> -> ->]|Hne]; [by rewrite !bool_decide_true|].
  destruct (_ && _)%bool eqn:E; [|done]. bool_hyps. congruence.
Qed.

(** C33: over the whole life of a device, from whatever file it starts with, in
    every sequence of operations, system-call failures, crashes and restarts,
    [Begin] answers [created] at most once for an operation id. The adapter is
    invoked on that answer only, so a duplicated or retried request never
    creates a second native thread. *)
Theorem start_authorised_once deviceID ops d acks n :
  start_run deviceID ops (Down d) = (acks, n) -> NoDup (created_ids acks).
Proof using CL. intros H. by apply start_run_from_file in H as [_ ?]. Qed.

(** what a caller was told is what every later caller is told. If the
    process is up, a [Begin] that repeats an acknowledged operation id changes
    nothing: with the same request it answers with the operation's record, not
    created, and with any other valid request it is a conflict. If the result
    had been acknowledged as final, the status, the session and the acceptance
    of the prompt in that answer are the acknowledged ones. *)
Theorem acknowledged_start_is_replayed deviceID ops d acks j a :
  start_run deviceID ops (Down d) = (acks, Up j) -> a ∈ acks ->
  exists r, (forall f now q, validateRequest q = Ok tt ->
      Begin f now (OperationID (ack_record a)) q j =
        (if decide (binding (ack_record a) = q) then Began r false
         else BeginError (ConflictError (OperationID (ack_record a))), j)) /\
    match a with
    | AckFinished r0 => SStatus r = SStatus r0 /\ SessionID r = SessionID r0 /\ PromptAccepted r = PromptAccepted r0
    | AckCreated _ => True
    end.
Proof using CL.
  intros H Ha. destruct (start_run_from_file _ _ _ _ _ H) as [[Hwf Hmem _] _].
  destruct (in_memory_lookup deviceID j (ack_record a)) as (r & Hr & Hev & Hs); [done|by apply Hmem, list_elem_of_fmap_2|].
  exists r. split.
  - intros f now q Hq. rewrite (Begin_known f now _ q j r); [by rewrite (ev_binding _ _ Hev)|done|apply Hev| |done].
    rewrite <- (ev_op _ _ Hev). apply Hs.
  - destruct a as [r0|r0]; [done|]. apply (ev_outcome _ _ Hev). by eapply finished_terminal.
Qed.

(** C36: every record of a running journal, however it got there, is under the
    hash of its own operation id, has a valid operation id, binding and session
    id and a known status, and is marked owned only with a session id and an
    accepted prompt. *)
Theorem start_records_well_typed deviceID ops d acks j k r :
  start_run deviceID ops (Down d) = (acks, Up j) -> records j !! k = Some r ->
  k = operationKey (hashString deviceID) (OperationID r) /\
  validateOperationID (OperationID r) = Ok tt /\ validateRequest (binding r) = Ok tt /\
  knownStatus (SStatus r) = true /\
  len (SessionID r) <= maxSessionIDBytes /\ ValidString (SessionID r) = true /\
  (SStatus r = StatusOwned -> is_empty (TrimSpace (SessionID r)) = false /\ PromptAccepted r = true).
Proof using CL.
  intros H Hr. destruct (start_run_from_file _ _ _ _ _ H) as [[[Hh Hwf] _ _] _].
  destruct (Hwf _ _ Hr) as [<- [Hop Hb Hk Hs Ho [Hl Hv]]]. rewrite <- Hh. done.
Qed.

(** ** Loading *)

Lemma load_records_complete hash now l m c :
  NoDup (Key <$> l) -> (forall r, r ∈ l -> validateRecord hash r = Ok tt /\ m !! Key r = None) ->
  exists m', load_records hash now (m, c) l =
    Ok (m', (c || existsb (fun r => bool_decide (SStatus r = StatusStarting)) l)%bool).
Proof.
  revert m c. induction l as [|r l IH]; intros m c Hnd Hl; cbn [load_records existsb].
  { exists m. by rewrite orb_false_r. }
  rewrite fmap_cons in Hnd. apply NoDup_cons in Hnd as [Hk Hnd].
  destruct (Hl r) as [Hv Hm]; [by left|]. unfold load_record at 1. rewrite Hv. cbn [mbind res_bind]. rewrite Hm.
  destruct (IH (<[Key r := recover (now (Key r)) r]> m) (c || bool_decide (SStatus r = StatusStarting))%bool Hnd)
    as [m' Hm'].
  - intros q Hq. destruct (Hl q) as [Hvq Hmq]; [by right|]. split; [done|].
    rewrite lookup_insert_ne; [done|]. intros He. apply Hk. rewrite He. by apply list_elem_of_fmap_2.
  - exists m'. by rewrite orb_assoc.
Qed.

Lemma document_keys_NoDup hash recs :
  wf_records hash recs -> NoDup (Key <$> Records (coerce_disk (document hash recs))).
Proof using MO.
  intros Hwf. unfold coerce_disk, document, sort_starts. cbn [Records].
  assert (Key <$> (coerce_record <$> merge_sort start_before (range_values recs)) ≡ₚ (map_to_list recs).*1) as ->.
  { rewrite (merge_sort_Permutation start_before (range_values recs)), range_values_perm.
    rewrite <- !list_fmap_compose. erewrite list_fmap_ext; [reflexivity|]. intros i [k r] Hi.
    apply list_elem_of_lookup_2, elem_of_map_to_list in Hi. destruct (Hwf _ _ Hi) as [Hk Hs].
    change (Key (coerce_record r) = k). by rewrite (coerce_record_sound hash). }
  apply NoDup_fst_map_to_list.
Qed.

(** a journal written to its file is read back: if the messages are within
    bounds and valid UTF-8 then loading accepts the document and gives the map
    that was written, with each start that was still open closed as
    indeterminate. *)
Theorem persisted_starts_reload hash recs data now :
  wf_records hash recs -> (forall k r, recs !! k = Some r -> message_ok r) -> ValidString hash = true ->
  marshalIndent (document hash recs) = Ok data -> file_size data <= maxJournalBytes ->
  exists changed, load_document io_ok hash now data = Ok (map_imap (fun k r => Some (recover (now k) r)) recs, changed) /\
    (changed = false -> map_imap (fun k r => Some (recover (now k) r)) recs = recs).
Proof using CL.
  intros Hwf Hmsg Hhash Hm Hsize.
  destruct (unmarshal_marshalIndent _ _ I Hm) as (dk & Hu & ->).
  assert (forall r, r ∈ Records (coerce_disk (document hash recs)) <-> exists k, recs !! k = Some r) as Helem.
  { intros r. unfold coerce_disk. cbn [Records]. rewrite list_elem_of_fmap. split.
    - intros (q & -> & [k Hk]%elem_of_document). exists k. destruct (Hwf _ _ Hk) as [_ Hs], (Hmsg _ _ Hk) as [_ Hv].
      rewrite (coerce_record_sound hash), coerceUTF8_valid by done. rewrite Hk. by destruct q.
    - intros [k Hk]. exists r. destruct (Hwf _ _ Hk) as [_ Hs], (Hmsg _ _ Hk) as [_ Hv].
      rewrite (coerce_record_sound hash), coerceUTF8_valid by done. split; [by destruct r|]. apply elem_of_document. eauto. }
  destruct (load_records_complete hash now (Records (coerce_disk (document hash recs))) ∅ false) as [m' Hl].
  { by apply document_keys_NoDup. }
  { intros r [k Hk]%Helem. destruct (Hwf _ _ Hk) as [_ Hs]. split; [|by rewrite lookup_empty].
    apply validateRecord_ok. split; [done|by eapply Hmsg]. }
  destruct (load_records_spec _ _ _ _ _ _ _ Hl) as (_ & Hin & Hout).
  assert (m' = map_imap (fun k r => Some (recover (now k) r)) recs) as ->.
  { apply map_eq. intros k. rewrite map_lookup_imap. destruct (recs !! k) as [r|] eqn:Hk; cbn [mbind option_bind].
    - destruct (Hwf _ _ Hk) as [<- _]. destruct (Hin r) as [_ Hr]; [apply Helem; eauto|done].
    - destruct (m' !! k) as [q|] eqn:Hq; [|done]. exfalso.
      destruct (Hout _ _ Hq) as [Hq'|(r & [k' Hk']%Helem & -> & _)]; [by rewrite lookup_empty in Hq'|].
      destruct (Hwf _ _ Hk') as [<- _]. congruence. }
  eexists. split.
  - unfold load_document. cbn [sys io_ok wrap mbind res_bind]. apply Z.ltb_ge in Hsize. rewrite Hsize.
    cbn [fail_if mbind res_bind]. rewrite Hu. cbn [wrap mbind res_bind].
    change (Version (coerce_disk (document hash recs)) =? journalVersion) with true.
    change (DeviceHash (coerce_disk (document hash recs))) with (coerceUTF8 hash).
    rewrite coerceUTF8_valid, bool_decide_true by done. cbn [negb fail_if mbind res_bind]. exact Hl.
  - cbn [orb]. intros Hex. apply map_eq. intros k. rewrite map_lookup_imap.
    destruct (recs !! k) as [r|] eqn:Hk; cbn [mbind option_bind]; [|done]. f_equal. unfold recover.
    rewrite bool_decide_false; [done|]. intros Hst.
    assert (existsb (fun r => bool_decide (SStatus r = StatusStarting)) (Records (coerce_disk (document hash recs))) = true)
      as Ht; [|congruence].
    apply existsb_exists. exists r. split; [apply list_elem_of_In, Helem; eauto|by apply bool_decide_true].
Qed.

(** after a load that succeeded no record is left as starting, and each is
    one [validateRecord] accepts: a start interrupted by a crash is never
    reported as still running, nor dispatched again. *)
Theorem load_closes_open_starts f now d deviceID j d' k r :
  Load f now d deviceID = (Ok j, d') -> records j !! k = Some r ->
  SStatus r <> StatusStarting /\ validateRecord (hashString deviceID) r = Ok tt.
Proof using MO.
  unfold Load. destruct (is_empty (TrimSpace deviceID)); [done|]. destruct d as [data|].
  2: { intros [= <- <-]. cbn [records]. by rewrite lookup_empty. }
  destruct (sys f OpOpen); [|done]. destruct (load_document _ _ _ _) as [[recs changed]|e] eqn:El; [|done].
  destruct (load_document_spec _ _ _ _ _ _ El) as (dk & _ & _ & Hl).
  assert (recs !! k = Some r -> SStatus r <> StatusStarting /\ validateRecord (hashString deviceID) r = Ok tt) as Hgoal.
  { intros Hr. apply load_records_spec in Hl as (_ & Hin & Hout).
    destruct (Hout k r Hr) as [Hr'|(q & Hq & -> & ->)]; [by rewrite lookup_empty in Hr'|].
    split; [apply recover_not_starting|]. destruct (Hin q Hq) as [[Hs Hmsg]%validateRecord_ok _].
    apply validateRecord_ok. split; [by apply recover_sound|]. unfold recover. case_match; [|done]. done. }
  destruct changed; [|by intros [= <- <-]].
  destruct (persist f recs (mkJournal (hashString deviceID) recs (Some data))) as [[[]|e] j'] eqn:Ep; [|done].
  apply start_persist_spec in Ep as (_ & Hr' & _). intros [= <- <-]. by rewrite Hr'.
Qed.

(** a result whose message is not valid UTF-8 can lock the daemon out. The
    bound of 2048 bytes is applied to the message as it came, the encoder then
    writes three bytes for each invalid one, and [Load] refuses the longer
    message: once such a result has been written, no start of the process can
    load the journal, and [main] exits. *)
Theorem unencodable_message_blocks_restart f now deviceID id status sid msg acc j r j' f' now' :
  wf_journal deviceID j -> starting (Lookup id j) = true ->
  FinishWithPromptOutcome f now id status sid msg acc j = (Ok r, j') ->
  maxTerminalMessageBytes < len (coerceUTF8 (Message r)) ->
  is_ok (Load f' now' (disk j') deviceID).1 = false.
Proof using CL.
  intros [Hh Hwf] Hst HF Hlen. pose proof (Finish_spec f now id status sid msg acc j) as H. cbv zeta in H.
  rewrite HF in H. destruct H as (r0 & Hk & [(Hns & -> & ->)|(Hs0 & Hr & Hh' & Hrec & Ht & Ho & Hl & Hv & data & Hm & Hd)]).
  { unfold starting, Lookup in Hst. destruct (is_ok _) in Hst; [|done]. rewrite Hk in Hst. by bool_hyps. }
  destruct (Hwf _ _ Hk) as [Hk0 Hsound].
  assert (sound (deviceHash j) r) as Hsr.
  { rewrite Hr. apply sound_with_outcome; [done|by apply not_starting_terminal|done|done]. }
  destruct (unmarshal_marshalIndent _ _ I Hm) as (dk & Hu & ->).
  unfold Load. rewrite Hd. destruct (is_empty (TrimSpace deviceID)); [done|]. destruct (sys f' OpOpen); [|done].
  destruct (load_document _ _ _ _) as [[recs changed]|e] eqn:El; [|done]. exfalso.
  destruct (load_document_spec _ _ _ _ _ _ El) as (dk & Hu' & _ & Hl').
  rewrite Hu in Hu'. injection Hu' as <-. apply load_records_spec in Hl' as (_ & Hin & _).
  destruct (Hin (coerce_record r)) as [[_ [Hbound _]]%validateRecord_ok _].
  { unfold coerce_disk. cbn [Records]. apply list_elem_of_fmap_2, elem_of_document.
    exists (operationKey (deviceHash j) id). by rewrite Hrec, lookup_insert_eq. }
  unfold coerce_record in Hbound. cbn [Message] in Hbound. lia.
Qed.
End Journal.

(** ** Witnesses *)

(** A codec whose files are the coerced documents. *)
#[local] Instance doc_codec : Codec diskJournal := {
  file := diskJournal;
  file_size d := Z.of_nat (List.length (Records d));
  marshalIndent d := Ok (coerce_disk d);
  unmarshal d := Ok d
}.

#[local] Instance doc_codec_laws : StartCodecLaws.
Proof. split. intros d f _ [= <-]. by exists (coerce_disk d). Qed.

#[local] Existing Instance canonical_order.

Definition w_digest : string := promptDigest "hello".
Definition w_request : Request := mkRequest "codex" "posix:/home/neko/project" w_digest "".
Definition w_now (k : string) : Z := 7.

(** A thread is started and finishes; the process crashes and comes back. *)
Definition w_ops : list start_op :=
  [ SRestart io_ok w_now; SBegin io_ok 1 "op-1" w_request; SBegin io_ok 2 "op-1" w_request;
    SFinish io_ok 3 "op-1" StatusOwned "thread-1" "" true; SRestart io_ok w_now ].

Definition w_run := Eval vm_compute in start_run "device-1" w_ops (Down None).
Definition w_acks : list start_ack := w_run.1.
Definition w_journal : Journal := match w_run.2 with Up j => j | Down _ => mkJournal "" ∅ None end.

Lemma w_run_eq : start_run "device-1" w_ops (Down None) = (w_acks, Up w_journal).
Proof. by_vm. Qed.

Lemma start_authorised_once_witness :
  start_run "device-1" w_ops (Down None) = (w_acks, Up w_journal) /\ created_ids w_acks = ["op-1"] /\ NoDup (created_ids w_acks).
Proof.
  split_and!; [apply w_run_eq|by_vm|].
  apply (start_authorised_once "device-1" w_ops None w_acks (Up w_journal)). apply w_run_eq.
Defined.

Definition w_finished : StartRecord := Eval vm_compute in
  with_outcome (new_record (operationKey (hashString "device-1") "op-1") "op-1" w_request 1)
    StatusOwned "thread-1" true "" 3.

Lemma acknowledged_start_is_replayed_witness :
  AckFinished w_finished ∈ w_acks /\
  exists r, (forall f now q, validateRequest q = Ok tt ->
      Begin f now "op-1" q w_journal =
        (if decide (w_request = q) then Began r false else BeginError (ConflictError "op-1"), w_journal)) /\
    (SStatus r = StatusOwned /\ SessionID r = "thread-1" /\ PromptAccepted r = true).
Proof.
  assert (AckFinished w_finished ∈ w_acks) as Hin by (right; left).
  split; [exact Hin|].
  exact (acknowledged_start_is_replayed "device-1" w_ops None w_acks w_journal (AckFinished w_finished) w_run_eq Hin).
Defined.

Definition w_key : string := Eval vm_compute in operationKey (hashString "device-1") "op-1".

Lemma w_journal_lookup : records w_journal !! w_key = Some w_finished.
Proof. by_vm. Qed.

Lemma start_records_well_typed_witness :
  records w_journal !! w_key = Some w_finished /\ w_key = operationKey (hashString "device-1") "op-1".
Proof.
  split; [apply w_journal_lookup|].
  exact (proj1 (start_records_well_typed "device-1" w_ops None w_acks w_journal w_key w_finished w_run_eq w_journal_lookup)).
Defined.

(** A journal with a start that is still open. *)
Definition w_open : StartRecord := Eval vm_compute in
  new_record (operationKey (hashString "device-1") "op-1") "op-1" w_request 1.
Definition w_hash : string := Eval vm_compute in hashString "device-1".
Definition w_recs : gmap string StartRecord := {[ w_key := w_open ]}.
Definition w_data : file diskJournal := Eval vm_compute in coerce_disk (document w_hash w_recs).
Definition w_open_journal : Journal := mkJournal w_hash w_recs (Some w_data).

Lemma w_open_sound : sound w_hash w_open.
Proof. split; [by_vm..|done|split; by vm_compute]. Qed.

Lemma w_recs_wf : wf_records w_hash w_recs.
Proof. intros k r Hr. unfold w_recs in Hr. apply lookup_singleton_Some in Hr as [<- <-]. split; [done|apply w_open_sound]. Qed.

Lemma persisted_starts_reload_witness :
  exists changed, load_document io_ok w_hash w_now w_data = Ok (map_imap (fun k r => Some (recover (w_now k) r)) w_recs, changed) /\
    (changed = false -> map_imap (fun k r => Some (recover (w_now k) r)) w_recs = w_recs).
Proof.
  apply (persisted_starts_reload w_hash w_recs w_data w_now w_recs_wf).
  - intros k r Hr. unfold w_recs in Hr. apply lookup_singleton_Some in Hr as [<- <-]. split; by vm_compute.
  - by_vm.
  - by_vm.
  - by vm_compute.
Defined.

Definition w_loaded := Eval vm_compute in Load io_ok w_now (Some w_data) "device-1".
Definition w_recovered : StartRecord := Eval vm_compute in recover 7 w_open.

Lemma load_closes_open_starts_witness :
  exists j, Load io_ok w_now (Some w_data) "device-1" = (Ok j, disk j) /\
    records j !! w_key = Some w_recovered /\ SStatus w_recovered <> StatusStarting.
Proof.
  exists (match w_loaded.1 with Ok j => j | Err _ => w_open_journal end).
  split; [by_vm|]. split; [by_vm|].
  refine (proj1 (load_closes_open_starts io_ok w_now (Some w_data) "device-1"
    (match w_loaded.1 with Ok j => j | Err _ => w_open_journal end) w_loaded.2 w_key w_recovered _ _)); by_vm.
Defined.

(** 700 bytes that are not UTF-8, as a tool that prints in another encoding
    leaves them: 2100 bytes once encoded. *)
Definition w_garbled : string := of_codes (replicate 700 255).

Definition w_failed := Eval vm_compute in
  FinishWithPromptOutcome io_ok 3 "op-1" StatusFailed "" w_garbled false w_open_journal.
Definition w_failed_journal : Journal := Eval vm_compute in w_failed.2.
Definition w_failed_record : StartRecord := Eval vm_compute in
  match w_failed.1 with Ok r => r | Err _ => w_open end.

Lemma unencodable_message_blocks_restart_witness :
  starting (Lookup "op-1" w_open_journal) = true /\
  FinishWithPromptOutcome io_ok 3 "op-1" StatusFailed "" w_garbled false w_open_journal = (Ok w_failed_record, w_failed_journal) /\
  is_ok (Load io_ok w_now (disk w_failed_journal) "device-1").1 = false.
Proof.
  assert (starting (Lookup "op-1" w_open_journal) = true) as H1 by by_vm.
  assert (FinishWithPromptOutcome io_ok 3 "op-1" StatusFailed "" w_garbled false w_open_journal
          = (Ok w_failed_record, w_failed_journal)) as H2 by by_vm.
  split; [exact H1|]. split; [exact H2|].
  apply (unencodable_message_blocks_restart io_ok 3 "device-1" "op-1" StatusFailed "" w_garbled false
    w_open_journal w_failed_record w_failed_journal io_ok w_now).
  - split; [by_vm|]. change (deviceHash w_open_journal) with w_hash. apply w_recs_wf.
  - exact H1.
  - exact H2.
  - by vm_compute.
Defined.
