(* ===== verification/StartThreadSpec.v ===== *)
(** * What the thread-start coordinator promises

    The agent's native starter is called at most once for an operation id, only
    after every check passed, and only with the directory of a project the
    daemon has discovered; a thread is reported as owned only on positive
    evidence; a handler that was told to go on ends with one durable result; and
    downloaded attachments do not outlive a start that did not take them over. *)

From stdpp Require Import base tactics list gmap strings.
From Stdlib Require Import Ascii String ZArith Lia.
From S2P Require Import Prelude GoStrings GoPath Sha256 StartJournal StartJournalSpec StartThread.

(** ** Project directories *)

Section Paths.
Context `{GU : GoUnicode}.

Lemma normalize_posix_form raw s :
  has_prefix "/" raw = true -> normalize_posix raw = Ok s ->
  s = "posix:/" +:+ join_byte slash (List.filter kept_segment (split_byte slash raw)) /\
  containsParentSegment (split_byte slash raw) = false.
Proof.
  unfold normalize_posix. destruct (containsParentSegment _) eqn:E; [done|]. intros Hp [= <-]. split; [|done].
  unfold Clean. rewrite Hp. rewrite clean_segments_no_parent; [done|].
  apply forallb_forall. intros w Hw. apply negb_true_iff. unfold containsParentSegment in E.
  destruct (String.eqb w "..") eqn:Ew; [|done].
  assert (existsb (fun part => String.eqb part "..") (split_byte slash raw) = true); [|congruence].
  apply existsb_exists. eauto.
Qed.

Lemma normalize_branches value s :
  normalizeProjectDir value = Ok s ->
  exists slashed,
    (isWindowsDriveAbsolute slashed = true /\ normalize_drive slashed = Ok s) \/
    (normalize_unc slashed = Ok s) \/
    (has_prefix "/" (TrimSpace value) = true /\ normalize_posix (TrimSpace value) = Ok s).
Proof.
  unfold normalizeProjectDir.
  destruct (is_empty (TrimSpace value)); [done|]. destruct (contains_byte _ _); [done|].
  destruct (has_prefix "//./" _); [done|]. set (sl := strip_extended _). intros H. exists sl. revert H.
  destruct (isWindowsDriveAbsolute sl) eqn:E1; [by left|].
  destruct (match byte_at 1 sl with Some c => _ | None => _ end); [done|].
  destruct (has_prefix "//" sl); [by right; left|].
  destruct (has_prefix "/" (TrimSpace value)); [by right; right|done].
Qed.

Lemma windows_not_posix a b : "windows:" +:+ a <> "posix:" +:+ b.
Proof. done. Qed.

(** the comparison key of a POSIX directory is the path without its empty
    and [.] elements; a path with a [..] element has no key, so no spelling of a
    directory outside a project can be given the key of one inside it. *)
Theorem posix_key_exact value s :
  normalizeProjectDir value = Ok s -> has_prefix "posix:" s = true ->
  s = "posix:/" +:+ join_byte slash (List.filter kept_segment (split_byte slash (TrimSpace value))) /\
  ".." ∉ split_byte slash (TrimSpace value).
Proof.
  intros H Hp. destruct (normalize_branches value s H) as (sl & [[_ Hd]|[Hu|[Hr Hx]]]).
  - unfold normalize_drive in Hd. destruct (containsParentSegment _); [done|]. by injection Hd as <-.
  - unfold normalize_unc in Hu. destruct (split_byte slash (drop_bytes 2 sl)) as [|a [|b l]]; [done|done|].
    destruct (_ || _)%bool; [done|]. destruct (containsParentSegment _); [done|]. by injection Hu as <-.
  - destruct (normalize_posix_form _ _ Hr Hx) as [-> Hc]. split; [done|]. intros Hin.
    unfold containsParentSegment in Hc.
    assert (existsb (fun part => String.eqb part "..") (split_byte slash (TrimSpace value)) = true); [|congruence].
    apply existsb_exists. exists "..". split; [by apply list_elem_of_In|done].
Qed.

Lemma first_candidate_spec h requested key discovered dir :
  first_candidate h requested key discovered = Some dir ->
  exists candidate, candidate ∈ discovered /\ try_candidate h requested key candidate = Some dir.
Proof.
  induction discovered as [|c l IH]; [done|]. cbn [first_candidate].
  destruct (try_candidate h requested key c) eqn:E.
  - intros [= ->]. exists c. split; [by left|done].
  - intros H. destruct (IH H) as (c' & Hc & Ht). exists c'. split; [by right|done].
Qed.

(** What the coordinator knows about the directory it starts a thread in: it is
    the canonical path of one of the discovered projects, it is a directory,
    and what was asked for names the same place. *)
Record discovered_dir (h : host) (dirs : list string) (requested dir : string) : Prop := {
  dd_candidate : exists candidate key resolved,
    candidate ∈ dirs /\
    normalizeProjectDir requested = Ok key /\ normalizeProjectDir candidate = Ok key /\
    canonicalNativeProjectDir h candidate = Ok (dir, resolved) /\
    exists asked, canonicalNativeProjectDir h requested = Ok (asked, resolved) /\
      (windows h = false -> asked = dir) /\ (windows h = true -> EqualFold asked dir = true)
}.

Lemma resolve_spec h requested dirs dir :
  resolveCurrentProjectDir h requested dirs = Ok dir -> discovered_dir h dirs requested dir.
Proof.
  unfold resolveCurrentProjectDir. intros H. apply bind_ok in H as (key & Hk & H).
  destruct (first_candidate _ _ _ _) as [d|] eqn:E; [|done]. injection H as ->.
  apply first_candidate_spec in E as (c & Hc & Ht). unfold try_candidate in Ht.
  destruct (normalizeProjectDir c) as [ck|] eqn:Hck; [|done].
  destruct (negb (String.eqb key ck)) eqn:Ekey; [done|]. apply negb_false_iff, String.eqb_eq in Ekey as ->.
  destruct (canonicalNativeProjectDir h requested) as [[rc rr]|] eqn:Hrc; [|done].
  destruct (canonicalNativeProjectDir h c) as [[cc cr]|] eqn:Hcc; [|done].
  destruct (negb (String.eqb rr cr)) eqn:Er; [done|]. apply negb_false_iff, String.eqb_eq in Er as ->.
  destruct (windows h && negb (EqualFold rc cc))%bool eqn:E1; [done|].
  destruct (negb (windows h) && negb (String.eqb rc cc))%bool eqn:E2; [done|]. injection Ht as ->.
  split. exists c, ck, cr. split_and!; try done. exists rc. split_and!; [done| |].
  - intros Hw. rewrite Hw in E2. cbn [negb andb] in E2. by apply negb_false_iff, String.eqb_eq in E2.
  - intros Hw. rewrite Hw in E1. cbn [andb] in E1. by apply negb_false_iff in E1.
Qed.

Lemma canonical_is_dir h value dir key :
  canonicalNativeProjectDir h value = Ok (dir, key) ->
  exists target, EvalSymlinks h (filepath_Clean h (TrimSpace value)) = Ok target /\
    StatIsDir h target = Ok true /\ dir = filepath_Clean h target.
Proof.
  unfold canonicalNativeProjectDir. intros H.
  apply bind_ok in H as (n & _ & H). apply bind_ok in H as ([] & _ & H). apply bind_ok in H as ([] & _ & H).
  apply bind_ok in H as ([] & _ & H). apply bind_ok in H as (t & Ht%wrap_ok & H).
  apply bind_ok in H as (b & Hb%wrap_ok & H). apply bind_ok in H as ([] & Hd%fail_if_ok & H).
  apply bind_ok in H as (k & _ & [= <- <-]). exists t. apply negb_false_iff in Hd as ->. done.
Qed.
End Paths.

(** ** One handler *)

Definition native_ids (effs : list effect) : list string :=
  omap (fun e => match e with StartNative id _ => Some id | _ => None end) effs.

Definition emitted (effs : list effect) : list threadStartEvent :=
  omap (fun e => match e with Emit e => Some e | _ => None end) effs.

Lemma native_ids_release dir : native_ids (release dir) = [].
Proof. unfold release. by case_match. Qed.

Lemma emitted_release dir : emitted (release dir) = [].
Proof. unfold release. by case_match. Qed.

Lemma native_ids_app a b : native_ids (a ++ b) = native_ids a ++ native_ids b.
Proof. apply omap_app. Qed.

Lemma emitted_app a b : emitted (a ++ b) = emitted a ++ emitted b.
Proof. apply omap_app. Qed.

Lemma emitted_cons e l : emitted (Emit e :: l) = e :: emitted l.
Proof. done. Qed.

Section Handler.
Context `{MO : MapOrder} `{CD : !Codec diskJournal} `{GU : GoUnicode}.
Implicit Types (env : start_env) (cmd : threadStartCommand) (p : prepared) (c : conclusion) (j : Journal).

Lemma prepare_attachments_spec env cmd :
  match prepare_attachments env cmd with
  | (effs, inl c) => native_ids effs = [] /\ emitted effs = [] /\ fStatus c = StatusFailed /\
      (forall m, env_materialize env = Some m -> cAttachments cmd <> [] ->
         let dir := mDir (m (cOperationID cmd) (cAttachments cmd)) in dir <> "" -> effs = [RemoveAll dir])
  | (effs, inr (dir, files, suffix)) => effs = [] /\
      ((cAttachments cmd = [] /\ dir = "" /\ files = []) \/
       exists m, env_materialize env = Some m /\ cAttachments cmd <> [] /\
         m (cOperationID cmd) (cAttachments cmd) = mkMaterialized dir files suffix None /\
         List.length files = List.length (cAttachments cmd))
  end.
Proof.
  unfold prepare_attachments. destruct (cAttachments cmd) as [|r l] eqn:Ea; [by auto|].
  destruct (env_materialize env) as [m|] eqn:Em; [|by split_and!].
  set (x := m (cOperationID cmd) (r :: l)).
  destruct (negb (bool_decide (mErr x = None)) || negb (Nat.eqb (List.length (mFiles x)) (List.length (r :: l))))%bool eqn:E.
  - split_and!; [apply native_ids_release|apply emitted_release|done|]. intros m' [= <-] _. cbv zeta. intros Hd.
    fold x in Hd |- *. unfold release. destruct (mDir x); [done|]. done.
  - apply orb_false_elim in E as [E1 E2]. apply negb_false_iff in E1, E2. bool_hyps. apply Nat.eqb_eq in E2.
    split; [done|]. right. exists m. split_and!; try done. fold x. destruct x as [d f s e]. cbn in *. by subst e.
Qed.

(** What has been checked when the starter is called. *)
Record checked env cmd (request : ThreadStartRequest) : Prop := {
  ck_prompt : is_empty (TrimSpace (cPrompt cmd)) = false;
  ck_dir : discovered_dir (env_host env) (env_dirs env) (cProjectDir cmd) (tsProjectDir request);
  ck_starter : env_starter env = true;
  ck_probe : exists capability, env_probe env = Ok capability /\ Available capability = true /\
    (cAttachments cmd = [] \/ AttachmentMode capability <> "unsupported");
  ck_files : List.length (tsAttachments request) = List.length (cAttachments cmd)
}.

Lemma handle_prepare_spec env cmd :
  match handle_prepare env cmd with
  | (effs, inl c) => native_ids effs = [] /\ emitted effs = [] /\ fStatus c = StatusFailed
  | (effs, inr p) => effs = [] /\ checked env cmd (pRequest p)
  end.
Proof.
  unfold handle_prepare.
  destruct (is_empty (TrimSpace (cPrompt cmd))) eqn:Ep; [done|].
  destruct (resolveCurrentProjectDir _ _ _) as [dir|e] eqn:Er; [|done].
  destruct (env_starter env) eqn:Es; [|done]. cbn [negb].
  destruct (env_probe env) as [cap|e] eqn:Eprobe; [|done].
  destruct (Available cap) eqn:Ea; [|done]. cbn [negb].
  destruct (negb (bool_decide (cAttachments cmd = [])) && String.eqb (AttachmentMode cap) "unsupported")%bool eqn:Em; [done|].
  pose proof (prepare_attachments_spec env cmd) as H.
  destruct (prepare_attachments env cmd) as [effs [c|[[d fs] suffix]]].
  - destruct H as (H1 & H2 & H3 & _). done.
  - destruct H as [-> H]. split; [done|]. split; cbn [pRequest tsProjectDir tsAttachments].
    + done.
    + by apply resolve_spec.
    + done.
    + exists cap. split_and!; [done|done|]. apply andb_false_iff in Em as [Em|Em].
      * apply negb_false_iff in Em. bool_hyps. by left.
      * right. intros Heq. rewrite Heq in Em. done.
    + destruct H as [(-> & _ & ->)|(m & _ & _ & _ & Hl)]; done.
Qed.

(** The positive evidence for [StatusOwned]. *)
Record evidence env p (sessionID : string) : Prop := {
  ev_result : exists result err, env_start env (pRequest p) = Returned result err /\
    TrimSpace (tsSessionID result) = sessionID /\ (Created result || tsPromptAccepted result)%bool = true /\
    ((tsPromptAccepted result = true /\ err = None) \/ PromptKnown (Some None) ∈ env_select env);
  ev_session : sessionID <> "";
  ev_owned : OwnershipKnown true ∈ env_select env \/ env_recheck env = true
}.

Lemma wait_loop_resolved events od pd hc own acc err own' acc' err' :
  wait_loop events od pd hc own acc err = Resolved own' acc' err' ->
  (own' = true -> own = true \/ OwnershipKnown true ∈ events) /\
  (acc' = true -> acc = true \/ PromptKnown (Some None) ∈ events).
Proof.
  revert od pd hc own acc err. induction events as [|e events IH]; intros od pd hc own acc err; cbn [wait_loop].
  { destruct (od && pd)%bool; [|done]. intros [= -> -> _]. auto. }
  destruct (od && pd)%bool; [intros [= -> -> _]; by auto|].
  destruct e as [b|r|]; [destruct od|destruct hc|done]; intros H; apply IH in H as [H1 H2]; split; intros Ht.
  all: try (destruct (H1 Ht) as [H'|H']; [|by right; right]; by auto).
  all: try (destruct (H2 Ht) as [H'|H']; [|by right; right]; by auto).
  - destruct (H1 Ht) as [-> |H']; [right; by left|by right; right].
  - destruct (H2 Ht) as [H'|H']; [|by right; right]. right. destruct r as [[e|]|]; try done. by left.
Qed.

Lemma conclude_owned sid crossed own acc err panic :
  fStatus (conclude sid crossed own acc err panic) = StatusOwned ->
  own = true /\ acc = true /\ fSessionID (conclude sid crossed own acc err panic) = sid /\
  fAccepted (conclude sid crossed own acc err panic) = true.
Proof.
  unfold conclude. destruct (own && acc)%bool eqn:E; [apply andb_prop in E as [-> ->]; done|].
  destruct own; [done|]. destruct (_ || _)%bool; done.
Qed.

Lemma conclude_terminal sid crossed own acc err panic :
  terminal (fStatus (conclude sid crossed own acc err panic)) = true.
Proof. unfold conclude. repeat case_match; done. Qed.

Lemma handle_native_spec env cmd p :
  let '(effs, r) := handle_native env cmd p in
  native_ids effs = [cOperationID cmd] /\ emitted effs = [] /\ StartNative (cOperationID cmd) (pRequest p) ∈ effs /\
  forall c, r = Some c -> terminal (fStatus c) = true /\
    (fStatus c = StatusOwned -> fAccepted c = true /\ evidence env p (fSessionID c)).
Proof.
  unfold handle_native. destruct (invokeNativeThreadStart _) as [[st err] panic] eqn:Ei.
  set (sid := TrimSpace (tsSessionID st)). set (crossed := (Created st || tsPromptAccepted st)%bool).
  set (acc := (tsPromptAccepted st && _ && _)%bool). set (owns := (crossed && HasPromptResult st || acc)%bool).
  assert (acc = true -> tsPromptAccepted st = true /\ err = None /\ panic = None) as Hacc.
  { unfold acc. intros H. bool_hyps. done. }
  assert (forall call a (b : bool), native_ids (StartNative call (pRequest p) :: (if owns then [] else release a) ++ (if b then release a else []))
            = [call]) as Hn.
  { intros call a b. change (call :: native_ids ((if owns then [] else release a) ++ (if b then release a else [])) = [call]).
    rewrite native_ids_app. by destruct owns, b; rewrite ?native_ids_release. }
  assert (forall call a (b : bool), emitted (StartNative call (pRequest p) :: (if owns then [] else release a) ++ (if b then release a else []))
            = []) as He.
  { intros call a b. change (emitted ((if owns then [] else release a) ++ (if b then release a else [])) = []).
    rewrite emitted_app. by destruct owns, b; rewrite ?emitted_release. }
  destruct (crossed && negb (is_empty sid))%bool eqn:Ecross.
  - apply andb_prop in Ecross as [Hcross Hsid%negb_true_iff%is_empty_false].
    destruct (wait_loop _ _ _ _ _ _ _) as [own acc' err'| |] eqn:Ew.
    + split_and!; [apply Hn|apply He|by left|]. intros c [= <-]. split; [apply conclude_terminal|].
      intros Hc. destruct (conclude_owned _ _ _ _ _ _ Hc) as (Hown & -> & Hs & Ha). split; [done|]. rewrite Hs.
      apply wait_loop_resolved in Ew as [H1 H2].
      split; [|done|].
      * destruct (env_start env (pRequest p)) as [result err0|msg]; cbn [invokeNativeThreadStart] in Ei; [|by injection Ei as <- <- <-].
        injection Ei as <- <- <-. exists result, err0. split_and!; [done|done|done|].
        destruct (H2 eq_refl) as [Hx|Hx]; [left; by destruct (Hacc Hx) as (? & ? & _)|by right].
      * apply orb_prop in Hown as [Hown|Hown]; [|by right]. destruct (H1 Hown) as [?|?]; [done|by left].
    + specialize (Hn (cOperationID cmd) (pDir p) false). specialize (He (cOperationID cmd) (pDir p) false).
      rewrite app_nil_r in Hn, He. split_and!; [done|done|by left|]. by intros c [= <-].
    + specialize (Hn (cOperationID cmd) (pDir p) false). specialize (He (cOperationID cmd) (pDir p) false).
      rewrite app_nil_r in Hn, He. split_and!; [done|done|by left|done].
  - specialize (Hn (cOperationID cmd) (pDir p) false). specialize (He (cOperationID cmd) (pDir p) false).
    rewrite app_nil_r in Hn, He. split_and!; [done|done|by left|].
    intros c [= <-]. split; [apply conclude_terminal|]. intros Hc.
    destruct (conclude_owned _ _ _ _ _ _ Hc) as (? & _). done.
Qed.

Lemma handle_run_spec env cmd :
  let '(effs, r) := handle_run env cmd in
  native_ids effs ⊆+ [cOperationID cmd] /\ emitted effs = [] /\
  forall c, r = Some c -> terminal (fStatus c) = true.
Proof.
  unfold handle_run. pose proof (handle_prepare_spec env cmd) as Hp.
  destruct (handle_prepare env cmd) as [effs [c|p]].
  - destruct Hp as (-> & -> & Hc). split_and!; [apply submseteq_nil_l|done|]. by intros c' [= <-]; rewrite Hc.
  - destruct Hp as [-> _]. pose proof (handle_native_spec env cmd p) as Hn.
    destruct (handle_native env cmd p) as [effs r]. destruct Hn as (Hn & He & _ & Hc).
    rewrite app_nil_l, Hn. split_and!; [done|done|]. intros c Hr. by apply Hc.
Qed.
End Handler.

(** ** Attachments

    The directory the attachments were downloaded into: the one [prepared], or
    the one the download failed in. *)
Section Attachments.
Context `{GU : GoUnicode}.
Implicit Types (env : start_env) (cmd : threadStartCommand) (p : prepared).

(** The starter has taken over the cleanup: its call crossed the boundary with
    the prompt's result still to come, or accepted the prompt. *)
Definition starter_owns (call : start_call) : bool :=
  match call with
  | Returned r err => ((Created r || tsPromptAccepted r) && HasPromptResult r
                       || tsPromptAccepted r && bool_decide (err = None))%bool
  | Panicked _ => false
  end.

Definition removals (dir : string) (effs : list effect) : nat :=
  List.length (List.filter (fun e => match e with RemoveAll d => String.eqb d dir | _ => false end) effs).

Lemma removals_app dir a b : removals dir (a ++ b) = (removals dir a + removals dir b)%nat.
Proof. unfold removals. by rewrite List.filter_app, length_app. Qed.

Lemma removals_release dir : dir <> "" -> removals dir (release dir) = 1%nat.
Proof. intros Hd. unfold release, removals. destruct dir; [done|]. cbn [is_empty List.filter]. by rewrite String.eqb_refl. Qed.

(** a directory of downloaded attachments is removed at most once while a
    start is handled, and it is removed unless the starter owns it: when the
    call did not cross the native boundary, panicked, or refused the prompt with
    no result to come, the files are gone before the result is written. *)
Theorem attachments_are_released env cmd p :
  pDir p <> "" ->
  let effs := (handle_native env cmd p).1 in
  (removals (pDir p) effs <= 1)%nat /\
  (starter_owns (env_start env (pRequest p)) = false -> removals (pDir p) effs = 1%nat) /\
  (starter_owns (env_start env (pRequest p)) = true ->
     removals (pDir p) effs = 0%nat \/ exists r err, env_start env (pRequest p) = Returned r err /\ HasPromptResult r = true).
Proof.
  intros Hd. cbv zeta. unfold handle_native.
  assert (starter_owns (env_start env (pRequest p)) =
    (let '(st, err, panic) := invokeNativeThreadStart (env_start env (pRequest p)) in
     ((Created st || tsPromptAccepted st) && HasPromptResult st
      || tsPromptAccepted st && bool_decide (err = None) && bool_decide (panic = None))%bool)) as ->.
  { unfold starter_owns. destruct (env_start _ _) as [r err|m]; [|done]. cbn [invokeNativeThreadStart].
    rewrite (bool_decide_true (None = None)) by done. by rewrite andb_true_r. }
  destruct (env_start env (pRequest p)) as [r err|m] eqn:Ec; cbn [invokeNativeThreadStart].
  2: { cbn -[removals release]. unfold release at 1 2 3. destruct (pDir p) eqn:E; [done|]. unfold removals. cbn.
       rewrite Ascii.eqb_refl, String.eqb_refl. cbn. split_and!; [lia|done|done]. }
  set (owns := ((Created r || tsPromptAccepted r) && HasPromptResult r || _ && _ && _)%bool).
  assert (forall id (b : bool), let effs := StartNative id (pRequest p) :: (if owns then [] else release (pDir p)) ++
             (if (b && owns)%bool then release (pDir p) else []) in
           removals (pDir p) effs = (if owns then if b then 1 else 0 else 1)%nat) as Hcount.
  { intros id b. cbv zeta. change (StartNative id (pRequest p) :: ?l) with ([StartNative id (pRequest p)] ++ l).
    rewrite !removals_app. change (removals (pDir p) [StartNative id (pRequest p)]) with 0%nat.
    destruct owns, b; cbn [andb]; rewrite ?removals_release by done; done. }
  assert (forall effs (b : bool), removals (pDir p) effs = (if owns then if b then 1 else 0 else 1)%nat ->
            (b = true -> HasPromptResult r = true) ->
            (removals (pDir p) effs <= 1)%nat /\ (owns = false -> removals (pDir p) effs = 1%nat) /\
            (owns = true -> removals (pDir p) effs = 0%nat \/
               exists r0 err0, Returned r err = Returned r0 err0 /\ HasPromptResult r0 = true)) as Hdone.
  { intros effs b -> Hb. split_and!; [destruct owns, b; lia|by intros ->|].
    intros ->. destruct b; [right|by left]. exists r, err. split; [done|by apply Hb]. }
  destruct (_ && negb _)%bool; [destruct (wait_loop _ _ _ _ _ _ _)|]; cbn [fst].
  - apply (Hdone _ (HasPromptResult r)); [apply Hcount|done].
  - apply (Hdone _ false); [|done]. rewrite <- (Hcount (cOperationID cmd) false). cbn [andb]. by rewrite app_nil_r.
  - apply (Hdone _ false); [|done]. rewrite <- (Hcount (cOperationID cmd) false). cbn [andb]. by rewrite app_nil_r.
  - apply (Hdone _ false); [|done]. rewrite <- (Hcount (cOperationID cmd) false). cbn [andb]. by rewrite app_nil_r.
Qed.

(** ** The wait ends *)

(** The two goroutines deliver, or the daemon stops. [waitForOwnership] always
    delivers: its timer does. *)
Definition delivers (events : list select_event) : Prop :=
  DaemonStopped ∈ events \/ ((exists b, OwnershipKnown b ∈ events) /\ exists r, PromptKnown r ∈ events).

Lemma wait_loop_ends events od pd hc own acc err :
  (pd = false -> hc = true) ->
  DaemonStopped ∈ events \/
    ((od = true \/ exists b, OwnershipKnown b ∈ events) /\ (pd = true \/ exists r, PromptKnown r ∈ events)) ->
  wait_loop events od pd hc own acc err <> Blocked.
Proof.
  revert od pd hc own acc err. induction events as [|e events IH]; intros od pd hc own acc err Hhc H; cbn [wait_loop].
  { destruct H as [?%not_elem_of_nil|[[->|[b ?%not_elem_of_nil]] [->|[r ?%not_elem_of_nil]]]]; done. }
  destruct (od && pd)%bool eqn:E; [done|].
  destruct e as [b|r|]; [destruct od|destruct hc|done]; apply IH; try done.
  all: setoid_rewrite elem_of_cons in H; clear -H Hhc E; destruct pd; naive_solver.
Qed.
End Attachments.

(** ** The coordinator *)

Section Coordinator.
Context `{MO : MapOrder} `{CD : !Codec diskJournal} `{GU : GoUnicode}.
Context (refs_json : list Ref -> string).
Implicit Types (env : start_env) (cmd : threadStartCommand) (j : Journal).

Lemma handle_run_returns env cmd : delivers (env_select env) -> (handle_run env cmd).2 <> None.
Proof.
  intros Hdel. unfold handle_run. destruct (handle_prepare env cmd) as [effs [c|p]]; [done|].
  unfold handle_native. destruct (invokeNativeThreadStart _) as [[st err] panic].
  destruct (_ && negb _)%bool; [|done].
  destruct (wait_loop _ _ _ _ _ _ _) eqn:Ew; [done|done|]. exfalso. revert Ew. apply wait_loop_ends.
  - intros [_ H]%orb_false_elim. by apply negb_false_iff in H.
  - destruct Hdel as [?|[? ?]]; [by left|right; split; by right].
Qed.

Lemma handle_begin_fresh f now cmd j effs j' :
  handle_begin refs_json f now cmd j = (effs, true, j') ->
  exists q r, Begin f now (cOperationID cmd) q j = (Began r true, j') /\ effs = [Emit (eventFromStartRecord r)].
Proof.
  unfold handle_begin. destruct (is_empty (cAgentType cmd)); [done|].
  destruct (normalizeProjectDir (cProjectDir cmd)) as [dir|e]; [|done].
  destruct (Begin _ _ _ _ _) as [[r b|e] j1] eqn:E; [|done]. intros [= <- -> <-]. eauto.
Qed.

Lemma handle_begin_stale f now cmd j effs j' :
  handle_begin refs_json f now cmd j = (effs, false, j') ->
  j' = j \/ exists q res, Begin f now (cOperationID cmd) q j = (res, j') /\ forall r, res <> Began r true.
Proof.
  unfold handle_begin. destruct (is_empty (cAgentType cmd)); [intros [= _ <-]; by left|].
  destruct (normalizeProjectDir (cProjectDir cmd)) as [dir|e]; [|intros [= _ <-]; by left].
  destruct (Begin _ _ _ _ _) as [[r b|e] j1] eqn:E.
  - intros [= _ -> <-]. right. by eexists _, _.
  - intros [= _ <-]. right. by eexists _, _.
Qed.

Lemma handle_begin_native f now cmd j effs fresh j' :
  handle_begin refs_json f now cmd j = (effs, fresh, j') -> native_ids effs = [].
Proof. unfold handle_begin. intros H. repeat case_match; by simplify_eq. Qed.

Lemma handle_finish_native f now cmd c j : native_ids (handle_finish f now cmd c j).1 = [].
Proof. unfold handle_finish. by repeat case_match. Qed.

(** A starting record gets a terminal status, in memory at least, and that is
    what is reported. *)
Lemma handle_finish_starting f now cmd c j r :
  validateOperationID (cOperationID cmd) = Ok tt ->
  records j !! operationKey (deviceHash j) (cOperationID cmd) = Some r ->
  SStatus r = StatusStarting -> OperationID r = cOperationID cmd ->
  let '(effs, j') := handle_finish f now cmd c j in
  exists e r', emitted effs = [e] /\ eOperationID e = cOperationID cmd /\ terminal (eState e) = true /\
    Lookup (cOperationID cmd) j' = Some r' /\ SStatus r' = eState e /\
    (eState e = StatusOwned -> fStatus c = StatusOwned).
Proof.
  intros Hop Hk Hst Hid. unfold handle_finish.
  pose proof (Finish_spec f now (cOperationID cmd) (fStatus c) (fSessionID c) (fMessage c) (fAccepted c) j) as H.
  cbv zeta in H. destruct (FinishWithPromptOutcome _ _ _ _ _ _ _ _) as [[fin|e] j'].
  - destruct H as (r0 & Hk0 & [(Hns & -> & ->)|(_ & -> & Hh & Hr & Ht & _)]); rewrite Hk in Hk0; injection Hk0 as <-; [done|].
    eexists _, _. split_and!; [done|exact Hid|exact Ht| |done|done].
    unfold Lookup. rewrite Hop. cbn [is_ok]. by rewrite Hh, Hr, lookup_insert_eq.
  - destruct H as (Hh & Hr & _). unfold FailClosed. rewrite Hop. cbn [is_ok]. rewrite Hh, Hr, Hk.
    rewrite bool_decide_true by done. eexists _, _.
    split_and!; [done|exact Hid|done| |done|done].
    unfold Lookup. rewrite Hop. cbn [is_ok deviceHash records]. by rewrite lookup_insert_eq.
Qed.

(** a command that was told to go on is brought to an end. Once the
    starter's goroutines deliver or the daemon stops, [Handle] returns, having
    emitted exactly two events for the operation: that it is starting, and one
    terminal result, which is also what the journal now answers. No failed
    write, panic or missing answer leaves the operation as starting. *)
Theorem handle_concludes f1 f2 now1 now2 env cmd j effs j' effs1 j1 :
  delivers (env_select env) ->
  handle_begin refs_json f1 now1 cmd j = (effs1, true, j1) ->
  Handle refs_json f1 f2 now1 now2 env cmd j = (effs, j') ->
  exists e1 e2 r, emitted effs = [e1; e2] /\
    eOperationID e1 = cOperationID cmd /\ eState e1 = StatusStarting /\
    eOperationID e2 = cOperationID cmd /\ terminal (eState e2) = true /\
    Lookup (cOperationID cmd) j' = Some r /\ SStatus r = eState e2.
Proof.
  intros Hdel Hb HH. unfold Handle in HH. rewrite Hb in HH. cbn [negb] in HH.
  destruct (handle_begin_fresh _ _ _ _ _ _ Hb) as (q & r & HB & ->).
  pose proof (Begin_spec f1 now1 (cOperationID cmd) q j) as Hs. rewrite HB in Hs.
  destruct Hs as (Hop & _ & -> & _ & Hh & Hr & _).
  pose proof (handle_run_returns env cmd Hdel) as Hret. pose proof (handle_run_spec env cmd) as Hrun.
  destruct (handle_run env cmd) as [effs2 [c|]]; [|done]. destruct Hrun as (_ & He2 & _).
  pose proof (handle_finish_starting f2 now2 cmd c j1 _ Hop
    (ltac:(rewrite Hh, Hr; apply lookup_insert_eq)) eq_refl eq_refl) as Hf.
  destruct (handle_finish f2 now2 cmd c j1) as [effs3 j2]. injection HH as <- <-.
  destruct Hf as (e & r' & He & Hid & Ht & Hl & Hs' & _).
  eexists _, e, r'. rewrite emitted_cons, emitted_app, He2, He. done.
Qed.

(** the starter is called only when everything before it holds: the prompt
    is not blank, the directory is the canonical path of a project discovered
    on this machine (a directory, and the very place the request names), the
    agent has a starter whose probe reported it available, and every attachment
    was downloaded. *)
Theorem native_boundary_guarded env cmd id request :
  StartNative id request ∈ (handle_run env cmd).1 -> id = cOperationID cmd /\ checked env cmd request.
Proof.
  unfold handle_run. pose proof (handle_prepare_spec env cmd) as Hp.
  assert (forall effs, native_ids effs = [] -> StartNative id request ∉ effs) as Hno.
  { intros effs Hn Hin. assert (id ∈ native_ids effs) as Hid; [|rewrite Hn in Hid; by apply not_elem_of_nil in Hid].
    apply list_elem_of_omap. eauto. }
  destruct (handle_prepare env cmd) as [effs [c|p]].
  - destruct Hp as (Hn & _). intros Hin. by apply Hno in Hin.
  - destruct Hp as [-> Hck]. destruct (handle_native env cmd p) as [effs r] eqn:En. cbn [fst app]. intros Hin.
    assert (forall rest, native_ids rest = [] ->
      StartNative id request ∈ StartNative (cOperationID cmd) (pRequest p) :: rest ->
      id = cOperationID cmd /\ checked env cmd request) as Hone.
    { intros rest Hn [[= -> ->]|H]%elem_of_cons; [done|]. by apply Hno in H. }
    unfold handle_native in En. destruct (invokeNativeThreadStart _) as [[st err] panic].
    repeat case_match; simplify_eq; eapply Hone; try exact Hin; rewrite ?native_ids_app; repeat case_match;
      rewrite ?native_ids_release; done.
Qed.

(** a thread is reported as owned only on positive evidence. When [Handle]
    emits the state owned, either the journal had that result already, or the
    starter returned a session id across the native boundary, the agent's own
    store confirmed that session, and the first prompt was accepted, by the
    call itself or by its result channel. *)
Theorem owned_event_needs_evidence f1 f2 now1 now2 env cmd j e :
  Emit e ∈ (Handle refs_json f1 f2 now1 now2 env cmd j).1 -> eState e = StatusOwned ->
  (exists r, records j !! operationKey (deviceHash j) (cOperationID cmd) = Some r /\ SStatus r = StatusOwned) \/
  exists p, (handle_prepare env cmd).2 = inr p /\ exists sessionID, evidence env p sessionID.
Proof.
  unfold Handle. intros Hin Hst.
  assert (forall effs, e ∈ emitted effs <-> Emit e ∈ effs) as Hem.
  { intros effs. unfold emitted. rewrite list_elem_of_omap. split; [intros ([e'|?|?] & ? & [=]); by subst|eauto]. }
  destruct (handle_begin refs_json f1 now1 cmd j) as [[effs1 [|]] j1] eqn:Hb.
  - right. cbn [negb] in Hin. destruct (handle_begin_fresh _ _ _ _ _ _ Hb) as (q & r & HB & ->).
    pose proof (Begin_spec f1 now1 (cOperationID cmd) q j) as Hs. rewrite HB in Hs.
    destruct Hs as (Hop & _ & -> & _ & Hh & Hr & _).
    pose proof (handle_run_spec env cmd) as Hrun. destruct (handle_run env cmd) as [effs2 oc] eqn:Ehr.
    destruct Hrun as (_ & He2 & _).
    assert (Emit e ∈ match oc with Some c => (handle_finish f2 now2 cmd c j1).1 | None => [] end) as Hin3.
    { destruct oc as [c|]; [|].
      - destruct (handle_finish f2 now2 cmd c j1) as [effs3 j2]. cbn [fst] in Hin |- *.
        apply Hem in Hin. apply Hem. cbn [app] in Hin. rewrite emitted_cons, emitted_app, He2 in Hin.
        apply elem_of_cons in Hin as [-> |Hin]; done.
      - apply Hem in Hin. cbn [app fst] in Hin. rewrite emitted_cons, He2 in Hin.
        by apply list_elem_of_singleton in Hin as ->. }
    destruct oc as [c|]; [|by apply not_elem_of_nil in Hin3].
    pose proof (handle_finish_starting f2 now2 cmd c j1 _ Hop
      (ltac:(rewrite Hh, Hr; apply lookup_insert_eq)) eq_refl eq_refl) as Hf.
    destruct (handle_finish f2 now2 cmd c j1) as [effs3 j2]. destruct Hf as (e' & r' & He & _ & _ & _ & _ & Hc).
    apply Hem in Hin3. cbn [fst] in Hin3. rewrite He in Hin3. apply list_elem_of_singleton in Hin3 as ->.
    specialize (Hc Hst). unfold handle_run in Ehr. pose proof (handle_prepare_spec env cmd) as Hp.
    destruct (handle_prepare env cmd) as [effsp [c'|p]].
    + injection Ehr as <- <-. destruct Hp as (_ & _ & Hf). congruence.
    + exists p. split; [done|]. pose proof (handle_native_spec env cmd p) as Hn.
      destruct (handle_native env cmd p) as [effsn rn]. injection Ehr as <- ->.
      destruct Hn as (_ & _ & _ & Hn). destruct (Hn c eq_refl) as [_ Hev]. destruct (Hev Hc) as [_ Hx]. eauto.
  - left. cbn [negb fst] in Hin. unfold handle_begin in Hb.
    destruct (is_empty (cAgentType cmd)). { injection Hb as <- <-. apply list_elem_of_singleton in Hin. by simplify_eq. }
    destruct (normalizeProjectDir _) as [dir|er]. 2: { injection Hb as <- <-. apply list_elem_of_singleton in Hin. by simplify_eq. }
    destruct (Begin _ _ _ _ _) as [[r b|er] jb] eqn:HB.
    + injection Hb as <- -> <-. apply list_elem_of_singleton in Hin. injection Hin as ->.
      match type of HB with Begin _ _ _ ?q _ = _ => pose proof (Begin_spec f1 now1 (cOperationID cmd) q j) as Hs end.
      rewrite HB in Hs. destruct Hs as (_ & Hk & _). eauto.
    + injection Hb as <- <-. apply list_elem_of_singleton in Hin. by simplify_eq.
Qed.

(** ** Many handlers, crashes, restarts *)

Context `{CL : !StartCodecLaws}.

Lemma start_run_snoc deviceID ops op n :
  start_run deviceID (ops ++ [op]) n =
    (let '(a, n1) := start_run deviceID ops n in let '(b, n2) := start_step deviceID op n1 in (a ++ b, n2)).
Proof using MO CD.
  revert n. induction ops as [|o ops IH]; intros n; cbn [start_run app].
  - destruct (start_step deviceID op n) as [b n2]. by rewrite app_nil_r.
  - destruct (start_step deviceID o n) as [a1 n1]. rewrite IH.
    destruct (start_run deviceID ops n1) as [a2 n2]. destruct (start_step deviceID op n2) as [b n3].
    by rewrite app_assoc.
Qed.

Lemma created_ids_app a b : created_ids (a ++ b) = created_ids a ++ created_ids b.
Proof. apply omap_app. Qed.

(** Every call of the starter, and every handler that may still call it, answers
    to a creation of its own in a run of the journal. *)
Definition accounted (deviceID : string) (d : option (file diskJournal)) (effs : list effect) (s : coordinator) : Prop :=
  exists ops acks, start_run deviceID ops (Down d) = (acks, node s) /\
    native_ids effs ++ (cOperationID <$> started s) ⊆+ created_ids acks.

Lemma accounted_journal deviceID d effs n s c op n' a s' c' effs' :
  accounted deviceID d effs (mkCoordinator n s c) -> start_step deviceID op n = (a, n') ->
  native_ids effs' = [] -> (cOperationID <$> s') ⊆+ (cOperationID <$> s) ++ created_ids a ->
  accounted deviceID d (effs ++ effs') (mkCoordinator n' s' c').
Proof using MO CD.
  intros (ops & acks & Hrun & Hsub) Hstep He Hs. exists (ops ++ [op]), (acks ++ a).
  cbn [node started] in *. split.
  - rewrite start_run_snoc, Hrun, Hstep. done.
  - rewrite native_ids_app, He, app_nil_r, created_ids_app.
    trans (native_ids effs ++ (cOperationID <$> s) ++ created_ids a).
    + by apply submseteq_skips_l.
    + rewrite app_assoc. by apply submseteq_skips_r.
Qed.

Lemma accounted_quiet deviceID d effs effs' n s c s' c' :
  accounted deviceID d effs (mkCoordinator n s c) ->
  native_ids effs' ++ (cOperationID <$> s') ⊆+ (cOperationID <$> s) ->
  accounted deviceID d (effs ++ effs') (mkCoordinator n s' c').
Proof using MO CD.
  intros (ops & acks & Hrun & Hsub) Hs. exists ops, acks. split; [done|]. cbn [node started] in *.
  rewrite native_ids_app, <- app_assoc. etrans; [|exact Hsub]. by apply submseteq_skips_l.
Qed.

Lemma finish_created f now id status sid msg acc (j : Journal) deviceID a n :
  start_step deviceID (SFinish f now id status sid msg acc) (Up j) = (a, n) -> created_ids a = [].
Proof using MO CD. cbn. intros H. repeat case_match; by simplify_eq. Qed.

Lemma coordinator_step_accounted deviceID d effs s1 effs' s2 :
  accounted deviceID d effs s1 -> coordinator_step refs_json deviceID s1 effs' s2 ->
  accounted deviceID d (effs ++ effs') s2.
Proof using MO CD GU.
  intros Hacc Hstep. destruct Hstep as [f now cmd j s c effs' fresh j' Hb|env cmd n sa sb c effs' r Hr
    |f now cmd r j s ca cb effs' j' Hf|now cmd message j s s' c c' Hs Hc|f now n s c n' Hre].
  - pose proof (handle_begin_native _ _ _ _ _ _ _ Hb) as Hn. destruct fresh.
    + destruct (handle_begin_fresh _ _ _ _ _ _ Hb) as (q & r & HB & _).
      pose proof (Begin_spec f now (cOperationID cmd) q j) as Hs. rewrite HB in Hs. destruct Hs as (_ & _ & Hr & _).
      eapply (accounted_journal _ _ _ _ _ _ (SBegin f now (cOperationID cmd) q)); [exact Hacc| |done|].
      * cbn. by rewrite HB.
      * rewrite Hr. cbn. rewrite (Permutation_app_comm (cOperationID <$> s)). done.
    + destruct (handle_begin_stale _ _ _ _ _ _ Hb) as [->|(q & res & HB & Hne)].
      * eapply accounted_quiet; [exact Hacc|]. by rewrite Hn.
      * eapply (accounted_journal _ _ _ _ _ _ (SBegin f now (cOperationID cmd) q) _ []); [exact Hacc| |done|].
        -- cbn. rewrite HB. destruct res as [r [|]|]; [by destruct (Hne r)|done..].
        -- by rewrite app_nil_r.
  - eapply accounted_quiet; [exact Hacc|]. pose proof (handle_run_spec env cmd) as Hrun. rewrite Hr in Hrun.
    destruct Hrun as (Hn & _). rewrite !fmap_app, fmap_cons, <- Permutation_middle.
    by apply (submseteq_skips_r _ _ [cOperationID cmd]).
  - unfold handle_finish in Hf.
    pose proof (handle_finish_native f now cmd r j) as Hn. unfold handle_finish in Hn. rewrite Hf in Hn. cbn [fst] in Hn.
    destruct (FinishWithPromptOutcome f now (cOperationID cmd) (fStatus r) (fSessionID r) (fMessage r) (fAccepted r) j)
      as [[fin|e] j1] eqn:HF.
    + injection Hf as <- <-.
      destruct (start_step deviceID (SFinish f now (cOperationID cmd) (fStatus r) (fSessionID r) (fMessage r) (fAccepted r)) (Up j))
        as [a n] eqn:Es.
      pose proof (finish_created _ _ _ _ _ _ _ _ _ _ _ Es) as Ha.
      assert (n = Up j1) as -> by (cbn in Es; rewrite HF in Es; by injection Es).
      eapply accounted_journal; [exact Hacc|exact Es|done|]. by rewrite Ha, app_nil_r.
    + assert (accounted deviceID d effs (mkCoordinator (Up j1) s (ca ++ (cmd, r) :: cb))) as Hacc1.
      { rewrite <- (app_nil_r effs). eapply (accounted_journal _ _ _ _ _ _
          (SFinish f now (cOperationID cmd) (fStatus r) (fSessionID r) (fMessage r) (fAccepted r)) _ []);
          [exact Hacc|cbn; by rewrite HF|done|]. by rewrite app_nil_r. }
      match goal with H : context [FailClosed ?x ?y ?m j1] |- _ =>
        eapply (accounted_journal _ _ _ _ _ _ (SFailClosed x y m) _ []); [exact Hacc1| |exact Hn|by rewrite app_nil_r];
        cbn; destruct (FailClosed x y m j1) as [[fc|] j2] end; by simplify_eq.
  - eapply (accounted_journal _ _ _ _ _ _ (SFailClosed now (cOperationID cmd) message) _ []);
      [exact Hacc|done|done|]. rewrite app_nil_r. by apply fmap_submseteq.
  - eapply accounted_journal; [exact Hacc|exact Hre|done|]. apply submseteq_nil_l.
Qed.

(** C3: however many handlers run at once, and however often writes fail,
    handlers panic or the process restarts, the native starter is called at most
    once for an operation id over the life of a device. *)
Theorem native_start_at_most_once deviceID d effs s :
  coordinator_run refs_json deviceID (mkCoordinator (Down d) [] []) effs s -> NoDup (native_ids effs).
Proof using MO CD GU CL.
  intros Hrun.
  assert (accounted deviceID d effs s) as (ops & acks & Hr & Hsub).
  { remember (mkCoordinator (Down d) [] []) as s0. induction Hrun as [s|s1 effs1 s2 effs2 s3 Hrun IH Hstep]; subst.
    - exists [], []. split; [done|]. apply submseteq_nil_l.
    - eapply coordinator_step_accounted; [by apply IH|exact Hstep]. }
  destruct (start_run_from_file _ _ _ _ _ Hr) as [_ Hnd].
  apply submseteq_Permutation in Hsub as [rest Hp]. rewrite Hp, !NoDup_app in Hnd. by destruct Hnd as [[? _] _].
Qed.
End Coordinator.

(** ** Witnesses *)

#[local] Existing Instance canonical_order.
#[local] Existing Instance doc_codec.
#[local] Existing Instance doc_codec_laws.

#[local] Instance ascii_unicode : GoUnicode := {
  ToLower := to_lower;
  EqualFold a b := String.eqb (to_lower a) (to_lower b)
}.

(** A POSIX machine without symbolic links. *)
Definition w_host : host := mkHost false Clean (has_prefix "/") Ok (fun _ => Ok true).
Definition w_refs_json (refs : list Ref) : string := foldr (fun r acc => URL r +:+ acc) "" refs.

Definition w_file : LocalFile := mkFile "/tmp/att/a.png" "a.png" "image/png".
Definition w_cmd : threadStartCommand :=
  mkCommand "op-1" "codex" "/home/neko/./project/" "hello" [mkRef "/api/attachments/1" "a.png" "image/png" "1"].

(** The starter creates a session and accepts the prompt through its channel. *)
Definition w_env : start_env :=
  mkEnv w_host ["/srv"; "/home/neko/project"] true
    (Ok (mkCapability true "" "app_server" "1" "native_image"))
    (Some (fun _ _ => mkMaterialized "/tmp/att" [w_file] " +a.png" None))
    (fun _ => Returned (mkStartResult "thread-1" true false true) None)
    [PromptKnown (Some None); OwnershipKnown true] false.

Lemma posix_key_exact_witness :
  normalizeProjectDir "/home/neko/./project/" = Ok "posix:/home/neko/project" /\
  ".." ∉ split_byte slash (TrimSpace "/home/neko/./project/").
Proof.
  assert (normalizeProjectDir "/home/neko/./project/" = Ok "posix:/home/neko/project") as H by by_vm.
  split; [exact H|].
  exact (proj2 (posix_key_exact "/home/neko/./project/" "posix:/home/neko/project" H ltac:(by_vm))).
Defined.

Definition w_prepared : prepared := Eval vm_compute in
  match (handle_prepare w_env w_cmd).2 with
  | inr p => p
  | inl _ => mkPrepared (mkStartRequest "" "" []) ""
  end.

Lemma attachments_are_released_witness :
  pDir w_prepared = "/tmp/att" /\ removals "/tmp/att" (handle_native w_env w_cmd w_prepared).1 = 1%nat /\
  (removals "/tmp/att" (handle_native w_env w_cmd w_prepared).1 <= 1)%nat.
Proof.
  split; [reflexivity|]. split; [by_vm|].
  exact (proj1 (attachments_are_released w_env w_cmd w_prepared ltac:(done))).
Defined.

Definition w_journal0 : Journal := mkJournal w_hash ∅ None.
Definition w_begun := Eval vm_compute in handle_begin w_refs_json io_ok 1 w_cmd w_journal0.
Definition w_handled := Eval vm_compute in Handle w_refs_json io_ok io_ok 1 2 w_env w_cmd w_journal0.

Lemma w_begun_eq : handle_begin w_refs_json io_ok 1 w_cmd w_journal0 = (w_begun.1.1, true, w_begun.2).
Proof. by_vm. Qed.

Lemma w_handled_eq : Handle w_refs_json io_ok io_ok 1 2 w_env w_cmd w_journal0 = (w_handled.1, w_handled.2).
Proof. by_vm. Qed.

Lemma w_delivers : delivers (env_select w_env).
Proof. right. split; [exists true; right; left|exists (Some None); left]. Qed.

Lemma handle_concludes_witness :
  exists e1 e2 r, emitted w_handled.1 = [e1; e2] /\
    eOperationID e1 = "op-1" /\ eState e1 = StatusStarting /\
    eOperationID e2 = "op-1" /\ terminal (eState e2) = true /\
    Lookup "op-1" w_handled.2 = Some r /\ SStatus r = eState e2.
Proof.
  exact (handle_concludes w_refs_json io_ok io_ok 1 2 w_env w_cmd w_journal0 w_handled.1 w_handled.2
    w_begun.1.1 w_begun.2 w_delivers w_begun_eq w_handled_eq).
Defined.

Lemma native_boundary_guarded_witness :
  StartNative "op-1" (pRequest w_prepared) ∈ (handle_run w_env w_cmd).1 /\
  tsProjectDir (pRequest w_prepared) = "/home/neko/project" /\ checked w_env w_cmd (pRequest w_prepared).
Proof.
  assert (StartNative "op-1" (pRequest w_prepared) ∈ (handle_run w_env w_cmd).1) as H.
  { replace (handle_run w_env w_cmd).1 with (StartNative "op-1" (pRequest w_prepared) :: [RemoveAll "/tmp/att"]) by by_vm.
    left. }
  split; [exact H|]. split; [by_vm|].
  exact (proj2 (native_boundary_guarded w_env w_cmd "op-1" (pRequest w_prepared) H)).
Defined.

Definition w_owned : threadStartEvent := mkEvent "op-1" "codex" StatusOwned "thread-1" true "".

Lemma owned_event_needs_evidence_witness :
  Emit w_owned ∈ (Handle w_refs_json io_ok io_ok 1 2 w_env w_cmd w_journal0).1 /\
  ((exists r, records w_journal0 !! operationKey (deviceHash w_journal0) "op-1" = Some r /\ SStatus r = StatusOwned) \/
   exists p, (handle_prepare w_env w_cmd).2 = inr p /\ exists sessionID, evidence w_env p sessionID).
Proof.
  assert (Emit w_owned ∈ (Handle w_refs_json io_ok io_ok 1 2 w_env w_cmd w_journal0).1) as H.
  { rewrite w_handled_eq. right. right. right. left. }
  split; [exact H|].
  exact (owned_event_needs_evidence w_refs_json io_ok io_ok 1 2 w_env w_cmd w_journal0 w_owned H eq_refl).
Defined.

(** A start, a crash while the starter runs, a restart, and the same command
    again. *)
Definition w_up : Journal := Eval vm_compute in
  match (start_step "device-1" (SRestart io_ok w_now) (Down None)).2 with Up j => j | Down _ => w_journal0 end.
Definition w_first := Eval vm_compute in handle_begin w_refs_json io_ok 1 w_cmd w_up.
Definition w_ran := Eval vm_compute in handle_run w_env w_cmd.
Definition w_back : Journal := Eval vm_compute in
  match (start_step "device-1" (SRestart io_ok w_now) (Up w_first.2)).2 with Up j => j | Down _ => w_journal0 end.
Definition w_again := Eval vm_compute in handle_begin w_refs_json io_ok 5 w_cmd w_back.
Definition w_run_effs : list effect := (((([] ++ []) ++ w_first.1.1) ++ w_ran.1) ++ []) ++ w_again.1.1.

Lemma w_coordinator_run :
  coordinator_run w_refs_json "device-1" (mkCoordinator (Down None) [] []) w_run_effs (mkCoordinator (Up w_again.2) [] []).
Proof.
  eapply run_step; [eapply run_step; [eapply run_step; [eapply run_step; [eapply run_step; [apply run_refl|]|]|]|]|].
  - apply (step_restart w_refs_json "device-1" io_ok w_now (Down None) [] [] (Up w_up)). by_vm.
  - apply (step_begin w_refs_json "device-1" io_ok 1 w_cmd w_up [] [] w_first.1.1 true w_first.2). by_vm.
  - apply (step_run w_refs_json "device-1" w_env w_cmd (Up w_first.2) [] [] [] w_ran.1 w_ran.2). by_vm.
  - apply (step_restart w_refs_json "device-1" io_ok w_now (Up w_first.2) [] _ (Up w_back)). by_vm.
  - apply (step_begin w_refs_json "device-1" io_ok 5 w_cmd w_back [] [] w_again.1.1 false w_again.2). by_vm.
Qed.

Lemma native_start_at_most_once_witness :
  native_ids w_run_effs = ["op-1"] /\ eState <$> emitted w_again.1.1 = [StatusIndeterminate] /\ NoDup (native_ids w_run_effs).
Proof.
  split; [by_vm|]. split; [by_vm|].
  exact (native_start_at_most_once w_refs_json "device-1" None w_run_effs (mkCoordinator (Up w_again.2) [] []) w_coordinator_run).
Defined.
