(* ===== verification/StartCapabilitySpec.v ===== *)
(** * What the start-capability cache promises

    One probe per agent at a time, and no caller waits for a probe that nobody
    is running. *)

From stdpp Require Import base tactics list gmap strings.
From Stdlib Require Import String ZArith Lia.
From S2P Require Import Prelude GoStrings StartThread StartCapability.

(** ** Tiers *)

Definition active_session (agentType : string) (now : Z) (s : session_activity) : Prop :=
  saAgentType s = agentType /\ (busy_status (saStatus s) = true \/ now - 15 * minute <= saLastActivity s).

Definition recent_session (agentType : string) (now : Z) (s : session_activity) : Prop :=
  saAgentType s = agentType /\ now - RecentSessionWindow <= saLastActivity s.

Lemma tier_loop_spec agentType now hasRecent sessions :
  match tier_loop agentType now hasRecent sessions with
  | startCapabilityActiveTier => exists s, Some s ∈ sessions /\ active_session agentType now s
  | startCapabilityRecentTier =>
      (forall s, Some s ∈ sessions -> ~ active_session agentType now s) /\
      (hasRecent = true \/ exists s, Some s ∈ sessions /\ recent_session agentType now s)
  | startCapabilityDormantTier =>
      hasRecent = false /\
      forall s, Some s ∈ sessions -> ~ active_session agentType now s /\ ~ recent_session agentType now s
  end.
Proof.
  revert hasRecent. induction sessions as [|[s|] sessions IH]; intros hasRecent; cbn [tier_loop].
  - destruct hasRecent; [split; [by intros s ?%not_elem_of_nil|by left]|split; [done|by intros s ?%not_elem_of_nil]].
  - destruct (String.eqb (saAgentType s) agentType) eqn:Ea; cbn [negb].
    2: { apply String.eqb_neq in Ea. specialize (IH hasRecent).
         unfold active_session, recent_session in *.
         destruct (tier_loop _ _ _ _); setoid_rewrite elem_of_cons; naive_solver. }
    apply String.eqb_eq in Ea. destruct (busy_status (saStatus s)) eqn:Eb.
    { exists s. split; [by left|]. split; [done|by left]. }
    destruct (saLastActivity s <? now - 15 * minute) eqn:E1; cbn [negb]; bool_hyps.
    2: { exists s. split; [by left|]. split; [done|by right]. }
    assert (~ active_session agentType now s) as Hna.
    { unfold active_session. intros [_ [?|?]]; [congruence|lia]. }
    specialize (IH (hasRecent || negb (saLastActivity s <? now - RecentSessionWindow))%bool).
    assert (recent_session agentType now s <-> (saLastActivity s <? now - RecentSessionWindow) = false) as Hr.
    { unfold recent_session. rewrite Z.ltb_ge. naive_solver. }
    destruct (tier_loop _ _ _ _); setoid_rewrite elem_of_cons.
    + naive_solver.
    + destruct IH as [IH1 IH2]. split; [naive_solver|].
      destruct IH2 as [[?|Hn]%orb_prop|?]; [by left|right; exists s|naive_solver].
      split; [by left|]. apply Hr. by apply negb_true_iff in Hn.
    + destruct IH as [[-> Hn]%orb_false_elim IH2]. split; [done|]. apply negb_false_iff in Hn.
      intros s' [[= ->]|Hs']; [|by apply IH2]. split; [done|]. rewrite Hr. congruence.
  - specialize (IH hasRecent). destruct (tier_loop _ _ _ _); setoid_rewrite elem_of_cons; naive_solver.
Qed.

(** the tier of an agent depends on its sessions as documented, whatever
    their order: active when one of them is busy or was used in the last fifteen
    minutes, recent when that fails and one was used in the last seven days,
    dormant otherwise. *)
Theorem tier_exact agentType sessions now :
  (startCapabilityTier agentType sessions now = startCapabilityActiveTier <->
     exists s, Some s ∈ sessions /\ active_session agentType now s) /\
  (startCapabilityTier agentType sessions now = startCapabilityDormantTier <->
     forall s, Some s ∈ sessions -> ~ active_session agentType now s /\ ~ recent_session agentType now s).
Proof.
  unfold startCapabilityTier. pose proof (tier_loop_spec agentType now false sessions) as H.
  destruct (tier_loop _ _ _ _); naive_solver.
Qed.

(** ** The system *)

(** Callers waiting for [agentType] at all. *)
Definition waiting_for (agentType : string) (w : list (string * nat)) : Z :=
  count (fun x => String.eqb x.1 agentType) w.

Record system_ok (s : cache_system) : Prop := {
  ok_single : NoDup (probing s);
  ok_inflight : forall a, a ∈ probing s <-> inFlight (entryLocked (entries s) a) = true;
  ok_done : forall a, inFlight (entryLocked (entries s) a) = true <-> is_Some (done (entryLocked (entries s) a));
  ok_fresh : forall a ch, done (entryLocked (entries s) a) = Some ch -> (ch < fresh s)%nat;
  ok_waiting : forall a ch, (a, ch) ∈ waiting s -> ch ∈ closed s \/ done (entryLocked (entries s) a) = Some ch;
  ok_waiters : forall a, waiters (entryLocked (entries s) a) = waiting_for a (waiting s);
  ok_result : forall a, hasResult (entryLocked (entries s) a) = true ->
    lastProbe (entryLocked (entries s) a) <= nextProbe (entryLocked (entries s) a)
}.

Lemma entryLocked_insert c a e b :
  entryLocked (<[a := e]> c) b = if decide (a = b) then e else entryLocked c b.
Proof. unfold entryLocked. destruct (decide (a = b)) as [->|Hne]; [by rewrite lookup_insert_eq|by rewrite lookup_insert_ne]. Qed.

Lemma entryLocked_empty b : entryLocked ∅ b = new_entry.
Proof. done. Qed.

Lemma waiting_for_cons a b ch w : waiting_for a ((b, ch) :: w) = (if decide (b = a) then 1 else 0) + waiting_for a w.
Proof.
  unfold waiting_for. rewrite count_cons. cbn [fst]. f_equal.
  destruct (decide (b = a)) as [->|Hne]; [by rewrite String.eqb_refl|].
  by apply String.eqb_neq in Hne as ->.
Qed.

Lemma waiting_for_middle a b ch w1 w2 :
  waiting_for a (w1 ++ (b, ch) :: w2) = (if decide (b = a) then 1 else 0) + waiting_for a (w1 ++ w2).
Proof. rewrite <- waiting_for_cons with (ch := ch). apply count_perm. symmetry. apply Permutation_middle. Qed.

Lemma probe_interval_pos tier : 0 < startCapabilityProbeInterval tier.
Proof. by destruct tier. Qed.

(** Changes of an entry that leave a probe, its channel and the waiters alone. *)
Lemma system_ok_update s a e :
  system_ok s ->
  let e0 := entryLocked (entries s) a in
  inFlight e = inFlight e0 -> done e = done e0 -> waiters e = waiters e0 ->
  (hasResult e = true -> lastProbe e <= nextProbe e) ->
  system_ok (mkSystem (<[a := e]> (entries s)) (fresh s) (probing s) (waiting s) (closed s)).
Proof.
  intros [H1 H2 H3 H4 H5 H6 H7]. cbv zeta. intros Ei Ed Ew Er.
  split; cbn [probing entries fresh waiting closed]; try done; intros b; rewrite ?entryLocked_insert;
    (destruct (decide (a = b)) as [<-|Hne]; [|first [apply H2|apply H3|apply H4|apply H5|apply H6|apply H7]]).
  - by rewrite Ei.
  - by rewrite Ei, Ed.
  - rewrite Ed. apply H4.
  - rewrite Ed. apply H5.
  - by rewrite Ew.
  - done.
Qed.

(** A probe starts. *)
Lemma system_ok_start s a e :
  system_ok s ->
  let e0 := entryLocked (entries s) a in
  inFlight e0 = false -> waiters e = waiters e0 -> (hasResult e = true -> lastProbe e <= nextProbe e) ->
  system_ok (mkSystem (<[a := with_probe e (fresh s)]> (entries s)) (S (fresh s)) (a :: probing s) (waiting s) (closed s)).
Proof.
  intros [H1 H2 H3 H4 H5 H6 H7]. cbv zeta. intros Hidle Ew Er.
  split; cbn [probing entries fresh waiting closed].
  - apply NoDup_cons. split; [|done]. rewrite H2, Hidle. done.
  - intros b. rewrite entryLocked_insert, elem_of_cons, H2.
    destruct (decide (a = b)) as [<-|Hne]; [naive_solver|]. naive_solver.
  - intros b. rewrite entryLocked_insert. destruct (decide (a = b)) as [<-|Hne]; [|done]. cbn. split; by eauto.
  - intros b ch. rewrite entryLocked_insert. destruct (decide (a = b)) as [<-|Hne]; [intros [= <-]; lia|].
    intros Hd. apply H4 in Hd. lia.
  - intros b ch Hw. rewrite entryLocked_insert. destruct (H5 b ch Hw) as [?|Hd]; [by left|].
    destruct (decide (a = b)) as [<-|Hne]; [|by right]. exfalso.
    assert (inFlight (entryLocked (entries s) a) = true) as Ht by (apply H3; rewrite Hd; eauto). congruence.
  - intros b. rewrite entryLocked_insert. destruct (decide (a = b)) as [<-|Hne]; [|done]. by rewrite <- H6, <- Ew.
  - intros b. rewrite entryLocked_insert. destruct (decide (a = b)) as [<-|Hne]; [done|by apply H7].
Qed.

Lemma system_ok_unwait c n p w1 w2 cl a ch :
  system_ok (mkSystem c n p (w1 ++ (a, ch) :: w2) cl) ->
  system_ok (mkSystem (stop_waiting a c) n p (w1 ++ w2) cl).
Proof.
  intros [H1 H2 H3 H4 H5 H6 H7]. cbn [probing entries fresh waiting closed] in *. unfold stop_waiting.
  split; cbn [probing entries fresh waiting closed]; try done;
    try (intros b; rewrite entryLocked_insert; destruct (decide (a = b)) as [<-|Hne]; [|first [apply H2|apply H3|apply H4|apply H5|apply H6|apply H7]]).
  - apply H2.
  - apply H3.
  - apply H4.
  - intros b ch' Hw. rewrite entryLocked_insert.
    assert ((b, ch') ∈ w1 ++ (a, ch) :: w2) as Hw' by (rewrite elem_of_app, elem_of_cons; rewrite elem_of_app in Hw; naive_solver).
    destruct (H5 b ch' Hw') as [?|Hd]; [by left|right]. by destruct (decide (a = b)) as [<-|].
  - intros b. specialize (H6 b). rewrite entryLocked_insert. rewrite waiting_for_middle in H6.
    destruct (decide (a = b)) as [<-|Hne]; [|done]. cbn [with_waiters waiters]. lia.
  - apply H7.
Qed.

Lemma cache_step_ok s s' : system_ok s -> cache_step s s' -> system_ok s'.
Proof.
  intros Hok Hstep. destruct Hstep as [impl now a tier s ans c' Hg|impl now a tier s ans c' Hg|waited a s ch c' Hp
    |waited a s cap c' Hp|waited a s c' Hp|a ch w1 w2 c n p cl Hc|a ch w1 w2 c n p cl|impl ans now tier a p1 p2 c n w cl ch c' Hs].
  - unfold getOrStart in Hg. destruct impl; cbn [negb] in Hg; [|injection Hg as _ <-; by destruct s].
    pose proof (ok_result _ Hok a) as Hr. pose proof (probe_interval_pos tier).
    destruct (inFlight (entryLocked (entries s) a)) eqn:Ei.
    + injection Hg as _ <-. by apply system_ok_update.
    + destruct (_ && _)%bool eqn:Ec; [|done]. injection Hg as _ <-. apply system_ok_update; try done.
      cbn. intros ->. lia.
  - unfold getOrStart in Hg. destruct impl; cbn [negb] in Hg; [|done].
    pose proof (ok_result _ Hok a) as Hr. pose proof (probe_interval_pos tier).
    destruct (inFlight (entryLocked (entries s) a)) eqn:Ei; [done|].
    destruct (_ && _)%bool eqn:Ec; [done|]. injection Hg as _ <-. apply system_ok_start; try done.
    cbn. intros ->. lia.
  - unfold probe_round in Hp. destruct (inFlight (entryLocked (entries s) a)) eqn:Ei.
    2: { destruct (_ && _)%bool; done. }
    injection Hp as <- <-. destruct Hok as [H1 H2 H3 H4 H5 H6 H7].
    destruct (proj1 (H3 a) Ei) as [ch Hch]. rewrite Hch. cbn [default].
    split; cbn [probing entries fresh waiting closed]; try done;
      try (intros b; rewrite ?entryLocked_insert; destruct (decide (a = b)) as [<-|Hne]; [|first [apply H2|apply H3|apply H4|apply H5|apply H6|apply H7]]).
    + apply H2.
    + apply H3.
    + apply H4.
    + intros b ch' [[= -> ->]|Hw]%elem_of_cons; rewrite entryLocked_insert; [rewrite decide_True by done; by right|].
      destruct (H5 b ch' Hw) as [?|Hd]; [by left|right]. by destruct (decide (a = b)) as [<-|].
    + intros b. rewrite entryLocked_insert, waiting_for_cons.
      destruct (decide (a = b)) as [<-|Hne]; [|apply H6]. cbn [with_waiters waiters]. specialize (H6 a). lia.
    + apply H7.
  - unfold probe_round in Hp. destruct (inFlight (entryLocked (entries s) a)) eqn:Ei; [done|].
    destruct (_ && _)%bool; [|done]. injection Hp as _ <-. apply system_ok_update; try done. apply Hok.
  - unfold probe_round in Hp. destruct (inFlight (entryLocked (entries s) a)) eqn:Ei; [done|].
    destruct (_ && _)%bool; [done|]. injection Hp as <-. apply system_ok_start; try done. apply Hok.
  - by eapply system_ok_unwait.
  - by eapply system_ok_unwait.
  - unfold store_probe in Hs. injection Hs as <- <-. destruct Hok as [H1 H2 H3 H4 H5 H6 H7].
    cbn [probing entries fresh waiting closed] in *.
    assert (NoDup (p1 ++ p2) /\ a ∉ p1 ++ p2) as [Hnd Hna].
    { rewrite <- Permutation_middle in H1. by apply NoDup_cons in H1 as [? ?]. }
    destruct (proj1 (H3 a)) as [ch0 Hch0]. { apply H2. apply elem_of_app. right. by left. }
    split; cbn [probing entries fresh waiting closed].
    + done.
    + intros b. rewrite entryLocked_insert. destruct (decide (a = b)) as [<-|Hne]; [done|].
      rewrite <- H2, !elem_of_app, elem_of_cons. naive_solver.
    + intros b. rewrite entryLocked_insert. destruct (decide (a = b)) as [<-|Hne]; [|first [apply H2|apply H3|apply H4|apply H5|apply H6|apply H7]]. cbn. split; [done|by intros [? ?]].
    + intros b ch. rewrite entryLocked_insert. destruct (decide (a = b)) as [<-|Hne]; [done|by apply H4].
    + intros b ch Hw. rewrite entryLocked_insert, Hch0. destruct (H5 b ch Hw) as [?|Hd]; [left; by right|].
      destruct (decide (a = b)) as [<-|Hne]; [|by right]. left. rewrite Hch0 in Hd. injection Hd as ->. by left.
    + intros b. rewrite entryLocked_insert. destruct (decide (a = b)) as [<-|Hne]; [apply H6|done].
    + intros b. rewrite entryLocked_insert. destruct (decide (a = b)) as [<-|Hne]; [|by apply H7].
      cbn. pose proof (probe_interval_pos tier). lia.
Qed.

Lemma empty_system_ok : system_ok empty_system.
Proof.
  split; cbn [probing entries fresh waiting closed empty_system]; try (by intros; rewrite entryLocked_empty).
  - constructor.
  - intros a. rewrite entryLocked_empty. split; [by intros ?%not_elem_of_nil|done].
  - intros a. rewrite entryLocked_empty. split; [done|by intros [? ?]].
  - done.
  - by intros a ch ?%not_elem_of_nil.
Qed.

(** in every reachable state of discovery, starts, timeouts and wake-ups, at
    most one probe of an agent is in flight, exactly when its entry says so; and
    whoever waits, waits on a channel that is closed or that a running probe
    will close, so no start hangs on a probe that nobody runs. *)
Theorem probe_single_flight s :
  rtc cache_step empty_system s ->
  NoDup (probing s) /\
  (forall a, a ∈ probing s <-> inFlight (entryLocked (entries s) a) = true) /\
  (forall a ch, (a, ch) ∈ waiting s -> ch ∈ closed s \/ (a ∈ probing s /\ done (entryLocked (entries s) a) = Some ch)) /\
  (forall a, waiters (entryLocked (entries s) a) = waiting_for a (waiting s)).
Proof.
  intros Hr. assert (system_ok s) as Hok.
  { eapply (rtc_invariant cache_step system_ok); [apply cache_step_ok|exact Hr|apply empty_system_ok]. }
  split_and!; [apply Hok|apply Hok| |apply Hok].
  intros a ch Hw. destruct (ok_waiting _ Hok _ _ Hw) as [?|Hd]; [by left|right]. split; [|done].
  apply (ok_inflight _ Hok), (ok_done _ Hok). rewrite Hd. eauto.
Qed.

(** ** Witnesses *)

(** A discovery probe is running when a user starts a thread: the start joins it. *)
Definition w_tier : startCapabilityActivityTier := startCapabilityActiveTier.
Definition w_s1 : cache_system := Eval vm_compute in
  mkSystem (getOrStart true 5 0 "codex" w_tier ∅).2 1 ["codex"] [] [].
Definition w_s2 : cache_system := Eval vm_compute in
  mkSystem (probe_round false 1 "codex" (entries w_s1)).2 1 ["codex"] [("codex", 0%nat)] [].

Lemma w_cache_run : rtc cache_step empty_system w_s2.
Proof.
  eapply rtc_l; [|eapply rtc_l; [|apply rtc_refl]].
  - apply (step_discover_probe true 5 "codex" w_tier empty_system (no_capability, false, true, true) (entries w_s1)). by_vm.
  - apply (step_join false "codex" w_s1 0 (entries w_s2)). by_vm.
Qed.

Lemma probe_single_flight_witness :
  NoDup (probing w_s2) /\ probing w_s2 = ["codex"] /\ waiting w_s2 = [("codex", 0%nat)].
Proof.
  split; [|split; reflexivity]. exact (proj1 (probe_single_flight w_s2 w_cache_run)).
Defined.
