(* ===== verification/ActiveTurnSpec.v ===== *)
(** * Correctness of turn attribution

    A terminal event is reported once, for exactly the turn it belongs to, and
    only after acceptance is durable; one that arrives early is held, not
    lost. *)

From stdpp Require Import base tactics list gmap strings.
From Stdlib Require Import Ascii ZArith Lia.
From S2P Require Import Prelude GoStrings Sha256 Json ActiveTurn.

(** ** The registry's operations as data *)

Inductive reg_op : Type :=
  | RBind (s : string) (g : Z) (c : string)
  | RNative (s : string) (g : Z) (c n : string)
  | RClear (s : string) (g : Z) (c n : string)
  | RAccept (s : string) (g : Z) (c : string)
  | RComplete (s : string) (g : Z) (c : string)
  | RAbandon (s : string) (g : Z) (c : string)
  | RTerminal (ev : ControlEvent).

Definition apply_reg (r : activeTurnRegistry) (op : reg_op) : activeTurnRegistry :=
  match op with
  | RBind s g c => (bind r s g c).2
  | RNative s g c n => (setNativeRequestID r s g c n).2
  | RClear s g c n => (clearMatching r s g c n).2
  | RAccept s g c => (accept r s g c).2
  | RComplete s g c => (completeMatching r s g c).2
  | RAbandon s g c => (abandonAcceptance r s g c).2
  | RTerminal ev => (terminalForEvent r ev).2
  end.

(** The operations that end the wait of the turn [g] of session [s]. *)
Definition resolves (s : string) (g : Z) (op : reg_op) : Prop :=
  match op with
  | RClear s' g' _ _ | RAccept s' g' _ | RAbandon s' g' _ => s' = s /\ g' = g
  | _ => False
  end.

(** The turn [g], client message [c], of session [s] waits for acceptance with
    the terminal event [ev] held. *)
Definition holds_event (r : activeTurnRegistry) (s : string) (g : Z) (c : string) (ev : ControlEvent) : Prop :=
  exists st, r !! s = Some st /\ Generation (binding st) = g /\ ClientMsgID (binding st) = c /\
    accepted st = false /\ indeterminate st = false /\ pendingTerminal st = Some ev.

Lemma binding_is_true st g c :
  binding_is st g c = true <-> Generation (binding st) = g /\ ClientMsgID (binding st) = c.
Proof. unfold binding_is. rewrite andb_true_iff, Z.eqb_eq, bool_decide_eq_true. done. Qed.

(** An operation that does not resolve the turn keeps its event, or replaces it
    by a newer one for the same session. *)
Lemma apply_reg_holds r op s g c ev :
  holds_event r s g c ev -> ~ resolves s g op ->
  exists ev', holds_event (apply_reg r op) s g c ev' /\ (ev' = ev \/ op = RTerminal ev').
Proof.
  intros (st & Hr & Hg & Hc & Ha & Hi & Hp) Hres.
  assert (Hsame : forall r', r' !! s = r !! s -> holds_event r' s g c ev) by (intros r' E; exists st; by rewrite E).
  destruct op as [s' g' c'|s' g' c' n|s' g' c' n|s' g' c'|s' g' c'|s' g' c'|e]; simpl in *.
  - exists ev. split; [|by left]. apply Hsame. unfold bind. repeat case_match; try done. simpl.
    rewrite lookup_insert_ne; [done|]. intros E. congruence.
  - exists ev. split; [|by left]. unfold setNativeRequestID. case_match; [by apply Hsame|].
    destruct (r !! s') as [st'|] eqn:Hs'; [|by apply Hsame].
    destruct (binding_is st' g' c'); [|by apply Hsame]. simpl. destruct (decide (s' = s)) as [->|Hne].
    + rewrite Hr in Hs'. injection Hs' as <-. eexists. rewrite lookup_insert_eq. by split_and!.
    + apply Hsame. by rewrite lookup_insert_ne.
  - exists ev. split; [|by left]. apply Hsame. unfold clearMatching.
    destruct (r !! s') as [st'|] eqn:Hs'; [|done]. destruct (binding_is st' g' c') eqn:Hb; [|done]. simpl.
    case_match; [done|]. simpl. apply lookup_delete_ne. intros ->. apply Hres. split; [done|].
    apply binding_is_true in Hb as [<- _]. congruence.
  - exists ev. split; [|by left]. apply Hsame. unfold accept.
    destruct (r !! s') as [st'|] eqn:Hs'; [|done]. destruct (binding_is st' g' c') eqn:Hb; [|done]. simpl.
    assert (s' <> s) as Hne.
    { intros ->. apply Hres. split; [done|]. apply binding_is_true in Hb as [<- _]. congruence. }
    repeat case_match; simpl; [by rewrite lookup_insert_ne|by rewrite lookup_delete_ne|by rewrite lookup_insert_ne].
  - exists ev. split; [|by left]. unfold completeMatching.
    destruct (r !! s') as [st'|] eqn:Hs'; [|by apply Hsame].
    destruct (binding_is st' g' c') eqn:Hb; [|by apply Hsame]. simpl. destruct (decide (s' = s)) as [->|Hne].
    + rewrite Hr in Hs'. injection Hs' as <-. rewrite Ha, Hi. simpl. eexists. rewrite lookup_insert_eq. by split_and!.
    + apply Hsame. case_match; simpl; [by rewrite lookup_insert_ne|by rewrite lookup_delete_ne].
  - exists ev. split; [|by left]. apply Hsame. unfold abandonAcceptance.
    destruct (r !! s') as [st'|] eqn:Hs'; [|done]. destruct (binding_is st' g' c') eqn:Hb; [|done]. simpl.
    assert (s' <> s) as Hne.
    { intros ->. apply Hres. split; [done|]. apply binding_is_true in Hb as [<- _]. congruence. }
    case_match; simpl; [by rewrite lookup_delete_ne|by rewrite lookup_insert_ne].
  - unfold terminalForEvent. destruct (r !! evSessionID e) as [st'|] eqn:Hs'; [|exists ev; split; [by apply Hsame|by left]].
    destruct (attributable e (binding st')); [|exists ev; split; [by apply Hsame|by left]]. simpl.
    destruct (accepted st') eqn:Hacc; simpl; [exists ev; split; [by apply Hsame|by left]|].
    destruct (decide (evSessionID e = s)) as [He|Hne].
    + rewrite He, Hr in Hs'. injection Hs' as <-. exists e. split; [|by right]. eexists.
      rewrite He, lookup_insert_eq. by split_and!.
    + exists ev. split; [|by left]. apply Hsame. by rewrite lookup_insert_ne.
Qed.

Lemma apply_ops_holds ops r s g c ev :
  holds_event r s g c ev -> Forall (fun op => ~ resolves s g op) ops ->
  exists ev', holds_event (foldl apply_reg r ops) s g c ev' /\ (ev' = ev \/ RTerminal ev' ∈ ops).
Proof.
  revert r ev. induction ops as [|op ops IH]; intros r ev Hh Hops; [exists ev; split; [done|by left]|].
  apply Forall_cons in Hops as [Hop Hops].
  destruct (apply_reg_holds _ _ _ _ _ _ Hh Hop) as (ev1 & Hh1 & Hev1).
  destruct (IH _ _ Hh1 Hops) as (ev2 & Hh2 & Hev2). exists ev2. split; [done|].
  destruct Hev2 as [->|Hin]; [|right; by right].
  destruct Hev1 as [->| ->]; [by left|right; by left].
Qed.

(** no terminal event is lost to the race with the journal. An event that
    fits the running turn but arrives before its acceptance is recorded is
    held; whatever the registry does next short of ending that turn's wait,
    [accept] hands the held event (or a newer one for that session) back for
    replay. *)
Theorem early_terminal_is_replayed r ev st ops :
  r !! evSessionID ev = Some st -> attributable ev (binding st) = true ->
  accepted st = false -> indeterminate st = false ->
  Forall (fun op => ~ resolves (evSessionID ev) (Generation (binding st)) op) ops ->
  (terminalForEvent r ev).1 = (Some (binding st), false, true) /\
  exists ev', (ev' = ev \/ RTerminal ev' ∈ ops) /\
    (accept (foldl apply_reg (terminalForEvent r ev).2 ops) (evSessionID ev)
       (Generation (binding st)) (ClientMsgID (binding st))).1 = (Some ev', false).
Proof.
  intros Hr Hat Ha Hi Hops. unfold terminalForEvent. rewrite Hr, Hat, Ha. simpl. split; [done|].
  set (r1 := <[evSessionID ev := _]> r).
  assert (Hh : holds_event r1 (evSessionID ev) (Generation (binding st)) (ClientMsgID (binding st)) ev).
  { eexists. unfold r1. rewrite lookup_insert_eq. by split_and!. }
  destruct (apply_ops_holds ops r1 _ _ _ _ Hh Hops) as (ev' & (st' & Hst' & Hg & Hc & _ & _ & Hp) & Hin).
  exists ev'. split; [done|]. unfold accept. rewrite Hst'.
  assert (binding_is st' (Generation (binding st)) (ClientMsgID (binding st)) = true) as -> by by apply binding_is_true.
  simpl. rewrite Hp. by destruct (nativeComplete st').
Qed.

(** a terminal control event goes out only for a session whose current
    turn was durably accepted, only if none of the identifiers it carries
    contradicts that turn, stamped with exactly that turn's generation and
    client message; doing so ends the turn, so nothing terminal goes out again
    for the session until the next [bind]. An event that is held back or
    rejected never ends a turn. *)
Theorem terminal_event_exact r ev o r' :
  resolve_control_event r ev = (o, r') -> is_terminal (event_lifecycle ev) = true ->
  match o with
  | Some out =>
    (exists st, r !! evSessionID ev = Some st /\ accepted st = true /\ attributable ev (binding st) = true /\
       evGeneration out = Generation (binding st) /\ evClientMsgID out = ClientMsgID (binding st) /\
       evSessionID out = evSessionID ev /\ evLifecycle out = event_lifecycle ev /\ evClearActiveTurn out = true) /\
    r' = delete (evSessionID ev) r /\
    (forall ev2, evSessionID ev2 = evSessionID ev -> is_terminal (event_lifecycle ev2) = true ->
       resolve_control_event r' ev2 = (None, r'))
  | None => forall s, binding <$> r' !! s = binding <$> r !! s
  end.
Proof.
  intros Hres Ht. revert Hres. unfold resolve_control_event. rewrite Ht. cbn [negb].
  unfold terminalForEvent. cbn [evSessionID].
  destruct (r !! evSessionID ev) as [st|] eqn:Hr; [|by intros [= <- <-]].
  change (attributable (mkEvent _ _ _ _ _ _ _) (binding st)) with (attributable ev (binding st)).
  destruct (attributable ev (binding st)) eqn:Hat; cbn [negb]; [|by intros [= <- <-]].
  destruct (accepted st) eqn:Ha; cbn [negb].
  - unfold clearMatching. rewrite Hr.
    assert (binding_is st (Generation (binding st)) (ClientMsgID (binding st)) = true) as -> by by apply binding_is_true.
    cbn [negb]. rewrite (bool_decide_true (_ = _)) by done. rewrite andb_false_r. intros [= <- <-].
    split_and!; [by exists st|done|]. intros ev2 Hs2 Ht2. rewrite Ht2. cbn [negb evSessionID].
    rewrite Hs2, lookup_delete_eq. done.
  - intros [= <- <-] s. destruct (decide (evSessionID ev = s)) as [<-|Hne].
    + by rewrite lookup_insert_eq, Hr.
    + by rewrite lookup_insert_ne.
Qed.

(** ** The tracker under interleaving

    [accepted] releases the mutex between marking the binding and emitting, and
    again before replaying a held terminal: a thread inside it is a
    continuation. Generations are drawn from a counter, so [begin] always gets
    a fresh one. *)

Inductive tracker_cont : Type :=
  | ContEmit (s : string) (g : Z) (pending : option turnTerminal)
  | ContFinish (s : string) (p : turnTerminal).

Record tracker_state : Type := mkTState {
  tracker : turnTracker;
  conts : list tracker_cont;
  counter : Z
}.

Inductive tracker_step : tracker_state -> tracker_state -> Prop :=
  | TSetSink t cs n : tracker_step (mkTState t cs n) (mkTState (setSink t) cs n)
  | TBegin t cs n s c h : tracker_step (mkTState t cs n) (mkTState (begin_turn t s (n + 1) c h).2 cs (n + 1))
  | TAbort t cs n s g : tracker_step (mkTState t cs n) (mkTState (abort t s g) cs n)
  | TDetach t cs n : tracker_step (mkTState t cs n) (mkTState (detachAll t) cs n)
  | TFinish t cs n s e i : tracker_step (mkTState t cs n) (mkTState (finish t s e i) cs n)
  | TAccepted t cs n s g :
      tracker_step (mkTState t cs n)
        match accepted_mark t s g with
        | (Some pending, t') => mkTState t' (ContEmit s g pending :: cs) n
        | (None, t') => mkTState t' cs n
        end
  | TEmit t cs1 cs2 n s g pending :
      tracker_step (mkTState t (cs1 ++ ContEmit s g pending :: cs2) n)
        (mkTState (emit t s g TurnAccepted "accepted" "")
           (cs1 ++ match pending with Some p => [ContFinish s p] | None => [] end ++ cs2) n)
  | TReplay t cs1 cs2 n s p :
      tracker_step (mkTState t (cs1 ++ ContFinish s p :: cs2) n)
        (mkTState (finish t s (exitCode p) (interrupted p)) (cs1 ++ cs2) n).

Definition tracker_init : tracker_state := mkTState (mkTracker false ∅ []) [] 0.

Definition terminal_of (g : Z) (o : tracker_output) : bool :=
  match o with
  | Sink ev => (evGeneration ev =? g) && is_terminal (evLifecycle ev)
  | OnLifecycle _ _ _ => false
  end%bool.

(** How many terminal events generation [g] has had, and whether it is still
    bound. *)
Definition terminals (t : turnTracker) (g : Z) : Z := count (terminal_of g) (emitted t).
Definition bound (t : turnTracker) (g : Z) : Prop := exists s b, bindings t !! s = Some b /\ generation b = g.

Record tracker_inv (ts : tracker_state) : Prop := {
  ti_unique : forall s1 s2 b1 b2, bindings (tracker ts) !! s1 = Some b1 -> bindings (tracker ts) !! s2 = Some b2 ->
    generation b1 = generation b2 -> s1 = s2;
  ti_fresh : forall s b, bindings (tracker ts) !! s = Some b -> generation b <= counter ts;
  ti_fresh_out : forall g, counter ts < g -> terminals (tracker ts) g = 0;
  ti_once : forall g, terminals (tracker ts) g <= 1;
  ti_bound : forall g, bound (tracker ts) g -> terminals (tracker ts) g = 0
}.

Lemma count_app {A} (p : A -> bool) l1 l2 : count p (l1 ++ l2) = count p l1 + count p l2.
Proof. induction l1 as [|a l1 IH]; [done|]. rewrite <- app_comm_cons, !count_cons, IH. lia. Qed.

Lemma terminals_send_out t s b g0 l class reason g :
  terminals (send_out t s b g0 l class reason) g
  = terminals t g + (if hasSink t && (g0 =? g) && is_terminal l then 1 else 0)%bool.
Proof.
  unfold terminals, send_out. simpl. rewrite !count_app.
  assert (count (terminal_of g) (if hasOnLifecycle b then [OnLifecycle g0 l reason] else []) = 0) as ->
    by by destruct (hasOnLifecycle b).
  destruct (hasSink t); [|done]. unfold count. simpl. by destruct (_ && _)%bool.
Qed.

(** Removing or changing bindings without a new generation, output unchanged. *)
Lemma tracker_inv_quiet t t' cs cs' n :
  tracker_inv (mkTState t cs n) -> emitted t' = emitted t ->
  (forall s b', bindings t' !! s = Some b' -> exists b, bindings t !! s = Some b /\ generation b' = generation b) ->
  tracker_inv (mkTState t' cs' n).
Proof.
  intros I He Hb. assert (Ht : forall g, terminals t' g = terminals t g) by (intros g; unfold terminals; by rewrite He).
  split; simpl.
  - intros s1 s2 b1 b2 H1 H2 Hg. destruct (Hb _ _ H1) as (c1 & Hc1 & E1), (Hb _ _ H2) as (c2 & Hc2 & E2).
    eapply (ti_unique _ I); eauto. congruence.
  - intros s b H. destruct (Hb _ _ H) as (c & Hc & ->). by eapply (ti_fresh _ I).
  - intros g Hg. rewrite Ht. by apply (ti_fresh_out _ I).
  - intros g. rewrite Ht. apply (ti_once _ I).
  - intros g (s & b & H & Hg). rewrite Ht. apply (ti_bound _ I). destruct (Hb _ _ H) as (c & Hc & E).
    exists s, c. split; [done|congruence].
Qed.

Lemma finish_inv t cs cs' n s e i :
  tracker_inv (mkTState t cs n) -> tracker_inv (mkTState (finish t s e i) cs' n).
Proof.
  intros I. unfold finish. destruct (bindings t !! s) as [b|] eqn:Hs; [|by eapply tracker_inv_quiet; [exact I|done|eauto]].
  destruct (turnAccepted b); cbn [negb].
  2:{ eapply tracker_inv_quiet; [exact I|done|]. intros s' b'. simpl. rewrite lookup_insert_Some.
      intros [[<- <-]|[_ H]]; eauto. }
  destruct (if i then _ else _) as [[l class] reason].
  set (t1 := with_bindings t (delete s (bindings t))).
  assert (I1 : tracker_inv (mkTState t1 cs' n)).
  { eapply tracker_inv_quiet; [exact I|done|]. simpl. intros s' b' [_ H]%lookup_delete_Some. eauto. }
  assert (Hb0 : terminals t (generation b) = 0) by (apply (ti_bound _ I); by exists s, b).
  assert (Hn : ~ bound t1 (generation b)).
  { intros (s' & b' & H & Hg). simpl in H. apply lookup_delete_Some in H as [Hne H]. apply Hne.
    symmetry. by eapply (ti_unique _ I). }
  pose proof (ti_fresh _ I _ _ Hs) as Hf. simpl in Hf.
  split; try apply I1; simpl; intros g; rewrite terminals_send_out.
  - intros Hg. pose proof (ti_fresh_out _ I1 g Hg) as Hz. simpl in Hz. rewrite Hz. destruct (generation b =? g) eqn:E; bool_hyps; [lia|].
    by rewrite andb_false_r.
  - destruct (generation b =? g) eqn:E; bool_hyps.
    + subst g. change (terminals t1 (generation b)) with (terminals t (generation b)). rewrite Hb0. case_match; lia.
    + rewrite andb_false_r. simpl. pose proof (ti_once _ I1 g) as Ho. simpl in Ho. lia.
  - intros Hbd. destruct (generation b =? g) eqn:E; bool_hyps; [subst g; by destruct Hn|].
    rewrite andb_false_r. simpl. rewrite Z.add_0_r. by apply (ti_bound _ I1).
Qed.

Lemma emit_inv t cs cs' n s g :
  tracker_inv (mkTState t cs n) -> tracker_inv (mkTState (emit t s g TurnAccepted "accepted" "") cs' n).
Proof.
  intros I. unfold emit. destruct (bindings t !! s) as [b|]; [|by eapply tracker_inv_quiet; [exact I|done|eauto]].
  destruct (generation b =? g); [|by eapply tracker_inv_quiet; [exact I|done|eauto]].
  split; try apply I; simpl; intros g'; rewrite terminals_send_out, andb_false_r, Z.add_0_r; apply I.
Qed.

Lemma tracker_step_inv ts ts' : tracker_inv ts -> tracker_step ts ts' -> tracker_inv ts'.
Proof.
  intros I Hs. destruct Hs as [t cs n|t cs n s c h|t cs n s g|t cs n|t cs n s e i|t cs n s g|t cs1 cs2 n s g p|t cs1 cs2 n s p].
  - eapply tracker_inv_quiet; [exact I|done|eauto].
  - unfold begin_turn. destruct (bindings t !! s) as [b|] eqn:Hs; simpl.
    + split; try apply I; simpl.
      * intros s' b' H. pose proof (ti_fresh _ I _ _ H). simpl in *. lia.
      * intros g Hg. apply (ti_fresh_out _ I). simpl. lia.
    + assert (Hb : forall g, bound (with_bindings t (<[s := mkTurnBinding (n + 1) c h false None]> (bindings t))) g ->
        g = n + 1 \/ bound t g).
      { intros g (s' & b' & H & Hg). simpl in H. apply lookup_insert_Some in H as [[<- <-]|[_ H]];
          [by left|right; by exists s', b']. }
      split; simpl.
      * intros s1 s2 b1 b2. rewrite !lookup_insert_Some.
        intros [[<- <-]|[H1 L1]] [[<- <-]|[H2 L2]] Hg; simpl in *; try done;
          [pose proof (ti_fresh _ I _ _ L2)|pose proof (ti_fresh _ I _ _ L1)|by eapply (ti_unique _ I)]; simpl in *; lia.
      * intros s' b'. rewrite lookup_insert_Some. intros [[<- <-]|[_ H]]; [simpl; lia|].
        pose proof (ti_fresh _ I _ _ H). simpl in *. lia.
      * intros g Hg. apply (ti_fresh_out _ I). simpl. lia.
      * apply (ti_once _ I).
      * intros g Hg. destruct (Hb g Hg) as [->|H]; [|by apply (ti_bound _ I)].
        apply (ti_fresh_out _ I). simpl. lia.
  - unfold abort. destruct (bindings t !! s) as [b|]; [|by eapply tracker_inv_quiet; [exact I|done|eauto]].
    destruct (generation b =? g); [|by eapply tracker_inv_quiet; [exact I|done|eauto]].
    eapply tracker_inv_quiet; [exact I|done|]. simpl. intros s' b' [_ H]%lookup_delete_Some. eauto.
  - eapply tracker_inv_quiet; [exact I|done|]. simpl. intros s' b' H. by rewrite lookup_empty in H.
  - by eapply finish_inv.
  - unfold accepted_mark. destruct (bindings t !! s) as [b|] eqn:Hs; [|by eapply tracker_inv_quiet; [exact I|done|eauto]].
    destruct (generation b =? g); [|by eapply tracker_inv_quiet; [exact I|done|eauto]].
    eapply tracker_inv_quiet; [exact I|done|]. simpl. intros s' b'. rewrite lookup_insert_Some.
    intros [[<- <-]|[_ H]]; eauto.
  - by eapply emit_inv.
  - by eapply finish_inv.
Qed.

(** however callbacks, acceptances and shutdowns interleave, an adapter
    reports at most one terminal event per generation, and none for a
    generation that is still bound or was never started. *)
Theorem tracker_terminal_once ts g :
  rtc tracker_step tracker_init ts ->
  terminals (tracker ts) g <= 1 /\
  (bound (tracker ts) g -> terminals (tracker ts) g = 0) /\
  (counter ts < g -> terminals (tracker ts) g = 0).
Proof.
  intros H. apply (rtc_invariant _ tracker_inv) in H; [|apply tracker_step_inv|].
  - split; [apply (ti_once _ H)|]. split; [apply (ti_bound _ H)|apply (ti_fresh_out _ H)].
  - split; simpl; intros; try (by rewrite lookup_empty in *); done.
Qed.

(** without interference a terminal callback that precedes acceptance is
    replayed right after it: the turn's outputs are [accepted], then the one
    terminal outcome, and the session is free again. *)
Theorem finish_before_accepted_replays t s g c h e i :
  bindings t !! s = None -> hasSink t = true ->
  let t1 := (begin_turn t s g c h).2 in
  let t2 := accepted_turn (finish t1 s e i) s g in
  let l := if i then TurnInterrupted else if negb (e =? 0) then TurnTerminalFailure else TurnTerminalSuccess in
  bindings t2 !! s = None /\
  List.filter (fun o => match o with Sink _ => true | _ => false end) (emitted t2)
  = List.filter (fun o => match o with Sink _ => true | _ => false end) (emitted t)
    ++ [Sink (mkEvent s "accepted" g c "" TurnAccepted false);
        Sink (mkEvent s (if i then "interrupted" else if negb (e =? 0) then "failed" else "completed") g c "" l false)].
Proof.
  intros Hs Hk. cbv zeta. remember (accepted_turn _ s g) as t2 eqn:E. revert E.
  unfold begin_turn. rewrite Hs. cbn [snd].
  unfold finish at 1. cbn [bindings with_bindings]. rewrite lookup_insert_eq. cbn [turnAccepted negb].
  unfold accepted_turn, accepted_mark. cbn [bindings with_bindings generation]. rewrite lookup_insert_eq.
  cbn [generation]. rewrite Z.eqb_refl. unfold emit. cbn [bindings with_bindings]. rewrite lookup_insert_eq.
  cbn [generation]. rewrite Z.eqb_refl. unfold finish. cbn [bindings send_out with_bindings terminal]. rewrite lookup_insert_eq.
  cbn [turnAccepted negb].
  cbn [exitCode interrupted]. destruct i; [|destruct (e =? 0)]; cbn [negb]; unfold send_out;
    cbn [bindings with_bindings emitted hasSink hasOnLifecycle generation clientMsgID]; rewrite Hk;
    intros ->; (split; [apply lookup_delete_eq|]); cbn [emitted]; rewrite !List.filter_app, <- !app_assoc;
    f_equal; by destruct h.
Qed.

(** [finish] takes no generation: the callback of an old process completes
    whatever turn the session runs now. *)
Example finish_ignores_generation :
  let t0 := mkTracker true ∅ [] in
  let t1 := abort (begin_turn t0 "s" 1 "old" false).2 "s" 1 in
  let t2 := accepted_turn (begin_turn t1 "s" 2 "new" false).2 "s" 2 in
  terminals (finish t2 "s" 0 false) 2 = 1 /\ ~ bound (finish t2 "s" 0 false) 2.
Proof. split; [by_vm|]. intros (s & b & H & _). vm_compute in H. done. Qed.

(** ** Witnesses *)

Definition w_reg : activeTurnRegistry := (bind ∅ "s1" 7 "m1").2.
Definition w_event : ControlEvent := mkEvent "s1" "completed" 7 "" "" NoLifecycle false.
Definition w_turn : activeTurnState := mkTurn (mkBinding 7 "m1" "") false false false None.

Lemma early_terminal_is_replayed_witness :
  exists ev', (accept (foldl apply_reg (terminalForEvent w_reg w_event).2 [RComplete "s1" 7 "m1"]) "s1" 7 "m1").1
    = (Some ev', false).
Proof.
  destruct (early_terminal_is_replayed w_reg w_event w_turn [RComplete "s1" 7 "m1"]) as (_ & ev' & _ & H).
  - by_vm.
  - by_vm.
  - reflexivity.
  - reflexivity.
  - repeat constructor. intros [].
  - exists ev'. exact H.
Defined.

Definition w_accepted : activeTurnRegistry := (accept w_reg "s1" 7 "m1").2.

Lemma terminal_event_exact_witness :
  exists out r', resolve_control_event w_accepted w_event = (Some out, r') /\ r' = delete "s1" w_accepted.
Proof.
  exists (mkEvent "s1" "completed" 7 "m1" "" TurnTerminalSuccess true), (delete "s1" w_accepted).
  assert (H : resolve_control_event w_accepted w_event
    = (Some (mkEvent "s1" "completed" 7 "m1" "" TurnTerminalSuccess true), delete "s1" w_accepted)) by by_vm.
  split; [exact H|]. exact (proj1 (proj2 (terminal_event_exact _ _ _ _ H eq_refl))).
Defined.

Definition w_tracker : tracker_state :=
  mkTState (finish (accepted_mark (begin_turn (setSink (mkTracker false ∅ [])) "s1" 1 "m1" false).2 "s1" 1).2 "s1" 0 false)
    [ContEmit "s1" 1 None] 1.

Lemma tracker_terminal_once_witness : terminals (tracker w_tracker) 1 = 1 /\ terminals (tracker w_tracker) 1 <= 1.
Proof.
  split; [by_vm|]. apply (tracker_terminal_once w_tracker 1).
  eapply rtc_l; [apply TSetSink|]. eapply rtc_l; [apply (TBegin _ _ _ "s1" "m1" false)|].
  eapply rtc_l; [apply (TAccepted _ _ _ "s1" 1)|]. eapply rtc_l; [|apply rtc_refl].
  apply (TFinish _ [ContEmit "s1" 1 None] 1 "s1" 0 false).
Defined.

Lemma finish_before_accepted_replays_witness :
  bindings (accepted_turn (finish (begin_turn (mkTracker true ∅ []) "s1" 3 "m1" true).2 "s1" 0 false) "s1" 3) !! "s1" = None.
Proof.
  exact (proj1 (finish_before_accepted_replays (mkTracker true ∅ []) "s1" 3 "m1" true 0 false (lookup_empty _) eq_refl)).
Defined.
