(* ===== verification/DaemonWireSpec.v ===== *)
(** * Correctness of the daemon's frames

    What a sealed nest lets the relay read, what it needs to accept a command,
    and how the outcome of a thread start is reported. *)

From stdpp Require Import base tactics list gmap strings.
From Stdlib Require Import Ascii String ZArith Lia.
From S2P Require Import Prelude GoStrings Json StartThread DaemonWire.

Section Sealed.
Context {wire : Type}.
Implicit Types (c : wire_config wire) (f : frame wire).

(** The frames the daemon can send, by the function that builds them. *)
Inductive daemon_frame c : frame wire -> Prop :=
  | from_application ts s m ty p cat f : f ∈ sendDaemonApplication c ts s m ty p cat -> daemon_frame c f
  | from_failure ts s m msg o b f : f ∈ sendPromptFailure c ts s m msg o b -> daemon_frame c f
  | from_not_seen s m f : f ∈ sendPromptNotSeen s m -> daemon_frame c f
  | from_error ts id s msg f : f ∈ sendDaemonError c ts id s msg -> daemon_frame c f
  | from_output ts s a ty content id f : f ∈ sendSessionMessage c ts s a ty content id -> daemon_frame c f
  | from_thread ts a op ty th b msg f : f ∈ sendThreadResult c ts a op ty th b msg -> daemon_frame c f
  | from_control ts s u att f : f ∈ sendControlEvent c ts s u att -> daemon_frame c f
  | from_decode_failure ts id s ty msg f : f ∈ sendInboundDecodeFailure c ts id s ty msg -> daemon_frame c f.

Definition routing_only f : Prop := fType f = "attention_event" \/ fType f = "prompt_not_seen".

(** What a frame shows in sealed mode. *)
Definition opaque_frame f : Prop := fPayload f = None \/ routing_only f.

Lemma build_opaque c ts s m ty p cat f :
  daemonTransport c = SealedTransport -> buildDaemonApplicationMessage c ts s m ty p cat = Ok f -> fPayload f = None.
Proof.
  intros Ht. unfold buildDaemonApplicationMessage. rewrite Ht. destruct (daemonSealedKeys c) as [keys|]; [|done].
  destruct cat; [destruct (seal_catalog _ _ _)|destruct (seal_session _ _ _ _)]; cbn; by intros [= <-].
Qed.

Lemma application_opaque c ts s m ty p cat f :
  daemonTransport c = SealedTransport -> f ∈ sendDaemonApplication c ts s m ty p cat -> fPayload f = None.
Proof.
  intros Ht. unfold sendDaemonApplication. destruct (buildDaemonApplicationMessage _ _ _ _ _ _ _) as [g|e] eqn:Hb.
  - intros ->%list_elem_of_singleton. by eapply build_opaque.
  - by intros ?%not_elem_of_nil.
Qed.

Lemma failure_opaque c ts s m msg o b f :
  daemonTransport c = SealedTransport -> f ∈ sendPromptFailure c ts s m msg o b -> fPayload f = None.
Proof.
  intros Ht. unfold sendPromptFailure. destruct (buildDaemonApplicationMessage _ _ _ _ _ _ _) as [g|e] eqn:Hb.
  - intros ->%list_elem_of_singleton. simpl. by eapply build_opaque.
  - by intros ?%not_elem_of_nil.
Qed.

Lemma error_opaque c ts id s msg f :
  daemonTransport c = SealedTransport -> f ∈ sendDaemonError c ts id s msg -> fPayload f = None.
Proof. intros Ht. unfold sendDaemonError. rewrite Ht. by apply application_opaque. Qed.

Lemma thread_opaque c ts a op ty th b msg f :
  daemonTransport c = SealedTransport -> f ∈ sendThreadResult c ts a op ty th b msg -> fPayload f = None.
Proof.
  intros Ht. unfold sendThreadResult, buildThreadResultMessage. rewrite Ht. intros ->%list_elem_of_singleton.
  destruct (daemonSealedKeys c) as [keys|]; [|done]. by destruct (seal_catalog _ _ _).
Qed.

Lemma control_opaque c ts s u att f :
  daemonTransport c = SealedTransport -> f ∈ sendControlEvent c ts s u att -> opaque_frame f.
Proof.
  intros Ht. unfold sendControlEvent, opaque_frame, routing_only. rewrite Ht.
  destruct (is_empty s); [by intros ?%not_elem_of_nil|].
  assert (Hatt : forall g, g ∈ match att with
      | Some a => [mkFrame "attention_event" (Some s) None (Some {[ "event_id" := VString (attEventID a);
          "class" := VString (attClass a); "occurred_at" := VInt ts ]}) (@None wire) None]
      | None => [] end -> fPayload g = None \/ fType g = "attention_event" \/ fType g = "prompt_not_seen").
  { intros g. destruct att; [intros ->%list_elem_of_singleton; auto|by intros ?%not_elem_of_nil]. }
  destruct u as [session|]; [|by apply Hatt]. destruct (daemonSealedKeys c) as [keys|]; [|by intros ?%not_elem_of_nil].
  destruct (seal_session _ _ _ _); [|by intros ?%not_elem_of_nil].
  intros [->|Hin]%elem_of_cons; [by left|by apply Hatt].
Qed.

Lemma decode_failure_opaque c ts id s ty msg f :
  daemonTransport c = SealedTransport -> f ∈ sendInboundDecodeFailure c ts id s ty msg -> fPayload f = None.
Proof.
  intros Ht. unfold sendInboundDecodeFailure. cbv zeta.
  destruct (existsb _ _); [by apply failure_opaque|].
  destruct (String.eqb ty "respond_user_input"); [by apply application_opaque|].
  destruct (String.eqb ty "start_thread"); [by apply thread_opaque|by apply error_opaque].
Qed.

(** a sealed nest shows the relay no content. With its keys loaded, no
    frame the daemon builds carries a plaintext payload, except the attention
    event and the answer [prompt_not_seen], which hold identifiers only; when
    encryption fails the frame is withheld or degraded, never sent open. *)
Theorem sealed_frames_are_opaque c keys f :
  daemonTransport c = SealedTransport -> daemonSealedKeys c = Some keys -> daemon_frame c f ->
  opaque_frame f.
Proof.
  intros Ht Hk Hf. destruct Hf as [ts s m ty p cat f Hin|ts s m msg o b f Hin|s m f Hin|ts id s msg f Hin
    |ts s a ty content id f Hin|ts a op ty th b msg f Hin|ts s u att f Hin|ts id s ty msg f Hin].
  - left. by eapply application_opaque.
  - left. by eapply failure_opaque.
  - apply list_elem_of_singleton in Hin as ->. right. by right.
  - left. by eapply error_opaque.
  - left. unfold sendSessionMessage in Hin. rewrite Ht, Hk in Hin.
    destruct (seal_session _ _ _ _); [by apply list_elem_of_singleton in Hin as ->|by apply not_elem_of_nil in Hin].
  - left. by eapply thread_opaque.
  - by eapply control_opaque.
  - left. by eapply decode_failure_opaque.
Qed.

(** without its keys a sealed nest still sends the agents' output, and
    sends it in plaintext: the frame of [sendSessionMessage] carries the
    content. Every other sender of application data withholds it: it sends no
    frame, or one without a payload. *)
Theorem sealed_without_keys_leaks_output c ts s a ty content id :
  daemonTransport c = SealedTransport -> daemonSealedKeys c = None ->
  sendSessionMessage c ts s a ty content id
    = [mkFrame "session_message" (Some s) None (Some (session_message_body ts a ty content id)) None None] /\
  (forall m ty' p cat, sendDaemonApplication c ts s m ty' p cat = []) /\
  (forall m msg o b, sendPromptFailure c ts s m msg o b = []) /\
  (forall op ty' th b msg, sendThreadResult c ts a op ty' th b msg
     = [mkFrame "thread_indeterminate" None (Some op) None None None]) /\
  (forall u att, sendControlEvent c ts s (Some u) att = []).
Proof.
  intros Ht Hk. unfold sendSessionMessage, sendDaemonApplication, sendPromptFailure, sendThreadResult,
    buildThreadResultMessage, buildDaemonApplicationMessage, sendControlEvent. rewrite Ht, Hk.
  split_and!; try done. intros u att. by destruct (is_empty s).
Qed.

(** ** Inbound commands *)

Lemma guard_ok {A} (cond : bool) (m : string) (k : unit -> res A) (a : A) :
  (fail_if cond m ≫= k) = Ok a <-> cond = false /\ k tt = Ok a.
Proof. destruct cond; simpl; naive_solver. Qed.

Lemma ids_agree (inner outer : string) :
  (negb (is_empty inner) && negb (String.eqb inner outer))%bool = false -> inner = "" \/ inner = outer.
Proof.
  intros [H|H]%andb_false_iff; apply negb_false_iff in H; [left; by apply is_empty_true|right; by apply String.eqb_eq].
Qed.


(** the outcome of a thread start is always reported: one frame, for the
    operation, of the given type; or, when it cannot be encrypted, of type
    [thread_indeterminate] and without the session and the payload. *)
Theorem thread_result_is_reported c ts a op ty th b msg :
  exists f, sendThreadResult c ts a op ty th b msg = [f] /\ fClientMsg f = Some op /\
    (fType f = ty /\ fSession f = Some th \/
     fType f = "thread_indeterminate" /\ fSession f = None /\ fPayload f = None /\ fSealed f = None).
Proof.
  unfold sendThreadResult, buildThreadResultMessage. eexists. split; [done|].
  destruct (daemonTransport c); [by auto|]. destruct (daemonSealedKeys c) as [keys|]; [|by split; [|right]].
  destruct (seal_catalog _ _ _); [by auto|by split; [|right]].
Qed.
End Sealed.

(** ** Witnesses *)

(** A key manager whose envelope is the name of the key. *)
Definition w_keys : key_manager string :=
  mkKeys string (fun s _ _ => Ok ("session key of " +:+ s)) (fun _ _ => Ok "catalog key")
    (fun _ _ aad => Ok {[ "client_msg_id" := VString (aadClientMsgID aad) ]}) (fun _ _ => Err "no catalog scope").
Definition w_config : wire_config string := mkWireConfig SealedTransport (Some w_keys) "1.1" "device-1".
Definition w_keyless : wire_config string := mkWireConfig SealedTransport None "1.1" "device-1".

Definition w_frame : frame string :=
  mkFrame "session_message" (Some "s") None None (Some "session key of s") None.

Lemma sealed_frames_are_opaque_witness : opaque_frame w_frame.
Proof.
  apply (sealed_frames_are_opaque w_config w_keys w_frame eq_refl eq_refl).
  apply (from_output w_config 7 "s" "codex" "assistant" "secret" "id"). apply list_elem_of_singleton. by_vm.
Defined.

Lemma sealed_without_keys_leaks_output_witness :
  fPayload <$> sendSessionMessage w_keyless 7 "s" "codex" "assistant" "secret" "id"
  = [Some (session_message_body 7 "codex" "assistant" "secret" "id")].
Proof.
  rewrite (proj1 (sealed_without_keys_leaks_output w_keyless 7 "s" "codex" "assistant" "secret" "id" eq_refl eq_refl)).
  reflexivity.
Defined.

Definition w_msg : payload :=
  {[ "protocol_version" := VString "1.1"; "transport_mode" := VString "sealed"; "type" := VString "send_prompt";
     "client_msg_id" := VString "m"; "sealed_payload" := VObject [("key_scope", VString "session")] ]}.

