(* ===== verification/DaemonSpec.v ===== *)
(** * Correctness of the daemon's command handlers

    What a run of the daemon does to the agent: no prompt is handed over twice,
    and none is reported as accepted that the agent has not taken; what a
    command reports when the queue refuses it. *)

From stdpp Require Import base tactics list gmap strings fin_maps sorting.
From Stdlib Require Import Ascii String ZArith Lia.
From S2P Require Import Prelude GoStrings Json StartThread DaemonWire Daemon.
From S2P Require PromptQueue ActiveTurn.
From S2P Require Import PromptJournal PromptJournalSpec.

#[local] Existing Instance ActiveTurn.TurnLifecycle_eq_dec.
#[local] Existing Instance PromptQueue.promptQueueStatus_eq_dec.

(** ** Traces *)

(** Every output of [t] that comes after [before] meets [G] of what came before
    it. *)
Fixpoint guarded (G : list out -> out -> Prop) (before t : list out) : Prop :=
  match t with
  | [] => True
  | o :: t' => G before o /\ guarded G (before ++ [o]) t'
  end.

Lemma guarded_app G before t1 t2 :
  guarded G before (t1 ++ t2) <-> guarded G before t1 /\ guarded G (before ++ t1) t2.
Proof.
  revert before. induction t1 as [|o t1 IH]; intros before; simpl; [by rewrite app_nil_r; naive_solver|].
  rewrite IH, <- app_assoc. simpl. tauto.
Qed.

Lemma guarded_at G before t1 o t2 : guarded G before (t1 ++ o :: t2) -> G (before ++ t1) o.
Proof. rewrite guarded_app. simpl. tauto. Qed.

Definition refused (a : send_answer) : bool :=
  match a with SendBusy _ | SendNotStarted _ => true | _ => false end.

Definition jkey (device sessionID clientMsgID : string) : string :=
  promptJournalKeyFromHash (deviceHash device) sessionID clientMsgID.

Abbreviation prompt_ids := (gset (string * string)).

Section Traces.
Context (device : string).

(** The prompts handed to the agent so far: the last call of each was not
    refused, and its record was not evicted since. *)
Definition handed_step (A : prompt_ids) (o : out) : prompt_ids :=
  match o with
  | NativeCall s c _ _ _ => {[ (s, c) ]} ∪ A
  | NativeReturn s c a => if refused a then A ∖ {[ (s, c) ]} else A
  | JournalEvicted k => filter (fun sc : string * string => jkey device sc.1 sc.2 <> k) A
  | _ => A
  end.

Definition handed (t : list out) : prompt_ids := foldl handed_step ∅ t.

Definition call_guard (before : list out) (o : out) : Prop :=
  match o with NativeCall s c _ _ _ => (s, c) ∉ handed before | _ => True end.

Lemma handed_app t o : handed (t ++ [o]) = handed_step (handed t) o.
Proof. unfold handed. by rewrite foldl_app. Qed.

(** What can take a prompt out of the set. *)
Lemma handed_lost A s c t :
  (s, c) ∈ A -> (s, c) ∉ foldl handed_step A t ->
  (exists a, NativeReturn s c a ∈ t /\ refused a = true) \/ JournalEvicted (jkey device s c) ∈ t.
Proof.
  revert A. induction t as [|o t IH]; intros A HA Hn; [done|]. cbn [foldl] in Hn.
  destruct (decide ((s, c) ∈ handed_step A o)) as [Ho|Ho].
  { destruct (IH _ Ho Hn) as [(a & Ha & Hr)|He]; [left; exists a; split; [by right|done]|right; by right]. }
  destruct o; cbn [handed_step] in Ho; try done; [set_solver| |].
  - destruct (refused answer) eqn:Ha; [|done]. rewrite elem_of_difference, elem_of_singleton in Ho.
    left. exists answer. split; [|done]. assert ((s, c) = (sessionID, clientMsgID)) as [= -> ->]; [|by left].
    destruct (decide ((s, c) = (sessionID, clientMsgID))); [done|by destruct Ho].
  - rewrite elem_of_filter in Ho. right. assert (jkey device s c = key) as <-; [|by left].
    destruct (decide (jkey device s c = key)); [done|by destruct Ho].
Qed.
End Traces.

(** ** Frames: what most handlers leave alone *)

Definition neutral (o : out) : Prop :=
  match o with
  | NativeCall _ _ _ _ _ | NativeReturn _ _ _ | JournalEvicted _ | PromptAccepted _ _ _ => False
  | _ => True
  end.

(** Outputs a guard accepts whatever came before. *)
Definition unguarded (G : list out -> out -> Prop) : Prop := forall before o, neutral o -> G before o.

Lemma guarded_neutral G before t : unguarded G -> Forall neutral t -> guarded G before t.
Proof.
  intros HG Hn. revert before. induction Hn as [|o t Ho _ IH]; intros before; simpl; [done|]. split; [by apply HG|apply IH].
Qed.

Lemma handed_neutral device A t : Forall neutral t -> foldl (handed_step device) A t = A.
Proof. intros H. revert A. induction H as [|o t Ho _ IH]; intros A; [done|]. simpl. rewrite IH. by destruct o. Qed.

Lemma call_guard_unguarded device : unguarded (call_guard device).
Proof. intros before o. by destruct o. Qed.

Ltac neutral :=
  repeat first
    [ apply Forall_nil; exact I | apply Forall_cons; split; [exact I|] | apply Forall_app; split
    | progress (unfold cleared, remove_dir, queue_update, PromptFailed, PromptIndeterminate)
    | match goal with |- Forall neutral (if ?b then _ else _) => destruct b end
    | match goal with |- Forall neutral ((match ?x with _ => _ end) :: _) => destruct x end
    | match goal with |- Forall neutral (match ?x with _ => _ end) => destruct x end
    | assumption ].

Section Handlers.
Context `{MO : MapOrder} `{QC : !Codec PromptQueue.promptQueueDisk} `{JC : !Codec promptJournalDisk}.
Context (json_marshal : value -> res string) (json_unmarshal : string -> res value).
Context (open_saved : string -> string -> res payload).
Implicit Types (d : daemon) (outs : list out).

Definition Frame d outs d' : Prop :=
  Forall neutral outs /\ commandJournal d' = commandJournal d /\ acceptedPrompts d' = acceptedPrompts d.

Lemma Frame_refl d : Frame d [] d.
Proof. done. Qed.

Lemma Frame_app d o1 d1 o2 d2 : Frame d o1 d1 -> Frame d1 o2 d2 -> Frame d (o1 ++ o2) d2.
Proof. intros (H1 & ? & ?) (H2 & ? & ?). split; [by apply Forall_app|]. split; congruence. Qed.

Lemma Frame_cons d o outs d' : neutral o -> Frame d outs d' -> Frame d (o :: outs) d'.
Proof. intros Ho (H & ? & ?). split; [by constructor|done]. Qed.

(** Outputs only, and a change of the queue, the turns or the counter. *)
Ltac frame := split; [neutral|done].

Lemma handleControlEvent_frame f ev u n d outs d' : handleControlEvent f ev u n d = (outs, d') -> Frame d outs d'.
Proof.
  unfold handleControlEvent. destruct (ActiveTurn.resolve_control_event _ _) as [[e|] r]; [|intros [= <- <-]; frame].
  cbv zeta. repeat case_match; intros [= <- <-]; frame.
Qed.

Lemma pending_event_frame f fl ev d outs d' : pending_event f fl ev d = (outs, d') -> Frame d outs d'.
Proof. destruct ev; [apply handleControlEvent_frame|intros [= <- <-]; frame]. Qed.

Lemma queue_change_frame op s d outs d' : queue_change op s d = (outs, d') -> Frame d outs d'.
Proof. unfold queue_change. case_match; intros [= <- <-]; frame. Qed.

Lemma dispatch_failed_frame f s m dir b e d outs d' : dispatch_failed f s m dir b e d = (outs, d') -> Frame d outs d'.
Proof.
  unfold dispatch_failed. destruct e; destruct (queue_change _ _ _) as [o d1] eqn:Eq;
    apply queue_change_frame in Eq as (Ho & Hj & Hc); intros [= <- <-]; (split; [neutral|done]).
Qed.

Lemma enqueue_prompt_frame f now it q d outs d' : enqueue_prompt f now it q d = (outs, d') -> Frame d outs d'.
Proof. unfold enqueue_prompt. repeat case_match; intros [= <- <-]; frame. Qed.

Lemma accept_turn_frame f fl c d outs d' : accept_turn f fl c d = (outs, d') -> Frame d outs d'.
Proof.
  unfold accept_turn. destruct (ActiveTurn.accept _ _ _ _) as [[pend done] turns].
  destruct (pending_event _ _ _ _) as [o d1] eqn:Ep. apply pending_event_frame in Ep as (Ho & Hj & Hc).
  intros [= <- <-]. split; [neutral|done].
Qed.

Lemma abandon_turn_frame c d outs d' : abandon_turn c d = (outs, d') -> Frame d outs d'.
Proof. unfold abandon_turn. destruct (ActiveTurn.abandonAcceptance _ _ _ _). intros [= <- <-]. frame. Qed.

Lemma dispatch_claim_frame f1 f2 st ads s d outs cl d' :
  dispatch_claim json_unmarshal open_saved f1 f2 st ads s d = (outs, cl, d') -> Frame d outs d'.
Proof.
  unfold dispatch_claim. repeat case_match; intros [= <- <- <-]; try frame.
  match goal with H : queue_change _ _ _ = _ |- _ => apply queue_change_frame in H as (? & ? & ?) end.
  split; [neutral|done].
Qed.

Lemma on_complete_frame c d outs d' : on_complete c d = (outs, d') -> Frame d outs d'.
Proof. unfold on_complete. destruct (ActiveTurn.completeMatching _ _ _ _). intros [= <- <-]. frame. Qed.

Lemma cancel_prompt_frame f s p d outs d' : cancel_prompt f s p d = (outs, d') -> Frame d outs d'.
Proof. unfold cancel_prompt. repeat case_match; intros [= <- <-]; frame. Qed.

Lemma resume_frame f s d outs d' : resume_prompt_queue f s d = (outs, d') -> Frame d outs d'.
Proof. unfold resume_prompt_queue. repeat case_match; intros [= <- <-]; frame. Qed.

Lemma skip_frame f s p d outs d' : skip_prompt_queue_item f s p d = (outs, d') -> Frame d outs d'.
Proof. unfold skip_prompt_queue_item. repeat case_match; intros [= <- <-]; frame. Qed.

Lemma interrupt_frame f o t a s p d outs d' : interrupt f o t a s p d = (outs, d') -> Frame d outs d'.
Proof. unfold interrupt. repeat case_match; intros [= <- <-]; frame. Qed.

(** ** The handlers that use the journal *)

(** Journal operations in order, whatever each returned. *)
Definition run_ops (ops : list (io * journal_op)) (j : promptJournal) : promptJournal :=
  foldl (fun j fop => (run_jop fop.1 fop.2 j).2) j ops.

(** A prompt on its way to the agent. *)
Inductive handover (d : daemon) (s c : string) : list out -> progress -> daemon -> Prop :=
  | handover_none outs d' : Frame d outs d' -> handover d s c outs Finished d'
  | handover_refused f now p j1 r ops outs d' :
      run_jop f (JMarkDispatching now s c p) (commandJournal d) = (r, j1) ->
      (ops = [] \/ r = Ok tt /\ exists f2, ops = [(f2, JRollback s c)]) ->
      Frame (with_journal d (run_ops ops j1)) outs d' ->
      handover d s c (eviction (commandJournal d) s c ++ outs) Finished d'
  | handover_called f now p j1 prompt mode g call d' :
      run_jop f (JMarkDispatching now s c p) (commandJournal d) = (Ok tt, j1) ->
      Frame (with_journal d j1) [] d' -> ncSession call = s -> ncClient call = c ->
      handover d s c (eviction (commandJournal d) s c ++ [NativeCall s c prompt mode g]) (InFlight call) d'.

Lemma dispatch_direct_handover f1 f2 now s c t pc att d outs r d' :
  dispatch_direct f1 f2 now s c t pc att d = (outs, r, d') -> handover d s c outs r d'.
Proof.
  unfold dispatch_direct. destruct (match pcRefs pc with [] => _ | _ => _ end) as [[dir suffix]|e];
    [|intros [= <- <- <-]; apply handover_none; frame].
  unfold next_generation, mark_dispatching, Daemon.journal_op. destruct (markDispatching _ _ _ _ _ _) as [r1 j1] eqn:Em.
  cbn zeta iota beta. destruct r1 as [[]|e].
  2:{ intros [= <- <- <-]. eapply (handover_refused d s c f1 now _ j1 _ []); [exact Em|by left|frame]. }
  destruct (ActiveTurn.bind _ _ _ _) as [bound turns]. destruct bound; cbn [negb].
  - intros [= <- <- <-]. eapply handover_called; [exact Em|frame|done|done].
  - destruct (rollbackDispatching _ _ _ _) as [rb j2] eqn:Er. intros [= <- <- <-].
    eapply (handover_refused d s c f1 now _ j1 _ [(f2, JRollback s c)]); [exact Em|right; eauto|].
    unfold run_ops. cbn [foldl fst snd run_jop]. cbn in Er. rewrite Er. frame.
Qed.

Lemma dispatch_start_handover f1 f2 f3 now cl att d outs r d' :
  dispatch_start f1 f2 f3 now cl att d = (outs, r, d') ->
  handover d (PromptQueue.SessionID (clItem cl)) (PromptQueue.ClientMsgID (clItem cl)) outs r d'.
Proof.
  unfold dispatch_start. set (s := PromptQueue.SessionID _). set (c := PromptQueue.ClientMsgID _).
  destruct (clPayload cl) as [[[prompt refs] mode]|e].
  2:{ destruct (dispatch_failed _ _ _ _ _ _ _) as [o d1] eqn:Ef. apply dispatch_failed_frame in Ef.
      intros [= <- <- <-]. by apply handover_none. }
  destruct (match refs with [] => _ | _ => _ end) as [[dir suffix]|e].
  2:{ destruct (dispatch_failed _ _ _ _ _ _ _) as [o d1] eqn:Ef. apply dispatch_failed_frame in Ef.
      intros [= <- <- <-]. by apply handover_none. }
  unfold next_generation, mark_dispatching, Daemon.journal_op. cbn [commandJournal].
  destruct (markDispatching _ _ _ _ _ _) as [r1 j1] eqn:Em. cbn zeta iota beta. destruct r1 as [[]|e].
  2:{ destruct (dispatch_failed _ _ _ _ _ _ _) as [o d1] eqn:Ef. apply dispatch_failed_frame in Ef as (Ho & Hj & Hc).
      intros [= <- <- <-]. rewrite <- app_assoc.
      eapply (handover_refused d s c f1 now _ j1 _ []); [exact Em|by left|split; [neutral|done]]. }
  destruct (ActiveTurn.bind _ _ _ _) as [bound turns]. destruct bound; cbn [negb].
  - intros [= <- <- <-]. eapply handover_called; [exact Em|frame|done|done].
  - destruct (rollbackDispatching _ _ _ _) as [rb j2] eqn:Er.
    destruct (dispatch_failed _ _ _ _ _ _ _) as [o d1] eqn:Ef. apply dispatch_failed_frame in Ef as (Ho & Hj & Hc).
    intros [= <- <- <-]. rewrite <- app_assoc.
    eapply (handover_refused d s c f1 now _ j1 _ [(f2, JRollback s c)]); [exact Em|right; eauto|].
    unfold run_ops. cbn [foldl fst snd run_jop]. cbn in Er. rewrite Er. split; [neutral|done].
Qed.

(** What the daemon can base a [PromptAccepted] on without asking the agent. *)
Definition known_accepted d (s c : string) : Prop :=
  (exists r, state (commandJournal d) s c = Some r /\ default_reply (Status r) = true) \/
  is_Some (ActiveTurn.cache_get (acceptedPrompts d) s c).

Definition reply_ok d (s c : string) (o : out) : Prop :=
  neutral o \/ exists e, o = PromptAccepted s c e /\ known_accepted d s c.

Lemma neutral_replies d s c outs : Forall neutral outs -> Forall (reply_ok d s c) outs.
Proof. intros H. eapply Forall_impl; [exact H|]. intros o Ho. by left. Qed.

Lemma recorded_reply_ok d s c r : state (commandJournal d) s c = Some r -> reply_ok d s c (recorded_reply d s c r).
Proof.
  intros Hr. unfold recorded_reply, reply_ok. destruct (default_reply (Status r)) eqn:Hd; [right|by left].
  eexists. split; [done|]. left. eauto.
Qed.

Lemma queued_reply_ok d q s c it : Forall (reply_ok d s c) (queued_reply q s c it).
Proof. unfold queued_reply. apply neutral_replies. neutral. Qed.

Lemma known_prompt_ok d s c outs : known_prompt d s c = Some outs -> Forall (reply_ok d s c) outs.
Proof.
  unfold known_prompt. destruct (state _ s c) as [r|] eqn:Hr.
  { intros [= <-]. constructor; [by apply recorded_reply_ok|constructor]. }
  destruct (ActiveTurn.cache_get _ s c) as [e|] eqn:He.
  { intros [= <-]. constructor; [right; eexists; split; [done|]; right; by eexists|constructor]. }
  destruct (durableQueue d) as [q|]; [|done]. destruct (PromptQueue.item q s c); [|done].
  intros [= <-]. apply queued_reply_ok.
Qed.

Lemma prompt_status_query_ok s p msg d : Forall (reply_ok d s (command_client_id p msg)) (prompt_status_query s p msg d).
Proof.
  unfold prompt_status_query. set (c := command_client_id p msg). destruct (is_empty c); [apply neutral_replies; neutral|].
  destruct (match durableQueue d with Some q => _ | None => _ end) as [reply|] eqn:Hq.
  { destruct (durableQueue d) as [q|]; [|done]. destruct (PromptQueue.item q s c); [|done].
    injection Hq as <-. apply queued_reply_ok. }
  destruct (state _ s c) as [r|] eqn:Hr; [|apply neutral_replies; neutral].
  constructor; [by apply recorded_reply_ok|constructor].
Qed.

Lemma send_prompt_cases f1 f2 now env att s p w d outs r d' :
  send_prompt json_marshal f1 f2 now env att s p w d = (outs, r, d') ->
  (Forall (reply_ok d s (prompt_client_id p)) outs /\ r = Finished /\ d' = d) \/
  handover d s (prompt_client_id p) outs r d'.
Proof.
  unfold send_prompt. set (c := prompt_client_id p).
  destruct (is_empty c); [intros [= <- <- <-]; right; apply handover_none; frame|].
  destruct (known_prompt d s c) as [reply|] eqn:Hk; [intros [= <- <- <-]; left; by apply known_prompt_ok in Hk|].
  intros H. right. revert H.
  destruct (parse_prompt p) as [pc|e]; [|intros [= <- <- <-]; apply handover_none; frame].
  destruct (match targetAdapter env with Some a => Some a | None => _ end) as [target|];
    [|intros [= <- <- <-]; apply handover_none; frame].
  destruct (if (isCodex target && _)%bool then _ else _) as [q|]; [|apply dispatch_direct_handover].
  destruct (enqueue_prompt _ _ _ _ _) as [o d1] eqn:Eq. apply enqueue_prompt_frame in Eq.
  intros [= <- <- <-]. by apply handover_none.
Qed.

(** A native call that has returned [a]. *)
Definition return_op (s c : string) (a : send_answer) (op : journal_op) : Prop :=
  (op = JRollback s c /\ refused a = true) \/ (exists now, op = JMarkIndeterminate now s c) \/
  (exists now, op = JMarkAccepted now s c /\ a = SendOk).

Definition comeback d (s c : string) (a : send_answer) outs d' : Prop :=
  exists ops outs1 d1, Forall (fun fop => return_op s c a fop.2) ops /\
    Frame (with_journal d (run_ops ops (commandJournal d))) outs1 d1 /\
    ((outs = outs1 /\ d' = d1) \/
     (a = SendOk /\ exists e, outs = outs1 ++ [PromptAccepted s c e] /\
        d' = with_cache d1 (ActiveTurn.cache_add (acceptedPrompts d1) s c e))).

Lemma comeback_plain d s c a ops outs d' :
  Forall (fun fop => return_op s c a fop.2) ops -> Frame (with_journal d (run_ops ops (commandJournal d))) outs d' ->
  comeback d s c a outs d'.
Proof. intros H1 H2. exists ops, outs, d'. split; [done|]. split; [done|by left]. Qed.

Lemma current_turn_neutral d s : Forall neutral (current_turn d s).
Proof. unfold current_turn. neutral. Qed.

(** The return is the operations [ops], whose equations are in the context, and
    a frame. *)
Ltac return_ops :=
  repeat apply Forall_cons_2; try apply Forall_nil_2; cbn [snd]; unfold return_op; naive_solver.
Ltac after_ops :=
  unfold run_ops; cbn [foldl fst snd run_jop];
  repeat match goal with
  | H : _ = (_, _) |- _ => (rewrite H || (cbn [commandJournal with_journal] in H; rewrite H)); cbn [snd]
  end; split; [neutral|done].

Lemma accepted_comeback f now s c d r j1 outs d' :
  markAccepted f now s c (commandJournal d) = (r, j1) ->
  (exists outs1, Frame (with_journal d j1) outs1 d' /\ outs = outs1) \/
  (exists outs1 d1 e, Frame (with_journal d j1) outs1 d1 /\ outs = outs1 ++ [PromptAccepted s c e] /\
     d' = with_cache d1 (ActiveTurn.cache_add (acceptedPrompts d1) s c e)) ->
  comeback d s c SendOk outs d'.
Proof.
  intros Ea H. assert (Hops : run_ops [(f, JMarkAccepted now s c)] (commandJournal d) = j1).
  { unfold run_ops. cbn. by rewrite Ea. }
  destruct H as [(o & Hf & ->)|(o & d1 & e & Hf & -> & ->)].
  - apply (comeback_plain _ _ _ _ [(f, JMarkAccepted now s c)]); [return_ops|by rewrite Hops].
  - exists [(f, JMarkAccepted now s c)], o, d1. rewrite Hops. split_and!; [return_ops|done|right; eauto].
Qed.

Lemma return_direct_comeback f1 f2 now fl c a d outs d' :
  return_direct f1 f2 now fl c a d = (outs, d') -> comeback d (ncSession c) (ncClient c) a outs d'.
Proof.
  unfold return_direct. set (s := ncSession c). set (m := ncClient c).
  pose proof (current_turn_neutral d s) as Hcur.
  destruct a as [|msg|msg|msg|msg]; unfold Daemon.journal_op;
    change (commandJournal (clear_turn c d)) with (commandJournal d).
  - destruct (markAccepted _ _ _ _ _) as [r j1] eqn:Ea. destruct r as [[]|e].
    + destruct (accept_turn _ _ _ _) as [o d2] eqn:Et. apply accept_turn_frame in Et as (Ho & Hj & Hc).
      intros [= <- <-]. eapply (accepted_comeback f1 now); [exact Ea|right].
      exists (current_turn d s ++ o), d2. eexists. rewrite <- app_assoc. split; [split; [neutral|done]|done].
    + destruct (abandon_turn _ _) as [o d2] eqn:Et. apply abandon_turn_frame in Et as (Ho & Hj & Hc).
      intros [= <- <-]. eapply (accepted_comeback f1 now); [exact Ea|left].
      eexists. split; [|done]. split; [neutral|done].
  - destruct (rollbackDispatching _ _ _ _) as [[u|e] j1] eqn:Er.
    + intros [= <- <-]. apply (comeback_plain _ _ _ _ [(f1, JRollback s m)]); [return_ops|after_ops].
    + destruct (markIndeterminate _ _ _ _ _) as [r2 j2] eqn:Ei. intros [= <- <-].
      apply (comeback_plain _ _ _ _ [(f1, JRollback s m); (f2, JMarkIndeterminate now s m)]); [return_ops|after_ops].
  - destruct (rollbackDispatching _ _ _ _) as [[u|e] j1] eqn:Er.
    + intros [= <- <-]. apply (comeback_plain _ _ _ _ [(f1, JRollback s m)]); [return_ops|after_ops].
    + destruct (markIndeterminate _ _ _ _ _) as [r2 j2] eqn:Ei. intros [= <- <-].
      apply (comeback_plain _ _ _ _ [(f1, JRollback s m); (f2, JMarkIndeterminate now s m)]); [return_ops|after_ops].
  - destruct (markIndeterminate _ _ _ _ _) as [r2 j2] eqn:Ei. intros [= <- <-].
    apply (comeback_plain _ _ _ _ [(f2, JMarkIndeterminate now s m)]); [return_ops|after_ops].
  - destruct (markIndeterminate _ _ _ _ _) as [r2 j2] eqn:Ei. intros [= <- <-].
    apply (comeback_plain _ _ _ _ [(f2, JMarkIndeterminate now s m)]); [return_ops|after_ops].
Qed.

Lemma return_queued_comeback f1 f2 f3 now fl c a d outs d' :
  return_queued f1 f2 f3 now fl c a d = (outs, d') -> comeback d (ncSession c) (ncClient c) a outs d'.
Proof.
  unfold return_queued. set (s := ncSession c). set (m := ncClient c).
  pose proof (current_turn_neutral d s) as Hcur.
  assert (Hfail : forall ops j1 d1 o b e,
    run_ops ops (commandJournal d) = j1 -> commandJournal d1 = j1 -> acceptedPrompts d1 = acceptedPrompts d ->
    Forall (fun fop => return_op s m a fop.2) ops -> Forall neutral o ->
    (let '(outs', d') := dispatch_failed f3 s m (ncDir c) b e d1 in (o ++ outs', d')) = (outs, d') ->
    comeback d s m a outs d').
  { intros ops j1 d1 o b e <- Hj Hc Hops Ho. destruct (dispatch_failed _ _ _ _ _ _ _) as [o2 d2] eqn:Ef.
    apply dispatch_failed_frame in Ef as (Ho2 & Hj2 & Hc2). intros [= <- <-].
    apply (comeback_plain _ _ _ _ ops); [done|]. split; [neutral|]. split; simpl; congruence. }
  destruct a as [|msg|msg|msg|msg]; unfold Daemon.journal_op;
    change (commandJournal (clear_turn c d)) with (commandJournal d).
  - destruct (markAccepted _ _ _ _ _) as [r j1] eqn:Ea. destruct r as [[]|e].
    + destruct (accept_turn _ _ _ _) as [o d2] eqn:Et. apply accept_turn_frame in Et as (Ho & Hj & Hc).
      intros [= <- <-]. eapply (accepted_comeback f1 now); [exact Ea|right].
      exists (current_turn d s ++ o ++ (if ncAcker c then [AcknowledgePrompt s (ncGeneration c)] else [])), d2.
      eexists. rewrite <- !app_assoc. split; [split; [neutral|done]|done].
    + destruct (abandon_turn _ _) as [o d2] eqn:Et. apply abandon_turn_frame in Et as (Ho & Hj & Hc).
      apply (Hfail [(f1, JMarkAccepted now s m)] j1); [|done|done|return_ops|neutral].
      unfold run_ops. cbn. by rewrite Ea.
  - destruct (rollbackDispatching _ _ _ _) as [r j1] eqn:Er.
    apply (Hfail [(f1, JRollback s m)] j1); [|done|done|return_ops|neutral]. unfold run_ops. cbn. by rewrite Er.
  - destruct (rollbackDispatching _ _ _ _) as [r j1] eqn:Er. destruct r as [u|e];
      (apply (Hfail [(f1, JRollback s m)] j1); [|done|done|return_ops|neutral]; unfold run_ops; cbn; by rewrite Er).
  - destruct (markIndeterminate _ _ _ _ _) as [r j1] eqn:Er.
    apply (Hfail [(f1, JMarkIndeterminate now s m)] j1); [|done|done|return_ops|neutral]. unfold run_ops. cbn. by rewrite Er.
  - destruct (markIndeterminate _ _ _ _ _) as [r j1] eqn:Er.
    apply (Hfail [(f1, JMarkIndeterminate now s m)] j1); [|done|done|return_ops|neutral]. unfold run_ops. cbn. by rewrite Er.
Qed.
End Handlers.

(** ** Journal operations on one key *)

Section Journal.
Context `{MO : MapOrder} `{JC : !Codec promptJournalDisk}.
Context `{CL : !CodecLaws promptJournalDisk journal_encodable journal_equiv}.
Implicit Types (j : promptJournal) (k : string).

Definition op_key j (op : journal_op) : string :=
  match op with
  | JMarkDispatching _ s c _ | JRollback s c | JMarkAccepted _ s c | JMarkIndeterminate _ s c | JMarkCommitted _ s c =>
    promptJournalKeyFromHash (jdeviceHash j) s c
  end.

(** The keys an operation may drop besides its own. *)
Definition op_evicts j (op : journal_op) : list out :=
  match op with JMarkDispatching _ s c _ => eviction j s c | _ => [] end.

Lemma effect_other j op next k :
  jop_effect op j next -> k <> op_key j op -> JournalEvicted k ∉ op_evicts j op -> next !! k = records j !! k.
Proof.
  assert (Hmoved : forall key st, moved j key st next -> k <> key -> next !! k = records j !! k).
  { intros key st (cur & cur' & _ & _ & _ & ->) Hk. by rewrite lookup_insert_ne. }
  destruct op as [now s c p|s c|now s c|now s c|now s c]; cbn [jop_effect op_key op_evicts]; eauto.
  - intros (Hv & Hn & kept & rec & Hkept & _ & ->) Hk He. rewrite lookup_insert_ne by done.
    destruct Hkept as [->|(o & (Hfull & Hold & _) & ->)]; [done|]. rewrite lookup_delete_ne; [done|].
    intros <-. apply He. unfold eviction. rewrite Hv, Hn, Hold.
    destruct (max j <=? Z.of_nat (size (records j))) eqn:E; bool_hyps; [by left|lia].
  - intros [_ ->] Hk _. by rewrite lookup_delete_ne.
Qed.

Lemma eviction_committed j s c k :
  journal_inv j -> JournalEvicted k ∈ eviction j s c -> journal_status (records j) k = Some promptJournalCommitted.
Proof.
  intros [W _]. unfold eviction. destruct (validateJournalIdentifiers s c); [|by intros ?%not_elem_of_nil].
  destruct (records j !! _); [by intros ?%not_elem_of_nil|]. destruct (_ <=? _); [|by intros ?%not_elem_of_nil].
  pose proof (oldest_committed_spec (range_values (records j)) None) as Ho.
  destruct (oldest_committed _ None) as [o|]; [|by intros ?%not_elem_of_nil].
  intros [= ->]%list_elem_of_singleton. destruct Ho as ([?|[[k Hk]%elem_of_range_values Hs]] & _); [done|].
  unfold journal_status. rewrite (jwf_key _ _ _ W _ _ Hk), Hk. simpl. by rewrite Hs.
Qed.

Lemma eviction_inert j s c o : o ∈ eviction j s c -> exists k, o = JournalEvicted k.
Proof.
  unfold eviction. repeat case_match; try (by intros ?%not_elem_of_nil). intros ->%list_elem_of_singleton. by eexists.
Qed.

(** What an operation leaves of the other keys. *)
Lemma run_jop_other f op j r j' k :
  journal_inv j -> run_jop f op j = (r, j') -> k <> op_key j op -> JournalEvicted k ∉ op_evicts j op ->
  (jholds (recorded k) j -> jholds (recorded k) j') /\
  journal_status (records j') k = journal_status (records j) k.
Proof.
  intros Hi Hop Hk He. split.
  - intros Hq. eapply run_jop_holds; [done|done|done|]. intros next Hn. unfold recorded.
    rewrite (effect_other _ _ _ _ Hn Hk He). apply Hq.
  - destruct Hi as [W _]. apply run_jop_commits in Hop as [[-> _]|(next & _ & Hn & Hc)]; [done| |done].
    apply commit_records_spec in Hc as (_ & [(_ & -> & _)|(e & _ & -> & _)]); [|done].
    unfold journal_status. by rewrite (effect_other _ _ _ _ Hn Hk He).
Qed.

(** An operation other than a roll-back does not drop its own key. *)
Lemma run_jop_own f op j r j' :
  journal_inv j -> run_jop f op j = (r, j') -> (forall s c, op <> JRollback s c) ->
  jholds (recorded (op_key j op)) j -> jholds (recorded (op_key j op)) j'.
Proof.
  intros Hi Hop Hne Hq. eapply run_jop_holds; [done|done|done|]. intros next Hn. unfold recorded.
  destruct op as [now s c p|s c|now s c|now s c|now s c]; cbn [jop_effect op_key] in *;
    [|by destruct (Hne s c)| | |]; [destruct Hn as (_ & _ & kept & rec & _ & _ & ->)
    |destruct Hn as (cur & cur' & _ & _ & _ & ->)..]; rewrite lookup_insert_eq; by eexists.
Qed.

(** A successful [markDispatching]. *)
Lemma mark_ok f now s c p j j' :
  journal_inv j -> run_jop f (JMarkDispatching now s c p) j = (Ok tt, j') ->
  let k := promptJournalKeyFromHash (jdeviceHash j) s c in
  records j !! k = None /\ jholds (recorded k) j' /\ journal_status (records j') k = Some promptJournalDispatching.
Proof.
  intros [W _] Hop k. apply run_jop_commits in Hop as [[_ ?]|(next & Wn & Hn & Hc)]; [done| |done].
  destruct Hn as (_ & Hk & kept & rec & _ & Hr & ->).
  apply commit_records_spec in Hc as ([Hh Hm] & [(_ & Hrec & Hw)|(e & ? & _)]); [|done].
  split; [done|]. unfold jholds, recorded, journal_status. rewrite Hh, Hm, Hrec, lookup_insert_eq. split; [|by rewrite <- Hr].
  split; [by eexists|]. eexists. split_and!; [exact Wn|done|]. rewrite lookup_insert_eq. by eexists.
Qed.

(** A failed operation leaves the records in memory as they were. *)
Lemma run_jop_err f op j e j' : journal_inv j -> run_jop f op j = (Err e, j') -> records j' = records j.
Proof.
  intros [W _] Hop. apply run_jop_commits in Hop as [[-> _]|(nx & _ & _ & Hcm)]; [done| |done].
  by apply commit_records_spec in Hcm as (_ & [(? & _)|(e' & _ & ? & _)]).
Qed.

(** A successful roll-back forgets the prompt. *)
Lemma rollback_ok f s c j u j' :
  journal_inv j -> run_jop f (JRollback s c) j = (Ok u, j') -> state j' s c = None.
Proof.
  intros [W _] Hop. apply run_jop_commits in Hop as [[_ ?]|(nx & _ & [_ ->] & Hcm)]; [done| |done].
  apply commit_records_spec in Hcm as ([Hh _] & [(_ & Hr & _)|(e & ? & _)]); [|done].
  unfold state. destruct (is_empty c); [done|]. rewrite Hr, Hh. apply lookup_delete_eq.
Qed.

Lemma same_ids_trans j1 j2 j3 : same_ids j1 j2 -> same_ids j2 j3 -> same_ids j1 j3.
Proof. intros [H1 H2] [H3 H4]. split; congruence. Qed.

(** Several operations on the same key. *)
Lemma run_ops_inv ops j : journal_inv j -> journal_inv (run_ops ops j) /\ same_ids j (run_ops ops j).
Proof.
  revert j. induction ops as [|[f op] ops IH]; intros j Hi; [done|]. unfold run_ops. cbn [foldl fst snd].
  destruct (run_jop f op j) as [r j1] eqn:Er. cbn [snd].
  destruct (run_jop_inv _ _ _ _ _ Hi Er) as [Hi1 Hs1]. destruct (IH _ Hi1) as [Hi2 Hs2].
  split; [done|]. by eapply same_ids_trans.
Qed.

Lemma run_ops_other s c a ops j k :
  journal_inv j -> Forall (fun fop => return_op s c a fop.2) ops ->
  k <> promptJournalKeyFromHash (jdeviceHash j) s c ->
  (jholds (recorded k) j -> jholds (recorded k) (run_ops ops j)) /\
  journal_status (records (run_ops ops j)) k = journal_status (records j) k.
Proof.
  revert j. induction ops as [|[f op] ops IH]; intros j Hi Hops Hk; [done|].
  apply Forall_cons in Hops as [Hop Hops]. unfold run_ops. cbn [foldl fst snd] in *.
  destruct (run_jop f op j) as [r j1] eqn:Er. cbn [snd].
  destruct (run_jop_inv _ _ _ _ _ Hi Er) as [Hi1 [Hh1 _]].
  assert (Hkey : k <> op_key j op /\ JournalEvicted k ∉ op_evicts j op).
  { destruct Hop as [[-> _]|[[now ->]|[now [-> _]]]]; cbn; split; first [done|apply not_elem_of_nil]. }
  destruct (run_jop_other _ _ _ _ _ _ Hi Er (proj1 Hkey) (proj2 Hkey)) as [Ho1 Hs1].
  destruct (IH j1 Hi1 Hops) as [Ho2 Hs2]; [by rewrite Hh1|]. split; [by auto|by rewrite <- Hs1].
Qed.

Lemma run_ops_own s c a ops j :
  journal_inv j -> Forall (fun fop => return_op s c a fop.2) ops -> refused a = false ->
  let k := promptJournalKeyFromHash (jdeviceHash j) s c in
  jholds (recorded k) j -> jholds (recorded k) (run_ops ops j).
Proof.
  intros Hi Hops Ha k. subst k. revert j Hi. induction ops as [|[f op] ops IH]; intros j Hi Hq; [done|].
  apply Forall_cons in Hops as [Hop Hops]. unfold run_ops. cbn [foldl fst snd] in *.
  destruct (run_jop f op j) as [r j1] eqn:Er. cbn [snd].
  destruct (run_jop_inv _ _ _ _ _ Hi Er) as [Hi1 [Hh1 _]]. rewrite <- Hh1. apply IH; [done|done|].
  rewrite Hh1. destruct Hop as [[-> ?]|[[now ->]|[now [-> _]]]]; [congruence| |];
    (eapply (run_jop_own _ _ _ _ _ Hi Er); [done|done]).
Qed.
End Journal.

(** ** The invariant of a run *)

Section Runs.
Context `{MO : MapOrder} `{QC : !Codec PromptQueue.promptQueueDisk} `{JC : !Codec promptJournalDisk}.
Context `{CL : !CodecLaws promptJournalDisk journal_encodable journal_equiv}.
Context (json_marshal : value -> res string) (json_unmarshal : string -> res value).
Context (open_saved : string -> string -> res payload).
Context (device : string).
Implicit Types (A : prompt_ids) (j : promptJournal) (calls : gmap string native_call) (outs t : list out).

Abbreviation step := (daemon_step json_marshal json_unmarshal open_saved device).
Abbreviation run := (daemon_run json_marshal json_unmarshal open_saved device).

Definition keys_distinct A : Prop :=
  forall p q : string * string, p ∈ A -> q ∈ A -> jkey device p.1 p.2 = jkey device q.1 q.2 -> p = q.

(** Every prompt handed over is recorded, in memory and in the file; the
    records of the calls in flight are [dispatching]. *)
Record UpInv A j calls : Prop := {
  up_inv : journal_inv j;
  up_hash : jdeviceHash j = deviceHash device;
  up_max : max j = maxAcceptedPromptIDs;
  up_recorded : forall s c, (s, c) ∈ A -> jholds (recorded (jkey device s c)) j;
  up_distinct : keys_distinct A;
  up_calls : forall s call, calls !! s = Some call -> ncSession call = s /\ (s, ncClient call) ∈ A /\
    journal_status (records j) (jkey device s (ncClient call)) = Some promptJournalDispatching
}.

Definition run_inv A (p : process) : Prop :=
  match p with
  | ProcUp d calls _ => UpInv A (commandJournal d) calls
  | ProcDown _ jf =>
    jdisk_ok (deviceHash device) maxAcceptedPromptIDs jf /\ keys_distinct A /\
    forall s c, (s, c) ∈ A -> durable (recorded (jkey device s c)) (deviceHash device) maxAcceptedPromptIDs jf
  end.

Lemma keys_distinct_subset A A' : keys_distinct A -> A' ⊆ A -> keys_distinct A'.
Proof. intros H Hs p q Hp Hq. apply H; by apply Hs. Qed.

Definition inert (o : out) : Prop :=
  match o with NativeCall _ _ _ _ _ | NativeReturn _ _ _ | JournalEvicted _ => False | _ => True end.

Lemma neutral_inert o : neutral o -> inert o.
Proof. by destruct o. Qed.

Lemma handed_inert A outs : Forall inert outs -> foldl (handed_step device) A outs = A.
Proof. intros H. revert A. induction H as [|o outs Ho _ IH]; intros A; [done|]. simpl. rewrite IH. by destruct o. Qed.

Lemma guarded_inert before outs : Forall inert outs -> guarded (call_guard device) before outs.
Proof. intros H. revert before. induction H as [|o outs Ho _ IH]; intros b; [done|]. split; [by destruct o|apply IH]. Qed.

(** Evictions keep the calls in flight and what they do not name. *)
Lemma evictions_subset A outs :
  (forall o, o ∈ outs -> exists k, o = JournalEvicted k) ->
  forall sc, sc ∈ foldl (handed_step device) A outs <-> sc ∈ A /\ JournalEvicted (jkey device sc.1 sc.2) ∉ outs.
Proof.
  revert A. induction outs as [|o outs IH]; intros A H sc; simpl.
  { split; [intros ?; split; [done|apply not_elem_of_nil]|by intros [? _]]. }
  destruct (H o) as [k ->]; [by left|]. rewrite IH by (intros o Ho; apply H; by right). cbn [handed_step].
  rewrite elem_of_filter, not_elem_of_cons. split; [|intros (? & Hne & ?)].
  - intros [[Hne HA] Hn]. split_and!; [done|congruence|done].
  - split_and!; [congruence|done|done].
Qed.

(** A successful or failed [markDispatching] with its eviction. *)
Lemma mark_inv A j calls f now s c p r j1 :
  UpInv A j calls -> run_jop f (JMarkDispatching now s c p) j = (r, j1) ->
  UpInv (foldl (handed_step device) A (eviction j s c)) j1 calls.
Proof.
  intros [Hi Hh Hm Hr Hd Hc] Hop. pose proof (evictions_subset A _ (eviction_inert j s c)) as HA.
  destruct (run_jop_inv _ _ _ _ _ Hi Hop) as [Hi1 [Hh1 Hm1]].
  assert (Hkey : forall k, is_Some (journal_status (records j) k) -> r = Ok tt -> k <> op_key j (JMarkDispatching now s c p)).
  { intros k [st Hst] -> ->. apply mark_ok in Hop as [Hn _]; [|done]. unfold journal_status in Hst.
    cbn [op_key] in Hst. by rewrite Hn in Hst. }
  split; [done|congruence|congruence| | |].
  - intros s1 c1 [H1 H2]%HA. simpl in H2. pose proof (Hr _ _ H1) as Hq.
    eapply run_jop_holds; [exact Hi|exact Hop|exact Hq|]. intros next Hn. unfold recorded.
    destruct Hq as [[x Hx] _]. rewrite (effect_other _ _ _ _ Hn); [by eexists| |done].
    cbn [op_key]. destruct Hn as (_ & Hnone & _). intros Heq. rewrite Heq in Hx. congruence.
  - eapply keys_distinct_subset; [done|]. intros sc [? _]%HA. done.
  - intros s1 call Hcall. destruct (Hc _ _ Hcall) as (Hs1 & HinA & Hst).
    assert (He : JournalEvicted (jkey device s1 (ncClient call)) ∉ eviction j s c).
    { intros Hin%eviction_committed; [congruence|done]. }
    split_and!; [done|by apply HA|]. destruct r as [[]|e].
    + destruct (run_jop_other _ _ _ _ _ (jkey device s1 (ncClient call)) Hi Hop) as [_ ->]; [|done|done].
      apply Hkey; [by eexists|done].
    + by rewrite (run_jop_err _ _ _ _ _ Hi Hop).
Qed.

(** Calls of other prompts in flight survive an operation on one key, and so
    does what was handed over. *)
Lemma return_inv A j calls s c a ops :
  UpInv A j calls -> Forall (fun fop => return_op s c a fop.2) ops ->
  (exists call, calls !! s = Some call /\ ncClient call = c) ->
  UpInv (handed_step device A (NativeReturn s c a)) (run_ops ops j) (base.delete s calls).
Proof.
  intros [Hi Hh Hm Hr Hd Hc] Hops (call & Hcall & <-).
  destruct (Hc _ _ Hcall) as (Hs & HA & Hst). destruct (run_ops_inv ops j Hi) as [Hi1 [Hh1 Hm1]].
  set (c := ncClient call) in *. cbn [handed_step].
  assert (Hother : forall k, k <> jkey device s c ->
    (jholds (recorded k) j -> jholds (recorded k) (run_ops ops j)) /\
    journal_status (records (run_ops ops j)) k = journal_status (records j) k).
  { intros k Hk. eapply run_ops_other; [done|done|]. by rewrite Hh. }
  split; [done|congruence|congruence| | |].
  - intros s1 c1 H1. destruct (decide ((s1, c1) = (s, c))) as [[= -> ->]|Hne].
    + destruct (refused a) eqn:Ha; [set_solver|]. unfold jkey. rewrite <- Hh.
      eapply run_ops_own; [done|done|done|]. rewrite Hh. by apply Hr.
    + assert (HA1 : (s1, c1) ∈ A) by (destruct (refused a); set_solver).
      apply Hother; [|by apply Hr]. intros Heq. apply Hne. by apply Hd.
  - eapply keys_distinct_subset; [done|]. destruct (refused a); set_solver.
  - intros s1 call1 [Hne1 H1]%lookup_delete_Some. destruct (Hc _ _ H1) as (Hs1 & HA1 & Hst1).
    assert (Hne : (s1, ncClient call1) <> (s, c)) by congruence.
    split_and!; [done|destruct (refused a); set_solver|].
    rewrite (proj2 (Hother (jkey device s1 (ncClient call1)) ltac:(intros Heq; apply Hne; by apply Hd))). done.
Qed.

Lemma UpInv_frame A d outs d' calls : UpInv A (commandJournal d) calls -> Frame d outs d' -> UpInv A (commandJournal d') calls.
Proof. by intros H (_ & -> & _). Qed.

(** A [markDispatching] that is rolled back at once. *)
Lemma rolled_back_inv A j calls f now s c p j1 f2 :
  UpInv A j calls -> run_jop f (JMarkDispatching now s c p) j = (Ok tt, j1) ->
  UpInv (foldl (handed_step device) A (eviction j s c)) (run_ops [(f2, JRollback s c)] j1) calls.
Proof.
  intros HI Hop. pose proof (mark_inv _ _ _ _ _ _ _ _ _ _ HI Hop) as HI1. unfold run_ops. cbn [foldl fst snd].
  destruct (mark_ok _ _ _ _ _ _ _ (up_inv _ _ _ HI) Hop) as (Hnone & _ & Hst).
  pose proof (proj1 (proj2 (run_jop_inv _ _ _ _ _ (up_inv _ _ _ HI) Hop))) as Hh1.
  destruct (run_jop f2 (JRollback s c) j1) as [r2 j2] eqn:Er. cbn [snd].
  destruct (run_jop_inv _ _ _ _ _ (up_inv _ _ _ HI1) Er) as [Hi2 [Hh2 Hm2]].
  assert (Hne : forall k, is_Some (records j !! k) -> k <> op_key j1 (JRollback s c)).
  { intros k [x Hx] ->. cbn [op_key] in Hx. rewrite Hh1 in Hx. congruence. }
  assert (Hsub : forall s1 c1, (s1, c1) ∈ foldl (handed_step device) A (eviction j s c) ->
    is_Some (records j !! jkey device s1 c1)).
  { intros s1 c1 [HA _]%(evictions_subset _ _ (eviction_inert _ s c)). by apply (up_recorded _ _ _ HI). }
  split; [done|rewrite Hh2; apply HI1|rewrite Hm2; apply HI1| |apply HI1|].
  - intros s1 c1 H1. eapply run_jop_other; [apply HI1|exact Er| |apply not_elem_of_nil|by apply HI1].
    by apply Hne, Hsub.
  - intros s1 call Hcall. destruct (up_calls _ _ _ HI1 _ _ Hcall) as (Hs1 & HA & Hd1). split_and!; [done|done|].
    rewrite <- Hd1. eapply run_jop_other; [apply HI1|exact Er| |apply not_elem_of_nil]. by apply Hne, Hsub.
Qed.

Lemma eviction_guarded j s c b : guarded (call_guard device) b (eviction j s c).
Proof.
  pose proof (eviction_inert j s c) as He. revert b.
  induction (eviction _ _ _) as [|o l IH]; intros b; [done|]. destruct (He o) as [k ->]; [by left|].
  split; [done|]. apply IH. intros o Ho. apply He. by right.
Qed.

(** Outputs and state of a handler that hands a prompt over. *)
Lemma handover_inv before d s c outs r d' calls :
  UpInv (handed device before) (commandJournal d) calls -> calls !! s = None -> handover d s c outs r d' ->
  UpInv (handed device (before ++ outs)) (commandJournal d') (enter s r calls) /\
  guarded (call_guard device) before outs.
Proof.
  intros HI Hfree Hh. unfold handed. rewrite foldl_app. fold (handed device before).
  destruct Hh as [outs d' Hf|f now p j1 r ops outs d' Hop Hops Hf|f now p j1 prompt mode g call d' Hop Hf Hs Hcl].
  - destruct Hf as (Ho & Hj & _). rewrite handed_inert by (eapply Forall_impl; [exact Ho|apply neutral_inert]).
    rewrite Hj. split; [done|]. apply guarded_neutral; [apply call_guard_unguarded|done].
  - pose proof (mark_inv _ _ _ _ _ _ _ _ _ _ HI Hop) as HI1. destruct Hf as (Ho & Hj & _).
    assert (Hin : Forall inert outs) by (eapply Forall_impl; [exact Ho|apply neutral_inert]).
    rewrite foldl_app, handed_inert, Hj by done. cbn [commandJournal with_journal enter]. split.
    + destruct Hops as [->|(-> & f2 & ->)]; [done|]. by eapply rolled_back_inv.
    + apply guarded_app. split; [apply eviction_guarded|by apply guarded_inert].
  - pose proof (mark_inv _ _ _ _ _ _ _ _ _ _ HI Hop) as HI1. destruct Hf as (_ & Hj & _).
    destruct (mark_ok _ _ _ _ _ _ _ (up_inv _ _ _ HI) Hop) as (Hnone & Hrec & Hst).
    rewrite (up_hash _ _ _ HI) in Hnone, Hrec, Hst. fold (jkey device s c) in Hnone, Hrec, Hst.
    rewrite foldl_app, Hj. cbn [foldl handed_step commandJournal with_journal enter].
    set (B := foldl (handed_step device) (handed device before) _) in *.
    assert (HB : forall sc, sc ∈ B -> jkey device sc.1 sc.2 <> jkey device s c).
    { intros [s1 c1] [HA _]%(evictions_subset _ _ (eviction_inert _ s c)) Heq. cbn [fst snd] in Heq.
      destruct (up_recorded _ _ _ HI _ _ HA) as [[x Hx] _]. congruence. }
    split.
    + split; [apply HI1|apply HI1|apply HI1| | |].
      * intros s1 c1 [[= -> ->]%elem_of_singleton|H1]%elem_of_union; [done|by apply HI1].
      * intros q1 q2 [->%elem_of_singleton|H1]%elem_of_union [->%elem_of_singleton|H2]%elem_of_union Heq; try done.
        -- by destruct (HB _ H2).
        -- by destruct (HB _ H1).
        -- by apply (up_distinct _ _ _ HI1).
      * intros s1 call1. rewrite lookup_insert_Some. intros [[<- <-]|[Hne H1]].
        -- rewrite Hcl. split_and!; [done|by apply elem_of_union_l, elem_of_singleton|done].
        -- destruct (up_calls _ _ _ HI1 _ _ H1) as (Hs1 & HA & Hd1). split_and!; [done|by apply elem_of_union_r|done].
    + apply guarded_app. split; [apply eviction_guarded|]. split; [|done]. cbn [call_guard].
      unfold handed. rewrite foldl_app. fold (handed device before). fold B. intros HinB. by destruct (HB _ HinB).
Qed.

(** A step of which the calls and the journal are not part. *)
Lemma inert_step before outs : Forall inert outs -> handed device (before ++ outs) = handed device before /\
  guarded (call_guard device) before outs.
Proof.
  intros H. split; [|by apply guarded_inert]. unfold handed. by rewrite foldl_app, handed_inert.
Qed.

Lemma frame_step before d outs d' calls :
  UpInv (handed device before) (commandJournal d) calls -> Frame d outs d' ->
  UpInv (handed device (before ++ outs)) (commandJournal d') calls /\ guarded (call_guard device) before outs.
Proof.
  intros HI Hf. destruct (inert_step before outs) as [-> Hg].
  { eapply Forall_impl; [apply Hf|apply neutral_inert]. }
  split; [by eapply UpInv_frame|done].
Qed.

Lemma committed_inv A f now s p msg d calls :
  UpInv A (commandJournal d) calls -> UpInv A (commandJournal (prompt_committed f now s p msg d)) calls.
Proof.
  intros HI. unfold prompt_committed. set (c := command_client_id p msg). destruct (is_empty c) eqn:Hc; [done|].
  destruct (state (commandJournal d) s c) as [r|] eqn:Hr; [|done]. destruct (Status r) eqn:Hst; try done.
  unfold state in Hr. rewrite Hc in Hr. unfold Daemon.journal_op.
  destruct (markCommitted _ _ _ _ _) as [r1 j1] eqn:Em. cbn [snd commandJournal with_journal].
  assert (Hop : run_jop f (JMarkCommitted now s c) (commandJournal d) = (r1, j1)) by done.
  destruct HI as [Hi Hh Hm HA Hd Hcalls]. destruct (run_jop_inv _ _ _ _ _ Hi Hop) as [Hi1 [Hh1 Hm1]].
  rewrite Hh in Hr. fold (jkey device s c) in Hr.
  split; [done|congruence|congruence| |done|].
  - intros s1 c1 H1. destruct (decide (jkey device s1 c1 = jkey device s c)) as [Heq|Hne].
    + specialize (HA _ _ H1). rewrite Heq in *. unfold jkey in *. rewrite <- Hh in *.
      apply (run_jop_own _ _ _ _ _ Hi Hop); [done|exact HA].
    + eapply run_jop_other; [exact Hi|exact Hop| |apply not_elem_of_nil|by apply HA]. cbn [op_key]. by rewrite Hh.
  - intros s1 call H1. destruct (Hcalls _ _ H1) as (Hs1 & HA1 & Hd1). split_and!; [done|done|]. rewrite <- Hd1.
    eapply run_jop_other; [exact Hi|exact Hop| |apply not_elem_of_nil]. cbn [op_key]. rewrite Hh. intros Heq.
    unfold journal_status in Hd1. fold (jkey device s c) in Heq. rewrite Heq, Hr in Hd1. simpl in Hd1. congruence.
Qed.

Lemma replies_inert d s c outs : Forall (reply_ok d s c) outs -> Forall inert outs.
Proof. intros H. eapply Forall_impl; [exact H|]. intros o [Ho|(e & -> & _)]; [by apply neutral_inert|done]. Qed.

Lemma on_connect_inert sent d : Forall inert (on_connect sent d).
Proof.
  unfold on_connect. constructor; [done|]. generalize 0%nat, (uncommittedAccepted (commandJournal d)).
  intros n l. revert n. induction l as [|r l IH]; intros n; simpl; constructor; [done|]. destruct (sent n); [apply IH|constructor].
Qed.

Lemma comeback_step before d s c a outs d' calls call :
  UpInv (handed device before) (commandJournal d) calls -> calls !! s = Some call -> ncClient call = c ->
  comeback d s c a outs d' ->
  UpInv (handed device (before ++ NativeReturn s c a :: outs)) (commandJournal d') (base.delete s calls) /\
  guarded (call_guard device) before (NativeReturn s c a :: outs).
Proof.
  intros HI Hcall Hcl (ops & outs1 & d1 & Hops & (Ho & Hj & _) & Hout).
  assert (Hi : Forall inert outs1) by (eapply Forall_impl; [exact Ho|apply neutral_inert]).
  assert (Forall inert outs /\ commandJournal d' = run_ops ops (commandJournal d)) as [Hin Hj'].
  { destruct Hout as [[-> ->]|(_ & e & -> & ->)]; [done|]. split; [|done]. apply Forall_app. split; [done|]. by repeat constructor. }
  unfold handed. rewrite foldl_app. cbn [foldl]. fold (handed device before). rewrite handed_inert, Hj' by done.
  split; [eapply return_inv; eauto|]. split; [done|by apply guarded_inert].
Qed.

Lemma start_inv A f1 f2 qf jf :
  run_inv A (ProcDown qf jf) -> run_inv A (start_daemon f1 f2 device qf jf).
Proof.
  intros (Hd & HA & Hr). unfold start_daemon.
  destruct (loadPromptJournal f1 jf device maxAcceptedPromptIDs) as [r jf'] eqn:El.
  assert (Hl : forall k, durable (recorded k) (deviceHash device) maxAcceptedPromptIDs jf ->
    match r with Ok j => jholds (recorded k) j | Err _ => durable (recorded k) (deviceHash device) maxAcceptedPromptIDs jf' end).
  { intros k Hk. eapply load_durable; [done|apply recorded_stable|exact Hk|exact El]. }
  apply load_journal_spec in El; [|done|done]. destruct r as [j|e]; simpl.
  - destruct El as (Hh & Hm & Hi & _). split; [done|done|done| |done|].
    + intros s c H. by apply Hl, Hr.
    + by intros s call; rewrite lookup_empty.
  - split_and!; [by apply El|done|]. intros s c H. by apply Hl, Hr.
Qed.

Lemma daemon_step_inv before p outs p' :
  run_inv (handed device before) p -> step p outs p' ->
  run_inv (handed device (before ++ outs)) p' /\ guarded (call_guard device) before outs.
Proof.
  intros HI Hs. destruct Hs; cbn [run_inv] in *;
    try (eapply frame_step; [exact HI|]; eauto using on_complete_frame, handleControlEvent_frame, dispatch_claim_frame,
           cancel_prompt_frame, resume_frame, skip_frame, interrupt_frame, Frame_refl; fail).
  - (* send_prompt *)
    destruct (send_prompt_cases _ _ _ _ _ _ _ _ _ _ _ _ _ H0) as [(Hr & -> & ->)|Hh].
    + apply replies_inert in Hr. destruct (inert_step before outs Hr) as [-> ?]. done.
    + by eapply handover_inv.
  - (* return of a direct call *)
    eapply comeback_step; [exact HI|exact H|done|]. by eapply return_direct_comeback.
  - (* dispatch of a claim *)
    eapply handover_inv; [exact HI|exact H|]. by eapply dispatch_start_handover.
  - (* return of a queued call *)
    eapply comeback_step; [exact HI|exact H|done|]. by eapply return_queued_comeback.
  - (* native request bound *)
    rewrite app_nil_r. done.
  - (* status query *)
    destruct (inert_step before (prompt_status_query s p msg d)) as [-> ?]; [|done].
    eapply replies_inert, prompt_status_query_ok.
  - (* committed *)
    rewrite app_nil_r. split; [|done]. by apply committed_inv.
  - (* connect *)
    destruct (inert_step before (on_connect sent d)) as [-> ?]; [apply on_connect_inert|done].
  - (* crash *)
    rewrite app_nil_r. split; [|done]. destruct HI as [[_ Hi] Hh Hm Hr Hd _]. rewrite <- Hh, <- Hm.
    split_and!; [done|done|]. intros s c HA. by apply Hr.
  - (* start *)
    rewrite app_nil_r. split; [|done]. by apply start_inv.
Qed.

Lemma run_invariant (I : list out -> process -> Prop) (G : list out -> out -> Prop) p0 t p :
  I [] p0 ->
  (forall before p1 outs p2, I before p1 -> step p1 outs p2 -> I (before ++ outs) p2 /\ guarded G before outs) ->
  run p0 t p -> I t p /\ guarded G [] t.
Proof.
  intros H0 Hstep Hrun. induction Hrun as [|p1 t1 p2 t2 p3 _ IH Hs]; [done|].
  destruct (IH H0) as [HI HG]. destruct (Hstep _ _ _ _ HI Hs) as [HI' HG'].
  split; [done|]. apply guarded_app. done.
Qed.

Lemma fresh_inv : run_inv ∅ (ProcDown None None).
Proof. split_and!; [done|by intros p q ?%elem_of_empty|by intros s c ?%elem_of_empty]. Qed.

(** C1: a prompt is handed to the agent at most once. In any run of the daemon
    from its first start, over any interleaving of commands, dispatches,
    control events, failures of file operations, crashes and restarts, two
    native calls for the same session and message are separated by an answer
    of the agent that says the first was not started, or by the eviction of
    its record, which the journal (4096 records) only does to a record the
    relay has committed. *)
Theorem prompt_handed_over_once t1 s c prompt1 mode1 g1 t2 prompt2 mode2 g2 t3 p :
  run (ProcDown None None)
    (t1 ++ NativeCall s c prompt1 mode1 g1 :: t2 ++ NativeCall s c prompt2 mode2 g2 :: t3) p ->
  (exists a, NativeReturn s c a ∈ t2 /\ refused a = true) \/ JournalEvicted (jkey device s c) ∈ t2.
Proof.
  intros Hrun. destruct (run_invariant (fun t => run_inv (handed device t)) (call_guard device) _ _ _ fresh_inv
    daemon_step_inv Hrun) as [_ Hg].
  rewrite app_comm_cons, app_assoc in Hg. apply guarded_at in Hg. cbn [call_guard app] in Hg.
  unfold handed in Hg. rewrite foldl_app in Hg. cbn [foldl handed_step] in Hg.
  eapply handed_lost; [|exact Hg]. set_solver.
Qed.

(** ** What an acceptance is based on *)

Definition agent_took (t : list out) (key : string -> string -> string) (k : string) : Prop :=
  exists s c, NativeReturn s c SendOk ∈ t /\ key s c = k.

Definition accept_guard (before : list out) (o : out) : Prop :=
  match o with
  | PromptAccepted s c _ =>
    agent_took before (jkey device) (jkey device s c) \/
    agent_took before ActiveTurn.promptCacheKey (ActiveTurn.promptCacheKey s c)
  | _ => True
  end.

Lemma agent_took_app t1 t2 key k : agent_took t1 key k -> agent_took (t1 ++ t2) key k.
Proof. intros (s & c & H & <-). exists s, c. split; [|done]. apply elem_of_app. by left. Qed.

(** The settled records of a map are of prompts the agent took. *)
Definition settled_only (took : string -> Prop) (recs : journal_map) : Prop :=
  forall k r, recs !! k = Some r -> default_reply (Status r) = true -> took k.

Lemma settled_only_stable took : restart_stable (settled_only took).
Proof.
  split; intros recs recs' Hq H k r Hk Hs; specialize (H k); rewrite Hk in H.
  - inversion H as [x ? (r0 & (_ & _ & _ & _ & He & _) & ->) Hx|]; subst. eapply Hq; [done|].
    rewrite He. unfold after_crash in Hs. simpl in Hs. case_bool_decide; [done|exact Hs].
  - inversion H as [? x (_ & _ & _ & _ & He & _) Hy Hx|]; subst. eapply Hq; [done|]. by rewrite <- He.
Qed.

Lemma effect_settled took op j next :
  jop_effect op j next -> settled_only took (records j) ->
  (forall now s c, op = JMarkAccepted now s c -> took (op_key j op)) -> settled_only took next.
Proof.
  intros He Hq Hacc.
  assert (Hmoved : forall key st, moved j key st next -> (st = promptJournalAccepted -> took key) -> settled_only took next).
  { intros key st (cur & cur' & Hc & Hg & Hst & ->) Ht k r. rewrite lookup_insert_Some.
    intros [[<- <-]|[_ Hk]] Hs; [|by eapply Hq]. rewrite Hst in Hs.
    destruct st; cbn in Hs, Hg; try done; [by apply Ht|]. eapply Hq; [done|].
    case_bool_decide as Hcs; [by rewrite Hcs|done]. }
  destruct op as [now s c p|s c|now s c|now s c|now s c]; cbn [jop_effect op_key] in *.
  - destruct He as (_ & _ & kept & rec & Hkept & Hr & ->). intros k r. rewrite lookup_insert_Some.
    intros [[<- <-]|[_ Hk]] Hs; [by rewrite Hr in Hs|].
    destruct Hkept as [->|(o & _ & ->)]; [by eapply Hq|apply lookup_delete_Some in Hk as [_ ?]; by eapply Hq].
  - destruct He as [_ ->]. intros k r [_ Hk]%lookup_delete_Some. by apply Hq.
  - eapply Hmoved; [done|]. intros _. by eapply Hacc.
  - by eapply Hmoved.
  - by eapply Hmoved.
Qed.

Definition cache_only (took : string -> Prop) (c : ActiveTurn.promptAcceptanceCache) : Prop :=
  forall k e, ActiveTurn.entries c !! k = Some e -> took k.

Lemma cache_add_only took ca s c e :
  cache_only took ca -> took (ActiveTurn.promptCacheKey s c) -> cache_only took (ActiveTurn.cache_add ca s c e).
Proof.
  intros Hq Ht. unfold ActiveTurn.cache_add. repeat case_match; try done; intros k x; cbn [ActiveTurn.entries];
    rewrite lookup_insert_Some; intros [[<- _]|[_ Hk]]; try done; [by eapply Hq|].
  apply lookup_delete_Some in Hk as [_ Hk]. by eapply Hq.
Qed.

Record accepted_inv t (d : daemon) : Prop := {
  ac_inv : journal_inv (commandJournal d);
  ac_hash : jdeviceHash (commandJournal d) = deviceHash device;
  ac_max : max (commandJournal d) = maxAcceptedPromptIDs;
  ac_journal : jholds (settled_only (agent_took t (jkey device))) (commandJournal d);
  ac_cache : cache_only (agent_took t ActiveTurn.promptCacheKey) (acceptedPrompts d)
}.

Definition accept_run_inv t (p : process) : Prop :=
  match p with
  | ProcUp d _ _ => accepted_inv t d
  | ProcDown _ jf =>
    jdisk_ok (deviceHash device) maxAcceptedPromptIDs jf /\
    (jf = None \/ durable (settled_only (agent_took t (jkey device))) (deviceHash device) maxAcceptedPromptIDs jf)
  end.

Lemma settled_only_mono t1 t2 key recs :
  settled_only (agent_took t1 key) recs -> settled_only (agent_took (t1 ++ t2) key) recs.
Proof. intros H k r Hk Hs. apply agent_took_app. by eapply H. Qed.

Lemma accepted_inv_mono t1 t2 d : accepted_inv t1 d -> accepted_inv (t1 ++ t2) d.
Proof.
  intros [Hi Hh Hm Hj Hc]. split; [done|done|done| |].
  - eapply jholds_impl; [|exact Hj]. intros recs. apply settled_only_mono.
  - intros k e Hk. apply agent_took_app. by eapply Hc.
Qed.

Lemma accepted_inv_frame t d outs d' : accepted_inv t d -> Frame d outs d' -> accepted_inv t d'.
Proof. intros [Hi Hh Hm Hj Hc] (_ & H1 & H2). split; by rewrite ?H1, ?H2. Qed.

Lemma accept_guard_neutral before outs : Forall neutral outs -> guarded accept_guard before outs.
Proof. apply guarded_neutral. intros b o. by destruct o. Qed.

(** A journal operation, and the journal after several of them. *)
Lemma accepted_inv_op t d f op r j1 :
  accepted_inv t d -> run_jop f op (commandJournal d) = (r, j1) ->
  (forall now s c, op = JMarkAccepted now s c -> NativeReturn s c SendOk ∈ t) ->
  accepted_inv t (with_journal d j1).
Proof.
  intros [Hi Hh Hm Hj Hc] Hop Ht. destruct (run_jop_inv _ _ _ _ _ Hi Hop) as [Hi1 [Hh1 Hm1]].
  split; simpl; [done|congruence|congruence| |done].
  eapply run_jop_holds; [exact Hi|exact Hop|exact Hj|]. intros next Hn. eapply effect_settled; [done|apply Hj|].
  intros now s c Heq. rewrite Heq in *. exists s, c. split; [by eapply Ht|]. unfold jkey, op_key. by rewrite Hh.
Qed.

Lemma accepted_inv_ops t d ops s c a :
  accepted_inv t d -> Forall (fun fop => return_op s c a fop.2) ops -> (a = SendOk -> NativeReturn s c SendOk ∈ t) ->
  accepted_inv t (with_journal d (run_ops ops (commandJournal d))).
Proof.
  revert d. induction ops as [|[f op] ops IH]; intros d HI Hops Ht; [by destruct d|].
  apply Forall_cons in Hops as [Hop Hops]. unfold run_ops. cbn [foldl fst snd] in *.
  destruct (run_jop f op (commandJournal d)) as [r j1] eqn:Er. cbn [snd].
  apply (IH (with_journal d j1)); [|done|done].
  eapply accepted_inv_op; [done|done|]. intros now s1 c1 ->.
  destruct Hop as [[? _]|[[? ?]|(now' & Heq & ->)]]; [done|done|]. injection Heq as _ -> ->. by apply Ht.
Qed.

Lemma reply_guard t d s c outs :
  accepted_inv t d -> Forall (reply_ok d s c) outs -> guarded accept_guard t outs.
Proof.
  intros HI Hr. assert (Hg : forall t2, guarded accept_guard (t ++ t2) outs); [|specialize (Hg []); by rewrite app_nil_r in Hg].
  induction Hr as [|o outs Ho _ IH]; intros t2; [done|]. split; [|rewrite <- app_assoc; apply IH].
  destruct Ho as [Hn|(e & -> & Hk)]; [by destruct o|]. simpl.
  destruct Hk as [(r & Hs & Hd)|[e' He]]; [left|right]; apply agent_took_app.
  - unfold state in Hs. destruct (is_empty c); [done|]. rewrite (ac_hash _ _ HI) in Hs.
    destruct (ac_journal _ _ HI) as [Hq _]. by eapply Hq.
  - unfold ActiveTurn.cache_get in He. destruct (is_empty c); [done|]. by eapply (ac_cache _ _ HI).
Qed.

Lemma handover_accepted t d s c outs r d' :
  accepted_inv t d -> handover d s c outs r d' -> accepted_inv t d' /\ forall b, guarded accept_guard b outs.
Proof.
  intros HI Hh.
  assert (Hev : forall b, guarded accept_guard b (eviction (commandJournal d) s c)).
  { pose proof (eviction_inert (commandJournal d) s c) as He.
    induction (eviction _ _ _) as [|o l IH]; intros b; [done|]. destruct (He o) as [k ->]; [by left|].
    split; [done|]. apply IH. intros o Ho. apply He. by right. }
  destruct Hh as [outs d' Hf|f now p j1 r ops outs d' Hop Hops Hf|f now p j1 prompt mode g call d' Hop Hf Hs Hcl].
  - split; [by eapply accepted_inv_frame|]. intros b. apply accept_guard_neutral, Hf.
  - assert (HI1 : accepted_inv t (with_journal d j1)) by (by eapply accepted_inv_op).
    split; [|intros b; apply guarded_app; split; [apply Hev|apply accept_guard_neutral, Hf]].
    eapply accepted_inv_frame; [|exact Hf]. destruct Hops as [->|(_ & f2 & ->)]; [done|].
    apply (accepted_inv_ops t (with_journal d j1) _ s c (SendBusy "") HI1); [|done].
    apply Forall_singleton. by left.
  - assert (HI1 : accepted_inv t (with_journal d j1)) by (by eapply accepted_inv_op).
    split; [by eapply accepted_inv_frame|]. intros b. apply guarded_app. split; [apply Hev|by simpl].
Qed.

Lemma comeback_accepted t d s c a outs d' :
  accepted_inv t d -> comeback d s c a outs d' ->
  accepted_inv (t ++ NativeReturn s c a :: outs) d' /\ guarded accept_guard t (NativeReturn s c a :: outs).
Proof.
  intros HI (ops & outs1 & d1 & Hops & Hf & Hout). set (t1 := t ++ [NativeReturn s c a]).
  assert (Ht1 : t ++ NativeReturn s c a :: outs = t1 ++ outs) by (unfold t1; by rewrite <- app_assoc).
  assert (HI1 : accepted_inv t1 d1).
  { eapply accepted_inv_frame; [|exact Hf]. eapply accepted_inv_ops; [by apply accepted_inv_mono|exact Hops|].
    intros ->. unfold t1. apply elem_of_app. right. by left. }
  rewrite Ht1. destruct Hout as [[-> ->]|(-> & e & -> & ->)].
  - split; [by apply accepted_inv_mono|]. split; [done|]. apply accept_guard_neutral, Hf.
  - assert (Htook : NativeReturn s c SendOk ∈ t1) by (unfold t1; apply elem_of_app; right; by left).
    split; [apply accepted_inv_mono|].
    + destruct HI1 as [Hi Hh Hm Hj Hc]. split; try done. simpl. apply cache_add_only; [done|]. by exists s, c.
    + split; [done|]. apply guarded_app. split; [apply accept_guard_neutral, Hf|]. split; [|done].
      left. apply agent_took_app. exists s, c. done.
Qed.

Lemma replay_guard t d sent n l :
  accepted_inv t d -> (forall r, r ∈ l -> r ∈ uncommittedAccepted (commandJournal d)) ->
  forall t2, guarded accept_guard (t ++ t2) (replay_accepted d sent n l).
Proof.
  intros HI. revert n. induction l as [|r l IH]; intros n Hl t2; [done|]. cbn [replay_accepted]. split.
  - simpl. left. apply agent_took_app. specialize (Hl r ltac:(by left)). unfold uncommittedAccepted, sort_records in Hl.
    rewrite merge_sort_Permutation in Hl. apply list_elem_of_In, filter_In in Hl as [Hin Hst].
    apply list_elem_of_In, elem_of_range_values in Hin as [k Hk]. bool_hyps.
    destruct (ac_inv _ _ HI) as [W _]. destruct (jwf_ok _ _ _ W _ _ Hk) as (_ & Hids & _).
    pose proof (jwf_key _ _ _ W _ _ Hk) as Hkey. unfold record_ids_ok in Hids.
    destruct (LegacyOpaque r); [done|]. destruct Hids as [_ Hids]. rewrite (ac_hash _ _ HI) in Hids.
    destruct (ac_journal _ _ HI) as [Hq _]. unfold jkey. rewrite <- Hids, Hkey. eapply Hq; [done|].
    match goal with H : Status r = _ |- _ => by rewrite H end.
  - destruct (sent n); [|done]. rewrite <- app_assoc. apply IH. intros x Hx. apply Hl. by right.
Qed.

Lemma accept_start t f1 f2 qf jf :
  accept_run_inv t (ProcDown qf jf) -> accept_run_inv t (start_daemon f1 f2 device qf jf).
Proof.
  intros [Hd Hq]. unfold start_daemon.
  destruct (loadPromptJournal f1 jf device maxAcceptedPromptIDs) as [r jf'] eqn:El.
  assert (match r with Ok j => jholds (settled_only (agent_took t (jkey device))) j
    | Err _ => jf' = None \/ durable (settled_only (agent_took t (jkey device))) (deviceHash device) maxAcceptedPromptIDs jf' end) as Hl.
  { destruct Hq as [->|Hq].
    - eapply journal_load_fresh; [done|apply settled_only_stable| |exact El]. intros k r0. by rewrite lookup_empty.
    - eapply load_durable in El; [|done|apply settled_only_stable|exact Hq]. destruct r; auto. }
  apply load_journal_spec in El; [|done|done]. destruct r as [j|e]; simpl.
  - destruct El as (Hh & Hm & Hi & _). by split.
  - split; [apply El|done].
Qed.

Lemma accept_step t p outs p' :
  accept_run_inv t p -> step p outs p' -> accept_run_inv (t ++ outs) p' /\ guarded accept_guard t outs.
Proof.
  intros HI Hs.
  assert (Hframe : forall d o d', accepted_inv t d -> Frame d o d' -> accepted_inv (t ++ o) d' /\ guarded accept_guard t o).
  { intros d o d' Hd Hf. split; [apply accepted_inv_mono; by eapply accepted_inv_frame|apply accept_guard_neutral, Hf]. }
  assert (Hnil : forall d, accepted_inv t d -> accepted_inv (t ++ []) d) by (intros; by apply accepted_inv_mono).
  destruct Hs; cbn [accept_run_inv] in *;
    try (eapply Hframe; [exact HI|]; eauto using on_complete_frame, handleControlEvent_frame, dispatch_claim_frame,
           cancel_prompt_frame, resume_frame, skip_frame, interrupt_frame, Frame_refl; fail).
  - destruct (send_prompt_cases _ _ _ _ _ _ _ _ _ _ _ _ _ H0) as [(Hr & -> & ->)|Hh].
    + split; [by apply accepted_inv_mono|by eapply reply_guard].
    + destruct (handover_accepted _ _ _ _ _ _ _ HI Hh). split; [by apply accepted_inv_mono|done].
  - eapply comeback_accepted; [exact HI|]. by eapply return_direct_comeback.
  - destruct (handover_accepted _ _ _ _ _ _ _ HI (dispatch_start_handover _ _ _ _ _ _ _ _ _ _ H0)).
    split; [by apply accepted_inv_mono|done].
  - eapply comeback_accepted; [exact HI|]. by eapply return_queued_comeback.
  - split; [|done]. apply Hnil. by destruct HI.
  - split; [by apply accepted_inv_mono|]. eapply reply_guard; [exact HI|apply prompt_status_query_ok].
  - split; [|done]. apply Hnil. unfold prompt_committed. destruct (is_empty _); [done|].
    destruct (state _ _ _) as [r|]; [|done]. destruct (Status r); try done. unfold Daemon.journal_op.
    destruct (markCommitted _ _ _ _ _) as [r1 j1] eqn:Em. cbn [snd].
    eapply (accepted_inv_op _ _ f (JMarkCommitted now s (command_client_id p msg)) r1); [exact HI|exact Em|done].
  - split; [by apply accepted_inv_mono|]. split; [done|].
    apply (replay_guard _ _ _ _ _ HI); auto.
  - split; [|done]. rewrite app_nil_r. destruct HI as [[_ Hd] Hh Hm [_ Hj] _]. rewrite <- Hh, <- Hm. split; [done|by right].
  - split; [|done]. rewrite app_nil_r. by apply accept_start.
Qed.

(** C2: the daemon reports a prompt as accepted only after an agent has taken
    it. In any run from the first start, before every [prompt_accepted] - the
    answer to a new prompt, to a repeated one or to a status query, the
    announcement after a reconnect, in the same process or after any number of
    restarts - there is a native call that returned success for a prompt with
    the same journal key or the same cache key (both SHA-256 of the session and
    the message). *)
Theorem acceptance_comes_from_the_agent t1 s c echo t2 p :
  run (ProcDown None None) (t1 ++ PromptAccepted s c echo :: t2) p ->
  exists s' c', NativeReturn s' c' SendOk ∈ t1 /\
    (jkey device s' c' = jkey device s c \/ ActiveTurn.promptCacheKey s' c' = ActiveTurn.promptCacheKey s c).
Proof.
  intros Hrun. assert (H0 : accept_run_inv [] (ProcDown None None)) by (split; [done|by left]).
  destruct (run_invariant accept_run_inv accept_guard _ _ _ H0 accept_step Hrun) as [_ Hg].
  apply guarded_at in Hg. destruct Hg as [(s' & c' & ? & ?)|(s' & c' & ? & ?)]; exists s', c'; auto.
Qed.
End Runs.

(** ** Answers *)

Section Answers.
Context `{MO : MapOrder} `{QC : !Codec PromptQueue.promptQueueDisk} `{JC : !Codec promptJournalDisk}.
Context (json_marshal : value -> res string).
Implicit Types (d : daemon) (outs : list out).

(** An output that tells the phone what became of a prompt. *)
Definition answers (s c : string) (o : out) : Prop :=
  match o with
  | PromptAccepted s' c' _ | PromptFailure s' c' _ _ _ | PromptQueued s' c' _ | PromptCancelled s' c' => s' = s /\ c' = c
  | _ => False
  end.

Lemma answered_in s c o outs : answers s c o -> o ∈ outs -> Exists (answers s c) outs.
Proof. intros Ha Hin. apply Exists_exists. eauto. Qed.

Ltac answered :=
  match goal with
  | |- Exists _ (_ :: _) => first [left; by split|right; answered]
  | |- Exists _ (_ ++ _) => apply Exists_app; first [left; answered|right; answered]
  end.

Lemma known_prompt_answers d s c outs : known_prompt d s c = Some outs -> Exists (answers s c) outs.
Proof.
  unfold known_prompt, recorded_reply, queued_reply, PromptIndeterminate.
  destruct (state _ s c) as [r|]; [destruct (default_reply _); intros [= <-]; answered|].
  destruct (ActiveTurn.cache_get _ s c) as [e|]; [intros [= <-]; answered|].
  destruct (durableQueue d) as [q|]; [|done]. destruct (PromptQueue.item q s c) as [it|]; [|done].
  intros [= <-]. case_bool_decide; answered.
Qed.

Lemma dispatch_direct_answers f1 f2 now s c t pc att d outs d' :
  dispatch_direct f1 f2 now s c t pc att d = (outs, Finished, d') -> Exists (answers s c) outs.
Proof.
  unfold dispatch_direct, next_generation, mark_dispatching, Daemon.journal_op, PromptFailed, PromptIndeterminate.
  destruct (match pcRefs pc with [] => _ | _ => _ end) as [[dir suffix]|e]; [|intros [= <- <-]; answered].
  destruct (markDispatching _ _ _ _ _ _) as [r1 j1]. destruct r1 as [[]|e]; [|intros [= <- <-]; answered].
  destruct (ActiveTurn.bind _ _ _ _) as [[|] turns]; cbn [negb]; [done|].
  destruct (rollbackDispatching _ _ _ _) as [[u|e] j2]; intros [= <- <-]; answered.
Qed.

Lemma return_direct_answers f1 f2 now fl c a d outs d' :
  return_direct f1 f2 now fl c a d = (outs, d') -> Exists (answers (ncSession c) (ncClient c)) outs.
Proof.
  unfold return_direct, Daemon.journal_op, PromptFailed, PromptIndeterminate.
  destruct a as [|msg|msg|msg|msg].
  - destruct (markAccepted _ _ _ _ _) as [[[]|e] j1].
    + destruct (accept_turn _ _ _ _) as [o d2]. intros [= <- <-]. answered.
    + destruct (abandon_turn _ _) as [o d2]. intros [= <- <-]. answered.
  - destruct (rollbackDispatching _ _ _ _) as [[u|e] j1]; [intros [= <- <-]; answered|].
    destruct (markIndeterminate _ _ _ _ _). intros [= <- <-]. answered.
  - destruct (rollbackDispatching _ _ _ _) as [[u|e] j1]; [intros [= <- <-]; answered|].
    destruct (markIndeterminate _ _ _ _ _). intros [= <- <-]. answered.
  - destruct (markIndeterminate _ _ _ _ _). intros [= <- <-]. answered.
  - destruct (markIndeterminate _ _ _ _ _). intros [= <- <-]. answered.
Qed.

(** C35: every [send_prompt] is answered. A command that does not end in a
    native call has told the phone what became of the prompt (accepted,
    failed, queued or cancelled) when the handler returns, on every branch and
    whatever fails; one that does is answered when the agent returns, whatever
    the agent says and in whatever state the daemon is by then. *)
Theorem send_prompt_is_answered f1 f2 now env att s p w d outs r d' :
  send_prompt json_marshal f1 f2 now env att s p w d = (outs, r, d') ->
  match r with
  | Finished => Exists (answers s (prompt_client_id p)) outs
  | InFlight call =>
    forall g1 g2 now1 fl a d1 outs1 d1', return_direct g1 g2 now1 fl call a d1 = (outs1, d1') ->
      Exists (answers s (prompt_client_id p)) outs1
  end.
Proof.
  intros H. destruct r as [|call].
  - revert H. unfold send_prompt, PromptFailed. set (c := prompt_client_id p).
    destruct (is_empty c) eqn:Hc.
    { intros [= <- <-]. left. split; [done|]. symmetry. by apply is_empty_true. }
    destruct (known_prompt d s c) as [reply|] eqn:Hk; [intros [= <- <-]; by eapply known_prompt_answers|].
    destruct (parse_prompt p) as [pc|e]; [|intros [= <- <-]; answered].
    destruct (match targetAdapter env with Some a => Some a | None => _ end) as [target|]; [|intros [= <- <-]; answered].
    destruct (if (isCodex target && _)%bool then _ else _) as [q|]; [|apply dispatch_direct_answers].
    unfold enqueue_prompt, queue_item. destruct (PromptQueue.enqueue _ _ _ _) as [[[st b]|e] q']; intros [= <- <-];
      destruct (is_empty w); answered.
  - intros g1 g2 now1 fl a d1 outs1 d1' Hr. apply send_prompt_cases in H as [(_ & ? & _)|Hh]; [done|].
    inversion Hh; subst.
    match goal with H : ncClient _ = _ |- _ => rewrite <- H end. by eapply return_direct_answers.
Qed.

Definition no_failure (o : out) : Prop := match o with PromptFailure _ _ _ _ _ => False | _ => True end.

Lemma handleControlEvent_no_failure f ev u n d : Forall no_failure (handleControlEvent f ev u n d).1.
Proof.
  unfold handleControlEvent. destruct (ActiveTurn.resolve_control_event _ _) as [[e|] r]; [|constructor].
  cbv zeta. repeat case_match; repeat (apply Forall_app; split); repeat constructor.
Qed.

Lemma accept_turn_no_failure f fl c d : Forall no_failure (accept_turn f fl c d).1.
Proof.
  unfold accept_turn, pending_event, cleared. destruct (ActiveTurn.accept _ _ _ _) as [[pend done] turns].
  destruct pend as [ev|].
  - pose proof (handleControlEvent_no_failure f ev fl.1 fl.2 (with_turns d turns)).
    destruct (handleControlEvent _ _ _ _ _). apply Forall_app. split; [|done]. destruct done; repeat constructor.
  - apply Forall_app. split; [|constructor]. destruct done; repeat constructor.
Qed.

Lemma current_turn_no_failure d s : Forall no_failure (current_turn d s).
Proof. unfold current_turn. case_match; repeat constructor. Qed.

Lemma no_failure_in outs s c msg o b : Forall no_failure outs -> PromptFailure s c msg o b ∉ outs.
Proof. intros H Hin. rewrite Forall_forall in H. by apply H in Hin. Qed.

(** Membership of the failure in a list of outputs that are written out. *)
Ltac failure_in H :=
  unfold PromptFailed, PromptIndeterminate, remove_dir in H;
  repeat first
    [ rewrite elem_of_app in H | rewrite elem_of_cons in H | rewrite elem_of_nil in H
    | match type of H with context [if ?b then _ else _] => destruct b end ];
  naive_solver.

Lemma eviction_no_failure j s c : Forall no_failure (eviction j s c).
Proof. apply Forall_forall. intros o [k ->]%eviction_inert. done. Qed.

Lemma dispatch_direct_retry f1 f2 now s c t pc att d outs r d' msg :
  journal_inv (commandJournal d) -> state (commandJournal d) s c = None ->
  dispatch_direct f1 f2 now s c t pc att d = (outs, r, d') ->
  PromptFailure s c msg "rejected" true ∈ outs -> state (commandJournal d') s c = None.
Proof.
  intros Hi Hn. unfold dispatch_direct, next_generation, mark_dispatching, Daemon.journal_op.
  destruct (match pcRefs pc with [] => _ | _ => _ end) as [[dir suffix]|e]; [|by intros [= <- <- <-]].
  destruct (markDispatching _ _ _ _ _ _) as [r1 j1] eqn:Em.
  assert (Hop : run_jop f1 (JMarkDispatching now s c (pcOriginal pc)) (commandJournal d) = (r1, j1)) by done.
  destruct (run_jop_inv _ _ _ _ _ Hi Hop) as [Hi1 [Hh1 _]]. destruct r1 as [[]|e].
  - destruct (ActiveTurn.bind _ _ _ _) as [[|] turns]; cbn [negb].
    + intros [= <- <- <-] [Hin|Hin]%elem_of_app; [|failure_in Hin].
      by apply no_failure_in in Hin; [|apply eviction_no_failure].
    + destruct (rollbackDispatching _ _ _ _) as [rb j2] eqn:Er. cbn [commandJournal with_journal] in Er.
      intros [= <- <- <-] [Hin|Hin]%elem_of_app; [by apply no_failure_in in Hin; [|apply eviction_no_failure]|].
      destruct rb as [u|e]; [|failure_in Hin]. simpl. by eapply (rollback_ok f2).
  - intros [= <- <- <-] _. simpl. unfold state in *. by rewrite (run_jop_err _ _ _ _ _ Hi Hop), Hh1.
Qed.

Lemma return_direct_retry f1 f2 now fl call a d outs d' msg :
  journal_inv (commandJournal d) -> return_direct f1 f2 now fl call a d = (outs, d') ->
  PromptFailure (ncSession call) (ncClient call) msg "rejected" true ∈ outs ->
  refused a = true /\ state (commandJournal d') (ncSession call) (ncClient call) = None.
Proof.
  intros Hi. unfold return_direct, Daemon.journal_op. set (s := ncSession call). set (c := ncClient call).
  destruct a as [|m|m|m|m].
  - pose proof (current_turn_no_failure d s) as Hcur.
    destruct (markAccepted _ _ _ _ _) as [[[]|e] j1].
    + pose proof (accept_turn_no_failure f2 fl call (with_journal d j1)) as Ht.
      destruct (accept_turn _ _ _ _) as [o d2]. intros [= <- <-] Hin. exfalso. revert Hin. apply no_failure_in.
      repeat (apply Forall_app; split); [done|done|repeat constructor].
    + unfold abandon_turn, cleared. destruct (ActiveTurn.abandonAcceptance _ _ _ _) as [b t]. intros [= <- <-] Hin.
      rewrite elem_of_app in Hin. destruct Hin as [Hin|Hin]; [by apply no_failure_in in Hin|failure_in Hin].
  - destruct (rollbackDispatching _ _ _ _) as [[u|e] j1] eqn:Er.
    + intros [= <- <-] _. split; [done|]. simpl. eapply (rollback_ok f1); [|exact Er]. done.
    + destruct (markIndeterminate _ _ _ _ _). intros [= <- <-] Hin. failure_in Hin.
  - destruct (rollbackDispatching _ _ _ _) as [[u|e] j1] eqn:Er.
    + intros [= <- <-] _. split; [done|]. simpl. eapply (rollback_ok f1); [|exact Er]. done.
    + destruct (markIndeterminate _ _ _ _ _). intros [= <- <-] Hin. failure_in Hin.
  - destruct (markIndeterminate _ _ _ _ _). intros [= <- <-] Hin. failure_in Hin.
  - destruct (markIndeterminate _ _ _ _ _). intros [= <- <-] Hin. failure_in Hin.
Qed.

Lemma known_prompt_no_retry d s c outs msg :
  known_prompt d s c = Some outs -> PromptFailure s c msg "rejected" true ∉ outs.
Proof.
  unfold known_prompt, recorded_reply, queued_reply, queue_update.
  destruct (state _ s c) as [r|]; [destruct (default_reply _); intros [= <-] Hin; failure_in Hin|].
  destruct (ActiveTurn.cache_get _ s c) as [e|]; [intros [= <-] Hin; failure_in Hin|].
  destruct (durableQueue d) as [q|]; [|done]. destruct (PromptQueue.item q s c) as [it|]; [|done].
  intros [= <-] Hin. case_bool_decide; failure_in Hin.
Qed.

(** a failure that allows a retry is only reported while nothing is
    recorded for the prompt. When [send_prompt], or the return of its native
    call, answers [prompt_failed] with [retry_allowed], the journal in memory
    has no record of the prompt afterwards, so that a retry is not refused as a
    repetition; and a native call answered that way was refused by the agent
    before it started. *)
Theorem retry_allowed_only_unrecorded f1 f2 now env att s p w d outs r d' msg :
  journal_inv (commandJournal d) ->
  send_prompt json_marshal f1 f2 now env att s p w d = (outs, r, d') ->
  (PromptFailure s (prompt_client_id p) msg "rejected" true ∈ outs ->
     state (commandJournal d') s (prompt_client_id p) = None) /\
  (forall g1 g2 now1 fl call a d1 outs1 d1', r = InFlight call ->
     journal_inv (commandJournal d1) -> return_direct g1 g2 now1 fl call a d1 = (outs1, d1') ->
     PromptFailure s (prompt_client_id p) msg "rejected" true ∈ outs1 ->
     refused a = true /\ state (commandJournal d1') s (prompt_client_id p) = None).
Proof.
  intros Hi H. split.
  - revert H. unfold send_prompt. set (c := prompt_client_id p).
    destruct (is_empty c) eqn:Hc; [intros [= <- <- <-] _; unfold state; by rewrite Hc|].
    destruct (known_prompt d s c) as [reply|] eqn:Hk.
    { intros [= <- <- <-] Hin. by apply (known_prompt_no_retry _ _ _ _ msg) in Hk. }
    assert (Hn : state (commandJournal d) s c = None).
    { revert Hk. unfold known_prompt. by destruct (state _ s c). }
    destruct (parse_prompt p) as [pc|e]; [|by intros [= <- <- <-]].
    destruct (match targetAdapter env with Some a => Some a | None => _ end) as [target|]; [|by intros [= <- <- <-]].
    destruct (if (isCodex target && _)%bool then _ else _) as [q|]; [|by apply dispatch_direct_retry].
    unfold enqueue_prompt. destruct (PromptQueue.enqueue _ _ _ _) as [[[st b]|e] q']; by intros [= <- <- <-].
  - intros g1 g2 now1 fl call a d1 outs1 d1' -> Hi1 Hr Hin.
    apply send_prompt_cases in H as [(_ & ? & _)|Hh]; [done|]. inversion Hh; subst.
    match goal with H : ncClient _ = _ |- _ => rewrite <- H in * end. by eapply return_direct_retry.
Qed.

(** cancelling a prompt the agent is executing. The queue refuses, and the
    phone is told that the prompt was rejected and may be sent again, although
    the prompt goes on running: neither the queue nor the turn nor the journal
    changes. *)
Theorem cancel_of_running_prompt_reports_rejection f s p d q it :
  let c := payload_string p "client_msg_id" in
  durableQueue d = Some q -> is_empty c = false ->
  PromptQueue.item q s c = Some it -> PromptQueue.Status it = PromptQueue.promptQueueRunning ->
  cancel_prompt f s p d =
    ([PromptFailure s c "cannot cancel prompt queue item from running" "rejected" true], d).
Proof.
  intros c Hq Hc Hit Hst. unfold cancel_prompt. fold c. rewrite Hc, Hq, Hit.
  unfold PromptQueue.cancel. cbv [mbind M_bind get raise]. unfold PromptQueue.item in Hit. rewrite Hit, Hst.
  cbn. unfold with_queue, PromptFailed. destruct d as [dq ? ? ? ?]. cbn in *. by rewrite Hq.
Qed.
End Answers.

(** ** Which adapter a prompt goes to *)

Section Claims.
Context `{MO : MapOrder} `{QC : !Codec PromptQueue.promptQueueDisk} `{JC : !Codec promptJournalDisk}.
Context (json_unmarshal : string -> res value) (open_saved : string -> string -> res payload).

Lemma pick_loop_spec s found l :
  pick_loop s found l =
  match found, List.filter (fun a => OwnsSession a s) l with
  | None, [a] => Some a
  | Some a, [] => Some a
  | _, _ => None
  end.
Proof.
  revert found. induction l as [|a l IH]; intros found; [by destruct found|]. cbn [pick_loop List.filter].
  destruct (OwnsSession a s); cbn [negb]; [|apply IH]. destruct found; [done|]. rewrite IH.
  by destruct (List.filter _ l).
Qed.

(** a queued prompt is only claimed for the one adapter that owns the
    session: no other adapter claims to own it, its name is the one the prompt
    was queued for, discovery does not report the session busy, and a Codex
    app-server is healthy and has no turn of the session. The claimed prompt is
    what [claimNext] handed out, and the queue the daemon goes on with is the
    one that claim left. *)
Theorem claim_has_one_idle_owner f1 f2 status adapters s d outs cl d' :
  dispatch_claim json_unmarshal open_saved f1 f2 status adapters s d = (outs, Some cl, d') ->
  List.filter (fun a => OwnsSession a s) adapters = [clTarget cl] /\
  adName (clTarget cl) = PromptQueue.AgentType (clItem cl) /\
  sessionStatusBlocksQueueDispatch status = false /\
  (isCodex (clTarget cl) = true -> AppServerHealthy (clTarget cl) = true /\ HasActiveTurn (clTarget cl) s = false) /\
  exists q q', durableQueue d = Some q /\ PromptQueue.claimNext f1 s q = (Ok (Some (clItem cl)), q') /\
    durableQueue d' = Some q' /\ outs = [queue_update q' s].
Proof.
  unfold dispatch_claim. destruct (durableQueue d) as [q|]; [|done].
  destruct (sessionStatusBlocksQueueDispatch status); [done|].
  destruct (pickAdapterForSession s adapters) as [target|] eqn:Hp; [|done].
  unfold pickAdapterForSession in Hp. rewrite pick_loop_spec in Hp.
  destruct (isCodex target && _)%bool eqn:Hx; [done|].
  destruct (PromptQueue.claimNext f1 s q) as [[[it|]|e] q'] eqn:Hc; [|done|done].
  destruct (String.eqb (adName target) (PromptQueue.AgentType it)) eqn:Hn; cbn [negb].
  2:{ by destruct (queue_change _ _ _). }
  intros [= <- <- <-]. cbn [clTarget clItem]. apply String.eqb_eq in Hn. split_and!; try done.
  - destruct (List.filter _ adapters) as [|a [|]]; by simplify_eq.
  - intros Hcx. rewrite Hcx in Hx. apply orb_false_iff in Hx as [Hh ?]. by apply negb_false_iff in Hh.
  - by exists q, q'.
Qed.

End Claims.

(** ** Witnesses *)

Definition plain_queue_codec : Codec PromptQueue.promptQueueDisk :=
  {| file := PromptQueue.promptQueueDisk;
     file_size := fun d => 500 * Z.of_nat (List.length (PromptQueue.Items d));
     marshalIndent := fun d => Ok d;
     unmarshal := fun d => Ok d |}.

#[local] Existing Instances canonical_order plain_queue_codec plain_journal_codec.

#[local] Instance journal_codec_laws : CodecLaws promptJournalDisk journal_encodable journal_equiv.
Proof.
  split. intros d f _ [= ->]. exists f. split; [done|]. split; [done|]. split; [done|].
  induction (Records f); constructor; [apply record_equiv_refl|done].
Defined.

Definition no_json (v : value) : res string := Err "".
Definition no_value (s : string) : res value := Err "".
Definition no_seal (s w : string) : res payload := Err "".

Abbreviation wstep := (daemon_step no_json no_value no_seal "device-1").
Abbreviation wrun := (daemon_run no_json no_value no_seal "device-1").

(** A daemon whose queue could not be loaded, and an adapter that owns every
    session. *)
Definition w_adapter : adapter_view := mkAdapter "claude_code" (fun _ => true) false false (fun _ => false) false.
Definition w_env : adapters_env := mkAdapters None [w_adapter].
Definition w_command : payload := {[ "client_msg_id" := VString "m"; "prompt" := VString "hello" ]}.
Definition w_old_daemon : daemon :=
  mkDaemon None (mkJournal "" 1 ∅ None) (ActiveTurn.newPromptAcceptanceCache 1) ∅ 0.
Definition w_daemon : daemon :=
  match start_daemon io_ok (io_fail OpStat "unreadable") "device-1" None None with ProcUp d _ _ => d | _ => w_old_daemon end.

Definition w_send (d : daemon) : list out * progress * daemon :=
  send_prompt no_json io_ok io_ok 1000 w_env (Err "") "s" w_command "" d.
Definition w_call (r : progress) : native_call :=
  match r with InFlight c => c | Finished => mkCall "" "" 0 DirectCall "" "" false end.
Definition w_return (c : native_call) (a : send_answer) (d : daemon) : list out * daemon :=
  return_direct io_ok io_ok 1001 (false, false) c a d.

Definition w_first : list out * progress * daemon := w_send w_daemon.
Definition w_busy : list out * daemon := w_return (w_call w_first.1.2) (SendBusy "busy") w_first.2.
Definition w_second : list out * progress * daemon := w_send w_busy.2.
Definition w_taken : list out * daemon := w_return (w_call w_second.1.2) SendOk w_second.2.

Lemma w_started : wrun (ProcDown None None) [] (ProcUp w_daemon ∅ []).
Proof.
  assert (H : start_daemon io_ok (io_fail OpStat "unreadable") "device-1" None None = ProcUp w_daemon ∅ []) by by_vm.
  rewrite <- H. apply (daemon_run_step _ _ _ _ _ [] (ProcDown None None) []); [apply daemon_run_refl|apply step_start].
Defined.

Lemma w_ran_send t d :
  wrun (ProcDown None None) t (ProcUp d ∅ []) ->
  wrun (ProcDown None None) (t ++ (w_send d).1.1) (ProcUp (w_send d).2 (enter "s" (w_send d).1.2 ∅) []).
Proof.
  intros H. eapply daemon_run_step; [exact H|]. eapply (step_send_prompt _ _ _ _ io_ok io_ok 1000 w_env (Err "") "s" w_command "").
  - apply lookup_empty.
  - unfold w_send. by destruct (send_prompt _ _ _ _ _ _ _ _ _ _) as [[? ?] ?].
Defined.

Lemma w_ran_return t d c a :
  ncSession c = "s" -> ncKind c = DirectCall -> wrun (ProcDown None None) t (ProcUp d (enter "s" (InFlight c) ∅) []) ->
  wrun (ProcDown None None) (t ++ NativeReturn "s" (ncClient c) a :: (w_return c a d).1) (ProcUp (w_return c a d).2 ∅ []).
Proof.
  intros Hs Hk H. eapply daemon_run_step; [exact H|]. rewrite <- Hs.
  replace (∅ : gmap string native_call) with (base.delete (ncSession c) (enter (ncSession c) (InFlight c) ∅)) at 2.
  - eapply (step_return_direct _ _ _ _ io_ok io_ok 1001 (false, false) c a); [apply lookup_insert_eq|done|].
    unfold w_return. by destruct (return_direct _ _ _ _ _ _ _).
  - cbn [enter]. apply delete_insert_id. apply lookup_empty.
Defined.

Lemma w_refused :
  wrun (ProcDown None None) (([] ++ w_first.1.1) ++ NativeReturn "s" "m" (SendBusy "busy") :: w_busy.1)
    (ProcUp w_busy.2 ∅ []).
Proof.
  apply (w_ran_return _ _ (w_call w_first.1.2) (SendBusy "busy")); [by_vm|by_vm|].
  assert (H : enter "s" (InFlight (w_call w_first.1.2)) ∅ = enter "s" w_first.1.2 ∅) by by_vm. rewrite H.
  exact (w_ran_send [] w_daemon w_started).
Defined.

Definition w_busy_answer : out :=
  PromptFailure "s" "m" "this session is still running; wait for the current turn to finish, then retry" "rejected" true.

Lemma prompt_handed_over_once_witness :
  exists a, NativeReturn "s" "m" a ∈ [NativeReturn "s" "m" (SendBusy "busy"); w_busy_answer] /\ refused a = true.
Proof.
  pose proof (w_ran_send _ _ w_refused) as H.
  assert (Ht : ((([] ++ w_first.1.1) ++ NativeReturn "s" "m" (SendBusy "busy") :: w_busy.1) ++ (w_send w_busy.2).1.1)
    = [] ++ NativeCall "s" "m" "hello" "" 1
        :: [NativeReturn "s" "m" (SendBusy "busy"); w_busy_answer] ++ NativeCall "s" "m" "hello" "" 2 :: []) by by_vm.
  rewrite Ht in H.
  destruct (prompt_handed_over_once no_json no_value no_seal "device-1" _ _ _ _ _ _ _ _ _ _ _ _ H) as [Hr|He]; [exact Hr|].
  exfalso. apply elem_of_cons in He as [[=]|He]. apply list_elem_of_singleton in He.
  discriminate He.
Defined.

Lemma acceptance_comes_from_the_agent_witness :
  exists s' c', NativeReturn s' c' SendOk ∈ w_first.1.1 ++
      [NativeReturn "s" "m" SendOk; TurnRunning "s" (ActiveTurn.mkBinding 1 "m" "")] /\
    (jkey "device-1" s' c' = jkey "device-1" "s" "m" \/ ActiveTurn.promptCacheKey s' c' = ActiveTurn.promptCacheKey "s" "m").
Proof.
  assert (H1 : enter "s" (InFlight (w_call w_first.1.2)) ∅ = enter "s" w_first.1.2 ∅) by by_vm.
  pose proof (w_ran_send [] w_daemon w_started) as H. change (w_send w_daemon) with w_first in H. rewrite <- H1 in H.
  apply (w_ran_return _ _ (w_call w_first.1.2) SendOk) in H; [|by_vm|by_vm].
  assert (Ht : (([] ++ w_first.1.1) ++ NativeReturn "s" (ncClient (w_call w_first.1.2)) SendOk
        :: (w_return (w_call w_first.1.2) SendOk w_first.2).1)
    = (w_first.1.1 ++ [NativeReturn "s" "m" SendOk; TurnRunning "s" (ActiveTurn.mkBinding 1 "m" "")])
        ++ PromptAccepted "s" "m" "hello" :: []) by by_vm.
  rewrite Ht in H. exact (acceptance_comes_from_the_agent no_json no_value no_seal "device-1" _ _ _ _ _ _ H).
Defined.

Lemma send_prompt_is_answered_witness :
  Exists (answers "s" (prompt_client_id w_command)) (w_return (w_call w_first.1.2) (SendError "lost") w_first.2).1.
Proof.
  assert (H : send_prompt no_json io_ok io_ok 1000 w_env (Err "") "s" w_command "" w_daemon
    = (w_first.1.1, InFlight (w_call w_first.1.2), w_first.2)) by by_vm.
  assert (Hr : return_direct io_ok io_ok 1001 (false, false) (w_call w_first.1.2) (SendError "lost") w_first.2
    = ((w_return (w_call w_first.1.2) (SendError "lost") w_first.2).1,
       (w_return (w_call w_first.1.2) (SendError "lost") w_first.2).2)) by by_vm.
  exact (send_prompt_is_answered no_json io_ok io_ok 1000 w_env (Err "") "s" w_command "" w_daemon _ _ _ H _ _ _ _ _ _ _ _ Hr).
Defined.

Definition w_queued_item : PromptQueue.promptQueueItem :=
  PromptQueue.mkItem "s" "m" "claude_code" "hello" "" "" "" 0 0 PromptQueue.promptQueueQueued.
Definition w_queue : PromptQueue.promptQueue :=
  (PromptQueue.enqueue io_ok 5 w_queued_item (PromptQueue.mkQueue ∅ 0 (Some (PromptQueue.mkDisk 2 [])))).2.
Definition w_queue_daemon : daemon := with_queue w_daemon w_queue.
Definition w_claimed : list out * option claim * daemon :=
  dispatch_claim no_value no_seal io_ok io_ok (Some "idle") [w_adapter] "s" w_queue_daemon.
Definition w_claim : claim :=
  match w_claimed.1.2 with Some cl => cl | None => mkClaim w_queued_item w_adapter (Err "") end.
Definition w_running_daemon : daemon := w_claimed.2.

Lemma claim_has_one_idle_owner_witness :
  PromptQueue.ClientMsgID (clItem w_claim) = "m" /\ adName (clTarget w_claim) = PromptQueue.AgentType (clItem w_claim).
Proof.
  split; [by_vm|].
  assert (H : dispatch_claim no_value no_seal io_ok io_ok (Some "idle") [w_adapter] "s" w_queue_daemon
    = (w_claimed.1.1, Some w_claim, w_claimed.2)) by by_vm.
  exact (proj1 (proj2 (claim_has_one_idle_owner no_value no_seal io_ok io_ok (Some "idle") [w_adapter] "s"
    w_queue_daemon _ _ _ H))).
Defined.

Lemma w_daemon_journal : journal_inv (commandJournal w_daemon).
Proof.
  assert (H : loadPromptJournal io_ok None "device-1" maxAcceptedPromptIDs
    = (Ok (commandJournal w_daemon), jdisk (commandJournal w_daemon))) by by_vm.
  apply load_journal_spec in H; [apply H|reflexivity|exact I].
Defined.

Lemma retry_allowed_only_unrecorded_witness :
  state (commandJournal w_daemon) "s" "m" = None /\
  refused (SendBusy "busy") = true /\ state (commandJournal w_busy.2) "s" "m" = None.
Proof.
  assert (H : send_prompt no_json io_ok io_ok 1000 w_env (Err "") "s" w_command "" w_daemon
    = (w_first.1.1, InFlight (w_call w_first.1.2), w_first.2)) by by_vm.
  assert (Hr : return_direct io_ok io_ok 1001 (false, false) (w_call w_first.1.2) (SendBusy "busy") w_first.2
    = (w_busy.1, w_busy.2)) by by_vm.
  assert (Hj : journal_inv (commandJournal w_first.2)).
  { assert (Hm : run_jop io_ok (JMarkDispatching 1000 "s" "m" "hello") (commandJournal w_daemon)
      = (Ok tt, commandJournal w_first.2)) by by_vm.
    exact (proj1 (run_jop_inv _ _ _ _ _ w_daemon_journal Hm)). }
  assert (Hin : PromptFailure "s" (prompt_client_id w_command)
    "this session is still running; wait for the current turn to finish, then retry" "rejected" true ∈ w_busy.1).
  { assert (Hb : w_busy.1 = [w_busy_answer]) by by_vm. rewrite Hb. apply list_elem_of_singleton. by_vm. }
  split; [by_vm|].
  exact (proj2 (retry_allowed_only_unrecorded no_json io_ok io_ok 1000 w_env (Err "") "s" w_command "" w_daemon _ _ _ _
    w_daemon_journal H) _ _ _ _ _ _ _ _ _ eq_refl Hj Hr Hin).
Defined.

Lemma cancel_of_running_prompt_reports_rejection_witness :
  cancel_prompt io_ok "s" {[ "client_msg_id" := VString "m" ]} w_running_daemon
  = ([PromptFailure "s" "m" "cannot cancel prompt queue item from running" "rejected" true], w_running_daemon).
Proof.
  exact (cancel_of_running_prompt_reports_rejection io_ok "s" {[ "client_msg_id" := VString "m" ]} w_running_daemon
    (match durableQueue w_running_daemon with Some q => q | None => w_queue end)
    (PromptQueue.with_Status (match PromptQueue.item w_queue "s" "m" with Some it => it | None => w_queued_item end)
       PromptQueue.promptQueueRunning)
    ltac:(by_vm) ltac:(by_vm) ltac:(by_vm) ltac:(by_vm)).
Defined.
