(* ===== verification/CatalogSpec.v ===== *)
(** * Correctness of the session catalog and of the daemon's other commands

    The capabilities a phone is shown are explained; a round that reports
    nothing had nothing to report; a history comes from the session's owner and
    is bounded. *)

From stdpp Require Import base tactics list gmap strings fin_maps.
From Stdlib Require Import Ascii String ZArith Lia.
From S2P Require Import Prelude GoStrings GoPath Json StartThread DaemonWire Daemon DaemonCommands Catalog.
From S2P Require ActiveTurn DaemonSpec.

(** ** Reasons *)

Lemma lookup_set_reason r key fallback (enabled : bool) k :
  set_reason r key fallback enabled !! k =
  if decide (k = key) then
    if enabled then None
    else if is_empty (TrimSpace (default "" (r !! key))) then Some fallback else r !! key
  else r !! k.
Proof.
  unfold set_reason. destruct (decide (k = key)) as [->|Hne].
  - destruct enabled; [apply lookup_delete_eq|]. destruct (is_empty _); [apply lookup_insert_eq|done].
  - destruct enabled; [by rewrite lookup_delete_ne|]. destruct (is_empty _); [by rewrite lookup_insert_ne|done].
Qed.

Lemma set_reasons_other r (l : list (string * string * bool)) k :
  k ∉ (fun c : string * string * bool => c.1.1) <$> l -> foldl (fun r c => set_reason r c.1.1 c.1.2 c.2) r l !! k = r !! k.
Proof.
  revert r. induction l as [|c l IH]; intros r Hk; [done|]. rewrite fmap_cons, not_elem_of_cons in Hk. destruct Hk as [Hne Hk].
  cbn [foldl]. rewrite IH by done. rewrite lookup_set_reason. by rewrite decide_False.
Qed.

Lemma set_reasons_at r (l : list (string * string * bool)) key fallback (enabled : bool) :
  NoDup ((fun c : string * string * bool => c.1.1) <$> l) -> (key, fallback, enabled) ∈ l ->
  foldl (fun r c => set_reason r c.1.1 c.1.2 c.2) r l !! key = set_reason r key fallback enabled !! key.
Proof.
  revert r. induction l as [|c l IH]; intros r Hnd Hin; [by apply not_elem_of_nil in Hin|].
  rewrite fmap_cons in Hnd. apply NoDup_cons in Hnd as [Hc Hnd]. cbn [foldl].
  apply elem_of_cons in Hin as [<-|Hin].
  - by rewrite set_reasons_other.
  - assert (Hne : key <> c.1.1).
    { intros ->. apply Hc. apply list_elem_of_fmap. by exists (c.1.1, fallback, enabled). }
    assert (Hsame : set_reason r c.1.1 c.1.2 c.2 !! key = r !! key) by (rewrite lookup_set_reason; by rewrite decide_False).
    rewrite IH by done. rewrite (lookup_set_reason (set_reason _ _ _ _)), (lookup_set_reason r key). by rewrite Hsame.
Qed.

Lemma controls_distinct caps : NoDup ((fun c : string * string * bool => c.1.1) <$> controls caps).
Proof. cbn. repeat (apply NoDup_cons; split; [rewrite ?elem_of_cons, elem_of_nil; naive_solver|]). constructor. Qed.

(** the capabilities a phone is shown explain themselves. For each of the
    nine controls, one that is enabled has no reason, and one that is disabled
    has a reason that is not blank: the agent's own when it gave one, otherwise
    the control's default. Other entries are passed on. *)
Theorem disabled_controls_have_reasons caps :
  (forall key fallback (enabled : bool), (key, fallback, enabled) ∈ controls caps ->
     if enabled then completeCapabilityReasons caps !! key = None
     else exists reason, completeCapabilityReasons caps !! key = Some reason /\
       (UnavailableReasons caps !! key = Some reason /\ TrimSpace reason <> "" \/
        reason = fallback /\ TrimSpace (default "" (UnavailableReasons caps !! key)) = "" /\ TrimSpace reason <> "")) /\
  (forall k, k ∉ (fun c : string * string * bool => c.1.1) <$> controls caps ->
     completeCapabilityReasons caps !! k = UnavailableReasons caps !! k).
Proof.
  unfold completeCapabilityReasons. assert (mergeCapabilityReasons (UnavailableReasons caps) ∅ = UnavailableReasons caps) as ->.
  { unfold mergeCapabilityReasons. apply map_empty_union. }
  split; [|intros k; apply set_reasons_other].
  intros key fallback enabled Hin. rewrite (set_reasons_at _ _ _ _ _ (controls_distinct caps) Hin).
  rewrite lookup_set_reason, decide_True by done. destruct enabled; [done|].
  assert (Hf : TrimSpace fallback <> "").
  { unfold controls in Hin. repeat (apply elem_of_cons in Hin as [[= -> -> _]|Hin]; [by vm_compute|]).
    by apply not_elem_of_nil in Hin. }
  destruct (is_empty (TrimSpace (default "" (UnavailableReasons caps !! key)))) eqn:He.
  - apply is_empty_true in He. exists fallback. split; [done|right; done].
  - apply is_empty_false in He. destruct (UnavailableReasons caps !! key) as [r|] eqn:Hr; [|done].
    exists r. split; [done|by left].
Qed.

(** ** Rounds *)

Lemma capabilities_unchanged o n : sessionCapabilitiesChanged o n = false -> o = n.
Proof.
  unfold sessionCapabilitiesChanged. destruct o as [o|], n as [n|]; try done. intros H. f_equal.
  repeat match goal with
  | H : (_ || _)%bool = false |- _ => apply orb_false_iff in H as [? ?]
  | H : negb _ = false |- _ => apply negb_false_iff in H
  | H : String.eqb _ _ = true |- _ => apply String.eqb_eq in H
  | H : Bool.eqb _ _ = true |- _ => apply Bool.eqb_prop in H
  | H : bool_decide _ = true |- _ => apply bool_decide_eq_true in H
  end.
  destruct o, n; simpl in *; congruence.
Qed.

Lemma approval_unchanged o n : pendingApprovalChanged o n = false -> o = n.
Proof.
  unfold pendingApprovalChanged. destruct o as [o|], n as [n|]; try done. intros H. f_equal.
  repeat match goal with
  | H : (_ || _)%bool = false |- _ => apply orb_false_iff in H as [? ?]
  | H : negb _ = false |- _ => apply negb_false_iff in H
  | H : String.eqb _ _ = true |- _ => apply String.eqb_eq in H
  end.
  destruct o, n; simpl in *; congruence.
Qed.

(** What the comparison looks at: the wire form of two sessions that it holds
    for equal, up to the time of the last activity and the two fields of a
    pending question it does not compare. *)
Definition same_on_wire (deviceID : string) (o n : SessionInfo) : Prop :=
  forall k, k <> "last_activity" -> k <> "agent_type" -> k <> "pending_user_input" -> k <> "id" ->
    session_to_wire deviceID o !! k = session_to_wire deviceID n !! k.

Lemma lookup_optional key v p k :
  optional key v p !! k = if decide (k = key) then match v with Some x => Some x | None => p !! k end else p !! k.
Proof.
  unfold optional. destruct v as [x|]; [|by destruct (decide _)].
  destruct (decide (k = key)) as [->|Hne]; [apply lookup_insert_eq|by rewrite lookup_insert_ne].
Qed.

Lemma unchanged_session deviceID o n :
  session_changed o n = false -> AgentType o = AgentType n -> same_on_wire deviceID o n.
Proof.
  unfold session_changed. intros H Ha k H1 H2 H3 H4.
  repeat match goal with H : (_ || _)%bool = false |- _ => apply orb_false_iff in H as [H ?] end.
  repeat match goal with
  | H : negb _ = false |- _ => apply negb_false_iff in H
  | H : String.eqb _ _ = true |- _ => apply String.eqb_eq in H
  | H : bool_decide _ = true |- _ => apply bool_decide_eq_true in H
  | H : pendingApprovalChanged _ _ = false |- _ => apply approval_unchanged in H
  | H : sessionCapabilitiesChanged _ _ = false |- _ => apply capabilities_unchanged in H
  end.
  destruct o as [oid oa os osum ol od oc op ou ot], n as [nid na ns nsum nl nd nc np nu nt]; simpl in *. subst.
  unfold session_to_wire. cbn [AgentType Capabilities ID Status Summary LastActivity ProjectDir PendingApproval
    PendingUserInput ActiveTurn].
  assert (Hbase : forall p q : payload, p !! k = q !! k -> forall key v, optional key v p !! k = optional key v q !! k).
  { intros p q Hpq key v. rewrite !lookup_optional, Hpq. done. }
  apply Hbase. rewrite !(lookup_optional "pending_user_input"), !decide_False by done. apply Hbase.
  destruct (is_empty nd); rewrite !lookup_insert; repeat case_decide; congruence.
Qed.

Section Rounds.
Context `{MO : MapOrder} (caps_equal : list payload -> list payload -> bool).

(** a round that sends no list had nothing new to send. Nobody forced it,
    the start capabilities are as before, there are exactly the same sessions,
    and each of the same agent looks the same on the wire, but for the time of
    its last activity and the parts of a pending question that are not
    compared; and a question pending before is still the one pending. *)
Theorem unreported_round_is_unchanged deviceID i c out c' :
  discoverAndReport caps_equal deviceID i c = (out, c') -> report out = None ->
  force i = false /\ caps_equal (lastStartCapabilities c) (startCapabilities i) = true /\
  dom (lastSessions c') = dom (lastSessions c) /\
  forall id o n, lastSessions c !! id = Some o -> lastSessions c' !! id = Some n ->
    (AgentType o = AgentType n -> same_on_wire deviceID o n) /\
    option_Forall2 (fun u v => RequestID u = RequestID v /\ Questions u = Questions v /\ ExpiresAt u = ExpiresAt v)
      (PendingUserInput o) (PendingUserInput n).
Proof.
  unfold discoverAndReport. set (new := index_sessions (round_sessions i)).
  destruct ((force i || sessions_changed (lastSessions c) new) || negb (caps_equal (lastStartCapabilities c) (startCapabilities i)))%bool
    eqn:Hc; intros [= <- <-]; [done|]. intros _. cbn [lastSessions].
  apply orb_false_iff in Hc as [Hc Hs]. apply negb_false_iff in Hs. apply orb_false_iff in Hc as [Hf Hc].
  unfold sessions_changed in Hc. destruct (Nat.eqb (size new) (size (lastSessions c))) eqn:Hsz; [|done]. cbn [negb] in Hc.
  apply Nat.eqb_eq in Hsz.
  assert (Hall : forall id n, new !! id = Some n -> exists o, lastSessions c !! id = Some o /\ session_changed o n = false).
  { intros id n Hn. rewrite <- elem_of_range in Hn. apply list_elem_of_In in Hn.
    apply not_true_iff_false in Hc. rewrite existsb_exists in Hc.
    destruct (lastSessions c !! id) as [o|] eqn:Ho.
    - exists o. split; [done|]. apply not_true_iff_false. intros Hch. apply Hc. exists (id, n). cbn [fst snd]. by rewrite Ho.
    - destruct Hc. exists (id, n). cbn [fst snd]. by rewrite Ho. }
  split_and!; [done|done| |].
  - apply set_subseteq_size_eq; [|rewrite !size_dom; lia].
    intros id. rewrite !elem_of_dom. intros [n Hn]. destruct (Hall _ _ Hn) as (o & Ho & _). by exists o.
  - intros id o n Ho Hn. destruct (Hall _ _ Hn) as (o' & Ho' & Hun). simplify_eq.
    split; [by apply unchanged_session|]. unfold session_changed in Hun.
    repeat match goal with H : (_ || _)%bool = false |- _ => apply orb_false_iff in H as [H ?] end.
    match goal with H : pendingUserInputChanged _ _ = false |- _ => revert H end.
    unfold pendingUserInputChanged. destruct (PendingUserInput o), (PendingUserInput n); try done; [|constructor].
    intros Hq. constructor. apply orb_false_iff in Hq as [Hq Hqs]. apply orb_false_iff in Hq as [Hr He].
    apply negb_false_iff in Hr, He, Hqs. apply String.eqb_eq in Hr. apply Z.eqb_eq in He. by apply bool_decide_eq_true in Hqs.
Qed.
End Rounds.

(** ** History *)

(** a history request asks for between 1 and 40 messages, whatever limit
    the phone sent and however the conversion of an oversized number comes out;
    the answer names that limit and is marked truncated exactly when the limit
    was reached. *)
Theorem history_is_bounded read overflow target adapters s p :
  1 <= history_limit overflow p <= 40 /\
  let answer := fetch_history read overflow target adapters s p in
  answer !! "limit" = Some (VInt (history_limit overflow p)) /\
  exists msgs, answer !! "messages" = Some (VArray msgs) /\
    answer !! "truncated" = Some (VBool (history_limit overflow p <=? Z.of_nat (List.length msgs))).
Proof.
  split.
  - unfold history_limit. destruct (p !! "limit") as [v|]; [|simpl; lia].
    destruct v; try (simpl; lia). match goal with |- context [0 <? ?n] => generalize n; intros k end.
    destruct (0 <? k) eqn:E; bool_hyps; [|simpl; lia]. destruct (40 <? k) eqn:E2; bool_hyps; lia.
  - unfold fetch_history. destruct (fetchHistoryForSession _ _ _ _) as [found err]. destruct found as [[hist source]|].
    + split; [done|]. eexists. split; reflexivity.
    + split; [done|]. eexists. split; reflexivity.
Qed.

(** a history is the owner's. What [fetchHistoryForSession] returns was
    read without error from the session's known adapter, or, when there is none
    or reading it failed, from the only adapter that owns the session, which is
    another one; an adapter that does not own the session is never asked. *)
Theorem history_comes_from_the_owner {H} (read : adapter_view -> res H) s preferred l h source err :
  fetchHistoryForSession read s preferred l = (Some (h, source), err) ->
  exists a, read a = Ok h /\ source = adName a /\ err = None /\
    (preferred = Some a \/
     (List.filter (fun b => OwnsSession b s) l = [a] /\
      forall b, preferred = Some b -> is_ok (read b) = false /\ adName b <> adName a)).
Proof.
  unfold fetchHistoryForSession, pickAdapterForSession.
  assert (Hpick : forall a, pick_loop s None l = Some a -> List.filter (fun b => OwnsSession b s) l = [a]).
  { intros a. rewrite DaemonSpec.pick_loop_spec. destruct (List.filter _ l) as [|b [|]]; by intros [= ->]. }
  destruct preferred as [p|].
  - destruct (read p) as [hp|e] eqn:Hp; [intros [= <- <- <-]; exists p; by auto|].
    destruct (pick_loop s None l) as [owner|] eqn:Ho; [|done].
    destruct (String.eqb (adName owner) (adName p)) eqn:Hn; [done|].
    destruct (read owner) as [ho|] eqn:Hr; [|done]. intros [= <- <- <-]. exists owner. split_and!; [done|done|done|right].
    split; [by apply Hpick|]. intros b [= <-]. rewrite Hp. split; [done|]. intros Heq. by rewrite Heq, String.eqb_refl in Hn.
  - destruct (pick_loop s None l) as [owner|] eqn:Ho; [|done].
    destruct (read owner) as [ho|] eqn:Hr; [|done]. intros [= <- <- <-]. exists owner. split_and!; [done|done|done|right].
    split; [by apply Hpick|done].
Qed.

(** ** Starting a thread *)

(** which [start_thread] commands reach the coordinator. The agent is one
    of the supported ones, the two spellings of the directory agree, there are
    at most five attachments, and a list of attachments of which none is usable
    is refused, not dropped. *)
Theorem start_thread_is_checked `{GU : GoUnicode} p msg cmd :
  start_thread p msg = inr cmd ->
  cAgentType cmd ∈ supportedStartAgents /\
  coalesceStartProjectDir (payload_string p "project_dir") (payload_string p "cwd") = Ok (cProjectDir cmd) /\
  (List.length (cAttachments cmd) <= 5)%nat /\
  (cAttachments cmd = [] -> p !! "attachments" = None \/ p !! "attachments" = Some (VArray [])) /\
  cOperationID cmd = start_operation p msg.
Proof.
  unfold start_thread. destruct (agent_name p) as [name|]; [|done].
  destruct (parseStartAgentType name) as [agent|] eqn:Ha; [|done].
  destruct (coalesceStartProjectDir _ _) as [dir|e]; [|done].
  destruct (maxPromptAttachments <? _) eqn:Hn; [done|]. destruct (no_usable_attachment _ _) eqn:Hu; [done|].
  intros [= <-]. cbn [cAgentType cProjectDir cAttachments cOperationID]. bool_hyps. unfold maxPromptAttachments in Hn.
  split_and!; [|done|lia| |done].
  - unfold parseStartAgentType in Ha. destruct (is_empty _); [done|]. apply find_some in Ha as [Hin _].
    by apply list_elem_of_In.
  - intros He. unfold no_usable_attachment in Hu. rewrite He in Hu. destruct (p !! "attachments") as [v|]; [|by left].
    right. destruct v as [| | | | | |l|]; try done. by destruct l.
Qed.

(** ** Witnesses *)

#[local] Existing Instance canonical_order.

Definition w_session : SessionInfo :=
  mkSession "s" "claude_code" "idle" "summary" 7 "/work" None None None None.
Definition w_round (activity : Z) : round_input :=
  mkRound [Some (mkSession "s" "claude_code" "idle" "summary" activity "/work" None None None None); None]
    (fun _ => true) id false true ∅ (fun _ => true) [] false.
Definition w_no_caps (a b : list payload) : bool := true.
Definition w_catalog : catalog := (discoverAndReport w_no_caps "device-1" (w_round 7) (mkCatalog ∅ [])).2.

Lemma unreported_round_is_unchanged_witness :
  dom (lastSessions (discoverAndReport w_no_caps "device-1" (w_round 8) w_catalog).2) = dom (lastSessions w_catalog).
Proof.
  assert (H : discoverAndReport w_no_caps "device-1" (w_round 8) w_catalog
    = (mkRoundOutput ["s"] None, (discoverAndReport w_no_caps "device-1" (w_round 8) w_catalog).2)) by by_vm.
  exact (proj1 (proj2 (proj2 (unreported_round_is_unchanged w_no_caps "device-1" (w_round 8) w_catalog _ _ H eq_refl)))).
Defined.

Definition w_owner : adapter_view := mkAdapter "kimi_cli" (fun _ => true) false false (fun _ => false) false.
Definition w_stale : adapter_view := mkAdapter "cursor" (fun _ => false) false false (fun _ => false) false.
Definition w_read (a : adapter_view) : res (list string) :=
  if String.eqb (adName a) "kimi_cli" then Ok ["hello"] else Err "no such session".

Lemma history_comes_from_the_owner_witness :
  exists a, w_read a = Ok ["hello"] /\ "kimi_cli" = adName a.
Proof.
  assert (H : fetchHistoryForSession w_read "s" (Some w_stale) [w_stale; w_owner] = (Some (["hello"], "kimi_cli"), None))
    by reflexivity.
  destruct (history_comes_from_the_owner w_read "s" _ _ _ _ _ H) as (a & Hr & Hs & _). exists a. split; [exact Hr|exact Hs].
Defined.

Definition w_unicode : GoUnicode := Build_GoUnicode (fun s => s) String.eqb.
Definition w_start : payload :=
  {[ "agent_type" := VString "codex"; "project_dir" := VString "/work"; "prompt" := VString "go";
     "operation_id" := VString "op" ]}.

Lemma start_thread_is_checked_witness :
  @coalesceStartProjectDir w_unicode "/work" "" = Ok "/work".
Proof.
  assert (H : @start_thread w_unicode w_start ∅ = inr (mkCommand "op" "codex" "/work" "go" [])) by by_vm.
  exact (proj1 (proj2 (@start_thread_is_checked w_unicode w_start ∅ _ H))).
Defined.

Lemma disabled_controls_have_reasons_witness :
  completeCapabilityReasons (DefaultCapabilities "codex") !! "send" = None /\
  exists reason, completeCapabilityReasons (DefaultCapabilities "codex") !! "queue" = Some reason.
Proof.
  pose proof (disabled_controls_have_reasons (DefaultCapabilities "codex")) as [H _]. split.
  - apply (H "send" "unsupported_by_control_path" true). by left.
  - destruct (H "queue" "queue_not_available" false) as (r & Hr & _); [do 5 right; by left|]. exists r. exact Hr.
Defined.
