(* ===== verification/PromptStoreSpec.v ===== *)
(** * Correctness of the relay's prompt command table *)

From stdpp Require Import base tactics list gmap strings sorting fin_maps.
From Stdlib Require Import Ascii String ZArith Lia.
From S2P Require Import Prelude GoStrings PromptStore.

(** ** Statements as steps

    Connections interleave at the granularity of statements; each step is one
    statement of some method, at any time. *)

Inductive stmt_step : promptTable -> promptTable -> Prop :=
  | StmtInsert t cmd now : stmt_step t (stmt_insert cmd now t).2
  | StmtRetry t k now : stmt_step t (stmt_retry k now t).2
  | StmtForward t k now : stmt_step t (stmt_forward k now t).2
  | StmtAccept t k now : stmt_step t (stmt_accept k now t).2
  | StmtCommit t k now : stmt_step t (stmt_commit k now t).2
  | StmtFailed t d c msg o retry now : stmt_step t (fail_stmt now d c msg o retry t).2.

(** One statement on one row. *)
Inductive row_step : PromptCommand -> PromptCommand -> Prop :=
  | RowRetry c now : Status c = Failed -> RetryAllowed c = true ->
      row_step c (set_outcome c Registered "" "" false (CommitSent c) now)
  | RowForward c now : Status c = Registered ->
      row_step c (set_outcome c Pending (Error c) (Outcome c) (RetryAllowed c) (CommitSent c) now)
  | RowAccept c now : Status c <> Accepted ->
      row_step c (set_outcome c Accepted "" "accepted" false false now)
  | RowCommit c now : Status c = Accepted ->
      row_step c (set_outcome c Accepted (Error c) (Outcome c) (RetryAllowed c) true now)
  | RowIndeterminate c msg now : Status c <> Accepted -> Status c <> Indeterminate ->
      row_step c (set_outcome c Indeterminate msg "indeterminate" false (CommitSent c) now)
  | RowFail c msg o retry now : Status c = Registered \/ Status c = Pending -> o <> "" -> o <> PromptIndeterminate ->
      row_step c (set_outcome c Failed msg o retry (CommitSent c) now).

Record row_inv (c : PromptCommand) : Prop := {
  ri_retry : RetryAllowed c = true -> Status c = Failed;
  ri_commit : CommitSent c = true -> Status c = Accepted;
  ri_failed : Status c = Failed -> Outcome c <> "" /\ Outcome c <> PromptIndeterminate;
  ri_indeterminate : Status c = Indeterminate -> Outcome c = PromptIndeterminate;
  ri_accepted : Status c = Accepted -> Error c = "" /\ Outcome c = "accepted";
  ri_open : Status c = Registered \/ Status c = Pending -> Error c = "" /\ Outcome c = ""
}.

Definition table_inv (t : promptTable) : Prop :=
  forall k c, t !! k = Some c -> k = (DeviceID c, ClientMsgID c) /\ row_inv c.

Lemma update_where_lookup k guard set t k' :
  (update_where k guard set t).2 !! k'
  = (if bool_decide (k = k') then (fun c => if guard c then set c else c) <$> t !! k' else t !! k').
Proof.
  unfold update_where. case_bool_decide as Hk.
  - subst k'. destruct (t !! k) as [c|] eqn:E; simpl; [|by rewrite E].
    destruct (guard c); simpl; [by rewrite lookup_insert_eq|by rewrite E].
  - destruct (t !! k) as [c|]; [|done]. destruct (guard c); simpl; [by rewrite lookup_insert_ne|done].
Qed.

(** A statement inserts a registered row, or takes rows through [row_step]. *)
Lemma stmt_step_rows t t' k :
  stmt_step t t' ->
  t' !! k = t !! k \/
  (exists c c', t !! k = Some c /\ t' !! k = Some c' /\ row_step c c') \/
  (t !! k = None /\ exists c', t' !! k = Some c' /\ k = (DeviceID c', ClientMsgID c') /\
     Status c' = Registered /\ row_inv c').
Proof.
  intros Hs. destruct Hs as [t cmd now|t k0 now|t k0 now|t k0 now|t k0 now|t d c msg o retry now].
  - unfold stmt_insert. destruct (t !! (DeviceID cmd, ClientMsgID cmd)) eqn:Hk; [by left|]. simpl.
    destruct (decide ((DeviceID cmd, ClientMsgID cmd) = k)) as [<-|Hne].
    + right; right. rewrite lookup_insert_eq, Hk. split; [done|]. eexists. split; [done|].
      split_and!; try done.
    + left. by rewrite lookup_insert_ne.
  - unfold stmt_retry. rewrite update_where_lookup. case_bool_decide as E; [subst k0|by left].
    destruct (t !! k) as [c|]; [|by left]. simpl. destruct (_ && _)%bool eqn:G; [|by left]. bool_hyps.
    right; left. exists c. eexists. split_and!; [done|done|by constructor].
  - unfold stmt_forward. rewrite update_where_lookup. case_bool_decide as E; [subst k0|by left].
    destruct (t !! k) as [c|]; [|by left]. simpl. case_bool_decide; [|by left].
    right; left. exists c. eexists. split_and!; [done|done|by constructor].
  - unfold stmt_accept. rewrite update_where_lookup. case_bool_decide as E; [subst k0|by left].
    destruct (t !! k) as [c|]; [|by left]. simpl. destruct (_ || _)%bool eqn:G; [|by left].
    right; left. exists c. eexists. split_and!; [done|done|]. constructor. intros Ha. by rewrite Ha in G.
  - unfold stmt_commit. rewrite update_where_lookup. case_bool_decide as E; [subst k0|by left].
    destruct (t !! k) as [c|]; [|by left]. simpl. case_bool_decide as Ha; [|by left].
    right; left. exists c. rewrite Ha. eexists. split_and!; [done|done|by constructor].
  - unfold fail_stmt. case_bool_decide as Ho.
    + unfold stmt_indeterminate. rewrite update_where_lookup. case_bool_decide as E; [subst k|by left].
      destruct (t !! (d, c)) as [x|]; [|by left]. simpl. destruct (_ || _)%bool eqn:G; [|by left].
      right; left. exists x. eexists. split_and!; [done|done|]. constructor; intros Ha; by rewrite Ha in G.
    + unfold stmt_fail. rewrite update_where_lookup. case_bool_decide as E; [subst k|by left].
      destruct (t !! (d, c)) as [x|]; [|by left]. simpl. destruct (_ || _)%bool eqn:G; [|by left].
      right; left. exists x. eexists. split_and!; [done|done|]. constructor.
      * apply orb_true_iff in G as [G|G]; bool_hyps; auto.
      * destruct (is_empty o) eqn:Eo; [done|]. by apply is_empty_false.
      * destruct (is_empty o) eqn:Eo; done.
Qed.

Lemma row_step_inv c c' : row_inv c -> row_step c c' -> row_inv c'.
Proof.
  intros I Hs. pose proof (ri_commit _ I) as Hcs. pose proof (ri_retry _ I) as Hra.
  destruct Hs; split; simpl; intros Hx; try done; try (by destruct Hx); try tauto;
    try (specialize (Hcs Hx); intuition congruence); try (specialize (Hra Hx); congruence);
    try (by apply (ri_accepted _ I)); apply (ri_open _ I); by left.
Qed.

Lemma row_step_ids c c' :
  row_step c c' ->
  DeviceID c' = DeviceID c /\ ClientMsgID c' = ClientMsgID c /\ same_payload c' c = true /\ CreatedAt c' = CreatedAt c.
Proof. intros Hs. destruct Hs; unfold same_payload; simpl; rewrite !bool_decide_true by done; done. Qed.

Lemma table_inv_step t t' : table_inv t -> stmt_step t t' -> table_inv t'.
Proof.
  intros I Hs k c' Hc'. destruct (stmt_step_rows t t' k Hs) as [E|[(c & c1 & Hc & Hc1 & Hr)|(_ & c1 & Hc1 & Hk & _ & Hi)]].
  - rewrite E in Hc'. by apply I.
  - simplify_eq. destruct (I _ _ Hc) as [-> Hi]. split; [|by eapply row_step_inv].
    apply row_step_ids in Hr as (-> & -> & _). done.
  - by simplify_eq.
Qed.

Lemma table_inv_reachable t : rtc stmt_step ∅ t -> table_inv t.
Proof.
  intros H. apply (rtc_invariant _ table_inv) in H; [done|apply table_inv_step|].
  intros k c Hk. by rewrite lookup_empty in Hk.
Qed.

Lemma same_payload_trans a b c : same_payload a b = true -> same_payload b c = true -> same_payload a c = true.
Proof.
  unfold same_payload. rewrite !andb_true_iff, !bool_decide_eq_true.
  intros [[[-> ->] ->] ->] [[[-> ->] ->] ->]. done.
Qed.

Lemma same_payload_refl a : same_payload a a = true.
Proof. unfold same_payload. by rewrite !bool_decide_true. Qed.

(** What a row keeps along any interleaving. *)
Definition keeps (c c' : PromptCommand) : Prop :=
  same_payload c' c = true /\ CreatedAt c' = CreatedAt c /\
  (Status c = Accepted -> Status c' = Accepted /\ (CommitSent c = true -> CommitSent c' = true)) /\
  (Status c = Indeterminate -> Status c' = Indeterminate \/ Status c' = Accepted).

Lemma keeps_step c c' : row_inv c -> row_step c c' -> keeps c c'.
Proof.
  intros I Hs. pose proof (row_step_ids _ _ Hs) as (_ & _ & Hp & Hc). unfold keeps. split_and!; [done|done| |];
    destruct Hs; simpl; intros; try congruence; try tauto; auto; intuition congruence.
Qed.

Lemma keeps_trans a b c : keeps a b -> keeps b c -> keeps a c.
Proof.
  unfold keeps. intros (P1 & C1 & A1 & I1) (P2 & C2 & A2 & I2). split_and!.
  - by eapply same_payload_trans.
  - congruence.
  - intros Ha. destruct (A1 Ha) as [Hb Hs]. destruct (A2 Hb) as [Hc Hs2]. auto.
  - intros Hi. destruct (I1 Hi) as [Hb|Hb]; [by apply I2|]. right. by apply A2.
Qed.

Lemma rows_keep t t' k c :
  table_inv t -> rtc stmt_step t t' -> t !! k = Some c -> exists c', t' !! k = Some c' /\ keeps c c'.
Proof.
  intros Ht0 Ht Hc. revert c Hc Ht0. induction Ht as [t|t1 t2 t3 Hs _ IH]; intros c Hc Ht0.
  - exists c. split; [done|]. unfold keeps. split_and!; auto using same_payload_refl.
  - pose proof (table_inv_step _ _ Ht0 Hs) as Ht2.
    destruct (stmt_step_rows _ _ k Hs) as [E|[(c0 & c1 & Hc0 & Hc1 & Hr)|(Hn & _)]]; [| |congruence].
    + apply IH; [by rewrite E|done].
    + rewrite Hc in Hc0. injection Hc0 as <-. destruct (IH _ Hc1 Ht2) as (c' & Hc' & Hk).
      exists c'. split; [done|]. eapply keeps_trans; [|exact Hk]. eapply keeps_step; [|done]. by eapply Ht0.
Qed.

(** ** Methods as sequences of statements, whatever fails *)

Lemma exec_result f call stmt t x t' :
  exec f call stmt t = (x, t') -> (t' = t \/ t' = (stmt t).2) /\ forall b, x = Ok b -> (b, t') = stmt t.
Proof.
  unfold exec, sql. cbv [mbind M_bind mret M_ret get put raise]. destruct (f call); intros [= <- <-]; [naive_solver|].
  split; [by right|]. intros b [= <-]. by destruct (stmt t).
Qed.

Lemma exec_steps f call stmt t x t' :
  stmt_step t (stmt t).2 -> exec f call stmt t = (x, t') -> rtc stmt_step t t'.
Proof. intros Hs He. apply exec_result in He as [[-> | ->] _]; [done|by apply rtc_once]. Qed.

Lemma get_result f call d m t x t' :
  GetPromptCommand f call d m t = (x, t') -> t' = t /\ forall c, x = Ok c -> t !! (d, m) = Some c.
Proof.
  unfold GetPromptCommand, sql. cbv [mbind M_bind mret M_ret get raise]. destruct (f call); [naive_solver|].
  destruct (t !! (d, m)) eqn:E; intros [= <- <-]; naive_solver.
Qed.

Lemma sql_result {S} f call (t t' : S) x : sql f call t = (x, t') -> t' = t.
Proof. unfold sql. cbv [raise mret M_ret]. by destruct (f call); intros [= _ <-]. Qed.

Lemma transition_steps f d m stmt t x t' :
  stmt_step t (stmt t).2 -> promptTransitionResult f d m stmt t = (x, t') ->
  rtc stmt_step t t' /\ forall c b, x = Ok (c, b) -> t' !! (d, m) = Some c /\ t' = (stmt t).2.
Proof.
  intros Hs. unfold promptTransitionResult. unfold mbind at 1, M_bind at 1.
  destruct (exec f Exec1 stmt t) as [[b|e] t1] eqn:E1.
  2: { intros [= <- <-]. split; [by eapply exec_steps|done]. }
  pose proof (exec_steps _ _ _ _ _ _ Hs E1) as Hr. apply exec_result in E1 as [_ E1]. specialize (E1 b eq_refl).
  unfold mbind, M_bind. destruct (sql f Affected1 t1) as [[u|e] t2] eqn:E2; apply sql_result in E2 as ->; [|by intros [= <- <-]].
  destruct (GetPromptCommand f Select1 d m t1) as [[c|e] t3] eqn:E3; apply get_result in E3 as [-> E3]; [|by intros [= <- <-]].
  intros [= <- <-]. split; [done|]. intros c' b' [= <- <-]. split; [auto|]. by rewrite <- E1.
Qed.

Lemma transition_table f d m stmt t x t' :
  promptTransitionResult f d m stmt t = (x, t') -> t' = t \/ t' = (stmt t).2.
Proof.
  unfold promptTransitionResult. unfold mbind at 1, M_bind at 1.
  destruct (exec f Exec1 stmt t) as [[b|e] t1] eqn:E1; pose proof (exec_result _ _ _ _ _ _ E1) as [Ht _]; [|by intros [= <- <-]].
  unfold mbind, M_bind. destruct (sql f Affected1 t1) as [[u|e] t2] eqn:E2; apply sql_result in E2 as ->; [|by intros [= <- <-]].
  destruct (GetPromptCommand f Select1 d m t1) as [[c|e] t3] eqn:E3; apply get_result in E3 as [-> _]; by intros [= <- <-].
Qed.

Lemma commit_table f now d m t x t' :
  MarkPromptCommitted f now d m t = (x, t') -> t' = t \/ t' = (stmt_commit (d, m) now t).2.
Proof.
  unfold MarkPromptCommitted, mbind, M_bind. destruct (exec f Exec1 (stmt_commit (d, m) now) t) as [[b|e] t1] eqn:E;
    pose proof (exec_result _ _ _ _ _ _ E) as [Ht _]; by intros [= <- <-].
Qed.

Lemma commit_steps f now d m t x t' :
  MarkPromptCommitted f now d m t = (x, t') ->
  rtc stmt_step t t' /\ forall u, x = Ok u -> t' = (stmt_commit (d, m) now t).2.
Proof.
  unfold MarkPromptCommitted, mbind, M_bind. destruct (exec f Exec1 (stmt_commit (d, m) now) t) as [[b|e] t1] eqn:E.
  - intros [= <- <-]. split; [eapply exec_steps; [apply StmtCommit|exact E]|]. intros _ _.
    apply exec_result in E as [_ E]. by rewrite <- (E b eq_refl).
  - intros [= <- <-]. split; [eapply exec_steps; [apply StmtCommit|exact E]|done].
Qed.

(** When [RegisterPromptCommand] gives the caller the forward. *)
Definition may_own (t : promptTable) (k : string * string) (retry : bool) : Prop :=
  match t !! k with
  | None => True
  | Some c => Status c = Registered \/ (Status c = Failed /\ RetryAllowed c = true /\ retry = true)
  end.

(** What [RegisterPromptCommand] leaves, whatever fails. *)
Lemma register_table f now cmd retry t x t' :
  RegisterPromptCommand f now cmd retry t = (x, t') ->
  exists t1, (t1 = t \/ t1 = (stmt_insert cmd now t).2) /\
    (t' = t1 \/ t' = (stmt_retry (DeviceID cmd, ClientMsgID cmd) now t1).2).
Proof.
  unfold RegisterPromptCommand. destruct (_ || _)%bool; [intros [= <- <-]; exists t; auto|].
  unfold mbind at 1, M_bind at 1. destruct (exec f Exec1 (stmt_insert cmd now) t) as [[ins|e] t1] eqn:E1;
    apply exec_result in E1 as [Ht1 _]; intros Hrun; exists t1; (split; [done|]); revert Hrun; [|intros [= <- <-]; auto].
  unfold mbind at 1, M_bind at 1. destruct (sql f Affected1 t1) as [[u|e] t2] eqn:E2; apply sql_result in E2 as ->; [|intros [= <- <-]; auto].
  unfold mbind at 1, M_bind at 1.
  destruct (GetPromptCommand f Select1 (DeviceID cmd) (ClientMsgID cmd) t1) as [[s1|e] t3] eqn:E3; apply get_result in E3 as [-> _]; [|intros [= <- <-]; auto].
  destruct (negb ins && _)%bool; [intros [= <- <-]; auto|]. destruct ins; [intros [= <- <-]; auto|].
  case_bool_decide; [intros [= <- <-]; auto|]. destruct (_ || _)%bool; [intros [= <- <-]; auto|].
  unfold mbind at 1, M_bind at 1. destruct (exec f Exec2 (stmt_retry (DeviceID cmd, ClientMsgID cmd) now) t1) as [[cl|e] t4] eqn:E4;
    apply exec_result in E4 as [Ht4 _]; intros Hrun; (assert (t' = t4) as ->; [|done]); revert Hrun; [|by intros [= <- <-]].
  unfold mbind at 1, M_bind at 1. destruct (sql f Affected2 t4) as [[u2|e] t5] eqn:E5; apply sql_result in E5 as ->; [|by intros [= <- <-]].
  unfold mbind at 1, M_bind at 1.
  destruct (GetPromptCommand f Select2 (DeviceID cmd) (ClientMsgID cmd) t4) as [[s2|e] t6] eqn:E6; apply get_result in E6 as [-> _]; by intros [= <- <-].
Qed.

(** A row that [RegisterPromptCommand] added, even when it then failed. *)
Lemma register_new f now cmd retry t x t' k' c' :
  RegisterPromptCommand f now cmd retry t = (x, t') -> t !! k' = None -> t' !! k' = Some c' ->
  SealedEnvelopeJSON c' = SealedEnvelopeJSON cmd.
Proof.
  intros (t1 & Ht1 & Ht')%register_table Hn Hc.
  assert (H1 : forall c, t1 !! k' = Some c -> SealedEnvelopeJSON c = SealedEnvelopeJSON cmd).
  { intros c Hc1. destruct Ht1 as [-> | ->]; [congruence|]. unfold stmt_insert in Hc1.
    destruct (t !! (DeviceID cmd, ClientMsgID cmd)) eqn:Ek; simpl in Hc1; [congruence|].
    apply lookup_insert_Some in Hc1 as [[_ <-]|[_ Hc1]]; [done|congruence]. }
  destruct Ht' as [-> | ->]; [auto|]. unfold stmt_retry in Hc. rewrite update_where_lookup in Hc.
  case_bool_decide; [|auto]. apply fmap_Some in Hc as (c0 & Hc0 & ->). destruct (_ && _)%bool; simpl; auto.
Qed.

Lemma register_steps f now cmd retry t x t' :
  let k := (DeviceID cmd, ClientMsgID cmd) in
  RegisterPromptCommand f now cmd retry t = (x, t') ->
  rtc stmt_step t t' /\
  forall s owns, x = Ok (RegOk s owns) ->
    t' !! k = Some s /\ same_payload s cmd = true /\ (owns = true -> may_own t k retry).
Proof.
  intros k. unfold RegisterPromptCommand. destruct (_ || _)%bool; [by intros [= <- <-]|].
  unfold mbind at 1, M_bind at 1. destruct (exec f Exec1 (stmt_insert cmd now) t) as [[ins|e] t1] eqn:E1.
  2: { intros [= <- <-]. split; [eapply exec_steps; [apply StmtInsert|exact E1]|done]. }
  assert (Hr1 : rtc stmt_step t t1) by (eapply exec_steps; [apply StmtInsert|exact E1]).
  apply exec_result in E1 as [_ E1]. specialize (E1 ins eq_refl).
  unfold mbind at 1, M_bind at 1. destruct (sql f Affected1 t1) as [[u|e] t2] eqn:E2; apply sql_result in E2 as ->; [|by intros [= <- <-]].
  unfold mbind at 1, M_bind at 1.
  destruct (GetPromptCommand f Select1 (DeviceID cmd) (ClientMsgID cmd) t1) as [[s1|e] t3] eqn:E3; apply get_result in E3 as [-> E3]; [|by intros [= <- <-]].
  specialize (E3 s1 eq_refl).
  assert (Hins : ins = true -> t !! k = None /\ same_payload s1 cmd = true).
  { intros ->. unfold stmt_insert in E1. fold k in E1. destruct (t !! k) eqn:Ek; [discriminate E1|]. split; [done|].
    injection E1 as ->. fold k in E3. rewrite lookup_insert_eq in E3. injection E3 as <-. unfold same_payload. simpl. by rewrite !bool_decide_true. }
  assert (Hold : ins = false -> t1 = t /\ t !! k = Some s1).
  { intros ->. unfold stmt_insert in E1. fold k in E1, E3. destruct (t !! k) eqn:Ek; [|discriminate E1]. injection E1 as ->. by rewrite Ek in E3. }
  destruct (negb ins && negb (same_payload s1 cmd))%bool eqn:Ec; [by intros [= <- <-]|].
  assert (Hsp : same_payload s1 cmd = true).
  { destruct ins; [by apply Hins|]. simpl in Ec. by destruct (same_payload s1 cmd). }
  destruct ins.
  { intros [= <- <-]. split; [done|]. intros s owns [= <- <-]. split_and!; [done|done|]. intros _. unfold may_own. by destruct (Hins eq_refl) as [-> _]. }
  destruct (Hold eq_refl) as [-> Hk].
  case_bool_decide as Hreg.
  { intros [= <- <-]. split; [done|]. intros s owns [= <- <-]. split_and!; [done|done|]. intros _. unfold may_own. rewrite Hk. by left. }
  destruct (negb (bool_decide (Status s1 = Failed)) || negb (RetryAllowed s1) || negb retry)%bool eqn:Eg.
  { intros [= <- <-]. split; [done|]. intros s owns [= <- <-]. done. }
  bool_hyps.
  unfold mbind at 1, M_bind at 1. destruct (exec f Exec2 (stmt_retry (DeviceID cmd, ClientMsgID cmd) now) t) as [[cl|e] t4] eqn:E4.
  2: { intros [= <- <-]. split; [eapply exec_steps; [apply StmtRetry|exact E4]|done]. }
  assert (Hr4 : rtc stmt_step t t4) by (eapply exec_steps; [apply StmtRetry|exact E4]).
  apply exec_result in E4 as [_ E4]. specialize (E4 cl eq_refl).
  unfold mbind at 1, M_bind at 1. destruct (sql f Affected2 t4) as [[u2|e] t5] eqn:E5; apply sql_result in E5 as ->; [|by intros [= <- <-]].
  unfold mbind at 1, M_bind at 1.
  destruct (GetPromptCommand f Select2 (DeviceID cmd) (ClientMsgID cmd) t4) as [[s2|e] t6] eqn:E6; apply get_result in E6 as [-> E6]; [|by intros [= <- <-]].
  specialize (E6 s2 eq_refl).
  intros [= <- <-]. split; [done|]. intros s owns [= <- <-]. split_and!; [done| |].
  - unfold stmt_retry, update_where in E4. fold k in E4, E6. rewrite Hk in E4. destruct (bool_decide (Status s1 = Failed) && RetryAllowed s1)%bool; cbn in E4; pose proof (f_equal snd E4) as E7; simpl in E7; subst t4.
    + rewrite lookup_insert_eq in E6. injection E6 as <-. done.
    + rewrite Hk in E6. by injection E6 as <-.
  - intros _. unfold may_own. rewrite Hk. right. done.
Qed.

(** C34: the durable record of a prompt, under any interleaving of the
    statements of any number of connections. A row, once inserted, keeps its
    payload and creation time and is never removed; accepted is final and its
    commit mark is never lost; an indeterminate prompt stays so or turns out
    accepted, but is never offered for a retry; and a row allows a retry only
    while it is failed, with an outcome that is not [indeterminate]. *)
Theorem prompt_row_lifecycle t t' k c :
  rtc stmt_step ∅ t -> rtc stmt_step t t' -> t !! k = Some c ->
  exists c', t' !! k = Some c' /\ same_payload c' c = true /\ CreatedAt c' = CreatedAt c /\
    (Status c = Accepted -> Status c' = Accepted /\ (CommitSent c = true -> CommitSent c' = true)) /\
    (Status c = Indeterminate -> (Status c' = Indeterminate \/ Status c' = Accepted) /\ RetryAllowed c' = false) /\
    (RetryAllowed c' = true -> Status c' = Failed /\ Outcome c' <> PromptIndeterminate).
Proof.
  intros H0 Ht Hc.
  pose proof (rows_keep t t' k c (table_inv_reachable t H0) Ht Hc) as Hk.
  destruct Hk as (c' & Hc' & Hp & Hcr & Ha & Hi).
  assert (Hinv : row_inv c').
  { assert (table_inv t') as I by (apply table_inv_reachable; by etrans). by eapply I. }
  exists c'. split_and!; try done.
  - intros Hs. split; [by apply Hi|]. destruct (RetryAllowed c') eqn:E; [|done].
    apply (ri_retry _ Hinv) in E. destruct (Hi Hs); congruence.
  - intros E. apply (ri_retry _ Hinv) in E. split; [done|]. by apply (ri_failed _ Hinv).
Qed.

(** A new command, when nothing fails. *)
Lemma register_ok_new now cmd retry t :
  DeviceID cmd <> "" -> ClientMsgID cmd <> "" -> SessionID cmd <> "" -> t !! (DeviceID cmd, ClientMsgID cmd) = None ->
  let c := mkCommand (DeviceID cmd) (ClientMsgID cmd) (SessionID cmd) (Prompt cmd) (AttachmentsJSON cmd)
             (SealedEnvelopeJSON cmd) Registered "" "" false false now now in
  RegisterPromptCommand sql_ok now cmd retry t = (Ok (RegOk c true), <[(DeviceID cmd, ClientMsgID cmd) := c]> t).
Proof.
  intros Hd%is_empty_false Hc%is_empty_false Hs%is_empty_false Hk. cbv zeta. unfold RegisterPromptCommand. rewrite Hd, Hc, Hs. cbn [orb].
  unfold exec, GetPromptCommand, sql, sql_ok, stmt_insert. cbv [mbind M_bind mret M_ret get put raise]. rewrite Hk. cbn [fst snd].
  by rewrite lookup_insert_eq.
Qed.

(** [RegisterPromptCommand] without errors, on every branch: a new command
    is stored as registered and owned; a known one with another payload is a
    conflict and changes nothing; a registered one is owned again; a failed one
    that allows it is reset for exactly one retry, and only on request; a
    pending, accepted, indeterminate or unretryable one is returned and not
    owned. *)
Theorem register_branches now cmd retry t :
  DeviceID cmd <> "" -> ClientMsgID cmd <> "" -> SessionID cmd <> "" ->
  let k := (DeviceID cmd, ClientMsgID cmd) in
  RegisterPromptCommand sql_ok now cmd retry t =
    match t !! k with
    | None =>
      let c := mkCommand (DeviceID cmd) (ClientMsgID cmd) (SessionID cmd) (Prompt cmd) (AttachmentsJSON cmd)
                 (SealedEnvelopeJSON cmd) Registered "" "" false false now now in
      (Ok (RegOk c true), <[k := c]> t)
    | Some c =>
      if negb (same_payload c cmd) then (Ok (RegConflict c), t)
      else match Status c with
           | Registered => (Ok (RegOk c true), t)
           | Failed =>
             if (RetryAllowed c && retry)%bool
             then let c' := set_outcome c Registered "" "" false (CommitSent c) now in
                  (Ok (RegOk c' true), <[k := c']> t)
             else (Ok (RegOk c false), t)
           | _ => (Ok (RegOk c false), t)
           end
    end.
Proof.
  intros Hd Hc Hs. cbv zeta. unfold RegisterPromptCommand.
  apply is_empty_false in Hd, Hc, Hs. rewrite Hd, Hc, Hs. cbn [orb].
  unfold exec, GetPromptCommand, sql, sql_ok, stmt_insert. cbv [mbind M_bind mret M_ret get put raise].
  destruct (t !! (DeviceID cmd, ClientMsgID cmd)) as [c|] eqn:Hk; cbn [fst snd].
  - rewrite Hk. cbn [negb andb]. destruct (same_payload c cmd) eqn:Hp; cbn [negb]; [|done].
    unfold stmt_retry, update_where.
    destruct (Status c) eqn:Hst; simpl; try done.
    destruct (RetryAllowed c) eqn:Hr; simpl; [|done]. destruct retry; simpl; [|done].
    rewrite Hk, Hst, Hr. simpl. by rewrite lookup_insert_eq.
  - by rewrite lookup_insert_eq.
Qed.

(** The effect of a guarded update through [promptTransitionResult]. *)
Lemma transition_result d m guard set t :
  promptTransitionResult sql_ok d m (update_where (d, m) guard set) t =
    match t !! (d, m) with
    | None => (Err "sql: no rows in result set", t)
    | Some c => if guard c then (Ok (set c, true), <[(d, m) := set c]> t) else (Ok (c, false), t)
    end.
Proof.
  unfold promptTransitionResult, exec, GetPromptCommand, sql, sql_ok.
  cbv [mbind M_bind mret M_ret get put raise]. unfold update_where.
  destruct (t !! (d, m)) as [c|] eqn:Hk; cbn [fst snd]; [|by rewrite Hk].
  destruct (guard c); cbn [fst snd]; [by rewrite lookup_insert_eq|by rewrite Hk].
Qed.

Lemma mark_forwarded_ok now d m t c :
  t !! (d, m) = Some c -> Status c = Registered ->
  let c' := set_outcome c Pending (Error c) (Outcome c) (RetryAllowed c) (CommitSent c) now in
  MarkPromptForwarded sql_ok now d m t = (Ok (c', true), <[(d, m) := c']> t).
Proof. intros Hc Hs. unfold MarkPromptForwarded, stmt_forward. by rewrite transition_result, Hc, Hs. Qed.

Lemma mark_accepted_ok now d m t c :
  t !! (d, m) = Some c -> Status c <> Accepted ->
  let c' := set_outcome c Accepted "" "accepted" false false now in
  MarkPromptAccepted sql_ok now d m t = (Ok (c', true), <[(d, m) := c']> t).
Proof. intros Hc Hs. unfold MarkPromptAccepted, stmt_accept. rewrite transition_result, Hc. by destruct (Status c). Qed.

Lemma mark_accepted_again now d m t c :
  t !! (d, m) = Some c -> Status c = Accepted -> MarkPromptAccepted sql_ok now d m t = (Ok (c, false), t).
Proof. intros Hc Hs. unfold MarkPromptAccepted, stmt_accept. rewrite transition_result, Hc. by destruct (Status c). Qed.

Lemma mark_failed_ok now d m msg outcome retry t c :
  t !! (d, m) = Some c -> Status c = Registered ->
  let c' := if bool_decide (outcome = PromptIndeterminate) then set_outcome c Indeterminate msg "indeterminate" false (CommitSent c) now
            else set_outcome c Failed msg (if is_empty outcome then PromptFailed else outcome) retry (CommitSent c) now in
  MarkPromptFailed sql_ok now d m msg outcome retry t = (Ok (c', true), <[(d, m) := c']> t).
Proof.
  intros Hc Hs. unfold MarkPromptFailed, fail_stmt. case_bool_decide; unfold stmt_indeterminate, stmt_fail;
    by rewrite transition_result, Hc, Hs.
Qed.

Lemma mark_committed_ok now d m t c :
  t !! (d, m) = Some c -> Status c = Accepted ->
  MarkPromptCommitted sql_ok now d m t =
    (Ok tt, <[(d, m) := set_outcome c Accepted (Error c) (Outcome c) (RetryAllowed c) true now]> t).
Proof.
  intros Hc Hs. unfold MarkPromptCommitted, exec, sql, sql_ok, stmt_commit, update_where, mbind, M_bind, mret, M_ret, get, put.
  by rewrite Hc, Hs.
Qed.

(** what the three outcome methods do and report, without errors: the row
    after the update and whether it changed. Forwarding applies only to a
    registered command. The daemon's acceptance overrides everything but an
    earlier acceptance. A failure applies to an open command, and with the
    outcome [indeterminate] also tightens an earlier failure; it then never
    allows a retry. *)
Theorem mark_branches now d m t c msg outcome retry :
  t !! (d, m) = Some c ->
  MarkPromptForwarded sql_ok now d m t =
    (if bool_decide (Status c = Registered)
     then let c' := set_outcome c Pending (Error c) (Outcome c) (RetryAllowed c) (CommitSent c) now in
          (Ok (c', true), <[(d, m) := c']> t)
     else (Ok (c, false), t)) /\
  MarkPromptAccepted sql_ok now d m t =
    (if bool_decide (Status c = Accepted) then (Ok (c, false), t)
     else let c' := set_outcome c Accepted "" "accepted" false false now in
          (Ok (c', true), <[(d, m) := c']> t)) /\
  MarkPromptFailed sql_ok now d m msg outcome retry t =
    (let indet := bool_decide (outcome = PromptIndeterminate) in
     let c' := if indet then set_outcome c Indeterminate msg "indeterminate" false (CommitSent c) now
               else set_outcome c Failed msg (if is_empty outcome then PromptFailed else outcome) retry (CommitSent c) now in
     match Status c with
     | Registered | Pending => (Ok (c', true), <[(d, m) := c']> t)
     | Failed => if indet then (Ok (c', true), <[(d, m) := c']> t) else (Ok (c, false), t)
     | Accepted | Indeterminate => (Ok (c, false), t)
     end).
Proof.
  intros Hc. split_and!.
  - unfold MarkPromptForwarded, stmt_forward. rewrite transition_result, Hc. done.
  - unfold MarkPromptAccepted, stmt_accept. rewrite transition_result, Hc.
    by destruct (Status c).
  - unfold MarkPromptFailed, fail_stmt. case_bool_decide.
    + unfold stmt_indeterminate. rewrite transition_result, Hc. by destruct (Status c).
    + unfold stmt_fail. rewrite transition_result, Hc. by destruct (Status c).
Qed.

Lemma sorted_take {A} (R : A -> A -> Prop) (l : list A) n : Sorted R l -> Sorted R (take n l).
Proof.
  revert n. induction l as [|a l IH]; intros [|n] Hs; simpl; try constructor.
  - apply IH. by inversion Hs.
  - inversion Hs as [|? ? _ Hd]; subst. destruct l, n; constructor. by inversion Hd.
Qed.

#[export] Instance command_before_total : Total command_before.
Proof.
  intros a b. unfold command_before.
  destruct (Z.lt_trichotomy (UpdatedAt a) (UpdatedAt b)) as [|[E|]]; [by left; left| |by right; left].
  destruct (String.leb_total (ClientMsgID a) (ClientMsgID b)); [left|right]; right; done.
Qed.

Lemma elem_of_uncommitted t d c :
  table_inv t ->
  c ∈ merge_sort command_before (List.filter (uncommitted_of d) (map_to_list t).*2) <->
  t !! (DeviceID c, ClientMsgID c) = Some c /\ uncommitted_of d c = true.
Proof.
  intros I. rewrite merge_sort_Permutation, list_elem_of_In, filter_In, <- list_elem_of_In, list_elem_of_fmap.
  split; intros [Hin Hu]; (split; [|done]).
  - destruct Hin as ([k c'] & -> & Hin). apply elem_of_map_to_list in Hin. simpl.
    by destruct (I _ _ Hin) as [<- _].
  - exists (DeviceID c, ClientMsgID c, c). by rewrite elem_of_map_to_list.
Qed.

Lemma elem_of_take {A} (n : nat) (l : list A) x : x ∈ take n l -> x ∈ l.
Proof. intros H. rewrite <- (take_drop n l). apply elem_of_app. by left. Qed.

(** the commit replay list of a device contains only its accepted
    commands whose commit was not sent, oldest first, at most [limit] of them,
    and all of them when there are no more than that; marking one committed
    takes it off the list. *)
Theorem uncommitted_list_exact t d limit now m :
  rtc stmt_step ∅ t -> 1 <= limit <= 500 ->
  let l := ListUncommittedAcceptedPrompts t d limit in
  (forall c, c ∈ l -> t !! (d, ClientMsgID c) = Some c /\ Status c = Accepted /\ CommitSent c = false) /\
  Z.of_nat (List.length l) <= limit /\
  (Z.of_nat (List.length l) < limit -> forall k c, t !! k = Some c -> uncommitted_of d c = true -> c ∈ l) /\
  Sorted command_before l /\
  (forall c, c ∈ ListUncommittedAcceptedPrompts (MarkPromptCommitted sql_ok now d m t).2 d limit -> ClientMsgID c <> m).
Proof.
  intros I%table_inv_reachable Hl. cbv zeta. unfold ListUncommittedAcceptedPrompts.
  assert (((limit <? 1) || (500 <? limit))%bool = false) as ->.
  { apply orb_false_iff. rewrite !Z.ltb_ge. lia. }
  split_and!.
  - intros c Hc. apply elem_of_take, (elem_of_uncommitted _ _ _ I) in Hc as [Hc Hu].
    unfold uncommitted_of in Hu. bool_hyps. subst d. done.
  - rewrite length_take. lia.
  - intros Hlen k c Hk Hu. rewrite length_take in Hlen. rewrite take_ge by lia.
    apply elem_of_uncommitted; [done|]. destruct (I _ _ Hk) as [<- _]. done.
  - apply sorted_take. apply Sorted_merge_sort. apply _.
  - assert (Ht' : (MarkPromptCommitted sql_ok now d m t).2 = (stmt_commit (d, m) now t).2).
    { unfold MarkPromptCommitted, exec, sql, sql_ok. done. }
    rewrite Ht'. assert (I' : table_inv (stmt_commit (d, m) now t).2) by (eapply table_inv_step; [done|constructor]).
    intros c Hc Hm. apply elem_of_take, (elem_of_uncommitted _ _ _ I') in Hc as [Hc Hu].
    unfold uncommitted_of in Hu. bool_hyps. subst d m.
    unfold stmt_commit in Hc. rewrite update_where_lookup, bool_decide_true in Hc by done.
    apply fmap_Some in Hc as (c0 & Hc0 & Hc). case_bool_decide as Ha; rewrite Hc in *; done.
Qed.

(** ** Witnesses *)

Definition w_cmd : PromptCommand := mkCommand "d1" "m1" "s1" "hello" "" "" Registered "" "" false false 0 0.
Definition w_t1 : promptTable := (stmt_insert w_cmd 100 ∅).2.
Definition w_t2 : promptTable := (stmt_accept ("d1", "m1") 101 w_t1).2.

Lemma w_t1_reach : rtc stmt_step ∅ w_t1.
Proof. eapply rtc_l; [apply (StmtInsert ∅ w_cmd 100)|apply rtc_refl]. Defined.

Lemma w_t2_reach : rtc stmt_step w_t1 w_t2.
Proof. eapply rtc_l; [apply (StmtAccept w_t1 ("d1", "m1") 101)|apply rtc_refl]. Defined.

Lemma prompt_row_lifecycle_witness :
  exists c', w_t2 !! ("d1", "m1") = Some c' /\ CreatedAt c' = 100.
Proof.
  assert (H : w_t1 !! ("d1", "m1") = Some (set_outcome (mkCommand "d1" "m1" "s1" "hello" "" "" Registered "" "" false false 100 100)
    Registered "" "" false false 100)) by by_vm.
  destruct (prompt_row_lifecycle w_t1 w_t2 _ _ w_t1_reach w_t2_reach H) as (c' & Hc & _ & Hcr & _).
  exists c'. split; [exact Hc|exact Hcr].
Defined.

Lemma register_branches_witness :
  (RegisterPromptCommand sql_ok 200 w_cmd false w_t2).2 = w_t2.
Proof.
  rewrite (register_branches 200 w_cmd false w_t2); [by_vm|discriminate|discriminate|discriminate].
Defined.

Lemma mark_branches_witness :
  exists c, w_t2 !! ("d1", "m1") = Some c /\
    MarkPromptFailed sql_ok 300 "d1" "m1" "late" PromptIndeterminate true w_t2 = (Ok (c, false), w_t2).
Proof.
  assert (H : w_t2 !! ("d1", "m1") = Some (mkCommand "d1" "m1" "s1" "hello" "" "" Accepted "" "accepted" false false 100 101)) by by_vm.
  exists (mkCommand "d1" "m1" "s1" "hello" "" "" Accepted "" "accepted" false false 100 101). split; [exact H|].
  rewrite (proj2 (proj2 (mark_branches 300 "d1" "m1" w_t2 _ "late" PromptIndeterminate true H))). reflexivity.
Defined.

Lemma uncommitted_list_exact_witness :
  List.length (ListUncommittedAcceptedPrompts w_t2 "d1" 100) = 1%nat /\
  Sorted command_before (ListUncommittedAcceptedPrompts w_t2 "d1" 100).
Proof.
  split; [by_vm|].
  apply (uncommitted_list_exact w_t2 "d1" 100 0 "m1"); [|lia].
  etrans; [exact w_t1_reach|exact w_t2_reach].
Defined.
