(* ===== verification/ProtocolSpec.v ===== *)
(** * Correctness of negotiation and of the frame check *)

From stdpp Require Import base tactics list gmap strings.
From Stdlib Require Import Ascii ZArith Lia.
From S2P Require Import Prelude GoStrings Json Protocol.

(** ** Decimal numerals *)

Lemma code_byte_of z : 0 <= z < 256 -> code (byte_of z) = z.
Proof.
  intros H. unfold code, byte_of. rewrite N_ascii_embedding; [by rewrite Z2N.id by lia|].
  apply N2Z.inj_lt. rewrite Z2N.id by lia. apply H.
Qed.

Lemma parse_dec_itoa fuel n acc :
  0 <= n < 10 ^ Z.of_nat fuel -> (0 < fuel)%nat -> parse_dec (itoa_loop fuel n acc) 0 = parse_dec acc n.
Proof.
  revert n acc. induction fuel as [|fuel IH]; intros n acc Hn Hf; [lia|]. cbn [itoa_loop].
  assert (Hm : 0 <= n mod 10 < 10) by (apply Z.mod_pos_bound; lia).
  assert (Hd : forall a, parse_dec (String (byte_of (48 + n mod 10)) acc) a = parse_dec acc (a * 10 + n mod 10)).
  { intros a. cbn [parse_dec]. rewrite code_byte_of by lia. unfold is_digit.
    destruct (48 <=? 48 + n mod 10) eqn:E1; destruct (48 + n mod 10 <=? 57) eqn:E2; bool_hyps; try lia.
    simpl. f_equal. lia. }
  destruct (n <? 10) eqn:E; bool_hyps.
  - rewrite Hd, Z.mod_small by lia. f_equal.
  - assert (Hf2 : (0 < fuel)%nat).
    { destruct fuel; [|lia]. change (10 ^ Z.of_nat 1) with 10 in Hn. lia. }
    rewrite IH.
    + rewrite Hd. f_equal. pose proof (Z.div_mod n 10). lia.
    + split; [apply Z.div_pos; lia|]. apply Z.div_lt_upper_bound; [lia|].
      rewrite Nat2Z.inj_succ, Z.pow_succ_r in Hn by lia. lia.
    + done.
Qed.

Lemma itoa_loop_nonempty fuel n acc : (0 < fuel)%nat -> itoa_loop fuel n acc <> "".
Proof.
  revert n acc. induction fuel as [|fuel IH]; intros n acc Hf; [lia|]. cbn [itoa_loop].
  destruct (n <? 10); [done|]. destruct fuel; [done|]. apply IH. lia.
Qed.

(** Every byte of a numeral is a digit. *)
Fixpoint all_digits (s : string) : bool :=
  match s with EmptyString => true | String c s' => (is_digit (code c) && all_digits s')%bool end.

Lemma itoa_loop_digits fuel n acc : all_digits acc = true -> all_digits (itoa_loop fuel n acc) = true.
Proof.
  revert n acc. induction fuel as [|fuel IH]; intros n acc H; [done|]. cbn [itoa_loop].
  assert (Hd : all_digits (String (byte_of (48 + n mod 10)) acc) = true).
  { cbn [all_digits]. pose proof (Z.mod_pos_bound n 10 eq_refl). rewrite code_byte_of by lia. unfold is_digit.
    destruct (48 <=? 48 + n mod 10) eqn:E1; destruct (48 + n mod 10 <=? 57) eqn:E2; bool_hyps; try lia. done. }
  destruct (n <? 10); [done|by apply IH].
Qed.

Lemma Itoa_digits n : 0 <= n -> all_digits (Itoa n) = true /\ Itoa n <> "".
Proof.
  intros H. unfold Itoa. destruct (n <? 0) eqn:E; bool_hyps; [lia|].
  split; [by apply itoa_loop_digits|apply itoa_loop_nonempty; lia].
Qed.

Lemma Atoi_digits s : all_digits s = true -> s <> "" -> Atoi s = (n ← parse_dec s 0; in_int n).
Proof.
  destruct s as [|c s]; [done|]. intros H _. cbn [all_digits] in H. apply andb_prop in H as [Hc _].
  unfold Atoi. destruct (Ascii.eqb c "-") eqn:E1; [apply Ascii.eqb_eq in E1 as ->; done|].
  destruct (Ascii.eqb c "+") eqn:E2; [apply Ascii.eqb_eq in E2 as ->; done|]. done.
Qed.

Lemma Atoi_Itoa n : 0 <= n <= max_int64 -> Atoi (Itoa n) = Some n.
Proof.
  intros H. destruct (Itoa_digits n) as [Hd He]; [lia|]. rewrite Atoi_digits by done.
  unfold Itoa. destruct (n <? 0) eqn:E; bool_hyps; [lia|].
  rewrite parse_dec_itoa; [|unfold max_int64 in H; change (10 ^ Z.of_nat 20) with 100000000000000000000; lia|lia].
  simpl. unfold in_int, min_int64, max_int64 in *.
  destruct (-9223372036854775808 <=? n) eqn:E1; destruct (n <=? 9223372036854775807) eqn:E2; bool_hyps; try lia. done.
Qed.

(** ** Trimming and splitting of "major.minor" *)

Lemma digit_cases c : is_digit (code c) = true -> In c (String.list_ascii_of_string "0123456789").
Proof.
  destruct c as [[] [] [] [] [] [] [] []]; try (intros H; vm_compute in H; discriminate H); intros _; cbn [String.list_ascii_of_string In]; auto 12.
Qed.

Lemma trim_left_digit c s :
  is_digit (code c) = true ->
  trim_left space_strings 0 (String c s) = String c s /\
  trim_left (rev_string <$> space_strings) 0 (String c s) = String c s.
Proof.
  intros H. apply digit_cases in H. cbn [String.list_ascii_of_string In] in H.
  repeat (destruct H as [<- | H]; [split; reflexivity|]). done.
Qed.

Lemma TrimSpace_digits c1 s c2 s1 :
  is_digit (code c1) = true -> is_digit (code c2) = true -> s = String c1 s1 -> (exists s2, rev_string s = String c2 s2) ->
  TrimSpace s = s.
Proof.
  intros H1 H2 -> [s2 Hr]. unfold TrimSpace. rewrite (proj1 (trim_left_digit c1 s1 H1)), Hr.
  rewrite (proj2 (trim_left_digit c2 s2 H2)), <- Hr. apply rev_string_involutive.
Qed.

Lemma all_digits_app s t : all_digits (s +:+ t) = (all_digits s && all_digits t)%bool.
Proof. induction s as [|c s IH]; [done|]. rewrite string_app_cons. cbn [all_digits]. by rewrite IH, andb_assoc. Qed.

Lemma all_digits_rev s : all_digits (rev_string s) = all_digits s.
Proof.
  induction s as [|c s IH]; [done|]. change (String c s) with (String c "" +:+ s).
  rewrite rev_string_app, !all_digits_app, IH, andb_comm. done.
Qed.

Lemma split_digits s : all_digits s = true -> split_byte "." s = [s].
Proof.
  induction s as [|c s IH]; [done|]. cbn [all_digits]. intros [Hc Hs]%andb_prop.
  cbn [split_byte]. destruct (Ascii.eqb c ".") eqn:E.
  - apply Ascii.eqb_eq in E as ->. done.
  - by rewrite (IH Hs).
Qed.

Lemma split_version s t : all_digits s = true -> all_digits t = true -> split_byte "." (s +:+ "." +:+ t) = [s; t].
Proof.
  intros Hs Ht. induction s as [|c s IH].
  - change ("" +:+ "." +:+ t) with (String "." t). cbn [split_byte]. by rewrite (split_digits t Ht).
  - cbn [all_digits] in Hs. apply andb_prop in Hs as [Hc Hs]. rewrite string_app_cons. cbn [split_byte].
    destruct (Ascii.eqb c ".") eqn:E; [apply Ascii.eqb_eq in E as ->; done|]. by rewrite (IH Hs).
Qed.

Lemma first_digit s : all_digits s = true -> s <> "" -> exists c s', s = String c s' /\ is_digit (code c) = true.
Proof. destruct s as [|c s]; [done|]. cbn [all_digits]. intros [Hc _]%andb_prop _. eauto. Qed.

Lemma TrimSpace_version s t :
  all_digits s = true -> all_digits t = true -> s <> "" -> t <> "" -> TrimSpace (s +:+ "." +:+ t) = s +:+ "." +:+ t.
Proof.
  intros Hs Ht Hs0 Ht0. destruct (first_digit s Hs Hs0) as (c & s' & -> & Hc).
  destruct (first_digit (rev_string t)) as (c2 & t' & Hr & Hc2).
  { by rewrite all_digits_rev. }
  { intros E. apply Ht0. rewrite <- (rev_string_involutive t), E. done. }
  eapply TrimSpace_digits; [exact Hc|exact Hc2|by rewrite string_app_cons|].
  exists (t' +:+ rev_string (String c s' +:+ ".")).
  rewrite string_app_assoc, rev_string_app, Hr. by rewrite string_app_cons.
Qed.

Lemma parse_component_Itoa n err : 0 <= n <= max_int64 -> parse_component (Itoa n) err = Ok n.
Proof. intros H. unfold parse_component. rewrite Atoi_Itoa by done. destruct (n <? 0) eqn:E; bool_hyps; [lia|done]. Qed.

Lemma Atoi_range s n : Atoi s = Some n -> n <= max_int64.
Proof.
  assert (Hin : forall m k, in_int m = Some k -> k <= max_int64).
  { intros m k. unfold in_int. destruct (_ && _)%bool eqn:E; [|done]. bool_hyps. intros [= <-]. done. }
  unfold Atoi. destruct s as [|c s]; [done|].
  destruct (Ascii.eqb c "-"); [|destruct (Ascii.eqb c "+")]; intros (m & _ & H)%bind_Some; by eapply Hin.
Qed.

Lemma parse_format a b :
  0 <= a <= max_int64 -> 0 <= b <= max_int64 ->
  ParseProtocolVersion (FormatProtocolVersion a b) = Ok (mkVersion a b).
Proof.
  intros Ha Hb. destruct (Itoa_digits a) as [Da Ea]; [lia|]. destruct (Itoa_digits b) as [Db Eb]; [lia|].
  unfold ParseProtocolVersion, FormatProtocolVersion. rewrite TrimSpace_version by done.
  assert (is_empty (Itoa a +:+ "." +:+ Itoa b) = false) as -> by (by destruct (Itoa a)).
  cbn [fail_if mbind res_bind]. rewrite split_version by done.
  rewrite !parse_component_Itoa by done. cbn [mbind res_bind].
  rewrite !bool_decide_true by done. done.
Qed.

Lemma parse_component_ok s err n : parse_component s err = Ok n -> 0 <= n <= max_int64.
Proof.
  unfold parse_component. destruct (Atoi s) as [m|] eqn:E; [|done].
  destruct (m <? 0) eqn:E0; [done|]. bool_hyps. intros [= <-]. apply Atoi_range in E. lia.
Qed.

Lemma parse_canonical v p :
  ParseProtocolVersion v = Ok p ->
  TrimSpace v = FormatProtocolVersion (Major p) (Minor p) /\
  0 <= Major p <= max_int64 /\ 0 <= Minor p <= max_int64.
Proof.
  unfold ParseProtocolVersion. intros (? & _ & H)%bind_ok.
  pose proof (join_split "." (TrimSpace v)) as Hj.
  destruct (split_byte "." (TrimSpace v)) as [|p0 [|p1 [|? ?]]]; try done.
  apply bind_ok in H as (ma & Hma & H). apply bind_ok in H as (mi & Hmi & H).
  apply bind_ok in H as (? & Hf & [= <-]). apply fail_if_ok in Hf.
  apply orb_false_elim in Hf as [H0 H1]. bool_hyps. simpl.
  split_and!; try (by eapply parse_component_ok).
  rewrite <- Hj. unfold FormatProtocolVersion. simpl. by rewrite H0 at 1; rewrite H1 at 1.
Qed.

(** version strings round trip: formatting then parsing gives the parts
    back, and whatever parses is, up to surrounding white space, exactly the
    canonical form of the parts, which are non-negative 64-bit integers. *)
Theorem version_roundtrip :
  (forall a b, 0 <= a <= max_int64 -> 0 <= b <= max_int64 ->
     ParseProtocolVersion (FormatProtocolVersion a b) = Ok (mkVersion a b)) /\
  (forall v p, ParseProtocolVersion v = Ok p ->
     TrimSpace v = FormatProtocolVersion (Major p) (Minor p) /\
     0 <= Major p <= max_int64 /\ 0 <= Minor p <= max_int64).
Proof. split; [apply parse_format|apply parse_canonical]. Qed.

(** the handshake succeeds exactly when the client names the nest's mode
    and a version of the same major; the negotiated version is then that major
    with the smaller minor, so neither side is asked for more than it has; a
    refusal carries one of two stable codes and no version or mode. *)
Theorem handshake_negotiation cv cm nest minor :
  0 <= minor <= max_int64 -> nest = TransportSealed \/ nest = TransportOpen ->
  let r := NegotiateHandshake cv cm nest minor in
  match ParseTransportMode cm, ParseProtocolVersion cv with
  | Ok mode, Ok v =>
    if (bool_decide (mode = nest) && (Major v =? CurrentProtocolMajor))%bool
    then r = mkHandshake (FormatProtocolVersion CurrentProtocolMajor (Z.min (Minor v) minor)) nest "" "" /\
         ParseProtocolVersion (NegotiatedVersion r) = Ok (mkVersion CurrentProtocolMajor (Z.min (Minor v) minor))
    else ErrorCode r = (if bool_decide (mode = nest) then ErrCodeVersionMismatch else ErrCodeTransportModeMismatch) /\
         NegotiatedVersion r = "" /\ hsTransportMode r = NoTransport
  | Ok mode, Err _ =>
    ErrorCode r = (if bool_decide (mode = nest) then ErrCodeVersionMismatch else ErrCodeTransportModeMismatch) /\
    NegotiatedVersion r = "" /\ hsTransportMode r = NoTransport
  | Err _, _ => ErrorCode r = ErrCodeTransportModeMismatch /\ NegotiatedVersion r = "" /\ hsTransportMode r = NoTransport
  end.
Proof.
  intros Hm Hn r. subst r. unfold NegotiateHandshake.
  assert (match nest with NoTransport => TransportSealed | m => m end = nest) as -> by (by destruct Hn as [-> | ->]).
  destruct (ParseTransportMode cm) as [mode|e]; [|done].
  destruct (ParseProtocolVersion cv) as [v|e] eqn:Hv.
  - pose proof (parse_canonical _ _ Hv) as (_ & Hma & Hmi).
    case_bool_decide as E; cbn [negb andb]; [|done]. subst mode. unfold NegotiateProtocolVersion. rewrite Hv.
    cbn [mbind res_bind]. destruct (Major v =? CurrentProtocolMajor) eqn:EM; cbn [negb fail_if mbind res_bind]; [|done].
    assert ((if minor <? Minor v then minor else Minor v) = Z.min (Minor v) minor) as ->.
    { destruct (minor <? Minor v) eqn:E; bool_hyps; lia. }
    split; [done|]. cbn [NegotiatedVersion]. apply parse_format; [done|]. unfold max_int64 in *. lia.
  - case_bool_decide; [|done]. cbn [negb]. unfold NegotiateProtocolVersion. by rewrite Hv.
Qed.

(** The envelope of a frame carries no application data in the clear. *)
Definition opaque_body (m : NekoMessage) : Prop := Payload m = None.

(** the confidentiality boundary. In sealed mode a frame passes exactly
    when its mode and version fit, its type is known, it does not mix the two
    body forms, and either it is a routing frame, or an application frame with
    a sealed body, or one of the three bodiless failure frames the relay may
    emit itself; so no frame that passes carries application data in the
    clear. In open mode no sealed body passes. *)
Theorem frame_check_exact m mode :
  (mode = TransportSealed \/ mode = TransportOpen) ->
  (ValidateFrameForTransport (Some m) mode = Ok tt <->
     msgTransportMode m = mode /\
     (exists v, ParseProtocolVersion (ProtocolVersion m) = Ok v /\ Major v = CurrentProtocolMajor) /\
     BodyPolicy (msgType m) <> MessageBodyUnknown /\
     (Payload m = None \/ msgSealedPayload m = None) /\
     match mode with
     | TransportSealed =>
       BodyPolicy (msgType m) = MessageBodyRouting \/ msgSealedPayload m <> None \/ isSealedFailClosedRouting m = true
     | _ => msgSealedPayload m = None
     end) /\
  (ValidateFrameForTransport (Some m) TransportSealed = Ok tt ->
   BodyPolicy (msgType m) = MessageBodyApplication -> opaque_body m).
Proof.
  intros Hmode.
  assert (Henv : ValidateEnvelopeForm (Some m) = Ok tt <-> Payload m = None \/ msgSealedPayload m = None).
  { unfold ValidateEnvelopeForm. destruct (Payload m), (msgSealedPayload m); simpl; naive_solver. }
  assert (Hver : (match ParseProtocolVersion (ProtocolVersion m) with
      | Ok version => fail_if (negb (Major version =? CurrentProtocolMajor)) (ErrCodeVersionMismatch +:+ ": invalid frame protocol_version")
      | Err _ => Err (ErrCodeVersionMismatch +:+ ": invalid frame protocol_version") end) = Ok tt
    <-> exists v, ParseProtocolVersion (ProtocolVersion m) = Ok v /\ Major v = CurrentProtocolMajor).
  { destruct (ParseProtocolVersion (ProtocolVersion m)) as [v|e]; [|naive_solver].
    destruct (Major v =? CurrentProtocolMajor) eqn:E; bool_hyps; simpl; naive_solver. }
  assert (Hbind : forall (r : res unit) (k : unit -> res unit), (r ≫= k) = Ok tt <-> r = Ok tt /\ k tt = Ok tt).
  { intros [[]|e] k; simpl; naive_solver. }
  assert (Hfail : forall c msg, fail_if c msg = Ok tt <-> c = false) by (intros [] ?; naive_solver).
  assert (Hexact : forall md, ValidateFrameForTransport (Some m) md = Ok tt <->
    (Payload m = None \/ msgSealedPayload m = None) /\ msgTransportMode m = md /\
    (exists v, ParseProtocolVersion (ProtocolVersion m) = Ok v /\ Major v = CurrentProtocolMajor) /\
    BodyPolicy (msgType m) <> MessageBodyUnknown /\
    match md with
    | TransportSealed => isSealedFailClosedRouting m = true \/
        (BodyPolicy (msgType m) = MessageBodyApplication -> msgSealedPayload m <> None)
    | TransportOpen => msgSealedPayload m = None
    | _ => False
    end).
  { intros md. unfold ValidateFrameForTransport. rewrite !Hbind, Henv, Hver, !Hfail.
    rewrite negb_false_iff, bool_decide_eq_true, bool_decide_eq_false.
    destruct md; [destruct (isSealedFailClosedRouting m)|..]; rewrite ?Hfail;
      destruct (BodyPolicy (msgType m)), (msgSealedPayload m); simpl; intuition (try done; try congruence). }
  split.
  - rewrite Hexact. destruct Hmode as [-> | ->]; destruct (BodyPolicy (msgType m)); intuition (try done; try congruence).
  - rewrite Hexact. intros (He & _ & _ & _ & Hs) Hp. unfold opaque_body.
    destruct Hs as [Hf|Hs]; [|specialize (Hs Hp); destruct He as [?|?]; done].
    unfold isSealedFailClosedRouting in Hf. by destruct (is_empty _), (Payload m).
Qed.

(** ** Witnesses *)

Lemma handshake_negotiation_witness :
  NegotiateHandshake "1.7" " sealed " TransportSealed 3 = mkHandshake "1.3" TransportSealed "" "".
Proof. exact (proj1 (handshake_negotiation "1.7" " sealed " TransportSealed 3 ltac:(vm_compute; split; discriminate) (or_introl eq_refl))). Defined.

Definition w_prompt : NekoMessage :=
  mkMessage "1.3" TransportSealed MsgSendPrompt "d1" "s1" "m1" "" None 0 None
    (Some (mkSealed "x" 1 "session" 1 "p1" "d1" 1 "n" "c")).

Lemma frame_check_exact_witness :
  ValidateFrameForTransport (Some w_prompt) TransportSealed = Ok tt /\ opaque_body w_prompt.
Proof.
  assert (H : ValidateFrameForTransport (Some w_prompt) TransportSealed = Ok tt) by by_vm.
  split; [exact H|]. exact (proj2 (frame_check_exact w_prompt TransportSealed (or_introl eq_refl)) H eq_refl).
Defined.
