(* ===== verification/CodexAppServerSpec.v ===== *)
(** * Theorems about [CodexAppServer]

    The client runs beside its process: clients decide, the process asks, exits
    and is replaced, turns end, all between any two critical sections. Each
    request is answered at most once and as a client decided; calls are answered
    once; an answer carries the id of its request; a failure reported as "not
    started" is one; a turn that ended is ended under all the names of its
    thread. The examples at the end show where names and processes get mixed up. *)

From stdpp Require Import base tactics list gmap strings sorting relations.
From Stdlib Require Import Ascii ZArith Lia.
From S2P Require Import Prelude GoStrings GoPath Json Protocol ProtocolSpec JsonDecode CodexAppServer.
From S2P Require StartThread.

(** ** The client and its processes *)

(** A decision between its sections: [dWritten] is what the write returned. *)
Record inflight : Type := mkInflight {
  dApproval : PendingApproval;
  dName : string;
  dAccept : bool;
  dAsked : Z;
  dWritten : option (option goError)
}.

Record inflight_input : Type := mkInflightInput {
  iInput : PendingUserInput;
  iRes : value;
  iAsked : Z;
  iWritten : option (option goError)
}.

(** One answer that was written: to which process, for which request of which
    process, and for an approval the request, the name the client used and
    the decision. *)
Record answered : Type := mkAnswered {
  ansTo : Z;
  ansAsked : Z;
  ansRequest : string;
  ansDecision : option (PendingApproval * string * bool);
  ansMessage : message
}.

(** Ghost state beside the client's: which process asked for what is pending,
    what each process asked, what clients decided, and the answers written. *)
Record world : Type := mkWorld {
  srv : CodexAppServer;
  processes : Z;
  askedApproval : gmap string Z;
  askedInput : gmap string Z;
  seen : gmap (Z * string) ServerRequest;
  decided : list (string * bool);
  decisions : gmap nat inflight;
  inputs : gmap nat inflight_input;
  answers : list answered
}.

Definition initial : world := mkWorld NewCodexAppServer 0 ∅ ∅ ∅ [] ∅ ∅ [].

Definition with_srv (w : world) (c : CodexAppServer) : world :=
  mkWorld c (processes w) (askedApproval w) (askedInput w) (seen w) (decided w) (decisions w) (inputs w) (answers w).
Definition with_decisions (w : world) (d : list (string * bool)) (m : gmap nat inflight) : world :=
  mkWorld (srv w) (processes w) (askedApproval w) (askedInput w) (seen w) d m (inputs w) (answers w).
Definition with_inputs (w : world) (m : gmap nat inflight_input) : world :=
  mkWorld (srv w) (processes w) (askedApproval w) (askedInput w) (seen w) (decided w) (decisions w) m (answers w).
Definition with_answers (w : world) (l : list answered) : world :=
  mkWorld (srv w) (processes w) (askedApproval w) (askedInput w) (seen w) (decided w) (decisions w) (inputs w) (answers w ++ l).
Definition with_asked (w : world) (a b : gmap string Z) (s : gmap (Z * string) ServerRequest) : world :=
  mkWorld (srv w) (processes w) a b s (decided w) (decisions w) (inputs w) (answers w).

Section System.
Context `{MapOrder}.

(** What leaves the requests alone or takes some away: turns, names, calls, the
    end of a process. *)
Inductive quiet : CodexAppServer -> CodexAppServer -> Prop :=
  | quiet_active c thread turn : quiet c (SetActiveTurn c thread turn)
  | quiet_starting c thread turn : quiet c (setStartingTurn c thread turn)
  | quiet_clear c thread : quiet c (ClearActiveTurn c thread)
  | quiet_complete c thread turn status : quiet c (completeTurn c thread turn status)
  | quiet_register c thread session wire : quiet c (RegisterThreadIDs c thread session wire)
  | quiet_call c ch method params werr : quiet c (call_send c ch method params werr).1.2
  | quiet_cancel c id : quiet c (call_cancel c id)
  | quiet_initialized c : quiet c (set_life c (generation c) (process c) (running c) true (stopping c))
  | quiet_exit c gen cmd err : quiet c (handleProcessExit c gen cmd err).2
  | quiet_close c : quiet c (Close c).2.

Definition request_in (ds : list delivery) : option ServerRequest :=
  match ds with ToRequestHandler req :: _ => Some req | _ => None end.

(** The ghost record of a request that was read. *)
Definition note_request (w : world) (reader : Z) (ds : list delivery) (now : Z) : world :=
  match request_in ds with
  | None => w
  | Some req =>
    let a := match (TrackServerRequest (srv w) req now).1 with
             | Some p => <[paID p := reader]> (askedApproval w)
             | None => askedApproval w
             end in
    let b := match (TrackUserInput (TrackServerRequest (srv w) req now).2 req now).1 with
             | Some p => <[puRequestID p := reader]> (askedInput w)
             | None => askedInput w
             end in
    with_asked w a b (<[(reader, reqID req) := req]> (seen w))
  end.

(** A process never uses the id of one of its requests again (JSON-RPC). *)
Definition fresh_request (w : world) (reader : Z) (ds : list delivery) : Prop :=
  forall req, request_in ds = Some req -> seen w !! (reader, reqID req) = None.

Definition answers_of (out : list written) (asked : Z) (request : string) (d : option (PendingApproval * string * bool)) : list answered :=
  (fun o => mkAnswered o.1 asked request d o.2) <$> out.

Inductive step : world -> world -> Prop :=
  | step_quiet w c : quiet (srv w) c -> step w (with_srv w c)
  | step_start w :
      step w (mkWorld (ensureProcess (srv w) (Good (processes w))).2 (processes w + 1) (askedApproval w) (askedInput w) (seen w)
                (decided w) (decisions w) (inputs w) (answers w))
  | step_line w gen reader line now more ds c :
      read_line (srv w) gen reader line now = (more, ds, c) -> fresh_request w reader ds ->
      step w (with_srv (note_request w reader ds now) c)
  | step_take_none w id accept e c :
      takePending (srv w) id accept = (Decided e, c) -> step w (with_decisions (with_srv w c) (decided w ++ [(id, accept)]) (decisions w))
  | step_take w n id accept p c :
      takePending (srv w) id accept = (Taken p, c) -> decisions w !! n = None ->
      step w (with_decisions (with_srv w c) (decided w ++ [(id, accept)])
                (<[n := mkInflight p id accept (default 0 (askedApproval w !! paID p)) None]> (decisions w)))
  | step_write w n d werr failed out :
      decisions w !! n = Some d -> dWritten d = None ->
      respond_decision (srv w) (dApproval d) (dAccept d) werr = (failed, out) ->
      step w (with_answers
                (with_decisions w (decided w)
                   (<[n := mkInflight (dApproval d) (dName d) (dAccept d) (dAsked d) (Some failed)]> (decisions w)))
                (answers_of out (dAsked d) (paRequestID (dApproval d)) (Some (dApproval d, dName d, dAccept d))))
  | step_finish w n d failed now e c :
      decisions w !! n = Some d -> dWritten d = Some failed ->
      finish_decision (srv w) (dApproval d) (dAccept d) failed now = (e, c) ->
      step w (with_asked (with_decisions (with_srv w c) (decided w) (delete n (decisions w)))
                (if failed then <[paID (dApproval d) := dAsked d]> (askedApproval w) else askedApproval w) (askedInput w) (seen w))
  | step_input_done w id vals now status e c :
      takeInput (srv w) id vals now = (InputDone status e, c) -> step w (with_srv w c)
  | step_input w n id vals now p res c :
      takeInput (srv w) id vals now = (InputTaken p res, c) -> inputs w !! n = None ->
      step w (with_inputs (with_srv w c)
                (<[n := mkInflightInput p res (default 0 (askedInput w !! puRequestID p)) None]> (inputs w)))
  | step_input_write w n d werr failed out :
      inputs w !! n = Some d -> iWritten d = None ->
      Respond (srv w) (puRequestID (iInput d)) (iRes d) werr = (failed, out) ->
      step w (with_answers
                (with_inputs w (<[n := mkInflightInput (iInput d) (iRes d) (iAsked d) (Some failed)]> (inputs w)))
                (answers_of out (iAsked d) (puRequestID (iInput d)) None))
  | step_input_finish w n d failed now status e c :
      inputs w !! n = Some d -> iWritten d = Some failed ->
      finish_input (srv w) (iInput d) failed now = (status, e, c) ->
      step w (with_inputs (with_srv w c) (delete n (inputs w))).

Definition reachable (w : world) : Prop := rtc step initial w.

(** ** The tables of requests *)

Definition tables_shrink (c c' : CodexAppServer) : Prop :=
  pendingAppr c' ⊆ pendingAppr c /\ pendingInput c' ⊆ pendingInput c.

Lemma tables_shrink_refl c : tables_shrink c c.
Proof. done. Qed.

Lemma delete_if_subseteq {A} (p : string -> A -> bool) (m : gmap string A) : delete_if p m ⊆ m.
Proof. apply map_filter_subseteq. Qed.

Lemma register_tables c t s w :
  pendingAppr (registerThreadIDsLocked c t s w) = pendingAppr c /\ pendingInput (registerThreadIDsLocked c t s w) = pendingInput c /\
  process (registerThreadIDsLocked c t s w) = process c /\ running (registerThreadIDsLocked c t s w) = running c.
Proof. unfold registerThreadIDsLocked. case_match; done. Qed.

Lemma record_turn_tables c t u s :
  pendingAppr (record_turn c t u s) = pendingAppr c /\ pendingInput (record_turn c t u s) = pendingInput c.
Proof. unfold record_turn. destruct (is_empty (resolveThreadIDLocked c t)); case_match; done. Qed.

Lemma set_turn_shrink c t u : tables_shrink c (SetActiveTurn c t u).
Proof. unfold SetActiveTurn. case_match; [done|]. split; by apply reflexive_eq, record_turn_tables. Qed.

Lemma starting_turn_shrink c t u : tables_shrink c (setStartingTurn c t u).
Proof. unfold setStartingTurn. case_match; [done|]. case_match; [done|]. split; by apply reflexive_eq, record_turn_tables. Qed.

Lemma complete_turn_shrink c t u s : tables_shrink c (completeTurn c t u s).
Proof. unfold completeTurn. cbv zeta. case_match; [done|]. split; apply delete_if_subseteq. Qed.

Lemma fresh_tables_shrink c c0 : tables_shrink c0 (fresh_tables c).
Proof. split; apply map_empty_subseteq. Qed.

Lemma notification_shrink c method params : tables_shrink c (HandleNotification c method params).
Proof.
  unfold HandleNotification. repeat case_match; try done;
    eauto using set_turn_shrink, complete_turn_shrink.
  split; by apply reflexive_eq, register_tables.
Qed.

Lemma exit_shrink c gen cmd err : tables_shrink c (handleProcessExit c gen cmd err).2.
Proof. unfold handleProcessExit. case_match; [done|]. cbn. destruct (stopping c); apply fresh_tables_shrink. Qed.

Lemma call_shrink c ch m p werr : tables_shrink c (call_send c ch m p werr).1.2.
Proof. unfold call_send. repeat case_match; done. Qed.

Lemma quiet_shrink c c' : quiet c c' -> tables_shrink c c'.
Proof.
  intros []; eauto using set_turn_shrink, starting_turn_shrink, complete_turn_shrink, exit_shrink, call_shrink.
  - done.
  - split; by apply reflexive_eq, register_tables.
  - done.
  - done.
  - unfold Close. case_match; [done|]. apply fresh_tables_shrink.
Qed.

(** ** Where a request is

    Each request a process made is in one place: waiting, taken out by one
    client, or answered. *)

Inductive place : Type :=
  | InApprovals (id : string)
  | InInputs (id : string)
  | WithDecision (n : nat)
  | WithInput (n : nat)
  | IsAnswered.

Definition answer_key (x : answered) : Z * string := (ansAsked x, ansRequest x).

Definition asked_for (w : world) (a : Z) (p : PendingApproval) : Prop :=
  exists req, seen w !! (a, paRequestID p) = Some req /\ paMethod p = reqMethod req /\ paParams p = reqParams req.

(** The message that tells the process the decision. *)
Definition decision_message (p : PendingApproval) (accept : bool) : option message :=
  match encodeRequestID (paRequestID p), buildApprovalResult p accept with
  | Good id, Good res => Some (Answer id res)
  | Good id, Bad _ => if accept then None else Some (AnswerError id 4001 "user denied")
  | Bad _, _ => None
  end.

Definition faithful (w : world) (x : answered) : Prop :=
  match ansDecision x with
  | Some (p, name, accept) =>
    (name, accept) ∈ decided w /\ is_called name p = true /\ paRequestID p = ansRequest x /\
    asked_for w (ansAsked x) p /\ decision_message p accept = Some (ansMessage x)
  | None => True
  end.

Record placed (w : world) (st : gmap (Z * string) place) : Prop := {
  pl_seen : forall k l, st !! k = Some l -> is_Some (seen w !! k);
  pl_approval : forall i p, pendingAppr (srv w) !! i = Some p ->
    paID p = i /\ exists a, askedApproval w !! i = Some a /\ st !! (a, paRequestID p) = Some (InApprovals i) /\ asked_for w a p;
  pl_input : forall i p, pendingInput (srv w) !! i = Some p ->
    puRequestID p = i /\ exists a, askedInput w !! i = Some a /\ st !! (a, i) = Some (InInputs i);
  pl_decision : forall n d, decisions w !! n = Some d ->
    (dName d, dAccept d) ∈ decided w /\ is_called (dName d) (dApproval d) = true /\ asked_for w (dAsked d) (dApproval d) /\
    (dWritten d <> Some None -> st !! (dAsked d, paRequestID (dApproval d)) = Some (WithDecision n));
  pl_answering : forall n d, inputs w !! n = Some d -> iWritten d <> Some None ->
    st !! (iAsked d, puRequestID (iInput d)) = Some (WithInput n);
  pl_answered : forall x, x ∈ answers w -> st !! answer_key x = Some IsAnswered /\ faithful w x;
  pl_once : NoDup (answer_key <$> answers w)
}.

(** Moving one request does not move another. *)
Lemma moved (st : gmap (Z * string) place) k l l' k' l'' :
  st !! k = Some l -> st !! k' = Some l'' -> l'' <> l -> <[k := l']> st !! k' = Some l''.
Proof. intros Hk Hk' Hne. rewrite lookup_insert_ne; [done|]. intros ->. congruence. Qed.

Lemma new_request (st : gmap (Z * string) place) k l k' l' :
  st !! k = None -> st !! k' = Some l' -> <[k := l]> st !! k' = Some l'.
Proof. intros Hk Hk'. rewrite lookup_insert_ne; [done|]. intros ->. congruence. Qed.

(** ** What each section does to the requests *)

Lemma track_server_spec c req now op c' :
  TrackServerRequest c req now = (op, c') ->
  match op with
  | None => c' = c
  | Some p => isApprovalMethod (reqMethod req) = true /\ paRequestID p = reqID req /\ paMethod p = reqMethod req /\
      paParams p = reqParams req /\ pendingAppr c' = <[paID p := p]> (pendingAppr c) /\ pendingInput c' = pendingInput c
  end.
Proof.
  unfold TrackServerRequest. destruct (isApprovalMethod (reqMethod req)) eqn:E; [|by intros [= <- <-]]. cbn [negb].
  set (p0 := pendingFromServerRequest req now).
  assert (Hp0 : paRequestID p0 = reqID req /\ paMethod p0 = reqMethod req /\ paParams p0 = reqParams req).
  { subst p0. unfold pendingFromServerRequest. cbv zeta. destruct (approval_tool _ _ _). done. }
  clearbody p0. destruct Hp0 as (H1 & H2 & H3). pose proof (register_tables c (paThreadID p0) "" "") as (R1 & R2 & _).
  intros Ht. repeat case_match; simplify_eq; cbn; rewrite ?R1, ?R2; done.
Qed.

Lemma track_input_spec c req now op c' :
  TrackUserInput c req now = (op, c') ->
  match op with
  | None => c' = c
  | Some p => reqMethod req = "item/tool/requestUserInput" /\ puRequestID p = reqID req /\
      pendingInput c' = <[puRequestID p := p]> (pendingInput c) /\ pendingAppr c' = pendingAppr c
  end.
Proof.
  unfold TrackUserInput. destruct (String.eqb_spec (reqMethod req) "item/tool/requestUserInput") as [E|]; [|by intros [= <- <-]].
  cbn [negb]. intros Ht. repeat case_match; simplify_eq; done.
Qed.

Lemma not_both c req now p :
  (TrackServerRequest c req now).1 = Some p -> forall c0 now', (TrackUserInput c0 req now').1 = None.
Proof.
  intros Hp c0 now'. destruct (TrackServerRequest c req now) as [op c'] eqn:E. cbn in Hp. subst op.
  apply track_server_spec in E as (Hm & _). unfold TrackUserInput.
  destruct (String.eqb_spec (reqMethod req) "item/tool/requestUserInput") as [Eq|]; [|done]. by rewrite Eq in Hm.
Qed.

Lemma read_line_spec c gen reader line now more ds c' :
  read_line c gen reader line now = (more, ds, c') ->
  (request_in ds = None /\ tables_shrink c c') \/
  (exists req, request_in ds = Some req /\ c' = (TrackUserInput (TrackServerRequest c req now).2 req now).2).
Proof.
  unfold read_line. destruct (is_empty (TrimSpace line)); [intros [= <- <- <-]; by left|].
  destruct (decode_message (TrimSpace line)) as [m|]; [|intros [= <- <- <-]; by left].
  destruct (negb (current_reader c gen reader)); [intros [= <- <- <-]; by left|].
  case_match.
  - set (req := mkRequest _ _ _). destruct (TrackServerRequest c req now) as [op c1] eqn:E1.
    destruct (TrackUserInput c1 req now) as [oi c2] eqn:E2. intros [= <- <- <-]. right. exists req. split; [done|].
    rewrite E1. cbn [snd]. by rewrite E2.
  - repeat case_match; intros [= <- <- <-]; left; (split; [done|first [done|apply notification_shrink]]).
Qed.

Definition keyed (c : CodexAppServer) : Prop :=
  (forall i p, pendingAppr c !! i = Some p -> paID p = i) /\ (forall i p, pendingInput c !! i = Some p -> puRequestID p = i).

Lemma range_find_some {A} (q : string -> A -> bool) (m : gmap string A) a :
  range_find q m = Some a -> exists k, m !! k = Some a /\ q k a = true.
Proof.
  unfold range_find. destruct (List.find _ _) as [[k a']|] eqn:E; [|done]. intros [= <-].
  apply List.find_some in E as [Hin Hq]. exists k. split; [|done]. apply elem_of_range. by apply list_elem_of_In.
Qed.

Lemma takePending_spec c id accept t c' :
  keyed c -> takePending c id accept = (t, c') ->
  match t with
  | Decided _ => c' = c
  | Taken p => pendingAppr c !! paID p = Some p /\ is_called id p = true /\
      pendingAppr c' = delete (paID p) (pendingAppr c) /\ pendingInput c' = pendingInput c
  end.
Proof.
  intros [Hk _]. unfold takePending. destruct (resolvedAppr c !! id); [by intros [= <- <-]|].
  destruct (pendingAppr c !! id) as [p|] eqn:E.
  - intros [= <- <-]. pose proof (Hk id p E) as <-. split; [done|]. split; [|done].
    unfold is_called. by rewrite String.eqb_refl, orb_true_r.
  - destruct (range_find _ _) as [p|] eqn:F; intros [= <- <-]; [|done].
    apply range_find_some in F as (k & Hp & Hc). by rewrite (Hk k p Hp).
Qed.

Lemma takeInput_spec c id vals now t c' :
  keyed c -> takeInput c id vals now = (t, c') ->
  match t with
  | InputDone _ _ => tables_shrink c c'
  | InputTaken p _ => pendingInput c !! puRequestID p = Some p /\
      pendingInput c' = delete (puRequestID p) (pendingInput c) /\ pendingAppr c' = pendingAppr c
  end.
Proof.
  intros [_ Hk]. unfold takeInput. destruct (resolvedInput c !! _); [by intros [= <- <-]|].
  set (found := match pendingInput c !! TrimSpace id with Some p => Some p | None => _ end).
  assert (Hf : forall p, found = Some p -> pendingInput c !! puRequestID p = Some p).
  { subst found. intros p. destruct (pendingInput c !! TrimSpace id) as [p0|] eqn:E.
    - intros [= ->]. by rewrite (Hk _ _ E).
    - intros (k & Hp & _)%range_find_some. by rewrite (Hk _ _ Hp). }
  clearbody found. destruct found as [p|]; [|by intros [= <- <-]]. specialize (Hf p eq_refl).
  intros Ht. repeat case_match; simplify_eq; try done; split; cbn; try done; apply delete_subseteq.
Qed.

Lemma write_line_out c m werr failed out :
  write_line c m werr = (failed, out) ->
  (failed = None /\ exists to, process c = Some to /\ out = [(to, m)]) \/ (is_Some failed /\ out = []).
Proof. unfold write_line. repeat case_match; intros [= <- <-]; eauto. Qed.

Lemma respond_out c id res werr failed out :
  Respond c id res werr = (failed, out) ->
  (failed = None /\ exists to rid, process c = Some to /\ encodeRequestID id = Good rid /\ out = [(to, Answer rid res)]) \/
  (is_Some failed /\ out = []).
Proof.
  unfold Respond. destruct (encodeRequestID id) as [rid|e]; [|intros [= <- <-]; eauto].
  intros [[-> (to & ? & ->)]|]%write_line_out; eauto 10.
Qed.

Lemma respond_decision_out c p accept werr failed out :
  respond_decision c p accept werr = (failed, out) ->
  (failed = None /\ exists to m, process c = Some to /\ decision_message p accept = Some m /\ out = [(to, m)]) \/
  (is_Some failed /\ out = []).
Proof.
  unfold respond_decision, decision_message. destruct (buildApprovalResult p accept) as [res|e].
  - intros [[-> (to & rid & ? & -> & ->)]|]%respond_out; eauto 10.
  - destruct accept; [intros [= <- <-]; eauto|]. unfold RespondError.
    destruct (encodeRequestID (paRequestID p)) as [rid|e']; [|intros [= <- <-]; eauto].
    intros [[-> (to & ? & ->)]|]%write_line_out; eauto 10.
Qed.

(** ** The places are kept *)

Lemma placed_keyed w st : placed w st -> keyed (srv w).
Proof. intros Hp. split; intros i p Hi; [by apply (pl_approval w st Hp) in Hi as []|by apply (pl_input w st Hp) in Hi as []]. Qed.

Lemma asked_for_mono w w' a p : (forall k r, seen w !! k = Some r -> seen w' !! k = Some r) -> asked_for w a p -> asked_for w' a p.
Proof. intros Hs (req & Hr & ?). exists req. split; [by apply Hs|done]. Qed.

Lemma faithful_mono w w' x :
  (forall k r, seen w !! k = Some r -> seen w' !! k = Some r) -> (forall d, d ∈ decided w -> d ∈ decided w') ->
  faithful w x -> faithful w' x.
Proof.
  unfold faithful. destruct (ansDecision x) as [[[p name] accept]|]; [|done].
  intros Hs Hd (? & ? & ? & ? & ?). eauto 10 using asked_for_mono.
Qed.

Lemma placed_initial : placed initial ∅.
Proof. split; cbn; try done; [intros x Hx; by apply elem_of_nil in Hx|constructor]. Qed.

Lemma placed_shrink w st c : placed w st -> tables_shrink (srv w) c -> placed (with_srv w c) st.
Proof.
  intros [Hseen Ha Hi Hd Hn Hx Ho] [Sa Si]. split; cbn; try done.
  - intros i p Hp. apply (lookup_weaken _ _ _ _ Hp) in Sa. exact (Ha i p Sa).
  - intros i p Hp. apply (lookup_weaken _ _ _ _ Hp) in Si. exact (Hi i p Si).
Qed.

(** A request just read: its place is new. *)
Lemma placed_request w st reader req now :
  seen w !! (reader, reqID req) = None -> placed w st ->
  let c1 := (TrackServerRequest (srv w) req now).2 in
  exists st', placed (with_srv (note_request w reader [ToRequestHandler req] now) (TrackUserInput c1 req now).2) st'.
Proof.
  intros Hfresh Hp c1.
  assert (Hnone : st !! (reader, reqID req) = None).
  { destruct (st !! _) eqn:E; [|done]. apply (pl_seen w st Hp) in E as [? E]. congruence. }
  assert (Hgrow : forall k r, seen w !! k = Some r -> <[(reader, reqID req) := req]> (seen w) !! k = Some r).
  { intros k r Hk. by rewrite lookup_insert_ne by (intros <-; congruence). }
  assert (Hasked : forall a p, asked_for w a p -> forall w', seen w' = <[(reader, reqID req) := req]> (seen w) -> asked_for w' a p).
  { intros a p Hap w' Hw'. eapply asked_for_mono; [|exact Hap]. rewrite Hw'. exact Hgrow. }
  destruct Hp as [Hseen Ha Hi Hd Hn Hx Ho]. subst c1. unfold note_request. cbn [request_in].
  destruct (TrackServerRequest (srv w) req now) as [op c1] eqn:E1. cbn [fst snd].
  destruct (TrackUserInput c1 req now) as [oi c2] eqn:E2. cbn [fst snd].
  pose proof (track_server_spec _ _ _ _ _ E1) as S1. pose proof (track_input_spec _ _ _ _ _ E2) as S2.
  set (w' := with_srv _ _).
  assert (Hw' : seen w' = <[(reader, reqID req) := req]> (seen w)) by done.
  assert (Hrest : forall st' : gmap (Z * string) place, (forall k l, st !! k = Some l -> st' !! k = Some l) ->
    (forall n d, decisions w' !! n = Some d ->
      (dName d, dAccept d) ∈ decided w' /\ is_called (dName d) (dApproval d) = true /\ asked_for w' (dAsked d) (dApproval d) /\
      (dWritten d <> Some None -> st' !! (dAsked d, paRequestID (dApproval d)) = Some (WithDecision n))) /\
    (forall n d, inputs w' !! n = Some d -> iWritten d <> Some None ->
      st' !! (iAsked d, puRequestID (iInput d)) = Some (WithInput n)) /\
    (forall x, x ∈ answers w' -> st' !! answer_key x = Some IsAnswered /\ faithful w' x)).
  { intros st' Hst. split; [|split].
    - intros n d Hnd. apply Hd in Hnd as (? & ? & ? & ?). eauto 10.
    - eauto.
    - intros x Hin. apply Hx in Hin as [? Hf]. split; [eauto|]. eapply faithful_mono; [| |exact Hf]; [exact Hgrow|done]. }
  assert (Hinto : forall (l : place) k l', st !! k = Some l' -> <[(reader, reqID req) := l]> st !! k = Some l').
  { intros l k l'. by apply new_request. }
  assert (Hsn : forall (l : place) k l', <[(reader, reqID req) := l]> st !! k = Some l' -> is_Some (seen w' !! k)).
  { intros l k l' [[<- _]|[_ Hk]]%lookup_insert_Some; rewrite Hw'; [by rewrite lookup_insert_eq|].
    apply Hseen in Hk as [r Hr]. eexists. by apply Hgrow. }
  destruct op as [p|]; [|destruct oi as [p|]].
  - assert (oi = None) as ->. { pose proof (not_both (srv w) req now p) as Hnb. rewrite E1 in Hnb. specialize (Hnb eq_refl c1 now). by rewrite E2 in Hnb. }
    destruct S1 as (_ & Hrid & Hm & Hpar & Hpa & Hpi). subst c2.
    exists (<[(reader, reqID req) := InApprovals (paID p)]> st).
    destruct (Hrest _ (Hinto (InApprovals (paID p)))) as (R1 & R2 & R3). split; try done; [by apply Hsn| |]; subst w'; cbn.
    + intros i q. rewrite Hpa. intros [[<- <-]|[Hne Hq]]%lookup_insert_Some.
      * split; [done|]. exists reader. rewrite lookup_insert_eq, Hrid, lookup_insert_eq. split; [done|]. split; [done|].
        exists req. rewrite Hrid. split; [by rewrite Hw', lookup_insert_eq|done].
      * apply Ha in Hq as (<- & a & Hask & Hst & Haf). split; [done|]. exists a. rewrite lookup_insert_ne by done. eauto.
    + rewrite Hpi. intros i q Hq. apply Hi in Hq as (<- & a & Hask & Hst). eauto 10.
  - subst c1. destruct S2 as (_ & Hrid & Hpi & Hpa).
    exists (<[(reader, reqID req) := InInputs (puRequestID p)]> st).
    destruct (Hrest _ (Hinto (InInputs (puRequestID p)))) as (R1 & R2 & R3). split; try done; [by apply Hsn| |]; subst w'; cbn.
    + rewrite Hpa. intros i q Hq. apply Ha in Hq as (<- & a & Hask & Hst & Haf). eauto 10.
    + rewrite Hpi. intros i q [[<- <-]|[Hne Hq]]%lookup_insert_Some.
      * split; [done|]. exists reader. rewrite lookup_insert_eq, Hrid, lookup_insert_eq. done.
      * apply Hi in Hq as (<- & a & Hask & Hst). split; [done|]. exists a. rewrite lookup_insert_ne by done. eauto.
  - subst c1 c2. exists st. destruct (Hrest st (fun k l Hk => Hk)) as (R1 & R2 & R3). split; try done; subst w'; cbn.
    + intros k l Hk. apply Hseen in Hk as [r Hr]. eexists. by apply Hgrow.
    + intros i q Hq. apply Ha in Hq as (<- & a & Hask & Hst & Haf). eauto 10.
Qed.

Lemma placed_take w st n id accept p c :
  placed w st -> takePending (srv w) id accept = (Taken p, c) -> decisions w !! n = None ->
  exists st', placed (with_decisions (with_srv w c) (decided w ++ [(id, accept)])
    (<[n := mkInflight p id accept (default 0 (askedApproval w !! paID p)) None]> (decisions w))) st'.
Proof.
  intros Hp Ht Hn. apply takePending_spec in Ht as (Hpa & Hcall & Ea & Ei); [|by eapply placed_keyed].
  destruct Hp as [Hseen Ha Hi Hd Hin Hx Ho]. destruct (Ha _ _ Hpa) as (_ & a & Hask & Hst & Haf). rewrite Hask. cbn [default].
  exists (<[(a, paRequestID p) := WithDecision n]> st). split; cbn; try done.
  - intros k l [[<- _]|[_ Hk]]%lookup_insert_Some; eauto.
  - rewrite Ea. intros i q [Hne Hq]%lookup_delete_Some. apply Ha in Hq as (<- & b & Hb & Hstb & Hafb).
    split; [done|]. exists b. split; [done|]. split; [|done]. eapply moved; [exact Hst|exact Hstb|congruence].
  - rewrite Ei. intros i q Hq. apply Hi in Hq as (<- & b & Hb & Hstb). split; [done|]. exists b. split; [done|].
    eapply moved; [exact Hst|exact Hstb|done].
  - intros n' d [[<- <-]|[Hne Hnd]]%lookup_insert_Some; cbn.
    + split; [apply elem_of_snoc; by right|]. split; [done|]. split; [done|]. intros _. apply lookup_insert_eq.
    + apply Hd in Hnd as (Hdec & ? & ? & Hstd). split; [apply elem_of_snoc; by left|]. split; [done|]. split; [done|].
      intros Hw. eapply moved; [exact Hst|by apply Hstd|done].
  - intros n' d Hnd Hw. eapply moved; [exact Hst|by apply Hin|done].
  - intros x Hxa. apply Hx in Hxa as [Hstx Hf]. split; [by eapply moved; [exact Hst|exact Hstx|]|].
    eapply faithful_mono; [| |exact Hf]; [done|]. intros d Hdd. apply elem_of_snoc. by left.
Qed.

(** What is common to the two writes: the places after an answer. *)
Lemma placed_answer w st k l x :
  placed w st -> st !! k = Some l -> l <> IsAnswered -> answer_key x = k -> NoDup (answer_key <$> answers w ++ [x]).
Proof.
  intros Hp Hk Hl Hx. rewrite fmap_app. apply NoDup_app. split; [apply (pl_once w st Hp)|]. split; [|apply NoDup_singleton].
  intros y (z & -> & Hz)%list_elem_of_fmap Hy. apply list_elem_of_singleton in Hy.
  destruct (pl_answered w st Hp z Hz) as [Hz' _]. rewrite Hy, Hx in Hz'. congruence.
Qed.

Lemma placed_write w st n d werr failed out :
  placed w st -> decisions w !! n = Some d -> dWritten d = None ->
  respond_decision (srv w) (dApproval d) (dAccept d) werr = (failed, out) ->
  exists st', placed (with_answers
    (with_decisions w (decided w) (<[n := mkInflight (dApproval d) (dName d) (dAccept d) (dAsked d) (Some failed)]> (decisions w)))
    (answers_of out (dAsked d) (paRequestID (dApproval d)) (Some (dApproval d, dName d, dAccept d)))) st'.
Proof.
  intros Hp Hn Hw Hr. pose proof Hp as [Hseen Ha Hi Hd Hin Hx Ho]. destruct (Hd n d Hn) as (Hdec & Hcall & Haf & Hst).
  rewrite Hw in Hst. specialize (Hst ltac:(done)).
  apply respond_decision_out in Hr as [(-> & to & m & Hproc & Hmsg & ->)|[[e ->] ->]].
  - exists (<[(dAsked d, paRequestID (dApproval d)) := IsAnswered]> st).
    split; cbn; try done.
    + intros k l [[<- _]|[_ Hk]]%lookup_insert_Some; eauto.
    + intros i q Hq. apply Ha in Hq as (<- & b & Hb & Hstb & Hafb). split; [done|]. exists b. split; [done|]. split; [|done].
      eapply moved; [exact Hst|exact Hstb|done].
    + intros i q Hq. apply Hi in Hq as (<- & b & Hb & Hstb). split; [done|]. exists b. split; [done|].
      eapply moved; [exact Hst|exact Hstb|done].
    + intros n' d' [[<- <-]|[Hne Hnd]]%lookup_insert_Some; cbn; [by repeat split|].
      apply Hd in Hnd as (? & ? & ? & Hstd). split; [done|]. split; [done|]. split; [done|]. intros Hw'.
      eapply moved; [exact Hst|by apply Hstd|congruence].
    + intros n' d' Hnd Hw'. eapply moved; [exact Hst|by apply Hin|done].
    + intros x [Hxa| ->]%elem_of_snoc.
      * apply Hx in Hxa as [Hstx Hf]. split; [by eapply moved; [exact Hst|exact Hstx|]|exact Hf].
      * split; [apply lookup_insert_eq|]. by repeat split.
    + by eapply placed_answer.
  - exists st. split; cbn; try done.
    + intros n' d' [[<- <-]|[Hne Hnd]]%lookup_insert_Some; cbn; [|by apply Hd]. done.
    + rewrite app_nil_r. exact Hx.
    + by rewrite app_nil_r.
Qed.

Lemma placed_finish w st n d failed now e c :
  placed w st -> decisions w !! n = Some d -> dWritten d = Some failed ->
  finish_decision (srv w) (dApproval d) (dAccept d) failed now = (e, c) ->
  exists st', placed (with_asked (with_decisions (with_srv w c) (decided w) (delete n (decisions w)))
    (if failed then <[paID (dApproval d) := dAsked d]> (askedApproval w) else askedApproval w) (askedInput w) (seen w)) st'.
Proof.
  intros Hp Hn Hw Hf. destruct Hp as [Hseen Ha Hi Hd Hin Hx Ho].
  destruct failed as [err|]; cbn in Hf; injection Hf as <- <-.
  - destruct (Hd n d Hn) as (_ & _ & Haf & Hst). rewrite Hw in Hst. specialize (Hst ltac:(done)).
    exists (<[(dAsked d, paRequestID (dApproval d)) := InApprovals (paID (dApproval d))]> st). split; cbn; try done.
    + intros k l [[<- _]|[_ Hk]]%lookup_insert_Some; eauto.
    + intros i q [[<- <-]|[Hne Hq]]%lookup_insert_Some.
      * split; [done|]. exists (dAsked d). by rewrite !lookup_insert_eq.
      * apply Ha in Hq as (<- & b & Hb & Hstb & Hafb). split; [done|]. exists b. rewrite lookup_insert_ne by done.
        split; [done|]. split; [|done]. eapply moved; [exact Hst|exact Hstb|done].
    + intros i q Hq. apply Hi in Hq as (<- & b & Hb & Hstb). split; [done|]. exists b. split; [done|].
      eapply moved; [exact Hst|exact Hstb|done].
    + intros n' d' [Hne Hnd]%lookup_delete_Some. apply Hd in Hnd as (? & ? & ? & Hstd). split; [done|]. split; [done|]. split; [done|].
      intros Hw'. eapply moved; [exact Hst|by apply Hstd|congruence].
    + intros n' d' Hnd Hw'. eapply moved; [exact Hst|by apply Hin|done].
    + intros x Hxa. apply Hx in Hxa as [Hstx Hfx]. split; [by eapply moved; [exact Hst|exact Hstx|]|exact Hfx].
  - exists st. split; cbn; try done. intros n' d' [Hne Hnd]%lookup_delete_Some. by apply Hd.
Qed.

Lemma placed_take_input w st n id vals now p res c :
  placed w st -> takeInput (srv w) id vals now = (InputTaken p res, c) -> inputs w !! n = None ->
  exists st', placed (with_inputs (with_srv w c)
    (<[n := mkInflightInput p res (default 0 (askedInput w !! puRequestID p)) None]> (inputs w))) st'.
Proof.
  intros Hp Ht Hn. apply takeInput_spec in Ht as (Hpi & Ei & Ea); [|by eapply placed_keyed].
  destruct Hp as [Hseen Ha Hi Hd Hin Hx Ho]. destruct (Hi _ _ Hpi) as (_ & a & Hask & Hst). rewrite Hask. cbn [default].
  exists (<[(a, puRequestID p) := WithInput n]> st). split; cbn; try done.
  - intros k l [[<- _]|[_ Hk]]%lookup_insert_Some; eauto.
  - rewrite Ea. intros i q Hq. apply Ha in Hq as (<- & b & Hb & Hstb & Hafb). split; [done|]. exists b. split; [done|]. split; [|done].
    eapply moved; [exact Hst|exact Hstb|done].
  - rewrite Ei. intros i q [Hne Hq]%lookup_delete_Some. apply Hi in Hq as (<- & b & Hb & Hstb). split; [done|]. exists b.
    split; [done|]. eapply moved; [exact Hst|exact Hstb|congruence].
  - intros n' d Hnd. apply Hd in Hnd as (? & ? & ? & Hstd). split; [done|]. split; [done|]. split; [done|]. intros Hw.
    eapply moved; [exact Hst|by apply Hstd|done].
  - intros n' d [[<- <-]|[Hne Hnd]]%lookup_insert_Some Hw; cbn; [apply lookup_insert_eq|].
    eapply moved; [exact Hst|by apply Hin|done].
  - intros x Hxa. apply Hx in Hxa as [Hstx Hf]. split; [by eapply moved; [exact Hst|exact Hstx|]|exact Hf].
Qed.

Lemma placed_write_input w st n d werr failed out :
  placed w st -> inputs w !! n = Some d -> iWritten d = None ->
  Respond (srv w) (puRequestID (iInput d)) (iRes d) werr = (failed, out) ->
  exists st', placed (with_answers
    (with_inputs w (<[n := mkInflightInput (iInput d) (iRes d) (iAsked d) (Some failed)]> (inputs w)))
    (answers_of out (iAsked d) (puRequestID (iInput d)) None)) st'.
Proof.
  intros Hp Hn Hw Hr. pose proof Hp as [Hseen Ha Hi Hd Hin Hx Ho]. pose proof (Hin n d Hn) as Hst.
  rewrite Hw in Hst. specialize (Hst ltac:(done)).
  apply respond_out in Hr as [(-> & to & rid & Hproc & Henc & ->)|[[e ->] ->]].
  - exists (<[(iAsked d, puRequestID (iInput d)) := IsAnswered]> st). split; cbn; try done.
    + intros k l [[<- _]|[_ Hk]]%lookup_insert_Some; eauto.
    + intros i q Hq. apply Ha in Hq as (<- & b & Hb & Hstb & Hafb). split; [done|]. exists b. split; [done|]. split; [|done].
      eapply moved; [exact Hst|exact Hstb|done].
    + intros i q Hq. apply Hi in Hq as (<- & b & Hb & Hstb). split; [done|]. exists b. split; [done|].
      eapply moved; [exact Hst|exact Hstb|done].
    + intros n' d' Hnd. apply Hd in Hnd as (? & ? & ? & Hstd). split; [done|]. split; [done|]. split; [done|]. intros Hw'.
      eapply moved; [exact Hst|by apply Hstd|done].
    + intros n' d' [[<- <-]|[Hne Hnd]]%lookup_insert_Some Hw'; cbn in *; [done|]. eapply moved; [exact Hst|by apply Hin|congruence].
    + intros x [Hxa| ->]%elem_of_snoc.
      * apply Hx in Hxa as [Hstx Hf]. split; [by eapply moved; [exact Hst|exact Hstx|]|exact Hf].
      * split; [apply lookup_insert_eq|done].
    + by eapply placed_answer.
  - exists st. split; cbn; try done.
    + intros n' d' [[<- <-]|[Hne Hnd]]%lookup_insert_Some Hw'; cbn in *; [done|by apply Hin].
    + rewrite app_nil_r. exact Hx.
    + by rewrite app_nil_r.
Qed.

Lemma step_placed w w' : step w w' -> (exists st, placed w st) -> exists st, placed w' st.
Proof.
  intros Hs [st Hp]. destruct Hs.
  - exists st. by apply placed_shrink, quiet_shrink.
  - exists st. destruct Hp as [Hseen Ha Hi Hd Hin Hx Ho].
    assert (Hsh : tables_shrink (srv w) (ensureProcess (srv w) (Good (processes w))).2).
    { unfold ensureProcess. repeat case_match; [done|done|apply fresh_tables_shrink]. }
    destruct Hsh as [Sa Si]. split; cbn; try done.
    + intros i p Hpp. apply (lookup_weaken _ _ _ _ Hpp) in Sa. exact (Ha i p Sa).
    + intros i p Hpp. apply (lookup_weaken _ _ _ _ Hpp) in Si. exact (Hi i p Si).
  - apply read_line_spec in H0 as [[Hreq Hsh]|(req & Hreq & ->)].
    + exists st. unfold note_request. rewrite Hreq. by apply placed_shrink.
    + specialize (H1 req Hreq). destruct (placed_request w st reader req now H1 Hp) as [st' Hst']. exists st'.
      unfold note_request in *. rewrite Hreq. exact Hst'.
  - apply takePending_spec in H0; [|by eapply placed_keyed]. subst c. exists st. destruct Hp as [Hseen Ha Hi Hd Hin Hx Ho].
    split; cbn; try done.
    + intros n d Hnd. apply Hd in Hnd as (? & ? & ? & ?). split; [apply elem_of_snoc; by left|done].
    + intros x Hxa. apply Hx in Hxa as [? Hf]. split; [done|]. eapply faithful_mono; [| |exact Hf]; [done|].
      intros d Hdd. apply elem_of_snoc. by left.
  - by eapply placed_take.
  - by eapply placed_write.
  - by eapply placed_finish.
  - exists st. apply placed_shrink; [done|]. by apply (takeInput_spec _ _ _ _ _ _ (placed_keyed _ _ Hp) H0).
  - by eapply placed_take_input.
  - by eapply placed_write_input.
  - exists st. apply placed_shrink with (c := c) in Hp.
    2:{ unfold finish_input in *. case_match; simplify_eq; done. }
    destruct Hp as [Hseen Ha Hi Hd Hin Hx Ho]. split; cbn in *; try done. intros n' d' [Hne Hnd]%lookup_delete_Some. by apply Hin.
Qed.

End System.

(** ** The end of a turn *)

Section Turns.
Context `{MapOrder}.

Lemma delete_if_lookup {A} (p : string -> A -> bool) (m : gmap string A) k a :
  delete_if p m !! k = Some a <-> m !! k = Some a /\ p k a = false.
Proof. unfold delete_if. by rewrite map_lookup_filter_Some. Qed.

Lemma entry_delete_if (p : string -> string -> bool) m k : (forall a, p k a = true) -> entry (delete_if p m) k = "".
Proof.
  intros Hp. unfold entry. destruct (delete_if p m !! k) as [a|] eqn:E; [|done].
  apply delete_if_lookup in E as [_ E]. by rewrite Hp in E.
Qed.

(** When all names of a thread are gone from a table, so is what it says of it. *)
Lemma lookup_alias_gone c m threadID canon id :
  TrimSpace id = id -> resolveThreadIDLocked c id = canon ->
  lookup_alias c (delete_if (fun k _ => names_thread c threadID canon k) m) id = "".
Proof.
  intros Ht Hr. unfold lookup_alias. rewrite Ht. destruct (is_empty id); [done|].
  rewrite !entry_delete_if by (intros; unfold names_thread; rewrite ?Hr, ?String.eqb_refl, ?orb_true_r; done).
  cbn. destruct (range_find _ _) as [v|] eqn:E; [|done]. apply range_find_some in E as (k & Hk & Hp).
  apply delete_if_lookup in Hk as [_ Hk]. bool_hyps. unfold names_thread in Hk. rewrite Hr in *. bool_hyps. congruence.
Qed.

(** The report that the turn is over counts: it is not about an older turn. *)
Definition report_counts (c : CodexAppServer) (threadID turnID : string) : Prop :=
  let current := activeTurnIDLocked c (TrimSpace threadID) in
  current = "" \/ TrimSpace turnID = "" \/ TrimSpace turnID = current.

End Turns.

(** ** Calls and their results *)

Section Calls.
Context `{MapOrder}.

(** The part of the state that calls use. *)
Definition rpc_state (c : CodexAppServer) : Z * gmap string Z * bool := (nextID c, pending c, running c).

Record callers : Type := mkCallers {
  cs : CodexAppServer;
  opened : list Z;
  delivered : list Z;
  withdrawn : list Z
}.

Definition to_calls (ds : list delivery) : list Z :=
  omap (fun d => match d with ToCall ch _ => Some ch | _ => None end) ds.

Inductive call_step : callers -> callers -> Prop :=
  | calls_send w ch method params werr r c out :
      call_send (cs w) ch method params werr = (r, c, out) -> ch ∉ opened w -> nextID (cs w) < max_int64 ->
      call_step w (mkCallers c (match r with Good _ => opened w ++ [ch] | Bad _ => opened w end) (delivered w) (withdrawn w))
  | calls_cancel w id :
      call_step w (mkCallers (call_cancel (cs w) id) (opened w) (delivered w)
                     (match pending (cs w) !! id with Some ch => withdrawn w ++ [ch] | None => withdrawn w end))
  | calls_line w gen reader line now more ds c :
      read_line (cs w) gen reader line now = (more, ds, c) ->
      call_step w (mkCallers c (opened w) (delivered w ++ to_calls ds) (withdrawn w))
  | calls_exit w gen cmd err rs ev c :
      handleProcessExit (cs w) gen cmd err = (rs, ev, c) ->
      call_step w (mkCallers c (opened w) (delivered w ++ rs.*1) (withdrawn w))
  | calls_close w rs killed c :
      Close (cs w) = (rs, killed, c) -> call_step w (mkCallers c (opened w) (delivered w ++ rs.*1) (withdrawn w))
  | calls_start w proc e c :
      ensureProcess (cs w) proc = (e, c) -> call_step w (mkCallers c (opened w) (delivered w) (withdrawn w))
  | calls_other w c : rpc_state c = rpc_state (cs w) -> call_step w (mkCallers c (opened w) (delivered w) (withdrawn w)).

Definition no_calls : callers := mkCallers NewCodexAppServer [] [] [].

Record calls_ok (w : callers) : Prop := {
  co_next : 0 <= nextID (cs w) <= max_int64;
  co_ids : forall id ch, pending (cs w) !! id = Some ch ->
    (exists n, id = Itoa n /\ 1 <= n <= nextID (cs w)) /\ ch ∈ opened w /\ ch ∉ delivered w ++ withdrawn w;
  co_inj : forall i j ch, pending (cs w) !! i = Some ch -> pending (cs w) !! j = Some ch -> i = j;
  co_once : NoDup (delivered w ++ withdrawn w);
  co_all : forall ch, ch ∈ opened w -> (exists id, pending (cs w) !! id = Some ch) \/ ch ∈ delivered w ++ withdrawn w;
  co_known : forall ch, ch ∈ delivered w ++ withdrawn w -> ch ∈ opened w;
  co_stopped : running (cs w) = false -> pending (cs w) = ∅
}.

Lemma register_rpc c t s w : rpc_state (registerThreadIDsLocked c t s w) = rpc_state c.
Proof. unfold registerThreadIDsLocked. by case_match. Qed.

Lemma record_turn_rpc c t u s : rpc_state (record_turn c t u s) = rpc_state c.
Proof. unfold record_turn. destruct (is_empty (resolveThreadIDLocked c t)); by case_match. Qed.

Lemma notification_rpc c method params : rpc_state (HandleNotification c method params) = rpc_state c.
Proof.
  unfold HandleNotification. repeat case_match; try done; [| |apply register_rpc].
  - unfold SetActiveTurn. case_match; [done|]. apply record_turn_rpc.
  - unfold completeTurn. cbv zeta. by case_match.
Qed.

Lemma track_server_rpc c req now : rpc_state (TrackServerRequest c req now).2 = rpc_state c.
Proof.
  unfold TrackServerRequest. pose proof (register_rpc c (paThreadID (pendingFromServerRequest req now)) "" "") as R.
  unfold rpc_state in *. injection R as R1 R2 R3. repeat case_match; simplify_eq; cbn; by rewrite ?R1, ?R2, ?R3.
Qed.

Lemma track_input_rpc c req now : rpc_state (TrackUserInput c req now).2 = rpc_state c.
Proof. unfold TrackUserInput. repeat case_match; done. Qed.

(** A line either leaves the calls alone or answers one of them. *)
Lemma read_line_calls c gen reader line now more ds c' :
  read_line c gen reader line now = (more, ds, c') ->
  (to_calls ds = [] /\ rpc_state c' = rpc_state c) \/
  (exists id, rpc_state c' = (nextID c, delete id (pending c), running c) /\
     to_calls ds = match pending c !! id with Some ch => [ch] | None => [] end).
Proof.
  unfold read_line. destruct (is_empty (TrimSpace line)); [intros [= <- <- <-]; by left|].
  destruct (decode_message (TrimSpace line)) as [m|]; [|intros [= <- <- <-]; by left].
  destruct (negb (current_reader c gen reader)); [intros [= <- <- <-]; by left|].
  case_match.
  - set (req := mkRequest _ _ _). pose proof (track_server_rpc c req now) as R1.
    destruct (TrackServerRequest c req now) as [op c1]. pose proof (track_input_rpc c1 req now) as R2.
    destruct (TrackUserInput c1 req now) as [oi c2]. intros [= <- <- <-]. left. split; [done|]. cbn in R1, R2. congruence.
  - case_match.
    + case_match; intros [= <- <- <-]; left; (split; [done|]); [done|apply notification_rpc].
    + intros [= <- <- <-]. right. exists (rawIDString (msgID m)). split; [done|]. by destruct (pending c !! _).
Qed.

(** The channels of all open calls, each once. *)
Lemma range_values_NoDup (m : gmap string Z) :
  (forall i j ch, m !! i = Some ch -> m !! j = Some ch -> i = j) -> NoDup (range_values m).
Proof.
  intros Hinj. rewrite range_values_perm. apply NoDup_fmap_2_strong; [|apply NoDup_map_to_list].
  intros [i a] [j b] Hi%elem_of_map_to_list Hj%elem_of_map_to_list Hab. cbn in *. subst b. by rewrite (Hinj i j a).
Qed.

Lemma failed_channels chs e : (failRPCs chs e).*1 = chs.
Proof. unfold failRPCs. rewrite <- list_fmap_compose. induction chs as [|x chs IH]; [done|]. cbn. f_equal. exact IH. Qed.

(** The end of the process answers every open call. *)
Lemma calls_all_fail w c :
  calls_ok w -> nextID c = nextID (cs w) -> pending c = ∅ ->
  calls_ok (mkCallers c (opened w) (delivered w ++ range_values (pending (cs w))) (withdrawn w)).
Proof.
  intros [Hn Hids Hinj Honce Hall Hknown Hstop] En Ep.
  assert (Hperm : delivered w ++ range_values (pending (cs w)) ++ withdrawn w ≡ₚ
                  (delivered w ++ withdrawn w) ++ range_values (pending (cs w))).
  { rewrite <- app_assoc. by rewrite (Permutation_app_comm (withdrawn w)). }
  split; cbn; rewrite ?Ep, ?En; try done.
  - rewrite <- app_assoc, Hperm. apply NoDup_app. split; [done|]. split; [|by apply range_values_NoDup].
    intros ch Hch (id & Hid)%elem_of_range_values. by apply Hids in Hid as (_ & _ & Hno).
  - intros ch Hch. right. rewrite <- app_assoc, Hperm. apply elem_of_app.
    destruct (Hall ch Hch) as [[id Hid]|]; [right; apply elem_of_range_values; eauto|by left].
  - intros ch. rewrite <- app_assoc, Hperm. intros [Hch|(id & Hid)%elem_of_range_values]%elem_of_app; [by apply Hknown|].
    by apply Hids in Hid as (_ & ? & _).
Qed.

Lemma calls_same w c : calls_ok w -> rpc_state c = rpc_state (cs w) -> calls_ok (mkCallers c (opened w) (delivered w) (withdrawn w)).
Proof.
  intros [Hn Hids Hinj Honce Hall Hknown Hstop] Er. unfold rpc_state in Er. injection Er as E1 E2 E3.
  split; cbn; rewrite ?E1, ?E2, ?E3; done.
Qed.

(** One call leaves the table: its channel is delivered to or withdrawn. *)
Lemma calls_removed w c id d' wd' :
  calls_ok w -> rpc_state c = (nextID (cs w), delete id (pending (cs w)), running (cs w)) ->
  d' ++ wd' ≡ₚ (match pending (cs w) !! id with Some ch => [ch] | None => [] end) ++ delivered w ++ withdrawn w ->
  calls_ok (mkCallers c (opened w) d' wd').
Proof.
  intros [Hn Hids Hinj Honce Hall Hknown Hstop] Er Hperm. unfold rpc_state in Er. injection Er as E1 E2 E3.
  assert (Hgone : forall ch, pending (cs w) !! id = Some ch -> forall i, delete id (pending (cs w)) !! i = Some ch -> False).
  { intros ch Hch i [Hne Hi]%lookup_delete_Some. apply Hne. by apply (Hinj id i ch). }
  split; cbn; rewrite ?E1, ?E2, ?E3; try done.
  - intros i ch [Hne Hi]%lookup_delete_Some. destruct (Hids i ch Hi) as (? & ? & Hno). split; [done|]. split; [done|].
    rewrite Hperm. intros [Hin|Hin]%elem_of_app; [|done]. destruct (pending (cs w) !! id) as [ch'|] eqn:E; [|by apply elem_of_nil in Hin].
    apply list_elem_of_singleton in Hin as ->. apply Hne. by apply (Hinj id i ch').
  - intros i j ch [_ Hi]%lookup_delete_Some [_ Hj]%lookup_delete_Some. by apply (Hinj i j ch).
  - rewrite Hperm. destruct (pending (cs w) !! id) as [ch|] eqn:E; [|done]. apply NoDup_cons. split; [|done].
    by apply (Hids id ch E).
  - intros ch Hch. destruct (Hall ch Hch) as [[i Hi]|Hin].
    + destruct (decide (i = id)) as [->|Hne]; [|left; exists i; by rewrite lookup_delete_ne].
      right. rewrite Hperm, Hi. apply elem_of_app. left. by apply list_elem_of_singleton.
    + right. rewrite Hperm. apply elem_of_app. by right.
  - intros ch. rewrite Hperm. intros [Hin|Hin]%elem_of_app; [|by apply Hknown].
    destruct (pending (cs w) !! id) as [ch'|] eqn:E; [|by apply elem_of_nil in Hin].
    apply list_elem_of_singleton in Hin as ->. by apply (Hids id ch' E).
  - intros Hr. by rewrite Hstop, delete_empty.
Qed.

Lemma calls_sent w ch method params werr r c out :
  calls_ok w -> call_send (cs w) ch method params werr = (r, c, out) -> ch ∉ opened w -> nextID (cs w) < max_int64 ->
  calls_ok (mkCallers c (match r with Good _ => opened w ++ [ch] | Bad _ => opened w end) (delivered w) (withdrawn w)).
Proof.
  intros [Hn Hids Hinj Honce Hall Hknown Hstop] Hsend Hfresh Hmax. unfold call_send in Hsend. cbv zeta in Hsend.
  rewrite int64_wrap_id in Hsend by (unfold min_int64; lia).
  assert (Hnew : pending (cs w) !! Itoa (nextID (cs w) + 1) = None).
  { destruct (pending (cs w) !! _) as [ch'|] eqn:E; [|done]. destruct (Hids _ _ E) as ((n & Hni & Hrange) & _).
    apply (f_equal Atoi) in Hni. rewrite !Atoi_Itoa in Hni by lia. injection Hni as Hni. lia. }
  assert (Hsame : forall c', nextID c' = nextID (cs w) + 1 -> pending c' = pending (cs w) -> running c' = running (cs w) ->
    calls_ok (mkCallers c' (opened w) (delivered w) (withdrawn w))).
  { intros c' E1 E2 E3. split; cbn; rewrite ?E1, ?E2, ?E3; try done; [lia|].
    intros i a Hi. destruct (Hids i a Hi) as ((n & -> & ?) & ?). split; [|done]. exists n. split; [done|lia]. }
  cbn in Hsend. destruct (running (cs w)) eqn:Er; [|injection Hsend as <- <- <-; by apply Hsame].
  destruct (process (cs w)); [|injection Hsend as <- <- <-; by apply Hsame].
  destruct werr as [e|]; injection Hsend as <- <- <-.
  - apply Hsame; cbn; try done. by rewrite delete_insert_id.
  - split; cbn; try done.
    + lia.
    + intros i a [[<- <-]|[Hne Hi]]%lookup_insert_Some.
      * split; [exists (nextID (cs w) + 1); split; [done|lia]|]. split; [apply elem_of_snoc; by right|].
        intros Hin. by apply Hfresh, Hknown.
      * destruct (Hids i a Hi) as ((n & -> & ?) & ? & ?). split; [exists n; split; [done|lia]|].
        split; [apply elem_of_snoc; by left|done].
    + intros i j a [[<- <-]|[Hi Hia]]%lookup_insert_Some [[<- Hj]|[Hj Hja]]%lookup_insert_Some; try done.
      * by apply Hids in Hja as (_ & ? & _).
      * subst a. by apply Hids in Hia as (_ & ? & _).
      * by apply (Hinj i j a).
    + intros a [Ha| ->]%elem_of_snoc; [|left; eexists; apply lookup_insert_eq].
      destruct (Hall a Ha) as [[i Hi]|]; [|by right]. left. exists i. rewrite lookup_insert_ne; [done|]. intros <-. congruence.
    + intros a Ha. apply elem_of_snoc. left. by apply Hknown.
    + by rewrite Er.
Qed.

Lemma call_step_ok w w' : call_step w w' -> calls_ok w -> calls_ok w'.
Proof.
  intros Hs Hok. destruct Hs.
  - by eapply calls_sent.
  - eapply calls_removed; [done|done|]. destruct (pending (cs w) !! id) as [ch|]; [|done].
    rewrite app_assoc. apply Permutation_app_comm.
  - apply read_line_calls in H0 as [[-> Er]|(id & Er & ->)].
    + rewrite app_nil_r. by apply calls_same.
    + eapply calls_removed; [done|exact Er|]. destruct (pending (cs w) !! id) as [ch|]; [|by rewrite app_nil_r].
      rewrite <- app_assoc. cbn. by rewrite Permutation_middle.
  - unfold handleProcessExit in H0. destruct (negb _).
    + injection H0 as <- <- <-. cbn. rewrite app_nil_r. by apply calls_same.
    + cbn in H0. destruct (stopping (cs w)); injection H0 as <- <- <-; rewrite failed_channels; by apply calls_all_fail.
  - unfold Close in H0. case_match; injection H0 as <- <- <-.
    + cbn. rewrite app_nil_r. by apply calls_same.
    + rewrite failed_channels. by apply calls_all_fail.
  - unfold ensureProcess in H0. destruct (stopping (cs w)); [injection H0 as <- <-; by apply calls_same|].
    destruct (running (cs w)) eqn:Er; [injection H0 as <- <-; by apply calls_same|].
    destruct proc as [p|]; injection H0 as <- <-; [|by apply calls_same].
    destruct Hok as [Hn Hids Hinj Honce Hall Hknown Hstop]. specialize (Hstop Er).
    split; cbn; try done. intros ch Hch. destruct (Hall ch Hch) as [[i Hi]|]; [|by right]. by rewrite Hstop in Hi.
  - by apply calls_same.
Qed.

(** C12: C: whatever the process answers and whenever it ends, a call gets at most one
    result, and none is forgotten: it is waiting for a running process, has its
    result, or its caller gave up. *)
Theorem calls_are_settled w :
  rtc call_step no_calls w ->
  NoDup (delivered w ++ withdrawn w) /\
  (forall ch, ch ∈ opened w ->
     (running (cs w) = true /\ exists id, pending (cs w) !! id = Some ch) \/ ch ∈ delivered w \/ ch ∈ withdrawn w).
Proof.
  intros Hr. assert (Hok : calls_ok w).
  { eapply (rtc_invariant call_step calls_ok); [|exact Hr|].
    - intros a b Hok Hab. by eapply call_step_ok.
    - split; cbn; try done; try apply NoDup_nil_2; intros ch Hch; by apply elem_of_nil in Hch. }
  split; [apply (co_once w Hok)|]. intros ch Hch. destruct (co_all w Hok ch Hch) as [[id Hid]|Hin%elem_of_app]; [|by right].
  left. split; [|by exists id]. destruct (running (cs w)) eqn:E; [done|]. by rewrite (co_stopped w Hok E) in Hid.
Qed.
End Calls.

(** ** Runs of the methods *)

Section Runs.
Context `{MapOrder}.

Inductive event : Type := EvSection (c : CodexAppServer) | EvCall (method : string) (params : value) | EvTick.

(** The error of a call or of a context never is [ErrPromptNotStarted]. *)
Definition of_a_call (e : goError) : Prop := forall cause, e <> ErrPromptNotStarted cause.

(** A run of a method: each section sees the state the other goroutines left. *)
Inductive runs {A} : prog A -> list event -> A -> Prop :=
  | runs_ret a : runs (Ret a) [] a
  | runs_section f c tr a : runs (f c).1 tr a -> runs (Section_ f) (EvSection c :: tr) a
  | runs_call method params k r tr a :
      (forall e, r = Bad e -> of_a_call e) -> runs (k r) tr a -> runs (Call method params k) (EvCall method params :: tr) a
  | runs_tick k e tr a : runs (k e) tr a -> runs (Tick k) (EvTick :: tr) a.

Definition is_call (method : string) (e : event) : bool := match e with EvCall m _ => String.eqb m method | _ => false end.
Definition calls_of (method : string) (tr : list event) : nat := List.length (List.filter (is_call method) tr).

Lemma runs_ret_inv {A} (a b : A) tr : runs (Ret a) tr b -> tr = [] /\ b = a.
Proof. by inversion 1. Qed.
Lemma runs_section_inv {A} f tr (b : A) : runs (Section_ f) tr b -> exists c tr', tr = EvSection c :: tr' /\ runs (f c).1 tr' b.
Proof. inversion 1; eauto. Qed.
Lemma runs_call_inv {A} m p k tr (b : A) :
  runs (Call m p k) tr b -> exists r tr', tr = EvCall m p :: tr' /\ (forall e, r = Bad e -> of_a_call e) /\ runs (k r) tr' b.
Proof. inversion 1; eauto 10. Qed.
Lemma runs_tick_inv {A} k tr (b : A) : runs (Tick k) tr b -> exists e tr', tr = EvTick :: tr' /\ runs (k e) tr' b.
Proof. inversion 1; eauto. Qed.

Ltac run_simpl H := unfold call, observe, update, section, mbind, prog_mbind in H; cbn [prog_bind fst snd] in H.

Ltac step_run :=
  match goal with
  | H : runs (Ret _) _ _ |- _ => apply runs_ret_inv in H as [-> ->]
  | H : runs (Section_ _) _ _ |- _ =>
    let c := fresh "c" in let tr := fresh "tr" in apply runs_section_inv in H as (c & tr & -> & H); run_simpl H
  | H : runs (Call _ _ _) _ _ |- _ =>
    let r := fresh "r" in let tr := fresh "tr" in let Hcall := fresh "Hcall" in
    apply runs_call_inv in H as (r & tr & -> & Hcall & H); run_simpl H
  | H : runs (Tick _) _ _ |- _ =>
    let e := fresh "e" in let tr := fresh "tr" in apply runs_tick_inv in H as (e & tr & -> & H); run_simpl H
  | H : runs (match ?x with _ => _ end) _ _ |- _ => destruct x eqn:?; run_simpl H
  | H : runs (prog_bind (match ?x with _ => _ end) _) _ _ |- _ => destruct x eqn:?; run_simpl H
  end.

(** C11: C: a prompt reported as not started was not started: no run that ends with
    that error contains the request [turn/start], a run contains it at most once,
    and one that succeeds contains it. *)
Theorem turn_start_boundary threadID prompt files mode tr r :
  runs (StartTurnWithCollaborationMode threadID prompt files mode) tr r ->
  (calls_of "turn/start" tr <= 1)%nat /\
  (forall cause, r = Bad (ErrPromptNotStarted cause) -> calls_of "turn/start" tr = O) /\
  (forall turnID, r = Good turnID -> calls_of "turn/start" tr = 1%nat).
Proof.
  unfold StartTurnWithCollaborationMode. intros Hr. run_simpl Hr.
  assert (Hin : forall e cause, buildTurnInput prompt files = Bad e -> e <> ErrPromptNotStarted cause).
  { intros e cause. unfold buildTurnInput. repeat case_match; intros [= <-]; done. }
  unfold not_started in Hr. repeat step_run; unfold calls_of; cbn [List.filter List.length is_call String.eqb];
    (split; [cbn; lia|split; [|intros ? Heq; first [discriminate Heq|done]]]);
    intros cause Heq; first [discriminate Heq|reflexivity|injection Heq as ->].
  all: exfalso; first [by eapply Hin|by eapply Hcall|by eapply Hcall0|by eapply Hcall1].
Qed.

(** The wait ends well only right after a look that found the turn running. *)
Lemma wait_ends {A} rounds threadID turnID (k : option goError -> prog A) tr r :
  runs (prog_bind (waitForStartedTurn rounds threadID turnID) k) tr r ->
  exists tr1 tr2 w, tr = tr1 ++ tr2 /\ runs (k w) tr2 r /\ Forall (fun e => forall m, is_call m e = false) tr1 /\
    (w = None -> exists c tr0, tr1 = tr0 ++ [EvSection c] /\ activeTurnIDLocked c threadID = turnID /\
                               is_in_progress (lastTurnStatusLocked c threadID) = true).
Proof.
  revert tr. induction rounds as [|n IH]; intros tr Hr; cbn [waitForStartedTurn] in Hr; run_simpl Hr;
    apply runs_section_inv in Hr as (c & tr' & -> & Hr); run_simpl Hr.
  all: destruct (is_empty (activeTurnIDLocked c threadID));
    [exists [EvSection c], tr', (Some (ErrOther ("no active turn id for thread " +:+ threadID))); by repeat constructor|].
  all: destruct (String.eqb_spec (activeTurnIDLocked c threadID) turnID) as [Ht|]; cbn [negb] in Hr;
    [|exists [EvSection c], tr', (Some (ErrOther ("active turn changed for thread " +:+ threadID))); by repeat constructor].
  all: destruct (is_in_progress (lastTurnStatusLocked c threadID)) eqn:Ep;
    [exists [EvSection c], tr', None; split; [done|split; [done|split; [by repeat constructor|]]]; intros _; by exists c, []|].
  all: run_simpl Hr; apply runs_tick_inv in Hr as (e & tr2 & -> & Hr); run_simpl Hr.
  - eexists [EvSection c; EvTick], tr2, _. split; [done|]. split; [exact Hr|]. by repeat constructor.
  - destruct e as [err|]; run_simpl Hr.
    + eexists [EvSection c; EvTick], tr2, (Some err). split; [done|]. split; [exact Hr|]. by repeat constructor.
    + apply IH in Hr as (tr1 & tr3 & w & -> & Hk & Hno & Hw). exists (EvSection c :: EvTick :: tr1), tr3, w.
      split; [done|]. split; [done|]. split; [by repeat constructor|].
      intros Hnone. destruct (Hw Hnone) as (c' & tr0 & -> & ?). by exists c', (EvSection c :: EvTick :: tr0).
Qed.

(** A request that interrupts or steers a turn directly follows a look at the
    state in which that turn was running in that thread. *)
Definition aims_at_running (c : CodexAppServer) (params : value) : Prop :=
  exists threadID turn_member kvs, params = VObject kvs /\ ("threadId", VString threadID) ∈ kvs /\
    (turn_member, VString (activeTurnIDLocked c threadID)) ∈ kvs /\ (turn_member = "turnId" \/ turn_member = "expectedTurnId") /\
    activeTurnIDLocked c threadID <> "" /\ is_in_progress (lastTurnStatusLocked c threadID) = true.

Fixpoint aimed (seen : option CodexAppServer) (tr : list event) : Prop :=
  match tr with
  | [] => True
  | EvSection c :: tr' => aimed (Some c) tr'
  | EvTick :: tr' => aimed None tr'
  | EvCall method params :: tr' =>
    (method = "turn/interrupt" \/ method = "turn/steer" -> exists c, seen = Some c /\ aims_at_running c params) /\ aimed None tr'
  end.

Lemma aimed_prefix seen tr1 tr2 :
  Forall (fun e => forall m, is_call m e = false) tr1 ->
  (forall seen', aimed seen' tr2) -> aimed seen (tr1 ++ tr2).
Proof.
  intros Hno Ht2. revert seen. induction Hno as [|e tr1 He _ IH]; intros seen; [apply Ht2|].
  destruct e as [c|m p|]; cbn; [apply IH| |apply IH]. specialize (He m). cbn in He. by rewrite String.eqb_refl in He.
Qed.

Lemma aimed_after seen tr0 c tr2 :
  Forall (fun e => forall m, is_call m e = false) (tr0 ++ [EvSection c]) ->
  aimed (Some c) tr2 -> aimed seen ((tr0 ++ [EvSection c]) ++ tr2).
Proof.
  revert seen. induction tr0 as [|e tr0 IH]; intros seen Hno Ht2; [done|].
  apply Forall_cons in Hno as [He Hno]. destruct e as [c'|m p|]; cbn; [by apply IH| |by apply IH].
  specialize (He m). cbn in He. by rewrite String.eqb_refl in He.
Qed.

(** C13: C: an interruption or a correction of the phone goes to the turn that was
    running in its thread when the client last looked, or is not sent. *)
Theorem control_aims_at_the_running_turn rounds threadID text tr r :
  runs (InterruptTurn rounds threadID) tr r \/ runs (SteerTurn rounds threadID text) tr r -> aimed None tr.
Proof.
  intros [Hr|Hr]; unfold InterruptTurn, SteerTurn in Hr; run_simpl Hr.
  all: repeat lazymatch goal with
       | H : runs (prog_bind (waitForStartedTurn _ _ _) _) _ _ |- _ => fail
       | _ => step_run
       end; cbn; try done.
  all: apply wait_ends in Hr as (tr1 & tr2 & w & -> & Hr & Hno & Hw).
  all: destruct w as [e|]; run_simpl Hr; [step_run; apply aimed_prefix; [done|by intros]|].
  all: destruct (Hw eq_refl) as (c1 & tr3 & -> & Hact & Hprog); apply aimed_after; [done|].
  all: step_run; cbn; split; [|by step_run]; intros _; exists c1; split; [done|].
  all: match goal with H : is_empty ?t = false |- aims_at_running _ (VObject (_ :: (_, VString ?t) :: _)) => idtac | _ => idtac end.
  all: eexists _, _, _; split; [done|]; rewrite Hact; split; [by left|]; split; [right; by left|]; split; [auto|]; split; [by apply is_empty_false|done].
Qed.
End Runs.

(** ** Request ids *)

Section RequestIds.

Lemma itoa_loop_enough f g n acc :
  0 <= n < 10 ^ Z.of_nat f -> n < 10 ^ Z.of_nat g -> (0 < f)%nat -> (0 < g)%nat -> itoa_loop f n acc = itoa_loop g n acc.
Proof.
  revert g n acc. induction f as [|f IH]; intros g n acc Hf Hg H0 H1; [lia|]. destruct g as [|g]; [lia|].
  cbn [itoa_loop]. destruct (n <? 10) eqn:E; [done|]. bool_hyps.
  rewrite Nat2Z.inj_succ, Z.pow_succ_r in Hf, Hg by lia.
  assert (0 <= n / 10) by (apply Z.div_pos; lia).
  assert (Hpos : forall k, n < 10 * 10 ^ Z.of_nat k -> (0 < k)%nat /\ n / 10 < 10 ^ Z.of_nat k).
  { intros k Hk. split; [destruct k; [cbn in Hk; lia|lia]|]. apply Z.div_lt_upper_bound; lia. }
  destruct (Hpos f ltac:(lia)), (Hpos g Hg). apply IH; lia.
Qed.

Lemma itoa_loop_head f n acc : 1 <= n < 10 ^ Z.of_nat f -> has_prefix "0" (itoa_loop f n acc) = false.
Proof.
  revert n acc. induction f as [|f IH]; intros n acc Hn; [cbn in Hn; lia|]. cbn [itoa_loop].
  destruct (n <? 10) eqn:E; bool_hyps.
  - cbn [has_prefix]. rewrite andb_true_r. apply Ascii.eqb_neq. intros Heq. apply (f_equal code) in Heq.
    rewrite Z.mod_small, code_byte_of in Heq by lia. change (code "0"%char) with 48 in Heq. lia.
  - apply IH. rewrite Nat2Z.inj_succ, Z.pow_succ_r in Hn by lia.
    split; [apply Z.div_le_lower_bound; lia|apply Z.div_lt_upper_bound; lia].
Qed.

Lemma pow_10_2 k : 0 <= k -> 2 ^ k <= 10 ^ k.
Proof. intros. apply Z.pow_le_mono_l. lia. Qed.

Lemma decimal_Itoa n : 0 <= n <= max_int64 -> decimal n = Itoa n.
Proof.
  intros Hn. unfold decimal, Itoa. destruct (n <? 0) eqn:E; bool_hyps; [lia|].
  apply itoa_loop_enough; [|change (10 ^ Z.of_nat 20) with 100000000000000000000; unfold max_int64 in Hn; lia|lia|lia].
  split; [lia|]. rewrite Nat2Z.inj_succ, Z2Nat.id by apply Z.log2_nonneg.
  destruct (decide (n = 0)) as [->|]; [done|]. pose proof (Z.log2_spec n ltac:(lia)) as [_ Hlog].
  pose proof (pow_10_2 (Z.succ (Z.log2 n))). pose proof (Z.log2_nonneg n). lia.
Qed.

Lemma Itoa_parse_dec n : 0 <= n <= max_int64 -> parse_dec (Itoa n) 0 = Some n.
Proof.
  intros Hn. pose proof (Atoi_Itoa n Hn) as Ha. destruct (Itoa_digits n) as [Hd He]; [lia|]. rewrite Atoi_digits in Ha by done.
  cbn in Ha. destruct (parse_dec (Itoa n) 0) as [k|]; [|done]. cbn in Ha. unfold in_int in Ha. by case_match.
Qed.

Lemma lit_integer_digits s acc k : parse_dec s acc = Some k -> lit_integer s acc = (k, 0).
Proof.
  revert acc. induction s as [|c s IH]; intros acc; cbn; [by intros [= ->]|]. case_match; [|done]. apply IH.
Qed.

(** An integer below 2^53 is a float64, and is printed as itself. *)
Lemma float64_of_small n : 0 <= n < 2 ^ 53 -> exists f, float64_of n 0 = Some f /\ format_f0 (false, f) = decimal n.
Proof.
  intros Hn. unfold float64_of. destruct (n =? 0) eqn:E0; [bool_hyps; subst; by exists (0, 0)|]. bool_hyps.
  cbn [Z.leb Z.compare]. rewrite Z.mul_1_r.
  pose proof (Z.log2_spec n ltac:(lia)) as [Hlo Hhi]. pose proof (Z.log2_nonneg n) as Hl0.
  assert (Hl : Z.log2 n < 53) by (apply Z.log2_lt_pow2; lia).
  change (Z.log2 1) with 0. set (l := Z.log2 n) in *. set (e0 := l - 0 - 52).
  cbn [fst snd]. rewrite (Z.max_r e0 0), (Z.max_l (- e0) 0) by lia. rewrite Z.mul_1_r, Z.div_1_r.
  assert (Hscale : n * 2 ^ (- e0) <? 2 ^ 52 = false).
  { apply Z.ltb_ge. replace 52 with (l + - e0) by lia. rewrite Z.pow_add_r by lia. apply Z.mul_le_mono_nonneg_r; lia. }
  rewrite Hscale, (Z.max_l e0 (-1074)) by lia. rewrite (Z.max_r e0 0), (Z.max_l (- e0) 0) by lia.
  assert (Hround : forall b, 0 < b -> round_half_even (n * b) b = n).
  { intros b Hb. unfold round_half_even. rewrite Z.div_mul, Z.mod_mul by lia. by replace (2 * 0 ?= b) with Lt by (symmetry; apply Z.compare_lt_iff; lia). }
  assert (Hm : round_half_even (n * 2 ^ (- e0)) (1 * 2 ^ 0) = n * 2 ^ (- e0)).
  { unfold round_half_even. change (1 * 2 ^ 0) with 1. rewrite Z.div_1_r, Z.mod_1_r. done. }
  rewrite Hm. destruct (0 <=? e0) eqn:E; bool_hyps.
  - replace e0 with 0 by lia. cbn [andb]. change (2 ^ - 0) with 1. change (2 ^ 0) with 1. rewrite !Z.mul_1_r.
    destruct (2 ^ 1024 <=? n) eqn:Eb; bool_hyps; [exfalso; assert (2 ^ 53 < 2 ^ 1024) by (by apply Z.pow_lt_mono_r); lia|].
    eexists. split; [done|]. unfold format_f0. cbn [Z.leb Z.compare]. change (2 ^ 0) with 1. by rewrite Z.mul_1_r.
  - cbn [andb]. eexists. split; [done|]. unfold format_f0. destruct (0 <=? e0) eqn:E'; bool_hyps; [lia|].
    rewrite Hround by (apply Z.pow_pos_nonneg; lia). done.
Qed.

Lemma TrimSpace_Itoa n : 0 <= n -> TrimSpace (Itoa n) = Itoa n.
Proof.
  intros Hn. destruct (Itoa_digits n Hn) as [Hd He]. destruct (first_digit _ Hd He) as (c & s & Hs & Hc).
  destruct (first_digit (rev_string (Itoa n))) as (c2 & t & Hr & Hc2); [by rewrite all_digits_rev|..].
  { intros E. apply He. by rewrite <- (rev_string_involutive (Itoa n)), E. }
  apply (TrimSpace_digits c _ c2 s); eauto.
Qed.

(** C: an answer carries the id of the request: the number, when the process
    numbers its requests below 2^53; the string, when it is trimmed and not a
    row of digits. *)
Theorem answers_carry_the_request_id :
  (forall n, 0 <= n < 2 ^ 53 -> encodeRequestID (rawIDString (Some (JNumber (Itoa n)))) = Good (IdNumber n)) /\
  (forall text s, s <> "" -> TrimSpace s = s -> isAllDigits s = false ->
     encodeRequestID (rawIDString (Some (JString text s))) = Good (IdString s)).
Proof.
  split.
  - intros n Hn. assert (Hmax : 0 <= n <= max_int64) by (unfold max_int64; lia).
    destruct (Itoa_digits n) as [Hd He]; [lia|]. destruct (first_digit _ Hd He) as (c & s & Hs & Hc).
    destruct (float64_of_small n Hn) as (f & Hf & Hfmt).
    assert (Hneg : lit_negative (Itoa n) = false).
    { unfold lit_negative. rewrite Hs. cbn [has_prefix]. rewrite andb_true_r. apply Ascii.eqb_neq. intros <-. done. }
    assert (Hraw : rawIDString (Some (JNumber (Itoa n))) = Itoa n).
    { cbn [rawIDString]. unfold parse_float. rewrite Hneg, (lit_integer_digits _ _ _ (Itoa_parse_dec n Hmax)), Hf.
      cbn [fmap option_fmap option_map]. by rewrite Hfmt, decimal_Itoa. }
    rewrite Hraw. unfold encodeRequestID. rewrite TrimSpace_Itoa by lia. apply is_empty_false in He as He'. rewrite He'.
    unfold isAllDigits. rewrite He'. cbn [negb andb].
    replace (CodexAppServer.all_digits (Itoa n)) with true by (symmetry; exact Hd).
    unfold sscan_int64. destruct (decide (n = 0)) as [->|Hnz]; [done|].
    unfold Itoa. destruct (n <? 0) eqn:E; bool_hyps; [lia|].
    rewrite itoa_loop_head by (change (10 ^ Z.of_nat 20) with 100000000000000000000; unfold max_int64 in Hmax; lia).
    pose proof (Itoa_parse_dec n Hmax) as Hp. unfold Itoa in Hp, Hs. destruct (n <? 0) eqn:E'; bool_hyps; [lia|].
    unfold parse_unsigned. rewrite Hs in *. rewrite Hp. cbn. unfold in_int, min_int64.
    destruct (_ <=? n) eqn:E1; destruct (n <=? max_int64) eqn:E2; bool_hyps; try lia. done.
  - intros text s Hne Ht Hd. apply is_empty_false in Hne. cbn [rawIDString]. rewrite Hne. unfold encodeRequestID.
    by rewrite Ht, Hne, Hd.
Qed.
End RequestIds.

(** ** Concrete runs *)

Module Demo.
#[local] Existing Instance canonical_order.

(** Double quotes around, for the parameters written with [doc]. *)
Definition approval_line (id item turn : string) : string :=
  doc ("{'id': " +:+ id +:+ ", 'method': 'item/commandExecution/requestApproval', 'params': {'threadId': 't', 'turnId': '" +:+
       turn +:+ "', 'itemId': '" +:+ item +:+ "', 'command': 'rm'}}").

Definition started (w : world) : world :=
  mkWorld (ensureProcess (srv w) (Good (processes w))).2 (processes w + 1) (askedApproval w) (askedInput w) (seen w)
    (decided w) (decisions w) (inputs w) (answers w).

Definition read (w : world) (gen reader : Z) (line : string) (now : Z) : world :=
  let '(_, ds, c) := read_line (srv w) gen reader line now in with_srv (note_request w reader ds now) c.

Lemma read_reachable w gen reader line now :
  reachable w -> fresh_request w reader (read_line (srv w) gen reader line now).1.2 -> reachable (read w gen reader line now).
Proof.
  intros Hr Hf. eapply rtc_r; [exact Hr|]. unfold read.
  destruct (read_line (srv w) gen reader line now) as [[more ds] c] eqn:E. by eapply step_line.
Qed.

Lemma started_reachable w : reachable w -> reachable (started w).
Proof. intros Hr. eapply rtc_r; [exact Hr|]. apply step_start. Qed.

Definition one_request : world := read (started initial) 1 0 (approval_line "0" "a" "u") 10.

Lemma one_request_reachable : reachable one_request.
Proof. apply read_reachable; [apply started_reachable, rtc_refl|]. intros req Hreq. vm_compute in Hreq. by injection Hreq as <-. Qed.

(** A client approves. *)
Definition taken_out : PendingApproval := default (mkPending "" "" "" "" "" "" "" "" None None 0) (pendingAppr (srv one_request) !! "a:0").
Definition approving : world :=
  with_decisions (with_srv one_request (takePending (srv one_request) "a:0" true).2) [("a:0", true)]
    {[ 0%nat := mkInflight taken_out "a:0" true 0 None ]}.

Lemma approving_reachable : reachable approving.
Proof.
  eapply rtc_r; [exact one_request_reachable|].
  apply (step_take one_request 0 "a:0" true taken_out); [|done]. vm_compute. reflexivity.
Qed.

Definition answer_with (w : world) (d : inflight) : world :=
  with_answers
    (with_decisions w (decided w) (<[0%nat := mkInflight (dApproval d) (dName d) (dAccept d) (dAsked d) (Some None)]> (decisions w)))
    (answers_of (respond_decision (srv w) (dApproval d) (dAccept d) None).2 (dAsked d) (paRequestID (dApproval d))
       (Some (dApproval d, dName d, dAccept d))).

Lemma answer_with_reachable w d :
  reachable w -> decisions w !! 0%nat = Some d -> dWritten d = None ->
  (respond_decision (srv w) (dApproval d) (dAccept d) None).1 = None -> reachable (answer_with w d).
Proof.
  intros Hr Hd Hw Hok. eapply rtc_r; [exact Hr|]. unfold answer_with.
  destruct (respond_decision (srv w) (dApproval d) (dAccept d) None) as [f out] eqn:E. cbn [fst snd] in *. subst f.
  exact (step_write w 0 d None None out Hd Hw E).
Qed.

Definition approved : inflight := mkInflight taken_out "a:0" true 0 None.
Definition answer_in (w : world) : world := answer_with w approved.


(** The process ends and another one asks under the same id before the answer is
    written. *)
Definition replaced : world :=
  read (started (with_srv approving (handleProcessExit (srv approving) 1 0 "").2)) 2 1 (approval_line "0" "b" "v") 20.

(** C: a decision about a request of a process that has ended is written to its
    successor, and accepts the request the successor made under the same id
    although nobody decided about that one. *)
Theorem stale_decision_reaches_the_next_process :
  exists w x p, reachable w /\ x ∈ answers w /\ ansAsked x = 0 /\ ansTo x = 1 /\
    pendingAppr (srv w) !! "b:0" = Some p /\ paTurnID p = "v" /\ encodeRequestID (paRequestID p) = Good (IdNumber 0) /\
    ansMessage x = Answer (IdNumber 0) (decision "accept") /\ decided w = [("a:0", true)] /\ is_called "a:0" p = false.
Proof.
  assert (Hr : reachable replaced).
  { apply read_reachable.
    - apply started_reachable. eapply rtc_r; [exact approving_reachable|]. apply step_quiet, quiet_exit.
    - intros req Hreq. vm_compute in Hreq. injection Hreq as <-. vm_compute. reflexivity. }
  exists (answer_in replaced), (mkAnswered 1 0 "0" (Some (taken_out, "a:0", true)) (Answer (IdNumber 0) (decision "accept"))),
    (default taken_out (pendingAppr (srv replaced) !! "b:0")).
  split; [apply answer_with_reachable; [exact Hr|vm_compute; reflexivity..]|].
  split; [|vm_compute; repeat split; reflexivity].
  assert (Hx : answers (answer_in replaced) =
    [mkAnswered 1 0 "0" (Some (taken_out, "a:0", true)) (Answer (IdNumber 0) (decision "accept"))]) by (vm_compute; reflexivity).
  rewrite Hx. by left.
Qed.

(** Names of a thread: the thread, its session and what the phone calls it. *)
Definition named_thread : CodexAppServer := RegisterThreadIDs NewCodexAppServer "thr" "ses" "wire".
Definition approval_request : ServerRequest :=
  mkRequest "0" "item/commandExecution/requestApproval" (parse (doc "{'threadId': 'thr', 'turnId': 'u', 'itemId': 'a'}")).

(** C: the first approval of a thread makes the client forget what the phone calls
    the thread. *)
Theorem approval_forgets_the_public_id :
  WireIDForThread named_thread "thr" = "wire" /\
  (exists p c, TrackServerRequest named_thread approval_request 5 = (Some p, c) /\
     paWireID p = "thr" /\ WireIDForThread c "thr" = "thr" /\ ActiveTurnID c "thr" = "u").
Proof.
  split; [vm_compute; reflexivity|]. eexists _, _. split; [vm_compute; reflexivity|]. vm_compute. repeat split.
Qed.

Lemma digit_ids_change :
  encodeRequestID (rawIDString (Some (JString (doc "'7'") "7"))) = Good (IdNumber 7) /\
  encodeRequestID (rawIDString (Some (JString (doc "'010'") "010"))) = Good (IdNumber 8) /\
  encodeRequestID (rawIDString (Some (JNumber "9007199254740993"))) = Good (IdNumber 9007199254740992).
Proof. vm_compute. repeat split. Qed.

Lemma answers_carry_the_request_id_witness :
  encodeRequestID (rawIDString (Some (JNumber (Itoa 42)))) = Good (IdNumber 42).
Proof. exact (proj1 answers_carry_the_request_id 42 ltac:(lia)). Defined.

Definition running_turn : CodexAppServer := SetActiveTurn named_thread "thr" "u".


Definition plan_run : list event :=
  [EvSection NewCodexAppServer; EvCall "collaborationMode/list" (VObject []); EvCall "model/list" (VObject [])].

Lemma turn_start_boundary_witness :
  exists cause, runs (StartTurnWithCollaborationMode "t" "go" [] "plan") plan_run (Bad (ErrPromptNotStarted cause)) /\
  calls_of "turn/start" plan_run = O.
Proof.
  assert (Hr : runs (StartTurnWithCollaborationMode "t" "go" [] "plan") plan_run
                 (Bad (ErrPromptNotStarted ": Codex did not advertise a Plan collaboration mode"))).
  { apply runs_section. cbn. apply (runs_call _ _ _ (Good (parse (doc "{'data': []}")))); [by intros|]. cbn.
    apply (runs_call _ _ _ (Good (parse (doc "{'data': []}")))); [by intros|]. apply runs_ret. }
  eexists. split; [exact Hr|]. exact (proj1 (proj2 (turn_start_boundary _ _ _ _ _ _ Hr)) _ eq_refl).
Defined.

Definition interrupt_run : list event :=
  [EvSection running_turn; EvSection running_turn; EvSection running_turn;
   EvCall "turn/interrupt" (VObject [("threadId", VString "thr"); ("turnId", VString "u")])].

Lemma control_aims_at_the_running_turn_witness :
  runs (InterruptTurn 3 "wire") interrupt_run None /\ aimed None interrupt_run.
Proof.
  assert (Hr : runs (InterruptTurn 3 "wire") interrupt_run None).
  { apply runs_section. cbn. apply runs_section. cbn. apply runs_section. cbn.
    apply (runs_call _ _ _ (Good None)); [by intros|]. apply runs_ret. }
  split; [exact Hr|]. exact (control_aims_at_the_running_turn 3 "wire" "" _ _ (or_introl Hr)).
Defined.

(** One call that is answered by the end of its process. *)
Definition called : callers :=
  mkCallers (call_send (ensureProcess NewCodexAppServer (Good 0)).2 7 "turn/start" VNil None).1.2 [7] [] [].
Definition call_failed : callers := mkCallers (handleProcessExit (cs called) 1 0 "").2 [7] [7] [].

Lemma calls_are_settled_witness :
  rtc call_step no_calls call_failed /\ NoDup (delivered call_failed ++ withdrawn call_failed) /\ 7 ∈ delivered call_failed.
Proof.
  assert (Hr : rtc call_step no_calls call_failed).
  { eapply rtc_l; [eapply (calls_start no_calls (Good 0)); reflexivity|].
    eapply rtc_l; [eapply (calls_send _ 7 "turn/start" VNil None); [vm_compute; reflexivity|by intros ?%elem_of_nil|vm_compute; reflexivity]|].
    eapply rtc_l; [|apply rtc_refl]. apply (calls_exit called 1 0 "" [(7, RpcErr (ErrAppServerExited ""))] (Some (mkExit 1 [] (ErrAppServerExited "")))).
    vm_compute. reflexivity. }
  destruct (calls_are_settled call_failed Hr) as [Hn Hall]. split; [exact Hr|]. split; [exact Hn|]. by left.
Defined.

(** A waiting time of more than 292 years wraps: the question is over at once. *)
Example auto_resolution_wraps : duration_ms 9223372036855 < 0.
Proof. vm_compute. reflexivity. Qed.
End Demo.
