(* ===== verification/CodexAdapterSpec.v ===== *)
(** * Theorems about [CodexAdapter]

    The recovery of an app-server that exits again and again, the output of
    messages that are streamed at the same time, and three runs in which the
    adapter does not do what its comments say. *)

From stdpp Require Import base tactics list gmap strings relations.
From Stdlib Require Import Ascii ZArith Lia.
From S2P Require Import Prelude GoStrings Json Protocol JsonDecode CodexAppServer CodexAdapter.
From S2P Require CodexAppServerSpec StartThread ActiveTurn Catalog.

(** ** Recovery

    The goroutines that recover and, as ghost state, how often the app-server
    exited and at which count of exits the last successful recovery began. *)

Record recovering : Type := mkRecovering {
  rec : recovery;
  routines : gmap nat recovery_at;
  exits : Z;
  recovered : Z
}.

Definition not_recovering : recovering := mkRecovering (mkRecovery false false false 0) ∅ 0 0.

Definition put_routine (m : gmap nat recovery_at) (n : nat) (at_ : option recovery_at) : gmap nat recovery_at :=
  match at_ with Some a => <[n := a]> m | None => delete n m end.

Inductive recovery_step : recovering -> recovering -> Prop :=
  | exit_noted w n at_ r :
      note_exit (rec w) = (at_, r) -> routines w !! n = None -> recoveryCrashSerial (rec w) < max_uint64 ->
      recovery_step w (mkRecovering r (put_routine (routines w) n at_) (if recoveryClosed r then exits w else exits w + 1) (recovered w))
  | attempt_started w n k d at_ r :
      routines w !! n = Some (Attempt k d) -> attempt_begin (rec w) k d = (at_, r) ->
      recovery_step w (mkRecovering r (put_routine (routines w) n at_) (exits w) (recovered w))
  | attempt_awake w n k d slept at_ r :
      routines w !! n = Some (Asleep k d) -> attempt_slept (rec w) k d slept = (at_, r) ->
      recovery_step w (mkRecovering r (put_routine (routines w) n at_) (exits w) (recovered w))
  | attempt_done w n k d serial ok at_ r sink :
      routines w !! n = Some (Ensuring k d serial) -> attempt_ensured (rec w) k d serial ok = (at_, r, sink) ->
      recovery_step w (mkRecovering r (put_routine (routines w) n at_) (exits w) (if sink then serial else recovered w))
  | adapter_closed w : recovery_step w (mkRecovering (close_recovery (rec w)) (routines w) (exits w) (recovered w)).

(** The attempt a goroutine is in, its delay, and how many steps it may take yet. *)
Definition attempt_of (a : recovery_at) : nat := match a with Attempt n _ | Asleep n _ | Ensuring n _ _ => n end.
Definition delay_of (a : recovery_at) : Z := match a with Attempt _ d | Asleep _ d | Ensuring _ d _ => d end.
Definition steps_left (a : recovery_at) : nat :=
  match a with
  | Attempt n _ => 3 * (7 - n) | Asleep n _ => 3 * (7 - n) - 1 | Ensuring n _ _ => 3 * (7 - n) - 2
  end.

Definition bounded_attempt (a : recovery_at) : Prop :=
  0 < delay_of a <= codexRecoveryMaxWait /\
  match a with Attempt n _ => (1 <= n <= 6)%nat | Asleep n _ | Ensuring n _ _ => (1 <= n <= 5)%nat end.

Record recovery_ok (w : recovering) : Prop := {
  ro_single : (recoveryRunning (rec w) = false /\ routines w = ∅) \/
              (recoveryRunning (rec w) = true /\ recoveryDegraded (rec w) = true /\ exists n a, routines w = {[ n := a ]} /\ bounded_attempt a /\
                 match a with Ensuring _ _ s => s <= recoveryCrashSerial (rec w) | _ => True end);
  ro_serial : recoveryCrashSerial (rec w) = exits w /\ 0 <= exits w <= max_uint64;
  ro_healthy : recoveryDegraded (rec w) = false -> recovered w = exits w
}.

Lemma next_delay_bounded d : 0 < d <= codexRecoveryMaxWait -> 0 < next_delay d <= codexRecoveryMaxWait.
Proof. unfold next_delay, codexRecoveryMaxWait. intros. destruct (d <? 4000) eqn:E; bool_hyps; lia. Qed.

Lemma single_routine (m : gmap nat recovery_at) n n' a a' : m = {[ n := a ]} -> m !! n' = Some a' -> n' = n /\ a' = a.
Proof. intros ->. by intros [<- <-]%lookup_singleton_Some. Qed.

Lemma put_single n (a : recovery_at) at_ : put_routine {[ n := a ]} n at_ = match at_ with Some b => {[ n := b ]} | None => ∅ end.
Proof. destruct at_; cbn; [apply insert_singleton_eq|apply delete_singleton_eq]. Qed.

Lemma recovery_step_ok w w' : recovery_step w w' -> recovery_ok w -> recovery_ok w'.
Proof.
  intros Hs [Hone [Hser Hbound] Hh]. destruct Hs as [w n at_ r Hn Hfree Hmax|w n k d at_ r Hat Hb|w n k d slept at_ r Hat Hb|w n k d serial ok at_ r sink Hat Hb|w].
  - unfold note_exit in Hn. destruct (recoveryClosed (rec w)) eqn:Ec.
    { injection Hn as <- <-. rewrite Ec. cbn. rewrite delete_id by done. by split. }
    assert (Hu : u64_add (recoveryCrashSerial (rec w)) 1 = exits w + 1).
    { unfold u64_add. rewrite Z.mod_small; [lia|]. unfold max_uint64 in *. lia. }
    destruct Hone as [[Er Em]|(Er & Ed & m & a & Em & Ha & Hs)]; rewrite Er in Hn; injection Hn as <- <-; cbn [recoveryClosed].
    + split; cbn; [|split; [done|unfold max_uint64 in *; lia]|done]. right. split; [done|]. split; [done|]. exists n, (Attempt 1 codexRecoveryBaseWait).
      rewrite Em. split; [done|]. split; [|done]. unfold bounded_attempt, codexRecoveryBaseWait, codexRecoveryMaxWait. cbn. lia.
    + split; cbn; [|split; [done|unfold max_uint64 in *; lia]|congruence]. right. split; [done|]. split; [done|]. exists m, a.
      rewrite delete_id by done. split; [done|]. split; [done|]. destruct a; [done..|]. lia.
  - destruct Hone as [[Er Em]|(Er & Ed & m & a & Em & Ha & Hs)]; [by rewrite Em in Hat|].
    destruct (single_routine _ _ _ _ _ Em Hat) as [-> <-]. unfold attempt_begin in Hb. rewrite Em, put_single.
    destruct (codexRecoveryAttempts <? k)%nat eqn:E; [injection Hb as <- <-; split; cbn; [by left|by split|done]|].
    apply Nat.ltb_ge in E. unfold codexRecoveryAttempts in E.
    destruct (recoveryClosed (rec w)); injection Hb as <- <-; [split; cbn; [by left|by split|by intros; apply Hh]|].
    split; cbn; [|by split|done]. right. split; [done|]. split; [done|]. exists m, (Asleep k d). split; [done|]. split; [|done].
    destruct Ha as [? ?]. split; [done|]. cbn in *. lia.
  - destruct Hone as [[Er Em]|(Er & Ed & m & a & Em & Ha & Hs)]; [by rewrite Em in Hat|].
    destruct (single_routine _ _ _ _ _ Em Hat) as [-> <-]. unfold attempt_slept in Hb. rewrite Em, put_single.
    destruct slept; injection Hb as <- <-; (split; cbn; [|by split|done]); [|by left].
    right. split; [done|]. split; [done|]. exists m, (Ensuring k d (recoveryCrashSerial (rec w))). split; [done|]. split; [|lia]. done.
  - destruct Hone as [[Er Em]|(Er & Ed & m & a & Em & Ha & Hs)]; [by rewrite Em in Hat|].
    destruct (single_routine _ _ _ _ _ Em Hat) as [-> <-]. unfold attempt_ensured in Hb. rewrite Em, put_single.
    destruct (ok && (recoveryCrashSerial (rec w) =? serial) && negb (recoveryClosed (rec w)))%bool eqn:E; injection Hb as <- <- <-.
    + bool_hyps. split; cbn; [by left|by split|]. intros _. lia.
    + split; cbn; [|by split|done]. right. split; [done|]. split; [done|]. eexists m, _. split; [done|]. split; [|done].
      destruct Ha as [Hd Hk]. split; [by apply next_delay_bounded|]. cbn in *. lia.
  - split; cbn; [|by split|done]. destruct Hone as [[? ?]|(? & ? & ?)]; [by left|right]. by eauto.
Qed.

(** A goroutine that recovers takes a bounded number of steps. *)
Lemma recovery_progress r a at_ r' :
  (exists k d, a = Attempt k d /\ (1 <= k <= 6)%nat /\ attempt_begin r k d = (at_, r')) \/
  (exists k d slept, a = Asleep k d /\ (1 <= k <= 5)%nat /\ attempt_slept r k d slept = (at_, r')) \/
  (exists k d s ok sink, a = Ensuring k d s /\ (1 <= k <= 5)%nat /\ attempt_ensured r k d s ok = (at_, r', sink)) ->
  match at_ with Some b => (steps_left b < steps_left a)%nat | None => True end.
Proof.
  intros [(k & d & -> & Hk & Hb)|[(k & d & slept & -> & Hk & Hb)|(k & d & s & ok & sink & -> & Hk & Hb)]].
  - unfold attempt_begin in Hb. repeat case_match; simplify_eq; cbn [steps_left]; lia || done.
  - unfold attempt_slept in Hb. repeat case_match; simplify_eq; cbn [steps_left]; lia || done.
  - unfold attempt_ensured in Hb. repeat case_match; simplify_eq; cbn [steps_left]; lia || done.
Qed.

(** C39: C: however often the app-server exits, at most one goroutine recovers it, with
    at most five attempts between waits of at most four seconds, and the adapter
    counts as healthy only when a replacement was initialized in an attempt that
    began after the last exit. *)
Theorem recovery_is_sound w :
  rtc recovery_step not_recovering w ->
  (size (routines w) <= 1)%nat /\
  (forall n a, routines w !! n = Some a -> (attempt_of a <= 6)%nat /\ delay_of a <= codexRecoveryMaxWait /\
     (forall k d s, a = Ensuring k d s -> (k <= 5)%nat)) /\
  (forall c compatible ensured after, AppServerHealthy c (rec w) compatible ensured after = true ->
     routines w = ∅ /\ recovered w = exits w).
Proof.
  intros Hr. assert (Hok : recovery_ok w).
  { eapply (rtc_invariant recovery_step recovery_ok); [|exact Hr|].
    - intros a b Ha Hab. by eapply recovery_step_ok.
    - split; cbn; [by left|unfold max_uint64; lia|done]. }
  destruct Hok as [Hone Hser Hh]. split; [|split].
  - destruct Hone as [[_ ->]|(_ & _ & n & a & -> & _)]; [by rewrite map_size_empty; lia|by rewrite map_size_singleton].
  - intros n a Ha. destruct Hone as [[_ Em]|(_ & _ & m & b & Em & Hb & _)]; [by rewrite Em in Ha|].
    destruct (single_routine _ _ _ _ _ Em Ha) as [-> ->]. destruct Hb as [Hd Hk].
    split; [destruct b; cbn in *; lia|]. split; [lia|]. intros k d s ->. cbn in Hk. lia.
  - intros c compatible ensured after. unfold AppServerHealthy. destruct compatible; [|done]. cbn [negb].
    destruct Hone as [[Er Em]|(Er & _)]; [|by rewrite Er]. destruct (recoveryDegraded (rec w)) eqn:Ed; [by rewrite orb_true_r|].
    intros _. auto.
Qed.

(** ** Streamed output *)

(** The messages of a process: a piece of one, or all of it at its end. *)
Definition piece_or_end (o : AppServerOutput) : Prop := oFinal o = negb (oDelta o).

Lemma parsed_piece_or_end method params o : ParseAppServerOutputNotification method params = Some o -> piece_or_end o.
Proof.
  unfold ParseAppServerOutputNotification, output_delta, output_item, output_error, output_turn, piece_or_end.
  intros Hp. repeat case_match; simplify_eq; done.
Qed.

(** What one message says so far, from the notifications about it alone. *)
Definition about (thread message : string) (o : AppServerOutput) : bool :=
  (String.eqb (oThreadID o) thread && String.eqb (oMessageID o) message)%bool.

Definition said (thread message : string) (history : list AppServerOutput) : string :=
  foldl (fun acc o => if oDelta o then acc +:+ oContent o else "") "" (List.filter (about thread message) history).

Definition plain_thread (o : AppServerOutput) : Prop := contains_byte (byte_of 0) (oThreadID o) = false.

Lemma no_nul_forallb s : contains_byte (byte_of 0) s = false ->
  forallb (fun c => negb (Ascii.eqb c (byte_of 0))) (String.list_ascii_of_string s) = true.
Proof.
  induction s as [|c s IH]; [done|]. cbn [contains_byte String.list_ascii_of_string forallb]. intros [Hc Hs]%orb_false_iff.
  by rewrite Hc, IH.
Qed.

Lemma output_key_about o o' : plain_thread o -> plain_thread o' ->
  bool_decide (output_key o' = output_key o) = about (oThreadID o) (oMessageID o) o'.
Proof.
  intros Hp Hp'. unfold about. destruct (String.eqb_spec (oThreadID o') (oThreadID o)) as [Et|Et];
    destruct (String.eqb_spec (oMessageID o') (oMessageID o)) as [Em|Em]; cbn.
  - apply bool_decide_true. unfold output_key. by rewrite Et, Em.
  - apply bool_decide_false. unfold output_key. rewrite Et. intros H%app_prefix_inj. by injection H.
  - apply bool_decide_false. unfold output_key. intros H.
    apply (delimited_prefix (fun c => negb (Ascii.eqb c (byte_of 0)))) in H as [H _]; [done|by apply no_nul_forallb..|done].
  - apply bool_decide_false. unfold output_key. intros H.
    apply (delimited_prefix (fun c => negb (Ascii.eqb c (byte_of 0)))) in H as [H _]; [done|by apply no_nul_forallb..|done].
Qed.

Lemma entry_insert m k v k' : entry (<[k := v]> m) k' = if bool_decide (k = k') then v else entry m k'.
Proof. unfold entry. case_bool_decide as E; [subst; by rewrite lookup_insert_eq|by rewrite lookup_insert_ne]. Qed.

Lemma entry_delete m k k' : entry (delete k m) k' = if bool_decide (k = k') then "" else entry m k'.
Proof. unfold entry. case_bool_decide as E; [subst; by rewrite lookup_delete_eq|by rewrite lookup_delete_ne]. Qed.

Lemma filter_snoc {A} (p : A -> bool) l x : List.filter p (l ++ [x]) = List.filter p l ++ (if p x then [x] else []).
Proof. rewrite List.filter_app. done. Qed.

(** The table of the adapter says of each message what its own history says. *)
Lemma accumulated history o :
  Forall piece_or_end history -> Forall plain_thread history -> plain_thread o ->
  entry (foldl (fun m x => (accumulate m x).2) ∅ history) (output_key o) = said (oThreadID o) (oMessageID o) history.
Proof.
  intros Hpe Hpl Ho. induction history as [|x history IH] using rev_ind; [done|].
  apply Forall_app in Hpe as [Hpe [Hx _]%Forall_cons]. apply Forall_app in Hpl as [Hpl [Hpx _]%Forall_cons].
  specialize (IH Hpe Hpl). rewrite foldl_app. cbn [foldl]. unfold said in *. rewrite filter_snoc, foldl_app.
  pose proof (output_key_about o x Ho Hpx) as Hk. unfold accumulate, piece_or_end in *.
  destruct (oDelta x) eqn:Ed; [|rewrite Hx]; cbn [negb snd].
  - rewrite entry_insert, Hk. destruct (about _ _ x) eqn:Ea; cbn; [|done]. rewrite Ed. f_equal.
    rewrite <- IH. unfold about in Ea. bool_hyps. apply String.eqb_eq in H, H0. unfold output_key. by rewrite H, H0.
  - rewrite entry_delete, Hk. destruct (about _ _ x) eqn:Ea; cbn; [|done]. by rewrite Ed.
Qed.

(** C: however the pieces of several messages interleave, what the phone gets with
    a piece is the text of that message alone, from its first piece to this one. *)
Theorem streamed_output_is_per_message history o :
  Forall piece_or_end history -> Forall plain_thread history -> plain_thread o -> oDelta o = true ->
  (accumulate (foldl (fun m x => (accumulate m x).2) ∅ history) o).1 = said (oThreadID o) (oMessageID o) (history ++ [o]).
Proof.
  intros Hpe Hpl Ho Hd. unfold said. rewrite filter_snoc, foldl_app. unfold about at 2. rewrite !String.eqb_refl. cbn.
  rewrite Hd. unfold accumulate. rewrite Hd. cbn. f_equal. by apply accumulated.
Qed.

(** ** Concrete runs *)

Module Demo.
#[local] Existing Instance canonical_order.

(** A run of a method with nothing in between, the calls answered from a list. *)
Fixpoint play {A} (m : prog A) (c : CodexAppServer) (rs : list (result raw)) : option (A * CodexAppServer) :=
  match m with
  | Ret a => Some (a, c)
  | Section_ f => let '(m', c') := f c in play m' c' rs
  | Call _ _ k => match rs with r :: rs' => play (k r) c rs' | [] => None end
  | Tick k => play (k None) c rs
  end.

Definition up : CodexAppServer := set_life (ensureProcess NewCodexAppServer (Good 0)).2 1 (Some 0) true true false.
Definition ask (id item : string) (turn : string) : ServerRequest :=
  mkRequest id "item/commandExecution/requestApproval"
    (parse (doc ("{'threadId': 't', 'turnId': '" +:+ turn +:+ "', 'itemId': '" +:+ item +:+ "', 'command': 'x'}"))).

(** Turn [u] asked for [a]; it ended; turn [v] asks for [b]. *)
Definition later_request : CodexAppServer :=
  (TrackServerRequest (completeTurn (TrackServerRequest up (ask "0" "a" "u") 1).2 "t" "u" "completed") (ask "1" "b" "v") 2).2.

(** C: approving a request that is over accepts the one the session waits for now,
    which the phone has not decided. *)
Theorem stale_approval_approves_another :
  HasPendingApproval later_request "a:0" = false /\
  (exists snap, PendingApprovalFor later_request "t" = Some snap /\ asID snap = "b:1" /\ asTurnID snap = "v") /\
  (exists c, Approve later_request "t" "a:0" None None 3 = (AppServer None, c, [(0, Answer (IdNumber 1) (decision "accept"))])).
Proof.
  split; [vm_compute; reflexivity|]. split; [eexists; split; [vm_compute; reflexivity|vm_compute; repeat split]|].
  eexists. vm_compute. reflexivity.
Qed.

(** A thread whose native id is not the id of its session. *)
Definition dual : CodexAppServer := RegisterThreadIDs up "thr" "ses" "ses".
Definition ids_reply : raw := parse (doc "{'thread': {'id': 'thr', 'sessionId': 'ses'}}").
Definition turn_reply : raw := parse (doc "{'turn': {'id': 'u'}}").
Definition completed (c : CodexAppServer) : CodexAppServer :=
  HandleNotification (HandleNotification c "turn/started" (parse (doc "{'threadId': 'thr', 'turn': {'id': 'u'}}")))
    "turn/completed" (parse (doc "{'threadId': 'thr', 'turn': {'id': 'u', 'status': 'completed'}}")).

Definition hello : PromptRequest := mkPromptRequest "hello" [] "".

(** C: a prompt resumes a thread whose native id differs from the session's; when
    its turn has ended the session still counts as running it. *)
Theorem resumed_session_stays_busy :
  exists acts c, play (SendQueuedPrompt true "ses" hello) dual [Good ids_reply; Good turn_reply] = Some ((acts, None), c) /\
    ActiveTurnID (completed c) "thr" = "" /\ LastTurnStatus (completed c) "ses" = "completed" /\
    HasActiveTurn (completed c) "ses" = true.
Proof. eexists _, _. split; [vm_compute; reflexivity|]. vm_compute. repeat split. Qed.

Definition plan_prompt : PromptRequest := mkPromptRequest "hello" [] "plan".
Definition no_modes : raw := parse (doc "{'data': []}").

(** C: a plan prompt that was certainly not started is reported as one that may
    have been, by the direct path; the queue reports it as not started. *)
Theorem definitive_failure_is_reported_indeterminate :
  (exists cause c, play (SendPrompt true true "ses" plan_prompt) dual [Good ids_reply; Good no_modes; Good no_modes] =
     Some (([], Some (BoundaryIndeterminate cause)), c)) /\
  (exists cause c, play (SendQueuedPrompt true "ses" plan_prompt) dual [Good ids_reply; Good no_modes; Good no_modes] =
     Some (([], Some (Plain (ErrPromptNotStarted cause))), c)).
Proof. split; eexists _, _; vm_compute; reflexivity. Qed.

Definition one_exit : recovering :=
  mkRecovering (mkRecovery true true false 1) {[ 0%nat := Attempt 1 250 ]} 1 0.
Definition recovered_once : recovering := mkRecovering (mkRecovery false false false 1) ∅ 1 1.

Lemma recovery_is_sound_witness :
  rtc recovery_step not_recovering recovered_once /\ recovered recovered_once = exits recovered_once.
Proof.
  assert (Hr : rtc recovery_step not_recovering recovered_once).
  { eapply rtc_l; [apply (exit_noted not_recovering 0 (Some (Attempt 1 250)) (mkRecovery true true false 1)); done|].
    eapply rtc_l; [eapply (attempt_started _ 0 1 250); [reflexivity|reflexivity]|].
    eapply rtc_l; [eapply (attempt_awake _ 0 1 250 true); [reflexivity|reflexivity]|].
    eapply rtc_l; [eapply (attempt_done _ 0 1 250 1 true); [reflexivity|reflexivity]|]. apply rtc_refl. }
  split; [exact Hr|]. exact (proj2 (proj2 (proj2 (recovery_is_sound _ Hr)) up true None true eq_refl)).
Defined.

Definition piece (message text : string) : AppServerOutput := mkOutput "t" "u" message "assistant" text true false.

Lemma streamed_output_is_per_message_witness :
  (accumulate (foldl (fun m x => (accumulate m x).2) ∅ [piece "m" "He"; piece "n" "Bye"]) (piece "m" "llo")).1 = "Hello".
Proof.
  rewrite (streamed_output_is_per_message [piece "m" "He"; piece "n" "Bye"] (piece "m" "llo")); [reflexivity| |..].
  - repeat constructor.
  - repeat constructor.
  - reflexivity.
  - reflexivity.
Defined.
End Demo.
