(* ===== verification/DiscoveryCacheSpec.v ===== *)
(** * Theorems about [DiscoveryCache]

    What discovery gets from the cache was read from the file no earlier than
    discovery looked at it; the probe of a long file sees complete records, from
    its beginning and from its end. *)

From stdpp Require Import base tactics list gmap strings relations.
From Stdlib Require Import Ascii ZArith Lia.
From S2P Require Import Prelude GoStrings GoPath DiscoveryCache.

(** ** Freshness *)

Section Fresh.
Context {T : Type}.

(** The versions a file goes through, by its clean path. Each has a fingerprint of
    its own: a file that changed has another size or a later time. *)
Variable version_fp : string -> nat -> fileFingerprint.
Variable version_parse : string -> nat -> res T.
Hypothesis fingerprints_differ : forall k i j, version_fp k i = version_fp k j -> i = j.

(** A [load] that runs: after the [Stat], after the miss, after [parse] read the
    file. *)
Inductive loading : Type :=
  | Statted (path : string) (i : nat)
  | Missed (path : string) (i : nat)
  | Parsed (path : string) (i j : nat).

Record disk : Type := mkDisk {
  current : string -> nat;
  dcache : fileDiscoveryCache T;
  loads : gmap nat loading;
  results : list (string * nat * res T)
}.

Definition key (path : string) : string := normalizedDiscoveryPath path.

Definition bump (f : string -> nat) (k : string) : string -> nat := fun k' => if String.eqb k' k then S (f k') else f k'.

Inductive disk_step : disk -> disk -> Prop :=
  | file_written w k : disk_step w (mkDisk (bump (current w) k) (dcache w) (loads w) (results w))
  | load_statted w n path : loads w !! n = None ->
      disk_step w (mkDisk (current w) (dcache w) (<[n := Statted path (current w (key path))]> (loads w)) (results w))
  | load_hit w n path i r c : loads w !! n = Some (Statted path i) ->
      load_lookup (dcache w) path (version_fp (key path) i) = (Some r, c) ->
      disk_step w (mkDisk (current w) c (delete n (loads w)) (results w ++ [(key path, i, r)]))
  | load_missed w n path i c : loads w !! n = Some (Statted path i) ->
      load_lookup (dcache w) path (version_fp (key path) i) = (None, c) ->
      disk_step w (mkDisk (current w) c (<[n := Missed path i]> (loads w)) (results w))
  | load_parsed w n path i : loads w !! n = Some (Missed path i) ->
      disk_step w (mkDisk (current w) (dcache w) (<[n := Parsed path i (current w (key path))]> (loads w)) (results w))
  | load_stored w n path i j : loads w !! n = Some (Parsed path i j) ->
      disk_step w (mkDisk (current w) (load_store (dcache w) path (version_fp (key path) i) (version_parse (key path) j))
                     (delete n (loads w)) (results w ++ [(key path, i, version_parse (key path) j)]))
  | cache_pruned w p : disk_step w (mkDisk (current w) (keep_entries p (dcache w)) (loads w) (results w)).

Definition empty_disk (f : string -> nat) : disk := mkDisk f newFileDiscoveryCache ∅ [].

Record fresh_ok (w : disk) : Prop := {
  fo_entry : forall k e, entries (dcache w) !! k = Some e ->
    exists i j, fingerprint e = version_fp k i /\ cached e = version_parse k j /\ (i <= j)%nat;
  fo_load : forall n l, loads w !! n = Some l ->
    match l with
    | Statted p i | Missed p i => (i <= current w (key p))%nat
    | Parsed p i j => (i <= j)%nat
    end;
  fo_result : forall k i r, (k, i, r) ∈ results w -> exists j, (i <= j)%nat /\ r = version_parse k j
}.

Lemma bump_le f k k' : (f k' <= bump f k k')%nat.
Proof. unfold bump. case_match; lia. Qed.

Lemma lookup_entries (c c' : fileDiscoveryCache T) path fp r : load_lookup c path fp = (r, c') -> entries c' = entries c.
Proof. unfold load_lookup. case_match; by intros [= <- <-]. Qed.

Lemma disk_step_ok w w' : disk_step w w' -> fresh_ok w -> fresh_ok w'.
Proof.
  intros Hs [He Hl Hr]. destruct Hs as [w k|w n path Hn|w n path i r c Hn Hlk|w n path i c Hn Hlk|w n path i Hn|w n path i j Hn|w p].
  - split; cbn; [done| |done]. intros n l Hn. specialize (Hl n l Hn).
    destruct l as [p i|p i|p i j]; [|..|done]; pose proof (bump_le (current w) k (key p)); lia.
  - split; cbn; [done| |done]. intros m l [[<- <-]|[_ Hm]]%lookup_insert_Some; [lia|by apply (Hl m)].
  - pose proof (lookup_entries _ _ _ _ _ Hlk) as Hent. split; cbn.
    + by rewrite Hent.
    + intros m l [_ Hm]%lookup_delete_Some. by apply (Hl m).
    + intros k i' r' [Hin|[= -> -> ->]]%elem_of_snoc; [by apply Hr|].
      unfold load_lookup, current_entry in Hlk. destruct (entries (dcache w) !! normalizedDiscoveryPath path) as [e|] eqn:Ee; [|done].
      destruct (decide (fingerprint e = version_fp (key path) i)) as [Hfp|]; [|done]. injection Hlk as Hc _.
      destruct (He _ _ Ee) as (i0 & j & Hfp' & Hcached & Hle). exists j. rewrite Hfp' in Hfp.
      apply fingerprints_differ in Hfp. split; [lia|]. by rewrite <- Hc, Hcached.
  - pose proof (lookup_entries _ _ _ _ _ Hlk) as Hent. split; cbn; [by rewrite Hent| |done].
    intros m l [[<- <-]|[_ Hm]]%lookup_insert_Some; [by apply (Hl _ _ Hn)|by apply (Hl m)].
  - split; cbn; [done| |done]. intros m l [[<- <-]|[_ Hm]]%lookup_insert_Some; [by apply (Hl _ _ Hn)|by apply (Hl m)].
  - split; cbn.
    + intros k e [[<- <-]|[_ Hk]]%lookup_insert_Some; [|by apply He]. exists i, j. split; [done|]. split; [done|]. by apply (Hl _ _ Hn).
    + intros m l [_ Hm]%lookup_delete_Some. by apply (Hl m).
    + intros k i' r' [Hin|[= -> -> ->]]%elem_of_snoc; [by apply Hr|]. exists j. split; [by apply (Hl _ _ Hn)|done].
  - split; cbn; [|done|done]. intros k e [Hk _]%map_lookup_filter_Some. by apply He.
Qed.

(** C: when files change while several loads and prunings run, what a load returns
    was parsed from the version its [Stat] saw or a later one. *)
Theorem cached_results_are_fresh f w k i r :
  rtc disk_step (empty_disk f) w -> (k, i, r) ∈ results w -> exists j, (i <= j)%nat /\ r = version_parse k j.
Proof.
  intros Hrun. assert (Hok : fresh_ok w).
  { eapply (rtc_invariant disk_step fresh_ok); [|exact Hrun|].
    - intros a b Ha Hab. by eapply disk_step_ok.
    - split; cbn; try done. intros ? ? ? Hin. by apply elem_of_nil in Hin. }
  by apply (fo_result w Hok).
Qed.
End Fresh.

(** ** The probe *)

Lemma split_byte_at sep s t : split_byte sep (s +:+ String sep t) = split_byte sep s ++ split_byte sep t.
Proof.
  induction s as [|c s IH].
  - change (EmptyString +:+ String sep t) with (String sep t). cbn [split_byte]. by rewrite Ascii.eqb_refl.
  - rewrite string_app_cons. cbn [split_byte]. rewrite IH. destruct (Ascii.eqb c sep); [done|].
    destruct (split_byte sep s) as [|x xs] eqn:E; [by apply split_byte_nonempty in E|done].
Qed.

Lemma records_at s t : records (s +:+ String lf t) = records s ++ records t.
Proof. unfold records. by rewrite split_byte_at, fmap_app, List.filter_app. Qed.

(** A piece that ends where a line does. *)
Definition whole_lines (s : string) : Prop := s = "" \/ exists s', s = s' +:+ String lf "".

Lemma records_app s t : whole_lines s -> records (s +:+ t) = records s ++ records t.
Proof.
  intros [-> |[s' ->]]; [done|]. rewrite <- string_app_assoc.
  change (String lf "" +:+ t) with (String lf t).
  rewrite !records_at. change (records "") with (@nil string). by rewrite app_nil_r.
Qed.

Lemma ends_with_whole s : ends_with lf s = true -> whole_lines s.
Proof.
  induction s as [|c s IH]; [done|]. cbn [ends_with]. destruct s as [|d s].
  - intros ->%Ascii.eqb_eq. right. by exists "".
  - intros H. destruct (IH H) as [|[s' Hs]]; [done|]. right. exists (String c s'). by rewrite string_app_cons, <- Hs.
Qed.

Lemma to_last_newline_split s : exists t, s = to_last_newline s +:+ t.
Proof.
  induction s as [|c s [t IH]]; [by exists ""|]. cbn [to_last_newline].
  destruct (is_empty (to_last_newline s) && negb (Ascii.eqb c lf))%bool; [by exists (String c s)|].
  exists t. rewrite string_app_cons. by rewrite <- IH.
Qed.

Lemma to_last_newline_whole s : whole_lines (to_last_newline s).
Proof.
  induction s as [|c s IH]; [by left|]. cbn [to_last_newline].
  destruct (is_empty (to_last_newline s)) eqn:E; cbn [andb].
  - apply is_empty_true in E. rewrite E. destruct (Ascii.eqb c lf) eqn:Ec; cbn; [|by left].
    apply Ascii.eqb_eq in Ec as ->. right. by exists "".
  - right. destruct IH as [IH|[s' IH]]; [by rewrite IH in E|]. exists (String c s'). by rewrite IH, string_app_cons.
Qed.

Lemma after_newline_split s t : after_newline s = Some t -> exists p, s = (p +:+ String lf "") +:+ t.
Proof.
  revert t. induction s as [|c s IH]; intros t; cbn [after_newline]; [done|]. destruct (Ascii.eqb c lf) eqn:E.
  - apply Ascii.eqb_eq in E as ->. intros [= ->]. by exists "".
  - intros H. destruct (IH t H) as [p ->]. exists (String c p). by rewrite !string_app_cons.
Qed.

(** The head of a file loses at most its last, incomplete record. *)
Lemma split_head s rest : exists more, records (s +:+ rest) = splitProbeLines s false true ++ more.
Proof.
  unfold splitProbeLines. destruct (is_empty s) eqn:E0; [apply is_empty_true in E0 as ->; by exists (records rest)|].
  cbn [negb andb]. destruct (ends_with lf s) eqn:E; cbn [negb].
  - exists (records rest). by apply records_app, ends_with_whole.
  - destruct (to_last_newline_split s) as [t Ht]. pose proof (to_last_newline_whole s) as Hw.
    destruct (is_empty (to_last_newline s)); [by eexists|]. exists (records (t +:+ rest)).
    rewrite Ht at 1. rewrite <- string_app_assoc. by apply records_app.
Qed.

Lemma split_tail s front : exists more, records (front +:+ s) = more ++ splitProbeLines s true false.
Proof.
  unfold splitProbeLines. destruct (after_newline s) as [t|] eqn:E; [|exists (records (front +:+ s)); by rewrite app_nil_r].
  cbn [andb]. apply after_newline_split in E as [p ->]. exists (records (front +:+ p +:+ String lf "")).
  rewrite string_app_assoc. apply records_app. right. exists (front +:+ p). by rewrite string_app_assoc.
Qed.

Lemma length_take_bytes n s : String.length (take_bytes n s) = Nat.min n (String.length s).
Proof. pose proof (len_take_bytes n s) as H. unfold len in H. lia. Qed.

(** Inside the file nothing is padded. *)
Lemma read_at_inside s offset window :
  0 <= offset -> 0 <= window -> offset + window <= len s ->
  read_at s offset window = take_bytes (Z.to_nat window) (drop_bytes (Z.to_nat offset) s).
Proof.
  intros H1 H2 H3. unfold read_at. unfold len in H3. rewrite length_take_bytes, length_drop_bytes.
  replace (Z.to_nat window - _)%nat with O by lia. apply string_app_nil.
Qed.

Lemma probe_window_inside base limit s fromTail :
  0 < base -> 0 < limit ->
  exists w, 0 <= w <= len s /\
    probe_window base limit s (len s) fromTail = take_bytes (Z.to_nat w) (drop_bytes (Z.to_nat (if fromTail then len s - w else 0)) s).
Proof.
  intros Hb Hl. pose proof (len_nonneg s). unfold probe_window.
  case_match; [exists (Z.min base (len s))|exists (Z.min limit (len s))]; (split; [lia|]); apply read_at_inside; destruct fromTail; lia.
Qed.

Lemma take_bytes_all n s : (String.length s <= n)%nat -> take_bytes n s = s.
Proof. revert s. induction n as [|n IH]; intros [|c s] H; cbn in *; [done|lia|done|]. f_equal. apply IH. lia. Qed.

(** C: the probe of a file sees only complete records of it: all of a short file, of
    a long one some from its beginning and some up to its end. *)
Theorem probe_sees_complete_records base limit s :
  0 < base -> 0 < limit ->
  let p := probe_with base limit s (len s) in
  (whole p = true -> head_ p = records s) /\
  (whole p = false -> (exists more, records s = head_ p ++ more) /\ (exists more, records s = more ++ tail_ p)).
Proof.
  intros Hb Hl p. subst p. unfold probe_with. destruct (len s <=? 2 * base) eqn:E; bool_hyps.
  - split; [|done]. intros _. cbn [head_]. unfold splitProbeLines. cbn [andb]. rewrite take_bytes_all; [done|]. unfold len in E. lia.
  - split; [done|]. intros _. cbn [head_ tail_]. split.
    + destruct (probe_window_inside base limit s false Hb Hl) as (w & Hw & ->). cbn [Z.to_nat drop_bytes].
      destruct (split_head (take_bytes (Z.to_nat w) s) (drop_bytes (Z.to_nat w) s)) as [more Hm].
      rewrite take_drop_bytes in Hm. by exists more.
    + destruct (probe_window_inside base limit s true Hb Hl) as (w & Hw & ->).
      rewrite take_bytes_all by (rewrite length_drop_bytes; unfold len in *; lia).
      destruct (split_tail (drop_bytes (Z.to_nat (len s - w)) s) (take_bytes (Z.to_nat (len s - w)) s)) as [more Hm].
      rewrite take_drop_bytes in Hm. by exists more.
Qed.

(** ** Concrete runs *)

Module Demo.
Definition fp (_ : string) (i : nat) : fileFingerprint := mkFingerprint 10 (Z.of_nat i).
Definition parsed (_ : string) (j : nat) : res nat := Ok j.

Lemma fp_differ k i j : fp k i = fp k j -> i = j.
Proof. intros [= H]. lia. Qed.

(** The file changes between the look at it and the reading of it. *)
Definition after_load : disk :=
  mkDisk (bump (fun _ => O) "/f") (load_store (load_lookup newFileDiscoveryCache "/f" (fp "/f" 0)).2 "/f" (fp "/f" 0) (parsed "/f" 1)) ∅
    [("/f", O, Ok 1%nat)].

Lemma cached_results_are_fresh_witness :
  rtc (disk_step fp parsed) (empty_disk (fun _ => O)) after_load /\ exists j, (0 <= j)%nat /\ Ok 1%nat = parsed "/f" j.
Proof.
  assert (Hr : rtc (disk_step fp parsed) (empty_disk (fun _ => O)) after_load).
  { eapply rtc_l; [apply (load_statted _ _ _ 0 "/f"); reflexivity|].
    eapply rtc_l; [eapply (load_missed _ _ _ 0 "/f" 0); [reflexivity|vm_compute; reflexivity]|].
    eapply rtc_l; [apply (file_written _ _ _ "/f")|].
    eapply rtc_l; [apply (load_parsed _ _ _ 0 "/f" 0); reflexivity|].
    eapply rtc_l; [apply (load_stored _ _ _ 0 "/f" 0 1); reflexivity|]. apply rtc_refl. }
  split; [exact Hr|]. apply (cached_results_are_fresh fp parsed fp_differ _ _ "/f" 0 (Ok 1%nat) Hr). by left.
Defined.

Definition file : string := "one" +:+ String lf ("two" +:+ String lf ("three" +:+ String lf "fo")).

Lemma probe_sees_complete_records_witness :
  probe_with 6 100 file (len file) = mkProbe ["one"] ["fo"] false /\
  exists more, records file = ["one"] ++ more.
Proof.
  split; [vm_compute; reflexivity|].
  exact (proj1 (proj2 (probe_sees_complete_records 6 100 file ltac:(done) ltac:(done)) eq_refl)).
Defined.
End Demo.
