(* ===== verification/CodexRolloutSpec.v ===== *)
(** * Theorems about [CodexRollout]

    The session id in the name of a rollout; what a round of discovery shows; how
    much history is fetched. *)

From stdpp Require Import base tactics list gmap strings.
From Stdlib Require Import Ascii ZArith Lia.
From S2P Require Import Prelude GoStrings GoPath Json Protocol JsonDecode DiscoveryCache CodexRollout.
From S2P Require Catalog CodexAppServer CodexAdapter.

(** ** Splitting *)

Lemma length_split_byte sep s : List.length (split_byte sep s) = S (count_bytes (Ascii.eqb sep) s).
Proof.
  induction s as [|c s IH]; [done|]. cbn [split_byte count_bytes]. rewrite (Ascii.eqb_sym sep c).
  destruct (Ascii.eqb c sep); cbn [List.length]; [by rewrite IH|].
  pose proof (split_byte_nonempty sep s). by destruct (split_byte sep s).
Qed.

(** ** Ids *)

Lemma looksLikeUUID_groups s : looksLikeUUID s = true -> List.length (split_byte hyphen s) = 5%nat.
Proof.
  unfold looksLikeUUID. intros H. bool_hyps. rewrite length_split_byte. f_equal. by apply Nat.eqb_eq.
Qed.

(** C: the name codex gives a rollout is read back: whatever stands between the
    prefix and the id, [codexSessionIDFromFilename] finds the id; and what it finds
    in any name has the shape of an id or is empty, so no other part of a name,
    such as its time, is taken for one. *)
Theorem filename_carries_the_session_id (name : string) :
  (forall ts id, name = "rollout-" +:+ ts +:+ "-" +:+ id +:+ ".jsonl" -> looksLikeUUID id = true ->
     codexSessionIDFromFilename name = id) /\
  (codexSessionIDFromFilename name <> "" -> looksLikeUUID (codexSessionIDFromFilename name) = true).
Proof.
  split.
  - intros ts id -> Hid. unfold codexSessionIDFromFilename.
    rewrite !string_app_assoc, trim_suffix_app, <- !string_app_assoc, trim_prefix_app.
    change ("-" +:+ id) with (String hyphen id). rewrite split_byte_join, length_app, (looksLikeUUID_groups id Hid).
    destruct (Nat.leb_spec 5 (List.length (split_byte hyphen ts) + 5)); [|lia].
    replace (_ + 5 - 5)%nat with (List.length (split_byte hyphen ts)) by lia.
    by rewrite drop_app_length, join_split, Hid.
  - unfold codexSessionIDFromFilename. destruct (_ <=? _)%nat; [|done].
    by destruct (looksLikeUUID _) eqn:E.
Qed.

(** ** History *)

Lemma rune_count_app s t : rune_count (s +:+ t) = (rune_count s + rune_count t)%nat.
Proof.
  induction s as [|c s IH]; [done|]. rewrite string_app_cons. cbn [rune_count]. rewrite IH. by destruct (is_continuation c).
Qed.

Lemma rune_count_take n s : (rune_count (take_runes n s) <= n)%nat.
Proof.
  revert n. induction s as [|c s IH]; intros n; cbn [take_runes]; [cbn; lia|].
  destruct (is_continuation c) eqn:E; [cbn [rune_count]; rewrite E; apply IH|].
  destruct n as [|n]; [done|]. cbn [rune_count]. rewrite E. specialize (IH n). lia.
Qed.

(** A byte that starts no character counts as one, as does what replaces it. *)
Lemma rune_count_coerce k s : (rune_count s <= rune_count (coerce_from k s))%nat.
Proof.
  revert k. induction s as [|c s IH]; intros k; [done|]. cbn [coerce_from rune_count].
  destruct k as [|k]; [destruct (rune_width (String c s)) as [|k]|].
  - rewrite rune_count_app. change (rune_count replacement_char) with 1%nat. specialize (IH O). destruct (is_continuation c); lia.
  - cbn [rune_count]. specialize (IH k). destruct (is_continuation c); lia.
  - cbn [rune_count]. specialize (IH k). destruct (is_continuation c); lia.
Qed.

Lemma truncateRunes_bound s max : max <> O -> (rune_count (truncateRunes s max) <= S max)%nat.
Proof.
  intros Hm. unfold truncateRunes. destruct (Nat.eqb_spec max 0); [done|]. cbn [orb].
  destruct (is_empty s) eqn:E; [apply is_empty_true in E; subst; cbn; lia|].
  case_match eqn:Hle.
  - apply Nat.leb_le in Hle. pose proof (rune_count_coerce O s). unfold coerceUTF8 in Hle. lia.
  - rewrite rune_count_app. change (rune_count ellipsis) with 1%nat. pose proof (rune_count_take max (coerceUTF8 s)). lia.
Qed.

Lemma truncateRunes_nonempty s max : s <> "" -> truncateRunes s max <> "".
Proof.
  intros Hs. unfold truncateRunes. case_match; [done|]. case_match; [done|].
  intros E. by destruct (take_runes max (coerceUTF8 s)).
Qed.

Lemma clampHistoryLimit_range n : 1 <= clampHistoryLimit n <= 50 /\ (0 < n -> clampHistoryLimit n = Z.min n 40) /\
  clampHistoryLimit (clampHistoryLimit n) <= 40.
Proof. unfold clampHistoryLimit. repeat case_match; bool_hyps; lia. Qed.

Lemma takeLastHistory_suffix msgs n :
  exists older, msgs = older ++ takeLastHistory msgs n /\
    Z.of_nat (List.length (takeLastHistory msgs n)) = Z.min (Z.of_nat (List.length msgs)) (clampHistoryLimit n).
Proof.
  pose proof (clampHistoryLimit_range n) as [Hn _]. unfold takeLastHistory. cbv zeta.
  destruct (Z.leb_spec (Z.of_nat (List.length msgs)) (clampHistoryLimit n)).
  - exists []. split; [done|lia].
  - eexists. split; [symmetry; apply take_drop|]. rewrite length_drop. lia.
Qed.

(** ** The newest of each id *)

(** Of each id the newest is kept. *)
Lemma keep_newest_from l m i s :
  foldl keep_newest m l !! i = Some s -> m !! i = Some s \/ s ∈ l /\ sID s = i.
Proof.
  revert m. induction l as [|a l IH]; intros m Hi; [by left|]. cbn [foldl] in Hi.
  destruct (IH _ Hi) as [Hm|[Hin Hid]]; [|right; set_solver].
  unfold keep_newest in Hm. repeat case_match; try (by left);
    (destruct (decide (sID a = i)) as [<-|Hne];
      [rewrite lookup_insert_eq in Hm; injection Hm as <-; right; set_solver|rewrite lookup_insert_ne in Hm by done; by left]).
Qed.

Lemma keep_newest_step m a i s :
  m !! i = Some s -> exists s', keep_newest m a !! i = Some s' /\ sLastActivity s <= sLastActivity s'.
Proof.
  intros Hi. unfold keep_newest. destruct (decide (sID a = i)) as [<-|Hne].
  - rewrite Hi. destruct (Z.ltb_spec (sLastActivity s) (sLastActivity a)).
    + exists a. rewrite lookup_insert_eq. split; [done|lia].
    + exists s. split; [done|lia].
  - exists s. split; [|lia]. repeat case_match; rewrite ?lookup_insert_ne by done; done.
Qed.

Lemma keep_newest_mono l m i s :
  m !! i = Some s -> exists s', foldl keep_newest m l !! i = Some s' /\ sLastActivity s <= sLastActivity s'.
Proof.
  revert m s. induction l as [|a l IH]; intros m s Hi; [exists s; split; [done|lia]|]. cbn [foldl].
  destruct (keep_newest_step m a i s Hi) as (s1 & H1 & Hle1). destruct (IH _ _ H1) as (s2 & H2 & Hle2). exists s2. split; [done|lia].
Qed.

Lemma keep_newest_all l m s :
  s ∈ l -> exists s', foldl keep_newest m l !! sID s = Some s' /\ sLastActivity s <= sLastActivity s'.
Proof.
  revert m. induction l as [|a l IH]; intros m Hs; [by apply not_elem_of_nil in Hs|]. cbn [foldl].
  apply elem_of_cons in Hs as [->|Hs]; [|by apply IH].
  assert (exists s', keep_newest m a !! sID a = Some s' /\ sLastActivity a <= sLastActivity s') as (s1 & H1 & Hle).
  { unfold keep_newest. destruct (m !! sID a) as [p|] eqn:E; [destruct (Z.ltb_spec (sLastActivity p) (sLastActivity a))|];
      rewrite ?lookup_insert_eq, ?E; eexists; (split; [done|lia]). }
  destruct (keep_newest_mono l _ _ _ H1) as (s2 & H2 & Hle2). exists s2. split; [done|lia].
Qed.

Section Spec.
Context `{GoTime} `{MapOrder}.

Lemma history_entry_bounds line role content t :
  history_entry line = Some (role, content, t) ->
  (role = "user" \/ role = "assistant") /\ content <> "" /\ (rune_count content <= 4001)%nat.
Proof.
  unfold history_entry. intros He. apply bind_Some in He as (msg & _ & He). apply bind_Some in He as (payload & _ & He).
  cbv zeta in He. apply bind_Some in He as (r & Hr & He).
  destruct (_ || _ || _)%bool eqn:E in He; [done|]. injection He as <- <- <-.
  split_and!.
  - repeat case_match; simplify_eq; auto.
  - apply truncateRunes_nonempty. intros E0. by rewrite E0 in E.
  - by apply (truncateRunes_bound _ 4000).
Qed.

(** C: however much history is asked for, at most 40 messages are answered, at most
    [limit] when that is positive: they are the last ones of the rollout, in its
    order, with none left out between them; each is a text of the user or of the
    assistant that is not empty and has at most 4000 characters and the mark of the
    cut. *)
Theorem history_is_the_bounded_end owned path s now sessionID limit msgs failed :
  FetchHistory owned path (Ok s) now sessionID limit = Ok (msgs, failed) ->
  let all := imap (history_message sessionID now) (omap history_entry (scan_lines historyLimit s).1) in
  (exists older, all = older ++ msgs) /\
  Z.of_nat (List.length msgs) = Z.min (Z.of_nat (List.length all)) (if limit <=? 0 then 40 else Z.min limit 40) /\
  Forall (fun m => (hRole m = "user" \/ hRole m = "assistant") /\ hContent m <> "" /\ (rune_count (hContent m) <= 4001)%nat) msgs.
Proof.
  unfold FetchHistory. cbv zeta. destruct (_ || _)%bool; [done|]. cbn [mbind res_bind].
  destruct (scan_lines historyLimit s) as [lines e]. cbn [fst].
  set (all := imap _ _). intros [= <- <-].
  destruct (takeLastHistory_suffix all (clampHistoryLimit limit)) as (older & Ho & Hlen).
  split_and!; [by exists older| |].
  - rewrite Hlen. f_equal. unfold clampHistoryLimit. repeat case_match; bool_hyps; lia.
  - apply Forall_forall. intros m Hm.
    assert (m ∈ all) as Hall by (rewrite Ho; set_solver). clear Ho Hlen Hm.
    apply elem_of_lookup_imap in Hall as (i & [[role content] t] & -> & He).
    apply list_elem_of_lookup_2 in He. apply list_elem_of_omap in He as (line & _ & He). by apply history_entry_bounds in He.
Qed.

(** ** A round of discovery *)

Lemma load_miss {T} (c : fileDiscoveryCache T) path fp parse :
  entries c !! normalizedDiscoveryPath path = None ->
  (load c path fp parse).1 = parse /\
  entries (load c path fp parse).2 = <[normalizedDiscoveryPath path := mkCacheEntry fp parse]> (entries c).
Proof. intros Hn. unfold load, load_lookup, current_entry. by rewrite Hn. Qed.

Lemma overlay_keeps app s :
  sID (overlay app s) = sID s /\ sLastActivity (overlay app s) = sLastActivity s /\ sSessionPath (overlay app s) = sSessionPath s.
Proof.
  unfold overlay. destruct app as [c|]; [|done]. by destruct (CodexAdapter.ApplyAppServerOverlay _ _ _ _ _) as [[? ?] ?].
Qed.

Section Round.
Variable now : Z.
Variable app : option CodexAppServer.CodexAppServer.
Variable running : string -> bool.

Notation key f := (normalizedDiscoveryPath (wPath f)).

Definition option_of {A} (r : res A) : option A := match r with Ok a => Some a | Err _ => None end.

(** The session in a file that no cache knows: the whole rollout when it is
    recent, the probe when it is old. *)
Definition file_session (f : walked) : option SessionInfo :=
  if old_file now f
  then option_of (probeOldRolloutAttention newFileDiscoveryCache (wPath f) (wInfo f) (wContent f) running).1
  else option_of (parseRolloutFile newFileDiscoveryCache (wPath f) (wInfo f) (wContent f) now running).1.

Definition shown (f : walked) : option SessionInfo :=
  if is_rollout f then
    s ← file_session f;
    if sessionIsVisible (sStatus (overlay app s)) (sLastActivity (overlay app s)) now then Some (overlay app s) else None
  else None.

Lemma parseRolloutFile_miss c f :
  entries c !! key f = None ->
  exists e, parseRolloutFile c (wPath f) (wInfo f) (wContent f) now running =
    ((parseRolloutFile newFileDiscoveryCache (wPath f) (wInfo f) (wContent f) now running).1, e) /\
  dom (entries e) = {[key f]} ∪ dom (entries c).
Proof.
  intros Hn. unfold parseRolloutFile.
  destruct (load_miss c (wPath f) (wInfo f)
              (parseRolloutFileUncached (wPath f) (wContent f) (modifiedUnixNS (wInfo f)) now running) Hn) as [H1 H2].
  destruct (load c _ _ _) as [r e]. cbn [fst snd] in H1, H2. subst r. eexists. split; [done|]. rewrite H2. apply dom_insert_L.
Qed.

Lemma probeOld_miss c f :
  entries c !! key f = None ->
  exists e, probeOldRolloutAttention c (wPath f) (wInfo f) (wContent f) running =
    ((probeOldRolloutAttention newFileDiscoveryCache (wPath f) (wInfo f) (wContent f) running).1, e) /\
  dom (entries e) = {[key f]} ∪ dom (entries c).
Proof.
  intros Hn. unfold probeOldRolloutAttention.
  set (parse := (_ ≫= _ : res SessionInfo)).
  destruct (load_miss c (wPath f) (wInfo f) parse Hn) as [H1 H2].
  destruct (load c _ _ _) as [r e]. cbn [fst snd] in H1, H2. subst r. eexists. split; [done|]. rewrite H2. apply dom_insert_L.
Qed.

(** One file that the caches do not know. *)
Lemma visit_cold d f :
  entries (discoveryCache d) !! key f = None -> entries (attentionCache d) !! key f = None ->
  byID (visit now app running d f) = match shown f with Some s => keep_newest (byID d) s | None => byID d end /\
  keep (visit now app running d f) =
    (if (is_rollout f && (negb (old_file now f) || bool_decide (is_Some (shown f))))%bool then {[key f]} ∪ keep d else keep d) /\
  dom (entries (discoveryCache (visit now app running d f))) ⊆ {[key f]} ∪ dom (entries (discoveryCache d)) /\
  dom (entries (attentionCache (visit now app running d f))) ⊆ {[key f]} ∪ dom (entries (attentionCache d)).
Proof.
  intros Hd Ha. unfold visit, shown. destruct (is_rollout f); cbn [negb andb]; [|split_and!; [done|done|set_solver|set_solver]].
  unfold read_session, file_session. destruct (old_file now f); cbn [negb orb].
  - unfold peek, current_entry. rewrite Hd. destruct (probeOld_miss _ f Ha) as (e & -> & Hdom).
    destruct (probeOldRolloutAttention newFileDiscoveryCache _ _ _ _).1 as [s|m]; cbn [option_of mbind option_bind].
    + destruct (sessionIsVisible _ _ _); cbn [byID keep discoveryCache attentionCache]; split_and!; try done; set_solver.
    + cbn [byID keep discoveryCache attentionCache]. split_and!; try done; set_solver.
  - edestruct (parseRolloutFile_miss (discoveryCache (mkDiscovery (discoveryCache d) (attentionCache d) ({[key f]} ∪ keep d) (byID d))) f Hd)
      as (e & He & Hdom).
    cbn [discoveryCache attentionCache keep byID] in He |- *. rewrite He. cbn [discoveryCache] in Hdom.
    destruct (parseRolloutFile newFileDiscoveryCache _ _ _ _ _).1 as [s|m]; cbn [option_of mbind option_bind].
    + destruct (sessionIsVisible _ _ _); cbn [byID keep discoveryCache attentionCache]; split_and!; try done; set_solver.
    + cbn [byID keep discoveryCache attentionCache]. split_and!; try done; set_solver.
Qed.

Lemma visits_cold fs d :
  NoDup ((fun f => key f) <$> fs) ->
  (forall f, f ∈ fs -> entries (discoveryCache d) !! key f = None /\ entries (attentionCache d) !! key f = None) ->
  byID (foldl (visit now app running) d fs) = foldl keep_newest (byID d) (omap shown fs) /\
  (forall k, k ∈ keep (foldl (visit now app running) d fs) ->
     k ∈ keep d \/ exists f, f ∈ fs /\ key f = k /\ is_rollout f = true /\ (old_file now f = false \/ is_Some (shown f))).
Proof.
  revert d. induction fs as [|f fs IH]; intros d Hnd Hcold; [split; [done|by left]|].
  apply NoDup_cons in Hnd as [Hf Hnd].
  destruct (Hcold f) as [Hd Ha]; [set_solver|].
  destruct (visit_cold d f Hd Ha) as (Hby & Hkeep & Hdd & Hda). cbn [foldl].
  destruct (IH (visit now app running d f) Hnd) as [IH1 IH2].
  { intros g Hg. assert (key g <> key f) as Hne by (intros E; apply Hf; rewrite <- E; exact (list_elem_of_fmap_2 (fun f => key f) fs g Hg)).
    destruct (Hcold g) as [Hgd Hga]; [set_solver|].
    split; apply not_elem_of_dom; [intros Hin; apply Hdd in Hin|intros Hin; apply Hda in Hin];
      apply elem_of_union in Hin as [Hin|Hin]; try (by apply elem_of_singleton in Hin); by apply elem_of_dom in Hin as [? Hin]; simplify_eq. }
  split.
  - rewrite IH1, Hby. cbn [omap list_omap]. by destruct (shown f).
  - intros k Hk. destruct (IH2 k Hk) as [Hin|(g & Hg & Hrest)]; [|right; exists g; set_solver].
    rewrite Hkeep in Hin. destruct (is_rollout f) eqn:Er; [|by left]. cbn [andb] in Hin.
    destruct (_ || _)%bool eqn:Eb in Hin; [|by left].
    apply elem_of_union in Hin as [Hin|Hin]; [|by left]. apply elem_of_singleton in Hin as ->.
    right. exists f. split_and!; [set_solver|done|done|].
    apply orb_prop in Eb as [Eb|Eb]; [left; by apply negb_true_iff|right; by apply bool_decide_eq_true in Eb].
Qed.
Lemma shown_inv f s :
  shown f = Some s ->
  is_rollout f = true /\ overlay app <$> file_session f = Some s /\ sessionIsVisible (sStatus s) (sLastActivity s) now = true.
Proof.
  unfold shown. destruct (is_rollout f); [|done]. destruct (file_session f) as [s0|]; [|done]. cbn [mbind option_bind].
  destruct (sessionIsVisible _ _ _) eqn:E; [|done]. by intros [= <-].
Qed.

(** C: a first round of discovery, its caches empty, over files with paths of their
    own. What is shown under an id is the session of a rollout that was walked,
    with the live state of the app-server laid over it, and it is visible; no
    rollout is passed over: each visible session is shown, or another one of its id
    that was active no earlier. Its path is where its history is read. What the
    cache keeps afterwards are files that are recent or that are shown, so it does
    not grow with the files of the past. *)
Theorem discovery_shows_the_newest exists_ lastPaths fs m dc ac paths :
  NoDup ((fun f => key f) <$> fs) ->
  Discover now app running newFileDiscoveryCache newFileDiscoveryCache exists_ lastPaths (Some fs) = (m, dc, ac, paths) ->
  (forall i s, m !! i = Some s -> sID s = i /\ sessionIsVisible (sStatus s) (sLastActivity s) now = true /\
     paths !! i = Some (sSessionPath s) /\ exists f, f ∈ fs /\ is_rollout f = true /\ overlay app <$> file_session f = Some s) /\
  (forall f s, f ∈ fs -> is_rollout f = true -> file_session f = Some s ->
     sessionIsVisible (sStatus (overlay app s)) (sLastActivity s) now = true ->
     exists s', m !! sID s = Some s' /\ sLastActivity s <= sLastActivity s') /\
  (forall k, k ∈ dom (entries dc) ->
     exists f, f ∈ fs /\ key f = k /\ (old_file now f = false \/ exists s, file_session f = Some s /\ m !! sID s <> None)).
Proof.
  intros Hnd. unfold Discover. cbv zeta. intros [= <- <- _ <-].
  destruct (visits_cold fs (mkDiscovery newFileDiscoveryCache newFileDiscoveryCache ∅ ∅) Hnd) as [Hby Hkeep]; [done|].
  set (d := foldl _ _ _) in *. cbn [byID keep] in Hby, Hkeep.
  assert (forall f s, f ∈ fs -> is_rollout f = true -> file_session f = Some s ->
     sessionIsVisible (sStatus (overlay app s)) (sLastActivity s) now = true ->
     exists s', byID d !! sID s = Some s' /\ sLastActivity s <= sLastActivity s') as Hall.
  { intros f s Hf Hr Hs Hv. destruct (overlay_keeps app s) as (Hi & Ha & _). rewrite <- Hi, <- Ha, Hby.
    apply keep_newest_all. apply list_elem_of_omap. exists f. split; [done|]. unfold shown. rewrite Hr, Hs. cbn [mbind option_bind].
    by rewrite Ha, Hv. }
  split_and!.
  - intros i s Hi. rewrite lookup_union_l' by (rewrite lookup_fmap, Hi; by eexists). rewrite lookup_fmap, Hi.
    rewrite Hby in Hi. destruct (keep_newest_from _ _ _ _ Hi) as [Hin|[Hin Hid]]; [done|].
    apply list_elem_of_omap in Hin as (f & Hf & Hs). destruct (shown_inv f s Hs) as (Hr & Hfs & Hv). split_and!; [done|done|done|by exists f].
  - exact Hall.
  - intros k Hk. apply elem_of_dom in Hk as [e He]. unfold prune, keep_entries in He. cbn [entries] in He.
    apply map_lookup_filter_Some in He as [_ He]. cbn [fst] in He. apply bool_decide_eq_true in He.
    destruct (Hkeep k He) as [?|(f & Hf & Hkf & Hr & [Ho|[s Hs]])]; [done|exists f; auto|].
    exists f. split_and!; [done|done|right]. destruct (shown_inv f s Hs) as (_ & Hfs & Hv).
    destruct (file_session f) as [s0|] eqn:E0; [|done]. injection Hfs as <-. exists s0. split; [done|].
    destruct (overlay_keeps app s0) as (Hi & Ha & _). rewrite Ha in Hv. destruct (Hall f s0 Hf Hr E0 Hv) as (s' & Hs' & _). by rewrite Hs'.
Qed.
End Round.
End Spec.

(** ** Concrete runs *)

Module Demo.
#[local] Existing Instance canonical_order.

(** Times as whole seconds. *)
#[local] Instance seconds : GoTime := { time_Parse _ s := if String.eqb s "" then None else Some (Z.of_nat (String.length s) * second) }.

Definition id : string := "019f98b9-787f-7573-9d8e-9d308b04aaf6".
Definition path (ts : string) : string := "/s/2026/07/25/rollout-" +:+ ts +:+ "-" +:+ id +:+ ".jsonl".

Lemma filename_carries_the_session_id_witness :
  looksLikeUUID id = true /\ codexSessionIDFromFilename ("rollout-2026-07-25T18-02-04-" +:+ id +:+ ".jsonl") = id.
Proof.
  split; [vm_compute; reflexivity|].
  exact (proj1 (filename_carries_the_session_id _) "2026-07-25T18-02-04" id eq_refl eq_refl).
Defined.

Definition line (t type payload : string) : string :=
  doc ("{'timestamp': '" +:+ t +:+ "', 'type': '" +:+ type +:+ "', 'payload': " +:+ payload +:+ "}") +:+ String lf "".

Definition said (role text : string) : string :=
  line "xx" "event_msg" ("{'type': '" +:+ role +:+ "_message', 'message': '" +:+ text +:+ "'}").

Definition chat : string := said "user" "hi" +:+ said "agent" " " +:+ said "agent" "hello" +:+ "{".

Lemma history_is_the_bounded_end_witness :
  FetchHistory true "/p" (Ok chat) 0 "s" 1 = Ok ([mkHistory "codex_s_2" "assistant" "hello" "text" 2], false) /\
  exists older, imap (history_message "s" 0) (omap history_entry (scan_lines historyLimit chat).1) =
    older ++ [mkHistory "codex_s_2" "assistant" "hello" "text" 2].
Proof.
  assert (H : FetchHistory true "/p" (Ok chat) 0 "s" 1 = Ok ([mkHistory "codex_s_2" "assistant" "hello" "text" 2], false))
    by (vm_compute; reflexivity).
  split; [exact H|]. exact (proj1 (history_is_the_bounded_end true "/p" chat 0 "s" 1 _ false H)).
Defined.

(** Two rollouts of one session and one of another that is old. *)
Definition days (n : Z) : Z := n * 24 * 3600 * second.
Definition meta (i cwd : string) : string := line "x" "session_meta" ("{'id': '" +:+ i +:+ "', 'cwd': '" +:+ cwd +:+ "'}").
Definition rollout_file (ts : string) (mod_ : Z) (content : string) : walked :=
  mkWalked (path ts) false (mkFingerprint (len content) mod_) (Ok content).

Definition files : list walked :=
  [rollout_file "1" (days 9) (meta "a" "/w" +:+ said "agent" "first");
   rollout_file "2" (days 10) (meta "a" "/w" +:+ said "agent" "second");
   rollout_file "3" (days 1) (meta "b" "/w" +:+ said "agent" "long ago")].

Definition second_session : SessionInfo := mkSession "a" "idle" "second" (days 10) (path "2") "/w" None None.

Lemma discovery_shows_the_newest_witness :
  NoDup ((fun f => normalizedDiscoveryPath (wPath f)) <$> files) /\
  (exists dc ac paths,
     Discover (days 11) None (fun _ => false) newFileDiscoveryCache newFileDiscoveryCache (fun _ => true) ∅ (Some files)
     = ({["a" := second_session]}, dc, ac, paths) /\
     paths !! "a" = Some (path "2")).
Proof.
  assert (Hnd : NoDup ((fun f => normalizedDiscoveryPath (wPath f)) <$> files)).
  { apply (bool_decide_unpack _). vm_compute. exact I. }
  split; [exact Hnd|].
  destruct (Discover (days 11) None (fun _ => false) newFileDiscoveryCache newFileDiscoveryCache (fun _ => true) ∅ (Some files))
    as [[[m dc] ac] paths] eqn:E.
  exists dc, ac, paths.
  assert (m = {["a" := second_session]}) as ->.
  { transitivity (Discover (days 11) None (fun _ => false) newFileDiscoveryCache newFileDiscoveryCache (fun _ => true) ∅ (Some files)).1.1.1;
      [by rewrite E|vm_compute; reflexivity]. }
  split; [reflexivity|].
  refine (proj1 (proj2 (proj2 (proj1 (discovery_shows_the_newest (days 11) None (fun _ => false) (fun _ => true) ∅ files _ dc ac paths Hnd E)
           "a" second_session _)))). reflexivity.
Defined.

(** A rollout whose task ended with a request for an approval unanswered. *)
Definition unanswered : string :=
  meta "a" "/w" +:+ line "x" "event_msg" "{'type': 'approval_request', 'tool_name': 'shell'}"
  +:+ line "x" "event_msg" "{'type': 'task_complete'}".

(** C: the two readers of a rollout do not agree: to the one for recent files the
    session waits for an approval for ever, to the one for old files the end of the
    task is the end of the request. *)
Theorem rollout_readers_disagree :
  let f := rollout_file "1" (days 9) unanswered in
  (sStatus <$> file_session (days 9) (fun _ => false) f) = Some "waiting_approval" /\
  (sStatus <$> file_session (days 20) (fun _ => false) f) = Some "idle".
Proof. vm_compute. done. Qed.

(** C: the limit that stands for none given, 50, is cut to 40 on the way. *)
Lemma default_history_limit_is_never_met :
  clampHistoryLimit 0 = 50 /\ forall msgs, (List.length (takeLastHistory msgs (clampHistoryLimit 0)) <= 40)%nat.
Proof.
  split; [done|]. intros msgs. destruct (takeLastHistory_suffix msgs (clampHistoryLimit 0)) as (_ & _ & Hl).
  change (clampHistoryLimit (clampHistoryLimit 0)) with 40 in Hl. lia.
Qed.
End Demo.
