(* ===== verification/ClaudeAdapterSpec.v ===== *)
(** * Theorems about [ClaudeCommander] and [ClaudeAdapter]

    One process per session; every end of a turn is the end of the process its
    prompt started; what discovery shows and how much history is fetched. *)

From stdpp Require Import base tactics list gmap strings.
From Stdlib Require Import Ascii ZArith Lia.
From S2P Require Import Prelude GoStrings GoPath Json Protocol JsonDecode DiscoveryCache CodexRollout ClaudeAdapter.
From S2P Require StartThread CodexAppServer ActiveTurn ClaudeCommander CodexRolloutSpec.

Abbreviation heap w := (ClaudeCommander.heap (commander w)).
Abbreviation table w := (ClaudeCommander.executors (commander w)).
Abbreviation next w := (ClaudeCommander.nextID (commander w)).

(** ** Runs *)

Inductive run : list event -> adapter -> adapter -> Prop :=
  | run_nil w : run [] w w
  | run_snoc evs ev w1 w2 w3 : run evs w1 w2 -> step ev w2 = Some w3 -> run (evs ++ [ev]) w1 w3.

(** ** What a step does to the processes *)

(** The processes the adapter knows: those with a stage are those in the heap, with
    an origin; [Alive] ones run. *)
Definition processes_ok (w : adapter) : Prop :=
  forall p, match heap w !! p with
            | Some e => (p < next w)%nat /\ is_Some (origins w !! p) /\
                        exists s, stages w !! p = Some s /\ (ClaudeCommander.running e = true <-> s = Alive) /\
                          (s = Alive -> table w !! ClaudeCommander.session e = Some p)
            | None => stages w !! p = None
            end.

(** How a step relates the processes before and after it: a process keeps its
    session and its origin; what was reaped keeps its exit. *)
Definition processes_step (w w' : adapter) : Prop :=
  forall p e, heap w !! p = Some e ->
    exists e', heap w' !! p = Some e' /\ ClaudeCommander.session e' = ClaudeCommander.session e /\ origins w' !! p = origins w !! p /\
      (stages w !! p <> Some Alive -> e' = e) /\
      (stages w !! p = Some Reported -> stages w' !! p = Some Reported).

Lemma processes_step_refl w : processes_step w w.
Proof. intros p e He. by exists e. Qed.

Lemma processes_same w w' : commander w' = commander w -> stages w' = stages w -> origins w' = origins w ->
  processes_step w w' /\ (processes_ok w -> processes_ok w').
Proof.
  intros Ec Es Eo. split; [intros p e He; exists e; by rewrite Ec, Es, Eo|]. unfold processes_ok. by rewrite Ec, Es, Eo.
Qed.

(** A step that leaves the processes alone. *)
Lemma processes_kept w w' : commander w' = commander w -> stages w' = stages w -> origins w' = origins w -> processes_ok w ->
  processes_step w w' /\ processes_ok w'.
Proof. intros Ec Es Eo Hok. destruct (processes_same w w' Ec Es Eo). auto. Qed.

Lemma processes_update w p e e' s :
  heap w !! p = Some e -> stages w !! p = Some Alive -> (s = Alive \/ s = Reaped) ->
  ClaudeCommander.session e' = ClaudeCommander.session e -> (ClaudeCommander.running e' = true <-> s = Alive) ->
  let w' := set_stage (set_commander w (ClaudeCommander.set_executor (commander w) p e')) p s in
  processes_step w w' /\ (processes_ok w -> processes_ok w').
Proof.
  intros He Hs Hs' Hse Hr. cbn zeta. split.
  - intros q f Hq. cbn. destruct (decide (q = p)) as [->|Hne].
    + rewrite lookup_insert_eq. exists e'. rewrite He in Hq. injection Hq as <-. by rewrite Hs.
    + rewrite !lookup_insert_ne by done. by exists f.
  - intros Hok q. specialize (Hok q). cbn. destruct (decide (q = p)) as [->|Hne].
    + rewrite !lookup_insert_eq. rewrite He in Hok. destruct Hok as (Hn & Ho & s0 & Hs0 & Hrun & Ht). split; [done|]. split; [done|].
      exists s. split; [done|]. split; [done|]. intros ->. rewrite Hse. apply Ht. congruence.
    + by rewrite !lookup_insert_ne by done.
Qed.

Lemma processes_stage w p s s' :
  stages w !! p = Some s -> s <> Alive -> s' <> Alive -> s <> Reported ->
  processes_step w (set_stage w p s') /\ (processes_ok w -> processes_ok (set_stage w p s')).
Proof.
  intros Hs Ha Ha' Hr. split.
  - intros q f Hq. exists f. cbn. repeat split; try done. intros Hq'. destruct (decide (q = p)) as [->|Hne]; [congruence|].
    by rewrite lookup_insert_ne.
  - intros Hok q. specialize (Hok q). cbn. destruct (decide (q = p)) as [->|Hne]; [|by rewrite lookup_insert_ne].
    rewrite lookup_insert_eq. rewrite Hs in Hok. destruct (heap w !! p) as [e|]; [|done].
    destruct Hok as (Hn & Ho & s0 & [= <-] & Hrun & Ht). split; [done|]. split; [done|]. exists s'. split; [done|].
    split; [|by intros ->]. split; [intros Hx; by apply Hrun in Hx|by intros ->].
Qed.

Lemma startPromptInDir_ok launch sid args wd c p c' :
  ClaudeCommander.startPromptInDir launch sid args wd c = (Ok p, c') ->
  ClaudeCommander.IsSessionRunning c sid = false /\ p = ClaudeCommander.nextID c /\
  exists e, ClaudeCommander.session e = sid /\ ClaudeCommander.running e = true /\
    c' = ClaudeCommander.mkCommander (<[p := e]> (ClaudeCommander.heap c)) (<[sid := p]> (ClaudeCommander.executors c)) (S p).
Proof.
  unfold ClaudeCommander.startPromptInDir. destruct (ClaudeCommander.IsSessionRunning c sid); [done|].
  destruct (ClaudeCommander.synthetic_id sid); [done|]. unfold ClaudeCommander.StartWithDir. cbn [ClaudeCommander.running ClaudeCommander.NewAgentExecutor].
  destruct (launch args wd) as [u|e]; cbn [mbind res_bind]; [|done]. intros [= <- <-]. split; [done|]. split; [done|]. eexists. split; [|split; [|done]]; done.
Qed.

Lemma startPromptInDir_err launch sid args wd c e c' :
  ClaudeCommander.startPromptInDir launch sid args wd c = (Err e, c') -> c' = c.
Proof.
  unfold ClaudeCommander.startPromptInDir. destruct (ClaudeCommander.IsSessionRunning c sid); [by intros [= _ <-]|].
  destruct (ClaudeCommander.synthetic_id sid); [by intros [= _ <-]|]. destruct (ClaudeCommander.StartWithDir _ _); [done|by intros [= _ <-]].
Qed.

Lemma next_is_fresh w : processes_ok w -> heap w !! next w = None.
Proof. intros Hok. specialize (Hok (next w)). destruct (heap w !! next w); [lia|done]. Qed.

Lemma processes_launch w launch sid args wd p c' origin :
  processes_ok w -> ClaudeCommander.startPromptInDir launch sid args wd (commander w) = (Ok p, c') ->
  processes_step w (add_process w c' p origin) /\ processes_ok (add_process w c' p origin).
Proof.
  intros Hok E. apply startPromptInDir_ok in E as (Hr & -> & e & Hse & Hre & ->).
  pose proof (next_is_fresh w Hok) as Hf. split.
  - intros q f Hq. assert (q <> next w) as Hne by (intros ->; congruence). exists f. cbn. rewrite !lookup_insert_ne by done. done.
  - intros q. cbn. destruct (decide (q = next w)) as [->|Hne].
    + rewrite !lookup_insert_eq. split; [lia|]. split; [by eexists|]. exists Alive. rewrite Hre, Hse, lookup_insert_eq. done.
    + rewrite !lookup_insert_ne by done. specialize (Hok q). destruct (heap w !! q) as [f|] eqn:Hq; [|done].
      destruct Hok as (Hn & Ho & s & Hs & Hrun & Ht). split; [lia|]. split; [done|]. exists s. split; [done|]. split; [done|].
      intros Ha. specialize (Ht Ha). rewrite lookup_insert_ne; [done|]. intros Heq. subst sid.
      unfold ClaudeCommander.IsSessionRunning, ClaudeCommander.executor_of in Hr. rewrite Heq, Ht in Hr. cbn in Hr. rewrite Hq in Hr. cbn in Hr.
      unfold ClaudeCommander.IsRunning in Hr. apply Hrun in Ha. congruence.
Qed.

Lemma processes_forget w p :
  stages w !! p = Some Reaped ->
  let w' := set_commander w (ClaudeCommander.forget p (commander w)) in
  processes_step w w' /\ (processes_ok w -> processes_ok w').
Proof.
  intros Hs. cbn zeta. unfold ClaudeCommander.forget. destruct (heap w !! p) as [e|] eqn:He; [|by apply processes_same].
  case_bool_decide as Hd; [|by apply processes_same]. split; [intros q f Hq; by exists f|].
  intros Hok q. specialize (Hok q). cbn. destruct (heap w !! q) as [f|] eqn:Hq; [|done].
  destruct Hok as (Hn & Ho & s & Hs' & Hrun & Ht). split; [done|]. split; [done|]. exists s. split; [done|]. split; [done|].
  intros Ha. specialize (Ht Ha). rewrite lookup_delete_ne; [done|]. intros Heq. rewrite Heq, Ht in Hd. injection Hd as ->. congruence.
Qed.

Lemma forget_heap p c : ClaudeCommander.heap (ClaudeCommander.forget p c) = ClaudeCommander.heap c.
Proof. unfold ClaudeCommander.forget. destruct (_ !! p); [|done]. by case_bool_decide. Qed.

(** An executor that is updated without leaving the state it is in. *)
Lemma set_stage_same w p s : stages w !! p = Some s -> set_stage w p s = w.
Proof. intros H. unfold set_stage. destruct w; cbn in *. by rewrite insert_id. Qed.

Lemma step_processes ev w w' : step ev w = Some w' -> processes_ok w -> processes_step w w' /\ processes_ok w'.
Proof.
  intros E Hok. destruct ev; cbn [step] in E.
  - unfold send_begin in E. destruct (calls w !! k); [done|]. injection E as <-.
    destruct (ActiveTurn.begin_turn _ _ _ _ _) as [[] t]; by apply processes_kept.
  - unfold send_launch in E. destruct (calls w !! k) as [[sid gen defer [| |]]|]; try done. injection E as <-.
    unfold ClaudeCommander.SendPrompt, ClaudeCommander.SendPromptInDir.
    destruct (ClaudeCommander.startPromptInDir _ _ _ _ _) as [[p|e] c] eqn:E.
    + exact (processes_launch _ _ _ _ _ _ _ (Some gen) Hok E).
    + apply startPromptInDir_err in E as ->. by apply processes_kept.
  - unfold send_conclude in E. destruct (calls w !! k) as [[sid gen defer [| |]]|]; try done.
    + injection E as <-. by apply processes_kept.
    + destruct defer; [injection E as <-; by apply processes_kept|]. unfold accept_begin in E. cbn in E.
      destruct (acceptances w !! j); [done|]. injection E as <-.
      destruct (ActiveTurn.accepted_mark _ _ _) as [[?|] t]; by apply processes_kept.
  - unfold accept_begin in E. destruct (acceptances w !! j); [done|]. injection E as <-.
    destruct (ActiveTurn.accepted_mark _ _ _) as [[?|] t]; by apply processes_kept.
  - unfold accept_emit in E. destruct (acceptances w !! j) as [[]|]; [|done|done]. injection E as <-. by apply processes_kept.
  - unfold accept_finish in E. destruct (acceptances w !! j) as [[]|]; [done| |done]. injection E as <-. by apply processes_kept.
  - injection E as <-. by apply processes_kept.
  - injection E as <-. unfold thread_launch, ClaudeCommander.StartThread_launch. destruct probed; [|by apply processes_kept].
    destruct (ClaudeCommander.startPromptInDir _ _ _ _ _) as [[p|e] c] eqn:E.
    + exact (processes_launch _ _ _ _ _ _ _ None Hok E).
    + apply startPromptInDir_err in E as ->. by apply processes_kept.
  - destruct (stages w !! p) as [[]|] eqn:Hs; try done. injection E as <-. unfold update_executor.
    destruct (heap w !! p) as [e|] eqn:He; [|by apply processes_kept].
    destruct (processes_update w p e (ClaudeCommander.output_line source line e).2 Alive He Hs) as [H1 H2]; [by left| | |].
    + unfold ClaudeCommander.output_line, ClaudeCommander.suppress. by destruct (String.eqb _ _).
    + pose proof (Hok p) as Hp. rewrite He in Hp. destruct Hp as (_ & _ & s & Hs' & Hr & _).
      unfold ClaudeCommander.output_line, ClaudeCommander.suppress. rewrite Hs in Hs'. injection Hs' as <-.
      destruct (String.eqb _ _); cbn; exact Hr.
    + rewrite set_stage_same in H1, H2 by done. auto.
  - destruct (stages w !! p) as [[]|] eqn:Hs; try done. injection E as <-. unfold update_executor.
    destruct (heap w !! p) as [e|] eqn:He; [|specialize (Hok p); rewrite He in Hok; congruence].
    destruct (processes_update w p e (ClaudeCommander.reap code e) Reaped He Hs) as [H1 H2]; [by right|done|done|]. auto.
  - destruct (stages w !! p) as [[]|] eqn:Hs; try done. injection E as <-.
    destruct (processes_forget w p Hs) as [H1 H2].
    destruct (processes_stage (set_commander w (ClaudeCommander.forget p (commander w))) p Reaped Forgotten Hs) as [H3 H4]; [done..|].
    split; [|auto]. intros q e Hq. exists e. cbn. rewrite forget_heap. repeat split; [done|]. intros Hr.
    rewrite lookup_insert_ne; [done|]. intros <-. congruence.
  - destruct (stages w !! p) as [[]|] eqn:Hs; try done. injection E as <-. unfold report_turn.
    destruct (heap w !! p) as [e|] eqn:He; [|specialize (Hok p); rewrite He in Hok; congruence].
    assert (forall t, stages (set_turns w t) !! p = Some Forgotten) as Hs' by (intros t; done).
    destruct (processes_stage _ p Forgotten Reported (Hs' (ActiveTurn.finish (turns w) (ClaudeCommander.session e) (ClaudeCommander.exitCode e)
               (ClaudeCommander.WasIntentionallyStopped e)))) as [H1 H2]; [done..|]. split; [exact H1|]. apply H2, Hok.
  - injection E as <-. unfold ClaudeCommander.InterruptSession.
    destruct (ClaudeCommander.executor_of _ _) as [[p e]|] eqn:Ex; [|by apply processes_kept].
    unfold ClaudeCommander.executor_of in Ex. apply bind_Some in Ex as (p' & Ht & Ex). apply bind_Some in Ex as (e' & He & [= -> ->]).
    unfold ClaudeCommander.Interrupt. destruct (ClaudeCommander.running e) eqn:Hr; cbn [snd].
    + pose proof (Hok p) as Hp. rewrite He in Hp. destruct Hp as (_ & _ & s & Hs & Hrun & _). apply Hrun in Hr as ->.
      destruct (processes_update w p e (ClaudeCommander.stop_intended e) Alive He Hs) as [H1 H2]; [by left|done|by apply Hrun|].
      rewrite set_stage_same in H1, H2 by done. auto.
    + assert (ClaudeCommander.set_executor (commander w) p e = commander w) as ->.
      { unfold ClaudeCommander.set_executor. destruct (commander w); cbn in *. by rewrite insert_id. }
      by apply processes_kept.
Qed.

Lemma new_processes_ok sink : processes_ok (NewClaudeCodeAdapter sink).
Proof. intros p. cbn. by rewrite !lookup_empty. Qed.

Lemma run_processes evs w w' : run evs w w' -> processes_ok w -> processes_ok w'.
Proof. intros Hr Hok. induction Hr as [|evs ev w1 w2 w3 _ IH Hs]; [done|]. by eapply step_processes, IH. Qed.

(** C28: C: whatever prompts, new threads, interruptions, ends of processes and
    acknowledgements interleave, two processes that run belong to different
    sessions, and a session with a process is busy: the commander finds that very
    process in its table, although entries are removed after the process has ended,
    by a goroutine that may come late. *)
Theorem one_process_per_session (evs : list event) (sink : bool) (w : adapter) :
  run evs (NewClaudeCodeAdapter sink) w ->
  forall p e, heap w !! p = Some e -> ClaudeCommander.running e = true ->
    ClaudeCommander.executor_of (commander w) (ClaudeCommander.session e) = Some (p, e) /\
    forall q f, heap w !! q = Some f -> ClaudeCommander.running f = true -> ClaudeCommander.session f = ClaudeCommander.session e -> q = p.
Proof.
  intros Hr. pose proof (run_processes _ _ _ Hr (new_processes_ok sink)) as Hok.
  assert (forall p e, heap w !! p = Some e -> ClaudeCommander.running e = true -> table w !! ClaudeCommander.session e = Some p) as Ht.
  { intros p e He Hrun. specialize (Hok p). rewrite He in Hok. destruct Hok as (_ & _ & s & _ & Hs & Ht). by apply Ht, Hs. }
  intros p e He Hrun. split.
  - unfold ClaudeCommander.executor_of. rewrite (Ht p e He Hrun). cbn. by rewrite He.
  - intros q f Hq Hrun' Hse. pose proof (Ht q f Hq Hrun') as H1. rewrite Hse, (Ht p e He Hrun) in H1. by injection H1.
Qed.

(** ** Whose end a turn reports *)

(** The events of prompts: no new thread, no prompt given up while it runs. *)
Definition prompt_event (ev : event) : Prop :=
  match ev with Abandon _ _ | ThreadLaunch _ _ _ _ _ => False | _ => True end.

Definition exit_of (e : ClaudeCommander.AgentExecutor) : ActiveTurn.turnTerminal :=
  ActiveTurn.mkTerminal (ClaudeCommander.exitCode e) (ClaudeCommander.intentionalStop e).

(** A process of a session, started for a generation, that has not been reported,
    and one that has, with its exit. *)
Definition live (w : adapter) (p : nat) (sid : string) (g : Z) : Prop :=
  exists e s, heap w !! p = Some e /\ ClaudeCommander.session e = sid /\ origins w !! p = Some (Some g) /\ stages w !! p = Some s /\ s <> Reported.
Definition ended (w : adapter) (p : nat) (sid : string) (g : Z) (t : ActiveTurn.turnTerminal) : Prop :=
  exists e, heap w !! p = Some e /\ ClaudeCommander.session e = sid /\ origins w !! p = Some (Some g) /\ stages w !! p = Some Reported /\ t = exit_of e.

Lemma ended_step w w' p sid g t : processes_step w w' -> ended w p sid g t -> ended w' p sid g t.
Proof.
  intros H (e & He & Hse & Ho & Hs & ->). destruct (H p e He) as (e' & He' & Hse' & Ho' & Hk & Hr).
  assert (stages w !! p <> Some Alive) as Hna by congruence. rewrite (Hk Hna) in He'. exists e. rewrite Ho'. split_and!; auto.
Qed.

(** What stands between a session and its next prompt. *)
Inductive phase : Type :=
  | Calling (k : nat)
  | Running (p : nat)
  | Stored (p : nat)
  | Ending (j p : nat).

Definition ends_turn (a : acceptance) (sid : string) (t : ActiveTurn.turnTerminal) : Prop :=
  (exists g, a = Emitting sid g (Some t)) \/ a = Finishing sid t.

(** The binding of a session in a phase. *)
Definition agrees (w : adapter) (sid : string) (b : ActiveTurn.turnBinding) (ph : phase) : Prop :=
  match ph with
  | Calling k => ActiveTurn.terminal b = None /\
      exists c, calls w !! k = Some c /\ cSession c = sid /\ cGeneration c = ActiveTurn.generation b /\ cStage c <> Launched
  | Running p => ActiveTurn.terminal b = None /\ live w p sid (ActiveTurn.generation b)
  | Stored p => ActiveTurn.turnAccepted b = false /\
      exists t, ActiveTurn.terminal b = Some t /\ ended w p sid (ActiveTurn.generation b) t
  | Ending j p => ActiveTurn.turnAccepted b = true /\ ActiveTurn.terminal b = None /\
      exists a t, acceptances w !! j = Some a /\ ends_turn a sid t /\ ended w p sid (ActiveTurn.generation b) t
  end.

(** [own] says who stands there; nobody else has a claim. *)
Record owned (w : adapter) (own : gmap string phase) : Prop := {
  own_bindings : forall sid, match own !! sid with
                             | Some ph => exists b, ActiveTurn.bindings (turns w) !! sid = Some b /\ agrees w sid b ph
                             | None => ActiveTurn.bindings (turns w) !! sid = None
                             end;
  own_calls : forall k c, calls w !! k = Some c -> cStage c <> Launched -> own !! cSession c = Some (Calling k);
  own_processes : forall p e, heap w !! p = Some e -> stages w !! p <> Some Reported -> own !! ClaudeCommander.session e = Some (Running p);
  own_acceptances : forall j a sid t, acceptances w !! j = Some a -> ends_turn a sid t -> exists p, own !! sid = Some (Ending j p);
  own_origins : forall p e, heap w !! p = Some e -> exists g, origins w !! p = Some (Some g)
}.

Definition outcome (t : ActiveTurn.turnTerminal) : ActiveTurn.TurnLifecycle :=
  if ActiveTurn.interrupted t then ActiveTurn.TurnInterrupted
  else if ActiveTurn.exitCode t =? 0 then ActiveTurn.TurnTerminalSuccess else ActiveTurn.TurnTerminalFailure.

(** What the tracker sent out is an acceptance, or the outcome of a process that was
    started for that generation and has ended. *)
Definition justified (w : adapter) (o : ActiveTurn.tracker_output) : Prop :=
  match o with
  | ActiveTurn.OnLifecycle g l _ => l = ActiveTurn.TurnAccepted \/ exists p sid t, ended w p sid g t /\ l = outcome t
  | ActiveTurn.Sink ev => ActiveTurn.evLifecycle ev = ActiveTurn.TurnAccepted \/
      exists p t, ended w p (ActiveTurn.evSessionID ev) (ActiveTurn.evGeneration ev) t /\ ActiveTurn.evLifecycle ev = outcome t
  end.

Lemma justified_step w w' o : processes_step w w' -> justified w o -> justified w' o.
Proof.
  intros H. destruct o as [g l r|ev]; cbn; (intros [Ha|Hd]; [by left|right]).
  - destruct Hd as (p & sid & t & He & ->). exists p, sid, t. split; [by eapply ended_step|done].
  - destruct Hd as (p & t & He & ->). exists p, t. split; [by eapply ended_step|done].
Qed.

(** *** Keeping the ownership *)

Definition frame (w w' : adapter) (ph : phase) : Prop :=
  match ph with
  | Calling k => calls w' !! k = calls w !! k
  | Running p => stages w' !! p <> Some Reported /\ is_Some (stages w' !! p)
  | Stored _ => True
  | Ending j _ => acceptances w' !! j = acceptances w !! j
  end.

Lemma agrees_frame w w' sid b ph : processes_step w w' -> frame w w' ph -> agrees w sid b ph -> agrees w' sid b ph.
Proof.
  intros Hp. destruct ph as [k|p|p|j p]; cbn.
  - by intros ->.
  - intros [Hr [s Hs]] (Ht & e & s0 & He & Hse & Ho & _). split; [done|].
    destruct (Hp p e He) as (e' & He' & Hse' & Ho' & _). exists e', s. split_and!; congruence.
  - intros _ (Ha & t & Ht & He). split; [done|]. exists t. split; [done|]. by eapply ended_step.
  - intros -> (Ha & Ht & a & t & Hj & He & Hd). split_and!; [done..|]. exists a, t. split_and!; [done..|]. by eapply ended_step.
Qed.

(** A step that concerns the session [sid0]. *)
Lemma owned_step w w' own own' sid0 :
  processes_step w w' -> owned w own ->
  (forall sid, sid <> sid0 -> own' !! sid = own !! sid /\ ActiveTurn.bindings (turns w') !! sid = ActiveTurn.bindings (turns w) !! sid) ->
  (forall sid ph, sid <> sid0 -> own !! sid = Some ph -> frame w w' ph) ->
  match own' !! sid0 with
  | Some ph => exists b, ActiveTurn.bindings (turns w') !! sid0 = Some b /\ agrees w' sid0 b ph
  | None => ActiveTurn.bindings (turns w') !! sid0 = None
  end ->
  (forall k c, calls w' !! k = Some c -> cStage c <> Launched -> own' !! cSession c = Some (Calling k)) ->
  (forall p e, heap w' !! p = Some e -> stages w' !! p <> Some Reported -> own' !! ClaudeCommander.session e = Some (Running p)) ->
  (forall j a sid t, acceptances w' !! j = Some a -> ends_turn a sid t -> exists p, own' !! sid = Some (Ending j p)) ->
  (forall p e, heap w' !! p = Some e -> exists g, origins w' !! p = Some (Some g)) ->
  owned w' own'.
Proof.
  intros Hp Ho Hother Hframe H0 Hc Hpr Ha Hor. split; [|done..]. intros sid. destruct (decide (sid = sid0)) as [->|Hne]; [done|].
  destruct (Hother sid Hne) as [-> ->]. pose proof (own_bindings w own Ho sid) as Hb. destruct (own !! sid) as [ph|] eqn:E; [|done].
  destruct Hb as (b & Hb & Hag). exists b. split; [done|]. eapply agrees_frame; [done| |done]. by eapply Hframe.
Qed.

(** The processes are as before. *)
Lemma frame_kept w w' ph : stages w' = stages w -> (forall k, ph = Calling k -> calls w' !! k = calls w !! k) ->
  (forall j p, ph = Ending j p -> acceptances w' !! j = acceptances w !! j) ->
  forall own sid b, owned w own -> own !! sid = Some ph -> agrees w sid b ph -> frame w w' ph.
Proof.
  intros Hs Hc Ha own sid b Ho E Hag. destruct ph as [k|p|p|j p]; cbn; [by apply Hc| |done|by eapply Ha].
  rewrite Hs. destruct Hag as (_ & e & s & _ & _ & _ & -> & Hs'). split; [congruence|by eexists].
Qed.

Lemma owned_agrees w own sid ph : owned w own -> own !! sid = Some ph ->
  exists b, ActiveTurn.bindings (turns w) !! sid = Some b /\ agrees w sid b ph.
Proof. intros Ho E. pose proof (own_bindings w own Ho sid) as Hb. by rewrite E in Hb. Qed.

Lemma set_turns_same w : set_turns w (turns w) = w.
Proof. by destruct w. Qed.

Lemma begin_owned k sid gen cid onl defer w w' own :
  processes_step w w' -> owned w own -> send_begin k sid gen cid onl defer w = Some w' -> exists own', owned w' own'.
Proof.
  intros Hp Ho E. unfold send_begin in E. destruct (calls w !! k) eqn:Hk; [done|]. injection E as <-.
  unfold ActiveTurn.begin_turn in *. destruct (ActiveTurn.bindings (turns w) !! sid) as [b|] eqn:Hb; [exists own; by rewrite set_turns_same|].
  assert (own !! sid = None) as Hnone.
  { destruct (own !! sid) as [ph|] eqn:E; [|done]. destruct (owned_agrees w own sid ph Ho E) as (b & Hb' & _). congruence. }
  exists (<[sid := Calling k]> own). eapply (owned_step w _ own _ sid); [done|done|..].
  - intros sid' Hne. cbn. by rewrite !lookup_insert_ne by done.
  - intros sid' ph Hne E. destruct (owned_agrees w own sid' ph Ho E) as (b & _ & Hag).
    eapply (frame_kept w _ ph); [done| |done|done|done|done]. intros k' ->. cbn. destruct Hag as (_ & c & Hc & _).
    rewrite lookup_insert_ne; [done|]. intros <-. congruence.
  - rewrite lookup_insert_eq. eexists. cbn. rewrite lookup_insert_eq. split; [done|]. split; [done|]. eexists. by rewrite lookup_insert_eq.
  - intros k' c. cbn. intros Hc Hs. destruct (decide (k' = k)) as [->|Hne].
    + rewrite lookup_insert_eq in Hc. injection Hc as <-. cbn. by rewrite lookup_insert_eq.
    + rewrite lookup_insert_ne in Hc by done. pose proof (own_calls w own Ho k' c Hc Hs) as Hown. rewrite lookup_insert_ne; [done|].
      intros Heq. congruence.
  - intros p e He Hs. pose proof (own_processes w own Ho p e He Hs) as Hown. rewrite lookup_insert_ne; [done|]. intros Heq. congruence.
  - intros j a sid' t Hj He. destruct (own_acceptances w own Ho j a sid' t Hj He) as [p Hown]. exists p. rewrite lookup_insert_ne; [done|]. intros Heq. congruence.
  - exact (own_origins w own Ho).
Qed.

(** A call keeps its session while it goes on. *)
Lemma calling_other w own k c sid ph : owned w own -> calls w !! k = Some c -> sid <> cSession c -> own !! sid = Some ph ->
  forall k', ph = Calling k' -> k' <> k.
Proof.
  intros Ho Hk Hne E k' -> ->. destruct (owned_agrees w own sid _ Ho E) as (b & _ & _ & c' & Hc & Hse & _). congruence.
Qed.

Lemma launch_failed_owned k sid gen defer w own :
  owned w own -> calls w !! k = Some (mkCall sid gen defer Begun) ->
  owned (set_calls w (<[k := mkCall sid gen defer Failed]> (calls w))) own.
Proof.
  intros Ho Hk. pose proof (own_calls w own Ho k _ Hk ltac:(done)) as Hown. cbn in Hown.
  destruct (owned_agrees w own sid _ Ho Hown) as (b & Hb & Ht & c & Hc & Hse & Hg & _). rewrite Hk in Hc. injection Hc as <-. cbn in Hg.
  apply (owned_step w _ own _ sid).
  - by apply processes_same.
  - done.
  - intros sid' Hne. done.
  - intros sid' ph Hne E. destruct (owned_agrees w own sid' ph Ho E) as (b' & _ & Hag).
    eapply (frame_kept w _ ph); [done| |done|done|done|done]. intros k' Hk'. cbn. rewrite lookup_insert_ne; [done|].
    intros <-. by eapply (calling_other w own k _ sid' ph Ho Hk).
  - rewrite Hown. exists b. split; [done|]. split; [done|]. eexists. cbn. rewrite lookup_insert_eq. split; [done|]. by split_and!.
  - intros k' c'. cbn. intros Hc Hs. destruct (decide (k' = k)) as [->|Hne].
    + rewrite lookup_insert_eq in Hc. by injection Hc as <-.
    + rewrite lookup_insert_ne in Hc by done. by apply (own_calls w own Ho).
  - exact (own_processes w own Ho).
  - exact (own_acceptances w own Ho).
  - exact (own_origins w own Ho).
Qed.

Lemma launch_started_owned k sid gen defer w own launch args wd p c' :
  processes_ok w -> owned w own -> calls w !! k = Some (mkCall sid gen defer Begun) ->
  ClaudeCommander.startPromptInDir launch sid args wd (commander w) = (Ok p, c') ->
  owned (set_calls (add_process w c' p (Some gen)) (<[k := mkCall sid gen defer Launched]> (calls w))) (<[sid := Running p]> own).
Proof.
  intros Hok Ho Hk E. destruct (processes_launch w _ _ _ _ _ _ (Some gen) Hok E) as [Hp _].
  pose proof (next_is_fresh w Hok) as Hf. apply startPromptInDir_ok in E as (_ & -> & e & Hse & Hre & ->).
  assert (stages w !! next w = None) as Hfs by (specialize (Hok (next w)); by rewrite Hf in Hok).
  pose proof (own_calls w own Ho k _ Hk ltac:(done)) as Hown. cbn in Hown.
  destruct (owned_agrees w own sid _ Ho Hown) as (b & Hb & Ht & c & Hc & _ & Hg & _). rewrite Hk in Hc. injection Hc as <-. cbn in Hg.
  apply (owned_step w _ own _ sid).
  - exact Hp.
  - done.
  - intros sid' Hne. cbn. by rewrite lookup_insert_ne.
  - intros sid' ph Hne E. destruct (owned_agrees w own sid' ph Ho E) as (b' & _ & Hag). destruct ph as [k'|q|q|j q]; cbn.
    + rewrite lookup_insert_ne; [done|]. intros <-. by eapply (calling_other w own k _ sid' _ Ho Hk).
    + destruct Hag as (_ & f & s & Hq & _ & _ & Hs & Hs'). rewrite lookup_insert_ne by (intros <-; congruence). rewrite Hs. split; [congruence|by eexists].
    + done.
    + done.
  - rewrite lookup_insert_eq. exists b. split; [done|]. split; [done|]. exists e, Alive. cbn. rewrite !lookup_insert_eq. split_and!; try done.
    by rewrite Hg.
  - intros k' c'. cbn. intros Hc Hs. destruct (decide (k' = k)) as [->|Hne].
    + rewrite lookup_insert_eq in Hc. injection Hc as <-. done.
    + rewrite lookup_insert_ne in Hc by done. pose proof (own_calls w own Ho k' c' Hc Hs) as Hown'. rewrite lookup_insert_ne; [done|].
      intros Heq. rewrite <- Heq, Hown in Hown'. congruence.
  - intros q f. cbn. destruct (decide (q = next w)) as [->|Hne].
    + rewrite lookup_insert_eq. intros [= <-] _. rewrite Hse. by rewrite lookup_insert_eq.
    + rewrite !lookup_insert_ne by done. intros Hq Hs. pose proof (own_processes w own Ho q f Hq Hs) as Hown'.
      rewrite lookup_insert_ne; [done|]. intros Heq. rewrite <- Heq, Hown in Hown'. congruence.
  - intros j a sid' t Hj He. cbn in Hj. destruct (own_acceptances w own Ho j a sid' t Hj He) as [q Hown']. exists q.
    rewrite lookup_insert_ne; [done|]. intros Heq. rewrite <- Heq, Hown in Hown'. congruence.
  - intros q f. cbn. destruct (decide (q = next w)) as [->|Hne].
    + rewrite !lookup_insert_eq. intros _. by eexists.
    + rewrite !lookup_insert_ne by done. apply (own_origins w own Ho).
Qed.

Lemma call_dropped w own k c : owned w own -> calls w !! k = Some c -> cStage c = Launched -> owned (set_calls w (base.delete k (calls w))) own.
Proof.
  intros Ho Hk Hs. apply (owned_step w _ own _ (cSession c)).
  - by apply processes_same.
  - done.
  - done.
  - intros sid' ph Hne E. destruct (owned_agrees w own sid' ph Ho E) as (b' & _ & Hag).
    eapply (frame_kept w _ ph); [done| |done|done|done|done]. intros k' Hk'. cbn. rewrite lookup_delete_ne; [done|].
    intros <-. by eapply (calling_other w own k _ sid' ph Ho Hk).
  - pose proof (own_bindings w own Ho (cSession c)) as Hb. destruct (own !! cSession c) as [ph|] eqn:E; [|done].
    destruct Hb as (b & Hb & Hag). exists b. split; [done|]. eapply agrees_frame; [by apply (processes_same w)| |exact Hag].
    eapply (frame_kept w _ ph); [done| |done|done|done|done]. intros k' ->. cbn. destruct Hag as (_ & c' & Hc & _ & _ & Hs').
    rewrite lookup_delete_ne; [done|]. intros <-. congruence.
  - intros k' c' Hc Hs'. cbn in Hc. apply lookup_delete_Some in Hc as [_ Hc]. by apply (own_calls w own Ho).
  - exact (own_processes w own Ho).
  - exact (own_acceptances w own Ho).
  - exact (own_origins w own Ho).
Qed.

Lemma failed_owned w own k sid gen defer :
  owned w own -> calls w !! k = Some (mkCall sid gen defer Failed) ->
  owned (set_calls (set_turns w (ActiveTurn.abort (turns w) sid gen)) (base.delete k (calls w))) (base.delete sid own).
Proof.
  intros Ho Hk. pose proof (own_calls w own Ho k _ Hk ltac:(done)) as Hown. cbn in Hown.
  destruct (owned_agrees w own sid _ Ho Hown) as (b & Hb & Ht & c & Hc & _ & Hg & _). rewrite Hk in Hc. injection Hc as <-. cbn in Hg.
  assert (ActiveTurn.abort (turns w) sid gen = ActiveTurn.with_bindings (turns w) (base.delete sid (ActiveTurn.bindings (turns w)))) as ->.
  { unfold ActiveTurn.abort. by rewrite Hb, <- Hg, Z.eqb_refl. }
  apply (owned_step w _ own _ sid).
  - by apply processes_same.
  - done.
  - intros sid' Hne. cbn. by rewrite !lookup_delete_ne by done.
  - intros sid' ph Hne E. destruct (owned_agrees w own sid' ph Ho E) as (b' & _ & Hag).
    eapply (frame_kept w _ ph); [done| |done|done|done|done]. intros k' Hk'. cbn. rewrite lookup_delete_ne; [done|].
    intros <-. by eapply (calling_other w own k _ sid' ph Ho Hk).
  - rewrite lookup_delete_eq. cbn. by rewrite lookup_delete_eq.
  - intros k' c'. cbn. intros Hc Hs. apply lookup_delete_Some in Hc as [Hne Hc]. pose proof (own_calls w own Ho k' c' Hc Hs) as Hown'.
    rewrite lookup_delete_ne; [done|]. intros Heq. rewrite <- Heq, Hown in Hown'. congruence.
  - intros q f Hq Hs. pose proof (own_processes w own Ho q f Hq Hs) as Hown'.
    rewrite lookup_delete_ne; [done|]. intros Heq. rewrite <- Heq, Hown in Hown'. congruence.
  - intros j a sid' t Hj He. destruct (own_acceptances w own Ho j a sid' t Hj He) as [q Hown']. exists q.
    rewrite lookup_delete_ne; [done|]. intros Heq. rewrite <- Heq, Hown in Hown'. congruence.
  - exact (own_origins w own Ho).
Qed.

(** Others keep their acceptances when a fresh one is added. *)
Lemma acceptance_added w w' own j a sid ph b : owned w own -> own !! sid = Some ph -> agrees w sid b ph -> acceptances w !! j = None ->
  stages w' = stages w -> calls w' = calls w -> acceptances w' = <[j := a]> (acceptances w) -> frame w w' ph.
Proof.
  intros Ho E Hag Hj Hs Hc Ha. eapply (frame_kept w w' ph); [done|intros k _; by rewrite Hc| |done|done|done].
  intros j' p ->. rewrite Ha. destruct Hag as (_ & _ & a' & t & Hj' & _). rewrite lookup_insert_ne; [done|]. intros <-. congruence.
Qed.

Definition mark_binding (b : ActiveTurn.turnBinding) : ActiveTurn.turnBinding :=
  ActiveTurn.mkTurnBinding (ActiveTurn.generation b) (ActiveTurn.clientMsgID b) (ActiveTurn.hasOnLifecycle b) true None.

(** The phase of a session after [accepted]'s first critical section. *)
Definition marked (j : nat) (ph : phase) : phase := match ph with Stored p => Ending j p | _ => ph end.

Lemma mark_agrees w w' j g sid b ph :
  agrees w sid b ph -> stages w' = stages w -> origins w' = origins w -> commander w' = commander w -> calls w' = calls w ->
  acceptances w !! j = None -> acceptances w' = <[j := Emitting sid g (ActiveTurn.terminal b)]> (acceptances w) ->
  agrees w' sid (mark_binding b) (marked j ph).
Proof.
  intros Hag Hs Hor Hco Hc Hj Ha. destruct ph as [k|p|p|j' p]; cbn in *; rewrite ?Hc, ?Ha; unfold live, ended in *; rewrite ?Hs, ?Hor, ?Hco.
  - split; [done|]. by destruct Hag.
  - split; [done|]. by destruct Hag.
  - destruct Hag as (_ & t & Ht & He). split; [done|]. split; [done|]. rewrite lookup_insert_eq, Ht. eexists _, t. split; [done|].
    split; [left; by eexists|done].
  - destruct Hag as (_ & _ & a & t & Hj' & Hrest). split; [done|]. split; [done|]. exists a, t. rewrite lookup_insert_ne by congruence. done.
Qed.

Lemma accept_owned j sid g w w' own : owned w own -> accept_begin j sid g w = Some w' ->
  ActiveTurn.emitted (turns w') = ActiveTurn.emitted (turns w) /\ exists own', owned w' own'.
Proof.
  intros Ho E. unfold accept_begin in E. destruct (acceptances w !! j) eqn:Hj; [done|]. injection E as <-.
  unfold ActiveTurn.accepted_mark. destruct (ActiveTurn.bindings (turns w) !! sid) as [b|] eqn:Hb;
    [|rewrite set_turns_same; split; [done|by exists own]].
  destruct (Z.eqb_spec (ActiveTurn.generation b) g) as [Hg|_]; [|rewrite set_turns_same; split; [done|by exists own]].
  split; [done|]. pose proof (own_bindings w own Ho sid) as Hown. destruct (own !! sid) as [ph|] eqn:E; [|congruence].
  destruct Hown as (b' & Hb' & Hag). rewrite Hb in Hb'. injection Hb' as <-.
  exists (<[sid := marked j ph]> own). apply (owned_step w _ own _ sid).
  - by apply processes_same.
  - done.
  - intros sid' Hne. cbn. by rewrite !lookup_insert_ne by done.
  - intros sid' ph' Hne E'. destruct (owned_agrees w own sid' ph' Ho E') as (b' & _ & Hag').
    by eapply (acceptance_added w _ own j _ sid' ph' b' Ho E' Hag' Hj).
  - rewrite lookup_insert_eq. exists (mark_binding b). cbn. rewrite lookup_insert_eq. split; [done|].
    by eapply (mark_agrees w _ j g sid b ph Hag).
  - intros k c Hc Hs. cbn in Hc. pose proof (own_calls w own Ho k c Hc Hs) as Hown. destruct (decide (cSession c = sid)) as [Heq|Hne].
    + rewrite Heq in *. rewrite lookup_insert_eq. rewrite E in Hown. by injection Hown as ->.
    + by rewrite lookup_insert_ne.
  - intros p e He Hs. pose proof (own_processes w own Ho p e He Hs) as Hown. destruct (decide (ClaudeCommander.session e = sid)) as [Heq|Hne].
    + rewrite Heq in *. rewrite lookup_insert_eq. rewrite E in Hown. by injection Hown as ->.
    + by rewrite lookup_insert_ne.
  - intros j' a sid' t Hj' He. cbn in Hj'. destruct (decide (j' = j)) as [->|Hne].
    + rewrite lookup_insert_eq in Hj'. injection Hj' as <-. destruct He as [[g' [= <- <- Ht]]|[=]]. rewrite lookup_insert_eq.
      destruct ph as [k|p|p|j' p]; cbn in Hag; [by destruct Hag as [? _]; congruence|by destruct Hag as [? _]; congruence|by exists p|by destruct Hag as (_ & ? & _); congruence].
    + rewrite lookup_insert_ne in Hj' by done. destruct (own_acceptances w own Ho j' a sid' t Hj' He) as [p Hown].
      destruct (decide (sid' = sid)) as [->|Hne'].
      * rewrite E in Hown. injection Hown as ->. exists p. by rewrite lookup_insert_eq.
      * exists p. by rewrite lookup_insert_ne.
  - exact (own_origins w own Ho).
Qed.

Lemma send_out_justified w t sid b g l class reason :
  Forall (justified w) (ActiveTurn.emitted t) ->
  (l = ActiveTurn.TurnAccepted \/ exists p x, ended w p sid g x /\ l = outcome x) ->
  Forall (justified w) (ActiveTurn.emitted (ActiveTurn.send_out t sid b g l class reason)).
Proof.
  intros Ht Hl. unfold ActiveTurn.send_out. cbn. apply Forall_app. split; [done|]. apply Forall_app. split.
  - destruct (ActiveTurn.hasOnLifecycle b); [|done]. apply Forall_singleton. cbn. destruct Hl as [->|(p & x & He & ->)]; [by left|right].
    by exists p, sid, x.
  - destruct (ActiveTurn.hasSink t); [|done]. apply Forall_singleton. cbn. destruct Hl as [->|(p & x & He & ->)]; [by left|right]. by exists p, x.
Qed.

(** [finish] of an accepted turn. *)
Lemma finish_accepted t sid b x i : ActiveTurn.bindings t !! sid = Some b -> ActiveTurn.turnAccepted b = true ->
  exists class reason, ActiveTurn.finish t sid x i =
    ActiveTurn.send_out (ActiveTurn.with_bindings t (base.delete sid (ActiveTurn.bindings t))) sid b (ActiveTurn.generation b)
      (outcome (ActiveTurn.mkTerminal x i)) class reason.
Proof.
  intros Hb Ha. unfold ActiveTurn.finish, outcome. rewrite Hb, Ha. cbn [negb ActiveTurn.interrupted ActiveTurn.exitCode].
  destruct i; [by eexists _, _|]. destruct (x =? 0); by eexists _, _.
Qed.

Lemma emit_owned j w w' own : owned w own -> Forall (justified w) (ActiveTurn.emitted (turns w)) -> accept_emit j w = Some w' ->
  Forall (justified w') (ActiveTurn.emitted (turns w')) /\ owned w' own.
Proof.
  intros Ho Hj E. unfold accept_emit in E. destruct (acceptances w !! j) as [[sid g pending|]|] eqn:Ha; try done. injection E as <-.
  set (t := ActiveTurn.emit _ _ _ _ _ _).
  assert (ActiveTurn.bindings t = ActiveTurn.bindings (turns w)) as Hbs.
  { unfold t, ActiveTurn.emit. destruct (_ !! sid) as [b|]; [|done]. by destruct (_ =? _). }
  split.
  - cbn. unfold t, ActiveTurn.emit. destruct (_ !! sid) as [b|]; [|done]. destruct (_ =? _); [|done].
    apply (send_out_justified w); [done|by left].
  - apply (owned_step w _ own _ sid).
    + by apply processes_same.
    + done.
    + intros sid' _. cbn. by rewrite Hbs.
    + intros sid' ph Hne E. destruct (owned_agrees w own sid' ph Ho E) as (b & _ & Hag).
      eapply (frame_kept w _ ph); [done|done| |done|done|done]. intros j' p ->. cbn.
      destruct Hag as (_ & _ & a & x & Hj' & [[g' ->]| ->] & _); (assert (j' <> j) by (intros ->; congruence));
        destruct pending; by rewrite ?lookup_insert_ne, ?lookup_delete_ne.
    + pose proof (own_bindings w own Ho sid) as Hown. cbn. rewrite Hbs. destruct (own !! sid) as [ph|]; [|done].
      destruct Hown as (b & Hb & Hag). exists b. split; [done|]. destruct ph as [k|p|p|j' p]; [done|done|done|].
      destruct Hag as (Hacc & Ht & a & x & Hj' & He & Hd). split; [done|]. split; [done|]. cbn. destruct (decide (j' = j)) as [->|Hne].
      * rewrite Ha in Hj'. injection Hj' as <-. destruct He as [[g' [= -> ->]]|[=]]. rewrite lookup_insert_eq.
        exists (Finishing sid x), x. split; [done|]. split; [by right|done].
      * exists a, x. split; [destruct pending; by rewrite ?lookup_insert_ne, ?lookup_delete_ne|done].
    + exact (own_calls w own Ho).
    + exact (own_processes w own Ho).
    + intros j' a sid' x Hj' He. cbn in Hj'. destruct (decide (j' = j)) as [->|Hne].
      * destruct pending as [y|]; [|by rewrite lookup_delete_eq in Hj']. rewrite lookup_insert_eq in Hj'. injection Hj' as <-.
        destruct He as [[g' [=]]|[= -> ->]]. apply (own_acceptances w own Ho j _ sid' x Ha). left. by eexists.
      * apply (own_acceptances w own Ho j' a sid' x); [|done]. destruct pending; [by rewrite lookup_insert_ne in Hj'|by rewrite lookup_delete_ne in Hj'].
    + exact (own_origins w own Ho).
Qed.

Lemma finish_owned j w w' own : owned w own -> Forall (justified w) (ActiveTurn.emitted (turns w)) -> accept_finish j w = Some w' ->
  Forall (justified w') (ActiveTurn.emitted (turns w')) /\ exists own', owned w' own'.
Proof.
  intros Ho Hj E. unfold accept_finish in E. destruct (acceptances w !! j) as [[|sid x]|] eqn:Ha; try done. injection E as <-.
  destruct (own_acceptances w own Ho j _ sid x Ha) as [p Hown]; [by right|].
  destruct (owned_agrees w own sid _ Ho Hown) as (b & Hb & Hacc & Hterm & a & y & Hj' & He & Hd).
  rewrite Ha in Hj'. injection Hj' as <-. destruct He as [[g' [=]]|[= <-]].
  destruct (finish_accepted (turns w) sid b (ActiveTurn.exitCode x) (ActiveTurn.interrupted x) Hb Hacc) as (class & reason & ->).
  assert (ActiveTurn.mkTerminal (ActiveTurn.exitCode x) (ActiveTurn.interrupted x) = x) as -> by (by destruct x).
  split.
  - cbn [turns set_acceptances set_turns]. apply send_out_justified; [done|]. right. exists p, x. split; [exact Hd|done].
  - exists (base.delete sid own). apply (owned_step w _ own _ sid).
    + by apply processes_same.
    + done.
    + intros sid' Hne. cbn. by rewrite !lookup_delete_ne by done.
    + intros sid' ph Hne E. destruct (owned_agrees w own sid' ph Ho E) as (b' & _ & Hag).
      eapply (frame_kept w _ ph); [done|done| |done|done|done]. intros j' q ->. cbn. rewrite lookup_delete_ne; [done|]. intros <-.
      destruct Hag as (_ & _ & a & y & Hj' & Hends & _). rewrite Ha in Hj'. injection Hj' as <-. destruct Hends as [[g' [=]]|[= <- _]]. done.
    + rewrite lookup_delete_eq. cbn. by rewrite lookup_delete_eq.
    + intros k c Hc Hs. pose proof (own_calls w own Ho k c Hc Hs) as Hown'. rewrite lookup_delete_ne; [done|]. intros Heq. congruence.
    + intros q f Hq Hs. pose proof (own_processes w own Ho q f Hq Hs) as Hown'. rewrite lookup_delete_ne; [done|]. intros Heq. congruence.
    + intros j' a sid' y Hj' He. cbn in Hj'. apply lookup_delete_Some in Hj' as [Hne Hj'].
      destruct (own_acceptances w own Ho j' a sid' y Hj' He) as [q Hown']. exists q. rewrite lookup_delete_ne; [done|]. intros Heq. congruence.
    + exact (own_origins w own Ho).
Qed.

(** A step of a process that is not its report. *)
Lemma process_owned w w' own :
  processes_step w w' -> processes_ok w' -> owned w own ->
  turns w' = turns w -> calls w' = calls w -> acceptances w' = acceptances w ->
  (forall p, heap w' !! p = None \/ is_Some (heap w !! p)) ->
  (forall p, stages w' !! p = Some Reported -> stages w !! p = Some Reported) ->
  owned w' own.
Proof.
  intros Hp Hok Ho Ht Hc Ha Hdom Hrep. split.
  - intros sid. rewrite Ht. pose proof (own_bindings w own Ho sid) as Hb. destruct (own !! sid) as [ph|] eqn:E; [|done].
    destruct Hb as (b & Hb & Hag). exists b. split; [done|]. eapply agrees_frame; [done| |done].
    destruct ph as [k|p|p|j p]; cbn; [by rewrite Hc| |done|by rewrite Ha].
    destruct Hag as (_ & e & s & He & _ & _ & Hs & Hs'). split; [intros Hr; apply Hrep in Hr; congruence|].
    destruct (Hp p e He) as (e' & He' & _). specialize (Hok p). rewrite He' in Hok. destruct Hok as (_ & _ & s' & -> & _). by eexists.
  - rewrite Hc. exact (own_calls w own Ho).
  - intros p e' He' Hs. destruct (Hdom p) as [Hn|[e He]]; [congruence|]. destruct (Hp p e He) as (e2 & He2 & Hse & _ & _ & Hr).
    rewrite He2 in He'. injection He' as <-. rewrite Hse. apply (own_processes w own Ho p e He). auto.
  - rewrite Ha. exact (own_acceptances w own Ho).
  - intros p e' He'. destruct (Hdom p) as [Hn|[e He]]; [congruence|]. destruct (Hp p e He) as (e2 & _ & _ & -> & _). by apply (own_origins w own Ho p e).
Qed.

(** The turn of a process that is reported: whatever the tracker makes of the
    binding, the process has no claim any more. *)
Lemma retired_owned p w own e own' t' :
  owned w own -> heap w !! p = Some e -> own !! ClaudeCommander.session e = Some (Running p) ->
  let w' := set_stage (set_turns w t') p Reported in
  processes_step w w' ->
  (forall sid, sid <> ClaudeCommander.session e ->
     own' !! sid = own !! sid /\ ActiveTurn.bindings t' !! sid = ActiveTurn.bindings (turns w) !! sid) ->
  match own' !! ClaudeCommander.session e with
  | Some ph => exists b, ActiveTurn.bindings t' !! ClaudeCommander.session e = Some b /\ agrees w' (ClaudeCommander.session e) b ph
  | None => ActiveTurn.bindings t' !! ClaudeCommander.session e = None
  end ->
  owned w' own'.
Proof.
  intros Ho He Hown w' Hp Hother H0. apply (owned_step w _ own _ (ClaudeCommander.session e)); [done|done|done| |done|..].
  - intros sid' ph Hne E. destruct (owned_agrees w own sid' ph Ho E) as (b' & _ & Hag). destruct ph as [k|q|q|j q]; cbn; try done.
    destruct Hag as (_ & f & s' & Hq & Hse & _ & Hs' & Hne'). rewrite lookup_insert_ne; [rewrite Hs'; split; [congruence|by eexists]|].
    intros <-. rewrite He in Hq. injection Hq as <-. done.
  - intros k c Hc Hl. pose proof (own_calls w own Ho k c Hc Hl) as Hown'.
    destruct (Hother (cSession c)) as [-> _]; [|done]. intros Heq. congruence.
  - intros q f Hq Hns. cbn in Hns. assert (q <> p) as Hne by (intros ->; by rewrite lookup_insert_eq in Hns).
    rewrite lookup_insert_ne in Hns by done. pose proof (own_processes w own Ho q f Hq Hns) as Hown'.
    destruct (Hother (ClaudeCommander.session f)) as [-> _]; [|done]. intros Heq. congruence.
  - intros j a sid' t Hj Hends. destruct (own_acceptances w own Ho j a sid' t Hj Hends) as [q Hown'].
    destruct (Hother sid') as [-> _]; [|by exists q]. intros ->. congruence.
  - exact (own_origins w own Ho).
Qed.

Lemma reported_owned p w own e :
  owned w own -> stages w !! p = Some Forgotten -> heap w !! p = Some e ->
  Forall (justified w) (ActiveTurn.emitted (turns w)) ->
  let w' := set_stage (report_turn p w) p Reported in
  processes_step w w' -> Forall (justified w') (ActiveTurn.emitted (turns w')) /\ exists own', owned w' own'.
Proof.
  intros Ho Hs He Hj w' Hp. subst w'. unfold report_turn in *. rewrite He in *. set (sid := ClaudeCommander.session e) in *.
  pose proof (own_processes w own Ho p e He ltac:(congruence)) as Hown. fold sid in Hown.
  destruct (owned_agrees w own sid _ Ho Hown) as (b & Hb & Hterm & e0 & s & He0 & _ & Hg & _). rewrite He in He0. injection He0 as <-.
  assert (forall t', ended (set_stage (set_turns w t') p Reported) p sid (ActiveTurn.generation b) (exit_of e)) as Hend.
  { intros t'. exists e. cbn. by rewrite lookup_insert_eq. }
  pose proof (fun w' (H : processes_step w w') => Forall_impl _ _ _ Hj (fun o => justified_step w w' o H)) as Hj'.
  destruct (ActiveTurn.turnAccepted b) eqn:Hacc.
  - destruct (finish_accepted (turns w) sid b (ClaudeCommander.exitCode e) (ClaudeCommander.WasIntentionallyStopped e) Hb Hacc) as (class & reason & Ef).
    rewrite Ef in *. split.
    + cbn [turns set_stage set_turns]. apply send_out_justified; [by apply Hj'|]. right. exists p, (exit_of e). split; [apply Hend|done].
    + exists (base.delete sid own). apply (retired_owned p w own e); [done..| |]; fold sid; cbn.
      * intros sid' Hne. by rewrite !lookup_delete_ne by done.
      * by rewrite !lookup_delete_eq.
  - assert (ActiveTurn.finish (turns w) sid (ClaudeCommander.exitCode e) (ClaudeCommander.WasIntentionallyStopped e) =
      ActiveTurn.with_bindings (turns w) (<[sid := ActiveTurn.mkTurnBinding (ActiveTurn.generation b) (ActiveTurn.clientMsgID b)
        (ActiveTurn.hasOnLifecycle b) false (Some (exit_of e))]> (ActiveTurn.bindings (turns w)))) as Ef.
    { unfold ActiveTurn.finish. rewrite Hb, Hacc. done. }
    rewrite Ef in *. split; [by apply Hj'|].
    exists (<[sid := Stored p]> own). apply (retired_owned p w own e); [done..| |]; fold sid; cbn.
    + intros sid' Hne. by rewrite !lookup_insert_ne by done.
    + rewrite !lookup_insert_eq. eexists. split; [done|]. split; [done|]. eexists. split; [done|]. apply Hend.
Qed.

Definition sound (w : adapter) : Prop :=
  processes_ok w /\ Forall (justified w) (ActiveTurn.emitted (turns w)) /\ exists own, owned w own.

Lemma reported_only w p s q : s <> Reported -> (<[p := s]> (stages w)) !! q = Some Reported -> stages w !! q = Some Reported.
Proof. intros Hs. destruct (decide (q = p)) as [->|Hne]; [rewrite lookup_insert_eq; congruence|by rewrite lookup_insert_ne]. Qed.

Lemma heap_updated w p e q : heap w !! p = Some e -> forall e', (<[p := e']> (heap w)) !! q = None \/ is_Some (heap w !! q).
Proof. intros He e'. destruct (decide (q = p)) as [->|Hne]; [right; by eexists|]. rewrite lookup_insert_ne by done. destruct (heap w !! q); eauto. Qed.

Lemma sound_kept ev w w' own : step ev w = Some w' -> processes_ok w -> Forall (justified w) (ActiveTurn.emitted (turns w)) ->
  ActiveTurn.emitted (turns w') = ActiveTurn.emitted (turns w) -> owned w' own -> sound w'.
Proof.
  intros E Hok Hj He Ho. destruct (step_processes ev w w' E Hok) as [Hp Hok']. split; [done|]. split; [|by exists own].
  rewrite He. eapply Forall_impl; [exact Hj|]. intros o. by apply justified_step.
Qed.

(** The events of processes. *)
Lemma process_step_sound ev w w' own :
  step ev w = Some w' -> processes_ok w -> owned w own -> Forall (justified w) (ActiveTurn.emitted (turns w)) ->
  turns w' = turns w -> calls w' = calls w -> acceptances w' = acceptances w ->
  (forall p, heap w' !! p = None \/ is_Some (heap w !! p)) ->
  (forall p, stages w' !! p = Some Reported -> stages w !! p = Some Reported) -> sound w'.
Proof.
  intros E Hok Ho Hj Ht Hc Ha Hd Hr. destruct (step_processes ev w w' E Hok) as [Hp Hok'].
  eapply (sound_kept ev w w' own); [done|done|done|by rewrite Ht|]. by eapply process_owned.
Qed.

Lemma update_executor_heap w p f q : heap (update_executor w p f) !! q = None \/ is_Some (heap w !! q).
Proof. unfold update_executor. destruct (heap w !! p) as [e|] eqn:He; [by apply (heap_updated w p e)|]. destruct (heap w !! q); eauto. Qed.

Lemma interrupt_heap w r sid q : ClaudeCommander.heap (ClaudeCommander.InterruptSession r sid (commander w)).2 !! q = None \/ is_Some (heap w !! q).
Proof.
  unfold ClaudeCommander.InterruptSession. destruct (ClaudeCommander.executor_of _ _) as [[p e]|] eqn:Ex; [|cbn; destruct (heap w !! q); eauto].
  unfold ClaudeCommander.executor_of in Ex. apply bind_Some in Ex as (p' & Ht & Ex). apply bind_Some in Ex as (e' & He & [= -> ->]).
  destruct (ClaudeCommander.Interrupt r e) as [x e2]. cbn. by apply (heap_updated w p e).
Qed.

Lemma update_executor_rest w p f :
  turns (update_executor w p f) = turns w /\ calls (update_executor w p f) = calls w /\
  acceptances (update_executor w p f) = acceptances w /\ stages (update_executor w p f) = stages w.
Proof. unfold update_executor. by destruct (heap w !! p). Qed.

Lemma abort_emitted t sid g : ActiveTurn.emitted (ActiveTurn.abort t sid g) = ActiveTurn.emitted t.
Proof. unfold ActiveTurn.abort. destruct (ActiveTurn.bindings t !! sid); [|done]. by case_match. Qed.

Lemma send_begin_emitted k sid gen cid onl defer w w' : send_begin k sid gen cid onl defer w = Some w' ->
  ActiveTurn.emitted (turns w') = ActiveTurn.emitted (turns w).
Proof.
  unfold send_begin. destruct (calls w !! k); [done|]. intros [= <-]. unfold ActiveTurn.begin_turn.
  by destruct (ActiveTurn.bindings (turns w) !! sid).
Qed.

Lemma step_sound ev w w' : step ev w = Some w' -> prompt_event ev -> sound w -> sound w'.
Proof.
  intros E Hev (Hok & Hj & own & Ho). pose proof (step_processes ev w w' E Hok) as [Hp Hok']. pose proof E as Estep. destruct ev; try done; cbn [step] in E.
  - destruct (begin_owned _ _ _ _ _ _ w w' own Hp Ho E) as [own' Ho']. eapply sound_kept; [exact Estep|done|done| |exact Ho'].
    by apply send_begin_emitted in E.
  - unfold send_launch in E. destruct (calls w !! k) as [[sid gen defer [| |]]|] eqn:Hk; try done. injection E as <-.
    unfold ClaudeCommander.SendPrompt, ClaudeCommander.SendPromptInDir in *.
    destruct (ClaudeCommander.startPromptInDir _ _ _ _ _) as [[p|e] c] eqn:E.
    + eapply sound_kept; [exact Estep|done|done|done|]. by eapply launch_started_owned.
    + apply startPromptInDir_err in E as ->. eapply sound_kept; [exact Estep|done|done|done|]. 
      assert (set_commander w (commander w) = w) as -> by (by destruct w). by apply launch_failed_owned.
  - unfold send_conclude in E. destruct (calls w !! k) as [[sid gen defer [| |]]|] eqn:Hk; try done.
    + injection E as <-. eapply sound_kept; [exact Estep|done|done| |by eapply failed_owned].
      apply abort_emitted.
    + pose proof (call_dropped w own k _ Ho Hk eq_refl) as Hd. destruct defer.
      * injection E as <-. by eapply sound_kept; [exact Estep|done|done|done|].
      * destruct (accept_owned j sid gen _ w' own Hd E) as [He [own' Ho']]. by eapply sound_kept; [exact Estep|done|done| |exact Ho'].
  - destruct (accept_owned _ _ _ w w' own Ho E) as [He [own' Ho']]. by eapply sound_kept; [exact Estep|done|done| |exact Ho'].
  - destruct (emit_owned j w w' own Ho Hj E) as [Hj' Ho']. split; [done|]. split; [done|by exists own].
  - destruct (finish_owned j w w' own Ho Hj E) as [Hj' Ho']. by split.
  - destruct (stages w !! p) as [[]|] eqn:Hs; try done. injection E as <-.
    destruct (update_executor_rest w p (fun e => (ClaudeCommander.output_line source line e).2)) as (H1 & H2 & H3 & H4).
    eapply process_step_sound; [exact Estep|done|exact Ho|done|done|done|done|intros q; apply update_executor_heap|intros q; by rewrite H4].
  - destruct (stages w !! p) as [[]|] eqn:Hs; try done. injection E as <-.
    destruct (update_executor_rest w p (ClaudeCommander.reap code)) as (H1 & H2 & H3 & H4).
    eapply process_step_sound; [exact Estep|done|exact Ho|done|done|done|done|intros q; apply update_executor_heap|].
    intros q. cbn. rewrite H4. by apply reported_only.
  - destruct (stages w !! p) as [[]|] eqn:Hs; try done. injection E as <-.
    eapply process_step_sound; [exact Estep|done|exact Ho|done|done|done|done| |].
    + intros q. cbn. rewrite forget_heap. destruct (heap w !! q); eauto.
    + intros q. cbn. by apply reported_only.
  - destruct (stages w !! p) as [[]|] eqn:Hs; try done. injection E as <-. destruct (heap w !! p) as [e|] eqn:He.
    2: { specialize (Hok p). rewrite He in Hok. congruence. }
    destruct (reported_owned p w own e Ho Hs He Hj Hp) as [Hj' Ho']. by split.
  - injection E as <-. eapply process_step_sound; [exact Estep|done|exact Ho|done|done|done|done|intros q; apply interrupt_heap|done].
Qed.

Lemma new_sound sink : sound (NewClaudeCodeAdapter sink).
Proof.
  split; [apply new_processes_ok|]. split; [done|]. exists ∅. split; cbn.
  - intros sid. by rewrite !lookup_empty.
  - intros k c. by rewrite lookup_empty.
  - intros p e. by rewrite lookup_empty.
  - intros j a sid t. by rewrite lookup_empty.
  - intros p e. by rewrite lookup_empty.
Qed.

Lemma run_sound evs w w' : run evs w w' -> Forall prompt_event evs -> sound w -> sound w'.
Proof.
  intros Hr. induction Hr as [|evs ev w1 w2 w3 _ IH Hs]; [done|]. intros Hev Hw. apply Forall_app in Hev as [H1 H2].
  rewrite Forall_singleton in H2. eapply step_sound; [exact Hs|exact H2|by apply IH].
Qed.

(** C14: C: however sends, acknowledgements, interruptions and the ends of processes
    interleave, every end of a turn the tracker reports is the outcome of a process
    that was started for that prompt and has ended; and when nothing is under way, a
    session that is still held has an end stored that only waits for its
    acknowledgement, so no session stays busy behind a process that is gone. *)
Theorem turns_end_with_their_process (evs : list event) (sink : bool) (w : adapter) :
  run evs (NewClaudeCodeAdapter sink) w -> Forall prompt_event evs ->
  Forall (justified w) (ActiveTurn.emitted (turns w)) /\
  (calls w = ∅ -> (forall j a, acceptances w !! j = Some a -> forall sid t, ~ ends_turn a sid t) ->
   (forall p s, stages w !! p = Some s -> s = Reported) ->
   forall sid b, ActiveTurn.bindings (turns w) !! sid = Some b ->
     ActiveTurn.turnAccepted b = false /\ exists p t, ActiveTurn.terminal b = Some t /\ ended w p sid (ActiveTurn.generation b) t).
Proof.
  intros Hr Hev. destruct (run_sound _ _ _ Hr Hev (new_sound sink)) as (Hok & Hj & own & Ho). split; [done|].
  intros Hc Ha Hs sid b Hb. pose proof (own_bindings w own Ho sid) as Hown. destruct (own !! sid) as [ph|]; [|congruence].
  destruct Hown as (b' & Hb' & Hag). rewrite Hb in Hb'. injection Hb' as <-. destruct ph as [k|p|p|j p]; cbn in Hag.
  - destruct Hag as (_ & c & Hk & _). by rewrite Hc, lookup_empty in Hk.
  - destruct Hag as (_ & e & s & _ & _ & _ & Hst & Hne). by apply Hs in Hst.
  - destruct Hag as (Hacc & t & Ht & He). split; [done|]. by exists p, t.
  - destruct Hag as (_ & _ & a & t & Hj' & He & _). by destruct (Ha j a Hj' sid t).
Qed.

(** ** A round of discovery *)

Section Sessions.
Context `{GoTime}.
Variable now : Z.
Variable running : string -> bool.

Abbreviation key f := (normalizedDiscoveryPath (wPath f)).

(** The session in a file that no cache knows, and the one that is shown. *)
Definition file_session (f : walked) : option SessionInfo :=
  if old_file now f
  then CodexRolloutSpec.option_of (probeOldSessionAttention newFileDiscoveryCache (wPath f) (wInfo f) (wContent f) now running).1
  else CodexRolloutSpec.option_of (parseSessionFile newFileDiscoveryCache (wPath f) (wInfo f) (wContent f) now running).1.

Definition shown (f : walked) : option SessionInfo :=
  s ← file_session f; if sessionIsVisible (sStatus s) (sLastActivity s) now then Some s else None.

Definition keeps (f : walked) : bool := (negb (old_file now f) || bool_decide (is_Some (shown f)))%bool.

Lemma parseSessionFile_miss c f : entries c !! key f = None ->
  exists e, parseSessionFile c (wPath f) (wInfo f) (wContent f) now running =
    ((parseSessionFile newFileDiscoveryCache (wPath f) (wInfo f) (wContent f) now running).1, e) /\
  dom (entries e) = {[key f]} ∪ dom (entries c).
Proof.
  intros Hn. unfold parseSessionFile.
  destruct (CodexRolloutSpec.load_miss c (wPath f) (wInfo f) (parseSessionFileUncached (wPath f) (wContent f) (modifiedUnixNS (wInfo f)) now) Hn)
    as [H1 H2].
  destruct (load c _ _ _) as [r e]. cbn [fst snd] in H1, H2. subst r. eexists. split; [done|]. rewrite H2. apply dom_insert_L.
Qed.

Lemma probeOldSession_miss c f : entries c !! key f = None ->
  exists e, probeOldSessionAttention c (wPath f) (wInfo f) (wContent f) now running =
    ((probeOldSessionAttention newFileDiscoveryCache (wPath f) (wInfo f) (wContent f) now running).1, e) /\
  dom (entries e) = {[key f]} ∪ dom (entries c).
Proof.
  intros Hn. unfold probeOldSessionAttention. set (parsed := (wContent f ≫= _)).
  destruct (CodexRolloutSpec.load_miss c (wPath f) (wInfo f) parsed Hn) as [H1 H2].
  destruct (load c _ _ _) as [r e]. cbn [fst snd] in H1, H2. subst r. eexists. split; [done|]. rewrite H2. apply dom_insert_L.
Qed.

(** One file that neither cache knows. *)
Lemma visit_unknown r f : entries (rDiscovery r) !! key f = None -> entries (rAttention r) !! key f = None ->
  exists dc ac, visit_transcript now running r f =
    mkRound dc ac (if keeps f then {[key f]} ∪ rKeep r else rKeep r)
      (match shown f with Some s => <[sID s := sSessionPath s]> (rLastPaths r) | None => rLastPaths r end)
      (rSessions r ++ option_list (shown f)) /\
  dom (entries dc) ⊆ {[key f]} ∪ dom (entries (rDiscovery r)) /\ dom (entries ac) ⊆ {[key f]} ∪ dom (entries (rAttention r)).
Proof.
  intros Hd Ha. unfold visit_transcript, read_transcript, keeps, shown, file_session. destruct (old_file now f) eqn:Hold.
  - unfold peek, current_entry. rewrite Hd. destruct (probeOldSession_miss (rAttention r) f Ha) as (e & -> & He).
    destruct (probeOldSessionAttention newFileDiscoveryCache _ _ _ _ _).1 as [s|x]; cbn [CodexRolloutSpec.option_of mbind option_bind negb orb].
    + destruct (sessionIsVisible _ _ _); eexists _, e; (split; [cbn; rewrite ?app_nil_r; done|split; [set_solver|by rewrite He]]).
    + eexists _, e. split; [cbn; by rewrite app_nil_r|]. split; [set_solver|by rewrite He].
  - destruct (parseSessionFile_miss (rDiscovery r) f Hd) as (e & E & He). cbn [rDiscovery]. rewrite E.
    destruct (parseSessionFile newFileDiscoveryCache _ _ _ _ _).1 as [s|x]; cbn [CodexRolloutSpec.option_of mbind option_bind negb orb].
    + destruct (sessionIsVisible _ _ _); eexists e, _; (split; [cbn; rewrite ?app_nil_r; done|split; [by rewrite He|set_solver]]).
    + eexists e, _. split; [cbn; by rewrite app_nil_r|]. split; [by rewrite He|set_solver].
Qed.

Definition remember (m : gmap string string) (s : SessionInfo) : gmap string string := <[sID s := sSessionPath s]> m.

Lemma visits_unknown fs r : NoDup ((fun f => key f) <$> fs) ->
  (forall f, f ∈ fs -> key f ∉ dom (entries (rDiscovery r)) /\ key f ∉ dom (entries (rAttention r))) ->
  let r' := foldl (visit_transcript now running) r fs in
  rSessions r' = rSessions r ++ omap shown fs /\
  rLastPaths r' = foldl remember (rLastPaths r) (omap shown fs) /\
  forall k, k ∈ rKeep r' <-> k ∈ rKeep r \/ exists f, f ∈ fs /\ keeps f = true /\ k = key f.
Proof.
  revert r. induction fs as [|f fs IH]; intros r Hnd Hcold; cbn [foldl fmap list_fmap] in *.
  - rewrite app_nil_r. split; [done|]. split; [done|]. intros k. split; [auto|]. intros [?|(f & Hf & _)]; [done|by apply not_elem_of_nil in Hf].
  - apply NoDup_cons in Hnd as [Hf Hnd]. destruct (Hcold f) as [Hd Ha]; [by left|].
    destruct (visit_unknown r f) as (dc & ac & -> & Hdc & Hac); [by apply not_elem_of_dom|by apply not_elem_of_dom|].
    destruct (IH (mkRound dc ac (if keeps f then {[key f]} ∪ rKeep r else rKeep r)
      (match shown f with Some s => <[sID s := sSessionPath s]> (rLastPaths r) | None => rLastPaths r end)
      (rSessions r ++ option_list (shown f))) Hnd) as (H1 & H2 & H3).
    { intros g Hg. destruct (Hcold g) as [Hd' Ha']; [by right|].
      assert (key g <> key f) as Hne by (intros E; apply Hf; rewrite <- E; apply list_elem_of_fmap; by exists g). set_solver. }
    cbn [rSessions rLastPaths rKeep] in *. split; [|split].
    + rewrite H1, <- app_assoc. f_equal. cbn [omap list_omap]. by destruct (shown f).
    + rewrite H2. cbn [omap list_omap]. by destruct (shown f).
    + intros k. rewrite H3. destruct (keeps f) eqn:Hk; setoid_rewrite elem_of_cons; [rewrite elem_of_union, elem_of_singleton|]; split.
      * intros [[->|?]|(g & Hg & Hkg & ->)]; [right; exists f; auto|auto|right; exists g; auto].
      * intros [?|(g & [->|Hg] & Hkg & ->)]; [auto|auto|right; exists g; auto].
      * intros [?|(g & Hg & Hkg & ->)]; [auto|right; exists g; auto].
      * intros [?|(g & [->|Hg] & Hkg & ->)]; [auto|congruence|right; exists g; auto].
Qed.

Lemma shown_status f s : shown f = Some s ->
  sStatus s = if (running (sID s) || (now - sLastActivity s <? minute))%bool then "running" else "idle".
Proof.
  unfold shown, file_session. intros E. apply bind_Some in E as (s' & Hs & E). destruct (sessionIsVisible _ _ _); [|done]. injection E as ->.
  assert (exists x, s = applyClaudeDynamicStatus now running x) as [x ->].
  { destruct (old_file now f); unfold probeOldSessionAttention, parseSessionFile in Hs;
      (destruct (load _ _ _ _) as [[x|x] c]; [|done]; injection Hs as <-; by exists x). }
  unfold applyClaudeDynamicStatus, with_status. cbn. destruct (running (sID x)); [done|]. by destruct (_ <? _).
Qed.

(** C: a first round of discovery lists exactly the visible sessions of the
    transcripts outside directories of subagents, in the order of the files; each is
    running exactly when its process runs or it was active within a minute; a
    session is found again under the last path listed for its id; and the cache
    keeps the files that are recent or listed. *)
Theorem claude_discovery_is_exact (exists_ : string -> bool) (lastPaths : gmap string string) (files : list walked)
    (l : list SessionInfo) (r : round) :
  NoDup ((fun f => key f) <$> walk_files None files) ->
  Discover now running newFileDiscoveryCache newFileDiscoveryCache exists_ lastPaths (Some files) = (l, r) ->
  l = omap shown (walk_files None files) /\
  Forall (fun s => sStatus s = "running" <-> running (sID s) = true \/ now - sLastActivity s < minute) l /\
  rLastPaths r = foldl remember lastPaths l /\
  forall k, k ∈ dom (entries (rDiscovery r)) -> exists f, f ∈ walk_files None files /\ keeps f = true /\ k = key f.
Proof.
  intros Hnd E. unfold Discover in E. injection E as <- <-.
  destruct (visits_unknown (walk_files None files) (mkRound newFileDiscoveryCache newFileDiscoveryCache ∅ lastPaths []) Hnd) as (H1 & H2 & H3).
  { intros f _. cbn. rewrite dom_empty_L. set_solver. }
  cbn [rSessions rLastPaths rKeep app] in H1, H2, H3. split; [done|]. split; [|split].
  - rewrite H1. apply Forall_forall. intros s Hs. apply list_elem_of_omap in Hs as (f & _ & Hf). rewrite (shown_status f s Hf).
    destruct (running (sID s)); cbn; [intuition|]. destruct (Z.ltb_spec (now - sLastActivity s) minute); intuition (try done; lia).
  - cbn [rLastPaths]. by rewrite H2, H1.
  - intros k Hk. cbn [rDiscovery] in Hk. apply elem_of_dom in Hk as [e Hk]. unfold prune, keep_entries in Hk. cbn in Hk.
    apply map_lookup_filter_Some in Hk as [_ Hk]. cbn in Hk. apply bool_decide_eq_true in Hk. apply H3 in Hk as [Hk|Hk]; [set_solver|done].
Qed.

(** ** History *)

Lemma claude_history_entry_bounds line id role content t :
  claude_history_entry line = Some (id, role, content, t) ->
  (role = "user" \/ role = "assistant") /\ content <> "" /\ (rune_count content <= 4001)%nat.
Proof.
  unfold claude_history_entry. intros He. apply bind_Some in He as (msg & _ & He). cbv zeta in He. apply bind_Some in He as (r & Hr & He).
  destruct (_ || _)%bool eqn:E in He; [done|]. injection He as <- <- <- <-. apply orb_false_elim in E as [E _]. apply is_empty_false in E.
  split; [|split; [by apply CodexRolloutSpec.truncateRunes_nonempty|by apply (CodexRolloutSpec.truncateRunes_bound _ 4000)]].
  assert (forall o, chat_role o = Some r -> r = "user" \/ r = "assistant") as Hchat.
  { intros o Ho. unfold chat_role in Ho. apply bind_Some in Ho as (s & _ & Ho). destruct (_ || _)%bool eqn:E' in Ho; [|done]. injection Ho as ->.
    apply orb_prop in E' as [E'|E']; apply String.eqb_eq in E'; auto. }
  destruct (as_map (assoc "message" msg) ≫= _) as [r'|] eqn:En in Hr; [|by eapply Hchat].
  injection Hr as ->. apply bind_Some in En as (o & _ & En). by eapply Hchat.
Qed.

(** C: the history of a transcript is its bounded end: at most 40 messages, the last
    ones in their order, each a text of the user or the assistant that is not empty
    and has at most 4000 characters and the mark of the cut. *)
Theorem claude_history_is_the_bounded_end owned_ path s sessionID limit msgs failed :
  FetchHistory owned_ path (Ok s) now sessionID limit = Ok (msgs, failed) ->
  let all := imap (claude_history_message sessionID now) (omap claude_history_entry (scan_lines rolloutLimit s).1) in
  (exists older, all = older ++ msgs) /\
  Z.of_nat (List.length msgs) = Z.min (Z.of_nat (List.length all)) (if limit <=? 0 then 40 else Z.min limit 40) /\
  Forall (fun m => (hRole m = "user" \/ hRole m = "assistant") /\ hContent m <> "" /\ (rune_count (hContent m) <= 4001)%nat) msgs.
Proof.
  unfold FetchHistory. cbv zeta. destruct (_ || _)%bool; [done|]. cbn [mbind res_bind].
  destruct (scan_lines rolloutLimit s) as [lines e]. cbn [fst]. set (all := imap _ _). intros [= <- <-].
  destruct (CodexRolloutSpec.takeLastHistory_suffix all (clampHistoryLimit limit)) as (older & Ho & Hlen).
  split; [by exists older|]. split.
  - rewrite Hlen. f_equal. unfold clampHistoryLimit. repeat case_match; bool_hyps; lia.
  - apply Forall_forall. intros m Hm.
    assert (m ∈ all) as Hall by (rewrite Ho; apply elem_of_app; by right). clear Ho Hlen Hm.
    apply elem_of_lookup_imap in Hall as (i & [[[id role] content] t] & -> & He).
    apply list_elem_of_lookup_2 in He. apply list_elem_of_omap in He as (line & _ & He). by apply claude_history_entry_bounds in He.
Qed.
End Sessions.

(** ** Concrete inputs *)

Definition steps (evs : list event) (w : adapter) : option adapter := foldl (fun o ev => o ≫= step ev) (Some w) evs.

Lemma steps_run evs w w' : steps evs w = Some w' -> run evs w w'.
Proof.
  revert w'. induction evs as [|ev evs IH] using rev_ind; intros w' E; [injection E as <-; constructor|].
  unfold steps in E. rewrite foldl_app in E. apply bind_Some in E as (w2 & E2 & E). by eapply run_snoc; [apply IH|].
Qed.

Module Demo.

Definition launches (args : list string) (dir : string) : res unit := Ok tt.

(** A prompt from the phone, until its process has ended. *)
Definition prompt_run : list event :=
  [SendBegin 0 "s" 1 "m1" true false; SendLaunch 0 launches "hello" []; SendConclude 0 0; AcceptEmit 0;
   SendBegin 1 "s" 2 "m2" true false; ProcessOutput 0 "stderr" "x"; ProcessReaped 0 3; ProcessForgotten 0; ProcessReported 0].
Definition after_prompt : adapter := default (NewClaudeCodeAdapter true) (steps prompt_run (NewClaudeCodeAdapter true)).

Lemma turns_end_with_their_process_witness :
  run prompt_run (NewClaudeCodeAdapter true) after_prompt /\ Forall prompt_event prompt_run /\
  (List.length (ActiveTurn.emitted (turns after_prompt)) = 4)%nat /\ Forall (justified after_prompt) (ActiveTurn.emitted (turns after_prompt)).
Proof.
  assert (run prompt_run (NewClaudeCodeAdapter true) after_prompt) as Hr by (apply steps_run; vm_compute; reflexivity).
  assert (Forall prompt_event prompt_run) as Hev by (repeat constructor).
  split; [exact Hr|]. split; [exact Hev|]. split; [vm_compute; reflexivity|].
  exact (proj1 (turns_end_with_their_process prompt_run true after_prompt Hr Hev)).
Defined.

Definition running_run : list event :=
  [SendBegin 0 "s" 1 "m1" true true; SendLaunch 0 launches "hello" []; SendConclude 0 0; InterruptTurn "s" (Ok tt)].
Definition running_adapter : adapter := default (NewClaudeCodeAdapter true) (steps running_run (NewClaudeCodeAdapter true)).
Definition running_executor : ClaudeCommander.AgentExecutor :=
  ClaudeCommander.mkExecutor "s" true false (-1) true false.

Lemma one_process_per_session_witness :
  heap running_adapter !! 0%nat = Some running_executor /\
  ClaudeCommander.executor_of (commander running_adapter) "s" = Some (0%nat, running_executor).
Proof.
  assert (run running_run (NewClaudeCodeAdapter true) running_adapter) as Hr by (apply steps_run; vm_compute; reflexivity).
  split; [vm_compute; reflexivity|].
  exact (proj1 (one_process_per_session running_run true running_adapter Hr 0%nat running_executor eq_refl eq_refl)).
Defined.

(** The process that created a thread ends while the next prompt of the session
    starts: its late report ends the turn of that prompt, whose own process runs. *)
Definition late_report : list event :=
  [ThreadLaunch (Ok tt) launches "s" "/w" "first"; ProcessReaped 0 0;
   SendBegin 0 "s" 1 "m1" true false; SendLaunch 0 launches "second" []; SendConclude 0 0; AcceptEmit 0;
   ProcessForgotten 0; ProcessReported 0].

Example thread_end_ends_the_next_turn :
  match steps late_report (NewClaudeCodeAdapter false) with
  | Some w => ActiveTurn.emitted (turns w) =
                [ActiveTurn.OnLifecycle 1 ActiveTurn.TurnAccepted ""; ActiveTurn.OnLifecycle 1 ActiveTurn.TurnTerminalSuccess ""] /\
              (ClaudeCommander.running <$> heap w !! 1%nat) = Some true /\ ActiveTurn.bindings (turns w) = ∅
  | None => False
  end.
Proof. vm_compute. done. Qed.

(** So does a prompt that is given up while its process runs. *)
Definition given_up : list event :=
  [SendBegin 0 "s" 1 "m1" true true; SendLaunch 0 launches "first" []; SendConclude 0 0; Abandon "s" 1; ProcessReaped 0 1;
   SendBegin 1 "s" 2 "m2" true false; SendLaunch 1 launches "second" []; SendConclude 1 0; AcceptEmit 0; ProcessForgotten 0; ProcessReported 0].

Example abandoned_prompt_ends_the_next_turn :
  match steps given_up (NewClaudeCodeAdapter false) with
  | Some w => ActiveTurn.emitted (turns w) =
                [ActiveTurn.OnLifecycle 2 ActiveTurn.TurnAccepted "";
                 ActiveTurn.OnLifecycle 2 ActiveTurn.TurnTerminalFailure "native process exited unsuccessfully"] /\
              (ClaudeCommander.running <$> heap w !! 1%nat) = Some true
  | None => False
  end.
Proof. vm_compute. done. Qed.

#[local] Instance no_time : GoTime := {| time_Parse := fun _ _ => None |}.

Definition transcript_file (path : string) (t : Z) (text : string) : walked :=
  mkWalked path false (DiscoveryCache.mkFingerprint (len text) t) (Ok text).
Definition files : list walked :=
  [mkWalked "/p/-w" true (DiscoveryCache.mkFingerprint 0 0) (Ok "");
   transcript_file "/p/-w/a.jsonl" (5 * minute) (doc "{'type': 'assistant', 'message': {'role': 'assistant', 'content': 'hi'}}");
   mkWalked "/p/-w/Subagents" true (DiscoveryCache.mkFingerprint 0 0) (Ok "");
   transcript_file "/p/-w/Subagents/b.jsonl" (5 * minute) (doc "{'type': 'user'}")].
Definition session_a : SessionInfo := mkSession "a" "idle" "hi" (5 * minute) "/p/-w/a.jsonl" "/w" None None.

Definition empty_caches := @newFileDiscoveryCache SessionInfo.

Lemma claude_discovery_is_exact_witness :
  exists r, Discover (7 * minute) (fun _ => false) empty_caches empty_caches (fun _ => true) ∅ (Some files) = ([session_a], r) /\
    rLastPaths r = {["a" := "/p/-w/a.jsonl"]}.
Proof.
  destruct (Discover (7 * minute) (fun _ => false) empty_caches empty_caches (fun _ => true) ∅ (Some files)) as [l r] eqn:E.
  exists r. assert (l = [session_a]) as ->.
  { transitivity (Discover (7 * minute) (fun _ => false) empty_caches empty_caches (fun _ => true) ∅ (Some files)).1;
      [by rewrite E|vm_compute; reflexivity]. }
  split; [reflexivity|].
  assert (NoDup ((fun f => normalizedDiscoveryPath (wPath f)) <$> walk_files None files)) as Hnd by (vm_compute; apply NoDup_singleton).
  refine (eq_trans (proj1 (proj2 (proj2 (claude_discovery_is_exact (7 * minute) (fun _ => false) (fun _ => true) ∅ files [session_a] r Hnd E)))) _).
  vm_compute. reflexivity.
Defined.

Lemma claude_history_is_the_bounded_end_witness :
  exists msgs, FetchHistory true "/p/a.jsonl" (Ok (doc "{'type': 'user', 'message': {'role': 'user', 'content': 'hi'}}")) 0 "a" 10 = Ok (msgs, false) /\
    Z.of_nat (List.length msgs) = 1.
Proof.
  eexists. split; [vm_compute; reflexivity|].
  refine (eq_trans (proj1 (proj2 (claude_history_is_the_bounded_end 0 true "/p/a.jsonl"
    (doc "{'type': 'user', 'message': {'role': 'user', 'content': 'hi'}}") "a" 10 _ false _))) _);
    vm_compute; reflexivity.
Defined.

End Demo.
