(* ===== verification/AcpStartSpec.v ===== *)
(** * Theorems about [AcpStart]

    In every interleaving of the caller, the reader and the end of the process: the
    requests of the exchange, when a native session may exist, and the one result
    of the prompt. *)

From stdpp Require Import base tactics list gmap strings.
From Stdlib Require Import Ascii ZArith Lia.
From S2P Require Import Prelude GoStrings Json Protocol JsonDecode AcpStart.

Section Spec.
Variable dir prompt : string.

Inductive run : list event -> ACPProcess -> Prop :=
  | run_spawned : run [] spawned
  | run_snoc evs ev p p' : run evs p -> step dir prompt ev p = Some p' -> run (evs ++ [ev]) p'.

(** The requests that were tried, with the outcome of the write; the prompt's ends. *)
Definition request_of (a : acp_message * bool) : option (Z * value * bool) :=
  match a with (Request id _ params, ok) => Some (id, params, ok) | _ => None end.
Definition requests (p : ACPProcess) : list (Z * value * bool) := omap request_of (attempts p).

Definition end_of (n : notice) : option (string * option acp_error) := match n with PromptEnded s e => Some (s, e) | _ => None end.
Definition ends (p : ACPProcess) : list (string * option acp_error) := omap end_of (notices p).

Definition req1 (ok : bool) : Z * value * bool := (1, initialize_params, ok).
Definition req2 (ok : bool) : Z * value * bool := (2, new_params dir, ok).
Definition req3 (sid : string) (ok : bool) : Z * value * bool := (3, prompt_params sid prompt, ok).

(** The replies that led on. *)
Definition initialized (p : ACPProcess) : Prop := exists r, delivered p !! "1" = Some r /\ remote_error "initialize" r = None /\ negotiated r = true.
Definition created (p : ACPProcess) (sid : string) : Prop :=
  exists r, delivered p !! "2" = Some r /\ remote_error "session/new" r = None /\ session_of r = Some sid.
Definition refused (p : ACPProcess) (e : acp_error) : Prop :=
  exists r, delivered p !! "2" = Some r /\ remote_error "session/new" r = Some e.

(** What was tried before a failure. *)
Inductive tried (p : ACPProcess) (e : acp_error) : Prop :=
  | tried_nothing : requests p = [] \/ requests p = [req1 true] \/ requests p = [req1 false] ->
      NativeCreatePossible (result p) = false -> ends p = [] -> tried p e
  | tried_new : initialized p -> requests p = [req1 true] \/ requests p = [req1 true; req2 true] \/ requests p = [req1 true; req2 false] ->
      NativeCreatePossible (result p) = true \/ refused p e -> ends p = [] -> tried p e
  | tried_prompt sid : initialized p -> created p sid -> SessionID (result p) = sid ->
      requests p = [req1 true; req2 true] \/ requests p = [req1 true; req2 true; req3 sid false] ->
      NativeCreatePossible (result p) = true -> ends p = [(sid, Some e)] -> tried p e.

Definition known (p : ACPProcess) : gset string := registered p ∪ dom (delivered p).

Definition at_position (p : ACPProcess) : Prop :=
  match at_ p with
  | Spawned => requests p = [] /\ NativeCreatePossible (result p) = false /\ promptResult p = None /\ ends p = [] /\ known p = ∅
  | AwaitInitialize => requests p = [req1 true] /\ NativeCreatePossible (result p) = false /\ promptResult p = None /\ ends p = [] /\
      known p ⊆ {["1"]}
  | AwaitSession => requests p = [req1 true; req2 true] /\ NativeCreatePossible (result p) = true /\ promptResult p = None /\ ends p = [] /\
      initialized p /\ known p ⊆ {["1"; "2"]}
  | StartFailed e => promptResult p = Some (Some e) /\ tried p e
  | Prompted => promptResult p = None /\ ends p = [] /\ NativeCreatePossible (result p) = true /\ initialized p /\
      created p (SessionID (result p)) /\ requests p = [req1 true; req2 true; req3 (SessionID (result p)) true]
  | Concluded => NativeCreatePossible (result p) = true /\ initialized p /\ created p (SessionID (result p)) /\
      requests p = [req1 true; req2 true; req3 (SessionID (result p)) true] /\
      exists e, promptResult p = Some e /\ ends p = [(SessionID (result p), e)] /\
        (e = None -> exists r, delivered p !! "3" = Some r /\ remote_error "session/prompt" r = None)
  end.

Definition sound (p : ACPProcess) : Prop :=
  PromptAccepted (result p) = false /\ registered p ## dom (delivered p) /\ at_position p.

(** *** Steps outside the exchange *)

(** A step of the reader, the end of the process, or a cancellation: replies are
    only added, requests and ends are as before. *)
Definition aside (p p' : ACPProcess) : Prop :=
  at_ p' = at_ p /\ result p' = result p /\ promptResult p' = promptResult p /\ requests p' = requests p /\ ends p' = ends p /\
  known p' = known p /\ registered p' ## dom (delivered p') /\
  (forall id r, delivered p !! id = Some r -> delivered p' !! id = Some r).

Lemma sound_aside p p' : aside p p' -> sound p -> sound p'.
Proof.
  intros (Ha & Hr & Hpr & Hq & He & Hk & Hd & Hdel) (Hpa & _ & Hat). split; [by rewrite Hr|]. split; [done|].
  assert (initialized p -> initialized p') as Hi by (intros (r & H & ?); exists r; auto).
  assert (forall s, created p s -> created p' s) as Hc by (intros s (r & H & ?); exists r; auto).
  assert (forall e, refused p e -> refused p' e) as Hf by (intros e (r & H & ?); exists r; auto).
  unfold at_position in *. rewrite Ha, Hr, Hpr, Hq, He, Hk. destruct (at_ p).
  - done.
  - done.
  - naive_solver.
  - destruct Hat as [H1 H2]. split; [done|]. destruct H2 as [H2 H3 H4|H2 H3 H4 H5|sid H2 H3 H4 H5 H6 H7];
      [apply tried_nothing|apply tried_new|apply (tried_prompt _ _ sid)]; rewrite ?Hq, ?Hr, ?He; naive_solver.
  - naive_solver.
  - destruct Hat as (H1 & H2 & H3 & H4 & e & H5 & H6 & H7). split_and!; auto. exists e. split_and!; auto. intros He0.
    destruct (H7 He0) as (r & Hr3 & ?). exists r. auto.
Qed.

Lemma aside_refl p : registered p ## dom (delivered p) -> aside p p.
Proof. by repeat split. Qed.

Lemma aside_trans p1 p2 p3 : aside p1 p2 -> aside p2 p3 -> aside p1 p3.
Proof. unfold aside. intros (?&?&?&?&?&?&?&?) (?&?&?&?&?&?&?&?). split_and!; try congruence; auto. Qed.

Lemma aside_deliver id e p : registered p ## dom (delivered p) -> aside p (deliver id e p).
Proof.
  intros Hd. unfold deliver. case_bool_decide as Hin; [|by apply aside_refl]. unfold aside, known. cbn. split_and!; try done.
  - rewrite dom_insert_L. apply set_eq. intros x. destruct (decide (x = id)); set_solver.
  - rewrite dom_insert_L. set_solver.
  - intros i r Hi. rewrite lookup_insert_ne; [done|]. intros <-. apply elem_of_dom_2 in Hi. set_solver.
Qed.

Lemma aside_notice n p : registered p ## dom (delivered p) -> end_of n = None -> aside p (add_notice p n).
Proof. intros Hd Hn. unfold aside, ends. cbn. rewrite omap_app. cbn. rewrite Hn. by rewrite app_nil_r. Qed.

Lemma aside_write m o p : registered p ## dom (delivered p) -> request_of (m, is_ok o) = None -> aside p (write m o p).2.
Proof.
  intros Hd Hm. unfold write. destruct (negb (stdin p)); [by apply aside_refl|]. unfold aside, requests. cbn. rewrite omap_app. cbn [omap list_omap].
  rewrite Hm. by rewrite app_nil_r.
Qed.

Lemma aside_line line o p : registered p ## dom (delivered p) -> aside p (read_acp_line line o p).
Proof.
  intros Hd. unfold read_acp_line. destruct (decode_envelope line) as [e|]; [|by apply aside_refl].
  set (q := if String.eqb _ _ then _ else _).
  assert (aside p q) as Hq.
  { subst q. destruct (String.eqb _ _); [|by apply aside_refl]. destruct (update_of e) as [[s u]|]; [by apply aside_notice|by apply aside_refl]. }
  destruct (eID e) as [id|]; destruct (is_empty (eMethod e)); [by apply aside_deliver| |done|done].
  eapply aside_trans; [exact Hq|]. apply aside_write; [|done]. by destruct Hq as (_&_&_&_&_&_&?&_).
Qed.

Lemma aside_exit code p : registered p ## dom (delivered p) -> aside p (process_exit code p).
Proof. intros Hd. unfold aside, ends. cbn. rewrite omap_app. cbn. by rewrite app_nil_r. Qed.

(** *** Steps of the exchange *)

Lemma call_ends_reply id m w p r : call_ends id m w p = Some (inr r) -> delivered p !! id = Some r /\ remote_error m r = None.
Proof.
  unfold call_ends, validate. destruct w; try done.
  - intros E. apply fmap_Some in E as (r' & Hr & E). destruct (remote_error m r') eqn:He; [done|]. by injection E as ->.
  - destruct (done_ p); [|done]. destruct (delivered p !! id) as [r'|]; [|done]. destruct (remote_error m r') eqn:He; [done|]. by intros [= ->].
Qed.

Lemma call_ends_refused id m w p m' b : call_ends id m w p = Some (inl (acpRemoteError m' b)) ->
  exists r, delivered p !! id = Some r /\ remote_error m r = Some (acpRemoteError m' b).
Proof.
  unfold call_ends, validate. destruct w; try done.
  - intros E. apply fmap_Some in E as (r & Hr & E). exists r. destruct (remote_error m r) eqn:He; [|done]. by injection E as ->.
  - destruct (done_ p); [|done]. destruct (delivered p !! id) as [r|]; [|done]. destruct (remote_error m r) eqn:He; [|done].
    intros [= ->]. by exists r.
Qed.

Lemma sound_fail e p : PromptAccepted (result p) = false -> registered p ## dom (delivered p) -> promptResult p = None -> tried p e ->
  sound (fail_start e p).
Proof. intros Hpa Hd Hpr Ht. split; [done|]. split; [done|]. unfold at_position. cbn. rewrite Hpr. split; [done|]. by destruct Ht; [apply tried_nothing|apply tried_new|eapply tried_prompt]. Qed.

(** What [send_request] leaves: the request tried and its position, or a failure. *)
Lemma send_request_sound id m params o next p :
  PromptAccepted (result p) = false -> registered p ## dom (delivered p) -> promptResult p = None -> Itoa id ∉ dom (delivered p) ->
  (forall q, requests q = requests p \/ requests q = requests p ++ [(id, params, false)] -> result q = result p ->
     ends q = ends p -> delivered q = delivered p -> forall e, tried q (OtherError e)) ->
  (forall q, at_ q = next -> requests q = requests p ++ [(id, params, true)] -> result q = result p -> promptResult q = None ->
     ends q = ends p -> delivered q = delivered p -> known q = {[Itoa id]} ∪ known p -> at_position q) ->
  sound (send_request id m params o next p).
Proof.
  intros Hpa Hd Hpr Hid Hfail Hnext. unfold send_request, write. cbn [stdin responseFor].
  assert ({[Itoa id]} ∪ registered p ## dom (delivered p)) as Hd' by set_solver. destruct (stdin p); cbn [negb].
  - destruct o as [u|e].
    + split; [done|]. split; [done|]. apply Hnext; try done.
      * unfold requests. cbn. by rewrite omap_app.
      * unfold known. cbn. set_solver.
    + apply sound_fail; try done. apply Hfail; try done. right. unfold requests. cbn. by rewrite omap_app.
  - apply sound_fail; try done. apply Hfail; try done. by left.
Qed.

Lemma begin_sound o p : sound p -> at_ p = Spawned -> sound (start_initialize o p).
Proof.
  intros (Hpa & Hd & Hat) Ha. unfold at_position in Hat. rewrite Ha in Hat. destruct Hat as (Hq & Hn & Hpr & He & Hk).
  assert (dom (delivered p) = ∅) as Hdom by (unfold known in Hk; set_solver).
  apply send_request_sound; try done; [by rewrite Hdom| |].
  - intros q Hrq Hr Heq _ e. apply tried_nothing; [|by rewrite Hr|by rewrite Heq]. rewrite Hq in Hrq. destruct Hrq as [-> | ->]; [by left|by right; right].
  - intros q Hat Hrq Hr Hprq Heq _ Hkq. unfold at_position. rewrite Hat, Hrq, Hq, Hr, Heq, Hkq, Hk. by split_and!.
Qed.

Lemma after_initialize_sound w o p reply : sound p -> at_ p = AwaitInitialize -> call_ends "1" "initialize" w p = Some reply ->
  sound (after_initialize dir reply o p).
Proof.
  intros (Hpa & Hd & Hat) Ha E. unfold at_position in Hat. rewrite Ha in Hat. destruct Hat as (Hq & Hn & Hpr & He & Hk).
  assert (forall e, tried p e) as Hnothing by (intros e; apply tried_nothing; auto).
  destruct reply as [e|r]; cbn [after_initialize]; [by apply sound_fail|].
  destruct (negotiated r) eqn:Hneg; [|by apply sound_fail]. apply call_ends_reply in E as [Hr Hre].
  assert (forall q, delivered q = delivered p -> initialized q) as Hi by (intros q Hdq; exists r; by rewrite Hdq).
  assert (dom (delivered p) ⊆ {["1"]}) as Hdom by (unfold known in Hk; set_solver).
  apply send_request_sound; try done.
  - cbn. change (Itoa 2) with "2". intros H2. apply Hdom, elem_of_singleton in H2. done.
  - intros q Hrq Hrr Heq Hdq e. apply tried_new; [by apply Hi| |left; by rewrite Hrr|by rewrite Heq].
    change (requests (with_create_possible true p)) with (requests p) in Hrq. rewrite Hq in Hrq. destruct Hrq as [-> | ->]; [by left|by right; right].
  - intros q Hat Hrq Hrr Hprq Heq Hdq Hkq. unfold at_position. change (known (with_create_possible true p)) with (known p) in Hkq.
    change (requests (with_create_possible true p)) with (requests p) in Hrq. change (Itoa 2) with "2" in Hkq.
    rewrite Hat, Hrq, Hq, Hrr, Heq, Hkq. split_and!; try done; [by apply Hi|set_solver].
Qed.

Lemma after_session_sound w o p reply : sound p -> at_ p = AwaitSession -> call_ends "2" "session/new" w p = Some reply ->
  sound (after_session prompt reply o p).
Proof.
  intros (Hpa & Hd & Hat) Ha E. unfold at_position in Hat. rewrite Ha in Hat. destruct Hat as (Hq & Hn & Hpr & He & Hi & Hk).
  assert (forall e, tried p e) as Hnew by (intros e; apply tried_new; auto).
  destruct reply as [[m b|e]|r]; cbn [after_session].
  - apply sound_fail; try done. apply tried_new; [done|by right; left| |done]. right. by apply call_ends_refused in E.
  - by apply sound_fail.
  - destruct (session_of r) as [s|] eqn:Hs; [|by apply sound_fail]. apply call_ends_reply in E as [Hr Hre].
    assert (dom (delivered p) ⊆ {["1"; "2"]}) as Hdom by (unfold known in Hk; set_solver).
    assert ("3" ∉ dom (delivered p)) as H3.
    { intros H3. apply Hdom in H3. rewrite elem_of_union, !elem_of_singleton in H3. by destruct H3. }
    assert ({["3"]} ∪ registered p ## dom (delivered p)) as Hd' by set_solver.
    unfold send_prompt, write. cbn [stdin responseFor add_notice set_result]. destruct (stdin p); cbn [negb].
    + destruct o as [u|e].
      * split; [done|]. split; [done|]. unfold at_position. cbn. unfold ends, requests in *. cbn. rewrite !omap_app, Hq, He. cbn.
        split_and!; try done. by exists r.
      * split; [done|]. split; [done|]. unfold at_position. cbn. rewrite Hpr. split; [done|].
        apply (tried_prompt _ _ s); try done; [by exists r| |]; unfold requests, ends in *; cbn; rewrite !omap_app, ?Hq, ?He; [by right|done].
    + split; [done|]. split; [done|]. unfold at_position. cbn. rewrite Hpr. split; [done|].
      apply (tried_prompt _ _ s); try done; [by exists r|by left|]. unfold ends in *. cbn. by rewrite !omap_app, He.
Qed.

Lemma after_prompt_sound w p p' : sound p -> at_ p = Prompted -> after_prompt w p = Some p' -> sound p'.
Proof.
  intros (Hpa & Hd & Hat) Ha E. unfold at_position in Hat. rewrite Ha in Hat. destruct Hat as (Hpr & He & Hn & Hi & Hc & Hq).
  assert (forall e q, result q = result p -> delivered q = delivered p -> registered q = registered p -> at_ q = Concluded -> requests q = requests p ->
    promptResult q = Some e -> ends q = ends p ++ [(SessionID (result p), e)] ->
    (e = None -> exists r, delivered p !! "3" = Some r /\ remote_error "session/prompt" r = None) -> sound q) as Hdone.
  { intros e q Hr Hdq Hg Haq Hrq Hpq Heq Hnone. split; [by rewrite Hr|]. split; [by rewrite Hg, Hdq|]. unfold at_position.
    rewrite Haq, Hr, Hrq, Heq, He. unfold initialized, created. rewrite Hdq. split_and!; try done. by exists e. }
  destruct w; try done; cbn in E.
  - apply bind_Some in E as (r & Hr & E). injection E as <-. eapply (Hdone (remote_error "session/prompt" r)); try done.
    + cbn. by rewrite Hpr.
    + unfold ends. cbn. by rewrite omap_app.
    + intros Hnone. by exists r.
  - destruct (done_ p); [|done]. injection E as <-. eapply Hdone; try done.
    + cbn. by rewrite Hpr.
    + unfold ends. cbn. by rewrite omap_app.
    + destruct (delivered p !! "3") as [r|]; [|done]. intros Hnone. by exists r.
Qed.

Lemma step_sound_acp ev p p' : step dir prompt ev p = Some p' -> sound p -> sound p'.
Proof.
  intros E Hs. pose proof Hs as (Hpa & Hd & _). destruct ev; cbn [step] in E.
  - destruct (at_ p) eqn:Ha; try done. injection E as <-. by apply begin_sound.
  - destruct (at_ p) eqn:Ha; try done.
    + apply bind_Some in E as (reply & Hc & E). injection E as <-. by eapply after_initialize_sound.
    + apply bind_Some in E as (reply & Hc & E). injection E as <-. by eapply after_session_sound.
    + by eapply after_prompt_sound.
  - assert (read_acp_line line outcome p = p') as <- by (destruct (at_ p); by injection E). eapply sound_aside; [by apply aside_line|done].
  - assert (done_ p = false /\ process_exit code p = p') as [_ <-] by (destruct (at_ p), (done_ p); try done; by injection E as <-).
    eapply sound_aside; [by apply aside_exit|done].
  - assert ((Cancel outcome p).2 = p') as <- by (destruct (at_ p); by injection E). eapply sound_aside; [|done]. unfold Cancel.
    destruct (is_empty _); [by apply aside_refl|by apply aside_write].
Qed.

Lemma run_sound_acp evs p : run evs p -> sound p.
Proof. induction 1 as [|evs ev p p' _ IH Hs]; [repeat split; set_solver|by eapply step_sound_acp]. Qed.

Lemma third_request params ok a b sid c tail : tail = [] \/ tail = [req3 sid c] ->
  (3, params, ok) ∈ req1 a :: req2 b :: tail -> params = prompt_params sid prompt.
Proof.
  intros Ht Hin. apply elem_of_cons in Hin as [[=]|Hin]. apply elem_of_cons in Hin as [[=]|Hin].
  destruct Ht as [-> | ->]; [by apply not_elem_of_nil in Hin|]. apply list_elem_of_singleton in Hin. by injection Hin as -> _.
Qed.

(** C15: C: in every interleaving of the caller, the reader and the end of the process:
    the requests are tried in the order initialize, session/new, session/prompt,
    each at most once; session/prompt only for the session that the reply to
    session/new names, after a negotiated initialize. A start is called impossible
    to have created a session only when session/new was never tried, or was refused
    by the agent; it never claims that the prompt was accepted. The prompt has at
    most one end, and its result is there exactly when the start failed or the
    prompt has ended; it is without error only when the agent replied without one. *)
Theorem acp_start_boundary (evs : list event) (p : ACPProcess) : run evs p ->
  (exists k, (fun r => r.1.1) <$> requests p = take k [1; 2; 3]) /\
  (forall params ok, (3, params, ok) ∈ requests p ->
     initialized p /\ exists sid, created p sid /\ SessionID (result p) = sid /\ params = prompt_params sid prompt) /\
  (NativeCreatePossible (result p) = false ->
     (forall params ok, (2, params, ok) ∉ requests p) \/ exists e, at_ p = StartFailed e /\ refused p e) /\
  PromptAccepted (result p) = false /\
  (List.length (ends p) <= 1)%nat /\
  (is_Some (promptResult p) <-> at_ p = Concluded \/ exists e, at_ p = StartFailed e) /\
  (promptResult p = Some None -> exists r, delivered p !! "3" = Some r /\ remote_error "session/prompt" r = None).
Proof.
  intros Hr. destruct (run_sound_acp evs p Hr) as (Hpa & _ & Hat). unfold at_position in Hat. destruct (at_ p) as [| | |e| |] eqn:Ha.
  - destruct Hat as (-> & Hn & -> & -> & _). split_and!; try done; [by exists 0%nat|intros ? ? Hin; by apply not_elem_of_nil in Hin|left; intros ? ? Hin; by apply not_elem_of_nil in Hin|cbn; lia|naive_solver].
  - destruct Hat as (-> & Hn & -> & -> & _). split_and!; try done; [by exists 1%nat|intros ? ? Hin; by apply list_elem_of_singleton in Hin| |cbn; lia|naive_solver].
    left. intros ? ? Hin. by apply list_elem_of_singleton in Hin.
  - destruct Hat as (-> & Hn & -> & -> & _). split_and!; try done; [by exists 2%nat| |congruence|cbn; lia|naive_solver].
    intros ? ? Hin. rewrite !elem_of_cons, elem_of_nil in Hin. naive_solver.
  - destruct Hat as [Hpr Ht]. rewrite Hpr. assert (is_Some (Some (Some e)) <-> StartFailed e = Concluded \/ exists e0, StartFailed e = StartFailed e0) as Hres.
    { split; [intros _; right; by exists e|by eexists]. }
    destruct Ht as [Hq Hn He|Hi Hq Hn He|sid Hi Hc Hs Hq Hn He].
    + rewrite He. split_and!; try done; [|by destruct Hq as [-> |[-> | ->]]; intros ? ? Hin; rewrite ?elem_of_cons, ?elem_of_nil in Hin; naive_solver| |cbn; lia].
      * destruct Hq as [-> |[-> | ->]]; [by exists 0%nat|by exists 1%nat|by exists 1%nat].
      * left. destruct Hq as [-> |[-> | ->]]; intros ? ? Hin; rewrite ?elem_of_cons, ?elem_of_nil in Hin; naive_solver.
    + rewrite He. split_and!; try done; [|by destruct Hq as [-> |[-> | ->]]; intros ? ? Hin; rewrite ?elem_of_cons, ?elem_of_nil in Hin; naive_solver| |cbn; lia].
      * destruct Hq as [-> |[-> | ->]]; [by exists 1%nat|by exists 2%nat|by exists 2%nat].
      * intros Hf. destruct Hn as [Hn|Hn]; [congruence|]. right. by exists e.
    + rewrite He. split_and!; try done; [| |congruence].
      * destruct Hq as [-> | ->]; [by exists 2%nat|by exists 3%nat].
      * intros params ok Hin. split; [done|]. exists sid. split; [done|]. split; [done|].
        destruct Hq as [Hq|Hq]; rewrite Hq in Hin; (eapply (third_request _ _ _ _ _ false); [|exact Hin]; auto).
  - destruct Hat as (-> & -> & Hn & Hi & Hc & Hq). rewrite Hq. split_and!; try done; [by exists 3%nat| |congruence|cbn; lia|naive_solver].
    intros params ok Hin. split; [done|]. eexists. split; [done|]. split; [done|]. eapply third_request; [|exact Hin]. by right.
  - destruct Hat as (Hn & Hi & Hc & Hq & e & -> & -> & He). rewrite Hq. split_and!; try done; [by exists 3%nat| |congruence|naive_solver|naive_solver].
    intros params ok Hin. split; [done|]. eexists. split; [done|]. split; [done|]. eapply third_request; [|exact Hin]. by right.
Qed.

Definition steps (evs : list event) : option ACPProcess := foldl (fun o ev => o ≫= step dir prompt ev) (Some spawned) evs.

Lemma steps_run_acp evs p : steps evs = Some p -> run evs p.
Proof.
  revert p. induction evs as [|ev evs IH] using rev_ind; intros p E; [injection E as <-; constructor|].
  unfold steps in E. rewrite foldl_app in E. apply bind_Some in E as (q & Eq & E). by eapply run_snoc; [apply IH|].
Qed.
End Spec.

(** ** Concrete inputs *)

Module Demo.

Definition initialize_reply : string := doc "{'id': 1, 'result': {'protocolVersion': 1}}".
Definition session_reply : string := doc "{'id': 2, 'result': {'sessionId': 's'}}".
Definition prompt_reply : string := doc "{'id': 3, 'result': {'stopReason': 'end_turn'}}".

Definition started : list event :=
  [Begin (Ok tt); Line initialize_reply (Ok tt); Wake ByResponse (Ok tt); Line session_reply (Ok tt); Wake ByResponse (Ok tt)].
Definition answered : list event := started ++ [Line prompt_reply (Ok tt); Wake ByResponse (Ok tt); Exit 0].
Definition after_answer : ACPProcess := default spawned (steps "/w" "hello" answered).

Lemma acp_start_boundary_witness :
  run "/w" "hello" answered after_answer /\ at_ after_answer = Concluded /\ SessionID (result after_answer) = "s" /\
  (List.length (ends after_answer) <= 1)%nat.
Proof.
  assert (run "/w" "hello" answered after_answer) as Hr by (apply steps_run_acp; vm_compute; reflexivity).
  split; [exact Hr|]. split; [vm_compute; reflexivity|]. split; [vm_compute; reflexivity|].
  exact (proj1 (proj2 (proj2 (proj2 (proj2 (acp_start_boundary "/w" "hello" answered after_answer Hr)))))).
Defined.

(** [cmd.Wait] does not wait for the reader: the process writes its reply and ends,
    the end is seen first, and a prompt that went well is reported as failed. *)
Example reply_before_exit_is_lost :
  match steps "/w" "hello" (started ++ [Exit 0; Wake ByExit (Ok tt); Line prompt_reply (Ok tt)]) with
  | Some p => promptResult p = Some (Some (OtherError "ACP session/prompt process exited before responding")) /\
              (remote_error "session/prompt" <$> delivered p !! "3") = Some None
  | None => False
  end.
Proof. vm_compute. done. Qed.

End Demo.
