(* ===== verification/AdapterRegistrySpec.v ===== *)
(** * Theorems about [AdapterRegistry]

    The registry holds each name once; a public id belongs to one agent and leads
    back to the native id; of the watchers of a session at most one goes on. *)

From stdpp Require Import base tactics list gmap strings relations.
From Stdlib Require Import Ascii ZArith Lia.
From S2P Require Import Prelude GoStrings Json AdapterRegistry.

(** ** The registry *)

Definition names (l : list Adapter) : list string := (fun a => TrimSpace (Name a)) <$> l.

Definition registry_ok (r : Registry) : Prop :=
  NoDup (names (ordered r)) /\ Forall (fun n => n <> "") (names (ordered r)) /\
  forall n a, byName r !! n = Some a <-> a ∈ ordered r /\ TrimSpace (Name a) = n.

Lemma registered_name r n : registry_ok r -> is_Some (byName r !! n) <-> n ∈ names (ordered r).
Proof.
  intros (_ & _ & Hby). split.
  - intros [a Ha]. apply Hby in Ha as [Ha <-]. by apply (list_elem_of_fmap_2 (fun a => TrimSpace (Name a))).
  - intros Hn. apply list_elem_of_fmap in Hn as (a & -> & Ha). exists a. by apply Hby.
Qed.

Lemma register_ok r o :
  registry_ok r ->
  (forall r', register r o = Ok r' -> registry_ok r' /\ exists a, o = Some a /\ ordered r' = ordered r ++ [a]) /\
  (forall e, register r o = Err e -> forall a, o = Some a -> TrimSpace (Name a) = "" \/ TrimSpace (Name a) ∈ names (ordered r)).
Proof.
  intros Hok. pose proof (registered_name r) as Hreg. destruct Hok as (Hnd & Hne & Hby). unfold register. destruct o as [a|]; [|done].
  destruct (is_empty (TrimSpace (Name a))) eqn:E; [apply is_empty_true in E; split; [done|intros e _ b [= <-]; by left]|].
  apply is_empty_false in E. case_bool_decide as Hin.
  { split; [done|]. intros e _ b [= <-]. right. by apply (Hreg _ (conj Hnd (conj Hne Hby))). }
  assert (TrimSpace (Name a) ∉ names (ordered r)) as Hnew
    by (intros Hx; apply Hin; by apply (Hreg _ (conj Hnd (conj Hne Hby)))).
  split; [|done]. intros r' [= <-]. split; [|by exists a]. unfold registry_ok, names. cbn [ordered byName]. rewrite fmap_app.
  split_and!.
  - apply NoDup_app. split_and!; [done| |apply NoDup_singleton]. intros n Hn Hn'. apply list_elem_of_singleton in Hn' as ->. by apply Hnew.
  - apply Forall_app. by repeat constructor.
  - intros n b. destruct (decide (TrimSpace (Name a) = n)) as [<-|Hd].
    + rewrite lookup_insert_eq, elem_of_snoc. split; [intros [= <-]; auto|]. intros [[Hb| ->] Hn]; [|done].
      destruct Hnew. rewrite <- Hn. by apply (list_elem_of_fmap_2 (fun a => TrimSpace (Name a))).
    + rewrite lookup_insert_ne, Hby, elem_of_snoc by done. naive_solver.
Qed.

Lemma register_all_ok r l :
  registry_ok r ->
  (forall r', register_all r l = Ok r' -> registry_ok r' /\ exists added, l = Some <$> added /\ ordered r' = ordered r ++ added) /\
  (forall e, register_all r l = Err e ->
     ~ exists added, l = Some <$> added /\ NoDup (names (ordered r ++ added)) /\ Forall (fun n => n <> "") (names added)).
Proof.
  revert r. induction l as [|o l IH]; intros r Hok; cbn [register_all].
  { split; [intros r' [= <-]; split; [done|exists []; by rewrite app_nil_r]|done]. }
  destruct (register_ok r o Hok) as [H1 H2]. destruct (register r o) as [r1|e1] eqn:E; cbn [mbind res_bind].
  - destruct (H1 r1 eq_refl) as (Hok1 & a & -> & Ho). destruct (IH r1 Hok1) as [IH1 IH2]. split.
    + intros r' Hr. destruct (IH1 r' Hr) as (? & added & -> & Ha). split; [done|]. exists (a :: added). split; [done|].
      by rewrite Ha, Ho, <- app_assoc.
    + intros e He (added & Hl & Hnd & Hne). destruct added as [|b added]; [done|]. injection Hl as <- Hl.
      apply (IH2 e He). exists added. rewrite Ho, <- app_assoc. split_and!; [done|done|]. by apply Forall_cons in Hne as [_ ?].
  - split; [done|]. intros e _ (added & Hl & Hnd & Hne). destruct added as [|b added]; [done|]. injection Hl as -> Hl.
    apply Forall_cons in Hne as [Hb _]. destruct (H2 e1 eq_refl b eq_refl) as [?|Hin]; [done|].
    unfold names in Hnd. rewrite fmap_app in Hnd. apply NoDup_app in Hnd as (_ & Hdis & _). apply (Hdis _ Hin). by left.
Qed.

(** C: a registry can be made exactly of adapters whose names, trimmed, differ and
    are not empty; it keeps their order and finds each under its name and nothing
    else; closing it closes every adapter that can be closed, and reports a failure
    if and only if one of them fails. *)
Theorem registry_finds_each_adapter l :
  match NewRegistry l with
  | Ok r =>
    l = Some <$> All (Some r) /\ NoDup (names (All (Some r))) /\
    (forall n a, Get (Some r) n = Some a <-> a ∈ All (Some r) /\ TrimSpace (Name a) = n) /\
    (forall a, a ∈ (Close (Some r)).1 <-> a ∈ All (Some r) /\ closing a <> None) /\
    ((Close (Some r)).2 = Ok tt <-> forall a e, a ∈ All (Some r) -> closing a <> Some (Err e))
  | Err _ => ~ exists added, l = Some <$> added /\ NoDup (names added) /\ Forall (fun n => n <> "") (names added)
  end.
Proof.
  unfold NewRegistry. assert (registry_ok (mkRegistry [] ∅)) as H0.
  { split_and!; [constructor|constructor|]. intros n a. cbn. split; [done|]. intros [Ha _]. by apply not_elem_of_nil in Ha. }
  destruct (register_all_ok _ l H0) as [H1 H2]. destruct (register_all _ l) as [r|e].
  2: { intros H. apply (H2 e eq_refl). exact H. }
  destruct (H1 r eq_refl) as ((Hnd & _ & Hby) & added & -> & Ha). cbn [ordered app] in Ha. cbn [All Get]. rewrite Ha in *.
  split_and!; [done|done|done| |].
  - intros a. unfold Close. cbn [All fst]. rewrite Ha, list_elem_of_In, filter_In, <- list_elem_of_In, bool_decide_eq_true.
    destruct (closing a); [|split; [intros [_ [? ?]]; done|intros [_ ?]; done]]. split; intros [? _]; split; done || by eexists.
  - unfold Close. cbn [All snd]. rewrite Ha. split.
    + intros Hn a e Hin Hc. assert (Name a +:+ ": " +:+ e ∈ omap close_error added) as Hx
        by (apply list_elem_of_omap; exists a; unfold close_error; by rewrite Hc).
      destruct (omap close_error added); [by apply not_elem_of_nil in Hx|done].
    + intros Hall. assert (omap close_error added = []) as ->; [|done].
      destruct (omap close_error added) as [|x xs] eqn:E; [done|].
      assert (x ∈ omap close_error added) as Hx by (rewrite E; by left).
      apply list_elem_of_omap in Hx as (a & Hin & Hc). unfold close_error in Hc. repeat case_match; simplify_eq. by edestruct Hall.
Qed.

(** ** Public ids *)

Lemma public_prefix agent n : publicSessionID agent n <> "" -> has_prefix (agent +:+ ":") (publicSessionID agent n) = true.
Proof.
  unfold publicSessionID. destruct (is_empty (TrimSpace n)); [done|]. cbv zeta.
  destruct (has_prefix (agent +:+ ":") (TrimSpace n)) eqn:E; [done|]. intros _. apply has_prefix_app.
Qed.

Lemma owner_of_prefix a b p :
  contains_byte colon a = false -> contains_byte colon b = false ->
  has_prefix (a +:+ ":") p = true -> has_prefix (b +:+ ":") p = true -> a = b.
Proof.
  intros Ha Hb Hpa Hpb. apply has_prefix_spec in Hpa as [r1 ->]. apply has_prefix_spec in Hpb as [r2 Heq].
  rewrite <- !string_app_assoc in Heq. change (":" +:+ r1) with (String colon r1) in Heq. change (":" +:+ r2) with (String colon r2) in Heq.
  apply (f_equal (split_byte colon)) in Heq. rewrite !split_byte_app in Heq by done. by injection Heq.
Qed.

(** C: a public id leads back to the native id it was made of and belongs to one
    agent: no other agent, whose name has no colon either, accepts it. *)
Theorem public_ids_are_owned (agent other native : string) :
  contains_byte colon agent = false -> contains_byte colon other = false ->
  native <> "" -> TrimSpace native = native -> has_prefix (agent +:+ ":") native = false ->
  nativeSessionID agent (publicSessionID agent native) = Ok native /\
  (forall m, nativeSessionID other (publicSessionID agent native) = Ok m -> other = agent).
Proof.
  intros Ha Ho Hn Ht Hp.
  assert (publicSessionID agent native = (agent +:+ ":") +:+ native) as Hpub.
  { unfold publicSessionID. rewrite Ht, Hp. by destruct (is_empty native) eqn:E; [apply is_empty_true in E|]. }
  split.
  - rewrite Hpub. unfold nativeSessionID. rewrite has_prefix_app. cbn [negb]. rewrite trim_prefix_app, Ht.
    by destruct (is_empty native) eqn:E; [apply is_empty_true in E|].
  - intros m. unfold nativeSessionID. destruct (has_prefix (other +:+ ":") _) eqn:E; [|done]. intros _.
    apply (owner_of_prefix other agent (publicSessionID agent native)); [done|done|done|]. rewrite Hpub. apply has_prefix_app.
Qed.

(** ** Watchers *)

Lemma elem_of_option_list {A} (x : A) o : x ∈ option_list o <-> o = Some x.
Proof.
  destruct o as [y|]; cbn; [rewrite list_elem_of_singleton; naive_solver|]. split; [by intros ?%not_elem_of_nil|done].
Qed.

Section Watchers.
Context `{MapOrder}.

(** The goroutines that run, by the id of their watcher, and the ids whose context
    was cancelled. *)
Record watching : Type := mkWatching { wreg : pollWatchRegistry; running : gmap Z string; cancelled : gset Z }.

Definition cancel (l : list Z) (s : gset Z) : gset Z := list_to_set l ∪ s.

Inductive watch_step : watching -> watching -> Prop :=
  | watch_started w key id prev r : nextID (wreg w) < max_uint64 -> start (wreg w) key = (id, prev, r) ->
      watch_step w (mkWatching r (<[id := key]> (running w)) (cancel (option_list prev) (cancelled w)))
  | watch_ended w id key : running w !! id = Some key ->
      watch_step w (mkWatching (finish (wreg w) key id) (base.delete id (running w)) (cancelled w))
  | watches_stopped w ids r : stopAll (wreg w) = (ids, r) ->
      watch_step w (mkWatching r (running w) (cancel ids (cancelled w))).

Definition no_watches : watching := mkWatching (mkWatches 0 ∅) ∅ ∅.

Record watches_ok (w : watching) : Prop := {
  wo_next : 0 <= nextID (wreg w) <= max_uint64;
  wo_ids : forall id key, running w !! id = Some key -> 0 < id <= nextID (wreg w);
  wo_cancelled : forall id, id ∈ cancelled w -> 0 < id <= nextID (wreg w);
  wo_entries : forall key id, entries (wreg w) !! key = Some id -> 0 < id <= nextID (wreg w);
  wo_live : forall id key, running w !! id = Some key -> id ∈ cancelled w \/ entries (wreg w) !! key = Some id
}.

Lemma watch_step_ok w w' : watch_step w w' -> watches_ok w -> watches_ok w'.
Proof.
  intros [w0 key id prev r Hmax Hs|w0 id key Hr|w0 ids r Hs] [Hn Hi Hc He Hl].
  - unfold start in Hs. injection Hs as <- <- <-.
    assert (u64_add (nextID (wreg w0)) 1 = nextID (wreg w0) + 1) as Hu.
    { unfold u64_add. rewrite Z.mod_small; [done|]. unfold max_uint64 in *. lia. }
    rewrite Hu. constructor; cbn [wreg running cancelled nextID entries].
    + lia.
    + intros i k. rewrite lookup_insert_Some. intros [[<- _]|[_ Hik]]; [lia|]. apply Hi in Hik. lia.
    + intros i. unfold cancel. rewrite elem_of_union. intros [Hin|Hin]; [|apply Hc in Hin; lia].
      apply elem_of_list_to_set, elem_of_option_list in Hin. apply He in Hin. lia.
    + intros k i. rewrite lookup_insert_Some. intros [[<- <-]|[_ Hik]]; [lia|]. apply He in Hik. lia.
    + intros i k. rewrite lookup_insert_Some. intros [[<- <-]|[Hne Hik]]; [right; by rewrite lookup_insert_eq|].
      destruct (Hl i k Hik) as [?|Hk]; [left; unfold cancel; by apply elem_of_union_r|].
      destruct (decide (k = key)) as [->|Hnk]; [|right; by rewrite lookup_insert_ne].
      left. unfold cancel. apply elem_of_union_l, elem_of_list_to_set, elem_of_option_list. done.
  - assert (nextID (finish (wreg w0) key id) = nextID (wreg w0)) as Hnx by (unfold finish; by case_bool_decide).
    assert (forall k i, entries (finish (wreg w0) key id) !! k = Some i -> entries (wreg w0) !! k = Some i) as Hsub.
    { intros k i. unfold finish. case_bool_decide; [|done]. cbn [entries]. by intros [_ ?]%lookup_delete_Some. }
    constructor; cbn [wreg running cancelled]; rewrite ?Hnx; [done| |done| |].
    + intros i k [_ Hik]%lookup_delete_Some. by apply Hi in Hik.
    + intros k i Hk. by apply Hsub, He in Hk.
    + intros i k [Hne Hik]%lookup_delete_Some. destruct (Hl i k Hik) as [?|Hk]; [by left|right].
      unfold finish. case_bool_decide as Hb; [|done]. cbn [entries]. rewrite lookup_delete_ne; [done|]. intros ->. simplify_eq.
  - unfold stopAll in Hs. injection Hs as <- <-. constructor; cbn [wreg running cancelled nextID entries]; [done|done| |done|].
    + intros i. unfold cancel. rewrite elem_of_union, elem_of_list_to_set, elem_of_range_values. intros [[k Hk]|Hin]; [by apply He in Hk|by apply Hc].
    + intros i k Hik. left. unfold cancel. rewrite elem_of_union, elem_of_list_to_set, elem_of_range_values.
      destruct (Hl i k Hik) as [?|Hk]; [by right|left; by exists k].
Qed.

(** C: however watchers are started, replaced, stopped and end, of the watchers of
    one session at most one is not cancelled, and it is the one that was started
    last; when all are stopped, none goes on. *)
Theorem one_watcher_per_session w :
  rtc watch_step no_watches w ->
  (forall key i j, running w !! i = Some key -> running w !! j = Some key -> i ∉ cancelled w -> j ∉ cancelled w -> i = j) /\
  (forall ids r id key, stopAll (wreg w) = (ids, r) -> running w !! id = Some key -> id ∈ cancel ids (cancelled w)).
Proof.
  intros Hrun. assert (watches_ok w) as [Hn Hi Hc He Hl].
  { eapply (rtc_invariant watch_step watches_ok); [|exact Hrun|].
    - intros a b Ha Hstep. by eapply watch_step_ok.
    - constructor; cbn; [unfold max_uint64; lia| | | |]; try (intros ? ? ?; done). intros i Hin. by apply elem_of_empty in Hin. }
  split.
  - intros key i j Hik Hjk Hni Hnj. destruct (Hl i key Hik) as [?|H1]; [done|]. destruct (Hl j key Hjk) as [?|H2]; [done|]. congruence.
  - intros ids r id key Hs Hr. unfold stopAll in Hs. injection Hs as <- <-. unfold cancel.
    rewrite elem_of_union, elem_of_list_to_set, elem_of_range_values. destruct (Hl id key Hr) as [?|Hk]; [by right|left; by exists key].
Qed.
End Watchers.

(** ** Concrete runs *)

Module Demo.
#[local] Existing Instance canonical_order.

Lemma public_ids_are_owned_witness :
  publicSessionID "kimi_cli" "abc" = "kimi_cli:abc" /\ nativeSessionID "kimi_cli" "kimi_cli:abc" = Ok "abc" /\
  nativeSessionID "cursor" "kimi_cli:abc" = Err ("session " +:+ quoted "kimi_cli:abc" +:+ " does not belong to cursor").
Proof.
  split_and!; [vm_compute; reflexivity| |vm_compute; reflexivity].
  exact (proj1 (public_ids_are_owned "kimi_cli" "cursor" "abc" eq_refl eq_refl ltac:(done) eq_refl eq_refl)).
Defined.

Definition twice : watching :=
  mkWatching (mkWatches 2 {["s" := 2]}) (<[2 := "s"]> (<[1 := "s"]> ∅)) (cancel [1] (cancel [] ∅)).

Lemma one_watcher_per_session_witness :
  rtc watch_step no_watches twice /\ 1 ∈ cancelled twice /\ 2 ∈ cancel [2] (cancelled twice).
Proof.
  assert (Hr : rtc watch_step no_watches twice).
  { eapply rtc_l; [eapply (watch_started _ "s"); [done|vm_compute; reflexivity]|].
    eapply rtc_l; [eapply (watch_started _ "s"); [done|vm_compute; reflexivity]|]. apply rtc_refl. }
  split_and!; [exact Hr|vm_compute; reflexivity|].
  exact (proj2 (one_watcher_per_session twice Hr) [2] _ 2 "s" eq_refl eq_refl).
Defined.
End Demo.
