(* ===== verification/SealedSpec.v ===== *)
(** * What sealed mode promises on the device

    The bytes a sealed frame authenticates determine its routing fields, so a
    body opens only in the frame it was sealed for. Sequence numbers are never
    given out twice, across restarts too, as long as the key file is written;
    the last theorem shows what happens when it is not. *)

From stdpp Require Import base tactics list gmap strings.
From Stdlib Require Import Ascii ZArith Lia.
From S2P Require Import Prelude GoStrings Json Sha256 Base64 Protocol ProtocolSpec Sealed.

(** ** Reading back a JSON string

    [unquote] reads a string up to its closing quote; it knows the escapes that
    [json_string] writes for well-formed text. *)

Definition unhex (c : ascii) : Z := if code c <? 58 then code c - 48 else code c - 87.

Definition unescape (s : string) : option (string * string) :=
  match s with
  | String c s' =>
    if code c =? 117 then
      match s' with
      | String h1 (String h2 (String h3 (String h4 rest))) =>
        if code h1 =? 50 then Some (of_codes [226; 128; 160 + unhex h4], rest)
        else Some (of_codes [unhex h3 * 16 + unhex h4], rest)
      | _ => None
      end
    else
      Some (of_codes [if code c =? 98 then 8 else if code c =? 102 then 12 else if code c =? 110 then 10
                      else if code c =? 114 then 13 else if code c =? 116 then 9 else code c], s')
  | EmptyString => None
  end.

(** [fuel]: at most one step per byte. *)
Fixpoint unquote (fuel : nat) (s : string) : option (string * string) :=
  match fuel, s with
  | S fuel, String c s' =>
    if code c =? 34 then Some ("", s')
    else if code c =? 92
    then match unescape s' with
         | Some (x, rest) => (fun r : string * string => (x +:+ r.1, r.2)) <$> unquote fuel rest
         | None => None
         end
    else (fun r : string * string => (String c r.1, r.2)) <$> unquote fuel s'
  | _, _ => None
  end.

Lemma unquote_more fuel fuel' s r : (fuel <= fuel')%nat -> unquote fuel s = Some r -> unquote fuel' s = Some r.
Proof.
  revert fuel' s r. induction fuel as [|fuel IH]; intros [|fuel'] s r Hle Hu; try done; [lia|].
  destruct s as [|c s]; [done|]. cbn [unquote] in *. case_match; [done|]. case_match.
  - destruct (unescape s) as [[x rest]|]; [|done]. apply fmap_Some in Hu as (q & Hq & ->).
    by rewrite (IH fuel' _ q ltac:(lia) Hq).
  - apply fmap_Some in Hu as (q & Hq & ->). by rewrite (IH fuel' _ q ltac:(lia) Hq).
Qed.

(** [chunk] reads back as [x]. *)
Definition reads_as (chunk x : string) : Prop :=
  forall t r, (exists fuel, unquote fuel t = Some r) -> exists fuel, unquote fuel (chunk +:+ t) = Some (x +:+ r.1, r.2).

Lemma reads_as_app c1 x1 c2 x2 : reads_as c1 x1 -> reads_as c2 x2 -> reads_as (c1 +:+ c2) (x1 +:+ x2).
Proof.
  intros H1 H2 t r Hr. destruct (H1 (c2 +:+ t) (x2 +:+ r.1, r.2) (H2 t r Hr)) as [fuel Hf].
  exists fuel. by rewrite <- !string_app_assoc.
Qed.

Lemma reads_as_nil : reads_as "" "".
Proof. intros t [x rest] Hr. exact Hr. Qed.

Lemma reads_as_byte c : code c <> 34 -> code c <> 92 -> reads_as (String c "") (String c "").
Proof.
  intros H1 H2 t r [fuel Hf]. exists (S fuel).
  change (String c "" +:+ t) with (String c t). cbn [unquote]. apply Z.eqb_neq in H1, H2. by rewrite H1, H2, Hf.
Qed.

Lemma reads_as_bytes s : (forall c, c ∈ String.list_ascii_of_string s -> 128 <= code c) -> reads_as s s.
Proof.
  induction s as [|c s IH]; intros Hs; [apply reads_as_nil|].
  change (String c s) with (String c "" +:+ s). apply reads_as_app.
  - assert (128 <= code c) by (apply Hs; left). apply reads_as_byte; lia.
  - apply IH. intros c' Hc'. apply Hs. by right.
Qed.

Lemma reads_as_escaped e x : (forall t, unescape (e +:+ t) = Some (x, t)) -> reads_as (String (byte_of 92) e) x.
Proof.
  intros He t r [fuel Hf]. exists (S fuel).
  change (String (byte_of 92) e +:+ t) with (String (byte_of 92) (e +:+ t)). cbn [unquote].
  change (code (byte_of 92) =? 34) with false. change (code (byte_of 92) =? 92) with true. by rewrite He, Hf.
Qed.

Lemma reads_as_escape c : code c < 128 -> reads_as (escape_ascii c) (String c "").
Proof.
  destruct c as [[] [] [] [] [] [] [] []]; intros Hc; try (exfalso; revert Hc; vm_compute; congruence).
  all: match goal with |- reads_as (escape_ascii ?c) _ =>
         let v := eval vm_compute in (escape_ascii c) in change (escape_ascii c) with v end.
  all: first [apply reads_as_byte; vm_compute; congruence|apply reads_as_escaped; intros t; reflexivity].
Qed.

(** ** What is written is read back *)

Lemma escape_flag copy copy' s : escape_from copy O s = escape_from copy' O s.
Proof. by destruct s. Qed.

Lemma escape_copy k s : escape_from true k s = take_bytes k s +:+ escape_from true O (drop_bytes k s).
Proof. revert k. induction s as [|c s IH]; intros [|k]; try done. cbn. by rewrite IH. Qed.

Lemma escape_skip k s : escape_from false k s = escape_from true O (drop_bytes k s).
Proof. revert k. induction s as [|c s IH]; intros [|k]; try done. cbn. by rewrite IH. Qed.

Lemma line_separator_reads c s e :
  line_separator (String c s) = Some e ->
  lead (code c) = Some (2%nat, 128, 191) /\ reads_as e (String c (take_bytes 2 s)).
Proof.
  cbn [line_separator]. destruct s as [|c2 [|c3 s]]; [done|done|]. destruct (_ && _)%bool eqn:E; [|done]. bool_hyps.
  assert (Hc : forall x z, code x = z -> x = byte_of z).
  { intros x z <-. unfold byte_of, code. rewrite N2Z.id. symmetry. apply ascii_N_embedding. }
  assert (c = byte_of 226 /\ c2 = byte_of 128) as [-> ->] by auto.
  cbn [take_bytes]. destruct (code c3 =? 168) eqn:E3; [|destruct (code c3 =? 169) eqn:E4]; try done;
    bool_hyps; intros [= <-]; (split; [reflexivity|]).
  - assert (c3 = byte_of 168) as -> by auto. apply reads_as_escaped. intros t. reflexivity.
  - assert (c3 = byte_of 169) as -> by auto. apply reads_as_escaped. intros t. reflexivity.
Qed.

Lemma escape_reads s : ValidString s = true -> reads_as (escape_from true O s) s.
Proof.
  remember (String.length s) as len eqn:Hlen. revert s Hlen.
  induction (lt_wf len) as [len _ IH]. intros s -> Hv. destruct s as [|c s]; [apply reads_as_nil|].
  unfold ValidString in Hv. rewrite utf8_scan_lead in Hv. destruct (lead (code c)) as [[[n lo] hi]|] eqn:El; [|done].
  destruct (utf8_scan_split n lo hi s Hv) as (_ & Htake & Hdrop). destruct (lead_ascii _ _ _ _ El) as [Hascii Hlo].
  assert (IH' : reads_as (escape_from true O (drop_bytes n s)) (drop_bytes n s)).
  { apply (IH (String.length (drop_bytes n s))); [rewrite length_drop_bytes; simpl; lia|done|done]. }
  assert (Es : String c s = String c (take_bytes n s) +:+ drop_bytes n s) by (by rewrite string_app_cons, take_drop_bytes).
  rewrite Es at 2. cbn [escape_from]. rewrite (rune_width_lead c s n lo hi El Hv). destruct n as [|n].
  - apply reads_as_app; [|exact IH']. assert (Es0 : take_bytes 0 s = "") by (by destruct s). rewrite Es0.
    apply reads_as_escape. by apply Hascii.
  - destruct (line_separator (String c s)) as [e|] eqn:Ee.
    + destruct (line_separator_reads _ _ _ Ee) as [El2 He]. rewrite El2 in El. injection El as <- <- <-.
      rewrite escape_skip. by apply reads_as_app.
    + rewrite escape_copy, <- string_app_cons.
      apply (reads_as_app (String c (take_bytes (S n) s))); [|exact IH'].
      apply reads_as_bytes. intros d Hd. apply elem_of_cons in Hd as [->|Hd].
      * destruct (Z.lt_ge_cases (code c) 128) as [Hlt|Hge]; [by apply Hascii in Hlt|lia].
      * exact (utf8_scan_high _ _ _ _ d Hlo Hv Hd).
Qed.

Lemma json_string_inj s1 s2 t1 t2 :
  ValidString s1 = true -> ValidString s2 = true -> json_string s1 +:+ t1 = json_string s2 +:+ t2 -> s1 = s2 /\ t1 = t2.
Proof.
  assert (Hread : forall s t, ValidString s = true -> exists fuel, unquote fuel (escape_from true O s +:+ (of_codes [34] +:+ t)) = Some (s, t)).
  { intros s t Hv. destruct (escape_reads s Hv (of_codes [34] +:+ t) ("", t)) as [fuel Hf]; [by exists 1%nat|].
    exists fuel. by rewrite string_app_nil in Hf. }
  intros Hv1 Hv2. unfold json_string, quoted. rewrite <- !string_app_assoc. intros [= Heq].
  destruct (Hread s1 t1 Hv1) as [f1 H1], (Hread s2 t2 Hv2) as [f2 H2].
  apply (unquote_more _ (f1 `max` f2)%nat) in H1; [|lia]. apply (unquote_more _ (f1 `max` f2)%nat) in H2; [|lia].
  change (escape_from true O s1 +:+ (of_codes [34] +:+ t1) = escape_from true O s2 +:+ (of_codes [34] +:+ t2)) in Heq.
  rewrite Heq, H2 in H1. by injection H1 as <- <-.
Qed.

(** ** Decimal numbers up to the next character *)

Definition numeral_char (c : ascii) : bool := (is_digit (code c) || (code c =? 45))%bool.
Definition numeral (s : string) : bool := forallb numeral_char (String.list_ascii_of_string s).

Lemma all_digits_numeral s : all_digits s = true -> numeral s = true.
Proof.
  unfold numeral. induction s as [|c s IH]; cbn; [done|]. intros H. apply andb_true_iff in H as [Hc Hs].
  unfold numeral_char. rewrite Hc. cbn. auto.
Qed.

Definition is_go_int (n : Z) : Prop := min_int64 <= n <= max_uint64.

Lemma Itoa_numeral n : numeral (Itoa n) = true.
Proof.
  assert (Hd : forall k, numeral (itoa_loop 20 k "") = true) by (intros k; by apply all_digits_numeral, itoa_loop_digits).
  unfold Itoa. destruct (n <? 0); [apply (Hd (- n))|apply Hd].
Qed.

Lemma itoa_value n : 0 <= n <= max_uint64 -> parse_dec (itoa_loop 20 n "") 0 = Some n.
Proof.
  intros Hn. rewrite parse_dec_itoa; [done| |lia]. unfold max_uint64 in Hn. change (10 ^ Z.of_nat 20) with 100000000000000000000. lia.
Qed.

Lemma Itoa_inj n m : is_go_int n -> is_go_int m -> Itoa n = Itoa m -> n = m.
Proof.
  unfold is_go_int, Itoa. intros Hn Hm.
  assert (Hsign : forall k s, itoa_loop 20 k "" = String "-" s -> False).
  { intros k s E. pose proof (itoa_loop_digits 20 k "" eq_refl) as Hd. rewrite E in Hd. done. }
  destruct (n <? 0) eqn:En, (m <? 0) eqn:Em; bool_hyps; intros Heq.
  - apply (app_prefix_inj "-") in Heq. assert (- n = - m); [|lia].
    pose proof (itoa_value (- n)) as H1. pose proof (itoa_value (- m)) as H2. rewrite Heq, H2 in H1;
      unfold min_int64, max_uint64 in *; try lia. injection H1; [lia|lia].
  - symmetry in Heq. by apply Hsign in Heq.
  - by apply Hsign in Heq.
  - pose proof (itoa_value n) as H1. pose proof (itoa_value m) as H2. rewrite Heq, H2 in H1; try lia. injection H1; lia.
Qed.

Lemma Itoa_then n m c t1 t2 :
  is_go_int n -> is_go_int m -> numeral_char c = false -> Itoa n +:+ String c t1 = Itoa m +:+ String c t2 -> n = m /\ t1 = t2.
Proof.
  intros Hn Hm Hc Heq. destruct (delimited_prefix numeral_char _ _ _ _ _ (Itoa_numeral n) (Itoa_numeral m) Hc Heq) as [E ->].
  split; [by apply Itoa_inj|done].
Qed.

(** ** The associated data *)

(** What a Go value of [AADFields] from a well-formed message can hold. *)
Definition aad_strings (f : AADFields) : list string :=
  [aProtocolVersion f; aTransportMode f; aType f; aDeviceID f; aSessionID f; aClientMsgID f; aKeyScope f; aSenderID f].
Definition aad_numbers (f : AADFields) : list Z := [aKeyEpoch f; aSequence f; aTimestamp f].
Definition aad_ok (f : AADFields) : Prop :=
  Forall (fun s => ValidString s = true) (aad_strings f) /\ Forall is_go_int (aad_numbers f).

(** A member cannot be taken for the one after it. *)
Definition no_member (name t : string) : Prop := forall s, t <> "," +:+ json_name name +:+ s.

Lemma omitempty_inj name s1 s2 t1 t2 :
  ValidString s1 = true -> ValidString s2 = true -> no_member name t1 -> no_member name t2 ->
  omitempty name s1 +:+ t1 = omitempty name s2 +:+ t2 -> s1 = s2 /\ t1 = t2.
Proof.
  intros Hv1 Hv2 Hn1 Hn2 Heq. unfold omitempty in Heq.
  destruct s1 as [|c1 s1], s2 as [|c2 s2]; cbn [is_empty] in Heq; [done| | |].
  - exfalso. apply (Hn1 (json_string (String c2 s2) +:+ t2)). rewrite !string_app_assoc. rewrite !string_app_assoc in Heq. exact Heq.
  - exfalso. apply (Hn2 (json_string (String c1 s1) +:+ t1)). rewrite !string_app_assoc. rewrite !string_app_assoc in Heq. by symmetry.
  - rewrite <- !string_app_assoc in Heq. do 2 apply app_prefix_inj in Heq. by apply json_string_inj.
Qed.

Lemma no_member_next a name b name' t : a <> b -> no_member (String a name) ("," +:+ json_name (String b name') +:+ t).
Proof. intros Hab s. unfold json_name, quoted. rewrite <- !string_app_assoc. intros Heq. by injection Heq. Qed.

Lemma no_member_omitted a name b name' v t :
  a <> b -> no_member (String a name) t -> no_member (String a name) (omitempty (String b name') v +:+ t).
Proof.
  intros Hab Ht. unfold omitempty. destruct (is_empty v); [done|]. rewrite <- !string_app_assoc. by apply no_member_next.
Qed.

Lemma Itoa_comma_inj n m t1 t2 :
  is_go_int n -> is_go_int m -> Itoa n +:+ "," +:+ t1 = Itoa m +:+ "," +:+ t2 -> n = m /\ t1 = t2.
Proof. intros Hn Hm Heq. by apply (Itoa_then n m "," t1 t2). Qed.

(** One member, or one constant piece, off both sides of [H]. *)
Ltac next_member H :=
  lazymatch type of H with
  | json_string _ +:+ _ = _ => apply json_string_inj in H; [destruct H as [-> H]|assumption|assumption]
  | Itoa _ +:+ "," +:+ _ = _ => apply Itoa_comma_inj in H; [destruct H as [-> H]|assumption|assumption]
  | Itoa _ +:+ "}" = _ => apply (Itoa_then _ _ "}" "" "") in H; [destruct H as [-> _]|assumption|assumption|reflexivity]
  | omitempty _ _ +:+ _ = _ =>
    apply omitempty_inj in H; [destruct H as [-> H]|assumption|assumption|clear H..]
  | _ +:+ _ = _ => apply app_prefix_inj in H
  end.

Lemma aad_encoding_inj f g : aad_ok f -> aad_ok g -> EncodeAAD f = EncodeAAD g -> f = g.
Proof.
  intros [Fs Fn] [Gs Gn]. unfold aad_strings, aad_numbers in *. rewrite !Forall_cons in *. destruct_and!.
  destruct f as [f1 f2 f3 f4 f5 f6 f7 f8 f9 f10 f11], g as [g1 g2 g3 g4 g5 g6 g7 g8 g9 g10 g11]. cbn [aProtocolVersion aTransportMode aType aDeviceID
    aSessionID aClientMsgID aKeyScope aKeyEpoch aSenderID aSequence aTimestamp] in *.
  unfold EncodeAAD. cbn [aProtocolVersion aTransportMode aType aDeviceID
    aSessionID aClientMsgID aKeyScope aKeyEpoch aSenderID aSequence aTimestamp]. intros Heq.
  assert (Hscope : forall name t, no_member (String "s" name) ("," +:+ json_name "key_scope" +:+ t)) by (intros; by apply no_member_next).
  assert (Hscope' : forall name t, no_member (String "c" name) ("," +:+ json_name "key_scope" +:+ t)) by (intros; by apply no_member_next).
  repeat next_member Heq; first [reflexivity|apply Hscope'|by apply no_member_omitted].
Qed.

(** the bytes a sealed frame authenticates determine every routing field
    it carries - type, device, session, client message id, key scope and epoch,
    sender, sequence number, timestamp - though empty session and message ids
    are left out and strings are escaped. *)
Theorem aad_binds_every_field (f g : AADFields) : aad_ok f -> aad_ok g -> EncodeAAD f = EncodeAAD g -> f = g.
Proof. apply aad_encoding_inj. Qed.

(** ** Sealing and opening *)

Section Opening.
Context `{AEAD} `{!AEADLaws} `{Codec diskState}.

Lemma SealWire_ok rnd key epoch scope sender recipient seq aad text w :
  SealWire rnd key epoch scope sender recipient seq aad text = Ok w ->
  exists nonce, len key = KeySize /\ len nonce = NonceSize /\
    w = mkWire AlgAES256GCM SealedFormatVersion scope epoch sender recipient seq (B64 nonce)
          (B64 (gcm_seal key nonce text (EncodeAAD aad))).
Proof.
  unfold SealWire, RandomNonce, random_of, Seal, check_sizes, fail_if. intros Hs.
  apply bind_ok in Hs as (nonce & Hn & Hs). apply bind_ok in Hn as (nonce' & _ & Hn). apply bind_ok in Hs as (ct & Hc & [= <-]).
  destruct (len nonce' =? NonceSize) eqn:En; [injection Hn as ->|done]. rewrite En in Hc.
  destruct (len key =? KeySize) eqn:Ek; [|done]. cbn in Hc. injection Hc as <-. exists nonce. bool_hyps. done.
Qed.

Lemma OpenWire_sealed key nonce text aad aad' w :
  len key = KeySize -> len nonce = NonceSize -> wNonce w = B64 nonce ->
  wCiphertext w = B64 (gcm_seal key nonce text aad) ->
  OpenWire key (Some w) aad' =
  if bool_decide (EncodeAAD aad' = aad) then Ok text else Err "cipher: message authentication failed".
Proof.
  intros Hk Hn Ew Ec. unfold OpenWire, Open, check_sizes, fail_if. rewrite Ew, Ec, !B64Decode_B64. cbn.
  rewrite Hk, Hn. cbn. case_bool_decide as Ea; [by rewrite Ea, open_seal|by rewrite open_other_aad].
Qed.

Lemma SealSession_ok sid sender recipient aad text kr rnd s1 s2 m d w m' d' :
  SealSession sid sender recipient aad text kr rnd s1 s2 m d = (Ok w, m', d') ->
  exists sk, sessions m' !! sid = Some sk /\ wEpoch w = skEpoch sk /\ wSequence w = session_seq m' sid /\
    SealWire rnd (Key sk) (skEpoch sk) "session" sender recipient (wSequence w)
      (with_scope aad "session" (skEpoch sk) sender (wSequence w) sid) text = Ok w.
Proof.
  unfold SealSession. destruct (SessionKey sid kr s1 m d) as [[[[key epoch]|e] m1] d1] eqn:Ek; [|done].
  assert (Hsk : sessions m1 !! sid = Some (mkSK key epoch)).
  { unfold SessionKey in Ek. destruct (sessions m !! sid) as [sk|] eqn:Es; [injection Ek as <- <- <- <-; by destruct sk|].
    destruct (RandomKey kr); [|done]. destruct (persist _ _ d) as [[[]|] d2]; [|done]. injection Ek as <- <- <- <-.
    apply lookup_insert_eq. }
  unfold NextSessionSeq. destruct (persist s2 (next_session m1 sid) d1) as [r d2]. intros [= Hw <- _].
  exists (mkSK key epoch). pose proof (SealWire_ok _ _ _ _ _ _ _ _ _ _ Hw) as (nonce & _ & _ & ->). done.
Qed.

(** C20: a body sealed for a session opens with that session's key, as the text
    that was sealed, in exactly one frame: the one whose type, device, message
    id, timestamp and protocol fields are those it was sealed with, with the
    session, scope, epoch, sender and number of the envelope. In any other
    well-formed frame it is refused. *)
Theorem sealed_body_opens_only_as_sent sid sender recipient aad text kr rnd s1 s2 m d w m' d' m2 aad' :
  SealSession sid sender recipient aad text kr rnd s1 s2 m d = (Ok w, m', d') ->
  sessions m2 !! sid = sessions m' !! sid ->
  let sent := mkAAD (aProtocolVersion aad) (aTransportMode aad) (aType aad) (aDeviceID aad) sid (aClientMsgID aad)
                "session" (wEpoch w) sender (wSequence w) (aTimestamp aad) in
  aad_ok sent -> aad_ok aad' ->
  (aad' = sent -> OpenSession sid (Some w) aad' m2 = Ok text) /\
  (aad' <> sent -> OpenSession sid (Some w) aad' m2 = Err "cipher: message authentication failed").
Proof.
  intros Hs Hm2 sent Hsent Haad'. destruct (SealSession_ok _ _ _ _ _ _ _ _ _ _ _ _ _ _ Hs) as (sk & Hsk & Ee & _ & Hw).
  destruct (SealWire_ok _ _ _ _ _ _ _ _ _ _ Hw) as (nonce & Hk & Hn & Ew).
  assert (Ho : OpenSession sid (Some w) aad' m2 =
               if bool_decide (EncodeAAD aad' = EncodeAAD sent) then Ok text else Err "cipher: message authentication failed").
  { unfold OpenSession. rewrite Hm2, Hsk. rewrite Ee, Z.eqb_refl. unfold sent. rewrite Ee.
    replace (wKeyScope w) with "session" by (by rewrite Ew). cbn [negb bool_decide].
    apply (OpenWire_sealed _ nonce); [done|done|by rewrite Ew|by rewrite Ew]. }
  rewrite Ho. split; intros Haad; case_bool_decide as Heq; try done; [by subst|].
  apply aad_encoding_inj in Heq; done.
Qed.
End Opening.

(** ** Sequence numbers *)

(** What survives [json.MarshalIndent]: strings in UTF-8, numbers in range. *)
Record encodable (st : diskState) : Prop := mkEncodable {
  enc_catalog : ValidString (CatalogKeyB64 st) = true;
  enc_sessions : map_Forall (fun sid sk => ValidString sid = true /\ ValidString (KeyB64 sk) = true /\ is_uint64 (dskEpoch sk)) (Sessions st);
  enc_seqs : map_Forall (fun sid n => ValidString sid = true /\ is_uint64 n) (SeqSession st);
  enc_numbers : is_uint64 (CatalogEpoch st) /\ is_uint64 (SeqCatalog st)
}.

Lemma ascii_valid s : Forall (fun b => b < 128) (codes s) -> ValidString s = true.
Proof.
  unfold ValidString. induction s as [|c s IH]; intros Hs; [done|]. inversion Hs as [|? ? Hc Hs' E]; subst.
  rewrite utf8_scan_lead. unfold lead. apply Z.ltb_lt in Hc. rewrite Hc. auto.
Qed.

Lemma B64_valid b : ValidString (B64 b) = true.
Proof.
  apply ascii_valid. unfold B64. pose proof (base64_digits_sextets _ (codes_bytes b)) as Hds.
  rewrite codes_of_codes; apply Forall_fmap; eapply Forall_impl; try exact Hds;
    intros d Hd; unfold compose, is_byte, is_sextet, base64_char in *; repeat case_match; bool_hyps; lia.
Qed.

Lemma decode_key_B64 k : len k = KeySize -> decode_key (B64 k) = Some k.
Proof. intros Hk. unfold decode_key. by rewrite B64Decode_B64, Hk. Qed.

(** A manager whose keys have the right size, whose session names are valid and
    whose numbers are at most [n]. *)
Record manager_ok (n : Z) (m : Manager) : Prop := mkManagerOk {
  mo_path : path m <> "";
  mo_catalog : len (catalogKey m) = KeySize;
  mo_epoch : is_uint64 (catalogEpoch m);
  mo_sessions : map_Forall (fun sid sk => ValidString sid = true /\ len (Key sk) = KeySize /\ is_uint64 (skEpoch sk)) (sessions m);
  mo_catalog_seq : 0 <= seqCatalog m <= n;
  mo_session_seqs : map_Forall (fun sid k => ValidString sid = true /\ 0 <= k <= n) (seqSession m)
}.

Lemma manager_ok_encodable n m : n <= max_uint64 -> manager_ok n m -> encodable (disk_state m).
Proof.
  intros Hn [? ? ? Hs ? Hq]. split; cbn; [apply B64_valid| | |unfold is_uint64 in *; lia].
  - intros sid sk Hsk. rewrite lookup_fmap in Hsk. apply fmap_Some in Hsk as (sk' & Hsk' & ->).
    destruct (Hs sid sk' Hsk') as (? & _ & ?). split; [done|]. split; [apply B64_valid|done].
  - intros sid k Hk. destruct (Hq sid k Hk) as [? ?]. split; [done|]. unfold is_uint64. lia.
Qed.

Lemma manager_ok_more n n' m : n <= n' -> manager_ok n m -> manager_ok n' m.
Proof.
  intros Hn [? ? ? ? ? Hq]. split; try done; [lia|]. intros sid k Hk. destruct (Hq sid k Hk). split; [done|lia].
Qed.

(** Loading gives back what was saved. *)
Lemma load_saved n m :
  manager_ok n m ->
  (match decode_key (CatalogKeyB64 (disk_state m)) with
   | None => Err "catalog key"
   | Some k => Ok (mkManager (path m) k (CatalogEpoch (disk_state m)) (load_sessions (Sessions (disk_state m)))
                     (SeqCatalog (disk_state m)) (SeqSession (disk_state m)))
   end) = Ok m.
Proof.
  intros [? Hc ? Hs ? ?]. cbn. rewrite decode_key_B64 by done. destruct m as [p ck ce ss sc sq]; cbn in *. do 2 f_equal.
  apply map_eq. intros sid. unfold load_sessions. rewrite lookup_omap, lookup_fmap.
  destruct (ss !! sid) as [sk|] eqn:Es; [|done]. destruct (Hs sid sk Es) as (_ & Hk & _). cbn.
  rewrite decode_key_B64 by done. by destruct sk.
Qed.

(** The last number of a scope, its key, and the key an event shows. *)
Definition last_number (m : option Manager) (sc : option string) : Z :=
  match m with
  | None => 0
  | Some m => match sc with None => seqCatalog m | Some sid => session_seq m sid end
  end.

Definition scope_key (m : option Manager) (sc : option string) : option (string * Z) :=
  m ← m;
  match sc with
  | None => Some (catalogKey m, catalogEpoch m)
  | Some sid => (fun sk => (Key sk, skEpoch sk)) <$> sessions m !! sid
  end.

Definition event_key (e : key_event) : option (option string * (string * Z)) :=
  match e with
  | Numbered None k epoch _ => Some (None, (k, epoch))
  | GotKey sid k epoch => Some (Some sid, (k, epoch))
  | _ => None
  end.

(** What a step does to the numbers and the keys. *)
Record key_progress (m : option Manager) (e : option key_event) (m' : option Manager) : Prop := mkProgress {
  kp_numbers : forall sc, last_number m sc <= last_number m' sc;
  kp_keys : forall sc v, scope_key m sc = Some v -> scope_key m' sc = Some v;
  kp_number : forall sc k epoch a, e = Some (Numbered sc k epoch a) -> last_number m sc < a /\ a = last_number m' sc;
  kp_key : forall sc v, e ≫= event_key = Some (sc, v) -> scope_key m' sc = Some v
}.

Section Numbers.
Context `{Codec diskState} `{!CodecLaws diskState encodable eq}.
Context (Hmarshal : forall st, encodable st -> exists f, marshalIndent st = Ok f).
Context (p : string) (Hp : p <> "").

(** Every write of the file succeeds and every restart can read it. *)
Definition reliable (op : key_op) : Prop :=
  match op with
  | TakeCatalogSeq s => s = Saved
  | TakeSessionSeq sid s | GetSessionKey sid _ s => s = Saved /\ ValidString sid = true
  | RestartKeys unreadable _ s => unreadable = false /\ s = Saved
  end.

Definition saved_as (m : Manager) (d : option (file diskState)) : Prop := exists f, d = Some f /\ unmarshal f = Ok (disk_state m).

Definition keys_ok (n : Z) (w : option Manager * option (file diskState)) : Prop :=
  match w.1 with
  | None => w.2 = None
  | Some m => manager_ok n m /\ path m = p /\ saved_as m w.2
  end.

Lemma persist_saved n m d : n <= max_uint64 -> manager_ok n m -> exists d', persist Saved m d = (Ok tt, d') /\ saved_as m d'.
Proof.
  intros Hn Hm. pose proof (manager_ok_encodable n m Hn Hm) as He. destruct (Hmarshal _ He) as [f Hf].
  exists (Some f). unfold persist, WriteFile. rewrite Hf. split.
  - destruct (path m) eqn:E; [by destruct Hm|done].
  - exists f. split; [done|]. by destruct (unmarshal_marshalIndent _ _ He Hf) as (st & Hst & <-).
Qed.

Lemma manager_ok_next_catalog n m : 0 <= n < max_uint64 -> manager_ok n m -> 
  manager_ok (n + 1) (next_catalog m) /\ seqCatalog (next_catalog m) = seqCatalog m + 1.
Proof.
  intros Hn Hm. destruct (manager_ok_more n (n + 1) m ltac:(lia) Hm) as [? ? ? ? ? ?].
  assert (E : seqCatalog (next_catalog m) = seqCatalog m + 1).
  { cbn. unfold u64_add. destruct Hm. unfold max_uint64 in *. rewrite Z.mod_small; lia. }
  split; [|done]. split; try done. rewrite E. destruct Hm. lia.
Qed.

Lemma manager_ok_next_session n m sid : 0 <= n < max_uint64 -> ValidString sid = true -> manager_ok n m ->
  manager_ok (n + 1) (next_session m sid) /\
  forall sid', session_seq (next_session m sid) sid' = if decide (sid' = sid) then session_seq m sid + 1 else session_seq m sid'.
Proof.
  intros Hn Hv Hm. destruct (manager_ok_more n (n + 1) m ltac:(lia) Hm) as [? ? ? ? ? Hq'].
  assert (Hr : 0 <= session_seq m sid <= n).
  { unfold session_seq. destruct (seqSession m !! sid) as [k|] eqn:E; cbn; [|lia]. destruct Hm as [? ? ? ? ? Hq]. by destruct (Hq sid k E). }
  assert (E : u64_add (session_seq m sid) 1 = session_seq m sid + 1).
  { unfold u64_add. unfold max_uint64 in *. rewrite Z.mod_small; lia. }
  split.
  - split; try done. cbn. rewrite E. apply map_Forall_insert_2; [|done]. split; [done|lia].
  - intros sid'. unfold session_seq at 1. cbn. rewrite E. case_decide; [subst; by rewrite lookup_insert_eq|].
    by rewrite lookup_insert_ne by done.
Qed.

(** The two things that change: a number, or one new session key. *)
Lemma progress_number m m' sc k epoch :
  (forall sc', last_number (Some m') sc' = if decide (sc' = sc) then last_number (Some m) sc + 1 else last_number (Some m) sc') ->
  (forall sc', scope_key (Some m') sc' = scope_key (Some m) sc') ->
  (sc = None -> scope_key (Some m') None = Some (k, epoch)) ->
  key_progress (Some m) (Some (Numbered sc k epoch (last_number (Some m') sc))) (Some m').
Proof.
  intros Hn Hk Hc. split.
  - intros sc'. rewrite Hn. case_decide; subst; lia.
  - intros sc' v. by rewrite Hk.
  - intros sc' k' epoch' a Ee. pose proof (Hn sc) as E. rewrite decide_True in E by done. split; [|congruence].
    assert (a = last_number (Some m') sc /\ sc' = sc) as [-> ->] by (split; congruence). lia.
  - intros sc' v. cbn. destruct sc; [done|]. intros [= <- <-]. auto.
Qed.

Lemma progress_key m m' e :
  (forall sc, last_number (Some m') sc = last_number (Some m) sc) ->
  (forall sc v, scope_key (Some m) sc = Some v -> scope_key (Some m') sc = Some v) ->
  (forall sc k epoch a, e <> Some (Numbered sc k epoch a)) ->
  (forall sc v, e ≫= event_key = Some (sc, v) -> scope_key (Some m') sc = Some v) ->
  key_progress (Some m) e (Some m').
Proof. intros Hn Hk He Hv. split; [intros sc; by rewrite Hn|done|intros; subst; naive_solver|done]. Qed.

Lemma take_catalog_ok n m d e w' :
  0 <= n < max_uint64 -> keys_ok n (Some m, d) -> key_step p (TakeCatalogSeq Saved) (Some m, d) = (e, w') ->
  keys_ok (n + 1) w' /\ key_progress (Some m) e w'.1.
Proof.
  intros Hn (Hm & Hpath & _) Hstep. destruct (manager_ok_next_catalog n m Hn Hm) as [Hm' E].
  cbn in Hstep. unfold NextCatalogSeq in Hstep.
  destruct (persist_saved (n + 1) (next_catalog m) d) as (d' & Hd & Hsaved); [lia|done|]. rewrite Hd in Hstep.
  injection Hstep as <- <-. split; [done|]. apply (progress_number m (next_catalog m) None); [|by intros [sid|]|done].
  intros [sid|]; [done|exact E].
Qed.

Lemma take_session_ok n m d sid e w' :
  0 <= n < max_uint64 -> keys_ok n (Some m, d) -> ValidString sid = true ->
  key_step p (TakeSessionSeq sid Saved) (Some m, d) = (e, w') -> keys_ok (n + 1) w' /\ key_progress (Some m) e w'.1.
Proof.
  intros Hn (Hm & Hpath & _) Hv Hstep. destruct (manager_ok_next_session n m sid Hn Hv Hm) as [Hm' E].
  cbn in Hstep. unfold NextSessionSeq in Hstep.
  destruct (persist_saved (n + 1) (next_session m sid) d) as (d' & Hd & Hsaved); [lia|done|]. rewrite Hd in Hstep.
  destruct (session_key (next_session m sid) sid) as [k epoch]. injection Hstep as <- <-. split; [done|].
  apply (progress_number m (next_session m sid) (Some sid)); [|by intros [sid'|]|done].
  intros [sid'|]; [|done]. cbn [last_number]. rewrite E. by repeat case_decide; simplify_eq.
Qed.

Lemma random_key_size rnd k : RandomKey rnd = Ok k -> len k = KeySize.
Proof.
  unfold RandomKey, random_of. intros Hk. apply bind_ok in Hk as (b & _ & Hk). destruct (len b =? KeySize) eqn:E; [|done].
  injection Hk as <-. bool_hyps. done.
Qed.

Lemma get_key_ok n m d sid rnd e w' :
  0 <= n < max_uint64 -> keys_ok n (Some m, d) -> ValidString sid = true ->
  key_step p (GetSessionKey sid rnd Saved) (Some m, d) = (e, w') -> keys_ok (n + 1) w' /\ key_progress (Some m) e w'.1.
Proof.
  intros Hn (Hm & Hpath & Hd) Hv Hstep. pose proof (manager_ok_more n (n + 1) m ltac:(lia) Hm) as Hmore.
  cbn in Hstep. unfold SessionKey in Hstep. destruct (sessions m !! sid) as [sk|] eqn:Es.
  - injection Hstep as <- <-. split; [done|]. apply progress_key; try done. cbn. intros sc v [= <- <-]. cbn. by rewrite Es.
  - destruct (RandomKey rnd) as [k|err] eqn:Ek; [|injection Hstep as <- <-; split; [done|by apply progress_key]].
    set (m' := with_sessions m (<[sid := mkSK k 1]> (sessions m))) in *.
    assert (Hm' : manager_ok (n + 1) m').
    { destruct Hmore. split; try done. apply map_Forall_insert_2; [|done]. split; [done|].
      split; [by eapply random_key_size|done]. }
    destruct (persist_saved (n + 1) m' d) as (d' & Hd' & Hsaved); [lia|done|]. rewrite Hd' in Hstep.
    injection Hstep as <- <-. split; [done|]. apply progress_key; try done.
    + intros [sid'|] v; [|done]. cbn. destruct (decide (sid' = sid)) as [->|Hne]; [by rewrite Es|by rewrite lookup_insert_ne].
    + cbn. intros sc v [= <- <-]. cbn. by rewrite lookup_insert_eq.
Qed.

Lemma restart_ok n m d rnd e w' :
  0 <= n < max_uint64 -> keys_ok n (m, d) -> key_step p (RestartKeys false rnd Saved) (m, d) = (e, w') ->
  keys_ok (n + 1) w' /\ key_progress m e w'.1.
Proof.
  intros Hn Hw Hstep. cbn in Hstep. unfold LoadOrCreate in Hstep. destruct m as [m|].
  - destruct Hw as (Hm & Hpath & f & [= ->] & Hf). rewrite Hf in Hstep. rewrite <- Hpath, (load_saved n m Hm) in Hstep.
    injection Hstep as <- <-. split; [split; [by eapply manager_ok_more; [|done]; lia|by split; [done|exists f]]|].
    by apply progress_key.
  - cbn in Hw. subst d. destruct (RandomKey rnd) as [k|err] eqn:Ek; [|injection Hstep as <- <-; by split].
    assert (Hm : manager_ok (n + 1) (mkManager p k 1 ∅ 0 ∅)).
    { split; cbn; [done|by eapply random_key_size|done|apply map_Forall_empty|lia|apply map_Forall_empty]. }
    destruct (persist_saved (n + 1) _ None ltac:(lia) Hm) as (d' & Hd' & Hsaved). rewrite Hd' in Hstep.
    injection Hstep as <- <-. split; [done|]. split; [|done..]. by intros [sid|].
Qed.

Lemma key_step_ok n op w e w' :
  0 <= n < max_uint64 -> keys_ok n w -> reliable op -> key_step p op w = (e, w') ->
  keys_ok (n + 1) w' /\ key_progress w.1 e w'.1.
Proof.
  intros Hn Hw Hop Hstep. destruct w as [m d].
  destruct op as [s|sid s|sid rnd s|unreadable rnd s]; cbn in Hop; destruct_and?; subst;
    [| | |by apply (restart_ok n m d rnd)].
  all: destruct m as [m|]; [|by injection Hstep as <- <-].
  - by apply (take_catalog_ok n m d).
  - by apply (take_session_ok n m d sid).
  - by apply (get_key_ok n m d sid rnd).
Qed.
Lemma key_run_ok ops n w es w' :
  0 <= n -> n + Z.of_nat (length ops) <= max_uint64 -> keys_ok n w -> Forall reliable ops -> key_run p ops w = (es, w') ->
  keys_ok (n + Z.of_nat (length ops)) w' /\
  (forall e, e ∈ es -> forall sc v, scope_key w.1 sc = Some v -> forall v', event_key e = Some (sc, v') -> v' = v) /\
  (forall e, e ∈ es -> forall sc k epoch a, e = Numbered sc k epoch a -> last_number w.1 sc < a) /\
  (forall i j e1 e2, (i < j)%nat -> es !! i = Some e1 -> es !! j = Some e2 ->
     (forall sc k1 epoch1 a k2 epoch2 b, e1 = Numbered sc k1 epoch1 a -> e2 = Numbered sc k2 epoch2 b -> a < b) /\
     (forall sc v1 v2, event_key e1 = Some (sc, v1) -> event_key e2 = Some (sc, v2) -> v1 = v2)).
Proof.
  revert n w es w'. induction ops as [|op ops IH]; intros n w es w' Hn Hlen Hw Hops Hrun; cbn in Hrun, Hlen.
  { injection Hrun as <- <-. rewrite Z.add_0_r. split; [done|]. split; [|split]; [by intros e ?%not_elem_of_nil..|done]. }
  inversion Hops as [|? ? Hop Hops' E]; subst. destruct (key_step p op w) as [e1 w1] eqn:Es.
  destruct (key_run p ops w1) as [es1 w2] eqn:Er. injection Hrun as <- <-.
  destruct (key_step_ok n op w e1 w1 ltac:(lia) Hw Hop Es) as [Hw1 [Hnum Hkeys Hnumber Hkey]].
  destruct (IH (n + 1) w1 es1 w2 ltac:(lia) ltac:(lia) Hw1 Hops' Er) as (Hw2 & Hk & Ha & Hpairs).
  split; [by replace (n + Z.of_nat (length (op :: ops))) with (n + 1 + Z.of_nat (length ops)) by (cbn [length]; lia)|].
  destruct e1 as [e1|]; cbn [app].
  - split; [|split].
    + intros e [->|He]%elem_of_cons sc v Hv v' Hev; [|by eapply Hk; eauto].
      pose proof (Hkey sc v' Hev) as H1. apply Hkeys in Hv. congruence.
    + intros e [->|He]%elem_of_cons sc k epoch a ->; [by eapply (Hnumber sc k epoch a)|].
      specialize (Ha _ He _ _ _ _ eq_refl). specialize (Hnum sc). lia.
    + intros [|i] [|j] f1 f2 Hij H1 H2; [lia| |lia|by apply (Hpairs i j); [lia|..]].
      injection H1 as ->. cbn in H2. apply list_elem_of_lookup_2 in H2. split.
      * intros sc k1 epoch1 a k2 epoch2 b -> ->. destruct (Hnumber _ _ _ _ eq_refl) as [_ ->]. by eapply Ha.
      * intros sc v1 v2 E1 E2. symmetry. eapply Hk; [exact H2| |exact E2]. by apply Hkey.
  - split; [|split; [|done]].
    + intros e He sc v Hv v' Hev. by eapply Hk; eauto.
    + intros e He sc k epoch a ->. specialize (Ha _ He _ _ _ _ eq_refl). specialize (Hnum sc). lia.
Qed.

(** C21: from a device without a key file on, across any sequence of sealing,
    key requests and restarts in which the file can be written and read, the
    numbers given out in a scope only grow, so no two sealed frames of a scope
    carry the same number; and a scope's key and epoch never change. *)
Theorem sequence_numbers_are_fresh ops es w' :
  Z.of_nat (length ops) <= max_uint64 -> Forall reliable ops -> key_run p ops (None, None) = (es, w') ->
  forall i j e1 e2, (i < j)%nat -> es !! i = Some e1 -> es !! j = Some e2 ->
  (forall sc k1 epoch1 a k2 epoch2 b, e1 = Numbered sc k1 epoch1 a -> e2 = Numbered sc k2 epoch2 b -> a < b) /\
  (forall sc v1 v2, event_key e1 = Some (sc, v1) -> event_key e2 = Some (sc, v2) -> v1 = v2).
Proof.
  intros Hlen Hops Hrun. by destruct (key_run_ok ops 0 (None, None) es w' ltac:(lia) ltac:(lia) eq_refl Hops Hrun) as (_ & _ & _ & Hpairs).
Qed.
End Numbers.

(** ** A concrete device

    The file holds the document itself; an AEAD that carries the associated
    data beside the text. *)

Module Demo.

Definition codec : Codec diskState := {| file := diskState; file_size := fun _ => 0; marshalIndent := Ok; unmarshal := Ok |}.
#[local] Existing Instance codec.

Lemma codec_laws : CodecLaws diskState encodable eq.
Proof. split. intros d f _ [= ->]. by exists f. Qed.

Definition aead : AEAD := {|
  gcm_seal := fun _ _ text aad => B64 aad +:+ "." +:+ text;
  gcm_open := fun _ _ sealed aad =>
    let p := B64 aad +:+ "." in if has_prefix p sealed then Some (drop_bytes (String.length p) sealed) else None
|}.

Definition not_dot (c : ascii) : bool := negb (code c =? 46).

Lemma B64_no_dot b : forallb not_dot (String.list_ascii_of_string (B64 b)) = true.
Proof. by apply B64_alphabet. Qed.

Lemma aead_laws : @AEADLaws aead.
Proof.
  split.
  - intros key nonce text aad. cbn -[B64]. rewrite string_app_assoc, has_prefix_app. by rewrite drop_prefix.
  - intros key nonce text aad aad' Hne. cbn -[B64]. destruct (has_prefix _ _) eqn:E; [|done]. exfalso. apply Hne.
    apply has_prefix_spec in E as [r E]. rewrite <- string_app_assoc in E.
    apply (delimited_prefix not_dot (B64 aad) (B64 aad') "." text r) in E; [|apply B64_no_dot|apply B64_no_dot|done].
    destruct E as [E _]. apply (f_equal B64Decode) in E. rewrite !B64Decode_B64 in E. by injection E.
Qed.

Definition key1 : string := "0123456789abcdef0123456789abcdef".
Definition key2 : string := "fedcba9876543210fedcba9876543210".
Definition nonce1 : string := "0123456789ab".

Definition aad1 : AADFields :=
  mkAAD "1" "sealed" "prompt" "d" "s" "m1" "session" 1 "daemon:d" 1 1700000000000.
Definition aad2 : AADFields :=
  mkAAD "1" "sealed" "prompt" "d" "s" "m2" "session" 1 "daemon:d" 1 1700000000000.
Definition manager : Manager := mkManager "" key1 1 {["s" := mkSK key2 1]} 0 ∅.

Lemma aad_binds_every_field_witness : EncodeAAD aad1 <> EncodeAAD aad2.
Proof.
  intros E. assert (aad1 = aad2); [|discriminate]. apply aad_binds_every_field; [| |exact E]; split; repeat constructor; done.
Defined.

Lemma sealed_body_opens_only_as_sent_witness :
  exists w m', @SealSession aead codec "s" "daemon:d" "phone:p" aad1 "hello" (Err "unused") (Ok nonce1) Saved Saved manager None = (Ok w, m', None) /\
    @OpenSession aead "s" (Some w) aad1 manager = Ok "hello" /\
    @OpenSession aead "s" (Some w) aad2 manager = Err "cipher: message authentication failed".
Proof.
  eexists _, _. split; [vm_compute; reflexivity|].
  assert (Hok : forall f, f = aad1 \/ f = aad2 -> aad_ok f) by (intros f [->| ->]; split; repeat constructor; done).
  split.
  - refine (proj1 (@sealed_body_opens_only_as_sent aead aead_laws codec "s" "daemon:d" "phone:p" aad1 "hello" (Err "unused")
      (Ok nonce1) Saved Saved manager None _ _ None manager aad1 _ _ _ _) _); [vm_compute; reflexivity|vm_compute; reflexivity| | |reflexivity];
      apply Hok; by left.
  - refine (proj2 (@sealed_body_opens_only_as_sent aead aead_laws codec "s" "daemon:d" "phone:p" aad1 "hello" (Err "unused")
      (Ok nonce1) Saved Saved manager None _ _ None manager aad2 _ _ _ _) _);
      [vm_compute; reflexivity|vm_compute; reflexivity|apply Hok; by left|apply Hok; by right|discriminate].
Defined.

Definition life : list (@key_op codec) :=
  [RestartKeys false (Ok key1) Saved; TakeCatalogSeq Saved; GetSessionKey "s" (Ok key2) Saved; TakeSessionSeq "s" Saved;
   RestartKeys false (Ok key2) Saved; TakeCatalogSeq Saved; TakeSessionSeq "s" Saved; GetSessionKey "s" (Ok key1) Saved].

(** The same with a write that fails before the restart, and with a restart
    that cannot read the file. *)
Definition lost_write : list (@key_op codec) :=
  [RestartKeys false (Ok key1) Saved; TakeCatalogSeq (NotSaved "no space left on device" None);
   RestartKeys false (Ok key2) Saved; TakeCatalogSeq Saved].
Definition lost_read : list (@key_op codec) :=
  [RestartKeys false (Ok key1) Saved; TakeCatalogSeq Saved; RestartKeys true (Ok key2) Saved; TakeCatalogSeq Saved].

Lemma sequence_numbers_are_fresh_witness :
  (key_run "keys.json" life (None, None)).1 =
    [Loaded; Numbered None key1 1 1; GotKey "s" key2 1; Numbered (Some "s") key2 1 1;
     Loaded; Numbered None key1 1 2; Numbered (Some "s") key2 1 2; GotKey "s" key2 1] /\
  1 < 2.
Proof.
  split; [vm_compute; reflexivity|].
  refine (proj1 (@sequence_numbers_are_fresh codec codec_laws (fun st _ => ex_intro _ st eq_refl) "keys.json" _ life _ _ _ _ eq_refl
            3%nat 6%nat _ _ _ eq_refl eq_refl) (Some "s") key2 1 1 key2 1 2 eq_refl eq_refl); [discriminate|by vm_compute| |lia].
  repeat constructor.
Defined.

(** the error of writing the key file is dropped when a number is taken,
    and an unreadable file counts as none. So after a write that failed a
    restart gives out the same catalog number under the same key again, and a
    restart that cannot read the file replaces the catalog key under the same
    epoch. *)
Theorem unwritten_numbers_are_reused :
  (key_run "keys.json" lost_write (None, None)).1 =
    [Loaded; Numbered None key1 1 1; Loaded; Numbered None key1 1 1] /\
  (key_run "keys.json" lost_read (None, None)).1 =
    [Loaded; Numbered None key1 1 1; Loaded; Numbered None key2 1 1].
Proof. split; vm_compute; reflexivity. Qed.

End Demo.
