(* ===== verification/DaemonClientSpec.v ===== *)
(** * What the daemon's connection promises

    Seen from the callbacks there is one endpoint at a time, and a change of it
    happens between callbacks: the interleaved client refines a small
    specification of that. No socket is forgotten open, the goroutine stops
    only for a reason, and a pause does not lose the wake-up that ends it. *)

From stdpp Require Import base tactics list gmap strings.
From Stdlib Require Import ZArith Lia.
From S2P Require Import Prelude GoStrings Json Protocol DaemonClient.

(** ** The specification *)

Record endpoint_state : Type := mkEndpoint {
  ep : option string;
  dead : bool;
  running : nat
}.

(** A callback may start for the endpoint published last and not after Close,
    and the endpoint changes when no callback runs. *)
Definition spec_step (x : endpoint_state) (e : event) : option endpoint_state :=
  match e with
  | CallMessage url | CallConnect url =>
    if (negb (dead x) && bool_decide (ep x = Some url))%bool then Some (mkEndpoint (ep x) (dead x) (S (running x))) else None
  | ReturnMessage url | ReturnConnect url =>
    if bool_decide (ep x = Some url)
    then match running x with S n => Some (mkEndpoint (ep x) (dead x) n) | O => None end
    else None
  | Published e => if (running x =? 0)%nat then Some (mkEndpoint e (dead x) 0) else None
  | ClosedClient => if (running x =? 0)%nat then Some (mkEndpoint (ep x) true 0) else None
  end.

Fixpoint spec_run (x : endpoint_state) (es : list event) : option endpoint_state :=
  match es with
  | [] => Some x
  | e :: es => y ← spec_step x e; spec_run y es
  end.

Lemma spec_run_app x es e y : spec_run x es = Some y -> spec_run x (es ++ [e]) = spec_step y e.
Proof.
  revert x. induction es as [|e1 es IH]; intros x Hr; cbn in *; [injection Hr as ->; by destruct (spec_step y e)|].
  destruct (spec_step x e1) as [z|]; [|done]. cbn in *. auto.
Qed.

Definition endpoint_of (c : Client) : option string := if endpointActive c then Some (serverURL c) else None.

(** ** The invariant *)

(** The callbacks that run, and the sockets they run for. *)
Definition main_running (d : driver) : list nat := match d with InMessage s => [s] | _ => [] end.
Definition running_sockets (w : world) : list nat := main_running (main w) ++ (List.filter snd (connecting w)).*1.

(** [s] was dialled for the endpoint of [c], which is in use. *)
Definition is_current (w : world) (s : nat) : Prop :=
  closed (client w) = false /\ endpointActive (client w) = true /\
  (exists k, sockets w !! s = Some k /\ sock_url k = serverURL (client w)).

(** The socket [Connect] is setting up. *)
Definition main_snapshot (d : driver) : option (snapshot * nat) :=
  match d with Authing _ sn s | Installing _ sn s _ => Some (sn, s) | _ => None end.

Record client_ok (w : world) (x : endpoint_state) : Prop := mkClientOk {
  co_running : running x = List.length (running_sockets w);
  co_dead : dead x = closed (client w);
  co_endpoint : writer w = None -> closed (client w) = false -> ep x = endpoint_of (client w);
  co_writer : forall old e, writer w = Some (old, e) -> running x = 0%nat /\ (closed (client w) = false -> e = endpoint_of (client w));
  co_current : forall s, s ∈ running_sockets w \/ conn (client w) = Some s -> is_current w s;
  co_snapshot : forall sn s, main_snapshot (main w) = Some (sn, s) -> exists k, sockets w !! s = Some k /\ sock_url k = snURL sn
}.

Lemma is_current_url w s : is_current w s -> url_of w s = serverURL (client w).
Proof. intros (_ & _ & k & Hk & Hu). unfold url_of. by rewrite Hk. Qed.

Lemma close_socket_lookup t m s k : m !! s = Some k -> exists k', close_socket t m !! s = Some k' /\ sock_url k' = sock_url k.
Proof.
  intros Hk. unfold close_socket. destruct (decide (t = s)) as [->|Hne].
  - rewrite list_lookup_alter_eq, Hk. by eexists.
  - rewrite list_lookup_alter_ne by done. by exists k.
Qed.

(** Steps that only touch [main], [closing] and sockets keep the invariant. *)
Definition sockets_grow (m m' : list socket) : Prop :=
  forall s k, m !! s = Some k -> exists k', m' !! s = Some k' /\ sock_url k' = sock_url k.

Lemma sockets_grow_refl m : sockets_grow m m.
Proof. intros s k Hk. by exists k. Qed.

Lemma sockets_grow_close t m : sockets_grow m (close_socket t m).
Proof. intros s k. apply close_socket_lookup. Qed.

Lemma sockets_grow_app m k : sockets_grow m (m ++ [k]).
Proof. intros s j Hj. exists j. split; [by apply lookup_app_l_Some|done]. Qed.

Lemma sockets_grow_trans m1 m2 m3 : sockets_grow m1 m2 -> sockets_grow m2 m3 -> sockets_grow m1 m3.
Proof. intros H1 H2 s k Hk. destruct (H1 s k Hk) as (k2 & Hk2 & <-). by apply H2. Qed.

Lemma sockets_grow_shut t m m' : sockets_grow m m' -> sockets_grow m (close_socket t m').
Proof. intros H. by eapply sockets_grow_trans; [|apply sockets_grow_close]. Qed.

Lemma opened_last (m : list socket) k : (m ++ [k]) !! List.length m = Some k.
Proof. rewrite lookup_app_r by done. by rewrite Nat.sub_diag. Qed.

#[local] Hint Resolve sockets_grow_refl sockets_grow_app sockets_grow_shut : core.

(** What the invariant reads of the client. *)
Definition same_view (c c' : Client) : Prop :=
  closed c' = closed c /\ endpointActive c' = endpointActive c /\ serverURL c' = serverURL c /\
  (conn c' = conn c \/ conn c' = None).

Lemma same_view_refl c : same_view c c.
Proof. repeat split; auto. Qed.
#[local] Hint Resolve same_view_refl : core.

Lemma is_current_keep w w' s :
  same_view (client w) (client w') -> sockets_grow (sockets w) (sockets w') -> is_current w s -> is_current w' s.
Proof.
  intros (Hc & Ha & Hu & _) Hg (H1 & H2 & k & Hk & Hurl). split; [by rewrite Hc|]. split; [by rewrite Ha|].
  destruct (Hg s k Hk) as (k' & Hk' & E). exists k'. split; [done|]. by rewrite E, Hu.
Qed.

Lemma client_ok_keep w w' x :
  client_ok w x -> same_view (client w) (client w') -> sockets_grow (sockets w) (sockets w') ->
  running_sockets w' ≡ₚ running_sockets w -> writer w' = writer w ->
  (forall sn s, main_snapshot (main w') = Some (sn, s) ->
     main_snapshot (main w) = Some (sn, s) \/ exists k, sockets w' !! s = Some k /\ sock_url k = snURL sn) ->
  client_ok w' x.
Proof.
  intros [Hr Hd He Hw Hc Hs] Hv Hg Hrun Hwr Hsn. pose proof Hv as (Vc & Va & Vu & Vn).
  assert (Hep : endpoint_of (client w') = endpoint_of (client w)) by (unfold endpoint_of; by rewrite Va, Vu).
  split; rewrite ?Hrun, ?Hwr, ?Vc, ?Hep; try done.
  - intros s Hs'. apply (is_current_keep w); [done|done|]. apply Hc. destruct Hs' as [?|E]; [left; by rewrite <- Hrun|right].
    destruct Vn as [Vn|Vn]; congruence.
  - intros sn s E. destruct (Hsn sn s E) as [E'|?]; [|done]. destruct (Hs sn s E') as (k & Hk & Hu).
    destruct (Hg s k Hk) as (k' & Hk' & E2). exists k'. split; [done|congruence].
Qed.

(** A step and the events it shows. *)
Definition step_ok (w w' : world) (x : endpoint_state) : Prop :=
  exists es y, trace w' = trace w ++ es /\ spec_run x es = Some y /\ client_ok w' y.

Lemma step_silent w w' x : trace w' = trace w -> client_ok w' x -> step_ok w w' x.
Proof. intros Ht Hok. exists [], x. by rewrite app_nil_r. Qed.

Lemma can_write_spec w : can_write w = true -> writer w = None /\ running_sockets w = [].
Proof.
  unfold can_write, no_writer, running_connects, running_sockets. intros Hcw.
  apply andb_true_iff in Hcw as [Hcw Hl]. apply andb_true_iff in Hcw as [Hw Hm]. destruct (writer w); [done|]. split; [done|].
  apply Nat.eqb_eq, length_zero_iff_nil in Hl. rewrite Hl. by destruct (main w).
Qed.

(** A step of [Main] that shows nothing and changes no endpoint. *)
Ltac quiet_step Em :=
  apply step_silent; [repeat case_match; done|]; eapply client_ok_keep;
  [ eassumption
  | repeat case_match; cbn; auto
  | repeat case_match; cbn; auto
  | unfold running_sockets; rewrite Em; repeat case_match; cbn; rewrite ?List.filter_app; cbn; rewrite ?app_nil_r; done
  | cbn; repeat case_match; done
  | intros ? ? E; cbn in *; repeat case_match; simplify_eq/=; rewrite ?Em; eauto ].

Lemma install_ok w x boot sn s version old c :
  client_ok w x -> main w = Installing boot sn s version -> can_write w = true ->
  install sn s version (client w) = Installed old c ->
  client_ok (set_main (set_client w c) (Arming boot s old (onConnect (client w)))) x.
Proof.
  intros [Hr Hd He Hw Hc Hs] Em Hcw Hi. destruct (can_write_spec w Hcw) as [Hnw Hrun].
  unfold install in Hi. destruct (_ || _)%bool eqn:Eb; [by destruct (closed (client w))|]. injection Hi as _ <-.
  rewrite !orb_false_iff in Eb. destruct Eb as [[[Eclosed Eactive] Egen] Eurl].
  rewrite negb_false_iff in Eactive. rewrite negb_false_iff, bool_decide_eq_true in Eurl.
  destruct (Hs sn s) as (k & Hk & Hu); [by rewrite Em|].
  assert (Hrun' : forall d, main_running d = [] -> (List.filter snd (connecting w)).*1 = []).
  { intros d _. unfold running_sockets in Hrun. by apply app_eq_nil in Hrun as [_ ->]. }
  split; cbn; try done.
  - rewrite Hr, Hrun. unfold running_sockets. cbn. by rewrite (Hrun' LoopTop).
  - intros s' [Hs'|[= <-]]; [unfold running_sockets in Hs'; cbn in Hs'; rewrite (Hrun' LoopTop) in Hs' by done; by apply not_elem_of_nil in Hs'|].
    split; [done|]. split; [done|]. exists k. cbn. split; [done|congruence].
Qed.

Lemma connect_step_ok a w w' x : client_ok w x -> connect_step a w = Some w' -> step_ok w w' x.
Proof.
  intros Hok Hstep. unfold connect_step in Hstep. destruct (main w) eqn:Em; try done; destruct a; try done.
  - injection Hstep as <-. quiet_step Em.
  - unfold open_socket in Hstep. injection Hstep as <-. quiet_step Em.
    right. eexists. split; [apply opened_last|done].
  - injection Hstep as <-. quiet_step Em.
  - injection Hstep as <-. quiet_step Em.
  - destruct (can_write w) eqn:Ecw; [|done]. cbn in Hstep. injection Hstep as <-.
    destruct (install sn s version (client w)) as [old c| |] eqn:Ei; [|quiet_step Em..].
    apply step_silent; [done|]. by eapply install_ok.
  - injection Hstep as <-. unfold shut_all. quiet_step Em.
Qed.

Lemma retry_view e c : same_view c (recordConnectionFailure e c).2.
Proof. unfold recordConnectionFailure. repeat case_match; repeat split; auto. Qed.

Lemma detach_view s c : same_view c (detach s c).2.
Proof. unfold detach. case_bool_decide; repeat split; auto. Qed.
Lemma delay_view c : same_view c (next_delay c).2.
Proof. repeat split; auto. Qed.

Lemma retry_step_ok a w w' x : client_ok w x -> retry_step a w = Some w' -> step_ok w w' x.
Proof.
  intros Hok Hstep. unfold retry_step in Hstep. destruct (main w) eqn:Em; try done; destruct a; try done.
  - pose proof (retry_view e (client w)) as Hv. destruct (recordConnectionFailure e (client w)) as [again c]. injection Hstep as <-.
    quiet_step Em.
  - injection Hstep as <-. quiet_step Em.
  - destruct (cancelled w); [|destruct (closed (client w)); [|done]]; injection Hstep as <-; quiet_step Em.
  - destruct (_ <? _)%nat; [|done]. injection Hstep as <-. quiet_step Em.
  - pose proof (delay_view (client w)) as Hv. destruct (next_delay (client w)) as [delay c]. injection Hstep as <-. quiet_step Em.
  - destruct (cancelled w); [|done]. injection Hstep as <-. quiet_step Em.
  - injection Hstep as <-. quiet_step Em.
  - injection Hstep as <-. quiet_step Em.
Qed.

(** Callbacks start and end. *)
Lemma is_current_running w w' s :
  client w' = client w -> sockets w' = sockets w -> is_current w s -> is_current w' s.
Proof. intros Hc Hs. unfold is_current. by rewrite Hc, Hs. Qed.

Lemma call_ok w w' x s :
  client_ok w x -> writer w = None -> client w' = client w -> sockets w' = sockets w -> writer w' = None ->
  running_sockets w' ≡ₚ s :: running_sockets w -> conn (client w) = Some s -> (main_snapshot (main w') = None \/ main w' = main w) ->
  spec_step x (CallMessage (url_of w s)) = Some (mkEndpoint (ep x) (dead x) (S (running x))) /\
  client_ok w' (mkEndpoint (ep x) (dead x) (S (running x))).
Proof.
  intros [Hr Hd He Hw Hc Hs] Hnw Ec Es Ew Hrun Hconn Hsn.
  pose proof (Hc s (or_intror Hconn)) as Hcur. pose proof (is_current_url w s Hcur) as Hu. destruct Hcur as (H1 & H2 & Hk).
  split.
  - cbn. rewrite Hd, H1, (He Hnw H1), Hu. unfold endpoint_of. rewrite H2. by rewrite bool_decide_true.
  - split; cbn; rewrite ?Ec, ?Ew; try done.
    + by rewrite Hrun, Hr.
    + intros _. by apply He.
    + intros s' Hs'. apply (is_current_running w); [done|done|]. rewrite ?Ec in Hs'.
      destruct Hs' as [Hs'|Hs']; [|apply Hc; by right]. rewrite Hrun in Hs'.
      apply elem_of_cons in Hs' as [->|Hs']; apply Hc; auto.
    + intros sn s' E. rewrite Es. destruct Hsn as [Hsn|Hsn]; [congruence|]. apply Hs. by rewrite <- Hsn.
Qed.

Lemma return_ok w w' x s :
  client_ok w x -> client w' = client w -> sockets w' = sockets w -> writer w' = writer w ->
  running_sockets w ≡ₚ s :: running_sockets w' -> (main_snapshot (main w') = None \/ main w' = main w) ->
  exists n, running x = S n /\ spec_step x (ReturnMessage (url_of w s)) = Some (mkEndpoint (ep x) (dead x) n) /\
  client_ok w' (mkEndpoint (ep x) (dead x) n).
Proof.
  intros [Hr Hd He Hw Hc Hs] Ec Es Ew Hrun Hsn.
  assert (Hin : s ∈ running_sockets w) by (rewrite Hrun; by left).
  pose proof (Hc s (or_introl Hin)) as Hcur. pose proof (is_current_url w s Hcur) as Hu. destruct Hcur as (H1 & H2 & Hk).
  assert (Hnw : writer w = None).
  { destruct (writer w) as [[old e]|]; [|done]. destruct (Hw old e eq_refl) as [E _]. rewrite Hr, Hrun in E. done. }
  rewrite Hrun in Hr. cbn in Hr. exists (List.length (running_sockets w')). split; [done|]. split.
  - cbn. rewrite (He Hnw H1), Hu, Hr. unfold endpoint_of. rewrite H2. by rewrite bool_decide_true.
  - split; cbn; rewrite ?Ec, ?Ew; try done.
    + intros old e E. congruence.
    + intros s' Hs'. apply (is_current_running w); [done|done|]. rewrite ?Ec in Hs'. apply Hc.
      destruct Hs' as [Hs'|Hs']; [|by right]. left. rewrite Hrun. by right.
    + intros sn s' E. rewrite Es. destruct Hsn as [Hsn|Hsn]; [congruence|]. apply Hs. by rewrite <- Hsn.
Qed.

Lemma read_step_ok a w w' x : client_ok w x -> read_step a w = Some w' -> step_ok w w' x.
Proof.
  intros Hok Hstep. unfold read_step in Hstep. destruct (main w) eqn:Em; try done; destruct a; try done.
  - injection Hstep as <-. unfold stop_or. quiet_step Em.
  - injection Hstep as <-. quiet_step Em.
  - injection Hstep as <-. quiet_step Em.
  - injection Hstep as <-. unfold stop_or. quiet_step Em.
  - pose proof (detach_view s (client w)) as Hv. destruct (detach s (client w)) as [was c]. injection Hstep as <-. quiet_step Em.
  - destruct (no_writer w) eqn:Enw; [|done]. cbn in Hstep. unfold no_writer in Enw.
    destruct (writer w) eqn:Ew; [done|]. unfold dispatchMessage in Hstep.
    destruct (_ && _)%bool eqn:Ed; injection Hstep as <-; [|quiet_step Em].
    assert (Hconn : conn (client w) = Some s).
    { destruct (closed (client w)); [done|]. by destruct (bool_decide_reflect (conn (client w) = Some s)). }
    destruct (call_ok w (emit (set_main w (InMessage s)) (CallMessage (url_of w s))) x s) as [E Hok']; auto.
    { unfold running_sockets. cbn. by rewrite Em. }
    eexists [_], _. split; [reflexivity|]. split; [|exact Hok']. cbn [spec_run]. by rewrite E.
  - injection Hstep as <-.
    destruct (return_ok w (emit (set_main w LoopTop) (ReturnMessage (url_of w s))) x s) as (n & _ & E & Hok'); auto.
    { unfold running_sockets. cbn. by rewrite Em. }
    eexists [_], _. split; [reflexivity|]. split; [|exact Hok']. cbn [spec_run]. by rewrite E.
Qed.

(** The endpoint changes while no callback runs. *)
Lemma SetServerURLAndPublish_ok url old c c' :
  SetServerURLAndPublish url c = (old, c') ->
  closed c' = closed c /\ (closed c = false -> endpoint_arg url = endpoint_of c') /\ (c' = c \/ conn c' = None).
Proof.
  unfold SetServerURLAndPublish, PauseAndPublish, endpoint_arg, endpoint_of. intros Hs.
  destruct (is_empty (TrimSpace url)).
  - destruct (closed c) eqn:Ec, (endpointActive c) eqn:Ea; injection Hs as <- <-; cbn; rewrite ?Ec, ?Ea; repeat split; auto; done.
  - destruct (closed c) eqn:Ec, (endpointActive c) eqn:Ea; cbn in Hs; rewrite ?orb_true_r, ?orb_false_r in Hs;
      try case_bool_decide; injection Hs as <- <-; cbn; rewrite ?Ec, ?Ea; repeat split; auto; try done; congruence.
Qed.

Lemma switch_ok w x url old c :
  client_ok w x -> can_write w = true -> SetServerURLAndPublish url (client w) = (old, c) ->
  client_ok (set_writer (set_client w c) (Some (old, endpoint_arg url))) x.
Proof.
  intros [Hr Hd He Hw Hc Hs] Hcw Hsw. destruct (can_write_spec w Hcw) as [Hnw Hrun].
  destruct (SetServerURLAndPublish_ok _ _ _ _ Hsw) as (Ec & Ee & Hconn).
  split; cbn; try done.
  - by rewrite Ec.
  - intros old' e [= -> <-]. rewrite Hr, Hrun. split; [done|]. by rewrite Ec.
  - intros s Hs'. change (s ∈ running_sockets w \/ conn c = Some s) in Hs'. rewrite Hrun in Hs'.
    destruct Hs' as [Hs'|Hs']; [by apply not_elem_of_nil in Hs'|]. destruct Hconn as [-> |Hconn]; [|congruence].
    by apply Hc; right.
Qed.

Lemma unlock_ok w x old e l :
  client_ok w x -> writer w = Some (old, e) ->
  client_ok (emit (set_writer (set_closing w l) None) (Published e)) (mkEndpoint e (dead x) 0).
Proof.
  intros [Hr Hd He Hw Hc Hs] Ew. destruct (Hw _ _ Ew) as [E0 Ee]. split; cbn; auto; try done. by rewrite E0 in Hr.
Qed.

Lemma close_ok w x old c l :
  client_ok w x -> can_write w = true -> Close (client w) = (old, c) -> sockets_grow (sockets w) l ->
  client_ok (emit (set_sockets (set_client w c) l) ClosedClient) (mkEndpoint (ep x) true 0).
Proof.
  intros [Hr Hd He Hw Hc Hs] Hcw Hcl Hg. destruct (can_write_spec w Hcw) as [Hnw Hrun].
  assert (E : closed c = true /\ (c = client w \/ conn c = None)).
  { unfold Close in Hcl. destruct (closed (client w)) eqn:E; injection Hcl as _ <-; auto. }
  destruct E as [Ec Hconn]. split; cbn; rewrite ?Ec, ?Hnw; try done.
  - by change (0%nat = List.length (running_sockets w)); rewrite Hrun.
  - intros s Hs'. change (s ∈ running_sockets w \/ conn c = Some s) in Hs'. rewrite Hrun in Hs'.
    destruct Hs' as [Hs'|Hs']; [by apply not_elem_of_nil in Hs'|]. destruct Hconn as [-> |Hconn]; [|congruence].
    destruct (Hc s (or_intror Hs')) as (E & _). congruence.
  - intros sn s Em. destruct (Hs sn s Em) as (k & Hk & Hu). destruct (Hg s k Hk) as (k' & Hk' & E). exists k'. split; [done|congruence].
Qed.

Lemma filter_insert_true (l : list (nat * bool)) (i s : nat) :
  l !! i = Some (s, false) -> (List.filter snd (<[i := (s, true)]> l)).*1 ≡ₚ s :: (List.filter snd l).*1.
Proof.
  revert i. induction l as [|[t []] l IH]; intros [|i] Hi; cbn in *; simplify_eq/=; try done.
  - rewrite IH by done. apply Permutation_swap.
  - by apply IH.
Qed.

Lemma filter_delete (l : list (nat * bool)) (i s : nat) (b : bool) :
  l !! i = Some (s, b) ->
  (List.filter snd l).*1 ≡ₚ (if b then [s] else []) ++ (List.filter snd (delete i l)).*1.
Proof.
  revert i. induction l as [|[t []] l IH]; intros [|i] Hi; cbn in *; simplify_eq/=; try done.
  - rewrite (IH i Hi). by rewrite Permutation_middle.
  - by apply IH.
Qed.

Lemma perform_ok x w w' y : client_ok w y -> perform x w = Some w' -> step_ok w w' y.
Proof.
  intros Hok Hp. destruct x; cbn [perform] in Hp.
  - destruct (connect_step a w) eqn:E1; [injection Hp as <-; by eapply connect_step_ok|].
    destruct (retry_step a w) eqn:E2; [injection Hp as <-; by eapply retry_step_ok|by eapply read_step_ok].
  - destruct (can_write w) eqn:Ecw; [|done]. destruct (SetServerURLAndPublish url (client w)) as [old c] eqn:Es. injection Hp as <-.
    apply step_silent; [done|]. by apply switch_ok.
  - destruct (writer w) as [[old e]|] eqn:Ew; [|done]. injection Hp as <-. eexists [_], _. split; [reflexivity|].
    split; [|by eapply unlock_ok]. cbn. destruct (co_writer _ _ Hok _ _ Ew) as [-> _]. done.
  - destruct (closing w !! i) as [s|]; [|done]. cbn in Hp. injection Hp as <-. apply step_silent; [done|].
    by eapply client_ok_keep; cbn; eauto.
  - destruct (can_write w) eqn:Ecw; [|done]. destruct (Close (client w)) as [old c] eqn:Ec. injection Hp as <-.
    eexists [_], _. split; [by destruct old|]. split.
    + cbn. rewrite (co_running _ _ Hok). destruct (can_write_spec w Ecw) as [_ ->]. reflexivity.
    + destruct old as [s|]; cbn [shut_all]; unfold shut; [by apply (close_ok w y (Some s)); auto|].
      apply (close_ok w y None c (sockets w)); auto.
  - destruct (connecting w !! i) as [[s []]|] eqn:Ei; [done| |done]. destruct (no_writer w) eqn:Enw; [|done]. cbn in Hp.
    assert (Ew : writer w = None) by (unfold no_writer in Enw; by destruct (writer w)).
    unfold dispatchConnect in Hp. destruct (_ && _)%bool eqn:Ed; injection Hp as <-.
    + assert (Hconn : conn (client w) = Some s).
      { destruct (closed (client w)); [done|]. by destruct (bool_decide_reflect (conn (client w) = Some s)). }
      destruct (call_ok w (emit (set_connecting w (<[i := (s, true)]> (connecting w))) (CallConnect (url_of w s))) y s) as [E Hok']; auto.
      { unfold running_sockets. cbn. rewrite (filter_insert_true _ _ _ Ei). by rewrite Permutation_middle. }
      eexists [_], _. split; [reflexivity|]. split; [|exact Hok']. cbn [spec_run]. cbn in E. cbn. by rewrite E.
    + apply step_silent; [done|]. eapply client_ok_keep; cbn; eauto.
      unfold running_sockets. cbn. f_equiv. symmetry. by apply (filter_delete _ _ _ _ Ei).
  - destruct (connecting w !! i) as [[s []]|] eqn:Ei; [|done|done]. injection Hp as <-.
    destruct (return_ok w (emit (set_connecting w (delete i (connecting w))) (ReturnConnect (url_of w s))) y s) as (n & _ & E & Hok'); auto.
    { unfold running_sockets. cbn. rewrite (filter_delete _ _ _ _ Ei). cbn. by rewrite Permutation_middle. }
    eexists [_], _. split; [reflexivity|]. split; [|exact Hok']. cbn [spec_run]. cbn in E. cbn. by rewrite E.
  - injection Hp as <-. apply step_silent; [done|]. by eapply client_ok_keep; cbn; eauto.
  - injection Hp as <-. apply step_silent; [done|]. by eapply client_ok_keep; cbn; eauto.
Qed.

(** A client whose constructor has run: no socket, no change of endpoint yet. *)
Record fresh_client (c : Client) : Prop := mkFresh {
  fc_conn : conn c = None;
  fc_open : closed c = false;
  fc_channel : endpointChanged c = 0%nat
}.

Lemma NewClient_fresh url d t modes : fresh_client (OnConnect (OnMessage (NewClient url d t modes))).
Proof. by constructor. Qed.

Lemma client_ok_start c : fresh_client c -> client_ok (start c) (mkEndpoint (endpoint_of c) false 0).
Proof. intros [Hn Hc Hk]. split; cbn; try done. intros s [Hs|Hs]; [by apply not_elem_of_nil in Hs|congruence]. Qed.

Lemma spec_run_trans x es1 es2 y z : spec_run x es1 = Some y -> spec_run y es2 = Some z -> spec_run x (es1 ++ es2) = Some z.
Proof.
  revert x. induction es1 as [|e es1 IH]; intros x H1 H2; cbn in *; [by injection H1 as ->|].
  destruct (spec_step x e); [|done]. cbn in *. by apply IH.
Qed.

Lemma reachable_ok c w : fresh_client c -> reachable c w ->
  exists x, spec_run (mkEndpoint (endpoint_of c) false 0) (trace w) = Some x /\ client_ok w x.
Proof.
  intros Hf Hr. induction Hr as [|w w' a Hr (x & Hx & Hok) Hp]; [eexists; split; [done|by apply client_ok_start]|].
  destruct (perform_ok a w w' x Hok Hp) as (es & y & Ht & Hy & Hok'). exists y. split; [|done].
  rewrite Ht. by eapply spec_run_trans.
Qed.

(** C23: whatever the network, the callers of the client and its goroutines do
    in which order, what the callbacks see is a run of the specification: a
    message or connect callback runs only for a socket of the endpoint that was
    published last, never after Close, and the endpoint is published, and the
    client closed, only while no callback runs. *)
Theorem callbacks_see_one_endpoint c w :
  fresh_client c -> reachable c w -> exists x, spec_run (mkEndpoint (endpoint_of c) false 0) (trace w) = Some x.
Proof. intros Hf Hr. destruct (reachable_ok c w Hf Hr) as (x & Hx & _). by exists x. Qed.

(** ** Sockets *)

Definition is_open (w : world) (s : nat) : Prop := exists k, sockets w !! s = Some k /\ sock_open k = true.

(** The socket an attempt is setting up. *)
Definition setting_up (d : driver) : option nat := match d with Authing _ _ s | Installing _ _ s _ => Some s | _ => None end.

(** Somebody knows [s] and will close it. *)
Definition accounted (w : world) (s : nat) : Prop :=
  conn (client w) = Some s \/ setting_up (main w) = Some s \/ s ∈ closing w \/ exists e, writer w = Some (Some s, e).

Definition connecting_phase (d : driver) : bool :=
  match d with
  | Arming _ _ _ _ | LoopTop | NextRead | Reading _ | ReadFailing _ | Detaching _ | Dispatching _ | InMessage _ | Stopped _ => false
  | _ => true
  end.

Record sockets_ok (w : world) : Prop := mkSocketsOk {
  so_accounted : forall s, is_open w s -> accounted w s;
  so_connecting : connecting_phase (main w) = true -> forall s, conn (client w) = Some s -> ~ is_open w s;
  so_arming : forall boot s old k, main w = Arming boot s old k ->
    (conn (client w) = Some s \/ conn (client w) = None) /\ forall o, old = Some o -> ~ is_open w o
}.

Lemma is_open_shut w t s : is_open (shut w t) s <-> is_open w s /\ s <> t.
Proof.
  unfold is_open, shut, close_socket. cbn. destruct (decide (t = s)) as [->|Hne].
  - rewrite list_lookup_alter_eq. split; [|naive_solver]. intros (k & Hk & Ho). apply fmap_Some in Hk as (k' & _ & ->). done.
  - rewrite list_lookup_alter_ne by done. naive_solver.
Qed.

Lemma is_open_app w k s w' : sockets w' = sockets w ++ [k] -> is_open w' s -> is_open w s \/ s = List.length (sockets w).
Proof.
  unfold is_open. intros -> (j & Hj & Ho). apply lookup_app_Some in Hj as [Hj|[Hle Hj]]; [left; by exists j|right].
  apply list_lookup_singleton_Some in Hj as [Hj _]. lia.
Qed.

(** Steps that open nothing: the sockets stay or one is closed. *)
Lemma sockets_ok_keep w w' :
  sockets_ok w -> (forall s, is_open w' s -> is_open w s /\ (accounted w s -> accounted w' s)) ->
  (connecting_phase (main w') = true ->
     connecting_phase (main w) = true /\ (conn (client w') = conn (client w) \/ conn (client w') = None) \/
     (forall s, conn (client w') = Some s -> ~ is_open w' s)) ->
  (forall boot s old k, main w' = Arming boot s old k ->
     main w = Arming boot s old k /\ (conn (client w') = conn (client w) \/ conn (client w') = None)) ->
  sockets_ok w'.
Proof.
  intros [Ha Hc Harm] Hopen Hphase Harming. split.
  - intros s Hs. destruct (Hopen s Hs) as [Ho Hk]. auto.
  - intros Hp s Hs Ho. destruct (Hphase Hp) as [[Hp' Hconn]|Hn]; [|by eapply Hn].
    destruct (Hopen s Ho) as [Ho' _]. eapply Hc; [done| |done]. destruct Hconn; congruence.
  - intros boot s old k Em. destruct (Harming _ _ _ _ Em) as [Em' Hconn]. destruct (Harm _ _ _ _ Em') as [H1 H2]. split.
    + destruct Hconn as [-> | ->]; auto.
    + intros o Eo Ho. destruct (Hopen o Ho) as [Ho' _]. by eapply H2.
Qed.

Definition conn_exists (w : world) : Prop := forall s, conn (client w) = Some s -> (s < List.length (sockets w))%nat.

Lemma client_ok_conn_exists w x : client_ok w x -> conn_exists w.
Proof. intros Hok s Hs. destruct (co_current _ _ Hok s (or_intror Hs)) as (_ & _ & k & Hk & _). by apply lookup_lt_Some in Hk. Qed.

Lemma is_open_ext w w' s : sockets w' = sockets w -> is_open w' s <-> is_open w s.
Proof. intros E. unfold is_open. by rewrite E. Qed.

(** A step of the goroutine that touches no socket: only its place changes. *)
Lemma move_main w d c :
  sockets_ok w -> setting_up d = setting_up (main w) -> (connecting_phase d = true -> connecting_phase (main w) = true \/ conn c = None) ->
  (forall b s o k, d <> Arming b s o k) -> conn c = conn (client w) -> sockets_ok (set_main (set_client w c) d).
Proof.
  intros Hok Hs Hp Ha Hc. apply (sockets_ok_keep w); cbn; [done| | |by intros b s o k E; destruct (Ha b s o k)].
  - intros s Ho. split; [exact Ho|]. unfold accounted. cbn. by rewrite Hs, Hc.
  - intros E. destruct (Hp E) as [E'|E']; [left; split; [done|by left]|right; intros s Es; congruence].
Qed.

(** One that closes [t]. *)
Lemma move_and_shut w d c t :
  sockets_ok w -> (setting_up d = setting_up (main w) \/ setting_up (main w) = Some t) ->
  (conn c = conn (client w) \/ conn c = None /\ conn (client w) = Some t) ->
  (connecting_phase d = true -> connecting_phase (main w) = true \/ conn c = None \/ conn c = Some t) ->
  (forall b s o k, d <> Arming b s o k) -> sockets_ok (set_main (shut (set_client w c) t) d).
Proof.
  intros Hok Hs Hc Hp Ha. apply (sockets_ok_keep w); cbn; [done| | |by intros b s o k E; destruct (Ha b s o k)].
  - intros s Ho. change (is_open (shut (set_client w c) t) s) in Ho. apply is_open_shut in Ho as [Ho Hne]. split; [exact Ho|].
    unfold accounted. cbn. intros [E|[E|E]].
    + left. destruct Hc as [->|[_ Hc]]; [done|congruence].
    + right; left. destruct Hs as [->|Hs]; [done|congruence].
    + by right; right.
  - intros E. destruct (Hp E) as [E'|E']; [left; split; [done|]; destruct Hc as [Hc|[Hc _]]; auto|].
    right. intros s Es Ho. change (is_open (shut (set_client w c) t) s) in Ho. apply is_open_shut in Ho as [_ Hne].
    destruct E'; congruence.
Qed.

Lemma dial_sockets_ok w boot sn :
  sockets_ok w -> conn_exists w -> main w = Dialing boot sn ->
  sockets_ok (set_main (set_sockets w (sockets w ++ [mkSocket (snURL sn) true])) (Authing boot sn (List.length (sockets w)))).
Proof.
  intros [Ha Hc Harm] Hex Em. set (w' := set_main _ _). assert (Hopen : forall s, is_open w' s -> is_open w s \/ s = List.length (sockets w)).
  { intros s Ho. by eapply (is_open_app w _ s w'). }
  split; [| |by intros].
  - intros s Ho. destruct (Hopen s Ho) as [Ho'| ->]; [|by right; left]. destruct (Ha s Ho') as [E|[E|E]].
    + by left.
    + by rewrite Em in E.
    + by right; right.
  - intros _ s Es Ho. destruct (Hopen s Ho) as [Ho'| ->]; [by eapply Hc; [rewrite Em| |]|]. specialize (Hex _ Es). lia.
Qed.

(** A handshake that was accepted but not used, and one that was refused. *)
Lemma dial_returned_ok w boot e k :
  sockets_ok w -> connecting_phase (main w) = true -> setting_up (main w) = None -> (forall b s o k, main w <> Arming b s o k) ->
  conn_exists w ->
  sockets_ok (set_main (shut (set_sockets w (sockets w ++ [k])) (List.length (sockets w))) (Recording boot e)).
Proof.
  intros Hok Hp Hs Ha Hex. apply (sockets_ok_keep w); cbn; [done| |by left; split; [|left]|by intros].
  intros s Ho. change (is_open (shut (set_sockets w (sockets w ++ [k])) (List.length (sockets w))) s) in Ho.
  apply is_open_shut in Ho as [Ho Hne]. eapply (is_open_app w k) in Ho; [|done]. destruct Ho as [Ho|Ho]; [|done]. split; [done|].
  unfold accounted. cbn. by rewrite Hs.
Qed.

Lemma install_sockets_ok w boot sn s version old c :
  sockets_ok w -> main w = Installing boot sn s version -> install sn s version (client w) = Installed old c ->
  sockets_ok (set_main (set_client w c) (Arming boot s old (onConnect (client w)))).
Proof.
  intros [Ha Hc Harm] Em Hi. unfold install in Hi. destruct (_ || _)%bool; [by destruct (closed (client w))|]. injection Hi as <- <-.
  assert (Hold : forall o, conn (client w) = Some o -> ~ is_open w o) by (intros o Eo; apply Hc; [by rewrite Em|done]).
  split; cbn; [|done|].
  - intros s' Ho. change (is_open w s') in Ho. destruct (Ha s' Ho) as [E|[E|E]].
    + by destruct (Hold s' E).
    + rewrite Em in E. injection E as ->. by left.
    + by right; right.
  - intros b s' o k [= <- <- <- <-]. split; [by left|]. intros o' Eo Ho. by apply (Hold o' Eo).
Qed.

Ltac by_move Em := cbn; rewrite ?Em; cbn; repeat case_match; cbn; auto; try done.

Lemma connect_sockets_ok a w w' : sockets_ok w -> conn_exists w -> connect_step a w = Some w' -> sockets_ok w'.
Proof.
  intros Hok Hex Hstep. unfold connect_step in Hstep. destruct (main w) eqn:Em; try done; destruct a; try done.
  - injection Hstep as <-. apply (move_main w _ (client w)); by_move Em.
  - unfold open_socket in Hstep. injection Hstep as <-. destruct r as [|response text]; cbn.
    + destruct (_ && _)%bool; [|by apply dial_sockets_ok].
      apply dial_returned_ok; try done; by_move Em.
    + apply (move_main w _ (client w)); by_move Em.
  - injection Hstep as <-. apply (move_main w _ (client w)); by_move Em.
  - injection Hstep as <-. destruct (authenticate sn r) as [[e|e]|v].
    + apply (move_and_shut w _ (client w)); by_move Em.
    + apply (move_and_shut w _ (client w)); by_move Em.
    + apply (move_main w _ (client w)); by_move Em.
  - destruct (can_write w); [|done]. cbn in Hstep. injection Hstep as <-.
    destruct (install sn s version (client w)) as [old c| |] eqn:Ei; [by eapply install_sockets_ok|..];
      apply (move_and_shut w _ (client w)); by_move Em.
  - injection Hstep as <-. destruct (so_arming w Hok _ _ _ _ Em) as [Hconn Hold]. destruct r as [[]|e].
    + apply (sockets_ok_keep w); [done| |by_move Em..].
      intros s' Ho. assert (Ho' : is_open (shut_all w old) s' \/ is_open w s') by (repeat case_match; auto).
      split; [|unfold accounted, shut_all; rewrite Em; repeat case_match; done].
      destruct Ho' as [Ho'|Ho']; [|done]. destruct old as [o|]; [|done]. by apply (is_open_shut w o) in Ho' as [? _].
    + apply (move_and_shut w _ (client w)); by_move Em. intros _. destruct Hconn; auto.
Qed.

Lemma record_conn e c : conn (recordConnectionFailure e c).2 = conn c.
Proof. unfold recordConnectionFailure. by repeat case_match. Qed.

Lemma retry_sockets_ok a w w' : sockets_ok w -> retry_step a w = Some w' -> sockets_ok w'.
Proof.
  intros Hok Hstep. unfold retry_step in Hstep. destruct (main w) eqn:Em; try done; destruct a; try done.
  - pose proof (record_conn e (client w)) as Hc. destruct (recordConnectionFailure e (client w)) as [again c]. injection Hstep as <-.
    apply (move_main w); by_move Em.
  - injection Hstep as <-. apply (move_main w _ (client w)); by_move Em.
  - destruct (cancelled w); [|destruct (closed (client w)); [|done]]; injection Hstep as <-; apply (move_main w _ (client w)); by_move Em.
  - destruct (_ <? _)%nat; [|done]. injection Hstep as <-. apply (move_main w _ (client w)); by_move Em.
  - unfold next_delay in Hstep. injection Hstep as <-. apply (move_main w); by_move Em.
  - destruct (cancelled w); [|done]. injection Hstep as <-. apply (move_main w _ (client w)); by_move Em.
  - injection Hstep as <-. apply (move_main w _ (client w)); by_move Em.
  - injection Hstep as <-. apply (move_main w _ (client w)); by_move Em.
Qed.

Lemma emit_sockets_ok w e : sockets_ok w -> sockets_ok (emit w e).
Proof. intros [Ha Hc Harm]. by split. Qed.

Lemma read_sockets_ok a w w' : sockets_ok w -> read_step a w = Some w' -> sockets_ok w'.
Proof.
  intros Hok Hstep. unfold read_step in Hstep. destruct (main w) eqn:Em; try done; destruct a; try done.
  - injection Hstep as <-. apply (move_main w _ (client w)); unfold stop_or; by_move Em.
  - injection Hstep as <-. apply (move_main w _ (client w)); by_move Em.
  - injection Hstep as <-. apply (move_main w _ (client w)); by_move Em.
  - injection Hstep as <-. apply (move_main w _ (client w)); unfold stop_or; by_move Em.
  - unfold detach in Hstep. case_bool_decide as Ec; injection Hstep as <-; [apply (move_and_shut w)|apply (move_and_shut w _ (client w))]; by_move Em.
  - destruct (no_writer w); [|done]. cbn in Hstep. destruct (dispatchMessage s (client w)); injection Hstep as <-;
      [apply emit_sockets_ok|]; apply (move_main w _ (client w)); by_move Em.
  - injection Hstep as <-. apply emit_sockets_ok. apply (move_main w _ (client w)); by_move Em.
Qed.

(** The other goroutines. *)
Lemma others_sockets_ok w w' :
  sockets_ok w -> main w' = main w ->
  (conn (client w') = conn (client w) \/ conn (client w') = None) ->
  (forall s, is_open w' s -> is_open w s /\ (conn (client w) = Some s \/ s ∈ closing w \/ (exists e, writer w = Some (Some s, e)) -> 
     conn (client w') = Some s \/ s ∈ closing w' \/ exists e, writer w' = Some (Some s, e))) ->
  sockets_ok w'.
Proof.
  intros Hok Em Hc Hs. apply (sockets_ok_keep w); [done| | |].
  - intros s Ho. destruct (Hs s Ho) as [Ho' Hk]. split; [done|]. unfold accounted. rewrite Em.
    intros [E|[E|E]]; [|by right; left|]; destruct Hk as [?|[?|?]]; auto.
  - rewrite Em. auto.
  - intros b s o k E. rewrite Em in E. auto.
Qed.

Lemma perform_sockets_ok x w w' : sockets_ok w -> conn_exists w -> perform x w = Some w' -> sockets_ok w'.
Proof.
  intros Hok Hex Hp. destruct x; cbn [perform] in Hp.
  - destruct (connect_step a w) eqn:E1; [injection Hp as <-; by eapply connect_sockets_ok|].
    destruct (retry_step a w) eqn:E2; [injection Hp as <-; by eapply retry_sockets_ok|by eapply read_sockets_ok].
  - destruct (can_write w) eqn:Ecw; [|done]. destruct (can_write_spec w Ecw) as [Hnw _].
    destruct (SetServerURLAndPublish url (client w)) as [old c] eqn:Es. injection Hp as <-.
    assert (E : (conn c = conn (client w) \/ conn c = None /\ old = conn (client w))).
    { revert Es. unfold SetServerURLAndPublish, PauseAndPublish. repeat case_match; intros [= <- <-]; auto. }
    apply (others_sockets_ok w); cbn; [done|done|tauto|]. intros s Ho. split; [exact Ho|].
    rewrite Hnw. intros [Es'|[?|[e ?]]]; [|auto|done]. destruct E as [-> |[_ ->]]; [auto|]. right; right. rewrite Es'. eauto.
  - destruct (writer w) as [[old e]|] eqn:Ew; [|done]. injection Hp as <-. apply emit_sockets_ok.
    apply (others_sockets_ok w); cbn; [done|done|auto|]. intros s Ho. split; [exact Ho|]. rewrite Ew.
    intros [?|[?|[e' [= -> _]]]]; [auto| |]; right; left; apply elem_of_app; [by left|right; by left].
  - destruct (closing w !! i) as [s|] eqn:Ei; [|done]. cbn in Hp. injection Hp as <-.
    apply (others_sockets_ok w); cbn; [done|done|auto|]. intros t Ho.
    change (is_open (shut (set_closing w (delete i (closing w))) s) t) in Ho. apply is_open_shut in Ho as [Ho Hne].
    split; [exact Ho|]. intros [?|[Ht|?]]; auto. right; left.
    rewrite (delete_Permutation _ _ _ Ei) in Ht. by apply elem_of_cons in Ht as [->|Ht].
  - destruct (can_write w) eqn:Ecw; [|done]. destruct (can_write_spec w Ecw) as [Hnw _].
    destruct (Close (client w)) as [old c] eqn:Ec. injection Hp as <-. apply emit_sockets_ok.
    assert (E : (old = None /\ conn c = conn (client w) \/ conn c = None /\ old = conn (client w))).
    { revert Ec. unfold Close. repeat case_match; intros [= <- <-]; auto. }
    apply (others_sockets_ok w); [done|by destruct old|destruct E as [[-> E]|[E _]]; [|destruct old]; cbn; auto|].
    destruct old as [t|]; cbn [shut_all].
    + intros s Ho. apply is_open_shut in Ho as [Ho Hne]. split; [exact Ho|]. cbn. destruct E as [[? _]|[_ Eo]]; [done|].
      intros [?|?]; [congruence|auto].
    + intros s Ho. split; [exact Ho|]. cbn. destruct E as [[_ ->]|[_ Eo]]; [auto|]. intros [?|?]; [congruence|auto].
  - destruct (connecting w !! i) as [[s []]|]; [done| |done]. destruct (no_writer w); [|done]. cbn in Hp.
    destruct (dispatchConnect s (client w)); injection Hp as <-; [apply emit_sockets_ok|];
      apply (others_sockets_ok w); cbn; auto; intros t Ho; (split; [exact Ho|auto]).
  - destruct (connecting w !! i) as [[s []]|]; [|done|done]. injection Hp as <-. apply emit_sockets_ok.
    apply (others_sockets_ok w); cbn; auto; intros t Ho; by split; [exact Ho|auto].
  - injection Hp as <-. apply (others_sockets_ok w); cbn; auto; intros t Ho; (split; [exact Ho|]).
    intros [?|[?|?]]; auto. right; left. apply elem_of_app. by left.
  - injection Hp as <-. apply (others_sockets_ok w); cbn; auto; intros t Ho; by split; [exact Ho|auto].
Qed.

Lemma reachable_sockets c w : fresh_client c -> reachable c w -> sockets_ok w.
Proof.
  intros Hf Hr. induction Hr as [|w w' a Hr IH Hp].
  - split; [intros s (k & Hk & _); done| |done]. intros _ s Hs. destruct Hf. cbn in Hs. congruence.
  - destruct (reachable_ok c w Hf Hr) as (x & _ & Hok). eapply perform_sockets_ok; [done|by eapply client_ok_conn_exists|done].
Qed.

(** no socket is forgotten. One that is open is the current connection, the
    one an attempt is setting up, or one that a goroutine is about to close: a
    socket that lost the race against a change of the endpoint is closed too.
    After Close, when the goroutines are done, none is open. *)
Theorem no_socket_is_forgotten c w :
  fresh_client c -> reachable c w ->
  (forall s, is_open w s ->
     conn (client w) = Some s \/ setting_up (main w) = Some s \/ s ∈ closing w \/ exists e, writer w = Some (Some s, e)) /\
  (closed (client w) = true -> (exists why, main w = Stopped why) -> closing w = [] -> writer w = None -> forall s, ~ is_open w s).
Proof.
  intros Hf Hr. pose proof (reachable_sockets c w Hf Hr) as Hs. split; [apply Hs|].
  intros Hc (why & Em) Hcl Hw s Ho. destruct (reachable_ok c w Hf Hr) as (x & _ & Hok).
  destruct (so_accounted w Hs s Ho) as [E|[E|[E|[e E]]]].
  - destruct (co_current w x Hok s (or_intror E)) as (E' & _). congruence.
  - by rewrite Em in E.
  - rewrite Hcl in E. by apply not_elem_of_nil in E.
  - congruence.
Qed.

(** ** Going on *)

(** An error that the service sent, or one it sent in no known form. *)
Definition service_error (e : RemoteError) : Prop :=
  (exists envelope status, DecodeRemoteError envelope status = Some e) \/ (Code e = unknown_remote_error /\ retryable e = false).

Definition error_ok (e : conn_error) : Prop := match e with ErrRemote r => service_error r | _ => True end.

Definition cause (w : world) (why : stop) : Prop :=
  match why with
  | StopCancelled => cancelled w = true
  | StopClosed => closed (client w) = true
  | StopRefused e => service_error e /\ retryable e = false
  end.

(** What the place of the goroutine says. *)
Definition main_ok (w : world) : Prop :=
  match main w with
  | Failing _ _ e | Recording _ e => error_ok e
  | BlockedOn _ n =>
    (n <= endpointChanged (client w))%nat /\ (n = endpointChanged (client w) -> endpointActive (client w) = false)
  | Stopped why => cause w why
  | _ => True
  end.

Lemma dial_error_ok sn r : match dial_failure sn r with Some (Retried e) | Some (Returned e) => error_ok e | None => True end.
Proof.
  unfold dial_failure, remoteErrorFromHandshake. destruct r as [|[[status envelope]|] text]; cbn; [by destruct (_ && _)%bool| |done].
  destruct (DecodeRemoteError envelope status) eqn:E; cbn; [|done]. left. by exists envelope, status.
Qed.

Lemma auth_error_ok sn r : match authenticate sn r with inl (Retried e) | inl (Returned e) => error_ok e | inr _ => True end.
Proof.
  destruct r as [e|e|e|e|e|e|resp shown envelope]; try done. cbn [authenticate]. unfold check_auth_reply.
  destruct (is_type resp "error"); [|by repeat case_match; simplify_eq]. cbn.
  destruct (resp !! "payload"); [|by right]. destruct (DecodeRemoteError envelope 0) eqn:E; [left; by exists envelope, 0|by right].
Qed.

Lemma connect_main_ok a w w' : main_ok w -> connect_step a w = Some w' -> main_ok w'.
Proof.
  intros Hok Hstep. unfold connect_step, main_ok in *. destruct (main w) eqn:Em; try done; destruct a; try done.
  - injection Hstep as <-. cbn. by destruct (connect_begin _) as [[]|] eqn:E; try done; revert E; unfold connect_begin; repeat case_match.
  - pose proof (dial_error_ok sn r) as Hd. destruct (open_socket _ _) as [s m]. injection Hstep as <-.
    by destruct (dial_failure sn r) as [[e|e]|].
  - injection Hstep as <-. cbn. by destruct (isCurrentGeneration _ _).
  - pose proof (auth_error_ok sn r) as Hd. injection Hstep as <-. by destruct (authenticate sn r) as [[e|e]|].
  - destruct (can_write w); [|done]. cbn in Hstep. injection Hstep as <-. by destruct (install _ _ _ _).
  - injection Hstep as <-. by destruct r as [[]|e].
Qed.

Lemma retry_main_ok a w w' : main_ok w -> retry_step a w = Some w' -> main_ok w'.
Proof.
  intros Hok Hstep. unfold retry_step, main_ok in *. destruct (main w) eqn:Em; try done; destruct a; try done.
  - unfold recordConnectionFailure in Hstep. destruct e as [| |r|text]; cbn in *; try (by injection Hstep as <-; destruct boot).
    destruct (retryable r) eqn:Er; injection Hstep as <-; [by destruct boot|done].
  - injection Hstep as <-. unfold waitUntilEndpointActive. cbn.
    destruct (closed (client w)) eqn:Ec; [done|]. by destruct (endpointActive (client w)) eqn:Ea.
  - destruct (cancelled w) eqn:Ec; [by injection Hstep as <-|]. destruct (closed (client w)) eqn:Ecl; [by injection Hstep as <-|done].
  - destruct (_ <? _)%nat; [|done]. by injection Hstep as <-.
  - by injection Hstep as <-.
  - destruct (cancelled w) eqn:Ec; [|done]. by injection Hstep as <-.
  - by injection Hstep as <-.
  - injection Hstep as <-. cbn. by destruct (closed (client w)) eqn:Ec.
Qed.

Lemma read_main_ok a w w' : main_ok w -> read_step a w = Some w' -> main_ok w'.
Proof.
  intros Hok Hstep. unfold read_step, main_ok in *. destruct (main w) eqn:Em; try done; destruct a; try done.
  - injection Hstep as <-. unfold stop_or. cbn. destruct (cancelled w) eqn:Ec; [done|]. by destruct (closed (client w)) eqn:Ecl.
  - injection Hstep as <-. by destruct (conn (client w)).
  - injection Hstep as <-. by destruct r.
  - injection Hstep as <-. unfold stop_or. cbn. destruct (cancelled w) eqn:Ec; [done|]. by destruct (closed (client w)) eqn:Ecl.
  - destruct (detach s (client w)) as [was c]. injection Hstep as <-. by destruct was.
  - destruct (no_writer w); [|done]. cbn in Hstep. by destruct (dispatchMessage _ _); injection Hstep as <-.
  - by injection Hstep as <-.
Qed.

(** The others: the client is closed for good, and a new channel is made
    whenever the endpoint is switched. *)
Definition client_later (c c' : Client) : Prop :=
  (closed c = true -> closed c' = true) /\
  ((endpointChanged c < endpointChanged c')%nat \/
   (endpointChanged c = endpointChanged c' /\ (endpointActive c = false -> endpointActive c' = false))).

Lemma main_ok_later w w' :
  main_ok w -> main w' = main w -> client_later (client w) (client w') -> (cancelled w = true -> cancelled w' = true) -> main_ok w'.
Proof.
  intros Hok Em [Hc He] Hx. unfold main_ok in *. rewrite Em. destruct (main w); try done.
  - destruct Hok as [H1 H2]. destruct He as [He|[He Ha]]; [split; lia|]. rewrite <- He. split; [done|]. intros E. by apply Ha, H2.
  - destruct why; cbn in *; auto.
Qed.

Lemma client_later_refl c : client_later c c.
Proof. split; auto. Qed.
#[local] Hint Resolve client_later_refl : core.

Lemma switch_later url c : client_later c (SetServerURLAndPublish url c).2.
Proof. unfold SetServerURLAndPublish, PauseAndPublish, client_later. repeat case_match; cbn; auto. Qed.

Lemma close_later c : client_later c (Close c).2.
Proof. unfold Close, client_later. repeat case_match; cbn; auto. Qed.

Lemma perform_main_ok x w w' : main_ok w -> perform x w = Some w' -> main_ok w'.
Proof.
  intros Hok Hp. destruct x; cbn [perform] in Hp.
  - destruct (connect_step a w) eqn:E1; [injection Hp as <-; by eapply connect_main_ok|].
    destruct (retry_step a w) eqn:E2; [injection Hp as <-; by eapply retry_main_ok|by eapply read_main_ok].
  - destruct (can_write w); [|done]. pose proof (switch_later url (client w)) as Hl.
    destruct (SetServerURLAndPublish url (client w)) as [old c]. injection Hp as <-. by apply (main_ok_later w).
  - destruct (writer w) as [[old e]|]; [|done]. injection Hp as <-. by apply (main_ok_later w); auto.
  - destruct (closing w !! i); [|done]. cbn in Hp. injection Hp as <-. by apply (main_ok_later w); auto.
  - destruct (can_write w); [|done]. pose proof (close_later (client w)) as Hl.
    destruct (Close (client w)) as [old c]. injection Hp as <-. by apply (main_ok_later w); destruct old.
  - destruct (connecting w !! i) as [[s []]|]; [done| |done]. destruct (no_writer w); [|done]. cbn in Hp.
    destruct (dispatchConnect s (client w)); injection Hp as <-; by apply (main_ok_later w); auto.
  - destruct (connecting w !! i) as [[s []]|]; [|done|done]. injection Hp as <-. by apply (main_ok_later w); auto.
  - injection Hp as <-. by apply (main_ok_later w); auto.
  - injection Hp as <-. by apply (main_ok_later w); auto.
Qed.

Lemma reachable_main c w : reachable c w -> main_ok w.
Proof. intros Hr. induction Hr as [|w w' x Hr IH Hp]; [done|by eapply perform_main_ok]. Qed.

Lemma DecodeRemoteError_spec envelope status e :
  DecodeRemoteError envelope status = Some e ->
  (Code e ∈ approvedTerminalCodes \/ Code e ∈ approvedRetryableCodes \/ Code e = unknown_remote_error) /\
  (Code e = device_already_connected -> retryable e = true) /\
  (retryable e = true -> Code e ∈ approvedRetryableCodes).
Proof.
  unfold DecodeRemoteError. destruct envelope as [v|]; [|done]. cbn [mbind option_bind]. intros Hd.
  destruct (is_empty (TrimSpace (envErrorCode v))); [done|]. injection Hd as <-. cbn [Code retryable].
  generalize (TrimSpace (envErrorCode v)) as code. intros code.
  destruct (bool_decide_reflect (code ∈ approvedRetryableCodes)) as [Hr|Hr]; cbn [negb andb].
  - split; [auto|]. split; [|auto]. intros ->. by rewrite (bool_decide_true (_ = _)), orb_true_r.
  - destruct (bool_decide_reflect (code ∈ approvedTerminalCodes)) as [Ht|Ht]; cbn [negb andb].
    + split; [auto|]. split; [intros ->; by rewrite (bool_decide_true (_ = _))|].
      destruct (bool_decide_reflect (code = device_already_connected)) as [->|]; [|done].
      intros _. apply (bool_decide_unpack _). by vm_compute.
    + split; [auto|]. split; [done|]. by rewrite andb_false_r.
Qed.

(** The delay of the [n]-th retry, as long as [n] is not astronomic. *)
Lemma reconnect_delay_bounds n after :
  1 <= n <= 1000000000 ->
  5 * Second <= reconnect_delay n after <= 60 * Second /\ (after <= 60 * Second -> after <= reconnect_delay n after).
Proof.
  intros Hn. unfold reconnect_delay, maxReconnectDelay, Second in *.
  rewrite !int64_wrap_id by (rewrite ?int64_wrap_id; unfold min_int64, max_int64; lia).
  repeat case_match; bool_hyps; lia.
Qed.

(** The goroutine waits for a callback or a change of the endpoint to end. *)
Definition waits_for_lock (w : world) : Prop :=
  can_write w = false /\ match main w with Installing _ _ _ _ | Dispatching _ => True | _ => False end.

(** The endpoint is paused, and nothing ended the wait. *)
Definition paused (w : world) : Prop :=
  (exists boot n, main w = BlockedOn boot n) /\ endpointActive (client w) = false /\ closed (client w) = false /\ cancelled w = false.

Lemma blocked_progress w boot n : main w = BlockedOn boot n -> main_ok w -> (exists a, is_Some (perform (Main a) w)) \/ paused w.
Proof.
  intros Em Hok. unfold main_ok in Hok. rewrite Em in Hok. destruct Hok as [Hle Heq].
  destruct (decide (n < endpointChanged (client w))%nat) as [Hlt|Hge].
  - left. exists Elapsed. cbn. unfold connect_step, retry_step. rewrite Em. apply Nat.ltb_lt in Hlt. rewrite Hlt. by eexists.
  - destruct (cancelled w) eqn:Ec; [|destruct (closed (client w)) eqn:Ecl].
    + left. exists Go. cbn. unfold connect_step, retry_step. rewrite Em, Ec. by eexists.
    + left. exists Go. cbn. unfold connect_step, retry_step. rewrite Em, Ec, Ecl. by eexists.
    + right. split; [by exists boot, n|]. split; [apply Heq; lia|done].
Qed.

Lemma main_progress w : main_ok w -> (exists why, main w = Stopped why) \/ (exists a, is_Some (perform (Main a) w)) \/ waits_for_lock w \/ paused w.
Proof.
  intros Hok.
  destruct (main w) as [boot|boot sn|boot sn e|boot sn s|boot sn s v|boot s old k|boot e|boot|boot n|boot|boot d|boot| | |s|s|s|s|s|why] eqn:Em;
    try (right; left; first
      [ exists Go; cbn; unfold connect_step, retry_step, read_step; rewrite Em; cbn; repeat case_match; by eexists
      | exists (GotDial Dialed); cbn; unfold connect_step; rewrite Em; by eexists
      | exists (GotAuth (AuthUnparsed "")); cbn; unfold connect_step; rewrite Em; by eexists
      | exists (Armed (Ok tt)); cbn; unfold connect_step; rewrite Em; by eexists
      | exists Elapsed; cbn; unfold connect_step, retry_step; rewrite Em; by eexists
      | exists (Frame (Ok tt)); cbn; unfold connect_step, retry_step, read_step; rewrite Em; by eexists ]).
  - right. destruct (can_write w) eqn:Ecw; [left; exists Go; cbn; unfold connect_step; rewrite Em, Ecw; by eexists|].
    right; left. split; [done|by rewrite Em].
  - destruct (blocked_progress w boot n Em Hok); auto.
  - right. destruct (no_writer w) eqn:Enw.
    + left. exists Go. cbn. unfold connect_step, retry_step, read_step. rewrite Em, Enw. cbn. case_match; by eexists.
    + right; left. split; [by unfold can_write; rewrite Enw|by rewrite Em].
  - left. by eexists.
Qed.

(** C24: the connection goes on. The goroutine that connects and reads ends only
    when its context was cancelled, the client was closed, or the service
    refused it with a known terminal code, an unknown one, or one it may retry
    but was told not to - never for a network failure, and never because the
    device is still connected. While it has not ended it can take a step,
    unless it waits for a callback or a change of the endpoint to end, or the
    endpoint is paused: the wake-up of a pause is not lost. *)
Theorem connection_goes_on c w :
  reachable c w ->
  (forall why, main w = Stopped why ->
     match why with
     | StopCancelled => cancelled w = true
     | StopClosed => closed (client w) = true
     | StopRefused e =>
       retryable e = false /\ Code e <> device_already_connected /\
       (Code e ∈ approvedTerminalCodes \/ Code e ∈ approvedRetryableCodes \/ Code e = unknown_remote_error)
     end) /\
  ((exists why, main w = Stopped why) \/ (exists a, is_Some (perform (Main a) w)) \/ waits_for_lock w \/ paused w).
Proof.
  intros Hr. pose proof (reachable_main c w Hr) as Hok. split; [|by apply main_progress].
  intros why Em. unfold main_ok in Hok. rewrite Em in Hok. destruct why as [| |e]; [done|done|]. destruct Hok as [Hse Hre].
  split; [done|]. destruct Hse as [(envelope & status & Hd)|[-> _]]; [|by split; [|auto]].
  destruct (DecodeRemoteError_spec _ _ _ Hd) as (H1 & H2 & _). split; [|done]. intros E. by rewrite H2 in Hre.
Qed.

(** ** A concrete connection *)

Module Demo.

Definition client0 : Client := OnConnect (OnMessage (NewClient "wss://a" "d" "t" ["open"])).

Definition accepted : payload :=
  <["type" := VString "auth_response"]> (<["transport_mode" := VString "open"]> ∅).

(** Connected to one endpoint, a message and the connect callback run, the
    endpoint is switched while the next attempt is authenticating, the stale
    socket is dropped, a message of the new endpoint runs, and Close. *)
Definition boot_up : list action :=
  [Main Go; Main (GotDial Dialed); Main (GotAuth (AuthReply accepted "" None)); Main Go; Main (Armed (Ok tt))].
Definition session : list action :=
  boot_up ++ [Main Go; Main Go; Main (Frame (Ok tt)); RunConnect 0; Main Go; EndConnect 0; Main Go;
    Main Go; Main Go; Main (Frame (Err "reset")); Main Go; Main Go; Main Go; Main Go; Main Elapsed; Main Go;
    Main Go; Main (GotDial Dialed); Main (GotAuth (AuthReply accepted "" None)); Switch " wss://b "; Unlock; Main Go;
    Main Go; Main (GotDial Dialed); Main (GotAuth (AuthReply accepted "" None)); Main Go; Main (Armed (Ok tt));
    Main Go; Main Go; Main (Frame (Ok tt)); Main Go; Main Go; CloseClient; Main Go].

Lemma run_reachable c xs : reachable c (run_client c xs).
Proof.
  unfold run_client. assert (H : forall w, reachable c w -> reachable c (foldl (fun w x => default w (perform x w)) w xs)).
  { induction xs as [|x xs IH]; intros w Hw; [done|]. cbn. apply IH. destruct (perform x w) eqn:E; [by eapply reach_step|done]. }
  apply H. constructor.
Qed.

Definition after_session : world := run_client client0 session.

Lemma callbacks_see_one_endpoint_witness :
  trace after_session =
    [CallConnect "wss://a"; CallMessage "wss://a"; ReturnConnect "wss://a"; ReturnMessage "wss://a";
     Published (Some "wss://b"); CallMessage "wss://b"; ReturnMessage "wss://b"; ClosedClient] /\
  exists x, spec_run (mkEndpoint (endpoint_of client0) false 0) (trace after_session) = Some x.
Proof.
  split; [vm_compute; reflexivity|]. apply callbacks_see_one_endpoint; [apply NewClient_fresh|apply run_reachable].
Defined.

Lemma no_socket_is_forgotten_witness :
  List.length (sockets after_session) = 3%nat /\ main after_session = Stopped StopClosed /\ forall s, ~ is_open after_session s.
Proof.
  split; [vm_compute; reflexivity|]. split; [vm_compute; reflexivity|].
  apply (no_socket_is_forgotten client0 after_session (NewClient_fresh _ _ _ _) (run_reachable _ _));
    [vm_compute; reflexivity|eexists; vm_compute; reflexivity|vm_compute; reflexivity|vm_compute; reflexivity].
Defined.

Lemma connection_goes_on_witness :
  main after_session = Stopped StopClosed /\ closed (client after_session) = true.
Proof.
  assert (E : main after_session = Stopped StopClosed) by (vm_compute; reflexivity). split; [exact E|].
  exact (proj1 (connection_goes_on client0 after_session (run_reachable _ _)) StopClosed E).
Defined.

End Demo.
