(* ===== verification/ConnectionsSpec.v ===== *)
(** * Correctness of the connection manager *)

From stdpp Require Import base tactics list gmap strings relations.
From Stdlib Require Import ZArith Lia.
From S2P Require Import Prelude GoStrings Json Protocol Connections.

Module OutboundSpec.
Import Outbound.

(** ** The phone queue *)

Lemma bytes_app l1 l2 : bytes (l1 ++ l2) = bytes l1 + bytes l2.
Proof. induction l1 as [|d l IH]; [done|]. cbn [app bytes foldr]. fold (bytes (l ++ l2)) (bytes l). lia. Qed.

Lemma bytes_cons d l : bytes (d :: l) = len d + bytes l.
Proof. done. Qed.

Lemma bytes_nonneg l : 0 <= bytes l.
Proof. induction l as [|d l IH]; [done|]. rewrite bytes_cons. pose proof (len_nonneg d). lia. Qed.

(** Releasing what was reserved, written out exactly. *)
Lemma release_exact o n : 0 <= n <= reservedBytes o ->
  releaseBytesLocked o n = mkOutbound (queue o) (closed o) (reservedBytes o - n).
Proof.
  intros H. unfold releaseBytesLocked. destruct (n <=? 0) eqn:E1; bool_hyps.
  - assert (n = 0) as -> by lia. destruct o. simpl. by rewrite Z.sub_0_r.
  - destruct (reservedBytes o <=? n) eqn:E2; bool_hyps; [|done]. f_equal. lia.
Qed.

Record wf (s : channel) : Prop := {
  wf_reserved : reservedBytes (out s) = bytes (in_flight (pc s)) + bytes (queue (out s));
  wf_budget : reservedBytes (out s) <= maxPhoneOutboundBytes;
  wf_size : (length (queue (out s)) <= phoneOutboundQueueSize)%nat;
  wf_closing : closing s = true -> closed (out s) = true;
  wf_closed : closed (out s) = true -> closing s = false -> queue (out s) = [];
  wf_open : closed (out s) = false -> accepted s = written s ++ in_flight (pc s) ++ queue (out s);
  wf_idle : closed (out s) = false -> pc s <> WStopped;
  wf_prefix : written s ++ (match pc s with WWriting d => [d] | _ => [] end) `prefix_of` accepted s;
  wf_got : forall d, pc s = WGot d -> written s ++ [d] `prefix_of` accepted s \/ closed (out s) = true
}.

Lemma enqueue_cases o data ok o' :
  enqueuePhone o data = (ok, o') ->
  (ok = true /\ closed o = false /\ len data <= maxPhoneOutboundBytes - reservedBytes o /\
   (length (queue o) < phoneOutboundQueueSize)%nat /\
   o' = mkOutbound (queue o ++ [data]) false (reservedBytes o + len data)) \/
  (ok = false /\ (0 <= reservedBytes o -> o' = o)).
Proof.
  unfold enqueuePhone. pose proof (len_nonneg data).
  destruct (maxPhoneOutboundBytes <? len data); [naive_solver|].
  destruct (closed o) eqn:Ec; [naive_solver|].
  destruct (maxPhoneOutboundBytes - reservedBytes o <? len data) eqn:E; [naive_solver|]. bool_hyps.
  case_bool_decide as Hq; intros [= <- <-].
  - left. split_and!; done.
  - right. split; [done|]. intros Hr. rewrite release_exact by (simpl; lia). destruct o as [q c r]. simpl in *. subst. f_equal. lia.
Qed.

Lemma drain_loop_exact n o : n = length (queue o) -> bytes (queue o) <= reservedBytes o ->
  drain_loop n o = mkOutbound [] (closed o) (reservedBytes o - bytes (queue o)).
Proof.
  revert o. induction n as [|n IH]; intros [q c r] Hn Hb; cbn [drain_loop queue closed reservedBytes] in *.
  - destruct q; [|done]. cbn. by rewrite Z.sub_0_r.
  - destruct q as [|d q]; [done|]. rewrite bytes_cons in *. pose proof (len_nonneg d). pose proof (bytes_nonneg q).
    unfold close_drain. cbn [queue closed reservedBytes]. rewrite release_exact by (simpl; lia).
    rewrite IH; cbn [queue closed reservedBytes]; [f_equal; lia|by injection Hn|lia].
Qed.

Lemma close_exact o : bytes (queue o) <= reservedBytes o -> (closed o = true -> queue o = []) ->
  close o = mkOutbound [] true (reservedBytes o - bytes (queue o)).
Proof.
  intros H Hq. unfold close. destruct (closed o) eqn:Ec.
  - rewrite Hq by done. destruct o as [q c r]. simpl in *. rewrite Hq by done. subst. f_equal. cbn. lia.
  - rewrite drain_loop_exact; done.
Qed.

Lemma new_channel_wf : wf new_channel.
Proof. split; cbn; try done; lia. Qed.

Ltac wf_split := split; cbn [out closing pc accepted written in_flight queue closed reservedBytes] in *.

Lemma channel_step_wf s m s' : wf s -> channel_step s m = Some s' -> wf s'.
Proof.
  intros [Hr Hb Hs Hcl Hcd Ho Hi Hp Hg] Hstep. destruct s as [[q c r] cl w ac wr].
  cbn [out closing pc accepted written in_flight queue closed reservedBytes] in *.
  pose proof (bytes_nonneg q) as Hq0. pose proof (bytes_nonneg (in_flight w)) as Hf0.
  destruct m as [data| | | | | |err| |]; cbn [channel_step out closing pc accepted written queue closed reservedBytes] in Hstep.
  - destruct cl; [done|]. destruct (enqueuePhone _ data) as [ok o] eqn:E; simplify_eq.
    apply enqueue_cases in E as [(-> & Hc & Hl & Hlen & ->)|[-> He]]; cbn [closed queue reservedBytes] in *; subst.
    + wf_split; try done.
      * rewrite bytes_app, bytes_cons. cbn. lia.
      * lia.
      * rewrite length_app. simpl. lia.
      * intros _. rewrite Ho by done. by rewrite <- !app_assoc.
      * etrans; [exact Hp|]. by apply prefix_app_r.
      * intros d Hd. left. destruct (Hg d Hd) as [Hx|Hx]; [|done]. etrans; [exact Hx|]. by apply prefix_app_r.
    + rewrite He by lia. by wf_split.
  - destruct cl; [done|]. destruct c; simplify_eq; [by wf_split|]. wf_split; try done.
    + intros d ->. by right.
  - destruct cl, q as [|d q]; simplify_eq. rewrite bytes_cons in *. pose proof (len_nonneg d). pose proof (bytes_nonneg q).
    unfold close_drain. cbn [queue closed reservedBytes]. rewrite release_exact by (simpl; lia).
    rewrite Hcl in * by done. wf_split; try done; try lia.
    simpl in Hs. lia.
  - destruct cl, q; simplify_eq. by wf_split.
  - destruct w; try done. destruct q as [|d q]; simplify_eq. rewrite bytes_cons in *. wf_split; try done; try lia.
    + cbn. lia.
    + simpl in Hs. lia.
    + intros Hc Hcl'. by specialize (Hcd Hc Hcl').
    + intros d' [= ->]. destruct c; [by right|]. left. rewrite Ho by done. simpl.
      replace (wr ++ d' :: q) with ((wr ++ [d']) ++ q) by (by rewrite <- app_assoc). by apply prefix_app_r.
  - destruct w as [|d| | |]; try done. destruct cl; [done|]. cbn [in_flight bytes foldr] in *. pose proof (len_nonneg d). destruct c; simplify_eq.
    + rewrite release_exact by (simpl; lia). wf_split; try done; cbn; lia.
    + wf_split; try done. destruct (Hg d eq_refl); done.
  - destruct w as [| |d| |]; try done. destruct cl; [done|]. simplify_eq. cbn [in_flight bytes foldr] in *. pose proof (len_nonneg d).
    rewrite release_exact by (simpl; lia). wf_split; try done.
    + destruct err; cbn; lia.
    + lia.
    + intros Hc. rewrite Ho by done. destruct err; cbn; by rewrite <- app_assoc.
    + by destruct err.
    + rewrite <- (app_nil_r (wr ++ [d])) in Hp. destruct err; rewrite ?app_nil_r in *; exact Hp.
    + by destruct err.
  - destruct w; try done. destruct cl; [done|]. simplify_eq. cbn [in_flight bytes foldr] in *.
    rewrite close_exact; cbn [queue closed reservedBytes]; [|lia|auto]. wf_split; try done; cbn; lia.
  - destruct w; try done. destruct c; simplify_eq. by wf_split.
Qed.

Lemma reachable_wf s : rtc channel_steps new_channel s -> wf s.
Proof.
  intros H. eapply rtc_invariant; [|exact H|exact new_channel_wf]. intros a b Ha [m Hm]. by eapply channel_step_wf.
Qed.

(** whatever the interleaving of producers, the writer and a close, the
    bytes reserved for a phone are those of the frames queued or in flight, at
    most 8 MiB, in at most 64 frames; what reached the socket is a prefix of
    what was accepted, nothing skipped or reordered, and while the queue is open
    the rest is still held; once closed nothing is queued and nothing more is
    accepted. *)
Theorem outbound_bounded_fifo s :
  rtc channel_steps new_channel s ->
  reservedBytes (out s) = bytes (in_flight (pc s)) + bytes (queue (out s)) /\
  reservedBytes (out s) <= maxPhoneOutboundBytes /\
  (length (queue (out s)) <= phoneOutboundQueueSize)%nat /\
  written s `prefix_of` accepted s /\
  (closed (out s) = false -> accepted s = written s ++ in_flight (pc s) ++ queue (out s)) /\
  (closed (out s) = true -> closing s = false ->
     queue (out s) = [] /\ forall d, enqueuePhone (out s) d = (false, out s)).
Proof.
  intros H. apply reachable_wf in H as [Hr Hb Hs Hcl Hcd Ho Hi Hp Hg].
  split_and!; try done.
  - etrans; [|exact Hp]. by apply prefix_app_r.
  - intros Hc Hcl'. split; [auto|]. intros d. unfold enqueuePhone. rewrite Hc.
    by destruct (maxPhoneOutboundBytes <? len d).
Qed.

(** Two frames are accepted, the first is written, and the queue is closed
    while the writer holds the second. *)
Definition demo_moves : list move :=
  [Enqueue "one"; Receive; Notice; Enqueue "two"; WriteDone false; Receive; CloseBegin; CloseEnd; Notice].

Fixpoint moves (s : channel) (l : list move) : option channel :=
  match l with [] => Some s | m :: l' => s' ← channel_step s m; moves s' l' end.

Lemma moves_reach l s s' : moves s l = Some s' -> rtc channel_steps s s'.
Proof.
  revert s. induction l as [|m l IH]; intros s; cbn [moves]; [by intros [= ->]|].
  intros (s1 & H1 & H2)%bind_Some. econstructor; [by exists m|by apply IH].
Qed.

Definition demo_channel : channel := default new_channel (moves new_channel demo_moves).

Lemma outbound_bounded_fifo_witness :
  written demo_channel `prefix_of` accepted demo_channel /\ written demo_channel = ["one"] /\ accepted demo_channel = ["one"; "two"].
Proof.
  assert (H : rtc channel_steps new_channel demo_channel) by (apply (moves_reach demo_moves); by_vm).
  split; [exact (proj1 (proj2 (proj2 (proj2 (outbound_bounded_fifo demo_channel H)))))|]. split; by_vm.
Defined.

End OutboundSpec.

Module PhonesSpec.
Import Outbound Phones.

(** ** Subscriptions *)

Definition subscribed (m : gmap string (list Z)) (c : Z) : Prop := exists id l, m !! id = Some l /\ c ∈ l.

Lemma still_subscribed m c : phoneStillSubscribedLocked m c = true <-> subscribed m c.
Proof.
  unfold phoneStillSubscribedLocked, subscribed. rewrite existsb_exists. split.
  - intros ([id l] & Hin & Hl). apply existsb_exists in Hl as (x & Hx & E). bool_hyps. subst.
    exists id, l. split; [by apply elem_of_map_to_list, list_elem_of_In|by apply list_elem_of_In].
  - intros (id & l & Hm & Hc). exists (id, l). split; [by apply list_elem_of_In, elem_of_map_to_list|].
    apply existsb_exists. exists c. split; [by apply list_elem_of_In|apply Z.eqb_refl].
Qed.

Lemma still_unsubscribed m c : phoneStillSubscribedLocked m c = false <-> ~ subscribed m c.
Proof. rewrite <- still_subscribed. by rewrite not_true_iff_false. Qed.

Lemma elem_of_without l x c : c ∈ withoutPhoneConn l x <-> c ∈ l /\ c <> x.
Proof.
  unfold withoutPhoneConn. rewrite !list_elem_of_In, filter_In, negb_true_iff, Z.eqb_neq. done.
Qed.

Lemma length_without l x : (length (withoutPhoneConn l x) <= length l)%nat.
Proof. induction l as [|y l IH]; [done|]. unfold withoutPhoneConn in *. simpl. destruct (negb _); simpl; lia. Qed.

Lemma lookup_without_everywhere m x id l :
  without_everywhere m x !! id = Some l <->
  exists l0, m !! id = Some l0 /\ l = withoutPhoneConn l0 x /\ l <> [].
Proof.
  unfold without_everywhere. rewrite lookup_omap_Some. split.
  - intros (l0 & H & Hm). destruct (withoutPhoneConn l0 x) eqn:E; simplify_eq. eauto.
  - intros (l0 & Hm & -> & Hne). exists l0. destruct (withoutPhoneConn l0 x); done.
Qed.

Lemma subscribed_without_everywhere m x c : subscribed (without_everywhere m x) c <-> subscribed m c /\ c <> x.
Proof.
  unfold subscribed. setoid_rewrite lookup_without_everywhere. split.
  - intros (id & l & (l0 & Hm & -> & _) & Hc). apply elem_of_without in Hc as [Hc Hne]. eauto 6.
  - intros [(id & l & Hm & Hc) Hne]. exists id, (withoutPhoneConn l x).
    assert (c ∈ withoutPhoneConn l x) as Hc' by by apply elem_of_without.
    split; [|done]. exists l. split_and!; [done..|]. intros E. rewrite E in Hc'. by apply elem_of_nil in Hc'.
Qed.

Lemma lookup_set_conns m id l id' l' :
  set_conns m id l !! id' = Some l' <-> (id' = id /\ l' = l /\ l <> []) \/ (id' <> id /\ m !! id' = Some l').
Proof.
  unfold set_conns. destruct l as [|x l].
  - rewrite lookup_delete_Some. naive_solver.
  - rewrite lookup_insert_Some. naive_solver.
Qed.

Definition lists_ok (m : gmap string (list Z)) : Prop :=
  forall id l, m !! id = Some l -> l <> [] /\ (length l <= maxPhoneConnsPerDevice)%nat.

Definition queue_ok (o : phoneOutbound) : Prop :=
  closed o = false /\ reservedBytes o = bytes (queue o) /\ reservedBytes o <= maxPhoneOutboundBytes /\
  (length (queue o) <= phoneOutboundQueueSize)%nat.

Record tables_ok (cm : manager) : Prop := {
  t_outbound : forall c, is_Some (phoneOutbounds cm !! c) <-> subscribed (phoneConns cm) c;
  t_principal : forall c, is_Some (phonePrincipals cm !! c) -> is_Some (phoneOutbounds cm !! c);
  t_queue : forall c o, phoneOutbounds cm !! c = Some o -> queue_ok o
}.

Definition wf (cm : manager) : Prop := lists_ok (phoneConns cm) /\ tables_ok cm.

(** Dropping a socket's entries once it is no longer subscribed. *)
Lemma tables_delete cm m x :
  tables_ok cm -> (forall c, subscribed m c <-> subscribed (phoneConns cm) c /\ (c <> x \/ subscribed m x)) ->
  (subscribed m x \/ ~ subscribed m x) ->
  (subscribed m x -> forall s, tables_ok (mkManager m (phoneOutbounds cm) (phonePrincipals cm) s)) /\
  (~ subscribed m x -> forall s, tables_ok (mkManager m (delete x (phoneOutbounds cm)) (delete x (phonePrincipals cm)) s)).
Proof.
  intros [Ho Hp Hq] Hm _. split; intros Hx s; split; cbn [phoneConns phoneOutbounds phonePrincipals].
  - intros c. rewrite Ho, Hm. destruct (decide (c = x)); naive_solver.
  - done.
  - done.
  - intros c. rewrite Hm, <- Ho. destruct (decide (c = x)) as [->|Hne].
    + rewrite lookup_delete_eq. split; [by intros [? ?]|]. intros [_ [?|?]]; done.
    + rewrite lookup_delete_ne by done. naive_solver.
  - intros c. destruct (decide (c = x)) as [->|Hne].
    + rewrite lookup_delete_eq. by intros [? ?].
    + rewrite !lookup_delete_ne by done. apply Hp.
  - intros c o [_ H]%lookup_delete_Some. by eapply Hq.
Qed.

Lemma subscribed_dec m x : subscribed m x \/ ~ subscribed m x.
Proof.
  destruct (phoneStillSubscribedLocked m x) eqn:E; [left; by apply still_subscribed|right; by apply still_unsubscribed].
Qed.

(** Removing one socket from one list, or the head of a list. *)
Lemma unsubscribe_tables cm m x s :
  tables_ok cm -> (forall c, subscribed m c <-> subscribed (phoneConns cm) c /\ (c <> x \/ subscribed m x)) ->
  tables_ok (if phoneStillSubscribedLocked m x
             then mkManager m (phoneOutbounds cm) (phonePrincipals cm) s
             else mkManager m (delete x (phoneOutbounds cm)) (delete x (phonePrincipals cm)) s).
Proof.
  intros Ht Hm. destruct (tables_delete cm m x Ht Hm (subscribed_dec m x)) as [H1 H2].
  destruct (phoneStillSubscribedLocked m x) eqn:E; [apply H1; by apply still_subscribed|apply H2; by apply still_unsubscribed].
Qed.

Lemma subscribed_set m id l l' x :
  m !! id = Some l -> (forall c, c ∈ l' -> c ∈ l) -> (forall c, c ∈ l -> c ∈ l' \/ c = x) ->
  forall c, subscribed (set_conns m id l') c <-> subscribed m c /\ (c <> x \/ subscribed (set_conns m id l') x).
Proof.
  intros Hm Hsub Hsup c. assert (Hfwd : forall c', subscribed (set_conns m id l') c' -> subscribed m c').
  { intros c' (id' & k & Hk & Hc). apply lookup_set_conns in Hk as [(-> & -> & _)|[_ Hk]]; [exists id, l; auto|by exists id', k]. }
  split.
  - intros H. split; [auto|]. destruct (decide (c = x)) as [->|]; auto.
  - intros [(id' & k & Hk & Hc) [Hne|Hx]].
    + destruct (decide (id' = id)) as [->|Hid].
      * simplify_eq. destruct (Hsup c Hc) as [Hc'|]; [|done]. exists id, l'. split; [|done].
        apply lookup_set_conns. left. split_and!; try done. intros ->. by apply elem_of_nil in Hc'.
      * exists id', k. split; [|done]. apply lookup_set_conns. auto.
    + destruct (decide (c = x)) as [->|Hne]; [done|]. destruct (decide (id' = id)) as [->|Hid].
      * simplify_eq. destruct (Hsup c Hc) as [Hc'|]; [|done]. exists id, l'. split; [|done].
        apply lookup_set_conns. left. split_and!; try done. intros ->. by apply elem_of_nil in Hc'.
      * exists id', k. split; [|done]. apply lookup_set_conns. auto.
Qed.

Lemma conns_of_lookup cm id : conns_of cm id <> [] -> phoneConns cm !! id = Some (conns_of cm id).
Proof. unfold conns_of. by destruct (phoneConns cm !! id). Qed.

Lemma lookup_conns_of cm id l : phoneConns cm !! id = Some l -> conns_of cm id = l.
Proof. unfold conns_of. by intros ->. Qed.

Lemma evict_oldest_eq cm dev x rest :
  phoneConns (evict_oldest cm dev x rest) = set_conns (phoneConns cm) dev rest /\
  sockets_closed (evict_oldest cm dev x rest) = sockets_closed cm ++ [x] /\
  phoneOutbounds (evict_oldest cm dev x rest) ⊆ phoneOutbounds cm /\
  phonePrincipals (evict_oldest cm dev x rest) ⊆ phonePrincipals cm.
Proof.
  unfold evict_oldest. destruct (phoneStillSubscribedLocked _ _); split_and!; try done; apply delete_subseteq.
Qed.

Lemma evict_oldest_tables cm dev x rest :
  tables_ok cm -> phoneConns cm !! dev = Some (x :: rest) -> tables_ok (evict_oldest cm dev x rest).
Proof.
  intros Ht Hl. unfold evict_oldest. apply unsubscribe_tables; [done|].
  eapply subscribed_set; [exact Hl|intros c; by right|]. intros c [->|H]%elem_of_cons; auto.
Qed.

Lemma lookup_set_same m dev l : default [] (set_conns m dev l !! dev) = l.
Proof. unfold set_conns. destruct l; [by rewrite lookup_delete_eq|by rewrite lookup_insert_eq]. Qed.

Lemma lookup_set_other m dev l id : id <> dev -> set_conns m dev l !! id = m !! id.
Proof. intros. unfold set_conns. destruct l; [by rewrite lookup_delete_ne|by rewrite lookup_insert_ne]. Qed.

Lemma evict_loop_spec n cm dev :
  tables_ok cm ->
  (forall id l, phoneConns cm !! id = Some l -> l <> [] /\ (id <> dev -> (length l <= maxPhoneConnsPerDevice)%nat)) ->
  (length (conns_of cm dev) <= n)%nat ->
  let k := (length (conns_of cm dev) - maxPhoneConnsPerDevice)%nat in
  let cm' := evict_loop n cm dev in
  wf cm' /\ conns_of cm' dev = drop k (conns_of cm dev) /\
  (forall id, id <> dev -> phoneConns cm' !! id = phoneConns cm !! id) /\
  sockets_closed cm' = sockets_closed cm ++ take k (conns_of cm dev) /\
  phoneOutbounds cm' ⊆ phoneOutbounds cm /\ phonePrincipals cm' ⊆ phonePrincipals cm.
Proof.
  revert cm. induction n as [|n IH]; intros cm Ht Hl Hn k cm'; subst k cm'.
  - destruct (conns_of cm dev) as [|? ?] eqn:E; [|simpl in Hn; lia]. cbn [evict_loop length drop take]. rewrite E.
    rewrite app_nil_r. split_and!; try done. split; [|done].
    intros id l Hid. destruct (Hl id l Hid) as [Hne Hlen]. split; [done|]. apply Hlen. intros ->.
    rewrite (lookup_conns_of _ _ _ Hid) in E. done.
  - cbn [evict_loop]. destruct (conns_of cm dev) as [|x rest] eqn:E.
    { cbn [length drop take]. rewrite app_nil_r, E. split_and!; try done. split; [|done].
      intros id l Hid. destruct (Hl id l Hid) as [Hne Hlen]. split; [done|]. apply Hlen. intros ->.
      rewrite (lookup_conns_of _ _ _ Hid) in E. done. }
    assert (Hdev : phoneConns cm !! dev = Some (x :: rest)) by (rewrite <- E; apply conns_of_lookup; by rewrite E).
    case_bool_decide as Hgt.
    + destruct (evict_oldest_eq cm dev x rest) as (H1 & H2 & H3 & H4).
      assert (Hco : conns_of (evict_oldest cm dev x rest) dev = rest).
      { unfold conns_of. rewrite H1. apply lookup_set_same. }
      specialize (IH (evict_oldest cm dev x rest)). rewrite Hco in IH.
      destruct IH as (Hwf & Hc & Ho & Hs & Hso & Hsp).
      * by apply evict_oldest_tables.
      * intros id l. rewrite H1. intros [(-> & -> & Hne)|[Hne Hid]]%lookup_set_conns; [by split|]. by apply Hl.
      * simpl in Hn. lia.
      * cbn [length] in Hgt. replace (length (x :: rest) - maxPhoneConnsPerDevice)%nat
          with (S (length rest - maxPhoneConnsPerDevice)) by (cbn [length]; lia). cbn [drop take].
        split_and!; try done.
        -- intros id Hid. rewrite Ho by done. rewrite H1. by apply lookup_set_other.
        -- rewrite Hs, H2, <- app_assoc. done.
        -- by etrans.
        -- by etrans.
    + replace (length (x :: rest) - maxPhoneConnsPerDevice)%nat with O by lia.
      cbn [drop take]. rewrite app_nil_r, E. split_and!; try done. split; [|done].
      intros id l Hid. destruct (Hl id l Hid) as [Hne Hlen]. split; [done|].
      destruct (decide (id = dev)) as [->|]; [|auto]. simplify_eq. lia.
Qed.

Lemma new_queue_ok : queue_ok newPhoneOutbound.
Proof. unfold queue_ok. split_and!; [done..|simpl; lia]. Qed.

(** Subscribing [x] to [dev], before any eviction. *)
Lemma subscribe_tables cm m dev x ps s :
  tables_ok cm -> (forall c, subscribed m c -> subscribed (phoneConns cm) c) ->
  (forall c, subscribed (phoneConns cm) c -> c = x \/ subscribed m c) ->
  (forall c, is_Some (ps !! c) -> c = x \/ is_Some (phonePrincipals cm !! c)) ->
  tables_ok (mkManager (<[dev := default [] (m !! dev) ++ [x]]> m) (ensure_outbound (phoneOutbounds cm) x) ps s).
Proof.
  intros [Ho Hp Hq] Hsub Hsup Hps.
  assert (Hens : forall c, is_Some (ensure_outbound (phoneOutbounds cm) x !! c) <-> c = x \/ is_Some (phoneOutbounds cm !! c)).
  { intros c. unfold ensure_outbound. destruct (phoneOutbounds cm !! x) as [o|] eqn:E.
    - split; [auto|]. intros [->|?]; [by rewrite E|done].
    - rewrite lookup_insert_is_Some. destruct (decide (x = c)); naive_solver. }
  assert (Hs : forall c, subscribed (<[dev:=default [] (m !! dev) ++ [x]]> m) c <-> c = x \/ subscribed m c).
  { intros c. split.
    - intros (id & l & [[<- <-]|[Hne Hl]]%lookup_insert_Some & Hc).
      + apply elem_of_app in Hc as [Hc|Hc%list_elem_of_singleton]; [|by left]. right.
        exists dev. destruct (m !! dev) as [l0|] eqn:E; [by exists l0|by apply elem_of_nil in Hc].
      + right. by exists id, l.
    - intros [->|(id & l & Hl & Hc)].
      + exists dev, (default [] (m !! dev) ++ [x]). rewrite lookup_insert_eq. split; [done|]. apply elem_of_app. right. by apply list_elem_of_singleton.
      + destruct (decide (id = dev)) as [->|Hne].
        * exists dev, (default [] (m !! dev) ++ [x]). rewrite lookup_insert_eq, Hl. split; [done|]. apply elem_of_app. by left.
        * exists id, l. by rewrite lookup_insert_ne. }
  split; cbn [phoneConns phoneOutbounds phonePrincipals].
  - intros c. rewrite Hens, Hs, Ho. split; intros [?|?]; auto. 
  - intros c Hc. apply Hens. destruct (Hps c Hc); auto.
  - intros c o. unfold ensure_outbound. destruct (phoneOutbounds cm !! x); [apply Hq|].
    intros [[<- <-]|[_ H]]%lookup_insert_Some; [apply new_queue_ok|by eapply Hq].
Qed.

(** ** Operations and their effect *)

Inductive phone_op : Type :=
  | OpAdd (dev : string) (conn : Z) (phone : string) (admin : bool)
  | OpRemove (dev : string) (conn : Z)
  | OpResubscribe (dev : string) (conn : Z)
  | OpDrop (conn : Z)
  | OpClosePrincipal (phone : string)
  | OpWrite (conn : Z) (data : string)
  | OpBroadcast (dev : string) (data : string)
  | OpWriter (conn : Z).

Definition apply_op (cm : manager) (o : phone_op) : manager :=
  match o with
  | OpAdd dev conn phone admin => AddPhoneAuthenticated cm dev conn phone admin
  | OpRemove dev conn => RemovePhone cm dev conn
  | OpResubscribe dev conn => ResubscribePhone cm dev conn
  | OpDrop conn => dropPhone cm conn
  | OpClosePrincipal phone => (ClosePhonesByPrincipal cm phone).2
  | OpWrite conn data => SafeWritePhone cm conn data
  | OpBroadcast dev data => BroadcastToPhones cm dev data
  | OpWriter conn => writer_wrote cm conn
  end.

Lemma lists_after_insert (m : gmap string (list Z)) dev l :
  lists_ok m -> l <> [] -> forall id l', <[dev := l]> m !! id = Some l' -> l' <> [] /\ (id <> dev -> (length l' <= maxPhoneConnsPerDevice)%nat).
Proof. intros H Hne id l' [[<- <-]|[Hid Hl]]%lookup_insert_Some; [done|]. destruct (H id l' Hl). auto. Qed.

Lemma lists_without m x : lists_ok m -> lists_ok (without_everywhere m x).
Proof.
  intros H id l (l0 & Hm & -> & Hne)%lookup_without_everywhere. split; [done|]. destruct (H id l0 Hm) as [_ Hl].
  pose proof (length_without l0 x). lia.
Qed.

Lemma AddPhone_spec cm dev x phone admin :
  wf cm ->
  let cm' := AddPhoneAuthenticated cm dev x phone admin in
  let l := conns_of cm dev ++ [x] in
  let k := (length l - maxPhoneConnsPerDevice)%nat in
  wf cm' /\ conns_of cm' dev = drop k l /\ sockets_closed cm' = sockets_closed cm ++ take k l /\
  (forall id, id <> dev -> phoneConns cm' !! id = phoneConns cm !! id) /\
  phonePrincipals cm' ⊆ <[x := mkPrincipal phone admin]> (phonePrincipals cm).
Proof.
  intros [Hl Ht] cm' l k.
  set (cm1 := mkManager (<[dev := l]> (phoneConns cm)) (ensure_outbound (phoneOutbounds cm) x)
                (<[x := mkPrincipal phone admin]> (phonePrincipals cm)) (sockets_closed cm)).
  assert (Hc1 : conns_of cm1 dev = l) by (unfold conns_of; simpl; by rewrite lookup_insert_eq).
  destruct (evict_loop_spec (length (conns_of cm1 dev)) cm1 dev) as (Hwf & Hc & Ho & Hs & _ & Hp).
  - apply subscribe_tables; try done.
    + auto.
    + intros c. rewrite lookup_insert_is_Some. destruct (decide (x = c)); naive_solver.
  - apply lists_after_insert; [done|]. unfold l. by destruct (conns_of cm dev).
  - lia.
  - change (evict_loop (length (conns_of cm1 dev)) cm1 dev) with cm' in *. rewrite !Hc1 in Hc. rewrite !Hc1 in Hs.
    split_and!; try done. intros id Hid. rewrite Ho by done. by apply lookup_insert_ne.
Qed.

Lemma Resubscribe_spec cm dev x :
  wf cm ->
  let cm' := ResubscribePhone cm dev x in
  let l := withoutPhoneConn (conns_of cm dev) x ++ [x] in
  let k := (length l - maxPhoneConnsPerDevice)%nat in
  wf cm' /\ conns_of cm' dev = drop k l /\ sockets_closed cm' = sockets_closed cm ++ take k l /\
  phonePrincipals cm' ⊆ phonePrincipals cm /\
  (forall id, id <> dev -> ~ x ∈ conns_of cm' id).
Proof.
  intros [Hl Ht] cm' l k.
  set (m := without_everywhere (phoneConns cm) x).
  assert (Hd : default [] (m !! dev) = withoutPhoneConn (conns_of cm dev) x).
  { unfold m, conns_of, without_everywhere. rewrite lookup_omap.
    destruct (phoneConns cm !! dev) as [l0|]; [|done]. simpl. by destruct (withoutPhoneConn l0 x). }
  set (cm1 := mkManager (<[dev := default [] (m !! dev) ++ [x]]> m) (ensure_outbound (phoneOutbounds cm) x)
                (phonePrincipals cm) (sockets_closed cm)).
  assert (Hc1 : conns_of cm1 dev = l) by (unfold conns_of; simpl; by rewrite lookup_insert_eq, Hd).
  destruct (evict_loop_spec (length (conns_of cm1 dev)) cm1 dev) as (Hwf & Hc & Ho & Hs & _ & Hp).
  - apply subscribe_tables; try done.
    + intros c [? _]%subscribed_without_everywhere. done.
    + intros c Hc. destruct (decide (c = x)); [by left|]. right. by apply subscribed_without_everywhere.
    + auto.
  - apply lists_after_insert; [by apply lists_without|]. by destruct (default [] (m !! dev)).
  - lia.
  - change (evict_loop (length (conns_of cm1 dev)) cm1 dev) with cm' in *. rewrite !Hc1 in Hc. rewrite !Hc1 in Hs.
    split_and!; try done. intros id Hid. unfold conns_of. rewrite Ho by done.
    simpl. rewrite lookup_insert_ne by done. destruct (m !! id) as [l1|] eqn:E; [|by apply not_elem_of_nil].
    apply lookup_without_everywhere in E as (l0 & _ & -> & _). simpl. rewrite elem_of_without. naive_solver.
Qed.

Lemma dropPhone_wf cm x : wf cm -> wf (dropPhone cm x).
Proof.
  intros [Hl Ht]. split; [by apply lists_without|]. unfold dropPhone.
  assert (Hm : forall c, subscribed (without_everywhere (phoneConns cm) x) c <->
    subscribed (phoneConns cm) c /\ (c <> x \/ subscribed (without_everywhere (phoneConns cm) x) x)).
  { intros c. rewrite !subscribed_without_everywhere. naive_solver. }
  apply (tables_delete cm _ x Ht Hm (subscribed_dec _ _)). rewrite subscribed_without_everywhere. naive_solver.
Qed.

Lemma RemovePhone_wf cm dev x : wf cm -> wf (RemovePhone cm dev x).
Proof.
  intros [Hl Ht]. unfold RemovePhone. split.
  - assert (lists_ok (set_conns (phoneConns cm) dev (withoutPhoneConn (conns_of cm dev) x))).
    { intros id l [(-> & -> & Hne)|[Hne Hid]]%lookup_set_conns; [|exact (Hl _ _ Hid)]. split; [done|].
      pose proof (length_without (conns_of cm dev) x) as Hw. destruct (phoneConns cm !! dev) as [l0|] eqn:E.
      - rewrite (lookup_conns_of _ _ _ E) in *. destruct (Hl dev l0 E). lia.
      - unfold conns_of in Hw. rewrite E in Hw. simpl in Hw. unfold conns_of. rewrite E. simpl. lia. }
    by destruct (phoneStillSubscribedLocked _ _).
  - apply unsubscribe_tables; [done|]. destruct (phoneConns cm !! dev) as [l0|] eqn:E.
    + eapply subscribed_set; [exact E|..]; rewrite (lookup_conns_of _ _ _ E); intros c; rewrite elem_of_without.
      * naive_solver.
      * intros Hc. destruct (decide (c = x)); auto.
    + assert (set_conns (phoneConns cm) dev (withoutPhoneConn (conns_of cm dev) x) = phoneConns cm) as ->.
      { unfold conns_of. rewrite E. simpl. by apply delete_id. }
      intros c. destruct (decide (c = x)) as [->|]; naive_solver.
Qed.

Lemma enqueue_queue_ok o d ok o' : queue_ok o -> enqueuePhone o d = (ok, o') -> queue_ok o'.
Proof.
  intros (Hc & Hr & Hb & Hs) H. pose proof (OutboundSpec.bytes_nonneg (queue o)).
  apply OutboundSpec.enqueue_cases in H as [(-> & _ & Hd & Hq & ->)|[-> Ho]].
  - unfold queue_ok. simpl. rewrite OutboundSpec.bytes_app, length_app, OutboundSpec.bytes_cons.
    split_and!; [done|..]; simpl; lia.
  - rewrite Ho by lia. done.
Qed.

Lemma queue_update_tables cm c o o' :
  tables_ok cm -> phoneOutbounds cm !! c = Some o -> queue_ok o' ->
  tables_ok (mkManager (phoneConns cm) (<[c := o']> (phoneOutbounds cm)) (phonePrincipals cm) (sockets_closed cm)).
Proof.
  intros [Ho Hp Hq] Hc Hk. split; cbn [phoneConns phoneOutbounds phonePrincipals].
  - intros c'. rewrite <- Ho, lookup_insert_is_Some. destruct (decide (c = c')) as [->|]; [rewrite Hc; naive_solver|naive_solver].
  - intros c' H. apply lookup_insert_is_Some. destruct (decide (c = c')); auto.
  - intros c' o2 [[<- <-]|[_ H]]%lookup_insert_Some; [done|by eapply Hq].
Qed.

Lemma SafeWrite_wf cm c d : wf cm -> wf (SafeWritePhone cm c d).
Proof.
  intros Hwf. unfold SafeWritePhone. destruct (phoneOutbounds cm !! c) as [o|] eqn:E; [|done].
  destruct (enqueuePhone o d) as [ok o'] eqn:Ee. destruct ok; [|by apply dropPhone_wf].
  destruct Hwf as [Hl Ht]. split; [done|]. eapply queue_update_tables; [done..|].
  eapply enqueue_queue_ok; [|exact Ee]. by eapply (t_queue cm Ht).
Qed.

Lemma foldl_wf {A} (f : manager -> A -> manager) l cm :
  (forall c x, wf c -> wf (f c x)) -> wf cm -> wf (foldl f cm l).
Proof. intros Hf. revert cm. induction l; simpl; auto. Qed.

Lemma writer_wf cm c : wf cm -> wf (writer_wrote cm c).
Proof.
  intros [Hl Ht]. unfold writer_wrote. destruct (phoneOutbounds cm !! c) as [[[|d q] cl r]|] eqn:E; [done| |done].
  split; [done|]. eapply queue_update_tables; [done|exact E|].
  destruct (t_queue cm Ht c _ E) as (Hc & Hr & Hb & Hs). cbn [closed queue reservedBytes] in *.
  rewrite OutboundSpec.bytes_cons in Hr. pose proof (len_nonneg d). pose proof (OutboundSpec.bytes_nonneg q).
  rewrite OutboundSpec.release_exact by (simpl; lia). unfold queue_ok. cbn [closed queue reservedBytes]. simpl in Hs. split_and!; [done|lia..].
Qed.

Lemma apply_op_wf cm o : wf cm -> wf (apply_op cm o).
Proof.
  intros H. destruct o; cbn [apply_op].
  - by apply AddPhone_spec.
  - by apply RemovePhone_wf.
  - by apply Resubscribe_spec.
  - by apply dropPhone_wf.
  - unfold ClosePhonesByPrincipal. destruct (is_empty phone); [done|]. simpl. apply foldl_wf; [|done]. intros. by apply dropPhone_wf.
  - by apply SafeWrite_wf.
  - apply foldl_wf; [|done]. intros. by apply SafeWrite_wf.
  - by apply writer_wf.
Qed.

Lemma empty_wf : wf empty_manager.
Proof.
  split; [done|]. split; cbn.
  - intros c. rewrite lookup_empty. split; [by intros [? ?]|]. by intros (? & ? & ? & ?).
  - intros c [? ?]. done.
  - done.
Qed.

(** What a drop, and a series of drops, changes. *)
Lemma conns_of_drop cm x dev : conns_of (dropPhone cm x) dev = withoutPhoneConn (conns_of cm dev) x.
Proof.
  unfold conns_of, dropPhone, without_everywhere. simpl. rewrite lookup_omap.
  destruct (phoneConns cm !! dev) as [l|]; [|done]. simpl. by destruct (withoutPhoneConn l x).
Qed.

Definition in_list (l : list Z) (c : Z) : bool := existsb (Z.eqb c) l.

Lemma in_list_spec l c : in_list l c = true <-> c ∈ l.
Proof.
  unfold in_list. rewrite existsb_exists. setoid_rewrite <- list_elem_of_In. split.
  - intros (x & Hx & ->%Z.eqb_eq). done.
  - intros H. exists c. split; [done|apply Z.eqb_refl].
Qed.

Lemma drops_spec l cm :
  let cm' := foldl dropPhone cm l in
  (forall c, phoneOutbounds cm' !! c = if in_list l c then None else phoneOutbounds cm !! c) /\
  (forall c, phonePrincipals cm' !! c = if in_list l c then None else phonePrincipals cm !! c) /\
  (forall dev, conns_of cm' dev = List.filter (fun c => negb (in_list l c)) (conns_of cm dev)) /\
  sockets_closed cm' = sockets_closed cm ++ l.
Proof.
  revert cm. induction l as [|x l IH]; intros cm; cbn [foldl].
  - split_and!; try done; [|by rewrite app_nil_r]. intros dev. induction (conns_of cm dev) as [|y ys IHy]; [done|]. simpl. by f_equal.
  - destruct (IH (dropPhone cm x)) as (Ho & Hp & Hc & Hs). split_and!.
    + intros c. rewrite Ho. simpl. destruct (c =? x) eqn:E; bool_hyps; simpl.
      * subst. rewrite lookup_delete_eq. by destruct (in_list l x).
      * by rewrite lookup_delete_ne by done.
    + intros c. rewrite Hp. simpl. destruct (c =? x) eqn:E; bool_hyps; simpl.
      * subst. rewrite lookup_delete_eq. by destruct (in_list l x).
      * by rewrite lookup_delete_ne by done.
    + intros dev. rewrite Hc, conns_of_drop. unfold withoutPhoneConn.
      induction (conns_of cm dev) as [|y ys IHy]; [done|]. simpl. destruct (y =? x) eqn:E; simpl; [done|].
      destruct (in_list l y); simpl; [done|]. by f_equal.
    + rewrite Hs. simpl. by rewrite <- app_assoc.
Qed.

Lemma elem_of_principal_conns cm p c :
  c ∈ principal_conns cm p <-> exists pr, phonePrincipals cm !! c = Some pr /\ AdminBypass pr = false /\ PhoneID pr = p.
Proof.
  unfold principal_conns. rewrite list_elem_of_fmap. split.
  - intros ([c' pr] & -> & H). rewrite list_elem_of_In, filter_In, <- list_elem_of_In, elem_of_map_to_list in H.
    destruct H as [Hm H]. bool_hyps. by exists pr.
  - intros (pr & Hm & Ha & Hp). exists (c, pr). split; [done|].
    rewrite list_elem_of_In, filter_In, <- list_elem_of_In, elem_of_map_to_list. split; [done|]. simpl.
    rewrite Ha, bool_decide_true by done. done.
Qed.

(** One write: the frame is queued, or the phone is dropped. *)
Definition fits (o : phoneOutbound) (data : string) : bool :=
  (len data <=? maxPhoneOutboundBytes - reservedBytes o) &&
  bool_decide (length (queue o) < phoneOutboundQueueSize)%nat.

Lemma enqueue_fits o data : queue_ok o ->
  enqueuePhone o data =
    (fits o data, if fits o data then mkOutbound (queue o ++ [data]) false (reservedBytes o + len data) else o).
Proof.
  intros (Hc & Hr & Hb & Hs). pose proof (OutboundSpec.bytes_nonneg (queue o)). pose proof (len_nonneg data).
  unfold enqueuePhone, fits. rewrite Hc.
  destruct (maxPhoneOutboundBytes <? len data) eqn:E1; bool_hyps.
  { destruct (len data <=? _) eqn:E2; bool_hyps; [lia|done]. }
  destruct (maxPhoneOutboundBytes - reservedBytes o <? len data) eqn:E2; destruct (len data <=? _) eqn:E3; bool_hyps; try lia; [done|].
  case_bool_decide; simpl; [done|]. rewrite OutboundSpec.release_exact by (simpl; lia).
  destruct o as [q c r]. simpl in *. subst. do 2 f_equal. lia.
Qed.

Definition delivered (cm cm' : manager) (c : Z) (data : string) : Prop :=
  exists o, phoneOutbounds cm !! c = Some o /\
    if fits o data
    then phoneOutbounds cm' !! c = Some (mkOutbound (queue o ++ [data]) false (reservedBytes o + len data))
    else phoneOutbounds cm' !! c = None /\ c ∈ sockets_closed cm' /\ ~ subscribed (phoneConns cm') c.

Lemma SafeWrite_spec cm c data :
  wf cm -> is_Some (phoneOutbounds cm !! c) ->
  let cm' := SafeWritePhone cm c data in
  delivered cm cm' c data /\
  (forall c', c' <> c -> phoneOutbounds cm' !! c' = phoneOutbounds cm !! c' /\
    phonePrincipals cm' !! c' = phonePrincipals cm !! c' /\
    (subscribed (phoneConns cm') c' <-> subscribed (phoneConns cm) c')) /\
  sockets_closed cm ⊆ sockets_closed cm'.
Proof.
  intros [Hl Ht] [o Ho] cm'. subst cm'. unfold SafeWritePhone, delivered. rewrite Ho, enqueue_fits by by eapply (t_queue cm Ht).
  destruct (fits o data) eqn:Ef; simpl.
  - split_and!; [|intros c' Hne; by rewrite lookup_insert_ne|done]. exists o. rewrite Ef, lookup_insert_eq. done.
  - split_and!.
    + exists o. rewrite Ef, lookup_delete_eq. split_and!; try done.
      * rewrite elem_of_app. right. by apply list_elem_of_singleton.
      * rewrite subscribed_without_everywhere. naive_solver.
    + intros c' Hne. rewrite !lookup_delete_ne by done. rewrite subscribed_without_everywhere. naive_solver.
    + intros x Hx. apply elem_of_app. by left.
Qed.

(** Writing to each of several distinct sockets. *)
Lemma writes_spec l cm data :
  wf cm -> NoDup l -> (forall c, c ∈ l -> is_Some (phoneOutbounds cm !! c)) ->
  let cm' := foldl (fun m conn => SafeWritePhone m conn data) cm l in
  (forall c, c ∈ l -> delivered cm cm' c data) /\
  (forall c, c ∉ l -> phoneOutbounds cm' !! c = phoneOutbounds cm !! c /\
    phonePrincipals cm' !! c = phonePrincipals cm !! c /\
    (subscribed (phoneConns cm') c <-> subscribed (phoneConns cm) c)) /\
  sockets_closed cm ⊆ sockets_closed cm'.
Proof.
  revert cm. induction l as [|x l IH]; intros cm Hwf Hnd Hall; cbn [foldl].
  { split_and!; [by intros c ?%elem_of_nil|done|done]. }
  apply NoDup_cons in Hnd as [Hx Hnd].
  destruct (SafeWrite_spec cm x data Hwf (Hall x ltac:(by left))) as (Hd & Ho & Hs).
  destruct (IH (SafeWritePhone cm x data)) as (IHd & IHo & IHs).
  { by apply SafeWrite_wf. }
  { done. }
  { intros c Hc. destruct (Ho c) as [-> _]; [by intros ->|]. apply Hall. by right. }
  split_and!.
  - intros c [->|Hc]%elem_of_cons.
    + destruct Hd as (o & Hco & Hd). exists o. split; [done|]. destruct (IHo x Hx) as (E1 & _ & E2).
      destruct (fits o data); [by rewrite E1|]. rewrite E1, E2. naive_solver.
    + destruct (IHd c Hc) as (o & Hco & H). exists o. destruct (Ho c) as [E _]; [by intros ->|]. by rewrite <- E.
  - intros c Hc. rewrite not_elem_of_cons in Hc. destruct Hc as [Hne Hc]. destruct (IHo c Hc) as (E1 & E2 & E3).
    destruct (Ho c Hne) as (F1 & F2 & F3). rewrite E1, E2, E3. done.
  - by etrans.
Qed.

(** A socket without a queue gets none from writes. *)
Lemma writes_none l cm c data :
  phoneOutbounds cm !! c = None ->
  phoneOutbounds (foldl (fun m conn => SafeWritePhone m conn data) cm l) !! c = None.
Proof.
  revert cm. induction l as [|x l IH]; intros cm Hm; [done|]. cbn [foldl]. apply IH.
  unfold SafeWritePhone. destruct (phoneOutbounds cm !! x) as [o|] eqn:Ex; [|done].
  destruct (enqueuePhone o data) as [[] o']; simpl.
  - rewrite lookup_insert_ne; [done|]. intros ->. congruence.
  - apply lookup_delete_None. by right.
Qed.

Lemma wf_conns_outbound cm dev c : wf cm -> c ∈ conns_of cm dev -> is_Some (phoneOutbounds cm !! c).
Proof.
  intros [_ Ht] Hc. apply (t_outbound cm Ht). unfold conns_of in Hc.
  destruct (phoneConns cm !! dev) as [l|] eqn:E; [by exists dev, l|by apply elem_of_nil in Hc].
Qed.

(** the subscription table in every reachable state: a device has at most
    eight phones, a phone has an outbound queue exactly while it is subscribed
    somewhere, every such queue is open and within its bounds, and no identity
    is remembered for a socket without a queue; subscribing appends the socket
    and evicts exactly the oldest ones in excess. *)
Theorem phone_table_wf ops :
  let cm := foldl apply_op empty_manager ops in
  (forall dev, (length (conns_of cm dev) <= maxPhoneConnsPerDevice)%nat) /\
  (forall c, is_Some (phoneOutbounds cm !! c) <-> exists dev, c ∈ conns_of cm dev) /\
  (forall c, is_Some (phonePrincipals cm !! c) -> is_Some (phoneOutbounds cm !! c)) /\
  (forall c o, phoneOutbounds cm !! c = Some o -> queue_ok o) /\
  (forall dev x phone admin,
     let l := conns_of cm dev ++ [x] in
     let k := (length l - maxPhoneConnsPerDevice)%nat in
     let cm' := AddPhoneAuthenticated cm dev x phone admin in
     conns_of cm' dev = drop k l /\ sockets_closed cm' = sockets_closed cm ++ take k l).
Proof.
  intros cm. assert (Hwf : wf cm) by (apply foldl_wf; [intros; by apply apply_op_wf|apply empty_wf]).
  destruct Hwf as [Hl Ht]. split_and!.
  - intros dev. unfold conns_of. destruct (phoneConns cm !! dev) eqn:E; [by apply (Hl dev)|simpl; lia].
  - intros c. rewrite (t_outbound cm Ht). split.
    + intros (id & l & Hm & Hc). exists id. by rewrite (lookup_conns_of _ _ _ Hm).
    + intros [dev Hc]. apply (t_outbound cm Ht). by eapply wf_conns_outbound.
  - apply (t_principal cm Ht).
  - apply (t_queue cm Ht).
  - intros dev x phone admin l k cm'. destruct (AddPhone_spec cm dev x phone admin) as (_ & ? & ? & _); done.
Qed.

(** revoking a phone cuts off exactly its sockets: each socket
    authenticated as that phone is closed, loses its queue and every
    subscription, and no later broadcast reaches it; the sockets of other
    phones and of the administrator keep queue, identity and subscriptions. *)
Theorem revoked_phone_is_cut_off ops p :
  p <> "" ->
  let cm := foldl apply_op empty_manager ops in
  let victims := principal_conns cm p in
  let cm' := (ClosePhonesByPrincipal cm p).2 in
  (forall c, c ∈ victims <-> exists pr, phonePrincipals cm !! c = Some pr /\ AdminBypass pr = false /\ PhoneID pr = p) /\
  (forall c, c ∈ victims -> c ∈ sockets_closed cm' /\ (forall dev, c ∉ conns_of cm' dev) /\
     forall dev data, phoneOutbounds (BroadcastToPhones cm' dev data) !! c = None) /\
  (forall c, c ∉ victims -> phoneOutbounds cm' !! c = phoneOutbounds cm !! c /\
     phonePrincipals cm' !! c = phonePrincipals cm !! c) /\
  (forall dev, conns_of cm' dev = List.filter (fun c => negb (in_list victims c)) (conns_of cm dev)) /\
  (forall c pr, phonePrincipals cm' !! c = Some pr -> PhoneID pr = p -> AdminBypass pr = true).
Proof.
  intros Hp cm victims cm'.
  assert (Hwf : wf cm) by (apply foldl_wf; [intros; by apply apply_op_wf|apply empty_wf]).
  assert (Hwf' : wf cm').
  { apply (apply_op_wf cm (OpClosePrincipal p) Hwf). }
  assert (cm' = foldl dropPhone cm victims) as E.
  { unfold cm', ClosePhonesByPrincipal. by destruct p. }
  destruct (drops_spec victims cm) as (Ho & Hpr & Hc & Hs). rewrite <- E in Ho, Hpr, Hc, Hs.
  assert (Hgone : forall c, c ∈ victims -> phoneOutbounds cm' !! c = None).
  { intros c Hv. rewrite Ho. apply in_list_spec in Hv as ->. done. }
  split_and!.
  - intros c. apply elem_of_principal_conns.
  - intros c Hv. split_and!.
    + rewrite Hs. apply elem_of_app. by right.
    + intros dev Hin. apply (wf_conns_outbound cm' dev c Hwf') in Hin. rewrite Hgone in Hin by done. by destruct Hin.
    + intros dev data. apply writes_none. by apply Hgone.
  - intros c Hv. rewrite Ho, Hpr. destruct (in_list victims c) eqn:Ei; [by apply in_list_spec in Ei|done].
  - done.
  - intros c pr. rewrite Hpr. destruct (in_list victims c) eqn:Ei; [done|]. intros Hm Hid.
    destruct (AdminBypass pr) eqn:Ea; [done|]. assert (c ∈ victims) as Hv by (apply elem_of_principal_conns; eauto).
    apply in_list_spec in Hv. congruence.
Qed.

(** a broadcast reaches every subscriber of the device once and nobody
    else: a subscriber whose queue has room gets the frame at its end, one whose
    queue or byte budget is full is disconnected, and neither delays the
    others. *)
Theorem broadcast_exact ops dev data :
  let cm := foldl apply_op empty_manager ops in
  let cm' := BroadcastToPhones cm dev data in
  NoDup (conns_of cm dev) ->
  (forall c, c ∈ conns_of cm dev -> delivered cm cm' c data) /\
  (forall c, c ∉ conns_of cm dev -> phoneOutbounds cm' !! c = phoneOutbounds cm !! c /\
     (subscribed (phoneConns cm') c <-> subscribed (phoneConns cm) c)).
Proof.
  intros cm cm' Hnd. assert (Hwf : wf cm) by (apply foldl_wf; [intros; by apply apply_op_wf|apply empty_wf]).
  destruct (writes_spec (conns_of cm dev) cm data Hwf Hnd) as (Hd & Ho & _).
  { intros c Hc. by eapply wf_conns_outbound. }
  split; [done|]. intros c Hc. destruct (Ho c Hc) as (? & _ & ?). done.
Qed.

(** ** Witnesses *)

Definition demo_ops : list phone_op :=
  [OpAdd "d" 1 "p1" false; OpAdd "d" 2 "p2" false; OpAdd "d" 3 "" true; OpBroadcast "d" "hello"; OpResubscribe "e" 2].

Lemma revoked_phone_is_cut_off_witness :
  conns_of (ClosePhonesByPrincipal (foldl apply_op empty_manager demo_ops) "p1").2 "d" =
    List.filter (fun c => negb (in_list (principal_conns (foldl apply_op empty_manager demo_ops) "p1") c))
      (conns_of (foldl apply_op empty_manager demo_ops) "d") /\
  conns_of (ClosePhonesByPrincipal (foldl apply_op empty_manager demo_ops) "p1").2 "d" = [3].
Proof.
  split; [|by_vm].
  assert (Hp : "p1" <> "") by done.
  exact (proj1 (proj2 (proj2 (proj2 (revoked_phone_is_cut_off demo_ops "p1" Hp)))) "d").
Defined.

Lemma broadcast_exact_witness :
  delivered (foldl apply_op empty_manager demo_ops)
    (BroadcastToPhones (foldl apply_op empty_manager demo_ops) "d" "x") 1 "x".
Proof.
  assert (E : conns_of (foldl apply_op empty_manager demo_ops) "d" = [1; 3]) by by_vm.
  assert (Hn : NoDup (conns_of (foldl apply_op empty_manager demo_ops) "d")).
  { rewrite E. repeat constructor; rewrite ?elem_of_cons, ?elem_of_nil; intuition congruence. }
  refine (proj1 (broadcast_exact demo_ops "d" "x" Hn) 1 _). rewrite E. by left.
Defined.

End PhonesSpec.

Module DaemonsSpec.
Import Daemons.

(** ** What a thread holds, and what it knows *)

Definition holds (t : Z) (p : pc) (c : Z) : bool :=
  match p with
  | AddObserve | AddLock _ | AddNotify _ _ | AddReturn _ => c =? t
  | AddCheck old | AddReplace old _ _ => (c =? t) || bool_decide (old = Some c)
  | RemCheck _ c' | RemUnlock _ c' | FrameCheck c' | FrameEffect c' | FrameReturn c' => c =? c'
  | _ => false
  end.

(** The part of a connection that is not its lock. *)
Definition attr (r : ConnectionManager) (c : Z) : option (string * string * Z * bool) :=
  match dcs r !! c with Some d => Some (dcDevice d, AppVersion d, generation d, dcClosed d) | None => None end.

(** Events that belong to a generation, and those that announce it. *)
Definition ev_gen (e : event) : option (string * Z) :=
  match e with EUp d _ g | EVersionChange d _ g | EFrame d g => Some (d, g) | _ => None end.

Definition announces (e : event) : bool := match e with EUp _ _ _ | EVersionChange _ _ _ => true | _ => false end.

(** The version phones were last told [dev] runs. *)
Definition announce1 (dev : string) (o : option string) (e : event) : option string :=
  match e with EUp d v _ | EVersionChange d v _ => if decide (d = dev) then Some v else o | _ => o end.

Definition announced (l : list event) (dev : string) : option string := foldl (announce1 dev) None l.

(** [e'] comes before [e]. *)
Definition before_ok (e' e : event) : Prop :=
  forall dev g' g, ev_gen e' = Some (dev, g') -> ev_gen e = Some (dev, g) ->
    g' <= g /\ (announces e = true -> g' < g).

Definition ordered (l : list event) : Prop := forall l1 e l2, l = l1 ++ e :: l2 -> forall e', e' ∈ l1 -> before_ok e' e.

Lemma ordered_nil : ordered [].
Proof. intros l1 e l2 H. by destruct l1. Qed.

Lemma ordered_snoc l e : ordered l -> (forall e', e' ∈ l -> before_ok e' e) -> ordered (l ++ [e]).
Proof.
  intros H He l1 x l2 E e' Hin. induction l2 as [|y l2 _] using rev_ind.
  - apply app_inj_tail in E as [-> ->]. auto.
  - replace (l1 ++ x :: l2 ++ [y]) with ((l1 ++ x :: l2) ++ [y]) in E by (by rewrite <- app_assoc).
    apply app_inj_tail in E as [-> ->]. eapply H; [reflexivity|done].
Qed.

Lemma announced_snoc l e dev : announced (l ++ [e]) dev = announce1 dev (announced l dev) e.
Proof. unfold announced. by rewrite foldl_app. Qed.

Record core_inv (r : ConnectionManager) : Prop := {
  c_reg : forall dev c, daemonConns r !! dev = Some c ->
    exists ver g cl, attr r c = Some (dev, ver, g, cl) /\ 0 < g /\ (regMu r = None -> cl = false);
  c_live : forall c dev ver g, attr r c = Some (dev, ver, g, false) -> 0 < g -> daemonConns r !! dev = Some c;
  c_gen : forall c dev ver g cl, attr r c = Some (dev, ver, g, cl) -> 0 <= g <= nextDaemonGeneration r;
  c_uniq : forall c1 c2 d1 v1 l1 d2 v2 l2 g,
    attr r c1 = Some (d1, v1, g, l1) -> attr r c2 = Some (d2, v2, g, l2) -> 0 < g -> c1 = c2;
  c_ord : ordered (events r);
  c_max : forall e dev g, e ∈ events r -> ev_gen e = Some (dev, g) ->
    g <= nextDaemonGeneration r /\
    forall c ver g' cl, daemonConns r !! dev = Some c -> attr r c = Some (dev, ver, g', cl) -> g <= g'
}.

Definition pc_ok (r : ConnectionManager) (t : Z) (p : pc) : Prop :=
  match p with
  | AddObserve | AddLock _ | AddCheck _ => exists dev ver, attr r t = Some (dev, ver, 0, false)
  | AddReplace _ was prev | AddNotify was prev =>
    exists dev ver g, attr r t = Some (dev, ver, g, false) /\ 0 < g /\
      (was = true -> announced (events r) dev = Some prev) /\
      (forall e g', e ∈ events r -> ev_gen e = Some (dev, g') -> g' < g)
  | AddReturn _ | Done =>
    forall dev ver g cl, attr r t = Some (dev, ver, g, cl) -> daemonConns r !! dev = Some t ->
      announced (events r) dev = Some ver
  | FrameEffect c => attr r t = None /\ exists dev ver g, attr r c = Some (dev, ver, g, false) /\ 0 < g
  | CloseEach todo _ => attr r t = None /\ regMu r = Some t /\
      (forall dev c, daemonConns r !! dev = Some c -> c ∈ todo \/ exists ver g, attr r c = Some (dev, ver, g, true)) /\
      (forall c, c ∈ todo -> exists dev, daemonConns r !! dev = Some c)
  | _ => attr r t = None
  end.

(** ** Effects on the registry that preserve it *)

Definition same_core (r r' : ConnectionManager) : Prop :=
  daemonConns r' = daemonConns r /\ nextDaemonGeneration r' = nextDaemonGeneration r /\ regMu r' = regMu r /\
  events r' = events r /\ forall c, attr r' c = attr r c.

Lemma same_core_inv r r' : same_core r r' -> core_inv r -> core_inv r'.
Proof.
  intros (H1 & H2 & H3 & H4 & H5) [A B C D E F].
  split; rewrite ?H1, ?H2, ?H3, ?H4; repeat setoid_rewrite H5; done.
Qed.

Lemma same_core_pc r r' t p : same_core r r' -> pc_ok r t p -> pc_ok r' t p.
Proof.
  intros (H1 & H2 & H3 & H4 & H5). unfold pc_ok.
  destruct p; rewrite ?H1, ?H2, ?H3, ?H4; repeat setoid_rewrite H5; done.
Qed.

Lemma attr_lock r c d o c' : dcs r !! c = Some d -> attr (set_dc r c (with_mu d o)) c' = attr r c'.
Proof.
  intros H. unfold attr, set_dc. simpl. destruct (decide (c = c')) as [->|Hne].
  - by rewrite lookup_insert_eq, H.
  - by rewrite lookup_insert_ne.
Qed.

Lemma lock_core r t c r' : lock_dc r t c = Some r' -> same_core r r'.
Proof.
  unfold lock_dc. intros (d & Hd & H)%bind_Some. destruct (dcMu d); simplify_eq.
  repeat split; try done. intros c'. by apply attr_lock.
Qed.

Lemma unlock_core r c : same_core r (unlock_dc r c).
Proof.
  unfold unlock_dc. destruct (dcs r !! c) as [d|] eqn:E; [|by repeat split].
  repeat split; try done. intros c'. by apply attr_lock.
Qed.

Lemma unlock_old_core r old : same_core r (unlock_old r old).
Proof. destruct old; [apply unlock_core|by repeat split]. Qed.

Lemma same_core_refl r : same_core r r.
Proof. by repeat split. Qed.

Lemma same_core_trans r1 r2 r3 : same_core r1 r2 -> same_core r2 r3 -> same_core r1 r3.
Proof. intros (A1 & A2 & A3 & A4 & A5) (B1 & B2 & B3 & B4 & B5). repeat split; congruence. Qed.

(** Closing [c] and taking it out of the registry, or closing it under [Close]. *)
Lemma attr_mark_closed r c c' :
  attr (mark_closed r c) c' =
    if decide (c' = c) then match attr r c with Some (d, v, g, _) => Some (d, v, g, true) | None => None end
    else attr r c'.
Proof.
  unfold attr, mark_closed. destruct (dcs r !! c) as [d|] eqn:E.
  - simpl. destruct (decide (c' = c)) as [->|Hne]; [by rewrite lookup_insert_eq|by rewrite lookup_insert_ne].
  - by destruct (decide (c' = c)) as [->|]; rewrite ?E.
Qed.

Lemma announce1_ev dev o e : (forall d g, ev_gen e = Some (d, g) -> announces e = true -> d <> dev) -> announce1 dev o e = o.
Proof.
  destruct e as [d v g|d v g|d|d g|d|c]; simpl; try done; intros H; destruct (decide (d = dev)); [|done| |done]; exfalso; by eapply H.
Qed.

(** An event of a live generation, or of none. *)
Lemma emit_core r e :
  core_inv r ->
  (forall dev g, ev_gen e = Some (dev, g) ->
     (exists c ver, attr r c = Some (dev, ver, g, false) /\ daemonConns r !! dev = Some c) /\
     (announces e = true -> forall e' g', e' ∈ events r -> ev_gen e' = Some (dev, g') -> g' < g)) ->
  core_inv (emit r e).
Proof.
  intros [A B C D E F] H.
  assert (Hle : forall dev g g' e', ev_gen e = Some (dev, g) -> e' ∈ events r -> ev_gen e' = Some (dev, g') -> g' <= g).
  { intros dev g g' e' He Hin He'. destruct (H dev g He) as [(c & ver & Hc & Hd) _]. by eapply (F e' dev g' Hin He'). }
  split; try done.
  - apply ordered_snoc; [done|]. intros e' Hin dev g' g He' He. split; [by eapply Hle|].
    intros Ha. by eapply (H dev g He).
  - simpl. intros e0 dev g Hin He0. apply elem_of_app in Hin as [Hin|Hin%list_elem_of_singleton]; [by apply (F e0 dev g)|]. subst e0.
    destruct (H dev g He0) as [(c & ver & Hc & Hd) _]. pose proof (C _ _ _ _ _ Hc). split; [lia|].
    intros c' ver' g' cl Hd' Hc'. change (attr (emit r e)) with (attr r) in *. simplify_eq. lia.
Qed.

Definition adding (p : pc) : bool := match p with AddReplace _ _ _ | AddNotify _ _ => true | _ => false end.

Lemma emit_pc r e t p :
  core_inv r -> pc_ok r t p ->
  (forall dev g, ev_gen e = Some (dev, g) ->
     exists c, daemonConns r !! dev = Some c /\ (announces e = true \/ adding p = true -> c <> t)) ->
  pc_ok (emit r e) t p.
Proof.
  intros Hi Hp H.
  assert (Hann : forall dev, daemonConns r !! dev = Some t -> announced (events r ++ [e]) dev = announced (events r) dev).
  { intros dev Hd. rewrite announced_snoc. apply announce1_ev. intros d g He Ha ->.
    destruct (H dev g He) as (c & Hc & Hne). simplify_eq. by apply Hne; [left|]. }
  destruct p; cbn [pc_ok adding] in *; try exact Hp.
  - destruct Hp as (dev & ver & g & Ha & Hg & Hw & Hev). pose proof (c_live r Hi _ _ _ _ Ha Hg) as Hd.
    exists dev, ver, g. split_and!; try done.
    + simpl. by rewrite Hann.
    + intros e' g' Hin He'. apply elem_of_app in Hin as [Hin|Hin%list_elem_of_singleton]; [by eapply Hev|]. subst e'.
      destruct (H dev g' He') as (c & Hc & Hne). simplify_eq. by destruct Hne; [right|].
  - destruct Hp as (dev & ver & g & Ha & Hg & Hw & Hev). pose proof (c_live r Hi _ _ _ _ Ha Hg) as Hd.
    exists dev, ver, g. split_and!; try done.
    + simpl. by rewrite Hann.
    + intros e' g' Hin He'. apply elem_of_app in Hin as [Hin|Hin%list_elem_of_singleton]; [by eapply Hev|]. subst e'.
      destruct (H dev g' He') as (c & Hc & Hne). simplify_eq. by destruct Hne; [right|].
  - intros dev ver g cl Ha Hd. simpl. rewrite Hann by done. by eapply Hp.
  - intros dev ver g cl Ha Hd. simpl. rewrite Hann by done. by eapply Hp.
Qed.

(** Allocation of a connection that is not published yet. *)
Lemma alloc_attr r t dev conn ver c :
  attr (set_dc r t (mkDC dev conn ver 0 false (Some t))) c = if decide (c = t) then Some (dev, ver, 0, false) else attr r c.
Proof.
  unfold attr. simpl. destruct (decide (c = t)) as [->|]; [by rewrite lookup_insert_eq|by rewrite lookup_insert_ne].
Qed.

Lemma alloc_core r t dev conn ver :
  attr r t = None -> core_inv r -> 0 <= nextDaemonGeneration r -> core_inv (set_dc r t (mkDC dev conn ver 0 false (Some t))).
Proof.
  intros Ht [A B C D E F] Hn. split; try done; simpl; repeat setoid_rewrite alloc_attr.
  - intros d c Hd. destruct (A d c Hd) as (v & g & cl & Ha & ?). exists v, g, cl.
    rewrite decide_False; [done|]. intros ->. congruence.
  - intros c d v g. destruct (decide (c = t)) as [->|]; [intros [= <- <- <-]; lia|]. apply B.
  - intros c d v g cl. destruct (decide (c = t)) as [->|]; [intros [= <- <- <- <-]; lia|]. apply C.
  - intros c1 c2 d1 v1 l1 d2 v2 l2 g. destruct (decide (c1 = t)), (decide (c2 = t)); try (intros; simplify_eq; lia). apply D.
  - intros e d g He Hg. destruct (F e d g He Hg) as [F1 F2]. split; [done|]. intros c v g' cl Hd.
    destruct (decide (c = t)) as [->|]; [|by apply F2]. destruct (A d t Hd) as (? & ? & ? & ? & _). congruence.
Qed.

Lemma alloc_pc r t dev conn ver t' p :
  attr r t = None -> core_inv r -> t' <> t -> pc_ok r t' p -> pc_ok (set_dc r t (mkDC dev conn ver 0 false (Some t))) t' p.
Proof.
  intros Ht Hi Hne. destruct p; cbn [pc_ok]; repeat setoid_rewrite alloc_attr; rewrite ?(decide_False (P := t' = t)) by done; try done.
  - intros [H1 (d & v & g & Ha & Hg)]. split; [done|]. exists d, v, g. rewrite decide_False; [done|]. intros ->. congruence.
  - intros (H1 & H2 & H3 & H4). split_and!; try done. intros d c Hd. destruct (H3 d c Hd) as [?|(v & g & Ha)]; [by left|].
    right. exists v, g. rewrite decide_False; [done|]. intros ->. congruence.
Qed.

Definition close_attr (a : option (string * string * Z * bool)) : option (string * string * Z * bool) :=
  match a with Some (d, v, g, _) => Some (d, v, g, true) | None => None end.

Lemma close_attr_Some a d v g cl : close_attr a = Some (d, v, g, cl) -> cl = true /\ exists cl0, a = Some (d, v, g, cl0).
Proof. destruct a as [[[[d0 v0] g0] cl0]|]; [|done]. intros [= -> -> -> <-]. eauto. Qed.

(** *** Publishing *)

Definition published_from (r r' : ConnectionManager) (t : Z) (dev ver : string) (old : option Z) : Prop :=
  attr r t = Some (dev, ver, 0, false) /\ daemonConns r !! dev = old /\ regMu r = None /\
  nextDaemonGeneration r' = nextDaemonGeneration r + 1 /\ daemonConns r' = <[dev := t]> (daemonConns r) /\
  events r' = events r /\ regMu r' = None /\
  forall c, attr r' c = if decide (c = t) then Some (dev, ver, nextDaemonGeneration r + 1, false)
                        else if decide (old = Some c) then close_attr (attr r c) else attr r c.

Lemma publish_core r r' t dev ver old :
  core_inv r -> 0 <= nextDaemonGeneration r -> published_from r r' t dev ver old -> core_inv r'.
Proof.
  intros [A B C D E F] Hn (Ht & Hold & Hmu & Hnext & Hconns & Hev & Hmu' & Ha).
  split; rewrite ?Hconns, ?Hev, ?Hnext, ?Hmu'.
  - intros d c [[<- <-]|[Hne Hd]]%lookup_insert_Some.
    + exists ver, (nextDaemonGeneration r + 1), false. rewrite Ha, decide_True by done. split_and!; [done|lia|done].
    + destruct (A d c Hd) as (v & g & cl & Hc & Hg & Hcl). exists v, g, cl. rewrite Ha.
      rewrite decide_False by (intros ->; simplify_eq; lia). rewrite decide_False; [by split_and!; auto|].
      intros ->. destruct (A dev c Hold) as (? & ? & ? & ? & _). simplify_eq.
  - intros c d v g. rewrite Ha. destruct (decide (c = t)) as [->|Hct].
    + intros [= <- <- <-] _. by rewrite lookup_insert_eq.
    + destruct (decide (old = Some c)) as [->|Hco]; [intros [? _]%close_attr_Some; done|].
      intros Hc Hg. pose proof (B _ _ _ _ Hc Hg) as Hd. rewrite lookup_insert_ne; [done|]. intros ->. congruence.
  - intros c d v g cl. rewrite Ha. destruct (decide (c = t)) as [->|Hct]; [intros [= <- <- <- <-]; lia|].
    destruct (decide (old = Some c)) as [->|Hco]; [intros [-> [cl0 Hc]]%close_attr_Some|intros Hc]; apply C in Hc; lia.
  - assert (Hold' : forall c d v g cl, c <> t -> attr r' c = Some (d, v, g, cl) -> exists cl', attr r c = Some (d, v, g, cl')).
    { intros c d v g cl Hct. rewrite Ha, decide_False by done.
      destruct (decide (old = Some c)); [intros [_ ?]%close_attr_Some; done|eauto]. }
    assert (Hnew : forall c d v g cl, c <> t -> attr r' c = Some (d, v, g, cl) -> g <= nextDaemonGeneration r).
    { intros c d v g cl Hct Hc. destruct (Hold' _ _ _ _ _ Hct Hc) as [cl' H']. apply C in H'. lia. }
    assert (Htt : forall d v g cl, attr r' t = Some (d, v, g, cl) -> g = nextDaemonGeneration r + 1).
    { intros d v g cl. rewrite Ha, decide_True by done. by intros [= _ _ <- _]. }
    intros c1 c2 d1 v1 l1 d2 v2 l2 g H1 H2 Hg.
    destruct (decide (c1 = t)) as [->|N1], (decide (c2 = t)) as [->|N2]; [done|..].
    + apply Htt in H1. apply Hnew in H2; [lia|done].
    + apply Htt in H2. apply Hnew in H1; [lia|done].
    + destruct (Hold' _ _ _ _ _ N1 H1) as [? H1']. destruct (Hold' _ _ _ _ _ N2 H2) as [? H2']. by eapply D.
  - done.
  - intros e d g He Hg. destruct (F e d g He Hg) as [F1 F2]. split; [lia|]. intros c v g' cl Hd Hc. revert Hc.
    rewrite Ha. destruct (decide (c = t)) as [->|Hct].
    + intros [= <- <- <- <-]. lia.
    + apply lookup_insert_Some in Hd as [[_ ?]|[_ Hd]]; [by subst|].
      destruct (decide (old = Some c)); [intros [_ [? Hc]]%close_attr_Some|intros Hc]; by eapply F2.
Qed.

Lemma publish_pc r r' t dev ver old t' p :
  core_inv r -> published_from r r' t dev ver old -> t' <> t ->
  (forall o, old = Some o -> holds t' p o = false) -> pc_ok r t' p -> pc_ok r' t' p.
Proof.
  intros Hi (Ht & Hold & Hmu & Hnext & Hconns & Hev & Hmu' & Ha) Hne Hh Hp.
  assert (Hreg : forall o, old = Some o -> exists v g cl, attr r o = Some (dev, v, g, cl) /\ 0 < g).
  { intros o ->. destruct (c_reg r Hi _ _ Hold) as (v & g & cl & ? & ? & _). eauto. }
  assert (Ht' : attr r' t' = if decide (old = Some t') then close_attr (attr r t') else attr r t').
  { by rewrite Ha, decide_False. }
  assert (Hnone : attr r t' = None -> attr r' t' = None).
  { intros E. rewrite Ht', E. by destruct (decide _). }
  assert (Hzero : forall d v, attr r t' = Some (d, v, 0, false) -> attr r' t' = Some (d, v, 0, false)).
  { intros d v E. rewrite Ht', decide_False; [done|]. intros Ho. destruct (Hreg t' Ho) as (? & ? & ? & ? & ?). simplify_eq; lia. }
  assert (Hlive : forall d v g cl, (forall o, old = Some o -> o <> t') -> attr r t' = Some (d, v, g, cl) -> attr r' t' = Some (d, v, g, cl)).
  { intros d v g cl Ho E. rewrite Ht', decide_False; [done|]. intros Ho'. by eapply Ho. }
  destruct p; cbn [pc_ok] in *; rewrite ?Hev; try (by apply Hnone);
    try (destruct Hp as (d & v & Hp); exists d, v; by apply Hzero).
  - destruct Hp as (d & v & g & E & ? & ? & ?). exists d, v, g. split_and!; try done. apply Hlive; [|done].
    intros o Ho ->. specialize (Hh t' Ho). simpl in Hh. rewrite Z.eqb_refl in Hh. done.
  - destruct Hp as (d & v & g & E & ? & ? & ?). exists d, v, g. split_and!; try done. apply Hlive; [|done].
    intros o Ho ->. specialize (Hh t' Ho). simpl in Hh. rewrite Z.eqb_refl in Hh. done.
  - intros d v g cl E Hd. rewrite Hconns in Hd. apply lookup_insert_Some in Hd as [[_ ?]|[Hdd Hd]]; [by subst|].
    rewrite Ht' in E. destruct (decide (old = Some t')) as [Ho|]; [|by eapply Hp].
    apply close_attr_Some in E as [_ [? E]]. by eapply Hp.
  - destruct Hp as [Hn (d & v & g & E & Hg)]. split; [by apply Hnone|]. exists d, v, g. split; [|done].
    rewrite Ha, decide_False by (intros ->; simplify_eq; lia). rewrite decide_False; [done|]. intros Ho.
    specialize (Hh c Ho). simpl in Hh. rewrite Z.eqb_refl in Hh. done.
  - destruct Hp as (_ & Hmu2 & _). congruence.
  - intros d v g cl E Hd. rewrite Hconns in Hd. apply lookup_insert_Some in Hd as [[_ ?]|[Hdd Hd]]; [by subst|].
    rewrite Ht' in E. destruct (decide (old = Some t')) as [Ho|]; [|by eapply Hp].
    apply close_attr_Some in E as [_ [? E]]. by eapply Hp.
Qed.

(** *** Closing a connection, with or without removing it *)

Definition closed_from (r r' : ConnectionManager) (c : Z) : Prop :=
  nextDaemonGeneration r' = nextDaemonGeneration r /\ events r' = events r /\ regMu r' = regMu r /\
  forall c', attr r' c' = if decide (c' = c) then close_attr (attr r c') else attr r c'.

Lemma closed_attr r r' c c' d v g cl :
  closed_from r r' c -> attr r' c' = Some (d, v, g, cl) -> exists cl0, attr r c' = Some (d, v, g, cl0) /\ (cl = false -> c' <> c /\ cl0 = false).
Proof.
  intros (_ & _ & _ & Ha). rewrite Ha. destruct (decide (c' = c)) as [->|Hne].
  - intros [-> [cl0 H]]%close_attr_Some. exists cl0. split; [done|]. done.
  - intros H. exists cl. done.
Qed.

Lemma closed_core r r' c :
  core_inv r -> closed_from r r' c ->
  (daemonConns r' = daemonConns r /\ regMu r <> None) \/
  (exists dev ver g, attr r c = Some (dev, ver, g, false) /\ daemonConns r' = delete dev (daemonConns r) /\ daemonConns r !! dev = Some c) ->
  core_inv r'.
Proof.
  intros [A B C D E F] Hcl Hconns. pose proof Hcl as (Hnext & Hev & Hmu & Ha).
  assert (Hsub : forall d c', daemonConns r' !! d = Some c' -> daemonConns r !! d = Some c').
  { intros d c'. destruct Hconns as [[-> _]|(? & ? & ? & _ & -> & _)]; [done|]. by intros [_ ?]%lookup_delete_Some. }
  split; rewrite ?Hev, ?Hnext.
  - intros d c' Hd. destruct (A d c' (Hsub _ _ Hd)) as (v & g & cl & Hc & Hg & Hz). destruct (decide (c' = c)) as [->|Hne].
    + exists v, g, true. rewrite Ha, decide_True, Hc by done. split_and!; [done|done|]. intros Hm.
      destruct Hconns as [[_ Hr]|(dev & ver & g0 & Hc0 & Hr & Hdev)]; [congruence|].
      rewrite Hr in Hd. simplify_eq. by rewrite lookup_delete_eq in Hd.
    + exists v, g, cl. rewrite Ha, decide_False by done. split_and!; [done|done|]. rewrite Hmu. auto.
  - intros c' d v g Hc Hg. destruct (closed_attr _ _ _ _ _ _ _ _ Hcl Hc) as (cl0 & Hc' & H). destruct H as [Hne ->]; [done|].
    pose proof (B _ _ _ _ Hc' Hg) as Hd. destruct Hconns as [[-> _]|(dev & ver & g0 & Hc0 & -> & Hdev)]; [done|].
    rewrite lookup_delete_ne; [done|]. intros ->. congruence.
  - intros c' d v g cl Hc. destruct (closed_attr _ _ _ _ _ _ _ _ Hcl Hc) as (cl0 & Hc' & _). by eapply C.
  - intros c1 c2 d1 v1 l1 d2 v2 l2 g H1 H2. destruct (closed_attr _ _ _ _ _ _ _ _ Hcl H1) as (? & H1' & _).
    destruct (closed_attr _ _ _ _ _ _ _ _ Hcl H2) as (? & H2' & _). by eapply D.
  - done.
  - intros e d g He Hg. destruct (F e d g He Hg) as [F1 F2]. split; [done|]. intros c' v g' cl Hd Hc.
    destruct (closed_attr _ _ _ _ _ _ _ _ Hcl Hc) as (? & Hc' & _). eapply F2; [by apply Hsub|done].
Qed.

Lemma closed_pc r r' c t' p :
  closed_from r r' c -> holds t' p c = false ->
  daemonConns r' = daemonConns r \/ (regMu r = None /\ exists dev, daemonConns r' = delete dev (daemonConns r)) ->
  (forall d v g, attr r c = Some (d, v, g, false) -> g <> 0) ->
  pc_ok r t' p -> pc_ok r' t' p.
Proof.
  intros Hcl Hh Hreg Hz Hp. pose proof Hcl as (Hnext & Hev & Hmu & Ha).
  assert (Hsub : forall d c', daemonConns r' !! d = Some c' -> daemonConns r !! d = Some c').
  { destruct Hreg as [->|(_ & dev & ->)]; [done|]. by intros d c' [_ ?]%lookup_delete_Some. }
  assert (Hnone : attr r t' = None -> attr r' t' = None) by (intros E; rewrite Ha, E; by destruct (decide _)).
  assert (Hzero : forall d v, attr r t' = Some (d, v, 0, false) -> attr r' t' = Some (d, v, 0, false)).
  { intros d v E. rewrite Ha, decide_False; [done|]. intros ->. by eapply Hz. }
  destruct p; cbn [pc_ok] in *; rewrite ?Hev, ?Hmu; try (by apply Hnone);
    try (destruct Hp as (d & v & Hp); exists d, v; by apply Hzero).
  - destruct Hp as (d & v & g & E & ? & ? & ?). exists d, v, g. split_and!; try done. rewrite Ha, decide_False; [done|].
    intros ->. simpl in Hh. by rewrite Z.eqb_refl in Hh.
  - destruct Hp as (d & v & g & E & ? & ? & ?). exists d, v, g. split_and!; try done. rewrite Ha, decide_False; [done|].
    intros ->. simpl in Hh. by rewrite Z.eqb_refl in Hh.
  - intros d v g cl E Hd. destruct (closed_attr _ _ _ _ _ _ _ _ Hcl E) as (? & E' & _). eapply Hp; [done|by apply Hsub].
  - destruct Hp as [Hn (d & v & g & E & Hg)]. split; [by apply Hnone|]. exists d, v, g. split; [|done].
    rewrite Ha, decide_False; [done|]. intros ->. simpl in Hh. by rewrite Z.eqb_refl in Hh.
  - destruct Hp as (Hn & Hm & Hall & Htodo). destruct Hreg as [Hreg|[? _]]; [|congruence]. rewrite Hreg.
    split_and!; [by apply Hnone|done| |done]. intros d c' Hd.
    destruct (Hall d c' Hd) as [?|(v & g & E)]; [by left|]. right. exists v, g. rewrite Ha.
    destruct (decide (c' = c)); [by rewrite E|done].
  - intros d v g cl E Hd. destruct (closed_attr _ _ _ _ _ _ _ _ Hcl E) as (? & E' & _). eapply Hp; [done|by apply Hsub].
Qed.

(** ** Locks *)

Definition mu (r : ConnectionManager) (c : Z) : option Z := dcs r !! c ≫= dcMu.

Lemma mu_set_dc r c d c' : mu (set_dc r c d) c' = if decide (c' = c) then dcMu d else mu r c'.
Proof.
  unfold mu, set_dc. simpl. destruct (decide (c' = c)) as [->|]; [by rewrite lookup_insert_eq|by rewrite lookup_insert_ne].
Qed.

Lemma mu_lock r t c r' : lock_dc r t c = Some r' ->
  mu r c = None /\ forall c', mu r' c' = if decide (c' = c) then Some t else mu r c'.
Proof.
  unfold lock_dc, mu. intros (d & Hd & H)%bind_Some. rewrite Hd. simpl. destruct (dcMu d) eqn:E; simplify_eq.
  split; [done|]. intros c'. apply (mu_set_dc r c (with_mu d (Some t)) c').
Qed.

Lemma mu_unlock r c c' : mu (unlock_dc r c) c' = if decide (c' = c) then None else mu r c'.
Proof.
  unfold unlock_dc. destruct (dcs r !! c) as [d|] eqn:E.
  - rewrite mu_set_dc. done.
  - destruct (decide (c' = c)) as [->|]; [|done]. unfold mu. by rewrite E.
Qed.

Lemma mu_unlock_old r old c' : mu (unlock_old r old) c' = if decide (old = Some c') then None else mu r c'.
Proof.
  destruct old as [c|]; simpl; [|done]. rewrite mu_unlock.
  destruct (decide (c' = c)); destruct (decide (Some c = Some c')); simplify_eq; done.
Qed.

Lemma mu_mark_closed r c c' : mu (mark_closed r c) c' = mu r c'.
Proof.
  unfold mark_closed. destruct (dcs r !! c) as [d|] eqn:E; [|done]. rewrite mu_set_dc.
  destruct (decide (c' = c)) as [->|]; [|done]. unfold mu. by rewrite E.
Qed.

(** What a step may do to a lock: nothing, take a free one, or give up its own. *)
Definition lock_step (r r' : ConnectionManager) (t : Z) (p' : pc) : Prop :=
  forall c, (mu r' c = mu r c \/ (mu r c = None /\ mu r' c = Some t) \/ mu r c = Some t) /\
            (holds t p' c = true -> mu r' c = Some t).

Lemma publish_mu r c old r' p' : publish r c old = (r', p') ->
  (r' = r /\ p' = Done) \/
  (r' = unlock_old r old /\ (p' = AddObserve \/ p' = AddReturn true)) \/
  ((forall c', mu r' c' = mu r c') /\ exists was prev, p' = AddReplace old was prev).
Proof.
  unfold publish. destruct (dcs r !! c) as [dc|] eqn:E; [|intros [= <- <-]; by left].
  destruct (negb _); [intros [= <- <-]; right; left; auto|].
  destruct (match duplicatePolicy r with ReplaceExisting => _ | RejectNew => _ end); intros [= <- <-]; [right; left; auto|].
  right. right. split; [|eauto].
  set (r1 := mkCM _ _ _ _ _ _). assert (Hr1 : forall c', mu r1 c' = mu r c').
  { intros c'. unfold mu, r1. simpl. destruct (decide (c' = c)) as [->|]; [by rewrite lookup_insert_eq, E|by rewrite lookup_insert_ne]. }
  intros c'. destruct old; [by rewrite mu_mark_closed|done].
Qed.

Lemma remove_mu r dev c r' p' : remove_check r dev c = (r', p') ->
  (p' = Done /\ (r' = r \/ r' = unlock_dc r c)) \/ (p' = RemUnlock dev c /\ forall c', mu r' c' = mu r c').
Proof.
  unfold remove_check. destruct (dcs r !! c); [|intros [= <- <-]; auto].
  destruct (_ || _)%bool; intros [= <- <-]; [auto|]. right. split; [done|]. intros c'.
  transitivity (mu (mark_closed r c) c'); [done|apply mu_mark_closed].
Qed.

Lemma notify_mu r c was prev r' : notify r c was prev = Some r' -> dcs r' = dcs r.
Proof.
  unfold notify. intros (dc & _ & H)%bind_Some.
  repeat match type of H with context [if ?b then _ else _] => destruct b end; by simplify_eq.
Qed.

Definition own_ok (t : Z) (p : pc) : Prop :=
  match p with AddCheck old | AddReplace old _ _ => old <> Some t | _ => True end.

Section WithOrder.
Context `{MapOrder}.

Lemma thread_step_locks r t p r' p' :
  thread_step r t p = Some (r', p') -> (forall c, holds t p c = true -> mu r c = Some t) ->
  own_ok t p -> (match p with AddCall _ _ _ => attr r t = None | _ => True end) ->
  lock_step r r' t p' /\ own_ok t p'.
Proof.
  intros Hs Hh Hown Hnew.
  assert (Hsame : forall q, (forall c, mu r' c = mu r c) -> (forall c, holds t q c = true -> holds t p c = true) -> lock_step r r' t q).
  { intros q Hm Hq c. rewrite Hm. split; [by left|]. intros E. apply Hh. auto. }
  assert (Hrel : forall q c0, (forall c, mu r' c = if decide (c = c0) then None else mu r c) -> holds t p c0 = true ->
     (forall c, holds t q c = true -> holds t p c = true /\ c <> c0) -> lock_step r r' t q).
  { intros q c0 Hm H0 Hq c. rewrite Hm. destruct (decide (c = c0)) as [->|Hne].
    - split; [right; right; auto|]. intros E. by destruct (Hq c0 E).
    - split; [by left|]. intros E. apply Hh. by destruct (Hq c E). }
  assert (Htake : forall q c0, mu r c0 = None -> (forall c, mu r' c = if decide (c = c0) then Some t else mu r c) ->
     (forall c, holds t q c = true -> holds t p c = true \/ c = c0) -> lock_step r r' t q).
  { intros q c0 Hn Hm Hq c. rewrite Hm. destruct (decide (c = c0)) as [->|Hne]; [split; auto|].
    split; [by left|]. intros E. destruct (Hq c E); [auto|done]. }
  destruct p; cbn [thread_step TryAddDaemonVersioned RemoveDaemon handle_frame Close] in Hs.
  - simplify_eq. split; [|done]. apply (Htake AddObserve t).
    + unfold attr in Hnew. unfold mu. by destruct (dcs r !! t).
    + intros c. by rewrite mu_set_dc.
    + simpl. intros c Hc. bool_hyps. auto.
  - destruct (reg_free r); [|done]. apply bind_Some in Hs as (dc & _ & [= <- <-]). split; [|done]. by apply Hsame.
  - destruct old as [o|].
    + apply bind_Some in Hs as (r1 & Hl & [= <- <-]). apply mu_lock in Hl as [Hn Hl]. split.
      * apply (Htake _ o); [done..|]. simpl. intros c [?|?]%orb_prop; [auto|]. bool_hyps. simplify_eq. auto.
      * simpl. intros [= ->]. specialize (Hh t). simpl in Hh. rewrite Z.eqb_refl in Hh. rewrite Hh in Hn by done. done.
    + simplify_eq. split; [|done]. apply Hsame; [done|]. simpl. intros c. by rewrite orb_false_r.
  - destruct (reg_free r); [|done]. destruct (publish r t old) as [r1 p1] eqn:E. simplify_eq.
    apply publish_mu in E as [[-> ->]|[[-> Hp]|[Hm (was & prev & ->)]]].
    + split; [by apply Hsame|done].
    + split; [|by destruct Hp as [-> | ->]]. destruct old as [o|].
      * apply (Hrel _ o); [by intros c; rewrite mu_unlock_old; destruct (decide (Some o = Some c)), (decide (c = o)); simplify_eq|..].
        -- simpl. by rewrite bool_decide_true, orb_true_r.
        -- intros c Hc. assert (c = t) as -> by (destruct Hp as [-> | ->]; simpl in Hc; by bool_hyps).
           split; [simpl; by rewrite Z.eqb_refl|]. intros ->. by apply Hown.
      * apply Hsame; [done|]. intros c. destruct Hp as [-> | ->]; simpl; by intros ->.
    + split; [|done]. by apply Hsame.
  - simplify_eq. split; [|done]. set (r1 := emits r _). assert (forall c, mu r1 c = mu r c) as Hr1 by done. destruct old as [o|].
    + apply (Hrel _ o); [intros c; by rewrite mu_unlock_old, Hr1; destruct (decide (Some o = Some c)), (decide (c = o)); simplify_eq|..].
      * simpl. by rewrite bool_decide_true, orb_true_r.
      * simpl. intros c Hc. rewrite Hc. bool_hyps. subst. split; [done|]. intros ->. by apply Hown.
    + apply Hsame; [done|]. simpl. intros c ->. done.
  - apply bind_Some in Hs as (dc & _ & Hs). apply bind_Some in Hs as (r1 & Hn & [= <- <-]). apply notify_mu in Hn.
    split; [|done]. apply Hsame; [|done]. intros c. unfold mu. by rewrite Hn.
  - simplify_eq. split; [|done]. apply (Hrel _ t); [intros c; apply mu_unlock|simpl; by rewrite Z.eqb_refl|done].
  - destruct (reg_free r); [|done]. destruct (daemonConns r !! dev) as [c|]; [|simplify_eq; split; [by apply Hsame|done]].
    apply bind_Some in Hs as (d & _ & Hs). destruct (dcConn d =? conn); simplify_eq; (split; [by apply Hsame|done]).
  - apply bind_Some in Hs as (r1 & Hl & [= <- <-]). apply mu_lock in Hl as [Hn Hl]. split; [|done].
    apply (Htake _ c); [done..|]. simpl. intros c' E. bool_hyps. auto.
  - destruct (reg_free r); [|done]. destruct (remove_check r dev c) as [r1 p1] eqn:E. simplify_eq.
    apply remove_mu in E as [[-> Hr]|[-> Hm]]; (split; [|done]); [|by apply Hsame].
    destruct Hr as [-> | ->]; [by apply Hsame|]. apply (Hrel _ c); [intros c'; apply mu_unlock|simpl; apply Z.eqb_refl|done].
  - simplify_eq. split; [|done]. apply (Hrel _ c); [intros c'; by rewrite mu_unlock|simpl; apply Z.eqb_refl|done].
  - simplify_eq. split; [|done]. by apply Hsame.
  - apply bind_Some in Hs as (r1 & Hl & [= <- <-]). apply mu_lock in Hl as [Hn Hl]. split; [|done].
    apply (Htake _ c); [done..|]. simpl. intros c' E. bool_hyps. auto.
  - destruct (reg_free r); [|done]. simplify_eq. destruct (isLiveDaemonLocked _ c); (split; [|done]); by apply Hsame.
  - apply bind_Some in Hs as (d & _ & [= <- <-]). split; [|done]. by apply Hsame.
  - simplify_eq. split; [|done]. apply (Hrel _ c); [intros c'; apply mu_unlock|simpl; apply Z.eqb_refl|done].
  - destruct (reg_free r); [|done]. simplify_eq. split; [|done]. by apply Hsame.
  - destruct todo as [|c todo]; [simplify_eq; split; [|done]; by apply Hsame|].
    destruct (dcs r !! c) as [d|] eqn:E; [|done]. destruct (dcMu d); simplify_eq. split; [|done].
    apply Hsame; [|done]. intros c'. apply mu_mark_closed.
  - simplify_eq. split; [|done]. by apply Hsame.
  - done.
Qed.
(** ** What each step does to the registry *)

Lemma isLive_attr r c :
  isLiveDaemonLocked r c = true <-> exists dev ver g, attr r c = Some (dev, ver, g, false) /\ daemonConns r !! dev = Some c.
Proof.
  unfold isLiveDaemonLocked, attr. destruct (dcs r !! c) as [d|]; [|naive_solver].
  rewrite andb_true_iff, negb_true_iff, bool_decide_eq_true. split.
  - intros [Hc Hd]. rewrite Hc. eauto 6.
  - intros (dev & ver & g & [= <- <- <- ->] & Hd). done.
Qed.

(** What holds after [t] went from [r] to [r'] and [p']. *)
Definition step_ok (r r' : ConnectionManager) (t : Z) (p' : pc) : Prop :=
  core_inv r' /\ pc_ok r' t p' /\
  forall t' q, t' <> t -> pc_ok r t' q -> (forall c, holds t' q c = true -> mu r c = Some t') -> pc_ok r' t' q.

Lemma same_step r r' t p' : core_inv r -> same_core r r' -> pc_ok r t p' -> step_ok r r' t p'.
Proof.
  intros Hi Hsc Hp. split_and!; [by eapply same_core_inv|by eapply same_core_pc|].
  intros t' q _ Hq _. by eapply same_core_pc.
Qed.

Lemma step_trans r r1 r' t p' :
  step_ok r r1 t p' -> same_core r1 r' -> step_ok r r' t p'.
Proof.
  intros (H1 & H2 & H3) Hsc. split_and!; [by eapply same_core_inv|by eapply same_core_pc|].
  intros t' q Hne Hq Hl. eapply same_core_pc; [done|auto].
Qed.

Lemma emits_none r es t p' :
  core_inv r -> (forall e, e ∈ es -> ev_gen e = None) -> pc_ok r t p' ->
  core_inv (emits r es) /\ pc_ok (emits r es) t p'.
Proof.
  revert r. induction es as [|e es IH]; intros r Hi Hes Hp.
  - assert (same_core r (emits r [])) as Hsc.
    { unfold emits. rewrite app_nil_r. destruct r. by repeat split. }
    split; [by eapply same_core_inv|by eapply same_core_pc].
  - replace (emits r (e :: es)) with (emits (emit r e) es) by (unfold emits, emit; simpl; by rewrite <- app_assoc).
    assert (He : ev_gen e = None) by (apply Hes; by left).
    apply IH; [apply emit_core; [done|congruence]|intros e' ?; apply Hes; by right|].
    apply emit_pc; [done|done|congruence].
Qed.

Lemma emits_step r es t p' :
  core_inv r -> (forall e, e ∈ es -> ev_gen e = None) -> pc_ok r t p' -> step_ok r (emits r es) t p'.
Proof.
  intros Hi Hes Hp. destruct (emits_none r es t p' Hi Hes Hp). split_and!; [done|done|].
  intros t' q _ Hq _. by apply emits_none.
Qed.

Lemma dc_socket_none r c e : e ∈ dc_socket r c -> ev_gen e = None.
Proof. unfold dc_socket. destruct (dcs r !! c); [|by intros ?%elem_of_nil]. intros ->%list_elem_of_singleton. done. Qed.

Lemma emit_as_emits r e : emit r e = emits r [e].
Proof. done. Qed.

Lemma publish_step r t old r' p' :
  publish r t old = (r', p') -> core_inv r -> pc_ok r t (AddCheck old) -> reg_free r = true -> own_ok t (AddCheck old) ->
  0 <= nextDaemonGeneration r < max_uint64 ->
  (forall c, holds t (AddCheck old) c = true -> mu r c = Some t) ->
  (forall o, old = Some o -> pc_ok r o Done) -> step_ok r r' t p'.
Proof.
  intros Hpub Hi Hp Hfree Hown Hnext Hh Hdone. pose proof Hp as (dev & ver & Ht).
  assert (Hmu : regMu r = None) by (unfold reg_free in Hfree; by destruct (regMu r)).
  assert (Hdc : exists dc, dcs r !! t = Some dc /\ dcDevice dc = dev /\ AppVersion dc = ver /\ generation dc = 0 /\ dcClosed dc = false).
  { unfold attr in Ht. destruct (dcs r !! t) as [dc|]; simplify_eq. eauto 7. }
  destruct Hdc as (dc & Hdc & Hdev & Hver & Hgen & Hcl). unfold publish in Hpub. rewrite Hdc in Hpub.
  destruct (bool_decide (daemonConns r !! dcDevice dc = old)) eqn:Ereg; cbn [negb] in Hpub; bool_hyps.
  2: { simplify_eq. apply same_step; [done|apply unlock_old_core|by eauto]. }
  destruct (match duplicatePolicy r with ReplaceExisting => _ | RejectNew => _ end).
  { simplify_eq. apply same_step; [done|apply unlock_old_core|]. intros d v g cl Ha Hd. rewrite Ht in Ha. simplify_eq.
    destruct (c_reg r Hi _ _ Hd) as (? & ? & ? & ? & ? & _). simplify_eq. lia. }
  rewrite Hdev in *. assert (Hu : u64_add (nextDaemonGeneration r) 1 = nextDaemonGeneration r + 1).
  { unfold u64_add, max_uint64 in *. rewrite Z.mod_small; lia. }
  rewrite Hu in Hpub.
  set (r1 := mkCM (<[dev:=t]> (daemonConns r)) (nextDaemonGeneration r + 1)
               (<[t:=with_generation dc (nextDaemonGeneration r + 1)]> (dcs r)) (duplicatePolicy r) (regMu r) (events r)) in *.
  assert (Hr1 : forall c, attr r1 c = if decide (c = t) then Some (dev, ver, nextDaemonGeneration r + 1, false) else attr r c).
  { intros c. unfold attr, r1. simpl. destruct (decide (c = t)) as [->|Hne].
    - rewrite lookup_insert_eq. simpl. by rewrite Hdev, Hver, Hcl.
    - by rewrite lookup_insert_ne. }
  assert (Hpf : published_from r r' t dev ver old).
  { simplify_eq. split_and!; try done; destruct (daemonConns r !! dcDevice dc) as [o|] eqn:Eo; try done;
      try (unfold mark_closed; by destruct (dcs r1 !! o)).
    - intros c. rewrite attr_mark_closed. destruct (decide (c = o)) as [->|Hne].
      + destruct (decide (o = t)) as [->|Hot]; [by destruct Hown|]. rewrite decide_True by done.
        rewrite Hr1, decide_False by done. unfold close_attr. by destruct (attr r o) as [[[[? ?] ?] ?]|].
      + rewrite Hr1. destruct (decide (c = t)); [done|]. by rewrite decide_False by congruence. }
  assert (Hpc : exists was prev, p' = AddReplace old was prev /\ (was = true -> exists o, old = Some o /\ exists v g, attr r o = Some (dev, v, g, false) /\ v = prev)).
  { simplify_eq. do 2 eexists. split; [done|]. destruct (daemonConns r !! dcDevice dc) as [o|] eqn:Eo; [|done]. simpl.
    destruct (c_reg r Hi _ _ Eo) as (v & g & cl & Ha & _). unfold attr in Ha. destruct (dcs r !! o) as [d|] eqn:Ed; [|done].
    intros Hneg. bool_hyps. injection Ha as H1 H2 H3 H4. exists o. split; [done|]. exists v, g. unfold attr. rewrite Ed. split; congruence. }
  destruct Hpc as (was & prev & -> & Hwas).
  split_and!.
  - eapply publish_core; [done|lia|done].
  - exists dev, ver, (nextDaemonGeneration r + 1). pose proof Hpf as (_ & Hold & _ & _ & _ & Hev & _ & Ha).
    split_and!; [by rewrite Ha, decide_True|lia| |].
    + intros Hw. destruct (Hwas Hw) as (o & Ho & v & g & Hao & <-). rewrite Hev. rewrite Ho in Hold. by eapply (Hdone o Ho).
    + rewrite Hev. intros e g' Hin He. destruct (c_max r Hi _ _ _ Hin He) as [? _]. lia.
  - intros t' q Hne Hq Hl. eapply publish_pc; [done|done|done| |done]. intros o Ho.
    destruct (holds t' q o) eqn:E; [|done]. apply Hl in E. rewrite Hh in E; [congruence|]. simpl. subst old. by rewrite bool_decide_true, orb_true_r.
Qed.

(** The notification: [t] is live, so it is made whenever it is due. *)
Lemma notify_step r r' t was prev :
  notify r t was prev = Some r' -> core_inv r -> pc_ok r t (AddNotify was prev) ->
  (forall c, holds t (AddNotify was prev) c = true -> mu r c = Some t) -> step_ok r r' t (AddReturn false).
Proof.
  intros Hn Hi Hp Hh. pose proof Hp as (dev & ver & g & Ha & Hg & Hw & Hev).
  pose proof (c_live r Hi _ _ _ _ Ha Hg) as Hreg.
  assert (Hlive : isLiveDaemonLocked r t = true) by (apply isLive_attr; eauto).
  assert (Hdc : exists dc, dcs r !! t = Some dc /\ dcDevice dc = dev /\ AppVersion dc = ver /\ generation dc = g).
  { unfold attr in Ha. destruct (dcs r !! t) as [dc|]; simplify_eq. eauto 7. }
  destruct Hdc as (dc & Hdc & Hdev & Hver & Hgen). unfold notify in Hn. rewrite Hdc, Hlive in Hn. cbn [mbind option_bind] in Hn.
  assert (Hemit : forall e, ev_gen e = Some (dev, g) -> announce1 dev (announced (events r) dev) e = Some ver ->
            step_ok r (emit r e) t (AddReturn false)).
  { intros e He Hae. split_and!.
    - apply emit_core; [done|]. intros d g' He'. rewrite He in He'. simplify_eq. split; [eauto|]. intros _ e' g' Hin. by apply Hev.
    - intros d v g' cl Ha' Hd. simpl. rewrite announced_snoc. change (attr (emit r e)) with (attr r) in Ha'. by simplify_eq.
    - intros t' q Hne Hq Hl. apply emit_pc; [done|done|]. intros d g' He'. rewrite He in He'. simplify_eq. exists t. split; [done|]. auto. }
  destruct was; cbn [negb] in Hn.
  - case_bool_decide as Hpv; cbn [negb] in Hn.
    + simplify_eq. apply same_step; [done|apply same_core_refl|]. intros d v g' cl Ha' Hd. rewrite Ha in Ha'. simplify_eq. by rewrite Hw.
    + destruct (reg_free r); simplify_eq. apply Hemit; [done|]. simpl. by rewrite decide_True.
  - destruct (reg_free r); simplify_eq. apply Hemit; [done|]. simpl. by rewrite decide_True.
Qed.

Lemma remove_step r t dev c r' p' :
  remove_check r dev c = (r', p') -> core_inv r -> attr r t = None -> reg_free r = true -> mu r c = Some t ->
  step_ok r r' t p'.
Proof.
  intros Hr Hi Hn Hfree Hm. unfold remove_check in Hr. destruct (dcs r !! c) as [d|] eqn:Ed.
  2: { simplify_eq. apply same_step; [done|apply same_core_refl|]. cbn [pc_ok]. congruence. }
  destruct (negb (bool_decide (daemonConns r !! dev = Some c)) || dcClosed d)%bool eqn:Eb; simplify_eq.
  { apply same_step; [done|apply unlock_core|]. cbn [pc_ok]. congruence. }
  bool_hyps. destruct (c_reg r Hi dev c) as (ver & g & cl & Ha & Hg & Hcl); [done|].
  assert (Hmu : regMu r = None) by (unfold reg_free in Hfree; by destruct (regMu r)).
  specialize (Hcl Hmu). subst cl.
  set (r' := set_conns _ _).
  assert (Hcf : closed_from r r' c).
  { assert (Hat : forall c', attr r' c' = attr (mark_closed r c) c') by done.
    split_and!; try (unfold r', set_conns, mark_closed; by rewrite Ed). intros c'. rewrite Hat, attr_mark_closed.
    by destruct (decide (c' = c)) as [->|]. }
  assert (Hd : daemonConns r' = delete dev (daemonConns r)) by done.
  split_and!.
  - eapply closed_core; [done..|]. right. eauto 6.
  - cbn [pc_ok]. destruct Hcf as (_ & _ & _ & Ha'). rewrite Ha', Hn. by destruct (decide _).
  - intros t' q Hne Hq Hl. eapply closed_pc; [exact Hcf| | | |exact Hq].
    + destruct (holds t' q c) eqn:E; [|done]. apply Hl in E. congruence.
    + right. split; [done|]. by exists dev.
    + intros d' v' g' Ha'. rewrite Ha in Ha'. simplify_eq. lia.
Qed.

Lemma close_one_step r t c d todo all :
  dcs r !! c = Some d -> dcMu d = None -> core_inv r -> pc_ok r t (CloseEach (c :: todo) all) ->
  step_ok r (mark_closed r c) t (CloseEach todo all).
Proof.
  intros Hd Hm Hi Hp. pose proof Hp as (Hn & Hmu & Hall & Htodo).
  assert (Hconns : daemonConns (mark_closed r c) = daemonConns r) by (unfold mark_closed; by rewrite Hd).
  assert (Hcf : closed_from r (mark_closed r c) c).
  { split_and!; try (unfold mark_closed; by rewrite Hd). intros c'. rewrite attr_mark_closed.
    by destruct (decide (c' = c)) as [->|]. }
  pose proof Hcf as (_ & _ & Hmu' & Ha).
  split_and!.
  - eapply closed_core; [done..|]. left. split; [done|congruence].
  - cbn [pc_ok]. split_and!; [rewrite Ha, Hn; by destruct (decide _)|congruence| |].
    + rewrite Hconns. intros dev c' Hdev. destruct (c_reg r Hi dev c' Hdev) as (v & g & cl & Hc' & _). rewrite Ha.
      destruct (decide (c' = c)) as [->|Hne].
      * right. exists v, g. by rewrite Hc'.
      * destruct (Hall dev c' Hdev) as [[?|?]%elem_of_cons|?]; [done|by left|by right].
    + intros c' Hc'. rewrite Hconns. apply Htodo. by right.
  - intros t' q Hne Hq Hl. eapply closed_pc; [exact Hcf| |by left| |exact Hq].
    + destruct (holds t' q c) eqn:E; [|done]. apply Hl in E. unfold mu in E. rewrite Hd in E. simpl in E. congruence.
    + intros d' v' g' Ha'. destruct (Htodo c) as [dev Hdev]; [by left|].
      destruct (c_reg r Hi dev c Hdev) as (? & ? & ? & Hc' & ? & _). rewrite Hc' in Ha'. simplify_eq. lia.
Qed.

(** The end of [Close] empties the registry; every connection in it is closed. *)
Lemma close_reset_step r t all :
  core_inv r -> pc_ok r t (CloseEach [] all) ->
  step_ok r (set_regMu (set_conns r ∅) None) t (CloseSockets all).
Proof.
  intros [A B C D E F] (Hn & Hmu & Hall & _). split_and!.
  - split; try done.
    + intros c dev ver g Ha Hg. pose proof (B c dev ver g Ha Hg) as Hd.
      destruct (Hall _ _ Hd) as [?%elem_of_nil|(? & ? & Ha')]; [done|]. change (attr r c = Some (dev, ver, g, false)) in Ha. congruence.
    + intros e dev g He Hg. destruct (F e dev g He Hg). done.
  - done.
  - intros t' q Hne Hq _. destruct q; cbn [pc_ok] in *; try done.
    destruct Hq as (? & ? & _). congruence.
Qed.

Lemma close_call_step r t :
  core_inv r -> attr r t = None -> reg_free r = true ->
  let all := range_values (daemonConns r) in
  step_ok r (set_regMu r (Some t)) t (CloseEach all all).
Proof.
  intros [A B C D E F] Hn Hfree all. assert (Hmu : regMu r = None) by (unfold reg_free in Hfree; by destruct (regMu r)).
  split_and!.
  - split; try done. intros dev c Hd. destruct (A dev c Hd) as (v & g & cl & ? & ? & _). exists v, g, cl. done.
  - cbn [pc_ok]. split_and!; try done.
    + intros dev c Hd. left. apply elem_of_range_values. by exists dev.
    + intros c [dev Hd]%elem_of_range_values. by exists dev.
  - intros t' q Hne Hq _. destruct q; cbn [pc_ok] in *; try done. destruct Hq as (? & ? & _). congruence.
Qed.

Lemma thread_step_core r t p r' p' :
  thread_step r t p = Some (r', p') -> core_inv r -> pc_ok r t p -> own_ok t p ->
  0 <= nextDaemonGeneration r < max_uint64 ->
  (forall c, holds t p c = true -> mu r c = Some t) ->
  (forall o, holds t p o = true -> o <> t -> pc_ok r o Done) ->
  step_ok r r' t p'.
Proof.
  intros Hs Hi Hp Hown Hnext Hh Hdone. destruct p; cbn [thread_step TryAddDaemonVersioned RemoveDaemon handle_frame Close] in Hs.
  - simplify_eq. split_and!; [apply alloc_core; [done|done|lia]|..].
    + cbn [pc_ok]. exists dev, ver. by rewrite alloc_attr, decide_True.
    + intros t' q Hne Hq _. by apply alloc_pc.
  - destruct (reg_free r); [|done]. apply bind_Some in Hs as (dc & _ & [= <- <-]). apply same_step; [done|apply same_core_refl|done].
  - destruct old as [o|]; [|simplify_eq; apply same_step; [done|apply same_core_refl|done]].
    apply bind_Some in Hs as (r1 & Hl & [= <- <-]). apply same_step; [done|by eapply lock_core|done].
  - destruct (reg_free r) eqn:Ef; [|done]. destruct (publish r t old) as [r1 p1] eqn:E. simplify_eq.
    eapply publish_step; try done. intros o ->. apply Hdone; [simpl; by rewrite bool_decide_true, orb_true_r|].
    intros ->. by apply Hown.
  - simplify_eq. eapply step_trans; [|apply unlock_old_core]. apply emits_step; [done| |done].
    destruct old; [apply dc_socket_none|by intros e ?%elem_of_nil].
  - apply bind_Some in Hs as (dc & _ & Hs). apply bind_Some in Hs as (r1 & Hn & [= <- <-]).
    destruct (emits_step r [ELastSeen (dcDevice dc)] t (AddNotify wasOnline previousVersion)) as (H1 & H2 & H3);
      [done|by intros e ->%list_elem_of_singleton|done|].
    destruct (notify_step _ _ _ _ _ Hn H1 H2 Hh) as (H4 & H5 & H6). split_and!; [done|done|].
    intros t' q Hne Hq Hl. apply H6; [done|by apply H3|done].
  - simplify_eq. apply same_step; [done|apply unlock_core|done].
  - destruct (reg_free r); [|done]. cbn [pc_ok] in Hp. destruct (daemonConns r !! dev) as [c|].
    + apply bind_Some in Hs as (d & _ & Hs). destruct (dcConn d =? conn); simplify_eq; apply same_step; try apply same_core_refl; try done. cbn [pc_ok]. congruence.
    + simplify_eq. apply same_step; try apply same_core_refl; try done. cbn [pc_ok]. congruence.
  - apply bind_Some in Hs as (r1 & Hl & [= <- <-]). apply same_step; [done|by eapply lock_core|done].
  - destruct (reg_free r) eqn:Ef; [|done]. destruct (remove_check r dev c) as [r1 p1] eqn:E. simplify_eq.
    eapply remove_step; try done. apply Hh. simpl. apply Z.eqb_refl.
  - simplify_eq. eapply step_trans; [|apply unlock_core]. apply emits_step; [done|apply dc_socket_none|done].
  - simplify_eq. rewrite emit_as_emits. apply emits_step; [done|by intros e ->%list_elem_of_singleton|].
    cbn [pc_ok] in *. congruence.
  - apply bind_Some in Hs as (r1 & Hl & [= <- <-]). apply same_step; [done|by eapply lock_core|done].
  - destruct (reg_free r) eqn:Ef; [|done]. simplify_eq. apply same_step; [done|apply same_core_refl|]. destruct (isLiveDaemonLocked _ c) eqn:El; [|done].
    apply isLive_attr in El as (dev & ver & g & Ha & Hd). cbn [pc_ok] in *. split; [done|]. exists dev, ver, g. split; [done|].
    destruct (c_reg _ Hi _ _ Hd) as (? & ? & ? & ? & ? & _). by simplify_eq.
  - apply bind_Some in Hs as (d & Hd & [= <- <-]). destruct Hp as [Hn (dev & ver & g & Ha & Hg)].
    pose proof (c_live r Hi _ _ _ _ Ha Hg) as Hreg.
    assert (dcDevice d = dev /\ generation d = g) as [-> ->] by (unfold attr in Ha; rewrite Hd in Ha; by simplify_eq).
    split_and!.
    + apply emit_core; [done|]. intros dv g' [= <- <-]. split; [eauto|done].
    + done.
    + intros t' q Hne Hq Hl. apply emit_pc; [done|done|]. intros dv g' [= <- <-]. exists c. split; [done|].
      intros [?|Hadd]; [done|]. intros ->. assert (mu r t' = Some t) as Hm by (apply Hh; simpl; apply Z.eqb_refl).
      rewrite Hl in Hm; [congruence|]. destruct q; try done; simpl; by rewrite Z.eqb_refl.
  - simplify_eq. apply same_step; [done|apply unlock_core|]. cbn [pc_ok] in *. congruence.
  - destruct (reg_free r) eqn:Ef; [|done]. simplify_eq. by apply close_call_step.
  - destruct todo as [|c todo]; [simplify_eq; by apply close_reset_step|].
    destruct (dcs r !! c) as [d|] eqn:Ed; [|done]. destruct (dcMu d) eqn:Em; simplify_eq. by eapply close_one_step.
  - simplify_eq. apply emits_step; [done| |cbn [pc_ok] in *; congruence].
    intros e (c & He & _)%list_elem_of_bind. by eapply dc_socket_none.
  - done.
Qed.

(** ** The system invariant *)

Record inv (w : world) : Prop := {
  v_core : core_inv (reg w);
  v_locks : forall t p c, threads w !! t = Some p -> holds t p c = true -> mu (reg w) c = Some t;
  v_own : forall t p, threads w !! t = Some p -> own_ok t p;
  v_pc : forall t p, threads w !! t = Some p -> pc_ok (reg w) t p;
  v_none : forall t, threads w !! t = None -> attr (reg w) t = None
}.

Lemma thread_step_next r t p r' p' :
  thread_step r t p = Some (r', p') ->
  nextDaemonGeneration r' = nextDaemonGeneration r \/ nextDaemonGeneration r' = u64_add (nextDaemonGeneration r) 1.
Proof.
  assert (Hu : forall r c, nextDaemonGeneration (unlock_dc r c) = nextDaemonGeneration r) by (intros r0 c; unfold unlock_dc; by destruct (dcs r0 !! c)).
  assert (Huo : forall r o, nextDaemonGeneration (unlock_old r o) = nextDaemonGeneration r) by (intros r0 [o|]; [apply Hu|done]).
  assert (Hm : forall r c, nextDaemonGeneration (mark_closed r c) = nextDaemonGeneration r) by (intros r0 c; unfold mark_closed; by destruct (dcs r0 !! c)).
  assert (Hl : forall r c r1, lock_dc r t c = Some r1 -> nextDaemonGeneration r1 = nextDaemonGeneration r).
  { intros r0 c r1. unfold lock_dc. intros (d & _ & E)%bind_Some. by destruct (dcMu d); simplify_eq. }
  intros Hs. destruct p; cbn [thread_step TryAddDaemonVersioned RemoveDaemon handle_frame Close] in Hs.
  all: try (by simplify_eq; left; rewrite ?Hu, ?Huo).
  all: try (destruct (reg_free r) eqn:Ef; [|done]).
  all: try (apply bind_Some in Hs as (? & Hx & Hs); try apply Hl in Hx; simplify_eq; by left).
  - destruct old; [apply bind_Some in Hs as (? & Hx & Hs); apply Hl in Hx|]; simplify_eq; by left.
  - destruct (publish r t old) as [r1 p1] eqn:E. simplify_eq. unfold publish in E. destruct (dcs r !! t); [|simplify_eq; by left].
    destruct (negb _); [simplify_eq; left; by rewrite Huo|].
    destruct (match duplicatePolicy r with ReplaceExisting => _ | RejectNew => _ end); simplify_eq; [left; by rewrite Huo|].
    right. destruct old; [by rewrite Hm|done].
  - apply bind_Some in Hs as (dc & _ & Hs). apply bind_Some in Hs as (r1 & Hn & [= <- <-]). left.
    unfold notify in Hn. apply bind_Some in Hn as (d & _ & Hn).
    repeat match type of Hn with context [if ?b then _ else _] => destruct b end; by simplify_eq.
  - destruct (daemonConns r !! dev); [apply bind_Some in Hs as (d & _ & Hs); destruct (dcConn d =? conn)|]; simplify_eq; by left.
  - destruct (remove_check r dev c) as [r1 p1] eqn:E. simplify_eq. unfold remove_check in E.
    destruct (dcs r !! c); [|simplify_eq; by left]. left. destruct (_ || _)%bool; simplify_eq; [apply Hu|]. simpl. apply Hm.
  - simplify_eq. by left.
  - simplify_eq. by left.
  - destruct todo as [|c todo]; [simplify_eq; by left|]. destruct (dcs r !! c) as [d|]; [|done].
    destruct (dcMu d); simplify_eq. left. apply Hm.
Qed.

(** A thread owning a lock is the only one that can be before its return. *)
Lemma owner_done w t p o :
  inv w -> threads w !! t = Some p -> holds t p o = true -> o <> t -> pc_ok (reg w) o Done.
Proof.
  intros Hi Ht Hh Hne. pose proof (v_locks w Hi _ _ _ Ht Hh) as Hm.
  destruct (threads w !! o) as [q|] eqn:Eq.
  - pose proof (v_pc w Hi _ _ Eq) as Hq.
    assert (holds o q o = true -> False) as Hno by (intros E; apply (v_locks w Hi _ _ _ Eq) in E; congruence).
    destruct q; cbn [pc_ok] in *; try (exfalso; apply Hno; simpl; by rewrite Z.eqb_refl); try congruence; try done;
      intros dv v g cl Ha; destruct Hq; congruence.
  - apply (v_none w Hi) in Eq. cbn [pc_ok]. congruence.
Qed.

Lemma act_inv w a w' :
  act w a = Some w' -> inv w -> 0 <= nextDaemonGeneration (reg w) < max_uint64 ->
  inv w' /\ nextDaemonGeneration (reg w) <= nextDaemonGeneration (reg w') <= nextDaemonGeneration (reg w) + 1.
Proof.
  intros Ha Hi Hnext. destruct a as [t p|t]; cbn [act] in Ha.
  - destruct (threads w !! t) eqn:Et; [done|]. destruct (is_call p) eqn:Ec; [|done]. simplify_eq. split; [|simpl; lia].
    pose proof (v_none w Hi t Et) as Hn. split; cbn [reg threads]; [apply Hi|..].
    + intros t' q c [[<- <-]|[_ H']]%lookup_insert_Some; [by destruct p|by eapply (v_locks w Hi)].
    + intros t' q [[<- <-]|[_ H']]%lookup_insert_Some; [by destruct p|by eapply (v_own w Hi)].
    + intros t' q [[<- <-]|[_ H']]%lookup_insert_Some; [by destruct p|by eapply (v_pc w Hi)].
    + intros t' [H' _]%lookup_insert_None. by apply (v_none w Hi).
  - apply bind_Some in Ha as (p & Ht & Ha). apply bind_Some in Ha as ([r' p'] & Hs & [= <-]). cbn [reg].
    assert (Hh : forall c, holds t p c = true -> mu (reg w) c = Some t) by (intros c; by eapply (v_locks w Hi)).
    pose proof (v_pc w Hi _ _ Ht) as Hp. pose proof (v_own w Hi _ _ Ht) as Hown.
    destruct (thread_step_locks _ _ _ _ _ Hs Hh Hown) as [Hl Hown'].
    { by destruct p. }
    destruct (thread_step_core _ _ _ _ _ Hs) as (Hc & Hp' & Ho); try done; [apply Hi|..].
    { intros o ? ?. by eapply owner_done. }
    split.
    2: { apply thread_step_next in Hs as [-> | ->]; [lia|]. unfold u64_add, max_uint64 in *. rewrite Z.mod_small; lia. }
    split; cbn [reg threads]; [done|..].
    + intros t' q c [[<- <-]|[Hne H']]%lookup_insert_Some Hq; [by apply Hl|].
      pose proof (v_locks w Hi _ _ _ H' Hq) as Hm. destruct (Hl c) as [[E|[[E _]|E]] _]; congruence.
    + intros t' q [[<- <-]|[_ H']]%lookup_insert_Some; [done|by eapply (v_own w Hi)].
    + intros t' q [[<- <-]|[Hne H']]%lookup_insert_Some; [done|]. apply Ho; [done|by eapply (v_pc w Hi)|].
      intros c. by eapply (v_locks w Hi).
    + intros t' H'. apply lookup_insert_None in H' as [H' Hne]. 
      apply (Ho t' (RemCall "" 0)); [done|by apply (v_none w Hi)|done].
Qed.

Lemma initial_inv policy : inv (initial policy).
Proof.
  split; try done. split; try done.
  - simpl. apply ordered_nil.
  - intros e dev g ?%elem_of_nil. done.
Qed.

Lemma daemons_reachable_inv n policy w :
  nsteps sys_step n (initial policy) w -> Z.of_nat n < max_uint64 ->
  inv w /\ 0 <= nextDaemonGeneration (reg w) <= Z.of_nat n.
Proof.
  revert w. induction n as [|n IH]; intros w Hn Hlt.
  - inversion Hn; subst. split; [apply initial_inv|simpl; lia].
  - apply nsteps_inv_r in Hn as (w1 & Hn & a & Ha). destruct (IH w1 Hn) as [Hi Hb]; [lia|].
    destruct (act_inv _ _ _ Ha Hi) as [Hi' Hb']; [lia|]. split; [done|lia].
Qed.


(** a device that is online and whose connect call has returned was last
    announced to the phones with exactly the version of its live connection:
    neither a first connect nor a version change is ever swallowed by a
    concurrent replacement. *)
Theorem online_version_announced n policy w dev c d :
  nsteps sys_step n (initial policy) w -> Z.of_nat n < max_uint64 ->
  daemonConns (reg w) !! dev = Some c -> dcs (reg w) !! c = Some d -> threads w !! c = Some Done ->
  announced (events (reg w)) dev = Some (AppVersion d) /\ GetDaemonVersion (reg w) dev = AppVersion d.
Proof.
  intros Hn Hlt Hd Hc Hdone. destruct (daemons_reachable_inv n policy w Hn Hlt) as [Hi _].
  destruct (c_reg _ (v_core w Hi) dev c Hd) as (v & g & cl & Ha & _).
  pose proof (v_pc w Hi c Done Hdone _ _ _ _ Ha Hd) as Hann. unfold attr in Ha. rewrite Hc in Ha. injection Ha as _ Hv _ _.
  split; [by rewrite Hann, Hv|]. unfold GetDaemonVersion. rewrite Hd. simpl. by rewrite Hc.
Qed.

(** ** Shutdown against a connect in progress *)

Definition stuck_pair (w : world) (t1 t2 : Z) : Prop :=
  exists c todo all, threads w !! t1 = Some (AddCheck (Some c)) /\ threads w !! t2 = Some (CloseEach (c :: todo) all) /\
    regMu (reg w) = Some t2.

Lemma stuck_step w a w' t1 t2 :
  act w a = Some w' -> inv w -> stuck_pair w t1 t2 ->
  threads w' !! t1 = threads w !! t1 /\ threads w' !! t2 = threads w !! t2 /\ regMu (reg w') = regMu (reg w).
Proof.
  intros Ha Hi (c & todo & all & H1 & H2 & Hmu). destruct a as [t p|t]; cbn [act] in Ha.
  - destruct (threads w !! t) eqn:Et; [done|]. destruct (is_call p); simplify_eq. cbn [reg threads].
    rewrite !lookup_insert_ne by congruence. done.
  - apply bind_Some in Ha as (p & Ht & Ha). apply bind_Some in Ha as ([r' p'] & Hs & [= <-]). cbn [reg threads].
    assert (Hbusy : reg_free (reg w) = false) by (unfold reg_free; by rewrite Hmu).
    assert (Hm : mu (reg w) c = Some t1).
    { eapply (v_locks w Hi); [exact H1|]. simpl. by rewrite bool_decide_true, orb_true_r. }
    assert (t <> t1) as N1.
    { intros ->. simplify_eq. cbn [thread_step TryAddDaemonVersioned RemoveDaemon handle_frame Close] in Hs. by rewrite Hbusy in Hs. }
    assert (t <> t2) as N2.
    { intros ->. simplify_eq. cbn [thread_step TryAddDaemonVersioned RemoveDaemon handle_frame Close] in Hs. unfold mu in Hm. destruct (dcs (reg w) !! c) as [d|]; [|done].
      simpl in Hm. by rewrite Hm in Hs. }
    rewrite !lookup_insert_ne by done. split_and!; try done.
    assert (Hnoclose : forall todo all, p <> CloseEach todo all).
    { intros td al ->. pose proof (v_pc w Hi _ _ Ht) as (_ & E & _). congruence. }
    assert (Hu : forall r c, regMu (unlock_dc r c) = regMu r) by (intros r0 c0; unfold unlock_dc; by destruct (dcs r0 !! c0)).
    assert (Huo : forall r o, regMu (unlock_old r o) = regMu r) by (intros r0 [o|]; [apply Hu|done]).
    assert (Hl : forall r c r1, lock_dc r t c = Some r1 -> regMu r1 = regMu r).
    { intros r0 c0 r1. unfold lock_dc. intros (d & _ & E)%bind_Some. by destruct (dcMu d); simplify_eq. }
    destruct p; cbn [thread_step TryAddDaemonVersioned RemoveDaemon handle_frame Close] in Hs; rewrite ?Hbusy in Hs; try done; try (by simplify_eq; rewrite ?Hu, ?Huo).
    + destruct old; [|by simplify_eq]. apply bind_Some in Hs as (r1 & Hx & [= <- <-]). by eapply Hl.
    + apply bind_Some in Hs as (dc & _ & Hs). apply bind_Some in Hs as (r1 & Hn & [= <- <-]). unfold notify in Hn.
      apply bind_Some in Hn as (d & _ & Hn).
      repeat match type of Hn with context [if ?b then _ else _] => destruct b end; by simplify_eq.
    + apply bind_Some in Hs as (r1 & Hx & [= <- <-]). by eapply Hl.
    + apply bind_Some in Hs as (r1 & Hx & [= <- <-]). by eapply Hl.
    + apply bind_Some in Hs as (d & _ & [= <- <-]). done.
    + by destruct (Hnoclose todo0 all0).
Qed.

Lemma stuck_forever n w w' t1 t2 :
  nsteps sys_step n w w' -> inv w -> stuck_pair w t1 t2 ->
  0 <= nextDaemonGeneration (reg w) -> nextDaemonGeneration (reg w) + Z.of_nat n < max_uint64 ->
  threads w' !! t1 = threads w !! t1 /\ threads w' !! t2 = threads w !! t2.
Proof.
  revert w. induction n as [|n IH]; intros w Hn Hi Hs H0 Hlt.
  - by inversion Hn; subst.
  - inversion Hn as [|? ? w1 ? [a Ha] Hn']; subst. destruct (stuck_step _ _ _ _ _ Ha Hi Hs) as (E1 & E2 & E3).
    destruct (act_inv _ _ _ Ha Hi) as [Hi' Hb]; [lia|]. destruct (IH w1) as [F1 F2]; [done|done| |lia|lia|].
    + destruct Hs as (c & todo & all & ? & ? & ?). exists c, todo, all. split_and!; congruence.
    + by rewrite F1, F2.
Qed.

End WithOrder.

(** ** Concrete schedules *)

Definition mo : MapOrder := canonical_order.

Definition runs (t : Z) (n : nat) : list action := replicate n (Run t).

Lemma run_nsteps `{MapOrder} l w w' : run w l = Some w' -> nsteps sys_step (length l) w w'.
Proof.
  revert w. induction l as [|a l IH]; intros w; cbn [run length].
  - intros [= ->]. constructor.
  - intros (w1 & Ha & Hr)%bind_Some. econstructor; [by exists a|by apply IH].
Qed.

(** Device [d] connects as thread 1 with version 1.0 and is replaced by thread 2
    with version 1.1 while a frame of the first generation is waiting. *)
Definition replace_schedule : list action :=
  Spawn 1 (AddCall "d" 101 "1.0") :: runs 1 7 ++
  [Spawn 2 (AddCall "d" 102 "1.1"); Spawn 3 (FrameCall 1)] ++ runs 2 3 ++ runs 3 0 ++ runs 2 2 ++ runs 3 2 ++ runs 2 2 ++ runs 3 1.

Definition final (l : list action) : world := default (initial ReplaceExisting) (run (H := mo) (initial ReplaceExisting) l).

Lemma final_reachable l : is_Some (run (H := mo) (initial ReplaceExisting) l) ->
  nsteps (sys_step (H := mo)) (length l) (initial ReplaceExisting) (final l).
Proof. intros [w Hw]. unfold final. rewrite Hw. simpl. by apply run_nsteps. Qed.

Lemma is_some_b_spec {A} (o : option A) : is_some_b o = true -> is_Some o.
Proof. destruct o; [eauto|done]. Qed.


Lemma online_version_announced_witness :
  announced (events (reg (final replace_schedule))) "d" = Some "1.1".
Proof.
  refine (proj1 (online_version_announced (H := mo) (length replace_schedule) ReplaceExisting (final replace_schedule) "d" 2
    (mkDC "d" 102 "1.1" 2 false None) _ _ _ _ _)).
  - apply final_reachable, is_some_b_spec. by_vm.
  - by vm_compute.
  - by_vm.
  - by_vm.
  - by_vm.
Defined.

(** The offline notification is made after the locks are released, so it can
    come after the online notification of the next connection: everything is
    done, the device is online, and the phones were last told it is offline. *)
Definition offline_schedule : list action :=
  Spawn 1 (AddCall "d" 101 "1.0") :: runs 1 7 ++ Spawn 2 (RemCall "d" 101) :: runs 2 4 ++
  Spawn 3 (AddCall "d" 103 "1.0") :: runs 3 7 ++ runs 2 1.

Definition all_done (w : world) : bool :=
  forallb (fun kv => match kv.2 with Done => true | _ => false end) (map_to_list (threads w)).

(** there is a reachable interleaving of a connect, the removal of that
    connection and a reconnect after which every call has returned and the
    device is online, but the last event its phones were sent is
    [device_offline]. *)
Theorem offline_event_can_be_last :
  exists w, nsteps (sys_step (H := mo)) (length offline_schedule) (initial ReplaceExisting) w /\
    all_done w = true /\ IsDaemonOnline (reg w) "d" = true /\ last (events (reg w)) = Some (EDown "d").
Proof.
  exists (final offline_schedule). split_and!; [|by_vm..]. apply final_reachable, is_some_b_spec. by_vm.
Qed.

(** [Close] takes [cm.mu] and then each connection's lock; a connect holds the
    old connection's lock when it asks for [cm.mu]. *)
Definition deadlock_schedule : list action :=
  Spawn 1 (AddCall "d" 101 "1.0") :: runs 1 7 ++ Spawn 2 (AddCall "d" 102 "1.0") :: runs 2 3 ++ Spawn 3 CloseCall :: runs 3 1.

(** there is a reachable interleaving of two connects and [Close] after
    which, whatever runs next and for as long as the counters last, the connect
    waits for [cm.mu] and [Close] for the connection's lock: neither returns. *)
Theorem close_can_deadlock :
  exists w, nsteps (sys_step (H := mo)) (length deadlock_schedule) (initial ReplaceExisting) w /\
    forall n w', nsteps (sys_step (H := mo)) n w w' -> Z.of_nat n < max_int64 ->
      threads w' !! 2 = Some (AddCheck (Some 1)) /\ threads w' !! 3 = Some (CloseEach [1] [1]).
Proof.
  exists (final deadlock_schedule).
  assert (Hr : nsteps (sys_step (H := mo)) (length deadlock_schedule) (initial ReplaceExisting) (final deadlock_schedule)).
  { apply final_reachable, is_some_b_spec. by_vm. }
  assert (H2 : threads (final deadlock_schedule) !! 2 = Some (AddCheck (Some 1))) by by_vm.
  assert (H3 : threads (final deadlock_schedule) !! 3 = Some (CloseEach [1] [1])) by by_vm.
  split; [done|]. intros n w' Hn Hlt.
  destruct (daemons_reachable_inv (H := mo) _ _ _ Hr) as [Hi Hb]; [by vm_compute|].
  destruct (stuck_forever (H := mo) n _ _ 2 3 Hn Hi) as [E2 E3].
  - exists 1, [], [1]. split_and!; [done|done|by_vm].
  - lia.
  - change (Z.of_nat (length deadlock_schedule)) with 14 in Hb. unfold max_int64, max_uint64 in *. lia.
  - rewrite E2, E3. split; [exact H2|exact H3].
Qed.

End DaemonsSpec.
