(* ===== verification/RelaySpec.v ===== *)
(** * Correctness of the relay's handlers *)

From stdpp Require Import base tactics list gmap strings relations.
From Stdlib Require Import Ascii ZArith Lia.
From S2P Require Import Prelude GoStrings Json PromptStore PromptStoreSpec Protocol RelayInput Relay.

(** Encoding a prompt frame gives a non-empty text that decodes, if at all, to
    a prompt frame, without a payload if it had none. *)
Class RelayCodecLaws `{RelayCodec} : Prop := {
  marshal_prompt : forall m w, marshal_message m = Ok w -> msgType m = MsgSendPrompt ->
    w <> "" /\ forall m', unmarshal_message w = Some m' ->
      msgType m' = MsgSendPrompt /\ (Payload m = None -> Payload m' = None)
}.

(** ** What a handler may do *)

(** A command whose acceptance is durable and, unless sealed, whose history row
    exists. *)
Definition settled (r : relay) (dev id session : string) : Prop :=
  exists c, commands r !! (dev, id) = Some c /\ Status c = Accepted /\ PromptStore.SessionID c = session /\
    (SealedEnvelopeJSON c = "" -> is_Some (messages r !! (id, dev, session))).

Definition carried_id (m : NekoMessage) : option string := as_string (p ← Payload m; p !! "client_msg_id").

Definition frame_ok (r : relay) (f : string * NekoMessage) : Prop :=
  (msgType f.2 = MsgPromptCommitted -> settled r f.1 (ClientMsgID f.2) (SessionID f.2)) /\
  (msgType f.2 = MsgPromptSent -> exists id, carried_id f.2 = Some id /\ settled r f.1 id (SessionID f.2)).

Definition plain (t : MessageType) : bool := match t with MsgPromptCommitted | MsgPromptSent => false | _ => true end.

Lemma plain_ok r dev m : plain (msgType m) = true -> frame_ok r (dev, m).
Proof. intros H. split; simpl; intros E; by rewrite E in H. Qed.

Section Spec.
Context `{RC : RelayCodec} `{RL : !RelayCodecLaws} `{NU : NetUrl}.

(** The stored envelope of a row, if any, is an encoded prompt frame. *)
Definition env_row (c : PromptCommand) : Prop :=
  SealedEnvelopeJSON c = "" \/ exists m, marshal_message m = Ok (SealedEnvelopeJSON c) /\ msgType m = MsgSendPrompt.

Definition sound (r : relay) : Prop :=
  table_inv (commands r) /\ forall k c, commands r !! k = Some c -> env_row c.

Record ext (r r' : relay) : Prop := {
  e_mode : mode r' = mode r;
  e_cmds : rtc stmt_step (commands r) (commands r');
  e_msgs : forall k, is_Some (messages r !! k) -> is_Some (messages r' !! k);
  e_daemon : exists l, to_daemon r' = to_daemon r ++ l /\ Forall (frame_ok r') l;
  e_phones : exists l, to_phones r' = to_phones r ++ l /\ Forall (frame_ok r') l
}.

Definition good (r r' : relay) : Prop := sound r -> sound r' /\ ext r r'.

Lemma settled_mono r r' dev id session :
  table_inv (commands r) -> rtc stmt_step (commands r) (commands r') ->
  (forall k, is_Some (messages r !! k) -> is_Some (messages r' !! k)) ->
  settled r dev id session -> settled r' dev id session.
Proof.
  intros Ht Hc Hm (c & Hk & Hs & He & Hsaved).
  destruct (rows_keep _ _ _ _ Ht Hc Hk) as (c' & Hk' & Hp & _ & Ha & _).
  unfold same_payload in Hp. bool_hyps. destruct (Ha Hs) as [Hs' _].
  exists c'. split_and!; [done|done|congruence|]. intros E. apply Hm, Hsaved. congruence.
Qed.

Lemma frame_ok_mono r r' f :
  table_inv (commands r) -> rtc stmt_step (commands r) (commands r') ->
  (forall k, is_Some (messages r !! k) -> is_Some (messages r' !! k)) ->
  frame_ok r f -> frame_ok r' f.
Proof.
  intros Ht Hc Hm [H1 H2]. split; intros E.
  - eapply settled_mono; eauto.
  - destruct (H2 E) as (id & ? & ?). exists id. split; [done|]. eapply settled_mono; eauto.
Qed.

Lemma good_refl r : good r r.
Proof.
  intros Hs. split; [done|]. split; try done; exists []; by rewrite app_nil_r.
Qed.

Lemma good_trans r1 r2 r3 : good r1 r2 -> good r2 r3 -> good r1 r3.
Proof.
  intros H12 H23 Hs1. destruct (H12 Hs1) as [Hs2 [M1 C1 G1 (ld1 & D1 & FD1) (lp1 & P1 & FP1)]].
  destruct (H23 Hs2) as [Hs3 [M2 C2 G2 (ld2 & D2 & FD2) (lp2 & P2 & FP2)]].
  split; [done|]. split; [congruence|by etrans|auto| |].
  - exists (ld1 ++ ld2). rewrite D2, D1, <- app_assoc. split; [done|]. apply Forall_app. split; [|done].
    eapply Forall_impl; [exact FD1|]. intros f. by apply frame_ok_mono; [apply Hs2|..].
  - exists (lp1 ++ lp2). rewrite P2, P1, <- app_assoc. split; [done|]. apply Forall_app. split; [|done].
    eapply Forall_impl; [exact FP1|]. intros f. by apply frame_ok_mono; [apply Hs2|..].
Qed.

Lemma good_deliver r dev m : (sound r -> frame_ok r (dev, m)) -> good r (deliver r dev m).
Proof.
  intros Hf Hs. split; [done|]. split; try done; [exists [(dev, m)]|exists []; by rewrite app_nil_r].
  split; [done|]. apply Forall_singleton. by apply Hf.
Qed.

Lemma good_broadcast r dev m : (sound r -> frame_ok r (dev, m)) -> good r (BroadcastToPhones r dev m).
Proof.
  intros Hf Hs. split; [done|]. split; try done; [exists []; by rewrite app_nil_r|exists [(dev, m)]].
  split; [done|]. apply Forall_singleton. by apply Hf.
Qed.

Lemma good_send o dev m r : (sound r -> frame_ok r (dev, m)) -> good r (SendToDaemon o dev m r).2.
Proof.
  intros Hf. destruct o as [| |[]]; simpl; [by apply good_deliver|apply good_refl|by apply good_deliver|apply good_refl].
Qed.

Lemma good_save err dev session m r : good r (SaveMessage err dev session m r).2.
Proof.
  destruct err; simpl; [apply good_refl|]. intros Hs. split; [done|].
  split; try done; try (exists []; by rewrite app_nil_r).
  intros k Hk. simpl. destruct (decide ((smID m, dev, session) = k)) as [->|]; [rewrite lookup_insert_eq; eauto|by rewrite lookup_insert_ne].
Qed.

Lemma good_push r d s t b : good r (sendPushNotification r d s t b).
Proof. intros Hs. split; [done|]. split; try done; exists []; by rewrite app_nil_r. Qed.

Lemma good_catalog r dev c : good r (set_catalog r dev c).
Proof. intros Hs. split; [done|]. split; try done; exists []; by rewrite app_nil_r. Qed.

Lemma good_attention r a : good r (set_attention r a).
Proof. intros Hs. split; [done|]. split; try done; exists []; by rewrite app_nil_r. Qed.

Lemma good_devices err now dev n r : good r (UpdateDeviceSessions err now dev n r).
Proof. destruct err; [apply good_refl|]. intros Hs. split; [done|]. split; try done; exists []; by rewrite app_nil_r. Qed.

(** A store call that adds no row. *)
Lemma good_store_update {A} (m : M promptTable A) r x r' :
  run_store m r = (x, r') ->
  (rtc stmt_step (commands r) (commands r')) ->
  (forall k c', commands r' !! k = Some c' -> commands r !! k = None -> env_row c') -> good r r'.
Proof.
  unfold run_store. destruct (m (commands r)) as [y t] eqn:E. intros [= <- <-] Hr Hnew [Hs Henv].
  assert (Hs' : table_inv t).
  { eapply rtc_invariant; [|exact Hr|exact Hs]. intros; by eapply table_inv_step. }
  split.
  - split; [done|]. simpl in *. intros k c' Hk. destruct (commands r !! k) as [c|] eqn:Ek; [|by eapply Hnew].
    destruct (rows_keep _ _ _ _ Hs Hr Ek) as (c2 & Hk2 & Hp & _). simplify_eq. unfold same_payload in Hp. bool_hyps.
    unfold env_row. destruct (Henv k c Ek) as [He|(m0 & He & Ht)]; [left|right; exists m0]; split_and?; congruence.
  - split; try done; exists []; by rewrite app_nil_r.
Qed.

Lemma update_where_none (k : string * string) (guard : PromptCommand -> bool) (upd : PromptCommand -> PromptCommand) (t : promptTable) (k' : string * string) :
  t !! k' = None -> (update_where k guard upd t).2 !! k' = None.
Proof. intros E. rewrite update_where_lookup, E. by case_bool_decide. Qed.

Lemma fail_stmt_none (now : Z) (d m msg o : string) (b : bool) (t : promptTable) (k' : string * string) : t !! k' = None -> (fail_stmt now d m msg o b t).2 !! k' = None.
Proof. unfold fail_stmt. case_bool_decide; apply update_where_none. Qed.

(** The transitions, through [run_store]. *)
Lemma good_transition f d m stmt r x r' :
  (forall t, stmt_step t (stmt t).2) -> (forall t k, t !! k = None -> (stmt t).2 !! k = None) ->
  run_store (promptTransitionResult f d m stmt) r = (x, r') ->
  good r r' /\ forall c b, x = Ok (c, b) -> commands r' !! (d, m) = Some c.
Proof.
  intros Hs Hn Hrun. pose proof Hrun as Hrun'. unfold run_store in Hrun'.
  destruct (promptTransitionResult f d m stmt (commands r)) as [y t] eqn:E. injection Hrun' as <- <-.
  pose proof (transition_table _ _ _ _ _ _ _ E) as Ht. apply transition_steps in E as [Hr Hc]; [|done]. split.
  - eapply good_store_update; [exact Hrun|exact Hr|]. simpl. intros k c' Hk Hnone.
    destruct Ht as [-> | ->]; [congruence|]. by rewrite Hn in Hk.
  - intros c b ->. by destruct (Hc c b eq_refl).
Qed.

Lemma good_mark_failed f now d m msg o b r x r' :
  run_store (MarkPromptFailed f now d m msg o b) r = (x, r') ->
  good r r' /\ forall c ch, x = Ok (c, ch) -> commands r' !! (d, m) = Some c.
Proof. apply good_transition; [intros; apply StmtFailed|intros; by apply fail_stmt_none]. Qed.

Lemma good_mark_accepted f now d m r x r' :
  run_store (MarkPromptAccepted f now d m) r = (x, r') ->
  good r r' /\ forall c ch, x = Ok (c, ch) -> commands r' !! (d, m) = Some c.
Proof. apply good_transition; [intros; apply StmtAccept|intros; by apply update_where_none]. Qed.

Lemma good_mark_forwarded f now d m r x r' :
  run_store (MarkPromptForwarded f now d m) r = (x, r') -> good r r'.
Proof. intros Hr. eapply good_transition in Hr as [? _]; [done|intros; apply StmtForward|intros; by apply update_where_none]. Qed.

Lemma good_mark_committed f now d m r x r' :
  run_store (MarkPromptCommitted f now d m) r = (x, r') -> good r r'.
Proof.
  intros Hrun. pose proof Hrun as Hrun'. unfold run_store in Hrun'.
  destruct (MarkPromptCommitted f now d m (commands r)) as [y t] eqn:E. injection Hrun' as <- <-.
  pose proof (commit_table _ _ _ _ _ _ _ E) as Ht. apply commit_steps in E as [Hr _].
  eapply good_store_update; [exact Hrun|exact Hr|]. simpl. intros k c' Hk Hnone.
  destruct Ht as [-> | ->]; [congruence|]. unfold stmt_commit in Hk. by rewrite update_where_none in Hk.
Qed.

Lemma good_register f now cmd retry r x r' :
  env_row cmd -> run_store (RegisterPromptCommand f now cmd retry) r = (x, r') ->
  good r r' /\ forall s owns, x = Ok (RegOk s owns) ->
    commands r' !! (PromptStore.DeviceID cmd, PromptStore.ClientMsgID cmd) = Some s /\ same_payload s cmd = true /\
    (owns = true -> may_own (commands r) (PromptStore.DeviceID cmd, PromptStore.ClientMsgID cmd) retry).
Proof.
  intros Henv Hrun. pose proof Hrun as Hrun'. unfold run_store in Hrun'.
  destruct (RegisterPromptCommand f now cmd retry (commands r)) as [y t] eqn:E. injection Hrun' as <- <-.
  pose proof (fun k' c' => register_new _ _ _ _ _ _ _ k' c' E) as Hnew. apply register_steps in E as [Hr Hc]. split; [|done].
  eapply good_store_update; [exact Hrun|exact Hr|]. simpl. intros k c' Hk Hnone. unfold env_row in *. by rewrite (Hnew k c').
Qed.

Lemma run_get f call d m r x r' :
  run_store (GetPromptCommand f call d m) r = (x, r') -> r' = r /\ forall c, x = Ok c -> commands r !! (d, m) = Some c.
Proof.
  unfold run_store. destruct (GetPromptCommand f call d m (commands r)) as [y t] eqn:E. apply get_result in E as [-> E].
  intros [= <- <-]. split; [by destruct r|done].
Qed.

(** ** Handlers *)

Lemma stamp_type r m : msgType (stampEnvelope r m) = msgType m.
Proof. unfold stampEnvelope. by destruct (is_empty _); simpl; case_bool_decide. Qed.

Lemma stamp_ids r m : ClientMsgID (stampEnvelope r m) = ClientMsgID m /\ SessionID (stampEnvelope r m) = SessionID m /\
  Payload (stampEnvelope r m) = Payload m /\ msgSealedPayload (stampEnvelope r m) = msgSealedPayload m.
Proof. unfold stampEnvelope. by destruct (is_empty _); simpl; case_bool_decide. Qed.

Lemma good_settled r r' dev id session : good r r' -> sound r -> settled r dev id session -> settled r' dev id session.
Proof. intros Hg Hs Hset. destruct (Hg Hs) as [_ He]. eapply settled_mono; [apply Hs|apply He|apply He|done]. Qed.

Lemma committed_ok e cmd r r0 :
  settled r (PromptStore.DeviceID cmd) (PromptStore.ClientMsgID cmd) (PromptStore.SessionID cmd) ->
  frame_ok r (PromptStore.DeviceID cmd, stampEnvelope r0 (promptCommittedMessage e cmd)).
Proof.
  intros Hs. destruct (stamp_ids r0 (promptCommittedMessage e cmd)) as (E1 & E2 & _).
  unfold frame_ok. cbn [fst snd]. rewrite stamp_type, E1, E2. done.
Qed.

Lemma good_intro r r' : (sound r -> good r r') -> good r r'.
Proof. intros Hg Hs. by apply Hg. Qed.

Lemma good_sendPromptCommitted e cmd r :
  (sound r -> settled r (PromptStore.DeviceID cmd) (PromptStore.ClientMsgID cmd) (PromptStore.SessionID cmd)) ->
  good r (sendPromptCommitted e cmd r).
Proof.
  intros Hset. apply good_intro. intros Hs. specialize (Hset Hs). unfold sendPromptCommitted.
  pose proof (good_send (io_commit_send e) (PromptStore.DeviceID cmd) (stampEnvelope r (promptCommittedMessage e cmd)) r
    (fun _ => committed_ok e cmd r r Hset)) as Hg1.
  destruct (SendToDaemon _ _ _ r) as [[err|] r1]; [done|]. simpl in Hg1.
  destruct (run_store _ r1) as [[u|err] r2] eqn:E; apply good_mark_committed in E; [|by eapply good_trans].
  assert (Hg2 : good r r2) by (by eapply good_trans). eapply good_trans; [exact Hg2|].
  apply good_broadcast. intros _. apply committed_ok. by eapply good_settled.
Qed.

(** The row of [cmd] is accepted and still has its payload. *)
Definition accepted_row (r : relay) (cmd : PromptCommand) : Prop :=
  exists c, commands r !! (PromptStore.DeviceID cmd, PromptStore.ClientMsgID cmd) = Some c /\ Status c = Accepted /\ same_payload c cmd = true.

Lemma accepted_row_self r cmd :
  commands r !! (PromptStore.DeviceID cmd, PromptStore.ClientMsgID cmd) = Some cmd -> Status cmd = Accepted -> accepted_row r cmd.
Proof. intros Hk Ha. exists cmd. split_and!; [done|done|apply same_payload_refl]. Qed.

Lemma good_accepted_row r r' cmd : good r r' -> sound r -> accepted_row r cmd -> accepted_row r' cmd.
Proof.
  intros Hg Hs (c & Hk & Ha & Hp). destruct (Hg Hs) as [_ He].
  destruct (rows_keep _ _ _ _ (proj1 Hs) (e_cmds _ _ He) Hk) as (c' & Hk' & Hp' & _ & Hacc & _).
  exists c'. split_and!; [done|by apply Hacc|by eapply same_payload_trans].
Qed.

Lemma good_persist e cmd r ok r' :
  persistAcceptedPrompt e cmd r = (ok, r') ->
  good r r' /\
  (ok = true -> accepted_row r cmd ->
   settled r' (PromptStore.DeviceID cmd) (PromptStore.ClientMsgID cmd) (PromptStore.SessionID cmd)).
Proof.
  unfold persistAcceptedPrompt. destruct (is_empty (SealedEnvelopeJSON cmd)) eqn:Es; cbn [negb].
  - intros Hsave. split.
    + pose proof (good_save (io_save e) (PromptStore.DeviceID cmd) (PromptStore.SessionID cmd) (user_message cmd) r) as Hg. by rewrite Hsave in Hg.
    + intros -> (c & Hk & Ha & Hp). unfold same_payload in Hp. bool_hyps. exists c. unfold SaveMessage in Hsave. destruct (io_save e); simplify_eq.
      split_and!; try done. intros _. simpl. rewrite lookup_insert_eq. eauto.
  - intros [= <- <-]. split; [apply good_refl|]. intros _ (c & Hk & Ha & Hp). unfold same_payload in Hp. bool_hyps.
    exists c. split_and!; try done. intros E. exfalso. apply is_empty_false in Es. congruence.
Qed.

Lemma good_promptSent e cmd r :
  (sound r -> settled r (PromptStore.DeviceID cmd) (PromptStore.ClientMsgID cmd) (PromptStore.SessionID cmd)) ->
  good r (broadcastPromptSent e cmd r).
Proof.
  intros Hset. unfold broadcastPromptSent. destruct (negb _); [apply good_refl|]. apply good_broadcast. intros Hs.
  destruct (stamp_ids r (NewMessageWithSession (now e) MsgPromptSent (PromptStore.DeviceID cmd) (PromptStore.SessionID cmd))) as (_ & E & _).
  unfold frame_ok. cbn [fst snd with_payload msgType ClientMsgID SessionID Payload]. rewrite stamp_type, E. split; [done|].
  intros _. exists (PromptStore.ClientMsgID cmd). split; [done|by apply Hset].
Qed.

Lemma good_failed e cmd r : good r (broadcastPromptFailed e cmd r).
Proof.
  apply good_broadcast. intros _. apply plain_ok. case_bool_decide; cbn [with_payload with_outcome with_client_msg_id msgType]; by rewrite stamp_type.
Qed.

Lemma good_failure e dev session id message r : good r (broadcastPromptFailure e dev session id message r).
Proof. apply good_failed. Qed.

(** Saving, confirming and acknowledging an accepted row. *)
Lemma good_settle e cmd r :
  (sound r -> commands r !! (PromptStore.DeviceID cmd, PromptStore.ClientMsgID cmd) = Some cmd) -> Status cmd = Accepted ->
  good r (match persistAcceptedPrompt e cmd r with
          | (false, r) => r
          | (true, r) => broadcastPromptSent e cmd (sendPromptCommitted e cmd r)
          end).
Proof.
  intros Hk Ha. apply good_intro. intros Hs. specialize (Hk Hs).
  destruct (persistAcceptedPrompt e cmd r) as [[] r1] eqn:E; apply good_persist in E as [Hg Hset]; [|done].
  specialize (Hset eq_refl (accepted_row_self _ _ Hk Ha)). eapply good_trans; [exact Hg|].
  assert (Hg2 : good r1 (sendPromptCommitted e cmd r1)) by (by apply good_sendPromptCommitted).
  eapply good_trans; [exact Hg2|]. apply good_promptSent. intros _. eapply good_settled; [exact Hg2| |done]. by apply Hg.
Qed.

Lemma good_reconcile e dev cmd r :
  (sound r -> commands r !! (PromptStore.DeviceID cmd, PromptStore.ClientMsgID cmd) = Some cmd) ->
  good r (reconcile e dev cmd r).
Proof.
  intros Hk. unfold reconcile. destruct (Status cmd) eqn:Es; try apply good_failed; try apply good_refl.
  - apply good_send. intros _. apply plain_ok. by rewrite stamp_type.
  - by apply good_settle.
Qed.

Lemma good_reconcile_sealed e dev cmd r :
  (sound r -> commands r !! (PromptStore.DeviceID cmd, PromptStore.ClientMsgID cmd) = Some cmd) ->
  SealedEnvelopeJSON cmd <> "" -> good r (reconcile_sealed e dev cmd r).
Proof.
  intros Hk Hse. unfold reconcile_sealed. destruct (Status cmd) eqn:Es; try apply good_failed; try apply good_refl.
  - apply good_send. intros _. apply plain_ok. by rewrite stamp_type.
  - apply good_sendPromptCommitted. intros Hs. exists cmd. split_and!; auto. done.
Qed.

Lemma good_mark_forward e dev id err cmd r failed r' :
  mark_forward_failure e dev id err cmd r = (failed, r') ->
  good r r' /\ (Status failed = Accepted -> commands r' !! (dev, id) = Some failed).
Proof.
  unfold mark_forward_failure. destruct (forward_failure err) as [[message outcome] retry].
  destruct (run_store _ r) as [[[c ch]|e0] r1] eqn:E; apply good_mark_failed in E as [Hg Hc]; intros [= <- <-].
  - split; [done|]. intros _. by eapply Hc.
  - split; [done|]. simpl. by case_bool_decide.
Qed.

Lemma good_forward_open e dev id msg cmd r : plain (msgType msg) = true -> good r (forward_open e dev id msg cmd r).
Proof.
  intros Hp. unfold forward_open.
  pose proof (good_send (io_send e) dev msg r (fun _ => plain_ok r dev msg Hp)) as Hg.
  destruct (SendToDaemon (io_send e) dev msg r) as [[err|] r1]; simpl in Hg.
  - destruct (mark_forward_failure e dev id err cmd r1) as [failed r2] eqn:E. apply good_mark_forward in E as [Hg2 Hacc].
    eapply good_trans; [exact Hg|]. eapply good_trans; [exact Hg2|]. case_bool_decide as Ha; [|apply good_failed].
    apply good_intro. intros Hs. specialize (Hacc Ha).
    assert (Hids : (dev, id) = (PromptStore.DeviceID failed, PromptStore.ClientMsgID failed)) by (by apply Hs in Hacc as [? _] || (destruct Hs as [Ht _]; by destruct (Ht _ _ Hacc))).
    rewrite Hids in Hacc. destruct (persistAcceptedPrompt e failed r2) as [[] r3] eqn:Ep; apply good_persist in Ep as [Hg3 Hset]; [|done].
    eapply good_trans; [exact Hg3|]. apply good_promptSent. intros _. by apply Hset, accepted_row_self.
  - destruct (run_store _ r1) as [x r2] eqn:E. apply good_mark_forwarded in E. simpl. by eapply good_trans.
Qed.

Lemma good_forward_sealed e dev id msg cmd r :
  plain (msgType msg) = true ->
  (sound r -> exists c, commands r !! (dev, id) = Some c /\ SealedEnvelopeJSON c <> "") -> good r (forward_sealed e dev id msg cmd r).
Proof.
  intros Hp Hrow. apply good_intro. intros Hs0. destruct (Hrow Hs0) as (c0 & Hc0 & Hse). unfold forward_sealed.
  pose proof (good_send (io_send e) dev msg r (fun _ => plain_ok r dev msg Hp)) as Hg.
  destruct (SendToDaemon (io_send e) dev msg r) as [[err|] r1]; simpl in Hg.
  - destruct (mark_forward_failure e dev id err cmd r1) as [failed r2] eqn:E. apply good_mark_forward in E as [Hg2 Hacc].
    assert (Hg12 : good r r2) by (by eapply good_trans).
    eapply good_trans; [exact Hg12|]. case_bool_decide as Ha; [|apply good_failed].
    apply good_sendPromptCommitted. intros Hs. specialize (Hacc Ha). destruct Hs as [Ht Henv].
    destruct (Ht _ _ Hacc) as [[= -> ->] _]. destruct (Hg12 Hs0) as [_ He].
    destruct (rows_keep _ _ _ _ (proj1 Hs0) (e_cmds _ _ He) Hc0) as (c1 & Hc1 & Hpay & _). simplify_eq.
    exists failed. split_and!; try done. unfold same_payload in Hpay. bool_hyps. congruence.
  - destruct (run_store _ r1) as [x r2] eqn:E. apply good_mark_forwarded in E. simpl. by eapply good_trans.
Qed.

Lemma good_handleOpenPrompt e dev msg r : msgType msg = MsgSendPrompt -> good r (handleOpenPrompt e dev msg r).
Proof.
  intros Ht. unfold handleOpenPrompt. destruct (_ && _)%bool; [apply good_failure|].
  destruct (is_empty (SessionID msg)); [apply good_failure|].
  match goal with |- context [let '(_, _) := ?x in _] => destruct x as [text p] end.
  destruct (_ && _)%bool; [apply good_failure|].
  match goal with |- context [match ?x with Some _ => _ | None => _ end] => destruct x as [id|] end; [|apply good_failure].
  destruct (marshal_attachments _) as [json|err]; [|apply good_failure].
  destruct (run_store _ r) as [[[s []|s]|err] r1] eqn:E; apply good_register in E as [Hg Hc]; try (by left);
    (eapply good_trans; [exact Hg|]); try apply good_failure.
  - apply good_forward_open. cbn [with_payload with_device msgType]. by rewrite Ht.
  - destruct (Hc s false eq_refl) as (Hk & _). apply good_reconcile. intros [Hinv _]. by destruct (Hinv _ _ Hk) as [<- _].
Qed.

Lemma good_handleSealedPrompt e dev msg r : msgType msg = MsgSendPrompt -> good r (handleSealedPrompt e dev msg r).
Proof.
  intros Ht. unfold handleSealedPrompt. destruct (_ || _)%bool; [apply good_failure|].
  destruct (is_empty (TrimSpace (SessionID msg))); [apply good_failure|].
  destruct (is_empty (sanitizeClientMsgID _)) eqn:Eid; [apply good_failure|].
  destruct (marshal_message _) as [wire|err] eqn:Em; [|apply good_failure].
  assert (Hwire : wire <> "") by (by apply marshal_prompt in Em as [? _]).
  destruct (run_store _ r) as [[[s []|s]|err] r1] eqn:E; apply good_register in E as [Hg Hc].
  2, 4, 6, 8: right; eexists; split; [exact Em|done].
  all: eapply good_trans; [exact Hg|]; try apply good_failure.
  - apply good_forward_sealed; [cbn [with_client_msg_id with_device msgType]; by rewrite Ht|]. intros _. destruct (Hc s true eq_refl) as (Hk & Hp & _).
    exists s. split; [done|]. unfold same_payload in Hp. bool_hyps. simpl in *. congruence.
  - destruct (Hc s false eq_refl) as (Hk & Hp & _). apply good_reconcile_sealed.
    + intros [Hinv _]. by destruct (Hinv _ _ Hk) as [<- _].
    + unfold same_payload in Hp. bool_hyps. simpl in *. congruence.
Qed.

Lemma good_offline e dev session r : good r (device_offline_error e dev session r).
Proof. apply good_broadcast. intros _. apply plain_ok. cbn [with_payload msgType]. by rewrite stamp_type. Qed.

Lemma good_handleFetchHistory e dev msg r : msgType msg = MsgFetchHistory -> good r (handleFetchHistory e dev msg r).
Proof.
  intros Ht. unfold handleFetchHistory.
  match goal with |- context [SendToDaemon ?o ?d ?m r] =>
    pose proof (good_send o d m r (fun _ => plain_ok r d m ltac:(simpl; by rewrite Ht))) as Hg; destruct (SendToDaemon o d m r) as [[err|] r1] end;
    simpl in Hg; [|done]. eapply good_trans; [exact Hg|].
  case_bool_decide; [apply good_offline|]. destruct (io_rows e); [apply good_offline|].
  destruct (truncateHistory _ _) as [rows tr]. apply good_broadcast. intros _. apply plain_ok. cbn [with_payload msgType]. by rewrite stamp_type.
Qed.

Lemma good_handleStartThread e dev msg r : msgType msg = MsgStartThread -> good r (handleStartThread e dev msg r).
Proof.
  intros Ht. unfold handleStartThread. cbv zeta.
  match goal with |- context [SendToDaemon ?o ?d ?m r] =>
    pose proof (good_send o d m r (fun _ => plain_ok r d m ltac:(cbn [with_client_msg_id with_payload with_device msgType]; by rewrite Ht))) as Hg;
    destruct (SendToDaemon o d m r) as [[err|] r1] end;
    simpl in Hg; [|done]. eapply good_trans; [exact Hg|].
  destruct (threadStartRelayFailure err) as [t text] eqn:Ef. apply good_broadcast. intros _. apply plain_ok.
  assert (Hp : plain t = true) by (destruct err; simpl in Ef; by injection Ef as <- _).
  destruct (is_some_b (msgSealedPayload msg)); cbn [with_payload with_client_msg_id msgType]; by rewrite stamp_type.
Qed.

Lemma good_control o e dev msg session r : plain (msgType msg) = true ->
  good r (match SendToDaemon o dev msg r with (None, r) => r | (Some _, r) => device_offline_error e dev session r end).
Proof.
  intros Hp. pose proof (good_send o dev msg r (fun _ => plain_ok r dev msg Hp)) as Hg.
  destruct (SendToDaemon o dev msg r) as [[err|] r1]; simpl in Hg; [|done]. eapply good_trans; [exact Hg|apply good_offline].
Qed.

Lemma good_handlePhoneMessage e dev msg r : good r (handlePhoneMessage e dev msg r).
Proof.
  unfold handlePhoneMessage. destruct (msgType msg) eqn:Ht; try apply good_refl;
    try (apply good_control; cbn [with_device msgType]; by rewrite Ht).
  - destruct (is_some_b _); [by apply good_handleSealedPrompt|by apply good_handleOpenPrompt].
  - by apply good_handleStartThread.
  - by apply good_handleFetchHistory.
Qed.

(** ** Frames from a daemon *)

Lemma good_plain_broadcast r dev m : plain (msgType m) = true -> good r (BroadcastToPhones r dev m).
Proof. intros Hp. apply good_broadcast. intros _. by apply plain_ok. Qed.

Lemma good_notSeen e dev msg r : good r (handlePromptNotSeen e dev msg r).
Proof.
  unfold handlePromptNotSeen. destruct (is_empty _); [apply good_refl|].
  destruct (run_store _ r) as [[c|err] r1] eqn:E; apply run_get in E as [-> Hc]; [|apply good_refl].
  specialize (Hc c eq_refl). destruct (negb _); [apply good_refl|].
  destruct (promptCommandMessage e c) as [retry|] eqn:Er; [|apply good_refl].
  apply good_send. intros Hs. apply plain_ok. rewrite stamp_type. unfold promptCommandMessage in Er.
  destruct (is_empty (SealedEnvelopeJSON c)) eqn:Ee; cbn [negb] in Er.
  - by injection Er as <-.
  - destruct (proj2 Hs _ _ Hc) as [Henv|(m0 & Hm & Ht)]; [by rewrite Henv in Ee|].
    destruct (unmarshal_message (SealedEnvelopeJSON c)) as [sealed|] eqn:Eu; [|done].
    destruct (is_some_b _); [|done]. injection Er as <-. apply marshal_prompt in Hm as [_ Hm]; [|done]. by rewrite (proj1 (Hm _ Eu)).
Qed.

Lemma good_accepted e dev msg r : plain (msgType msg) = true -> good r (handlePromptAccepted e dev msg r).
Proof.
  intros Hp. unfold handlePromptAccepted. destruct (is_empty _); [apply good_refl|].
  match goal with |- context [if ?b then BroadcastToPhones r dev msg else _] => destruct b end; [by apply good_plain_broadcast|].
  destruct (run_store _ r) as [[[c ch]|err] r1] eqn:E; apply good_mark_accepted in E as [Hg Hc]; [|done].
  specialize (Hc c ch eq_refl). eapply good_trans; [exact Hg|].
  case_bool_decide as Ha; cbn [negb]; [|apply good_refl]. apply good_settle; [|done].
  intros [Hinv _]. by destruct (Hinv _ _ Hc) as [<- _].
Qed.

Lemma good_failed_report e dev msg r : plain (msgType msg) = true -> good r (handlePromptFailed e dev msg r).
Proof.
  intros Hp. unfold handlePromptFailed. destruct (is_empty _); [apply good_refl|].
  destruct (failure_report msg) as [[failure outcome] retry].
  destruct (run_store _ r) as [[[c ch]|err] r1] eqn:E; apply good_mark_failed in E as [Hg Hc]; [|done].
  eapply good_trans; [exact Hg|]. destruct (_ || _)%bool; [|apply good_refl].
  destruct (is_some_b _); [by apply good_plain_broadcast|apply good_failed].
Qed.

Lemma good_save_history e dev session items r : good r (save_history e dev session items r).
Proof.
  unfold save_history. revert r. induction items as [|item items IH]; intros r; [apply good_refl|]. cbn [foldl].
  eapply good_trans; [|apply IH]. destruct (decode_session_message item); [|apply good_refl].
  destruct (is_empty _); [apply good_refl|apply good_save].
Qed.

Lemma good_sealed_message err dev session msg r : good r (SaveSealedMessage err dev session msg r).
Proof. unfold SaveSealedMessage. destruct (msgSealedPayload msg); [apply good_save|apply good_refl]. Qed.

Lemma good_sessionList e dev msg r : plain (msgType msg) = true -> good r (handleSessionList e dev msg r).
Proof.
  intros Hp. unfold handleSessionList. destruct (is_some_b _) eqn:Es.
  - unfold updateSealedCatalogFromLocked. rewrite Es. cbn [negb].
    eapply good_trans; [apply good_catalog|]. by apply good_plain_broadcast.
  - destruct (default ∅ (Payload msg) !! "sessions"); [|apply good_refl]. eapply good_trans; [|apply good_devices].
    unfold updateSessionListFromLocked. eapply good_trans; [apply good_catalog|]. by apply good_plain_broadcast.
Qed.

Lemma good_handleDaemonMessage e dev msg r : good r (handleDaemonMessage e dev msg r).
Proof.
  unfold handleDaemonMessage. set (m := with_device msg dev).
  assert (Ht : msgType m = msgType msg) by done. destruct (msgType msg) eqn:Et; rewrite ?Ht; try apply good_refl;
    try (by apply good_plain_broadcast; rewrite Ht).
  - by apply good_sessionList; rewrite Ht.
  - destruct (_ && _)%bool; [eapply good_trans; [|apply good_push]|]; by apply good_plain_broadcast; rewrite Ht.
  - unfold handleSessionMessage.
    match goal with |- context [BroadcastToPhones ?x dev m] => assert (Hg : good r x) end.
    { destruct (is_some_b _); [apply good_sealed_message|]. destruct (Payload m); [|apply good_refl].
      destruct (_ ≫= _); [apply good_save|apply good_refl]. }
    destruct (_ && _)%bool; [eapply good_trans; [|apply good_push]|];
      (eapply good_trans; [exact Hg|by apply good_plain_broadcast; rewrite Ht]).
  - apply good_notSeen.
  - by apply good_accepted; rewrite Ht.
  - by apply good_failed_report; rewrite Ht.
  - destruct (acceptAttentionEvent e dev m r) as [[] r1] eqn:E.
    + eapply good_trans; [|apply good_push]. eapply good_trans; [|by apply good_plain_broadcast; rewrite Ht].
      unfold acceptAttentionEvent in E. destruct (Payload m); [|done]. destruct (_ || _)%bool; [done|].
      unfold AcceptAttentionEvent in E. destruct (_ || _)%bool; [done|]. destruct (io_attention e); [done|].
      destruct (filter _ _ !! _); [done|]. injection E as <-. apply good_attention.
    + unfold acceptAttentionEvent in E. destruct (Payload m); [|injection E as <-; apply good_refl].
      destruct (_ || _)%bool; [injection E as <-; apply good_refl|].
      unfold AcceptAttentionEvent in E. destruct (_ || _)%bool; [injection E as <-; apply good_refl|].
      destruct (io_attention e); [injection E as <-; apply good_refl|].
      destruct (filter _ _ !! _); [injection E as <-; apply good_attention|done].
  - unfold handleSessionHistory. destruct (is_some_b _); [by apply good_plain_broadcast; rewrite Ht|].
    eapply good_trans; [|by apply good_plain_broadcast; rewrite Ht].
    destruct (_ ≫= _) as [[]|]; try apply good_refl. apply good_save_history.
Qed.

(** ** Replay *)

Lemma good_replay_round io n cmds r x r' :
  (sound r -> Forall (accepted_row r) cmds) -> replay_round io n cmds r = (x, r') -> good r r'.
Proof.
  revert n r. induction cmds as [|cmd cmds IH]; intros n r Hall; cbn [replay_round].
  { intros [= _ <-]. apply good_refl. }
  intros Hrun. apply good_intro. intros Hs. specialize (Hall Hs). apply Forall_cons in Hall as [Hrow Hall].
  destruct (persistAcceptedPrompt (io n) cmd r) as [[] r1] eqn:E; apply good_persist in E as [Hg Hset]; [|by injection Hrun as _ <-].
  specialize (Hset eq_refl Hrow).
  pose proof (good_send (io_commit_send (io n)) (PromptStore.DeviceID cmd) (stampEnvelope r1 (promptCommittedMessage (io n) cmd)) r1
    (fun _ => committed_ok (io n) cmd r1 r1 Hset)) as Hg1.
  destruct (SendToDaemon _ _ _ r1) as [[err|] r2]; simpl in Hg1; [injection Hrun as _ <-; by eapply good_trans|].
  destruct (run_store _ r2) as [[u|err] r3] eqn:E2; apply good_mark_committed in E2;
    (assert (Hg3 : good r r3) by (eapply good_trans; [exact Hg|by eapply good_trans])); [|by injection Hrun as _ <-].
  eapply good_trans; [exact Hg3|]. eapply IH; [|exact Hrun]. intros _.
  eapply Forall_impl; [exact Hall|]. intros c. by apply good_accepted_row.
Qed.

Lemma listed_rows r dev : sound r -> Forall (accepted_row r) (ListUncommittedAcceptedPrompts (commands r) dev 100).
Proof.
  intros [Hinv _]. apply Forall_forall. intros c Hc. unfold ListUncommittedAcceptedPrompts in Hc. simpl in Hc.
  apply elem_of_take, (elem_of_uncommitted _ _ _ Hinv) in Hc as [Hk Hu].
  unfold uncommitted_of in Hu. bool_hyps. by apply accepted_row_self.
Qed.

Lemma good_replay fuel io n dev r : good r (replayPromptCommits fuel io n dev r).
Proof.
  revert n r. induction fuel as [|fuel IH]; intros n r; cbn [replayPromptCommits]; [apply good_refl|].
  destruct (io_list (io n)); [apply good_refl|].
  destruct (ListUncommittedAcceptedPrompts (commands r) dev 100) as [|c cmds] eqn:El; [apply good_refl|].
  destruct (replay_round io n (c :: cmds) r) as [[n'|] r1] eqn:E; apply good_replay_round in E;
    try (intros Hs; rewrite <- El; by apply listed_rows); [|done].
  eapply good_trans; [exact E|apply IH].
Qed.

(** ** Runs of the relay *)

Inductive relay_event : Type :=
  | PhoneMsg (e : relayIO) (dev : string) (msg : NekoMessage)
  | DaemonMsg (e : relayIO) (dev : string) (msg : NekoMessage)
  | DaemonConnects (fuel : nat) (io : nat -> relayIO) (dev : string).

Definition relay_step (r : relay) (ev : relay_event) : relay :=
  match ev with
  | PhoneMsg e dev msg => handlePhoneMessage e dev msg r
  | DaemonMsg e dev msg => handleDaemonMessage e dev msg r
  | DaemonConnects fuel io dev => replayPromptCommits fuel io 0 dev (set_catalog r dev empty_catalog)
  end.

Lemma good_step r ev : good r (relay_step r ev).
Proof.
  destruct ev; simpl; [apply good_handlePhoneMessage|apply good_handleDaemonMessage|].
  eapply good_trans; [apply good_catalog|apply good_replay].
Qed.

Lemma good_run r evs : good r (foldl relay_step r evs).
Proof.
  revert r. induction evs as [|ev evs IH]; intros r; [apply good_refl|]. eapply good_trans; [apply good_step|apply IH].
Qed.

Definition fresh_relay (m : TransportMode) : relay := mkRelay m ∅ ∅ ∅ ∅ ∅ [] [] [].

Lemma fresh_sound m : sound (fresh_relay m).
Proof. split; intros k c; simpl; by rewrite lookup_empty. Qed.

(** C7: whatever arrives and whatever fails, the relay tells the daemon or the
    phones that a prompt is committed, and acknowledges a prompt to the phones,
    only when its acceptance is durable and, for a prompt in the clear, its row
    of the message history has been written; so a daemon that drops its own
    record on that word loses nothing. *)
Theorem commit_follows_history m evs :
  let r := foldl relay_step (fresh_relay m) evs in
  (forall dev f, (dev, f) ∈ to_daemon r \/ (dev, f) ∈ to_phones r -> msgType f = MsgPromptCommitted ->
     settled r dev (ClientMsgID f) (SessionID f)) /\
  (forall dev f, (dev, f) ∈ to_phones r -> msgType f = MsgPromptSent ->
     exists id, carried_id f = Some id /\ settled r dev id (SessionID f)).
Proof.
  intros r. destruct (good_run (fresh_relay m) evs (fresh_sound m)) as [_ [_ _ _ (ld & D & FD) (lp & P & FP)]].
  fold r in D, FD, P, FP. simpl in D, P. rewrite <- D in FD. rewrite <- P in FP.
  rewrite Forall_forall in FD. rewrite Forall_forall in FP. split.
  - intros dev f [Hin|Hin] Ht; [by apply (FD _ Hin)|by apply (FP _ Hin)].
  - intros dev f Hin Ht. by apply (FP _ Hin).
Qed.

(** ** Which prompts are sent to the daemon *)

Definition is_prompt (f : string * NekoMessage) : bool := bool_decide (msgType f.2 = MsgSendPrompt).

(** [r'] has sent the daemon [l] more prompt frames than [r]. *)
Definition prompts_sent (r r' : relay) (l : list (string * NekoMessage)) : Prop :=
  exists new, to_daemon r' = to_daemon r ++ new /\ List.filter is_prompt new = l.

Lemma sent_none r r' : to_daemon r' = to_daemon r -> prompts_sent r r' [].
Proof. intros E. exists []. by rewrite app_nil_r. Qed.

Lemma sent_trans r1 r2 r3 l1 l2 : prompts_sent r1 r2 l1 -> prompts_sent r2 r3 l2 -> prompts_sent r1 r3 (l1 ++ l2).
Proof.
  intros (n1 & E1 & <-) (n2 & E2 & <-). exists (n1 ++ n2). rewrite E2, E1, <- app_assoc. split; [done|]. apply List.filter_app.
Qed.

Lemma sent_trans_none r1 r2 r3 : prompts_sent r1 r2 [] -> prompts_sent r2 r3 [] -> prompts_sent r1 r3 [].
Proof. apply sent_trans. Qed.

Lemma sent_trans_l r1 r2 r3 l : prompts_sent r1 r2 l -> prompts_sent r2 r3 [] -> prompts_sent r1 r3 l.
Proof. intros H1 H2. rewrite <- (app_nil_r l). by eapply sent_trans. Qed.

Lemma send_other o dev m r : msgType m <> MsgSendPrompt -> prompts_sent r (SendToDaemon o dev m r).2 [].
Proof.
  intros Ht. assert (Hf : List.filter is_prompt [(dev, m)] = []) by (simpl; unfold is_prompt; simpl; by rewrite bool_decide_false).
  destruct o as [| |[]]; simpl; try (by apply sent_none); by exists [(dev, m)].
Qed.

Lemma send_any o dev m r : prompts_sent r (SendToDaemon o dev m r).2 [] \/ prompts_sent r (SendToDaemon o dev m r).2 (List.filter is_prompt [(dev, m)]).
Proof. destruct o as [| |[]]; simpl; [right; by exists [(dev, m)]|left; by apply sent_none|right; by exists [(dev, m)]|left; by apply sent_none]. Qed.

Lemma run_store_daemon {A} (m : M promptTable A) r x r' : run_store m r = (x, r') -> to_daemon r' = to_daemon r.
Proof. unfold run_store. destruct (m (commands r)). by intros [= _ <-]. Qed.

Lemma save_daemon err dev session m r : to_daemon (SaveMessage err dev session m r).2 = to_daemon r.
Proof. by destruct err. Qed.

Lemma persist_daemon e cmd r ok r' : persistAcceptedPrompt e cmd r = (ok, r') -> to_daemon r' = to_daemon r.
Proof.
  unfold persistAcceptedPrompt. destruct (negb _); [by intros [= _ <-]|]. intros E.
  by rewrite <- (save_daemon (io_save e) (PromptStore.DeviceID cmd) (PromptStore.SessionID cmd) (user_message cmd) r), E.
Qed.

Lemma sent_committed e cmd r : prompts_sent r (sendPromptCommitted e cmd r) [].
Proof.
  unfold sendPromptCommitted.
  pose proof (send_other (io_commit_send e) (PromptStore.DeviceID cmd) (stampEnvelope r (promptCommittedMessage e cmd)) r) as Hs.
  rewrite stamp_type in Hs. specialize (Hs ltac:(done)). destruct (SendToDaemon _ _ _ r) as [[err|] r1]; simpl in Hs; [done|].
  destruct (run_store _ r1) as [[u|err] r2] eqn:E; apply run_store_daemon in E; (eapply sent_trans_none; [exact Hs|]); by apply sent_none.
Qed.

Lemma promptSent_daemon e cmd r : to_daemon (broadcastPromptSent e cmd r) = to_daemon r.
Proof. unfold broadcastPromptSent. by destruct (negb _). Qed.

Lemma sent_settle e cmd r :
  prompts_sent r (match persistAcceptedPrompt e cmd r with
                  | (false, r) => r
                  | (true, r) => broadcastPromptSent e cmd (sendPromptCommitted e cmd r)
                  end) [].
Proof.
  destruct (persistAcceptedPrompt e cmd r) as [[] r1] eqn:E; apply persist_daemon in E; [|by apply sent_none].
  eapply sent_trans_none; [by apply sent_none|]. eapply sent_trans_none; [apply sent_committed|]. apply sent_none, promptSent_daemon.
Qed.

Lemma sent_reconcile e dev cmd r : prompts_sent r (reconcile e dev cmd r) [].
Proof.
  unfold reconcile. destruct (Status cmd); try (by apply sent_none).
  - apply send_other. by rewrite stamp_type.
  - apply sent_settle.
Qed.

Lemma sent_reconcile_sealed e dev cmd r : prompts_sent r (reconcile_sealed e dev cmd r) [].
Proof.
  unfold reconcile_sealed. destruct (Status cmd); try (by apply sent_none).
  - apply send_other. by rewrite stamp_type.
  - apply sent_committed.
Qed.

Lemma mark_forward_daemon e dev id err cmd r c r' : mark_forward_failure e dev id err cmd r = (c, r') -> to_daemon r' = to_daemon r.
Proof.
  unfold mark_forward_failure. destruct (forward_failure err) as [[? ?] ?].
  destruct (run_store _ r) as [[[? ?]|?] r1] eqn:E; apply run_store_daemon in E; by intros [= _ <-].
Qed.

(** The forward itself: at most this frame. *)
Definition one_prompt (r r' : relay) (dev : string) (m : NekoMessage) : Prop :=
  prompts_sent r r' [] \/ prompts_sent r r' [(dev, m)].

Lemma send_one o dev m r : msgType m = MsgSendPrompt -> one_prompt r (SendToDaemon o dev m r).2 dev m.
Proof.
  intros Ht. destruct (send_any o dev m r) as [?|Hs]; [by left|right]. simpl in Hs. unfold is_prompt in Hs. simpl in Hs.
  by rewrite bool_decide_true in Hs.
Qed.

Lemma one_then_none r1 r2 r3 dev m : one_prompt r1 r2 dev m -> prompts_sent r2 r3 [] -> one_prompt r1 r3 dev m.
Proof. intros [Hs|Hs] Hn; [left|right]; by eapply sent_trans_l. Qed.

Lemma sent_forward_open e dev id msg cmd r : msgType msg = MsgSendPrompt -> one_prompt r (forward_open e dev id msg cmd r) dev msg.
Proof.
  intros Ht. unfold forward_open. pose proof (send_one (io_send e) dev msg r Ht) as Hs.
  destruct (SendToDaemon (io_send e) dev msg r) as [[err|] r1]; simpl in Hs.
  - destruct (mark_forward_failure e dev id err cmd r1) as [failed r2] eqn:E. apply mark_forward_daemon in E.
    eapply one_then_none; [exact Hs|]. case_bool_decide; [|by apply sent_none].
    destruct (persistAcceptedPrompt e failed r2) as [[] r3] eqn:Ep; apply persist_daemon in Ep; apply sent_none; rewrite ?promptSent_daemon; congruence.
  - destruct (run_store _ r1) as [x r2] eqn:E. apply run_store_daemon in E. eapply one_then_none; [exact Hs|by apply sent_none].
Qed.

Lemma sent_forward_sealed e dev id msg cmd r : msgType msg = MsgSendPrompt -> one_prompt r (forward_sealed e dev id msg cmd r) dev msg.
Proof.
  intros Ht. unfold forward_sealed. pose proof (send_one (io_send e) dev msg r Ht) as Hs.
  destruct (SendToDaemon (io_send e) dev msg r) as [[err|] r1]; simpl in Hs.
  - destruct (mark_forward_failure e dev id err cmd r1) as [failed r2] eqn:E. apply mark_forward_daemon in E.
    eapply one_then_none; [exact Hs|]. case_bool_decide; [|by apply sent_none].
    eapply sent_trans_none; [by apply sent_none|apply sent_committed].
  - destruct (run_store _ r1) as [x r2] eqn:E. apply run_store_daemon in E. eapply one_then_none; [exact Hs|by apply sent_none].
Qed.

(** What lets a phone's prompt through: the caller owns the command. *)
Definition phone_gate (r r' : relay) (dev : string) : Prop :=
  prompts_sent r r' [] \/
  exists id f, prompts_sent r r' [(dev, f)] /\ may_own (commands r) (dev, id) true /\
    (ClientMsgID f = id \/ carried_id f = Some id).

Lemma may_own_any t k b : may_own t k b -> may_own t k true.
Proof. unfold may_own. destruct (t !! k); [|done]. intros [?|(? & ? & _)]; auto. Qed.

Lemma gate_one r0 r r' dev m id :
  to_daemon r = to_daemon r0 -> one_prompt r r' dev m -> may_own (commands r0) (dev, id) true ->
  (ClientMsgID m = id \/ carried_id m = Some id) -> phone_gate r0 r' dev.
Proof.
  intros E [Hs|Hs] Ho Hid.
  - left. eapply sent_trans_none; [by apply sent_none|exact Hs].
  - right. exists id, m. split_and!; [|done|done]. apply (sent_trans r0 r r' [] [(dev, m)]); [by apply sent_none|exact Hs].
Qed.

Lemma gate_none r0 r r' dev : to_daemon r = to_daemon r0 -> prompts_sent r r' [] -> phone_gate r0 r' dev.
Proof. intros E Hs. left. eapply sent_trans_none; [by apply sent_none|done]. Qed.

Lemma gate_open e dev msg r : msgType msg = MsgSendPrompt -> phone_gate r (handleOpenPrompt e dev msg r) dev.
Proof.
  intros Ht. unfold handleOpenPrompt. destruct (_ && _)%bool; [by left; apply sent_none|].
  destruct (is_empty (SessionID msg)); [by left; apply sent_none|].
  match goal with |- context [let '(_, _) := ?x in _] => destruct x as [text p] end.
  destruct (_ && _)%bool; [by left; apply sent_none|].
  match goal with |- context [match ?x with Some _ => _ | None => _ end] => destruct x as [id|] end; [|by left; apply sent_none].
  destruct (marshal_attachments _) as [json|err]; [|by left; apply sent_none].
  destruct (run_store _ r) as [[[s []|s]|err] r1] eqn:E; pose proof (run_store_daemon _ _ _ _ E) as Ed;
    apply good_register in E as [_ Hc]; try (by left); try (eapply gate_none; [exact Ed|]; by apply sent_none).
  - destruct (Hc s true eq_refl) as (_ & _ & Ho). eapply gate_one; [exact Ed|apply sent_forward_open| |].
    + cbn [with_payload with_device msgType]. exact Ht.
    + eapply may_own_any. by apply Ho.
    + right. unfold carried_id. cbn [with_payload Payload]. cbn [mbind option_bind]. by rewrite lookup_insert_eq.
  - eapply gate_none; [exact Ed|apply sent_reconcile].
Qed.

Lemma gate_sealed e dev msg r : msgType msg = MsgSendPrompt -> phone_gate r (handleSealedPrompt e dev msg r) dev.
Proof.
  intros Ht. unfold handleSealedPrompt. destruct (_ || _)%bool; [by left; apply sent_none|].
  destruct (is_empty (TrimSpace (SessionID msg))); [by left; apply sent_none|].
  destruct (is_empty (sanitizeClientMsgID _)) eqn:Eid; [by left; apply sent_none|].
  destruct (marshal_message _) as [wire|err] eqn:Em; [|by left; apply sent_none].
  match goal with |- context [run_store (RegisterPromptCommand ?f ?n ?c ?b) r] =>
    assert (Henv : env_row c) by (right; eexists; split; [exact Em|exact Ht]);
    destruct (run_store (RegisterPromptCommand f n c b) r) as [[[s []|s]|err] r1] eqn:E;
    pose proof (run_store_daemon _ _ _ _ E) as Ed; apply good_register in E as [_ Hc]; try exact Henv end;
    try (apply (gate_none r r1); [exact Ed|]; apply sent_none; reflexivity).
  - destruct (Hc s true eq_refl) as (_ & _ & Ho).
    apply (gate_one r r1 _ dev (with_client_msg_id (with_device msg dev) (sanitizeClientMsgID (TrimSpace (ClientMsgID msg))))
             (sanitizeClientMsgID (TrimSpace (ClientMsgID msg)))); [exact Ed|by apply sent_forward_sealed| |by left].
    eapply may_own_any. by apply Ho.
  - apply (gate_none r r1); [exact Ed|apply sent_reconcile_sealed].
Qed.

Lemma sent_control o e dev msg session r : msgType msg <> MsgSendPrompt ->
  prompts_sent r (match SendToDaemon o dev msg r with (None, r) => r | (Some _, r) => device_offline_error e dev session r end) [].
Proof.
  intros Ht. pose proof (send_other o dev msg r Ht) as Hs. destruct (SendToDaemon o dev msg r) as [[err|] r1]; simpl in Hs; [|done].
  eapply sent_trans_none; [exact Hs|by apply sent_none].
Qed.

Lemma gate_phone e dev msg r : phone_gate r (handlePhoneMessage e dev msg r) dev.
Proof.
  unfold handlePhoneMessage. destruct (msgType msg) eqn:Ht; try (by left; apply sent_none);
    try (left; apply sent_control; cbn [with_device msgType]; by rewrite Ht).
  - destruct (is_some_b _); [by apply gate_sealed|by apply gate_open].
  - left. unfold handleStartThread. cbv zeta.
    match goal with |- context [SendToDaemon ?o ?d ?m r] =>
      pose proof (send_other o d m r ltac:(cbn [with_client_msg_id with_payload with_device msgType]; by rewrite Ht)) as Hs;
      destruct (SendToDaemon o d m r) as [[err|] r1] end; simpl in Hs; [|done].
    destruct (threadStartRelayFailure err). eapply sent_trans_none; [exact Hs|by apply sent_none].
  - left. unfold handleFetchHistory.
    match goal with |- context [SendToDaemon ?o ?d ?m r] =>
      pose proof (send_other o d m r ltac:(cbn [with_payload with_device msgType]; by rewrite Ht)) as Hs;
      destruct (SendToDaemon o d m r) as [[err|] r1] end; simpl in Hs; [|done].
    eapply sent_trans_none; [exact Hs|]. case_bool_decide; [by apply sent_none|]. destruct (io_rows e); [by apply sent_none|].
    destruct (truncateHistory _ _). by apply sent_none.
Qed.

Definition daemon_gate (r r' : relay) (dev : string) (msg : NekoMessage) : Prop :=
  prompts_sent r r' [] \/
  exists f c, prompts_sent r r' [(dev, f)] /\ msgType msg = MsgPromptNotSeen /\
    commands r !! (dev, promptClientMsgID msg) = Some c /\ Status c = Pending.

Lemma daemon_same r r' dev msg : to_daemon r' = to_daemon r -> daemon_gate r r' dev msg.
Proof. intros E. left. by apply sent_none. Qed.

Lemma save_history_daemon e dev session items r : to_daemon (save_history e dev session items r) = to_daemon r.
Proof.
  unfold save_history. revert r. induction items as [|item items IH]; intros r; [done|]. cbn [foldl]. rewrite IH.
  destruct (decode_session_message item); [|done]. destruct (is_empty _); [done|apply save_daemon].
Qed.

Lemma attention_daemon e dev msg r b r' : acceptAttentionEvent e dev msg r = (b, r') -> to_daemon r' = to_daemon r.
Proof.
  unfold acceptAttentionEvent, AcceptAttentionEvent. destruct (Payload msg); [|by intros [= _ <-]].
  destruct (_ || _)%bool; [by intros [= _ <-]|]. destruct (_ || _)%bool; [by intros [= _ <-]|].
  destruct (io_attention e); [by intros [= _ <-]|]. destruct (filter _ _ !! _); by intros [= _ <-].
Qed.

Lemma gate_daemon e dev msg r : daemon_gate r (handleDaemonMessage e dev msg r) dev msg.
Proof.
  unfold handleDaemonMessage. set (m := with_device msg dev).
  assert (Ht : msgType m = msgType msg) by done. destruct (msgType msg) eqn:Et; rewrite ?Ht; try (by apply daemon_same).
  - apply daemon_same. unfold handleSessionList. destruct (is_some_b _) eqn:Es.
    + unfold updateSealedCatalogFromLocked. by rewrite Es.
    + destruct (default ∅ (Payload m) !! "sessions"); [|done]. by destruct (io_device e).
  - apply daemon_same. by destruct (_ && _)%bool.
  - apply daemon_same. unfold handleSessionMessage.
    match goal with |- context [BroadcastToPhones ?x dev m] => assert (Hg : to_daemon x = to_daemon r) end.
    { destruct (is_some_b _); [unfold SaveSealedMessage; destruct (msgSealedPayload m); [apply save_daemon|done]|].
      destruct (Payload m); [|done]. destruct (_ ≫= _); [apply save_daemon|done]. }
    by destruct (_ && _)%bool.
  - unfold handlePromptNotSeen. destruct (is_empty _); [by apply daemon_same|].
    destruct (run_store _ r) as [[c|err] r1] eqn:E; apply run_get in E as [-> Hc]; [|by apply daemon_same].
    specialize (Hc c eq_refl). case_bool_decide as Hp; cbn [negb]; [|by apply daemon_same].
    destruct (promptCommandMessage e c) as [retry|] eqn:Er; [|by apply daemon_same].
    destruct (send_any (io_send e) dev (stampEnvelope r retry) r) as [Hs|Hs]; [by left|].
    cbn [List.filter] in Hs. destruct (is_prompt _); [|by left]. right. exists (stampEnvelope r retry), c. done.
  - unfold handlePromptAccepted. destruct (is_empty _); [by apply daemon_same|].
    match goal with |- context [if ?b then BroadcastToPhones r dev m else _] => destruct b end; [by apply daemon_same|].
    destruct (run_store _ r) as [[[c ch]|err] r1] eqn:E; apply run_store_daemon in E; [|by apply daemon_same].
    destruct (negb _); [by apply daemon_same|]. left. eapply sent_trans_none; [by apply sent_none|apply sent_settle].
  - apply daemon_same. unfold handlePromptFailed. destruct (is_empty _); [done|].
    destruct (failure_report m) as [[failure outcome] retry].
    destruct (run_store _ r) as [[[c ch]|err] r1] eqn:E; apply run_store_daemon in E; [|done].
    destruct (_ || _)%bool; [|done]. by destruct (is_some_b _).
  - apply daemon_same. destruct (acceptAttentionEvent e dev m r) as [[] r1] eqn:E; by apply attention_daemon in E.
  - apply daemon_same. unfold handleSessionHistory. destruct (is_some_b _); [done|].
    destruct (_ ≫= _) as [[]|]; try done. simpl. apply save_history_daemon.
Qed.

Lemma sent_replay_round io n cmds r x r' : replay_round io n cmds r = (x, r') -> prompts_sent r r' [].
Proof.
  revert n r. induction cmds as [|cmd cmds IH]; intros n r; cbn [replay_round]; [intros [= _ <-]; by apply sent_none|].
  destruct (persistAcceptedPrompt (io n) cmd r) as [[] r1] eqn:E; apply persist_daemon in E; [|intros [= _ <-]; by apply sent_none].
  pose proof (send_other (io_commit_send (io n)) (PromptStore.DeviceID cmd) (stampEnvelope r1 (promptCommittedMessage (io n) cmd)) r1) as Hs.
  rewrite stamp_type in Hs. specialize (Hs ltac:(done)).
  assert (Hs1 : prompts_sent r (SendToDaemon (io_commit_send (io n)) (PromptStore.DeviceID cmd) (stampEnvelope r1 (promptCommittedMessage (io n) cmd)) r1).2 []).
  { eapply sent_trans_none; [by apply sent_none|exact Hs]. }
  destruct (SendToDaemon _ _ _ r1) as [[err|] r2]; simpl in Hs1; [by intros [= _ <-]|].
  destruct (run_store _ r2) as [[u|err] r3] eqn:E2; apply run_store_daemon in E2.
  - intros Hrun. eapply sent_trans_none; [exact Hs1|]. eapply sent_trans_none; [by apply sent_none|]. by eapply IH.
  - intros [= _ <-]. eapply sent_trans_none; [exact Hs1|by apply sent_none].
Qed.

Lemma sent_replay fuel io n dev r : prompts_sent r (replayPromptCommits fuel io n dev r) [].
Proof.
  revert n r. induction fuel as [|fuel IH]; intros n r; cbn [replayPromptCommits]; [by apply sent_none|].
  destruct (io_list (io n)); [by apply sent_none|].
  destruct (ListUncommittedAcceptedPrompts (commands r) dev 100) as [|c cmds]; [by apply sent_none|].
  destruct (replay_round io n (c :: cmds) r) as [[n'|] r1] eqn:E; apply sent_replay_round in E; [|done].
  eapply sent_trans_none; [exact E|apply IH].
Qed.

(** no blind resend. Handling one event puts at most one prompt on the wire
    to the daemon: for a phone's message only when the command is new,
    still registered, or failed with a retry allowed; for a daemon's frame only
    when the daemon says it has not seen a command that is pending; never when a
    daemon connects. So a command that is accepted or indeterminate is never
    sent again, and a pending one only on the daemon's own word. *)
Theorem prompt_forward_gate r ev :
  let r' := relay_step r ev in
  match ev with
  | PhoneMsg e dev msg =>
    prompts_sent r r' [] \/
    exists id f, prompts_sent r r' [(dev, f)] /\ (ClientMsgID f = id \/ carried_id f = Some id) /\
      match commands r !! (dev, id) with
      | None => True
      | Some c => Status c = Registered \/ (Status c = Failed /\ PromptStore.RetryAllowed c = true)
      end
  | DaemonMsg e dev msg =>
    prompts_sent r r' [] \/
    exists f c, prompts_sent r r' [(dev, f)] /\ msgType msg = MsgPromptNotSeen /\
      commands r !! (dev, promptClientMsgID msg) = Some c /\ Status c = Pending
  | DaemonConnects _ _ _ => prompts_sent r r' []
  end.
Proof.
  destruct ev as [e dev msg|e dev msg|fuel io dev]; simpl.
  - destruct (gate_phone e dev msg r) as [?|(id & f & Hs & Ho & Hid)]; [by left|right]. exists id, f. split_and!; [done|done|].
    unfold may_own in Ho. destruct (commands r !! (dev, id)); [|done]. destruct Ho as [?|(? & ? & _)]; auto.
  - apply gate_daemon.
  - apply (sent_trans_none r (set_catalog r dev empty_catalog)); [by apply sent_none|apply sent_replay].
Qed.

End Spec.


(** ** A concrete codec *)

(** A codec for sealed prompts: the text is the id behind a brace; what a frame
    carries is not kept. *)
Definition toy_sealed : SealedPayload := mkSealed "A256GCM" 1 "device" 1 "phone" "daemon" 7 "n" "c".

Definition toy_prompt (id : string) : NekoMessage :=
  mkMessage "1.3" TransportSealed MsgSendPrompt "dev" "s1" id "" None 0 None (Some toy_sealed).

#[export] Instance toy_codec : RelayCodec := {|
  marshal_attachments := fun atts => Ok (match atts with [] => "[]" | _ => "[...]" end);
  unmarshal_attachments := fun _ => Some [];
  marshal_message := fun m => Ok ("{" +:+ ClientMsgID m);
  unmarshal_message := fun w => match w with String _ id => Some (toy_prompt id) | EmptyString => None end;
  decode_session_message := fun v => match v with VString s => Some (mkSessionMessage s "assistant" s "text" 0 None) | _ => None end;
  encode_session_message := fun m => VString (smID m);
  decode_sessions := fun _ => [];
  encode_sessions := fun _ => VNil;
  decode_capabilities := fun _ => None;
  encode_capabilities := fun _ => VNil;
  encode_sealed := fun sp => VString (Ciphertext sp)
|}.

#[export] Instance toy_laws : RelayCodecLaws.
Proof. split. intros m w [= <-] _. split; [done|]. by intros m' [= <-]. Qed.

#[export] Instance toy_url : NetUrl := {|
  parse_RequestURI := fun _ => None;
  parse_path_k := fun p => Some (p, "")
|}.

Definition open_prompt (id text : string) : NekoMessage :=
  mkMessage "1.3" TransportOpen MsgSendPrompt "" "s1" "" "" None 0
    (Some (obj [("prompt", VString text); ("client_msg_id", VString id)])) None.

Definition daemon_says (t : MessageType) (id : string) : NekoMessage :=
  mkMessage "1.3" TransportOpen t "" "s1" id "" None 0 None None.

(** A prompt is sent, accepted and committed. *)
Definition accepted_run : list relay_event :=
  [PhoneMsg (relay_ok 10) "dev" (open_prompt "msg_1" "hello");
   DaemonMsg (relay_ok 20) "dev" (daemon_says MsgPromptAccepted "msg_1")].

Definition frame_types (l : list (string * NekoMessage)) : list MessageType := (fun f => msgType f.2) <$> l.

Lemma commit_follows_history_witness :
  (frame_types (to_daemon (foldl relay_step (fresh_relay TransportOpen) accepted_run)) = [MsgSendPrompt; MsgPromptCommitted] /\
   frame_types (to_phones (foldl relay_step (fresh_relay TransportOpen) accepted_run)) = [MsgPromptCommitted; MsgPromptSent]) /\
  (let r := foldl relay_step (fresh_relay TransportOpen) accepted_run in
   (forall dev f, (dev, f) ∈ to_daemon r \/ (dev, f) ∈ to_phones r -> msgType f = MsgPromptCommitted ->
      settled r dev (ClientMsgID f) (SessionID f)) /\
   (forall dev f, (dev, f) ∈ to_phones r -> msgType f = MsgPromptSent ->
      exists id, carried_id f = Some id /\ settled r dev id (SessionID f))).
Proof. split; [split; vm_compute; reflexivity|exact (commit_follows_history TransportOpen accepted_run)]. Defined.

(** The daemon has not seen a prompt the relay sent it: it is sent again. *)
Definition unseen_run : list relay_event := [PhoneMsg (relay_ok 10) "dev" (open_prompt "msg_1" "hello")].

Lemma prompt_forward_gate_witness :
  frame_types (to_daemon (relay_step (foldl relay_step (fresh_relay TransportOpen) unseen_run)
    (DaemonMsg (relay_ok 20) "dev" (daemon_says MsgPromptNotSeen "msg_1")))) = [MsgSendPrompt; MsgSendPrompt] /\
  (let r := foldl relay_step (fresh_relay TransportOpen) unseen_run in
   let msg := daemon_says MsgPromptNotSeen "msg_1" in
   let r' := relay_step r (DaemonMsg (relay_ok 20) "dev" msg) in
   prompts_sent r r' [] \/
   exists f c, prompts_sent r r' [("dev", f)] /\ msgType msg = MsgPromptNotSeen /\
     commands r !! ("dev", promptClientMsgID msg) = Some c /\ Status c = Pending).
Proof.
  split; [vm_compute; reflexivity|].
  exact (prompt_forward_gate (foldl relay_step (fresh_relay TransportOpen) unseen_run)
    (DaemonMsg (relay_ok 20) "dev" (daemon_says MsgPromptNotSeen "msg_1"))).
Defined.

(** ** Retention of the history *)

Lemma DeleteSessionMessages_exact dev session r id d s :
  messages (DeleteSessionMessages dev session r) !! (id, d, s) =
  if decide ((d, s) = (dev, session)) then None else messages r !! (id, d, s).
Proof.
  change (messages (DeleteSessionMessages dev session r)) with
    (filter (fun kv : (string * string * string) * SessionMessage => (kv.1.1.2, kv.1.2) <> (dev, session)) (messages r)).
  destruct (decide _) as [E|E].
  - apply map_lookup_filter_None. right. intros m _ Hne. cbn in Hne. by rewrite E in Hne.
  - destruct (messages r !! (id, d, s)) as [m|] eqn:Hm.
    + apply map_lookup_filter_Some. split; [done|]. cbn. intros [= -> ->]. done.
    + apply map_lookup_filter_None. by left.
Qed.

Lemma DeleteOldMessages_exact before r k :
  messages (DeleteOldMessages before r).2 !! k =
  match messages r !! k with Some m => if before <=? smTimestamp m then Some m else None | None => None end.
Proof.
  change (messages (DeleteOldMessages before r).2) with
    (filter (fun kv : (string * string * string) * SessionMessage => before <= smTimestamp kv.2) (messages r)).
  destruct (messages r !! k) as [m|] eqn:Hm; [|apply map_lookup_filter_None; by left].
  destruct (Z.leb_spec before (smTimestamp m)).
  - apply map_lookup_filter_Some. split; [done|]. cbn. lia.
  - apply map_lookup_filter_None. right. intros m' Hm' Hle. rewrite Hm in Hm'. injection Hm' as <-. cbn in Hle. lia.
Qed.
