(* ===== verification/RelayPromptSpec.v ===== *)
(** * The outcome of a prompt at the relay, when the store works *)

From stdpp Require Import base tactics list gmap strings relations sorting.
From Stdlib Require Import Ascii ZArith Lia.
From S2P Require Import Prelude GoStrings Json PromptStore PromptStoreSpec Protocol RelayInput Relay RelaySpec.

(** No store error at [t]; the write of the prompt ends in [o]. *)
Definition relay_send (t : Z) (o : send_outcome) : relayIO :=
  mkIO t (fun _ => None) sql_ok sql_ok sql_ok sql_ok sql_ok None None None None None o SendOk.

Section Outcomes.
Context `{RC : RelayCodec} `{NU : NetUrl}.

Lemma run_store_eq {A} (m : M promptTable A) r x t : m (commands r) = (x, t) -> run_store m r = (x, set_commands r t).
Proof. intros E. unfold run_store. by rewrite E. Qed.

Lemma run_forwarded now d m r c :
  commands r !! (d, m) = Some c -> Status c = Registered ->
  let c' := set_outcome c Pending (Error c) (PromptStore.Outcome c) (PromptStore.RetryAllowed c) (CommitSent c) now in
  run_store (MarkPromptForwarded sql_ok now d m) r = (Ok (c', true), set_commands r (<[(d, m) := c']> (commands r))).
Proof. intros Hc Hs. by apply run_store_eq, mark_forwarded_ok. Qed.

Lemma run_failed now d m msg outcome retry r c :
  commands r !! (d, m) = Some c -> Status c = Registered ->
  let c' := if bool_decide (outcome = PromptIndeterminate) then set_outcome c Indeterminate msg "indeterminate" false (CommitSent c) now
            else set_outcome c Failed msg (if is_empty outcome then PromptFailed else outcome) retry (CommitSent c) now in
  run_store (MarkPromptFailed sql_ok now d m msg outcome retry) r = (Ok (c', true), set_commands r (<[(d, m) := c']> (commands r))).
Proof. intros Hc Hs. by apply run_store_eq, mark_failed_ok. Qed.

Lemma run_accepted now d m r c :
  commands r !! (d, m) = Some c -> Status c <> Accepted ->
  let c' := set_outcome c Accepted "" "accepted" false false now in
  run_store (MarkPromptAccepted sql_ok now d m) r = (Ok (c', true), set_commands r (<[(d, m) := c']> (commands r))).
Proof. intros Hc Hs. by apply run_store_eq, mark_accepted_ok. Qed.

Lemma run_committed now d m r c :
  commands r !! (d, m) = Some c -> Status c = Accepted ->
  run_store (MarkPromptCommitted sql_ok now d m) r =
    (Ok tt, set_commands r (<[(d, m) := set_outcome c Accepted (Error c) (PromptStore.Outcome c) (PromptStore.RetryAllowed c) true now]> (commands r))).
Proof. intros Hc Hs. by apply run_store_eq, mark_committed_ok. Qed.

(** ** A new prompt in the clear *)

(** The frame sent on: the daemon's device, the id, and the attachments as
    sanitised. *)
Definition forwarded (dev id : string) (msg : NekoMessage) (p : payload) : NekoMessage :=
  let atts := normalizeAttachments (p !! "attachments") in
  with_payload (with_device msg dev)
    (Some (<["client_msg_id" := VString id]>
       (match atts with [] => p | _ => <["attachments" := attachments_value atts]> p end))).

Definition prompt_row (dev id session text json : string) (st : prompt_status) (error outcome : string) (retry : bool) (t : Z) : PromptCommand :=
  mkCommand dev id session text json "" st error outcome retry false t t.

(** The notice of a failure: type, id, outcome and whether a retry is allowed. *)
Definition failure_notice (f : NekoMessage) (id outcome : string) (retry : bool) : Prop :=
  msgType f = MsgPromptFailed /\ ClientMsgID f = id /\ Outcome f = outcome /\ RetryAllowed f = Some retry.

Lemma failed_notice e cmd r :
  exists f, broadcastPromptFailed e cmd r = BroadcastToPhones r (PromptStore.DeviceID cmd) f /\
    failure_notice f (PromptStore.ClientMsgID cmd) (PromptStore.Outcome cmd)
      (PromptStore.RetryAllowed cmd && bool_decide (Status cmd = Failed)).
Proof.
  unfold broadcastPromptFailed. eexists. split; [reflexivity|]. unfold failure_notice.
  destruct (bool_decide (relay_mode r = TransportOpen)); cbn [with_payload with_outcome with_client_msg_id msgType ClientMsgID Outcome RetryAllowed];
    rewrite stamp_type; done.
Qed.

(** Registering a new command leaves the forward to do. *)
Lemma open_prompt_registers e dev msg p text id json r :
  io_register e = sql_ok -> dev <> "" -> SessionID msg <> "" -> text <> "" -> id <> "" ->
  Payload msg = Some p -> p !! "prompt" = Some (VString text) ->
  sanitizeClientMsgID (stringPayload (Some p) "client_msg_id") = id ->
  marshal_attachments (normalizeAttachments (p !! "attachments")) = Ok json ->
  commands r !! (dev, id) = None ->
  let c := prompt_row dev id (SessionID msg) text json Registered "" "" false (now e) in
  handleOpenPrompt e dev msg r =
    forward_open e dev id (forwarded dev id msg p) c (set_commands r (<[(dev, id) := c]> (commands r))).
Proof.
  intros Hreg Hdev Hs Ht Hid Hp Htext Hsan Hjson Hnew. cbv zeta. unfold handleOpenPrompt. rewrite Hp. change (default (∅ : payload) (Some p)) with p. rewrite Htext.
  change (string_or_empty (Some (VString text))) with text.
  pose proof (proj2 (is_empty_false _) Ht) as Et. pose proof (proj2 (is_empty_false _) Hs) as Es. pose proof (proj2 (is_empty_false _) Hid) as Ei.
  rewrite Et. cbn [andb]. rewrite Es, Hsan, Ei, andb_false_r.
  cbn [with_payload with_device SessionID Payload].
  rewrite Hjson, Hreg.
  match goal with |- context [RegisterPromptCommand sql_ok ?n ?c ?b] =>
    rewrite (run_store_eq _ _ _ _ (register_ok_new n c b (commands r) Hdev Hid Hs Hnew)) end.
  reflexivity.
Qed.

(** a new prompt, when the store works, ends in exactly one of three ways.
    Written to the daemon, its row is pending and nobody else hears of it. The
    daemon known to be offline, the row is failed, may be retried, and the phones
    are told so. The write broken, the frame may or may not have arrived: the row
    is indeterminate, no retry is offered, and the phones are told that. Nothing
    is written to the history in any case. *)
Theorem open_prompt_outcomes o t dev msg p text id json r :
  msgType msg = MsgSendPrompt -> msgSealedPayload msg = None ->
  dev <> "" -> SessionID msg <> "" -> text <> "" -> id <> "" ->
  Payload msg = Some p -> p !! "prompt" = Some (VString text) ->
  sanitizeClientMsgID (stringPayload (Some p) "client_msg_id") = id ->
  marshal_attachments (normalizeAttachments (p !! "attachments")) = Ok json ->
  commands r !! (dev, id) = None ->
  let r' := handlePhoneMessage (relay_send t o) dev msg r in
  let row := prompt_row dev id (SessionID msg) text json in
  let frame := [(dev, forwarded dev id msg p)] in
  messages r' = messages r /\ pushes r' = pushes r /\
  match o with
  | SendOk =>
    commands r' = <[(dev, id) := row Pending "" "" false t]> (commands r) /\
    to_daemon r' = to_daemon r ++ frame /\ to_phones r' = to_phones r
  | SendOffline =>
    commands r' = <[(dev, id) := row Failed "device offline" "transport_error" true t]> (commands r) /\
    to_daemon r' = to_daemon r /\
    exists f, to_phones r' = to_phones r ++ [(dev, f)] /\ failure_notice f id "transport_error" true
  | SendBroken arrived =>
    commands r' = <[(dev, id) := row Indeterminate "prompt delivery outcome is indeterminate" "indeterminate" false t]> (commands r) /\
    to_daemon r' = to_daemon r ++ (if arrived then frame else []) /\
    exists f, to_phones r' = to_phones r ++ [(dev, f)] /\ failure_notice f id "indeterminate" false
  end.
Proof.
  intros Hty Hse Hdev Hs Ht Hid Hp Htext Hsan Hjson Hnew. cbv zeta. unfold handlePhoneMessage. rewrite Hty, Hse. cbn [is_some_b].
  rewrite (open_prompt_registers (relay_send t o) dev msg p text id json r) by done. cbn [relay_send now].
  set (c := prompt_row _ _ _ _ _ Registered _ _ _ _). unfold forward_open. cbn [relay_send io_send io_forward now].
  assert (Hc : forall t', (<[(dev, id) := c]> t' : promptTable) !! (dev, id) = Some c) by (intros; apply lookup_insert_eq).
  destruct o as [| |[]]; cbn [SendToDaemon]; unfold mark_forward_failure; cbn [forward_failure relay_send io_mark now].
  all: match goal with
       | |- context [run_store (MarkPromptForwarded _ _ _ _) ?s] => rewrite (run_forwarded t dev id s c (Hc (commands r)) eq_refl)
       | |- context [run_store (MarkPromptFailed _ _ _ _ ?m ?oc ?b) ?s] => rewrite (run_failed t dev id m oc b s c (Hc (commands r)) eq_refl)
       end.
  2, 3, 4: match goal with |- context [broadcastPromptFailed ?e ?x ?s] => destruct (failed_notice e x s) as (f & Ef & Hf) end.
  2, 3, 4: change (bool_decide (Status _ = Accepted)) with false; cbv iota beta; rewrite Ef.
  all: cbn; rewrite insert_insert_eq; split_and!; try done; rewrite ?app_nil_r; try done; by exists f.
Qed.

(** ** An acceptance *)

Definition committed_frame (t : Z) (c : PromptCommand) (r : relay) : NekoMessage :=
  stampEnvelope r (promptCommittedMessage (relay_ok t) c).

Definition with_history (c : PromptCommand) (ms : gmap (string * string * string) SessionMessage) : gmap (string * string * string) SessionMessage :=
  if is_empty (SealedEnvelopeJSON c)
  then <[(PromptStore.ClientMsgID c, PromptStore.DeviceID c, PromptStore.SessionID c) := user_message c]> ms else ms.

Definition commit_row (c : PromptCommand) (t : Z) : PromptCommand :=
  set_outcome c Accepted (Error c) (PromptStore.Outcome c) (PromptStore.RetryAllowed c) true t.

Lemma persist_ok e c r : io_save e = None ->
  persistAcceptedPrompt e c r = (true, set_messages r (with_history c (messages r))).
Proof.
  intros Hs. unfold persistAcceptedPrompt, with_history. destruct (is_empty (SealedEnvelopeJSON c)); cbn [negb]; [|by destruct r].
  unfold SaveMessage. by rewrite Hs.
Qed.

Lemma user_message_same c c' :
  same_payload c' c = true -> PromptStore.ClientMsgID c' = PromptStore.ClientMsgID c -> CreatedAt c' = CreatedAt c -> user_message c' = user_message c.
Proof. unfold same_payload, user_message, promptAttachments. intros Hp -> ->. bool_hyps. by rewrite H2, H1. Qed.

Lemma with_history_same c c' ms :
  same_payload c' c = true -> PromptStore.DeviceID c' = PromptStore.DeviceID c ->
  PromptStore.ClientMsgID c' = PromptStore.ClientMsgID c -> CreatedAt c' = CreatedAt c -> with_history c' ms = with_history c ms.
Proof.
  intros Hp Hd Hc Ht. unfold with_history. rewrite (user_message_same c c' Hp Hc Ht), Hd, Hc.
  unfold same_payload in Hp. bool_hyps. by rewrite H, H0.
Qed.

(** Saving, committing and acknowledging a row that is accepted. *)
Definition settle (e : relayIO) (c : PromptCommand) (r : relay) : relay :=
  match persistAcceptedPrompt e c r with
  | (false, r) => r
  | (true, r) => broadcastPromptSent e c (sendPromptCommitted e c r)
  end.

Definition acknowledgement (c : PromptCommand) (sent : list (string * NekoMessage)) : Prop :=
  if is_empty (SealedEnvelopeJSON c)
  then exists f, sent = [(PromptStore.DeviceID c, f)] /\ msgType f = MsgPromptSent /\ carried_id f = Some (PromptStore.ClientMsgID c)
  else sent = [].

Lemma settle_ok t c r :
  commands r !! (PromptStore.DeviceID c, PromptStore.ClientMsgID c) = Some c -> Status c = Accepted ->
  let dev := PromptStore.DeviceID c in
  let r' := settle (relay_ok t) c r in
  commands r' = <[(dev, PromptStore.ClientMsgID c) := commit_row c t]> (commands r) /\
  messages r' = with_history c (messages r) /\
  to_daemon r' = to_daemon r ++ [(dev, committed_frame t c r)] /\
  exists sent, to_phones r' = to_phones r ++ (dev, committed_frame t c r) :: sent /\ acknowledgement c sent.
Proof.
  intros Hk Ha dev. subst dev. unfold settle. rewrite persist_ok by done. unfold sendPromptCommitted.
  cbn [relay_ok io_commit_send SendToDaemon io_commit now].
  match goal with |- context [run_store (MarkPromptCommitted _ ?n ?d ?m) ?s] => rewrite (run_committed n d m s c Hk Ha) end.
  unfold broadcastPromptSent, acknowledgement. destruct (is_empty (SealedEnvelopeJSON c)) eqn:Es; cbn [negb];
    cbn; unfold commit_row, with_history; rewrite Es; (split; [done|]; split; [done|]; split; [done|]).
  - eexists. rewrite <- app_assoc. split; [reflexivity|]. eexists. split; [reflexivity|]. cbn [with_payload msgType].
    by rewrite stamp_type.
  - exists []. done.
Qed.

(** a daemon's acceptance of a known command, when nothing fails, whatever
    state the command was in: the row becomes accepted and committed with its
    content unchanged, the history of a prompt in the clear gains exactly its row
    (a sealed one leaves the history alone), the daemon gets one commit frame,
    and the phones the commit frame and, for a prompt in the clear, the
    acknowledgement. A duplicate acceptance does the same again. *)
Theorem acceptance_settles t dev msg r c :
  table_inv (commands r) -> msgType msg = MsgPromptAccepted -> promptClientMsgID msg <> "" ->
  (forall p, Payload msg = Some p -> as_bool (p !! "queued") <> Some true) ->
  commands r !! (dev, promptClientMsgID msg) = Some c ->
  let r' := handleDaemonMessage (relay_ok t) dev msg r in
  exists c' frame sent, same_payload c' c = true /\ Status c' = Accepted /\ CommitSent c' = true /\
    commands r' = <[(dev, promptClientMsgID msg) := c']> (commands r) /\
    messages r' = with_history c (messages r) /\
    msgType frame = MsgPromptCommitted /\ ClientMsgID frame = promptClientMsgID msg /\
    to_daemon r' = to_daemon r ++ [(dev, frame)] /\
    to_phones r' = to_phones r ++ (dev, frame) :: sent /\ acknowledgement c sent.
Proof.
  intros Hinv Ht Hid Hq Hk. destruct (Hinv _ _ Hk) as [[= -> Eid] _]. set (id := promptClientMsgID msg) in *.
  cbv zeta. unfold handleDaemonMessage. cbn [with_device msgType]. rewrite Ht. unfold handlePromptAccepted.
  change (promptClientMsgID (with_device msg (PromptStore.DeviceID c))) with id. rewrite (proj2 (is_empty_false _) Hid).
  cbn [with_device Payload].
  assert (Eq : match Payload msg with Some p => default false (as_bool (p !! "queued")) | None => false end = false).
  { destruct (Payload msg) as [p|]; [|done]. specialize (Hq p eq_refl). by destruct (as_bool (p !! "queued")) as [[]|]. }
  rewrite Eq. change (io_mark (relay_ok t)) with sql_ok. change (now (relay_ok t)) with t.
  assert (Hrow : exists a, run_store (MarkPromptAccepted sql_ok t (PromptStore.DeviceID c) id) r =
      (Ok a, set_commands r (<[(PromptStore.DeviceID c, id) := a.1]> (commands r))) /\ Status a.1 = Accepted /\ same_payload a.1 c = true /\
      PromptStore.DeviceID a.1 = PromptStore.DeviceID c /\ PromptStore.ClientMsgID a.1 = id /\ CreatedAt a.1 = CreatedAt c).
  { destruct (decide (Status c = Accepted)) as [Ha|Ha].
    - exists (c, false). cbn [fst]. rewrite insert_id by done. split_and!; try done; [|apply same_payload_refl].
      by apply run_store_eq, mark_accepted_again.
    - exists (set_outcome c Accepted "" "accepted" false false t, true). split; [by apply run_accepted|]. cbn. split_and!; try done. exact (same_payload_refl c). }
  destruct Hrow as ([a ch] & Hrun & Ha & Hp & Hd & Hc & Hcr). cbn [fst] in *. rewrite Hrun.
  rewrite bool_decide_true by done. cbn [negb].
  pose proof (settle_ok t a (set_commands r (<[(PromptStore.DeviceID c, id) := a]> (commands r)))) as Hs.
  unfold settle in Hs. rewrite Hd, Hc in Hs. destruct Hs as (H1 & H2 & H3 & sent & H4 & H5); [apply lookup_insert_eq|done|].
  exists (commit_row a t), (committed_frame t a (set_commands r (<[(PromptStore.DeviceID c, id) := a]> (commands r)))), sent.
  pose proof Hp as Hp'. unfold same_payload in Hp'. bool_hyps.
  split_and!; try done.
  - rewrite H1. cbn. by rewrite insert_insert_eq.
  - rewrite H2. cbn. rewrite (with_history_same c a); [done|done|done|by rewrite Hc|done].
  - unfold acknowledgement in *. rewrite Hd, Hc, Eid, H0 in H5. exact H5.
Qed.

(** ** The replay of commits *)

Definition reliable (io : nat -> relayIO) : Prop :=
  forall n, io_list (io n) = None /\ io_save (io n) = None /\ io_commit (io n) = sql_ok /\ io_commit_send (io n) = SendOk.

Definition unconfirmed (r : relay) (dev : string) (c : PromptCommand) : Prop :=
  commands r !! (dev, PromptStore.ClientMsgID c) = Some c /\ uncommitted_of dev c = true.

Definition confirms (c : PromptCommand) (f : NekoMessage) : Prop :=
  msgType f = MsgPromptCommitted /\ ClientMsgID f = PromptStore.ClientMsgID c /\ SessionID f = PromptStore.SessionID c.

(** [r'] is [r] after the rows [cmds] of [dev] were confirmed with [frames]. *)
Record confirmed (dev : string) (cmds : list PromptCommand) (frames : list NekoMessage) (r r' : relay) : Prop := {
  cf_frames : Forall2 confirms cmds frames;
  cf_daemon : to_daemon r' = to_daemon r ++ ((fun f => (dev, f)) <$> frames);
  cf_phones : to_phones r' = to_phones r;
  cf_rows : forall c, c ∈ cmds -> exists t, commands r' !! (dev, PromptStore.ClientMsgID c) = Some (commit_row c t);
  cf_other_rows : forall k, (forall c, c ∈ cmds -> k <> (dev, PromptStore.ClientMsgID c)) -> commands r' !! k = commands r !! k;
  cf_history : forall c, c ∈ cmds -> SealedEnvelopeJSON c = "" ->
    messages r' !! (PromptStore.ClientMsgID c, dev, PromptStore.SessionID c) = Some (user_message c);
  cf_other_history : forall k,
    (forall c, c ∈ cmds -> k <> (PromptStore.ClientMsgID c, dev, PromptStore.SessionID c)) -> messages r' !! k = messages r !! k
}.

Lemma confirmed_nil dev r : confirmed dev [] [] r r.
Proof. split; try done; [by rewrite app_nil_r|intros c Hc; by apply elem_of_nil in Hc..]. Qed.

Lemma confirmed_app dev cmds1 frames1 cmds2 frames2 r r1 r2 :
  confirmed dev cmds1 frames1 r r1 -> confirmed dev cmds2 frames2 r1 r2 ->
  NoDup (PromptStore.ClientMsgID <$> (cmds1 ++ cmds2)) ->
  confirmed dev (cmds1 ++ cmds2) (frames1 ++ frames2) r r2.
Proof.
  intros [F1 D1 P1 R1 O1 H1 M1] [F2 D2 P2 R2 O2 H2 M2] Hnd.
  rewrite fmap_app in Hnd. apply NoDup_app in Hnd as (_ & Hdisj & _).
  assert (Hne : forall c c2, c ∈ cmds1 -> c2 ∈ cmds2 -> PromptStore.ClientMsgID c <> PromptStore.ClientMsgID c2).
  { intros c c2 Hc Hc2 E. apply (Hdisj (PromptStore.ClientMsgID c)); [by apply list_elem_of_fmap_2|].
    rewrite E. by apply list_elem_of_fmap_2. }
  split.
  - by apply Forall2_app.
  - by rewrite D2, D1, fmap_app, app_assoc.
  - by rewrite P2.
  - intros c [Hc|Hc]%elem_of_app; [|by apply R2]. destruct (R1 c Hc) as [t Ht]. exists t. rewrite O2; [done|].
    intros c2 Hc2 [= E]. by eapply Hne.
  - intros k Hk. rewrite O2, O1; [done|intros c Hc; apply Hk, elem_of_app; auto..].
  - intros c [Hc|Hc]%elem_of_app Hs; [|by apply H2]. rewrite M2; [by apply H1|]. intros c2 Hc2 [= E _]. by eapply Hne.
  - intros k Hk. rewrite M2, M1; [done|intros c Hc; apply Hk, elem_of_app; auto..].
Qed.

Lemma uncommitted_spec dev c : uncommitted_of dev c = true <->
  PromptStore.DeviceID c = dev /\ Status c = Accepted /\ CommitSent c = false.
Proof. unfold uncommitted_of. rewrite !andb_true_iff, !bool_decide_eq_true, negb_true_iff. tauto. Qed.

(** One row. *)
Lemma replay_one io n c dev cmds r :
  reliable io -> unconfirmed r dev c ->
  exists r1 f, replay_round io n (c :: cmds) r = replay_round io (S n) cmds r1 /\ confirmed dev [c] [f] r r1.
Proof.
  intros Hio [Hk (Hd & Ha & _)%uncommitted_spec]. subst dev. destruct (Hio n) as (_ & Hsave & Hcommit & Hsend).
  cbn [replay_round]. rewrite persist_ok by done. rewrite Hsend. cbn [SendToDaemon]. rewrite Hcommit.
  match goal with |- context [run_store (MarkPromptCommitted _ ?t ?d ?m) ?s] => rewrite (run_committed t d m s c Hk Ha) end.
  set (f := stampEnvelope (set_messages r (with_history c (messages r))) (promptCommittedMessage (io n) c)).
  eexists _, f. split; [reflexivity|]. split; cbn.
  - constructor; [|constructor]. unfold confirms, f. rewrite stamp_type.
    by destruct (stamp_ids (set_messages r (with_history c (messages r))) (promptCommittedMessage (io n) c)) as (-> & -> & _).
  - done.
  - done.
  - intros c' ->%list_elem_of_singleton. eexists. by rewrite lookup_insert_eq.
  - intros k Hne. rewrite lookup_insert_ne; [done|]. intros E. by apply (Hne c); [apply list_elem_of_singleton|].
  - intros c' ->%list_elem_of_singleton Hs. unfold with_history. rewrite Hs. cbn. by rewrite lookup_insert_eq.
  - intros k Hne. unfold with_history. destruct (is_empty _); [|done]. rewrite lookup_insert_ne; [done|].
    intros E. by apply (Hne c); [apply list_elem_of_singleton|].
Qed.

Lemma replay_round_ok io n cmds dev r :
  reliable io -> NoDup (PromptStore.ClientMsgID <$> cmds) -> Forall (unconfirmed r dev) cmds ->
  exists r1 frames m, replay_round io n cmds r = (Some m, r1) /\ confirmed dev cmds frames r r1.
Proof.
  intros Hio. revert n r. induction cmds as [|c cmds IH]; intros n r Hnd Hall.
  { exists r, [], n. split; [done|apply confirmed_nil]. }
  apply Forall_cons in Hall as [Hc Hall]. rewrite fmap_cons in Hnd. pose proof Hnd as [Hnin Hnd']%NoDup_cons.
  destruct (replay_one io n c dev cmds r Hio Hc) as (r1 & f & -> & H1).
  destruct (IH (S n) r1 Hnd') as (r2 & frames & m & Hrun & H2).
  { rewrite Forall_forall in Hall |- *. intros c' Hc'. destruct (Hall c' Hc') as [Hk Hu]. split; [|done].
    rewrite (cf_other_rows _ _ _ _ _ H1); [done|]. intros c0 ->%list_elem_of_singleton [= E].
    apply Hnin. rewrite <- E. by apply list_elem_of_fmap_2. }
  exists r2, (f :: frames), m. split; [done|]. by apply (confirmed_app dev [c] [f] cmds frames r r1 r2).
Qed.

(** The keys still to confirm: every round empties some of them. *)
Definition unconfirmed_keys (t : promptTable) (dev : string) : gset (string * string) :=
  dom (filter (fun kv : (string * string) * PromptCommand => uncommitted_of dev kv.2 = true) t).

Lemma elem_of_unconfirmed_keys t dev k :
  k ∈ unconfirmed_keys t dev <-> exists c, t !! k = Some c /\ uncommitted_of dev c = true.
Proof.
  unfold unconfirmed_keys. rewrite elem_of_dom. unfold is_Some. setoid_rewrite map_lookup_filter_Some. done.
Qed.

Lemma table_key (t : promptTable) d m c : table_inv t -> t !! (d, m) = Some c -> PromptStore.DeviceID c = d /\ PromptStore.ClientMsgID c = m.
Proof. intros Hinv Hk. destruct (Hinv _ _ Hk) as [[= -> ->] _]. done. Qed.

Lemma listed_unconfirmed r dev c :
  table_inv (commands r) -> c ∈ ListUncommittedAcceptedPrompts (commands r) dev 100 -> unconfirmed r dev c.
Proof.
  intros Hinv Hc. unfold ListUncommittedAcceptedPrompts in Hc.
  apply elem_of_take, (elem_of_uncommitted _ _ _ Hinv) in Hc as [Hk Hu]. split; [|done].
  by rewrite <- (proj1 (proj1 (uncommitted_spec dev c) Hu)).
Qed.

Lemma listed_nothing r dev c :
  table_inv (commands r) -> ListUncommittedAcceptedPrompts (commands r) dev 100 = [] -> ~ unconfirmed r dev c.
Proof.
  intros Hinv Hl [Hk Hu]. unfold ListUncommittedAcceptedPrompts in Hl. simpl in Hl.
  assert (Hin : c ∈ merge_sort command_before (List.filter (uncommitted_of dev) (map_to_list (commands r)).*2)).
  { apply (elem_of_uncommitted _ _ _ Hinv). split; [|done]. by rewrite (proj1 (proj1 (uncommitted_spec dev c) Hu)). }
  destruct (merge_sort _ _); [by apply elem_of_nil in Hin|done].
Qed.

Lemma listed_NoDup r dev :
  table_inv (commands r) -> NoDup (PromptStore.ClientMsgID <$> ListUncommittedAcceptedPrompts (commands r) dev 100).
Proof.
  intros Hinv. apply NoDup_fmap_2_strong.
  - intros c1 c2 H1 H2 E. apply listed_unconfirmed in H1 as [K1 _]; [|done]. apply listed_unconfirmed in H2 as [K2 _]; [|done].
    rewrite E in K1. congruence.
  - unfold ListUncommittedAcceptedPrompts. eapply sublist_NoDup; [|apply sublist_take]. rewrite merge_sort_Permutation.
    apply NoDup_ListNoDup, List.NoDup_filter, NoDup_ListNoDup.
    apply NoDup_fmap_2_strong; [|apply NoDup_map_to_list]. intros [k1 c1] [k2 c2] H1%elem_of_map_to_list H2%elem_of_map_to_list E.
    simpl in E. subst c2. destruct (Hinv _ _ H1) as [-> _], (Hinv _ _ H2) as [-> _]. done.
Qed.

Lemma commit_row_inv c t : row_inv c -> Status c = Accepted -> row_inv (commit_row c t).
Proof.
  intros Hrow Ha. split; cbn; try done; [|intros _; by apply Hrow|by intros []].
  intros Hf. apply (ri_retry _ Hrow) in Hf. congruence.
Qed.

Lemma confirmed_inv dev cmds frames r r1 :
  Forall (unconfirmed r dev) cmds -> confirmed dev cmds frames r r1 -> table_inv (commands r) -> table_inv (commands r1).
Proof.
  intros Hall Hc Hinv k c Hk.
  destruct (decide (Exists (fun c0 => k = (dev, PromptStore.ClientMsgID c0)) cmds)) as [(c0 & Hin & ->)%Exists_exists|Hn].
  - destruct (cf_rows _ _ _ _ _ Hc c0 Hin) as [t Ht]. rewrite Ht in Hk. injection Hk as <-.
    rewrite Forall_forall in Hall. destruct (Hall c0 Hin) as [Hk0 (Hd & Ha & _)%uncommitted_spec]. destruct (Hinv _ _ Hk0) as [E Hrow].
    split; [exact E|by apply commit_row_inv].
  - rewrite (cf_other_rows _ _ _ _ _ Hc) in Hk; [by apply Hinv|]. intros c0 Hin ->. apply Hn, Exists_exists. by exists c0.
Qed.

(** What a round leaves unconfirmed is what it did not list. *)
Lemma confirmed_rest dev cmds frames r r1 c :
  Forall (unconfirmed r dev) cmds -> confirmed dev cmds frames r r1 ->
  unconfirmed r1 dev c <-> unconfirmed r dev c /\ c ∉ cmds.
Proof.
  intros Hall Hc. rewrite Forall_forall in Hall.
  assert (Hdec : c ∈ cmds \/ c ∉ cmds) by (destruct (decide (c ∈ cmds)); auto).
  assert (Hsame : (forall c0, c0 ∈ cmds -> PromptStore.ClientMsgID c <> PromptStore.ClientMsgID c0) ->
    commands r1 !! (dev, PromptStore.ClientMsgID c) = commands r !! (dev, PromptStore.ClientMsgID c)).
  { intros Hne. apply (cf_other_rows _ _ _ _ _ Hc). intros c0 Hc0 [= E]. by eapply Hne. }
  assert (Hgone : forall c0, c0 ∈ cmds -> PromptStore.ClientMsgID c = PromptStore.ClientMsgID c0 -> ~ unconfirmed r1 dev c).
  { intros c0 Hc0 E [Hk (_ & _ & Hcs)%uncommitted_spec]. destruct (cf_rows _ _ _ _ _ Hc c0 Hc0) as [t Ht].
    rewrite E, Ht in Hk. injection Hk as <-. done. }
  split.
  - intros Hu. assert (Hn : c ∉ cmds) by (intros Hin; by eapply Hgone). split; [|done].
    destruct Hu as [Hk Hu]. split; [|done]. rewrite <- Hsame; [done|]. intros c0 Hc0 E. by apply (Hgone c0).
  - intros [[Hk Hu] Hn]. split; [|done]. rewrite Hsame; [done|]. intros c0 Hc0 E. destruct (Hall c0 Hc0) as [Hk0 _].
    rewrite <- E in Hk0. apply Hn. by simplify_eq.
Qed.

Lemma confirmed_shrinks dev cmds frames r r1 :
  Forall (unconfirmed r dev) cmds -> confirmed dev cmds frames r r1 -> cmds <> [] -> table_inv (commands r) ->
  (size (unconfirmed_keys (commands r1) dev) < size (unconfirmed_keys (commands r) dev))%nat.
Proof.
  intros Hall Hc Hne Hinv. pose proof (confirmed_inv _ _ _ _ _ Hall Hc Hinv) as Hinv1.
  assert (Hu : forall s k, table_inv (commands s) -> k ∈ unconfirmed_keys (commands s) dev <->
    exists c, k = (dev, PromptStore.ClientMsgID c) /\ unconfirmed s dev c).
  { intros s k Hs. rewrite elem_of_unconfirmed_keys. split.
    - intros (c & Hk & Hu). exists c. destruct (Hs _ _ Hk) as [-> _]. rewrite (proj1 (proj1 (uncommitted_spec dev c) Hu)) in *. done.
    - intros (c & -> & Hk & Hu). by exists c. }
  apply subset_size. split.
  - intros k. rewrite !Hu by done. intros (c & -> & Hcu). exists c. split; [done|]. by apply (confirmed_rest _ _ _ _ _ c Hall Hc) in Hcu as [? _].
  - destruct cmds as [|c0 cmds]; [done|]. pose proof Hall as [Hc0 _]%Forall_cons. intros Hsub.
    assert (Hin : (dev, PromptStore.ClientMsgID c0) ∈ unconfirmed_keys (commands r1) dev) by (apply Hsub, Hu; [done|by exists c0]).
    apply Hu in Hin as (c & [= E] & Hcu); [|done]. pose proof Hcu as [[Hk _] Hnin]%(confirmed_rest _ _ _ _ _ c Hall Hc).
    apply Hnin. destruct Hc0 as [Hk0 _]. rewrite E in Hk0. rewrite Hk in Hk0. injection Hk0 as ->. constructor.
Qed.


End Outcomes.

(** ** Witnesses *)

Definition w_payload : payload := obj [("prompt", VString "hello"); ("client_msg_id", VString "msg_1")].
Definition w_prompt : NekoMessage := open_prompt "msg_1" "hello".

Lemma open_prompt_outcomes_witness :
  commands (handlePhoneMessage (relay_send 5 SendOffline) "dev" w_prompt (fresh_relay TransportOpen)) =
    {[("dev", "msg_1") := prompt_row "dev" "msg_1" "s1" "hello" "[]" Failed "device offline" "transport_error" true 5]}.
Proof.
  apply (open_prompt_outcomes SendOffline 5 "dev" w_prompt w_payload "hello" "msg_1" "[]" (fresh_relay TransportOpen));
    first [done | vm_compute; reflexivity | vm_compute; discriminate].
Defined.

Definition w_row : PromptCommand := prompt_row "dev" "msg_1" "s1" "hello" "[]" Pending "" "" false 5.
Definition w_relay : relay := set_commands (fresh_relay TransportOpen) {[("dev", "msg_1") := w_row]}.

Lemma w_row_inv st o : (st = Pending /\ o = "") \/ (st = Accepted /\ o = "accepted") ->
  table_inv {[("dev", "msg_1") := prompt_row "dev" "msg_1" "s1" "hello" "[]" st "" o false 5]}.
Proof.
  intros Hst k c [<- <-]%lookup_singleton_Some. split; [done|]. destruct Hst as [[-> ->]|[-> ->]]; split; cbn; try done; by intros [].
Qed.

Lemma acceptance_settles_witness :
  exists c' frame sent, same_payload c' w_row = true /\ Status c' = Accepted /\ CommitSent c' = true /\
    commands (handleDaemonMessage (relay_ok 9) "dev" (daemon_says MsgPromptAccepted "msg_1") w_relay) = <[("dev", "msg_1") := c']> (commands w_relay) /\
    messages (handleDaemonMessage (relay_ok 9) "dev" (daemon_says MsgPromptAccepted "msg_1") w_relay) = with_history w_row (messages w_relay) /\
    msgType frame = MsgPromptCommitted /\ ClientMsgID frame = "msg_1" /\
    to_daemon (handleDaemonMessage (relay_ok 9) "dev" (daemon_says MsgPromptAccepted "msg_1") w_relay) = [] ++ [("dev", frame)] /\
    to_phones (handleDaemonMessage (relay_ok 9) "dev" (daemon_says MsgPromptAccepted "msg_1") w_relay) = [] ++ ("dev", frame) :: sent /\
    acknowledgement w_row sent.
Proof.
  apply (acceptance_settles 9 "dev" (daemon_says MsgPromptAccepted "msg_1") w_relay w_row).
  - apply w_row_inv. by left.
  - reflexivity.
  - vm_compute. discriminate.
  - intros p E. discriminate E.
  - vm_compute. reflexivity.
Defined.

Definition w_accepted : relay :=
  set_commands (fresh_relay TransportOpen) {[("dev", "msg_1") := prompt_row "dev" "msg_1" "s1" "hello" "[]" Accepted "" "accepted" false 5]}.

