(* ===== verification/RelaySealedSpec.v ===== *)
(** * Sealed mode: the relay never holds application plaintext *)

From stdpp Require Import base tactics list gmap strings relations.
From Stdlib Require Import Ascii ZArith Lia.
From S2P Require Import Prelude GoStrings Json PromptStore PromptStoreSpec Protocol RelayInput Relay RelaySpec.

(** A frame the read loop of a sealed relay lets through. *)
Definition admitted (ev : relay_event) : bool :=
  match ev with
  | PhoneMsg _ _ msg | DaemonMsg _ _ msg => is_ok (ValidateFrameForTransport (Some msg) TransportSealed)
  | DaemonConnects _ _ _ => true
  end.

Lemma admitted_body msg :
  is_ok (ValidateFrameForTransport (Some msg) TransportSealed) = true -> BodyPolicy (msgType msg) = MessageBodyApplication ->
  Payload msg = None /\
  (is_some_b (msgSealedPayload msg) = false -> msgType msg = MsgPromptFailed \/ msgType msg = MsgThreadFailed \/ msgType msg = MsgThreadIndeterminate).
Proof.
  intros Hv Hp. unfold ValidateFrameForTransport, ValidateEnvelopeForm, mbind, res_bind, fail_if in Hv.
  destruct (is_some_b (Payload msg) && is_some_b (msgSealedPayload msg))%bool eqn:Eb; [done|].
  destruct (negb (bool_decide (msgTransportMode msg = TransportSealed))); [done|].
  destruct (ParseProtocolVersion (ProtocolVersion msg)) as [v|]; [|done]. destruct (negb (Major v =? _)); [done|].
  destruct (bool_decide (BodyPolicy (msgType msg) = MessageBodyUnknown)); [done|].
  destruct (isSealedFailClosedRouting msg) eqn:Ef.
  - unfold isSealedFailClosedRouting in Ef. destruct (_ || _)%bool eqn:E; [done|]. bool_hyps.
    split; [by destruct (Payload msg)|]. intros _. destruct (msgType msg); try done; auto.
  - rewrite Hp, bool_decide_true in Hv by done. cbn [andb] in Hv.
    destruct (msgSealedPayload msg); cbn [is_some_b negb] in *; [|done]. split; [|done].
    destruct (Payload msg); [done|done].
Qed.

(** ** What a blind relay may hold *)

Definition relay_errors : list string :=
  [""; "device offline"; "prompt delivery outcome is indeterminate"; "daemon rejected prompt"].

Definition blind_frame (f : NekoMessage) : Prop :=
  BodyPolicy (msgType f) = MessageBodyApplication ->
  Payload f = None \/ (msgType f = MsgFetchHistory /\ exists n, Payload f = Some {["limit" := VInt n]}).

Definition blind_phone_frame (f : NekoMessage) : Prop := BodyPolicy (msgType f) = MessageBodyApplication -> Payload f = None.

Definition blind_message (m : SessionMessage) : Prop :=
  smContent m = "" /\ smRole m = "assistant" /\ smType m = "sealed" /\
  forall p k, smMetadata m = Some p -> is_Some (p !! k) -> k ∈ ["sealed"; "sealed_payload"; "protocol_version"; "transport_mode"].

Definition blind_catalog (c : catalog) : Prop :=
  Sessions c = ∅ /\ AgentStartCapabilities c = None /\ forall f, SealedCatalog c = Some f -> Payload f = None.

Definition blind_push (p : push) : Prop := pushTitle p = "NekoNest" /\ pushBody p = "有一个会话需要处理".

Section Blind.
Context `{RC : RelayCodec} `{RL : !RelayCodecLaws} `{NU : NetUrl}.

(** The envelope of a row encodes a prompt frame without a payload. *)
Definition blind_row (c : PromptCommand) : Prop :=
  Prompt c = "" /\ AttachmentsJSON c = "[]" /\ Error c ∈ relay_errors /\
  exists m, marshal_message m = Ok (SealedEnvelopeJSON c) /\ msgType m = MsgSendPrompt /\ Payload m = None.

Record blind (r : relay) : Prop := {
  b_mode : mode r = TransportSealed;
  b_rows : forall k c, commands r !! k = Some c -> blind_row c;
  b_messages : forall k m, messages r !! k = Some m -> blind_message m;
  b_catalogs : forall dev c, catalogs r !! dev = Some c -> blind_catalog c;
  b_daemon : forall dev f, (dev, f) ∈ to_daemon r -> blind_frame f;
  b_phones : forall dev f, (dev, f) ∈ to_phones r -> blind_phone_frame f;
  b_pushes : forall p, p ∈ pushes r -> blind_push p
}.

Definition keeps_blind (r r' : relay) : Prop := blind r -> blind r'.

Lemma kb_refl r : keeps_blind r r.
Proof. exact (fun Hb => Hb). Qed.

Lemma kb_trans r1 r2 r3 : keeps_blind r1 r2 -> keeps_blind r2 r3 -> keeps_blind r1 r3.
Proof. intros H12 H23 Hb. by apply H23, H12. Qed.

Lemma kb_intro r r' : (blind r -> keeps_blind r r') -> keeps_blind r r'.
Proof. intros Hk Hb. exact (Hk Hb Hb). Qed.

Lemma kb_deliver r dev m : blind_frame m -> keeps_blind r (deliver r dev m).
Proof.
  intros Hm [? ? ? ? Hd ? ?]. split; try done. simpl. intros d f [Hin|Hin]%elem_of_app; [by eapply Hd|].
  apply list_elem_of_singleton in Hin. by simplify_eq.
Qed.

Lemma kb_broadcast r dev m : blind_phone_frame m -> keeps_blind r (BroadcastToPhones r dev m).
Proof.
  intros Hm [? ? ? ? ? Hd ?]. split; try done. simpl. intros d f [Hin|Hin]%elem_of_app; [by eapply Hd|].
  apply list_elem_of_singleton in Hin. by simplify_eq.
Qed.

Lemma kb_send o dev m r : blind_frame m -> keeps_blind r (SendToDaemon o dev m r).2.
Proof. intros Hm. destruct o as [| |[]]; simpl; try apply kb_refl; by apply kb_deliver. Qed.

Lemma kb_push r dev session : keeps_blind r (sendPushNotification r dev session "NekoNest" "有一个会话需要处理").
Proof.
  intros [? ? ? ? ? ? Hp]. split; try done. simpl. intros p [Hin|Hin]%elem_of_app; [by apply Hp|].
  apply list_elem_of_singleton in Hin. by subst.
Qed.

Lemma kb_attention r a : keeps_blind r (set_attention r a).
Proof. intros [? ? ? ? ? ? ?]. by split. Qed.

Lemma kb_catalog r dev c : blind_catalog c -> keeps_blind r (set_catalog r dev c).
Proof.
  intros Hc [? ? ? Hcs ? ? ?]. split; try done. simpl. intros d c' Hk.
  destruct (decide (dev = d)) as [->|]; [rewrite lookup_insert_eq in Hk; by simplify_eq|].
  rewrite lookup_insert_ne in Hk by done. by eapply Hcs.
Qed.

Lemma kb_table r t : (blind r -> forall k c, t !! k = Some c -> blind_row c) -> keeps_blind r (set_commands r t).
Proof. intros Ht Hb. specialize (Ht Hb). destruct Hb. by split. Qed.

(** ** The prompt table *)

Definition blind_table (t : promptTable) : Prop := forall k c, t !! k = Some c -> blind_row c.

Lemma update_where_blind k guard set t :
  (forall c, blind_row c -> blind_row (set c)) -> blind_table t -> blind_table (update_where k guard set t).2.
Proof.
  intros Hset Ht k' c. rewrite update_where_lookup. intros Hc. case_bool_decide as E; [subst k'|by eapply Ht].
  destruct (t !! k) as [c0|] eqn:Ek; [|done]. simpl in Hc. destruct (guard c0); simplify_eq; [apply Hset|]; by eapply Ht.
Qed.

Lemma blind_outcome c st e o b s n : e ∈ relay_errors -> blind_row c -> blind_row (set_outcome c st e o b s n).
Proof. by intros He (?&?&_&?). Qed.

Lemma blind_outcome_same c st o b s n : blind_row c -> blind_row (set_outcome c st (Error c) o b s n).
Proof. by intros (?&?&?&?). Qed.

Lemma fail_stmt_blind now d m msg o b t :
  msg ∈ relay_errors -> blind_table t -> blind_table (fail_stmt now d m msg o b t).2.
Proof. intros Hm. unfold fail_stmt. case_bool_decide; apply update_where_blind; intros c; by apply blind_outcome. Qed.

Lemma kb_transition f d m stmt r x r' :
  (forall t, blind_table t -> blind_table (stmt t).2) -> run_store (promptTransitionResult f d m stmt) r = (x, r') ->
  keeps_blind r r' /\ forall c b, x = Ok (c, b) -> blind r' -> blind_row c.
Proof.
  intros Hs. unfold run_store. destruct (promptTransitionResult f d m stmt (commands r)) as [y t] eqn:E. intros [= <- <-]. split.
  - apply kb_table. intros Hb. apply transition_table in E as [-> | ->]; [exact (b_rows _ Hb)|exact (Hs _ (b_rows _ Hb))].
  - intros c b -> Hb. unfold promptTransitionResult in E.
    apply M_bind_ok in E as (ch & t1 & _ & E). apply M_bind_ok in E as (u & t2 & _ & E).
    apply M_bind_ok in E as (c' & t3 & E & E2). apply get_result in E as [-> E]. injection E2 as <- <- <-.
    eapply (b_rows _ Hb). by apply E.
Qed.

Lemma kb_mark_failed f now d m msg o b r x r' :
  msg ∈ relay_errors -> run_store (MarkPromptFailed f now d m msg o b) r = (x, r') ->
  keeps_blind r r' /\ forall c ch, x = Ok (c, ch) -> blind r' -> blind_row c.
Proof. intros Hm. apply kb_transition. intros t. by apply fail_stmt_blind. Qed.

Lemma empty_error : "" ∈ relay_errors.
Proof. apply list_elem_of_here. Qed.

Lemma kb_mark_accepted f now d m r x r' :
  run_store (MarkPromptAccepted f now d m) r = (x, r') ->
  keeps_blind r r' /\ forall c ch, x = Ok (c, ch) -> blind r' -> blind_row c.
Proof. apply kb_transition. intros t. apply update_where_blind. intros c. apply blind_outcome, empty_error. Qed.

Lemma kb_mark_forwarded f now d m r x r' : run_store (MarkPromptForwarded f now d m) r = (x, r') -> keeps_blind r r'.
Proof.
  intros E. eapply kb_transition in E as [Hk _]; [exact Hk|]. intros t. apply update_where_blind. intros c. apply blind_outcome_same.
Qed.

Lemma kb_mark_committed f now d m r x r' : run_store (MarkPromptCommitted f now d m) r = (x, r') -> keeps_blind r r'.
Proof.
  unfold run_store. destruct (MarkPromptCommitted f now d m (commands r)) as [y t] eqn:E. intros [= <- <-].
  apply kb_table. intros Hb. apply commit_table in E as [-> | ->]; [exact (b_rows _ Hb)|].
  apply update_where_blind; [|exact (b_rows _ Hb)]. intros c. apply blind_outcome_same.
Qed.

Lemma kb_register f now cmd retry r x r' :
  (forall n, blind_row (mkCommand (PromptStore.DeviceID cmd) (PromptStore.ClientMsgID cmd) (PromptStore.SessionID cmd) (Prompt cmd)
     (AttachmentsJSON cmd) (SealedEnvelopeJSON cmd) Registered "" "" false false n n)) ->
  run_store (RegisterPromptCommand f now cmd retry) r = (x, r') ->
  keeps_blind r r' /\ forall s owns, x = Ok (RegOk s owns) -> blind r' -> blind_row s.
Proof.
  intros Hnew. unfold run_store. destruct (RegisterPromptCommand f now cmd retry (commands r)) as [y t] eqn:E. intros [= <- <-].
  pose proof (register_steps _ _ _ _ _ _ _ E) as [_ Hres]. split.
  - apply kb_table. intros Hb. apply register_table in E as (t1 & Ht1 & Ht).
    assert (H1 : blind_table t1).
    { destruct Ht1 as [-> | ->]; [exact (b_rows _ Hb)|]. unfold stmt_insert.
      destruct (commands r !! (PromptStore.DeviceID cmd, PromptStore.ClientMsgID cmd)); [exact (b_rows _ Hb)|].
      intros k c Hk. cbn [snd] in Hk. apply lookup_insert_Some in Hk as [[_ <-]|[_ Hk]]; [apply Hnew|by eapply (b_rows _ Hb)]. }
    destruct Ht as [-> | ->]; [done|]. apply update_where_blind; [|done]. intros c. apply blind_outcome, empty_error.
  - intros s owns -> Hb. destruct (Hres s owns eq_refl) as (Hk & _). by eapply (b_rows _ Hb).
Qed.

(** ** Prompts *)

Lemma blind_sealed c : blind_row c -> is_empty (SealedEnvelopeJSON c) = false.
Proof. intros (_ & _ & _ & m & Hm & Ht & _). apply is_empty_false. by apply marshal_prompt in Hm as [? _]. Qed.

Lemma kb_routing r dev m : BodyPolicy (msgType m) <> MessageBodyApplication -> keeps_blind r (BroadcastToPhones r dev m).
Proof. intros Hp. apply kb_broadcast. intros E. by destruct (Hp E). Qed.

Lemma kb_no_body r dev m : Payload m = None -> keeps_blind r (BroadcastToPhones r dev m).
Proof. intros Hp. apply kb_broadcast. by intros _. Qed.

Lemma routing_frame m : BodyPolicy (msgType m) <> MessageBodyApplication -> blind_frame m.
Proof. intros Hp E. by destruct (Hp E). Qed.

Lemma committed_routing e cmd : BodyPolicy (msgType (promptCommittedMessage e cmd)) <> MessageBodyApplication.
Proof. discriminate. Qed.

Lemma stamped_routing r m : BodyPolicy (msgType m) <> MessageBodyApplication -> BodyPolicy (msgType (stampEnvelope r m)) <> MessageBodyApplication.
Proof. by rewrite stamp_type. Qed.

Lemma kb_failed e cmd r : keeps_blind r (broadcastPromptFailed e cmd r).
Proof.
  apply kb_intro. intros Hb. unfold broadcastPromptFailed. cbv zeta. unfold relay_mode. rewrite (b_mode _ Hb).
  rewrite (bool_decide_false (TransportSealed = TransportOpen)) by done. apply kb_no_body. cbn [with_outcome with_client_msg_id Payload].
  destruct (stamp_ids r (NewMessageWithSession (now e) MsgPromptFailed (PromptStore.DeviceID cmd) (PromptStore.SessionID cmd))) as (_ & _ & -> & _).
  done.
Qed.

Lemma kb_failure e dev session id message r : keeps_blind r (broadcastPromptFailure e dev session id message r).
Proof. apply kb_failed. Qed.

Lemma kb_sendPromptCommitted e cmd r : keeps_blind r (sendPromptCommitted e cmd r).
Proof.
  unfold sendPromptCommitted.
  pose proof (kb_send (io_commit_send e) (PromptStore.DeviceID cmd) (stampEnvelope r (promptCommittedMessage e cmd)) r
    (routing_frame _ (stamped_routing r _ (committed_routing e cmd)))) as Hs.
  destruct (SendToDaemon _ _ _ r) as [[err|] r1]; simpl in Hs; [done|].
  destruct (run_store _ r1) as [[u|err] r2] eqn:E; apply kb_mark_committed in E; [|by eapply kb_trans].
  eapply kb_trans; [exact Hs|]. eapply kb_trans; [exact E|]. apply kb_routing, stamped_routing, committed_routing.
Qed.

(** Settling a blind row: nothing to save, nothing to echo. *)
Lemma kb_settle e cmd r : blind_row cmd ->
  keeps_blind r (match persistAcceptedPrompt e cmd r with
                 | (false, r) => r
                 | (true, r) => broadcastPromptSent e cmd (sendPromptCommitted e cmd r)
                 end).
Proof.
  intros Hc%blind_sealed. unfold persistAcceptedPrompt, broadcastPromptSent. rewrite Hc. apply kb_sendPromptCommitted.
Qed.

Lemma kb_reconcile_sealed e dev cmd r : keeps_blind r (reconcile_sealed e dev cmd r).
Proof.
  unfold reconcile_sealed. destruct (Status cmd); try apply kb_failed; try apply kb_refl; [|apply kb_sendPromptCommitted].
  apply kb_send, routing_frame, stamped_routing. discriminate.
Qed.

Lemma forward_errors err : (forward_failure err).1.1 ∈ relay_errors.
Proof. unfold relay_errors. destruct err; simpl; repeat constructor. Qed.

Lemma kb_forward_sealed e dev id msg cmd r :
  Payload msg = None -> blind_row cmd -> keeps_blind r (forward_sealed e dev id msg cmd r).
Proof.
  intros Hp Hc. unfold forward_sealed.
  pose proof (kb_send (io_send e) dev msg r (fun _ => or_introl Hp)) as Hs.
  destruct (SendToDaemon (io_send e) dev msg r) as [[err|] r1]; simpl in Hs.
  - eapply kb_trans; [exact Hs|]. unfold mark_forward_failure. pose proof (forward_errors err) as He.
    destruct (forward_failure err) as [[message outcome] retry]. simpl in He.
    destruct (run_store _ r1) as [[[c ch]|e0] r2] eqn:E; apply kb_mark_failed in E as [Hk _]; try exact He;
      (eapply kb_trans; [exact Hk|]); case_bool_decide; (apply kb_sendPromptCommitted || apply kb_failed).
  - destruct (run_store _ r1) as [x r2] eqn:E. apply kb_mark_forwarded in E. by eapply kb_trans.
Qed.

Lemma kb_handleSealedPrompt e dev msg r : msgType msg = MsgSendPrompt -> keeps_blind r (handleSealedPrompt e dev msg r).
Proof.
  intros Ht. unfold handleSealedPrompt. destruct (_ || _)%bool eqn:Eb; [apply kb_failure|]. bool_hyps.
  assert (Hp : Payload msg = None) by (by destruct (Payload msg)).
  destruct (is_empty (TrimSpace (SessionID msg))); [apply kb_failure|].
  destruct (is_empty (sanitizeClientMsgID _)) eqn:Eid; [apply kb_failure|].
  destruct (marshal_message _) as [wire|err] eqn:Em; [|apply kb_failure].
  match goal with |- context [run_store (RegisterPromptCommand ?f ?n ?c ?b) r] =>
    destruct (run_store (RegisterPromptCommand f n c b) r) as [[[s []|s]|err] r1] eqn:E; apply kb_register in E as [Hk Hs] end;
    try (intros n; split_and!; [done|done|apply empty_error|]; eexists; split; [exact Em|done]);
    (eapply kb_trans; [exact Hk|]); try apply kb_failure; [|apply kb_reconcile_sealed].
  apply kb_intro. intros Hb. apply kb_forward_sealed; [done|by eapply Hs].
Qed.

(** ** Phone messages *)

Lemma kb_offline e dev session r : keeps_blind r (device_offline_error e dev session r).
Proof. apply kb_routing. cbn [with_payload msgType]. apply stamped_routing. discriminate. Qed.

Lemma kb_control o e dev msg session r : Payload msg = None ->
  keeps_blind r (match SendToDaemon o dev msg r with (None, r) => r | (Some _, r) => device_offline_error e dev session r end).
Proof.
  intros Hp. pose proof (kb_send o dev msg r (fun _ => or_introl Hp)) as Hs.
  destruct (SendToDaemon o dev msg r) as [[err|] r1]; simpl in Hs; [|done]. eapply kb_trans; [exact Hs|apply kb_offline].
Qed.

Lemma send_mode o dev m r : mode (SendToDaemon o dev m r).2 = mode r.
Proof. by destruct o as [| |[]]. Qed.

Lemma kb_handleFetchHistory e dev msg r : msgType msg = MsgFetchHistory -> Payload msg = None ->
  keeps_blind r (handleFetchHistory e dev msg r).
Proof.
  intros Ht Hp. apply kb_intro. intros Hb. unfold handleFetchHistory. rewrite Hp. cbn [default].
  match goal with |- context [SendToDaemon ?o ?d ?m r] =>
    assert (Hf : blind_frame m) by (intros _; right; split; [exact Ht|]; by eexists);
    pose proof (kb_send o d m r Hf) as Hs; pose proof (send_mode o d m r) as Hm; destruct (SendToDaemon o d m r) as [[err|] r1] end;
    simpl in Hs, Hm; [|done].
  eapply kb_trans; [exact Hs|]. unfold relay_mode. rewrite Hm, (b_mode _ Hb), (bool_decide_true (TransportSealed = TransportSealed)) by done.
  apply kb_offline.
Qed.

Lemma kb_handleStartThread e dev msg r : is_some_b (msgSealedPayload msg) = true -> Payload msg = None ->
  keeps_blind r (handleStartThread e dev msg r).
Proof.
  intros Hse Hp. unfold handleStartThread. rewrite Hse, Hp. cbv zeta.
  match goal with |- context [SendToDaemon ?o ?d ?m r] =>
    pose proof (kb_send o d m r (fun _ => or_introl eq_refl)) as Hs; destruct (SendToDaemon o d m r) as [[err|] r1] end;
    simpl in Hs; [|done].
  eapply kb_trans; [exact Hs|]. destruct (threadStartRelayFailure err) as [t text]. apply kb_no_body. cbn [with_client_msg_id Payload].
  by destruct (stamp_ids r1 (NewMessage (now e) t dev)) as (_ & _ & -> & _).
Qed.

Lemma kb_handlePhoneMessage e dev msg r :
  is_ok (ValidateFrameForTransport (Some msg) TransportSealed) = true -> keeps_blind r (handlePhoneMessage e dev msg r).
Proof.
  intros Hv. pose proof (admitted_body msg Hv) as Ha. unfold handlePhoneMessage. destruct (msgType msg) eqn:Ht; try apply kb_refl;
    destruct (Ha eq_refl) as [Hp Hs]; try (by apply kb_control).
  - destruct (is_some_b (msgSealedPayload msg)); [by apply kb_handleSealedPrompt|]. by destruct (Hs eq_refl) as [|[|]].
  - apply kb_handleStartThread; [|done]. destruct (is_some_b (msgSealedPayload msg)); [done|]. by destruct (Hs eq_refl) as [|[|]].
  - by apply kb_handleFetchHistory.
Qed.

(** ** Daemon frames *)

Lemma kb_save_sealed err dev session msg r : keeps_blind r (SaveSealedMessage err dev session msg r).
Proof.
  unfold SaveSealedMessage. destruct (msgSealedPayload msg) as [sp|]; [|apply kb_refl]. cbv zeta.
  destruct err; simpl; [apply kb_refl|]. intros Hb. pose proof Hb as [? ? Hms ? ? ? ?]. split; try done. simpl.
  intros k m Hk. apply lookup_insert_Some in Hk as [[_ <-]|[_ Hk]]; [|by eapply Hms].
  assert (Hmeta : forall p k, Some (obj [("sealed", VBool true); ("sealed_payload", encode_sealed sp);
      ("protocol_version", VString (ProtocolVersion msg)); ("transport_mode", VString (transport_text (msgTransportMode msg)))]) = Some p ->
      is_Some (p !! k) -> k ∈ ["sealed"; "sealed_payload"; "protocol_version"; "transport_mode"]).
  { intros p k0 [= <-] [v Hv].
    repeat (apply lookup_insert_Some in Hv as [[<- _]|[_ Hv]]; [repeat constructor|]). by rewrite lookup_empty in Hv. }
  destruct (messages r !! _) as [m0|] eqn:E; unfold blind_message; cbn [smContent smRole smType smMetadata].
  - destruct (Hms _ _ E) as (?&?&?&_). done.
  - done.
Qed.

Lemma kb_sessionList e dev msg r :
  is_some_b (msgSealedPayload msg) = true -> keeps_blind r (handleSessionList e dev msg r).
Proof.
  intros Hs. unfold handleSessionList, updateSealedCatalogFromLocked. rewrite Hs. cbn [negb].
  apply kb_intro. intros Hb. eapply kb_trans; [apply kb_catalog|by apply kb_no_body].
  assert (Hold : blind_catalog (default empty_catalog (catalogs r !! dev))).
  { destruct (catalogs r !! dev) eqn:E; simpl; [by eapply (b_catalogs _ Hb)|]. by split. }
  destruct Hold as (H1 & H2 & _). split_and!; [exact H1|exact H2|]. by intros f [= <-].
Qed.

Lemma kb_notSeen e dev msg r : keeps_blind r (handlePromptNotSeen e dev msg r).
Proof.
  unfold handlePromptNotSeen. destruct (is_empty _); [apply kb_refl|].
  destruct (run_store _ r) as [[c|err] r1] eqn:E; apply run_get in E as [-> Hc]; [|apply kb_refl].
  specialize (Hc c eq_refl). destruct (negb _); [apply kb_refl|]. apply kb_intro. intros Hb.
  pose proof (b_rows _ Hb _ _ Hc) as Hrow. unfold promptCommandMessage. rewrite (blind_sealed _ Hrow). cbn [negb].
  destruct Hrow as (_ & _ & _ & m & Hm & Ht & Hp).
  destruct (unmarshal_message (SealedEnvelopeJSON c)) as [sealed|] eqn:Eu; [|apply kb_refl].
  destruct (is_some_b _); [|apply kb_refl]. apply kb_send. intros _. left.
  destruct (stamp_ids r sealed) as (_ & _ & -> & _). apply marshal_prompt in Hm as [_ Hm]; [|done]. exact (proj2 (Hm _ Eu) Hp).
Qed.

Lemma kb_accepted e dev msg r : Payload msg = None -> keeps_blind r (handlePromptAccepted e dev msg r).
Proof.
  intros Hp. unfold handlePromptAccepted. destruct (is_empty _); [apply kb_refl|]. rewrite Hp.
  destruct (run_store _ r) as [[[c ch]|err] r1] eqn:E; apply kb_mark_accepted in E as [Hk Hc]; [|exact Hk].
  eapply kb_trans; [exact Hk|]. destruct (negb _); [apply kb_refl|]. apply kb_intro. intros Hb. apply kb_settle. by eapply Hc.
Qed.

Lemma rejected_error : "daemon rejected prompt" ∈ relay_errors.
Proof. unfold relay_errors. repeat constructor. Qed.

Lemma kb_promptFailed e dev msg r : Payload msg = None -> keeps_blind r (handlePromptFailed e dev msg r).
Proof.
  intros Hp. unfold handlePromptFailed. destruct (is_empty _); [apply kb_refl|]. unfold failure_report. rewrite Hp.
  cbn [fst snd]. destruct (run_store _ r) as [[[c ch]|err] r1] eqn:E; apply (kb_mark_failed _ _ _ _ _ _ _ _ _ _ rejected_error) in E as [Hk _]; [|exact Hk].
  eapply kb_trans; [exact Hk|]. destruct (_ || _)%bool; [|apply kb_refl].
  destruct (is_some_b _); [by apply kb_no_body|apply kb_failed].
Qed.

Lemma kb_attention_event e dev msg r b r' : acceptAttentionEvent e dev msg r = (b, r') -> keeps_blind r r'.
Proof.
  unfold acceptAttentionEvent, AcceptAttentionEvent. destruct (Payload msg); [|intros [= _ <-]; apply kb_refl].
  destruct (_ || _)%bool; [intros [= _ <-]; apply kb_refl|]. destruct (_ || _)%bool; [intros [= _ <-]; apply kb_refl|].
  destruct (io_attention e); [intros [= _ <-]; apply kb_refl|]. destruct (filter _ _ !! _); intros [= _ <-]; apply kb_attention.
Qed.

Lemma kb_handleDaemonMessage e dev msg r :
  is_ok (ValidateFrameForTransport (Some msg) TransportSealed) = true -> keeps_blind r (handleDaemonMessage e dev msg r).
Proof.
  intros Hv. pose proof (admitted_body msg Hv) as Ha. unfold handleDaemonMessage. set (m := with_device msg dev).
  change (msgType m) with (msgType msg).
  assert (Hty : msgType m = msgType msg) by done. change (Payload msg) with (Payload m) in Ha. change (msgSealedPayload msg) with (msgSealedPayload m) in Ha.
  destruct (msgType msg) eqn:Et; try apply kb_refl; try (apply kb_routing; by rewrite Hty); try (destruct (Ha eq_refl) as [Hp Hs]);
    try (by apply kb_no_body);
    try (assert (Hse : is_some_b (msgSealedPayload m) = true)
      by (destruct (is_some_b (msgSealedPayload m)); [done|by destruct (Hs eq_refl) as [|[|]]])).
  - by apply kb_sessionList.
  - rewrite Hse. cbn [negb andb]. by apply kb_no_body.
  - unfold handleSessionMessage. rewrite Hse. cbn [negb andb]. eapply kb_trans; [apply kb_save_sealed|by apply kb_no_body].
  - apply kb_notSeen.
  - by apply kb_accepted.
  - by apply kb_promptFailed.
  - destruct (acceptAttentionEvent e dev m r) as [[] r1] eqn:E; apply kb_attention_event in E; [|exact E].
    eapply kb_trans; [exact E|]. eapply kb_trans; [|apply kb_push]. apply kb_routing. by rewrite Hty.
  - unfold handleSessionHistory. rewrite Hse. by apply kb_no_body.
Qed.

(** ** Replay *)

Lemma kb_replay_round io n cmds r x r' :
  Forall blind_row cmds -> replay_round io n cmds r = (x, r') -> keeps_blind r r'.
Proof.
  revert n r. induction cmds as [|cmd cmds IH]; intros n r Hall; cbn [replay_round]; [intros [= _ <-]; apply kb_refl|].
  apply Forall_cons in Hall as [Hc Hall]. unfold persistAcceptedPrompt. rewrite (blind_sealed _ Hc). cbn [negb].
  pose proof (kb_send (io_commit_send (io n)) (PromptStore.DeviceID cmd) (stampEnvelope r (promptCommittedMessage (io n) cmd)) r
    (routing_frame _ (stamped_routing r _ (committed_routing (io n) cmd)))) as Hs.
  destruct (SendToDaemon _ _ _ r) as [[err|] r1]; simpl in Hs; [by intros [= _ <-]|].
  destruct (run_store _ r1) as [[u|err] r2] eqn:E; apply kb_mark_committed in E;
    (assert (Hk : keeps_blind r r2) by (by eapply kb_trans)); [|by intros [= _ <-]].
  intros Hrun. eapply kb_trans; [exact Hk|]. by eapply IH.
Qed.

Lemma kb_replay fuel io n dev r : sound r -> keeps_blind r (replayPromptCommits fuel io n dev r).
Proof.
  revert n r. induction fuel as [|fuel IH]; intros n r Hs; cbn [replayPromptCommits]; [apply kb_refl|].
  destruct (io_list (io n)); [apply kb_refl|]. pose proof (listed_rows r dev Hs) as Hl.
  destruct (ListUncommittedAcceptedPrompts (commands r) dev 100) as [|c cmds] eqn:El; [apply kb_refl|].
  destruct (replay_round io n (c :: cmds) r) as [x r1] eqn:E. apply kb_intro. intros Hb.
  assert (Hg : good r r1) by (eapply good_replay_round; [|exact E]; done).
  apply kb_replay_round in E; [destruct x; [|done]; eapply kb_trans; [exact E|]; apply IH; by apply Hg|].
  apply Forall_forall. intros c' Hin. rewrite <- El in Hin. unfold ListUncommittedAcceptedPrompts in Hin.
  apply elem_of_take, (elem_of_uncommitted _ _ _ (proj1 Hs)) in Hin as [Hk _]. by eapply (b_rows _ Hb).
Qed.

Lemma empty_blind : blind_catalog empty_catalog.
Proof. split; [done|]. split; [done|]. by intros f [=]. Qed.

Lemma kb_step r ev : sound r -> admitted ev = true -> keeps_blind r (relay_step r ev).
Proof.
  intros Hs Ha. destruct ev; simpl in *; [by apply kb_handlePhoneMessage|by apply kb_handleDaemonMessage|].
  eapply kb_trans; [apply kb_catalog, empty_blind|]. apply kb_replay. by apply good_catalog.
Qed.

Lemma fresh_blind : blind (fresh_relay TransportSealed).
Proof. split; simpl; try done; intros *; rewrite ?lookup_empty; try done; by intros ?%elem_of_nil. Qed.

(** C8: confidentiality of sealed mode. Whatever phones and daemons send
    through the frame check, and whatever fails, a sealed relay holds no text of
    a prompt, a message or a session: its prompt rows have an empty prompt, the
    attachment list "[]" and one of its own four error texts, and keep the sealed
    envelope only; its history rows have no content and only sealed metadata; it
    caches no catalog in the clear; no application frame it gives a phone has an
    open payload, and of those it gives a daemon only a history request has one,
    which is the row limit; and a push shows one fixed text. *)
Theorem sealed_relay_is_blind evs :
  forallb admitted evs = true -> blind (foldl relay_step (fresh_relay TransportSealed) evs).
Proof.
  intros Ha. assert (H : forall r, sound r -> blind r -> blind (foldl relay_step r evs)); [|by apply H; [apply fresh_sound|apply fresh_blind]].
  induction evs as [|ev evs IH]; intros r Hs Hb; [done|]. cbn [forallb foldl] in *. bool_hyps.
  apply IH; [done|by apply good_step|by apply kb_step].
Qed.

End Blind.

(** a sealed history request that passes the frame check reaches the daemon
    as a frame that does not: the relay adds the row limit as an open payload
    beside the sealed one, and the daemon refuses a frame with both. *)
Theorem sealed_history_request_is_refused `{RelayCodec} `{NetUrl} e dev msg r :
  msgType msg = MsgFetchHistory -> is_ok (ValidateFrameForTransport (Some msg) TransportSealed) = true ->
  io_send e = SendOk ->
  exists f, to_daemon (handlePhoneMessage e dev msg r) = to_daemon r ++ [(dev, f)] /\ msgType f = MsgFetchHistory /\
    is_ok (ValidateEnvelopeForm (Some f)) = false /\ is_ok (ValidateFrameForTransport (Some f) TransportSealed) = false.
Proof.
  intros Ht Hv Ho. destruct (admitted_body msg Hv) as [Hp Hs]; [by rewrite Ht|].
  assert (Hse : is_some_b (msgSealedPayload msg) = true).
  { destruct (is_some_b (msgSealedPayload msg)); [done|]. rewrite Ht in Hs. by destruct (Hs eq_refl) as [|[|]]. }
  unfold handlePhoneMessage. rewrite Ht. unfold handleFetchHistory. rewrite Ho. cbn [SendToDaemon].
  eexists. split; [reflexivity|]. split; [exact Ht|].
  unfold ValidateFrameForTransport, ValidateEnvelopeForm, mbind, res_bind, fail_if.
  cbn [with_payload with_device Payload msgSealedPayload is_some_b andb]. by rewrite Hse.
Qed.

(** ** Witnesses *)

Definition sealed_frame (t : MessageType) (id : string) : NekoMessage :=
  mkMessage "1.3" TransportSealed t "" "s1" id "" None 0 None (Some toy_sealed).

Definition sealed_run : list relay_event :=
  [PhoneMsg (relay_ok 10) "dev" (sealed_frame MsgSendPrompt "msg_1");
   DaemonMsg (relay_ok 20) "dev" (sealed_frame MsgPromptAccepted "msg_1");
   DaemonMsg (relay_ok 30) "dev" (sealed_frame MsgSessionMessage "a_1");
   DaemonMsg (relay_ok 40) "dev" (sealed_frame MsgSessionList "");
   PhoneMsg (relay_ok 50) "dev" (sealed_frame MsgFetchHistory "")].

Lemma sealed_relay_is_blind_witness :
  frame_types (to_daemon (foldl relay_step (fresh_relay TransportSealed) sealed_run)) =
    [MsgSendPrompt; MsgPromptCommitted; MsgFetchHistory] /\
  blind (foldl relay_step (fresh_relay TransportSealed) sealed_run).
Proof.
  split; [vm_compute; reflexivity|]. apply (sealed_relay_is_blind sealed_run). vm_compute. reflexivity.
Defined.

Lemma sealed_history_request_is_refused_witness :
  exists f, to_daemon (handlePhoneMessage (relay_ok 10) "dev" (sealed_frame MsgFetchHistory "") (fresh_relay TransportSealed)) =
      [] ++ [("dev", f)] /\ msgType f = MsgFetchHistory /\
    is_ok (ValidateEnvelopeForm (Some f)) = false /\ is_ok (ValidateFrameForTransport (Some f) TransportSealed) = false.
Proof.
  apply (sealed_history_request_is_refused (relay_ok 10) "dev" (sealed_frame MsgFetchHistory "") (fresh_relay TransportSealed));
    vm_compute; reflexivity.
Defined.
