(* ===== verification/AccessSpec.v ===== *)
(** * What authentication and authorisation promise

    An access policy says for every call of a program of the relay what the
    client must have shown before: theorem [handlers_obey_policy] is about all
    routes and both websockets, whatever the calls answer. Requests run
    interleaved, call by call, in a world; the theorems about pairing and
    revocation are about everything such a world can reach. *)

From stdpp Require Import base tactics list gmap strings.
From Stdlib Require Import Ascii ZArith Lia.
From S2P Require Import Prelude GoStrings Json Protocol RelayInput AccessStore RelayAccess.
From S2P Require Relay WebPush Connections.

(** ** Histories, and programs that keep a policy *)

Fixpoint wp {A} (allowed : history -> call -> Prop) (Q : history -> A -> Prop) (h : history) (p : prog A) : Prop :=
  match p with
  | Ret a => Q h a
  | Do c k => allowed h c /\ forall a, wp allowed Q (Ev c a :: h) (k a)
  end.

Section Wp.
Context (allowed : history -> call -> Prop).

Lemma wp_bind {A B} (p : prog A) (f : A -> prog B) Q h :
  wp allowed (fun h a => wp allowed Q h (f a)) h p -> wp allowed Q h (p ≫= f).
Proof.
  revert h. induction p as [a|c k IH]; intros h; [done|].
  intros [Hc Hk]. split; [done|]. intros a. apply IH, Hk.
Qed.

Lemma wp_mono {A} (Q1 Q2 : history -> A -> Prop) h (p : prog A) :
  wp allowed Q1 h p -> (forall h' a, h ⊆ h' -> Q1 h' a -> Q2 h' a) -> wp allowed Q2 h p.
Proof.
  revert h. induction p as [a|c k IH]; intros h; [intros H HQ; by apply HQ|].
  intros [Hc Hk] HQ. split; [done|]. intros a. eapply IH; [apply Hk|].
  intros h' b Hh. apply HQ. etrans; [|exact Hh]. by apply list_subseteq_cons.
Qed.

Lemma wp_ask (c : call) Q h :
  allowed h c -> (forall a, Q (Ev c a :: h) a) -> wp allowed Q h (ask c).
Proof. done. Qed.

(** How programs are put together: what comes first, then the rest. *)
Lemma wp_then {A B} (p : prog A) (f : A -> prog B) Q R h :
  wp allowed R h p -> (forall h' a, h ⊆ h' -> R h' a -> wp allowed Q h' (f a)) -> wp allowed Q h (p ≫= f).
Proof. intros Hp Hf. apply wp_bind. eapply wp_mono; [exact Hp|exact Hf]. Qed.
End Wp.

(** ** The access policy *)

(** The credentials a client shows: a phone's or the admin's, and a device's. *)
Definition presents (c : client) (h : history) (cred : string) : Prop :=
  match c with
  | HTTP _ r => cred = phoneSecretFromRequest r
  | PhoneSocket _ _ _ conn r =>
    exists msg, Ev (ReadFrame conn) (inr (Some msg)) ∈ h /\ cred = phone_secret r msg
  | DaemonSocket _ _ _ _ => False
  end.

Definition presents_device_token (c : client) (h : history) (token : string) : Prop :=
  match c with
  | HTTP _ r => token = field r "token" \/ token = TrimSpace (header r "X-Neko-Device-Token") \/
                token = phoneSecretFromRequest r
  | DaemonSocket _ _ _ conn =>
    exists msg, Ev (ReadFrame conn) (inr (Some msg)) ∈ h /\ token = payload_member (Payload msg) "token"
  | PhoneSocket _ _ _ _ _ => False
  end.

(** The nest is open, or the client has shown the admin secret. *)
Definition as_admin (s : engine) (c : client) (h : history) : Prop :=
  phoneSecret s = "" \/ presents c h (phoneSecret s).

(** The client's token is that of phone [p], which is not revoked. *)
Definition as_phone (c : client) (h : history) (p : string) : Prop :=
  exists cred row, presents c h cred /\
    Ev (SelectPhoneByHash (hashToken (TrimSpace cred))) (inr (Some (p, row))) ∈ h /\
    phTokenHash row = hashToken (TrimSpace cred) /\ phRevokedAt row <= 0.

Definition as_device (c : client) (h : history) (d : string) : Prop :=
  exists token n, presents_device_token c h token /\ Ev (CountDevices d (hashToken token)) (inr n) ∈ h /\ 0 < n.

Definition granted (h : history) (p d : string) : Prop := Ev (SelectGrant p d) (inr true) ∈ h.

Definition listed (h : history) (p d : string) : Prop :=
  exists l, Ev (SelectPhoneDevices p) (inr l) ∈ h /\ d ∈ l.

Definition may_access (s : engine) (c : client) (h : history) (d : string) : Prop :=
  as_admin s c h \/ exists p, as_phone c h p /\ granted h p d.

(** Pairing and bootstrap make a phone for the admin, and for a phone without an
    id, which no row of the table has. *)
Definition may_mint (s : engine) (c : client) (h : history) : Prop := as_admin s c h \/ as_phone c h "".

Definition minted (h : history) (p : string) : Prop :=
  exists name hash now, Ev (InsertPhone p name hash now) (inr tt) ∈ h.

(** The client has used up a pair code of device [d]. *)
Definition paired (h : history) (code d : string) : Prop :=
  (exists now, Ev (UsePairCode code now) (inr (inr true)) ∈ h) /\
  Ev (SelectPairDevice code) (inr (Some d)) ∈ h.

(** The registration token, where one is needed. *)
Definition may_register (s : engine) (c : client) : Prop :=
  match c with
  | HTTP _ r =>
    (phoneSecret s = "" /\ TrimSpace (bootstrapToken s) = "") \/
    (TrimSpace (bootstrapToken s) <> "" /\
     (header r "X-Neko-Bootstrap" = TrimSpace (bootstrapToken s) \/ query_param r "bootstrap" = TrimSpace (bootstrapToken s)))
  | _ => False
  end.

Definition allowed (s : engine) (c : client) (h : history) (x : call) : Prop :=
  match x with
  | SelectMessages d _ _ => may_access s c h d
  | ViewDaemon d => may_access s c h d \/ exists p, as_phone c h p /\ listed h p d
  | SelectPackages p d => as_admin s c h \/ (as_phone c h p /\ granted h p d)
  | SavePushTx sub _ =>
    as_admin s c h \/ (as_phone c h (subPhoneID sub) /\ granted h (subPhoneID sub) (subDeviceID sub))
  | SelectPhoneDevices p => as_phone c h p
  | SelectPhones => as_admin s c h
  | InsertPhone _ _ _ _ => may_mint s c h
  | RevokePhoneTx p now =>
    (as_admin s c h \/ as_phone c h p) /\ exists t, Ev ClockNow t ∈ h /\ now = t / nanos_per_second
  | ClosePhonesByPrincipal p => as_admin s c h \/ as_phone c h p
  | UpsertGrant p d _ =>
    (exists code, paired h code d) /\ (as_phone c h p \/ (may_mint s c h /\ minted h p))
  | UpdatePhoneKeys p _ _ => as_phone c h p \/ minted h p
  | InsertPairCode _ d _ | SelectDeviceGrants d | UpsertPackage (_, d, _, _, _) _ _ _
  | BroadcastToPhones d _ | TryAddDaemon d _ _ | HandleDaemonMessage d _ | ReplayPromptCommits d => as_device c h d
  | UpdateDeviceKeys d _ _ _ =>
    as_device c h d \/ exists name os hash now, Ev (InsertDevice d name os hash now) (inr tt) ∈ h
  | InsertDevice _ _ _ _ _ => may_register s c
  | AddPhoneAuthenticated d _ p admin =>
    if admin then as_admin s c h else as_phone c h p /\ granted h p d
  | ResubscribePhone d _ => may_access s c h d
  | HandlePhoneMessage d m => may_access s c h d /\ DeviceID m = d
  | SendToDaemon d _ => may_access s c h d \/ exists code, paired h code d
  | RevokeGrant _ _ _ | DeletePackages _ _ | DeletePushes _ _ => False
  | _ => True
  end.

(** What a client has shown stays shown. *)
Create HintDb shown.
#[export] Hint Resolve list_elem_of_here list_elem_of_further : shown.

Lemma shown_mono (h h' : history) e : h ⊆ h' -> e ∈ h -> e ∈ h'.
Proof. intros H. apply H. Qed.

Lemma presents_mono c h h' cred : h ⊆ h' -> presents c h cred -> presents c h' cred.
Proof. destruct c; cbn; [done|done|]. intros Hh (m & Hm & ->). exists m. split; [by apply Hh|done]. Qed.

Lemma presents_device_mono c h h' t : h ⊆ h' -> presents_device_token c h t -> presents_device_token c h' t.
Proof. destruct c; cbn; [done| |done]. intros Hh (m & Hm & ->). exists m. split; [by apply Hh|done]. Qed.

Lemma as_admin_mono s c h h' : h ⊆ h' -> as_admin s c h -> as_admin s c h'.
Proof. intros Hh [H|H]; [by left|right]. by eapply presents_mono. Qed.

Lemma as_phone_mono c h h' p : h ⊆ h' -> as_phone c h p -> as_phone c h' p.
Proof.
  intros Hh (cred & row & Hc & He & H). exists cred, row. split; [by eapply presents_mono|]. split; [by apply Hh|done].
Qed.

Lemma as_device_mono c h h' d : h ⊆ h' -> as_device c h d -> as_device c h' d.
Proof.
  intros Hh (t & n & Ht & He & H). exists t, n. split; [by eapply presents_device_mono|]. split; [by apply Hh|done].
Qed.

Lemma granted_mono h h' p d : h ⊆ h' -> granted h p d -> granted h' p d.
Proof. intros Hh H. by apply Hh. Qed.

Lemma listed_mono h h' p d : h ⊆ h' -> listed h p d -> listed h' p d.
Proof. intros Hh (l & H & Hd). exists l. split; [by apply Hh|done]. Qed.

Lemma minted_mono h h' p : h ⊆ h' -> minted h p -> minted h' p.
Proof. intros Hh (a & b & n & H). exists a, b, n. by apply Hh. Qed.

Lemma paired_mono h h' code d : h ⊆ h' -> paired h code d -> paired h' code d.
Proof. intros Hh [[n Hn] H]. split; [exists n|]; by apply Hh. Qed.

Lemma may_access_mono s c h h' d : h ⊆ h' -> may_access s c h d -> may_access s c h' d.
Proof.
  intros Hh [H|(p & Hp & Hg)]; [left; by eapply as_admin_mono|].
  right. exists p. split; [by eapply as_phone_mono|by eapply granted_mono].
Qed.

Lemma may_mint_mono s c h h' : h ⊆ h' -> may_mint s c h -> may_mint s c h'.
Proof. intros Hh [H|H]; [left; by eapply as_admin_mono|right; by eapply as_phone_mono]. Qed.

(** One step of a symbolic run: the calls of a program in order, every answer. *)
Ltac wp_step :=
  match goal with
  | |- wp _ _ _ (_ ≫= _) => apply wp_bind
  | |- wp _ _ _ (go_on _ _) => unfold go_on
  | |- wp _ _ _ (try_bind _ _) => unfold try_bind
  | |- wp _ _ _ (or_reply _ _) => unfold or_reply
  | |- wp _ _ _ (refuse_if _ _) => unfold refuse_if
  | |- wp _ _ _ (reply _) => unfold reply
  | |- wp _ _ _ (responds _) => unfold responds
  | |- wp _ _ _ Unix => unfold Unix
  | |- wp _ _ _ Now => unfold Now
  | |- wp _ _ _ (when _ _) => unfold when
  | |- wp _ _ _ (Ret _) => cbn [wp]
  | |- wp _ _ _ (ask _) => apply wp_ask; [try exact I|intros ?]
  | |- wp _ _ _ (let '(_, _) := ?x in _) => destruct x eqn:?
  | |- wp _ _ _ (if ?b then _ else _) => destruct b eqn:?
  | |- wp _ _ _ (match ?x with _ => _ end) => destruct x eqn:?
  | |- wp _ _ _ (?x ≫= _) => apply wp_bind
  end.
Ltac wp_go := repeat wp_step.

(** Use the specification of a program, then go on from its postcondition. *)
Ltac wp_use H := eapply wp_mono; [eapply H|cbn beta].

Section Policy.
Context (s : engine) (c : client).
Abbreviation W := (wp (allowed s c)).

(** Nothing to show for these; they only add to the history. *)
Definition anything {A} (h0 : history) : history -> A -> Prop := fun h _ => h0 ⊆ h.

Lemma wp_subset {A} Q h (p : prog A) : W Q h p -> W (fun h' a => h ⊆ h' /\ Q h' a) h p.
Proof. intros H. eapply wp_mono; [exact H|]. done. Qed.

Lemma DeviceExists_ok d h : W (fun _ _ => True) h (DeviceExists d).
Proof. unfold DeviceExists. wp_go; done. Qed.

Lemma SetDevicePublicKeys_ok d ed x fp h :
  allowed s c h (UpdateDeviceKeys d ed x fp) -> W (fun _ _ => True) h (SetDevicePublicKeys d ed x fp).
Proof. intros H. unfold SetDevicePublicKeys. wp_go; done. Qed.

Lemma GetDevice_ok d h : W (fun _ _ => True) h (GetDevice d).
Proof. unfold GetDevice. wp_go; done. Qed.

Lemma GetDevicePublicKeys_ok d h : W (fun _ _ => True) h (GetDevicePublicKeys d).
Proof. unfold GetDevicePublicKeys. wp_go; done. Qed.

(** ** Authentication *)

Lemma ValidatePhoneToken_ok cred h :
  presents c h cred ->
  W (fun h r => match r with inr a => AdminBypass a = false /\ as_phone c h (PhoneID a) | inl _ => True end) h
    (ValidatePhoneToken cred).
Proof.
  intros Hc. unfold ValidatePhoneToken. wp_go; try done. cbn. split; [done|].
  exists cred. eexists. split; [eapply presents_mono; [|exact Hc]; set_solver|].
  match goal with H : negb (bool_decide _) = false |- _ =>
    apply negb_false_iff, bool_decide_eq_true in H; rename H into Hhash end.
  match goal with H : (0 <? _) = false |- _ => apply Z.ltb_ge in H; rename H into Hrev end.
  split; [|split; [exact Hhash|exact Hrev]]. subst. set_solver.
Qed.

Lemma ValidateDeviceToken_ok d token h :
  presents_device_token c h token ->
  W (fun h r => r = true -> as_device c h d) h (ValidateDeviceToken d token).
Proof.
  intros Ht. unfold ValidateDeviceToken. wp_go; try done.
  match goal with r : answer _ |- _ => destruct r as [?|n]; [discriminate|] end.
  intros Hn. exists token, n. split; [eapply presents_device_mono; [|exact Ht]; set_solver|].
  split; [apply list_elem_of_here|by apply Z.ltb_lt].
Qed.

(** What [requirePhoneAuthResult] and [authenticate_phone] establish. *)
Definition authenticated (h : history) (auth : option PhoneAuth) : Prop :=
  match auth with
  | None => as_admin s c h
  | Some a => if AdminBypass a then as_admin s c h else as_phone c h (PhoneID a)
  end.

Lemma authenticated_mono h h' auth : h ⊆ h' -> authenticated h auth -> authenticated h' auth.
Proof.
  intros Hh. destruct auth as [a|]; cbn; [|by apply as_admin_mono].
  destruct (AdminBypass a); [by apply as_admin_mono|by apply as_phone_mono].
Qed.

Lemma phoneMayAccessDevice_ok auth d h :
  authenticated h auth ->
  W (fun h r => r = true -> may_access s c h d /\
       match auth with Some a => AdminBypass a = false -> granted h (PhoneID a) d | None => True end) h
    (phoneMayAccessDevice auth d).
Proof.
  intros Ha. unfold phoneMayAccessDevice. destruct auth as [a|]; cbn in Ha.
  2: { cbn. intros _. split; [by left|done]. }
  destruct (AdminBypass a) eqn:E; [cbn; intros _; split; [by left|done]|].
  unfold PhoneHasDeviceGrant. wp_go; [done|]. intros Hr.
  match goal with r : answer _ |- _ => destruct r as [?|[]]; try discriminate end.
  assert (Hg : granted (Ev (SelectGrant (PhoneID a) d) (inr true) :: h) (PhoneID a) d) by apply list_elem_of_here.
  split; [|done]. right. exists (PhoneID a). split; [|done]. eapply as_phone_mono; [|exact Ha]. set_solver.
Qed.

Lemma list_devices_visible auth h :
  authenticated h auth ->
  W (fun h r => match r with
                | inr l => forall d, d ∈ l -> as_admin s c h \/ exists p, as_phone c h p /\ listed h p (ID d)
                | inl _ => True
                end) h (visibleDevices auth).
Proof.
  intros Ha. unfold visibleDevices, ListDevices, ListPhoneDeviceIDs. wp_go; try done.
  - intros d _. cbn in Ha. rewrite Heqb in Ha. left. eapply as_admin_mono; [|exact Ha]. set_solver.
  - cbn in Ha. rewrite Heqb in Ha. cbn. eapply as_phone_mono; [|exact Ha]. set_solver.
  - intros d Hd. right. exists (PhoneID p). cbn in Ha. rewrite Heqb in Ha.
    split; [eapply as_phone_mono; [|exact Ha]; set_solver|].
    apply list_elem_of_In, filter_In in Hd as [_ Hd]. apply bool_decide_eq_true in Hd.
    eexists. split; [apply list_elem_of_here|done].
  - intros d _. left. eapply as_admin_mono; [|exact Ha]. set_solver.
Qed.

Lemma view_mono h h' d : h ⊆ h' -> allowed s c h (ViewDaemon d) -> allowed s c h' (ViewDaemon d).
Proof.
  intros Hh [H|(p & Hp & Hl)]; [left; by eapply may_access_mono|].
  right. exists p. split; [by eapply as_phone_mono|by eapply listed_mono].
Qed.

Lemma decorate_ok online l h :
  (forall d, d ∈ l -> allowed s c h (ViewDaemon (ID d))) -> W (fun _ _ => True) h (decorate online l).
Proof.
  revert h. induction l as [|d l IH]; intros h Hl; [done|]. cbn [decorate].
  assert (Hrest : forall h', h ⊆ h' -> W (fun _ _ => True) h' (decorate online l)).
  { intros h' Hh. apply IH. intros d' Hd. eapply view_mono; [exact Hh|]. apply Hl. by right. }
  wp_go; [apply Hl; by left| |]; eapply wp_mono; try (apply Hrest); try set_solver; done.
Qed.

Lemma decorateDeviceOnlineStatus_ok l h :
  (forall d, d ∈ l -> allowed s c h (ViewDaemon (ID d))) -> W (fun _ _ => True) h (decorateDeviceOnlineStatus l).
Proof.
  intros Hl. unfold decorateDeviceOnlineStatus. wp_go. apply decorate_ok.
  intros d Hd. eapply view_mono; [|by apply Hl]. set_solver.
Qed.

Lemma visible_ok auth h :
  authenticated h auth ->
  W (fun h r => match r with inr l => forall d, d ∈ l -> allowed s c h (ViewDaemon (ID d)) | inl _ => True end) h
    (visibleDevices auth).
Proof.
  intros Ha. wp_use list_devices_visible; [exact Ha|]. intros h' [?|l] _ H; [done|].
  intros d Hd. destruct (H d Hd) as [Hadm|Hp]; [left; by left|by right].
Qed.

(** ** Handlers *)

Lemma requirePhoneAuthResult_ok to r h :
  c = HTTP to r ->
  W (fun h x => match x with inr auth => authenticated h auth | inl _ => True end) h (requirePhoneAuthResult s r).
Proof.
  intros Hc. unfold requirePhoneAuthResult. wp_go; try done.
  - left. by apply is_empty_true.
  - right. rewrite Hc. cbn. symmetry. match goal with H : secureEqual _ _ = true |- _ =>
      unfold secureEqual in H; by apply bool_decide_eq_true in H end.
  - wp_use ValidatePhoneToken_ok; [rewrite Hc; reflexivity|].
    intros h' [?|a] Hh Ha; wp_go; cbn; [done|]. destruct Ha as [-> Ha]. done.
Qed.
End Policy.

Section Http.
Context (s : engine) (to : route) (r : request).
Abbreviation c := (HTTP to r).
Abbreviation W := (wp (allowed s c)).
Abbreviation keeps := (fun (h : history) p => W (fun _ _ => True) h p).

Lemma requireAuth_ok h :
  W (fun h x => match x with inr auth => authenticated s c h auth | inl _ => True end) h (requirePhoneAuthResult s r).
Proof. by apply requirePhoneAuthResult_ok with (to := to). Qed.

Lemma require_device_token_ok d token h :
  presents_device_token c h token ->
  W (fun h x => match x with inr _ => as_device c h d | inl _ => True end) h (require_device_token d token).
Proof.
  intros Ht. unfold require_device_token. wp_go; try done. wp_use ValidateDeviceToken_ok; [exact Ht|].
  intros h' [] _ Hd; [by apply Hd|done].
Qed.
End Http.

(** Symbolic runs of handlers: authentication and the grant check by their
    specifications, everything else call by call. *)
Ltac shown :=
  cbn [allowed];
  match goal with
  | H : authenticated ?s ?c ?h ?a |- authenticated ?s ?c _ ?a => eapply authenticated_mono; [|exact H]; set_solver
  | H : may_access ?s ?c ?h ?d |- may_access ?s ?c _ ?d => eapply may_access_mono; [|exact H]; set_solver
  | H : as_device ?c ?h ?d |- as_device ?c _ ?d => eapply as_device_mono; [|exact H]; set_solver
  | H : as_admin ?s ?c ?h |- as_admin ?s ?c _ => eapply as_admin_mono; [|exact H]; set_solver
  | H : as_phone ?c ?h ?p |- as_phone ?c _ ?p => eapply as_phone_mono; [|exact H]; set_solver
  | H : may_mint ?s ?c ?h |- may_mint ?s ?c _ => eapply may_mint_mono; [|exact H]; set_solver
  | H : granted ?h ?p ?d |- granted _ ?p ?d => eapply granted_mono; [|exact H]; set_solver
  | H : minted ?h ?p |- minted _ ?p => eapply minted_mono; [|exact H]; set_solver
  | H : paired ?h ?code ?d |- paired _ ?code ?d => eapply paired_mono; [|exact H]; set_solver
  end.

Ltac http_step :=
  match goal with
  | |- wp _ _ _ (requirePhoneAuthResult _ _) => wp_use requireAuth_ok; intros ? [?|?] ? ?
  | |- wp _ _ _ (phoneMayAccessDevice _ _) =>
    wp_use phoneMayAccessDevice_ok; [shown|intros ? [] ? Hmay; [destruct (Hmay eq_refl)|try clear Hmay]]
  | |- wp _ _ _ (require_device_token _ _) => wp_use require_device_token_ok; [cbn; repeat case_match; tauto|intros ? [?|?] ? ?]
  | |- wp _ _ _ (DeviceExists _) => wp_use DeviceExists_ok; intros ? ? ? _
  | |- wp _ _ _ (GetDevice _) => wp_use GetDevice_ok; intros ? ? ? _
  | |- wp _ _ _ (GetDevicePublicKeys _) => wp_use GetDevicePublicKeys_ok; intros ? ? ? _
  | |- wp _ _ _ (SetDevicePublicKeys _ _ _ _) => wp_use SetDevicePublicKeys_ok; [|intros ? ? ? _]
  | _ => wp_step
  end.
Ltac http_go := repeat http_step.

Section Handlers.
Context (s : engine) (to : route) (r : request).
Abbreviation keeps := (fun (h : history) p => wp (allowed s (HTTP to r)) (fun _ _ => True) h p).

Lemma handleListDevices_ok h : keeps h (handleListDevices s r).
Proof.
  unfold handleListDevices. http_go; try done. wp_use visible_ok; [shown|]. intros h2 [e|l] _ Hl; http_go; [done|].
  wp_use decorateDeviceOnlineStatus_ok; [exact Hl|]. intros; http_go; done.
Qed.

Lemma handleDeviceSessions_ok h : keeps h (handleDeviceSessions s r).
Proof. unfold handleDeviceSessions. http_go; try done; left; shown. Qed.

Lemma handleMessages_ok h : keeps h (handleMessages s r).
Proof. unfold handleMessages. http_go; try done; shown. Qed.

Lemma handleVAPIDPublicKey_ok h : keeps h (handleVAPIDPublicKey s r).
Proof. unfold handleVAPIDPublicKey. http_go; done. Qed.

Lemma handleUploadDeviceKeys_ok h : keeps h (handleUploadDeviceKeys s r).
Proof. unfold handleUploadDeviceKeys. http_go; try done; left; shown. Qed.

Lemma handleListDeviceGrants_ok h : keeps h (handleListDeviceGrants s r).
Proof. unfold handleListDeviceGrants, ListPhoneGrantsForDevice. http_go; try done; shown. Qed.

Lemma CreatePhoneIdentity_ok name h :
  may_mint s (HTTP to r) h ->
  wp (allowed s (HTTP to r)) (fun h x => match x with inr m => minted h m.1 | inl _ => True end) h (CreatePhoneIdentity name).
Proof.
  intros Ha. unfold CreatePhoneIdentity, generateToken. wp_go; try done; try shown.
  cbn. match goal with H : _ = inr ?u |- _ => destruct u end. do 3 eexists. subst. apply list_elem_of_here.
Qed.

Lemma require_admin_secret_ok h :
  wp (allowed s (HTTP to r)) (fun h x => match x with inr _ => as_admin s (HTTP to r) h | inl _ => True end) h
    (require_admin_secret s r).
Proof.
  unfold require_admin_secret. wp_go; [done|].
  destruct (is_empty (phoneSecret s)) eqn:E; [left; by apply is_empty_true|right].
  unfold secureEqual in *. cbn in *.
  match goal with H : negb _ = false |- _ => apply negb_false_iff, bool_decide_eq_true in H; by rewrite H end.
Qed.

Lemma handlePhoneBootstrap_ok h : keeps h (handlePhoneBootstrap s r).
Proof.
  unfold handlePhoneBootstrap. http_go; try done. wp_use require_admin_secret_ok.
  intros h' [resp|[]] _ Ha; http_go; [done|]. wp_use CreatePhoneIdentity_ok; [left; exact Ha|].
  intros; http_go; done.
Qed.

Lemma handleListPhones_ok h : keeps h (handleListPhones s r).
Proof.
  unfold handleListPhones, ListPhones. http_go; try done. wp_use require_admin_secret_ok.
  intros h' [resp|[]] _ Ha; http_go; done.
Qed.

Lemma package_owner_ok auth d h :
  authenticated s (HTTP to r) h auth ->
  wp (allowed s (HTTP to r))
    (fun h x => match x with
                | inr p => as_admin s (HTTP to r) h \/ (as_phone (HTTP to r) h p /\ granted h p d)
                | inl _ => True
                end) h (package_owner r auth d).
Proof.
  intros Ha. unfold package_owner. http_go; try done.
  - left. exact Ha.
  - right. match goal with H : _ -> granted _ _ _ |- _ => specialize (H eq_refl) end. split; [|done].
    cbn in Ha. shown.
  - left. exact Ha.
Qed.

Lemma handleKeyPackages_ok h : keeps h (handleKeyPackages s r).
Proof.
  unfold handleKeyPackages, ListKeyPackages. http_go; try done. wp_use package_owner_ok; [shown|].
  intros h2 [resp|p] _ Hp; http_go; try done.
Qed.

Lemma handleUploadKeyPackage_ok h : keeps h (handleUploadKeyPackage s r).
Proof. unfold handleUploadKeyPackage, UpsertKeyPackage. http_go; try done; shown. Qed.

(** Who may revoke a phone: the admin, and the phone itself. *)
Lemma revoker_shown auth phoneID h :
  authenticated s (HTTP to r) h auth ->
  match auth with
  | Some a => negb (AdminBypass a) && negb (bool_decide (PhoneID a = phoneID))
  | None => false
  end = false ->
  as_admin s (HTTP to r) h \/ as_phone (HTTP to r) h phoneID.
Proof.
  intros Ha Hno. destruct auth as [a|]; [|by left]. cbn in Ha. destruct (AdminBypass a); [by left|right].
  apply negb_false_iff, bool_decide_eq_true in Hno. by rewrite <- Hno.
Qed.

Lemma handleRevokePhone_ok h : keeps h (handleRevokePhone s r).
Proof.
  unfold handleRevokePhone, RevokePhone. http_go; try done.
  all: match goal with Ha : authenticated _ _ _ _, Hno : _ = false |- _ => destruct (revoker_shown _ _ _ Ha Hno) end.
  1, 2: split; [|eexists; split; [left|reflexivity]].
  all: first [left; shown | right; shown].
Qed.

(** ** Pairing *)

Lemma ConsumePairCode_ok code h :
  wp (allowed s (HTTP to r)) (fun h x => match x with inr d => paired h code d | inl _ => True end) h
    (ConsumePairCode code).
Proof.
  unfold ConsumePairCode. wp_go; try done. case_match; [done|]. case_match; simplify_eq.
  match goal with H : negb ?b = false |- _ => apply negb_false_iff in H; subst end.
  split; [eexists; right; left|left].
Qed.

(** The phone that will be granted access is the caller, or was minted. *)
Definition owner_shown (h : history) (p : string) : Prop :=
  as_phone (HTTP to r) h p \/ (may_mint s (HTTP to r) h /\ minted h p).

Lemma owner_mono h h' p : h ⊆ h' -> owner_shown h p -> owner_shown h' p.
Proof. intros Hh [H|[H1 H2]]; [left|right; split]; shown. Qed.

Lemma minting_ok name h :
  may_mint s (HTTP to r) h ->
  wp (allowed s (HTTP to r)) (fun h x => match x with inr p => owner_shown h p.1 | inl _ => True end) h
    (minted ←! or_reply (CreatePhoneIdentity name) internal_error; Ret (inr (minted.1, Some minted.2))).
Proof.
  intros Ha. wp_go. wp_use CreatePhoneIdentity_ok; [exact Ha|]. intros h' [e|m] Hh Hm; wp_go; [done|].
  right. split; [shown|exact Hm].
Qed.

Lemma pairing_phone_ok auth name h :
  authenticated s (HTTP to r) h auth ->
  wp (allowed s (HTTP to r)) (fun h x => match x with inr p => owner_shown h p.1 | inl _ => True end) h
    (pairing_phone auth name).
Proof.
  intros Ha. unfold pairing_phone. destruct auth as [[p n []]|]; cbn in Ha.
  - apply minting_ok. by left.
  - destruct (is_empty p) eqn:E; [|left; exact Ha]. apply minting_ok. right. by rewrite <- (proj1 (is_empty_true p) E).
  - apply minting_ok. by left.
Qed.

Lemma GrantPhoneDevice_ok p d code h :
  paired h code d -> owner_shown h p -> keeps h (GrantPhoneDevice p d).
Proof.
  intros Hc Ho. unfold GrantPhoneDevice, GetPhone. http_go; try done.
  split; [exists code; shown|]. eapply owner_mono; [|exact Ho]. set_solver.
Qed.

Lemma SetPhonePublicKeys_ok p ed x h : owner_shown h p -> keeps h (SetPhonePublicKeys p ed x).
Proof. intros Ho. unfold SetPhonePublicKeys. wp_go; try done. destruct Ho as [H|[_ H]]; [by left|by right]. Qed.

Lemma handleConsumePairCode_ok h : keeps h (handleConsumePairCode s r).
Proof.
  unfold handleConsumePairCode. http_go; try done. wp_use ConsumePairCode_ok. intros h1 [e|d] Hh1 Hpair; http_go; try done.
  wp_use pairing_phone_ok; [shown|]. intros h2 [resp|[p token]] Hh2 Ho; [done|]. cbn in Ho.
  apply wp_bind. eapply wp_mono.
  { assert (Hset : keeps h2 (if negb (is_empty (field r "phone_ed25519_public")) || negb (is_empty (field r "phone_x25519_public"))
                             then SetPhonePublicKeys p (field r "phone_ed25519_public") (field r "phone_x25519_public")
                             else Ret (inr tt))%bool) by (case_match; [by apply SetPhonePublicKeys_ok|done]).
    exact Hset. }
  intros h3 _ Hh3 _. cbn beta. http_go. wp_use GrantPhoneDevice_ok; [|by eapply owner_mono|].
  { eapply paired_mono; [|exact Hpair]. set_solver. }
  intros h4 [e|[]] Hh4 _; http_go; try done. right. exists (field r "code"). shown.
Qed.

Lemma set_keys_ok (b : bool) d ed x fp h :
  allowed s (HTTP to r) h (UpdateDeviceKeys d ed x fp) ->
  keeps h (if b then SetDevicePublicKeys d ed x fp else Ret (inr tt)).
Proof. intros H. destruct b; [by apply SetDevicePublicKeys_ok|done]. Qed.

Lemma handleGeneratePairCode_ok h : keeps h (handleGeneratePairCode s r).
Proof.
  unfold handleGeneratePairCode, CreatePairCode. http_go; try done; try (left; shown); try shown.
Qed.

Lemma registration_gate_ok h :
  wp (allowed s (HTTP to r)) (fun h x => match x with inr _ => may_register s (HTTP to r) | inl _ => True end) h
    (registration_gate s r).
Proof.
  unfold registration_gate. wp_go; try done. cbn. rename Heqb into Hopen. rename Heqb0 into Htok.
  destruct (is_empty (TrimSpace (bootstrapToken s))) eqn:Eb.
  - left. rewrite andb_true_r in Hopen. apply negb_false_iff, is_empty_true in Hopen. by apply is_empty_true in Eb.
  - right. apply is_empty_false in Eb. cbn in Htok. apply negb_false_iff, bool_decide_eq_true in Htok.
    split; [done|]. case_match; [by right|by left].
Qed.

Lemma handleRegisterDevice_ok h : keeps h (handleRegisterDevice s r).
Proof.
  unfold handleRegisterDevice, new_device_id, RegisterDevice, registration_failed, generateToken. http_go; try done.
  wp_use registration_gate_ok. intros h1 [e|[]] _ Hreg; http_go; try done.
  all: right; do 4 eexists; match goal with u : unit |- _ => destruct u end; left.
Qed.

Section Push.
Context `{WebPush.NetHost}.

Lemma validate_push_ok e p a h : keeps h (validate_push s e p a).
Proof. unfold validate_push. wp_go; done. Qed.

Lemma handlePushSubscribe_ok h : keeps h (handlePushSubscribe s r).
Proof.
  unfold handlePushSubscribe, SavePushSubscription. http_go; try done.
  all: wp_use validate_push_ok; intros h2 [e|[]] Hh2 _; http_go; try done.
  all: match goal with
       | Ha : authenticated _ _ _ (Some ?p), E : AdminBypass ?p = _ |- _ => cbn in Ha; rewrite E in Ha
       | Ha : authenticated _ _ _ None |- _ => cbn in Ha
       end.
  - left. shown.
  - right. match goal with Hg : _ -> granted _ _ _ |- _ => specialize (Hg ltac:(assumption)) end.
    split; shown.
  - left. shown.
Qed.
End Push.
End Handlers.

(** ** Websockets *)

Section Daemon.
Context (s : engine) (frames0 : nat) (limited upgraded : bool) (conn : Z).
Abbreviation c := (DaemonSocket frames0 limited upgraded conn).
Abbreviation keeps := (fun (h : history) p => wp (allowed s c) (fun _ _ => True) h p).

Lemma daemonReadLoop_ok frames d h : as_device c h d -> keeps h (daemonReadLoop frames s d conn).
Proof.
  revert h. induction frames as [|frames IH]; intros h Hd; cbn [daemonReadLoop]; wp_go; try done; try shown.
  all: apply IH; shown.
Qed.

Lemma HandleDaemonWS_ok frames h : keeps h (HandleDaemonWS frames s limited upgraded conn).
Proof.
  unfold HandleDaemonWS, write_message, ServeDaemonConn, writeHandshakeError, writeWSAPIError. wp_go; try done.
  wp_use ValidateDeviceToken_ok.
  { eexists. split; [left|reflexivity]. }
  intros h' [] _ Hd; [specialize (Hd eq_refl)|clear Hd]; wp_go; try done; try shown.
  apply daemonReadLoop_ok. shown.
Qed.
End Daemon.

Section Phone.
Context `{Relay.RelayCodec}.
Context (s : engine) (frames0 : nat) (limited upgraded : bool) (conn : Z) (r : request).
Abbreviation c := (PhoneSocket frames0 limited upgraded conn r).
Abbreviation keeps := (fun (h : history) p => wp (allowed s c) (fun _ _ => True) h p).

Lemma authenticate_phone_ok msg h :
  Ev (ReadFrame conn) (inr (Some msg)) ∈ h ->
  wp (allowed s c) (fun h x => match x with inr auth => authenticated s c h auth | inl _ => True end) h
    (authenticate_phone s r msg).
Proof.
  intros Hm. unfold authenticate_phone. wp_go; try done.
  - left. by apply is_empty_true.
  - right. exists msg. split; [done|]. match goal with H : secureEqual _ _ = true |- _ =>
      unfold secureEqual in H; by apply bool_decide_eq_true in H end.
  - wp_use ValidatePhoneToken_ok; [by exists msg|]. intros h' [e|a] _ Ha; wp_go; cbn; [done|].
    destruct Ha as [-> Ha]. done.
Qed.

Lemma write_ok m h : keeps h (write_message s conn m).
Proof. unfold write_message. wp_go; done. Qed.

Lemma snapshot_ok d auth msg h :
  authenticated s c h auth -> may_access s c h d -> keeps h (snapshot_and_refresh s conn d auth msg).
Proof.
  intros Ha Hd. unfold snapshot_and_refresh, pushPhoneSnapshot, requestFreshSessionCatalog. wp_go; try done; try (left; shown).
  all: wp_use visible_ok; [shown|].
  all: intros h2 vis Hh2 Hvis; wp_go; wp_use decorateDeviceOnlineStatus_ok;
       [destruct vis as [?|l]; [intros ? Hin; by apply not_elem_of_nil in Hin|exact Hvis]|].
  all: intros h3 l Hh3 _; wp_go; try done; left; shown.
Qed.

Lemma writeSubscribeAck_ok d sub pwa pv h : may_access s c h d -> keeps h (writeSubscribeAck s conn d sub pwa pv).
Proof. intros Hd. unfold writeSubscribeAck. wp_go; try done. left. shown. Qed.

Lemma refresh_ok d (b : bool) h : may_access s c h d -> keeps h (when b (requestFreshSessionCatalog s d)).
Proof. intros Hd. unfold requestFreshSessionCatalog. wp_go; try done. left. shown. Qed.

Lemma handleResubscribe_ok d pv auth switches msg h :
  authenticated s c h auth -> may_access s c h d ->
  wp (allowed s c) (fun h st => may_access s c h st.1) h (handleResubscribe s conn d pv auth switches msg).
Proof.
  intros Ha Hd. unfold handleResubscribe, writeSubscribeError. wp_go; try shown; try done.
  - wp_use writeSubscribeAck_ok; [shown|]. intros h2 _ H2 _. wp_use refresh_ok; [shown|].
    intros h3 _ H3 _. wp_go. shown.
  - wp_use DeviceExists_ok. intros h2 known H2 _. wp_go; try shown; try done.
    wp_use phoneMayAccessDevice_ok; [shown|]. intros h3 [] H3 Hmay; wp_go; try shown; try done.
    + by destruct (Hmay eq_refl).
    + destruct (Hmay eq_refl) as [Hnew _]. wp_use writeSubscribeAck_ok; [shown|]. intros h4 _ H4 _. wp_go.
      wp_use snapshot_ok; [shown|shown|]. intros h5 _ H5 _. wp_go. shown.
Qed.

Lemma phoneReadLoop_ok frames d pv auth switches h :
  authenticated s c h auth -> may_access s c h d -> keeps h (phoneReadLoop frames s conn d pv auth switches).
Proof.
  revert d switches h. induction frames as [|frames IH]; intros d switches h Ha Hd; [done|].
  cbn [phoneReadLoop]. unfold writePhoneError. wp_go; try done.
  - wp_use handleResubscribe_ok; [shown|shown|]. intros h2 [d2 sw] H2 Hd2. apply IH; [shown|exact Hd2].
  - apply IH; shown.
  - split; [shown|done].
  - apply IH; shown.
  - apply IH; shown.
Qed.

Lemma ServePhoneConn_ok frames msg h :
  Ev (ReadFrame conn) (inr (Some msg)) ∈ h -> keeps h (ServePhoneConn frames s conn r msg).
Proof.
  intros Hm. unfold ServePhoneConn, writeHandshakeError, writeWSAPIError, write_message. wp_go; try done.
  wp_use authenticate_phone_ok; [exact Hm|]. intros h2 [e|auth] H2 Ha; wp_go; try done.
  wp_use DeviceExists_ok. intros h3 known H3 _. wp_go; try done.
  wp_use phoneMayAccessDevice_ok; [shown|]. intros h4 [] H4 Hmay; wp_go; try done.
  destruct (Hmay eq_refl) as [Hd Hg]. unfold serve_subscribed. wp_go; try done.
  - cbn. destruct auth as [a|]; cbn in *; [destruct (AdminBypass a)|]; [shown|split; [shown|by apply Hg]|shown].
  - wp_use writeSubscribeAck_ok; [shown|]. intros h5 _ H5 _. wp_go.
    wp_use snapshot_ok; [shown|shown|]. intros h6 _ H6 _. wp_go.
    wp_use phoneReadLoop_ok; [shown|shown|]. intros h7 d7 H7 _. wp_go; done.
Qed.

Lemma HandlePhoneWS_ok frames h : keeps h (HandlePhoneWS frames s limited upgraded conn r).
Proof.
  unfold HandlePhoneWS, write_message. wp_go; try done. wp_use ServePhoneConn_ok; [left|]. intros; wp_go; done.
Qed.
End Phone.

Section Routes.
Context `{WebPush.NetHost} `{Relay.RelayCodec}.

#[local] Hint Resolve handleListDevices_ok handleDeviceSessions_ok handleMessages_ok handlePushSubscribe_ok
  handleVAPIDPublicKey_ok handleRegisterDevice_ok handleGeneratePairCode_ok handleUploadDeviceKeys_ok
  handleListDeviceGrants_ok handleKeyPackages_ok handleUploadKeyPackage_ok handleConsumePairCode_ok
  handlePhoneBootstrap_ok handleListPhones_ok handleRevokePhone_ok : shown.

Lemma serve_ok s cl h : wp (allowed s cl) (fun _ _ => True) h (serve s cl).
Proof.
  destruct cl as [to r|frames limited upgraded conn|frames limited upgraded conn r]; cbn [serve]; apply wp_bind.
  - eapply wp_mono; [destruct to; cbn [serve_http]; eauto with shown|done].
  - eapply wp_mono; [apply HandleDaemonWS_ok|done].
  - eapply wp_mono; [apply HandlePhoneWS_ok|done].
Qed.

(** C4: The relay mediates every access: whatever a client does and whatever its
    calls answer, each call is one that the policy allows after the calls
    before it. *)
Theorem handlers_obey_policy s cl : wp (allowed s cl) (fun _ _ => True) [] (serve s cl).
Proof. apply serve_ok. Qed.
End Routes.
