(* ===== verification/PairingSpec.v ===== *)
(** * Pairing and revocation between concurrent clients

    What [AccessSpec] says of one client holds for all clients of a world,
    whose calls interleave in any order. From that: where the grants of a phone
    come from, and what is left of a phone once it is revoked. *)

From stdpp Require Import base tactics list gmap strings.
From Stdlib Require Import Ascii ZArith Lia.
From S2P Require Import Prelude GoStrings Json Protocol RelayInput AccessStore RelayAccess AccessSpec.
From S2P Require Relay RelaySpec WebPush Connections.

(** ** The calls of a world *)

Definition events_of (i : nat) (l : list (nat * event)) : history :=
  omap (fun ie : nat * event => if bool_decide (ie.1 = i) then Some ie.2 else None) l.

Arguments events_of : simpl never.

Lemma elem_of_events_of i e l : e ∈ events_of i l <-> (i, e) ∈ l.
Proof.
  unfold events_of. rewrite list_elem_of_omap. split.
  - intros [[j e'] [Hin H]]. cbn in H. case_bool_decide; simplify_eq. done.
  - intros H. exists (i, e). split; [done|]. cbn. by rewrite bool_decide_true.
Qed.

Lemma events_of_cons i j e l :
  events_of i ((j, e) :: l) = if bool_decide (j = i) then e :: events_of i l else events_of i l.
Proof. unfold events_of. cbn. by case_bool_decide. Qed.

(** The effect of one call, by cases on the call and on its outcome. *)
Ltac perform_cases :=
  match goal with
  | |- context[@perform ?ro ?encode ?ch ?x ?n] =>
    destruct x; cbn [perform]; unfold query, exec_counted, exec_stmt, exec_insert, send_phones;
    repeat (match goal with |- context[match ?y with _ => _ end] => destruct y eqn:? end); cbn
  end.

Ltac stmt_cases :=
  unfold stmt_insert_device, stmt_update_device_keys, stmt_update_last_seen, stmt_insert_pair_code, stmt_use_pair_code,
    stmt_insert_phone, stmt_phone_seen, stmt_update_phone_keys, stmt_upsert_grant, stmt_revoke_grant,
    tx_revoke_phone, stmt_delete_packages, stmt_delete_pushes, stmt_upsert_package, update_phone in *;
  repeat case_match; simplify_eq; cbn in *.

Ltac by_perform :=
  intros Hp;
  match type of Hp with @perform ?ro ?encode ?ch ?x ?n = ?r =>
    match r with pair ?a ?n' =>
      assert (Ha : a = fst (@perform ro encode ch x n)) by (by rewrite Hp);
      assert (Hn : n' = snd (@perform ro encode ch x n)) by (by rewrite Hp); clear Hp; subst;
      perform_cases
    end
  end.

Section World.
Context `{WebPush.NetHost} `{Relay.RelayCodec} `{RO : RowOrder}.
Context (encode : NekoMessage -> option string) (s : engine).

(** Every thread has its own calls as its history and goes on keeping the
    policy; every call in the log was allowed when it was made. *)
Record world_ok (w : world) : Prop := {
  threads_ok : forall i t, threads w !! i = Some t ->
    th_history t = events_of i (log w) /\
    wp (allowed s (th_client t)) (fun _ _ => True) (th_history t) (th_prog t);
  log_ok : forall i x a, (i, Ev x a) ∈ log w ->
    exists t h, threads w !! i = Some t /\ h ⊆ th_history t /\ allowed s (th_client t) h x
}.

Lemma threads_bound w i e : world_ok w -> (i, e) ∈ log w -> (i < length (threads w))%nat.
Proof.
  intros Hw Hin. destruct e as [x a]. destruct (log_ok w Hw i x a Hin) as (t & h & Ht & _). by apply lookup_lt_Some in Ht.
Qed.

Lemma advance_cases i ch w :
  advance encode i ch w = w \/
  exists c h x k a n, threads w !! i = Some (mkThread c h (Do x k)) /\ perform encode ch x (w_nest w) = (a, n) /\
    advance encode i ch w = mkWorld n (<[i := mkThread c (Ev x a :: h) (k a)]> (threads w)) ((i, Ev x a) :: log w).
Proof.
  unfold advance. destruct (threads w !! i) as [[c h [r|x k]]|] eqn:Et; [by left| |by left].
  right. destruct (perform encode ch x (w_nest w)) as [a n] eqn:Ep. by exists c, h, x, k, a, n.
Qed.

Lemma world_ok_step w op : world_ok w -> world_ok (world_step encode s w op).
Proof.
  intros Hw. destruct op as [c|i ch|]; cbn [world_step].
  - constructor; cbn.
    + intros i t Ht. apply lookup_app_Some in Ht as [Ht|[Hle Ht]]; [by apply (threads_ok w Hw)|].
      apply list_lookup_singleton_Some in Ht as [Hi <-]. cbn. split; [|apply serve_ok].
      symmetry. apply elem_of_nil_inv. intros e He. apply elem_of_events_of in He.
      apply (threads_bound w _ _ Hw) in He. lia.
    + intros i x a Hin. destruct (log_ok w Hw i x a Hin) as (t & h & Ht & Hh & Ha). exists t, h.
      split; [by apply lookup_app_l_Some|done].
  - destruct (advance_cases i ch w) as [->|(c & h & x & k & a & n & Ht & Hp & ->)]; [done|].
    destruct (threads_ok w Hw i _ Ht) as [Hh [Hx Hk]]. cbn in Hh, Hx, Hk.
    constructor; cbn.
    + intros j t Hj. rewrite events_of_cons. destruct (decide (i = j)) as [<-|Hne].
      * rewrite list_lookup_insert_eq in Hj by (by apply lookup_lt_Some in Ht). simplify_eq. cbn.
        rewrite bool_decide_true by done. split; [done|apply Hk].
      * rewrite list_lookup_insert_ne in Hj by done. rewrite bool_decide_false by done. by apply (threads_ok w Hw).
    + intros j y b Hin. apply elem_of_cons in Hin as [Heq|Hin].
      * assert (Hj : j = i /\ Ev y b = Ev x a) by (by inversion Heq). destruct Hj as [-> He].
        assert (Hy : y = x) by (by apply (f_equal ev_call) in He). subst y.
        eexists _, h. rewrite list_lookup_insert_eq by (by apply lookup_lt_Some in Ht). split; [done|].
        cbn. split; [by apply list_subseteq_cons|exact Hx].
      * destruct (log_ok w Hw j y b Hin) as (t & h' & Htj & Hh' & Ha). destruct (decide (i = j)) as [<-|Hne].
        -- rewrite Ht in Htj. simplify_eq. eexists _, h'. rewrite list_lookup_insert_eq by (by apply lookup_lt_Some in Ht).
           split; [done|]. cbn. split; [set_solver|done].
        -- exists t, h'. by rewrite list_lookup_insert_ne.
  - constructor; cbn.
    + intros i t Ht. apply list_lookup_fmap_Some in Ht as (t0 & -> & Ht). cbn. split; [|done]. by apply (threads_ok w Hw).
    + intros i x a Hin. destruct (log_ok w Hw i x a Hin) as (t & h & Ht & Hh & Ha).
      eexists _, h. rewrite list_lookup_fmap, Ht. split; [done|]. by split.
Qed.

Lemma world_ok_run ops w : world_ok w -> world_ok (run_world encode s ops w).
Proof.
  revert w. induction ops as [|op ops IH]; intros w Hw; [done|]. cbn. apply IH. by apply world_ok_step.
Qed.

Lemma world_ok_new : world_ok new_world.
Proof. constructor; cbn; [done|]. intros i x a Hin. by apply not_elem_of_nil in Hin. Qed.

(** ** What a call does to the tables *)

(** The code that was used up, and the one whose device was told. *)
Definition used_code (e : event) : option string :=
  match e with
  | Ev c a => match c return answer c -> option string with
              | UsePairCode code _ => fun a => match a with inr (inr true) => Some code | _ => None end
              | _ => fun _ => None
              end a
  end.

Definition told_device (e : event) : option (string * string) :=
  match e with
  | Ev c a => match c return answer c -> option (string * string) with
              | SelectPairDevice code => fun a => match a with inr (Some d) => Some (code, d) | _ => None end
              | _ => fun _ => None
              end a
  end.

(** Pair codes: a call leaves them, adds one, or marks one as used. *)
Inductive pairs_step (e : event) (m m' : gmap string pairRow) : Prop :=
  | PairsSame : m' = m -> used_code e = None -> pairs_step e m m'
  | PairsNew code d exp :
      e = Ev (InsertPairCode code d exp) (inr tt) -> m !! code = None -> m' = <[code := mkPairRow d exp false]> m ->
      pairs_step e m m'
  | PairsUsed code r :
      m !! code = Some r -> pairUsed r = false -> m' = <[code := mkPairRow (pairDevice r) (pairExpiresAt r) true]> m ->
      (forall code', used_code e = Some code' -> code' = code) -> pairs_step e m m'.

Lemma perform_pairs ch x n a n' :
  perform encode ch x n = (a, n') -> pairs_step (Ev x a) (pair_codes (db n)) (pair_codes (db n')).
Proof.
  by_perform; try (by apply PairsSame).
  all: stmt_cases; try (by apply PairsSame).
  - by eapply PairsNew.
  - eapply PairsUsed; [done| |done|done]. match goal with H : _ = true |- _ => apply andb_true_iff in H as [H _]; by apply negb_true_iff in H end.
  - eapply PairsUsed; [done| |done|by intros ? [= ->]].
    match goal with H : _ = true |- _ => apply andb_true_iff in H as [H _]; by apply negb_true_iff in H end.
Qed.

Lemma perform_told ch x n a n' code d :
  perform encode ch x n = (a, n') -> told_device (Ev x a) = Some (code, d) ->
  pairDevice <$> pair_codes (db n) !! code = Some d /\ db n' = db n.
Proof.
  by_perform; try done. intros Ht. split; [|done].
  destruct (pairDevice <$> pair_codes (db n) !! code0) eqn:E; by simplify_eq.
Qed.

Lemma perform_grants ch x n a n' p d g :
  perform encode ch x n = (a, n') -> phone_device_grants (db n') !! (p, d) = Some g ->
  is_Some (phone_device_grants (db n) !! (p, d)) \/ exists now, Ev x a = Ev (UpsertGrant p d now) (inr tt).
Proof.
  by_perform; try (by left).
  all: stmt_cases; try (by left).
  - rewrite map_lookup_imap. intros Hg. left. destruct (phone_device_grants (db n) !! (p, d)); [by eexists|done].
  - intros Hg. apply lookup_insert_Some in Hg as [[[= <- <-] _]|[_ Hg]]; [right; by eexists|by left].
  - intros Hg. left. apply lookup_insert_Some in Hg as [[[= <- <-] _]|[_ Hg]]; by eexists.
  - intros Hg. left. apply lookup_insert_Some in Hg as [[[= <- <-] _]|[_ Hg]]; by eexists.
Qed.

(** ** Pairing *)

(** The threads that used up a code. *)
Definition winners (code : string) (l : list (nat * event)) : list nat :=
  omap (fun ie : nat * event => if bool_decide (used_code ie.2 = Some code) then Some ie.1 else None) l.

Lemma winners_cons code i e l :
  winners code ((i, e) :: l) = (if bool_decide (used_code e = Some code) then [i] else []) ++ winners code l.
Proof. unfold winners. cbn. by case_bool_decide. Qed.

Lemma elem_of_winners code i l : i ∈ winners code l <-> exists e, (i, e) ∈ l /\ used_code e = Some code.
Proof.
  unfold winners. rewrite list_elem_of_omap. split.
  - intros [[j e] [Hin He]]. cbn in He. case_bool_decide; simplify_eq. by exists e.
  - intros (e & Hin & He). exists (i, e). split; [done|]. cbn. by rewrite bool_decide_true.
Qed.

Definition code_unused (m : gmap string pairRow) (code : string) : Prop :=
  forall r, m !! code = Some r -> pairUsed r = false.

Record pairing_ok (w : world) : Prop := {
  codes_made : forall code r, pair_codes (db (w_nest w)) !! code = Some r ->
    exists i exp, (i, Ev (InsertPairCode code (pairDevice r) exp) (inr tt)) ∈ log w;
  codes_told : forall i e code d, (i, e) ∈ log w -> told_device e = Some (code, d) ->
    pairDevice <$> pair_codes (db (w_nest w)) !! code = Some d;
  codes_won : forall code, winners code (log w) = [] \/
    (exists i, winners code (log w) = [i]) /\ exists r, pair_codes (db (w_nest w)) !! code = Some r /\ pairUsed r = true;
  grants_made : forall p d g, phone_device_grants (db (w_nest w)) !! (p, d) = Some g ->
    exists i now, (i, Ev (UpsertGrant p d now) (inr tt)) ∈ log w
}.

Arguments winners : simpl never.

Lemma pairs_step_keeps e m m' code d :
  pairs_step e m m' -> pairDevice <$> m !! code = Some d -> pairDevice <$> m' !! code = Some d.
Proof.
  intros Hs Hd. destruct Hs as [-> _|code' d' exp _ Hnone ->|code' r Hr _ -> _]; [done| |].
  - destruct (decide (code' = code)) as [<-|Hne]; [by rewrite Hnone in Hd|by rewrite lookup_insert_ne].
  - destruct (decide (code' = code)) as [<-|Hne]; [|by rewrite lookup_insert_ne].
    rewrite lookup_insert_eq. by rewrite Hr in Hd.
Qed.

Lemma pairs_step_won e m m' code :
  pairs_step e m m' -> used_code e = Some code ->
  exists r r', m !! code = Some r /\ pairUsed r = false /\ m' !! code = Some r' /\ pairUsed r' = true.
Proof.
  intros Hs Hu. destruct Hs as [_ Hn|code' d' exp -> _ _|code' r Hr Hf -> Hc]; [by rewrite Hn in Hu|done|].
  rewrite (Hc _ Hu). eexists _, _. rewrite lookup_insert_eq. done.
Qed.

Lemma pairs_step_used e m m' code r :
  pairs_step e m m' -> m !! code = Some r -> pairUsed r = true -> exists r', m' !! code = Some r' /\ pairUsed r' = true.
Proof.
  intros Hs Hr Hu. destruct Hs as [-> _|code' d' exp _ Hnone ->|code' r0 Hr0 _ -> _]; [by exists r| |].
  - exists r. rewrite lookup_insert_ne; [done|]. intros ->. by rewrite Hnone in Hr.
  - destruct (decide (code' = code)) as [<-|Hne]; [|by exists r; rewrite lookup_insert_ne].
    eexists. by rewrite lookup_insert_eq.
Qed.

Lemma pairing_ok_step w op : pairing_ok w -> pairing_ok (world_step encode s w op).
Proof.
  intros Hw. destruct op as [c|i ch|]; cbn [world_step].
  1, 3: destruct Hw as [H1 H2 H3 H4]; constructor; cbn; assumption.
  destruct (advance_cases i ch w) as [->|(c & h & x & k & a & n & Ht & Hp & ->)]; [done|].
  pose proof (perform_pairs _ _ _ _ _ Hp) as Hs. destruct Hw as [Hmade Htold Hwon Hgrants].
  constructor; cbn [w_nest log].
  - intros code r Hr.
    assert (Hcase : (pairDevice <$> pair_codes (db (w_nest w)) !! code = Some (pairDevice r)) \/
                    exists exp, Ev x a = Ev (InsertPairCode code (pairDevice r) exp) (inr tt)).
    { destruct Hs as [Hm _|code' d' exp He _ Hm|code' r0 Hr0 _ Hm _]; rewrite Hm in Hr.
      - left. by rewrite Hr.
      - apply lookup_insert_Some in Hr as [[<- <-]|[_ Hr]]; [right; by exists exp|left; by rewrite Hr].
      - left. apply lookup_insert_Some in Hr as [[<- <-]|[_ Hr]]; [by rewrite Hr0|by rewrite Hr]. }
    destruct Hcase as [Hold|[exp He]].
    + apply fmap_Some in Hold as (r0 & Hr0 & Hd). rewrite Hd. destruct (Hmade _ _ Hr0) as (j & exp & Hin).
      exists j, exp. by right.
    + exists i, exp. rewrite He. by left.
  - intros j e code d Hin He. eapply pairs_step_keeps; [exact Hs|].
    apply elem_of_cons in Hin as [Heq|Hin]; [|by eapply Htold].
    assert (He' : e = Ev x a) by (by inversion Heq). rewrite He' in He. by destruct (perform_told _ _ _ _ _ _ _ Hp He).
  - intros code. rewrite winners_cons. case_bool_decide as Hu.
    + destruct (pairs_step_won _ _ _ _ Hs Hu) as (r & r' & Hr & Hf & Hr' & Ht'). right.
      destruct (Hwon code) as [->|[_ (r2 & Hr2 & Hu2)]]; [|rewrite Hr in Hr2; simplify_eq; by rewrite Hf in Hu2].
      split; [by exists i|by exists r'].
    + destruct (Hwon code) as [->|[[j ->] (r & Hr & Hr')]]; [by left|right].
      split; [by exists j|by eapply pairs_step_used].
  - intros p d g Hg. destruct (perform_grants _ _ _ _ _ _ _ _ Hp Hg) as [[g0 Hold]|[now He]].
    + destruct (Hgrants _ _ _ Hold) as (j & now & Hin). exists j, now. by right.
    + exists i, now. rewrite He. by left.
Qed.

Lemma pairing_ok_run ops w : pairing_ok w -> pairing_ok (run_world encode s ops w).
Proof. revert w. induction ops as [|op ops IH]; intros w Hw; [done|]. cbn. apply IH. by apply pairing_ok_step. Qed.

Lemma pairing_ok_new : pairing_ok new_world.
Proof. constructor; cbn; try done; [|by left]. intros i e code d Hin. by apply not_elem_of_nil in Hin. Qed.

(** C5: A phone has a grant for a device only through pairing: there is a code of
    that device which exactly one client used up; that client is the phone, or
    made the phone as the admin; and the code was made by a client that had
    shown the device's token. *)
Theorem grants_come_from_pairing ops p d g :
  phone_device_grants (db (w_nest (run_world encode s ops new_world))) !! (p, d) = Some g ->
  let w := run_world encode s ops new_world in
  exists i j ti tj code exp,
    threads w !! i = Some ti /\ threads w !! j = Some tj /\
    winners code (log w) = [i] /\ paired (th_history ti) code d /\
    (as_phone (th_client ti) (th_history ti) p \/
     (may_mint s (th_client ti) (th_history ti) /\ minted (th_history ti) p)) /\
    Ev (InsertPairCode code d exp) (inr tt) ∈ th_history tj /\ as_device (th_client tj) (th_history tj) d.
Proof.
  intros Hg w. pose proof (world_ok_run ops _ world_ok_new) as Hw. pose proof (pairing_ok_run ops _ pairing_ok_new) as Hp.
  fold w in Hg, Hw, Hp. destruct (grants_made w Hp _ _ _ Hg) as (i & now & Hin).
  destruct (log_ok w Hw _ _ _ Hin) as (ti & h & Hti & Hh & [[code Hpair] Hwho]).
  destruct (threads_ok w Hw _ _ Hti) as [Hhist _].
  assert (Hpair' : paired (th_history ti) code d) by (by eapply paired_mono).
  destruct Hpair' as [[now' Hused] Htold].
  assert (Hr : pairDevice <$> pair_codes (db (w_nest w)) !! code = Some d).
  { apply (codes_told w Hp i (Ev (SelectPairDevice code) (inr (Some d)))); [|reflexivity].
    rewrite Hhist in Htold. by apply elem_of_events_of. }
  apply fmap_Some in Hr as (r & Hr & ->). destruct (codes_made w Hp _ _ Hr) as (j & exp & Hmade).
  destruct (log_ok w Hw _ _ _ Hmade) as (tj & h' & Htj & Hh' & Hdev).
  destruct (threads_ok w Hw _ _ Htj) as [Hhistj _].
  exists i, j, ti, tj, code, exp. split; [done|]. split; [done|].
  split; [|split; [by eapply paired_mono|split; [|split]]].
  - assert (Hwin : i ∈ winners code (log w)).
    { apply elem_of_winners. rewrite Hhist in Hused. apply elem_of_events_of in Hused.
      by exists (Ev (UsePairCode code now') (inr (inr true))). }
    destruct (codes_won w Hp code) as [E|[[i' E] _]]; rewrite E in Hwin |- *; [by apply not_elem_of_nil in Hwin|].
    apply list_elem_of_singleton in Hwin as ->. done.
  - destruct Hwho as [Hph|[Hm1 Hm2]]; [left; by eapply as_phone_mono|right].
    split; [by eapply may_mint_mono|by eapply minted_mono].
  - rewrite Hhistj. by apply elem_of_events_of.
  - cbn in Hdev. by eapply as_device_mono.
Qed.
(** ** Revocation *)

(** What a call told of the clock, of a phone, and of a revocation. *)
Definition clock_reading (e : event) : option Z :=
  match e with
  | Ev c a => match c return answer c -> option Z with ClockNow => fun a => Some a | _ => fun _ => None end a
  end.

Definition phone_told (e : event) : option (string * phoneRow) :=
  match e with
  | Ev c a => match c return answer c -> option (string * phoneRow) with
              | SelectPhoneByHash _ => fun a => match a with inr (Some r) => Some r | _ => None end
              | _ => fun _ => None
              end a
  end.

Definition phone_inserted (e : event) : option string :=
  match e with
  | Ev c a => match c return answer c -> option string with
              | InsertPhone p _ _ _ => fun a => match a with inr _ => Some p | inl _ => None end
              | _ => fun _ => None
              end a
  end.

Definition phone_revoked (e : event) : option string :=
  match e with
  | Ev c a => match c return answer c -> option string with
              | RevokePhoneTx p _ => fun a => match a with inr _ => Some p | inl _ => None end
              | _ => fun _ => None
              end a
  end.

(** A phone's row stays, and a revocation of it too. *)
Definition row_follows (m m' : gmap string phoneRow) : Prop :=
  forall p r, m !! p = Some r ->
    exists r', m' !! p = Some r' /\ (phRevokedAt r <> 0 -> phRevokedAt r' = phRevokedAt r).

Lemma row_follows_refl m : row_follows m m.
Proof. intros p r Hr. by exists r. Qed.

Lemma row_follows_update m p r r' :
  m !! p = Some r -> (phRevokedAt r <> 0 -> phRevokedAt r' = phRevokedAt r) -> row_follows m (<[p := r']> m).
Proof.
  intros Hp Hrev q rq Hq. destruct (decide (p = q)) as [<-|Hne]; [|exists rq; by rewrite lookup_insert_ne].
  exists r'. rewrite lookup_insert_eq. rewrite Hp in Hq. by simplify_eq.
Qed.

Lemma row_follows_new m p r' : m !! p = None -> row_follows m (<[p := r']> m).
Proof. intros Hp q rq Hq. exists rq. rewrite lookup_insert_ne; [done|]. intros ->. by rewrite Hp in Hq. Qed.

Lemma perform_phones ch x n a n' :
  perform encode ch x n = (a, n') -> row_follows (phone_identities (db n)) (phone_identities (db n')).
Proof.
  by_perform; try apply row_follows_refl.
  all: stmt_cases; try apply row_follows_refl; try (by apply row_follows_new); (eapply row_follows_update; [done|]); try done.
  all: unfold active_phone in *; cbn; intros; exfalso.
  all: match goal with H : (_ =? 0) = true |- _ => apply Z.eqb_eq in H; lia end.
Qed.

Lemma phone_by_hash_found hash t p r : phone_by_hash hash t = Some (p, r) -> phone_identities t !! p = Some r.
Proof.
  unfold phone_by_hash. intros [Hin _]%List.find_some. apply list_elem_of_In in Hin.
  rewrite scan_perm in Hin. by apply elem_of_map_to_list in Hin.
Qed.

Lemma perform_found ch x n a n' p r :
  perform encode ch x n = (a, n') -> phone_told (Ev x a) = Some (p, r) -> phone_identities (db n) !! p = Some r.
Proof.
  by_perform; try done. intros Hf. apply (phone_by_hash_found hash). by destruct (phone_by_hash hash (db n)).
Qed.

Lemma perform_inserted ch x n a n' p :
  perform encode ch x n = (a, n') -> phone_inserted (Ev x a) = Some p -> phone_identities (db n) !! p = None.
Proof. by_perform; try done. intros [= ->]. stmt_cases; done. Qed.

Lemma perform_clock ch x n a n' t : perform encode ch x n = (a, n') -> clock_reading (Ev x a) = Some t -> t = chNow ch.
Proof. by_perform; try done. by intros [= ->]. Qed.

(** The rows of revoked phones say when; a positive time is what authentication
    looks at. *)
Definition revoked_in (m : gmap string phoneRow) (p : string) : Prop :=
  exists r, m !! p = Some r /\ 0 < phRevokedAt r.

Lemma revoked_in_follows m m' p : row_follows m m' -> revoked_in m p -> revoked_in m' p.
Proof.
  intros Hf (r & Hr & Hpos). destruct (Hf p r Hr) as (r' & Hr' & He). exists r'. split; [done|]. rewrite He; lia.
Qed.

(** Under a clock that is past 1970, a revocation in the log is in the table. *)
Definition clock_runs (ops : list world_op) : Prop :=
  forall i ch, Advance i ch ∈ ops -> 0 < chNow ch / nanos_per_second.

Record revocation_ok (w : world) : Prop := {
  clock_positive : forall i e t, (i, e) ∈ log w -> clock_reading e = Some t -> 0 < t / nanos_per_second;
  revoked_nonneg : forall p r, phone_identities (db (w_nest w)) !! p = Some r -> 0 <= phRevokedAt r;
  revoked_kept : forall i e p, (i, e) ∈ log w -> phone_revoked e = Some p -> revoked_in (phone_identities (db (w_nest w))) p
}.

(** What a call does to the time of a revocation. *)
Lemma perform_revoked_at ch x n a n' p r' :
  perform encode ch x n = (a, n') -> phone_identities (db n') !! p = Some r' ->
  phRevokedAt r' = 0 \/ (exists r, phone_identities (db n) !! p = Some r /\ phRevokedAt r' = phRevokedAt r) \/
  exists now, x = RevokePhoneTx p now /\ phRevokedAt r' = now.
Proof.
  by_perform; try (right; left; by eexists).
  all: stmt_cases; try (right; left; by eexists).
  all: intros Hr; apply lookup_insert_Some in Hr as [[<- <-]|[Hne Hr]]; try (right; left; by eexists).
  - by left.
  - right; right. by eexists.
Qed.

Lemma perform_revokes ch p now n a n' :
  perform encode ch (RevokePhoneTx p now) n = (a, n') -> phone_revoked (Ev (RevokePhoneTx p now) a) = Some p ->
  exists r, phone_identities (db n') !! p = Some r /\ (phRevokedAt r <> 0 \/ phRevokedAt r = now).
Proof.
  cbn [perform]. unfold tx_revoke_phone, update_phone. intros Hp Hr. repeat case_match; simplify_eq; cbn in *; simplify_eq.
  - eexists. rewrite lookup_insert_eq. split; [done|]. by right.
  - eexists. split; [done|]. left. by apply Z.eqb_neq.
Qed.

Lemma phone_revoked_call x a p : phone_revoked (Ev x a) = Some p -> exists now, x = RevokePhoneTx p now.
Proof. destruct x; cbn; try done. destruct a; [done|]. intros [= ->]. by eexists. Qed.

(** The time of a revocation was read from the clock. *)
Lemma revocation_time w i c h p now k :
  world_ok w -> revocation_ok w -> threads w !! i = Some (mkThread c h (Do (RevokePhoneTx p now) k)) -> 0 < now.
Proof.
  intros Hw Hr Ht. destruct (threads_ok w Hw _ _ Ht) as [Hh [[_ (t & Hclock & ->)] _]]. cbn in Hh, Hclock.
  rewrite Hh in Hclock. apply elem_of_events_of in Hclock. by eapply (clock_positive w Hr); [exact Hclock|].
Qed.

Lemma revocation_ok_step w op :
  (forall i ch, op = Advance i ch -> 0 < chNow ch / nanos_per_second) -> world_ok w -> revocation_ok w ->
  revocation_ok (world_step encode s w op).
Proof.
  intros Hclock Hw Hr. destruct op as [c|i ch|]; cbn [world_step].
  1, 3: destruct Hr as [H1 H2 H3]; constructor; cbn; assumption.
  destruct (advance_cases i ch w) as [->|(c & h & x & k & a & n & Ht & Hp & ->)]; [done|].
  pose proof (perform_phones _ _ _ _ _ Hp) as Hf. constructor; cbn [w_nest log].
  - intros j e t [Heq|Hin]%elem_of_cons He; [|by eapply (clock_positive w Hr)].
    assert (He' : e = Ev x a) by (by inversion Heq). subst e. rewrite (perform_clock _ _ _ _ _ _ Hp He). by eapply Hclock.
  - intros p r Hl. destruct (perform_revoked_at _ _ _ _ _ _ _ Hp Hl) as [->|[(r0 & Hr0 & ->)|(now & -> & ->)]].
    + done.
    + by apply (revoked_nonneg w Hr p).
    + apply Z.lt_le_incl. by eapply revocation_time.
  - intros j e p [Heq|Hin]%elem_of_cons He.
    + assert (He' : e = Ev x a) by (by inversion Heq). subst e.
      destruct (phone_revoked_call _ _ _ He) as [now ->].
      pose proof (revocation_time _ _ _ _ _ _ _ Hw Hr Ht).
      destruct (perform_revokes _ _ _ _ _ _ Hp He) as (r & Hl & Hat). exists r. split; [done|].
      destruct Hat as [Hat| ->]; [|done].
      destruct (perform_revoked_at _ _ _ _ _ _ _ Hp Hl) as [E|[(r0 & Hr0 & E)|(now' & E1 & E)]].
      * lia.
      * pose proof (revoked_nonneg w Hr p r0 Hr0). lia.
      * injection E1 as <-. lia.
    + eapply revoked_in_follows; [exact Hf|]. by eapply (revoked_kept w Hr).
Qed.

Lemma revocation_ok_run ops w : clock_runs ops -> world_ok w -> revocation_ok w -> revocation_ok (run_world encode s ops w).
Proof.
  revert w. induction ops as [|op ops IH]; intros w Hc Hw Hr; [done|]. cbn. apply IH.
  - intros i ch Hin. apply (Hc i ch). by right.
  - by apply world_ok_step.
  - apply revocation_ok_step; [|done|done]. intros i ch ->. apply (Hc i ch). by left.
Qed.

Lemma revocation_ok_new : revocation_ok new_world.
Proof. constructor; cbn; [| |]; try (intros i e t Hin; by apply not_elem_of_nil in Hin). done. Qed.

(** From [w0] on, phone [p] is revoked: no later call finds it active, or adds
    a phone of its id. *)
Record stays_out (p : string) (n0 : nat) (w : world) : Prop := {
  out_revoked : revoked_in (phone_identities (db (w_nest w))) p;
  out_told : forall i e r, (i, e) ∈ log w -> (n0 <= i)%nat -> phone_told e = Some (p, r) -> 0 < phRevokedAt r;
  out_minted : forall i e, (i, e) ∈ log w -> (n0 <= i)%nat -> phone_inserted e <> Some p
}.

Lemma stays_out_step p n0 w op : stays_out p n0 w -> stays_out p n0 (world_step encode s w op).
Proof.
  intros Ho. destruct op as [c|i ch|]; cbn [world_step].
  1, 3: destruct Ho as [H1 H2 H3]; constructor; cbn; assumption.
  destruct (advance_cases i ch w) as [->|(c & h & x & k & a & n & Ht & Hp & ->)]; [done|].
  destruct Ho as [Hrev Htold Hmint]. pose proof Hrev as (r0 & Hr0 & Hpos). constructor; cbn [w_nest log].
  - eapply revoked_in_follows; [by eapply perform_phones|done].
  - intros j e r [Heq|Hin]%elem_of_cons Hj He; [|by eapply Htold].
    assert (He' : e = Ev x a) by (by inversion Heq). subst e.
    pose proof (perform_found _ _ _ _ _ _ _ Hp He). by simplify_eq.
  - intros j e [Heq|Hin]%elem_of_cons Hj; [|by eapply Hmint].
    assert (He' : e = Ev x a) by (by inversion Heq). subst e. intros He.
    pose proof (perform_inserted _ _ _ _ _ _ Hp He). by simplify_eq.
Qed.

Lemma stays_out_run ops p n0 w : stays_out p n0 w -> stays_out p n0 (run_world encode s ops w).
Proof. revert w. induction ops as [|op ops IH]; intros w Ho; [done|]. cbn. apply IH. by apply stays_out_step. Qed.

Lemma stays_out_now p w : world_ok w -> revoked_in (phone_identities (db (w_nest w))) p -> stays_out p (length (threads w)) w.
Proof.
  intros Hw Hr. constructor; [done| |]; intros i e; [intros r|]; intros Hin Hi; apply (threads_bound w _ _ Hw) in Hin; lia.
Qed.

(** C6: After the revocation of a phone has been committed, no client that arrives
    authenticates as that phone, makes another one of its id, or gets a
    subscription, a grant, packages or a push registration in its name. *)
Theorem revoked_phone_stays_out ops1 ops2 p j now i t :
  clock_runs ops1 ->
  let w1 := run_world encode s ops1 new_world in
  let w2 := run_world encode s ops2 w1 in
  (j, Ev (RevokePhoneTx p now) (inr tt)) ∈ log w1 ->
  threads w2 !! i = Some t -> (length (threads w1) <= i)%nat ->
  ~ as_phone (th_client t) (th_history t) p /\ ~ minted (th_history t) p /\
  forall x a, Ev x a ∈ th_history t ->
    match x with
    | AddPhoneAuthenticated _ _ q admin => admin = false -> q <> p
    | UpsertGrant q _ _ => q <> p
    | SelectPhoneDevices q => q <> p
    | SelectPackages q _ => q = p -> as_admin s (th_client t) (th_history t)
    | SavePushTx sub _ => subPhoneID sub = p -> as_admin s (th_client t) (th_history t)
    | _ => True
    end.
Proof.
  intros Hclock w1 w2 Hrev Ht Hi.
  pose proof (world_ok_run ops1 _ world_ok_new) as Hw1. pose proof (world_ok_run ops2 _ Hw1) as Hw2.
  pose proof (revocation_ok_run ops1 _ Hclock world_ok_new revocation_ok_new) as Hr1. fold w1 in Hw1, Hw2, Hr1.
  pose proof (stays_out_run ops2 _ _ _ (stays_out_now p w1 Hw1 (revoked_kept w1 Hr1 _ _ _ Hrev eq_refl))) as Ho.
  fold w2 in Hw2, Ho. destruct (threads_ok w2 Hw2 _ _ Ht) as [Hh _].
  assert (Hp : ~ as_phone (th_client t) (th_history t) p).
  { intros (cred & row & _ & Hfound & _ & Hact). rewrite Hh in Hfound. apply elem_of_events_of in Hfound.
    pose proof (out_told _ _ _ Ho i _ row Hfound Hi eq_refl). lia. }
  assert (Hm : ~ minted (th_history t) p).
  { intros (name & hash & t0 & Hins). rewrite Hh in Hins. apply elem_of_events_of in Hins.
    by apply (out_minted _ _ _ Ho i _ Hins Hi). }
  split; [done|]. split; [done|]. intros x a Hin. rewrite Hh in Hin. apply elem_of_events_of in Hin.
  destruct (log_ok w2 Hw2 _ _ _ Hin) as (t' & h & Ht' & Hsub & Hal). simplify_eq.
  assert (Hp' : ~ as_phone (th_client t) h p) by (intros Ha; apply Hp; by eapply as_phone_mono).
  assert (Hm' : ~ minted h p) by (intros Ha; apply Hm; by eapply minted_mono).
  destruct x; try done; cbn in Hal.
  - intros ->. by destruct Hal as [_ [?|[_ ?]]].
  - by intros ->.
  - intros ->. destruct Hal as [Ha|[? _]]; [by eapply as_admin_mono|done].
  - intros E. rewrite E in Hal. destruct Hal as [Ha|[? _]]; [by eapply as_admin_mono|done].
  - intros -> ->. by destruct Hal.
Qed.
End World.

(** ** A concrete world *)

Module Demo.
Import RelaySpec.

#[export] Instance map_order : RowOrder := {|
  scan := fun K A HD HC m => map_to_list m;
  scan_perm := fun K A HD HC m => reflexivity _
|}.

#[export] Instance no_net : WebPush.NetHost := {| WebPush.parse_url := fun _ => None; WebPush.ParseIP := fun _ => None |}.

Definition frames_as_types (m : NekoMessage) : option string := Some (ProtocolVersion m).

Definition secured : engine := mkEngine "admin" TransportOpen "1.0" None "boot" "" "".

(** Nothing fails; the clock says [now], and every random string is "abc". *)
Definition smooth (now : Z) (frame : frame_read) : choice :=
  mkChoice None None None (now * nanos_per_second) (inr "abc") [] (mkDaemonView "" None None "" None) None true frame [].

Definition post (headers fields : list (string * string)) : request :=
  mkRequest "POST" (list_to_map headers) ∅ (mkBody false (list_to_map fields) 0).

Definition steps (i n : nat) (now : Z) : list world_op := replicate n (Advance i (smooth now (inl tt))).

(** The device registers and makes a pair code; the admin uses it up. *)
Definition pairing_day : list world_op :=
  [Arrive (HTTP RouteRegisterDevice (post [("X-Neko-Bootstrap", "boot")] [("device_id", "pc")]))] ++ steps 0 10 1 ++
  [Arrive (HTTP RouteGeneratePairCode (post [] [("device_id", "pc"); ("token", "616263")]))] ++ steps 1 12 2 ++
  [Arrive (HTTP RouteConsumePairCode (post [("X-Neko-Secret", "admin")] [("code", "616263"); ("name", "my phone")]))] ++
  steps 2 20 3.

(** The phone opens a websocket and is checked; before it is subscribed, the
    admin revokes it; then it subscribes and sends a prompt. *)
Definition subscribe_frame : NekoMessage :=
  mkMessage "1.3" TransportOpen MsgSubscribe "pc" "" "" "" None 0 (Some ∅) None.
Definition prompt_frame : NekoMessage :=
  mkMessage "1.3" TransportOpen MsgSendPrompt "pc" "s1" "" "" None 0 (Some (doc [("prompt", VString "hello")])) None.

Definition reads (i : nat) (now : Z) (m : NekoMessage) : world_op := Advance i (smooth now (inr (Some m))).

Definition revoke_request : client :=
  HTTP RouteRevokePhone (post [("X-Neko-Secret", "admin")] [("phone_id", "phone_616263")]).

Definition phone_socket : client := PhoneSocket 3 false true 7 (post [("X-Neko-Secret", "616263")] []).

Definition revocation_race : list world_op :=
  pairing_day ++ [Arrive phone_socket; reads 3 4 subscribe_frame] ++ steps 3 5 4 ++
  [Arrive revoke_request] ++ steps 4 3 5 ++ steps 3 12 6 ++ [reads 3 7 prompt_frame] ++ steps 3 1 7.

Definition revoked_day : list world_op := pairing_day ++ [Arrive revoke_request] ++ steps 3 5 4.

(** The calls that matter for a revocation, with their clients, in order. *)
Definition mark (x : call) : option string :=
  match x with
  | SelectGrant _ _ => Some "grant read"
  | RevokePhoneTx _ _ => Some "revoked"
  | ClosePhonesByPrincipal _ => Some "sockets closed"
  | AddPhoneAuthenticated _ _ _ _ => Some "subscribed"
  | HandlePhoneMessage _ _ => Some "frame handled"
  | _ => None
  end.

Definition marks (l : list (nat * event)) : list (nat * string) :=
  reverse (omap (fun ie : nat * event => (fun m => (ie.1, m)) <$> mark (ev_call ie.2)) l).
End Demo.

Import Demo.
#[local] Existing Instance RelaySpec.toy_codec.

Lemma clock_runs_check ops :
  forallb (fun op => match op with Advance _ ch => 0 <? chNow ch / nanos_per_second | _ => true end) ops = true ->
  clock_runs ops.
Proof.
  rewrite forallb_forall. intros H i ch Hin. apply list_elem_of_In, H in Hin. by apply Z.ltb_lt.
Qed.

Lemma grants_come_from_pairing_witness :
  phone_device_grants (db (w_nest (run_world frames_as_types secured pairing_day new_world))) !! ("phone_616263", "pc") =
    Some (mkGrantRow 3 0) /\
  exists i code, winners code (log (run_world frames_as_types secured pairing_day new_world)) = [i].
Proof.
  assert (Hg : phone_device_grants (db (w_nest (run_world frames_as_types secured pairing_day new_world)))
    !! ("phone_616263", "pc") = Some (mkGrantRow 3 0)) by (vm_compute; reflexivity).
  split; [exact Hg|].
  destruct (grants_come_from_pairing frames_as_types secured pairing_day _ _ _ Hg)
    as (i & j & ti & tj & code & exp & _ & _ & Hw & _).
  exists i, code. exact Hw.
Defined.

(** The phone, revoked, comes back with its token. *)
Lemma revoked_phone_stays_out_witness :
  exists t, threads (run_world frames_as_types secured ([Arrive phone_socket; reads 4 6 subscribe_frame] ++ steps 4 6 6)
                       (run_world frames_as_types secured revoked_day new_world)) !! 4%nat = Some t /\
            ~ as_phone (th_client t) (th_history t) "phone_616263".
Proof.
  set (w1 := run_world frames_as_types secured revoked_day new_world).
  set (ops2 := [Arrive phone_socket; reads 4 6 subscribe_frame] ++ steps 4 6 6).
  assert (Hlen : length (threads w1) = 4%nat) by (vm_compute; reflexivity).
  assert (Hrev : (3%nat, Ev (RevokePhoneTx "phone_616263" 4) (inr tt)) ∈ log w1).
  { apply (list_elem_of_lookup_2 _ 1). vm_compute. reflexivity. }
  assert (Ht : is_Some (threads (run_world frames_as_types secured ops2 w1) !! 4%nat))
    by (apply lookup_lt_is_Some; vm_compute; lia).
  destruct Ht as [t Ht]. exists t. split; [exact Ht|].
  pose proof (revoked_phone_stays_out frames_as_types secured revoked_day ops2 "phone_616263" 3 4 4 t) as Hout.
  cbv zeta in Hout. fold w1 in Hout. rewrite Hlen in Hout.
  apply Hout; [|exact Hrev|exact Ht|constructor].
  apply clock_runs_check. vm_compute. reflexivity.
Defined.

(** A revocation between the check of a phone's grant and its subscription
    misses the socket: the phone stays subscribed, and its frames are handled,
    after the revocation has closed "all" its sockets. *)
Theorem revocation_race_keeps_the_socket :
  let w := run_world frames_as_types secured revocation_race new_world in
  marks (log w) = [(3%nat, "grant read"); (4%nat, "revoked"); (4%nat, "sockets closed"); (3%nat, "subscribed");
                   (3%nat, "frame handled")] /\
  (th_prog <$> threads w !! 4%nat) =
    Some (Ret (Some (JSON (doc [("status", VString "revoked"); ("phone_id", VString "phone_616263")])))) /\
  phRevokedAt <$> phone_identities (db (w_nest w)) !! "phone_616263" = Some 5 /\
  Connections.Phones.conns_of (phones (w_nest w)) "pc" = [7] /\
  Connections.Phones.phonePrincipals (phones (w_nest w)) !! 7 =
    Some (Connections.Phones.mkPrincipal "phone_616263" false).
Proof. by vm_compute. Qed.
