(* ===== verification/PrincipalsSpec.v ===== *)
(** * What the registry of principals promises

    A credential stands for at most one phone and one device: the registry,
    which scans its identities, behaves as a keyring indexed by digests. *)

From stdpp Require Import base tactics list gmap strings.
From Stdlib Require Import Ascii ZArith Lia.
From S2P Require Import Prelude GoStrings Sha256 AccessStore Principals.

(** ** The keyring *)

Record keyring : Type := mkKeyring {
  device_key : gmap string string;
  phone_key : gmap string (string * string)
}.

(** What [Sync] finds out about an id and a credential. *)
Definition sync_check (required id : string) (credential : Credential) : res string :=
  if is_empty id then Err required else credentialDigest credential.

Definition held_by_other {A} (id_of : A -> string) (m : gmap string A) (id digest : string) : bool :=
  match m !! digest with Some x => negb (bool_decide (id_of x = id)) | None => false end.

Definition without {A} (id_of : A -> string) (id : string) (m : gmap string A) : gmap string A :=
  filter (fun '(_, x) => id_of x <> id) m.

#[export] Instance keyring_port : PrincipalPort keyring := {|
  SyncDevice id credential k :=
    match sync_check "relaycore: device id is required" id credential with
    | Err e => (Err e, k)
    | Ok digest =>
      if held_by_other (fun x => x) (device_key k) id digest then (Err ErrCredentialIdentityConflict, k)
      else (Ok tt, mkKeyring (<[digest := id]> (without (fun x => x) id (device_key k))) (phone_key k))
    end;
  RevokeDevice id k := mkKeyring (without (fun x => x) id (device_key k)) (phone_key k);
  SyncPhone id name credential k :=
    match sync_check "relaycore: phone id is required" id credential with
    | Err e => (Err e, k)
    | Ok digest =>
      if held_by_other fst (phone_key k) id digest then (Err ErrCredentialIdentityConflict, k)
      else (Ok tt, mkKeyring (device_key k) (<[digest := (id, name)]> (without fst id (phone_key k))))
    end;
  RevokePhone id k := mkKeyring (device_key k) (without fst id (phone_key k));
  ValidateDeviceToken id raw k := bool_decide (device_key k !! rawCredentialDigest raw = Some id);
  ValidatePhoneToken raw k :=
    match phone_key k !! rawCredentialDigest raw with
    | Some (id, name) => inr (mkPhoneAuth id name false)
    | None => inl ErrPhoneTokenInvalid
    end
|}.

(** ** Calls *)

Inductive port_call : Type :=
  | CSyncDevice (id : string) (credential : Credential)
  | CRevokeDevice (id : string)
  | CSyncPhone (id name : string) (credential : Credential)
  | CRevokePhone (id : string)
  | CValidateDevice (id raw : string)
  | CValidatePhone (raw : string).

Inductive port_answer : Type :=
  | AResult (r : res unit)
  | ADone
  | ABool (b : bool)
  | AAuth (r : dres PhoneAuth).

Definition port_step `{PrincipalPort R} (x : R) (c : port_call) : port_answer * R :=
  match c with
  | CSyncDevice id credential => let '(a, x) := SyncDevice id credential x in (AResult a, x)
  | CRevokeDevice id => (ADone, RevokeDevice id x)
  | CSyncPhone id name credential => let '(a, x) := SyncPhone id name credential x in (AResult a, x)
  | CRevokePhone id => (ADone, RevokePhone id x)
  | CValidateDevice id raw => (ABool (ValidateDeviceToken id raw x), x)
  | CValidatePhone raw => (AAuth (ValidatePhoneToken raw x), x)
  end.

Fixpoint port_run `{PrincipalPort R} (x : R) (cs : list port_call) : list port_answer :=
  match cs with
  | [] => []
  | c :: cs => let '(a, x) := port_step x c in a :: port_run x cs
  end.

(** ** The simulation *)

(** [m], by identity, and [k], by digest, hold the same entries. *)
Definition mirrors {A B} (digest_of : A -> string) (id_of : B -> string) (view : string -> A -> B)
    (m : gmap string A) (k : gmap string B) : Prop :=
  forall digest b, k !! digest = Some b <->
    exists id a, m !! id = Some a /\ digest_of a = digest /\ b = view id a /\ id_of b = id.

Section Mirror.
Context {A B : Type} (digest_of : A -> string) (id_of : B -> string) (view : string -> A -> B).
Context (id_view : forall id a, id_of (view id a) = id).
Abbreviation mirror := (mirrors digest_of id_of view).

Lemma mirror_lookup m k id a : mirror m k -> m !! id = Some a -> k !! digest_of a = Some (view id a).
Proof. intros Hm Ha. apply Hm. exists id, a. by rewrite id_view. Qed.

Lemma mirror_empty : mirror ∅ ∅.
Proof. intros digest b. rewrite lookup_empty. split; [done|]. intros (id & a & Ha & _). by rewrite lookup_empty in Ha. Qed.

Lemma constantDigestEqual_spec a b : constantDigestEqual a b = bool_decide (a = b).
Proof.
  unfold constantDigestEqual. case_bool_decide as E; [subst; by rewrite Z.eqb_refl|by rewrite andb_false_r].
Qed.

(** The scan finds what the index says. *)
Lemma taken_mirror `{MapOrder} m k id digest :
  mirror m k -> taken_by_other digest_of m id digest = held_by_other id_of k id digest.
Proof.
  intros Hm. apply eq_iff_eq_true. unfold taken_by_other, held_by_other. rewrite existsb_exists. split.
  - intros ([id' a] & Hin & Hb). apply list_elem_of_In, elem_of_range in Hin. apply andb_true_iff in Hb as [Hne Hd].
    rewrite constantDigestEqual_spec in Hd. apply bool_decide_eq_true in Hd as <-.
    rewrite (mirror_lookup m k id' a Hm Hin), id_view. exact Hne.
  - destruct (k !! digest) as [b|] eqn:Eb; [|done]. intros Hne. apply Hm in Eb as (id' & a & Ha & <- & -> & _).
    exists (id', a). split; [by apply list_elem_of_In, elem_of_range|]. rewrite id_view in Hne. rewrite Hne.
    rewrite constantDigestEqual_spec. by rewrite bool_decide_true.
Qed.

Lemma mirror_delete m k id : mirror m k -> mirror (delete id m) (without id_of id k).
Proof.
  intros Hm digest b. unfold without. rewrite map_lookup_filter_Some. rewrite (Hm digest b). split.
  - intros [(id' & a & Ha & Hd & -> & Hi) Hne]. rewrite id_view in Hne. exists id', a. by rewrite lookup_delete_ne by done.
  - intros (id' & a & Ha & Hd & -> & Hi). apply lookup_delete_Some in Ha as [Hne Ha]. rewrite id_view. split; [|done].
    by exists id', a.
Qed.

Lemma mirror_insert m k id a :
  mirror m k -> held_by_other id_of k id (digest_of a) = false ->
  mirror (<[id := a]> m) (<[digest_of a := view id a]> (without id_of id k)).
Proof.
  intros Hm Hfree digest b. destruct (decide (digest = digest_of a)) as [->|Hne].
  - rewrite lookup_insert_eq. split.
    + intros [= <-]. exists id, a. rewrite lookup_insert_eq, id_view. done.
    + intros (id' & a' & Ha' & Hd & -> & _). destruct (decide (id' = id)) as [->|Hid].
      * rewrite lookup_insert_eq in Ha'. by injection Ha' as ->.
      * rewrite lookup_insert_ne in Ha' by done. pose proof (mirror_lookup m k id' a' Hm Ha') as Hk. rewrite Hd in Hk.
        unfold held_by_other in Hfree. rewrite Hk, id_view in Hfree. by rewrite bool_decide_false in Hfree.
  - rewrite lookup_insert_ne by done. rewrite <- (insert_delete_eq m id a). pose proof (mirror_delete m k id Hm digest b) as ->.
    split; intros (id' & a' & Ha' & Hd & Hb & Hi); exists id', a'.
    + split; [|done]. rewrite lookup_insert_ne; [done|]. intros ->. by rewrite lookup_delete_eq in Ha'.
    + split; [|done]. destruct (decide (id' = id)) as [->|Hid]; [|by rewrite lookup_insert_ne in Ha'].
      rewrite lookup_insert_eq in Ha'. congruence.
Qed.
End Mirror.

Definition phone_view (id : string) (p : phoneCredential) : string * string := (id, pcName p).

Record simulates (r : DigestPrincipalRegistry) (k : keyring) : Prop := mkSimulates {
  sim_devices : mirrors (fun d => d) (fun id => id) (fun id _ => id) (devices r) (device_key k);
  sim_phones : mirrors Digest fst phone_view (phones r) (phone_key k)
}.

Section Refinement.
Context `{MapOrder}.

Lemma sync_device_sim r k id credential :
  simulates r k ->
  (registry_SyncDevice id credential r).1 = (SyncDevice id credential k).1 /\
  simulates (registry_SyncDevice id credential r).2 (SyncDevice id credential k).2.
Proof.
  intros [Hd Hp]. cbn [SyncDevice keyring_port]. unfold registry_SyncDevice, sync_check. destruct (is_empty id); [done|].
  destruct (credentialDigest credential) as [digest|e]; [|done].
  rewrite (taken_mirror _ (fun x => x) (fun id _ => id)) with (k := device_key k) by done.
  destruct (held_by_other _ _ id digest) eqn:Eh; [done|]. split; [done|]. split; [|done].
  by apply (mirror_insert (fun d => d) (fun x => x) (fun id _ => id)).
Qed.

Lemma sync_phone_sim r k id name credential :
  simulates r k ->
  (registry_SyncPhone id name credential r).1 = (SyncPhone id name credential k).1 /\
  simulates (registry_SyncPhone id name credential r).2 (SyncPhone id name credential k).2.
Proof.
  intros [Hd Hp]. cbn [SyncPhone keyring_port]. unfold registry_SyncPhone, sync_check. destruct (is_empty id); [done|].
  destruct (credentialDigest credential) as [digest|e]; [|done].
  rewrite (taken_mirror Digest fst phone_view) with (k := phone_key k) by done.
  destruct (held_by_other _ _ id digest) eqn:Eh; [done|]. split; [done|]. split; [done|].
  by apply (mirror_insert Digest fst phone_view (fun _ _ => eq_refl) (phones r) (phone_key k) id (mkPhoneCredential digest name)).
Qed.

Lemma validate_device_sim r k id raw :
  simulates r k -> registry_ValidateDeviceToken id raw r = ValidateDeviceToken id raw k.
Proof.
  intros [Hd _]. cbn [ValidateDeviceToken keyring_port]. unfold registry_ValidateDeviceToken. apply eq_iff_eq_true.
  rewrite bool_decide_eq_true. rewrite (Hd _ _). destruct (devices r !! id) as [want|] eqn:Ew.
  - rewrite constantDigestEqual_spec, bool_decide_eq_true. split; [intros ->; by exists id, (rawCredentialDigest raw)|].
    intros (id' & a & Ha & Hda & -> & _). congruence.
  - split; [done|]. intros (id' & a & Ha & _ & -> & _). congruence.
Qed.

Lemma validate_phone_sim r k raw : simulates r k -> registry_ValidatePhoneToken raw r = ValidatePhoneToken raw k.
Proof.
  intros [_ Hp]. cbn [ValidatePhoneToken keyring_port]. unfold registry_ValidatePhoneToken.
  destruct (List.find _ (range (phones r))) as [[id p]|] eqn:Ef.
  - apply find_some in Ef as [Hin Heq]. apply list_elem_of_In, elem_of_range in Hin.
    rewrite constantDigestEqual_spec in Heq. apply bool_decide_eq_true in Heq as <-.
    by rewrite (mirror_lookup Digest fst phone_view (fun _ _ => eq_refl) _ _ id p Hp Hin).
  - destruct (phone_key k !! rawCredentialDigest raw) as [[id name]|] eqn:Ek; [|done].
    apply Hp in Ek as (id' & p & Hid & Hdig & _ & _).
    assert (Hin : In (id', p) (range (phones r))) by (by apply list_elem_of_In, elem_of_range).
    pose proof (find_none _ _ Ef _ Hin) as Hn. cbn in Hn. rewrite constantDigestEqual_spec in Hn. by rewrite bool_decide_true in Hn.
Qed.

Lemma port_step_sim r k c :
  simulates r k -> (port_step r c).1 = (port_step k c).1 /\ simulates (port_step r c).2 (port_step k c).2.
Proof.
  intros Hs. destruct c as [id credential|id|id name credential|id|id raw|raw]; cbn [port_step].
  - destruct (sync_device_sim r k id credential Hs) as [E Hs']. cbn [SyncDevice registry_port] in *.
    destruct (registry_SyncDevice id credential r), (SyncDevice id credential k). cbn in *. by subst.
  - split; [done|]. destruct Hs. split; [by apply mirror_delete|done].
  - destruct (sync_phone_sim r k id name credential Hs) as [E Hs']. cbn [SyncPhone registry_port] in *.
    destruct (registry_SyncPhone id name credential r), (SyncPhone id name credential k). cbn in *. by subst.
  - split; [done|]. destruct Hs. split; [done|by apply (mirror_delete Digest fst phone_view)].
  - split; [|done]. cbn. f_equal. by apply validate_device_sim.
  - split; [|done]. cbn. f_equal. by apply validate_phone_sim.
Qed.

Lemma port_run_sim cs r k : simulates r k -> port_run r cs = port_run k cs.
Proof.
  revert r k. induction cs as [|c cs IH]; intros r k Hs; [done|]. cbn [port_run]. destruct (port_step_sim r k c Hs) as [E Hs'].
  destruct (port_step r c), (port_step k c). cbn in *. subst. f_equal. by apply IH.
Qed.

(** C25: for every sequence of calls the registry answers like a keyring indexed
    by credential digests, in whatever order it visits its maps: a credential
    stands for at most one phone and one device, another identity cannot take
    it, an identity has only the credential it was given last, and none after
    its revocation. *)
Theorem registry_refines_keyring cs :
  port_run NewDigestPrincipalRegistry cs = port_run (mkKeyring ∅ ∅) cs.
Proof. apply port_run_sim. split; apply mirror_empty. Qed.

End Refinement.
