(* ===== verification/AttachmentsSpec.v ===== *)
(** * What uploaded attachments promise

    What was uploaded is read back under its id by those who may read it and by
    nobody else, through any sequence of uploads and prunings; a closed example
    shows the two ways the metadata is confused with content. *)

From stdpp Require Import base tactics list gmap strings sorting.
From Stdlib Require Import Ascii ZArith Lia.
From S2P Require Import Prelude GoStrings GoPath Json Sha256 Base64 Protocol ProtocolSpec AccessStore RelayAccess Attachments.

(** ** Dots in names *)

Fixpoint dots (s : string) : nat :=
  match s with EmptyString => O | String c s' => ((if Ascii.eqb c dot then 1 else 0) + dots s')%nat end.

Lemma dots_app s t : dots (s +:+ t) = (dots s + dots t)%nat.
Proof. induction s as [|c s IH]; [done|]. rewrite string_app_cons. cbn [dots]. rewrite IH. lia. Qed.

Definition not_dot (c : ascii) : bool := negb (Ascii.eqb c dot).
Definition dotless (s : string) : bool := forallb not_dot (String.list_ascii_of_string s).

Lemma dotless_dots s : dotless s = true <-> dots s = O.
Proof.
  unfold dotless, not_dot. induction s as [|c s IH]; [done|]. cbn [String.list_ascii_of_string forallb dots].
  destruct (Ascii.eqb c dot); cbn; [split; intros; [done|lia]|exact IH].
Qed.

Lemma dotless_contains s : contains_byte dot s = false <-> dotless s = true.
Proof.
  unfold dotless, not_dot. induction s as [|c s IH]; [done|]. cbn [contains_byte String.list_ascii_of_string forallb].
  rewrite orb_false_iff, andb_true_iff, IH, negb_true_iff. done.
Qed.

(** A name with one dot splits in one way. *)
Lemma dotted_inj a b s t : dotless a = true -> dotless b = true -> a +:+ String dot s = b +:+ String dot t -> a = b /\ s = t.
Proof. intros Ha Hb. by apply (delimited_prefix not_dot). Qed.

Lemma Ext_shape p : Ext p = "" \/ exists e, Ext p = String dot e /\ dotless e = true /\ contains_byte slash e = false.
Proof.
  induction p as [|c p IH]; [by left|]. cbn [Ext]. destruct (_ && _)%bool eqn:E; [|done].
  apply andb_true_iff in E as [E Es]. apply andb_true_iff in E as [Ec Ed]. apply Ascii.eqb_eq in Ec as ->.
  apply negb_true_iff in Ed, Es. right. exists p. by rewrite <- dotless_contains.
Qed.

(** ** Suffixes *)

Lemma has_suffix_spec suf s : has_suffix suf s = true <-> exists r, s = r +:+ suf.
Proof.
  unfold has_suffix. rewrite has_prefix_spec. split.
  - intros [r Hr]. exists (rev_string r). apply (f_equal rev_string) in Hr.
    by rewrite rev_string_involutive, rev_string_app, rev_string_involutive in Hr.
  - intros [r ->]. exists (rev_string r). apply rev_string_app.
Qed.

Lemma app_suffix_inj s1 s2 t : s1 +:+ t = s2 +:+ t -> s1 = s2.
Proof.
  intros Heq. apply (f_equal rev_string) in Heq. rewrite !rev_string_app in Heq. apply app_prefix_inj in Heq.
  apply (f_equal rev_string) in Heq. by rewrite !rev_string_involutive in Heq.
Qed.

Lemma string_length_app s t : String.length (s +:+ t) = (String.length s + String.length t)%nat.
Proof. induction s as [|c s IH]; [done|]. rewrite string_app_cons. cbn [String.length]. rewrite IH. lia. Qed.

Lemma take_prefix s t : take_bytes (String.length s) (s +:+ t) = s.
Proof. induction s as [|c s IH]; [by destruct t|]. rewrite string_app_cons. cbn. by rewrite IH. Qed.

(** ** Ids

    Sixteen random bytes in hexadecimal. *)

Lemma hex_digit_not_dot n : 0 <= n < 16 -> not_dot (hex_digit n) = true /\ Ascii.eqb (hex_digit n) slash = false.
Proof.
  intros Hn. assert (Hall : Forall (fun n => not_dot (hex_digit n) = true /\ Ascii.eqb (hex_digit n) slash = false) (seqZ 0 16))
    by (apply (bool_decide_unpack _); vm_compute; reflexivity).
  rewrite Forall_forall in Hall. apply Hall, elem_of_seqZ. lia.
Qed.

Lemma hex_dotless b : dotless (hex_encode b) = true /\ contains_byte slash (hex_encode b) = false.
Proof.
  unfold dotless. induction b as [|c b [IH1 IH2]]; [done|]. cbn [hex_encode]. pose proof (code_range c) as Hc.
  destruct (hex_digit_not_dot (Z.shiftr (code c) 4)) as [H1 H2].
  { rewrite Z.shiftr_div_pow2 by done. change (2 ^ 4) with 16. split; [apply Z.div_pos; lia|apply Z.div_lt_upper_bound; lia]. }
  destruct (hex_digit_not_dot (Z.land (code c) 15)) as [H3 H4].
  { change 15 with (Z.ones 4). rewrite Z.land_ones by done. apply Z.mod_pos_bound. done. }
  cbn [String.list_ascii_of_string forallb contains_byte]. rewrite H1, H3, IH1, H2, H4, IH2. done.
Qed.

(** ** The directory *)

Definition of_id (id name : string) : Prop := has_prefix (id +:+ ".") name = true.

Lemma elem_of_glob d id name : name ∈ glob d id <-> is_Some (d !! name) /\ of_id id name.
Proof.
  unfold glob, of_id. rewrite merge_sort_Permutation, list_elem_of_filter, list_elem_of_fmap. split.
  - intros [Hp ([n e] & -> & Hin)]. apply elem_of_map_to_list in Hin. cbn in *. split; [by exists e|done].
  - intros [[e He] Hp]. split; [done|]. exists (name, e). split; [done|by apply elem_of_map_to_list].
Qed.

Lemma removed_names_lookup (l : list string) (d : directory) name :
  foldl (fun d name => delete name d) d l !! name = if decide (name ∈ l) then None else d !! name.
Proof. rewrite (foldl_delete_lookup id). by rewrite list_fmap_id. Qed.

Lemma remove_lookup id d name : removeAttachmentPair id d !! name = if has_prefix (id +:+ ".") name then None else d !! name.
Proof.
  unfold removeAttachmentPair. rewrite removed_names_lookup. destruct (has_prefix (id +:+ ".") name) eqn:Ep.
  - case_decide as Hin; [done|]. destruct (d !! name) eqn:Ed; [|done]. destruct Hin. apply elem_of_glob. by split; [eexists|].
  - case_decide as Hin; [|done]. apply elem_of_glob in Hin as [_ Hp]. unfold of_id in Hp. congruence.
Qed.

(** ** Uploads and prunings *)

(** One upload: what the client sends, the random bytes, and how the disk
    takes it. *)
Record upload : Type := mkUpload {
  upFilename : string; upContentType : string; upData : string; upDevice : string; upSession : string;
  upID : string; upKey : string; upIO : upload_io; upNow : Z
}.

Definition hex_id (u : upload) : string := hex_encode (upID u).
Definition hex_key (u : upload) : string := hex_encode (upKey u).

Inductive op : Type :=
  | Upload (u : upload)
  | Prune (cutoff maxFiles : Z).

Section Runs.
Context `{MetaCodec} (detect : string -> string) (outside : string -> option string) (s : engine).
Context (builder : option (string -> string -> string)).

Definition do_upload (u : upload) (d : directory) : upload_response * directory :=
  handleAttachmentUpload detect s builder None (Form (upFilename u) (upContentType u) (upData u) (upDevice u) (upSession u))
    (Ok (hex_id u)) (Ok (hex_key u)) (upIO u) (upNow u) d.

Definition do_op (d : directory) (x : op) : directory :=
  match x with
  | Upload u => (do_upload u d).2
  | Prune cutoff maxFiles => pruneAttachments cutoff maxFiles d
  end.

Definition run_ops (ops : list op) : directory := foldl do_op ∅ ops.

Definition uploads (ops : list op) : list upload := omap (fun x => match x with Upload u => Some u | _ => None end) ops.

(** The metadata of an upload whose file is accepted. *)
Definition up_meta (u : upload) : option attachmentMeta :=
  if maxAttachmentBytes <? len (upData u) then None
  else (fun mime => meta_of (hex_id u) (hex_key u) (upFilename u) mime (upData u) (upDevice u) (upSession u) (upNow u)) <$>
       accepted_mime (upload_mime detect (engine_mode s) (upContentType u) (upData u)) (upFilename u).

Definition all_written (x : upload_io) : bool :=
  (mkdir_ok x && match write_body x with Written => true | _ => false end && match write_meta x with Written => true | _ => false end)%bool.

(** The upload was answered with its id. *)
Definition succeeded (u : upload) (m : attachmentMeta) : Prop := up_meta u = Some m /\ all_written (upIO u) = true.

Lemma do_upload_answer u d m :
  succeeded u m ->
  do_upload u d = (Uploaded (hex_id u) (attachmentURL builder (hex_id u) (hex_key u)) (mName m) (mMIME m) (len (upData u)) (hex_key u),
    <[hex_id u +:+ ".meta.json" := mkFile (marshal_meta m) (upNow u)]> (<[hex_id u +:+ mExt m := mkFile (upData u) (upNow u)]> d)).
Proof.
  unfold succeeded, up_meta, all_written, do_upload, handleAttachmentUpload, store_upload. intros [Hm Hw].
  destruct (maxAttachmentBytes <? len (upData u)); [done|].
  destruct (accepted_mime _ _) as [mime|]; [|done]. injection Hm as <-. destruct (upIO u) as [mk wb wm rm]. cbn in *.
  destruct mk, wb, wm; done.
Qed.

Lemma do_upload_refused u d : up_meta u = None -> (do_upload u d).2 = d.
Proof.
  unfold up_meta, do_upload, handleAttachmentUpload. destruct (maxAttachmentBytes <? len (upData u)); [done|].
  by destruct (accepted_mime _ _).
Qed.

(** Only files of the id are written. *)
Lemma do_upload_other u d name :
  (forall m, up_meta u = Some m -> name <> hex_id u +:+ mExt m /\ name <> hex_id u +:+ ".meta.json") ->
  (do_upload u d).2 !! name = d !! name.
Proof.
  intros Hne. destruct (up_meta u) as [m|] eqn:Em; [|by rewrite do_upload_refused]. destruct (Hne m eq_refl) as [H1 H2].
  revert Em H1 H2. unfold up_meta, do_upload, handleAttachmentUpload, store_upload, write_name.
  destruct (maxAttachmentBytes <? len (upData u)); [done|]. destruct (accepted_mime _ _) as [mime|]; [|done].
  cbn [fmap option_fmap option_map]. intros [= Em] H1 H2. rewrite Em. assert (Ei : mID m = hex_id u) by (by rewrite <- Em). rewrite Ei.
  destruct (upIO u) as [mk wb wm rm]; cbn. destruct mk; [|done].
  repeat (case_match; simplify_eq/=); rewrite ?lookup_delete_ne, ?lookup_insert_ne by done; done.
Qed.

(** *** The names an upload uses *)

Lemma assoc_string_elem k l v : assoc_string k l = Some v -> v ∈ l.*2.
Proof.
  induction l as [|[k' v'] l IH]; [done|]. cbn. case_bool_decide; [intros [= ->]; by left|]. intros Ha. right. auto.
Qed.

Definition good_ext (e : string) : Prop := exists e', e = String dot e' /\ dotless e' = true /\ contains_byte slash e' = false.

Lemma extFromMIME_good mime : good_ext (extFromMIME mime).
Proof.
  unfold extFromMIME. destruct (assoc_string _ _) as [v|] eqn:E; cbn; [|by exists "bin"].
  apply assoc_string_elem in E. cbn in E.
  repeat (apply elem_of_cons in E as [->|E]; [by eexists|]). by apply not_elem_of_nil in E.
Qed.

Lemma up_meta_ext u m : up_meta u = Some m -> good_ext (mExt m) /\ mKey m = hex_key u /\ mID m = hex_id u /\ mDeviceID m = upDevice u.
Proof.
  unfold up_meta. destruct (_ <? _); [done|]. destruct (accepted_mime _ _) as [mime|]; [|done]. intros [= <-]. cbn. split; [|done].
  destruct (Ext_shape (upFilename u)) as [->|(e & -> & ? & ?)]; [apply extFromMIME_good|]. by exists e.
Qed.

Lemma up_meta_numbers u m : up_meta u = Some m -> 0 <= mSize m <= max_int64 /\ mCreated m = upNow u.
Proof.
  unfold up_meta. destruct (maxAttachmentBytes <? len (upData u)) eqn:El; [done|]. destruct (accepted_mime _ _) as [mime|]; [|done].
  intros [= <-]. cbn. apply Z.ltb_ge in El. unfold maxAttachmentBytes, max_int64, len in *. split; [lia|done].
Qed.

Definition names_of (u : upload) (m : attachmentMeta) : list string := [hex_id u +:+ mExt m; hex_id u +:+ ".meta.json"].

Lemma names_of_start u m name : up_meta u = Some m -> name ∈ names_of u m -> exists t, name = hex_id u +:+ String dot t.
Proof.
  intros Hm Hin. destruct (up_meta_ext u m Hm) as [(e & He & _) _]. unfold names_of in Hin. rewrite He in Hin.
  repeat (apply elem_of_cons in Hin as [->|Hin]; [by eexists|]). by apply not_elem_of_nil in Hin.
Qed.

Lemma id_dotless u : dotless (hex_id u) = true.
Proof. apply hex_dotless. Qed.

Lemma of_id_iff u u' m name : up_meta u' = Some m -> name ∈ names_of u' m -> has_prefix (hex_id u +:+ ".") name = true <-> hex_id u = hex_id u'.
Proof.
  intros Hm Hin. destruct (names_of_start u' m name Hm Hin) as [t ->]. rewrite has_prefix_spec. split.
  - intros [r Hr]. rewrite <- string_app_assoc in Hr. change ("." +:+ r) with (String dot r) in Hr.
    by apply dotted_inj in Hr as [-> _]; [|apply id_dotless..].
  - intros ->. exists t. by rewrite <- string_app_assoc.
Qed.

Lemma names_disjoint u u' m m' name :
  up_meta u = Some m -> up_meta u' = Some m' -> name ∈ names_of u m -> name ∈ names_of u' m' -> hex_id u = hex_id u'.
Proof.
  intros Hm Hm' H1 H2. destruct (names_of_start u m name Hm H1) as [t ->]. destruct (names_of_start u' m' _ Hm' H2) as [t' E].
  by apply dotted_inj in E as [-> _]; [|apply id_dotless..].
Qed.

Lemma json_ext r id e : dotless id = true -> dotless e = true -> r +:+ ".json" = id +:+ String dot e -> r = id /\ e = "json".
Proof.
  intros Hid He Heq. assert (dotless r = true) as Hr.
  { apply dotless_dots. apply (f_equal dots) in Heq. rewrite !dots_app in Heq. cbn in Heq.
    apply dotless_dots in Hid, He. rewrite Hid, He in Heq. lia. }
  change ".json" with (String dot "json") in Heq. apply dotted_inj in Heq as [-> <-]; done.
Qed.

Lemma not_meta_name r id e : dotless id = true -> dotless e = true -> r +:+ ".meta.json" <> id +:+ String dot e.
Proof.
  intros Hid He Heq. apply (f_equal dots) in Heq. rewrite !dots_app in Heq. cbn in Heq.
  apply dotless_dots in Hid, He. rewrite Hid, He in Heq. lia.
Qed.

Lemma meta_id_own u m name id : up_meta u = Some m -> name ∈ names_of u m -> meta_id name = Some id -> id = hex_id u.
Proof.
  intros Hm Hin Hid. destruct (up_meta_ext u m Hm) as [(e & He & Hd & _) _]. unfold names_of in Hin. rewrite He in Hin.
  unfold meta_id in Hid. apply elem_of_cons in Hin as [->|Hin]; [|apply elem_of_cons in Hin as [->|Hin]; [|by apply not_elem_of_nil in Hin]].
  - destruct (has_suffix ".meta.json" _) eqn:E1.
    { apply has_suffix_spec in E1 as [r Hr]. symmetry in Hr. by apply not_meta_name in Hr; [|apply id_dotless|]. }
    destruct (has_suffix ".json" _) eqn:E2; [|done]. injection Hid as <-. apply has_suffix_spec in E2 as [r Hr].
    rewrite Hr, trim_suffix_app. symmetry in Hr. by apply json_ext in Hr as [-> _]; [|apply id_dotless|].
  - replace (has_suffix ".meta.json" _) with true in Hid by (symmetry; apply has_suffix_spec; by eexists).
    rewrite trim_suffix_app in Hid. by injection Hid as <-.
Qed.

(** *** The invariant *)

Record dir_ok (us : list upload) (d : directory) : Prop := mkDirOk {
  owned : forall name e, d !! name = Some e -> exists u m, u ∈ us /\ up_meta u = Some m /\ name ∈ names_of u m;
  kept : forall u m, u ∈ us -> succeeded u m ->
    (d !! (hex_id u +:+ mExt m) = None /\ d !! (hex_id u +:+ ".meta.json") = None) \/
    (content <$> d !! (hex_id u +:+ mExt m) = Some (upData u) /\ content <$> d !! (hex_id u +:+ ".meta.json") = Some (marshal_meta m))
}.

Lemma dir_ok_remove us d u0 : dir_ok us d -> dir_ok us (removeAttachmentPair (hex_id u0) d).
Proof.
  intros [Ho Hk]. split.
  - intros name e Hn. rewrite remove_lookup in Hn. destruct (has_prefix _ _); [done|]. eauto.
  - intros u m Hu Hs. rewrite !remove_lookup. destruct Hs as [Hm Hw].
    pose proof (of_id_iff u0 u m (hex_id u +:+ mExt m) Hm ltac:(left)) as H1.
    pose proof (of_id_iff u0 u m (hex_id u +:+ ".meta.json") Hm ltac:(right; left)) as H2.
    destruct (decide (hex_id u0 = hex_id u)) as [E|E].
    + apply H1 in E as E1. apply H2 in E as E2. rewrite E1, E2. by left.
    + destruct (has_prefix _ (hex_id u +:+ mExt m)); [by destruct E; apply H1|].
      destruct (has_prefix _ (hex_id u +:+ ".meta.json")); [by destruct E; apply H2|]. by apply Hk.
Qed.

Lemma prune_scan_ok us cutoff names items d :
  dir_ok us d -> Forall (fun i => exists u, itemID i = hex_id u) items ->
  dir_ok us (prune_scan cutoff names items d).2 /\ Forall (fun i => exists u, itemID i = hex_id u) (prune_scan cutoff names items d).1.
Proof.
  revert items d. induction names as [|name names IH]; intros items d Hd Hi; [done|]. cbn [prune_scan].
  destruct (meta_id name) as [id|] eqn:Eid; [|by apply IH]. destruct (d !! name) as [e|] eqn:En; [|by apply IH].
  destruct (owned us d Hd name e En) as (u & m & Hu & Hm & Hin). pose proof (meta_id_own u m name id Hm Hin Eid) as ->.
  case_match; apply IH; [by apply dir_ok_remove|done|done|]. apply Forall_app. split; [done|]. apply Forall_singleton. by exists u.
Qed.

Lemma prune_ok us cutoff maxFiles d : dir_ok us d -> dir_ok us (pruneAttachments cutoff maxFiles d).
Proof.
  intros Hd. unfold pruneAttachments. pose proof (prune_scan_ok us cutoff (listing d) [] d Hd ltac:(constructor)) as [Hd' Hi].
  destruct (prune_scan cutoff (listing d) [] d) as [items d']. cbn in *. case_match; [done|].
  assert (Hl : Forall (fun i => exists u, itemID i = hex_id u)
                 (take (List.length items - Z.to_nat maxFiles)%nat (sort_by itemMod items))).
  { apply Forall_take. unfold sort_by. by rewrite merge_sort_Permutation. }
  revert Hd'. generalize d'. induction Hl as [|i l [u Hu] Hl IH]; intros d1 Hd1; [done|]. cbn [foldl]. apply IH. rewrite Hu.
  by apply dir_ok_remove.
Qed.

Lemma coerce_bytes (P : ascii -> bool) k t :
  forallb P (String.list_ascii_of_string replacement_char) = true ->
  forallb P (String.list_ascii_of_string t) = true -> forallb P (String.list_ascii_of_string (coerce_from k t)) = true.
Proof.
  intros Hr. revert k. induction t as [|c t IH]; intros k Ht; [done|]. cbn [String.list_ascii_of_string forallb] in Ht.
  apply andb_true_iff in Ht as [Hc Ht].
  assert (Hcons : forall j, forallb P (String.list_ascii_of_string (String c (coerce_from j t))) = true)
    by (intros j; cbn [String.list_ascii_of_string forallb]; by rewrite Hc, IH).
  cbn [coerce_from]. destruct k as [|k]; [|apply Hcons]. destruct (rune_width (String c t)) as [|n]; [|apply Hcons].
  revert Hr. generalize replacement_char as rc. intros rc. induction rc as [|x rc IHr]; intros Hr; [by apply IH|].
  rewrite string_app_cons. cbn [String.list_ascii_of_string forallb] in *. apply andb_true_iff in Hr as [Hx Hr]. rewrite Hx. auto.
Qed.

Lemma coerce_dot e : coerceUTF8 (String dot e) = String dot (coerceUTF8 e).
Proof.
  assert (Hw : rune_width (String dot e) = 1%nat) by (unfold rune_width; by destruct e).
  unfold coerceUTF8. cbn [coerce_from]. by rewrite Hw.
Qed.

Definition not_slash (c : ascii) : bool := negb (Ascii.eqb c slash).

Lemma slashless_contains t : contains_byte slash t = negb (forallb not_slash (String.list_ascii_of_string t)).
Proof.
  unfold not_slash. induction t as [|c t IH]; [done|]. cbn [contains_byte String.list_ascii_of_string forallb]. rewrite IH.
  by destruct (Ascii.eqb c slash).
Qed.

Lemma good_ext_coerce e : good_ext e -> good_ext (coerceUTF8 e).
Proof.
  intros (e' & -> & Hd & Hs). exists (coerceUTF8 e'). rewrite coerce_dot. split; [done|]. split.
  - by apply coerce_bytes.
  - rewrite slashless_contains in *. apply negb_false_iff in Hs. apply negb_false_iff. by apply coerce_bytes.
Qed.

Lemma hex_encode_nonempty b : b <> "" -> exists c r, hex_encode b = String c r.
Proof. destruct b as [|c b]; [done|]. intros _. by eexists _, _. Qed.

(** A name that starts with an id is a plain one. *)
Lemma id_name_plain u t : upID u <> "" -> contains_byte slash t = false -> plain_segment (hex_id u +:+ t) = true.
Proof.
  intros Hne Ht. unfold plain_segment. destruct (hex_dotless (upID u)) as [Hd Hs]. unfold hex_id.
  rewrite contains_byte_app, Hs, Ht. destruct (hex_encode_nonempty _ Hne) as (c & r & E). rewrite E in *.
  unfold dotless in Hd. cbn [String.list_ascii_of_string forallb] in Hd. apply andb_true_iff in Hd as [Hc _].
  unfold not_dot in Hc. apply negb_true_iff in Hc. rewrite string_app_cons. cbn [String.eqb is_empty].
  unfold dot in Hc. by rewrite Hc.
Qed.

(** *** Uploading keeps it *)

Lemma dir_ok_upload us u d :
  dir_ok us d -> hex_id u ∉ (hex_id <$> us) -> dir_ok (us ++ [u]) (do_upload u d).2.
Proof.
  intros [Ho Hk] Hnew. split.
  - intros name e Hn. destruct (up_meta u) as [m|] eqn:Em.
    + destruct (decide (name ∈ names_of u m)) as [Hin|Hin].
      * exists u, m. split; [apply elem_of_app; right; by left|done].
      * rewrite do_upload_other in Hn; cycle 1.
        { intros m' Em'. assert (m' = m) as -> by congruence. split; intros ->; apply Hin; [by left|by right; left]. }
        destruct (Ho name e Hn) as (u' & m' & Hu' & ?). exists u', m'. split; [apply elem_of_app; by left|done].
    + rewrite do_upload_refused in Hn by done. destruct (Ho name e Hn) as (u' & m' & Hu' & ?).
      exists u', m'. split; [apply elem_of_app; by left|done].
  - intros u' m' Hu' Hs'. apply elem_of_app in Hu' as [Hu'|Hu'].
    + assert (Hne : hex_id u <> hex_id u') by (intros E; apply Hnew; rewrite E; apply list_elem_of_fmap; by exists u').
      assert (Hother : forall name, name ∈ names_of u' m' -> (do_upload u d).2 !! name = d !! name).
      { intros name Hin. apply do_upload_other. intros m Hm. destruct Hs' as [Hm' _].
        split; intros ->; apply Hne; eapply names_disjoint; eauto; [by left|by right; left]. }
      rewrite !Hother by (unfold names_of; set_solver). by apply Hk.
    + apply list_elem_of_singleton in Hu' as ->. right. rewrite (do_upload_answer u d m' Hs'). cbn.
      destruct Hs' as [Hm' _]. destruct (up_meta_ext u m' Hm') as [(e & He & Hd & _) _].
      rewrite lookup_insert_ne, !lookup_insert_eq; [done|]. rewrite He. intros E. symmetry in E.
      apply app_prefix_inj in E. change ".meta.json" with (String dot "meta.json") in E. injection E as ->. done.
Qed.

Lemma run_ops_snoc ops x : run_ops (ops ++ [x]) = do_op (run_ops ops) x.
Proof. unfold run_ops. by rewrite foldl_app. Qed.

Lemma uploads_snoc ops x : uploads (ops ++ [x]) = uploads ops ++ match x with Upload u => [u] | _ => [] end.
Proof. unfold uploads. rewrite omap_app. by destruct x. Qed.

Lemma run_ops_ok ops : NoDup (hex_id <$> uploads ops) -> dir_ok (uploads ops) (run_ops ops).
Proof.
  induction ops as [|x ops IH] using rev_ind; intros Hnd.
  - split; [intros name e Hn; done|]. intros u m Hu. by apply not_elem_of_nil in Hu.
  - rewrite run_ops_snoc, uploads_snoc in *. rewrite fmap_app in Hnd. apply NoDup_app in Hnd as (Hnd & Hdis & _).
    specialize (IH Hnd). destruct x as [u|cutoff maxFiles]; cbn [do_op].
    + apply dir_ok_upload; [done|]. intros Hin. apply (Hdis _ Hin). by left.
    + rewrite app_nil_r. by apply prune_ok.
Qed.

(** ** Reading back *)

(** A handler's outcome when the calls are answered by [ans]. *)
Fixpoint interp {A} (ans : forall c, answer c) (p : prog A) : A :=
  match p with Ret a => a | Do c k => interp ans (k (ans c)) end.

Lemma interp_bind {A B} ans (p : prog A) (f : A -> prog B) : interp ans (p ≫= f) = interp ans (f (interp ans p)).
Proof. unfold mbind, prog_bind. induction p as [a|c k IH]; [done|]. cbn. apply IH. Qed.

(** Who may read a file with this key, uploaded for this device: anybody on a
    nest without a secret, whoever has the key, the owner of the secret, and a
    phone that the device is granted to. *)
Definition may_read (ans : forall c, answer c) (r : request) (key device : string) : bool :=
  let k := query_param r "k" in
  let cred := phoneSecretFromRequest r in
  (is_empty (phoneSecret s) ||
   (negb (is_empty k) && bool_decide (k = key)) ||
   (negb (is_empty cred) &&
    (bool_decide (cred = phoneSecret s) ||
     match interp ans (ValidatePhoneToken cred) with
     | inr auth => (is_empty device || AdminBypass auth || interp ans (PhoneHasDeviceGrant (PhoneID auth) device))
     | inl _ => false
     end)))%bool.

Lemma authorized_may_read ans r key device :
  interp ans (attachmentGetAuthorized s r (query_param r "k") key device) = may_read ans r key device.
Proof.
  unfold attachmentGetAuthorized, may_read, subtleConstEq, secureEqual.
  destruct (is_empty (phoneSecret s)); [done|]. destruct (_ && _)%bool; [done|]. cbn [orb].
  destruct (is_empty (phoneSecretFromRequest r)); [done|]. cbn [negb andb]. destruct (bool_decide _); [done|]. cbn [orb].
  rewrite interp_bind. destruct (interp ans (ValidatePhoneToken _)) as [e|auth]; [done|]. destruct (is_empty device); [done|].
  cbn [orb]. unfold phoneMayAccessDevice. by destruct (AdminBypass auth).
Qed.

Lemma dotless_no_parent t : dotless t = true -> contains t ".." = false.
Proof.
  unfold dotless. induction t as [|c t IH]; [done|]. cbn [String.list_ascii_of_string forallb]. intros Hall. apply andb_true_iff in Hall as [Hc Ht].
  cbn [contains has_prefix]. rewrite IH by done. unfold not_dot, dot in Hc. rewrite Ascii.eqb_sym. apply negb_true_iff in Hc. by rewrite Hc.
Qed.

Lemma bad_id_hex u : upID u <> "" -> bad_id (hex_id u) = false.
Proof.
  intros Hne. unfold bad_id, hex_id. destruct (hex_dotless (upID u)) as [Hd Hs]. rewrite Hs, dotless_no_parent by done.
  by destruct (hex_encode_nonempty _ Hne) as (c & t & ->).
Qed.

Lemma upload_unique us u u' : NoDup (hex_id <$> us) -> u ∈ us -> u' ∈ us -> hex_id u = hex_id u' -> u = u'.
Proof.
  intros Hnd Hu Hu' E. apply list_elem_of_lookup in Hu as [i Hi], Hu' as [j Hj].
  assert (i = j) as ->; [|congruence]. eapply NoDup_lookup; [exact Hnd| |]; rewrite list_lookup_fmap; [by rewrite Hi|by rewrite Hj, E].
Qed.

(** A file that starts with the id of [u] is one of its two. *)
Lemma own_file us d u m name e t :
  dir_ok us d -> NoDup (hex_id <$> us) -> u ∈ us -> up_meta u = Some m -> d !! name = Some e -> name = hex_id u +:+ String dot t ->
  name ∈ names_of u m.
Proof.
  intros Hd Hnd Hu Hm Hn Ht. destruct (owned us d Hd name e Hn) as (u' & m' & Hu' & Hm' & Hin).
  destruct (names_of_start u' m' name Hm' Hin) as [t' E]. rewrite Ht in E. apply dotted_inj in E as [E _]; [|apply id_dotless..].
  pose proof (upload_unique us u u' Hnd Hu Hu' E) as ->. by simplify_eq.
Qed.

Lemma read_meta_kept `{!MetaCodecLaws} us d u m :
  dir_ok us d -> upID u <> "" -> 0 <= upNow u <= max_int64 -> u ∈ us -> succeeded u m ->
  is_Some (d !! (hex_id u +:+ ".meta.json")) ->
  read_meta outside (hex_id u) d = inr (coerce_meta m).
Proof.
  intros Hd Hne Hnow Hu Hs [e He]. destruct (kept us d Hd u m Hu Hs) as [[_ E]|[_ E]]; [congruence|].
  destruct (up_meta_numbers u m (proj1 Hs)) as [Hsize Hcreated].
  unfold read_meta, read_name. rewrite id_name_plain by done. rewrite E. rewrite unmarshal_marshal_meta; [done|done|congruence].
Qed.

Lemma read_meta_pruned us d u m :
  dir_ok us d -> NoDup (hex_id <$> us) -> upID u <> "" -> u ∈ us -> succeeded u m -> d !! (hex_id u +:+ ".meta.json") = None ->
  read_meta outside (hex_id u) d = inl not_found.
Proof.
  intros Hd Hnd Hne Hu Hs He. pose proof Hs as [Hm _].
  assert (Hb : d !! (hex_id u +:+ mExt m) = None).
  { destruct (kept us d Hd u m Hu Hs) as [[E _]|[_ E]]; [done|]. by rewrite He in E. }
  unfold read_meta, read_name. rewrite !id_name_plain by done. rewrite He. cbn.
  destruct (d !! (hex_id u +:+ ".json")) as [e|] eqn:Ej; [|done]. exfalso.
  pose proof (own_file us d u m _ e "json" Hd Hnd Hu Hm Ej eq_refl) as Hin. unfold names_of in Hin.
  apply elem_of_cons in Hin as [E|Hin]; [rewrite E in Ej; congruence|].
  apply list_elem_of_singleton in Hin. by apply app_prefix_inj in Hin.
Qed.

Lemma read_body_kept us d u m :
  dir_ok us d -> NoDup (hex_id <$> us) -> upID u <> "" -> u ∈ us -> succeeded u m -> is_Some (d !! (hex_id u +:+ ".meta.json")) ->
  read_body outside (hex_id u) (coerceUTF8 (mExt m)) d = Some (upData u).
Proof.
  intros Hd Hnd Hne Hu Hs [em Hmeta]. pose proof Hs as [Hm _].
  destruct (kept us d Hd u m Hu Hs) as [[_ E]|[Eb _]]; [congruence|].
  destruct (up_meta_ext u m Hm) as [Hext _]. pose proof (good_ext_coerce _ Hext) as (e' & Ee' & Hd' & Hs').
  destruct Hext as (e & Ee & Hde & Hse). unfold read_body, read_name. rewrite id_name_plain; [|done|by rewrite Ee'].
  destruct (decide (coerceUTF8 (mExt m) = mExt m)) as [E|E]; [by rewrite E, Eb|].
  assert (Hnone : d !! (hex_id u +:+ coerceUTF8 (mExt m)) = None).
  { rewrite Ee'. destruct (d !! (hex_id u +:+ String dot e')) as [x|] eqn:Ex; [|done]. exfalso.
    pose proof (own_file us d u m _ x e' Hd Hnd Hu Hm Ex eq_refl) as Hin. unfold names_of in Hin.
    apply elem_of_cons in Hin as [Hin|Hin]; [apply app_prefix_inj in Hin; congruence|].
    apply list_elem_of_singleton, app_prefix_inj in Hin. change ".meta.json" with (String dot "meta.json") in Hin. by injection Hin as ->. }
  rewrite Hnone. cbn [fmap option_fmap option_map]. set (l := List.filter _ _).
  assert (Hl : forall name, name ∈ l -> name = hex_id u +:+ mExt m).
  { intros name Hin. unfold l in Hin. apply list_elem_of_In, filter_In in Hin as [Hin Hj]. apply list_elem_of_In, elem_of_glob in Hin as [[x Hx] Hof].
    unfold of_id in Hof. apply has_prefix_spec in Hof as [t Ht]. rewrite <- string_app_assoc in Ht.
    pose proof (own_file us d u m name x t Hd Hnd Hu Hm Hx Ht) as Hin. unfold names_of in Hin.
    apply elem_of_cons in Hin as [Hin|Hin]; [done|]. apply list_elem_of_singleton in Hin as ->.
    replace (has_suffix ".json" (hex_id u +:+ ".meta.json")) with true in Hj; [done|]. symmetry. apply has_suffix_spec. exists (hex_id u +:+ ".meta"). by rewrite <- string_app_assoc. }
  assert (Hbody : hex_id u +:+ mExt m ∈ l).
  { unfold l. apply list_elem_of_In, filter_In. split.
    - apply list_elem_of_In, elem_of_glob. split; [by destruct (d !! (hex_id u +:+ mExt m))|].
      unfold of_id. rewrite Ee. apply has_prefix_spec. exists e. by rewrite <- string_app_assoc.
    - apply negb_true_iff. destruct (has_suffix ".json" (hex_id u +:+ mExt m)) eqn:Es; [|done]. exfalso. apply has_suffix_spec in Es as [r Er].
      rewrite Ee in Er. symmetry in Er. apply json_ext in Er as [_ ->]; [|apply id_dotless|done]. rewrite Ee in E. done. }
  destruct l as [|name l']; [by apply not_elem_of_nil in Hbody|]. rewrite (Hl name ltac:(left)). exact Eb.
Qed.


End Runs.

(** ** A concrete store *)

Module Demo.

Definition fields (m : attachmentMeta) : list string :=
  [mID m; mKey m; mName m; mMIME m; Itoa (mSize m); mDeviceID m; mSessionID m; Itoa (mCreated m); mExt m].

(** The fields in base64, with dots between them. *)
Definition codec : MetaCodec := {|
  marshal_meta m := join_byte dot (B64 <$> fields m);
  unmarshal_meta t :=
    match mapM (fun w => match B64Decode w with Ok x => Some x | Err _ => None end) (split_byte dot t) with
    | Some [i; k; n; mime; size; device; session; created; ext] =>
      match Atoi size, Atoi created with
      | Some size, Some created => Ok (coerce_meta (mkMeta i k n mime size device session created ext))
      | _, _ => Err "number"
      end
    | _ => Err "syntax"
    end
|}.

Lemma meta_codec_laws : @MetaCodecLaws codec.
Proof.
  split. intros m Hs Hc. cbn [marshal_meta unmarshal_meta codec]. rewrite split_join; [|done|].
  - replace (mapM _ (B64 <$> fields m)) with (Some (fields m)).
    + unfold fields. rewrite !Atoi_Itoa by done. by destruct m.
    + symmetry. induction (fields m) as [|x l IH]; [done|]. cbn. rewrite B64Decode_B64. cbn. by rewrite IH.
  - apply Forall_fmap, Forall_true. intros x. apply dotless_contains. by apply B64_alphabet.
Qed.

Definition engine0 : engine := mkEngine "secret" TransportOpen "" None "" "" "".

(** A relay whose database fails: only keys and the secret count. *)
Definition ans0 : forall c, answer c.
Proof.
  intros []; cbn; first [exact tt|exact (inl (ErrText "down"))|exact []|exact 0|exact None|exact false|exact (inl tt)|exact (mkDaemonView "" None None "" None)].
Defined.

Definition all_ok : upload_io := mkUploadIO true Written Written true.
Definition picture : upload := mkUpload "cat.png" "image/png" "PNG" "d" "s" "0123456789abcdef" "k1k1k1k1k1k1k1k1" all_ok 100.
Definition notes : upload := mkUpload "notes.json" "application/json" "[1]" "d" "s" "fedcba9876543210" "k2k2k2k2k2k2k2k2" all_ok 200.

Definition with_key (k : string) : request := mkRequest "GET" ∅ (<["k" := k]> ∅) (mkBody false ∅ 0).

Definition detect0 (data : string) : string := "application/octet-stream".
Definition outside0 (name : string) : option string := None.
Definition life : list op := [Upload picture; Upload notes; Prune 150 2000].

Definition meta_notes : attachmentMeta := default (mkMeta "" "" "" "" 0 "" "" 0 "") (up_meta detect0 engine0 notes).


Definition two_of (ext mime : string) : list op :=
  [Upload (mkUpload ("a" +:+ ext) mime "A" "" "" "0123456789abcdef" "k1k1k1k1k1k1k1k1" all_ok 100);
   Upload (mkUpload ("b" +:+ ext) mime "B" "" "" "fedcba9876543210" "k2k2k2k2k2k2k2k2" all_ok 200)].

Definition files_left (ext mime : string) (maxFiles : Z) : list string :=
  listing (@run_ops codec detect0 engine0 None (two_of ext mime ++ [Prune 0 maxFiles])).

(** metadata and JSON content are confused in two places. The metadata of an
    upload, with its key, is served as the content of the attachment whose id
    is that of a JSON upload followed by .meta; and pruning counts the body of a
    JSON upload as metadata, so that with room for two uploads it deletes one of
    two JSON files but neither of two pictures. *)
Theorem metadata_is_confused_with_json :
  interp ans0 (@handleAttachmentGet codec outside0 engine0 (with_key (hex_key notes)) (hex_id notes +:+ ".meta")
    (@run_ops codec detect0 engine0 None life) (@run_ops codec detect0 engine0 None life)) =
    Served "application/json" ("attachment; filename=" +:+ quoted "notes.json") (@marshal_meta codec meta_notes) /\
  List.length (files_left ".png" "image/png" 2) = 4%nat /\ List.length (files_left ".json" "application/json" 2) = 2%nat.
Proof. split; [|split]; vm_compute; reflexivity. Qed.

End Demo.
