(* ===== verification/RelayEdgeSpec.v ===== *)
(** * Theorems about [RelayEdge]

    What a client can write into its headers does not choose the address it is
    counted under; a browser gets in from its own origin or a configured one. *)

From stdpp Require Import base tactics list gmap strings.
From Stdlib Require Import Ascii ZArith Lia.
From S2P Require Import Prelude GoStrings GoPath Json WebPush NetNames RelayEdge.

(** ** [net.SplitHostPort] *)

Lemma split_last_colon_free s : contains_byte colon_byte s = false -> split_last_colon s = None.
Proof.
  induction s as [|c s IH]; [done|]. cbn [contains_byte split_last_colon]. intros H. apply orb_false_iff in H as [Hc Hs].
  rewrite IH by done. by rewrite Hc.
Qed.

Lemma split_last_colon_app a b :
  contains_byte colon_byte b = false -> split_last_colon (a +:+ String colon_byte b) = Some (a, b).
Proof.
  intros Hb. induction a as [|c a IH].
  - change (EmptyString +:+ String colon_byte b) with (String colon_byte b). cbn [split_last_colon]. by rewrite split_last_colon_free.
  - rewrite string_app_cons. cbn [split_last_colon]. by rewrite IH.
Qed.

Definition bare (s : string) : Prop :=
  contains_byte colon_byte s = false /\ contains_byte open_bracket s = false /\ contains_byte close_bracket s = false.

(** A host name or an address of version 4, and a port. *)
Lemma SplitHostPort_bare host port : bare host -> bare port -> SplitHostPort (host +:+ ":" +:+ port) = Some (host, port).
Proof.
  intros (Hc & Ho & Hx) (Pc & Po & Px). change (":" +:+ port) with (String colon_byte port). unfold SplitHostPort.
  rewrite split_last_colon_app by done. cbn [mbind option_bind].
  assert ((contains_byte colon_byte host || contains_byte open_bracket (host +:+ String colon_byte port)
           || contains_byte close_bracket (host +:+ String colon_byte port))%bool = false) as Hall.
  { rewrite !contains_byte_app, Hc, Ho, Hx. cbn [contains_byte]. by rewrite Po, Px. }
  destruct host as [|c host]; [exact (f_equal (fun b : bool => if b then None else Some (EmptyString, port)) Hall)|].
  rewrite string_app_cons in *. destruct (Ascii.eqb c open_bracket) eqn:E.
  { apply Ascii.eqb_eq in E as ->. done. }
  assert (forall A (x y : A), (match String c (host +:+ String colon_byte port) with String "["%char rest => x | _ => y end) = y) as Hm.
  { intros A x y. destruct c as [[] [] [] [] [] [] [] []]; try done. }
  destruct c as [[] [] [] [] [] [] [] []]; try done; by rewrite Hall.
Qed.

Section Spec.
Context `{NetParse}.
Variable env : environment.

Lemma trusted_by_peer r r' : RemoteAddr r = RemoteAddr r' -> trustedProxyRequest env r = trustedProxyRequest env r'.
Proof. intros Hr. unfold trustedProxyRequest. by rewrite Hr. Qed.

(** C18: C: the address a request is counted under is not for the client to choose: from
    a peer that is not a trusted proxy it is the peer's, whatever the headers say
    and whatever its port; from a trusted proxy it is the hop that proxy appended,
    whatever the client wrote before it. *)
Theorem rate_key_is_not_chosen r :
  (trustedProxyRequest env r = false ->
     forall r', RemoteAddr r' = RemoteAddr r -> clientIPKey env r' = host_of_addr (RemoteAddr r)) /\
  (trustedProxyRequest env r = true ->
     forall written hop, XForwardedFor r = written +:+ "," +:+ hop -> contains_byte comma hop = false -> TrimSpace hop <> "" ->
       clientIPKey env r = TrimSpace hop) /\
  (forall host port, bare host -> bare port -> host_of_addr (host +:+ ":" +:+ port) = host).
Proof.
  split_and!.
  - intros Ht r' Hr. unfold clientIPKey. by rewrite (trusted_by_peer r' r Hr), Ht, Hr.
  - intros Ht written hop Hx Hc Hh. unfold clientIPKey. rewrite Ht, Hx.
    assert (is_empty (written +:+ "," +:+ hop) = false) as -> by (by destruct written).
    change ("," +:+ hop) with (String comma hop). unfold last_part. rewrite split_byte_join, (split_byte_plain comma hop Hc), fmap_app, reverse_app.
    cbn. by destruct (is_empty (TrimSpace hop)) eqn:E; [apply is_empty_true in E|].
  - intros host port Hh Hp. unfold host_of_addr. by rewrite SplitHostPort_bare.
Qed.

(** ** Origins *)

(** An entry of the configuration stands for one origin. *)
Definition names_origin (entry origin : string) : Prop :=
  exists u, url_Parse (TrimSpace entry) = Some u /\ TrimSpace entry <> "*" /\ uScheme u <> "" /\ uHost u <> "" /\ uPath u = "" /\
    origin = uScheme u +:+ "://" +:+ uHost u.

Lemma allowed_entry_spec entry o : allowed_entry entry = Some o <-> names_origin entry o.
Proof.
  unfold allowed_entry, names_origin. cbv zeta. destruct (url_Parse (TrimSpace entry)) as [u|]; [|naive_solver].
  destruct (is_empty (uScheme u)) eqn:E1; [apply is_empty_true in E1; naive_solver|].
  destruct (is_empty (uHost u)) eqn:E2; [apply is_empty_true in E2; naive_solver|].
  destruct (is_empty (uPath u)) eqn:E3; [apply is_empty_true in E3|apply is_empty_false in E3; naive_solver].
  destruct (String.eqb_spec (TrimSpace entry) "*"); [naive_solver|].
  apply is_empty_false in E1, E2. cbn [orb negb]. split; [intros [= <-]; by exists u|intros (u' & [= <-] & _ & _ & _ & _ & ->); done].
Qed.

(** The origins that may use the relay from a browser: the relay's own, and those
    named in the configuration. *)
Definition may_enter (configured : list string) (r : Request) : Prop :=
  isSameOrigin env r (Origin r) = true \/
  exists entry, entry ∈ (match configured with [] => split_byte comma (NEKONEST_ALLOWED_ORIGINS env) | _ => configured end) /\
    names_origin entry (trim_right_slashes (Origin r)).

(** C: a request with an origin is served exactly from the relay's own origin or a
    configured one, the answer names that origin and no other, and the websocket
    endpoints decide alike; a star in the configuration names none. *)
Theorem cross_origin_exact configured r :
  TrimSpace (Origin r) <> "" ->
  let allowed := normalizeAllowedOrigins env configured in
  (may_enter configured r <-> CheckOrigin env allowed r = true) /\
  (may_enter configured r ->
     CORSMiddleware env allowed r = if String.eqb (Method r) "OPTIONS" then NoContent (Origin r) else Served (Some (Origin r))) /\
  (~ may_enter configured r -> CORSMiddleware env allowed r = Refused 403 "origin not allowed") /\
  (forall o, ~ names_origin "*" o).
Proof.
  intros Hne allowed. assert (may_enter configured r <-> originAllowed env allowed r (Origin r) = true) as Hiff.
  { unfold may_enter, originAllowed. apply is_empty_false in Hne. rewrite Hne.
    destruct (isSameOrigin env r (Origin r)); [split; auto|]. rewrite bool_decide_eq_true.
    unfold allowed, normalizeAllowedOrigins. rewrite elem_of_list_to_set, list_elem_of_omap.
    setoid_rewrite allowed_entry_spec. split; [intros [?|?]; done|auto]. }
  assert (is_empty (Origin r) = false) as Hempty.
  { apply is_empty_false. intros E. by rewrite E in Hne. }
  split_and!.
  - exact Hiff.
  - intros Hm. apply Hiff in Hm. unfold CORSMiddleware. rewrite Hempty, Hm. cbn [negb]. done.
  - intros Hm. unfold CORSMiddleware. rewrite Hempty. destruct (originAllowed env allowed r (Origin r)) eqn:E; [|done]. by destruct Hm; apply Hiff.
  - intros o (u & _ & Hstar & _). by apply Hstar.
Qed.
End Spec.

(** ** Concrete requests *)

Module Demo.
#[local] Instance few_names : NetParse := {
  url_Parse s :=
    if String.eqb s "https://app.example" then Some (mkURL "https" "app.example" "" "")
    else if String.eqb s "http://nest:80" then Some (mkURL "http" "nest:80" "" "")
    else None;
  net_ParseIP s := if String.eqb s "10.0.0.9" then Some [10; 0; 0; 9] else if String.eqb s "9.9.9.9" then Some [9; 9; 9; 9] else None;
  net_ParseCIDR s := if String.eqb s "10.0.0.0/8" then Some (mkIPNet [10; 0; 0; 0] [255; 0; 0; 0]) else None
}.

Definition behind_proxy : environment := mkEnv "1" "10.0.0.0/8" "https://app.example,*".
Definition from (addr xff origin : string) : Request := mkRequest "GET" addr false "nest" origin xff "" "".

Lemma rate_key_is_not_chosen_witness :
  clientIPKey behind_proxy (from "9.9.9.9:1" "1.1.1.1" "") = "9.9.9.9" /\
  clientIPKey behind_proxy (from "10.0.0.9:4000" "1.1.1.1, 8.8.8.8" "") = "8.8.8.8".
Proof.
  split.
  - exact (proj1 (rate_key_is_not_chosen behind_proxy (from "9.9.9.9:1" "" "")) eq_refl (from "9.9.9.9:1" "1.1.1.1" "") eq_refl).
  - refine (proj1 (proj2 (rate_key_is_not_chosen behind_proxy (from "10.0.0.9:4000" "1.1.1.1, 8.8.8.8" ""))) _ "1.1.1.1" " 8.8.8.8" eq_refl eq_refl _).
    + vm_compute. reflexivity.
    + vm_compute. discriminate.
Defined.

Lemma cross_origin_exact_witness :
  CORSMiddleware behind_proxy (normalizeAllowedOrigins behind_proxy []) (from "9.9.9.9:1" "" "https://app.example/")
    = Served (Some "https://app.example/") /\
  CORSMiddleware behind_proxy (normalizeAllowedOrigins behind_proxy []) (from "9.9.9.9:1" "" "http://nest:80")
    = Served (Some "http://nest:80") /\
  ~ may_enter behind_proxy [] (from "9.9.9.9:1" "" "https://evil.example").
Proof.
  split_and!; [vm_compute; reflexivity|vm_compute; reflexivity|].
  intros Hm. apply (proj1 (cross_origin_exact behind_proxy [] (from "9.9.9.9:1" "" "https://evil.example") ltac:(vm_compute; discriminate))) in Hm.
  vm_compute in Hm. discriminate.
Defined.
End Demo.
