(* ===== verification/AttachDownloadSpec.v ===== *)
(** * Theorems about [AttachDownload]

    Attachments are fetched from the relay's attachment interface only, redirects
    included, and end up in the directory made for them. *)

From stdpp Require Import base tactics list gmap strings.
From Stdlib Require Import Ascii ZArith Lia.
From S2P Require Import Prelude GoStrings GoPath Json Protocol NetNames AttachDownload ProtocolSpec.
From S2P Require StartThread.

(** ** Paths in the directory *)

(** An absolute path as the system makes it. *)
Definition absolute_path (d : string) (segs : list string) : Prop :=
  segs <> [] /\ forallb plain_segment segs = true /\ d = "/" +:+ join_byte slash segs.

Lemma plain_no_slash w : plain_segment w = true -> contains_byte slash w = false.
Proof. unfold plain_segment. intros H. bool_hyps. done. Qed.

Lemma plain_list segs : forallb plain_segment segs = true -> Forall (fun w => contains_byte slash w = false) segs.
Proof.
  rewrite forallb_forall. intros H. apply Forall_forall. intros w Hw. apply plain_no_slash, H. by apply list_elem_of_In.
Qed.

Lemma push_plain stack w : plain_segment w = true -> push_segment true stack w = w :: stack.
Proof.
  unfold plain_segment, push_segment. intros H. apply andb_prop in H as [H _]. apply andb_prop in H as [H H3]. apply andb_prop in H as [H1 H2].
  apply negb_true_iff in H1, H2, H3. by rewrite H1, H2, H3.
Qed.

Lemma push_all_plain segs stack : forallb plain_segment segs = true -> foldl (push_segment true) stack segs = reverse segs ++ stack.
Proof.
  revert stack. induction segs as [|w segs IH]; intros stack Hs; [done|]. cbn [forallb] in Hs. apply andb_prop in Hs as [Hw Hs].
  cbn [foldl]. rewrite push_plain, IH, reverse_cons, <- app_assoc by done. done.
Qed.

(** Joining a name to an absolute path. *)
Lemma join_absolute d segs w :
  absolute_path d segs -> w <> "" ->
  path_join d w = "/" +:+ join_byte slash (reverse (foldl (push_segment true) (reverse segs) (split_byte slash w))).
Proof.
  intros (Hne & Hpl & Hd) Hw. unfold path_join. assert (is_empty d = false) as -> by (by rewrite Hd).
  apply is_empty_false in Hw. rewrite Hw.
  assert (split_byte slash (d +:+ "/" +:+ w) = "" :: segs ++ split_byte slash w) as Hsp.
  { change ("/" +:+ w) with (String slash w). rewrite split_byte_join. rewrite Hd.
    change (split_byte slash ("/" +:+ join_byte slash segs)) with ("" :: split_byte slash (join_byte slash segs)).
    rewrite split_join by (done || by apply plain_list). done. }
  unfold Clean. rewrite Hsp.
  assert (has_prefix "/" (d +:+ "/" +:+ w) = true) as -> by (rewrite Hd; done).
  f_equal. f_equal. unfold clean_segments. cbn [foldl]. rewrite foldl_app. f_equal. f_equal.
  change (push_segment true [] "") with (@nil string). by rewrite push_all_plain, app_nil_r.
Qed.

Lemma join_plain d segs w : absolute_path d segs -> plain_segment w = true -> path_join d w = "/" +:+ join_byte slash (segs ++ [w]).
Proof.
  intros Hd Hw. rewrite (join_absolute d segs w Hd).
  2: { intros ->. done. }
  rewrite split_byte_plain by (by apply plain_no_slash). cbn [foldl]. rewrite push_plain, reverse_cons, reverse_involutive by done. done.
Qed.

Lemma join_byte_cons2 a b l : join_byte slash (a :: b :: l) = a +:+ "/" +:+ join_byte slash (b :: l).
Proof. done. Qed.

Lemma join_byte_snoc l w : l <> [] -> join_byte slash (l ++ [w]) = join_byte slash l +:+ "/" +:+ w.
Proof.
  induction l as [|a l IH]; [done|]. intros _. destruct l as [|b l]; [done|].
  change ((a :: b :: l) ++ [w]) with (a :: b :: (l ++ [w])). rewrite !join_byte_cons2.
  change (b :: l ++ [w]) with ((b :: l) ++ [w]). rewrite IH by done. by rewrite !string_app_assoc.
Qed.

Lemma absolute_child d segs w : absolute_path d segs -> "/" +:+ join_byte slash (segs ++ [w]) = d +:+ "/" +:+ w.
Proof. intros (Hne & _ & ->). by rewrite join_byte_snoc, string_app_assoc. Qed.

(** What [filepath.Base] gives. *)
Lemma after_last_slash_free p : contains_byte slash (after_last_slash p) = false.
Proof. induction p as [|c p IH]; [done|]. cbn [after_last_slash]. by destruct (contains_byte slash (String c p)) eqn:E. Qed.

Lemma Base_shape p : plain_segment (Base p) = true \/ Base p = "." \/ Base p = ".." \/ Base p = "/".
Proof.
  unfold Base. destruct (is_empty p); [auto|]. cbv zeta. pose proof (after_last_slash_free (trim_right_slashes p)) as Hs.
  set (q := after_last_slash _) in *. destruct (is_empty q) eqn:E; [auto|].
  destruct (String.eqb q ".") eqn:E1; [apply String.eqb_eq in E1; auto|].
  destruct (String.eqb q "..") eqn:E2; [apply String.eqb_eq in E2; auto|].
  left. unfold plain_segment. by rewrite E, E1, E2, Hs.
Qed.

Lemma digits_no_slash s : all_digits s = true -> contains_byte slash s = false.
Proof.
  induction s as [|c s IH]; [done|]. cbn [all_digits contains_byte]. intros H. apply andb_prop in H as [Hc Hs]. rewrite IH by done.
  by destruct (Ascii.eqb_spec c slash) as [->|].
Qed.

Lemma numbered_plain n w : 0 <= n -> contains_byte slash w = false -> plain_segment (Itoa n +:+ "_" +:+ w) = true.
Proof.
  intros Hn Hw. assert (contains_byte "_"%char (Itoa n +:+ "_" +:+ w) = true) as Hu.
  { rewrite contains_byte_app. apply orb_true_iff. right. done. }
  assert (contains_byte slash (Itoa n) = false) as Hs by (apply digits_no_slash; by apply Itoa_digits).
  unfold plain_segment. rewrite !contains_byte_app, Hs, Hw.
  destruct (is_empty _) eqn:E1; [apply is_empty_true in E1; by rewrite E1 in Hu|].
  destruct (String.eqb_spec (Itoa n +:+ "_" +:+ w) "."); [by rewrite e in Hu|].
  destruct (String.eqb_spec (Itoa n +:+ "_" +:+ w) ".."); [by rewrite e in Hu|]. done.
Qed.

(** The other names stand for a directory that is there. *)
Lemma odd_name_exists d segs store w :
  absolute_path d segs -> w = "." \/ w = ".." \/ w = "/" -> path_exists d store (path_join d w) = true.
Proof.
  intros Hd Hw. pose proof Hd as (Hne & Hpl & Heq).
  assert (path_join d w = d \/ exists l x, segs = l ++ [x] /\ path_join d w = "/" +:+ join_byte slash l) as [Hp|(l & x & Hs & Hp)].
  { destruct Hw as [->|[->| ->]]; rewrite (join_absolute d segs) by done.
    - left. change (split_byte slash ".") with ["."]. cbn [foldl]. change (push_segment true (reverse segs) ".") with (reverse segs).
      by rewrite reverse_involutive.
    - right. destruct (exists_last Hne) as (l & x & ->). exists l, x. split; [done|].
      rewrite forallb_app in Hpl. apply andb_prop in Hpl as [_ Hx]. cbn [forallb] in Hx. rewrite andb_true_r in Hx.
      change (split_byte slash "..") with [".."]. cbn [foldl]. rewrite reverse_snoc. unfold push_segment. cbn [is_empty orb].
      change (String.eqb ".." ".") with false. change (String.eqb ".." "..") with true. cbn [orb].
      unfold plain_segment in Hx. bool_hyps. destruct (String.eqb x ".."); [done|]. by rewrite reverse_involutive.
    - left. change (split_byte slash "/") with [""; ""]. cbn [foldl]. change (push_segment true (push_segment true (reverse segs) "") "") with (reverse segs).
      by rewrite reverse_involutive. }
  - unfold path_exists. by rewrite Hp, String.eqb_refl, orb_true_r.
  - unfold path_exists. rewrite Hp. destruct l as [|a l]; [by rewrite !orb_true_r|].
    assert (has_prefix (("/" +:+ join_byte slash (a :: l)) +:+ "/") d = true) as ->; [|by rewrite orb_true_r].
    rewrite Heq, Hs, join_byte_snoc by done. rewrite !string_app_assoc, <- (string_app_assoc _ "/" x). 
    apply has_prefix_spec. exists x. by rewrite !string_app_assoc.
Qed.

(** Every destination lies directly in the directory. *)
Lemma ref_dest_inside d segs store i name :
  absolute_path d segs ->
  plain_segment (Base name) = true \/ Base name = "." \/ Base name = ".." \/ Base name = "/" ->
  exists w, plain_segment w = true /\ ref_dest d store i (Base name) = d +:+ "/" +:+ w.
Proof.
  intros Hd Hb. pose proof Hd as (Hne & Hpl & Heq). unfold ref_dest.
  set (k := Itoa (Z.of_nat (S i))).
  assert (forall w, plain_segment w = true -> path_join d w = d +:+ "/" +:+ w) as Hjoin
    by (intros w Hw; rewrite (join_plain d segs w) by done; by apply absolute_child).
  assert (forall w, contains_byte slash w = false -> plain_segment (k +:+ "_" +:+ w) = true) as Hnum
    by (intros w Hw; apply numbered_plain; [lia|done]).
  clearbody k.
  assert (forall local, path_join d (Base name) = local -> path_exists d store local = true ->
    exists w, plain_segment w = true /\ path_join d (k +:+ "_" +:+ Base name) = d +:+ "/" +:+ w) as Hold.
  { intros local Hl _. destruct (contains_byte slash (Base name)) eqn:Es.
    - destruct Hb as [Hb|[Hb|[Hb|Hb]]]; [by rewrite plain_no_slash in Es|by rewrite Hb in Es|by rewrite Hb in Es|].
      rewrite Hb. exists (k +:+ "_"). assert (plain_segment (k +:+ "_") = true) as Hp by (by apply (Hnum "")). split; [done|].
      rewrite (join_absolute d segs) by (done || by destruct k). rewrite string_app_assoc.
      change ((k +:+ "_") +:+ "/") with ((k +:+ "_") +:+ String slash ""). rewrite (split_byte_join slash (k +:+ "_")), split_byte_plain by (by apply plain_no_slash).
      change ([k +:+ "_"] ++ split_byte slash "") with [k +:+ "_"; ""]. cbn [foldl]. rewrite (push_plain (reverse segs) (k +:+ "_") Hp).
      change (push_segment true ((k +:+ "_") :: reverse segs) "") with ((k +:+ "_") :: reverse segs).
      rewrite reverse_cons, reverse_involutive. by apply absolute_child.
    - exists (k +:+ "_" +:+ Base name). split; [by apply Hnum|by apply Hjoin, Hnum]. }
  destruct (path_exists d store (path_join d (Base name))) eqn:Ex; [by apply (Hold _ eq_refl)|].
  destruct Hb as [Hb|Hb]; [exists (Base name); split; [done|by apply Hjoin]|].
  by rewrite (odd_name_exists d segs store (Base name)) in Ex by tauto.
Qed.

(** ** Requests *)

Section Spec.
Context `{NetParse}.

(** A URL of the attachment interface of a host. *)
Definition attachment_of (host url : string) : Prop :=
  exists p id, url_Parse url = Some p /\ (to_lower (uScheme p) = "https" \/ to_lower (uScheme p) = "http") /\
    to_lower (uHost p) = to_lower host /\
    (if is_empty (uEscapedPath p) then uPath p else uEscapedPath p) = attachments_prefix +:+ id /\
    id <> "" /\ contains id "/" = false /\ contains id ".." = false.

Lemma validateAttachmentURL_ok url host : validateAttachmentURL url host = Ok tt -> attachment_of host url.
Proof.
  unfold validateAttachmentURL. destruct (url_Parse url) as [p|] eqn:Ep; [|done]. cbv zeta.
  destruct (String.eqb_spec (to_lower (uScheme p)) "https") as [H1|H1];
    destruct (String.eqb_spec (to_lower (uScheme p)) "http") as [H2|H2]; cbn [negb andb]; try done.
  all: destruct (is_empty (to_lower (uHost p))); [done|]; destruct (String.eqb_spec (to_lower (uHost p)) (to_lower host)) as [H3|H3]; [|done].
  all: cbn [negb orb]; destruct (has_prefix attachments_prefix _) eqn:E4; [|done]; cbn [negb].
  all: apply has_prefix_spec in E4 as [id E4]; rewrite E4, trim_prefix_app.
  all: destruct (is_empty id) eqn:E5; [done|]; destruct (contains id "/") eqn:E6; [done|]; destruct (contains id "..") eqn:E7; [done|].
  all: intros _; exists p, id; apply is_empty_false in E5; auto 10.
Qed.

Lemma follow_requests server host fuel via url :
  attachment_of host url ->
  Forall (attachment_of host) (follow server host fuel via url).1 /\ (List.length (follow server host fuel via url).1 <= fuel)%nat.
Proof.
  revert via url. induction fuel as [|fuel IH]; intros via url Hu; [by split; [constructor|]|]. cbn [follow].
  destruct (server url); [split; [by repeat constructor|cbn; lia]|split; [by repeat constructor|cbn; lia]| |split; [by repeat constructor|cbn; lia]].
  destruct (max_redirects <=? S via)%nat; [split; [by repeat constructor|cbn; lia]|].
  destruct (validateAttachmentURL url0 host) as [[]|e] eqn:Ev; [|split; [by repeat constructor|cbn; lia]].
  destruct (IH (S via) url0 (validateAttachmentURL_ok _ _ Ev)) as [H1 H2]. destruct (follow server host fuel (S via) url0) as [rs r].
  cbn [fst] in *. split; [by constructor|cbn; lia].
Qed.

(** ** The directory *)

Variables (server : string -> answer) (f : file_io) (host dir : string) (segs : list string).
Hypothesis dir_absolute : absolute_path dir segs.

Definition inside (p : string) : Prop := exists w, plain_segment w = true /\ p = dir +:+ "/" +:+ w.

Record material_ok (n : nat) (m : materializing) : Prop := {
  mo_requests : Forall (attachment_of host) (requested m);
  mo_count : (List.length (requested m) <= max_redirects * n)%nat;
  mo_stored : forall p c, stored m !! p = Some c -> inside p /\ len c <= download_limit;
  mo_files : Forall (fun l => inside (StartThread.FilePath l)) (local_files m);
  mo_fewer : (List.length (local_files m) <= n)%nat
}.

Lemma note_ok n m line : material_ok n m -> material_ok n (note m line).
Proof. by intros []; constructor. Qed.

Lemma material_ok_more n m : material_ok n m -> material_ok (S n) m.
Proof. intros []; constructor; auto; lia. Qed.

Lemma downloadTo_ok url dest n m :
  attachment_of host url -> inside dest -> material_ok n m ->
  let '(rs, d, store) := downloadTo server f host url dest (stored m) in
  material_ok (S n) (mkMaterializing (requested m ++ rs) store (local_files m) (text m)).
Proof.
  intros Hu Hd [Hr Hc Hs Hf Hn]. unfold downloadTo.
  destruct (follow_requests server host max_redirects 0 url Hu) as [H1 H2].
  destruct (follow server host max_redirects 0 url) as [rs r]. cbn [fst] in *.
  assert (forall store, (forall p c, store !! p = Some c -> inside p /\ len c <= download_limit) ->
    material_ok (S n) (mkMaterializing (requested m ++ rs) store (local_files m) (text m))) as Hok.
  { intros store Hst. constructor; cbn [requested stored local_files]; [by apply Forall_app| |done|done|lia].
    rewrite length_app. unfold max_redirects in *. lia. }
  destruct r as [[body broken|c|u|e]|e]; try by apply Hok.
  destruct (ioCreate f dest); [by apply Hok|].
  assert (material_ok (S n) (mkMaterializing (requested m ++ rs) (base.delete dest (stored m)) (local_files m) (text m))) as Hdel.
  { apply Hok. intros p c [_ Hp]%lookup_delete_Some. by apply Hs. }
  destruct (if download_limit <=? len body then None else broken); [done|]. destruct (ioClose f dest); [done|].
  apply Hok. intros p c. rewrite lookup_insert_Some. intros [[<- <-]|[_ Hp]]; [|by apply Hs]. split; [done|].
  rewrite len_take_bytes. unfold download_limit. rewrite Z2Nat.id by lia. lia.
Qed.

Lemma materialize_ref_ok base i r n m :
  material_ok n m -> material_ok (S n) (materialize_ref server f base host dir i r m).
Proof.
  intros Hm. unfold materialize_ref. destruct (is_empty _); [by apply material_ok_more|].
  destruct (validateAttachmentURL _ host) as [[]|e] eqn:Ev; [|by apply note_ok, material_ok_more].
  apply validateAttachmentURL_ok in Ev.
  assert (inside (ref_dest dir (stored m) i (ref_name i r))) as Hin.
  { unfold ref_name. eapply ref_dest_inside; [done|]. apply Base_shape. }
  pose proof (downloadTo_ok _ _ n m Ev Hin Hm) as Hd.
  destruct (downloadTo _ _ _ _ _ _) as [[rs d] store]. destruct d; [|by apply note_ok].
  apply note_ok. destruct Hd as [H1 H2 H3 H4 H5]. constructor; cbn [requested stored local_files] in *; [done|done|done| |].
  - apply Forall_app. split; [done|]. by repeat constructor.
  - rewrite length_app. cbn. destruct Hm. lia.
Qed.

Lemma materialize_refs_ok base i refs n m :
  material_ok n m -> material_ok (n + List.length refs) (materialize_refs server f base host dir i refs m).
Proof.
  revert i n m. induction refs as [|r refs IH]; intros i n m Hm; cbn [materialize_refs List.length]; [by rewrite Nat.add_0_r|].
  replace (n + S (List.length refs))%nat with (S n + List.length refs)%nat by lia. apply IH. by apply materialize_ref_ok.
Qed.
End Spec.

(** C19: C: whatever references a prompt carries and wherever the relay redirects, the
    daemon asks only the host it is connected to, only for attachments, at most
    three times per reference; what it stores lies directly in the directory made
    for it, whatever the files are called, at most five megabytes each; and when it
    fails it hands out no file and leaves none behind that it could remove. *)
Theorem downloads_stay_at_the_relay `{NetParse} server f serverURL sessionID refs :
  (forall prefix dir, ioMkdirTemp f prefix = Ok dir -> exists segs, absolute_path dir segs) ->
  let m := Materialize server f serverURL sessionID refs in
  Forall (fun u => exists host, hostOf (wsToHTTP serverURL) = Ok host /\ attachment_of host u) (mRequested m) /\
  (List.length (mRequested m) <= 3 * List.length refs)%nat /\
  (forall p c, mStored m !! p = Some c -> inside (mDir m) p /\ len c <= download_limit) /\
  Forall (fun l => inside (mDir m) (StartThread.FilePath l)) (mFiles m) /\
  (mErr m <> None -> mFiles m = [] /\ (mStored m = ∅ \/ ioRemoveAll f <> None)) /\
  (mErr m = None -> refs <> [] -> mFiles m <> []).
Proof.
  intros Hdir m. subst m. unfold Materialize. destruct refs as [|r0 refs0]; [cbn; split_and!; try done; constructor|].
  set (refs := r0 :: refs0). destruct (hostOf (wsToHTTP serverURL)) as [host|e] eqn:Eh; [|cbn [mRequested mStored mFiles mErr mDir]; split_and!; try done; try apply Nat.le_0_l; first [by constructor|by auto]].
  destruct (ioMkdirTemp f _) as [dir|e] eqn:Ed; [|cbn [mRequested mStored mFiles mErr mDir]; split_and!; try done; try apply Nat.le_0_l; first [by constructor|by auto]].
  destruct (Hdir _ _ Ed) as [segs Hseg].
  pose proof (materialize_refs_ok server f host dir segs Hseg (wsToHTTP serverURL) 0 refs 0
                (mkMaterializing [] ∅ [] materialize_header)) as Hm.
  destruct Hm as [H1 H2 H3 H4 H5]; [by constructor; cbn; try constructor; try lia; intros|].
  set (mm := materialize_refs _ _ _ _ _ _ _ _) in *. rewrite Nat.add_0_l in *.
  assert (Forall (fun u => exists h, Ok host = Ok h /\ attachment_of h u) (requested mm)) as H1'
    by (eapply Forall_impl; [exact H1|]; intros u Hu; by exists host).
  destruct (local_files mm) as [|l ls] eqn:El; [destruct (ioRemoveAll f) as [e|] eqn:Er|];
    cbn [mRequested mStored mFiles mErr mDir]; split_and!; try done; try (by constructor).
  - intros _. split; [done|by right].
  - intros _. split; [done|by left].
Qed.

(** ** Concrete downloads *)

Module Demo.
(** URLs of one host. *)
#[local] Instance one_host : NetParse := {
  url_Parse s :=
    if has_prefix "https://nest" s then let p := trim_prefix s "https://nest" in Some (mkURL "https" "nest" p p)
    else if has_prefix "https://evil" s then let p := trim_prefix s "https://evil" in Some (mkURL "https" "evil" p p)
    else None;
  net_ParseIP _ := None;
  net_ParseCIDR _ := None
}.

Definition files_work : file_io := mkFileIO (fun _ => Ok "/tmp/nekonest-att-s-1") (fun _ => None) (fun _ => None) None.

Definition nest (url : string) : answer :=
  if has_suffix "/away" url then RedirectTo "https://evil/api/attachments/a" else Success url None.

Definition ref (id name : string) : StartThread.Ref := StartThread.mkRef ("/api/attachments/" +:+ id) name "text/plain" id.

Definition three : list StartThread.Ref := [ref "a" "../../etc/passwd"; ref "away" "b"; ref "c" ".."].

Lemma downloads_stay_at_the_relay_witness :
  let m := Materialize nest files_work "wss://nest/ws" "s" three in
  (StartThread.FilePath <$> mFiles m) = ["/tmp/nekonest-att-s-1/passwd"; "/tmp/nekonest-att-s-1/3_.."] /\
  mRequested m = ["https://nest/api/attachments/a"; "https://nest/api/attachments/away"; "https://nest/api/attachments/c"] /\
  Forall (fun l => inside (mDir m) (StartThread.FilePath l)) (mFiles m).
Proof.
  split_and!; [vm_compute; reflexivity|vm_compute; reflexivity|].
  refine (proj1 (proj2 (proj2 (proj2 (downloads_stay_at_the_relay nest files_work "wss://nest/ws" "s" three _))))).
  intros prefix dir [= <-]. exists ["tmp"; "nekonest-att-s-1"]. split_and!; [discriminate|vm_compute; reflexivity|vm_compute; reflexivity].
Defined.

(** The third file gets the number that avoids the second one, which is the name of
    the first one: both are reported, under one path, with the content of the third. *)
Theorem numbered_name_replaces_earlier_file :
  let m := Materialize nest files_work "wss://nest/ws" "s" [ref "x" "3_a"; ref "y" "a"; ref "z" "a"] in
  (StartThread.FilePath <$> mFiles m) = ["/tmp/nekonest-att-s-1/3_a"; "/tmp/nekonest-att-s-1/a"; "/tmp/nekonest-att-s-1/3_a"] /\
  mStored m !! "/tmp/nekonest-att-s-1/3_a" = Some "https://nest/api/attachments/z".
Proof. vm_compute. done. Qed.
End Demo.
