(* ===== verification/DaemonSetupSpec.v ===== *)
(** * Theorems about [DaemonSetup]

    Registration is bounded and ends as its last attempt, it never settles for
    another transport mode than the one that was asked for, its proof binds every
    field, a rewritten configuration is noticed, and the key package that answers a
    pairing opens on the phone. *)

From stdpp Require Import base tactics list gmap strings.
From Stdlib Require Import Ascii ZArith Lia.
From S2P Require Import Prelude GoStrings GoPath Json Protocol JsonDecode Sha256 Base64 DaemonSetup.
From S2P Require DaemonClient Sealed.

(** ** The registration request *)

Lemma registration_delay_bounds n e : (n < 20)%nat -> 0 < registration_delay n e <= 60 * DaemonClient.Second.
Proof.
  intros Hn. unfold registration_delay, DaemonClient.Second. destruct (_ <=? 0) eqn:E; cbv zeta; destruct (_ <? _) eqn:E'; lia.
Qed.

(** Attempt [i] was refused for now, and the daemon slept before the next one. *)
Definition retried (post : nat -> http_result) (wait : Z -> bool) (ds : list Z) (k i : nat) : Prop :=
  exists e, postDeviceRegistration (post i) = inr (Remote e) /\ DaemonClient.retryable e = true /\
    ds !! k = Some (registration_delay i e) /\ wait (registration_delay i e) = true.

(** How the sleeps end when the outcome is that of attempt [m], the [k]th made. *)
Definition last_sleep (wait : Z -> bool) (ds : list Z) (k m final : nat) (r : registrationResponse + registration_error) : Prop :=
  match r with
  | inr (Remote e) =>
    if DaemonClient.retryable e
    then List.length ds = S k /\ ds !! k = Some (registration_delay m e) /\ (m = final \/ wait (registration_delay m e) = false)
    else List.length ds = k
  | _ => List.length ds = k
  end.

(** The outcome is that of attempt [n + k], out of [left] more that may be made. *)
Definition outcome (post : nat -> http_result) (wait : Z -> bool) (n left : nat) (ds : list Z) (r : registrationResponse + registration_error) : Prop :=
  exists k, (k <= left)%nat /\ r = postDeviceRegistration (post (n + k)%nat) /\
    (forall i, (i < k)%nat -> retried post wait ds i (n + i)) /\ last_sleep wait ds k (n + k) (n + left) r.

Lemma outcome_now post wait n left ds r :
  postDeviceRegistration (post n) = r -> last_sleep wait ds 0 n (n + left) r -> outcome post wait n left ds r.
Proof. intros E H. exists O. rewrite Nat.add_0_r, E. split; [lia|]. split; [done|]. split; [intros i Hi; lia|done]. Qed.

Lemma outcome_later post wait n left ds e r :
  postDeviceRegistration (post n) = inr (Remote e) -> DaemonClient.retryable e = true -> wait (registration_delay n e) = true ->
  outcome post wait (S n) left ds r -> outcome post wait n (S left) (registration_delay n e :: ds) r.
Proof.
  intros E Er Ew (k & Hk & Hr & Hretry & Hlast). exists (S k). rewrite !Nat.add_succ_r. split; [lia|]. split; [done|]. split.
  - intros [|i] Hi; [rewrite Nat.add_0_r; by exists e|]. rewrite Nat.add_succ_r. apply Hretry. lia.
  - revert Hlast. unfold last_sleep. cbn [List.length lookup list_lookup]. destruct r as [?|[e'|?]]; [lia| |lia].
    destruct (DaemonClient.retryable e'); [|lia]. intros (Hl & Hd & Hw). split; [lia|]. by split.
Qed.

Lemma register_loop_S post wait left n last :
  register_loop post wait (S left) n last =
  match postDeviceRegistration (post n) with
  | inr (Remote e) =>
    if DaemonClient.retryable e then
      if wait (registration_delay n e)
      then let '(ds, r) := register_loop post wait left (S n) (Some (Remote e)) in (registration_delay n e :: ds, r)
      else ([registration_delay n e], inr (Remote e))
    else ([], inr (Remote e))
  | r => ([], r)
  end.
Proof. cbn. by destruct (postDeviceRegistration (post n)) as [?|[?|?]]. Qed.

Lemma register_loop_outcome post wait left n last ds r :
  register_loop post wait (S left) n last = (ds, r) -> outcome post wait n left ds r.
Proof.
  revert n last ds r. induction left as [|left IH]; intros n last ds r; rewrite register_loop_S.
  all: destruct (postDeviceRegistration (post n)) as [x|[e|e]] eqn:E; [intros [= <- <-]; by apply outcome_now| |intros [= <- <-]; by apply outcome_now].
  all: destruct (DaemonClient.retryable e) eqn:Er; [|intros [= <- <-]; apply outcome_now; [done|]; cbn; by rewrite Er].
  all: destruct (wait _) eqn:Ew; [|intros [= <- <-]; apply outcome_now; [done|]; cbn; rewrite Er; repeat split; by right].
  - cbn [register_loop]. intros [= <- <-]. apply outcome_now; [done|]. cbn. rewrite Er. repeat split. left. lia.
  - destruct (register_loop post wait (S left) (S n) (Some (Remote e))) as [ds' r'] eqn:El. intros [= <- <-]. subst.
    apply outcome_later; [done..|]. by eapply IH.
Qed.

(** C: a registration makes at most twenty requests: its outcome is that of the
    last one it made, every earlier one was refused with an error the relay calls
    retryable and was followed by a finished sleep, every sleep is positive and at
    most a minute, and only a retryable refusal of the twentieth request, or an
    interrupted sleep, ends it with a retryable error. *)
Theorem registration_stays_in_budget (post : nat -> http_result) (wait : Z -> bool) :
  let '(ds, r) := completeDeviceRegistration post wait in
  exists last, (last < maxRegistrationAttempts)%nat /\ r = postDeviceRegistration (post last) /\
    (forall i, (i < last)%nat -> retried post wait ds i i) /\
    last_sleep wait ds last last (pred maxRegistrationAttempts) r /\
    Forall (fun d => 0 < d <= 60 * DaemonClient.Second) ds.
Proof.
  destruct (completeDeviceRegistration post wait) as [ds r] eqn:E. unfold completeDeviceRegistration, maxRegistrationAttempts in *.
  apply register_loop_outcome in E as (k & Hk & -> & Hretry & Hlast). rewrite !Nat.add_0_l in *. exists k. split; [lia|]. split; [done|]. split; [done|]. split; [done|].
  apply Forall_lookup. intros i d Hi. destruct (decide (i < k)%nat) as [Hlt|Hge].
  - destruct (Hretry i Hlt) as (e & _ & _ & Hd & _). rewrite Hd in Hi. injection Hi as <-. apply registration_delay_bounds. lia.
  - apply lookup_lt_Some in Hi as Hlen. revert Hlast. unfold last_sleep.
    destruct (postDeviceRegistration _) as [?|[e|?]]; [lia| |lia]. destruct (DaemonClient.retryable e); [|lia].
    intros (Hl & Hd & _). assert (i = k) as -> by lia. rewrite Hd in Hi. injection Hi as <-. apply registration_delay_bounds. lia.
Qed.

(** ** The proof of registration *)

Definition short_fields (fields : list string) : Prop := Forall (fun f => len f < 2 ^ 32) fields.

Lemma uint32_be_inj n m : 0 <= n < 2 ^ 32 -> 0 <= m < 2 ^ 32 -> uint32_be n = uint32_be m -> n = m.
Proof.
  intros Hn Hm E. unfold uint32_be in E. apply (f_equal codes) in E.
  rewrite !codes_of_codes in E by (repeat constructor; unfold is_byte; apply Z.mod_pos_bound; lia).
  injection E as E1 E2 E3 E4. Z.div_mod_to_equations. lia.
Qed.

Lemma string_app_split a1 a2 b1 b2 : String.length a1 = String.length a2 -> a1 +:+ b1 = a2 +:+ b2 -> a1 = a2 /\ b1 = b2.
Proof.
  revert a2. induction a1 as [|c a1 IH]; intros [|c' a2] Hl E; try done. cbn in *. injection E as -> E. injection Hl as Hl.
  destruct (IH a2 Hl E) as [-> ->]. done.
Qed.

Lemma framed_inj l1 l2 : List.length l1 = List.length l2 -> short_fields l1 -> short_fields l2 -> framed l1 = framed l2 -> l1 = l2.
Proof.
  revert l2. induction l1 as [|f1 l1 IH]; intros [|f2 l2] Hl H1 H2 E; try done. cbn [framed] in E.
  apply Forall_cons in H1 as [Hf1 H1]. apply Forall_cons in H2 as [Hf2 H2].
  apply string_app_split in E as [En E]; [|done].
  apply uint32_be_inj in En; [|unfold len in *; lia..].
  apply string_app_split in E as [-> E]; [|unfold len in *; lia].
  f_equal. apply IH; [by injection Hl|done..].
Qed.

(** C: two registrations whose proofs sign the same bytes agree in every field as
    it is normalised: the bootstrap token, the system, both public keys, the
    fingerprint and the transport mode. A field moved into its neighbour, or a mode
    changed afterwards, changes what is signed. *)
Theorem registration_proof_binds_every_field t os ed x fp mode t' os' ed' x' fp' mode' :
  short_fields (proof_fields t os ed x fp mode) -> short_fields (proof_fields t' os' ed' x' fp' mode') ->
  registrationProofTranscript t os ed x fp mode = registrationProofTranscript t' os' ed' x' fp' mode' ->
  TrimSpace t = TrimSpace t' /\ to_lower (TrimSpace os) = to_lower (TrimSpace os') /\ TrimSpace ed = TrimSpace ed' /\
  TrimSpace x = TrimSpace x' /\ to_lower (TrimSpace fp) = to_lower (TrimSpace fp') /\ TrimSpace mode = TrimSpace mode'.
Proof.
  intros H1 H2 E. apply string_app_split in E as [_ E]; [|done]. apply framed_inj in E; [|done..]. by injection E.
Qed.

(** ** The configuration a registration gives *)

Lemma mode_normal raw mode : NormalizeTransportMode raw = Ok mode -> mode = "open" \/ mode = "sealed".
Proof.
  unfold NormalizeTransportMode. destruct (is_empty _); [intros [= <-]; by left|]. destruct (_ || _)%bool eqn:E; [|done].
  intros [= <-]. apply orb_prop in E as [E|E]; apply String.eqb_eq in E; auto.
Qed.

Lemma mode_as_sent raw mode : is_empty (TrimSpace raw) = false -> NormalizeTransportMode raw = Ok mode -> mode = TrimSpace raw.
Proof. unfold NormalizeTransportMode. intros ->. destruct (_ || _)%bool; [by intros [= <-]|done]. Qed.

Lemma known_mode raw : TrimSpace raw = "open" \/ TrimSpace raw = "sealed" -> NormalizeTransportMode raw = Ok (TrimSpace raw).
Proof. unfold NormalizeTransportMode. by intros [-> | ->]. Qed.

(** When a registration's answer is accepted. *)
Definition acceptable (result : registrationResponse) (requested : string) : Prop :=
  (TrimSpace (rTransportMode result) = "open" \/ TrimSpace (rTransportMode result) = "sealed") /\
  (TrimSpace requested = "" \/ TrimSpace requested = TrimSpace (rTransportMode result)) /\
  TrimSpace (rDeviceID result) <> "" /\ TrimSpace (rToken result) <> "" /\
  TrimSpace (rConnectionState result) ∈ [""; "ready"; "provisioning"] /\
  match rRetryAfterSeconds result with Some n => 0 <= n | None => True end.

Lemma registrationTransportMode_ok server requested mode :
  registrationTransportMode server requested = Ok mode <->
  mode = TrimSpace server /\ (mode = "open" \/ mode = "sealed") /\ (TrimSpace requested = "" \/ TrimSpace requested = mode).
Proof.
  unfold registrationTransportMode. split.
  - destruct (is_empty (TrimSpace server)) eqn:Es; [done|]. intros H. apply bind_ok in H as (m & Hm & H).
    pose proof (mode_as_sent _ _ Es Hm) as ->. apply mode_normal in Hm.
    destruct (is_empty (TrimSpace requested)) eqn:Er.
    + injection H as <-. apply is_empty_true in Er. auto.
    + apply bind_ok in H as (want & Hw & H). apply (mode_as_sent _ _ Er) in Hw as ->.
      destruct (String.eqb _ _) eqn:E; [|done]. apply String.eqb_eq in E. injection H as <-. auto.
  - intros (-> & Hm & Hr). rewrite (known_mode server Hm).
    assert (is_empty (TrimSpace server) = false) as -> by (by destruct Hm as [-> | ->]). cbn [mbind res_bind].
    destruct Hr as [-> |Hr]; [done|]. rewrite (known_mode requested) by (by rewrite Hr). rewrite Hr.
    assert (is_empty (TrimSpace server) = false) as -> by (by destruct Hm as [-> | ->]). cbn [mbind res_bind]. by rewrite String.eqb_refl.
Qed.

(** C: a registration's answer becomes a configuration exactly when it is
    acceptable: a known transport mode, the requested one when there was one,
    credentials, a known connection state and no negative delay. The configuration
    has the endpoint that was registered at, the credentials and that mode. *)
Theorem registration_never_changes_the_mode (ws : string) (result : registrationResponse) (requested : string) (c : Config) (state : string) :
  registrationConfig ws result requested = Ok (c, state) <->
  acceptable result requested /\
  c = mkConfig ws (rDeviceID result) (rToken result) "" (TrimSpace (rTransportMode result)) /\
  state = (if is_empty (TrimSpace (rConnectionState result)) then "ready" else TrimSpace (rConnectionState result)).
Proof.
  unfold registrationConfig. set (st := if is_empty _ then _ else _). 
  assert (TrimSpace (rConnectionState result) ∈ [""; "ready"; "provisioning"] <->
          (negb (String.eqb st "ready") && negb (String.eqb st "provisioning"))%bool = false) as Hst.
  { unfold st. destruct (is_empty _) eqn:E.
    - apply is_empty_true in E as ->. split; [done|]. intros _. by left.
    - apply is_empty_false in E. rewrite andb_false_iff, !negb_false_iff, !String.eqb_eq, !elem_of_cons, elem_of_nil. tauto. }
  split.
  - intros H. apply bind_ok in H as (mode & Hm & H). apply registrationTransportMode_ok in Hm as (-> & Hm & Hr).
    destruct (_ || _)%bool eqn:Ec; [done|]. apply orb_false_elim in Ec as [Ei Et]. apply is_empty_false in Ei, Et.
    cbv zeta in H. destruct (_ && _)%bool eqn:Es; [done|]. pose proof (proj2 Hst eq_refl) as Hs. unfold acceptable.
    destruct (rRetryAfterSeconds result) as [n|]; [destruct (n <? 0) eqn:En; [done|]; apply Z.ltb_ge in En|]; injection H as <- <-; done.
  - intros ((Hm & Hr & Hi & Ht & Hs & Ha) & -> & ->).
    assert (registrationTransportMode (rTransportMode result) requested = Ok (TrimSpace (rTransportMode result))) as ->
      by (by apply registrationTransportMode_ok). cbn [mbind res_bind].
    apply is_empty_false in Hi, Ht. rewrite Hi, Ht. cbn [orb]. cbv zeta. apply Hst in Hs. rewrite Hs.
    destruct (rRetryAfterSeconds result) as [n|]; [|done]. by apply Z.ltb_ge in Ha as ->.
Qed.

(** ** Watching the configuration *)

(** What the watcher remembers after some ticks: the last state it saw. *)
Fixpoint remembered (last : file_stat) (ticks : list (option file_stat * res Config)) : file_stat :=
  match ticks with [] => last | (seen, _) :: rest => remembered (default last seen) rest end.

Lemma watch_tick_memory last seen loaded : (watch_tick last seen loaded).1 = default last seen.
Proof. destruct seen as [s|]; [|done]. cbn. destruct (decide _) as [->|]; done. Qed.

Lemma watch_ticks_app last l1 l2 : watch_ticks last (l1 ++ l2) = watch_ticks last l1 ++ watch_ticks (remembered last l1) l2.
Proof.
  revert last. induction l1 as [|[seen loaded] l1 IH]; intros last; [done|]. cbn [app watch_ticks remembered].
  pose proof (watch_tick_memory last seen loaded) as Hm. destruct (watch_tick last seen loaded) as [last' r]. cbn in Hm. subst last'.
  rewrite IH. by destruct r.
Qed.

Lemma watch_same s loaded n : watch_ticks s (replicate n (Some s, loaded)) = [].
Proof. induction n as [|n IH]; [done|]. cbn. rewrite decide_True by done. done. Qed.

(** C: a configuration that is written while the watcher polls, and then stays, is
    reported exactly once, after everything reported before, whatever failed or was
    half written earlier, provided its time or size differs from what the watcher
    saw last. *)
Theorem watcher_reports_the_final_file (initial : option file_stat) (before : list (option file_stat * res Config)) (s : file_stat)
    (c : Config) (n : nat) :
  remembered (default (mkStat 0 0) initial) before <> s ->
  WatchPath initial (before ++ replicate (S n) (Some s, Ok c)) = WatchPath initial before ++ [c].
Proof.
  intros Hs. unfold WatchPath. rewrite watch_ticks_app. f_equal. cbn [replicate watch_ticks watch_tick].
  rewrite decide_False by (intros ->; done). by rewrite watch_same.
Qed.

(** ** Handing the catalog key to phones *)

Section PublicationFacts.
Context `{Sealed.AEAD} `{!Sealed.AEADLaws} `{Sealed.Curve}.

(** Both ends of X25519 agree on the secret. *)
Context (Hdh : forall a b, Sealed.scalar_mult a (Sealed.scalar_base b) = Sealed.scalar_mult b (Sealed.scalar_base a)).

(** What the phone (pwa/src/crypto/identity.ts) does with a package: the secret of
    its own private key [secret] and the daemon's public key, and the transcript of
    the pairing as it made it. *)
Definition phone_opens (secret deviceID : string) (st : Sealed.Stored) (p : pair_payload) (kp : key_package) : res string :=
  daemonPub ← Sealed.ParseX25519Public (Sealed.st_x25519_public st);
  shared ← Sealed.SharedSecret secret daemonPub;
  wrap ← Sealed.DerivePairWrappingKey shared (pair_transcript deviceID st p);
  Sealed.UnwrapKey wrap (kpNonce kp) (kpWrapped kp).

Definition grants_name_phones (grants : option (list pair_payload)) : Prop :=
  forall gs g, grants = Some gs -> g ∈ gs -> phone_x25519_public g <> "" -> phone_id g <> "".

Lemma publish_paired deviceID stored m rnd grants k p : phone_id p <> "" -> phone_x25519_public p <> "" ->
  publish deviceID stored (Some m) rnd grants (S k) p =
  Some (match wrap_for_phone deviceID stored m (rnd p) p with Ok kp => [kp] | Err _ => [] end).
Proof. intros Hp Hx. apply is_empty_false in Hp, Hx. cbn. by rewrite Hp, Hx. Qed.

(** Two calls deep is as deep as it gets while every grant with a key names its phone. *)
Lemma publish_terminates deviceID stored m rnd grants k p : grants_name_phones grants ->
  is_Some (publish deviceID stored m rnd grants (S (S k)) p).
Proof.
  intros Hg. destruct m as [m|]; [|by eexists]. destruct (is_empty (phone_id p) || is_empty (phone_x25519_public p))%bool eqn:E.
  - remember (S k) as k' eqn:Hk. cbn [publish]. rewrite E. destruct grants as [gs|]; [|by eexists].
    assert (forall g, g ∈ gs -> phone_x25519_public g <> "" -> phone_id g <> "") as Hall by (intros g; by apply (Hg gs g)).
    assert (forall g, phone_id g <> "" -> phone_x25519_public g <> "" ->
      is_Some (publish deviceID stored (Some m) rnd (Some gs) k' (of_grant g))) as Hone.
    { intros g Hp Hx. subst k'. rewrite publish_paired by done. by eexists. }
    clear Hg. revert Hone. generalize (publish deviceID stored (Some m) rnd (Some gs) k'). intros f Hone.
    induction gs as [|g gs IH]; [by eexists|]. destruct (is_empty (phone_x25519_public g)) eqn:Ex.
    + apply IH. intros g' Hin. apply Hall. by right.
    + apply is_empty_false in Ex. destruct (Hone g) as [first Hf]; [apply Hall; [by left|done]|done|]. rewrite Hf.
      destruct IH as [others Ho]; [intros g' Hin; apply Hall; by right|]. cbn. rewrite Ho. by eexists.
  - apply orb_false_elim in E as [E1 E2]. apply is_empty_false in E1, E2. rewrite publish_paired by done. by eexists.
Qed.

Lemma identityLoadSealed_public st id : identityLoadSealed st = Ok id -> Sealed.ParseX25519Public (Sealed.st_x25519_public st) = Ok (Sealed.X25519Public id).
Proof.
  unfold identityLoadSealed. intros E. apply bind_ok in E as (a & _ & E). apply bind_ok in E as (b & _ & E).
  apply bind_ok in E as (x & _ & E). apply bind_ok in E as (y & -> & E). injection E as <-. done.
Qed.

Lemma phone_key_parses x : len x = 32 -> Sealed.ParseX25519Public (B64 x) = Ok x.
Proof. intros Hx. unfold Sealed.ParseX25519Public. rewrite B64Decode_B64. cbn [mbind res_bind]. by rewrite Hx. Qed.

Lemma check_sizes_ok key nonce : len key = Sealed.KeySize -> len nonce = Sealed.NonceSize -> Sealed.check_sizes key nonce = Ok tt.
Proof. unfold Sealed.check_sizes, fail_if. by intros -> ->. Qed.

Lemma Unwrap_Wrap rnd wrap key n : rnd = Ok n -> len n = Sealed.NonceSize -> len wrap = Sealed.KeySize ->
  exists w, Sealed.WrapKey rnd wrap key = Ok w /\ Sealed.UnwrapKey wrap w.1 w.2 = Ok key.
Proof.
  intros -> Hn Hk. pose proof (check_sizes_ok wrap n Hk Hn) as Hs.
  exists (B64 n, B64 (Sealed.gcm_seal wrap n key Sealed.key_package_aad)). split.
  - unfold Sealed.WrapKey, Sealed.RandomNonce, Sealed.random_of, Sealed.Seal. cbn [mbind res_bind]. rewrite Hn, Z.eqb_refl.
    cbn [mbind res_bind]. by rewrite Hs.
  - unfold Sealed.UnwrapKey, Sealed.Open. cbn [fst snd]. rewrite !B64Decode_B64. cbn [mbind res_bind]. rewrite Hs. cbn [mbind res_bind].
    by rewrite Sealed.open_seal.
Qed.

End PublicationFacts.

(** ** Concrete inputs *)

Module Demo.

(** A relay that is never ready: twenty requests, and a sleep after each, the last too. *)
Definition not_yet : DaemonClient.RemoteError := DaemonClient.mkRemote "relay_provisioning" "" 503 0 "" true.
Definition busy (n : nat) : http_result := Answered 503 (Some not_yet) (Ok "{}").

Example busy_relay_sleeps_twenty_times :
  let '(ds, r) := completeDeviceRegistration busy (fun _ => true) in
  List.length ds = 20%nat /\ r = inr (Remote not_yet) /\ last ds = Some (40 * DaemonClient.Second).
Proof. vm_compute. done. Qed.

Lemma registration_proof_binds_every_field_witness :
  registrationProofTranscript "t" " Linux" "e" "x" "AB" "open" = registrationProofTranscript "t" "linux" "e" "x" "ab" "open" /\
  TrimSpace "t" = TrimSpace "t".
Proof.
  assert (registrationProofTranscript "t" " Linux" "e" "x" "AB" "open" = registrationProofTranscript "t" "linux" "e" "x" "ab" "open") as E
    by (vm_compute; reflexivity).
  split; [exact E|].
  apply (registration_proof_binds_every_field "t" " Linux" "e" "x" "AB" "open" "t" "linux" "e" "x" "ab" "open");
    [repeat constructor|repeat constructor|exact E].
Defined.

Lemma watcher_reports_the_final_file_witness :
  let c := mkConfig "wss://relay" "d" "t" "" "open" in
  WatchPath (Some (mkStat 1 10)) ([(None, Err "gone"); (Some (mkStat 2 4), Err "json")] ++ replicate 3 (Some (mkStat 2 12), Ok c)) = [] ++ [c].
Proof.
  cbv zeta. apply (watcher_reports_the_final_file (Some (mkStat 1 10)) [(None, Err "gone"); (Some (mkStat 2 4), Err "json")] (mkStat 2 12)
                    (mkConfig "wss://relay" "d" "t" "" "open") 2). done.
Defined.

(** A commutative stand-in for the curve, and a cipher that authenticates its key
    and its associated data but hides nothing. *)
Definition add_bytes (a b : string) : string := of_codes (zip_with (fun x y => (x + y) mod 256) (codes a) (codes b)).

#[local] Instance curve : Sealed.Curve := {|
  Sealed.ed25519_key := fun s => (s, s);
  Sealed.scalar_base := fun s => s;
  Sealed.scalar_mult := add_bytes;
  Sealed.hkdf_expand := fun secret salt _ _ => Ok (sha256 (secret +:+ salt))
|}.

Lemma add_bytes_comm a b : add_bytes a b = add_bytes b a.
Proof.
  unfold add_bytes. f_equal. generalize (codes a), (codes b). intros l. induction l as [|x l IH]; intros [|y r]; [done..|].
  cbn. by rewrite Z.add_comm, IH.
Qed.

Definition tag (key aad : string) : string := B64 (key +:+ aad) +:+ ".".

#[local] Instance aead : Sealed.AEAD := {|
  Sealed.gcm_seal := fun key _ text aad => tag key aad +:+ text;
  Sealed.gcm_open := fun key _ sealed aad =>
    if has_prefix (tag key aad) sealed then Some (drop_bytes (String.length (tag key aad)) sealed) else None
|}.

Definition not_dot (c : ascii) : bool := negb (code c =? 46).

Lemma pair_cipher_laws : Sealed.AEADLaws.
Proof.
  split.
  - intros key nonce text aad. cbn -[tag]. by rewrite has_prefix_app, drop_prefix.
  - intros key nonce text aad aad' Hne. cbn -[tag]. destruct (has_prefix _ _) eqn:E; [|done]. exfalso. apply Hne.
    apply has_prefix_spec in E as [r E]. unfold tag in E. rewrite <- !string_app_assoc in E.
    apply (delimited_prefix not_dot (B64 (key +:+ aad)) (B64 (key +:+ aad')) "." text r) in E; [|by apply B64_alphabet|by apply B64_alphabet|done].
    destruct E as [E _]. apply (f_equal B64Decode) in E. rewrite !B64Decode_B64 in E. injection E as E.
    apply string_app_split in E as [_ E]; done.
Qed.

Definition key1 : string := "0123456789abcdef0123456789abcdef".
Definition key2 : string := "fedcba9876543210fedcba9876543210".
Definition keys : Sealed.Manager := Sealed.mkManager "" key2 7 ∅ 0 ∅.
Definition stored : Sealed.Stored := Sealed.mkStored (B64 key1) (B64 key1) (B64 key1) (B64 key1) "".
Definition identity : Sealed.Identity := Sealed.mkIdentity key1 key1 key1 key1.
Definition paired : pair_payload := mkPair "phone" (B64 key2) "ed" "123456".
Definition nonces (p : pair_payload) : res string := Ok "0123456789ab".
Definition shared : string := add_bytes key2 key1.
Definition wrapping : string := sha256 (shared +:+ sha256 (pair_transcript "d" stored paired)).


(** A [pair_ready] without a phone makes the daemon post a package for every grant,
    under a transcript without the pair code; posted for the same phone, device and
    epoch it replaces the one the phone could open. *)
Definition nameless : pair_payload := mkPair "" "" "" "".

Example republished_package_does_not_open :
  let g := mkPair "phone" (B64 key2) "ed" "" in
  exists kp, publish "d" (Ok stored) (Some keys) nonces (Some [g]) 2 nameless = Some [kp] /\ kpPhone kp = "phone" /\ kpEpoch kp = 7 /\
    is_ok (phone_opens key2 "d" stored paired kp) = false.
Proof. eexists. split; [vm_compute; reflexivity|]. vm_compute. done. Qed.

(** A grant that has a key and names no phone sends the two functions back to each
    other, whatever else the relay lists: no number of calls is enough. *)
Example grant_without_phone_never_ends gs fuel p :
  phone_id p = "" ->
  publish "d" (Ok stored) (Some keys) nonces (Some (mkPair "" (B64 key2) "ed" "" :: gs)) fuel p = None.
Proof.
  revert p. induction fuel as [|fuel IH]; intros p Hp; [done|]. cbn [publish]. rewrite Hp. cbn [is_empty orb phone_x25519_public].
  assert (is_empty (B64 key2) = false) as -> by (vm_compute; reflexivity). by rewrite IH.
Qed.

End Demo.
