(* ===== verification/NestDatabaseSpec.v ===== *)
(** * What opening a nest's database promises

    The transport mode a nest serves in is the one chosen when its database was
    first opened, until an offline migration seals it; the migration clears all
    content in one transaction, or nothing. *)

From stdpp Require Import base tactics list gmap strings.
From Stdlib Require Import Ascii ZArith Lia.
From S2P Require Import Prelude GoStrings Protocol AccessStore NestDatabase.
From S2P Require Relay PromptStore.

Definition mode_row (d : database) : option string := schema_meta d !! "transport_mode".

(** What a nest holds besides [schema_meta]. *)
Definition content (d : database)
  : tables * gmap (string * string * string) Relay.SessionMessage * PromptStore.promptTable :=
  (access d, session_messages d, prompt_commands d).

Definition is_migration (op : db_op) : bool := match op with MigrateV1 _ _ _ _ _ => true | Start _ _ _ _ => false end.

(** How the row of the mode may change: chosen once, and sealed by a migration. *)
Definition row_steps (migrated : bool) (o o' : option string) : Prop :=
  o' = o \/ o = None \/ (migrated = true /\ o' = Some "sealed").

#[export] Instance row_steps_refl b : Reflexive (row_steps b).
Proof. intros o. by left. Qed.

Lemma row_steps_trans b1 b2 o1 o2 o3 : row_steps b1 o1 o2 -> row_steps b2 o2 o3 -> row_steps (b1 || b2) o1 o3.
Proof.
  intros [->|[->|[-> ->]]] [->|[H|[-> ->]]]; unfold row_steps; subst; rewrite ?orb_true_r; try naive_solver.
Qed.

(** Only the two modes are ever parsed. *)
Lemma parsed_mode raw m : ParseTransportMode raw = Ok m -> m = TransportSealed \/ m = TransportOpen.
Proof. unfold ParseTransportMode. repeat case_match; naive_solver. Qed.

Lemma mode_text_parses m : m = TransportSealed \/ m = TransportOpen -> ParseTransportMode (transport_text m) = Ok m.
Proof. by intros [-> | ->]. Qed.

Lemma parse_requested_mode req r : parse_requested req = Ok (Some r) -> r = TransportSealed \/ r = TransportOpen.
Proof.
  unfold parse_requested. case_match; [done|]. destruct (ParseTransportMode (TrimSpace req)) eqn:E; [|done].
  intros [= ->]. by eapply parsed_mode.
Qed.

Lemma initializeTransportMode_chosen f pre req meta mode meta' :
  initializeTransportMode f pre req meta = Ok (mode, meta') ->
  (exists raw, meta' !! "transport_mode" = Some raw /\ ParseTransportMode raw = Ok mode) /\
  (meta' !! "transport_mode" = meta !! "transport_mode" \/ meta !! "transport_mode" = None) /\
  (parse_requested req = Ok None \/ parse_requested req = Ok (Some mode)).
Proof.
  unfold initializeTransportMode. destruct (parse_requested req) as [req'|e] eqn:Er; [|done]. cbn.
  destruct (ioSelect f); [done|]. cbn. destruct (meta !! "transport_mode") as [stored|] eqn:El.
  - destruct (ParseTransportMode stored) as [m|] eqn:Ep; [|done].
    destruct req' as [r|]; [case_bool_decide; [|done]|]; intros [= -> <-]; subst; eauto 10.
  - assert (Hins : forall m, m = TransportSealed \/ m = TransportOpen ->
      fail_io (ioInsert f) (Ok (m, <["transport_mode" := transport_text m]> meta)) = Ok (mode, meta') ->
      m = mode /\ exists raw, meta' !! "transport_mode" = Some raw /\ ParseTransportMode raw = Ok mode).
    { intros m Hm. destruct (ioInsert f); [done|]. intros [= -> <-]. split; [done|].
      exists (transport_text mode). rewrite lookup_insert_eq. split; [done|]. by apply mode_text_parses. }
    destruct req' as [r|].
    + destruct (pre && _)%bool; [done|]. cbn. intros [-> Hraw]%Hins; [|by eapply parse_requested_mode]. eauto.
    + intros [_ Hraw]%Hins; [eauto|]. destruct pre; auto.
Qed.

Lemma ensureSchemaVersion_mode meta : ensureSchemaVersion meta !! "transport_mode" = meta !! "transport_mode".
Proof. unfold ensureSchemaVersion. repeat case_match; by rewrite ?lookup_insert_ne. Qed.

Lemma bootstrap_keeps f pre req d r d' :
  bootstrapTransportMode f pre req d = (r, d') ->
  content d' = content d /\ hasTables d' = hasTables d /\ row_steps false (mode_row d) (mode_row d') /\
  forall m, r = Ok m ->
    (exists raw, mode_row d' = Some raw /\ ParseTransportMode raw = Ok m) /\
    (parse_requested req = Ok None \/ parse_requested req = Ok (Some m)).
Proof.
  unfold bootstrapTransportMode. destruct (ioBegin f); cbn; [by intros [= <- <-]|].
  destruct (initializeTransportMode _ _ _ _) as [[m meta]|e] eqn:Ei; [|by intros [= <- <-]].
  apply initializeTransportMode_chosen in Ei as (Hraw & Hrow & Hreq).
  destruct (ioCommit f); intros [= <- <-]; [done|]. split_and!; [done|done| |].
  - unfold row_steps, mode_row. cbn. naive_solver.
  - by intros m' [= <-].
Qed.

Lemma migrate_keeps f d r d' :
  migrate f d = (r, d') -> content d' = content d /\ mode_row d' = mode_row d.
Proof.
  destruct f; intros [= <- <-]; [|done]. split; [done|]. apply ensureSchemaVersion_mode.
Qed.

Lemma NewWithTransportMode_keeps f req d r d' :
  NewWithTransportMode f req d = (r, d') ->
  content d' = content d /\ row_steps false (mode_row d) (mode_row d') /\
  (r = Ok tt -> exists raw m, mode_row d' = Some raw /\ ParseTransportMode raw = Ok m /\
    (parse_requested req = Ok None \/ parse_requested req = Ok (Some m))).
Proof.
  unfold NewWithTransportMode. destruct (ioPrepare f); [by intros [= <- <-]|].
  destruct (ioHasTables f); [by intros [= <- <-]|].
  destruct (bootstrapTransportMode _ _ _ _) as [[m|e] d1] eqn:Eb; apply bootstrap_keeps in Eb as (Hc & _ & Hrow & Hm).
  - destruct (Hm m eq_refl) as [(raw & Hraw & Hp) Hreq].
    destruct (migrate _ _) as [[[]|e] d2] eqn:Em; apply migrate_keeps in Em as [Hc2 Hrow2];
      intros [= <- <-]; rewrite Hc2, Hrow2; (split; [done|]); (split; [done|]); intros _; by eauto 10.
  - intros [= <- <-]. done.
Qed.

(** One start, one migration. *)
Lemma start_server_keeps f secret sel env d r d' :
  start_server f secret sel env d = (r, d') ->
  content d' = content d /\ row_steps false (mode_row d) (mode_row d') /\
  forall m, r = Ok m ->
    (exists raw, mode_row d' = Some raw /\ ParseTransportMode raw = Ok m) /\
    (parse_requested (TrimSpace env) = Ok None \/ parse_requested (TrimSpace env) = Ok (Some m)).
Proof.
  unfold start_server. destruct (NewWithTransportMode _ _ _) as [[[]|e] d1] eqn:En;
    apply NewWithTransportMode_keeps in En as (Hc & Hrow & Hok); [|by intros [= <- <-]].
  destruct secret; [|by intros [= <- <-]]. intros [= <- <-].
  split; [done|]. split; [done|]. destruct (Hok eq_refl) as (raw & m & Hraw & Hp & Hreq).
  unfold StoredTransportMode, mode_row in *. intros m'. rewrite Hraw, Hp. destruct sel; [done|]. cbn.
  pose proof (parsed_mode _ _ Hp) as Hm. unfold SetTransportMode. rewrite (mode_text_parses _ Hm). intros [= <-]. eauto 10.
Qed.

Definition cleared (d d' : database) : Prop :=
  devices (access d') = devices (access d) /\ pair_codes (access d') = ∅ /\ phone_identities (access d') = ∅ /\
  phone_device_grants (access d') = ∅ /\ key_packages (access d') = ∅ /\ push_subscriptions (access d') = ∅ /\
  session_messages d' = ∅ /\ prompt_commands d' = ∅ /\ mode_row d' = Some "sealed".

Lemma runMigrateV1_atomic backup f tx att now d r d' :
  runMigrateV1 backup f tx att now d = (r, d') ->
  (content d' = content d /\ row_steps false (mode_row d) (mode_row d') /\ r <> Ok tt) \/ cleared d d'.
Proof.
  unfold runMigrateV1. destruct backup; [intros [= <- <-]; by left|].
  destruct (NewWithTransportMode _ _ _) as [[[]|e] d1] eqn:En;
    apply NewWithTransportMode_keeps in En as (Hc & Hrow & Hok); [|intros [= <- <-]; by left].
  unfold ClearPlaintextContentForV1. destruct tx; cbn; [intros [= <- <-]; by left|].
  intros [= _ <-]. right. unfold cleared, mode_row, content in *. cbn. injection Hc as -> _ _.
  rewrite lookup_insert_eq. done.
Qed.

Lemma db_step_row op d ev d' :
  db_step op d = (ev, d') -> row_steps (is_migration op) (mode_row d) (mode_row d').
Proof.
  destruct op as [f secret sel env|backup f tx att now]; cbn [db_step is_migration].
  - destruct (start_server _ _ _ _ _) as [r d1] eqn:Es. apply start_server_keeps in Es as (_ & Hrow & _).
    by destruct r; intros [= <- <-].
  - destruct (runMigrateV1 _ _ _ _ _ _) as [r d1] eqn:Em. apply runMigrateV1_atomic in Em.
    assert (row_steps true (mode_row d) (mode_row d1)).
    { destruct Em as [(_ & [H|[H|[? _]]] & _)|H]; [by left|by right; left|done|].
      right; right. split; [done|]. by destruct H as (_ & _ & _ & _ & _ & _ & _ & _ & H). }
    by destruct r; intros [= <- <-].
Qed.

(** What a served mode says of the row, and of what was asked for. *)
Lemma db_step_served op d m d' :
  db_step op d = (Served m, d') ->
  exists raw f secret sel env, mode_row d' = Some raw /\ ParseTransportMode raw = Ok m /\ op = Start f secret sel env /\
    (parse_requested (TrimSpace env) = Ok None \/ parse_requested (TrimSpace env) = Ok (Some m)).
Proof.
  destruct op as [f secret sel env|backup f tx att now]; cbn [db_step].
  - destruct (start_server _ _ _ _ _) as [r d1] eqn:Es. apply start_server_keeps in Es as (_ & _ & Hok).
    destruct r as [m'|]; intros [= <- <-]. destruct (Hok _ eq_refl) as [(raw & Hraw & Hp) Hreq]. by eauto 10.
  - by destruct (runMigrateV1 _ _ _ _ _ _) as [[] d1].
Qed.

Lemma db_run_cons op ops d :
  db_run (op :: ops) d =
    ((db_step op d).1 :: (db_run ops (db_step op d).2).1, (db_run ops (db_step op d).2).2).
Proof. cbn. destruct (db_step op d) as [ev d1]. cbn. by destruct (db_run ops d1). Qed.

Lemma db_run_served ops d j m :
  (db_run ops d).1 !! j = Some (Served m) ->
  exists raw op f secret sel env, row_steps (existsb is_migration (take j ops)) (mode_row d) (Some raw) /\
    ParseTransportMode raw = Ok m /\ ops !! j = Some op /\ op = Start f secret sel env /\
    (parse_requested (TrimSpace env) = Ok None \/ parse_requested (TrimSpace env) = Ok (Some m)).
Proof.
  revert d j. induction ops as [|op ops IH]; intros d j; [done|]. rewrite db_run_cons.
  destruct (db_step op d) as [ev d1] eqn:Es. pose proof (db_step_row _ _ _ _ Es) as Hrow. destruct j as [|j]; cbn.
  - intros [= ->]. apply db_step_served in Es as (raw & f & secret & sel & env & Hraw & Hp & -> & Hreq).
    exists raw, (Start f secret sel env), f, secret, sel, env. rewrite <- Hraw. done.
  - intros H. destruct (IH d1 j H) as (raw & op' & f & secret & sel & env & Hs & Hrest). exists raw, op', f, secret, sel, env.
    split; [|done]. by eapply row_steps_trans.
Qed.

(** C16: A nest never changes its transport mode by itself: over any starts and
    migrations, however their statements fail, a start serves in the mode of
    every earlier start, unless a migration came between and it serves sealed;
    and a start with a mode configured serves in that mode or is refused. *)
Theorem transport_mode_is_pinned ops d j m :
  (db_run ops d).1 !! j = Some (Served m) ->
  (forall i m0, (i < j)%nat -> (db_run ops d).1 !! i = Some (Served m0) ->
     m = m0 \/ (m = TransportSealed /\ exists k op, (i < k < j)%nat /\ ops !! k = Some op /\ is_migration op = true)) /\
  exists f secret sel env, ops !! j = Some (Start f secret sel env) /\
    (parse_requested (TrimSpace env) = Ok None \/ parse_requested (TrimSpace env) = Ok (Some m)).
Proof.
  intros Hj. split; [|destruct (db_run_served _ _ _ _ Hj) as (raw & op & f & secret & sel & env & _ & _ & Hop & -> & Hreq); eauto 10].
  revert d j Hj. induction ops as [|op ops IH]; intros d j Hj i m0 Hij Hi; [done|].
  rewrite db_run_cons in Hi, Hj. destruct (db_step op d) as [ev d1] eqn:Es. destruct j as [|j]; [lia|]. cbn in Hi, Hj.
  destruct i as [|i]; cbn in Hi.
  - injection Hi as ->. apply db_step_served in Es as (raw0 & _ & _ & _ & _ & Hraw0 & Hp0 & _).
    destruct (db_run_served _ _ _ _ Hj) as (raw & _ & _ & _ & _ & _ & Hs & Hp & _). rewrite Hraw0 in Hs.
    destruct Hs as [E|[E|[Hmig E]]]; [|done|]; injection E as ->;
      [left; rewrite Hp0 in Hp; by injection Hp|right].
    split; [by injection Hp as <-|]. apply existsb_exists in Hmig as (op' & Hin & Hop').
    apply list_elem_of_In, list_elem_of_lookup in Hin as [k Hk]. apply lookup_take_Some in Hk as [Hk Hlt].
    exists (S k), op'. split; [lia|done].
  - destruct (IH d1 j Hj i m0 ltac:(lia) Hi) as [->|[-> (k & op' & Hk & Hop')]]; [by left|right].
    split; [done|]. exists (S k), op'. split; [lia|done].
Qed.

(** The migration to version 1 is all or nothing: it leaves all content as it
    was and does not succeed, or all content but the device rows is gone and the
    nest is sealed; a start never touches the content. *)
Theorem migration_is_atomic op d :
  let '(ev, d') := db_step op d in
  match op with
  | Start _ _ _ _ => content d' = content d
  | MigrateV1 _ _ _ _ _ => (content d' = content d /\ ev <> Cleared) \/ cleared d d'
  end.
Proof.
  destruct (db_step op d) as [ev d'] eqn:Es. destruct op as [f secret sel env|backup f tx att now]; cbn in Es.
  - destruct (start_server _ _ _ _ _) as [r d1] eqn:E. apply start_server_keeps in E as (Hc & _).
    by destruct r; injection Es as <- <-.
  - destruct (runMigrateV1 _ _ _ _ _ _) as [r d1] eqn:E. apply runMigrateV1_atomic in E.
    destruct r as [[]|e]; injection Es as <- <-; destruct E as [(Hc & _ & Hr)|Hcl]; try (by right); by left.
Qed.

(** ** A concrete nest *)

Definition opens : open_io := mkOpenIO None None mode_ok Migrates None.
Definition no_secret : res (string * bool) := Ok ("", false).
Definition empty_database : database := mkDatabase false ∅ empty_tables ∅ ∅.
Definition legacy_database : database := mkDatabase true ∅ empty_tables ∅ ∅.

(** A new nest is sealed; a nest from before the modes is open, refuses to be
    started as sealed, and is sealed after the migration. *)
Lemma transport_mode_is_pinned_witness :
  (db_run [Start opens no_secret None ""] empty_database).1 = [Served TransportSealed] /\
  exists e, (db_run [Start opens no_secret None "open"; Start opens no_secret None " sealed "; MigrateV1 None opens None None "now"; Start opens no_secret None ""]
               legacy_database).1 = [Served TransportOpen; Refused e; Cleared; Served TransportSealed] /\
  exists k, (0 < k < 3)%nat.
Proof.
  split; [by vm_compute|]. eexists. split; [vm_compute; reflexivity|].
  pose proof (transport_mode_is_pinned
    [Start opens no_secret None "open"; Start opens no_secret None " sealed "; MigrateV1 None opens None None "now"; Start opens no_secret None ""]
    legacy_database 3 TransportSealed) as Hpin.
  destruct Hpin as [Hpin _]; [vm_compute; reflexivity|].
  destruct (Hpin 0%nat TransportOpen) as [H|[_ (k & _ & Hk & _)]]; [lia|vm_compute; reflexivity|discriminate H|].
  exists k. exact Hk.
Defined.
