(* ===== verification/WebPushSpec.v ===== *)
(** * What push delivery promises

    A delivery connects to public addresses only: [rejectIP] is exactly the list
    of reserved blocks below, and every address that is dialled has passed it.
    The queue in front of the workers is bounded. *)

From stdpp Require Import base tactics list sets strings.
From Stdlib Require Import Ascii ZArith Lia.
From S2P Require Import Prelude GoStrings WebPush.

(** ** Address blocks, as CIDR: a base and a prefix length *)

Definition mask_byte (n : nat) : Z := 256 - 2 ^ (8 - Z.of_nat n).

Fixpoint in_prefix (n : nat) (ip base : list Z) : bool :=
  match ip, base with
  | b :: ip, c :: base =>
    if (8 <=? n)%nat then ((b =? c) && in_prefix (n - 8) ip base)%bool
    else (Z.land b (mask_byte n) =? c)
  | [], [] => true
  | _, _ => false
  end.

Definition v4_blocks : list (list Z * nat) :=
  [([0;0;0;0], 32%nat); ([10;0;0;0], 8%nat); ([100;64;0;0], 10%nat); ([127;0;0;0], 8%nat); ([169;254;0;0], 16%nat);
   ([172;16;0;0], 12%nat); ([192;168;0;0], 16%nat); ([224;0;0;0], 4%nat)].

Definition v6_blocks : list (list Z * nat) :=
  [(zeros 16, 128%nat); (zeros 15 ++ [1], 128%nat); (252 :: zeros 15, 7%nat); ([254; 128] ++ zeros 14, 10%nat);
   (255 :: zeros 15, 8%nat)].

Definition in_blocks (blocks : list (list Z * nat)) (ip : list Z) : bool :=
  existsb (fun bn => in_prefix bn.2 ip bn.1) blocks.

(** An IPv4 address may be written in sixteen bytes. *)
Definition internal (ip : IP) : bool :=
  match To4 ip with
  | Some (a, b, c, d) => in_blocks v4_blocks [a; b; c; d]
  | None => in_blocks v6_blocks ip
  end.

(** Four or sixteen bytes. *)
Definition address (ip : IP) : Prop :=
  (length ip = 4%nat \/ length ip = 16%nat) /\ Forall (fun b => 0 <= b < 256) ip.

(** A fact of bytes is checked on all of them. *)
Lemma by_bytes (P : Z -> bool) : forallb P (seqZ 0 256) = true -> forall b, 0 <= b < 256 -> P b = true.
Proof. rewrite forallb_forall. intros H b Hb. apply H, list_elem_of_In, elem_of_seqZ. lia. Qed.

Ltac by_bytes b :=
  let Hb := fresh in intros Hb; apply Bool.eqb_prop; revert b Hb; refine (by_bytes (fun b => Bool.eqb _ _) _);
  vm_compute; reflexivity.

Lemma in_prefix_whole ip base n : n = (8 * length base)%nat -> in_prefix n ip base = bool_decide (ip = base).
Proof.
  revert ip n. induction base as [|c base IH]; intros [|b ip] n Hn; cbn [in_prefix]; try done.
  replace (8 <=? n)%nat with true by (symmetry; apply Nat.leb_le; cbn in Hn; lia).
  rewrite IH by (cbn in Hn; lia). destruct (Z.eqb_spec b c) as [->|Hne]; cbn.
  - by repeat case_bool_decide; simplify_eq.
  - rewrite bool_decide_false; [done|]. congruence.
Qed.

Definition rejected (ip : IP) : bool := negb (is_ok (rejectIP ip)).

(** Every comparison one way and the other; constants are compared at once. *)
Ltac bool_cases :=
  repeat (match goal with |- context[?x =? ?y] => first [is_var x; destruct (Z.eqb_spec x y); [subst|]|destruct (x =? y)] end;
          cbn -[Z.land]; try reflexivity).

Lemma shared_address_block b : 0 <= b < 256 -> ((64 <=? b) && (b <=? 127))%bool = (Z.land b 192 =? 64).
Proof. by_bytes b. Qed.

Lemma rejected_v4 ip a b c d :
  To4 ip = Some (a, b, c, d) -> length ip <> 0%nat -> 0 <= b < 256 -> rejected ip = in_blocks v4_blocks [a; b; c; d].
Proof.
  intros H4 Hlen Hb. unfold rejected, rejectIP, IsLoopback, IsPrivate, IsLinkLocalUnicast, IsLinkLocalMulticast,
    IsUnspecified, IsMulticast, Equal. rewrite H4. replace (Z.of_nat (length ip) =? 0) with false by lia.
  replace (To4 (IPv4 0 0 0 0)) with (Some (0, 0, 0, 0)) by reflexivity.
  replace (To4 (zeros 16)) with (@None (Z * Z * Z * Z)) by reflexivity.
  unfold in_blocks, v4_blocks. cbn -[Z.land Z.eqb mask_byte bool_decide]. unfold mask_byte.
  change (256 - 2 ^ (8 - 0)) with 0. rewrite !Z.land_0_r.
  rewrite <- (andb_assoc (a =? 100)). rewrite (shared_address_block b Hb).
  replace (bool_decide ((a, b, c, d) = (0, 0, 0, 0))) with ((a =? 0) && (b =? 0) && (c =? 0) && (d =? 0))%bool.
  - change (256 - 2 ^ (8 - Z.of_nat 2)) with 192. change (256 - 2 ^ (8 - Z.of_nat 4)) with 240. bool_cases.
  - case_bool_decide as E; [by simplify_eq|]. apply Bool.not_true_iff_false. rewrite !andb_true_iff, !Z.eqb_eq. naive_solver.
Qed.

Lemma rejected_v6 ip : To4 ip = None -> length ip = 16%nat -> rejected ip = in_blocks v6_blocks ip.
Proof.
  intros H4 Hlen. unfold rejected, rejectIP, IsLoopback, IsPrivate, IsLinkLocalUnicast, IsLinkLocalMulticast,
    IsUnspecified, IsMulticast, Equal. rewrite H4, Hlen. change (Z.of_nat 16 =? 0) with false.
  replace (To4 (IPv4 0 0 0 0)) with (Some (0, 0, 0, 0)) by reflexivity.
  replace (To4 (zeros 16)) with (@None (Z * Z * Z * Z)) by reflexivity.
  replace (To4 (zeros 15 ++ [1])) with (@None (Z * Z * Z * Z)) by reflexivity.
  unfold in_blocks, v6_blocks. cbn [existsb fst snd].
  rewrite (in_prefix_whole ip (zeros 16)), (in_prefix_whole ip (zeros 15 ++ [1])) by reflexivity.
  generalize (bool_decide (ip = zeros 16)), (bool_decide (ip = zeros 15 ++ [1])). intros unspecified loopback.
  destruct ip as [|b0 [|b1 ip]]; try done. unfold ip_byte. cbn -[Z.land Z.eqb].
  change (mask_byte 7) with 254. change (mask_byte 2) with 192. change (mask_byte 0) with 0.
  change (Z.of_nat 16 =? 16) with true. rewrite Z.land_0_r. destruct unspecified, loopback; bool_cases.
Qed.

Lemma To4_byte ip a b c d : To4 ip = Some (a, b, c, d) -> b ∈ ip.
Proof.
  assert (Hlong : forall q, (if bool_decide (take 12 ip = v4_prefix) then q else None) = Some (a, b, c, d) ->
                            q = match drop 12 ip with [x; y; z; w] => Some (x, y, z, w) | _ => None end -> b ∈ ip).
  { intros q Hq ->. case_bool_decide; [|done]. rewrite <- (take_drop 12 ip).
    destruct (drop 12 ip) as [|x [|y [|z [|w [|]]]]]; simplify_eq. set_solver. }
  unfold To4. destruct ip as [|x [|y [|z [|w [|v ip]]]]]; intros E; try (by eapply Hlong).
  simplify_eq. set_solver.
Qed.

(** The check is exactly the list of blocks. *)
Lemma rejectIP_exact ip : address ip -> rejected ip = internal ip.
Proof.
  intros [Hlen Hb]. unfold internal. destruct (To4 ip) as [[[[a b] c] d]|] eqn:E4.
  - eapply rejected_v4; [exact E4|lia|]. rewrite Forall_forall in Hb. by eapply Hb, To4_byte.
  - destruct Hlen as [H4|H16]; [|by apply rejected_v6].
    by destruct ip as [|x [|y [|z [|w [|]]]]].
Qed.

(** ** Dialling *)

Lemma dial_connected connect last ips ip :
  dial connect last ips = Ok ip -> ip ∈ ips /\ rejected ip = false /\ connect ip = None.
Proof.
  revert last. induction ips as [|x ips IH]; intros last; cbn; [done|]. unfold rejected.
  destruct (rejectIP x) eqn:Er; [destruct (connect x) eqn:Ec|]; try (intros H; destruct (IH _ H) as (? & ? & ?); by repeat split; try right).
  intros [= <-]. rewrite Er. split; [left|done].
Qed.

Lemma dial_tries connect last ips ip :
  ip ∈ ips -> rejected ip = false -> connect ip = None -> is_ok (dial connect last ips) = true.
Proof.
  revert last. induction ips as [|x ips IH]; intros last Hin Hr Hc; [by apply not_elem_of_nil in Hin|].
  cbn. unfold rejected in Hr. apply elem_of_cons in Hin as [->|Hin].
  - destruct (rejectIP x); [|done]. by rewrite Hc.
  - destruct (rejectIP x); [destruct (connect x); [|done]|]; by apply IH.
Qed.

(** C17: A push delivery never connects into the host or its network: whatever the
    endpoint's name resolves to, the address connected to is one of the
    resolved ones and in none of the reserved blocks; and if one of them is
    public and reachable, a connection is made. *)
Theorem push_dials_public_addresses resolved connect ips :
  resolved = Ok ips -> Forall address ips ->
  match DialContext resolved connect with
  | Ok ip => ip ∈ ips /\ internal ip = false /\ connect ip = None
  | Err _ => forall ip, ip ∈ ips -> internal ip = false -> connect ip <> None
  end.
Proof.
  intros -> Hall. unfold DialContext. cbn. rewrite Forall_forall in Hall.
  destruct (dial connect None ips) as [ip|e] eqn:Ed.
  - destruct (dial_connected _ _ _ _ Ed) as (Hin & Hr & Hc). rewrite rejectIP_exact in Hr by auto. done.
  - intros ip Hin Hpub Hc. rewrite <- rejectIP_exact in Hpub by auto.
    pose proof (dial_tries _ None _ _ Hin Hpub Hc) as Hok. by rewrite Ed in Hok.
Qed.

(** A name that resolves to the loopback address, to a private one and to a
    public one: the public one is dialled. *)
Lemma push_dials_public_addresses_witness :
  DialContext (Ok [[127; 0; 0; 1]; IPv4 192 168 1 2; [93; 184; 216; 34]]) (fun _ => None) = Ok [93; 184; 216; 34] /\
  internal [93; 184; 216; 34] = false.
Proof.
  split; [vm_compute; reflexivity|].
  pose proof (push_dials_public_addresses (Ok [[127; 0; 0; 1]; IPv4 192 168 1 2; [93; 184; 216; 34]]) (fun _ => None)
    _ eq_refl) as H.
  destruct H as (_ & H & _); [|exact H].
  repeat constructor; try (by left); try (by right); cbn; lia.
Defined.

(** ** The queue *)

Lemma enqueueNotification_bounded queue job ok queue' :
  (length queue <= pushQueueCapacity)%nat -> enqueueNotification queue job = (ok, queue') ->
  (length queue' <= pushQueueCapacity)%nat /\ queue' = queue ++ (if ok then [job] else []).
Proof.
  unfold enqueueNotification. intros Hle. destruct (Nat.ltb_spec (length queue) pushQueueCapacity); intros [= <- <-].
  - rewrite length_app. cbn. split; [lia|done].
  - rewrite app_nil_r. split; [lia|done].
Qed.
