(* ===== verification/HostService.v ===== *)
(** * The host service (daemon/internal/hostsvc, daemon/cmd/daemon/lifecycle.go,
    instance_lock.go, and the start of main.go)

    The commands that install, start and query the current user's supervisor, the
    texts handed to systemd and to Windows, the claim of a managed process and the
    lock of an instance. The manager is the one of Linux; what the file system and
    [systemctl] answer are arguments. *)

From stdpp Require Import base tactics list gmap strings.
From Stdlib Require Import Ascii ZArith Lia.
From S2P Require Import Prelude GoStrings GoPath Sha256.
From S2P Require CodexAppServer.

(** ** Strings *)

Definition double_quote : ascii := byte_of 34.
Definition backslash : ascii := byte_of 92.
Definition percent : ascii := byte_of 37.
Definition apostrophe : ascii := byte_of 39.
Definition space : ascii := byte_of 32.
Definition tab : ascii := byte_of 9.
Definition newline : ascii := byte_of 10.

Definition one (c : ascii) : string := String c EmptyString.

(** [strings.ReplaceAll] of one byte. *)
Fixpoint ReplaceAll (c : ascii) (new s : string) : string :=
  match s with
  | EmptyString => EmptyString
  | String d s' => (if Ascii.eqb d c then new else one d) +:+ ReplaceAll c new s'
  end.

(** [strings.ContainsAny] of single bytes. *)
Definition ContainsAny (s : string) (chars : list ascii) : bool := existsb (fun c => contains_byte c s) chars.

(** [strings.Cut] at one byte. *)
Fixpoint Cut (sep : ascii) (s : string) : option (string * string) :=
  match s with
  | EmptyString => None
  | String c s' =>
    if Ascii.eqb c sep then Some (EmptyString, s')
    else match Cut sep s' with Some (before, after) => Some (String c before, after) | None => None end
  end.

Definition join_lines (sep : string) (ls : list string) : string := CodexAppServer.join_strings sep ls.

(** ** The command line *)

Definition Commands : list string := ["install"; "uninstall"; "start"; "stop"; "status"].

Fixpoint FindCommand (args : list string) : option string :=
  match args with
  | [] => None
  | arg :: rest =>
    if String.eqb arg "--" then None
    else if (String.eqb arg "-config" || String.eqb arg "--config")%bool then
      match rest with [] => None | _ :: rest' => FindCommand rest' end
    else if (has_prefix "-config=" arg || has_prefix "--config=" arg)%bool then FindCommand rest
    else if has_prefix "-" arg then None
    else if bool_decide (arg ∈ Commands) then Some arg
    else None
  end.

Fixpoint ArgsWithoutCommand (args : list string) (cmd : string) : list string :=
  match args with
  | [] => []
  | arg :: rest => if String.eqb arg cmd then rest else arg :: ArgsWithoutCommand rest cmd
  end.

(** [flag.FlagSet.Parse] with the one string flag [config]: its value and the
    arguments left over. *)
Inductive flags : Type :=
  | Parsed (config : string) (rest : list string)
  | HelpWanted
  | BadFlags (e : string).

Definition flag_name (arg : string) : string :=
  match arg with
  | String _ (String c s) => if Ascii.eqb c "-" then s else String c s
  | _ => EmptyString
  end.

Fixpoint parse_flags (config : string) (args : list string) : flags :=
  match args with
  | [] => Parsed config []
  | arg :: rest =>
    if ((len arg <? 2) || negb (has_prefix "-" arg))%bool then Parsed config args
    else if String.eqb arg "--" then Parsed config rest
    else
      let name := flag_name arg in
      match name with
      | EmptyString => BadFlags ("bad flag syntax: " +:+ arg)
      | String c s =>
        if (Ascii.eqb c "-" || Ascii.eqb c "=")%bool then BadFlags ("bad flag syntax: " +:+ arg)
        else
          let '(key, value) := match Cut "=" s with Some (k, v) => (String c k, Some v) | None => (name, None) end in
          if negb (String.eqb key "config") then
            if (String.eqb key "help" || String.eqb key "h")%bool then HelpWanted
            else BadFlags ("flag provided but not defined: -" +:+ key)
          else
            match value, rest with
            | Some v, _ => parse_flags v rest
            | None, v :: rest' => parse_flags v rest'
            | None, [] => BadFlags ("flag needs an argument: -" +:+ key)
            end
      end
  end.

Definition parseHostServiceFlags (args : list string) : flags :=
  match parse_flags "" args with
  | Parsed config [] => Parsed config []
  | Parsed _ rest => BadFlags ("unexpected arguments: " +:+ join_lines " " rest)
  | f => f
  end.

(** ** Texts for the supervisors *)

Definition quoteSystemdArg (value : string) : string :=
  match value with
  | EmptyString => value
  | _ =>
    let value := ReplaceAll percent "%%" value in
    if ContainsAny value [space; tab; double_quote; apostrophe; backslash] then
      let escaped := ReplaceAll double_quote (String backslash (one double_quote))
                       (ReplaceAll backslash (String backslash (one backslash)) value) in
      String double_quote (escaped +:+ one double_quote)
    else value
  end.

Definition validateSupervisorPath (label value : string) : res unit :=
  if ContainsAny value [byte_of 0; byte_of 13; byte_of 10] then Err (label +:+ " path contains an unsupported control character")
  else Ok tt.

Definition psSingleQuote (value : string) : string :=
  String apostrophe (ReplaceAll apostrophe (String apostrophe (one apostrophe)) value +:+ one apostrophe).

Definition vbsStringLiteral (value : string) : string :=
  String double_quote (ReplaceAll double_quote (String double_quote (one double_quote)) value +:+ one double_quote).

Definition managedPIDEnvironment : string := "NEKONEST_HOST_SERVICE_PID_FILE".

Definition RenderWindowsLauncher (taskName exe workDir arguments : string) : string :=
  let commandLine := String double_quote (exe +:+ one double_quote) +:+ (if is_empty arguments then "" else " " +:+ arguments) in
  join_lines (String (byte_of 13) (one newline))
    ["Option Explicit"; "Dim shell"; "Dim environment";
     "Set shell = CreateObject(" +:+ String double_quote "WScript.Shell" +:+ String double_quote ")";
     "Set environment = shell.Environment(" +:+ String double_quote "PROCESS" +:+ String double_quote ")";
     "environment(" +:+ vbsStringLiteral managedPIDEnvironment +:+ ") = shell.ExpandEnvironmentStrings("
       +:+ vbsStringLiteral ("%LOCALAPPDATA%\NekoNest\hostsvc\" +:+ taskName +:+ ".pid") +:+ ")";
     "shell.CurrentDirectory = " +:+ vbsStringLiteral workDir;
     "WScript.Quit shell.Run(" +:+ vbsStringLiteral commandLine +:+ ", 0, True)"].

(** The lines of [RenderWindowsTaskScript] that hold its arguments; the PowerShell
    that follows them is a constant per action. *)
Definition windows_task_arguments (taskName exe workDir arguments : string) : list string :=
  ["$ErrorActionPreference = 'Stop'";
   "$taskName = " +:+ psSingleQuote taskName;
   "$exe = " +:+ psSingleQuote exe;
   "$workDir = " +:+ psSingleQuote workDir;
   "$arguments = " +:+ psSingleQuote arguments;
   "$launcherBody = " +:+ psSingleQuote (RenderWindowsLauncher taskName exe workDir arguments)].

(** ** Paths *)

Section Machine.
(** [filepath.Abs], [filepath.EvalSymlinks], [strings.EqualFold], the operating
    system, the temporary directory and the default configuration file. *)
Context (Abs EvalSymlinks : string -> res string) (EqualFold : string -> string -> bool).
Context (GOOS TempDir DefaultConfigPath : string).

Definition serviceBaseName : string := if String.eqb GOOS "windows" then "NekoNestDaemon" else "nekonest-daemon".

Definition CanonicalPath (path : string) : string :=
  let path := TrimSpace path in
  if is_empty path then ""
  else match Abs path with
       | Err _ => Clean path
       | Ok abs => match EvalSymlinks abs with Ok resolved => resolved | Err _ => Clean abs end
       end.

Definition IsDefaultConfigPath (configPath : string) : bool :=
  if is_empty (TrimSpace configPath) then true
  else
    let left := CanonicalPath configPath in
    let right := CanonicalPath DefaultConfigPath in
    if String.eqb GOOS "windows" then EqualFold left right else String.eqb left right.

Definition configFingerprint (configPath : string) : string := take_bytes 8 (hex_encode (sha256 (CanonicalPath configPath))).

Definition ServiceName (configPath : string) : string :=
  if IsDefaultConfigPath configPath then serviceBaseName else serviceBaseName +:+ "-" +:+ configFingerprint configPath.

(** Only ASCII letters have the letters of [downloads] as their lower case. *)
Definition IsEphemeralPath (path : string) : bool :=
  let abs := CanonicalPath path in
  if is_empty abs then false
  else
    let temp := Clean TempDir in
    let inside := match Rel temp abs with
                  | Some rel => (negb (String.eqb rel "..") && negb (has_prefix "../" rel))%bool
                  | None => false
                  end in
    let lower := to_lower abs in
    (inside || contains lower "/downloads/" || has_suffix "/downloads" lower)%bool.

(** The command of the unit. *)
Definition exec_start (exe configPath : string) : string :=
  quoteSystemdArg exe +:+ (if IsDefaultConfigPath configPath then "" else " -config " +:+ quoteSystemdArg configPath).

Definition systemd_lines (exe configPath : string) : list string :=
  ["[Unit]"; "Description=NekoNest host daemon (outbound nest bridge)"; "After=network-online.target";
   "Wants=network-online.target"; ""; "[Service]"; "Type=simple"; "ExecStart=" +:+ exec_start exe configPath;
   "Restart=on-failure"; "RestartSec=5"; ""; "[Install]"; "WantedBy=default.target"; ""].

Definition RenderSystemdUserUnit (exe configPath : string) : string := join_byte newline (systemd_lines exe configPath).

Definition daemonConfigArgs (configPath : string) : string :=
  if IsDefaultConfigPath configPath then ""
  else if ContainsAny configPath [space; tab; double_quote] then
    "-config " +:+ String double_quote (ReplaceAll double_quote (String backslash (one double_quote)) configPath +:+ one double_quote)
  else "-config " +:+ configPath.

(** ** The manager of Linux *)

Record Manager : Type := mkManager { Executable : string; ConfigPath : string; UnitDir : string }.

Definition NewWithRunner (executable configPath unitDir : string) : Manager :=
  let configPath := let p := TrimSpace configPath in if is_empty p then DefaultConfigPath else p in
  let executable := TrimSpace executable in
  mkManager (if is_empty executable then "" else CanonicalPath executable) (CanonicalPath configPath) unitDir.

Definition UnitName (m : Manager) : string := ServiceName (ConfigPath m).
Definition unit_name (m : Manager) : string := UnitName m +:+ ".service".

Definition unitPath (userConfigDir : res string) (home : string) (m : Manager) : string :=
  let dir := if is_empty (UnitDir m)
             then path_joins [match userConfigDir with
                              | Ok d => if is_empty d then path_joins [home; ".config"] else d
                              | Err _ => path_joins [home; ".config"]
                              end; "systemd"; "user"]
             else UnitDir m in
  path_joins [dir; unit_name m].

(** The unit file of the manager and the calls of [systemctl] so far. *)
Record supervisor : Type := mkSupervisor { unit_file : option string; invoked : list (list string) }.

(** How [os.WriteFile] ends: it truncates the file before it writes. *)
Inductive written : Type := Written | NotOpened (e : string) | CutShort (n : nat) (e : string).

(** What one method of the manager meets; [run] may look at the earlier calls. *)
Record answers : Type := mkAnswers {
  run : list (list string) -> list string -> res string;
  mkdir : res unit;
  writing : written;
  removing : option string;
  stating : option string;
  reading : option string
}.

Definition systemctl (o : answers) (args : list string) (w : supervisor) : res string * supervisor :=
  let args := "--user" :: args in
  (run o (invoked w) args, mkSupervisor (unit_file w) (invoked w ++ [args])).

Definition WriteFile (o : answers) (body : string) (w : supervisor) : res unit * supervisor :=
  match writing o with
  | Written => (Ok tt, mkSupervisor (Some body) (invoked w))
  | NotOpened e => (Err e, w)
  | CutShort n e => (Err e, mkSupervisor (Some (take_bytes n body)) (invoked w))
  end.

(** [os.Stat] of the unit: absent, present, or an error. *)
Inductive stat : Type := Absent | Present | Unknown (e : string).
Definition Stat (o : answers) (w : supervisor) : stat :=
  match stating o with
  | Some e => Unknown e
  | None => match unit_file w with Some _ => Present | None => Absent end
  end.

Definition Install (o : answers) (m : Manager) (w : supervisor) : res unit * supervisor :=
  if is_empty (Executable m) then (Err "daemon executable path is required", w)
  else
    match (_ ← validateSupervisorPath "daemon executable" (Executable m); _ ← validateSupervisorPath "config" (ConfigPath m);
           wrap "create systemd user directory: " (mkdir o)) with
    | Err e => (Err e, w)
    | Ok _ =>
      match WriteFile o (RenderSystemdUserUnit (Executable m) (ConfigPath m)) w with
      | (Err e, w) => (Err ("write systemd user unit: " +:+ e), w)
      | (Ok _, w) =>
        match systemctl o ["daemon-reload"] w with
        | (Err e, w) => (Err ("systemctl daemon-reload: " +:+ e), w)
        | (Ok _, w) =>
          match systemctl o ["enable"; unit_name m] w with
          | (Err e, w) => (Err ("systemctl enable: " +:+ e), w)
          | (Ok _, w) => (Ok tt, w)
          end
        end
      end
    end.

(** [os.Remove]: a file that is not there is no error here. *)
Definition Uninstall (o : answers) (m : Manager) (w : supervisor) : res unit * supervisor :=
  let w := (systemctl o ["stop"; unit_name m] w).2 in
  let w := (systemctl o ["disable"; unit_name m] w).2 in
  match removing o with
  | Some e => (Err ("remove systemd user unit: " +:+ e), w)
  | None => (Ok tt, (systemctl o ["daemon-reload"] (mkSupervisor None (invoked w))).2)
  end.

Definition not_installed : string := "host service is not installed; run nekonest-daemon install".

Definition Start (o : answers) (m : Manager) (w : supervisor) : res unit * supervisor :=
  match Stat o w with
  | Absent => (Err not_installed, w)
  | Unknown e => (Err ("stat systemd user unit: " +:+ e), w)
  | Present =>
    let '(r, w) := systemctl o ["start"; unit_name m] w in
    (match r with Ok _ => Ok tt | Err e => Err ("systemctl start: " +:+ e) end, w)
  end.

Definition Stop (o : answers) (m : Manager) (w : supervisor) : res unit * supervisor :=
  match Stat o w with
  | Absent => (Ok tt, w)
  | _ =>
    let '(r, w) := systemctl o ["stop"; unit_name m] w in
    (match r with Ok _ => Ok tt | Err e => Err ("systemctl stop: " +:+ e) end, w)
  end.

(** ** Status *)

Fixpoint exec_start_of (lines : list string) : string :=
  match lines with
  | [] => ""
  | l :: ls =>
    match Cut "=" (TrimSpace l) with
    | Some (key, value) => if String.eqb key "ExecStart" then TrimSpace value else exec_start_of ls
    | None => exec_start_of ls
    end
  end.

Definition parseSystemdExecStart (raw : string) : string := exec_start_of (split_byte newline raw).

(** A later property of a name replaces an earlier one. *)
Definition show_line (props : gmap string string) (line : string) : gmap string string :=
  match Cut "=" (TrimSpace line) with Some (key, value) => <[key := value]> props | None => props end.

Definition parseSystemdShow (raw : string) : gmap string string := foldl show_line ∅ (split_byte newline raw).

Record Status : Type := mkStatus {
  Supported : bool;
  Platform : string;
  Supervisor : string;
  StatusUnit : string;
  Installed : bool;
  Enabled : bool;
  SupervisorState : string;
  StatusExecutable : string;
  StatusConfigPath : string;
  ConfiguredExec : string;
  ConfiguredArgs : string;
  Detail : string
}.

Definition status_with (m : Manager) (installed enabled : bool) (state exec detail : string) : Status :=
  mkStatus true "linux" "systemd_user" (UnitName m) installed enabled state (Executable m) (ConfigPath m) exec "" detail.

Definition prop (props : gmap string string) (key : string) : string := default "" (props !! key).

(** What the properties of [systemctl show] say. *)
Definition read_properties (m : Manager) (installed : bool) (exec detail : string) (props : gmap string string) : Status :=
  let file_state := prop props "UnitFileState" in
  let enabled := bool_decide (file_state ∈ ["enabled"; "enabled-runtime"; "static"; "linked"; "linked-runtime"]) in
  let installed := (installed || enabled || bool_decide (file_state ∈ ["disabled"; "generated"]))%bool in
  let frag := TrimSpace (prop props "FragmentPath") in
  status_with m (installed || negb (is_empty frag))%bool enabled (prop props "ActiveState") exec
    (if (negb (is_empty frag) && is_empty detail)%bool then "unit_file=" +:+ frag else detail).

(** The status, and the error it comes with. *)
Definition StatusOf (o : answers) (m : Manager) (w : supervisor) : Status * option string * supervisor :=
  match Stat o w with
  | Unknown e => (status_with m false false "" "" "", Some ("stat systemd user unit: " +:+ e), w)
  | st =>
    let '(installed, exec, detail) :=
      match st, reading o, unit_file w with
      | Present, Some e, _ => (true, "", "read installed unit: " +:+ e)
      | Present, None, Some body => (true, parseSystemdExecStart body, "")
      | _, _, _ => (false, "", "")
      end in
    let '(r, w) := systemctl o ["show"; unit_name m; "--property=ActiveState"; "--property=UnitFileState"; "--property=FragmentPath"] w in
    match r with
    | Err e => (status_with m installed false "" exec (if installed then e else detail), None, w)
    | Ok stdout => (read_properties m installed exec detail (parseSystemdShow stdout), None, w)
    end
  end.

(** ** The commands *)

(** [runHostServiceCommand]: the code the process exits with. On Linux no error
    is [ErrUnsupported]. *)
Definition runHostServiceCommand (o : answers) (exe : res string) (cmd configFlag : string) (w : supervisor) : Z * supervisor :=
  match exe with
  | Err _ => (1, w)
  | Ok exe =>
    let m := NewWithRunner exe (if is_empty (TrimSpace configFlag) then DefaultConfigPath else configFlag) "" in
    let exit (r : res unit * supervisor) := (match r.1 with Ok _ => 0 | Err _ => 1 end, r.2) in
    if String.eqb cmd "install" then exit (Install o m w)
    else if String.eqb cmd "uninstall" then exit (Uninstall o m w)
    else if String.eqb cmd "start" then exit (Start o m w)
    else if String.eqb cmd "stop" then exit (Stop o m w)
    else if String.eqb cmd "status" then
      let '(_, e, w) := StatusOf o m w in (match e with Some _ => 1 | None => 0 end, w)
    else (2, w)
  end.

Definition runHostServiceCLI (o : answers) (exe : res string) (cmd : string) (args : list string) (w : supervisor) : Z * supervisor :=
  match parseHostServiceFlags (ArgsWithoutCommand args cmd) with
  | HelpWanted => (0, w)
  | BadFlags _ => (2, w)
  | Parsed configFlag _ => runHostServiceCommand o exe cmd configFlag w
  end.
End Machine.

Definition ErrUnsupported : string := "host service management is supported on Windows and Linux only".

Definition yesNo (v : bool) : string := if v then "yes" else "no".
Definition valueOrDash (v : string) : string := if is_empty (TrimSpace v) then "-" else v.

(** What [instanceLockHeld] found. *)
Definition formatHostServiceStatus (st : Status) (lock : res bool) : list string :=
  (if Supported st then [] else [ErrUnsupported]) ++
  ["NekoNest host service";
   "  platform: " +:+ valueOrDash (Platform st);
   "  supervisor: " +:+ valueOrDash (Supervisor st);
   "  unit: " +:+ valueOrDash (StatusUnit st);
   "  installed: " +:+ yesNo (Installed st);
   "  enabled: " +:+ yesNo (Enabled st);
   "  supervisor_state: " +:+ valueOrDash (SupervisorState st);
   "  executable: " +:+ valueOrDash (StatusExecutable st);
   "  config: " +:+ valueOrDash (StatusConfigPath st)] ++
  (if is_empty (ConfiguredExec st) then [] else ["  supervisor_exec: " +:+ ConfiguredExec st]) ++
  (if is_empty (ConfiguredArgs st) then [] else ["  supervisor_args: " +:+ ConfiguredArgs st]) ++
  [match lock with Err e => "  process_lock: unknown (" +:+ e +:+ ")" | Ok true => "  process_lock: held" | Ok false => "  process_lock: free" end] ++
  (if is_empty (Detail st) then [] else ["  detail: " +:+ Detail st]).

(** ** The claim of a managed process *)

Record managedPIDLease : Type := mkLease { PID : Z; StartedAt : Z }.

#[export] Instance managedPIDLease_eq_dec : EqDecision managedPIDLease.
Proof. solve_decision. Defined.

(** The lease file: absent, or what it decodes to; the lease is version 1. *)
Definition pid_file : Type := option (option managedPIDLease).

(** [ClaimManagedProcess]: the lease, [None] when the process is not managed. The
    old file goes before the new one comes. *)
Definition ClaimManagedProcess (f : io) (removed : bool) (environment : string) (lease : managedPIDLease) (file : pid_file)
    : res (option managedPIDLease) * pid_file :=
  let path := TrimSpace environment in
  if is_empty path then (Ok None, file)
  else
    match (_ ← validateSupervisorPath "managed process" path;
           fail_if (negb (has_prefix "/" path)) "managed process path must be absolute";;
           sys f OpMkdirAll ;; sys f OpCreateTemp ;; sys f OpChmodTemp ;; sys f OpWrite ;; sys f OpSync ;; sys f OpClose) with
    | Err e => (Err e, file)
    | Ok _ =>
      match sys f OpRename with
      | Err e => (Err e, if (removed : bool) then None else file)
      | Ok _ => (Ok (Some lease), Some (Some lease))
      end
    end.

(** The function it returns; [once] tells that it has run. *)
Definition release_lease (lease : option managedPIDLease) (once readable removed : bool) (file : pid_file) : bool * pid_file :=
  match lease with
  | None => (once, file)
  | Some mine =>
    if once then (true, file)
    else (true, match file with
                | Some (Some current) =>
                  if (readable && bool_decide (current = mine) && removed)%bool then None else file
                | _ => file
                end)
  end.

(** ** The lock of an instance *)

(** The lock file as the system keeps it: who holds it, by open file. *)
Definition errDaemonInstanceLockHeld : string := "daemon instance lock is held".

Inductive lock_error : Type := LockHeld (e : string) | LockFailed (e : string).

(** [prepared] is how making the directory, opening and chmod end, [flock] an
    error of the system other than contention. *)
Definition acquireDaemonInstanceLock (prepared : res unit) (flock : option string) (who : nat) (holder : option nat)
    : (lock_error + unit) * option nat :=
  match prepared with
  | Err e => (inl (LockFailed e), holder)
  | Ok _ =>
    match flock, holder with
    | Some e, _ => (inl (LockHeld e), holder)
    | None, Some _ => (inl (LockHeld "resource temporarily unavailable"), holder)
    | None, None => (inr tt, Some who)
    end
  end.

(** [Close]: the second call does nothing. *)
Definition lock_close (who : nat) (holder : option nat) : option nat :=
  if bool_decide (holder = Some who) then None else holder.

(** The start of a daemon, the probe of [status] in its two halves, and ends. *)
Inductive lock_event : Type :=
  | DaemonStarts (who : nat) (prepared : res unit) (flock : option string)
  | DaemonEnds (who : nat)
  | ProbeOpens (who : nat) (prepared : res unit) (flock : option string)
  | ProbeCloses (who : nat).

(** Open files have names of their own; [serving] are the daemons past the lock. *)
Record machine : Type := mkMachine { holder : option nat; serving : gset nat; probing : gset nat; used : gset nat; refused : list nat; reports : list (nat * bool) }.

Definition lock_step (ev : lock_event) (w : machine) : option machine :=
  match ev with
  | DaemonStarts who prepared flock =>
    if bool_decide (who ∈ used w) then None
    else Some (match acquireDaemonInstanceLock prepared flock who (holder w) with
               | (inr _, h) => mkMachine h ({[who]} ∪ serving w) (probing w) ({[who]} ∪ used w) (refused w) (reports w)
               | (inl _, h) => mkMachine h (serving w) (probing w) ({[who]} ∪ used w) (refused w ++ [who]) (reports w)
               end)
  | DaemonEnds who =>
    if bool_decide (who ∈ serving w)
    then Some (mkMachine (lock_close who (holder w)) (serving w ∖ {[who]}) (probing w) (used w) (refused w) (reports w))
    else None
  | ProbeOpens who prepared flock =>
    if bool_decide (who ∈ used w) then None
    else Some (match acquireDaemonInstanceLock prepared flock who (holder w) with
               | (inr _, h) => mkMachine h (serving w) ({[who]} ∪ probing w) ({[who]} ∪ used w) (refused w) (reports w)
               | (inl (LockHeld _), h) => mkMachine h (serving w) (probing w) ({[who]} ∪ used w) (refused w) (reports w ++ [(who, true)])
               | (inl (LockFailed _), h) => mkMachine h (serving w) (probing w) ({[who]} ∪ used w) (refused w) (reports w)
               end)
  | ProbeCloses who =>
    if bool_decide (who ∈ probing w)
    then Some (mkMachine (lock_close who (holder w)) (serving w) (probing w ∖ {[who]}) (used w) (refused w) (reports w ++ [(who, false)]))
    else None
  end.

(** ** From the arguments to a daemon that serves *)

(** What the start of the daemon finds, in the order it looks. *)
Record boot : Type := mkBoot {
  config_mode : res string;
  claimed : res (option managedPIDLease);
  environment_mode : string;
  normalized : string -> res string;
  canonical : res string;
  locked : res unit;
  journal_loaded : res unit;
  queue_loaded : res unit;
  thread_journal_loaded : res unit;
  registry_made : res unit
}.

(** The daemon serves, with the queue or without, or exits with 1. *)
Definition boot_daemon (b : boot) : res bool :=
  mode ← config_mode b;
  _ ← claimed b;
  let requested := TrimSpace (environment_mode b) in
  (if is_empty requested then Ok tt
   else m ← normalized b requested; fail_if (negb (String.eqb m mode)) "transport_mode_mismatch");;
  _ ← canonical b;
  locked b;;
  journal_loaded b;;
  let queue := is_ok (queue_loaded b) in
  thread_journal_loaded b;;
  registry_made b;;
  Ok queue.
