(* ===== verification/HostServiceSpec.v ===== *)
(** * What the host service promises

    The unit file says what was meant whatever the paths are, the commands leave
    the unit and the supervisor in step, the verb is told from the arguments, a
    lease is withdrawn only by its owner, and one daemon serves at a time. *)

From stdpp Require Import base tactics list gmap strings.
From Stdlib Require Import Ascii ZArith Lia.
From S2P Require Import Prelude GoStrings GoPath HostService.

(** ** Replacing and searching bytes *)

Lemma free_cons c d s : contains_byte c (String d s) = false <-> d <> c /\ contains_byte c s = false.
Proof. cbn [contains_byte]. by rewrite orb_false_iff, Ascii.eqb_neq. Qed.

Lemma free_app c s t : contains_byte c (s +:+ t) = false <-> contains_byte c s = false /\ contains_byte c t = false.
Proof. by rewrite contains_byte_app, orb_false_iff. Qed.

Lemma ReplaceAll_free c new s d : contains_byte d new = false -> contains_byte d s = false -> contains_byte d (ReplaceAll c new s) = false.
Proof.
  intros Hn. induction s as [|e s IH]; [done|]. rewrite free_cons. intros [He Hs]. cbn [ReplaceAll]. apply free_app.
  split; [|by apply IH]. destruct (Ascii.eqb e c); [done|]. by apply free_cons.
Qed.

Lemma ContainsAny_false s cs : ContainsAny s cs = false <-> Forall (fun c => contains_byte c s = false) cs.
Proof.
  unfold ContainsAny. rewrite <- not_true_iff_false, existsb_exists, Forall_forall. split.
  - intros H c Hc. apply not_true_iff_false. intros Hb. apply H. exists c. split; [by apply list_elem_of_In|done].
  - intros H (c & Hc & Hb). apply list_elem_of_In in Hc. rewrite (H c Hc) in Hb. done.
Qed.

Lemma quoteSystemdArg_free s d : contains_byte d s = false -> d <> double_quote -> d <> backslash -> d <> percent ->
  contains_byte d (quoteSystemdArg s) = false.
Proof.
  intros Hs Hq Hb Hp. unfold quoteSystemdArg. destruct s as [|c s]; [done|]. remember (String c s) as v eqn:Ev. clear Ev c s.
  assert (Hv : contains_byte d (ReplaceAll percent "%%" v) = false) by (apply ReplaceAll_free; [by apply free_cons; split; [|apply free_cons]|done]).
  assert (Hv' : contains_byte d (ReplaceAll double_quote (String backslash (one double_quote))
                  (ReplaceAll backslash (String backslash (one backslash)) (ReplaceAll percent "%%" v))) = false).
  { repeat apply ReplaceAll_free; try done; by repeat (apply free_cons; split). }
  destruct (ContainsAny _ _); [|done]. apply free_cons. split; [done|]. apply free_app. split; [done|]. by apply free_cons.
Qed.

(** ** The words of a command line

    The reading systemd.service documents of the command lines the code writes:
    words end at a space or a tab unless double quotes hold them together, a
    backslash takes a quote or a backslash literally, two percent signs are one. A
    dollar sign behind the first word starts a variable, unless it is doubled. Any
    other use of these characters is not read. *)
Inductive reader : Type := Between | Bare (w : string) | Quoted (w : string).

Definition snoc (w : string) (c : ascii) : string := w +:+ one c.

Definition continue (r : reader) (c : ascii) : reader :=
  match r with Between => Bare (one c) | Bare w => Bare (snoc w c) | Quoted w => Quoted (snoc w c) end.

Fixpoint read_words (first : bool) (r : reader) (s : string) : option (list string) :=
  match s with
  | EmptyString => match r with Between => Some [] | Bare w => Some [w] | Quoted _ => None end
  | String c s' =>
    if Ascii.eqb c percent then
      match s' with String d s'' => if Ascii.eqb d percent then read_words first (continue r percent) s'' else None | EmptyString => None end
    else if (Ascii.eqb c "$" && negb first)%bool then
      match s' with String d s'' => if Ascii.eqb d "$" then read_words first (continue r "$") s'' else None | EmptyString => None end
    else
      match r with
      | Quoted w =>
        if Ascii.eqb c double_quote then cons w <$> read_words false Between s'
        else if Ascii.eqb c backslash then
          match s' with
          | String d s'' => if (Ascii.eqb d backslash || Ascii.eqb d double_quote)%bool then read_words first (Quoted (snoc w d)) s'' else None
          | EmptyString => None
          end
        else read_words first (Quoted (snoc w c)) s'
      | _ =>
        if (Ascii.eqb c space || Ascii.eqb c tab)%bool
        then match r with Bare w => cons w <$> read_words false Between s' | _ => read_words first Between s' end
        else if Ascii.eqb c double_quote then match r with Between => read_words first (Quoted "") s' | _ => None end
        else if (Ascii.eqb c backslash || Ascii.eqb c apostrophe)%bool then None
        else read_words first (continue r c) s'
      end
  end.

Definition exec_words (s : string) : option (list string) := read_words true Between s.

(** ** Quoting is undone by reading *)

Lemma ReplaceAll_app c new s t : ReplaceAll c new (s +:+ t) = ReplaceAll c new s +:+ ReplaceAll c new t.
Proof. induction s as [|d s IH]; [done|]. rewrite string_app_cons. cbn [ReplaceAll]. by rewrite IH, string_app_assoc. Qed.

Definition escape (v : string) : string :=
  ReplaceAll double_quote (String backslash (one double_quote)) (ReplaceAll backslash (String backslash (one backslash)) (ReplaceAll percent "%%" v)).

Definition escape_byte (c : ascii) : string :=
  if Ascii.eqb c percent then "%%"
  else if Ascii.eqb c backslash then String backslash (one backslash)
  else if Ascii.eqb c double_quote then String backslash (one double_quote)
  else one c.

Lemma escape_cons c v : escape (String c v) = escape_byte c +:+ escape v.
Proof.
  unfold escape, escape_byte. cbn [ReplaceAll]. rewrite !ReplaceAll_app. f_equal.
  destruct (Ascii.eqb c percent) eqn:Ep; [done|].
  destruct (Ascii.eqb c backslash) eqn:Eb; [by apply Ascii.eqb_eq in Eb as ->|].
  change (one c) with (String c EmptyString). cbn [ReplaceAll]. rewrite Eb. unfold one. rewrite string_app_cons. cbn [ReplaceAll].
  by destruct (Ascii.eqb c double_quote).
Qed.

(** No variable starts in [v]. *)
Definition no_variable (first : bool) (v : string) : Prop := first = true \/ contains_byte "$" v = false.

Lemma no_variable_cons first c v : no_variable first (String c v) ->
  (Ascii.eqb c "$" && negb first)%bool = false /\ no_variable first v.
Proof.
  unfold no_variable. intros [->|H]; [split; [apply andb_false_r|by left]|].
  apply free_cons in H as [Hc Hv]. apply Ascii.eqb_neq in Hc. rewrite Hc. split; [done|by right].
Qed.

Lemma snoc_app w c v : snoc w c +:+ v = w +:+ String c v.
Proof. unfold snoc, one. by rewrite <- string_app_assoc. Qed.

Lemma read_quoted first v : no_variable first v -> forall w t,
  read_words first (Quoted w) (escape v +:+ t) = read_words first (Quoted (w +:+ v)) t.
Proof.
  induction v as [|c v IH]; intros Hv w t; [by rewrite string_app_nil|].
  apply no_variable_cons in Hv as [Hd Hv]. rewrite escape_cons, <- string_app_assoc, <- (snoc_app w c v), <- IH by done.
  unfold escape_byte. destruct (Ascii.eqb c percent) eqn:Ep; [by apply Ascii.eqb_eq in Ep as ->|].
  destruct (Ascii.eqb c backslash) eqn:Eb; [by apply Ascii.eqb_eq in Eb as ->|].
  destruct (Ascii.eqb c double_quote) eqn:Eq; [by apply Ascii.eqb_eq in Eq as ->|].
  unfold one. rewrite string_app_cons. change (EmptyString +:+ escape v +:+ t) with (escape v +:+ t).
  cbn [read_words]. by rewrite Ep, Hd, Eq, Eb.
Qed.

Definition plain_bytes : list ascii := [space; tab; double_quote; apostrophe; backslash].

Lemma percent_cons c v : ReplaceAll percent "%%" (String c v) = (if Ascii.eqb c percent then "%%" else one c) +:+ ReplaceAll percent "%%" v.
Proof. done. Qed.

(** A byte of an unquoted word. *)
Lemma read_plain_byte first r c t : match r with Quoted _ => False | _ => True end ->
  (Ascii.eqb c "$" && negb first)%bool = false -> Forall (fun b => c <> b) plain_bytes ->
  read_words first r ((if Ascii.eqb c percent then "%%" else one c) +:+ t) = read_words first (continue r c) t.
Proof.
  intros Hr Hd Hc. unfold plain_bytes in Hc. rewrite !Forall_cons in Hc. destruct Hc as (H1 & H2 & H3 & H4 & H5 & _).
  apply Ascii.eqb_neq in H1, H2, H3, H4, H5. destruct (Ascii.eqb c percent) eqn:Ep; [by apply Ascii.eqb_eq in Ep as ->|].
  unfold one. rewrite string_app_cons. change (EmptyString +:+ t) with t. cbn [read_words]. rewrite Ep, Hd, H1, H2, H3, H4, H5.
  by destruct r.
Qed.

Lemma plain_cons c v : Forall (fun b => contains_byte b (String c v) = false) plain_bytes ->
  Forall (fun b => c <> b) plain_bytes /\ Forall (fun b => contains_byte b v = false) plain_bytes.
Proof. intros H. split; eapply Forall_impl; [exact H| |exact H|]; intros b; rewrite free_cons; by intros [? ?]. Qed.

Lemma read_bare first v : no_variable first v -> Forall (fun b => contains_byte b v = false) plain_bytes -> forall w t,
  read_words first (Bare w) (ReplaceAll percent "%%" v +:+ t) = read_words first (Bare (w +:+ v)) t.
Proof.
  induction v as [|c v IH]; intros Hv Hp w t; [by rewrite string_app_nil|].
  apply no_variable_cons in Hv as [Hd Hv]. apply plain_cons in Hp as [Hc Hp].
  rewrite percent_cons, <- string_app_assoc, read_plain_byte by done. cbn [continue].
  by rewrite IH, snoc_app.
Qed.

(** What a word is read to when a space or the end follows. *)
Definition then_words (first : bool) (t : string) : option (list string) :=
  match t with EmptyString => Some [] | String c t' => if Ascii.eqb c space then read_words false Between t' else None end.

Lemma ReplaceAll_percent_plain v b : b <> percent -> contains_byte b (ReplaceAll percent "%%" v) = false -> contains_byte b v = false.
Proof.
  intros Hb. induction v as [|c v IH]; [done|]. rewrite percent_cons, free_app, free_cons. intros [Hc Hv]. split; [|by apply IH].
  destruct (Ascii.eqb c percent) eqn:Ep; [by apply Ascii.eqb_eq in Ep as ->|]. by apply free_cons in Hc as [? _].
Qed.

Lemma read_quoteSystemdArg first v t : v <> "" -> no_variable first v -> t = "" \/ (exists t', t = String space t') ->
  read_words first Between (quoteSystemdArg v +:+ t) = cons v <$> then_words first t.
Proof.
  intros Hne Hv Ht. unfold quoteSystemdArg. destruct v as [|c v]; [done|]. remember (String c v) as u eqn:Eu.
  destruct (ContainsAny _ _) eqn:Ec.
  - fold (escape u). rewrite string_app_cons, <- string_app_assoc. cbn [read_words Ascii.eqb Bool.eqb].
    change (Ascii.eqb double_quote percent) with false. change (Ascii.eqb double_quote "$" && negb first)%bool with false.
    change (Ascii.eqb double_quote space || Ascii.eqb double_quote tab)%bool with false. change (Ascii.eqb double_quote double_quote) with true.
    cbv iota. rewrite read_quoted by done. change ("" +:+ u) with u. unfold one. rewrite string_app_cons.
    change (EmptyString +:+ t) with t. cbn [read_words]. change (Ascii.eqb double_quote percent) with false.
    change (Ascii.eqb double_quote "$" && negb first)%bool with false. change (Ascii.eqb double_quote double_quote) with true. cbv iota.
    destruct Ht as [->|[t' ->]]; [done|]. done.
  - apply ContainsAny_false in Ec. change [space; tab; double_quote; apostrophe; backslash] with plain_bytes in Ec.
    assert (Hp : Forall (fun b => contains_byte b u = false) plain_bytes).
    { unfold plain_bytes in *. rewrite !Forall_cons in *. destruct_and!. split_and!; try by apply Forall_nil.
      all: by apply ReplaceAll_percent_plain. }
    rewrite Eu in *. apply no_variable_cons in Hv as [Hd Hv]. apply plain_cons in Hp as [Hc Hp].
    rewrite percent_cons, <- string_app_assoc, read_plain_byte by done. cbn [continue].
    rewrite read_bare by done. change (one c +:+ v) with (String c v).
    destruct Ht as [->|[t' ->]]; [done|]. done.
Qed.

(** ** Trimming *)

Definition trim_right (s : string) : string := rev_string (trim_left (rev_string <$> space_strings) O (rev_string s)).

Lemma has_prefix_stop p a c b : contains_byte c p = false -> has_prefix p (a +:+ String c b) = has_prefix p a.
Proof.
  revert a. induction p as [|d p IH]; intros a; [by destruct a|]. rewrite free_cons. intros [Hd Hp]. destruct a as [|e a].
  - change ("" +:+ String c b) with (String c b). cbn [has_prefix]. apply Ascii.eqb_neq in Hd. by rewrite Hd.
  - rewrite string_app_cons. cbn [has_prefix]. by rewrite IH.
Qed.

Lemma match_width_stop pats a c b : Forall (fun p => contains_byte c p = false) pats ->
  match_width pats (a +:+ String c b) = match_width pats a.
Proof.
  unfold match_width. induction 1 as [|p pats Hp Hpats IH]; [done|]. cbn [List.find]. rewrite has_prefix_stop by done.
  by destruct (has_prefix p a).
Qed.

Lemma match_width_le pats a : (match_width pats a <= String.length a)%nat.
Proof.
  unfold match_width. destruct (List.find _ pats) as [p|] eqn:E; [|lia].
  apply List.find_some in E as [_ H]. apply has_prefix_spec in H as [r ->]. pose proof (len_app p r) as H. unfold len in H. lia.
Qed.

Lemma trim_left_stop pats c a b : Forall (fun p => contains_byte c p = false) pats ->
  forall skip, (skip <= String.length a)%nat -> trim_left pats skip (a +:+ String c b) = trim_left pats skip a +:+ String c b.
Proof.
  intros Hp. induction a as [|d a IH]; intros skip Hs.
  - destruct skip; [|cbn in Hs; lia]. change ("" +:+ String c b) with (String c b). cbn [trim_left].
    pose proof (match_width_stop pats EmptyString c b Hp) as E. change (EmptyString +:+ String c b) with (String c b) in E.
    pose proof (match_width_le pats EmptyString) as Hl. cbn in Hl. rewrite E. by replace (match_width pats "") with 0%nat by lia.
  - cbn [String.length] in Hs. rewrite string_app_cons. cbn [trim_left]. destruct skip as [|k]; [|apply IH; lia].
    rewrite <- string_app_cons, match_width_stop by done. pose proof (match_width_le pats (String d a)) as Hl. cbn [String.length] in Hl.
    destruct (match_width pats (String d a)) as [|k]; [done|]. apply IH. lia.
Qed.

Lemma trim_left_width pats s : forall skip, match_width pats (trim_left pats skip s) = O.
Proof.
  induction s as [|c s IH]; intros skip.
  - pose proof (match_width_le pats EmptyString) as Hl. cbn in Hl. cbn [trim_left]. lia.
  - cbn [trim_left]. destruct skip as [|k]; [|apply IH]. destruct (match_width pats (String c s)) eqn:E; [done|apply IH].
Qed.

Lemma trim_left_id pats s : match_width pats s = O -> trim_left pats O s = s.
Proof. destruct s as [|c s]; [done|]. cbn [trim_left]. by intros ->. Qed.

Lemma trim_right_idemp s : trim_right (trim_right s) = trim_right s.
Proof. unfold trim_right. rewrite rev_string_involutive, (trim_left_id _ (trim_left _ _ _)); [done|apply trim_left_width]. Qed.

(** A byte that is in no white space stops trimming. *)
Definition visible (c : ascii) : bool :=
  forallb (fun p => negb (contains_byte c p)) (rev_string <$> space_strings) && forallb (fun p => negb (has_prefix (one c) p)) space_strings.

Lemma rev_string_cons c s : rev_string (String c s) = rev_string s +:+ one c.
Proof. change (String c s) with (one c +:+ s). by rewrite rev_string_app. Qed.

Lemma app_one_cons a c b : (a +:+ one c) +:+ b = a +:+ String c b.
Proof. by rewrite <- string_app_assoc. Qed.

Lemma trim_right_visible p c s : visible c = true -> trim_right (p +:+ String c s) = p +:+ String c (trim_right s).
Proof.
  unfold visible. intros [Hv _]%andb_true_iff. unfold trim_right.
  rewrite rev_string_app, rev_string_cons, app_one_cons, trim_left_stop; [| |lia].
  - by rewrite rev_string_app, rev_string_cons, rev_string_involutive, app_one_cons.
  - apply Forall_forall. intros q Hq. rewrite forallb_forall in Hv. apply negb_true_iff, Hv. by apply list_elem_of_In.
Qed.

Lemma visible_width c s : visible c = true -> match_width space_strings (String c s) = O.
Proof.
  unfold visible. intros [_ Hv]%andb_true_iff. unfold match_width. destruct (List.find _ _) as [p|] eqn:E; [|done].
  apply List.find_some in E as [Hin Hp]. rewrite forallb_forall in Hv. specialize (Hv p Hin).
  destruct p as [|d p]; [done|]. cbn [has_prefix] in Hp. apply andb_true_iff in Hp as [Hd _]. apply Ascii.eqb_eq in Hd as ->.
  unfold one in Hv. cbn [has_prefix] in Hv. by rewrite Ascii.eqb_refl in Hv.
Qed.

Lemma TrimSpace_visible c s : visible c = true -> TrimSpace (String c s) = String c (trim_right s).
Proof.
  intros Hv. unfold TrimSpace. rewrite (trim_left_id space_strings) by (by apply visible_width). fold (trim_right (String c s)).
  by apply (trim_right_visible "" c s).
Qed.

Lemma TrimSpace_idemp_visible c s : visible c = true -> TrimSpace (trim_right (String c s)) = TrimSpace (String c s).
Proof.
  intros Hv. change (trim_right (String c s)) with (trim_right ("" +:+ String c s)). rewrite trim_right_visible by done.
  change ("" +:+ String c (trim_right s)) with (String c (trim_right s)). rewrite !TrimSpace_visible by done. by rewrite trim_right_idemp.
Qed.

(** ** The unit file *)

Section Unit.
Context (Abs EvalSymlinks : string -> res string) (EqualFold : string -> string -> bool).
Context (GOOS TempDir DefaultConfigPath : string).

Abbreviation isDefault := (IsDefaultConfigPath Abs EvalSymlinks EqualFold GOOS DefaultConfigPath).
Abbreviation execStart := (exec_start Abs EvalSymlinks EqualFold GOOS DefaultConfigPath).
Abbreviation unitLines := (systemd_lines Abs EvalSymlinks EqualFold GOOS DefaultConfigPath).
Abbreviation render := (RenderSystemdUserUnit Abs EvalSymlinks EqualFold GOOS DefaultConfigPath).

Lemma exec_start_free exe cfg : contains_byte newline exe = false -> contains_byte newline cfg = false ->
  contains_byte newline (execStart exe cfg) = false.
Proof.
  intros He Hc. unfold exec_start. apply free_app. split; [by apply quoteSystemdArg_free|].
  destruct (isDefault cfg); [done|]. apply free_app. split; [done|]. by apply quoteSystemdArg_free.
Qed.

(** No path adds a line to the unit. *)
Lemma render_lines exe cfg : contains_byte newline exe = false -> contains_byte newline cfg = false ->
  split_byte newline (render exe cfg) = unitLines exe cfg.
Proof.
  intros He Hc. unfold RenderSystemdUserUnit. apply split_join; [done|]. unfold systemd_lines.
  repeat (apply Forall_cons; split; [first [done|apply free_app; split; [done|by apply exec_start_free]]|]). by apply Forall_nil.
Qed.

Lemma default_empty cfg : isDefault cfg = false -> cfg <> "".
Proof. by intros H ->. Qed.

Lemma exec_start_words exe cfg : exe <> "" -> contains_byte "$" cfg = false ->
  exec_words (execStart exe cfg) = Some (exe :: if isDefault cfg then [] else ["-config"; cfg]).
Proof.
  intros He Hc. unfold exec_words, exec_start. destruct (isDefault cfg) eqn:Hd.
  - rewrite read_quoteSystemdArg; [done|done|by left|by left].
  - change (" -config " +:+ quoteSystemdArg cfg) with (String space ("-config" +:+ String space (quoteSystemdArg cfg))).
    rewrite read_quoteSystemdArg; [|done|by left|by right; eexists]. cbn [then_words]. change (Ascii.eqb space space) with true. cbv iota.
    change (read_words false Between ("-config" +:+ String space (quoteSystemdArg cfg)))
      with (cons "-config" <$> read_words false Between (quoteSystemdArg cfg)).
    rewrite <- (string_app_nil (quoteSystemdArg cfg)), read_quoteSystemdArg; [done|by apply (default_empty cfg)|by right|by left].
Qed.

Lemma exec_start_of_skip l ls :
  match Cut "=" (TrimSpace l) with Some (k, _) => negb (String.eqb k "ExecStart") | None => true end = true ->
  exec_start_of (l :: ls) = exec_start_of ls.
Proof. cbn [exec_start_of]. destruct (Cut _ _) as [[k v]|]; [|done]. by destruct (String.eqb k "ExecStart"). Qed.

Lemma exec_start_of_found c x ls : visible c = true ->
  exec_start_of (("ExecStart=" +:+ String c x) :: ls) = TrimSpace (String c x).
Proof.
  intros Hv. cbn [exec_start_of].
  change ("ExecStart=" +:+ String c x) with (String "E" ("xecStart" +:+ String "=" (String c x))).
  rewrite TrimSpace_visible by done. rewrite trim_right_visible by done.
  change (Cut "=" (String "E" ("xecStart" +:+ String "=" (trim_right (String c x))))) with (Some ("ExecStart", trim_right (String c x))).
  cbv iota. change (String.eqb "ExecStart" "ExecStart") with true. cbv iota. by apply TrimSpace_idemp_visible.
Qed.

(** The command starts with the slash of the path or with a quote. *)
Lemma exec_start_head exe cfg : has_prefix "/" exe = true -> exists c x, execStart exe cfg = String c x /\ visible c = true.
Proof.
  intros [r ->]%has_prefix_spec. unfold exec_start, quoteSystemdArg. change ("/" +:+ r) with (String slash r). cbv iota zeta.
  destruct (ContainsAny _ _).
  - exists double_quote. eexists. split; [by rewrite string_app_cons|done].
  - exists slash. eexists. split; [|done]. rewrite percent_cons, <- string_app_assoc. done.
Qed.

Lemma parse_rendered exe cfg : has_prefix "/" exe = true -> contains_byte newline exe = false -> contains_byte newline cfg = false ->
  parseSystemdExecStart (render exe cfg) = TrimSpace (execStart exe cfg).
Proof.
  intros Hs He Hc. unfold parseSystemdExecStart. rewrite render_lines by done. unfold systemd_lines.
  destruct (exec_start_head exe cfg Hs) as (c & x & -> & Hv).
  do 7 (rewrite exec_start_of_skip by by_vm). by apply exec_start_of_found.
Qed.

Lemma validate_newline label p : validateSupervisorPath label p = Ok tt -> contains_byte newline p = false.
Proof.
  unfold validateSupervisorPath. destruct (ContainsAny _ _) eqn:E; [done|]. intros _. apply ContainsAny_false in E.
  rewrite !Forall_cons in E. by destruct E as (_ & _ & E & _).
Qed.
End Unit.

Definition unit_head : list string :=
  ["[Unit]"; "Description=NekoNest host daemon (outbound nest bridge)"; "After=network-online.target";
   "Wants=network-online.target"; ""; "[Service]"; "Type=simple"].
Definition unit_tail : list string := ["Restart=on-failure"; "RestartSec=5"; ""; "[Install]"; "WantedBy=default.target"; ""].


(** ** Verbs and flags *)

(** Arguments that only give the configuration file. *)
Inductive config_flags : list string -> Prop :=
  | flags_none : config_flags []
  | flags_pair f v rest : f = "-config" \/ f = "--config" -> config_flags rest -> config_flags (f :: v :: rest)
  | flags_equals f rest : has_prefix "-config=" f = true \/ has_prefix "--config=" f = true -> config_flags rest -> config_flags (f :: rest).

Lemma FindCommand_split_n n args cmd : (length args <= n)%nat -> FindCommand args = Some cmd ->
  cmd ∈ Commands /\ exists before after, args = before ++ cmd :: after /\ config_flags before.
Proof.
  revert args. induction n as [|n IH]; intros args Hl; [destruct args; [done|cbn in Hl; lia]|].
  destruct args as [|arg rest]; [done|]. cbn [length] in Hl. cbn [FindCommand].
  destruct (String.eqb arg "--"); [done|].
  destruct (String.eqb arg "-config" || String.eqb arg "--config")%bool eqn:Ef.
  { destruct rest as [|v rest]; [done|]. cbn [length] in Hl. intros (Hc & before & after & -> & Hb)%IH; [|lia]. split; [done|].
    exists (arg :: v :: before), after. split; [done|]. apply flags_pair; [|done].
    apply orb_true_iff in Ef as [->%String.eqb_eq| ->%String.eqb_eq]; auto. }
  destruct (has_prefix "-config=" arg || has_prefix "--config=" arg)%bool eqn:Ee.
  { intros (Hc & before & after & -> & Hb)%IH; [|lia]. split; [done|]. exists (arg :: before), after. split; [done|].
    apply flags_equals; [by apply orb_true_iff|done]. }
  destruct (has_prefix "-" arg); [done|]. case_bool_decide as Hc; [|done]. intros [= <-]. split; [done|].
  exists [], rest. split; [done|constructor].
Qed.

Lemma ArgsWithoutCommand_app before cmd after : cmd ∉ before -> ArgsWithoutCommand (before ++ cmd :: after) cmd = before ++ after.
Proof.
  induction before as [|a before IH]; intros Hn; cbn [app ArgsWithoutCommand]; [by rewrite String.eqb_refl|].
  apply not_elem_of_cons in Hn as [Ha Hn]. destruct (String.eqb_spec a cmd) as [->|_]; [done|]. by rewrite IH.
Qed.

Lemma parse_flag_equals c v rest : parse_flags c (("-config=" +:+ v) :: rest) = parse_flags v rest
  /\ parse_flags c (("--config=" +:+ v) :: rest) = parse_flags v rest.
Proof.
  assert (Hl : forall s, (len (String "-" (String "c" s)) <? 2) = false /\ (len (String "-" (String "-" s)) <? 2) = false).
  { intros s. unfold len. cbn [String.length]. split; apply Z.ltb_ge; lia. }
  split; [change ("-config=" +:+ v) with (String "-" (String "c" ("onfig=" +:+ v)))
         |change ("--config=" +:+ v) with (String "-" (String "-" ("config=" +:+ v)))];
    cbn [parse_flags]; rewrite ?(proj1 (Hl _)), ?(proj2 (Hl _)); done.
Qed.

(** Flags in front decide the file unless one behind the verb does. *)
Fixpoint config_of (c : string) (before : list string) : string :=
  match before with
  | [] => c
  | f :: rest =>
    match Cut "=" f with
    | Some (_, v) => if has_prefix "-" f then config_of v rest else c
    | None => match rest with v :: rest' => config_of v rest' | [] => c end
    end
  end.

Lemma parse_flags_before before : config_flags before -> forall c after,
  parse_flags c (before ++ after) = parse_flags (config_of c before) after.
Proof.
  induction 1 as [|f v rest [-> | ->] _ IH|f rest [[v ->]%has_prefix_spec|[v ->]%has_prefix_spec] _ IH]; intros c after; [done| | | |].
  - apply IH.
  - apply IH.
  - cbn [app]. rewrite (proj1 (parse_flag_equals _ _ _)), IH. done.
  - cbn [app]. rewrite (proj2 (parse_flag_equals _ _ _)), IH. done.
Qed.

(** A property of the command line: a verb is found only behind flags that give the
    configuration, never as their value, and unless one of these values is spelt
    like it, the rest is parsed as if the verb were not there. *)
Theorem verb_is_not_a_flag_value args cmd : FindCommand args = Some cmd ->
  cmd ∈ Commands /\
  exists before after, args = before ++ cmd :: after /\ config_flags before /\
    (cmd ∉ before ->
     parseHostServiceFlags (ArgsWithoutCommand args cmd) =
       match parse_flags (config_of "" before) after with
       | Parsed config [] => Parsed config []
       | Parsed _ rest => BadFlags ("unexpected arguments: " +:+ join_lines " " rest)
       | f => f
       end).
Proof.
  intros H. apply (FindCommand_split_n (length args)) in H as (Hc & before & after & -> & Hb); [|done]. split; [done|].
  exists before, after. split_and!; [done..|]. intros Hn. unfold parseHostServiceFlags.
  by rewrite ArgsWithoutCommand_app, parse_flags_before.
Qed.

(** ** The commands and the unit file *)

Section Commands.
Context (Abs EvalSymlinks : string -> res string) (EqualFold : string -> string -> bool).
Context (GOOS DefaultConfigPath : string).

Abbreviation render := (RenderSystemdUserUnit Abs EvalSymlinks EqualFold GOOS DefaultConfigPath).
Abbreviation install := (Install Abs EvalSymlinks EqualFold GOOS DefaultConfigPath).
Abbreviation uninstall := (Uninstall Abs EvalSymlinks EqualFold GOOS DefaultConfigPath).
Abbreviation start := (Start Abs EvalSymlinks EqualFold GOOS DefaultConfigPath).
Abbreviation stop := (Stop Abs EvalSymlinks EqualFold GOOS DefaultConfigPath).
Abbreviation status := (StatusOf Abs EvalSymlinks EqualFold GOOS DefaultConfigPath).
Abbreviation unitName := (unit_name Abs EvalSymlinks EqualFold GOOS DefaultConfigPath).

Lemma Install_ok o m w w' : install o m w = (Ok tt, w') ->
  unit_file w' = Some (render (Executable m) (ConfigPath m)) /\
  invoked w' = invoked w ++ [["--user"; "daemon-reload"]; ["--user"; "enable"; unitName m]].
Proof.
  unfold Install, WriteFile, systemctl. repeat (case_match; simplify_eq/=); try done. intros [= <-]. cbn. by rewrite <- app_assoc.
Qed.

(** The supervisor is asked only about a unit that is complete, and a failure before
    that leaves the old unit or the start of the new one. *)
Lemma Install_asks o m w r w' : install o m w = (r, w') ->
  (invoked w' = invoked w /\ (unit_file w' = unit_file w \/ exists n, unit_file w' = Some (take_bytes n (render (Executable m) (ConfigPath m))))) \/
  unit_file w' = Some (render (Executable m) (ConfigPath m)).
Proof.
  unfold Install, WriteFile, systemctl.
  repeat (case_match; simplify_eq/=); intros [= <- <-]; cbn; eauto 6.
Qed.

Lemma Uninstall_ok o m w w' : uninstall o m w = (Ok tt, w') ->
  unit_file w' = None /\
  invoked w' = invoked w ++ [["--user"; "stop"; unitName m]; ["--user"; "disable"; unitName m]; ["--user"; "daemon-reload"]].
Proof. unfold Uninstall, systemctl. cbn. destruct (removing o); [done|]. intros [= <-]. cbn. by rewrite <- !app_assoc. Qed.

(** The commands that leave the unit file alone. *)
Inductive visit : Type := Starts (o : answers) | Stops (o : answers) | Asks (o : answers).

Definition visited (m : Manager) (w : supervisor) (v : visit) : supervisor :=
  match v with
  | Starts o => (start o m w).2
  | Stops o => (stop o m w).2
  | Asks o => (status o m w).2
  end.

Lemma visited_unit m vs w : unit_file (foldl (visited m) w vs) = unit_file w.
Proof.
  revert w. induction vs as [|v vs IH]; intros w; [done|]. cbn [foldl]. rewrite IH. clear IH.
  destruct v as [o|o|o]; cbn [visited]; unfold Start, Stop, StatusOf, systemctl; repeat (case_match; simplify_eq/=); done.
Qed.

Lemma read_properties_installed m exec detail props : let st := read_properties Abs EvalSymlinks EqualFold GOOS DefaultConfigPath m true exec detail props in
  Installed st = true /\ ConfiguredExec st = exec.
Proof. done. Qed.

Lemma status_installed o m w body : stating o = None -> HostService.reading o = None -> unit_file w = Some body ->
  let '(st, e, _) := status o m w in Installed st = true /\ ConfiguredExec st = parseSystemdExecStart body /\ e = None.
Proof.
  intros Hs Hr Hu. unfold StatusOf, Stat, systemctl. rewrite Hs, Hr, Hu. cbn. by destruct (run o _ _).
Qed.
End Commands.

(** A property of the commands: a successful installation leaves the complete unit
    and asks to enable it after reloading; until it is uninstalled the status gives
    its command; after a successful removal a start fails and a stop succeeds
    without the supervisor being asked. *)
Theorem commands_follow_the_unit Abs EvalSymlinks EqualFold GOOS DefaultConfigPath m o w w' :
  (Install Abs EvalSymlinks EqualFold GOOS DefaultConfigPath o m w = (Ok tt, w') ->
   let unit := RenderSystemdUserUnit Abs EvalSymlinks EqualFold GOOS DefaultConfigPath (Executable m) (ConfigPath m) in
   invoked w' = invoked w ++ [["--user"; "daemon-reload"]; ["--user"; "enable"; unit_name Abs EvalSymlinks EqualFold GOOS DefaultConfigPath m]] /\
   forall vs o2, let w2 := foldl (visited Abs EvalSymlinks EqualFold GOOS DefaultConfigPath m) w' vs in
     unit_file w2 = Some unit /\
     (stating o2 = None -> HostService.reading o2 = None ->
      let '(st, e, _) := StatusOf Abs EvalSymlinks EqualFold GOOS DefaultConfigPath o2 m w2 in
      Installed st = true /\ ConfiguredExec st = parseSystemdExecStart unit /\ e = None)) /\
  (Uninstall Abs EvalSymlinks EqualFold GOOS DefaultConfigPath o m w = (Ok tt, w') ->
   forall vs o2, stating o2 = None ->
     let w2 := foldl (visited Abs EvalSymlinks EqualFold GOOS DefaultConfigPath m) w' vs in
     Start Abs EvalSymlinks EqualFold GOOS DefaultConfigPath o2 m w2 = (Err not_installed, w2) /\
     Stop Abs EvalSymlinks EqualFold GOOS DefaultConfigPath o2 m w2 = (Ok tt, w2)).
Proof.
  split.
  - intros [Hu Hi]%Install_ok unit. split; [done|]. intros vs o2 w2.
    assert (Hw : unit_file w2 = Some unit) by (unfold w2; by rewrite visited_unit). split; [done|]. intros Hs Hr.
    by apply (status_installed Abs EvalSymlinks EqualFold GOOS DefaultConfigPath o2 m w2 unit).
  - intros [Hu _]%Uninstall_ok vs o2 Hs w2.
    assert (Hw : unit_file w2 = None) by (unfold w2; by rewrite visited_unit).
    unfold Start, Stop, Stat. by rewrite Hs, Hw.
Qed.

(** ** The claim of a process *)

(** Whoever claims later keeps the lease when an earlier process withdraws its own. *)
Theorem lease_is_withdrawn_by_its_owner f removed env mine file file' once readable removed2 later :
  ClaimManagedProcess f removed env mine file = (Ok (Some mine), file') -> later <> mine ->
  file' = Some (Some mine) /\
  (release_lease (Some mine) once readable removed2 (Some (Some later))).2 = Some (Some later) /\
  (release_lease (Some mine) false true true file').2 = None.
Proof.
  unfold ClaimManagedProcess. case_match; [done|]. case_match; [|done]. case_match; [|done]. intros [= <-] Hne.
  split_and!; [done| |].
  - unfold release_lease. destruct once; [done|]. rewrite bool_decide_false by done. by rewrite andb_false_r.
  - cbn. by rewrite bool_decide_true.
Qed.

(** ** One daemon at a time *)

Definition lock_init : machine := mkMachine None ∅ ∅ ∅ [] [].

Record lock_ok (w : machine) : Prop := mkLockOk {
  serving_holds : forall p, p ∈ serving w -> holder w = Some p;
  probing_holds : forall p, p ∈ probing w -> holder w = Some p;
  apart : serving w ## probing w;
  all_used : serving w ∪ probing w ⊆ used w;
  freed : forall p, holder w = Some p -> p ∈ serving w ∪ probing w
}.

Lemma acquire_granted prepared flock who h h' :
  acquireDaemonInstanceLock prepared flock who h = (inr tt, h') -> h = None /\ h' = Some who.
Proof. unfold acquireDaemonInstanceLock. repeat case_match; naive_solver. Qed.

Lemma acquire_refused prepared flock who h h' e :
  acquireDaemonInstanceLock prepared flock who h = (inl e, h') -> h' = h.
Proof. unfold acquireDaemonInstanceLock. repeat case_match; naive_solver. Qed.

Ltac lock_tac :=
  constructor; cbn; try set_solver;
  intros p; rewrite ?elem_of_union, ?elem_of_difference, ?elem_of_singleton; naive_solver.

Lemma lock_step_ok ev w w' : lock_ok w -> lock_step ev w = Some w' -> lock_ok w'.
Proof.
  intros [Hs Hp Ha Hu Hf] H. destruct ev as [who pr fl|who|who pr fl|who]; cbn [lock_step] in H; case_bool_decide as Hw; try done.
  - destruct (acquireDaemonInstanceLock pr fl who (holder w)) as [[e|[]] h] eqn:E; injection H as <-.
    + apply acquire_refused in E as ->. lock_tac.
    + apply acquire_granted in E as [E ->]. rewrite E in *. lock_tac.
  - injection H as <-. pose proof (Hs who Hw) as Hh. unfold lock_close. rewrite bool_decide_true, Hh in * by done. lock_tac.
  - destruct (acquireDaemonInstanceLock pr fl who (holder w)) as [[[]|[]] h] eqn:E; injection H as <-.
    1,2: apply acquire_refused in E as ->; lock_tac.
    apply acquire_granted in E as [E ->]. rewrite E in *. lock_tac.
  - injection H as <-. pose proof (Hp who Hw) as Hh. unfold lock_close. rewrite bool_decide_true, Hh in * by done. lock_tac.
Qed.

Inductive lock_reachable : machine -> Prop :=
  | lock_start : lock_reachable lock_init
  | lock_next ev w w' : lock_reachable w -> lock_step ev w = Some w' -> lock_reachable w'.

(** A property of the lock: in every interleaving of starts, ends and probes two
    daemons that serve are the same one, and the lock is free when nobody has it. *)
Theorem one_daemon_serves w : lock_reachable w ->
  (forall p q, p ∈ serving w -> q ∈ serving w -> p = q) /\ (serving w = ∅ -> probing w = ∅ -> holder w = None).
Proof.
  intros H. assert (Hok : lock_ok w).
  { induction H as [|ev w w' _ IH Hst]; [constructor; cbn; set_solver|by apply lock_step_ok in Hst]. }
  destruct Hok as [Hs Hp Ha Hu Hf]. split.
  - intros p q Hx Hy. apply Hs in Hx. apply Hs in Hy. congruence.
  - intros E1 E2. destruct (holder w) as [p|] eqn:E; [|done]. specialize (Hf p eq_refl). set_solver.
Qed.

(** A daemon that serves has its configuration, the lock, and both journals; a queue
    that cannot be read does not stop it. *)
Lemma serving_has_loaded b queue : boot_daemon b = Ok queue ->
  locked b = Ok tt /\ journal_loaded b = Ok tt /\ thread_journal_loaded b = Ok tt /\ registry_made b = Ok tt /\
  queue = is_ok (queue_loaded b) /\
  exists mode, config_mode b = Ok mode /\
    (is_empty (TrimSpace (environment_mode b)) = false -> normalized b (TrimSpace (environment_mode b)) = Ok mode).
Proof.
  unfold boot_daemon. destruct (config_mode b) as [mode|e]; cbn; [|done]. destruct (claimed b); cbn; [|done].
  destruct (is_empty (TrimSpace (environment_mode b))) eqn:Ee; cbn.
  2: destruct (normalized b _) as [m|] eqn:En; cbn; [|done]; unfold fail_if; destruct (String.eqb_spec m mode) as [->|]; cbn; [|done].
  all: destruct (canonical b); cbn; [|done]; destruct (locked b) as [[]|]; cbn; [|done]; destruct (journal_loaded b) as [[]|]; cbn; [|done];
    destruct (thread_journal_loaded b) as [[]|]; cbn; [|done]; destruct (registry_made b) as [[]|]; cbn; [|done]; intros [= <-].
  all: split_and!; try done; exists mode; split; done.
Qed.

(** ** Concrete runs *)

Module Demo.

Definition cfg : string := "/home/u/neko nest/100%.json".
Definition exe : string := "/opt/nekonest-daemon".
Definition same : string -> res string := fun p => Ok p.
Definition eqb_fold : string -> string -> bool := String.eqb.
Abbreviation at_home f := (f same same eqb_fold "linux" "/home/u/.nekonest/config.json").


(** The quoting leaves a dollar sign, which starts a variable behind the first word. *)
Example dollar_is_expanded : exec_words (at_home exec_start exe "/home/u/$nest.json") = None.
Proof. by_vm. Qed.

Lemma verb_is_not_a_flag_value_witness :
  FindCommand ["-config"; "start"; "status"; "-config=x"] = Some "status" /\
  exists before after, ["-config"; "start"; "status"; "-config=x"] = before ++ "status" :: after /\ config_flags before.
Proof.
  split; [done|].
  destruct (verb_is_not_a_flag_value ["-config"; "start"; "status"; "-config=x"] "status") as (_ & b & a & H1 & H2 & _); [done|].
  exists b, a. by split.
Defined.

(** The first argument spelt like the verb is dropped, even if it is the value of a
    flag: the flag behind it then becomes the value. *)
Example verb_like_value_is_dropped :
  FindCommand ["-config"; "start"; "-config=real.json"; "start"] = Some "start" /\
  parse_flags "" ["-config"; "start"; "-config=real.json"] = Parsed "real.json" [] /\
  parseHostServiceFlags (ArgsWithoutCommand ["-config"; "start"; "-config=real.json"; "start"] "start") = BadFlags "unexpected arguments: start".
Proof. split_and!; by_vm. Qed.

Definition willing : answers := mkAnswers (fun _ _ => Ok "") (Ok tt) Written None None None.
Definition m : Manager := NewWithRunner same same "/home/u/.nekonest/config.json" exe cfg "/home/u/.config/systemd/user".
Definition w0 : supervisor := mkSupervisor None [].
Definition w1 : supervisor := (at_home Install willing m w0).2.

Lemma commands_follow_the_unit_witness :
  at_home Install willing m w0 = (Ok tt, w1) /\
  unit_file (foldl (visited same same eqb_fold "linux" "/home/u/.nekonest/config.json" m) w1 [Starts willing; Stops willing]) =
    Some (at_home RenderSystemdUserUnit exe cfg).
Proof.
  assert (H : at_home Install willing m w0 = (Ok tt, w1)) by by_vm. split; [exact H|].
  destruct (commands_follow_the_unit same same eqb_fold "linux" "/home/u/.nekonest/config.json" m willing w0 w1) as [Hi _].
  destruct (Hi H) as [_ Hv]. exact (proj1 (Hv [Starts willing; Stops willing] willing)).
Defined.

(** A probe of the status holds the lock for a moment: a daemon that starts then is
    told that another one runs. *)
Definition lock_run (evs : list lock_event) : option machine := foldl (fun w ev => w ≫= lock_step ev) (Some lock_init) evs.

Example probe_refuses_a_daemon :
  lock_run [ProbeOpens 1 (Ok tt) None; DaemonStarts 2 (Ok tt) None; ProbeCloses 1]
  = Some (mkMachine None ∅ ∅ {[2%nat; 1%nat]} [2%nat] [(1%nat, false)]).
Proof. by_vm. Qed.

(** A system that cannot lock is reported as a daemon that runs. *)
Example lock_failure_reads_as_held :
  reports <$> lock_step (ProbeOpens 1 (Ok tt) (Some "no locks available")) lock_init = Some [(1%nat, true)].
Proof. by_vm. Qed.

Definition two_ran : machine := default lock_init
  (lock_run [DaemonStarts 1 (Ok tt) None; DaemonStarts 2 (Ok tt) None; DaemonEnds 1; DaemonStarts 3 (Ok tt) None]).

Lemma two_ran_reachable : lock_reachable two_ran.
Proof.
  apply (lock_next (DaemonStarts 3 (Ok tt) None) (default lock_init (lock_run [DaemonStarts 1 (Ok tt) None; DaemonStarts 2 (Ok tt) None; DaemonEnds 1]))); [|by vm_compute].
  apply (lock_next (DaemonEnds 1) (default lock_init (lock_run [DaemonStarts 1 (Ok tt) None; DaemonStarts 2 (Ok tt) None]))); [|by vm_compute].
  apply (lock_next (DaemonStarts 2 (Ok tt) None) (default lock_init (lock_run [DaemonStarts 1 (Ok tt) None]))); [|by vm_compute].
  apply (lock_next (DaemonStarts 1 (Ok tt) None) lock_init); [apply lock_start|by vm_compute].
Qed.

Lemma one_daemon_serves_witness : serving two_ran = {[3%nat]} /\ forall p q, p ∈ serving two_ran -> q ∈ serving two_ran -> p = q.
Proof. split; [by_vm|]. apply (one_daemon_serves two_ran), two_ran_reachable. Defined.

Lemma lease_is_withdrawn_by_its_owner_witness :
  (release_lease (Some (mkLease 7 100)) false true true (Some (Some (mkLease 8 200)))).2 = Some (Some (mkLease 8 200)).
Proof.
  apply (lease_is_withdrawn_by_its_owner io_ok true "/run/pid" (mkLease 7 100) None (Some (Some (mkLease 7 100))) false true true (mkLease 8 200));
    [done|done].
Defined.
End Demo.
