(* ===== verification/KimiStore.v ===== *)
(** * The stores of Kimi (daemon/internal/adapters/kimi.go, firstString and
    firstTime of grok.go)

    Sessions of the current and the legacy store, the choice between candidates,
    and history with the fragments of a turn put together. The disk is what stat,
    reading, listing and walking answer; an operation reads the clock once. *)

From stdpp Require Import base tactics list gmap strings sorting.
From Stdlib Require Import Ascii ZArith Lia.
From S2P Require Import Prelude GoStrings GoPath Json Protocol JsonDecode DiscoveryCache CodexRollout.
From S2P Require Import ClaudeAdapter.
From S2P Require AdapterRegistry CodexRolloutSpec.

(** ** Fields *)

Section Fields.
Context `{GoTime}.

Fixpoint firstString (o : list (string * value)) (keys : list string) : string :=
  match keys with
  | [] => ""
  | k :: ks => let s := TrimSpace (member o k) in if is_empty s then firstString o ks else s
  end.

(** The zero time stands for none. *)
Fixpoint firstTime (o : list (string * value)) (keys : list string) : Z :=
  match keys with
  | [] => zero_time
  | k :: ks => match parseMessageTime (assoc k o) with Some t => t | None => firstTime o ks end
  end.

Definition boolField (o : list (string * value)) (keys : list string) : bool :=
  existsb (fun k => match assoc k o with Some (VBool b) => b | _ => false end) keys.

(** [strings.ToLower] as far as ASCII letters come out of it: U+0130 and U+212A
    are the only others. *)
Fixpoint ToLower (s : string) : string :=
  match s with
  | EmptyString => EmptyString
  | String c s1 =>
    match s1 with
    | String d s2 =>
      if ((code c =? 196) && (code d =? 176))%bool then String "i" (ToLower s2)
      else match s2 with
           | String e s3 =>
             if ((code c =? 226) && (code d =? 132) && (code e =? 170))%bool then String "k" (ToLower s3)
             else String (lower_byte c) (ToLower s1)
           | EmptyString => String (lower_byte c) (ToLower s1)
           end
    | EmptyString => String (lower_byte c) EmptyString
    end
  end.

Definition EqualFoldAscii (s lower : string) : bool := String.eqb (fold_name s) lower.

(** ** History records *)

Record history_item : Type := mkItem { iRole : string; iContent : string; iTime : Z; iID : string; iEvent : string }.

Definition time_keys : list string := ["time"; "timestamp"; "created_at"; "createdAt"; "updated_at"; "updatedAt"].
Definition nested_time_keys : list string := ["timestamp"; "created_at"; "createdAt"; "updated_at"; "updatedAt"].
Definition id_keys : list string := ["id"; "message_id"; "messageId"].
Definition event_keys : list string := ["type"; "event_type"; "eventType"].

Definition kimiUserInputText (payload : list (string * value)) : string :=
  let input := match assoc "user_input" payload with Some v => Some v | None => assoc "userInput" payload end in
  let text := TrimSpace (text_of input) in
  if negb (is_empty text) then text
  else match input with
       | Some (VString s) => TrimSpace s
       | _ => firstString payload ["text"; "content"; "message"]
       end.

(** The payload stands for the record unless the member is at the top already. *)
Definition container_of (item : list (string * value)) (key : string) : list (string * value) :=
  match as_map (assoc "payload" item) with
  | Some payload => match assoc key item with Some _ => item | None => payload end
  | None => item
  end.

Definition object_member (o : list (string * value)) (key : string) : list (string * value) := default [] (as_map (assoc key o)).

Definition append_message (item : list (string * value)) (time : Z) (event : string) : history_item :=
  let message := object_member (container_of item "message") "message" in
  mkItem (ToLower (firstString message ["role"])) (TrimSpace (text_of (assoc "content" message))) time
    (firstString message (id_keys ++ ["providerMessageId"])) event.

(** Only the text parts of the answer count; thinking and media are left out. *)
Definition append_loop_event (item : list (string * value)) (time : Z) : history_item :=
  let event := object_member (container_of item "event") "event" in
  let kind := ToLower (firstString event ["type"]) in
  let id := firstString event ["uuid"; "stepUuid"; "messageId"] in
  let part := object_member event "part" in
  if (String.eqb kind "content.part" && EqualFoldAscii (firstString part ["type"]) "text")%bool
  then mkItem "assistant" (member part "text") time id kind
  else mkItem "" "" time id kind.

(** What is known before and after a nested object; [keepSpace] keeps the white
    space of a fragment. *)
Record gathered : Type := mkGathered { found : history_item; keepSpace : bool }.

Definition payload_text (payload : list (string * value)) : string :=
  match as_string (assoc "text" payload) with Some text => text | None => text_of (assoc "content" payload) end.

Definition gather_nested (g : gathered) (nested : list (string * value)) : gathered :=
  let i := found g in
  let role := nonempty_or (iRole i) (ToLower (firstString nested ["role"])) in
  let content := nonempty_or (iContent i)
                   (nonempty_or (TrimSpace (text_of (assoc "content" nested))) (firstString nested ["text"; "user_input"; "userInput"; "message"])) in
  let time := if iTime i =? zero_time then firstTime nested nested_time_keys else iTime i in
  let id := nonempty_or (iID i) (firstString nested id_keys) in
  let event := nonempty_or (iEvent i) (ToLower (firstString nested event_keys)) in
  match as_map (assoc "payload" nested) with
  | None => mkGathered (mkItem role content time id event) (keepSpace g)
  | Some payload =>
    let id := nonempty_or id (firstString payload id_keys) in
    if bool_decide (event ∈ ["turnbegin"; "steerinput"]) then mkGathered (mkItem "user" (kimiUserInputText payload) time id event) (keepSpace g)
    else if String.eqb event "textpart" then mkGathered (mkItem "assistant" (payload_text payload) time id event) true
    else if String.eqb event "thinkpart" then mkGathered (mkItem "" "" time id event) (keepSpace g)
    else mkGathered (mkItem role content time id event) (keepSpace g)
  end.

Definition gather (item : list (string * value)) (g : gathered) (key : string) : gathered :=
  match as_map (assoc key item) with Some nested => gather_nested g nested | None => g end.

(** The role of a record that does not say it. *)
Definition guess_role (item : list (string * value)) (i : history_item) : history_item :=
  let i := if (is_empty (iRole i) && (contains (iEvent i) "turnbegin" || contains (iEvent i) "user"))%bool
           then mkItem "user" (nonempty_or (iContent i) (firstString item ["user_input"; "userInput"; "text"; "message"])) (iTime i) (iID i) (iEvent i)
           else i in
  if (is_empty (iRole i) && (contains (iEvent i) "assistant" || contains (iEvent i) "contentpart"))%bool
  then mkItem "assistant" (iContent i) (iTime i) (iID i) (iEvent i)
  else i.

Definition parseKimiHistoryItem (item : list (string * value)) : history_item :=
  let time := firstTime item time_keys in
  let event := ToLower (firstString item event_keys) in
  if String.eqb event "context.append_message" then append_message item time event
  else if String.eqb event "context.append_loop_event" then append_loop_event item time
  else
    let g := foldl (gather item)
               (mkGathered (mkItem (ToLower (firstString item ["role"])) (TrimSpace (text_of (assoc "content" item))) time (firstString item id_keys) event) false)
               ["message"; "payload"; "event"] in
    let i := guess_role item (found g) in
    if keepSpace g then i else mkItem (iRole i) (TrimSpace (iContent i)) (iTime i) (iID i) (iEvent i).

(** ** History *)

(** What the scan of a file keeps. *)
Record scan : Type := mkScan {
  messages : list HistoryMessage;
  messageIndex : nat;
  turnIndex : nat;
  assistantTurn : option HistoryMessage
}.

Definition scan_start : scan := mkScan [] 0 0 None.

Section Scan.
Variable nativeID : string.
Variable now : Z.
Variable legacy : bool.

Definition nextMessageID (id : string) (s : scan) : string * scan :=
  let n := S (messageIndex s) in
  (nonempty_or id ("kimi_" +:+ nativeID +:+ "_" +:+ Itoa (Z.of_nat n)), mkScan (messages s) n (turnIndex s) (assistantTurn s)).

Definition shown (content : string) : string := truncateRunes (TrimSpace content) 4000.

Definition flushAssistantTurn (s : scan) : scan :=
  match assistantTurn s with
  | None => s
  | Some m =>
    let content := shown (hContent m) in
    mkScan (if is_empty content then messages s else messages s ++ [mkHistory (hID m) (hRole m) content (hType m) (hTimestamp m)])
      (messageIndex s) (turnIndex s) None
  end.

Definition next_turn (s : scan) : scan := mkScan (messages s) (messageIndex s) (S (turnIndex s)) (assistantTurn s).

Definition time_or_now (t : Z) : Z := if t =? zero_time then now else t.

Definition append_chat (i : history_item) (s : scan) : scan :=
  let '(id, s) := nextMessageID (iID i) s in
  mkScan (messages s ++ [mkHistory id (iRole i) (shown (iContent i)) "text" (time_or_now (iTime i) / second)])
    (messageIndex s) (turnIndex s) (assistantTurn s).

(** A fragment of the answer: the first one opens the turn. *)
Definition append_fragment (i : history_item) (s : scan) : scan :=
  match assistantTurn s with
  | Some m =>
    mkScan (messages s) (messageIndex s) (turnIndex s)
      (Some (mkHistory (hID m) (hRole m) (hContent m +:+ iContent i) (hType m) (hTimestamp m)))
  | None =>
    let turn := if (turnIndex s =? 0)%nat then 1%nat else turnIndex s in
    let '(id, s) := nextMessageID (nonempty_or (iID i) ("kimi_" +:+ nativeID +:+ "_turn_" +:+ Itoa (Z.of_nat turn) +:+ "_assistant"))
                      (mkScan (messages s) (messageIndex s) turn (assistantTurn s)) in
    mkScan (messages s) (messageIndex s) (turnIndex s)
      (Some (mkHistory id "assistant" (iContent i) "text" (time_or_now (iTime i) / second)))
  end.

(** A record that is chat by itself. *)
Definition chat_item (i : history_item) (s : scan) : scan :=
  if ((String.eqb (iRole i) "user" || String.eqb (iRole i) "assistant") && negb (is_empty (iContent i)))%bool
  then append_chat i (flushAssistantTurn s) else s.

Definition scan_item (i : history_item) (s : scan) : scan :=
  if legacy then chat_item i s
  else if bool_decide (iEvent i ∈ ["turnbegin"; "steerinput"]) then
    let s := next_turn (flushAssistantTurn s) in
    if (String.eqb (iRole i) "user" && negb (is_empty (iContent i)))%bool
    then append_chat (mkItem "user" (iContent i) (iTime i) (iID i) (iEvent i)) s else s
  else if String.eqb (iEvent i) "step.begin" then next_turn (flushAssistantTurn s)
  else if bool_decide (iEvent i ∈ ["textpart"; "content.part"]) then (if is_empty (iContent i) then s else append_fragment i s)
  else if bool_decide (iEvent i ∈ ["turnend"; "step.end"]) then flushAssistantTurn s
  else if bool_decide (iEvent i ∈ ["tool.call"; "tool.result"]) then s
  else chat_item i s.

Definition scan_line (s : scan) (line : string) : scan :=
  match decode_map line with None => s | Some item => scan_item (parseKimiHistoryItem item) s end.

Definition scan_file (lines : list string) : scan := flushAssistantTurn (foldl scan_line scan_start lines).
End Scan.

(** ** The disk *)

Inductive stat_result : Type := NotExist | StatError (e : string) | File (fp : fileFingerprint) | Directory (fp : fileFingerprint).

(** [walk] and [readDir] give names with whether they are directories, in order. *)
Record disk : Type := mkDisk {
  stat : string -> stat_result;
  readFile : string -> res string;
  readDir : string -> res (list (string * bool));
  walk : string -> list (string * bool)
}.

Definition firstExistingFile (d : disk) (paths : list string) : string :=
  default "" (List.find (fun p => (negb (is_empty p) && match stat d p with File _ => true | _ => false end)%bool) paths).

Definition modified (r : stat_result) : Z := match r with File fp | Directory fp => modifiedUnixNS fp | _ => zero_time end.

Definition latestFileTime (d : disk) (paths : list string) : Z :=
  foldl (fun latest p => if is_empty p then latest else Z.max latest (modified (stat d p))) zero_time paths.

Definition exists_dir (d : disk) (path : string) : bool := match stat d path with Directory _ => true | _ => false end.

(** ** The index of the current store *)

Record kimiIndexRecord : Type := mkIndex {
  xID : string; xWorkDirKey : string; xSessionDir : string; xProjectDir : string; xTitle : string; xUpdated : Z; xArchived : bool }.

(** What the index says of a session it does not have. *)
Definition no_index : kimiIndexRecord := mkIndex "" "" "" "" "" zero_time false.

Definition archived_keys : list string := ["archived"; "is_archived"; "isArchived"].
Definition dir_keys : list string := ["work_dir"; "workDir"; "cwd"; "project_dir"; "projectDir"].
Definition session_keys : list string := ["id"; "session_id"; "sessionId"].

Definition index_line (records : gmap string kimiIndexRecord) (line : string) : gmap string kimiIndexRecord :=
  match decode_map line with
  | None => records
  | Some item =>
    let id := nonempty_or (firstString item session_keys)
                (match as_map (assoc "session" item) with Some nested => firstString nested session_keys | None => "" end) in
    if is_empty id then records
    else <[id := mkIndex id (firstString item ["work_dir_key"; "workDirKey"; "workspace_key"; "workspaceKey"])
                   (firstString item ["session_dir"; "sessionDir"]) (firstString item dir_keys)
                   (firstString item ["title"; "name"; "custom_title"; "customTitle"])
                   (firstTime item ["updated_at"; "updatedAt"; "last_activity"; "lastActivity"; "created_at"; "createdAt"])
                   (boolField item archived_keys)]> records
  end.

Definition indexLimit : Z := 4 * 1024 * 1024.

(** [readKimiIndex] of a file that can be opened. *)
Definition readKimiIndexFile (content : res string) : res (gmap string kimiIndexRecord) :=
  s ← wrap "open kimi session index: " content;
  let '(lines, failed) := scan_lines indexLimit s in
  if (failed : bool) then Err "bufio.Scanner: token too long" else Ok (foldl index_line ∅ lines).

Definition readJSONMap (content : res string) : res (list (string * value)) :=
  s ← content; match decode_map s with Some o => Ok o | None => Err "invalid json" end.

(** ** Sessions *)

Record kimiSessionRecord : Type := mkRecord { rID : string; rSessionDir : string; rProjectDir : string; rHistoryPath : string; rLegacy : bool }.

Definition title_keys : list string := ["custom_title"; "customTitle"; "title"; "name"].
Definition updated_keys : list string := ["updated_at"; "updatedAt"; "wire_mtime"; "wireMtime"; "created_at"; "createdAt"].

Definition newKimiSession (now : Z) (nativeID sessionDir projectDir title : string) (updated : Z) : SessionInfo :=
  mkSession (AdapterRegistry.publicSessionID "kimi_cli" nativeID) (if now - updated <? minute then "running" else "idle")
    (truncateRunes (TrimSpace title) 120) updated sessionDir projectDir None None.

Section Store.
Variable d : disk.
Variable now : Z.

Definition wire_paths (sessionDir : string) : list string :=
  [path_joins [sessionDir; "agents"; "main"; "wire.jsonl"]; path_joins [sessionDir; "context.jsonl"]; path_joins [sessionDir; "wire.jsonl"]].

(** A candidate of discovery: the session, unless it is archived, and its record. *)
Definition candidate : Type := SessionInfo * kimiSessionRecord.

Definition kimiSessionFromState (nativeID sessionDir : string) (state : list (string * value)) (item : kimiIndexRecord) : option candidate :=
  if (boolField state archived_keys || xArchived item)%bool then None
  else
    let dir := nonempty_or (firstString state dir_keys) (xProjectDir item) in
    let title := nonempty_or (nonempty_or (firstString state title_keys) (xTitle item)) nativeID in
    let history := firstExistingFile d (wire_paths sessionDir) in
    let updated := Z.max (Z.max (firstTime state updated_keys) (xUpdated item))
                     (latestFileTime d [path_joins [sessionDir; "state.json"]; history]) in
    let updated := if updated =? zero_time then now else updated in
    Some (newKimiSession now nativeID sessionDir dir title updated, mkRecord nativeID sessionDir dir history false).

(** [readKimiState]: the cache keeps what a state file decoded to. *)
Definition readKimiState (c : fileDiscoveryCache (list (string * value))) (path : string)
    : list (string * value) * fileDiscoveryCache (list (string * value)) :=
  match stat d path with
  | File fp | Directory fp =>
    let '(r, c) := load c path fp (readJSONMap (readFile d path)) in
    (match r with Ok o => o | Err _ => [] end, c)
  | _ => ([], c)
  end.

Definition readKimiIndex (c : fileDiscoveryCache (gmap string kimiIndexRecord)) (path : string)
    : res (gmap string kimiIndexRecord) * fileDiscoveryCache (gmap string kimiIndexRecord) :=
  match stat d path with
  | NotExist => (Ok ∅, c)
  | StatError e => (Err e, c)
  | File fp | Directory fp => load c path fp (readKimiIndexFile (readFile d path))
  end.

(** The elements of a path between separators of either kind. *)
Definition field_count (path : string) : nat :=
  length (List.filter (fun w => negb (is_empty w)) (mjoin (split_byte "\" <$> split_byte slash path))).

(** The state files three levels down, outside directories of subagents. *)
Fixpoint state_files (root : string) (skip : option string) (es : list (string * bool)) : list string :=
  match es with
  | [] => []
  | (path, dir) :: rest =>
    let below := match skip with Some p => has_prefix p path | None => false end in
    if below then state_files root skip rest
    else if (dir : bool)
    then state_files root (if EqualFoldAscii (Base path) "subagents" then Some (path +:+ "/") else skip) rest
    else if (EqualFoldAscii (Base path) "state.json" &&
             match Rel root path with Some rel => (field_count rel =? 3)%nat | None => false end)%bool
    then path :: state_files root skip rest
    else state_files root skip rest
  end.

Definition too_old (includeOld : bool) (paths : list string) (item : kimiIndexRecord) : bool :=
  (negb includeOld && (Z.max (latestFileTime d paths) (xUpdated item) <? recentSessionCutoff now))%bool.

Definition index_of (index : gmap string kimiIndexRecord) (id : string) : kimiIndexRecord := default no_index (index !! id).

(** The candidates in the order they are found, the ids with a state file, and the
    cache of state files. *)
Record finding : Type := mkFinding { cands : list candidate; seen : gset string; states : fileDiscoveryCache (list (string * value)) }.

Definition visit_state (includeOld : bool) (index : gmap string kimiIndexRecord) (f : finding) (path : string) : finding :=
  let sessionDir := path_dir path in
  if too_old includeOld (path :: wire_paths sessionDir) (index_of index (Base sessionDir)) then f
  else
    let '(state, c) := readKimiState (states f) path in
    let id := nonempty_or (firstString state session_keys) (Base sessionDir) in
    if is_empty id then mkFinding (cands f) (seen f) c
    else mkFinding (cands f ++ option_list (kimiSessionFromState id sessionDir state (index_of index id))) ({[id]} ∪ seen f) c.

Definition visit_index (includeOld : bool) (root : string) (f : finding) (item : kimiIndexRecord) : finding :=
  let id := xID item in
  if bool_decide (id ∈ seen f) then f
  else
    let sessionDir := if is_empty (xSessionDir item) then path_joins [root; xWorkDirKey item; id] else xSessionDir item in
    if negb (exists_dir d sessionDir) then f
    else if too_old includeOld (path_joins [sessionDir; "state.json"] :: wire_paths sessionDir) item then f
    else mkFinding (cands f ++ option_list (kimiSessionFromState id sessionDir [] item)) (seen f) (states f).

Section Ranges.
Context `{MapOrder}.

(** [discoverCurrent] without the reading of the index. *)
Definition discover_indexed (index : gmap string kimiIndexRecord) (home : string) (includeOld : bool)
    (c : fileDiscoveryCache (list (string * value))) : finding :=
  let root := path_joins [home; "sessions"] in
  match stat d root with
  | NotExist => mkFinding [] ∅ c
  | _ =>
    let f := foldl (visit_state includeOld index) (mkFinding [] ∅ c) (state_files root None (walk d root)) in
    foldl (visit_index includeOld root) f (range_values index)
  end.
End Ranges.

(** ** The legacy store *)

Record legacyKimiWorkDir : Type := mkWorkDir { wdPath : string; wdKey : string }.

(** [md5] is the hexadecimal digest of [crypto/md5]. *)
Variable md5 : string -> string.

Definition legacy_work_dir (v : value) : option legacyKimiWorkDir :=
  match v with
  | VObject item =>
    let dir := firstString item ["path"; "work_dir"; "workDir"; "cwd"] in
    if is_empty dir then None
    else
      let kaos := firstString item ["kaos"] in
      Some (mkWorkDir dir (if (negb (is_empty kaos) && negb (EqualFoldAscii kaos "local"))%bool then kaos +:+ "_" +:+ md5 dir else md5 dir))
  | _ => None
  end.

(** A file that is not there names none. *)
Definition readLegacyKimiWorkDirs (path : string) : res (list legacyKimiWorkDir) :=
  match stat d path with
  | NotExist => Ok []
  | _ =>
    document ← wrap "read legacy kimi metadata: " (readJSONMap (readFile d path));
    Ok (match assoc "work_dirs" document with Some (VArray l) => omap legacy_work_dir l | _ => [] end)
  end.

Definition visit_legacy (includeOld : bool) (root : string) (wd : legacyKimiWorkDir)
    (f : list candidate * fileDiscoveryCache (list (string * value))) (e : string * bool)
    : list candidate * fileDiscoveryCache (list (string * value)) :=
  if (negb e.2 || EqualFoldAscii e.1 "subagents")%bool then f
  else
    let sessionDir := path_joins [path_joins [root; wdKey wd]; e.1] in
    let statePath := path_joins [sessionDir; "state.json"] in
    let history := firstExistingFile d [path_joins [sessionDir; "context.jsonl"]; path_joins [sessionDir; "wire.jsonl"]] in
    if (negb includeOld && (latestFileTime d [statePath; history] <? recentSessionCutoff now))%bool then f
    else
      let '(state, c) := readKimiState f.2 statePath in
      if boolField state archived_keys then (f.1, c)
      else
        let updated := Z.max (firstTime state updated_keys) (latestFileTime d [statePath; history]) in
        let updated := if updated =? zero_time then now else updated in
        (f.1 ++ [(newKimiSession now e.1 sessionDir (wdPath wd) (nonempty_or (firstString state title_keys) e.1) updated,
                  mkRecord e.1 sessionDir (wdPath wd) history true)], c).

Definition visit_work_dir (includeOld : bool) (root : string) (f : list candidate * fileDiscoveryCache (list (string * value)))
    (wd : legacyKimiWorkDir) : list candidate * fileDiscoveryCache (list (string * value)) :=
  match readDir d (path_joins [root; wdKey wd]) with
  | Err _ => f
  | Ok es => foldl (visit_legacy includeOld root wd) f es
  end.

Definition discoverLegacy (root : string) (includeOld : bool) (c : fileDiscoveryCache (list (string * value)))
    : res (list candidate) * fileDiscoveryCache (list (string * value)) :=
  if is_empty (TrimSpace root) then (Ok [], c)
  else
    let sessions := path_joins [root; "sessions"] in
    match stat d sessions with
    | NotExist => (Ok [], c)
    | _ =>
      match (dirs ← readLegacyKimiWorkDirs (path_joins [root; "kimi.json"]);
             match dirs with
             | [] => es ← wrap "read legacy kimi sessions: " (readDir d sessions);
                     Ok ((fun e : string * bool => mkWorkDir "" e.1) <$> List.filter (fun e : string * bool => e.2) es)
             | _ => Ok dirs
             end) with
      | Err e => (Err e, c)
      | Ok dirs => let '(cs, c) := foldl (visit_work_dir includeOld sessions) ([], c) dirs in (Ok cs, c)
      end
    end.

(** ** A round of discovery *)

(** [add]: a candidate that is visible and newer than the one of its id. *)
Definition add (m : gmap string candidate) (c : candidate) : gmap string candidate :=
  if (is_empty (rID c.2) || negb (sessionIsVisible (sStatus c.1) (sLastActivity c.1) now))%bool then m
  else match m !! rID c.2 with
       | Some previous => if sLastActivity c.1 <=? sLastActivity previous.1 then m else <[rID c.2 := c]> m
       | None => <[rID c.2 := c]> m
       end.

Record KimiCLIAdapter : Type := mkKimi {
  currentHome : string;
  legacyHomes : list string;
  sessionRecords : gmap string kimiSessionRecord;
  stateCache : fileDiscoveryCache (list (string * value));
  indexCache : fileDiscoveryCache (gmap string kimiIndexRecord)
}.

Fixpoint legacy_candidates (includeOld : bool) (roots : list string) (c : fileDiscoveryCache (list (string * value)))
    : res (list candidate) * fileDiscoveryCache (list (string * value)) :=
  match roots with
  | [] => (Ok [], c)
  | root :: rest =>
    match discoverLegacy root includeOld c with
    | (Err e, c) => (Err e, c)
    | (Ok cs, c) => match legacy_candidates includeOld rest c with (Err e, c) => (Err e, c) | (Ok cs', c) => (Ok (cs ++ cs'), c) end
    end
  end.

Section Rounds.
Context `{MapOrder}.

Definition discoverCurrent (a : KimiCLIAdapter) (includeOld : bool) : res (list candidate) * KimiCLIAdapter :=
  match readKimiIndex (indexCache a) (path_joins [currentHome a; "session_index.jsonl"]) with
  | (Err e, ic) => (Err e, mkKimi (currentHome a) (legacyHomes a) (sessionRecords a) (stateCache a) ic)
  | (Ok index, ic) =>
    let f := discover_indexed index (currentHome a) includeOld (stateCache a) in
    (Ok (cands f), mkKimi (currentHome a) (legacyHomes a) (sessionRecords a) (states f) ic)
  end.

Definition with_states (a : KimiCLIAdapter) (c : fileDiscoveryCache (list (string * value))) : KimiCLIAdapter :=
  mkKimi (currentHome a) (legacyHomes a) (sessionRecords a) c (indexCache a).

Definition all_candidates (a : KimiCLIAdapter) : res (list candidate) * KimiCLIAdapter :=
  match discoverCurrent a false with
  | (Err e, a) => (Err e, a)
  | (Ok cs, a) =>
    match legacy_candidates false (legacyHomes a) (stateCache a) with
    | (Err e, c) => (Err e, with_states a c)
    | (Ok cs', c) => (Ok (cs ++ cs'), with_states a c)
    end
  end.

(** The sessions, the latest first, and their records. *)
Definition Discover (a : KimiCLIAdapter) : res (list SessionInfo) * KimiCLIAdapter :=
  match all_candidates a with
  | (Err e, a) => (Err e, a)
  | (Ok cs, a) =>
    let m := foldl add ∅ cs in
    let there p := match stat d p with File _ | Directory _ => true | _ => false end in
    (Ok (sort_by (fun s => - sLastActivity s) (fst <$> range_values m)),
     mkKimi (currentHome a) (legacyHomes a) (snd <$> m) (pruneBefore (pruneMissing (stateCache a) there) (recentSessionCutoff now))
       (pruneMissing (indexCache a) there))
  end.

(** The record of an id among candidates: the last one counts. *)
Definition exact_in (nativeID : string) (cs : list candidate) : option kimiSessionRecord :=
  last (List.filter (fun r => String.eqb (rID r) nativeID) (snd <$> cs)).

(** In the legacy stores, up to the first that has it. An error is no answer. *)
Fixpoint exact_legacy (nativeID : string) (roots : list string) (c : fileDiscoveryCache (list (string * value)))
    : option kimiSessionRecord * fileDiscoveryCache (list (string * value)) :=
  match roots with
  | [] => (None, c)
  | root :: rest =>
    match discoverLegacy root true c with
    | (Err _, c) => exact_legacy nativeID rest c
    | (Ok cs, c) => match exact_in nativeID cs with Some r => (Some r, c) | None => exact_legacy nativeID rest c end
    end
  end.

Definition resolve_old (a : KimiCLIAdapter) (nativeID : string) : res kimiSessionRecord * KimiCLIAdapter :=
  let not_found := Err ("kimi session not found: " +:+ nativeID) in
  let '(r, a) := discoverCurrent a true in
  match match r with Ok cs => exact_in nativeID cs | Err _ => None end with
  | Some r => (Ok r, a)
  | None =>
    let '(r, c) := exact_legacy nativeID (legacyHomes a) (stateCache a) in
    (match r with Some r => Ok r | None => not_found end, with_states a c)
  end.

Definition resolveRecord (a : KimiCLIAdapter) (nativeID : string) : res kimiSessionRecord * KimiCLIAdapter :=
  match sessionRecords a !! nativeID with
  | Some r => (Ok r, a)
  | None =>
    match Discover a with
    | (Err e, a) => (Err e, a)
    | (Ok _, a) =>
      match sessionRecords a !! nativeID with
      | Some r => (Ok r, a)
      | None => resolve_old a nativeID
      end
    end
  end.

Definition OwnsSession (a : KimiCLIAdapter) (sessionID : string) : bool * KimiCLIAdapter :=
  match AdapterRegistry.nativeSessionID "kimi_cli" sessionID with
  | Err _ => (false, a)
  | Ok nativeID => let '(r, a) := resolveRecord a nativeID in (is_ok r, a)
  end.

(** The messages, and whether the scan of the file failed. *)
Definition FetchHistory (a : KimiCLIAdapter) (sessionID : string) (limit : Z) : res (list HistoryMessage * bool) * KimiCLIAdapter :=
  match AdapterRegistry.nativeSessionID "kimi_cli" sessionID with
  | Err e => (Err e, a)
  | Ok nativeID =>
    match resolveRecord a nativeID with
    | (Err e, a) => (Err e, a)
    | (Ok r, a) =>
      (if is_empty (rHistoryPath r) then Ok ([], false)
       else
         s ← wrap "open kimi history: " (readFile d (rHistoryPath r));
         let '(lines, failed) := scan_lines historyLimit s in
         Ok (takeLastHistory (messages (scan_file nativeID now (rLegacy r) lines)) limit, failed), a)
    end
  end.
End Rounds.
End Store.
End Fields.

(** [uniquePaths]; the lower case of letters beyond ASCII is left out. *)
Fixpoint unique_from (seen : list string) (paths : list string) : list string :=
  match paths with
  | [] => []
  | p :: ps =>
    let p := TrimSpace p in
    if is_empty p then unique_from seen ps
    else
      let cleaned := Clean p in
      if bool_decide (to_lower cleaned ∈ seen) then unique_from seen ps
      else cleaned :: unique_from (to_lower cleaned :: seen) ps
  end.

Definition uniquePaths (paths : list string) : list string := unique_from [] paths.

Definition NewKimiCLIAdapter (home codeHome shareDir : string) : KimiCLIAdapter :=
  mkKimi (let h := TrimSpace codeHome in if is_empty h then path_joins [home; ".kimi-code"] else h)
    (uniquePaths [TrimSpace shareDir; path_joins [home; ".kimi"]]) ∅ newFileDiscoveryCache newFileDiscoveryCache.

(** * What the stores of Kimi promise

    History is the chat of the file with the fragments of each answer put together
    and thinking left out; discovery shows of each session the newest candidate and
    remembers its record. *)

(** ** History *)

(** What a record means for the chat. *)
Inductive move : Type := Says (role said : string) | Adds (fragment : string) | Ends.

Definition speaks (i : history_item) : bool :=
  ((String.eqb (iRole i) "user" || String.eqb (iRole i) "assistant") && negb (is_empty (iContent i)))%bool.

Definition moves_of (legacy : bool) (i : history_item) : list move :=
  let chat := if speaks i then [Says (iRole i) (iContent i)] else [] in
  if legacy then chat
  else if bool_decide (iEvent i ∈ ["turnbegin"; "steerinput"]) then
    Ends :: (if (String.eqb (iRole i) "user" && negb (is_empty (iContent i)))%bool then [Says "user" (iContent i)] else [])
  else if bool_decide (iEvent i ∈ ["step.begin"; "turnend"; "step.end"]) then [Ends]
  else if bool_decide (iEvent i ∈ ["textpart"; "content.part"]) then (if is_empty (iContent i) then [] else [Adds (iContent i)])
  else if bool_decide (iEvent i ∈ ["tool.call"; "tool.result"]) then []
  else chat.

(** An answer that is not finished is what its fragments make together. *)
Definition finished (answer : option string) : list (string * string) :=
  match answer with
  | None => []
  | Some s => if is_empty (shown s) then [] else [("assistant", shown s)]
  end.

Fixpoint chat (answer : option string) (ms : list move) : list (string * string) :=
  match ms with
  | [] => finished answer
  | Says role said :: ms => finished answer ++ (role, shown said) :: chat None ms
  | Adds fragment :: ms => chat (Some (default "" answer +:+ fragment)) ms
  | Ends :: ms => finished answer ++ chat None ms
  end.

Definition said_of (m : HistoryMessage) : string * string := (hRole m, hContent m).

(** What was said so far, and the answer that is open. *)
Definition said (s : scan) : list (string * string) := said_of <$> messages s.
Definition open_answer (s : scan) : option string := hContent <$> assistantTurn s.

(** The open answer of a scan is one of the assistant. *)
Definition scan_ok (s : scan) : Prop := match assistantTurn s with Some m => hRole m = "assistant" | None => True end.

Section History.
Context `{GoTime}.
Variable nativeID : string.
Variable now : Z.
Variable legacy : bool.

Lemma flush_spec s : scan_ok s ->
  said (flushAssistantTurn s) = said s ++ finished (open_answer s) /\ open_answer (flushAssistantTurn s) = None /\
  scan_ok (flushAssistantTurn s).
Proof.
  unfold scan_ok, flushAssistantTurn, open_answer. destruct (assistantTurn s) as [m|] eqn:E; cbn.
  - intros Hr. split_and!; [|done|done]. unfold said. cbn. destruct (is_empty (shown (hContent m))); [by rewrite app_nil_r|].
    rewrite fmap_app. cbn. unfold said_of. cbn. by rewrite Hr.
  - intros _. rewrite E. cbn. by rewrite app_nil_r.
Qed.

Lemma append_chat_spec i s : open_answer s = None ->
  said (append_chat nativeID now i s) = said s ++ [(iRole i, shown (iContent i))] /\
  open_answer (append_chat nativeID now i s) = None /\ assistantTurn (append_chat nativeID now i s) = assistantTurn s.
Proof. intros Ho. unfold append_chat, said. cbn. rewrite fmap_app. by split_and!. Qed.

Lemma no_answer_ok s : open_answer s = None -> scan_ok s.
Proof. unfold open_answer, scan_ok. by destruct (assistantTurn s). Qed.

Lemma append_fragment_spec i s : scan_ok s ->
  said (append_fragment nativeID now i s) = said s /\
  open_answer (append_fragment nativeID now i s) = Some (default "" (open_answer s) +:+ iContent i) /\
  scan_ok (append_fragment nativeID now i s).
Proof. unfold append_fragment, scan_ok, open_answer, said. destruct (assistantTurn s) as [m|]; cbn; by intros Hr. Qed.

(** The rest of the file is said after what was said already. *)
Definition says_rest (s s' : scan) (ms : list move) : Prop :=
  scan_ok s' /\ forall rest, said s ++ chat (open_answer s) (ms ++ rest) = said s' ++ chat (open_answer s') rest.

Lemma flush_rest s : scan_ok s -> says_rest s (flushAssistantTurn s) [Ends].
Proof.
  intros Hok. destruct (flush_spec s Hok) as (H1 & H2 & H3). split; [done|]. intros rest. cbn. by rewrite H1, H2, app_assoc.
Qed.

Lemma chat_item_rest i s : scan_ok s -> says_rest s (chat_item nativeID now i s) (if speaks i then [Says (iRole i) (iContent i)] else []).
Proof.
  intros Hok. unfold chat_item. fold (speaks i). destruct (speaks i); [|by split].
  destruct (flush_spec s Hok) as (H1 & H2 & H3). destruct (append_chat_spec i _ H2) as (H4 & H5 & _).
  split; [by apply no_answer_ok|]. intros rest. cbn [app chat]. by rewrite H4, H5, H1, <- !app_assoc.
Qed.

Lemma one_of_two (x a b : string) : x ∈ [a; b] -> x = a \/ x = b.
Proof. intros [->|[->|[]%elem_of_nil]%elem_of_cons]%elem_of_cons; auto. Qed.

Lemma scan_item_rest i s : scan_ok s -> says_rest s (scan_item nativeID now legacy i s) (moves_of legacy i).
Proof.
  intros Hok. unfold scan_item, moves_of. destruct legacy; [by apply chat_item_rest|].
  destruct (bool_decide (iEvent i ∈ ["turnbegin"; "steerinput"])) eqn:E1.
  { destruct (flush_rest s Hok) as [Hf Hr]. destruct (flush_spec s Hok) as (H1 & H2 & H3).
    destruct (_ && _)%bool.
    - destruct (append_chat_spec (mkItem "user" (iContent i) (iTime i) (iID i) (iEvent i)) (next_turn (flushAssistantTurn s)) H2) as (H4 & H5 & _).
      change (said (next_turn (flushAssistantTurn s))) with (said (flushAssistantTurn s)) in H4.
      split; [by apply no_answer_ok|]. intros rest. cbn [app chat finished]. by rewrite H4, H5, H1, <- !app_assoc.
    - split; [done|]. intros rest. apply (Hr rest). }
  destruct (String.eqb_spec (iEvent i) "step.begin") as [E2|E2].
  { rewrite E2. change (bool_decide ("step.begin" ∈ ["step.begin"; "turnend"; "step.end"])) with true. cbv iota. destruct (flush_rest s Hok) as [Hf Hr]. by split. }
  destruct (bool_decide (iEvent i ∈ ["textpart"; "content.part"])) eqn:E3.
  { assert (bool_decide (iEvent i ∈ ["step.begin"; "turnend"; "step.end"]) = false) as ->.
    { apply bool_decide_eq_true in E3. by apply one_of_two in E3 as [-> | ->]. }
    destruct (is_empty (iContent i)); [by split|]. destruct (append_fragment_spec i s Hok) as (H1 & H2 & H3).
    split; [done|]. intros rest. cbn [app chat]. by rewrite H1, H2. }
  destruct (bool_decide (iEvent i ∈ ["turnend"; "step.end"])) eqn:E4.
  { assert (bool_decide (iEvent i ∈ ["step.begin"; "turnend"; "step.end"]) = true) as ->; [|by apply flush_rest].
    apply bool_decide_eq_true in E4. by apply one_of_two in E4 as [-> | ->]. }
  assert (bool_decide (iEvent i ∈ ["step.begin"; "turnend"; "step.end"]) = false) as ->.
  { apply bool_decide_eq_false in E4. apply bool_decide_eq_false. by intros [?|?]%elem_of_cons. }
  destruct (bool_decide (iEvent i ∈ ["tool.call"; "tool.result"])); [by split|]. by apply chat_item_rest.
Qed.

Lemma scan_lines_rest lines s : scan_ok s ->
  let s' := foldl (scan_line nativeID now legacy) s lines in
  scan_ok s' /\ said s ++ chat (open_answer s) (mjoin ((fun o => moves_of legacy (parseKimiHistoryItem o)) <$> omap decode_map lines))
                = said s' ++ finished (open_answer s').
Proof.
  revert s. induction lines as [|l ls IH]; intros s Hok; [by split|]. cbn [foldl omap list_omap].
  assert (E : scan_line nativeID now legacy s l = match decode_map l with None => s | Some o => scan_item nativeID now legacy (parseKimiHistoryItem o) s end) by done.
  rewrite E. clear E. destruct (decode_map l) as [o|]; [|by apply IH].
  destruct (scan_item_rest (parseKimiHistoryItem o) s Hok) as [Hok' Hr]. cbn [fmap list_fmap mjoin list_join]. rewrite Hr. by apply IH.
Qed.

Lemma scan_file_said lines : said (scan_file nativeID now legacy lines) =
  chat None (mjoin ((fun o => moves_of legacy (parseKimiHistoryItem o)) <$> omap decode_map lines)).
Proof.
  destruct (scan_lines_rest lines scan_start I) as [Hok Hr]. unfold scan_file. rewrite (proj1 (flush_spec _ Hok)), <- Hr. done.
Qed.
End History.

(** ** Candidates *)

Section Candidates.
Variable now : Z.

(** A candidate that [add] looks at for an id. *)
Definition eligible (id : string) (c : candidate) : Prop :=
  rID c.2 = id /\ id <> "" /\ sessionIsVisible (sStatus c.1) (sLastActivity c.1) now = true.

(** The newest eligible candidate, the first of those that are equally new. *)
Definition newest (id : string) (cs : list candidate) (c : candidate) : Prop :=
  exists l1 l2, cs = l1 ++ c :: l2 /\ eligible id c /\
    (forall x, x ∈ l1 -> eligible id x -> sLastActivity x.1 < sLastActivity c.1) /\
    (forall x, x ∈ l2 -> eligible id x -> sLastActivity x.1 <= sLastActivity c.1).

Definition chosen (cs : list candidate) (m : gmap string candidate) : Prop :=
  forall id, match m !! id with Some c => newest id cs c | None => forall x, x ∈ cs -> ~ eligible id x end.

Lemma newest_snoc_low id cs c x : newest id cs c -> (eligible id x -> sLastActivity x.1 <= sLastActivity c.1) -> newest id (cs ++ [x]) c.
Proof.
  intros (l1 & l2 & -> & He & H1 & H2) Hx. exists l1, (l2 ++ [x]). split; [by rewrite <- app_assoc|]. split; [done|]. split; [done|].
  intros y [Hy| <-%list_elem_of_singleton]%elem_of_app Hey; [by apply H2|by apply Hx].
Qed.

Lemma newest_snoc_top id cs x : eligible id x -> (forall y, y ∈ cs -> eligible id y -> sLastActivity y.1 < sLastActivity x.1) ->
  newest id (cs ++ [x]) x.
Proof. intros He H. exists cs, []. split_and!; [done|done|done|]. by intros y ?%elem_of_nil. Qed.

Lemma newest_all id cs c : newest id cs c -> forall y, y ∈ cs -> eligible id y -> sLastActivity y.1 <= sLastActivity c.1.
Proof.
  intros (l1 & l2 & -> & _ & H1 & H2) y [Hy|[->|Hy]%elem_of_cons]%elem_of_app Hey; [specialize (H1 y Hy Hey); lia|lia|by apply H2].
Qed.

Lemma add_chosen cs m x : chosen cs m -> chosen (cs ++ [x]) (add now m x).
Proof.
  intros Hm id. unfold add. specialize (Hm id).
  destruct (is_empty (rID x.2) || negb (sessionIsVisible (sStatus x.1) (sLastActivity x.1) now))%bool eqn:Ev.
  { assert (Hx : ~ eligible id x).
    { intros (<- & Hne & Hv). apply is_empty_false in Hne. by rewrite Hne, Hv in Ev. }
    destruct (m !! id) as [c|]; [by apply newest_snoc_low|]. intros y [Hy| ->%list_elem_of_singleton]%elem_of_app; [by apply Hm|done]. }
  apply orb_false_iff in Ev as [Hne Hv]. apply is_empty_false in Hne. apply negb_false_iff in Hv.
  destruct (decide (rID x.2 = id)) as [<-|Hid].
  - assert (He : eligible (rID x.2) x) by done. destruct (m !! rID x.2) as [c|] eqn:Em.
    + destruct (sLastActivity x.1 <=? sLastActivity c.1) eqn:El; bool_hyps.
      * rewrite Em. by apply newest_snoc_low.
      * rewrite lookup_insert_eq. apply newest_snoc_top; [done|]. intros y Hy Hey. pose proof (newest_all _ _ _ Hm y Hy Hey). lia.
    + rewrite lookup_insert_eq. apply newest_snoc_top; [done|]. intros y Hy Hey. by destruct (Hm y Hy).
  - assert (Hx : ~ eligible id x) by (by intros (? & _)).
    assert (E : (match m !! rID x.2 with
                 | Some previous => if sLastActivity x.1 <=? sLastActivity previous.1 then m else <[rID x.2:=x]> m
                 | None => <[rID x.2:=x]> m end) !! id = m !! id).
    { destruct (m !! rID x.2); [destruct (_ <=? _); [done|]|]; by rewrite lookup_insert_ne. }
    rewrite E. destruct (m !! id) as [c|]; [by apply newest_snoc_low|].
    intros y [Hy| ->%list_elem_of_singleton]%elem_of_app; [by apply Hm|done].
Qed.

Lemma add_all_chosen cs : chosen cs (foldl (add now) ∅ cs).
Proof.
  induction cs as [|x cs IH] using rev_ind; [intros id; cbn [foldl]; rewrite lookup_empty; by intros x ?%elem_of_nil|].
  rewrite foldl_snoc. by apply add_chosen.
Qed.
End Candidates.

(** A property of discovery: the sessions are, the latest first, the newest eligible
    candidates of their ids in the stores, and the records are theirs. *)
Theorem kimi_discovery_is_newest `{GoTime} `{MapOrder} d now md5 a ss a' :
  Discover d now md5 a = (Ok ss, a') ->
  exists cs, (all_candidates d now md5 a).1 = Ok cs /\
    StronglySorted (fun s t => sLastActivity t <= sLastActivity s) ss /\
    (forall s, s ∈ ss <-> exists id c, newest now id cs c /\ c.1 = s) /\
    (forall id r, sessionRecords a' !! id = Some r <-> exists c, newest now id cs c /\ c.2 = r).
Proof.
  unfold Discover. destruct (all_candidates d now md5 a) as [[cs|e] a1]; [|done]. intros [= <- <-]. exists cs. split; [done|].
  pose proof (add_all_chosen now cs) as Hc. set (m := foldl (add now) ∅ cs) in *. clearbody m.
  assert (Hm : forall id c, m !! id = Some c <-> newest now id cs c).
  { intros id c. specialize (Hc id). split; [intros E; by rewrite E in Hc|]. intros Hn. destruct (m !! id) as [c'|].
    - f_equal. destruct Hc as (l1 & l2 & E1 & He1 & A1 & B1). destruct Hn as (k1 & k2 & E2 & He2 & A2 & B2). rewrite E1 in E2.
      apply app_eq_inv in E2 as [(k & Ek & E)|(k & Ek & E)]; (destruct k as [|z k]; [by injection E|]); injection E as Ez Er; subst z.
      + assert (sLastActivity c.1 < sLastActivity c'.1) by (apply A1; [rewrite Ek; set_solver|done]).
        assert (sLastActivity c'.1 <= sLastActivity c.1) by (apply B2; [rewrite Er; set_solver|done]). lia.
      + assert (sLastActivity c'.1 < sLastActivity c.1) by (apply A2; [rewrite Ek; set_solver|done]).
        assert (sLastActivity c.1 <= sLastActivity c'.1) by (apply B1; [rewrite Er; set_solver|done]). lia.
    - destruct Hn as (l1 & l2 & -> & He & _). destruct (Hc c); [apply elem_of_app; right; by left|done]. }
  split_and!.
  - pose proof (sort_by_sorted (fun s => - sLastActivity s) (fst <$> range_values m)) as Hs.
    induction Hs as [|s l Hs IH Hf]; constructor; [done|]. eapply Forall_impl; [exact Hf|]. unfold le_on. intros x. cbn. lia.
  - intros s. rewrite sort_by_perm, list_elem_of_fmap. split.
    + intros (c & -> & (id & Hid)%elem_of_range_values). exists id, c. split; [by apply Hm|done].
    + intros (id & c & Hn%Hm & <-). exists c. split; [done|]. apply elem_of_range_values. by exists id.
  - intros id r. cbn [sessionRecords]. rewrite lookup_fmap_Some. split; intros (c & H1 & H2); exists c; split; try done; by apply Hm.
Qed.

(** The records of a file, in order. *)
Definition records_of `{GoTime} (lines : list string) : list history_item := parseKimiHistoryItem <$> omap decode_map lines.

(** A property of history: the messages are the end of the chat of the file, at most
    as many as asked for, each answer with its fragments put together. *)
Theorem kimi_history_is_the_chat `{GoTime} `{MapOrder} d now md5 a a' sessionID limit msgs failed :
  FetchHistory d now md5 a sessionID limit = (Ok (msgs, failed), a') ->
  exists nativeID r, AdapterRegistry.nativeSessionID "kimi_cli" sessionID = Ok nativeID /\ (resolveRecord d now md5 a nativeID).1 = Ok r /\
    (rHistoryPath r = "" /\ msgs = [] \/
     exists content before,
       readFile d (rHistoryPath r) = Ok content /\
       before ++ (said_of <$> msgs) = chat None (mjoin (moves_of (rLegacy r) <$> records_of (scan_lines historyLimit content).1)) /\
       Z.of_nat (length msgs) = Z.min (Z.of_nat (length before + length msgs)) (clampHistoryLimit limit)).
Proof.
  unfold FetchHistory. destruct (AdapterRegistry.nativeSessionID "kimi_cli" sessionID) as [nativeID|e] eqn:En; [|done].
  destruct (resolveRecord d now md5 a nativeID) as [[r|e] a1] eqn:Er; [|done]. intros [= Hm <-]. exists nativeID, r.
  split; [done|]. rewrite Er. split; [done|]. destruct (is_empty (rHistoryPath r)) eqn:Ep.
  { left. apply is_empty_true in Ep. injection Hm as <- _. done. }
  right. destruct (readFile d (rHistoryPath r)) as [s|e]; cbn in Hm; [|done].
  destruct (scan_lines historyLimit s) as [lines f] eqn:Es. injection Hm as <- _.
  pose proof (scan_file_said nativeID now (rLegacy r) lines) as Hs. set (all := messages (scan_file nativeID now (rLegacy r) lines)) in *.
  destruct (CodexRolloutSpec.takeLastHistory_suffix all limit) as (before & Hb & Hl). exists s, (said_of <$> before). split; [done|].
  rewrite Es. cbn [fst]. split.
  - rewrite <- fmap_app, <- Hb. unfold records_of. rewrite <- list_fmap_compose. exact Hs.
  - rewrite length_fmap. rewrite Hl. f_equal. rewrite Hb at 1. by rewrite length_app.
Qed.

(** ** Concrete stores *)

Module Demo.

#[local] Instance no_time : GoTime := {| time_Parse := fun _ _ => None |}.
#[local] Instance demo_order : MapOrder := canonical_order.

Definition dir : string := "/h/.kimi-code/sessions/w/s1".
Definition wire : string := join_byte lf
  [doc "{'message':{'type':'TurnBegin','payload':{'user_input':'hi'}}}";
   doc "{'message':{'type':'TextPart','payload':{'text':'one '}}}";
   doc "{'message':{'type':'ThinkPart','payload':{'think':'hidden'}}}";
   doc "{'message':{'type':'TextPart','payload':{'text':'answer'}}}";
   doc "{'message':{'type':'TurnEnd','payload':{}}}";
   doc "{'message':{'type':'TextPart','payload':{'text':'again'}}}"].

Definition files : list (string * string) :=
  [(dir +:+ "/state.json", doc "{'title':'T','cwd':'/p'}"); (dir +:+ "/wire.jsonl", wire)].

Definition contents (p : string) : option string := snd <$> List.find (fun kv => String.eqb kv.1 p) files.

Definition d : disk := mkDisk
  (fun p => match contents p with
            | Some s => File (mkFingerprint (len s) 1000)
            | None => if bool_decide (p ∈ ["/h/.kimi-code/sessions"; dir]) then Directory (mkFingerprint 0 0) else NotExist
            end)
  (fun p => match contents p with Some s => Ok s | None => Err "no such file" end)
  (fun _ => Err "no such directory")
  (fun _ => [("/h/.kimi-code/sessions", true); ("/h/.kimi-code/sessions/w", true); (dir, true); (dir +:+ "/state.json", false); (dir +:+ "/wire.jsonl", false)]).

Definition a : KimiCLIAdapter := NewKimiCLIAdapter "/h" "" "".

Lemma kimi_discovery_is_newest_witness :
  exists ss, (Discover d 2000 (fun s => s) a).1 = Ok ss /\ (sID <$> ss) = ["kimi_cli:s1"] /\
    StronglySorted (fun s t => sLastActivity t <= sLastActivity s) ss.
Proof.
  eexists. split; [vm_compute; reflexivity|]. split; [reflexivity|].
  destruct (kimi_discovery_is_newest d 2000 (fun s => s) a _ (Discover d 2000 (fun s => s) a).2 eq_refl) as (cs & _ & H & _). exact H.
Defined.

(** The fragments of an answer are one message; thinking is not in it. The text
    behind the end of the turn has the id of the answer before it. *)
Example history_of_the_demo :
  (fun r => match r.1 with Ok (ms, failed) => Some ((fun m => (hID m, hRole m, hContent m)) <$> ms, failed) | Err _ => None end)
    (FetchHistory d 2000 (fun s => s) a "kimi_cli:s1" 10)
  = Some ([("kimi_s1_1", "user", "hi"); ("kimi_s1_turn_1_assistant", "assistant", "one answer"); ("kimi_s1_turn_1_assistant", "assistant", "again")], false).
Proof. vm_compute. reflexivity. Qed.

Lemma kimi_history_is_the_chat_witness :
  exists before, before ++ [("assistant", "again")]
    = chat None (mjoin (moves_of false <$> records_of (scan_lines historyLimit wire).1)).
Proof.
  destruct (kimi_history_is_the_chat d 2000 (fun s => s) a (FetchHistory d 2000 (fun s => s) a "kimi_cli:s1" 1).2 "kimi_cli:s1" 1
              [mkHistory "kimi_s1_turn_1_assistant" "assistant" "again" "text" 0] false) as (n & r & Hn & Hr & H); [vm_compute; reflexivity|].
  vm_compute in Hn. injection Hn as <-. vm_compute in Hr. injection Hr as <-. destruct H as [[H _]|(content & before & Hc & H & _)]; [discriminate H|].
  vm_compute in Hc. injection Hc as <-. exists before. exact H.
Defined.
End Demo.
