(* ===== verification/GrokCommander.v ===== *)
(** * Driving the CLI of Grok (daemon/internal/agentexec/grok.go)

    Prompts, the lines of its output, and the streams that gather their chunks and
    show them at steps of 512 bytes or when a timer fires. An operation that holds
    [dispatchMu] is one step, since what it shows comes before the next one. A
    stopped timer whose function has begun still runs it; the streams live in a heap
    because those functions keep the one they were armed for. *)

From stdpp Require Import base tactics list gmap strings sorting.
From Stdlib Require Import Ascii ZArith Lia.
From S2P Require Import Prelude GoStrings Json Protocol JsonDecode CodexRollout.
From S2P Require Import ClaudeCommander.

(** ** Arguments and lines *)

Definition grokMaxStreamBytes : Z := 64 * 1024.
Definition grokEmitStepBytes : Z := 512.

Definition with_dir (workDir : string) (args : list string) : list string := if is_empty workDir then args else args ++ ["--cwd"; workDir].

Definition grokResumeArgs (sessionID prompt workDir : string) : list string :=
  with_dir workDir ["--resume"; sessionID; "-p"; prompt; "--output-format"; "streaming-json"; "--permission-mode"; "auto"].
Definition grokStartArgs (sessionID prompt workDir : string) : list string :=
  with_dir workDir ["--session-id"; sessionID; "-p"; prompt; "--output-format"; "streaming-json"; "--permission-mode"; "auto"].

Definition grokACPUpdate (msg : list (string * value)) : option (list (string * value)) :=
  params ← as_map (assoc "params" msg); as_map (assoc "update" params).

Definition grokACPText (update : list (string * value)) : string :=
  match assoc "content" update with
  | Some (VString s) => s
  | Some (VObject content) => member content "text"
  | _ => ""
  end.

Definition grokPromptAcknowledged (line : string) : bool :=
  match decode_map line with
  | None => false
  | Some msg =>
    if String.eqb (member msg "method") "session/update" then
      match grokACPUpdate msg with
      | None => false
      | Some update =>
        bool_decide (member update "sessionUpdate" ∈
          ["agent_message_chunk"; "agent_thought_chunk"; "tool_call"; "tool_call_update"; "tool_call_progress"; "turn_completed"])
      end
    else bool_decide (member msg "type" ∈ ["text"; "thought"; "tool"; "tool_call"; "tool_use"; "end"; "done"; "complete"])
  end.

(** What a line asks for. *)
Inductive stream_kind : Type := Text | Thought.

Inductive line_effect : Type :=
  | Chunk (kind : stream_kind) (chunk nativeID : string)
  | Flush
  | ErrorShown (message : string)
  | Nothing.

Definition handleACPSessionUpdate (msg : list (string * value)) : line_effect :=
  match grokACPUpdate msg with
  | None => Nothing
  | Some update =>
    let t := member update "sessionUpdate" in
    let text := grokACPText update in
    if String.eqb t "agent_message_chunk" then (if is_empty text then Nothing else Chunk Text text (member update "messageId"))
    else if String.eqb t "agent_thought_chunk" then (if is_empty text then Nothing else Chunk Thought text (member update "messageId"))
    else if String.eqb t "turn_completed" then Flush
    else Nothing
  end.

Definition parseAndForwardOutput (line : string) : line_effect :=
  match decode_map line with
  | None => Chunk Text line ""
  | Some msg =>
    if String.eqb (member msg "method") "session/update" then handleACPSessionUpdate msg
    else
      let t := member msg "type" in
      if String.eqb t "text" then Chunk Text (member msg "data") ""
      else if String.eqb t "thought" then Chunk Thought (member msg "data") ""
      else if String.eqb t "error" then (let m := member msg "message" in if is_empty m then Nothing else ErrorShown m)
      else if bool_decide (t ∈ ["end"; "done"; "complete"]) then Flush
      else Nothing
  end.

Definition handleProcessLine (source line : string) : line_effect := if String.eqb source "stdout" then parseAndForwardOutput line else Nothing.

(** ** Streams *)

(** What was gathered, its message, and how much of it was shown. *)
Record buffer : Type := mkBuffer { content : string; messageID : string; emitted : Z }.

(** [owner] is the session of the stream; [emitTimer] is [Some true] while it waits and [Some false] once its function has
    begun; [leaked] timers wait without being known, [firing] functions have not yet
    got the mutex. *)
Record grokStreamState : Type := mkStream {
  owner : string;
  text : buffer;
  thought : buffer;
  emitTimer : option bool;
  leaked : nat;
  firing : nat
}.

Definition appendGrokStreamChunk (s chunk : string) : string :=
  let remaining := grokMaxStreamBytes - len s in
  if ((remaining <=? 0) || is_empty chunk)%bool then s
  else if remaining <? len chunk then s +:+ take_bytes (utf8_cut (Z.to_nat remaining) chunk) chunk
  else s +:+ chunk.

(** [noteGrokPending]: whether to show, with the length that is shown then. *)
Definition noteGrokPending (emitted length : Z) : bool :=
  ((emitted =? 0) || (grokEmitStepBytes <=? length - emitted) || ((length =? grokMaxStreamBytes) && (emitted <? length)))%bool.

Definition pending (b : buffer) : bool := emitted b <? len (content b).
Definition pendingOther (s : grokStreamState) : bool := (pending (text s) || pending (thought s))%bool.

Definition new_stream (sessionID : string) (now : Z) : grokStreamState :=
  mkStream sessionID (mkBuffer "" ("grok_" +:+ sessionID +:+ "_text_" +:+ Itoa now) 0) (mkBuffer "" ("grok_" +:+ sessionID +:+ "_thought_" +:+ Itoa now) 0)
    None 0 0.

Definition stopEmitTimerLocked (s : grokStreamState) : grokStreamState := mkStream (owner s) (text s) (thought s) None (leaked s) (firing s).

Definition scheduleEmitLocked (s : grokStreamState) : grokStreamState :=
  match emitTimer s with Some _ => s | None => mkStream (owner s) (text s) (thought s) (Some true) (leaked s) (firing s) end.

Definition buffer_of (k : stream_kind) (s : grokStreamState) : buffer := match k with Text => text s | Thought => thought s end.
Definition set_buffer (k : stream_kind) (b : buffer) (s : grokStreamState) : grokStreamState :=
  match k with
  | Text => mkStream (owner s) b (thought s) (emitTimer s) (leaked s) (firing s)
  | Thought => mkStream (owner s) (text s) b (emitTimer s) (leaked s) (firing s)
  end.

(** What is handed to [OnAgentOutput]; an error is shown at once and changes no
    stream. *)
Record output : Type := mkOutput { oKind : stream_kind; oContent : string; oID : string }.

Definition show (k : stream_kind) (b : buffer) : output := mkOutput k (content b) (messageID b).

(** The part of [emitChunk] that holds [mu]. *)
Definition chunk_buffer (b : buffer) (chunk nativeID : string) : bool * buffer :=
  let id := if (negb (is_empty nativeID) && (len (content b) =? 0))%bool then nativeID else messageID b in
  let c := appendGrokStreamChunk (content b) chunk in
  let now := noteGrokPending (emitted b) (len c) in
  (now, mkBuffer c id (if now then len c else emitted b)).

Definition chunk_stream (k : stream_kind) (chunk nativeID : string) (s : grokStreamState) : list output * grokStreamState :=
  let '(now, b) := chunk_buffer (buffer_of k s) chunk nativeID in
  let s := set_buffer k b s in
  let s := if (now && negb (pendingOther s))%bool then stopEmitTimerLocked s
           else if (pendingOther s || negb now)%bool then scheduleEmitLocked s
           else s in
  (if now then [show k b] else [], s).

(** Everything that is pending. *)
Definition flush_buffer (k : stream_kind) (b : buffer) : list output * buffer :=
  if pending b then ([show k b], mkBuffer (content b) (messageID b) (len (content b))) else ([], b).

Definition flush_buffers (s : grokStreamState) : list output * grokStreamState :=
  let '(l1, t) := flush_buffer Text (text s) in
  let '(l2, h) := flush_buffer Thought (thought s) in
  (l1 ++ l2, mkStream (owner s) t h (emitTimer s) (leaked s) (firing s)).

(** ** The commander *)

(** [current] has the streams of the table, [states] all there were; [shown] is
    what each of them has shown so far. *)
Record GrokCommander : Type := mkGrok {
  heap : gmap nat AgentExecutor;
  executors : gmap string nat;
  nextID : nat;
  states : gmap nat grokStreamState;
  current : gmap string nat;
  nextState : nat;
  shown : list (nat * output)
}.

Definition NewGrokCommander : GrokCommander := mkGrok ∅ ∅ 0 ∅ ∅ 0 [].

Definition set_streams (c : GrokCommander) (st : gmap nat grokStreamState) (cur : gmap string nat) : GrokCommander :=
  mkGrok (heap c) (executors c) (nextID c) st cur (nextState c) (shown c).
Definition set_processes (c : GrokCommander) (h : gmap nat AgentExecutor) (ex : gmap string nat) (n : nat) : GrokCommander :=
  mkGrok h ex n (states c) (current c) (nextState c) (shown c).
Definition with_shown (c : GrokCommander) (p : nat) (l : list output) : GrokCommander :=
  mkGrok (heap c) (executors c) (nextID c) (states c) (current c) (nextState c) (shown c ++ ((fun o => (p, o)) <$> l)).

Definition stream_of (c : GrokCommander) (sessionID : string) : option (nat * grokStreamState) :=
  p ← current c !! sessionID; s ← states c !! p; Some (p, s).

Definition clearStreamLocked (sessionID : string) (c : GrokCommander) : GrokCommander :=
  match stream_of c sessionID with
  | Some (p, s) => set_streams c (<[p := stopEmitTimerLocked s]> (states c)) (base.delete sessionID (current c))
  | None => set_streams c (states c) (base.delete sessionID (current c))
  end.

Definition add_stream (sessionID : string) (now : Z) (c : GrokCommander) : GrokCommander :=
  mkGrok (heap c) (executors c) (nextID c) (<[nextState c := new_stream sessionID now]> (states c)) (<[sessionID := nextState c]> (current c))
    (S (nextState c)) (shown c).

Definition replaceStreamLocked (sessionID : string) (now : Z) (c : GrokCommander) : GrokCommander :=
  add_stream sessionID now (clearStreamLocked sessionID c).

Definition emitChunk (sessionID : string) (k : stream_kind) (chunk nativeID : string) (now : Z) (c : GrokCommander) : GrokCommander :=
  if is_empty chunk then c
  else
    let c := match stream_of c sessionID with Some _ => c | None => add_stream sessionID now c end in
    match stream_of c sessionID with
    | Some (p, s) =>
      let '(l, s) := chunk_stream k chunk nativeID s in
      with_shown (set_streams c (<[p := s]> (states c)) (current c)) p l
    | None => c
    end.

Definition flushStream (sessionID : string) (c : GrokCommander) : GrokCommander :=
  match stream_of c sessionID with
  | Some (p, s) =>
    let '(l, s) := flush_buffers (stopEmitTimerLocked s) in
    with_shown (set_streams c (<[p := s]> (states c)) (current c)) p l
  | None => c
  end.

(** A waiting timer begins its function: the one that is known, or one that is not. *)
Definition timer_fires (known : bool) (p : nat) (c : GrokCommander) : option GrokCommander :=
  s ← states c !! p;
  s' ← (if (known : bool)
        then match emitTimer s with Some true => Some (mkStream (owner s) (text s) (thought s) (Some false) (leaked s) (S (firing s))) | _ => None end
        else match leaked s with S n => Some (mkStream (owner s) (text s) (thought s) (emitTimer s) n (S (firing s))) | O => None end);
  Some (set_streams c (<[p := s']> (states c)) (current c)).

(** [flushScheduled] of the stream [p]. *)
Definition flushScheduled (p : nat) (c : GrokCommander) : option GrokCommander :=
  s ← states c !! p;
  match firing s with
  | O => None
  | S n =>
    if bool_decide (current c !! owner s = Some p) then
      let forgotten := match emitTimer s with Some true => S (leaked s) | _ => leaked s end in
      let '(l, s) := flush_buffers (mkStream (owner s) (text s) (thought s) None forgotten n) in
      Some (with_shown (set_streams c (<[p := s]> (states c)) (current c)) p l)
    else Some (set_streams c (<[p := mkStream (owner s) (text s) (thought s) (emitTimer s) (leaked s) n]> (states c)) (current c))
  end.

(** ** Processes *)

Definition executor_of (c : GrokCommander) (sessionID : string) : option (nat * AgentExecutor) :=
  p ← executors c !! sessionID; e ← heap c !! p; Some (p, e).

Definition IsSessionRunning (c : GrokCommander) (sessionID : string) : bool :=
  match executor_of c sessionID with Some (_, e) => IsRunning e | None => false end.

(** [startPromptInDir] *)
Definition startPromptInDir (available : bool) (launch : list string -> string -> res unit) (sessionID : string) (args : list string)
    (workDir : string) (now : Z) (c : GrokCommander) : res nat * GrokCommander :=
  if IsSessionRunning c sessionID then
    (Err (ErrSessionBusy +:+ ": grok session " +:+ sessionID +:+ " is still running; wait for it to finish"), c)
  else if negb available then (Err "grok CLI not found", c)
  else
    let c := replaceStreamLocked sessionID now c in
    match StartWithDir (launch args workDir) (NewAgentExecutor sessionID) with
    | Err e => (Err ("start grok: " +:+ e), clearStreamLocked sessionID c)
    | Ok e => (Ok (nextID c), set_processes c (<[nextID c := CloseStdin e]> (heap c)) (<[sessionID := nextID c]> (executors c)) (S (nextID c)))
    end.

Definition SendPromptInDir (available : bool) (launch : list string -> string -> res unit) (sessionID prompt workDir : string) (now : Z)
    (c : GrokCommander) : res nat * GrokCommander :=
  startPromptInDir available launch sessionID (grokResumeArgs sessionID prompt workDir) workDir now c.

Definition ProbeThreadStart (command : string) (found launch : res unit) (help : string * res unit) : res unit :=
  probeCLIHelp command found launch help ["--session-id"; "--output-format"; "streaming-json"].

(** [StartThread] up to the wait; the new id is given. *)
Definition StartThread_launch (probed : res unit) (available : bool) (launch : list string -> string -> res unit) (sessionID workDir prompt : string)
    (now : Z) (c : GrokCommander) : res nat * GrokCommander :=
  match probed with
  | Err e => (Err e, c)
  | Ok _ => startPromptInDir available launch sessionID (grokStartArgs sessionID prompt workDir) workDir now c
  end.

Definition StartThread_result (probed : res unit) (started : res nat) (acked : res unit) (sessionID : string)
    : string * bool * bool * option string :=
  match probed, started, acked with
  | Err e, _, _ => ("", false, false, Some e)
  | _, Err e, _ => (sessionID, false, false, Some e)
  | _, _, Ok _ => (sessionID, true, true, None)
  | _, _, Err e => (sessionID, true, false, Some ("Grok initial prompt was not confirmed: " +:+ e))
  end.

(** A line of the output of a process, which is read before the process is reaped;
    on standard error it is only remembered. *)
Definition output_line (e : nat) (source line : string) (now : Z) (c : GrokCommander) : option GrokCommander :=
  x ← heap c !! e;
  if negb (running x) then None else
  let '(suppressed, x') := suppress source x in
  let c := set_processes c (<[e := x']> (heap c)) (executors c) (nextID c) in
  Some (if (suppressed : bool) then c
        else match handleProcessLine source line with
             | Chunk k chunk nativeID => emitChunk (session x) k chunk nativeID now c
             | Flush => flushStream (session x) c
             | ErrorShown _ | Nothing => c
             end).

(** The part of [OnExit] that holds [mu], after the stream was flushed. *)
Definition forget (e : nat) (c : GrokCommander) : GrokCommander :=
  match heap c !! e with
  | Some x =>
    if bool_decide (executors c !! session x = Some e)
    then clearStreamLocked (session x) (set_processes c (heap c) (base.delete (session x) (executors c)) (nextID c))
    else c
  | None => c
  end.

Definition InterruptSession (signalled : res unit) (sessionID : string) (c : GrokCommander) : res unit * GrokCommander :=
  match executor_of c sessionID with
  | None => (Err ("no running executor for session " +:+ sessionID), c)
  | Some (p, e) => let '(r, e) := Interrupt signalled e in (r, set_processes c (<[p := e]> (heap c)) (executors c) (nextID c))
  end.

Definition StopAll `{MapOrder} (c : GrokCommander) : GrokCommander :=
  let taken := range_values (executors c) in
  let c := set_processes c (heap c) ∅ (nextID c) in
  let c := foldl (fun c sessionID => clearStreamLocked sessionID c) c (fst <$> range (current c)) in
  foldl (fun c p => match heap c !! p with Some e => set_processes c (<[p := Stop e]> (heap c)) (executors c) (nextID c) | None => c end) c taken.

(** [Approve] and [Deny] *)
Definition refused (verb approvalID sessionID : string) : res unit :=
  Err ("approval_unavailable: Grok headless mode cannot " +:+ verb +:+ " approval " +:+ approvalID +:+ " for session " +:+ sessionID).
Definition Approve (sessionID approvalID : string) : res unit := refused "accept" approvalID sessionID.
Definition Deny (sessionID approvalID : string) : res unit := refused "deny" approvalID sessionID.

(** ** Steps *)

Inductive event : Type :=
  | PromptSent (available : bool) (launch : list string -> string -> res unit) (sessionID prompt workDir : string) (now : Z)
  | ThreadStarted (probed : res unit) (available : bool) (launch : list string -> string -> res unit) (sessionID workDir prompt : string) (now : Z)
  | LineRead (e : nat) (source line : string) (now : Z)
  | TimerFires (known : bool) (p : nat)
  | ScheduledFlush (p : nat)
  | ProcessEnded (e : nat) (code : Z)
  | ExitFlush (e : nat)
  | ExitForget (e : nat)
  | Interrupted (signalled : res unit) (sessionID : string).

Definition step (ev : event) (c : GrokCommander) : option GrokCommander :=
  match ev with
  | PromptSent available launch sessionID prompt workDir now => Some (SendPromptInDir available launch sessionID prompt workDir now c).2
  | ThreadStarted probed available launch sessionID workDir prompt now =>
    Some (StartThread_launch probed available launch sessionID workDir prompt now c).2
  | LineRead e source line now => output_line e source line now c
  | TimerFires known p => timer_fires known p c
  | ScheduledFlush p => flushScheduled p c
  | ProcessEnded e code => x ← heap c !! e; if negb (running x) then None else Some (set_processes c (<[e := reap code x]> (heap c)) (executors c) (nextID c))
  | ExitFlush e => x ← heap c !! e; if running x then None else Some (flushStream (session x) c)
  | ExitForget e => x ← heap c !! e; if running x then None else Some (forget e c)
  | Interrupted signalled sessionID => Some (InterruptSession signalled sessionID c).2
  end.

(** * What the streams of Grok promise

    What the phone is shown of an answer are growing beginnings of what was
    gathered, under one message id; what is not shown yet has a timer, and the end
    of a process shows the rest. *)

#[export] Instance stream_kind_eq_dec : EqDecision stream_kind.
Proof. solve_decision. Defined.

(** ** Beginnings of a text *)

Lemma take_bytes_whole s : take_bytes (String.length s) s = s.
Proof. induction s as [|c s IH]; [done|]. cbn. by rewrite IH. Qed.

Lemma take_bytes_app n s t : (n <= String.length s)%nat -> take_bytes n (s +:+ t) = take_bytes n s.
Proof.
  revert n. induction s as [|c s IH]; intros n Hn.
  - destruct n; [|cbn in Hn; lia]. by destruct t.
  - destruct n as [|n]; [done|]. cbn [String.length] in Hn. rewrite string_app_cons. cbn [take_bytes]. f_equal. apply IH. lia.
Qed.

Lemma appendGrokStreamChunk_prefix s chunk : exists t, appendGrokStreamChunk s chunk = s +:+ t.
Proof.
  unfold appendGrokStreamChunk. destruct (_ || _)%bool; [exists ""; by rewrite string_app_nil|]. destruct (_ <? _); by eexists.
Qed.

Lemma appendGrokStreamChunk_len s chunk : len s <= grokMaxStreamBytes -> len (appendGrokStreamChunk s chunk) <= grokMaxStreamBytes.
Proof.
  intros Hs. unfold appendGrokStreamChunk. destruct (_ || _)%bool eqn:E; [done|]. apply orb_false_iff in E as [E _]. bool_hyps.
  destruct (_ <? _) eqn:E2; bool_hyps; rewrite len_app; [|lia]. rewrite len_take_bytes.
  pose proof (utf8_cut_le (Z.to_nat (grokMaxStreamBytes - len s)) chunk). lia.
Qed.

(** Cutting keeps whole characters. *)
Lemma appendGrokStreamChunk_valid s chunk : ValidString s = true -> ValidString chunk = true -> ValidString (appendGrokStreamChunk s chunk) = true.
Proof.
  intros Hs Hc. unfold appendGrokStreamChunk. destruct (_ || _)%bool; [done|].
  destruct (_ <? _); apply ValidString_app; [done|apply utf8_cut_valid|done|done].
Qed.

(** ** A buffer and what it has shown *)

Definition visible_of (k : stream_kind) (l : list output) : list output :=
  List.filter (fun o => (bool_decide (oKind o = k) && negb (is_empty (oContent o)))%bool) l.

Definition beginnings (k : stream_kind) (b : buffer) (ns : list nat) : list output :=
  (fun n => mkOutput k (take_bytes n (content b)) (messageID b)) <$> ns.

(** The lengths that were shown grow, up to [emitted]. *)
Definition growing (ns : list nat) (e : Z) : Prop :=
  StronglySorted lt ns /\ Forall (fun n : nat => 0 < Z.of_nat n <= e) ns /\ last ns = (if e =? 0 then None else Some (Z.to_nat e)).

Record buffer_ok (k : stream_kind) (b : buffer) (l : list output) : Prop := mkBufferOk {
  emitted_bounds : 0 <= emitted b <= len (content b);
  content_bounded : len (content b) <= grokMaxStreamBytes;
  shown_grows : exists ns, l = beginnings k b ns /\ growing ns (emitted b)
}.

Lemma growing_nil : growing [] 0.
Proof. split_and!; [constructor|constructor|done]. Qed.

Lemma growing_zero ns : growing ns 0 -> ns = [].
Proof. intros (_ & _ & H). by apply last_None in H. Qed.

Lemma growing_snoc ns e n : growing ns e -> 0 <= e -> e < n -> growing (ns ++ [Z.to_nat n]) n.
Proof.
  intros (Hs & Hf & Hl) He Hn. split_and!.
  - apply StronglySorted_app_2; [|done|by repeat constructor]. intros x y Hx ->%list_elem_of_singleton.
    rewrite Forall_forall in Hf. specialize (Hf x Hx). lia.
  - apply Forall_app. split; [eapply Forall_impl; [exact Hf|cbn; lia]|]. apply Forall_singleton. lia.
  - rewrite last_snoc. by destruct (Z.eqb_spec n 0); [lia|].
Qed.

Lemma beginnings_grow k b c' ns e : growing ns e -> e <= len (content b) -> (exists t, c' = content b +:+ t) ->
  beginnings k (mkBuffer c' (messageID b) (emitted b)) ns = beginnings k b ns.
Proof.
  intros (_ & Hf & _) He [t ->]. unfold beginnings. apply list_fmap_ext. intros i n Hi. cbn.
  rewrite Forall_lookup in Hf. specialize (Hf i n Hi). unfold len in He. rewrite take_bytes_app by lia. done.
Qed.

Lemma chunk_buffer_ok k b l chunk native : buffer_ok k b l ->
  let '(now, b') := chunk_buffer b chunk native in
  buffer_ok k b' (l ++ visible_of k (if now then [show k b'] else [])).
Proof.
  intros [He Hc (ns & -> & Hg)]. unfold chunk_buffer. cbv zeta.
  set (id := if (negb (is_empty native) && (len (content b) =? 0))%bool then native else messageID b).
  set (c' := appendGrokStreamChunk (content b) chunk).
  destruct (appendGrokStreamChunk_prefix (content b) chunk) as [t Ht]. fold c' in Ht.
  assert (Hl : len (content b) <= len c') by (rewrite Ht, len_app; pose proof (len_nonneg t); lia).
  assert (Hm : len c' <= grokMaxStreamBytes) by (by apply appendGrokStreamChunk_len).
  assert (Hb : beginnings k b ns = beginnings k (mkBuffer c' id (emitted b)) ns).
  { destruct (len (content b) =? 0) eqn:Ez; bool_hyps.
    - assert (emitted b = 0) as E0 by lia. rewrite E0 in Hg. by apply growing_zero in Hg as ->.
    - unfold id. rewrite andb_false_r. symmetry. eapply beginnings_grow; [exact Hg|lia|by exists t]. }
  rewrite Hb. clearbody id c'. destruct (noteGrokPending (emitted b) (len c')) eqn:En.
  2: { constructor; cbn [emitted content messageID]; [lia|done|]. exists ns. by rewrite app_nil_r. }
  unfold visible_of, show. cbn [List.filter oKind oContent content messageID]. rewrite bool_decide_true by done. cbn [andb].
  destruct (is_empty c') eqn:Ez; cbn.
  - apply is_empty_true in Ez as ->. change (len "") with 0 in *. assert (emitted b = 0) as E0 by lia. rewrite E0 in *.
    rewrite app_nil_r. constructor; cbn [emitted content messageID]; [done|done|]. by exists ns.
  - apply is_empty_false in Ez. assert (0 < len c') by (pose proof (len_nonneg c'); pose proof (proj1 (len_zero c')); destruct (Z.eq_dec (len c') 0); [naive_solver|lia]).
    assert (emitted b < len c').
    { unfold noteGrokPending in En. rewrite !orb_true_iff, andb_true_iff in En. unfold grokEmitStepBytes in En. destruct En as [[En|En]|[_ En]]; bool_hyps; lia. }
    constructor; cbn [emitted content messageID]; [lia|done|]. exists (ns ++ [Z.to_nat (len c')]). split.
    + unfold beginnings. rewrite fmap_app. f_equal. cbn. f_equal. unfold len. rewrite Nat2Z.id. by rewrite take_bytes_whole.
    + apply (growing_snoc ns (emitted b)); [done|lia|lia].
Qed.

Lemma flush_buffer_ok k b l : buffer_ok k b l ->
  let '(o, b') := flush_buffer k b in buffer_ok k b' (l ++ visible_of k o) /\ pending b' = false /\ content b' = content b /\ messageID b' = messageID b.
Proof.
  intros [He Hc (ns & -> & Hg)]. unfold flush_buffer. destruct (pending b) eqn:Ep; unfold pending in *; bool_hyps.
  - split_and!; [|cbn; by apply Z.ltb_irrefl|done|done].
    assert (Hz : is_empty (content b) = false) by (apply is_empty_false; intros E; rewrite E in *; change (len "") with 0 in *; lia).
    unfold visible_of, show. cbn [List.filter oKind oContent content messageID]. rewrite bool_decide_true by done. rewrite Hz. cbn.
    constructor; cbn [emitted content messageID]; [lia|done|]. exists (ns ++ [Z.to_nat (len (content b))]). split.
    + unfold beginnings. rewrite fmap_app. cbn. f_equal. unfold len. rewrite Nat2Z.id. by rewrite take_bytes_whole.
    + apply (growing_snoc ns (emitted b)); [done|lia|lia].
  - split_and!; [|by apply Z.ltb_ge|done|done]. cbn. rewrite app_nil_r. constructor; [done|done|by exists ns].
Qed.

(** ** A stream *)

Definition stream_shows (s : grokStreamState) (l : list output) : Prop := forall k, buffer_ok k (buffer_of k s) (visible_of k l).

(** What is pending in a stream of the table has a timer, and one whose function has
    begun has not got the mutex yet. *)
Definition timed (live : Prop) (s : grokStreamState) : Prop :=
  live -> (emitTimer s = Some false -> firing s <> O) /\ (pendingOther s = true -> emitTimer s <> None).

Lemma visible_of_app k l1 l2 : visible_of k (l1 ++ l2) = visible_of k l1 ++ visible_of k l2.
Proof. unfold visible_of. apply List.filter_app. Qed.

Lemma visible_of_other k k' b : k <> k' -> visible_of k [show k' b] = [].
Proof. intros Hne. unfold visible_of, show. cbn. by rewrite bool_decide_false by (by intros ->). Qed.

Lemma buffer_set k k' b s : buffer_of k (set_buffer k' b s) = if decide (k = k') then b else buffer_of k s.
Proof. by destruct k, k'. Qed.

Lemma buffer_stop k s : buffer_of k (stopEmitTimerLocked s) = buffer_of k s. Proof. by destruct k. Qed.
Lemma buffer_schedule k s : buffer_of k (scheduleEmitLocked s) = buffer_of k s.
Proof. unfold scheduleEmitLocked. by destruct (emitTimer s), k. Qed.
Lemma owner_schedule s : owner (scheduleEmitLocked s) = owner s.
Proof. unfold scheduleEmitLocked. by destruct (emitTimer s). Qed.
Lemma owner_set k b s : owner (set_buffer k b s) = owner s. Proof. by destruct k. Qed.

Lemma timed_schedule (P : Prop) s : (P -> emitTimer s = Some false -> firing s <> O) -> timed P (scheduleEmitLocked s).
Proof. intros Ht HP. specialize (Ht HP). unfold scheduleEmitLocked. by destruct (emitTimer s) as [[]|] eqn:E; cbn; rewrite ?E. Qed.

Lemma chunk_stream_ok P k chunk native s l : stream_shows s l -> timed P s ->
  let '(o, s') := chunk_stream k chunk native s in
  stream_shows s' (l ++ o) /\ timed P s' /\ owner s' = owner s.
Proof.
  intros Hs Ht. unfold chunk_stream. pose proof (chunk_buffer_ok k (buffer_of k s) (visible_of k l) chunk native (Hs k)) as Hb.
  destruct (chunk_buffer (buffer_of k s) chunk native) as [now b]. set (s1 := set_buffer k b s).
  assert (Hs1 : forall k', buffer_ok k' (buffer_of k' s1) (visible_of k' (l ++ if now then [show k b] else []))).
  { intros k'. rewrite visible_of_app. unfold s1. rewrite buffer_set. destruct (decide (k' = k)) as [->|Hne]; [done|].
    destruct now; [rewrite visible_of_other by done|]; cbn; rewrite app_nil_r; apply Hs. }
  assert (Ht1 : P -> emitTimer s1 = Some false -> firing s1 <> O) by (intros HP; destruct (Ht HP) as [Ht' _]; unfold s1; by destruct k).
  assert (Ho1 : owner s1 = owner s) by (unfold s1; apply owner_set). clearbody s1.
  destruct (now && negb (pendingOther s1))%bool eqn:E1; [|destruct (pendingOther s1 || negb now)%bool eqn:E2].
  - apply andb_true_iff in E1 as [-> E1]. split_and!; [intros k'; rewrite buffer_stop; apply Hs1|intros HP; split; [done|]|done].
    intros Hp. apply negb_true_iff in E1. change (pendingOther (stopEmitTimerLocked s1)) with (pendingOther s1) in Hp. congruence.
  - split_and!; [intros k'; rewrite buffer_schedule; apply Hs1|by apply timed_schedule|by rewrite owner_schedule].
  - split_and!; [done|intros HP; split; [by apply Ht1|]|done]. intros Hp. by rewrite Hp in E2.
Qed.

Lemma flush_buffers_ok (P : Prop) s l : stream_shows s l -> (P -> emitTimer s = Some false -> firing s <> O) ->
  let '(o, s') := flush_buffers s in
  stream_shows s' (l ++ o) /\ timed P s' /\ owner s' = owner s /\ pendingOther s' = false /\
  forall k, content (buffer_of k s') = content (buffer_of k s).
Proof.
  intros Hs Ht. unfold flush_buffers.
  pose proof (flush_buffer_ok Text (text s) (visible_of Text l) (Hs Text)) as H1.
  pose proof (flush_buffer_ok Thought (thought s) (visible_of Thought l) (Hs Thought)) as H2.
  assert (Ho1 : forall k' o, k' <> Text -> o ∈ [(flush_buffer Text (text s)).1] -> visible_of k' o = []).
  { intros k' o Hk ->%list_elem_of_singleton. unfold flush_buffer. destruct (pending (text s)); [by apply visible_of_other|done]. }
  assert (Ho2 : forall k' o, k' <> Thought -> o ∈ [(flush_buffer Thought (thought s)).1] -> visible_of k' o = []).
  { intros k' o Hk ->%list_elem_of_singleton. unfold flush_buffer. destruct (pending (thought s)); [by apply visible_of_other|done]. }
  destruct (flush_buffer Text (text s)) as [l1 t]. destruct (flush_buffer Thought (thought s)) as [l2 h].
  destruct H1 as (H1 & P1 & C1 & _). destruct H2 as (H2 & P2 & C2 & _).
  assert (Hp : pendingOther (mkStream (owner s) t h (emitTimer s) (leaked s) (firing s)) = false) by (unfold pendingOther; cbn; by rewrite P1, P2).
  split_and!; [|intros HP; split; [by apply Ht|intros Hp'; congruence]|done|done|by intros []].
  intros k. rewrite !visible_of_app. destruct k; cbn [buffer_of text thought].
  - rewrite (Ho2 Text l2), app_nil_r; [done|done|by left].
  - rewrite (Ho1 Thought l1); [done|done|by left].
Qed.

(** What was shown last is everything that was gathered. *)
Lemma shown_last s l k : stream_shows s l -> pendingOther s = false -> content (buffer_of k s) <> "" ->
  last (visible_of k l) = Some (show k (buffer_of k s)).
Proof.
  intros Hs Hp Hne. destruct (Hs k) as [He _ (ns & -> & (_ & _ & Hl))].
  assert (emitted (buffer_of k s) = len (content (buffer_of k s))) as E.
  { unfold pendingOther, pending in Hp. apply orb_false_iff in Hp as [H1 H2]. destruct k; cbn [buffer_of] in *; bool_hyps; lia. }
  rewrite E in Hl. assert (len (content (buffer_of k s)) <> 0) by (by intros ?%len_zero).
  destruct (Z.eqb_spec (len (content (buffer_of k s))) 0); [done|].
  unfold beginnings. rewrite fmap_last, Hl. cbn. unfold show, len. by rewrite Nat2Z.id, take_bytes_whole.
Qed.

(** ** The commander *)

Definition outputs_of (c : GrokCommander) (p : nat) : list output := omap (fun x => if decide (x.1 = p) then Some x.2 else None) (shown c).

Record grok_ok (c : GrokCommander) : Prop := mkGrokOk {
  streams_ok : forall p s, states c !! p = Some s ->
    stream_shows s (outputs_of c p) /\ timed (current c !! owner s = Some p) s;
  current_ok : forall sid p, current c !! sid = Some p -> exists s, states c !! p = Some s /\ owner s = sid;
  fresh_ok : forall p, (nextState c <= p)%nat -> states c !! p = None /\ outputs_of c p = []
}.

Lemma outputs_with_shown c p l q : outputs_of (with_shown c p l) q = outputs_of c q ++ (if decide (p = q) then l else []).
Proof.
  unfold outputs_of, with_shown. cbn [shown]. rewrite omap_app. f_equal. induction l as [|o l IH]; [by destruct (decide _)|].
  cbn. rewrite IH. by destruct (decide (p = q)).
Qed.

(** A stream of the heap changes and shows something. *)
Lemma stream_update_ok c p s s' l : grok_ok c -> states c !! p = Some s -> owner s' = owner s ->
  stream_shows s' (outputs_of c p ++ l) -> timed (current c !! owner s = Some p) s' ->
  grok_ok (with_shown (set_streams c (<[p := s']> (states c)) (current c)) p l).
Proof.
  intros [Hs Hc Hf] Hp Ho Hshow Ht.
  assert (Hout : forall q, outputs_of (with_shown (set_streams c (<[p:=s']> (states c)) (current c)) p l) q = outputs_of c q ++ if decide (p = q) then l else []).
  { intros q. by rewrite outputs_with_shown. }
  constructor; cbn [states current nextState with_shown set_streams].
  - intros q t Hq. rewrite Hout. destruct (decide (p = q)) as [<-|Hne].
    + rewrite lookup_insert_eq in Hq. injection Hq as <-. by rewrite Ho.
    + rewrite lookup_insert_ne in Hq by done. rewrite app_nil_r. by apply Hs.
  - intros sid q Hq. destruct (Hc sid q Hq) as (t & Hqt & <-). destruct (decide (p = q)) as [<-|Hne].
    + exists s'. rewrite lookup_insert_eq. split; [done|]. congruence.
    + exists t. by rewrite lookup_insert_ne.
  - intros q Hq. destruct (Hf q Hq) as [Hn He]. assert (p <> q) by congruence. rewrite lookup_insert_ne by done. rewrite Hout, He.
    by rewrite decide_False.
Qed.

Lemma stream_silent_ok c p s s' : grok_ok c -> states c !! p = Some s -> owner s' = owner s ->
  stream_shows s' (outputs_of c p) -> timed (current c !! owner s = Some p) s' ->
  grok_ok (set_streams c (<[p := s']> (states c)) (current c)).
Proof.
  intros Hok Hp Ho Hs Ht. pose proof (stream_update_ok c p s s' [] Hok Hp Ho) as H. unfold with_shown in H. cbn in H.
  rewrite !app_nil_r in H. by apply H.
Qed.

Lemma add_stream_ok sid now c : grok_ok c -> grok_ok (add_stream sid now c).
Proof.
  intros [Hs Hc Hf]. destruct (Hf (nextState c)) as [Hn He]; [lia|].
  assert (Hout : forall q, outputs_of (add_stream sid now c) q = outputs_of c q) by done.
  constructor; cbn [states current nextState add_stream].
  - intros q t Hq. rewrite Hout. destruct (decide (nextState c = q)) as [<-|Hne].
    + rewrite lookup_insert_eq in Hq. injection Hq as <-. rewrite He. split; [|done].
      intros k. unfold new_stream. destruct k; (constructor; [done|done|exists []; by split; [|apply growing_nil]]).
    + rewrite lookup_insert_ne in Hq by done. destruct (Hs q t Hq) as [H1 H2]. split; [done|].
      intros Hl. apply H2. apply lookup_insert_Some in Hl as [[_ ?]|[_ ?]]; done.
  - intros s' q [[<- <-]|[Hne Hq]]%lookup_insert_Some.
    + exists (new_stream sid now). by rewrite lookup_insert_eq.
    + destruct (Hc s' q Hq) as (t & Ht & <-). exists t. rewrite lookup_insert_ne; [done|congruence].
  - intros q Hq. rewrite Hout. destruct (Hf q) as [H1 H2]; [lia|]. by rewrite lookup_insert_ne by lia.
Qed.

Lemma delete_stream_ok sid c : grok_ok c -> grok_ok (set_streams c (states c) (base.delete sid (current c))).
Proof.
  intros [Hs Hc Hf]. constructor; cbn [states current nextState set_streams].
  - intros q t Hq. destruct (Hs q t Hq) as [H1 H2]. split; [done|]. intros Hl. apply H2. by apply lookup_delete_Some in Hl as [_ Hl].
  - intros s' q [_ Hq]%lookup_delete_Some. by apply Hc.
  - by apply Hf.
Qed.

Lemma same_shows s s' l : text s' = text s -> thought s' = thought s -> stream_shows s l -> stream_shows s' l.
Proof. intros E1 E2 H []; cbn [buffer_of]; [rewrite E1; apply (H Text)|rewrite E2; apply (H Thought)]. Qed.

Lemma clearStreamLocked_ok sid c : grok_ok c -> grok_ok (clearStreamLocked sid c).
Proof.
  intros Hok. unfold clearStreamLocked, stream_of. destruct (current c !! sid) as [p|] eqn:Hp; cbn; [|by apply delete_stream_ok].
  destruct (states c !! p) as [s|] eqn:Hs; cbn; [|by apply delete_stream_ok].
  pose proof (delete_stream_ok sid c Hok) as Hd. destruct (current_ok c Hok sid p Hp) as (s0 & Hs0 & Ho). assert (s0 = s) as -> by congruence.
  destruct (streams_ok c Hok p s Hs) as [H1 _].
  apply (stream_silent_ok _ p s (stopEmitTimerLocked s) Hd Hs eq_refl); [by apply (same_shows s)|].
  cbn [current set_streams]. rewrite Ho, lookup_delete_eq. done.
Qed.

Lemma set_processes_ok c h ex n : grok_ok c -> grok_ok (set_processes c h ex n).
Proof. intros [Hs Hc Hf]. by constructor. Qed.

Lemma stream_of_spec c sid p s : stream_of c sid = Some (p, s) -> current c !! sid = Some p /\ states c !! p = Some s.
Proof.
  unfold stream_of. destruct (current c !! sid) as [q|]; cbn; [|done]. destruct (states c !! q) as [t|] eqn:E; cbn; [|done]. by intros [= <- <-].
Qed.

Lemma emitChunk_ok sid k chunk native now c : grok_ok c -> grok_ok (emitChunk sid k chunk native now c).
Proof.
  intros Hok. unfold emitChunk. destruct (is_empty chunk); [done|].
  set (c1 := match stream_of c sid with Some _ => c | None => add_stream sid now c end).
  assert (Hok1 : grok_ok c1) by (unfold c1; destruct (stream_of c sid); [done|by apply add_stream_ok]). clearbody c1. clear Hok c.
  destruct (stream_of c1 sid) as [[p s]|] eqn:E; [|done]. apply stream_of_spec in E as [Hp Hs].
  destruct (streams_ok c1 Hok1 p s Hs) as [H1 H2].
  pose proof (chunk_stream_ok (current c1 !! owner s = Some p) k chunk native s (outputs_of c1 p) H1 H2) as H.
  destruct (chunk_stream k chunk native s) as [l s']. destruct H as (H3 & H4 & H5). by apply (stream_update_ok c1 p s s' l).
Qed.

Lemma flushStream_ok sid c : grok_ok c -> grok_ok (flushStream sid c).
Proof.
  intros Hok. unfold flushStream. destruct (stream_of c sid) as [[p s]|] eqn:E; [|done]. apply stream_of_spec in E as [Hp Hs].
  destruct (streams_ok c Hok p s Hs) as [H1 _].
  pose proof (flush_buffers_ok (current c !! owner s = Some p) (stopEmitTimerLocked s) (outputs_of c p)) as H.
  destruct (flush_buffers (stopEmitTimerLocked s)) as [l s']. destruct H as (H3 & H4 & H5 & _); [by apply (same_shows s)|done|].
  by apply (stream_update_ok c p s s' l).
Qed.

Lemma timer_fires_ok known p c c' : grok_ok c -> timer_fires known p c = Some c' -> grok_ok c'.
Proof.
  intros Hok. unfold timer_fires. destruct (states c !! p) as [s|] eqn:Hs; cbn; [|done]. destruct (streams_ok c Hok p s Hs) as [H1 H2].
  destruct known.
  - destruct (emitTimer s) as [[]|] eqn:Et; cbn; [|done..]. intros [= <-].
    apply (stream_silent_ok c p s); [done|done|done|by apply (same_shows s)|]. by intros _; split.
  - destruct (leaked s) as [|n] eqn:El; cbn; [done|]. intros [= <-].
    apply (stream_silent_ok c p s); [done|done|done|by apply (same_shows s)|]. intros HP. destruct (H2 HP). by split.
Qed.

Lemma flushScheduled_ok p c c' : grok_ok c -> flushScheduled p c = Some c' -> grok_ok c'.
Proof.
  intros Hok. unfold flushScheduled. destruct (states c !! p) as [s|] eqn:Hs; cbn; [|done]. destruct (streams_ok c Hok p s Hs) as [H1 H2].
  destruct (firing s) as [|n] eqn:Ef; [done|]. case_bool_decide as Hc.
  - pose proof (flush_buffers_ok (current c !! owner s = Some p)
      (mkStream (owner s) (text s) (thought s) None (match emitTimer s with Some true => S (leaked s) | _ => leaked s end) n) (outputs_of c p)) as H.
    destruct (flush_buffers _) as [l s']. destruct H as (H4 & H5 & H6 & _); [by apply (same_shows s)|done|].
    intros [= <-]. by apply (stream_update_ok c p s s' l).
  - intros [= <-]. apply (stream_silent_ok c p s); [done|done|done|by apply (same_shows s)|]. intros HP. done.
Qed.

Lemma grok_startPromptInDir_ok available launch sid args dir now c :
  grok_ok c -> grok_ok (startPromptInDir available launch sid args dir now c).2.
Proof.
  intros Hok. unfold startPromptInDir. destruct (IsSessionRunning c sid); [done|]. destruct (negb available); [done|].
  assert (H : grok_ok (replaceStreamLocked sid now c)) by (by apply add_stream_ok, clearStreamLocked_ok).
  destruct (StartWithDir _ _); [by apply set_processes_ok|by apply clearStreamLocked_ok].
Qed.

Lemma grok_step_ok ev c c' : grok_ok c -> step ev c = Some c' -> grok_ok c'.
Proof.
  intros Hok. destruct ev as [av la sid pr dir now|pb av la sid dir pr now|e src line now|known p|p|e code|e|e|sg sid]; cbn [step].
  - intros [= <-]. by apply grok_startPromptInDir_ok.
  - intros [= <-]. unfold StartThread_launch. destruct pb; [by apply grok_startPromptInDir_ok|done].
  - unfold output_line. destruct (heap c !! e) as [x|]; cbn; [|done]. destruct (negb (running x)); [done|].
    destruct (suppress src x) as [sup x']. assert (H : grok_ok (set_processes c (<[e:=x']> (heap c)) (executors c) (nextID c))) by (by apply set_processes_ok).
    intros [= <-]. destruct sup; [done|]. destruct (handleProcessLine src line); [by apply emitChunk_ok|by apply flushStream_ok|done|done].
  - by apply timer_fires_ok.
  - by apply flushScheduled_ok.
  - destruct (heap c !! e) as [x|]; cbn; [|done]. destruct (negb (running x)); [done|]. intros [= <-]. by apply set_processes_ok.
  - destruct (heap c !! e) as [x|]; cbn; [|done]. destruct (running x); [done|]. intros [= <-]. by apply flushStream_ok.
  - destruct (heap c !! e) as [x|] eqn:E; cbn; [|done]. destruct (running x); [done|]. intros [= <-]. unfold forget. rewrite E.
    case_bool_decide; [|done]. by apply clearStreamLocked_ok, set_processes_ok.
  - intros [= <-]. unfold InterruptSession. destruct (executor_of c sid) as [[p e]|]; [|done].
    destruct (Interrupt sg e). by apply set_processes_ok.
Qed.

Inductive grok_reachable : GrokCommander -> Prop :=
  | grok_start : grok_reachable NewGrokCommander
  | grok_next ev c c' : grok_reachable c -> step ev c = Some c' -> grok_reachable c'.

Lemma grok_reachable_ok c : grok_reachable c -> grok_ok c.
Proof.
  induction 1 as [|ev c c' _ IH Hst]; [|by apply grok_step_ok in Hst].
  constructor; cbn; [done|done|]. intros p _. by split.
Qed.

(** ** What the phone sees *)

Definition timer_event (ev : event) : Prop := match ev with TimerFires true _ | ScheduledFlush _ => True | _ => False end.

Fixpoint run_events (evs : list event) (c : GrokCommander) : option GrokCommander :=
  match evs with [] => Some c | ev :: evs => step ev c ≫= run_events evs end.

Lemma scheduled_flush_shows c p s : grok_ok c -> states c !! p = Some s -> current c !! owner s = Some p -> firing s <> O ->
  exists c' s', flushScheduled p c = Some c' /\ states c' !! p = Some s' /\ pendingOther s' = false /\
    forall k, content (buffer_of k s') = content (buffer_of k s).
Proof.
  intros Hok Hs Hc Hf. unfold flushScheduled. rewrite Hs. cbn. destruct (firing s) as [|n]; [done|]. rewrite bool_decide_true by done.
  destruct (streams_ok c Hok p s Hs) as [H1 _].
  pose proof (flush_buffers_ok True
    (mkStream (owner s) (text s) (thought s) None (match emitTimer s with Some true => S (leaked s) | _ => leaked s end) n) (outputs_of c p)) as H.
  destruct (flush_buffers _) as [l s']. destruct H as (_ & _ & _ & H4 & H5); [by apply (same_shows s)|done|].
  eexists _, s'. split; [done|]. split; [cbn; by rewrite lookup_insert_eq|]. split; [done|]. intros k. rewrite H5. by destruct k.
Qed.


(** The end of a process shows what its session has pending. *)
Lemma exit_shows_everything c e c' sid p s : grok_ok c -> step (ExitFlush e) c = Some c' ->
  session <$> heap c !! e = Some sid -> stream_of c sid = Some (p, s) ->
  exists s', states c' !! p = Some s' /\ pendingOther s' = false /\ forall k, content (buffer_of k s') = content (buffer_of k s).
Proof.
  intros Hok. cbn [step]. destruct (heap c !! e) as [x|]; cbn; [|done]. destruct (running x); [done|]. intros [= <-] [= <-] Hs.
  unfold flushStream. rewrite Hs. apply stream_of_spec in Hs as [_ Hs]. destruct (streams_ok c Hok p s Hs) as [H1 _].
  pose proof (flush_buffers_ok True (stopEmitTimerLocked s) (outputs_of c p)) as H.
  destruct (flush_buffers _) as [l s']. destruct H as (_ & _ & _ & H4 & H5); [by apply (same_shows s)|done|].
  exists s'. split; [cbn; by rewrite lookup_insert_eq|]. split; [done|]. intros k. rewrite H5. by destruct k.
Qed.

(** ** Concrete runs *)

Module Demo.

Definition launched : list string -> string -> res unit := fun _ _ => Ok tt.
Definition talk : list event :=
  [PromptSent true launched "s" "hi" "" 7; LineRead 0 "stdout" "hello" 8; LineRead 0 "stdout" " world" 9].

Definition after (evs : list event) : GrokCommander := default NewGrokCommander (run_events evs NewGrokCommander).

Lemma run_events_reachable evs : forall c c', grok_reachable c -> run_events evs c = Some c' -> grok_reachable c'.
Proof.
  induction evs as [|ev evs IH]; intros c c' Hc; cbn [run_events]; [by intros [= <-]|].
  destruct (step ev c) as [c1|] eqn:E; cbn; [|done]. apply IH. by apply (grok_next ev c).
Qed.

Example talk_shows : (fun o => oContent o) <$> outputs_of (after talk) 0 = ["hello"] /\
  (fun o => oContent o) <$> outputs_of (after (talk ++ [TimerFires true 0; ScheduledFlush 0])) 0 = ["hello"; "hello world"].
Proof. split; vm_compute; reflexivity. Qed.


(** A character that does not fit any more is dropped, and what comes behind it is
    not. *)
Lemma text_goes_on_behind_the_cut s : len s = grokMaxStreamBytes - 1 ->
  appendGrokStreamChunk (appendGrokStreamChunk s (of_codes [195; 169])) "b" = s +:+ "b".
Proof.
  intros Hs. assert (E : appendGrokStreamChunk s (of_codes [195; 169]) = s).
  { unfold appendGrokStreamChunk. rewrite Hs. change (grokMaxStreamBytes - (grokMaxStreamBytes - 1)) with 1. cbn. apply string_app_nil. }
  rewrite E. unfold appendGrokStreamChunk. rewrite Hs. change (grokMaxStreamBytes - (grokMaxStreamBytes - 1)) with 1. done.
Qed.

(** The process of a new thread has no turn: a prompt that comes between its end and
    the flush replaces the stream with what was pending. *)
Definition tail_lost : list event :=
  [ThreadStarted (Ok tt) true launched "s" "" "hi" 7; LineRead 0 "stdout" "hello" 8; LineRead 0 "stdout" " world" 9;
   ProcessEnded 0 0; PromptSent true launched "s" "again" "" 10; ExitFlush 0; ExitForget 0; TimerFires true 0].

Example pending_tail_is_lost :
  run_events (take 7 tail_lost) NewGrokCommander <> None /\
  (fun x => oContent x.2) <$> shown (after (take 7 tail_lost)) = ["hello"] /\
  run_events tail_lost NewGrokCommander = None.
Proof. split_and!; vm_compute; [discriminate|reflexivity|reflexivity]. Qed.

(** Stopping everything drops what is pending instead of showing it. *)
#[local] Existing Instance canonical_order.

Example stop_drops_pending :
  (pendingOther <$> (states (after talk) !! 0%nat)) = Some true /\
  stream_of (StopAll (after talk)) "s" = None /\
  shown (StopAll (after talk)) = shown (after talk) /\
  (shown <$> run_events [ProcessEnded 0 0; ExitFlush 0; ExitForget 0] (StopAll (after talk))) = Some (shown (after talk)).
Proof. split_and!; vm_compute; reflexivity. Qed.
End Demo.
