(* ===== verification/KimiCommander.v ===== *)
(** * Driving the CLI of Kimi (daemon/internal/agentexec/kimi.go)

    Prompts in print mode, the first turn of a thread over ACP, and the messages
    both produce. Executors live in a heap as in [ClaudeCommander]; what an ACP
    process tells are the notices of [AcpStart]. Between the making of a message and
    the call of [OnAgentOutput] nothing is held: messages of different goroutines
    may change places. *)

From stdpp Require Import base tactics list gmap strings sorting.
From Stdlib Require Import Ascii ZArith Lia.
From S2P Require Import Prelude GoStrings Json Protocol ProtocolSpec JsonDecode CodexRollout.
From S2P Require Import ClaudeCommander.
From S2P Require AcpStart.

(** ** Arguments and lines *)

Definition kimiResumeArgs (sessionID prompt : string) (legacyPrint : bool) : list string :=
  (if legacyPrint then ["--print"] else []) ++ ["--session"; sessionID; "-p"; prompt; "--output-format"; "stream-json"].

(** The texts of a block of content. *)
Definition kimi_block (b : value) : list string :=
  match b with
  | VObject o => List.filter (fun s => negb (is_empty s)) [member o "text"; member o "output"]
  | _ => []
  end.

Definition extractKimiText (msg : list (string * value)) : string :=
  match assoc "content" msg with
  | None => member msg "text"
  | Some (VString s) => s
  | Some (VArray l) => CodexAppServer.join_strings newline (mjoin (kimi_block <$> l))
  | Some _ => ""
  end.

(** The type, the text and the id that [emit] is called with. *)
Definition parseAndForwardOutput (line : string) : option (string * string * string) :=
  match decode_map line with
  | None => Some ("assistant", line, "")
  | Some msg =>
    let role := member msg "role" in
    let content := extractKimiText msg in
    let id := nonempty_or (member msg "id") (member msg "tool_call_id") in
    if (String.eqb role "assistant" && negb (is_empty content))%bool then Some ("assistant", content, id)
    else if (String.eqb role "user" && negb (is_empty content))%bool then Some ("user", content, id)
    else if (String.eqb role "tool" && negb (is_empty content))%bool then Some ("tool_result", content, id)
    else if String.eqb (member msg "type") "error" then
      let content := nonempty_or content (member msg "message") in
      if is_empty content then None else Some ("error", content, id)
    else None
  end.

Definition handleProcessLine (source line : string) : option (string * string * string) :=
  if String.eqb source "stdout" then parseAndForwardOutput line else None.

(** ** The commander *)

(** What is handed to [OnAgentOutput]. [oMade] is the run and the number an id was
    made of, which the code does not keep. *)
Record output : Type := mkOutput { oSession : string; oType : string; oContent : string; oID : string; oMade : option (Z * Z) }.

(** [runIDs] has the time and the number of a run, which the code keeps as one text;
    [helpText] is what the help of the CLI printed, once it was asked. *)
Record KimiCommander : Type := mkKimi {
  heap : gmap nat AgentExecutor;
  executors : gmap string nat;
  nextID : nat;
  acpRuns : gmap string nat;
  acpChunks : gmap string (gmap string string);
  acpIDs : gmap string string;
  nextACP : Z;
  sequences : gmap string Z;
  runIDs : gmap string (Z * Z);
  nextRun : Z;
  helpText : option (res string);
  shown : list output
}.

Definition NewKimiCommander : KimiCommander := mkKimi ∅ ∅ 0 ∅ ∅ ∅ 0 ∅ ∅ 0 None [].

Definition set_processes (c : KimiCommander) (h : gmap nat AgentExecutor) (ex : gmap string nat) (n : nat) : KimiCommander :=
  mkKimi h ex n (acpRuns c) (acpChunks c) (acpIDs c) (nextACP c) (sequences c) (runIDs c) (nextRun c) (helpText c) (shown c).
Definition set_acp (c : KimiCommander) (runs : gmap string nat) (chunks : gmap string (gmap string string)) (ids : gmap string string) (n : Z)
    : KimiCommander :=
  mkKimi (heap c) (executors c) (nextID c) runs chunks ids n (sequences c) (runIDs c) (nextRun c) (helpText c) (shown c).
Definition set_runs (c : KimiCommander) (sq : gmap string Z) (r : gmap string (Z * Z)) (n : Z) : KimiCommander :=
  mkKimi (heap c) (executors c) (nextID c) (acpRuns c) (acpChunks c) (acpIDs c) (nextACP c) sq r n (helpText c) (shown c).
Definition set_help (c : KimiCommander) (h : res string) : KimiCommander :=
  mkKimi (heap c) (executors c) (nextID c) (acpRuns c) (acpChunks c) (acpIDs c) (nextACP c) (sequences c) (runIDs c) (nextRun c) (Some h) (shown c).
Definition add_output (c : KimiCommander) (o : output) : KimiCommander :=
  mkKimi (heap c) (executors c) (nextID c) (acpRuns c) (acpChunks c) (acpIDs c) (nextACP c) (sequences c) (runIDs c) (nextRun c) (helpText c)
    (shown c ++ [o]).

Definition beginRunLocked (sessionID : string) (now : Z) (c : KimiCommander) : KimiCommander :=
  let n := nextRun c + 1 in
  set_runs c (<[sessionID := 0]> (sequences c)) (<[sessionID := (now, n)]> (runIDs c)) n.

(** The ids that [emit] makes. *)
Definition made_id (sessionID : string) (run : Z * Z) (seq : Z) : string :=
  "kimi_" +:+ sessionID +:+ "_" +:+ Itoa run.1 +:+ "_" +:+ Itoa run.2 +:+ "_" +:+ Itoa seq.

Definition next_id (sessionID : string) (now : Z) (c : KimiCommander) : (string * (Z * Z)) * KimiCommander :=
  let c := match runIDs c !! sessionID with Some _ => c | None => beginRunLocked sessionID now c end in
  let seq := default 0 (sequences c !! sessionID) + 1 in
  let run := default (0, 0) (runIDs c !! sessionID) in
  ((made_id sessionID run seq, (run.2, seq)), set_runs c (<[sessionID := seq]> (sequences c)) (runIDs c) (nextRun c)).

Definition emit (sessionID msgType content msgID : string) (now : Z) (c : KimiCommander) : KimiCommander :=
  let content := TrimSpace content in
  if is_empty content then c
  else if is_empty msgID then
    let '((id, made), c) := next_id sessionID now c in add_output c (mkOutput sessionID msgType content id (Some made))
  else add_output c (mkOutput sessionID msgType content msgID None).

(** ** Prompts *)

Definition executor_of (c : KimiCommander) (sessionID : string) : option (nat * AgentExecutor) :=
  p ← executors c !! sessionID; e ← heap c !! p; Some (p, e).

Definition IsSessionRunning (c : KimiCommander) (sessionID : string) : bool :=
  match executor_of c sessionID with Some (_, e) => IsRunning e | None => false end.

(** The CLI is asked for its help once; [probed] is what that gives. *)
Definition supportsLegacyPrint (probed : res string) (c : KimiCommander) : res bool * KimiCommander :=
  let h := default probed (helpText c) in
  (match h with Err e => Err e | Ok text => Ok (contains text "--print") end, set_help c h).

(** [probeHelp]: what was printed and how running ended. *)
Definition probeHelp (launch : res unit) (help : string * res unit) : res string :=
  _ ← launch;
  match help.2, is_empty (TrimSpace help.1) with
  | Err e, true => Err e
  | _, _ => Ok help.1
  end.

Definition resumeArgs (probed : res string) (sessionID prompt : string) (legacyStore : bool) (c : KimiCommander) : res (list string) * KimiCommander :=
  let '(legacy, c) := supportsLegacyPrint probed c in
  (match legacy with
   | Err e => Err ("Kimi session is read-only because CLI capability detection failed: " +:+ e)
   | Ok legacyCLI =>
     if (legacyStore && negb legacyCLI)%bool
     then Err "legacy Kimi session is read-only with the installed Kimi Code CLI; migrate it into .kimi-code first"
     else if (negb legacyStore && legacyCLI)%bool
     then Err "current Kimi Code session is read-only with the installed legacy kimi-cli"
     else Ok (kimiResumeArgs sessionID prompt legacyCLI)
   end, c).

Definition forget_run (sessionID : string) (c : KimiCommander) : KimiCommander :=
  set_runs c (base.delete sessionID (sequences c)) (base.delete sessionID (runIDs c)) (nextRun c).

Definition sendPromptInDir (available : bool) (probed : res string) (launch : list string -> string -> res unit)
    (sessionID prompt workDir : string) (legacyStore : bool) (now : Z) (c : KimiCommander) : res nat * KimiCommander :=
  if IsSessionRunning c sessionID then
    (Err (ErrSessionBusy +:+ ": kimi session " +:+ sessionID +:+ " is still running; wait for it to finish"), c)
  else if negb available then (Err "kimi CLI not found", c)
  else
    match resumeArgs probed sessionID prompt legacyStore c with
    | (Err e, c) => (Err e, c)
    | (Ok args, c) =>
      let c := beginRunLocked sessionID now c in
      match StartWithDir (launch args workDir) (NewAgentExecutor sessionID) with
      | Err e => (Err ("start kimi: " +:+ e), forget_run sessionID c)
      | Ok e => (Ok (nextID c), set_processes c (<[nextID c := CloseStdin e]> (heap c)) (<[sessionID := nextID c]> (executors c)) (S (nextID c)))
      end
    end.

(** A line of a process that was not reaped. *)
Definition output_line (e : nat) (source line : string) (now : Z) (c : KimiCommander) : option KimiCommander :=
  x ← heap c !! e;
  if negb (running x) then None
  else
    let '(suppressed, x') := suppress source x in
    let c := set_processes c (<[e := x']> (heap c)) (executors c) (nextID c) in
    Some (if (suppressed : bool) then c
          else match handleProcessLine source line with
               | Some (t, content, id) => emit (session x) t content id now c
               | None => c
               end).

(** The end of a process: its failure is told, then it is forgotten. *)
Definition exit_report (e : nat) (now : Z) (c : KimiCommander) : option KimiCommander :=
  x ← heap c !! e;
  if running x then None
  else let m := exitFailure "Kimi CLI" x in Some (if is_empty m then c else emit (session x) "error" m "" now c).

Definition forget (e : nat) (c : KimiCommander) : KimiCommander :=
  match heap c !! e with
  | Some x =>
    if bool_decide (executors c !! session x = Some e)
    then forget_run (session x) (set_processes c (heap c) (base.delete (session x) (executors c)) (nextID c))
    else c
  | None => c
  end.

(** ** The first turn over ACP *)

Definition beginACPStream (sessionID : string) (c : KimiCommander) : KimiCommander :=
  set_acp c (acpRuns c) (<[sessionID := ∅]> (acpChunks c)) (base.delete sessionID (acpIDs c)) (nextACP c).

(** The id of a chunk: its own, or the one made for the session. *)
Definition acp_message_id (sessionID own : string) (c : KimiCommander) : string * KimiCommander :=
  if negb (is_empty own) then (own, c)
  else match acpIDs c !! sessionID with
       | Some id => (id, c)
       | None =>
         let n := nextACP c + 1 in
         let id := "kimi_acp_" +:+ sessionID +:+ "_" +:+ Itoa n in
         (id, set_acp c (acpRuns c) (acpChunks c) (<[sessionID := id]> (acpIDs c)) n)
       end.

(** Each chunk is shown with all of its message before it. *)
Definition handleACPUpdate (sessionID : string) (update : list (string * value)) (now : Z) (c : KimiCommander) : KimiCommander :=
  if negb (String.eqb (member update "sessionUpdate") "agent_message_chunk") then c
  else
    let text := match as_map (assoc "content" update) with Some o => member o "text" | None => "" end in
    if is_empty (TrimSpace text) then c
    else
      let '(id, c) := acp_message_id sessionID (member update "messageId") c in
      let chunks := default ∅ (acpChunks c !! sessionID) in
      let cumulative := default "" (chunks !! id) +:+ text in
      let c := set_acp c (acpRuns c) (<[sessionID := <[id := cumulative]> chunks]> (acpChunks c)) (acpIDs c) (nextACP c) in
      emit sessionID "assistant" cumulative id now c.

Definition acp_error_text (e : AcpStart.acp_error) : string :=
  match e with AcpStart.acpRemoteError method body => "ACP " +:+ method +:+ ": " +:+ body | AcpStart.OtherError e => e end.

(** What the callbacks of a start share: the session once it has one, and whether
    the process has ended. *)
Record acp_thread : Type := mkThread { createdID : string; exited : bool }.

Definition acp_exit (id : string) (c : KimiCommander) : KimiCommander :=
  set_acp c (base.delete id (acpRuns c)) (base.delete id (acpChunks c)) (base.delete id (acpIDs c)) (nextACP c).

Definition on_notice (now : Z) (n : AcpStart.notice) (t : acp_thread) (c : KimiCommander) : acp_thread * KimiCommander :=
  match n with
  | AcpStart.SessionCreated s => (mkThread s (exited t), beginACPStream s c)
  | AcpStart.Update s u => (t, handleACPUpdate s u now c)
  | AcpStart.PromptEnded s (Some e) => (t, emit s "error" (acp_error_text e) ("kimi_acp_prompt_error_" +:+ Itoa now) now c)
  | AcpStart.PromptEnded _ None => (t, c)
  | AcpStart.ProcessExited _ => (mkThread (createdID t) true, acp_exit (createdID t) c)
  end.

(** The start has returned without an error: the process can be cancelled from now
    on, unless it has ended. *)
Definition register_run (sessionID : string) (process : nat) (t : acp_thread) (c : KimiCommander) : KimiCommander :=
  if exited t then c else set_acp c (<[sessionID := process]> (acpRuns c)) (acpChunks c) (acpIDs c) (nextACP c).

(** ** Interruption and the end *)

(** Which process is interrupted. *)
Inductive target : Type := Executor (p : nat) | ACPRun (process : nat).

Definition Interrupt_target (sessionID : string) (c : KimiCommander) : option target :=
  match executors c !! sessionID with
  | Some p => Some (Executor p)
  | None => ACPRun <$> acpRuns c !! sessionID
  end.

Definition InterruptSession (signalled cancelled : res unit) (sessionID : string) (c : KimiCommander) : res unit * KimiCommander :=
  match Interrupt_target sessionID c with
  | Some (Executor p) =>
    match heap c !! p with
    | Some e => let '(r, e) := Interrupt signalled e in (r, set_processes c (<[p := e]> (heap c)) (executors c) (nextID c))
    | None => (Ok tt, c)
    end
  | Some (ACPRun _) => (cancelled, c)
  | None => (Err ("no running executor for session " +:+ sessionID), c)
  end.

(** [StopAll]: the ACP processes that are stopped, and the commander after it. *)
Definition StopAll `{MapOrder} (c : KimiCommander) : list nat * KimiCommander :=
  let taken := range_values (executors c) in
  let runs := range_values (acpRuns c) in
  let c := set_acp (set_processes c (heap c) ∅ (nextID c)) ∅ ∅ ∅ (nextACP c) in
  let c := set_runs c ∅ ∅ (nextRun c) in
  (runs, foldl (fun c p => match heap c !! p with
                           | Some e => set_processes c (<[p := ClaudeCommander.Stop e]> (heap c)) (executors c) (nextID c)
                           | None => c
                           end) c taken).

(** [Approve] and [Deny] *)
Definition refused (verb approvalID sessionID : string) : res unit :=
  Err ("approval_unavailable: Kimi print mode cannot " +:+ verb +:+ " approval " +:+ approvalID +:+ " for session " +:+ sessionID).
Definition Approve (sessionID approvalID : string) : res unit := refused "accept" approvalID sessionID.
Definition Deny (sessionID approvalID : string) : res unit := refused "deny" approvalID sessionID.

(** ** Steps *)

(** A commander with the threads that are being started. *)
Record world : Type := mkWorld { commander : KimiCommander; threads : gmap nat acp_thread }.

Definition with_commander (w : world) (c : KimiCommander) : world := mkWorld c (threads w).

Inductive event : Type :=
  | PromptSent (available : bool) (probed : res string) (launch : list string -> string -> res unit)
      (sessionID prompt workDir : string) (legacyStore : bool) (now : Z)
  | LineRead (e : nat) (source line : string) (now : Z)
  | ProcessEnded (e : nat) (code : Z)
  | ExitReport (e : nat) (now : Z)
  | ExitForget (e : nat)
  | ThreadStarts (t : nat)
  | Notice (t : nat) (n : AcpStart.notice) (now : Z)
  | ThreadRegistered (t : nat) (sessionID : string)
  | Interrupted (signalled cancelled : res unit) (sessionID : string).

Definition step (ev : event) (w : world) : option world :=
  let c := commander w in
  match ev with
  | PromptSent available probed launch sessionID prompt workDir legacyStore now =>
    Some (with_commander w (sendPromptInDir available probed launch sessionID prompt workDir legacyStore now c).2)
  | LineRead e source line now => with_commander w <$> output_line e source line now c
  | ProcessEnded e code =>
    x ← heap c !! e;
    if negb (running x) then None else Some (with_commander w (set_processes c (<[e := reap code x]> (heap c)) (executors c) (nextID c)))
  | ExitReport e now => with_commander w <$> exit_report e now c
  | ExitForget e => x ← heap c !! e; if running x then None else Some (with_commander w (forget e c))
  | ThreadStarts t => match threads w !! t with Some _ => None | None => Some (mkWorld c (<[t := mkThread "" false]> (threads w))) end
  | Notice t n now =>
    x ← threads w !! t; let '(x, c) := on_notice now n x c in Some (mkWorld c (<[t := x]> (threads w)))
  | ThreadRegistered t sessionID => x ← threads w !! t; Some (with_commander w (register_run sessionID t x c))
  | Interrupted signalled cancelled sessionID => Some (with_commander w (InterruptSession signalled cancelled sessionID c).2)
  end.

(** * What driving the CLI of Kimi promises

    The ids the commander makes are never given twice, however lines, failures,
    prompts and the notices of first turns interleave; and a session has at most one
    process in print mode, which is the one that is interrupted. *)

(** ** Reading back what an id was made of *)

Lemma last_part c a b s t : contains_byte c s = false -> contains_byte c t = false ->
  a +:+ String c s = b +:+ String c t -> a = b /\ s = t.
Proof.
  intros Hs Ht. revert b. induction a as [|x a IH]; intros [|y b].
  - by intros [= ->].
  - rewrite string_app_cons. intros [= -> E]. exfalso. rewrite E in Hs. rewrite contains_byte_app in Hs. cbn [contains_byte] in Hs.
    by rewrite Ascii.eqb_refl, orb_true_r in Hs.
  - rewrite string_app_cons. intros [= -> E]. exfalso. rewrite <- E in Ht. rewrite contains_byte_app in Ht. cbn [contains_byte] in Ht.
    by rewrite Ascii.eqb_refl, orb_true_r in Ht.
  - rewrite !string_app_cons. intros [= -> E]. destruct (IH b E) as [-> ->]. done.
Qed.

Lemma digits_no_underscore s : all_digits s = true -> contains_byte "_"%char s = false.
Proof.
  induction s as [|c s IH]; [done|]. cbn [all_digits contains_byte]. intros [Hc Hs]%andb_prop. rewrite IH by done.
  destruct (Ascii.eqb_spec c "_"%char) as [->|]; [done|done].
Qed.

Lemma Itoa_uint64_inj n m : 0 <= n < 2 ^ 64 -> 0 <= m < 2 ^ 64 -> Itoa n = Itoa m -> n = m.
Proof.
  assert (H : forall k, 0 <= k < 2 ^ 64 -> parse_dec (Itoa k) 0 = Some k).
  { intros k Hk. unfold Itoa. destruct (k <? 0) eqn:E; bool_hyps; [lia|]. rewrite parse_dec_itoa; [done| |lia].
    change (10 ^ Z.of_nat 20) with 100000000000000000000. lia. }
  intros Hn Hm E. apply (f_equal (fun s => parse_dec s 0)) in E. rewrite !H in E by done. by injection E.
Qed.

Definition uint64 (n : Z) : Prop := 0 <= n < 2 ^ 64.

(** Two ids are the same text only for the same run and the same number. *)
Lemma made_id_inj sid sid' run run' s s' : uint64 run.2 -> uint64 run'.2 -> uint64 s -> uint64 s' ->
  made_id sid run s = made_id sid' run' s' -> run.2 = run'.2 /\ s = s'.
Proof.
  assert (Hd : forall n, uint64 n -> contains_byte "_"%char (Itoa n) = false).
  { intros n [Hn _]. apply digits_no_underscore. by apply Itoa_digits. }
  assert (Hsplit : forall sid run s, made_id sid run s =
            (("kimi_" +:+ sid +:+ "_" +:+ Itoa run.1) +:+ String "_" (Itoa run.2)) +:+ String "_" (Itoa s)).
  { intros. unfold made_id. rewrite <- !string_app_assoc. done. }
  intros H1 H2 H3 H4. rewrite !Hsplit. intros E.
  destruct (last_part _ _ _ _ _ (Hd _ H3) (Hd _ H4) E) as [E' Es]. destruct (last_part _ _ _ _ _ (Hd _ H1) (Hd _ H2) E') as [_ Er].
  split; apply Itoa_uint64_inj; assumption.
Qed.

(** ** Ids *)

Definition made (l : list output) : list (Z * Z) := omap oMade l.

Record ids_ok (l : list output) (sq : gmap string Z) (runs : gmap string (Z * Z)) (n : Z) : Prop := mkIds {
  made_once : NoDup (made l);
  made_of : forall o m s, o ∈ l -> oMade o = Some (m, s) -> exists sid t, oID o = made_id sid (t, m) s;
  made_bounds : forall m s, (m, s) ∈ made l -> 1 <= m <= n /\ 1 <= s <= Z.of_nat (length l);
  made_before : forall m s sid t, (m, s) ∈ made l -> runs !! sid = Some (t, m) -> s <= default 0 (sq !! sid);
  runs_bounded : forall sid t m, runs !! sid = Some (t, m) -> 1 <= m <= n;
  runs_apart : forall sid sid' t t' m, runs !! sid = Some (t, m) -> runs !! sid' = Some (t', m) -> sid = sid';
  sequences_bounded : forall sid s, sq !! sid = Some s -> 0 <= s <= Z.of_nat (length l);
  next_run : 0 <= n
}.

Lemma default_sequence l sq runs n sid : ids_ok l sq runs n -> 0 <= default 0 (sq !! sid) <= Z.of_nat (length l).
Proof. intros H. destruct (sq !! sid) as [s|] eqn:E; cbn; [by apply (sequences_bounded _ _ _ _ H sid)|lia]. Qed.

Lemma begin_ids l sq runs n sid now : ids_ok l sq runs n -> ids_ok l (<[sid := 0]> sq) (<[sid := (now, n + 1)]> runs) (n + 1).
Proof.
  intros H. pose proof (next_run _ _ _ _ H) as Hn. constructor.
  - exact (made_once _ _ _ _ H).
  - exact (made_of _ _ _ _ H).
  - intros m s Hm. apply (made_bounds _ _ _ _ H) in Hm. lia.
  - intros m s sid' t Hm. apply (made_bounds _ _ _ _ H) in Hm as Hb. rewrite lookup_insert_Some. intros [[_ [= _ <-]]|[Hne Hr]]; [lia|].
    rewrite lookup_insert_ne by done. by eapply (made_before _ _ _ _ H).
  - intros sid' t m. rewrite lookup_insert_Some. intros [[_ [= _ <-]]|[_ Hr]]; [lia|]. apply (runs_bounded _ _ _ _ H) in Hr. lia.
  - intros a b t t' m. rewrite !lookup_insert_Some. intros [[<- [= _ <-]]|[_ Ha]] [[<- Eb]|[_ Hb]].
    + done.
    + apply (runs_bounded _ _ _ _ H) in Hb. lia.
    + injection Eb as _ <-. apply (runs_bounded _ _ _ _ H) in Ha. lia.
    + by eapply (runs_apart _ _ _ _ H).
  - intros sid' s. rewrite lookup_insert_Some. intros [[_ <-]|[_ Hs]]; [lia|]. by apply (sequences_bounded _ _ _ _ H sid').
  - lia.
Qed.

Lemma forget_ids l sq runs n sid : ids_ok l sq runs n -> ids_ok l (base.delete sid sq) (base.delete sid runs) n.
Proof.
  intros H. constructor.
  - exact (made_once _ _ _ _ H).
  - exact (made_of _ _ _ _ H).
  - exact (made_bounds _ _ _ _ H).
  - intros m s sid' t Hm. rewrite lookup_delete_Some. intros [Hne Hr]. rewrite lookup_delete_ne by done. by eapply (made_before _ _ _ _ H).
  - intros sid' t m. rewrite lookup_delete_Some. intros [_ Hr]. by eapply (runs_bounded _ _ _ _ H).
  - intros a b t t' m. rewrite !lookup_delete_Some. intros [_ Ha] [_ Hb]. by eapply (runs_apart _ _ _ _ H).
  - intros sid' s. rewrite lookup_delete_Some. intros [_ Hs]. by apply (sequences_bounded _ _ _ _ H sid').
  - exact (next_run _ _ _ _ H).
Qed.

Lemma given_ids l sq runs n o : oMade o = None -> ids_ok l sq runs n -> ids_ok (l ++ [o]) sq runs n.
Proof.
  intros Ho H. assert (Em : made (l ++ [o]) = made l) by (unfold made; rewrite omap_app; cbn; by rewrite Ho, app_nil_r).
  assert (El : Z.of_nat (length (l ++ [o])) = Z.of_nat (length l) + 1) by (rewrite length_app; cbn; lia).
  constructor; rewrite ?Em.
  - exact (made_once _ _ _ _ H).
  - intros o' m s [Hin| ->%list_elem_of_singleton]%elem_of_app Hm; [by eapply (made_of _ _ _ _ H)|congruence].
  - intros m s Hm. apply (made_bounds _ _ _ _ H) in Hm. lia.
  - exact (made_before _ _ _ _ H).
  - exact (runs_bounded _ _ _ _ H).
  - exact (runs_apart _ _ _ _ H).
  - intros sid s Hs. apply (sequences_bounded _ _ _ _ H) in Hs. lia.
  - exact (next_run _ _ _ _ H).
Qed.

(** A message with a made id. *)
Lemma made_ids l sq runs n sid t m ty text : runs !! sid = Some (t, m) -> ids_ok l sq runs n ->
  let s := default 0 (sq !! sid) + 1 in
  ids_ok (l ++ [mkOutput sid ty text (made_id sid (t, m) s) (Some (m, s))]) (<[sid := s]> sq) runs n.
Proof.
  intros Hr H s. pose proof (default_sequence _ _ _ _ sid H) as Hd. pose proof (runs_bounded _ _ _ _ H sid t m Hr) as Hb.
  set (o := mkOutput sid ty text (made_id sid (t, m) s) (Some (m, s))).
  assert (Em : made (l ++ [o]) = made l ++ [(m, s)]) by (unfold made; by rewrite omap_app).
  assert (El : Z.of_nat (length (l ++ [o])) = Z.of_nat (length l) + 1) by (rewrite length_app; cbn; lia).
  assert (Hnew : (m, s) ∉ made l). { intros Hin. apply (made_before _ _ _ _ H m s sid t) in Hin; [lia|done]. }
  constructor; rewrite ?Em.
  - apply NoDup_app. split; [exact (made_once _ _ _ _ H)|]. split; [|apply NoDup_singleton]. by intros x Hx ->%list_elem_of_singleton.
  - intros o' m' s' [Hin| ->%list_elem_of_singleton]%elem_of_app Hm; [by eapply (made_of _ _ _ _ H)|].
    injection Hm as <- <-. by exists sid, t.
  - intros m' s' [Hin|[= -> ->]%list_elem_of_singleton]%elem_of_app; [apply (made_bounds _ _ _ _ H) in Hin|]; lia.
  - intros m' s' sid' t' [Hin|[= -> ->]%list_elem_of_singleton]%elem_of_app Hr'.
    + destruct (decide (sid' = sid)) as [->|Hne].
      * rewrite lookup_insert_eq. cbn. apply (made_before _ _ _ _ H m' s' sid t') in Hin; [lia|done].
      * rewrite lookup_insert_ne by done. by eapply (made_before _ _ _ _ H).
    + rewrite (runs_apart _ _ _ _ H _ _ _ _ _ Hr' Hr). by rewrite lookup_insert_eq.
  - exact (runs_bounded _ _ _ _ H).
  - exact (runs_apart _ _ _ _ H).
  - intros sid' s'. rewrite lookup_insert_Some. intros [[_ <-]|[_ Hs]]; [lia|]. apply (sequences_bounded _ _ _ _ H) in Hs. lia.
  - exact (next_run _ _ _ _ H).
Qed.

(** ** Processes *)

Record processes_sound (h : gmap nat AgentExecutor) (ex : gmap string nat) (n : nat) : Prop := mkProcesses {
  heap_bounded : forall p, (n <= p)%nat -> h !! p = None;
  table_sound : forall sid p, ex !! sid = Some p -> session <$> h !! p = Some sid;
  running_known : forall p x, h !! p = Some x -> running x = true -> ex !! session x = Some p
}.

Lemma update_sound h ex n p x y : h !! p = Some x -> session y = session x -> (running y = true -> running x = true) ->
  processes_sound h ex n -> processes_sound (<[p := y]> h) ex n.
Proof.
  intros Hp Hs Hr H. constructor.
  - intros q Hq. destruct (decide (q = p)) as [->|Hne]; [by rewrite (heap_bounded _ _ _ H) in Hp|].
    rewrite lookup_insert_ne by done. by apply (heap_bounded _ _ _ H).
  - intros sid q Hq. apply (table_sound _ _ _ H) in Hq. destruct (decide (q = p)) as [->|Hne].
    + rewrite lookup_insert_eq. rewrite Hp in Hq. cbn in *. congruence.
    + by rewrite lookup_insert_ne.
  - intros q z. rewrite lookup_insert_Some. intros [[<- <-]|[_ Hq]] Hz; [|by apply (running_known _ _ _ H)].
    rewrite Hs. apply (running_known _ _ _ H); [done|by apply Hr].
Qed.

Lemma launch_sound h ex n x : processes_sound h ex n -> (forall p y, ex !! session x = Some p -> h !! p = Some y -> running y = false) ->
  processes_sound (<[n := x]> h) (<[session x := n]> ex) (S n).
Proof.
  intros H Hidle. assert (Hn : h !! n = None) by (by apply (heap_bounded _ _ _ H)). constructor.
  - intros q Hq. rewrite lookup_insert_ne by lia. apply (heap_bounded _ _ _ H). lia.
  - intros sid p. rewrite lookup_insert_Some. intros [[<- <-]|[_ Hp]]; [by rewrite lookup_insert_eq|].
    apply (table_sound _ _ _ H) in Hp. rewrite lookup_insert_ne; [done|]. intros <-. by rewrite Hn in Hp.
  - intros p y. rewrite lookup_insert_Some. intros [[<- <-]|[Hne Hp]] Hy; [by rewrite lookup_insert_eq|].
    assert (Hk : ex !! session y = Some p) by (by apply (running_known _ _ _ H)).
    rewrite lookup_insert_ne; [done|]. intros E. rewrite <- E in Hk. rewrite (Hidle p y Hk Hp) in Hy. done.
Qed.

Lemma delete_sound h ex n p x : h !! p = Some x -> running x = false -> ex !! session x = Some p ->
  processes_sound h ex n -> processes_sound h (base.delete (session x) ex) n.
Proof.
  intros Hp Hr Hx H. constructor.
  - exact (heap_bounded _ _ _ H).
  - intros sid q [_ Hq]%lookup_delete_Some. by apply (table_sound _ _ _ H).
  - intros q y Hq Hy. pose proof (running_known _ _ _ H q y Hq Hy) as Hk. rewrite lookup_delete_Some. split; [|done].
    intros E. rewrite <- E in Hk. assert (p = q) as -> by congruence. congruence.
Qed.

(** ** Operations *)

Definition ids_sound (c : KimiCommander) : Prop := ids_ok (shown c) (sequences c) (runIDs c) (nextRun c).
Definition prompts_sound (c : KimiCommander) : Prop := processes_sound (heap c) (executors c) (nextID c).
Definition same_processes (c c' : KimiCommander) : Prop := heap c' = heap c /\ executors c' = executors c /\ nextID c' = nextID c.

Lemma same_processes_sound c c' : same_processes c c' -> prompts_sound c -> prompts_sound c'.
Proof. unfold prompts_sound. by intros (-> & -> & ->). Qed.

Lemma same_processes_trans c1 c2 c3 : same_processes c1 c2 -> same_processes c2 c3 -> same_processes c1 c3.
Proof. unfold same_processes. intros (-> & -> & ->) (-> & -> & ->). done. Qed.

Lemma emit_ids sid ty text id now c : ids_sound c -> ids_sound (emit sid ty text id now c).
Proof.
  intros H. unfold emit. destruct (is_empty (TrimSpace text)); [done|]. destruct (is_empty id); [|by apply given_ids].
  unfold next_id. destruct (runIDs c !! sid) as [[t m]|] eqn:E; cbn.
  - rewrite E. cbn. by apply made_ids.
  - rewrite !lookup_insert_eq. cbn. apply (begin_ids _ _ _ _ sid now) in H.
    apply (made_ids _ _ _ _ sid now (nextRun c + 1) ty (TrimSpace text)) in H; [|by rewrite lookup_insert_eq].
    rewrite lookup_insert_eq in H. exact H.
Qed.

Lemma emit_processes sid ty text id now c : same_processes c (emit sid ty text id now c).
Proof.
  unfold emit. destruct (is_empty (TrimSpace text)); [done|]. destruct (is_empty id); [|done].
  unfold next_id. by destruct (runIDs c !! sid).
Qed.

Lemma handleACPUpdate_ok sid u now c : (ids_sound c -> ids_sound (handleACPUpdate sid u now c)) /\ same_processes c (handleACPUpdate sid u now c).
Proof.
  unfold handleACPUpdate. destruct (negb _); [done|]. cbv zeta. destruct (is_empty _); [done|].
  destruct (acp_message_id sid _ c) as [id c1] eqn:E.
  assert (H1 : shown c1 = shown c /\ sequences c1 = sequences c /\ runIDs c1 = runIDs c /\ nextRun c1 = nextRun c /\ same_processes c c1).
  { unfold acp_message_id in E. destruct (negb _); [by injection E as _ <-|]. destruct (acpIDs c !! sid); by injection E as _ <-. }
  destruct H1 as (E1 & E2 & E3 & E4 & E5 & E6 & E7). split.
  - intros H. apply emit_ids. unfold ids_sound. cbn. by rewrite E1, E2, E3, E4.
  - eapply same_processes_trans; [|apply emit_processes]. done.
Qed.

Lemma on_notice_ok now n t c : (ids_sound c -> ids_sound (on_notice now n t c).2) /\ same_processes c (on_notice now n t c).2.
Proof.
  destruct n as [s|s u|s [e|]|code]; cbn [on_notice snd]; [done|apply handleACPUpdate_ok| |done|done].
  split; [apply emit_ids|apply emit_processes].
Qed.

Lemma resumeArgs_same probed sid prompt legacy c :
  let c' := (resumeArgs probed sid prompt legacy c).2 in
  shown c' = shown c /\ sequences c' = sequences c /\ runIDs c' = runIDs c /\ nextRun c' = nextRun c /\ same_processes c c'.
Proof. done. Qed.

Lemma sendPromptInDir_ok available probed launch sid prompt wd legacy now c :
  ids_sound c -> prompts_sound c ->
  let c' := (sendPromptInDir available probed launch sid prompt wd legacy now c).2 in ids_sound c' /\ prompts_sound c'.
Proof.
  intros Hi Hp. unfold sendPromptInDir. destruct (IsSessionRunning c sid) eqn:Hb; [done|]. destruct available; [|done]. cbn [negb].
  pose proof (resumeArgs_same probed sid prompt legacy c) as Hr. cbv zeta in Hr.
  destruct (resumeArgs probed sid prompt legacy c) as [r c1]. cbn [snd] in Hr. destruct Hr as (E1 & E2 & E3 & E4 & E5 & E6 & E7).
  assert (Hi1 : ids_sound c1) by (unfold ids_sound; by rewrite E1, E2, E3, E4).
  assert (Hp1 : prompts_sound c1) by (by apply (same_processes_sound c)).
  destruct r as [args|e]; [|done]. cbv zeta.
  assert (Hi2 : ids_sound (beginRunLocked sid now c1)) by (by apply begin_ids).
  unfold StartWithDir. cbn [running NewAgentExecutor]. destruct (launch args wd) as [[]|e]; cbn; [|split; [by apply forget_ids|done]].
  split; [exact Hi2|]. unfold prompts_sound. cbn.
  apply (launch_sound _ _ _ (CloseStdin (mkExecutor sid true true (-1) false false)) Hp1). cbn. intros p y Hx Hy.
  unfold IsSessionRunning, executor_of in Hb. rewrite <- E5, <- E6 in Hb. rewrite Hx in Hb. cbn in Hb. by rewrite Hy in Hb.
Qed.

Lemma output_line_ok e src line now c c' : output_line e src line now c = Some c' -> ids_sound c -> prompts_sound c ->
  ids_sound c' /\ prompts_sound c'.
Proof.
  unfold output_line. destruct (heap c !! e) as [x|] eqn:Ex; cbn; [|done]. destruct (running x) eqn:Er; [|done]. cbn [negb].
  destruct (suppress src x) as [sup x'] eqn:Es. intros [= <-] Hi Hp.
  assert (Hx : session x' = session x /\ running x' = running x) by (unfold suppress in Es; destruct (String.eqb src "stdout"); by injection Es as _ <-).
  destruct Hx as [Hx Hx']. set (c1 := set_processes c (<[e := x']> (heap c)) (executors c) (nextID c)).
  assert (Hi1 : ids_sound c1) by exact Hi.
  assert (Hp1 : prompts_sound c1) by (apply (update_sound _ _ _ e x x'); [done|done|by rewrite Hx'|done]).
  destruct sup; [done|]. destruct (handleProcessLine src line) as [[[t text] id]|]; [|done].
  split; [by apply emit_ids|]. apply (same_processes_sound c1); [apply emit_processes|done].
Qed.

Lemma exit_report_ok e now c c' : exit_report e now c = Some c' -> ids_sound c -> prompts_sound c -> ids_sound c' /\ prompts_sound c'.
Proof.
  unfold exit_report. destruct (heap c !! e) as [x|]; cbn; [|done]. destruct (running x); [done|]. intros [= <-] Hi Hp.
  destruct (is_empty _); [done|]. split; [by apply emit_ids|]. by apply (same_processes_sound c); [apply emit_processes|].
Qed.

Lemma forget_ok e x c : heap c !! e = Some x -> running x = false -> ids_sound c -> prompts_sound c -> ids_sound (forget e c) /\ prompts_sound (forget e c).
Proof.
  intros He Hr Hi Hp. unfold forget. rewrite He. case_bool_decide as Hx; [|done]. split; [by apply forget_ids|].
  by apply (delete_sound _ _ _ e x).
Qed.

Lemma InterruptSession_ok sg cn sid c : ids_sound c -> prompts_sound c ->
  let c' := (InterruptSession sg cn sid c).2 in ids_sound c' /\ prompts_sound c'.
Proof.
  intros Hi Hp. unfold InterruptSession. destruct (Interrupt_target sid c) as [[p|p]|]; [|done|done].
  destruct (heap c !! p) as [x|] eqn:Ex; [|done]. unfold Interrupt. destruct (running x) eqn:Er; cbn; split; try exact Hi.
  - by apply (update_sound _ _ _ p x).
  - by apply (update_sound _ _ _ p x).
Qed.

Lemma step_ok ev w w' : step ev w = Some w' -> ids_sound (commander w) -> prompts_sound (commander w) ->
  ids_sound (commander w') /\ prompts_sound (commander w').
Proof.
  intros Hst Hi Hp. destruct ev; cbn in Hst.
  - injection Hst as <-. by apply sendPromptInDir_ok.
  - apply fmap_Some in Hst as (c' & Hc & ->). by apply output_line_ok in Hc.
  - destruct (heap (commander w) !! e) as [x|] eqn:Ex; cbn in Hst; [|done]. destruct (running x) eqn:Er; [|done]. injection Hst as <-.
    split; [exact Hi|]. by apply (update_sound _ _ _ e x).
  - apply fmap_Some in Hst as (c' & Hc & ->). by apply exit_report_ok in Hc.
  - destruct (heap (commander w) !! e) as [x|] eqn:Ex; cbn in Hst; [|done]. destruct (running x) eqn:Er; [done|]. injection Hst as <-.
    by apply (forget_ok e x).
  - destruct (threads w !! t); [done|]. by injection Hst as <-.
  - destruct (threads w !! t) as [x|]; cbn in Hst; [|done]. destruct (on_notice_ok now n x (commander w)) as [H1 H2].
    destruct (on_notice now n x (commander w)) as [x' c']. injection Hst as <-. split; [by apply H1|by apply (same_processes_sound (commander w))].
  - destruct (threads w !! t) as [x|]; cbn in Hst; [|done]. injection Hst as <-. unfold register_run. cbn. by destruct (exited x).
  - injection Hst as <-. by apply InterruptSession_ok.
Qed.

Inductive kimi_reachable : world -> Prop :=
  | kimi_new : kimi_reachable (mkWorld NewKimiCommander ∅)
  | kimi_next ev w w' : kimi_reachable w -> step ev w = Some w' -> kimi_reachable w'.

Lemma reachable_sound w : kimi_reachable w -> ids_sound (commander w) /\ prompts_sound (commander w).
Proof.
  induction 1 as [|ev w w' _ [Hi Hp] Hst]; [|by apply (step_ok ev w)]. split; constructor; cbn; try done; try lia.
  - apply NoDup_nil_2.
  - intros o m s Ho. by apply not_elem_of_nil in Ho.
  - intros m s Ho. by apply not_elem_of_nil in Ho.
Qed.

(** ** What holds in every interleaving *)

Definition is_made (o : output) : bool := match oMade o with Some _ => true | None => false end.


(** A property of the processes: in every interleaving a session has at most one
    process in print mode that runs; while it runs a prompt is refused without an
    effect, and an interruption is aimed at it. *)
Theorem kimi_one_print_process w p x : kimi_reachable w -> heap (commander w) !! p = Some x -> running x = true ->
  (forall q y, heap (commander w) !! q = Some y -> running y = true -> session y = session x -> q = p) /\
  Interrupt_target (session x) (commander w) = Some (Executor p) /\
  (forall available probed launch prompt wd legacy now, exists msg,
     sendPromptInDir available probed launch (session x) prompt wd legacy now (commander w) = (Err (ErrSessionBusy +:+ msg), commander w)).
Proof.
  intros [_ H]%reachable_sound Hp Hx. pose proof (running_known _ _ _ H p x Hp Hx) as Ht. split_and!.
  - intros q y Hq Hy Es. pose proof (running_known _ _ _ H q y Hq Hy) as Hk. rewrite Es in Hk. congruence.
  - unfold Interrupt_target. by rewrite Ht.
  - intros. unfold sendPromptInDir, IsSessionRunning, executor_of. rewrite Ht. cbn. rewrite Hp. cbn. unfold IsRunning. rewrite Hx. by eexists.
Qed.

(** ** Concrete runs *)

Module Demo.

Fixpoint run_all (evs : list event) (w : world) : option world :=
  match evs with [] => Some w | ev :: evs => w' ← step ev w; run_all evs w' end.

Lemma run_all_reachable evs : forall w w', kimi_reachable w -> run_all evs w = Some w' -> kimi_reachable w'.
Proof.
  induction evs as [|ev evs IH]; intros w w' Hw; cbn; [by intros [= <-]|].
  destruct (step ev w) as [w1|] eqn:E; cbn; [|done]. apply IH. by eapply kimi_next.
Qed.

Definition launched : list string -> string -> res unit := fun _ _ => Ok tt.
Definition current_cli : res string := Ok "Usage: kimi --session".
Definition initial : world := mkWorld NewKimiCommander ∅.
Definition world_after (evs : list event) : world := default initial (run_all evs initial).

Lemma world_reachable evs : run_all evs initial <> None -> kimi_reachable (world_after evs).
Proof.
  unfold world_after. destruct (run_all evs initial) as [w|] eqn:E; [|done]. intros _. cbn. apply (run_all_reachable evs initial); [constructor|done].
Qed.

(** Two prompts at the same time of the clock, two lines and a failure. *)
Definition two_turns : list event :=
  [PromptSent true current_cli launched "s" "hi" "" false 7; LineRead 0 "stdout" "one" 7; LineRead 0 "stdout" "two" 7;
   LineRead 0 "stderr" "no" 7; ProcessEnded 0 1; PromptSent true current_cli launched "s" "again" "" false 7; LineRead 1 "stdout" "three" 7;
   ExitReport 0 7; ExitForget 0].

Example two_turns_ids : oID <$> shown (commander (world_after two_turns)) = ["kimi_s_7_1_1"; "kimi_s_7_1_2"; "kimi_s_7_2_1"; "kimi_s_7_2_2"].
Proof. vm_compute. reflexivity. Qed.


Lemma kimi_one_print_process_witness : exists p, Interrupt_target "s" (commander (world_after two_turns)) = Some (Executor p).
Proof.
  assert (exists x, heap (commander (world_after two_turns)) !! 1%nat = Some x /\ running x = true /\ session x = "s") as (x & Hx & Hr & Hs)
    by (eexists; split_and!; vm_compute; reflexivity).
  exists 1%nat. rewrite <- Hs. apply (kimi_one_print_process (world_after two_turns) 1%nat x); [|exact Hx|exact Hr].
  apply world_reachable. vm_compute. discriminate.
Defined.

(** The first turn of a thread is no executor: a prompt that comes while it runs is
    not refused as busy but starts a second process on the session, and an
    interruption is then aimed at that one. *)
Definition during_first_turn : list event :=
  [ThreadStarts 0; Notice 0 (AcpStart.SessionCreated "s") 7; ThreadRegistered 0 "s"; PromptSent true current_cli launched "s" "hi" "" false 8].

Example first_turn_is_not_busy :
  Interrupt_target "s" (commander (world_after (take 3 during_first_turn))) = Some (ACPRun 0) /\
  Interrupt_target "s" (commander (world_after during_first_turn)) = Some (Executor 0) /\
  acpRuns (commander (world_after during_first_turn)) !! "s" = Some 0%nat.
Proof. split_and!; vm_compute; reflexivity. Qed.
End Demo.
